(* ===== verification/_CoqProject ===== *)
-Q . S2P
Prelude.v
PyDict.v
PyState.v
AddressManager.v
AddressSpace.v
TensorAllocator.v
TTLLock.v
L1Manager.v
L1ManagerProofs.v
L1Memory.v
StorageEngine.v
PyFloat.v
EvictionPolicy.v
QuotaManager.v
EvictionController.v
BatchBlob.v
Bitmap.v
Fold.v
PrefetchPlan.v
KeyLedger.v
PrefetchController.v
AdapterRoster.v
PrefetchControllerProofs.v
PrefetchRuns.v
PrefetchL1.v
PrefetchDemo.v
StorageManager.v
StorageManagerProofs.v
StorageManagerDemo.v
StoreController.v
StoreControllerProofs.v
StoreRuns.v
StoreDemo.v
StorageSystem.v
StorageSystemProofs.v
StorageSystemDemo.v
ObjectKey.v
Utf8.v
EventGate.v
PySet.v
CacheEvents.v
CoordinatorKeys.v
UsageManager.v
BlendIndex.v
KeyDirectory.v
KeyDirectoryProofs.v
DirectoryRuns.v
DirectoryTheorems.v
ServerConfig.v
ViewsAgree.v
FleetEviction.v
FleetEvictionProofs.v
Coordinator.v
CoordinatorProofs.v
CoordinatorTheorems.v
CoordinatorDemo.v
ArithmeticCoder.v
ArithmeticDecoder.v
ArithmeticTables.v
LowBitPacking.v
EntropyCodec.v
EntropyProofs.v
Json.v
MakvFormat.v
MakvFormatProofs.v
MakvTheorems.v
CachePolicies.v
LFUPolicy.v
EngineKey.v
LocalCPU.v
LocalCPUProofs.v
LocalCPUTheorems.v
EngineKeyProofs.v
LocalCPUDemo.v
TokenDatabase.v
TokenDatabaseProofs.v
PagedAllocator.v
PagedAllocatorProofs.v
PagedTheorems.v
