(* ===== verification/Prelude.v ===== *)
(** * LMCache/MaKV: a verified model of the key-value cache's storage core

    ** The program

    The repository caches the attention state of large-language-model requests
    as objects, one per (chunk of tokens, object group, rank), named by an
    [ObjectKey]. The part verified here is the storage core of the distributed
    path, [src/lmcache/v1/distributed], with the pieces it stands on:

    - a pool of host memory handed out by a free-list address allocator
      ([AddressManager]) and wrapped into reference-counted, pinnable memory
      objects ([TensorMemoryAllocator], [TensorMemoryObj], [PinMonitor]);
    - the L1 cache ([L1Manager]): a dictionary from key to memory object with a
      read and a write lock that expire ([TTLLock]), whose operations emit
      notifications;
    - eviction: policies that follow the notifications (LRU, isolated LRU per
      cache salt), byte quotas per salt, and the controllers whose passes turn
      usage into deletions;
    - lookup and prefetch: results are bitmaps over the requested keys
      ([Bitmap]); fold and unfold translate between per-key presence and the
      prefix of chunks every object group can serve; the prefetch planner
      decides which second-tier adapter loads which key and which keys are kept;
      the prefetch controller drives each request through lookup and load in a
      background loop, and the storage manager splits a lookup between the L1
      cache and that controller;
    - storing: the store controller copies freshly written objects to the
      adapters in a loop of its own; the storage manager owns both controllers
      and adds and deletes adapters while they run;
    - the forms in which data leaves the process: the MKVB batch envelope and
      its frames, and the serialised forms of a key;
    - the coordinator of a fleet of such servers,
      [src/lmcache/v1/mp_coordinator]: a gate admits the servers' reports of cache
      events in order, a broadcaster hands them to three views (bytes used, where
      each key is, declared capacities) and to the eviction controller, which
      plans deletions for tenants over their quota; membership follows
      heartbeats, and a checkpoint and a metadata artifact, where configured, carry
      the state across a restart;
    - the MaKV codec, [src/lmcache/v1/storage_backend/makv]: quantised payloads are
      arithmetic-coded in small streams, and objects and put requests are written as
      blobs of JSON metadata, a table of payloads and a checksum;
    - the cache of the older in-process path: the token database turns prompts into
      keys, the CPU backend keeps memory objects under those keys and evicts by one of
      four policies when an allocation does not fit.

    ** Files

    A Python function that raises is a function into [result]; a method is a
    function on the record of its object's fields that returns the new record.
    Definitions keep the names of the source.

    - [Prelude]: results, exceptions, the notation of the error monad, tactics
      ([zcases], ...) and lemmas on lists, sorting and integers.
    - [PyDict]: insertion-ordered dictionaries ([dict], [OrderedDict]).
    - [PyState]: the state-and-exception monad of methods that keep what they
      did before they raised.
    - [AddressManager]: [FreeBlock] and [AddressManager] of memory_management.py;
      [allocate], [batched_allocate], [free], [sbrk], [check_consistency], and
      the ownership invariant [owned]. [AddressSpace]: the byte-level reading
      of that invariant and a step relation for callers.
    - [TensorAllocator]: [MemoryObjMetadata], [TensorMemoryObj] and
      [TensorMemoryAllocator] over a store of shared objects ([World]), and
      [PinMonitor] of pin_monitor.py.
    - [PagedAllocator]: paged_tensor_memory_allocator.py with the methods of its
      objects; [PagedAllocatorProofs]: its methods as compositions of three steps,
      and the invariant; [PagedTheorems]: disciplined runs, and the theorems.
    - [TTLLock]: csrc/lmcache_native/ttl_lock.cpp.
    - [L1Manager]: l1_manager.py, one function per public operation, over the
      interface [MemoryManager] (a type class with laws [MemoryManagerSpec]).
      [L1ManagerProofs]: its theorems, proved against the interface. [L1Memory]:
      [L1MemoryManager] over [MixedMemoryAllocator] discharges the laws from the
      theorems of [TensorAllocator]; its module [Demo] runs the cache on the real
      allocator and holds the witnesses.
    - [StorageEngine]: the calls of storage_manager.py that go straight to the L1
      manager: writing, the read context manager, releasing and deleting.
    - [PyFloat]: the few operations on binary64 numbers the watermarks need, on
      the Standard Library's [SpecFloat].
    - [EvictionPolicy]: eviction_policy/lru.py, isolated_lru.py, noop.py and the
      bridges of eviction.py.
    - [QuotaManager]: quota_manager.py.
    - [EvictionController]: eviction_controller.py, and the cache and a policy
      joined by the notifications.
    - [BatchBlob]: makv_remote/protocol.py byte for byte, with [struct] packing
      in module [Struct].
    - [Bitmap]: csrc/lmcache_native/bitmap.cpp on packed bytes.
    - [Fold]: bitmap_ops/fold.py and csrc/lmcache_native/fold.cpp.
    - [PrefetchPlan]: prefetch_policy.py and the planning functions of
      prefetch_controller.py.
    - [PrefetchController]: the request state machine and the loop of
      prefetch_controller.py, against two interfaces: [L1Client] (the calls it
      makes on the cache) and [L2Adapters] (the services behind the adapters).
      Every call is appended to a log, which nothing reads. [KeyLedger]: sums
      over that log. [PrefetchControllerProofs]: what each handler does to one
      request, as a weakest-precondition calculus over the request's view, under
      [L1ClientSpec] and [L2AdaptersSpec]. [PrefetchRuns]: the invariant of the
      whole controller and its step relation with the other threads.
      [PrefetchL1]: [L1Manager] implements [L1Client] with its laws.
      [PrefetchDemo]: a store behind one adapter, and the witnesses.
    - [AdapterRoster]: the protocol of adapter_lifecycle.py, by which adapters
      join and leave a controller, as a machine of its own; a round of either
      controller is a sequence of its turns.
    - [StorageManager]: the prefetch path of storage_manager.py;
      [StorageManagerProofs] adds up the calls of both components, and
      [StorageManagerDemo] runs a lookup through the whole stack.
    - [StoreController]: store_controller.py and store_policy.py, against
      [L1Client] and the store half of the adapters ([L2StoreAdapters]).
      [StoreControllerProofs]: each handler under the controller's invariant;
      [StoreRuns]: the loop, the step relation and the theorems; [StoreDemo]:
      the controller over the real L1 manager, and the witnesses.
    - [StorageSystem]: the manager with both controllers over one world: the
      adapter tables, [add_l2_adapter] and [delete_l2_adapter] cut at the points
      where they wait, and the usage and capacity reports.
      [StorageSystemProofs]: the step relation, the simulation of each controller
      and the life cycle theorems; [StorageSystemDemo]: an adapter comes and goes.
    - [ObjectKey]: api.py's [ObjectKey] and the serialisations of
      mp_coordinator/utils/encoding.py and of the file-system, S3 and native
      adapters.
    - [EventGate]: mp_coordinator/ingest/event_gate.py and event_broadcaster.py.
    - [PySet]: Python sets and dictionaries of sets, and sums over a dictionary.
    - [CacheEvents]: mp_coordinator/api.py and the request of schemas.py: batches
      with their checks, and [KeyCodec], the interface by which the views see keys.
      [CoordinatorKeys]: [ObjectKey] implements it.
    - [UsageManager]: views/usage_manager.py. [BlendIndex]: blend_index.py and the
      rolling hash of multiprocess/token_hasher.py. [KeyDirectory]:
      views/key_directory.py; [KeyDirectoryProofs]: its invariant and what each
      operation does to the abstract view; [DirectoryRuns]: runs and restarts;
      [DirectoryTheorems]: the theorems. [ServerConfig]: views/server_config.py.
      [ViewsAgree]: the abstract views of usage and directory compared.
    - [FleetEviction]: registry.py, controllers/eviction_controller.py and the
      capture of isolated_lru.py; [FleetEvictionProofs]: the policy under the
      event stream, and the plan.
    - [Coordinator]: app.py with the handlers of http_apis that change state;
      [CoordinatorProofs]: the invariant of a run; [CoordinatorTheorems] and
      [CoordinatorDemo]: the theorems, concrete runs and the witnesses.
    - [ArithmeticCoder], [ArithmeticDecoder], [ArithmeticTables]: the arithmetic coder
      of platform/torch_ops.py with its frequency tables and its calls over tensors.
    - [LowBitPacking]: packing of makv/entropy.py and reference_dequant.py.
      [EntropyCodec]: makv/entropy.py; [EntropyProofs]: its theorems.
    - [Utf8]: UTF-8 and strings as code points. [Json]: Python's [json.dumps] and
      [json.loads], which implement the codec [BatchBlob] asks for.
    - [MakvFormat]: makv/format.py with CRC-32; [MakvFormatProofs], [MakvTheorems]:
      the layout of a blob, and the theorems.
    - [CachePolicies]: storage_backend/cache_policy, the interface [CachePolicy] with
      its laws [CachePolicySpec], and FIFO, MRU and LRU under them; [LFUPolicy]: LFU
      under them, and its history of uses.
    - [EngineKey]: the keys of utils.py; [EngineKeyProofs]: their round trips.
    - [LocalCPU]: storage_backend/local_cpu_backend.py over any policy and the tensor
      allocator; [LocalCPUProofs]: each operation under the invariant [lb_ok];
      [LocalCPUTheorems]: runs of threads, the allocation loops and the chunk budget;
      [LocalCPUDemo]: concrete runs and the witnesses.
    - [TokenDatabase]: token_database.py; [TokenDatabaseProofs]: its theorems.

    ** What the theorems show

    Memory. In every reachable state the free list is the unique
    coalesced complement of the live ranges, live ranges are aligned, inside the
    pool and disjoint, and counters are exact; allocation succeeds exactly when
    a block fits and a batch is all or nothing. Lifted to memory objects: only
    the narrowing of an object to a size outside of its memory raises, two valid objects never expose a common
    byte, batched release equals one-by-one release, and an object stays valid
    exactly as long as it is referenced or pinned. The paged allocator gives the
    same to clients that touch only pages they hold: batches equal single calls, and
    one that does not fit leaves no trace; a page released twice gets two owners.

    The L1 cache. No object is read-locked and write-locked
    together; memory is live exactly when a key holds it; an object that is
    still locked is not removed; a successful reservation holds for its time to
    live. Two theorems show where the code departs from that contract: a key listed
    twice in one reservation loses its first object, and a write that never finished
    becomes readable when its lock expires.

    Eviction. Victim selection refines a last-use clock; the
    isolated policy is one LRU per salt; the policy never tracks a key the cache
    lacks; a pass keeps every invariant and touches nothing locked; a quota pass
    deletes only from salts over their quota. One theorem shows that the L1 loop
    cannot drive the isolated policy.

    Wire. Envelopes and frames round trip; decoding
    arbitrary bytes raises [ValueError] or returns disjoint in-bounds ranges, and
    the streaming validation agrees with the whole one; keys round trip through
    each serialisation, with the exact condition for file names; each consumer
    sees an emitter's events in order and at most once between fences.

    Lookup. The packed bitmap implements its bit-level
    specification; the native kernels equal the Python references; the hit is
    the longest prefix all groups can serve and the retain mask is exactly the
    keys it needs; every kept key is in L1 or loaded by one adapter that has it.

    Prefetch. Over every interleaving of the loop with submissions,
    queries, adapters that come and go and the rest of the system, the locks and
    reservations a request's calls add up to are the ones its record claims, and
    a completed request, whose loads did not outlast their write locks, has left
    exactly the locks its result promises; without new submissions, a bounded number of
    iterations completes every request. Through the
    storage manager: the bitmap a lookup returns marks exactly the keys that its
    calls, in both components, left read-locked, under the same condition. The request limit is kept, the
    status counters are exact, and the records of requests are well-formed.

    Store. Over every interleaving of the loop with writers and adapters that come
    and go, the read locks the controller holds are exactly those of the tasks in
    flight, and stopping gives them all back; one round offers every new key to
    every live adapter and drops every reported task; a key is deleted from L1
    only after an adapter confirmed it.

    The system. Every run of the manager with both controllers, lookups, writers
    and adapters added and deleted at run time projects to a run of each
    controller, so the theorems above hold in it, and the conditions they place on
    new adapters are met by the manager's identifier counter. An adapter that was
    closed is in no table, queue, task or record of a request ever again; adding returns only when both controllers
    route to the adapter and deleting only when nobody holds it. What the engine
    writes through the manager it reads back, object for object.

    The coordinator. After any admitted stream, with fences and restarts, the
    directory answers with exactly the placements the stream leaves, the usage
    view with the sums of their sizes, and the capacity registry with the newest
    declaration; without shared pools in L1 the two views agree. Fragment lookup
    through fingerprints equals comparing contents when fingerprints of distinct
    contents differ, and a theorem shows what goes wrong otherwise. The eviction
    plan names only unpinned least recently used keys of tenants over their
    watermark and misses no such tenant; plans that are obeyed bring a tenant
    without pins under its quota; a restart loses the membership, and otherwise answers as
    at the last checkpoint with the last quotas and pins, or as a fresh process where no
    artifact is configured. Two concrete
    runs show a shared L1 pool on which the views disagree and a server that died
    during a restart and is never fenced.

    The MaKV codec. What the arithmetic coder writes with the tables of the data it
    reads back, in fewer bytes than its buffers have; entropy coding leaves every
    quantised tensor as it was. The loop that places payloads behind the metadata that
    states their offsets ends; objects and put requests read back; decoding arbitrary
    bytes is safe and no single wrong byte gets past the checksum.

    The in-process path. The LFU policy evicts by a counter per key. Over every
    interleaving of threads the reference counts of the CPU cache are exact, no memory
    in use is handed out again, and nothing leaks; allocation without a busy loop
    returns and evicts only what can go, and a single one gives up only when nothing can;
    the chunk
    budget is the capacity of the pool; only a get of several keys and a touch can
    raise. Keys round trip through their strings and dictionaries. Without hash
    collisions a key of the chunked database stands for a prefix, and the segments of
    the other are the prompt cut at its separators. Concrete runs show four defects:
    LFU with layerwise eviction forgets keys, a touch of a removed key fails for ever, a
    failed get keeps references, and overlapping separators shift the ranges.

    ** Parameters and their laws

    [sortedcontainers.SortedList] ([SortedListOps] with [SortedListSpec],
    instance [ListSortedList]) and [SortedDict] ([SortedDictOps] with
    [SortedDictSpec], instance [map_sorted_dict]); torch dtypes (an [itemsize]) and
    which of them a build of torch has ([TorchBuild]); JSON for frame headers
    ([JsonCodec], a codec that round trips, instance [python_json]); the text Python
    gives floats, lists and dictionaries ([PyRepr]) and configuration values
    ([ConfigValue]); the hash function of vLLM and the tokens of the separator, as
    arguments of the token database, where one theorem asks that hashes do not collide;
    the services behind the L2
    adapters ([L2Adapters] with [L2AdaptersSpec]: a task answers at most with a
    bitmap of its size; [L2StoreAdapters] with [L2StoreSpec]: task identifiers
    are unique within an adapter; [L2Management] with [L2ManagementSpec]: closing
    an adapter leaves the tasks of others alone), the event descriptors the
    operating system gives a new adapter (not in use by an open one), the iteration
    order of a Python set, numpy's conversion of token lists to 32-bit arrays
    ([UInt32Array]), the index [random.choice] picks, and how the rest of the system
    may move while a component waits ([WorldModel]). Each theorem over a parameter has
    a witness with a concrete instance.

    ** Bounds and fuel

    - Python integers are unbounded and are [Z]. The native kernels compute in
      [size_t]: [u64] wraps, and the theorems about them assume only that the
      number of keys is below [2 ^ 64]. Bytes of a bitmap are [u8].
    - Fuel is always a bound of the loop it drives and never runs out:
      [unpin_loop] gets the pin count, [entries_loop] the number of entries,
      [fromhex_loop] and [replace_loop] the length of the string, [hex_digits]
      the binary logarithm of the number, [byte_indices] the eight bits of a
      byte, [start_pending_loop] the length of the queue it drains, [grow] the
      binary logarithm of the size it grows to, [slices] the length of the list it
      cuts, [offsets_fixpoint] the number of payloads times the digits of an offset,
      the renormalisation of the coder 33 rounds (a width of at least 1 doubles in each
      and stays below [2 ^ 32]), its search the length of the table, the JSON parser
      twice the length of the text, [range_from] its end. Each has a lemma that gives
      its full result, not only a conditional one. The allocation loops of the CPU cache
      take fuel as an argument, and one round more than there are entries is enough
      unless the caller asked to wait for others.
    - The eviction plan scales integers by binary64 ratios. Its theorems ask that
      limits are below [2 ^ 512] and key counts below [2 ^ 53] ([settings_ok]), so
      that no conversion overflows and counts are exact.
    - Clock readings are arguments, monotone along a run; an operation that
      reads the clock several times takes several readings.

    ** Not modelled

    Threads, sleeping, logging, metrics and status reports (operations that run
    under one lock are one step); GPU transfers and kernels; device mappings; the
    network and file input and output of the adapters; command line and dashboards. Of
    storage_manager.py the runtime reconfiguration of adapters, [close] and status
    dictionaries; how long a wait may take (a wait ends with its event or by timing
    out). Of the coordinator the byte encodings and stores of its artifacts, the lock
    that quiesces ingest while they are captured, the prefetch manager, and handlers
    that only read. Of the in-process path the cache engine and the disk and remote
    backends, which move device tensors in asyncio loops; the sizing of the CPU pool;
    the search for a hash function in the versions of vLLM. Of MaKV the quantiser, whose
    arithmetic is torch's floating point, and the servers. Of Python its limits on the
    nesting of JSON and on integer literals, and characters outside ASCII where [int]
    and [isdigit] look at them. The emitter of cache events in a server and
    the wrappers of the two allocators are the next that would extend this development. *)

From stdpp Require Export base list option strings gmap sorting.
From Stdlib Require Export ZArith Lia.

(** ** Exceptions and results

    Python code that raises is a function into [result]; the constructors of
    [exn] are the exception classes the modelled code raises itself. *)

Inductive exn :=
| ValueError
| RuntimeError
| ZeroDivisionError
| KeyError
| IndexError
| AttributeError
| OverflowError
| AssertionError
| StructError
| IncompleteReadError
| TypeError
| ImportError
| TimeoutError.

Inductive result (A : Type) :=
| Ok (a : A)
| Raise (e : exn).
Arguments Ok {A} a.
Arguments Raise {A} e.

Definition rbind {A B} (m : result A) (f : A -> result B) : result B :=
  match m with
  | Ok a => f a
  | Raise e => Raise e
  end.

Declare Scope py_scope.
Delimit Scope py_scope with py.
Notation "x <-? m ; f" := (rbind m (fun x => f))
  (at level 100, m at next level, right associativity) : py_scope.
Notation "'guard' b 'else' e ; f" :=
  (if (b : bool) then f else Raise e)
  (at level 100, b at level 99, e at level 0, right associativity) : py_scope.

#[export] Instance exn_eq_dec : EqDecision exn.
Proof. solve_decision. Defined.

Create HintDb pydict.
Create Rewrite HintDb pydict.

(** case analysis on the integer comparisons of the goal *)
Ltac zcases := repeat match goal with
  | |- context [Z.leb ?a ?b] => destruct (Z.leb_spec a b)
  | |- context [Z.ltb ?a ?b] => destruct (Z.ltb_spec a b)
  end; cbn [andb orb negb]; try lia.

(** ** Lists *)

Lemma filter_all {A} (P : A → Prop) `{!∀ x, Decision (P x)} l : Forall P l → filter P l = l.
Proof. induction 1; [done|]. rewrite filter_cons, decide_True by done. by f_equal. Qed.

Lemma filter_none {A} (P : A → Prop) `{!∀ x, Decision (P x)} l :
  Forall (λ x, ¬ P x) l → filter P l = [].
Proof. induction 1; [done|]. by rewrite filter_cons, decide_False by done. Qed.

(** ** [list.sort(key=...)]: a stable sort *)

Section sort_by.
Context {A : Type} (key : A → Z).

Fixpoint insert_by (x : A) (l : list A) : list A :=
  match l with
  | [] => [x]
  | y :: l' => if (key x <=? key y)%Z then x :: y :: l' else y :: insert_by x l'
  end.

Definition sort_by (l : list A) : list A := foldr insert_by [] l.

Lemma insert_by_perm x l : insert_by x l ≡ₚ x :: l.
Proof.
  induction l as [|y l IH]; simpl; [done|]. destruct (_ <=? _)%Z; [done|].
  rewrite IH. apply Permutation_swap.
Qed.

Lemma sort_by_perm l : sort_by l ≡ₚ l.
Proof. induction l as [|x l IH]; simpl; [done|]. by rewrite insert_by_perm, IH. Qed.

Definition key_le (x y : A) : Prop := (key x <= key y)%Z.

Lemma insert_by_sorted x l : StronglySorted key_le l → StronglySorted key_le (insert_by x l).
Proof.
  unfold key_le. induction 1 as [|y l HS IH Hy]; simpl; [repeat constructor|].
  destruct (Z.leb_spec (key x) (key y)).
  - constructor; [by constructor|]. constructor; [done|]. eapply Forall_impl; [done|]. simpl. lia.
  - constructor; [done|]. rewrite insert_by_perm. constructor; [lia|done].
Qed.

Lemma sort_by_sorted l : StronglySorted key_le (sort_by l).
Proof. induction l; simpl; [constructor|]. by apply insert_by_sorted. Qed.

End sort_by.

Lemma alter_cons_S {A} (f : A → A) i x (l : list A) : alter f (S i) (x :: l) = x :: alter f i l.
Proof. done. Qed.

Lemma list_alter_same {A} (f : A → A) i (l : list A) :
  (∀ x, l !! i = Some x → f x = x) → alter f i l = l.
Proof. intros Hf. rewrite (list_alter_ext f id l l i) by done. by apply list_alter_id. Qed.

Lemma list_alter_comm {A} (f g : A → A) i j (l : list A) :
  (∀ x, f (g x) = g (f x)) → alter f i (alter g j l) = alter g j (alter f i l).
Proof.
  intros Hc. apply list_eq. intros k. rewrite !list_lookup_alter.
  repeat case_decide; subst; try done. destruct (l !! _); simpl; by rewrite ?Hc.
Qed.

Lemma alter_cons_0 {A} (f : A → A) x (l : list A) : alter f 0 (x :: l) = f x :: l.
Proof. done. Qed.

Lemma list_alter_compose' {A} (f g : A → A) i (l : list A) :
  alter (f ∘ g) i l = alter f i (alter g i l).
Proof.
  apply list_eq. intros k. rewrite !list_lookup_alter. repeat case_decide; subst; try done.
  by destruct (l !! k).
Qed.

(** ** Sorted lists *)

Lemma StronglySorted_app_iff {A} (R : A → A → Prop) l1 l2 :
  StronglySorted R (l1 ++ l2) ↔
  StronglySorted R l1 ∧ StronglySorted R l2 ∧ (∀ x y, x ∈ l1 → y ∈ l2 → R x y).
Proof.
  induction l1 as [|a l1 IH]; simpl.
  - split; [|naive_solver]. intros; split_and!; [constructor | done |].
    intros x y Hx. by apply not_elem_of_nil in Hx.
  - split.
    + intros [HS Ha]%StronglySorted_inv. apply IH in HS as (?&?&?).
      rewrite Forall_app, !Forall_forall in Ha. destruct Ha.
      split_and!; [constructor; [done | by rewrite Forall_forall] | done |].
      intros x y [->|?]%elem_of_cons ?; eauto.
    + intros ([HS Ha]%StronglySorted_inv & ? & Hc). constructor.
      * apply IH. split_and!; [done..|]. intros; apply Hc; [by right | done].
      * rewrite Forall_app. split; [done|]. rewrite Forall_forall. intros. apply Hc; [left | done].
Qed.

Lemma sorted_filter {A} (R : A → A → Prop) (P : A → Prop) `{∀ x, Decision (P x)} l : StronglySorted R l → StronglySorted R (filter P l).
Proof.
  induction 1 as [|x xs HS IHS HF]; [constructor|]. rewrite filter_cons. destruct (decide (P x)); [|exact IHS]. constructor; [exact IHS|].
  rewrite Forall_forall in *. intros y [_ Hy]%list_elem_of_filter. by apply HF.
Qed.

Lemma StronglySorted_cons_iff {A} (R : A → A → Prop) x l :
  StronglySorted R (x :: l) ↔ StronglySorted R l ∧ (∀ y, y ∈ l → R x y).
Proof.
  split.
  - intros [? ?]%StronglySorted_inv. rewrite Forall_forall in *. done.
  - intros [? ?]. constructor; [done|]. by rewrite Forall_forall.
Qed.

(** a pairwise symmetric relation does not depend on the order *)
Lemma StronglySorted_sym_perm {A} (R : A → A → Prop) l l' :
  (∀ x y, R x y → R y x) → l ≡ₚ l' → StronglySorted R l → StronglySorted R l'.
Proof.
  intros Hsym. induction 1 as [|x l l' HP IH|x y l|l1 l2 l3 ? IH1 ? IH2]; [done| | |by auto].
  - rewrite !StronglySorted_cons_iff. intros [? Hx]. split; [auto|].
    intros y Hy. apply Hx. by rewrite HP.
  - rewrite !StronglySorted_cons_iff. intros [[? Hy] Hx]. split_and!; [done| |].
    + intros z Hz. apply Hx. by right.
    + intros z [->|Hz]%elem_of_cons; [apply Hsym, Hx; left | auto].
Qed.
