(* ===== verification/PyDict.v ===== *)
(** * Python dictionaries

    [dict] and [collections.OrderedDict] keep insertion order, and the code
    relies on it (LRU order, the order keys are handed to listeners), so a
    dictionary is an association list without duplicate keys: a new key is
    appended, assigning to a present key keeps its position, [move_to_end]
    moves it to the back. [dget] is the abstraction to a finite function. *)

From S2P Require Import Prelude.

Section pydict.
Context {K V : Type} `{EqDecision K}.
Implicit Types (d : list (K * V)) (k : K) (v : V).

Fixpoint dget d k : option V :=
  match d with
  | [] => None
  | (k', v) :: d' => if decide (k' = k) then Some v else dget d' k
  end.

(** [d[k] = v] *)
Fixpoint dset d k v : list (K * V) :=
  match d with
  | [] => [(k, v)]
  | (k', v') :: d' =>
      if decide (k' = k) then (k', v) :: d' else (k', v') :: dset d' k v
  end.

(** [d.pop(k, None)], [del d[k]] on a present key *)
Fixpoint ddel d k : list (K * V) :=
  match d with
  | [] => []
  | (k', v') :: d' => if decide (k' = k) then ddel d' k else (k', v') :: ddel d' k
  end.

Definition dkeys d : list K := d.*1.
Definition dvals d : list V := d.*2.
Definition dmem d k : bool := match dget d k with Some _ => true | None => false end.

(** [OrderedDict.move_to_end(k)] on a present key *)
Definition move_to_end d k : list (K * V) :=
  match dget d k with
  | Some v => ddel d k ++ [(k, v)]
  | None => d
  end.

Definition dwf d : Prop := NoDup (dkeys d).

Lemma dget_dset_eq d k v : dget (dset d k v) k = Some v.
Proof. induction d as [|[k' v'] d IH]; simpl; repeat case_decide; simpl; repeat case_decide; naive_solver. Qed.

Lemma dget_dset_ne d k k' v : k ≠ k' → dget (dset d k v) k' = dget d k'.
Proof. intros. induction d as [|[a b] d IH]; simpl; repeat case_decide; simpl; repeat case_decide; naive_solver. Qed.

Lemma dget_dset d k k' v :
  dget (dset d k v) k' = if decide (k = k') then Some v else dget d k'.
Proof. case_decide; subst; auto using dget_dset_eq, dget_dset_ne. Qed.

Lemma dget_ddel_eq d k : dget (ddel d k) k = None.
Proof. induction d as [|[a b] d IH]; simpl; repeat case_decide; simpl; repeat case_decide; naive_solver. Qed.

Lemma dget_ddel_ne d k k' : k ≠ k' → dget (ddel d k) k' = dget d k'.
Proof. intros. induction d as [|[a b] d IH]; simpl; repeat case_decide; simpl; repeat case_decide; naive_solver. Qed.

Lemma dget_ddel d k k' :
  dget (ddel d k) k' = if decide (k = k') then None else dget d k'.
Proof. case_decide; subst; auto using dget_ddel_eq, dget_ddel_ne. Qed.

Lemma dget_app d1 d2 k :
  dget (d1 ++ d2) k = match dget d1 k with Some v => Some v | None => dget d2 k end.
Proof. induction d1 as [|[a b] d IH]; simpl; repeat case_decide; auto. Qed.

Lemma elem_of_dkeys d k : k ∈ dkeys d ↔ is_Some (dget d k).
Proof.
  induction d as [|[a b] d IH]; simpl.
  - split; [intros H; inversion H | intros [? ?]; done].
  - rewrite elem_of_cons. case_decide; subst; [split; [by eexists | by left]|].
    rewrite <- IH. split; [intros [->|?]; [congruence|done] | auto].
Qed.

Lemma dget_None_dkeys d k : dget d k = None ↔ k ∉ dkeys d.
Proof. rewrite elem_of_dkeys, eq_None_not_Some. done. Qed.

Lemma dget_elem_of d k v : dget d k = Some v → (k, v) ∈ d.
Proof.
  induction d as [|[a b] d IH]; simpl; [done|].
  case_decide; intros; simplify_eq; [left | right; auto].
Qed.

Lemma dget_wf_elem_of d k v : dwf d → (k, v) ∈ d → dget d k = Some v.
Proof.
  unfold dwf. induction d as [|[a b] d IH]; simpl; intros Hnd Hin; [by inversion Hin|].
  apply NoDup_cons in Hnd as [Hn Hnd]. apply elem_of_cons in Hin as [?|Hin]; simplify_eq.
  - by rewrite decide_True.
  - rewrite decide_False; [auto|]. intros ->. apply Hn.
    unfold dkeys. apply list_elem_of_fmap. by exists (k, v).
Qed.

Lemma dkeys_dset d k v :
  dkeys (dset d k v) = if decide (k ∈ dkeys d) then dkeys d else dkeys d ++ [k].
Proof.
  induction d as [|[a b] d IH]; [done|]. unfold dkeys in *. rewrite fmap_cons; cbn [dset fst].
  destruct (decide (a = k)); subst; rewrite fmap_cons; cbn [fst].
    + rewrite decide_True; [done | left].
    + rewrite IH. destruct (decide (k ∈ d.*1)).
      * by rewrite decide_True by (by right).
      * rewrite decide_False; [done|]. rewrite not_elem_of_cons. naive_solver.
Qed.

Lemma dkeys_dset_new d k v : dget d k = None → dset d k v = d ++ [(k, v)].
Proof. induction d as [|[a b] d IH]; simpl; [done|]. case_decide; [done|]. intros. by rewrite IH. Qed.

Lemma dkeys_ddel d k : dkeys (ddel d k) = filter (.≠ k) (dkeys d).
Proof.
  unfold dkeys. induction d as [|[a b] d IH]; [done|].
  rewrite fmap_cons, filter_cons. cbn [ddel fst]. destruct (decide (a = k)).
  - by rewrite decide_False by (intros Hn; by apply Hn).
  - rewrite decide_True by done. rewrite fmap_cons; cbn [fst]. by rewrite IH.
Qed.

Lemma ddel_notin d k : k ∉ dkeys d → ddel d k = d.
Proof.
  induction d as [|[a b] d IH]; simpl; [done|]. intros Hn.
  rewrite not_elem_of_cons in Hn. destruct Hn.
  rewrite decide_False by done. by rewrite IH.
Qed.

Lemma ddel_app d1 d2 k : ddel (d1 ++ d2) k = ddel d1 k ++ ddel d2 k.
Proof. induction d1 as [|[a b] d IH]; simpl; [done|]. case_decide; simpl; by rewrite IH. Qed.

Lemma dset_wf d k v : dwf d → dwf (dset d k v).
Proof.
  unfold dwf. rewrite dkeys_dset. intros. case_decide; [done|].
  apply NoDup_app. split_and!; [done | set_solver | apply NoDup_singleton].
Qed.

Lemma ddel_wf d k : dwf d → dwf (ddel d k).
Proof. unfold dwf. rewrite dkeys_ddel. apply NoDup_filter. Qed.

Lemma dkeys_move_to_end d k :
  k ∈ dkeys d → dkeys (move_to_end d k) = filter (.≠ k) (dkeys d) ++ [k].
Proof.
  unfold move_to_end. rewrite elem_of_dkeys. intros [v ->].
  unfold dkeys. rewrite fmap_app. simpl. fold (dkeys (ddel d k)). by rewrite dkeys_ddel.
Qed.

Lemma move_to_end_wf d k : dwf d → dwf (move_to_end d k).
Proof.
  intros Hwf. destruct (decide (k ∈ dkeys d)) as [Hin|Hin].
  - unfold dwf. rewrite dkeys_move_to_end by done. apply NoDup_app. split_and!.
    + by apply NoDup_filter.
    + intros x. rewrite list_elem_of_filter. set_solver.
    + apply NoDup_singleton.
  - unfold move_to_end. apply dget_None_dkeys in Hin. by rewrite Hin.
Qed.

Lemma dget_move_to_end d k k' : dget (move_to_end d k) k' = dget d k'.
Proof.
  unfold move_to_end. destruct (dget d k) as [v|] eqn:E; [|done].
  rewrite dget_app, dget_ddel. simpl. case_decide; subst; [done|].
  by destruct (dget d k').
Qed.

Lemma dget_fmap_Some d k v : dget d k = Some v → v ∈ dvals d.
Proof. intros H%dget_elem_of. unfold dvals. apply list_elem_of_fmap. by exists (k, v). Qed.

Lemma ddel_Forall (P : K * V → Prop) d k : Forall P d → Forall P (ddel d k).
Proof. induction 1 as [|[a b] d ? ? IH]; simpl; [done|]. case_decide; [done|by constructor]. Qed.

Lemma dvals_ddel d k v : dwf d → dget d k = Some v → dvals d ≡ₚ v :: dvals (ddel d k).
Proof.
  unfold dwf, dvals. induction d as [|[a b] d IH]; simpl; [done|].
  intros [Hn Hnd]%NoDup_cons Hg. case_decide; subst.
  - injection Hg as ->. by rewrite (ddel_notin d k).
  - rewrite fmap_cons. rewrite (IH Hnd Hg). simpl. apply Permutation_swap.
Qed.

Lemma dvals_dset d k v v' :
  dwf d → dget d k = Some v → dvals (dset d k v') ≡ₚ v' :: dvals (ddel d k).
Proof.
  unfold dwf, dvals. induction d as [|[a b] d IH]; simpl; [done|].
  intros [Hn Hnd]%NoDup_cons Hg. case_decide; subst.
  - rewrite fmap_cons. by rewrite (ddel_notin d k).
  - rewrite !fmap_cons. rewrite (IH Hnd Hg). simpl. apply Permutation_swap.
Qed.

End pydict.

Arguments dwf {K V} d.

#[export] Hint Rewrite @dget_dset_eq @dget_ddel_eq @dget_move_to_end : pydict.
#[export] Hint Resolve dset_wf ddel_wf move_to_end_wf : pydict.
