(* ===== verification/PyState.v ===== *)
(** * Stateful Python code that can raise

    A method of a mutable object is a function on the object's state that also
    says how it ended: an exception leaves the changes made before it. *)

From S2P Require Import Prelude PyDict.

Definition py_state (S A : Type) : Type := S → result A * S.

#[export] Instance py_ret {S} : MRet (py_state S) := λ A a s, (Ok a, s).
#[export] Instance py_bind {S} : MBind (py_state S) := λ A B f m s,
  match m s with
  | (Ok a, s) => f a s
  | (Raise e, s) => (Raise e, s)
  end.

Definition lift {S A} (r : result A) : py_state S A := λ s, (r, s).
Definition gets {S A} (f : S → A) : py_state S A := λ s, (Ok (f s), s).
Definition modify {S} (f : S → S) : py_state S unit := λ s, (Ok tt, f s).
Definition when {S} (b : bool) (m : py_state S unit) : py_state S unit := if b then m else mret tt.
Lemma bind_ok {S A B} (m : py_state S A) (f : A → py_state S B) s s' a :
  m s = (Ok a, s') → mbind f m s = f a s'.
Proof. unfold mbind, py_bind. by intros ->. Qed.

Lemma ran_ok {S} (m : py_state S unit) s : (m s).1 = Ok tt → m s = (Ok tt, (m s).2).
Proof. destruct (m s) as [r s']. cbn. by intros ->. Qed.

Lemma bind_bind_ok {S A B C} (m : py_state S A) (f : A → py_state S B) (g : B → C) s s' b :
  (x ← m; f x) s = (Ok b, s') → (x ← m; y ← f x; mret (g y)) s = (Ok (g b), s').
Proof.
  unfold mbind, py_bind. destruct (m s) as [[a|] s1]; [|done]. by destruct (f a s1) as [[] ?]; [intros [= -> ->]|].
Qed.

(** [d[k]] *)
Definition getitem {S A B} `{EqDecision A} (d : list (A * B)) (k : A) : py_state S B :=
  lift (match dget d k with Some v => Ok v | None => Raise KeyError end).
(** [try: m except Exception: log] *)
Definition try_ {S} (m : py_state S unit) : py_state S unit := λ s, (Ok tt, (m s).2).

Fixpoint for_each {S A} (f : A → py_state S unit) (l : list A) : py_state S unit :=
  match l with
  | [] => mret tt
  | x :: l => _ ← f x; for_each f l
  end.

(** [[f(x) for x in l]] with an [f] that can raise *)
Fixpoint map_ok {A B} (f : A → result B) (l : list A) : result (list B) :=
  match l with
  | [] => Ok []
  | x :: l => (y <-? f x; ys <-? map_ok f l; Ok (y :: ys))%py
  end.

Lemma map_ok_fmap {A B C} (f : A → result B) (g : C → A) (h : C → B) (l : list C) :
  (∀ x, x ∈ l → f (g x) = Ok (h x)) → map_ok f (g <$> l) = Ok (h <$> l).
Proof.
  induction l as [|x l IH]; intros Hf; [done|]. rewrite !fmap_cons. cbn [map_ok]. rewrite Hf by left. cbn.
  by rewrite IH by (intros; apply Hf; by right).
Qed.

(** [if xs:] of a list *)
Definition nonempty {A} (l : list A) : bool := match l with [] => false | _ => true end.

Lemma nonempty_false {A} (l : list A) : nonempty l = false → l = [].
Proof. by destruct l. Qed.

(** [d.update(d')] *)
Definition dupdate {A B} `{EqDecision A} (d d' : list (A * B)) : list (A * B) :=
  foldl (λ d kv, dset d (fst kv) (snd kv)) d d'.

Lemma dget_dupdate {A B} `{EqDecision A} (d' d : list (A * B)) k :
  dwf d' → dget (dupdate d d') k = match dget d' k with Some x => Some x | None => dget d k end.
Proof.
  unfold dupdate. revert d. induction d' as [|[a b] d' IH]; intros d Hd'; [done|].
  apply NoDup_cons in Hd' as [Hn Hd']. cbn [foldl]. rewrite IH by done. cbn. rewrite dget_dset.
  destruct (decide (a = k)) as [->|]; [|done]. by rewrite (proj2 (dget_None_dkeys d' k) Hn).
Qed.

Lemma dupdate_wf {A B} `{EqDecision A} (d' d : list (A * B)) : dwf d → dwf (dupdate d d').
Proof.
  unfold dupdate. revert d. induction d' as [|[a b] d' IH]; intros d Hd; [done|]. cbn [foldl]. by apply IH, dset_wf.
Qed.

Lemma dupdate_app {A B} `{EqDecision A} (d' d : list (A * B)) : dwf (d ++ d') → dupdate d d' = d ++ d'.
Proof.
  revert d. induction d' as [|[a b] d' IH]; intros d Hd; [by rewrite app_nil_r|]. unfold dupdate in *. cbn [foldl].
  rewrite dkeys_dset_new; [rewrite IH; by rewrite <- app_assoc|]. cbn. apply dget_None_dkeys.
  unfold dwf, dkeys in *. rewrite fmap_app in Hd. apply NoDup_app in Hd as (_ & Hd & _). intros Hin.
  apply (Hd a Hin). left.
Qed.

(** [{f(v): k for k, v in d.items()}] with distinct [f(v)] *)
Lemma dget_by_fd {A B C} `{EqDecision A, EqDecision C} (f : B → C) (d : list (A * B)) c a :
  dwf d → NoDup (f <$> d.*2) →
  dget (dupdate [] ((λ ia, (f ia.2, ia.1)) <$> d)) c = Some a ↔ ∃ b, dget d a = Some b ∧ f b = c.
Proof.
  intros Hwf Hnd. assert (dwf ((λ ia : A * B, (f ia.2, ia.1)) <$> d)) as Hm.
  { unfold dwf, dkeys. rewrite <- list_fmap_compose. rewrite <- list_fmap_compose in Hnd. exact Hnd. }
  rewrite dupdate_app by done. cbn [app]. split.
  - intros Hin%dget_elem_of%list_elem_of_fmap. destruct Hin as ([a' b] & [= -> ->] & Hin). exists b.
    split; [by apply dget_wf_elem_of|done].
  - intros (b & Hb & <-). apply dget_wf_elem_of; [done|]. apply list_elem_of_fmap. exists (a, b).
    split; [done|by apply dget_elem_of].
Qed.

(** ** Total correctness

    [runs m s Q]: from [s] the method ends normally, with a value and a state that
    satisfy [Q]. *)

Definition runs {S A} (m : py_state S A) (s : S) (Q : A → S → Prop) : Prop :=
  ∃ a s', m s = (Ok a, s') ∧ Q a s'.

Section runs.
Context {S : Type}.
Implicit Types (s : S).

Lemma runs_ret {A} (a : A) s (Q : A → S → Prop) : Q a s → runs (mret a) s Q.
Proof. by exists a, s. Qed.

Lemma runs_bind {A B} (m : py_state S A) (f : A → py_state S B) s (Q : B → S → Prop) :
  runs m s (λ a s', runs (f a) s' Q) → runs (mbind f m) s Q.
Proof. intros (a & s' & E & b & s2 & E2 & HQ). exists b, s2. by rewrite (bind_ok _ _ _ _ _ E). Qed.

Lemma runs_mono {A} (m : py_state S A) s (P Q : A → S → Prop) :
  runs m s P → (∀ a s', P a s' → Q a s') → runs m s Q.
Proof. intros (a & s' & E & HP) H. exists a, s'. auto. Qed.

Lemma runs_gets {A} (f : S → A) s (Q : A → S → Prop) : Q (f s) s → runs (gets f) s Q.
Proof. by exists (f s), s. Qed.

Lemma runs_modify (f : S → S) s (Q : unit → S → Prop) : Q tt (f s) → runs (modify f) s Q.
Proof. by exists tt, (f s). Qed.

Lemma runs_lift {A} (a : A) s (Q : A → S → Prop) : Q a s → runs (lift (Ok a)) s Q.
Proof. by exists a, s. Qed.

Lemma runs_getitem {A B} `{EqDecision A} (d : list (A * B)) k v s (Q : B → S → Prop) :
  dget d k = Some v → Q v s → runs (getitem d k) s Q.
Proof. intros E HQ. unfold getitem. rewrite E. by apply runs_lift. Qed.

Lemma runs_when (b : bool) (m : py_state S unit) s (Q : unit → S → Prop) :
  (b = true → runs m s Q) → (b = false → Q tt s) → runs (when b m) s Q.
Proof. intros H1 H2. destruct b; [by apply H1|]. by apply runs_ret, H2. Qed.

Lemma runs_try (m : py_state S unit) s (Q : unit → S → Prop) : runs m s Q → runs (try_ m) s Q.
Proof. intros ([] & s' & E & HQ). exists tt, s'. unfold try_. by rewrite E. Qed.

(** a loop keeps [I], which says what is left to do *)
Lemma runs_for_each {A} (f : A → py_state S unit) (I : list A → S → Prop) l s :
  I l s → (∀ x l' s', I (x :: l') s' → runs (f x) s' (λ _, I l')) → runs (for_each f l) s (λ _, I []).
Proof.
  intros HI Hf. induction l as [|x l IH] in s, HI |- *; [by apply runs_ret|]. cbn.
  apply runs_bind. eapply runs_mono; [by apply Hf|]. intros [] s' HI'. by apply IH.
Qed.
End runs.
