(* ===== verification/AddressManager.v ===== *)
(** * AddressManager: the explicit free-list address allocator

    Models [FreeBlock] and [AddressManager] of
    src/lmcache/v1/memory_management.py. The free list is a
    [sortedcontainers.SortedList] ordered by block start; that package is not
    part of the repository, so it is the parameter [SortedListOps], with the
    documented behaviour the code relies on as the laws [SortedListSpec].
    [ListSortedList] is an instance, used by the witnesses. *)

From S2P Require Import Prelude.
Local Open Scope Z_scope.

Record FreeBlock := mkFreeBlock { fb_start : Z; fb_size : Z }.

#[export] Instance FreeBlock_eq_dec : EqDecision FreeBlock.
Proof. solve_decision. Defined.

Definition fb_end (b : FreeBlock) : Z := fb_start b + fb_size b.

Definition can_be_coalesced (self succ : FreeBlock) : bool :=
  fb_start self + fb_size self =? fb_start succ.

(** ** The sorted container *)

Class SortedListOps (SL : Type) := {
  sl_list : SL -> list FreeBlock;               (* iteration *)
  sl_empty : SL;
  sl_add : FreeBlock -> SL -> SL;
  sl_remove : FreeBlock -> SL -> result SL;     (* ValueError when absent *)
  sl_bisect_left : SL -> FreeBlock -> nat;
  (* a store to a field of the object held at a position *)
  sl_mutate : nat -> FreeBlock -> SL -> SL }.

Definition start_lt (x y : FreeBlock) : Prop := fb_start x < fb_start y.
Definition start_le (x y : FreeBlock) : Prop := fb_start x <= fb_start y.

#[export] Instance start_lt_dec : RelDecision start_lt.
Proof. intros x y. apply Z_lt_dec. Defined.
#[export] Instance start_le_dec : RelDecision start_le.
Proof. intros x y. apply Z_le_dec. Defined.

(** Documented behaviour of [SortedList(key=lambda x: x.start)], on a
    container whose stored keys are in order: [add] adds one element and keeps
    the order; [remove] drops the first occurrence of a present value and
    raises otherwise; [bisect_left] is the number of smaller keys; storing to a
    field other than the key changes the element where it stands. *)
Class SortedListSpec (SL : Type) `{SortedListOps SL} := {
  sl_empty_list : sl_list sl_empty = [];
  sl_add_sorted b s :
    StronglySorted start_le (sl_list s) ->
    StronglySorted start_le (sl_list (sl_add b s)) ∧
    sl_list (sl_add b s) ≡ₚ b :: sl_list s;
  sl_remove_in b s l1 l2 :
    StronglySorted start_le (sl_list s) ->
    sl_list s = l1 ++ b :: l2 -> b ∉ l1 ->
    exists s', sl_remove b s = Ok s' /\ sl_list s' = l1 ++ l2;
  sl_remove_notin b s :
    StronglySorted start_le (sl_list s) ->
    b ∉ sl_list s -> sl_remove b s = Raise ValueError;
  sl_bisect_left_count b s :
    StronglySorted start_le (sl_list s) ->
    sl_bisect_left s b = length (filter (fun x => start_lt x b) (sl_list s));
  sl_mutate_list i b b0 s :
    sl_list s !! i = Some b0 -> fb_start b = fb_start b0 ->
    sl_list (sl_mutate i b s) = <[i := b]> (sl_list s) }.

(** ** State and operations *)

Section address_manager.
Context {SL : Type} {SLO : SortedListOps SL}.

Record AddressManager := mkAddressManager {
  am_size : Z;
  am_align : Z;
  am_explicit_list : SL;
  am_total_allocated_size : Z }.

Definition ALIGN_BYTES : Z := 4096.

Definition am_init (size align_bytes : Z) : AddressManager :=
  {| am_size := size;
     am_align := align_bytes;
     am_explicit_list := sl_add (mkFreeBlock 0 size) sl_empty;
     am_total_allocated_size := 0 |}.

Definition compute_aligned_size (am : AddressManager) (raw_size : Z) : Z :=
  Z.land (raw_size + am_align am - 1) (Z.lnot (am_align am - 1)).

Definition _can_merge_with_prev (curr_block prev_block : FreeBlock) : bool :=
  can_be_coalesced prev_block curr_block.

Definition _can_merge_with_succ (curr_block succ_block : FreeBlock) : bool :=
  can_be_coalesced curr_block succ_block.

(** [prev_block] is an object held in the list: it is passed with its position,
    the store to its [size] goes through [sl_mutate]. *)
Definition _coalesce (l : SL) (curr_block : FreeBlock)
    (prev_block : option (nat * FreeBlock)) (succ_block : option FreeBlock)
  : result (bool * SL) :=
  let merge_prev :=
    match prev_block with
    | Some (_, p) => _can_merge_with_prev curr_block p
    | None => false
    end in
  let merge_succ :=
    match succ_block with
    | Some n => _can_merge_with_succ curr_block n
    | None => false
    end in
  match prev_block, succ_block, merge_prev, merge_succ with
  | Some (i, p), Some n, true, true =>
      let l := sl_mutate i
        (mkFreeBlock (fb_start p) (fb_size p + (fb_size curr_block + fb_size n))) l in
      (l <-? sl_remove n l; Ok (true, l))%py
  | Some (i, p), _, true, _ =>
      Ok (true, sl_mutate i (mkFreeBlock (fb_start p) (fb_size p + fb_size curr_block)) l)
  | _, Some n, _, true =>
      (l <-? sl_remove n l;
       Ok (true, sl_add (mkFreeBlock (fb_start n - fb_size curr_block)
                                     (fb_size n + fb_size curr_block)) l))%py
  | _, _, _, _ => Ok (false, l)
  end.

(** The [for ... break ... else] scan for the first block that fits. *)
Fixpoint first_fit (aligned_size : Z) (blocks : list FreeBlock) : option FreeBlock :=
  match blocks with
  | [] => None
  | block :: rest =>
      if aligned_size <=? fb_size block then Some block else first_fit aligned_size rest
  end.

Definition allocate (am : AddressManager) (size : Z) : result ((Z * Z) * AddressManager) :=
  let aligned_size := compute_aligned_size am size in
  match first_fit aligned_size (sl_list (am_explicit_list am)) with
  | None => Raise RuntimeError
  | Some block =>
      (l <-? sl_remove block (am_explicit_list am);
       let l :=
         if aligned_size <? fb_size block
         then sl_add (mkFreeBlock (fb_start block + aligned_size)
                                  (fb_size block - aligned_size)) l
         else l in
       Ok ((fb_start block, aligned_size),
           {| am_size := am_size am; am_align := am_align am; am_explicit_list := l;
              am_total_allocated_size := am_total_allocated_size am + aligned_size |}))%py
  end.

(** [(start + i * aligned_size, aligned_size) for i in range(num)] *)
Definition carve_chunks (start aligned_size num : Z) : list (Z * Z) :=
  (fun i : nat => (start + Z.of_nat i * aligned_size, aligned_size)) <$> seq 0 (Z.to_nat num).

Record batch_scan := mkBatchScan {
  bs_result : list (Z * Z);
  bs_remove : list FreeBlock;
  bs_add : list FreeBlock;
  bs_remaining : Z }.

(** The loop of [batched_allocate]; [block.size // aligned_size] raises when
    [aligned_size] is zero. *)
Fixpoint batch_loop (aligned_size : Z) (blocks : list FreeBlock) (acc : batch_scan)
  : result batch_scan :=
  match blocks with
  | [] => Ok acc
  | block :: rest =>
      if bs_remaining acc <=? 0 then Ok acc
      else if fb_size block <? aligned_size then batch_loop aligned_size rest acc
      else if aligned_size =? 0 then Raise ZeroDivisionError
      else
        let num_from_block := Z.min (bs_remaining acc) (fb_size block / aligned_size) in
        let used := num_from_block * aligned_size in
        batch_loop aligned_size rest
          {| bs_result := bs_result acc ++ carve_chunks (fb_start block) aligned_size num_from_block;
             bs_remove := bs_remove acc ++ [block];
             bs_add := bs_add acc ++
               (if used <? fb_size block
                then [mkFreeBlock (fb_start block + used) (fb_size block - used)] else []);
             bs_remaining := bs_remaining acc - num_from_block |}
  end.

Fixpoint remove_all (bs : list FreeBlock) (l : SL) : result SL :=
  match bs with
  | [] => Ok l
  | b :: bs => (l <-? sl_remove b l; remove_all bs l)%py
  end.

Definition add_all (bs : list FreeBlock) (l : SL) : SL := fold_left (fun l b => sl_add b l) bs l.

Definition batched_allocate (am : AddressManager) (size batch_size : Z)
  : result (list (Z * Z) * AddressManager) :=
  let aligned_size := compute_aligned_size am size in
  (s <-? batch_loop aligned_size (sl_list (am_explicit_list am))
           (mkBatchScan [] [] [] batch_size);
   if 0 <? bs_remaining s then Raise RuntimeError
   else if negb (Z.of_nat (length (bs_result s)) =? batch_size) then Raise RuntimeError
   else
     l <-? remove_all (bs_remove s) (am_explicit_list am);
     Ok (bs_result s,
         {| am_size := am_size am; am_align := am_align am;
            am_explicit_list := add_all (bs_add s) l;
            am_total_allocated_size :=
              am_total_allocated_size am + aligned_size * batch_size |}))%py.

Definition free (am : AddressManager) (address size : Z) : result AddressManager :=
  let new_free_block := mkFreeBlock address size in
  let l := am_explicit_list am in
  let index := sl_bisect_left l new_free_block in
  let prev_block :=
    match index with
    | O => None
    | S i => (fun b => (i, b)) <$> sl_list l !! i
    end in
  let succ_block := sl_list l !! index in
  (r <-? _coalesce l new_free_block prev_block succ_block;
   let l := if (fst r : bool) then snd r else sl_add new_free_block (snd r) in
   Ok {| am_size := am_size am; am_align := am_align am; am_explicit_list := l;
         am_total_allocated_size := am_total_allocated_size am - size |})%py.

Definition sbrk (am : AddressManager) (size : Z) : result AddressManager :=
  let size := compute_aligned_size am size in
  let new_block := mkFreeBlock (am_size am) size in
  let l := am_explicit_list am in
  let n := length (sl_list l) in
  let prev_block :=
    match n with
    | O => None
    | S i => (fun b => (i, b)) <$> sl_list l !! i
    end in
  (r <-? _coalesce l new_block prev_block None;
   let l := if (fst r : bool) then snd r else sl_add new_block (snd r) in
   Ok {| am_size := am_size am + size; am_align := am_align am; am_explicit_list := l;
         am_total_allocated_size := am_total_allocated_size am |})%py.

Definition get_heap_size (am : AddressManager) : Z := am_size am.

Definition get_free_size (am : AddressManager) : Z :=
  am_size am - am_total_allocated_size am.

Definition sum_sizes (l : list FreeBlock) : Z := foldr (fun b acc => fb_size b + acc) 0 l.

Fixpoint all_coalesced (l : list FreeBlock) : bool :=
  match l with
  | prev :: (succ :: _) as rest => negb (can_be_coalesced prev succ) && all_coalesced rest
  | _ => true
  end.

Definition check_consistency (am : AddressManager) : bool :=
  let l := sl_list (am_explicit_list am) in
  all_coalesced l && (sum_sizes l + am_total_allocated_size am =? am_size am).

End address_manager.
Arguments AddressManager SL : clear implicits.

(** ** Strictly ordered free lists

    [before] separates two blocks by at least one byte: a list sorted by it is
    ordered, disjoint and fully coalesced at once. *)

Definition before (x y : FreeBlock) : Prop := fb_end x < fb_start y.
Definition positive_size (b : FreeBlock) : Prop := 0 < fb_size b.

Lemma StronglySorted_impl_Forall {A} (P : A → Prop) (R R' : A → A → Prop) l :
  (∀ x y, P x → P y → R x y → R' x y) → Forall P l →
  StronglySorted R l → StronglySorted R' l.
Proof.
  intros Himp HP. induction 1 as [|x l HS IH Hx]; constructor; inversion HP; subst; auto.
  rewrite !Forall_forall in *. eauto.
Qed.

Lemma before_start_lt l :
  Forall positive_size l → StronglySorted before l → StronglySorted start_lt l.
Proof.
  apply StronglySorted_impl_Forall.
  unfold positive_size, before, start_lt, fb_end. intros. lia.
Qed.

Lemma start_lt_le l : StronglySorted start_lt l → StronglySorted start_le l.
Proof.
  intros HS. eapply StronglySorted_impl_Forall with (P := λ _, True); [| by apply Forall_true | done].
  unfold start_lt, start_le. intros. lia.
Qed.

(** A list ordered by start is determined by its elements. *)
Lemma sorted_perm_eq l1 l2 :
  StronglySorted start_lt l1 → StronglySorted start_le l2 → l1 ≡ₚ l2 → l1 = l2.
Proof.
  revert l2. induction l1 as [|x l1 IH]; intros l2 HS1 HS2 HP.
  - symmetry in HP. by apply Permutation_nil_r in HP.
  - destruct l2 as [|y l2]; [by apply Permutation_nil_r in HP|].
    apply StronglySorted_inv in HS1 as [HS1 Hx]. apply StronglySorted_inv in HS2 as [HS2 Hy].
    rewrite Forall_forall in Hx, Hy.
    assert (y = x) as ->.
    { assert (x ∈ y :: l2) as [->|Hin1]%elem_of_cons by (rewrite <- HP; left); [done|].
      assert (y ∈ x :: l1) as [->|Hin2]%elem_of_cons by (rewrite HP; left); [done|].
      apply Hx in Hin2. apply Hy in Hin1. unfold start_lt, start_le in *. lia. }
    f_equal. apply IH; [done..|]. by eapply Permutation_cons_inv.
Qed.

Lemma sum_sizes_app l1 l2 : sum_sizes (l1 ++ l2) = sum_sizes l1 + sum_sizes l2.
Proof. unfold sum_sizes. induction l1; simpl; lia. Qed.

Lemma sum_sizes_perm l1 l2 : l1 ≡ₚ l2 → sum_sizes l1 = sum_sizes l2.
Proof. unfold sum_sizes. induction 1; simpl; lia. Qed.

(** ** The ownership invariant

    [owned am allocs]: the free list and the live allocations [allocs] are
    in-bounds, aligned, pairwise disjoint, the free list is coalesced, and
    together they account for every byte of the address space. *)

Definition disjoint_range (r1 r2 : Z * Z) : Prop :=
  r1.1 + r1.2 <= r2.1 ∨ r2.1 + r2.2 <= r1.1.
Definition fb_range (b : FreeBlock) : Z * Z := (fb_start b, fb_size b).
Definition sum_ranges (rs : list (Z * Z)) : Z := foldr (fun r acc => r.2 + acc) 0 rs.

Definition range_ok (align size : Z) (r : Z * Z) : Prop :=
  0 <= r.1 ∧ 0 < r.2 ∧ r.1 + r.2 <= size ∧ (align | r.1).

Record owned_list (align size total : Z) (l : list FreeBlock) (allocs : list (Z * Z)) : Prop := {
  ow_sorted : StronglySorted before l;
  ow_free : Forall (λ b, range_ok align size (fb_range b)) l;
  ow_allocs : Forall (range_ok align size) allocs;
  ow_free_disj : ∀ b r, b ∈ l → r ∈ allocs → disjoint_range (fb_range b) r;
  ow_alloc_disj : StronglySorted disjoint_range allocs;
  ow_total : total = sum_ranges allocs;
  ow_cover : sum_sizes l + total = size }.

Definition tail_block (b : FreeBlock) (s : Z) : list FreeBlock :=
  if s <? fb_size b then [mkFreeBlock (fb_start b + s) (fb_size b - s)] else [].

(** One allocation on the free list: the first [s] bytes of some block. *)
Inductive carve (align : Z) : list FreeBlock → Z * Z → list FreeBlock → Prop :=
| carve_intro l1 b l2 s :
    0 < s → s <= fb_size b → (align | s) →
    carve align (l1 ++ b :: l2) (fb_start b, s) (l1 ++ tail_block b s ++ l2).

(** A sequence of allocations. *)
Inductive carves (align : Z) : list FreeBlock → list (Z * Z) → list FreeBlock → Prop :=
| carves_nil l : carves align l [] l
| carves_cons l1 r l2 rs l3 :
    carve align l1 r l2 → carves align l2 rs l3 → carves align l1 (r :: rs) l3.

Lemma elem_of_tail_block x b s :
  x ∈ tail_block b s → s < fb_size b ∧ x = mkFreeBlock (fb_start b + s) (fb_size b - s).
Proof.
  unfold tail_block. destruct (Z.ltb_spec s (fb_size b)); intros Hx; [|by apply not_elem_of_nil in Hx].
  by apply list_elem_of_singleton in Hx.
Qed.

Lemma sum_sizes_tail_block b s : s <= fb_size b → sum_sizes (tail_block b s) = fb_size b - s.
Proof. unfold tail_block, sum_sizes. intros. destruct (Z.ltb_spec s (fb_size b)); simpl; lia. Qed.

(** The ordering facts a member of a decomposed free list has. *)
Lemma before_middle l1 b l2 :
  StronglySorted before (l1 ++ b :: l2) ↔
  StronglySorted before (l1 ++ l2) ∧ (∀ x, x ∈ l1 → before x b) ∧ (∀ y, y ∈ l2 → before b y).
Proof. rewrite !StronglySorted_app_iff, StronglySorted_cons_iff. set_solver. Qed.

Lemma owned_list_replace align size total l1 b l2 m allocs allocs' total' :
  owned_list align size total (l1 ++ b :: l2) allocs →
  StronglySorted before m →
  Forall (λ x, range_ok align size (fb_range x)) m →
  (∀ x, x ∈ m → fb_start b <= fb_start x ∧ fb_end x <= fb_end b) →
  Forall (range_ok align size) allocs' →
  (∀ x r, x ∈ l1 ++ m ++ l2 → r ∈ allocs' → disjoint_range (fb_range x) r) →
  StronglySorted disjoint_range allocs' →
  total' = sum_ranges allocs' →
  sum_sizes m + total' = fb_size b + total →
  owned_list align size total' (l1 ++ m ++ l2) allocs'.
Proof.
  intros [Hs Hf Ha Hd Had Ht Hc] Hm Hmf Hin Ha' Hd' Had' Ht' Hsum.
  apply before_middle in Hs as (Hs & H1 & H2).
  rewrite Forall_app, Forall_cons in Hf. destruct Hf as (Hf1 & Hfb & Hf2).
  apply StronglySorted_app_iff in Hs as (Hs1 & Hs2 & H12). constructor; auto.
  - rewrite !StronglySorted_app_iff. split_and!; [done..| |].
    + intros x y Hx Hy. specialize (H2 _ Hy). specialize (Hin _ Hx). unfold before in *. lia.
    + intros x y Hx. rewrite elem_of_app. intros [Hy|Hy].
      * specialize (H1 _ Hx). specialize (Hin _ Hy). unfold before in *. lia.
      * auto.
  - rewrite !Forall_app. done.
  - rewrite !sum_sizes_app in *. simpl in Hc. unfold sum_sizes in *. simpl in Hc. lia.
Qed.

Lemma carve_owned align size total l r l' allocs :
  0 < align → owned_list align size total l allocs → carve align l r l' →
  owned_list align size (total + r.2) l' (r :: allocs).
Proof.
  intros Hal Hown Hc. destruct Hc as [l1 b l2 s Hs Hle Hdiv]. pose proof Hown as Hown'.
  destruct Hown as [HS Hf Ha Hd Had Ht Hcov].
  assert (range_ok align size (fb_range b)) as Hb.
  { rewrite Forall_forall in Hf. apply Hf. set_solver. }
  destruct Hb as (Hb0 & Hb1 & Hb2 & Hb3). simpl in *.
  eapply owned_list_replace; [exact Hown' | | | | | | | |].
  - unfold tail_block. destruct (s <? fb_size b); repeat constructor.
  - rewrite Forall_forall. intros x [Hlt ->]%elem_of_tail_block.
    unfold range_ok; simpl. split_and!; [lia..|]. by apply Z.divide_add_r.
  - intros x [Hlt ->]%elem_of_tail_block. unfold fb_end; simpl. lia.
  - constructor; [|done]. unfold range_ok; simpl. split_and!; [lia..|done].
  - intros x r Hx [->|Hr]%elem_of_cons.
    + apply before_middle in HS as (_ & H1 & H2). unfold disjoint_range, before, fb_end in *; simpl.
      rewrite !elem_of_app in Hx. destruct Hx as [Hx|[Hx|Hx]].
      * specialize (H1 _ Hx). lia.
      * apply elem_of_tail_block in Hx as [? ->]. simpl. lia.
      * specialize (H2 _ Hx). lia.
    + rewrite !elem_of_app in Hx. destruct Hx as [Hx|[Hx|Hx]]; [apply Hd; set_solver | | apply Hd; set_solver].
      apply elem_of_tail_block in Hx as [? ->]. specialize (Hd b r ltac:(set_solver) Hr).
      unfold disjoint_range in *; simpl in *. lia.
  - constructor; [done|]. rewrite Forall_forall. intros r Hr.
    specialize (Hd b r ltac:(set_solver) Hr). unfold disjoint_range in *; simpl in *.
    assert (range_ok align size r) as (?&?&?&?) by (rewrite Forall_forall in Ha; auto). lia.
  - subst. simpl. lia.
  - rewrite sum_sizes_tail_block by lia. simpl. lia.
Qed.

Lemma carves_owned align size total l rs l' allocs :
  0 < align → owned_list align size total l allocs → carves align l rs l' →
  owned_list align size (total + sum_ranges rs) l' (rev rs ++ allocs).
Proof.
  intros Hal Hown Hc. revert total allocs Hown.
  induction Hc as [l|l1 r l2 rs l3 H1 H2 IH]; intros total allocs Hown; simpl.
  - by rewrite Z.add_0_r.
  - rewrite <- app_assoc. simpl. rewrite Z.add_assoc. apply IH. by eapply carve_owned.
Qed.

(** ** Alignment arithmetic *)

Definition pow2 (a : Z) : Prop := ∃ k, 0 <= k ∧ a = 2 ^ k.

Lemma pow2_pos a : pow2 a → 0 < a.
Proof. intros (k & Hk & ->). apply Z.pow_pos_nonneg; lia. Qed.

Lemma land_lnot_pow2 x a : pow2 a → Z.land x (Z.lnot (a - 1)) = x / a * a.
Proof.
  intros (k & Hk & ->).
  replace (2 ^ k - 1) with (Z.ones k) by (rewrite Z.ones_equiv; lia).
  rewrite <- Z.ldiff_land, Z.ldiff_ones_r by done.
  by rewrite Z.shiftl_mul_pow2, Z.shiftr_div_pow2 by done.
Qed.

Section refinement.
Context {SL : Type} {SLO : SortedListOps SL} {SLS : SortedListSpec SL}.
Implicit Types (am : AddressManager SL) (allocs : list (Z * Z)).

Lemma compute_aligned_size_bounds am raw :
  pow2 (am_align am) →
  (am_align am | compute_aligned_size am raw) ∧
  raw <= compute_aligned_size am raw < raw + am_align am.
Proof.
  intros Hp. pose proof (pow2_pos _ Hp). unfold compute_aligned_size.
  rewrite land_lnot_pow2 by done. split; [by apply Z.divide_factor_r|].
  pose proof (Z.div_mod (raw + am_align am - 1) (am_align am)).
  pose proof (Z.mod_pos_bound (raw + am_align am - 1) (am_align am)). lia.
Qed.

(** A request that is already a multiple of the alignment is not enlarged. *)
Lemma compute_aligned_size_id am raw :
  pow2 (am_align am) → (am_align am | raw) → compute_aligned_size am raw = raw.
Proof.
  intros Hp [q ->]. pose proof (pow2_pos _ Hp). unfold compute_aligned_size.
  rewrite land_lnot_pow2 by done. f_equal.
  replace (q * am_align am + am_align am - 1) with (am_align am - 1 + q * am_align am) by lia.
  rewrite Z.div_add by lia. rewrite (Z.div_small (am_align am - 1)); lia.
Qed.

(** ** The container operations on an ordered free list *)

Lemma sl_remove_mid s l1 b l2 :
  sl_list s = l1 ++ b :: l2 → StronglySorted start_lt (sl_list s) →
  ∃ s', sl_remove b s = Ok s' ∧ sl_list s' = l1 ++ l2.
Proof.
  intros Heq HS. apply sl_remove_in; [by apply start_lt_le | done |].
  rewrite Heq in HS. apply StronglySorted_app_iff in HS as (_ & _ & Hc).
  intros Hin. specialize (Hc b b Hin ltac:(left)). unfold start_lt in Hc. lia.
Qed.

Lemma sl_add_mid s l1 b l2 :
  sl_list s = l1 ++ l2 → StronglySorted start_lt (l1 ++ b :: l2) →
  sl_list (sl_add b s) = l1 ++ b :: l2.
Proof.
  intros Heq HS. symmetry. apply sorted_perm_eq; [done| |].
  - apply sl_add_sorted. rewrite Heq. apply start_lt_le.
    apply StronglySorted_app_iff in HS as (? & [? ?]%StronglySorted_cons_iff & ?).
    apply StronglySorted_app_iff. split_and!; [done..|]. set_solver.
  - assert (StronglySorted start_le (sl_list s)) as Hle.
    { rewrite Heq. apply start_lt_le.
      apply StronglySorted_app_iff in HS as (? & [? ?]%StronglySorted_cons_iff & ?).
      apply StronglySorted_app_iff. split_and!; [done..|]. set_solver. }
    destruct (sl_add_sorted b s Hle) as [_ ->]. rewrite Heq. by rewrite Permutation_middle.
Qed.

Record owned am allocs : Prop := {
  owned_align : pow2 (am_align am);
  owned_blocks : owned_list (am_align am) (am_size am) (am_total_allocated_size am)
                            (sl_list (am_explicit_list am)) allocs }.

Lemma owned_list_positive align size total l allocs :
  owned_list align size total l allocs → Forall positive_size l.
Proof.
  intros []. eapply Forall_impl; [done|]. by intros b (?&?&?&?).
Qed.

Lemma owned_list_start_lt align size total l allocs :
  owned_list align size total l allocs → StronglySorted start_lt l.
Proof.
  intros Hown. apply before_start_lt; [by eapply owned_list_positive | by destruct Hown].
Qed.

Lemma first_fit_Some n l b :
  first_fit n l = Some b →
  ∃ l1 l2, l = l1 ++ b :: l2 ∧ n <= fb_size b ∧ Forall (λ x, fb_size x < n) l1.
Proof.
  induction l as [|x l IH]; simpl; [done|].
  destruct (Z.leb_spec n (fb_size x)); intros Hf.
  - simplify_eq. by exists [], l.
  - destruct (IH Hf) as (l1 & l2 & -> & ? & ?). exists (x :: l1), l2. auto.
Qed.

Lemma first_fit_None n l : first_fit n l = None ↔ Forall (λ x, fb_size x < n) l.
Proof.
  induction l as [|x l IH]; simpl; [done|].
  rewrite Forall_cons. destruct (Z.leb_spec n (fb_size x)); [naive_solver lia|].
  rewrite IH. naive_solver.
Qed.

(** Adding back the tail of a removed block keeps the list in order. *)
Lemma sl_add_tail s l1 b l2 n align size total allocs :
  owned_list align size total (l1 ++ b :: l2) allocs → 0 < n →
  sl_list s = l1 ++ l2 →
  sl_list (if n <? fb_size b
           then sl_add (mkFreeBlock (fb_start b + n) (fb_size b - n)) s else s)
  = l1 ++ tail_block b n ++ l2.
Proof.
  intros Hown Hn Hs. unfold tail_block. destruct (Z.ltb_spec n (fb_size b)); [|done].
  apply sl_add_mid; [done|].
  pose proof (owned_list_positive _ _ _ _ _ Hown) as Hpos. destruct Hown as [HS _ _ _ _ _ _].
  pose proof (before_start_lt _ Hpos HS) as HS'.
  apply before_middle in HS as (_ & H1 & H2).
  rewrite Forall_app, Forall_cons in Hpos. destruct Hpos as (Hp1 & _ & _).
  rewrite StronglySorted_app_iff, StronglySorted_cons_iff in HS' |- *.
  destruct HS' as (? & (? & ?) & ?). split_and!; auto.
  - intros y Hy. specialize (H2 _ Hy). unfold before, start_lt, fb_end in *; simpl. lia.
  - intros x y Hx [->|Hy]%elem_of_cons; [|set_solver].
    specialize (H1 _ Hx). rewrite Forall_forall in Hp1. specialize (Hp1 _ Hx).
    unfold before, start_lt, positive_size, fb_end in *; simpl. lia.
Qed.

Lemma allocate_carve am allocs size a n am' :
  owned am allocs → 0 < size → allocate am size = Ok ((a, n), am') →
  n = compute_aligned_size am size ∧
  carve (am_align am) (sl_list (am_explicit_list am)) (a, n) (sl_list (am_explicit_list am')) ∧
  am_size am' = am_size am ∧ am_align am' = am_align am ∧
  am_total_allocated_size am' = am_total_allocated_size am + n.
Proof.
  intros [Hp Hown] Hsz. unfold allocate.
  destruct (compute_aligned_size_bounds am size Hp) as [Hdiv Hb].
  set (k := compute_aligned_size am size) in *.
  destruct (first_fit k _) as [b|] eqn:Hff; [|done].
  apply first_fit_Some in Hff as (l1 & l2 & Heq & Hle & _).
  destruct (sl_remove_mid (am_explicit_list am) l1 b l2) as (s' & -> & Hs'); [done| |].
  { by eapply owned_list_start_lt. }
  simpl. intros [= <- <- <-]. simpl. split_and!; [done| |done..].
  rewrite Heq in Hown |- *. erewrite sl_add_tail by (done || lia).
  constructor; [lia|done|done].
Qed.

(** ** Batched allocation as a sequence of carvings *)

Lemma carves_app align l1 rs1 l2 rs2 l3 :
  carves align l1 rs1 l2 → carves align l2 rs2 l3 → carves align l1 (rs1 ++ rs2) l3.
Proof. induction 1; simpl; [done|]. intros. econstructor; eauto. Qed.

Lemma carve_chunks_succ start al (n : nat) :
  carve_chunks start al (Z.of_nat (S n)) = (start, al) :: carve_chunks (start + al) al (Z.of_nat n).
Proof.
  unfold carve_chunks. rewrite !Nat2Z.id. cbn [seq]. rewrite fmap_cons. apply f_equal2.
  - simpl. by rewrite Z.add_0_r.
  - rewrite <- seq_shift, <- list_fmap_compose. apply list_fmap_ext.
    intros i x _. simpl. f_equal. lia.
Qed.

Lemma carve_chunks_length start al n : 0 <= n → Z.of_nat (length (carve_chunks start al n)) = n.
Proof. intros. unfold carve_chunks. rewrite length_fmap, length_seq. lia. Qed.

Lemma tail_block_0 b : 0 < fb_size b → tail_block b 0 = [b].
Proof.
  unfold tail_block. intros. destruct (Z.ltb_spec 0 (fb_size b)); [|lia].
  destruct b; simpl. by rewrite Z.add_0_r, Z.sub_0_r.
Qed.

Lemma tail_block_add b s1 s2 :
  s1 < fb_size b →
  tail_block (mkFreeBlock (fb_start b + s1) (fb_size b - s1)) s2 = tail_block b (s1 + s2).
Proof.
  unfold tail_block; simpl. intros.
  destruct (Z.ltb_spec s2 (fb_size b - s1)), (Z.ltb_spec (s1 + s2) (fb_size b)); try lia; [|done].
  do 2 f_equal; lia.
Qed.

Lemma carve_chunks_carves align al pre rest (n : nat) b :
  0 < al → (align | al) → 0 < fb_size b → Z.of_nat n * al <= fb_size b →
  carves align (pre ++ b :: rest) (carve_chunks (fb_start b) al (Z.of_nat n))
         (pre ++ tail_block b (Z.of_nat n * al) ++ rest).
Proof.
  intros Hal Hdiv. revert b. induction n as [|n IH]; intros b Hb Hn.
  - rewrite Z.mul_0_l, tail_block_0 by done. constructor.
  - rewrite carve_chunks_succ. econstructor; [by constructor; [|nia|]|].
    destruct (decide (al = fb_size b)) as [Heq|Hne].
    + assert (n = 0%nat) as -> by nia. rewrite Z.mul_1_l. constructor.
    + assert (al < fb_size b) as Hlt by nia.
      replace (Z.of_nat (S n) * al) with (al + Z.of_nat n * al) by lia.
      rewrite <- tail_block_add by done.
      unfold tail_block at 1. destruct (Z.ltb_spec al (fb_size b)); [|lia].
      apply (IH (mkFreeBlock (fb_start b + al) (fb_size b - al))); simpl; nia.
Qed.

(** The blocks a scan leaves behind, in place. *)
Fixpoint batch_list (al : Z) (blocks : list FreeBlock) (remaining : Z) : list FreeBlock :=
  match blocks with
  | [] => []
  | b :: rest =>
      if remaining <=? 0 then blocks
      else if fb_size b <? al then b :: batch_list al rest remaining
      else let num := Z.min remaining (fb_size b / al) in
           tail_block b (num * al) ++ batch_list al rest (remaining - num)
  end.

(** The number of [al]-sized chunks a free list can supply. *)
Definition capacity (al : Z) (l : list FreeBlock) : Z :=
  foldr (fun b acc => fb_size b / al + acc) 0 l.

Lemma capacity_nonneg al l : 0 < al → Forall positive_size l → 0 <= capacity al l.
Proof.
  intros ?. induction 1 as [|b l Hb ? IH]; simpl; [lia|]. unfold positive_size in *.
  pose proof (Z.div_pos (fb_size b) al). unfold capacity in *. lia.
Qed.

Lemma batch_loop_spec align al blocks acc :
  0 < al → (align | al) → Forall positive_size blocks → 0 <= bs_remaining acc →
  ∃ res rem add kept,
    batch_loop al blocks acc =
      Ok (mkBatchScan (bs_result acc ++ res) (bs_remove acc ++ rem) (bs_add acc ++ add)
                      (bs_remaining acc - Z.of_nat (length res))) ∧
    Z.of_nat (length res) = Z.min (bs_remaining acc) (capacity al blocks) ∧
    blocks ≡ₚ rem ++ kept ∧
    batch_list al blocks (bs_remaining acc) ≡ₚ add ++ kept ∧
    Forall (λ r, r.2 = al) res ∧
    ∀ pre, carves align (pre ++ blocks) res (pre ++ batch_list al blocks (bs_remaining acc)).
Proof.
  intros Hal Hdiv Hpos. revert acc. induction Hpos as [|b rest Hb Hpos IH]; intros acc Hrem; simpl.
  { exists [], [], [], []. rewrite !app_nil_r. destruct acc; simpl in *.
    split_and!; [do 2 f_equal; lia | lia | done | done | done |]. intros. constructor. }
  pose proof (capacity_nonneg al rest Hal Hpos) as Hcap.
  pose proof (Z.div_pos (fb_size b) al ltac:(unfold positive_size in *; lia) Hal).
  destruct (Z.leb_spec (bs_remaining acc) 0) as [Hz|Hz].
  { exists [], [], [], (b :: rest). rewrite !app_nil_r. destruct acc; simpl in *.
    split_and!; [do 2 f_equal; lia | lia | done | done | done |]. intros. constructor. }
  destruct (Z.ltb_spec (fb_size b) al) as [Hsm|Hbig].
  { destruct (IH acc Hrem) as (res & rem & add & kept & -> & Hlen & Hp1 & Hp2 & Hal' & Hcv).
    exists res, rem, add, (b :: kept). rewrite (Z.div_small (fb_size b)) by (unfold positive_size in *; lia).
    split_and!; [done | done | by rewrite Hp1, Permutation_middle
      | by rewrite Hp2, Permutation_middle | done |].
    intros pre. specialize (Hcv (pre ++ [b])). by rewrite <- !app_assoc in Hcv. }
  destruct (Z.eqb_spec al 0); [lia|].
  set (num := Z.min (bs_remaining acc) (fb_size b / al)).
  assert (0 <= num) by lia.
  assert (num * al <= fb_size b).
  { pose proof (Z.mul_div_le (fb_size b) al Hal). nia. }
  edestruct (IH (mkBatchScan (bs_result acc ++ carve_chunks (fb_start b) al num)
      (bs_remove acc ++ [b]) (bs_add acc ++ tail_block b (num * al)) (bs_remaining acc - num)))
    as (res & rem & add & kept & Heq & Hlen & Hp1 & Hp2 & Hal' & Hcv); [simpl; lia|].
  exists (carve_chunks (fb_start b) al num ++ res), (b :: rem), (tail_block b (num * al) ++ add), kept.
  unfold tail_block in Heq at 1. rewrite Heq. simpl in *.
  pose proof (carve_chunks_length (fb_start b) al num ltac:(lia)) as Hcl.
  rewrite length_app, Nat2Z.inj_add, Hcl.
  split_and!.
  - rewrite <- !app_assoc. simpl. do 2 f_equal. lia.
  - lia.
  - by rewrite Hp1.
  - by rewrite Hp2, app_assoc.
  - apply Forall_app. split; [|done]. unfold carve_chunks. rewrite Forall_fmap.
    apply Forall_true. done.
  - intros pre. eapply carves_app.
    + replace num with (Z.of_nat (Z.to_nat num)) at 1 by lia.
      apply carve_chunks_carves; [done|done|done|]. rewrite Z2Nat.id by lia. done.
    + rewrite Z2Nat.id by lia. specialize (Hcv (pre ++ tail_block b (num * al))).
      by rewrite <- !app_assoc in Hcv.
Qed.

Lemma remove_all_perm rem s kept :
  StronglySorted start_lt (sl_list s) → sl_list s ≡ₚ rem ++ kept →
  ∃ s', remove_all rem s = Ok s' ∧ sl_list s' ≡ₚ kept ∧ StronglySorted start_lt (sl_list s').
Proof.
  revert s. induction rem as [|b rem IH]; intros s HS HP; simpl; [by exists s|].
  assert (b ∈ sl_list s) as (l1 & l2 & Heq)%list_elem_of_split by (rewrite HP; left).
  destruct (sl_remove_mid s l1 b l2 Heq HS) as (s' & -> & Hs'). simpl.
  apply IH.
  - rewrite Hs'. rewrite Heq in HS.
    apply StronglySorted_app_iff in HS as (? & [? ?]%StronglySorted_cons_iff & ?).
    apply StronglySorted_app_iff. set_solver.
  - rewrite Hs'. rewrite Heq in HP. apply (Permutation_cons_inv (a := b)).
    by rewrite <- HP, Permutation_middle.
Qed.

Lemma add_all_perm add s :
  StronglySorted start_le (sl_list s) →
  StronglySorted start_le (sl_list (add_all add s)) ∧
  sl_list (add_all add s) ≡ₚ add ++ sl_list s.
Proof.
  revert s. induction add as [|b add IH]; intros s HS; simpl; [done|].
  destruct (sl_add_sorted b s HS) as [HS' HP].
  destruct (IH _ HS') as [? HP']. split; [done|]. unfold add_all in HP'. rewrite HP', HP.
  by rewrite Permutation_middle.
Qed.

Lemma sum_ranges_perm rs rs' : rs ≡ₚ rs' → sum_ranges rs = sum_ranges rs'.
Proof. unfold sum_ranges. induction 1; simpl; lia. Qed.

Lemma sum_ranges_const al rs :
  Forall (λ r, r.2 = al) rs → sum_ranges rs = al * Z.of_nat (length rs).
Proof. unfold sum_ranges. induction 1 as [|r rs Hr ? IH]; simpl length; simpl foldr; lia. Qed.

Lemma disjoint_range_sym r1 r2 : disjoint_range r1 r2 → disjoint_range r2 r1.
Proof. unfold disjoint_range. tauto. Qed.

Lemma owned_list_perm align size total l allocs allocs' :
  allocs ≡ₚ allocs' → owned_list align size total l allocs →
  owned_list align size total l allocs'.
Proof.
  intros HP []. constructor; auto.
  - by rewrite <- HP.
  - intros b r Hb Hr. rewrite <- HP in Hr. auto.
  - eapply StronglySorted_sym_perm; [apply disjoint_range_sym | done..].
  - by rewrite <- (sum_ranges_perm _ _ HP).
Qed.

Lemma batched_allocate_carves am allocs size n :
  owned am allocs → 0 < size → 0 <= n →
  let al := compute_aligned_size am size in
  let l := sl_list (am_explicit_list am) in
  if n <=? capacity al l then
    ∃ rs am', batched_allocate am size n = Ok (rs, am') ∧
      Z.of_nat (length rs) = n ∧ Forall (λ r, r.2 = al) rs ∧
      carves (am_align am) l rs (sl_list (am_explicit_list am')) ∧
      am_size am' = am_size am ∧ am_align am' = am_align am ∧
      am_total_allocated_size am' = am_total_allocated_size am + al * n
  else batched_allocate am size n = Raise RuntimeError.
Proof.
  intros [Hp Hown] Hsz Hn al l.
  destruct (compute_aligned_size_bounds am size Hp) as [Hdiv Hb]. fold al in Hdiv, Hb.
  pose proof (owned_list_positive _ _ _ _ _ Hown) as Hpos.
  pose proof (owned_list_start_lt _ _ _ _ _ Hown) as HS.
  pose proof (capacity_nonneg al l ltac:(lia) Hpos) as Hc.
  destruct (batch_loop_spec (am_align am) al l (mkBatchScan [] [] [] n))
    as (res & rem & add & kept & Heq & Hlen & Hp1 & Hp2 & Hal & Hcv); [lia|done|done|done|].
  specialize (Hcv []). simpl in *. unfold batched_allocate. fold al l. rewrite Heq. simpl.
  destruct (Z.leb_spec n (capacity al l)).
  - destruct (Z.ltb_spec 0 (n - Z.of_nat (length res))); [lia|].
    destruct (Z.eqb_spec (Z.of_nat (length res)) n) as [Hl|]; [|lia]. simpl.
    destruct (remove_all_perm rem (am_explicit_list am) kept HS Hp1) as (s' & -> & HP & HS').
    destruct (add_all_perm add s' (start_lt_le _ HS')) as [HS2 HP2]. simpl.
    eexists _, _. split_and!; [done|done|done| |done..]. simpl.
    pose proof (carves_owned _ _ _ _ _ _ _ (pow2_pos _ Hp) Hown Hcv) as Hown2.
    replace (sl_list (add_all add s')) with (batch_list al l n); [done|].
    apply sorted_perm_eq; [by eapply owned_list_start_lt | done |].
    by rewrite HP2, HP.
  - destruct (Z.ltb_spec 0 (n - Z.of_nat (length res))); [done|lia].
Qed.

(** ** Freeing *)

Lemma start_split l a :
  StronglySorted start_lt l →
  ∃ l1 l2, l = l1 ++ l2 ∧ (∀ x, x ∈ l1 → fb_start x < a) ∧ (∀ y, y ∈ l2 → a <= fb_start y).
Proof.
  induction 1 as [|x l HS (l1 & l2 & -> & H1 & H2) Hx].
  - exists [], []. set_solver.
  - destruct (decide (fb_start x < a)).
    + exists (x :: l1), l2. set_solver.
    + exists [], (x :: l1 ++ l2). rewrite Forall_forall in Hx. split_and!; [done|set_solver|].
      intros y [->|Hy]%elem_of_cons; [lia|]. specialize (Hx _ Hy). unfold start_lt in Hx. lia.
Qed.

Lemma bisect_left_split s l1 l2 b :
  StronglySorted start_lt (sl_list s) → sl_list s = l1 ++ l2 →
  (∀ x, x ∈ l1 → fb_start x < fb_start b) → (∀ y, y ∈ l2 → fb_start b <= fb_start y) →
  sl_bisect_left s b = length l1.
Proof.
  intros HS Heq H1 H2. rewrite sl_bisect_left_count by (by apply start_lt_le).
  rewrite Heq, filter_app. rewrite (filter_all _ l1), (filter_none _ l2), app_nil_r; [done| |].
  - rewrite Forall_forall. intros y Hy. specialize (H2 _ Hy). unfold start_lt. lia.
  - rewrite Forall_forall. intros x Hx. by apply H1.
Qed.

Definition merge_left (l1 : list FreeBlock) (c : FreeBlock) : list FreeBlock * FreeBlock :=
  match last l1 with
  | Some p =>
      if can_be_coalesced p c
      then (removelast l1, mkFreeBlock (fb_start p) (fb_size p + fb_size c)) else (l1, c)
  | None => (l1, c)
  end.

Definition merge_right (c : FreeBlock) (l2 : list FreeBlock) : FreeBlock * list FreeBlock :=
  match l2 with
  | n :: l2' =>
      if can_be_coalesced c n
      then (mkFreeBlock (fb_start c) (fb_size c + fb_size n), l2') else (c, l2)
  | [] => (c, [])
  end.

(** The free list after returning [c] between [l1] and [l2]. *)
Definition insert_coalesced (l1 : list FreeBlock) (c : FreeBlock) (l2 : list FreeBlock)
  : list FreeBlock :=
  let '(l1', c1) := merge_left l1 c in
  let '(c2, l2') := merge_right c1 l2 in
  l1' ++ c2 :: l2'.

Lemma StronglySorted_drop_mid {A} (R : A → A → Prop) l1 x l2 :
  StronglySorted R (l1 ++ x :: l2) → StronglySorted R (l1 ++ l2).
Proof.
  rewrite !StronglySorted_app_iff, StronglySorted_cons_iff. intros (? & [? ?] & Hc).
  split_and!; [done..|]. intros y z ??. apply Hc; [done | by right].
Qed.

Lemma start_lt_resize l1 b z l2 :
  StronglySorted start_lt (l1 ++ b :: l2) →
  StronglySorted start_lt (l1 ++ mkFreeBlock (fb_start b) z :: l2).
Proof.
  rewrite !StronglySorted_app_iff, !StronglySorted_cons_iff. intros (? & [? Hb] & Hc).
  split_and!; [done|done|exact Hb|].
  intros x y Hx [->|Hy]%elem_of_cons; [exact (Hc x b Hx ltac:(left)) | apply Hc; [done|by right]].
Qed.

Lemma lookup_last_app (l1 l2 : list FreeBlock) p : (l1 ++ p :: l2) !! length l1 = Some p.
Proof. rewrite lookup_app_r, Nat.sub_diag by lia. done. Qed.

(** Merging [c] into its successor [n] alone: remove, move, re-add. *)
Lemma merge_succ_only s l1 c n l2 :
  sl_list s = l1 ++ n :: l2 → StronglySorted start_lt (l1 ++ c :: n :: l2) →
  can_be_coalesced c n = true →
  ∃ s', sl_remove n s = Ok s' ∧
    sl_list (sl_add (mkFreeBlock (fb_start n - fb_size c) (fb_size n + fb_size c)) s')
    = l1 ++ mkFreeBlock (fb_start c) (fb_size c + fb_size n) :: l2.
Proof.
  intros Heq HS E%Z.eqb_eq.
  destruct (sl_remove_mid s l1 n l2 Heq) as (s' & -> & Hs').
  { rewrite Heq. by eapply StronglySorted_drop_mid. }
  exists s'. split; [done|].
  replace (mkFreeBlock (fb_start n - fb_size c) (fb_size n + fb_size c))
    with (mkFreeBlock (fb_start c) (fb_size c + fb_size n)) by (f_equal; lia).
  apply sl_add_mid; [done|]. apply start_lt_resize.
  pose proof (StronglySorted_drop_mid start_lt (l1 ++ [c]) n l2) as Hdrop.
  rewrite <- !app_assoc in Hdrop. by apply Hdrop.
Qed.

Lemma coalesce_first s l2 c :
  sl_list s = l2 → StronglySorted start_lt (c :: l2) →
  ∃ r, _coalesce s c None (head l2) = Ok r ∧
       sl_list (if (fst r : bool) then snd r else sl_add c (snd r)) = insert_coalesced [] c l2.
Proof.
  intros Heq HS. unfold insert_coalesced, merge_left, merge_right, _coalesce, _can_merge_with_succ.
  destruct l2 as [|n l2]; simpl.
  { eexists. split; [done|]. simpl. by apply (sl_add_mid _ [] c []). }
  destruct (can_be_coalesced c n) eqn:E; simpl.
  - destruct (merge_succ_only s [] c n l2 Heq HS E) as (s' & -> & Hs').
    eexists. split; [done|]. by simpl.
  - eexists. split; [done|]. simpl. by apply (sl_add_mid _ [] c (n :: l2)).
Qed.

Lemma coalesce_after s l1 p l2 c :
  sl_list s = l1 ++ p :: l2 → StronglySorted start_lt ((l1 ++ [p]) ++ c :: l2) →
  ∃ r, _coalesce s c (Some (length l1, p)) (head l2) = Ok r ∧
       sl_list (if (fst r : bool) then snd r else sl_add c (snd r))
       = insert_coalesced (l1 ++ [p]) c l2.
Proof.
  intros Heq HS. unfold insert_coalesced, merge_left, merge_right.
  rewrite last_snoc, removelast_last.
  unfold _coalesce, _can_merge_with_prev, _can_merge_with_succ.
  assert (∀ z, sl_list (sl_mutate (length l1) (mkFreeBlock (fb_start p) z) s)
               = l1 ++ mkFreeBlock (fb_start p) z :: l2) as Hmut.
  { intros z. rewrite (sl_mutate_list _ _ p) by (rewrite ?Heq; first [apply lookup_last_app | done]).
    rewrite Heq, insert_app_r_alt, Nat.sub_diag by lia. done. }
  assert (StronglySorted start_lt (l1 ++ p :: l2)) as HSs.
  { apply StronglySorted_drop_mid in HS. by rewrite <- app_assoc in HS. }
  assert (sl_list s = (l1 ++ [p]) ++ l2) as Heq' by (by rewrite <- app_assoc).
  destruct (can_be_coalesced p c) eqn:Ep.
  - destruct l2 as [|n l2]; simpl.
    { eexists. split; [done|]. simpl. by rewrite Hmut. }
    assert (can_be_coalesced (mkFreeBlock (fb_start p) (fb_size p + fb_size c)) n
            = can_be_coalesced c n) as ->.
    { unfold can_be_coalesced in *; simpl. apply Z.eqb_eq in Ep. f_equal. lia. }
    destruct (can_be_coalesced c n) eqn:En; simpl.
    + set (q := mkFreeBlock (fb_start p) (fb_size p + (fb_size c + fb_size n))).
      destruct (sl_remove_mid (sl_mutate (length l1) q s) (l1 ++ [q]) n l2) as (s' & -> & Hs').
      { unfold q. by rewrite Hmut, <- app_assoc. }
      { unfold q. rewrite Hmut. by apply start_lt_resize. }
      simpl. eexists. split; [done|]. simpl. rewrite Hs', <- app_assoc. unfold q. simpl.
      do 3 f_equal. lia.
    + eexists. split; [done|]. simpl. by rewrite Hmut.
  - destruct l2 as [|n l2]; simpl.
    { eexists. split; [done|]. simpl. by apply sl_add_mid. }
    destruct (can_be_coalesced c n) eqn:En; simpl.
    + destruct (merge_succ_only s (l1 ++ [p]) c n l2 Heq' HS En) as (s' & -> & Hs').
      simpl. eexists. split; [done|]. by simpl.
    + eexists. split; [done|]. simpl. by apply sl_add_mid.
Qed.

(** [free] on a split free list, and the bytes it leaves to the list. *)
Lemma free_insert am l1 l2 a n :
  sl_list (am_explicit_list am) = l1 ++ l2 →
  StronglySorted start_lt (l1 ++ mkFreeBlock a n :: l2) →
  ∃ am', free am a n = Ok am' ∧
    sl_list (am_explicit_list am') = insert_coalesced l1 (mkFreeBlock a n) l2 ∧
    am_size am' = am_size am ∧ am_align am' = am_align am ∧
    am_total_allocated_size am' = am_total_allocated_size am - n.
Proof.
  intros Heq HS. set (c := mkFreeBlock a n) in *.
  pose proof (StronglySorted_drop_mid _ _ _ _ HS) as HSs.
  assert (sl_bisect_left (am_explicit_list am) c = length l1) as Hidx.
  { eapply bisect_left_split; [by rewrite Heq | done | |].
    - intros x Hx. apply StronglySorted_app_iff in HS as (_ & _ & Hc). apply (Hc x c Hx). left.
    - intros y Hy. apply StronglySorted_app_iff in HS as (_ & [_ Hc]%StronglySorted_cons_iff & _).
      apply Z.lt_le_incl. by apply Hc. }
  unfold free. fold c. rewrite Hidx.
  assert (sl_list (am_explicit_list am) !! length l1 = head l2) as ->.
  { rewrite Heq, lookup_app_r, Nat.sub_diag by lia. by destruct l2. }
  destruct l1 as [|p l1 _] using rev_ind.
  - destruct (coalesce_first _ _ _ Heq HS) as (r & Hr & Hl). cbn [length].
    cbn [app] in Hr. rewrite Hr. eexists. split_and!; [done|done|done..].
  - assert (length (l1 ++ [p]) = S (length l1)) as -> by (rewrite length_app; simpl; lia).
    pose proof Heq as Heq'. rewrite <- app_assoc in Heq'. cbn [app] in Heq'.
    rewrite Heq', lookup_last_app. cbn [fmap option_fmap option_map].
    destruct (coalesce_after _ _ _ _ _ Heq' HS) as (r & Hr & Hl). rewrite Hr.
    eexists. split_and!; [done|done|done..].
Qed.

(** What a merge step absorbs: a sublist [m] of the free blocks. *)
Record absorbs (c : FreeBlock) (m : list FreeBlock) (c' : FreeBlock) : Prop := {
  ab_size : fb_size c' = fb_size c + sum_sizes m;
  ab_bounds : ∀ lo hi, lo <= fb_start c → fb_end c <= hi →
    (∀ x, x ∈ m → lo <= fb_start x ∧ fb_end x <= hi) → lo <= fb_start c' ∧ fb_end c' <= hi;
  ab_align : ∀ d, (d | fb_start c) → (∀ x, x ∈ m → (d | fb_start x)) → (d | fb_start c');
  ab_disj : ∀ r, 0 < r.2 → disjoint_range (fb_range c) r →
    (∀ x, x ∈ m → disjoint_range (fb_range x) r) → disjoint_range (fb_range c') r }.

Lemma absorbs_nil c : absorbs c [] c.
Proof. constructor; [unfold sum_sizes; simpl; lia | naive_solver ..]. Qed.

Lemma merge_left_spec l1 c :
  StronglySorted before l1 → 0 < fb_size c → Forall positive_size l1 → (∀ x, x ∈ l1 → fb_end x <= fb_start c) →
  let '(l1', c') := merge_left l1 c in
  ∃ m, l1 = l1' ++ m ∧ absorbs c m c' ∧ fb_end c' = fb_end c ∧ (∀ x, x ∈ l1' → before x c').
Proof.
  intros HS Hc Hpos Hle. unfold merge_left.
  destruct l1 as [|p l1 _] using rev_ind.
  { simpl. exists []. split_and!; [done|apply absorbs_nil|done|set_solver]. }
  rewrite last_snoc, removelast_last.
  apply StronglySorted_app_iff in HS as (HS1 & _ & Hp).
  apply Forall_app in Hpos as [_ [Hpp _]%Forall_cons]. unfold positive_size in Hpp.
  destruct (can_be_coalesced p c) eqn:E.
  - apply Z.eqb_eq in E. exists [p]. split_and!; [done| |unfold fb_end; simpl; lia|].
    + constructor; unfold sum_sizes, fb_end, disjoint_range, fb_range; simpl.
      * lia.
      * intros lo hi ? ? Hm. specialize (Hm p ltac:(left)). unfold fb_end in *. simpl in *. lia.
      * intros d _ Hm. apply Hm. left.
      * intros r ?? Hm. specialize (Hm p ltac:(left)). simpl in Hm. lia.
    + intros x Hx. specialize (Hp x p Hx ltac:(left)). done.
  - apply Z.eqb_neq in E. exists []. rewrite app_nil_r.
    split_and!; [done|apply absorbs_nil|done|].
    intros x Hx. pose proof (Hle x Hx). apply elem_of_app in Hx as [Hx|Hx].
    + specialize (Hp x p Hx ltac:(left)). specialize (Hle p ltac:(set_solver)).
      unfold before, fb_end, can_be_coalesced in *. lia.
    + apply list_elem_of_singleton in Hx as ->. unfold before, fb_end in *. lia.
Qed.

Lemma merge_right_spec c l2 :
  StronglySorted before l2 → 0 < fb_size c → Forall positive_size l2 →
  (∀ y, y ∈ l2 → fb_end c <= fb_start y) →
  let '(c', l2') := merge_right c l2 in
  ∃ m, l2 = m ++ l2' ∧ absorbs c m c' ∧ fb_start c' = fb_start c ∧ (∀ y, y ∈ l2' → before c' y).
Proof.
  intros HS Hc Hpos Hle. unfold merge_right. destruct l2 as [|n l2].
  { exists []. split_and!; [done|apply absorbs_nil|done|set_solver]. }
  apply StronglySorted_cons_iff in HS as [HS Hn]. apply Forall_cons in Hpos as [Hpn _].
  unfold positive_size in Hpn. destruct (can_be_coalesced c n) eqn:E.
  - apply Z.eqb_eq in E. exists [n]. split_and!; [done| |done|].
    + constructor; unfold sum_sizes, fb_end, disjoint_range, fb_range; simpl.
      * lia.
      * intros lo hi ? ? Hm. specialize (Hm n ltac:(left)). unfold fb_end in *. lia.
      * done.
      * intros r ?? Hm. specialize (Hm n ltac:(left)). simpl in Hm. lia.
    + intros y Hy. specialize (Hn _ Hy). unfold before, fb_end in *. simpl. lia.
  - apply Z.eqb_neq in E. exists []. split_and!; [done|apply absorbs_nil|done|].
    intros y Hy. pose proof (Hle y Hy). apply elem_of_cons in Hy as [->|Hy].
    + unfold before, fb_end in *. lia.
    + specialize (Hn _ Hy). specialize (Hle n ltac:(left)). unfold before, fb_end in *. lia.
Qed.

Lemma absorbs_trans c m1 c1 m2 c2 :
  absorbs c m1 c1 → absorbs c1 m2 c2 → absorbs c (m1 ++ m2) c2.
Proof.
  intros [S1 B1 A1 D1] [S2 B2 A2 D2]. constructor.
  - rewrite sum_sizes_app. lia.
  - intros lo hi ?? Hm.
    destruct (B1 lo hi) as [? ?]; [done..|set_solver|]. apply B2; [done..|set_solver].
  - intros d ? Hm. apply A2; [apply A1; set_solver|set_solver].
  - intros r ?? Hm. apply D2; [done|apply D1; set_solver|set_solver].
Qed.

Lemma sum_sizes_nonneg m : Forall positive_size m → 0 <= sum_sizes m.
Proof.
  unfold sum_sizes. induction 1 as [|x m Hx Hm IH]; simpl; [lia|]. unfold positive_size in Hx. lia.
Qed.

Lemma absorbs_positive c m c' :
  absorbs c m c' → 0 < fb_size c → Forall positive_size m → 0 < fb_size c'.
Proof. intros HA ? Hm%sum_sizes_nonneg. rewrite (ab_size _ _ _ HA). lia. Qed.

(** The shape of a coalescing insertion: the blocks around the freed range
    that are not adjacent stay, the adjacent ones are absorbed. *)
Lemma insert_coalesced_shape l1 c l2 :
  StronglySorted before (l1 ++ l2) → 0 < fb_size c → Forall positive_size (l1 ++ l2) →
  (∀ x, x ∈ l1 → fb_end x <= fb_start c) → (∀ y, y ∈ l2 → fb_end c <= fb_start y) →
  ∃ l1' m1 m2 l2' c', l1 = l1' ++ m1 ∧ l2 = m2 ++ l2' ∧
    insert_coalesced l1 c l2 = l1' ++ c' :: l2' ∧ absorbs c (m1 ++ m2) c' ∧
    StronglySorted before (l1' ++ c' :: l2').
Proof.
  intros (HS1 & HS2 & H12)%StronglySorted_app_iff Hc [Hp1 Hp2]%Forall_app Hl1 Hl2.
  unfold insert_coalesced.
  pose proof (merge_left_spec l1 c HS1 Hc Hp1 Hl1) as HL.
  destruct (merge_left l1 c) as [l1' c1]. destruct HL as (m1 & -> & HA1 & He1 & HB1).
  apply Forall_app in Hp1 as [_ Hm1].
  pose proof (merge_right_spec c1 l2 HS2 (absorbs_positive _ _ _ HA1 Hc Hm1) Hp2) as HR.
  destruct (merge_right c1 l2) as [c2 l2'].
  destruct HR as (m2 & -> & HA2 & Hst2 & HB2); [by rewrite He1|].
  exists l1', m1, m2, l2', c2. split_and!; [done..|by eapply absorbs_trans|].
  apply StronglySorted_app_iff in HS1 as (? & _ & _), HS2 as (_ & ? & _).
  rewrite StronglySorted_app_iff, StronglySorted_cons_iff. split_and!; [done..|].
  intros x y Hx [->|Hy]%elem_of_cons; [|set_solver].
  specialize (HB1 _ Hx). unfold before in *. lia.
Qed.

Lemma owned_list_gap align size total l1 l2 a n allocs :
  owned_list align size total (l1 ++ l2) ((a, n) :: allocs) →
  (∀ x, x ∈ l1 → fb_start x < a) → (∀ y, y ∈ l2 → a <= fb_start y) →
  (∀ x, x ∈ l1 → fb_end x <= a) ∧ (∀ y, y ∈ l2 → a + n <= fb_start y).
Proof.
  intros Hown H1 H2. pose proof (owned_list_positive _ _ _ _ _ Hown) as Hpos.
  rewrite Forall_forall in Hpos. destruct Hown as [HS Hf Ha Hd Had Ht Hcov].
  apply Forall_cons in Ha as [(? & ? & ? & ?) _]. simpl in *. split.
  - intros x Hx. specialize (Hd x (a, n) ltac:(set_solver) ltac:(left)). specialize (H1 _ Hx).
    unfold disjoint_range, fb_end in *. simpl in *. lia.
  - intros y Hy. specialize (Hd y (a, n) ltac:(set_solver) ltac:(left)). specialize (H2 _ Hy).
    specialize (Hpos y ltac:(set_solver)).
    unfold disjoint_range, positive_size in *. simpl in *. lia.
Qed.

Lemma insert_coalesced_owned align size total l1 l2 a n allocs :
  owned_list align size total (l1 ++ l2) ((a, n) :: allocs) →
  (∀ x, x ∈ l1 → fb_start x < a) → (∀ y, y ∈ l2 → a <= fb_start y) →
  owned_list align size (total - n) (insert_coalesced l1 (mkFreeBlock a n) l2) allocs.
Proof.
  intros Hown H1 H2. pose proof (owned_list_positive _ _ _ _ _ Hown) as Hpos.
  destruct (owned_list_gap _ _ _ _ _ _ _ _ Hown H1 H2) as [Hl1 Hl2].
  destruct Hown as [HS Hf Ha Hd Had Ht Hcov].
  apply Forall_cons in Ha as [(Ha0 & Ha1 & Ha2 & Ha3) Ha]. simpl in *.
  apply StronglySorted_cons_iff in Had as [Had Hda].
  destruct (insert_coalesced_shape l1 (mkFreeBlock a n) l2)
    as (l1' & m1 & m2 & l2' & c & -> & -> & -> & HA & HS'); [done..|].
  rewrite !Forall_app in Hf, Hpos. destruct Hf as [[Hf1 Hm1] [Hm2 Hf2]].
  destruct Hpos as [[_ Hq1] [Hq2 _]].
  assert (Forall (λ b, range_ok align size (fb_range b)) (m1 ++ m2)) as Hm by (by apply Forall_app).
  rewrite Forall_forall in Hm.
  constructor; [done| |done| |done| |].
  - rewrite Forall_app, Forall_cons. split_and!; [done| |done].
    destruct (ab_bounds _ _ _ HA 0 size) as [? ?]; [done|done| |].
    { intros x Hx. destruct (Hm x Hx) as (?&?&?&?). unfold fb_range, fb_end in *; simpl in *. lia. }
    unfold range_ok; simpl. split_and!; [done| |done|].
    + apply (absorbs_positive _ _ _ HA); [done|]. by apply Forall_app.
    + apply (ab_align _ _ _ HA); [done|]. intros x Hx. by destruct (Hm x Hx) as (?&?&?&?).
  - intros b r Hb Hr.
    apply elem_of_app in Hb as [Hb|[->|Hb]%elem_of_cons]; [apply Hd; set_solver| |apply Hd; set_solver].
    rewrite Forall_forall in Ha. destruct (Ha _ Hr) as (?&?&?&?).
    apply (ab_disj _ _ _ HA); [done| |].
    + unfold fb_range; simpl. by apply Hda.
    + intros x Hx. apply Hd; set_solver.
  - subst total. simpl. lia.
  - pose proof (ab_size _ _ _ HA) as Hsz. simpl in Hsz. rewrite sum_sizes_app in Hsz.
    rewrite !sum_sizes_app in *. unfold sum_sizes in *. simpl. lia.
Qed.

(** ** Each operation against the ownership invariant *)

Definition fits (al : Z) (l : list FreeBlock) : bool := existsb (λ b, al <=? fb_size b) l.

Lemma first_fit_fits al l : is_Some (first_fit al l) ↔ fits al l = true.
Proof.
  unfold fits. rewrite existsb_exists. split.
  - intros [b (l1 & l2 & -> & Hle & _)%first_fit_Some]. exists b. split; [|by apply Z.leb_le].
    rewrite <- list_elem_of_In. set_solver.
  - intros (b & Hb%list_elem_of_In & Hle%Z.leb_le).
    destruct (first_fit al l) eqn:E; [done|]. apply first_fit_None in E.
    rewrite Forall_forall in E. specialize (E _ Hb). lia.
Qed.

Lemma allocate_owned am allocs size :
  owned am allocs → 0 < size →
  let al := compute_aligned_size am size in
  if fits al (sl_list (am_explicit_list am)) then
    ∃ a am', allocate am size = Ok ((a, al), am') ∧ owned am' ((a, al) :: allocs) ∧
      am_size am' = am_size am ∧ am_align am' = am_align am
  else allocate am size = Raise RuntimeError.
Proof.
  intros Hown Hsz al. destruct (allocate am size) as [[[a n] am']|e] eqn:E.
  - destruct (allocate_carve _ _ _ _ _ _ Hown Hsz E) as (-> & Hc & Hs & Ha & Ht).
    assert (fits al (sl_list (am_explicit_list am)) = true) as ->.
    { apply first_fit_fits. unfold allocate in E. fold al in E. by destruct (first_fit _ _). }
    exists a, am'. split_and!; [done| |done..]. destruct Hown as [Hp Hown].
    split; [by rewrite Ha|]. rewrite Ha, Hs, Ht.
    by apply (carve_owned _ _ _ _ _ _ _ (pow2_pos _ Hp) Hown Hc).
  - unfold allocate in E. fold al in E.
    destruct (first_fit al _) as [b|] eqn:Hff.
    + apply first_fit_Some in Hff as (l1 & l2 & Heq & _).
      destruct (sl_remove_mid (am_explicit_list am) l1 b l2) as (s' & Hr & _); [done| |].
      { destruct Hown as [_ Hown]. by eapply owned_list_start_lt. }
      by rewrite Hr in E.
    + destruct (fits al _) eqn:Hf; [|by injection E as <-].
      apply first_fit_fits in Hf. rewrite Hff in Hf. by destruct Hf.
Qed.

Lemma batched_allocate_owned am allocs size n :
  owned am allocs → 0 < size → 0 <= n →
  let al := compute_aligned_size am size in
  if n <=? capacity al (sl_list (am_explicit_list am)) then
    ∃ rs am', batched_allocate am size n = Ok (rs, am') ∧ Z.of_nat (length rs) = n ∧
      Forall (λ r, r.2 = al) rs ∧ owned am' (rs ++ allocs) ∧
      am_size am' = am_size am ∧ am_align am' = am_align am
  else batched_allocate am size n = Raise RuntimeError.
Proof.
  intros Hown Hsz Hn al. pose proof (batched_allocate_carves am allocs size n Hown Hsz Hn) as H.
  cbv zeta in H. fold al in H. destruct (n <=? _); [|done].
  destruct H as (rs & am' & Heq & Hl & Hal & Hc & Hs & Ha & Ht).
  exists rs, am'. split_and!; [done..| |done|done]. destruct Hown as [Hp Hown].
  split; [by rewrite Ha|]. rewrite Ha, Hs, Ht, <- Hl, <- (sum_ranges_const al rs Hal).
  eapply owned_list_perm; [|by apply (carves_owned _ _ _ _ _ _ _ (pow2_pos _ Hp) Hown Hc)].
  by rewrite <- Permutation_rev.
Qed.

Lemma free_owned am a n allocs :
  owned am ((a, n) :: allocs) →
  ∃ am', free am a n = Ok am' ∧ owned am' allocs ∧
    am_size am' = am_size am ∧ am_align am' = am_align am.
Proof.
  intros [Hp Hown]. pose proof (owned_list_start_lt _ _ _ _ _ Hown) as HS.
  destruct (start_split _ a HS) as (l1 & l2 & Heq & H1 & H2). rewrite Heq in Hown, HS.
  destruct (owned_list_gap _ _ _ _ _ _ _ _ Hown H1 H2) as [_ Hl2].
  destruct (free_insert am l1 l2 a n Heq) as (am' & Hf & Hl & Hs & Ha & Ht).
  { apply StronglySorted_app_iff in HS as (? & ? & ?).
    rewrite StronglySorted_app_iff, StronglySorted_cons_iff. split_and!; [done..| |].
    - intros y Hy. specialize (Hl2 _ Hy). destruct Hown as [_ _ [(?&?&?&?) _]%Forall_cons _ _ _ _].
      unfold start_lt. simpl in *. lia.
    - intros x y Hx [->|Hy]%elem_of_cons; [by apply H1|auto]. }
  exists am'. split_and!; [done| |done..]. split; [by rewrite Ha|].
  rewrite Ha, Hs, Ht, Hl. by apply insert_coalesced_owned.
Qed.

(** Two adjacent allocations can be released as one range. *)
Lemma owned_merge am a n n' allocs :
  owned am ((a, n) :: (a + n, n') :: allocs) → owned am ((a, n + n') :: allocs).
Proof.
  intros [Hp [HS Hf Ha Hd Had Ht Hc]]. split; [done|].
  rewrite !Forall_cons in Ha. destruct Ha as [(?&?&?&?) [(?&?&?&?) Ha]].
  rewrite !StronglySorted_cons_iff in Had. destruct Had as [[Had Hn'] Hn]. simpl in *.
  constructor; [done|done| | | | |]; simpl in *.
  - constructor; [|done]. unfold range_ok; simpl. split_and!; [lia..|done].
  - intros b r Hb [->|Hr]%elem_of_cons; [|apply Hd; set_solver].
    pose proof (Hd b (a, n) Hb ltac:(set_solver)). pose proof (Hd b (a + n, n') Hb ltac:(set_solver)).
    rewrite Forall_forall in Hf. destruct (Hf _ Hb) as (?&?&?&?).
    unfold disjoint_range in *; simpl in *. lia.
  - rewrite StronglySorted_cons_iff. split; [done|]. intros r Hr.
    pose proof (Hn r ltac:(set_solver)). pose proof (Hn' r Hr).
    rewrite Forall_forall in Ha. destruct (Ha _ Hr) as (?&?&?&?).
    unfold disjoint_range in *; simpl in *. lia.
  - lia.
  - done.
Qed.

Lemma owned_perm am allocs allocs' : allocs ≡ₚ allocs' → owned am allocs → owned am allocs'.
Proof. intros HP [? ?]. split; [done|]. by eapply owned_list_perm. Qed.

(** Growing the address space is freeing a range the space is extended by. *)
Lemma owned_list_extend align size total l allocs n :
  0 <= size → owned_list align size total l allocs → 0 < n → (align | size) →
  owned_list align (size + n) (total + n) l ((size, n) :: allocs).
Proof.
  intros Hsz [HS Hf Ha Hd Had Ht Hc] Hn Hdiv. 
  assert (∀ r, range_ok align size r → range_ok align (size + n) r) as Hext.
  { intros r (?&?&?&?). split_and!; [done..|lia|done]. }
  constructor; [done| | | | | |]; simpl.
  - eapply Forall_impl; [done|]. auto.
  - constructor; [|eapply Forall_impl; eauto]. split_and!; simpl; [lia..|done].
  - intros b r Hb [->|Hr]%elem_of_cons; [|auto]. rewrite Forall_forall in Hf.
    destruct (Hf _ Hb) as (?&?&?&?). unfold disjoint_range; simpl in *. lia.
  - apply StronglySorted_cons_iff. split; [done|]. intros r Hr.
    rewrite Forall_forall in Ha. destruct (Ha _ Hr) as (?&?&?&?).
    unfold disjoint_range; simpl in *. lia.
  - lia.
  - lia.
Qed.

Lemma sbrk_insert am size :
  StronglySorted start_lt (sl_list (am_explicit_list am) ++
    [mkFreeBlock (am_size am) (compute_aligned_size am size)]) →
  ∃ am', sbrk am size = Ok am' ∧
    sl_list (am_explicit_list am') =
      insert_coalesced (sl_list (am_explicit_list am))
        (mkFreeBlock (am_size am) (compute_aligned_size am size)) [] ∧
    am_size am' = am_size am + compute_aligned_size am size ∧ am_align am' = am_align am ∧
    am_total_allocated_size am' = am_total_allocated_size am.
Proof.
  unfold sbrk. set (c := mkFreeBlock _ _). intros HS.
  remember (sl_list (am_explicit_list am)) as l eqn:Hl. symmetry in Hl.
  destruct l as [|p l1 _] using rev_ind.
  - cbn [length]. destruct (coalesce_first (am_explicit_list am) [] c Hl HS) as (r & Hr & Hl').
    cbn [head] in Hr. rewrite Hr. eexists. split_and!; [done|exact Hl'|done..].
  - rewrite length_app, Nat.add_comm. cbn [length Nat.add].
    rewrite lookup_last_app. cbn [fmap option_fmap option_map].
    destruct (coalesce_after (am_explicit_list am) l1 p [] c Hl HS) as (r & Hr & Hl').
    cbn [head] in Hr. rewrite Hr. eexists. split_and!; [done|exact Hl'|done..].
Qed.

Lemma sbrk_owned am allocs size :
  owned am allocs → 0 <= am_size am → (am_align am | am_size am) → 0 < size →
  ∃ am', sbrk am size = Ok am' ∧ owned am' allocs ∧
    am_size am' = am_size am + compute_aligned_size am size ∧ am_align am' = am_align am.
Proof.
  intros [Hp Hown] Hsz Hdiv Hs.
  destruct (compute_aligned_size_bounds am size Hp) as [Hdiv' Hb].
  set (n := compute_aligned_size am size) in *.
  pose proof (owned_list_extend _ _ _ _ _ n Hsz Hown ltac:(lia) Hdiv) as Hext.
  assert (∀ x, x ∈ sl_list (am_explicit_list am) → fb_start x < am_size am) as Hlt.
  { destruct Hown as [_ Hf _ _ _ _ _]. rewrite Forall_forall in Hf.
    intros x Hx. destruct (Hf _ Hx) as (?&?&?&?). simpl in *. lia. }
  destruct (sbrk_insert am size) as (am' & Heq & Hl & Hs' & Ha & Ht).
  { apply StronglySorted_app_iff. split_and!.
    - by eapply owned_list_start_lt.
    - repeat constructor.
    - intros x y Hx ->%list_elem_of_singleton. by apply Hlt. }
  exists am'. split_and!; [done| |done..]. split; [by rewrite Ha|].
  rewrite Ha, Hs', Ht, Hl. fold n.
  replace (am_total_allocated_size am) with (am_total_allocated_size am + n - n) by lia.
  apply insert_coalesced_owned; [by rewrite app_nil_r|done|set_solver].
Qed.

Lemma am_init_owned size align :
  pow2 align → 0 < size → owned (am_init (SL := SL) size align) [].
Proof.
  intros Hp Hs. split; [done|]. simpl.
  assert (sl_list (sl_add (mkFreeBlock 0 size) sl_empty) = [mkFreeBlock 0 size]) as ->.
  { symmetry. apply sorted_perm_eq; [repeat constructor| |];
      pose proof (sl_add_sorted (mkFreeBlock 0 size) sl_empty) as H;
      rewrite sl_empty_list in H; destruct H as [? HP]; [constructor|done|constructor|by rewrite HP]. }
  constructor; [repeat constructor| |constructor| |constructor|done|].
  - constructor; [|done]. split_and!; simpl; [lia..|]. by apply Z.divide_0_r.
  - intros ? ? _ Hr. by apply not_elem_of_nil in Hr.
  - unfold sum_sizes; simpl. lia.
Qed.

(** A coalesced list passes the code's own consistency check. *)
Lemma before_all_coalesced l : StronglySorted before l → all_coalesced l = true.
Proof.
  induction 1 as [|x l HS IH Hx]; [done|]. destruct l as [|y l]; [done|].
  change (negb (can_be_coalesced x y) && all_coalesced (y :: l) = true). rewrite IH, andb_true_r. apply Forall_cons in Hx as [Hxy _].
  unfold before, fb_end, can_be_coalesced in *. apply negb_true_iff, Z.eqb_neq. lia.
Qed.

Lemma owned_consistent am allocs : owned am allocs → check_consistency am = true.
Proof.
  intros [_ [HS _ _ _ _ _ Hc]]. unfold check_consistency.
  rewrite before_all_coalesced by done. simpl. by apply Z.eqb_eq.
Qed.

End refinement.
