(* ===== verification/AddressSpace.v ===== *)
(** * AddressSpace: what the address allocator promises

    The free list of [AddressManager] is the coalesced complement of the live
    allocations: this file proves that it is determined by them, gives an
    executable instance of the sorted container, a step relation for the
    callers' use of the allocator, and the theorems about every reachable
    state. *)

From stdpp Require Import list_numbers.
From S2P Require Import Prelude AddressManager.
Local Open Scope Z_scope.

(** ** Counting bytes *)

Definition bytes (r : Z * Z) : list Z := seqZ r.1 r.2.

Lemma elem_of_bytes x r : x ∈ bytes r ↔ r.1 <= x < r.1 + r.2.
Proof. unfold bytes. by rewrite elem_of_seqZ. Qed.

Lemma length_bytes rs :
  Forall (λ r, 0 < r.2) rs → Z.of_nat (length (rs ≫= bytes)) = sum_ranges rs.
Proof.
  induction 1 as [|r rs Hr ? IH]; [done|]. rewrite bind_cons, length_app, Nat2Z.inj_add, IH.
  unfold bytes, sum_ranges. rewrite length_seqZ. simpl. lia.
Qed.

Lemma NoDup_bytes rs : StronglySorted disjoint_range rs → NoDup (rs ≫= bytes).
Proof.
  induction 1 as [|r rs HS IH Hr]; [constructor|]. rewrite bind_cons. apply NoDup_app.
  split_and!; [apply NoDup_seqZ| |done].
  intros x Hx (r' & Hx' & Hr')%list_elem_of_bind. rewrite Forall_forall in Hr.
  specialize (Hr _ Hr'). apply elem_of_bytes in Hx, Hx'. unfold disjoint_range in Hr. lia.
Qed.

(** Disjoint ranges that add up to the whole space cover it. *)
Lemma ranges_cover size rs :
  StronglySorted disjoint_range rs →
  Forall (λ r, 0 <= r.1 ∧ 0 < r.2 ∧ r.1 + r.2 <= size) rs → sum_ranges rs = size →
  ∀ x, 0 <= x < size → ∃ r, r ∈ rs ∧ r.1 <= x < r.1 + r.2.
Proof.
  intros HS Hok Hsum x Hx.
  assert (rs ≫= bytes ≡ₚ seqZ 0 size) as HP.
  { apply submseteq_length_Permutation.
    - apply NoDup_submseteq; [by apply NoDup_bytes|].
      intros y (r & Hy%elem_of_bytes & Hr)%list_elem_of_bind. rewrite Forall_forall in Hok.
      specialize (Hok _ Hr). apply elem_of_seqZ. lia.
    - apply Nat2Z.inj_le. rewrite length_bytes, length_seqZ; [lia|].
      eapply Forall_impl; [done|]. simpl. lia. }
  assert (x ∈ rs ≫= bytes) as (r & Hxr%elem_of_bytes & Hr)%list_elem_of_bind.
  { rewrite HP. apply elem_of_seqZ. lia. }
  by exists r.
Qed.

Definition in_block (x : Z) (b : FreeBlock) : Prop := fb_start b <= x < fb_end b.
Definition in_free (x : Z) (l : list FreeBlock) : Prop := ∃ b, b ∈ l ∧ in_block x b.
Definition in_live (x : Z) (rs : list (Z * Z)) : Prop := ∃ r, r ∈ rs ∧ r.1 <= x < r.1 + r.2.

Lemma sum_ranges_app rs1 rs2 : sum_ranges (rs1 ++ rs2) = sum_ranges rs1 + sum_ranges rs2.
Proof. unfold sum_ranges. induction rs1; simpl; lia. Qed.

Lemma sum_ranges_blocks l : sum_ranges (fb_range <$> l) = sum_sizes l.
Proof. unfold sum_ranges, sum_sizes. induction l as [|b l IH]; [done|]. rewrite fmap_cons. simpl. lia. Qed.

Lemma before_disjoint l : StronglySorted before l → StronglySorted disjoint_range (fb_range <$> l).
Proof.
  induction 1 as [|b l HS IH Hb]; rewrite ?fmap_nil, ?fmap_cons; constructor; [done|].
  rewrite Forall_fmap. eapply Forall_impl; [done|]. intros x Hx.
  unfold before, fb_end in Hx. unfold compose, disjoint_range; simpl. lia.
Qed.

(** Every byte of the space is either free or live, never both. *)
Lemma owned_partition align size total l allocs :
  owned_list align size total l allocs →
  ∀ x, 0 <= x < size → in_free x l ↔ ¬ in_live x allocs.
Proof.
  intros [HS Hf Ha Hd Had Ht Hc] x Hx. split.
  - intros (b & Hb & Hxb) (r & Hr & Hxr). specialize (Hd _ _ Hb Hr).
    unfold in_block, fb_end, disjoint_range in *. simpl in Hd. lia.
  - intros Hn. destruct (ranges_cover size ((fb_range <$> l) ++ allocs)) with (x := x)
      as (r & Hr & Hxr); [..|done|].
    + apply StronglySorted_app_iff. split_and!; [by apply before_disjoint|done|].
      intros r r' (b & -> & Hb)%list_elem_of_fmap Hr'. auto.
    + rewrite Forall_app, Forall_fmap. split; (eapply Forall_impl; [done|]).
      * intros b (?&?&?&?). done.
      * intros r (?&?&?&?). done.
    + rewrite sum_ranges_app, sum_ranges_blocks. lia.
    + apply elem_of_app in Hr as [(b & -> & Hb)%list_elem_of_fmap|Hr].
      * exists b. split; [done|]. unfold in_block, fb_end. simpl in Hxr. lia.
      * destruct Hn. by exists r.
Qed.

(** A coalesced list is determined by the bytes it covers. *)
Lemma coalesced_head b l b' l' :
  StronglySorted before (b :: l) → StronglySorted before (b' :: l') →
  0 < fb_size b → Forall positive_size (b' :: l') →
  (∀ x, in_free x (b :: l) → in_free x (b' :: l')) →
  fb_start b' <= fb_start b ∧ (fb_start b' = fb_start b → fb_end b <= fb_end b').
Proof.
  intros [HS Hb]%StronglySorted_cons_iff [HS' Hb']%StronglySorted_cons_iff Hp Hp' Hin.
  assert (∀ y, y ∈ l' → fb_end b' < fb_start y) as Hgap by (intros y Hy; by apply Hb').
  apply Forall_cons in Hp' as [Hp' _]. unfold positive_size in Hp'.
  assert (∀ x, in_block x b → fb_start b' <= x) as Hlow.
  { intros x Hx. destruct (Hin x) as (y & [->|Hy]%elem_of_cons & Hxy).
    - exists b. split; [left|done].
    - unfold in_block in Hxy. lia.
    - specialize (Hgap _ Hy). unfold in_block, fb_end in *. lia. }
  split.
  - apply Hlow. unfold in_block, fb_end. lia.
  - intros Heq. destruct (decide (fb_end b <= fb_end b')) as [|Hn]; [done|exfalso].
    destruct (Hin (fb_end b')) as (y & [->|Hy]%elem_of_cons & Hxy).
    + exists b. split; [left|]. unfold in_block, fb_end in *. lia.
    + unfold in_block in Hxy. lia.
    + specialize (Hgap _ Hy). unfold in_block in *. lia.
Qed.

Lemma coalesced_unique l l' :
  StronglySorted before l → StronglySorted before l' →
  Forall positive_size l → Forall positive_size l' →
  (∀ x, in_free x l ↔ in_free x l') → l = l'.
Proof.
  revert l'. induction l as [|b l IH]; intros l' HS HS' Hp Hp' Hin.
  - destruct l' as [|b l']; [done|]. destruct (Hin (fb_start b)) as [_ [? [? _]]]; [|set_solver].
    exists b. split; [left|]. apply Forall_cons in Hp' as [? _].
    unfold in_block, fb_end, positive_size in *. lia.
  - destruct l' as [|b' l'].
    { destruct (Hin (fb_start b)) as [[? [? _]] _]; [|set_solver].
      exists b. split; [left|]. apply Forall_cons in Hp as [? _].
      unfold in_block, fb_end, positive_size in *. lia. }
    pose proof (Forall_inv Hp) as Hpb. pose proof (Forall_inv Hp') as Hpb'.
    destruct (coalesced_head b l b' l') as [H1 H2]; [done..|by apply Hin|].
    destruct (coalesced_head b' l' b l) as [H3 H4]; [done..|by apply Hin|].
    assert (b = b') as ->.
    { destruct b, b'. unfold fb_end in *. simpl in *. f_equal; lia. }
    apply StronglySorted_cons_iff in HS as [HS Hb], HS' as [HS' Hb']. f_equal.
    apply IH; [done..|by inversion Hp|by inversion Hp'|]. intros x.
    assert (∀ k, (∀ y, y ∈ k → before b' y) → in_free x k ↔ in_free x (b' :: k) ∧ ¬ in_block x b')
      as Htail.
    { intros k Hk. unfold in_free. setoid_rewrite elem_of_cons. split.
      - intros (y & Hy & Hxy). specialize (Hk _ Hy). split; [eauto|].
        unfold before, in_block, positive_size in *. lia.
      - intros [(y & [->|Hy] & Hxy) Hn]; [done|eauto]. }
    rewrite (Htail l), (Htail l') by done. by rewrite Hin.
Qed.

Lemma in_live_perm x rs rs' : rs ≡ₚ rs' → in_live x rs ↔ in_live x rs'.
Proof. intros HP. unfold in_live. by setoid_rewrite HP. Qed.

Lemma in_free_bound align size total l allocs x :
  owned_list align size total l allocs → in_free x l → 0 <= x < size.
Proof.
  intros [_ Hf _ _ _ _ _] (b & Hb & Hx). rewrite Forall_forall in Hf.
  destruct (Hf _ Hb) as (?&?&?&?). unfold in_block, fb_end in *. simpl in *. lia.
Qed.

Lemma owned_list_unique align size total total' l l' allocs allocs' :
  owned_list align size total l allocs → owned_list align size total' l' allocs' →
  allocs ≡ₚ allocs' → l = l'.
Proof.
  intros H1 H2 HP.
  apply coalesced_unique;
    [by destruct H1|by destruct H2|by eapply owned_list_positive|by eapply owned_list_positive|].
  intros x. destruct (decide (0 <= x < size)) as [Hx|Hx].
  - rewrite (owned_partition _ _ _ _ _ H1 x Hx), (owned_partition _ _ _ _ _ H2 x Hx).
    by rewrite (in_live_perm x _ _ HP).
  - split; intros H; destruct Hx; [exact (in_free_bound _ _ _ _ _ _ H1 H)
                                  |exact (in_free_bound _ _ _ _ _ _ H2 H)].
Qed.

(** ** An executable sorted container *)

Module ListSortedList.

Record t := mk { contents : list FreeBlock }.

Fixpoint add (b : FreeBlock) (l : list FreeBlock) : list FreeBlock :=
  match l with
  | [] => [b]
  | x :: rest => if fb_start b <? fb_start x then b :: x :: rest else x :: add b rest
  end.

Fixpoint remove (b : FreeBlock) (l : list FreeBlock) : result (list FreeBlock) :=
  match l with
  | [] => Raise ValueError
  | x :: rest => if decide (x = b) then Ok rest else (r <-? remove b rest; Ok (x :: r))%py
  end.

#[global] Instance ops : SortedListOps t := {
  sl_list := contents;
  sl_empty := mk [];
  sl_add b s := mk (add b (contents s));
  sl_remove b s := (r <-? remove b (contents s); Ok (mk r))%py;
  sl_bisect_left s b := length (filter (fun x => start_lt x b) (contents s));
  sl_mutate i b s := mk (<[i := b]> (contents s)) }.

Lemma add_perm b l : add b l ≡ₚ b :: l.
Proof.
  induction l as [|x l IH]; simpl; [done|]. destruct (_ <? _); [done|].
  rewrite IH. apply Permutation_swap.
Qed.

Lemma add_sorted b l : StronglySorted start_le l → StronglySorted start_le (add b l).
Proof.
  induction 1 as [|x l HS IH Hx]; simpl; [repeat constructor|].
  destruct (Z.ltb_spec (fb_start b) (fb_start x)).
  - constructor; [by constructor|]. constructor; [unfold start_le; lia|].
    eapply Forall_impl; [done|]. unfold start_le. lia.
  - constructor; [done|]. rewrite add_perm. constructor; [unfold start_le; lia|done].
Qed.

Lemma remove_in b l1 l2 : b ∉ l1 → remove b (l1 ++ b :: l2) = Ok (l1 ++ l2).
Proof.
  induction l1 as [|x l1 IH]; intros Hn; simpl; [by rewrite decide_True|].
  rewrite decide_False by set_solver. rewrite IH by set_solver. done.
Qed.

Lemma remove_notin b l : b ∉ l → remove b l = Raise ValueError.
Proof.
  induction l as [|x l IH]; intros Hn; simpl; [done|].
  rewrite decide_False by set_solver. by rewrite IH by set_solver.
Qed.

#[global] Instance spec : SortedListSpec t.
Proof.
  constructor; simpl.
  - done.
  - intros b s HS. split; [by apply add_sorted|apply add_perm].
  - intros b s l1 l2 _ -> Hn. rewrite remove_in by done. simpl. by eexists.
  - intros b s _ Hn. by rewrite remove_notin.
  - done.
  - done.
Qed.

End ListSortedList.

(** ** Reachable states *)

Section reachable.
Context {SL : Type} {SLO : SortedListOps SL} {SLS : SortedListSpec SL}.

(** One call of a client that frees only what it was given. *)
Inductive am_step : AddressManager SL * list (Z * Z) → AddressManager SL * list (Z * Z) → Prop :=
| step_allocate am allocs size r am' :
    0 < size → allocate am size = Ok (r, am') → am_step (am, allocs) (am', r :: allocs)
| step_batched_allocate am allocs size n rs am' :
    0 < size → 0 <= n → batched_allocate am size n = Ok (rs, am') →
    am_step (am, allocs) (am', rs ++ allocs)
| step_free am allocs1 a n allocs2 am' :
    free am a n = Ok am' → am_step (am, allocs1 ++ (a, n) :: allocs2) (am', allocs1 ++ allocs2)
| step_sbrk am allocs size am' :
    0 < size → sbrk am size = Ok am' → am_step (am, allocs) (am', allocs).

Definition am_invariant (s : AddressManager SL * list (Z * Z)) : Prop :=
  owned s.1 s.2 ∧ 0 <= am_size s.1 ∧ (am_align s.1 | am_size s.1).

Lemma am_step_invariant s s' : am_step s s' → am_invariant s → am_invariant s'.
Proof.
  intros Hst (Hown & Hsz & Hdiv).
  destruct Hst as [am allocs size r am' Hs E|am allocs size n rs am' Hs Hn E
                  |am l1 a n l2 am' E|am allocs size am' Hs E]; simpl in *.
  - pose proof (allocate_owned am allocs size Hown Hs) as H. cbv zeta in H. rewrite E in H.
    destruct (fits _ _); [|done]. destruct H as (a & am2 & [= -> ->] & H & Hsz' & Ha).
    split_and!; simpl; rewrite ?Ha, ?Hsz'; auto.
  - pose proof (batched_allocate_owned am allocs size n Hown Hs Hn) as H. cbv zeta in H.
    rewrite E in H. destruct (_ <=? _); [|done].
    destruct H as (rs2 & am2 & [= <- <-] & _ & _ & H & Hsz' & Ha).
    split_and!; simpl; rewrite ?Ha, ?Hsz'; auto.
  - destruct (free_owned am a n (l1 ++ l2)) as (am2 & E' & H & Hsz' & Ha).
    { eapply owned_perm; [|done]. by rewrite Permutation_middle. }
    rewrite E in E'. injection E' as <-. split_and!; simpl; rewrite ?Ha, ?Hsz'; auto.
  - destruct (sbrk_owned am allocs size) as (am2 & E' & H & Hsz' & Ha); [done..|].
    rewrite E in E'. injection E' as <-.
    destruct (compute_aligned_size_bounds am size) as [? ?]; [by destruct Hown|].
    split_and!; simpl; rewrite ?Ha, ?Hsz'; [done|lia|by apply Z.divide_add_r].
Qed.

Definition am_reachable (size align : Z) : AddressManager SL * list (Z * Z) → Prop :=
  rtc am_step (am_init size align, []).

Lemma am_reachable_invariant size align s :
  pow2 align → 0 < size → (align | size) → am_reachable size align s → am_invariant s.
Proof.
  intros Hp Hs Hdiv Hr. remember (am_init size align, @nil (Z * Z)) as s0 eqn:E0.
  unfold am_reachable in Hr. rewrite <- E0 in Hr.
  assert (am_invariant s0) as H0.
  { subst. split_and!; simpl; [by apply am_init_owned|lia|done]. }
  clear E0. induction Hr; [done|]. eauto using am_step_invariant.
Qed.

(** C1. In every state a client can reach from a fresh [AddressManager] by
    [allocate], [batched_allocate], [sbrk] and [free] of ranges it was given:
    the live ranges are aligned, lie inside the heap and are pairwise disjoint;
    every byte of the heap is free exactly when it is not live; the byte counts
    agree with [get_free_size]; and [check_consistency] succeeds. *)
Theorem address_manager_safe size align am allocs :
  pow2 align → 0 < size → (align | size) → am_reachable size align (am, allocs) →
  Forall (λ r, (am_align am | r.1) ∧ 0 <= r.1 ∧ 0 < r.2 ∧ r.1 + r.2 <= get_heap_size am) allocs ∧
  StronglySorted disjoint_range allocs ∧
  (∀ x, 0 <= x < get_heap_size am →
     in_free x (sl_list (am_explicit_list am)) ↔ ¬ in_live x allocs) ∧
  get_free_size am = get_heap_size am - sum_ranges allocs ∧
  check_consistency am = true.
Proof.
  intros Hp Hs Hdiv Hr.
  destruct (am_reachable_invariant _ _ _ Hp Hs Hdiv Hr) as (Hown & _ & _). simpl in *.
  split_and!; [| | | |by eapply owned_consistent]; destruct Hown as [_ Hown].
  - destruct Hown as [_ _ Ha _ _ _ _]. eapply Forall_impl; [done|]. by intros r (?&?&?&?).
  - by destruct Hown.
  - by eapply owned_partition.
  - destruct Hown as [_ _ _ _ _ Ht _]. unfold get_free_size, get_heap_size. lia.
Qed.

(** [allocate] of a positive size succeeds exactly when some free block is
    large enough for the aligned size, and then returns a fresh range of that
    size; otherwise it raises RuntimeError. *)
Theorem allocate_complete am allocs size :
  owned am allocs → 0 < size →
  let al := compute_aligned_size am size in
  if fits al (sl_list (am_explicit_list am)) then
    ∃ a am', allocate am size = Ok ((a, al), am') ∧ owned am' ((a, al) :: allocs)
  else allocate am size = Raise RuntimeError.
Proof.
  intros Hown Hs al. pose proof (allocate_owned am allocs size Hown Hs) as H. cbv zeta in H.
  fold al in H. destruct (fits _ _); naive_solver.
Qed.

(** [batched_allocate] is all or nothing: with [capacity] the number of
    aligned chunks the free blocks hold, a batch of [n] within the capacity
    yields exactly [n] fresh disjoint ranges of the aligned size, and a larger
    one raises RuntimeError without a new state. *)
Theorem batched_allocate_all_or_nothing am allocs size n :
  owned am allocs → 0 < size → 0 <= n →
  let al := compute_aligned_size am size in
  if n <=? capacity al (sl_list (am_explicit_list am)) then
    ∃ rs am', batched_allocate am size n = Ok (rs, am') ∧ Z.of_nat (length rs) = n ∧
      Forall (λ r, r.2 = al) rs ∧ owned am' (rs ++ allocs)
  else batched_allocate am size n = Raise RuntimeError.
Proof.
  intros Hown Hs Hn al. pose proof (batched_allocate_owned am allocs size n Hown Hs Hn) as H.
  cbv zeta in H. fold al in H. destruct (_ <=? _); naive_solver.
Qed.

(** Freeing is exact: [free] of a live range never raises, and the free
    list it leaves is a function of the remaining live ranges. In particular
    any sequence of allocations and frees that ends with the same live ranges
    ends with the same free list, whatever the order. *)
Theorem free_canonical am a n allocs (am0 : AddressManager SL) allocs0 :
  owned am ((a, n) :: allocs) → owned am0 allocs0 → allocs0 ≡ₚ allocs →
  am_size am0 = am_size am → am_align am0 = am_align am →
  ∃ am', free am a n = Ok am' ∧ owned am' allocs ∧
    sl_list (am_explicit_list am') = sl_list (am_explicit_list am0).
Proof.
  intros Hown H0 HP Hs Ha. destruct (free_owned _ _ _ _ Hown) as (am' & Hf & Hown' & Hs' & Ha').
  exists am'. split_and!; [done..|]. destruct Hown' as [_ H1], H0 as [_ H2].
  rewrite Hs, Ha in H2. rewrite Hs', Ha' in H1. by eapply owned_list_unique.
Qed.

End reachable.

(** ** Witnesses *)

Definition am0 : AddressManager ListSortedList.t := am_init 8192 1024.

Lemma pow2_1024 : pow2 1024.
Proof. exists 10. lia. Defined.

Lemma am0_owned : owned am0 [].
Proof. apply am_init_owned; [exact pow2_1024|lia]. Defined.

Definition am1 : AddressManager ListSortedList.t :=
  {| am_size := 8192; am_align := 1024;
     am_explicit_list := ListSortedList.mk [mkFreeBlock 2048 6144];
     am_total_allocated_size := 2048 |}.

Lemma am0_allocate : allocate am0 1500 = Ok ((0, 2048), am1).
Proof. vm_compute. reflexivity. Qed.

Lemma am1_owned : owned am1 [(0, 2048)].
Proof.
  pose proof (allocate_owned am0 [] 1500 am0_owned ltac:(lia)) as H. cbv zeta in H.
  rewrite am0_allocate in H. vm_compute (fits _ _) in H.
  destruct H as (a & am' & [= <- <-] & H & _). exact H.
Qed.

Lemma address_manager_safe_witness :
  am_reachable 8192 1024 (am1, [(0, 2048)]) ∧ check_consistency am1 = true.
Proof.
  assert (am_reachable 8192 1024 (am1, [(0, 2048)])) as Hr.
  { eapply rtc_l; [|apply rtc_refl].
    apply (step_allocate _ _ 1500); [lia|exact am0_allocate]. }
  split; [exact Hr|].
  destruct (address_manager_safe 8192 1024 am1 [(0, 2048)]) as (_ & _ & _ & _ & H);
    [exact pow2_1024|lia|exists 8; reflexivity|exact Hr|exact H].
Defined.

Lemma allocate_complete_witness :
  (∃ a am', allocate am0 1500 = Ok ((a, 2048), am') ∧ owned am' [(a, 2048)]) ∧
  allocate am1 6145 = Raise RuntimeError.
Proof.
  split.
  - exact (allocate_complete am0 [] 1500 am0_owned eq_refl).
  - exact (allocate_complete am1 _ 6145 am1_owned eq_refl).
Defined.

Lemma batched_allocate_witness :
  (∃ rs am', batched_allocate am1 2000 3 = Ok (rs, am') ∧ Z.of_nat (length rs) = 3 ∧
     Forall (λ r, r.2 = 2048) rs ∧ owned am' (rs ++ [(0, 2048)])) ∧
  batched_allocate am1 2000 4 = Raise RuntimeError.
Proof.
  split.
  - exact (batched_allocate_all_or_nothing am1 _ 2000 3 am1_owned eq_refl ltac:(lia)).
  - exact (batched_allocate_all_or_nothing am1 _ 2000 4 am1_owned eq_refl ltac:(lia)).
Defined.

Lemma free_canonical_witness :
  ∃ am', free am1 0 2048 = Ok am' ∧ owned am' [] ∧
    sl_list (am_explicit_list am') = [mkFreeBlock 0 8192].
Proof. exact (free_canonical am1 0 2048 [] am0 [] am1_owned am0_owned (Permutation_refl []) eq_refl eq_refl). Defined.
