(* ===== verification/TensorAllocator.v ===== *)
(** * TensorAllocator: reference-counted memory objects over the address manager

    Models [MemoryFormat], [MemoryObjMetadata], [TensorMemoryObj] and
    [_adapt_shapes_and_dtypes] of src/lmcache/v1/memory_management.py,
    [get_size_bytes] of src/lmcache/utils.py, [TensorMemoryAllocator] of
    src/lmcache/v1/memory_allocators/tensor_memory_allocator.py and the
    [PinMonitor] of src/lmcache/v1/pin_monitor.py.

    Memory objects are shared and mutated by every component that holds one, so
    the model has a store [w_objs] of them and operations take the identity (the
    position) of an object. [World] is the allocator, the store, the pin
    monitor and the statistics gauges the operations update. A torch dtype is a
    parameter with its [itemsize]; raw data is the slice of the pool it views. *)

From S2P Require Import Prelude PyDict AddressManager AddressSpace.
Local Open Scope Z_scope.

Inductive MemoryFormat :=
| UNDEFINED | KV_2LTD | KV_T2D | KV_2TD | BINARY | BINARY_BUFFER | KV_MLA_FMT | EC_TD | HS_TD.

#[export] Instance MemoryFormat_eq_dec : EqDecision MemoryFormat.
Proof. solve_decision. Defined.

Definition token_dim (self : MemoryFormat) : nat :=
  if decide (self = KV_2LTD) then 2
  else if decide (self = KV_T2D) then 1
  else if decide (self = KV_2TD) then 0
  else if decide (self = BINARY) then 0
  else if decide (self = BINARY_BUFFER) then 0
  else if decide (self = KV_MLA_FMT) then 2
  else if decide (self = EC_TD) then 0
  else if decide (self = HS_TD) then 0
  else 0.

(** torch.Size *)
Definition Size := list Z.
Definition numel (s : Size) : Z := foldr Z.mul 1 s.

Section tensor_allocator.
Context {SL : Type} {SLO : SortedListOps SL}.
Context {dtype : Type} (itemsize : dtype → Z).

Fixpoint sum_group_sizes (shapes : list Size) (dtypes : list dtype) : Z :=
  match shapes, dtypes with
  | s :: shapes, d :: dtypes => numel s * itemsize d + sum_group_sizes shapes dtypes
  | _, _ => 0
  end.

Definition get_size_bytes (shapes : list Size) (kv_dtypes : list dtype) : result Z :=
  (guard (Nat.eqb (length shapes) (length kv_dtypes)) else AssertionError;
   Ok (sum_group_sizes shapes kv_dtypes))%py.

(** A shape or a list of shapes, a dtype or a list of dtypes. *)
Definition _adapt_shapes_and_dtypes (shapes : Size + list Size) (dtypes : dtype + list dtype)
  : result (list Size * list dtype) :=
  let shapes := match shapes with inl s => [s] | inr l => l end in
  let dtypes := match dtypes with inl d => [d] | inr l => l end in
  (guard (Nat.eqb (length shapes) (length dtypes)) else AssertionError; Ok (shapes, dtypes))%py.

Record MemoryObjMetadata := mkMetadata {
  md_shape : Size;
  md_dtype : option dtype;
  md_address : Z;
  md_phy_size : Z;
  md_ref_count : Z;
  md_pin_count : Z;
  md_fmt : MemoryFormat;
  md_shapes : option (list Size);
  md_dtypes : option (list dtype) }.

Record TensorMemoryObj := mkTensorMemoryObj {
  to_raw_data : Z * Z;                  (* start and length of the pool slice *)
  to_meta : MemoryObjMetadata;
  to_valid : bool;
  to_has_parent : bool;                 (* parent_allocator is not None *)
  to_used_size_override : option Z;
  to_group_prefix_sum : list Z }.

Definition set_ref_count (n : Z) (o : TensorMemoryObj) : TensorMemoryObj :=
  {| to_raw_data := to_raw_data o;
     to_meta := {| md_shape := md_shape (to_meta o); md_dtype := md_dtype (to_meta o);
                   md_address := md_address (to_meta o); md_phy_size := md_phy_size (to_meta o);
                   md_ref_count := n; md_pin_count := md_pin_count (to_meta o);
                   md_fmt := md_fmt (to_meta o); md_shapes := md_shapes (to_meta o);
                   md_dtypes := md_dtypes (to_meta o) |};
     to_valid := to_valid o; to_has_parent := to_has_parent o;
     to_used_size_override := to_used_size_override o;
     to_group_prefix_sum := to_group_prefix_sum o |}.

Definition set_pin_count (n : Z) (o : TensorMemoryObj) : TensorMemoryObj :=
  {| to_raw_data := to_raw_data o;
     to_meta := {| md_shape := md_shape (to_meta o); md_dtype := md_dtype (to_meta o);
                   md_address := md_address (to_meta o); md_phy_size := md_phy_size (to_meta o);
                   md_ref_count := md_ref_count (to_meta o); md_pin_count := n;
                   md_fmt := md_fmt (to_meta o); md_shapes := md_shapes (to_meta o);
                   md_dtypes := md_dtypes (to_meta o) |};
     to_valid := to_valid o; to_has_parent := to_has_parent o;
     to_used_size_override := to_used_size_override o;
     to_group_prefix_sum := to_group_prefix_sum o |}.

Definition invalidate (o : TensorMemoryObj) : TensorMemoryObj :=
  {| to_raw_data := to_raw_data o; to_meta := to_meta o; to_valid := false;
     to_has_parent := to_has_parent o; to_used_size_override := to_used_size_override o;
     to_group_prefix_sum := to_group_prefix_sum o |}.

Definition address (o : TensorMemoryObj) : Z := md_address (to_meta o).
Definition phy_size (o : TensorMemoryObj) : Z := md_phy_size (to_meta o).
Definition ref_count (o : TensorMemoryObj) : Z := md_ref_count (to_meta o).
Definition pin_count (o : TensorMemoryObj) : Z := md_pin_count (to_meta o).

Definition meta_get_size (m : MemoryObjMetadata) : result Z :=
  match md_shapes m, md_dtypes m with
  | Some shapes, Some dtypes => get_size_bytes shapes dtypes
  | _, _ =>
      match md_dtype m with
      | Some d => Ok (numel (md_shape m) * itemsize d)
      | None => Raise AttributeError
      end
  end.

(** The running totals appended by the loop of [__init__]; [zip(strict=True)]
    raises once one list is exhausted before the other. *)
Fixpoint group_sums (acc : Z) (shapes : list Size) (dtypes : list dtype) : result (list Z) :=
  match shapes, dtypes with
  | [], [] => Ok []
  | s :: shapes, d :: dtypes =>
      let acc := acc + numel s * itemsize d in
      (rest <-? group_sums acc shapes dtypes; Ok (acc :: rest))%py
  | _, _ => Raise ValueError
  end.

Definition tmo_init (raw_data : Z * Z) (metadata : MemoryObjMetadata) (has_parent : bool)
  : result TensorMemoryObj :=
  (guard (match md_dtype metadata with Some _ => true | None => false end) else AssertionError;
   sums <-? match md_shapes metadata, md_dtypes metadata with
            | Some shapes, Some dtypes => group_sums 0 shapes dtypes
            | _, _ => (n <-? meta_get_size metadata; Ok [n])
            end;
   Ok {| to_raw_data := raw_data; to_meta := metadata; to_valid := true;
         to_has_parent := has_parent; to_used_size_override := None;
         to_group_prefix_sum := 0 :: sums |})%py.

(** [group_prefix_sum[-1]]: the list is never empty. *)
Definition get_size (o : TensorMemoryObj) : Z :=
  match to_used_size_override o with
  | Some n => n
  | None => List.last (to_group_prefix_sum o) 0
  end.

Definition set_used_size (o : TensorMemoryObj) (n : Z) : result TensorMemoryObj :=
  if (n <? 0) || (phy_size o <? n) then Raise ValueError
  else Ok {| to_raw_data := to_raw_data o; to_meta := to_meta o; to_valid := to_valid o;
             to_has_parent := to_has_parent o; to_used_size_override := Some n;
             to_group_prefix_sum := to_group_prefix_sum o |}.

Definition is_pinned (o : TensorMemoryObj) : bool := 0 <? pin_count o.
Definition can_evict (o : TensorMemoryObj) : bool := negb (is_pinned o) && (ref_count o =? 1).

Definition get_num_tokens (o : TensorMemoryObj) : result Z :=
  match md_shape (to_meta o) !! token_dim (md_fmt (to_meta o)) with
  | Some n => Ok n
  | None => Raise IndexError
  end.

(** The bytes exposed by [byte_array], as a slice of the pool. *)
Definition byte_array (o : TensorMemoryObj) : Z * Z := (fst (to_raw_data o), get_size o).

(** The bytes viewed by [get_tensor(index)], as a slice of the pool. *)
Definition get_tensor (o : TensorMemoryObj) (index : nat) : result (option (Z * Z)) :=
  if negb (to_valid o) then Ok None
  else
    match md_shapes (to_meta o), md_dtypes (to_meta o) with
    | Some _, Some _ =>
        match to_group_prefix_sum o !! index, to_group_prefix_sum o !! S index with
        | Some begin, Some end_ => Ok (Some (fst (to_raw_data o) + begin, end_ - begin))
        | _, _ => Raise IndexError
        end
    | _, _ => Raise AssertionError
    end.

(** ** The allocator and its surroundings *)

Record TensorMemoryAllocator := mkTensorMemoryAllocator {
  ta_buffer_numel : Z;
  ta_address_manager : AddressManager SL;
  ta_num_active_allocations : Z }.

Record StatsMonitor := mkStatsMonitor {
  sm_local_cache_usage_bytes : Z;
  sm_active_memory_objs_count : Z;
  sm_pinned_memory_objs_count : Z;
  sm_forced_unpin_count : Z }.

Record World := mkWorld {
  w_alloc : TensorMemoryAllocator;
  w_objs : list TensorMemoryObj;
  w_pins : list (nat * Z);              (* PinMonitor._pinned_objects: id, register time *)
  w_stats : StatsMonitor }.

Definition ta_init (buffer_numel align_bytes : Z) (init_address_space : option Z)
  : TensorMemoryAllocator :=
  {| ta_buffer_numel := buffer_numel;
     ta_address_manager :=
       am_init (match init_address_space with None => buffer_numel | Some n => n end) align_bytes;
     ta_num_active_allocations := 0 |}.

Definition with_objs (w : World) (objs : list TensorMemoryObj) : World :=
  {| w_alloc := w_alloc w; w_objs := objs; w_pins := w_pins w; w_stats := w_stats w |}.

Definition with_alloc (w : World) (a : TensorMemoryAllocator) : World :=
  {| w_alloc := a; w_objs := w_objs w; w_pins := w_pins w; w_stats := w_stats w |}.

Definition with_pins (w : World) (pins : list (nat * Z)) : World :=
  {| w_alloc := w_alloc w; w_objs := w_objs w; w_pins := pins; w_stats := w_stats w |}.

Definition with_stats (w : World) (s : StatsMonitor) : World :=
  {| w_alloc := w_alloc w; w_objs := w_objs w; w_pins := w_pins w; w_stats := s |}.

Definition update_obj (w : World) (oid : nat) (f : TensorMemoryObj → TensorMemoryObj) : World :=
  with_objs w (alter f oid (w_objs w)).

(** [update_local_cache_usage] and [update_active_memory_objs_count] *)
Definition update_stats (w : World) : World :=
  with_stats w
    {| sm_local_cache_usage_bytes := am_total_allocated_size (ta_address_manager (w_alloc w));
       sm_active_memory_objs_count := ta_num_active_allocations (w_alloc w);
       sm_pinned_memory_objs_count := sm_pinned_memory_objs_count (w_stats w);
       sm_forced_unpin_count := sm_forced_unpin_count (w_stats w) |}.

Definition update_pinned_memory_objs_count (delta : Z) (w : World) : World :=
  with_stats w
    {| sm_local_cache_usage_bytes := sm_local_cache_usage_bytes (w_stats w);
       sm_active_memory_objs_count := sm_active_memory_objs_count (w_stats w);
       sm_pinned_memory_objs_count := sm_pinned_memory_objs_count (w_stats w) + delta;
       sm_forced_unpin_count := sm_forced_unpin_count (w_stats w) |}.

Definition update_forced_unpin_count (delta : Z) (w : World) : World :=
  with_stats w
    {| sm_local_cache_usage_bytes := sm_local_cache_usage_bytes (w_stats w);
       sm_active_memory_objs_count := sm_active_memory_objs_count (w_stats w);
       sm_pinned_memory_objs_count := sm_pinned_memory_objs_count (w_stats w);
       sm_forced_unpin_count := sm_forced_unpin_count (w_stats w) + delta |}.

(** [self.buffer[start : start + size]] clamps at the end of the buffer. *)
Definition _get_buffer_slice (a : TensorMemoryAllocator) (start size : Z) : Z * Z :=
  let lo := Z.min start (ta_buffer_numel a) in
  (lo, Z.min (start + size) (ta_buffer_numel a) - lo).

Definition new_metadata (shapes : list Size) (dtypes : list dtype) (addr size : Z)
    (fmt : MemoryFormat) : result MemoryObjMetadata :=
  match shapes, dtypes with
  | s :: _, d :: _ =>
      Ok {| md_shape := s; md_dtype := Some d; md_address := addr; md_phy_size := size;
            md_ref_count := 1; md_pin_count := 0; md_fmt := fmt;
            md_shapes := Some shapes; md_dtypes := Some dtypes |}
  | _, _ => Raise IndexError
  end.

(** Returns the identity of the new object, or [None] when no block is free. *)
Definition allocate (w : World) (shapes : Size + list Size) (dtypes : dtype + list dtype)
    (fmt : MemoryFormat) : result (option nat * World) :=
  (sd <-? _adapt_shapes_and_dtypes shapes dtypes;
   raw_size <-? get_size_bytes (fst sd) (snd sd);
   match AddressManager.allocate (ta_address_manager (w_alloc w)) raw_size with
   | Raise RuntimeError => Ok (None, w)
   | Raise e => Raise e
   | Ok ((block_start, aligned_size), am) =>
       let w := with_alloc w {| ta_buffer_numel := ta_buffer_numel (w_alloc w);
                                ta_address_manager := am;
                                ta_num_active_allocations :=
                                  ta_num_active_allocations (w_alloc w) + 1 |} in
       let w := update_stats w in
       let raw_data := _get_buffer_slice (w_alloc w) block_start raw_size in
       meta <-? new_metadata (fst sd) (snd sd) block_start aligned_size fmt;
       o <-? tmo_init raw_data meta true;
       Ok (Some (length (w_objs w)), with_objs w (w_objs w ++ [o]))
   end)%py.

Fixpoint new_objects (shapes : list Size) (dtypes : list dtype) (size : Z) (fmt : MemoryFormat)
    (slices : list ((Z * Z) * Z)) : result (list TensorMemoryObj) :=
  match slices with
  | [] => Ok []
  | (raw_data, addr) :: rest =>
      (meta <-? new_metadata shapes dtypes addr size fmt;
       o <-? tmo_init raw_data meta true;
       os <-? new_objects shapes dtypes size fmt rest;
       Ok (o :: os))%py
  end.

Definition batched_allocate (w : World) (shapes : Size + list Size) (dtypes : dtype + list dtype)
    (batch_size : Z) (fmt : MemoryFormat) : result (option (list nat) * World) :=
  (sd <-? _adapt_shapes_and_dtypes shapes dtypes;
   unit_raw_size <-? get_size_bytes (fst sd) (snd sd);
   let unit_aligned_size := compute_aligned_size (ta_address_manager (w_alloc w)) unit_raw_size in
   match AddressManager.batched_allocate (ta_address_manager (w_alloc w))
           unit_aligned_size batch_size with
   | Raise RuntimeError => Ok (None, w)
   | Raise e => Raise e
   | Ok (alloc_results, am) =>
       let addresses := fst <$> alloc_results in
       let raw_datas :=
         (fun addr => _get_buffer_slice (w_alloc w) addr unit_aligned_size) <$> addresses in
       let w := with_alloc w {| ta_buffer_numel := ta_buffer_numel (w_alloc w);
                                ta_address_manager := am;
                                ta_num_active_allocations :=
                                  ta_num_active_allocations (w_alloc w) + batch_size |} in
       let w := update_stats w in
       os <-? new_objects (fst sd) (snd sd) unit_aligned_size fmt (zip raw_datas addresses);
       Ok (Some (seq (length (w_objs w)) (length os)), with_objs w (w_objs w ++ os))
   end)%py.

(** [free] of the object [oid]; an identity outside the store denotes no
    Python object and has no behaviour to model. *)
Definition free (w : World) (oid : nat) : result World :=
  match w_objs w !! oid with
  | None => Ok w
  | Some o =>
      if negb (to_valid o) then Ok w
      else
        (am <-? AddressManager.free (ta_address_manager (w_alloc w)) (address o) (phy_size o);
         let w := update_obj w oid invalidate in
         let w := with_alloc w {| ta_buffer_numel := ta_buffer_numel (w_alloc w);
                                  ta_address_manager := am;
                                  ta_num_active_allocations :=
                                    ta_num_active_allocations (w_alloc w) - 1 |} in
         Ok (update_stats w))%py
  end.

(** One pass of the coalescing loop of [batched_free]: the store, the blocks
    saved so far and the current run (start, size, count). *)
Record coalesce_state := mkCoalesceState {
  cs_objs : list TensorMemoryObj;
  cs_blocks : list (Z * Z * Z);
  cs_curr : option (Z * Z * Z) }.

Definition coalesce_step (s : coalesce_state) (oid : nat) : coalesce_state :=
  match cs_objs s !! oid with
  | None => s
  | Some o =>
      if negb (to_valid o) then s
      else
        let objs := alter invalidate oid (cs_objs s) in
        match cs_curr s with
        | None => mkCoalesceState objs (cs_blocks s) (Some (address o, phy_size o, 1))
        | Some (st, sz, cnt) =>
            if st + sz =? address o
            then mkCoalesceState objs (cs_blocks s) (Some (st, sz + phy_size o, cnt + 1))
            else mkCoalesceState objs (cs_blocks s ++ [(st, sz, cnt)])
                   (Some (address o, phy_size o, 1))
        end
  end.

Definition coalesced_blocks (s : coalesce_state) : list (Z * Z * Z) :=
  cs_blocks s ++ match cs_curr s with Some b => [b] | None => [] end.

Fixpoint free_blocks (am : AddressManager SL) (bs : list (Z * Z * Z)) (total : Z)
  : result (AddressManager SL * Z) :=
  match bs with
  | [] => Ok (am, total)
  | (addr, size, count) :: bs =>
      (am <-? AddressManager.free am addr size; free_blocks am bs (total + count))%py
  end.

Definition obj_address (w : World) (oid : nat) : Z :=
  match w_objs w !! oid with Some o => address o | None => 0 end.

Definition batched_free (w : World) (memory_objs : list nat) (upd : bool) : result World :=
  match memory_objs with
  | [] => Ok w
  | _ =>
      let memory_objs := sort_by (obj_address w) memory_objs in
      let s := fold_left coalesce_step memory_objs (mkCoalesceState (w_objs w) [] None) in
      (r <-? free_blocks (ta_address_manager (w_alloc w)) (coalesced_blocks s) 0;
       let w := with_objs w (cs_objs s) in
       let w := with_alloc w {| ta_buffer_numel := ta_buffer_numel (w_alloc w);
                                ta_address_manager := fst r;
                                ta_num_active_allocations :=
                                  ta_num_active_allocations (w_alloc w) - snd r |} in
       Ok (if upd then update_stats w else w))%py
  end.

Definition memcheck (a : TensorMemoryAllocator) : bool :=
  let am := ta_address_manager a in
  (get_free_size am + am_total_allocated_size am =? get_heap_size am) && check_consistency am.

(** ** Reference counts and pins *)

Definition ref_count_up (w : World) (oid : nat) : World :=
  update_obj w oid (fun o => set_ref_count (ref_count o + 1) o).

Definition ref_count_down (w : World) (oid : nat) : result World :=
  let w := update_obj w oid
    (fun o => let n := ref_count o - 1 in set_ref_count (if n <? 0 then 0 else n) o) in
  match w_objs w !! oid with
  | None => Ok w
  | Some o =>
      if (ref_count o =? 0) && to_has_parent o && (pin_count o =? 0) then free w oid else Ok w
  end.

Definition on_pin (w : World) (oid : nat) (now : Z) : World :=
  with_pins w (dset (w_pins w) oid now).

Definition on_unpin (w : World) (oid : nat) : World :=
  if dmem (w_pins w) oid then with_pins w (ddel (w_pins w) oid) else w.

Definition pin (w : World) (oid : nat) (now : Z) : World :=
  match w_objs w !! oid with
  | None => w
  | Some o =>
      let w := if pin_count o =? 0 then update_pinned_memory_objs_count 1 w else w in
      let w := update_obj w oid (set_pin_count (pin_count o + 1)) in
      on_pin w oid now
  end.

Definition unpin (w : World) (oid : nat) : result World :=
  match w_objs w !! oid with
  | None => Ok w
  | Some o =>
      let n := pin_count o - 1 in
      let w := update_obj w oid (set_pin_count n) in
      let w := if n =? 0 then on_unpin (update_pinned_memory_objs_count (-1) w) oid else w in
      (w <-? (if (n <=? 0) && (ref_count o <=? 0)
              then (if negb (to_has_parent o) then Ok w else free w oid) else Ok w);
       Ok (if n <? 0 then update_obj w oid (set_pin_count 0) else w))%py
  end.

(** [__del__]: the object is collected. *)
Definition del (w : World) (oid : nat) : result World :=
  match w_objs w !! oid with
  | None => Ok w
  | Some o => if to_has_parent o && to_valid o then free w oid else Ok w
  end.

(** ** PinMonitor *)

(** [while memory_obj.meta.pin_count > 0: memory_obj.unpin()], with fuel. *)
Fixpoint unpin_loop (fuel : nat) (w : World) (oid : nat) : result World :=
  match fuel with
  | O => Ok w
  | S fuel =>
      match w_objs w !! oid with
      | None => Ok w
      | Some o =>
          if 0 <? pin_count o then (w <-? unpin w oid; unpin_loop fuel w oid)%py else Ok w
      end
  end.

(** Every round lowers the pin count by one, so the count is fuel enough. *)
Definition _force_unpin_timeout_object (w : World) (oid : nat) : result World :=
  match w_objs w !! oid with
  | None => Ok w
  | Some o =>
      if pin_count o <=? 0 then Ok w
      else unpin_loop (Z.to_nat (pin_count o)) (update_forced_unpin_count 1 w) oid
  end.

Definition timed_out (w : World) (now timeout : Z) (p : nat * Z) : bool :=
  match w_objs w !! fst p with
  | None => false
  | Some o => (0 <? pin_count o) && (timeout <? now - snd p)
  end.

(** The exceptions of a forced unpin are logged and the object skipped. *)
Fixpoint force_all (w : World) (oids : list nat) (ok : nat) : nat * World :=
  match oids with
  | [] => (ok, w)
  | oid :: rest =>
      match _force_unpin_timeout_object w oid with
      | Ok w => force_all w rest (S ok)
      | Raise _ => force_all w rest ok
      end
  end.

Definition _check_timeouts (w : World) (now timeout : Z) : (nat * nat * nat) * World :=
  let timeout_objects := fst <$> List.filter (timed_out w now timeout) (w_pins w) in
  let '(ok, w') := force_all w timeout_objects 0 in
  ((length (w_pins w), length timeout_objects, ok), w').

End tensor_allocator.

Arguments MemoryObjMetadata dtype : clear implicits.
Arguments TensorMemoryObj dtype : clear implicits.
Arguments TensorMemoryAllocator SL : clear implicits.
Arguments World SL dtype : clear implicits.
Arguments coalesce_state dtype : clear implicits.

Local Arguments alter : simpl never.

(** ** The live ranges of a store *)

Definition range_of {dtype} (o : TensorMemoryObj dtype) : Z * Z := (address o, phy_size o).

Fixpoint live_ranges {dtype} (objs : list (TensorMemoryObj dtype)) : list (Z * Z) :=
  match objs with
  | [] => []
  | o :: objs => (if to_valid o then [range_of o] else []) ++ live_ranges objs
  end.

Lemma live_ranges_app {dtype} (l1 l2 : list (TensorMemoryObj dtype)) :
  live_ranges (l1 ++ l2) = live_ranges l1 ++ live_ranges l2.
Proof. induction l1 as [|o l IH]; simpl; [done|]. by rewrite IH, app_assoc. Qed.

Lemma live_ranges_alter_same {dtype} (f : TensorMemoryObj dtype → TensorMemoryObj dtype) i objs :
  (∀ o, to_valid (f o) = to_valid o ∧ range_of (f o) = range_of o) →
  live_ranges (alter f i objs) = live_ranges objs.
Proof.
  intros Hf. revert i. induction objs as [|o objs IH]; intros i; [done|].
  destruct i; [rewrite alter_cons_0; simpl; destruct (Hf o) as [-> ->]; done|]. rewrite alter_cons_S. simpl. by rewrite IH.
Qed.

Lemma live_ranges_invalidate {dtype} i (objs : list (TensorMemoryObj dtype)) o :
  objs !! i = Some o → to_valid o = true →
  live_ranges objs ≡ₚ range_of o :: live_ranges (alter invalidate i objs).
Proof.
  revert i. induction objs as [|x objs IH]; intros i Hi Hv; [done|].
  destruct i; [injection Hi as ->; rewrite alter_cons_0; simpl; by rewrite Hv|].
  rewrite alter_cons_S. simpl. rewrite (IH _ Hi Hv). by rewrite Permutation_middle.
Qed.

(** What every object of the store satisfies, valid or not. *)
Record obj_ok {dtype} (o : TensorMemoryObj dtype) : Prop := {
  ok_parent : to_has_parent o = true;
  ok_refs : 0 <= ref_count o;
  ok_pins : 0 <= pin_count o;
  ok_size : 0 <= get_size o <= phy_size o;
  ok_raw : (to_raw_data o).1 = address o }.

Section proofs.
Context {SL : Type} {SLO : SortedListOps SL} {SLS : SortedListSpec SL}.
Context {dtype : Type} (itemsize : dtype → Z).
Implicit Types (w : World SL dtype) (o : TensorMemoryObj dtype) (am : AddressManager SL).

(** The state invariant: the live ranges of the store are exactly what the
    address manager has handed out, and the debug counter counts them. *)
Record world_core w : Prop := {
  wo_owned : owned (ta_address_manager (w_alloc w)) (live_ranges (w_objs w));
  wo_active : ta_num_active_allocations (w_alloc w) = Z.of_nat (length (live_ranges (w_objs w)));
  wo_fits : am_size (ta_address_manager (w_alloc w)) <= ta_buffer_numel (w_alloc w) }.

Definition world_ok w : Prop := world_core w ∧ Forall obj_ok (w_objs w).

(** Operations on one object that leave its range and validity alone. *)
Definition keeps_range (f : TensorMemoryObj dtype → TensorMemoryObj dtype) : Prop :=
  ∀ o, to_valid (f o) = to_valid o ∧ range_of (f o) = range_of o.

(** A world with the same allocator whose store differs in such a way. *)
Lemma world_core_alter w w' i f :
  keeps_range f → w_alloc w' = w_alloc w → w_objs w' = alter f i (w_objs w) →
  world_core w → world_core w'.
Proof.
  intros Hf Ha Ho [H1 H2 H3].
  constructor; rewrite ?Ho, ?live_ranges_alter_same, Ha by done; done.
Qed.

Lemma update_obj_ok w i f :
  keeps_range f → (∀ o, w_objs w !! i = Some o → obj_ok o → obj_ok (f o)) →
  world_ok w → world_ok (update_obj w i f).
Proof.
  intros Hf Hok [Hc Ho]. split; [by apply (world_core_alter w _ i f)|]. by apply Forall_alter.
Qed.

Lemma free_core w i :
  world_core w → ∃ w', free w i = Ok w' ∧ world_core w' ∧
    w_objs w' = alter invalidate i (w_objs w) ∧ w_pins w' = w_pins w.
Proof.
  intros [H1 H2 H3]. unfold free. destruct (w_objs w !! i) as [o|] eqn:E.
  2:{ exists w. split_and!; [done|done| |done].
      symmetry. apply list_alter_same. intros x Hx. congruence. }
  destruct (to_valid o) eqn:Hv; simpl.
  - pose proof (live_ranges_invalidate _ _ _ E Hv) as HP.
    destruct (free_owned (ta_address_manager (w_alloc w)) (address o) (phy_size o)
               (live_ranges (alter invalidate i (w_objs w)))) as (am' & -> & Hown & Hs & Ha).
    { by eapply owned_perm. }
    simpl. eexists. split_and!; [done| |done|done]. constructor; simpl; [done| |].
    + rewrite H2, HP. simpl. lia.
    + by rewrite Hs.
  - exists w. split_and!; [done|done| |done].
    symmetry. apply list_alter_same. intros x Hx. rewrite E in Hx. injection Hx as <-.
    destruct o; simpl in *. by subst.
Qed.

Lemma free_ok w i :
  world_ok w → ∃ w', free w i = Ok w' ∧ world_ok w' ∧
    w_objs w' = alter invalidate i (w_objs w) ∧ w_pins w' = w_pins w.
Proof.
  intros [Hc Ho]. destruct (free_core w i Hc) as (w' & ? & ? & E & ?).
  exists w'. split_and!; [done| |done|done]. split; [done|]. rewrite E.
  apply Forall_alter; [done|]. by intros x _ [].
Qed.

Lemma set_ref_count_keeps n : keeps_range (set_ref_count n).
Proof. done. Qed.
Lemma set_pin_count_keeps n : keeps_range (set_pin_count n).
Proof. done. Qed.

Lemma ref_count_up_ok w i : world_ok w → world_ok (ref_count_up w i).
Proof.
  apply update_obj_ok; [done|]. intros o _ [H1 H2 H3 H4 H5]. constructor; try done.
  unfold ref_count in *; simpl. lia.
Qed.

(** The store after [ref_count_down]. *)
Definition dec_ref o : TensorMemoryObj dtype := set_ref_count (Z.max 0 (ref_count o - 1)) o.
Definition unreferenced o : bool := (ref_count o <=? 0) && (pin_count o <=? 0).
Definition release (f : TensorMemoryObj dtype → TensorMemoryObj dtype) o : TensorMemoryObj dtype :=
  if unreferenced (f o) then invalidate (f o) else f o.

Lemma ref_count_down_spec w i :
  world_ok w → ∃ w', ref_count_down w i = Ok w' ∧ world_ok w' ∧
    w_objs w' = alter (release dec_ref) i (w_objs w) ∧ w_pins w' = w_pins w.
Proof.
  intros Hw. unfold ref_count_down. set (w1 := update_obj _ _ _).
  assert (w_objs w1 = alter dec_ref i (w_objs w)) as E1.
  { simpl. apply list_alter_ext; [|done]. intros o _. unfold dec_ref. f_equal.
    destruct (Z.ltb_spec (ref_count o - 1) 0); lia. }
  assert (world_ok w1) as H1.
  { apply update_obj_ok; [done| |done]. intros o _ [? ? ? ? ?]. constructor; try done.
    unfold ref_count in *; simpl. destruct (Z.ltb_spec (md_ref_count (to_meta o) - 1) 0); lia. }
  destruct (w_objs w1 !! i) as [o|] eqn:E.
  2:{ exists w1. split_and!; [done|done| |done]. rewrite E1. apply list_alter_ext; [|done].
      intros x Hx. rewrite E1, list_lookup_alter_eq, Hx in E. done. }
  pose proof E as E'. rewrite E1, list_lookup_alter_eq, fmap_Some in E' .
  destruct E' as (x & Ex & Hox).
  assert (obj_ok o) as [Hpar Hr Hp _ _].
  { destruct H1 as [_ H1]. rewrite Forall_lookup in H1. eauto. }
  rewrite Hpar, andb_true_r.
  assert ((ref_count o =? 0) && (pin_count o =? 0) = unreferenced o) as ->.
  { unfold unreferenced. apply eq_true_iff_eq. rewrite !andb_true_iff, !Z.eqb_eq, !Z.leb_le. lia. }
  destruct (unreferenced o) eqn:Hu.
  - destruct (free_ok w1 i H1) as (w' & Hf & Hw' & Ho & Hpn). exists w'.
    split_and!; [done|done| |done]. rewrite Ho, E1, <- list_alter_compose'.
    apply list_alter_ext; [|done]. intros y Hy. rewrite Ex in Hy. injection Hy as <-.
    unfold release, compose. rewrite <- Hox. by rewrite Hu.
  - exists w1. split_and!; [done|done| |done]. rewrite E1. apply list_alter_ext; [|done].
    intros y Hy. rewrite Ex in Hy. injection Hy as <-. unfold release. rewrite <- Hox. by rewrite Hu.
Qed.

Lemma world_ok_ext w w' :
  w_alloc w' = w_alloc w → w_objs w' = w_objs w → world_ok w → world_ok w'.
Proof. intros Ha Ho [[H1 H2 H3] H4]. by split; [constructor|]; rewrite ?Ha, ?Ho. Qed.

Lemma pin_spec w i now :
  world_ok w → world_ok (pin w i now) ∧
    w_objs (pin w i now) = alter (λ o, set_pin_count (pin_count o + 1) o) i (w_objs w).
Proof.
  intros Hw. unfold pin. destruct (w_objs w !! i) as [o|] eqn:E.
  2:{ split; [done|]. symmetry. apply list_alter_same. congruence. }
  set (w1 := if _ : bool then _ else _).
  assert (w_alloc w1 = w_alloc w ∧ w_objs w1 = w_objs w) as [Ea Eo]
    by (unfold w1; by destruct (_ =? _)).
  assert (alter (set_pin_count (pin_count o + 1)) i (w_objs w1)
          = alter (λ o, set_pin_count (pin_count o + 1) o) i (w_objs w)) as E2.
  { rewrite Eo. apply list_alter_ext; [|done]. intros x Hx. congruence. }
  split; [|done].
  apply (world_ok_ext (update_obj w i (λ o, set_pin_count (pin_count o + 1) o))); [done..|].
  apply update_obj_ok; [done| |done]. intros x _ [? ? ? ? ?].
  constructor; try done. unfold pin_count in *; simpl. lia.
Qed.

(** The store after [unpin]. *)
Definition dec_pin o : TensorMemoryObj dtype := set_pin_count (Z.max 0 (pin_count o - 1)) o.

Lemma unpin_spec w i :
  world_ok w → ∃ w', unpin w i = Ok w' ∧ world_ok w' ∧
    w_objs w' = alter (release dec_pin) i (w_objs w).
Proof.
  intros Hw. unfold unpin. destruct (w_objs w !! i) as [o|] eqn:E.
  2:{ exists w. split_and!; [done|done|]. symmetry. apply list_alter_same. congruence. }
  assert (obj_ok o) as Hok.
  { destruct Hw as [_ H]. rewrite Forall_lookup in H. eauto. }
  pose proof Hok as [Hpar Hr Hpc Hsz Hraw]. destruct Hw as [Hc Hos].
  set (n := pin_count o - 1). rewrite Hpar. simpl.
  set (w1 := if n =? 0 then _ else _).
  assert (w_alloc w1 = w_alloc w ∧ w_objs w1 = alter (set_pin_count n) i (w_objs w)) as [Ea Eo].
  { unfold w1, on_unpin. destruct (n =? 0); [|done]. by destruct (dmem _ _). }
  assert (world_core w1) as Hc1 by (by apply (world_core_alter w _ i (set_pin_count n))).
  assert (obj_ok (release dec_pin o)) as Hok'.
  { unfold release. destruct (unreferenced _); constructor; try done;
      unfold pin_count, dec_pin in *; simpl; lia. }
  assert (unreferenced (dec_pin o) = (n <=? 0) && (ref_count o <=? 0)) as Hu.
  { unfold unreferenced, dec_pin, pin_count, ref_count. simpl. fold (pin_count o). fold n.
    apply eq_true_iff_eq. rewrite !andb_true_iff, !Z.leb_le. lia. }
  (* freed or not, then clamped or not *)
  assert (∃ w2, (if (n <=? 0) && (ref_count o <=? 0) then free w1 i else Ok w1) = Ok w2 ∧
            world_core w2 ∧ w_objs w2 = alter (if (n <=? 0) && (ref_count o <=? 0)
                then invalidate ∘ set_pin_count n else set_pin_count n) i (w_objs w))
    as (w2 & -> & Hc2 & Eo2).
  { destruct (_ && _); [|by exists w1].
    destruct (free_core w1 i Hc1) as (w2 & ? & ? & Ho & _). exists w2. split_and!; [done..|].
    by rewrite Ho, Eo, <- list_alter_compose'. }
  simpl. set (w3 := if n <? 0 then _ else _). exists w3.
  assert (w_objs w3 = alter (release dec_pin) i (w_objs w)) as Eo3.
  { unfold w3. destruct (Z.ltb_spec n 0); simpl; rewrite Eo2, <- ?list_alter_compose';
      apply list_alter_ext; try done; intros x Hx; rewrite E in Hx; injection Hx as <-;
      unfold release; rewrite Hu; unfold dec_pin; fold n;
      destruct (_ && _); unfold compose; simpl; rewrite ?Z.max_l, ?Z.max_r by lia; done. }
  split_and!; [done| |done]. split.
  - unfold w3. destruct (n <? 0); [|done]. by apply (world_core_alter w2 _ i (set_pin_count 0)).
  - rewrite Eo3. apply Forall_alter; [done|]. intros x Hx _. congruence.
Qed.

(** ** Allocation *)

Definition request_size (shapes : Size + list Size) (dtypes : dtype + list dtype) : result Z :=
  (sd <-? _adapt_shapes_and_dtypes shapes dtypes; get_size_bytes itemsize (fst sd) (snd sd))%py.

Lemma group_sums_last acc shapes dtypes :
  length shapes = length dtypes →
  ∃ sums, group_sums itemsize acc shapes dtypes = Ok sums ∧
    List.last (acc :: sums) 0 = acc + sum_group_sizes itemsize shapes dtypes.
Proof.
  revert acc dtypes. induction shapes as [|s shapes IH]; intros acc [|d dtypes]; try done; intros Hl.
  - exists []. split; [done|]. simpl. lia.
  - destruct (IH (acc + numel s * itemsize d) dtypes) as (sums & Hs & Hlast); [by injection Hl|].
    cbn [group_sums]. rewrite Hs. eexists. split; [done|].
    cbn [sum_group_sizes]. change (List.last (acc :: ?x :: sums) 0) with (List.last (x :: sums) 0).
    rewrite Hlast. lia.
Qed.

(** What a freshly built object looks like. *)
Record fresh_obj (raw_data : Z * Z) (r : Z * Z) (size : Z) o : Prop := {
  fo_ok : obj_ok o;
  fo_range : range_of o = r;
  fo_valid : to_valid o = true;
  fo_raw : to_raw_data o = raw_data;
  fo_size : get_size o = size;
  fo_refs : ref_count o = 1;
  fo_pins : pin_count o = 0 }.

Lemma new_object shapes dtypes addr size raw_data fmt :
  length shapes = length dtypes → 0 < sum_group_sizes itemsize shapes dtypes <= size →
  raw_data.1 = addr →
  ∃ meta o, new_metadata shapes dtypes addr size fmt = Ok meta ∧
    tmo_init itemsize raw_data meta true = Ok o ∧
    fresh_obj raw_data (addr, size) (sum_group_sizes itemsize shapes dtypes) o.
Proof.
  intros Hl Hs Hraw. destruct shapes as [|s shapes], dtypes as [|d dtypes]; try done.
  { simpl in Hs. lia. }
  destruct (group_sums_last 0 (s :: shapes) (d :: dtypes) Hl) as (sums & Hsums & Hlast).
  eexists _, _. split_and!; [done| |].
  - unfold tmo_init. cbn -[group_sums]. rewrite Hsums. done.
  - constructor; try done. constructor; try done. unfold get_size, phy_size.
    cbn [to_used_size_override to_group_prefix_sum to_meta md_phy_size]. rewrite Hlast. lia.
Qed.

Lemma slice_start a start size : start <= ta_buffer_numel (SL := SL) a →
  (_get_buffer_slice a start size).1 = start.
Proof. intros. simpl. lia. Qed.

Lemma owned_head_bound am r allocs : owned am (r :: allocs) → r.1 + r.2 <= am_size am ∧ 0 < r.2.
Proof. intros [_ [_ _ [(?&?&?&?) _]%Forall_cons _ _ _ _]]. done. Qed.

Lemma request_size_inv shapes dtypes n :
  request_size shapes dtypes = Ok n →
  ∃ sh dt, _adapt_shapes_and_dtypes shapes dtypes = Ok (sh, dt) ∧ length sh = length dt ∧
    get_size_bytes itemsize sh dt = Ok n ∧ n = sum_group_sizes itemsize sh dt.
Proof.
  unfold request_size. destruct (_adapt_shapes_and_dtypes shapes dtypes) as [[sh dt]|] eqn:E; [|done].
  simpl. unfold get_size_bytes. destruct (Nat.eqb_spec (length sh) (length dt)); [|done].
  intros [= <-]. exists sh, dt. by rewrite (proj2 (Nat.eqb_eq _ _)).
Qed.

Lemma allocate_spec w shapes dtypes fmt n :
  world_ok w → request_size shapes dtypes = Ok n → 0 < n →
  let am := ta_address_manager (w_alloc w) in
  if fits (compute_aligned_size am n) (sl_list (am_explicit_list am)) then
    ∃ o w', allocate itemsize w shapes dtypes fmt = Ok (Some (length (w_objs w)), w') ∧
      world_ok w' ∧ w_objs w' = w_objs w ++ [o] ∧
      fresh_obj (address o, n) (address o, compute_aligned_size am n) n o
  else allocate itemsize w shapes dtypes fmt = Ok (None, w).
Proof.
  intros [[H1 H2 H3] H4] Hreq Hn am.
  apply request_size_inv in Hreq as (sh & dt & Had & Hl & Hgs & Hsum).
  pose proof (allocate_owned am _ n H1 Hn) as Hal. cbv zeta in Hal.
  unfold allocate. rewrite Had. cbn [rbind fst snd]. rewrite Hgs. cbn [rbind]. fold am.
  destruct (fits _ _); [|by rewrite Hal].
  destruct Hal as (a & am' & -> & Hown & Hs & Ha).
  destruct (owned_head_bound _ _ _ Hown) as [Hb Hpos]. simpl in Hb, Hpos. rewrite Hs in Hb.
  destruct (compute_aligned_size_bounds am n) as [_ Hbd]; [by destruct H1|].
  fold am in H3.
  destruct (new_object sh dt a (compute_aligned_size am n) (a, n) fmt)
    as (meta & o & Hm & Hi & Hf); [done|lia|done|].
  rewrite Hm. cbn [rbind].
  replace (_get_buffer_slice _ a n) with (a, n)
    by (unfold _get_buffer_slice; simpl; f_equal; lia).
  rewrite Hi. cbn [rbind]. exists o. eexists.
  assert (address o = a) as -> by (destruct Hf as [_ Hr _ _ _ _ _]; by injection Hr).
  split_and!; [done| |done|by rewrite <- Hsum in Hf].
  split.
  - assert (live_ranges [o] = [(a, compute_aligned_size am n)]) as El.
    { simpl. by destruct Hf as [_ -> -> _ _ _ _]. }
    constructor; cbn -[live_ranges]; rewrite ?live_ranges_app, ?El.
    + eapply owned_perm; [|done]. by rewrite Permutation_app_comm.
    + rewrite length_app. simpl. lia.
    + by rewrite Hs.
  - simpl. apply Forall_app. split; [done|]. apply Forall_singleton. by destruct Hf.
Qed.

Lemma new_objects_ok shapes dtypes size fmt (slices : list ((Z * Z) * Z)) :
  length shapes = length dtypes → 0 < sum_group_sizes itemsize shapes dtypes <= size →
  Forall (λ s, s.1 = (s.2, size)) slices →
  ∃ os, new_objects itemsize shapes dtypes size fmt slices = Ok os ∧ length os = length slices ∧
    Forall2 (λ s o, fresh_obj (s.2, size) (s.2, size) (sum_group_sizes itemsize shapes dtypes) o)
      slices os.
Proof.
  intros Hl Hs. induction 1 as [|[raw addr] slices Hx Hxs (os & Hos & Hlen & HF)].
  - exists []. done.
  - simpl in Hx. subst raw. cbn [new_objects].
    destruct (new_object shapes dtypes addr size (addr, size) fmt) as (meta & o & -> & Hi & Hf); [done..|].
    cbn [rbind]. rewrite Hi. cbn [rbind]. rewrite Hos. cbn [rbind].
    exists (o :: os). split_and!; [done|simpl; by rewrite Hlen|by constructor].
Qed.

Lemma owned_app_bound am rs allocs :
  owned am (rs ++ allocs) → Forall (λ r, 0 <= r.1 ∧ 0 < r.2 ∧ r.1 + r.2 <= am_size am) rs.
Proof.
  intros [_ [_ _ [Hf _]%Forall_app _ _ _ _]]. eapply Forall_impl; [done|]. by intros r (?&?&?&?).
Qed.

Lemma live_ranges_fresh (f : (Z * Z) * Z → Z * Z) g (n : Z) slices os :
  Forall2 (λ s o, fresh_obj (g s) (f s) n o) slices os → live_ranges os = f <$> slices.
Proof.
  induction 1 as [|s o slices os Hf _ IH]; [done|]. cbn [live_ranges].
  destruct Hf as [_ -> -> _ _ _ _]. rewrite IH. done.
Qed.

Lemma batched_allocate_spec w shapes dtypes fmt n k :
  world_ok w → request_size shapes dtypes = Ok n → 0 < n → 0 <= k →
  let am := ta_address_manager (w_alloc w) in
  let al := compute_aligned_size am n in
  if k <=? capacity al (sl_list (am_explicit_list am)) then
    ∃ os w', batched_allocate itemsize w shapes dtypes k fmt
             = Ok (Some (seq (length (w_objs w)) (length os)), w') ∧
      world_ok w' ∧ w_objs w' = w_objs w ++ os ∧ Z.of_nat (length os) = k ∧
      Forall (λ o, fresh_obj (address o, al) (address o, al) n o) os
  else batched_allocate itemsize w shapes dtypes k fmt = Ok (None, w).
Proof.
  intros [[H1 H2 H3] H4] Hreq Hn Hk am al.
  apply request_size_inv in Hreq as (sh & dt & Had & Hl & Hgs & Hsum).
  assert (pow2 (am_align am)) as Hp by (by destruct H1).
  destruct (compute_aligned_size_bounds am n Hp) as [Hdiv Hbd]. fold al in Hdiv, Hbd.
  pose proof (batched_allocate_owned am _ al k H1 ltac:(lia) Hk) as Hal. cbv zeta in Hal.
  rewrite (compute_aligned_size_id am al Hp Hdiv) in Hal.
  unfold batched_allocate. rewrite Had. cbn [rbind fst snd]. rewrite Hgs. cbn [rbind]. fold am al.
  destruct (k <=? _); [|by rewrite Hal].
  destruct Hal as (rs & am' & -> & Hlen & Hal & Hown & Hs & Ha).
  pose proof (owned_app_bound _ _ _ Hown) as Hbs. rewrite Hs in Hbs. fold am in H3.
  set (raws := (λ addr, _get_buffer_slice _ addr al) <$> _).
  assert (zip raws (fst <$> rs) = (λ r, (r, r.1)) <$> rs) as ->.
  { unfold raws. clear -Hbs Hal H3. induction rs as [|r rs IH]; [done|].
    apply Forall_cons in Hbs as [Hr Hbs], Hal as [Hral Hal]. rewrite !fmap_cons. cbn [zip zip_with].
    f_equal; [|by apply IH]. destruct r as [a m]; simpl in *. subst m.
    unfold _get_buffer_slice. f_equal. f_equal; lia. }
  clear raws.
  destruct (new_objects_ok sh dt al fmt ((λ r, (r, r.1)) <$> rs)) as (os & -> & Hos & HF);
    [done|lia| |].
  { apply Forall_fmap. eapply Forall_impl; [exact Hal|]. intros [a m]; simpl. by intros ->. }
  rewrite length_fmap in Hos. cbn [rbind]. exists os. eexists. split_and!; [done| |done|lia|].
  - assert (live_ranges os = rs) as El.
    { erewrite live_ranges_fresh; [|exact HF]. clear -Hal.
      induction Hal as [|[a m] rs Hr _ IH]; [done|]. rewrite !fmap_cons. simpl in *. subst m. by rewrite IH. }
    split; [constructor|]; cbn -[live_ranges]; rewrite ?live_ranges_app, ?El.
    + eapply owned_perm; [|done]. by rewrite Permutation_app_comm.
    + rewrite length_app. lia.
    + by rewrite Hs.
    + apply Forall_app. split; [done|]. eapply Forall2_Forall_r; [exact HF|].
      apply Forall_true. by intros s o [].
  - eapply Forall2_Forall_r; [exact HF|]. apply Forall_true. intros [r a] o Hf. simpl in *.
    assert (address o = a) as -> by (destruct Hf as [_ Hr _ _ _ _ _]; by injection Hr).
    by rewrite Hsum.
Qed.

(** ** Batched release *)

Definition block_range (b : Z * Z * Z) : Z * Z := b.1.
Definition block_counts (bs : list (Z * Z * Z)) : Z := foldr (λ b acc, b.2 + acc) 0 bs.

Lemma block_counts_app bs1 bs2 : block_counts (bs1 ++ bs2) = block_counts bs1 + block_counts bs2.
Proof. unfold block_counts. induction bs1; simpl; lia. Qed.

(** During the loop every range is either still live or waiting to be freed. *)
Record coalesce_inv am (total : Z) (s : coalesce_state dtype) : Prop := {
  ci_owned : owned am ((block_range <$> coalesced_blocks s) ++ live_ranges (cs_objs s));
  ci_count : block_counts (coalesced_blocks s) + Z.of_nat (length (live_ranges (cs_objs s))) = total }.

Lemma coalesce_step_objs (s : coalesce_state dtype) i :
  cs_objs (coalesce_step s i) = alter invalidate i (cs_objs s).
Proof.
  unfold coalesce_step. destruct (cs_objs s !! i) as [o|] eqn:E.
  2:{ symmetry. apply list_alter_same. congruence. }
  destruct (to_valid o) eqn:Hv; simpl.
  - destruct (cs_curr s) as [[[st sz] cnt]|]; [|done]. by destruct (_ =? _).
  - symmetry. apply list_alter_same. intros x Hx. rewrite E in Hx. injection Hx as <-.
    destruct o; simpl in *. by subst.
Qed.

Lemma coalesce_step_inv am total s i :
  coalesce_inv am total s → coalesce_inv am total (coalesce_step s i).
Proof.
  intros [Hown Hcnt]. unfold coalesce_step. destruct (cs_objs s !! i) as [o|] eqn:E; [|done].
  destruct (to_valid o) eqn:Hv; simpl; [|done].
  pose proof (live_ranges_invalidate _ _ _ E Hv) as HP.
  rewrite HP in Hcnt. simpl in Hcnt.
  assert (owned am (range_of o :: (block_range <$> coalesced_blocks s) ++
            live_ranges (alter invalidate i (cs_objs s)))) as Hown'.
  { eapply owned_perm; [|exact Hown]. rewrite HP. by rewrite Permutation_middle. }
  clear Hown HP. unfold coalesced_blocks in *.
  destruct (cs_curr s) as [[[st sz] cnt]|]; [destruct (Z.eqb_spec (st + sz) (address o)) as [Heq|_]|];
    constructor; unfold coalesced_blocks; cbn [cs_objs cs_blocks cs_curr];
    rewrite ?block_counts_app, ?fmap_app, ?app_nil_r in *; cbn [block_counts foldr snd] in *;
    change (block_range <$> [?b]) with [b.1] in *; cbn [fst app] in *; try lia.
  - eapply owned_perm with
      (allocs := (st, sz + phy_size o) :: (block_range <$> cs_blocks s) ++
                 live_ranges (alter invalidate i (cs_objs s))).
    { rewrite <- app_assoc. by rewrite Permutation_middle. }
    apply owned_merge. eapply owned_perm; [|exact Hown']. rewrite Heq.
    rewrite <- app_assoc. cbn [app]. rewrite <- Permutation_middle. apply Permutation_swap.
  - eapply owned_perm; [|exact Hown']. simpl. rewrite <- !app_assoc. simpl.
    rewrite <- !Permutation_middle. apply Permutation_swap.
  - eapply owned_perm; [|exact Hown']. simpl. rewrite <- !app_assoc. simpl.
    by rewrite <- !Permutation_middle.
Qed.

Lemma free_blocks_owned bs : ∀ am allocs total,
  owned am ((block_range <$> bs) ++ allocs) →
  ∃ am', free_blocks am bs total = Ok (am', total + block_counts bs) ∧ owned am' allocs ∧
    am_size am' = am_size am ∧ am_align am' = am_align am.
Proof.
  induction bs as [|[[a n] c] bs IH]; intros am allocs total Hown.
  - exists am. unfold block_counts; simpl. by rewrite Z.add_0_r.
  - rewrite fmap_cons in Hown. destruct (free_owned _ _ _ _ Hown) as (am1 & Hf & Hown1 & Hs & Ha).
    cbn [free_blocks]. rewrite Hf. cbn [rbind].
    destruct (IH _ _ (total + c) Hown1) as (am2 & -> & ? & ? & ?). exists am2.
    split_and!; [|done|congruence|congruence]. unfold block_counts; simpl. do 2 f_equal. lia.
Qed.

Definition invalidate_all (ids : list nat) (objs : list (TensorMemoryObj dtype)) :=
  foldr (λ i l, alter invalidate i l) objs ids.

Lemma invalidate_all_perm ids ids' objs :
  ids ≡ₚ ids' → invalidate_all ids objs = invalidate_all ids' objs.
Proof.
  intros HP. apply (foldr_permutation (=) _ objs); [|done].
  intros i1 i j j1 l _ _ _. by apply list_alter_comm.
Qed.

Lemma invalidate_all_snoc ids i objs :
  invalidate_all ids (alter invalidate i objs) = invalidate_all (i :: ids) objs.
Proof.
  unfold invalidate_all. simpl. induction ids as [|j ids IH]; simpl; [done|].
  rewrite IH. by apply list_alter_comm.
Qed.

Lemma coalesce_loop am total ids : ∀ s,
  coalesce_inv am total s →
  coalesce_inv am total (fold_left coalesce_step ids s) ∧
  cs_objs (fold_left coalesce_step ids s) = invalidate_all ids (cs_objs s).
Proof.
  induction ids as [|i ids IH]; intros s Hs; simpl; [done|].
  destruct (IH _ (coalesce_step_inv _ _ _ i Hs)) as [? ->]. split; [done|].
  by rewrite coalesce_step_objs, invalidate_all_snoc.
Qed.

Lemma batched_free_spec w ids upd :
  world_ok w → ∃ w', batched_free w ids upd = Ok w' ∧ world_ok w' ∧
    w_objs w' = invalidate_all ids (w_objs w) ∧
    am_size (ta_address_manager (w_alloc w')) = am_size (ta_address_manager (w_alloc w)) ∧
    am_align (ta_address_manager (w_alloc w')) = am_align (ta_address_manager (w_alloc w)).
Proof.
  intros [[H1 H2 H3] H4]. unfold batched_free. destruct ids as [|i ids]; [by exists w|].
  set (sorted := sort_by (obj_address w) (i :: ids)).
  destruct (coalesce_loop (ta_address_manager (w_alloc w)) (ta_num_active_allocations (w_alloc w))
              sorted (mkCoalesceState (w_objs w) [] None)) as [[Hown Hcnt] Ho].
  { constructor; simpl; [done|]. unfold block_counts; simpl. lia. }
  rewrite (invalidate_all_perm sorted (i :: ids)) in Ho by apply sort_by_perm.
  set (s := fold_left coalesce_step sorted _) in *. cbn [cs_objs] in Ho. clearbody s.
  destruct (free_blocks_owned _ _ _ 0 Hown) as (am' & -> & Hown' & Hs & Ha). cbn [rbind].
  rewrite Ho in *.
  eexists. split; [done|].
  assert (Forall obj_ok (invalidate_all (i :: ids) (w_objs w))) as Hf.
  { clear -H4. induction (i :: ids) as [|j l IH]; [done|]. simpl. apply Forall_alter; [done|].
    by intros x _ []. }
  destruct upd; (split_and!; [split; [constructor|]|..]); cbn -[live_ranges invalidate_all];
    rewrite ?Hs, ?Ha; try done; lia.
Qed.

(** Freeing the objects one after another. *)
Fixpoint free_each w (ids : list nat) : result (World SL dtype) :=
  match ids with
  | [] => Ok w
  | i :: ids => (w <-? free w i; free_each w ids)%py
  end.

Lemma free_alloc_size w i w' :
  world_ok w → free w i = Ok w' →
  am_size (ta_address_manager (w_alloc w')) = am_size (ta_address_manager (w_alloc w)) ∧
  am_align (ta_address_manager (w_alloc w')) = am_align (ta_address_manager (w_alloc w)).
Proof.
  intros [[H1 _ _] _]. unfold free. destruct (w_objs w !! i) as [o|] eqn:E; [|by intros [= <-]].
  destruct (to_valid o) eqn:Hv; simpl; [|by intros [= <-]].
  destruct (free_owned (ta_address_manager (w_alloc w)) (address o) (phy_size o)
             (live_ranges (alter invalidate i (w_objs w)))) as (am' & -> & _ & Hs & Ha).
  { eapply owned_perm; [|exact H1]. by apply live_ranges_invalidate. }
  by intros [= <-].
Qed.

Lemma free_each_spec ids : ∀ w,
  world_ok w → ∃ w', free_each w ids = Ok w' ∧ world_ok w' ∧
    w_objs w' = invalidate_all ids (w_objs w) ∧
    am_size (ta_address_manager (w_alloc w')) = am_size (ta_address_manager (w_alloc w)) ∧
    am_align (ta_address_manager (w_alloc w')) = am_align (ta_address_manager (w_alloc w)).
Proof.
  induction ids as [|i ids IH]; intros w Hw; simpl; [by exists w|].
  destruct (free_ok w i Hw) as (w1 & Hf & Hw1 & Ho & _).
  destruct (free_alloc_size _ _ _ Hw Hf) as [Hs Ha]. rewrite Hf. simpl.
  destruct (IH w1 Hw1) as (w2 & -> & Hw2 & Ho2 & Hs2 & Ha2). exists w2.
  split_and!; [done|done| |congruence|congruence]. by rewrite Ho2, Ho, invalidate_all_snoc.
Qed.

(** Two worlds that agree on the memory: store, free list and counters. *)
Record same_memory w w' : Prop := {
  sme_objs : w_objs w = w_objs w';
  sme_free : sl_list (am_explicit_list (ta_address_manager (w_alloc w)))
            = sl_list (am_explicit_list (ta_address_manager (w_alloc w')));
  sme_total : am_total_allocated_size (ta_address_manager (w_alloc w))
             = am_total_allocated_size (ta_address_manager (w_alloc w'));
  sme_active : ta_num_active_allocations (w_alloc w) = ta_num_active_allocations (w_alloc w') }.

Lemma world_ok_same_memory w w' :
  world_ok w → world_ok w' → w_objs w = w_objs w' →
  am_size (ta_address_manager (w_alloc w)) = am_size (ta_address_manager (w_alloc w')) →
  am_align (ta_address_manager (w_alloc w)) = am_align (ta_address_manager (w_alloc w')) →
  same_memory w w'.
Proof.
  intros [[[_ H1] H2 _] _] [[[_ H1'] H2' _] _] Ho Hs Ha. rewrite Ho in H1, H2.
  rewrite Hs, Ha in H1. constructor; [done| | |congruence].
  - by eapply owned_list_unique.
  - destruct H1, H1'. congruence.
Qed.

(** [batched_free], which sorts the objects and merges adjacent ranges
    before releasing them, is equivalent to freeing the objects one by one in
    the order given: it never raises, and leaves the same objects valid, the
    same free list and the same counters, also when the list names an object
    twice or one that was already freed. *)
Theorem batched_free_equiv w ids upd :
  world_ok w → ∃ w1 w2, batched_free w ids upd = Ok w1 ∧ free_each w ids = Ok w2 ∧
    same_memory w1 w2.
Proof.
  intros Hw. destruct (batched_free_spec w ids upd Hw) as (w1 & H1 & Hw1 & Ho1 & Hs1 & Ha1).
  destruct (free_each_spec ids w Hw) as (w2 & H2 & Hw2 & Ho2 & Hs2 & Ha2).
  exists w1, w2. split_and!; [done..|]. apply world_ok_same_memory; congruence.
Qed.

(** ** The pin monitor *)

Definition force_unpin o : TensorMemoryObj dtype :=
  if 0 <? pin_count o then release (set_pin_count 0) o else o.

Lemma release_dec_pin_pinned o : 1 < pin_count o → release dec_pin o = dec_pin o.
Proof.
  intros H. unfold release, unreferenced.
  assert ((pin_count (dec_pin o) <=? 0) = false) as ->.
  { apply Z.leb_gt. unfold dec_pin, pin_count in *. cbn. lia. }
  by rewrite andb_false_r.
Qed.

Lemma unpin_loop_spec n : ∀ w i o,
  world_ok w → w_objs w !! i = Some o → pin_count o = Z.of_nat n →
  ∃ w', unpin_loop n w i = Ok w' ∧ world_ok w' ∧ w_objs w' = alter force_unpin i (w_objs w).
Proof.
  induction n as [|n IH]; intros w i o Hw E Hp; simpl.
  - exists w. split_and!; [done..|]. symmetry. apply list_alter_same. intros x Hx.
    rewrite E in Hx. injection Hx as <-. unfold force_unpin. by rewrite Hp.
  - rewrite E, Hp. simpl. destruct (unpin_spec w i Hw) as (w1 & -> & Hw1 & Ho). simpl.
    assert (w_objs w1 !! i = Some (release dec_pin o)) as E1.
    { by rewrite Ho, list_lookup_alter_eq, E. }
    destruct (IH w1 i (release dec_pin o)) as (w2 & -> & Hw2 & Ho2); [done|done| |].
    { assert (∀ f, pin_count (release f o) = pin_count (f o)) as ->
        by (intros f; unfold release; by destruct (unreferenced _)).
      unfold dec_pin, pin_count in *; simpl. lia. }
    exists w2. split_and!; [done..|]. rewrite Ho2, Ho, <- list_alter_compose'.
    apply list_alter_ext; [|done]. intros x Hx. rewrite E in Hx. injection Hx as <-.
    unfold compose. destruct n as [|n].
    + assert (dec_pin o = set_pin_count 0 o) as Hd.
      { unfold dec_pin. f_equal. lia. }
      unfold release at 1. unfold force_unpin at 1 2. rewrite Hp, Hd. simpl.
      unfold release. by destruct (unreferenced (set_pin_count 0 o)).
    + rewrite release_dec_pin_pinned by lia. unfold force_unpin. rewrite Hp.
      unfold dec_pin, pin_count in *. simpl. rewrite (proj2 (Z.ltb_lt _ _)) by lia. done.
Qed.

Lemma force_unpin_spec w i :
  world_ok w → ∃ w', _force_unpin_timeout_object w i = Ok w' ∧ world_ok w' ∧
    w_objs w' = alter force_unpin i (w_objs w).
Proof.
  intros Hw. unfold _force_unpin_timeout_object. destruct (w_objs w !! i) as [o|] eqn:E.
  2:{ exists w. split_and!; [done..|]. symmetry. apply list_alter_same. congruence. }
  destruct (Z.leb_spec (pin_count o) 0) as [Hle|Hlt].
  - exists w. split_and!; [done..|]. symmetry. apply list_alter_same. intros x Hx.
    rewrite E in Hx. injection Hx as <-. unfold force_unpin. by rewrite (proj2 (Z.ltb_ge _ _)).
  - destruct (unpin_loop_spec (Z.to_nat (pin_count o)) (update_forced_unpin_count 1 w) i o)
      as (w' & ? & ? & ?); [|done|lia|by exists w'].
    by apply (world_ok_ext w).
Qed.

Lemma force_unpin_idemp o : force_unpin (force_unpin o) = force_unpin o.
Proof.
  unfold force_unpin at 2 3. destruct (0 <? pin_count o) eqn:E; [|unfold force_unpin; by rewrite E].
  unfold release. destruct (unreferenced _); done.
Qed.

Lemma force_all_spec ids : ∀ w k,
  world_ok w → ∃ w', force_all w ids k = ((k + length ids)%nat, w') ∧ world_ok w' ∧
    ∀ j, w_objs w' !! j = if decide (j ∈ ids) then force_unpin <$> w_objs w !! j else w_objs w !! j.
Proof.
  induction ids as [|i ids IH]; intros w k Hw; simpl.
  - exists w. split_and!; [by rewrite Nat.add_0_r|done|]. done.
  - destruct (force_unpin_spec w i Hw) as (w1 & -> & Hw1 & Ho).
    destruct (IH w1 (S k) Hw1) as (w2 & -> & Hw2 & Hl). exists w2.
    split_and!; [f_equal; lia|done|]. intros j. rewrite Hl, Ho, list_lookup_alter.
    destruct (decide (i = j)) as [<-|Hne].
    + rewrite (decide_True (P := i ∈ i :: ids)) by left. case_decide; [|done].
      destruct (w_objs w !! i); simpl; [by rewrite force_unpin_idemp|done].
    + destruct (decide (j ∈ ids)), (decide (j ∈ i :: ids)); try done; set_solver.
Qed.

(** A pass of the pin monitor at time [now] never fails on an object, and
    unpins exactly the registered objects that are pinned and whose registration
    is older than the timeout: their pin count becomes zero, and they are freed
    when nothing references them; every other object is left as it was. *)
Theorem check_timeouts_spec w now timeout :
  world_ok w →
  let expired := fst <$> List.filter (timed_out w now timeout) (w_pins w) in
  ∃ w', _check_timeouts w now timeout
        = ((length (w_pins w), length expired, length expired), w') ∧ world_ok w' ∧
    ∀ i o, w_objs w !! i = Some o →
      w_objs w' !! i = Some (if decide (i ∈ expired)
                             then if ref_count o <=? 0 then invalidate (set_pin_count 0 o)
                                  else set_pin_count 0 o
                             else o).
Proof.
  intros Hw expired. unfold _check_timeouts. fold expired.
  destruct (force_all_spec expired w 0 Hw) as (w' & -> & Hw' & Hl). exists w'.
  split_and!; [done..|]. intros i o E. rewrite Hl, E. case_decide as Hin; [|done]. simpl. f_equal.
  unfold expired in Hin. apply list_elem_of_fmap in Hin as ((j & t) & -> & Hf).
  apply list_elem_of_In, filter_In in Hf as [_ Ht]. unfold timed_out in Ht. simpl in Ht, E.
  rewrite E in Ht. apply andb_true_iff in Ht as [Hp _]. unfold force_unpin. rewrite Hp.
  unfold release, unreferenced. simpl. rewrite andb_true_r. done.
Qed.

(** ** Runs of the allocator's clients *)

Inductive op :=
| OpAllocate (shapes : Size + list Size) (dtypes : dtype + list dtype) (fmt : MemoryFormat)
| OpBatchedAllocate (shapes : Size + list Size) (dtypes : dtype + list dtype) (batch_size : Z)
    (fmt : MemoryFormat)
| OpFree (oid : nat)
| OpBatchedFree (oids : list nat) (upd : bool)
| OpRefCountUp (oid : nat)
| OpRefCountDown (oid : nat)
| OpPin (oid : nat) (now : Z)
| OpUnpin (oid : nat)
| OpDel (oid : nat)
| OpSetUsedSize (oid : nat) (n : Z)
| OpCheckTimeouts (now timeout : Z).

Definition exec_op w (c : op) : result (World SL dtype) :=
  match c with
  | OpAllocate sh dt fmt => (r <-? allocate itemsize w sh dt fmt; Ok (snd r))%py
  | OpBatchedAllocate sh dt k fmt => (r <-? batched_allocate itemsize w sh dt k fmt; Ok (snd r))%py
  | OpFree i => free w i
  | OpBatchedFree ids upd => batched_free w ids upd
  | OpRefCountUp i => Ok (ref_count_up w i)
  | OpRefCountDown i => ref_count_down w i
  | OpPin i now => Ok (pin w i now)
  | OpUnpin i => unpin w i
  | OpDel i => del w i
  | OpSetUsedSize i n =>
      match w_objs w !! i with
      | Some o => (o' <-? set_used_size o n; Ok (with_objs w (<[i := o']> (w_objs w))))%py
      | None => Ok w
      end
  | OpCheckTimeouts now timeout => Ok (snd (_check_timeouts w now timeout))
  end.

(** A run of calls by clients that catch exceptions and go on. Keeping [w] after an
    exception is right for a call that raises before it changes anything; the only
    one that raises at all, [set_used_size], does ([tensor_allocator_safe]). *)
Fixpoint exec w (cs : list op) : World SL dtype :=
  match cs with
  | [] => w
  | c :: cs => exec (match exec_op w c with Ok w' => w' | Raise _ => w end) cs
  end.

(** Requests are for a positive number of bytes; nothing else is asked of clients. *)
Definition op_wf (c : op) : Prop :=
  match c with
  | OpAllocate sh dt _ => ∃ n, request_size sh dt = Ok n ∧ 0 < n
  | OpBatchedAllocate sh dt k _ => 0 <= k ∧ ∃ n, request_size sh dt = Ok n ∧ 0 < n
  | _ => True
  end.

(** Objects that are neither referenced nor pinned are not kept. *)
Definition held o : Prop := 0 < ref_count o ∨ 0 < pin_count o.
Definition no_leak w : Prop := Forall (λ o, to_valid o = true → held o) (w_objs w).

Lemma release_no_leak (f : TensorMemoryObj dtype → TensorMemoryObj dtype) o :
  to_valid (release f o) = true → held (release f o).
Proof.
  unfold release. destruct (unreferenced (f o)) eqn:E; [done|]. intros _. unfold held.
  unfold unreferenced in E. apply andb_false_iff in E as [E|E]; apply Z.leb_gt in E; auto.
Qed.

Lemma no_leak_alter w w' i f :
  no_leak w → w_objs w' = alter f i (w_objs w) →
  (∀ o, w_objs w !! i = Some o → (to_valid o = true → held o) → to_valid (f o) = true → held (f o)) →
  no_leak w'.
Proof. intros H E Hf. unfold no_leak. rewrite E. apply Forall_alter; [done|]. exact Hf. Qed.

Lemma invalidate_all_no_leak w w' ids :
  no_leak w → w_objs w' = invalidate_all ids (w_objs w) → no_leak w'.
Proof.
  intros H E. unfold no_leak in *. rewrite E. clear E.
  induction ids as [|i ids IH]; [done|]. simpl. apply Forall_alter; [done|]. done.
Qed.

Definition good w : Prop := world_ok w ∧ no_leak w.

Lemma exec_alloc_good w c :
  good w → op_wf c →
  match c with OpAllocate _ _ _ | OpBatchedAllocate _ _ _ _ => True | _ => False end →
  ∃ w', exec_op w c = Ok w' ∧ good w'.
Proof.
  intros [Hw Hl] Hwf Hc. destruct c as [sh dt fmt|sh dt k fmt| | | | | | | | |]; try done; simpl in *.
  - destruct Hwf as (n & Hreq & Hn). pose proof (allocate_spec w sh dt fmt n Hw Hreq Hn) as H.
    cbv zeta in H. destruct (fits _ _); [|rewrite H; by exists w].
    destruct H as (o & w' & -> & Hw' & Ho & Hf). exists w'. split; [done|split; [done|]].
    unfold no_leak. rewrite Ho. apply Forall_app. split; [done|].
    apply Forall_singleton. intros _. left. destruct Hf. lia.
  - destruct Hwf as (Hk & n & Hreq & Hn).
    pose proof (batched_allocate_spec w sh dt fmt n k Hw Hreq Hn Hk) as H. cbv zeta in H.
    destruct (_ <=? _); [|rewrite H; by exists w].
    destruct H as (os & w' & -> & Hw' & Ho & _ & Hf). exists w'. split; [done|split; [done|]].
    unfold no_leak. rewrite Ho. apply Forall_app. split; [done|].
    eapply Forall_impl; [exact Hf|]. intros o [] _. left. lia.
Qed.

Lemma insert_alter {A} (f : A → A) i (l : list A) x :
  l !! i = Some x → <[i := f x]> l = alter f i l.
Proof.
  intros E. apply list_eq. intros j. rewrite list_lookup_alter.
  destruct (decide (i = j)) as [<-|Hne].
  - rewrite list_lookup_insert_eq by (by eapply lookup_lt_Some). by rewrite E.
  - by rewrite list_lookup_insert_ne.
Qed.

Definition narrow (n : Z) o : TensorMemoryObj dtype :=
  {| to_raw_data := to_raw_data o; to_meta := to_meta o; to_valid := to_valid o;
     to_has_parent := to_has_parent o; to_used_size_override := Some n;
     to_group_prefix_sum := to_group_prefix_sum o |}.

Lemma set_used_size_good w i o n o' :
  good w → w_objs w !! i = Some o → set_used_size o n = Ok o' →
  good (with_objs w (<[i := o']> (w_objs w))).
Proof.
  intros [Hw Hl] E Hs. unfold set_used_size in Hs.
  destruct (_ || _) eqn:Hb; [done|]. apply orb_false_iff in Hb as [H1 H2].
  apply Z.ltb_ge in H1, H2. injection Hs as <-. fold (narrow n o).
  rewrite (insert_alter (narrow n)) by done. split.
  - apply (update_obj_ok w i (narrow n)); [done| |done]. intros x Hx [? ? ? ? ?].
    rewrite E in Hx. injection Hx as <-. by constructor.
  - apply (no_leak_alter w _ i (narrow n)); [done|done|]. intros x Hx Hh Hv. by apply Hh.
Qed.

(** the calls that are refused: narrowing an object to a size it does not have *)
Definition refused w (c : op) : Prop :=
  match c with
  | OpSetUsedSize i n => ∃ o, w_objs w !! i = Some o ∧ ¬ 0 <= n <= phy_size o
  | _ => False
  end.

Lemma set_used_size_spec w i n : good w →
  (∃ w', exec_op w (OpSetUsedSize i n) = Ok w' ∧ good w' ∧ ¬ refused w (OpSetUsedSize i n)) ∨
  (exec_op w (OpSetUsedSize i n) = Raise ValueError ∧ refused w (OpSetUsedSize i n)).
Proof.
  intros Hg. cbn. destruct (w_objs w !! i) as [o|] eqn:E; [|left; exists w; split_and!; [done..|by intros (? & ? & _)]].
  destruct (set_used_size o n) as [o'|e] eqn:Es; cbn; unfold set_used_size in Es.
  - left. eexists. split_and!; [done|by eapply set_used_size_good|]. intros (x & [= <-] & Hn).
    destruct (_ || _) eqn:Hb; [done|]. lia.
  - right. destruct (_ || _) eqn:Hb; [|done]. injection Es as <-. split; [done|]. exists o. split; [done|]. lia.
Qed.

Lemma exec_op_good w c : good w → op_wf c → ¬ refused w c → ∃ w', exec_op w c = Ok w' ∧ good w'.
Proof.
  intros Hg Hwf Hnr. pose proof Hg as [Hw Hl].
  destruct c as [sh dt fmt|sh dt k fmt|i|ids upd|i|i|i now|i|i|i n|now timeout];
    [by apply exec_alloc_good..| | | | | | | | |]; simpl.
  - destruct (free_ok w i Hw) as (w' & ? & ? & Ho & _). exists w'. split; [done|split; [done|]].
    eapply no_leak_alter; [exact Hl|exact Ho|]. done.
  - destruct (batched_free_spec w ids upd Hw) as (w' & ? & ? & Ho & _). exists w'.
    split; [done|split; [done|]]. by eapply invalidate_all_no_leak.
  - eexists. split; [done|split; [by apply ref_count_up_ok|]].
    eapply no_leak_alter; [exact Hl|done|]. intros o Ho Hh Hv. destruct (Hh Hv); [left|by right].
    unfold ref_count in *; simpl in *. lia.
  - destruct (ref_count_down_spec w i Hw) as (w' & ? & ? & Ho & _). exists w'. split; [done|split; [done|]].
    eapply no_leak_alter; [exact Hl|exact Ho|]. intros o _ _. apply release_no_leak.
  - destruct (pin_spec w i now Hw) as [? Ho]. eexists. split; [done|split; [done|]].
    eapply no_leak_alter; [exact Hl|exact Ho|]. intros o Hx _ _. right.
    destruct Hw as [_ Hw]. rewrite Forall_lookup in Hw. destruct (Hw _ _ Hx).
    unfold pin_count in *; simpl in *. lia.
  - destruct (unpin_spec w i Hw) as (w' & ? & ? & Ho). exists w'. split; [done|split; [done|]].
    eapply no_leak_alter; [exact Hl|exact Ho|]. intros o _ _. apply release_no_leak.
  - unfold del. destruct (w_objs w !! i) as [o|]; [|by exists w]. destruct (_ && _); [|by exists w].
    destruct (free_ok w i Hw) as (w' & ? & ? & Ho & _). exists w'. split; [done|split; [done|]].
    eapply no_leak_alter; [exact Hl|exact Ho|]. done.
  - destruct (set_used_size_spec w i n Hg) as [(w' & ? & ? & _)|[_ ?]]; [by exists w'|done].
  - unfold _check_timeouts.
    destruct (force_all_spec (fst <$> List.filter (timed_out w now timeout) (w_pins w)) w 0 Hw)
      as (w' & -> & Hw' & Ho). exists w'. split; [done|split; [done|]].
    unfold no_leak in *. rewrite Forall_lookup in *. intros j o. rewrite Ho.
    case_decide; [|eauto]. destruct (w_objs w !! j) as [x|] eqn:E; [|done]. simpl. intros [= <-].
    unfold force_unpin. destruct (0 <? pin_count x); [apply release_no_leak|eauto].
Qed.

Lemma exec_op_raises w c e : good w → op_wf c → exec_op w c = Raise e ↔ e = ValueError ∧ refused w c.
Proof.
  intros Hg Hwf. split.
  - intros E. assert ((∃ i n, c = OpSetUsedSize i n) ∨ ¬ refused w c) as [(i & n & ->)|Hn] by (destruct c; cbn; eauto).
    2: { destruct (exec_op_good w c Hg Hwf Hn) as (? & ? & _). congruence. }
    destruct (set_used_size_spec w i n Hg) as [(? & ? & _)|[E' Hr]]; [congruence|]. split; [congruence|done].
  - intros [-> Hr]. destruct c as [| | | | | | | | |i n|]; try done.
    by destruct (set_used_size_spec w i n Hg) as [(_ & _ & _ & ?)|[? _]].
Qed.

Lemma exec_good cs : ∀ w, good w → Forall op_wf cs → good (exec w cs).
Proof.
  induction cs as [|c cs IH]; intros w Hg Hwf; simpl; [done|].
  apply Forall_cons in Hwf as [Hc Hcs]. apply IH; [|done].
  destruct (exec_op w c) as [w'|e] eqn:E; [|done].
  destruct (exec_op_good w c Hg Hc) as (w1 & E1 & Hg1); [|congruence].
  intros Hr. pose proof (proj2 (exec_op_raises w c ValueError Hg Hc) (conj eq_refl Hr)). congruence.
Qed.

Definition world_init (buffer_numel align_bytes : Z) (init_address_space : option Z)
  : World SL dtype :=
  {| w_alloc := ta_init buffer_numel align_bytes init_address_space; w_objs := []; w_pins := [];
     w_stats := mkStatsMonitor 0 0 0 0 |}.

Lemma world_init_good buffer align space :
  pow2 align →
  0 < (match space with None => buffer | Some n => n end) <= buffer →
  good (world_init buffer align space).
Proof.
  intros Hp Hs. split; [split; [constructor|]|]; simpl; [by apply am_init_owned; [|lia]|done|lia|done|].
  constructor.
Qed.

Lemma live_range_elem i (objs : list (TensorMemoryObj dtype)) o :
  objs !! i = Some o → to_valid o = true → range_of o ∈ live_ranges objs.
Proof. intros Hi Hv. rewrite (live_ranges_invalidate i objs o) by done. left. Qed.

Lemma live_ranges_disjoint (objs : list (TensorMemoryObj dtype)) : ∀ i j o o',
  StronglySorted disjoint_range (live_ranges objs) → i ≠ j →
  objs !! i = Some o → objs !! j = Some o' → to_valid o = true → to_valid o' = true →
  disjoint_range (range_of o) (range_of o').
Proof.
  intros i j o o' HS Hne Hi Hj Hv Hv'.
  eapply StronglySorted_sym_perm in HS;
    [|apply disjoint_range_sym|apply (live_ranges_invalidate i objs o Hi Hv)].
  apply StronglySorted_cons_iff in HS as [_ HS]. apply HS.
  eapply (live_range_elem j); [|done]. by rewrite list_lookup_alter_ne.
Qed.

(** The state any client of a fresh allocator can bring about. *)
Section runs.
Context (buffer align : Z) (space : option Z).
Context (Halign : pow2 align)
        (Hspace : 0 < (match space with None => buffer | Some n => n end) <= buffer).

(** C2. Whatever sequence of allocations and batched allocations (for a positive
    number of bytes), frees (repeated ones included), batched frees, reference
    counting, pinning, garbage collection, narrowing and pin-monitor passes is run
    on a fresh [TensorMemoryAllocator], in the state reached the only call that can
    raise is the narrowing of an object to a size outside of its memory, which
    raises [ValueError]; the bytes exposed by distinct valid objects never overlap
    and lie inside the pool, [num_active_allocations] is the number of valid
    objects, and [memcheck] succeeds. *)
Theorem tensor_allocator_safe cs :
  Forall op_wf cs → let w := exec (world_init buffer align space) cs in
    (∀ c e, op_wf c → exec_op w c = Raise e ↔ e = ValueError ∧ refused w c) ∧
    (∀ i j o o', i ≠ j → w_objs w !! i = Some o → w_objs w !! j = Some o' →
       to_valid o = true → to_valid o' = true → disjoint_range (byte_array o) (byte_array o')) ∧
    (∀ i o, w_objs w !! i = Some o → to_valid o = true →
       0 <= (byte_array o).1 ∧ (byte_array o).1 + (byte_array o).2 <= ta_buffer_numel (w_alloc w)) ∧
    ta_num_active_allocations (w_alloc w)
      = Z.of_nat (length (List.filter (λ o, to_valid o) (w_objs w))) ∧
    memcheck (w_alloc w) = true.
Proof.
  intros Hwf w. pose proof (exec_good cs _ (world_init_good _ _ _ Halign Hspace) Hwf) as Hg. fold w in Hg.
  clearbody w. pose proof Hg as ([[H1 H2 H3] H4] & _). rewrite Forall_lookup in H4. split_and!.
  - intros c e Hc. by apply exec_op_raises.
  - intros i j o o' Hne Hi Hj Hv Hv'. pose proof (ow_alloc_disj _ _ _ _ _ (owned_blocks _ _ H1)) as HS.
    pose proof (live_ranges_disjoint _ i j o o' HS Hne Hi Hj Hv Hv') as Hd.
    destruct (H4 _ _ Hi), (H4 _ _ Hj). unfold disjoint_range, byte_array, range_of in *.
    simpl in *. lia.
  - intros i o Hi Hv. pose proof (live_range_elem _ _ _ Hi Hv) as Hin.
    destruct H1 as [_ [_ _ Ha _ _ _ _]]. rewrite Forall_forall in Ha.
    destruct (Ha _ Hin) as (?&?&?&?). destruct (H4 _ _ Hi). unfold byte_array, range_of in *.
    simpl in *. lia.
  - rewrite H2. f_equal. clear. induction (w_objs w) as [|o l IH]; simpl; [done|].
    destruct (to_valid o); simpl; by rewrite IH.
  - unfold memcheck. rewrite (owned_consistent _ _ H1), andb_true_r. apply Z.eqb_eq.
    unfold get_free_size, get_heap_size. lia.
Qed.

Definition counting_op (c : op) : Prop :=
  match c with
  | OpRefCountUp _ | OpRefCountDown _ | OpPin _ _ | OpUnpin _ | OpCheckTimeouts _ _ => True
  | _ => False
  end.

Lemma held_unreferenced o : held o ↔ unreferenced o = false.
Proof.
  unfold held, unreferenced. rewrite andb_false_iff, !Z.leb_gt. done.
Qed.

Lemma release_valid (f : TensorMemoryObj dtype → TensorMemoryObj dtype) o :
  to_valid (f o) = true → held (release f o) → to_valid (release f o) = true.
Proof.
  unfold release. destruct (unreferenced (f o)) eqn:E; [|done].
  intros _ Hh. apply held_unreferenced in Hh. change (unreferenced (f o) = false) in Hh. congruence.
Qed.

Lemma counting_alter w w' j f i o o' :
  w_objs w' = alter f j (w_objs w) →
  (∀ x, w_objs w !! j = Some x → to_valid x = true → held (f x) → to_valid (f x) = true) →
  w_objs w !! i = Some o → w_objs w' !! i = Some o' → to_valid o = true → held o' →
  to_valid o' = true.
Proof.
  intros Ho Hf Hi. rewrite Ho, list_lookup_alter. destruct (decide (j = i)) as [->|_].
  - rewrite Hi. simpl. intros [= <-]. auto.
  - rewrite Hi. by intros [= <-].
Qed.

Lemma counting_op_keeps w c w' i o o' :
  world_ok w → counting_op c → exec_op w c = Ok w' →
  w_objs w !! i = Some o → w_objs w' !! i = Some o' → to_valid o = true → held o' →
  to_valid o' = true.
Proof.
  intros Hw Hc. destruct c as [| | | |j|j|j now|j| | |now timeout]; try done; simpl.
  - intros [= <-]. by apply (counting_alter _ _ j (λ o, set_ref_count (ref_count o + 1) o)).
  - destruct (ref_count_down_spec w j Hw) as (w2 & -> & _ & Ho & _). intros [= <-].
    apply (counting_alter _ _ _ _ _ _ _ Ho). intros x _ Hv. by apply release_valid.
  - intros [= <-]. destruct (pin_spec w j now Hw) as [_ Ho].
    by apply (counting_alter _ _ _ _ _ _ _ Ho).
  - destruct (unpin_spec w j Hw) as (w2 & -> & _ & Ho). intros [= <-].
    apply (counting_alter _ _ _ _ _ _ _ Ho). intros x _ Hv. by apply release_valid.
  - unfold _check_timeouts.
    destruct (force_all_spec (fst <$> List.filter (timed_out w now timeout) (w_pins w)) w 0 Hw)
      as (w2 & -> & _ & Ho). simpl. intros [= <-] Hi. rewrite Ho, Hi. case_decide; simpl.
    + intros [= <-]. unfold force_unpin. destruct (0 <? pin_count o); [|done]. intros. by apply release_valid.
    + by intros [= <-].
Qed.

(** Reference counting is exact. After any run, an object is valid only
    while it is referenced or pinned (nothing leaks); and a reference-count,
    pin or monitor step never invalidates an object that is still referenced or
    pinned after it (nothing is freed early). So after such a step an object
    that was valid is valid exactly when it is held. *)
Theorem refcount_exact cs c :
  Forall op_wf cs → counting_op c → let w := exec (world_init buffer align space) cs in
    ∃ w', exec_op w c = Ok w' ∧
    (∀ i o o', w_objs w !! i = Some o → w_objs w' !! i = Some o' → to_valid o = true →
       (to_valid o' = true ↔ 0 < ref_count o' ∨ 0 < pin_count o')).
Proof.
  intros Hwf Hc w. pose proof (exec_good cs _ (world_init_good _ _ _ Halign Hspace) Hwf) as Hg. fold w in Hg.
  destruct (exec_op_good w c Hg) as (w' & E & Hg'); [by destruct c|destruct c; cbn in *; tauto|].
  exists w'. split; [done|]. intros i o o' Hi Hi' Hv. split.
  - intros Hv'. destruct Hg' as [_ Hl]. unfold no_leak in Hl. rewrite Forall_lookup in Hl.
    by apply (Hl _ _ Hi').
  - intros Hh. destruct Hg as [Hw _]. by eapply counting_op_keeps.
Qed.

End runs.
End proofs.

(** ** Witnesses *)

Definition bf16_size (_ : unit) : Z := 2.

Definition demo_ops : list (op (dtype := unit)) :=
  [OpAllocate (inl [2; 3; 100]) (inl tt) KV_2LTD;
   OpBatchedAllocate (inr [[16; 16]]) (inr [tt]) 2 KV_T2D;
   OpPin 1 10; OpSetUsedSize 1 9999; OpRefCountDown 1; OpFree 0; OpFree 0; OpBatchedFree [2; 2; 0]%nat true].

Lemma demo_ops_wf : Forall (op_wf bf16_size) demo_ops.
Proof.
  repeat constructor; try done; try (eexists; split; [vm_compute; reflexivity|lia]).
Defined.

Definition demo_world : World ListSortedList.t unit := world_init 65536 1024 None.

Lemma demo_space : 0 < 65536 <= 65536.
Proof. lia. Defined.

Lemma demo_world_ok : world_ok demo_world.
Proof. exact (proj1 (world_init_good 65536 1024 None pow2_1024 demo_space)). Defined.

Lemma tensor_allocator_safe_witness :
  memcheck (w_alloc (exec bf16_size demo_world demo_ops)) = true ∧
  exec_op bf16_size (exec bf16_size demo_world demo_ops) (OpSetUsedSize 1 9999) = Raise ValueError.
Proof.
  destruct (tensor_allocator_safe bf16_size (SL := ListSortedList.t) 65536 1024 None pow2_1024
              demo_space demo_ops demo_ops_wf) as (Hr & _ & _ & _ & Hm).
  split; [exact Hm|]. apply (Hr (OpSetUsedSize 1 9999) ValueError I). split; [reflexivity|].
  eexists. split; [vm_compute; reflexivity|]. vm_compute. intros [_ H]. by apply H.
Defined.

(** Three live objects, the second of them pinned at time 10. *)
Definition demo_live : World ListSortedList.t unit :=
  exec bf16_size demo_world (take 3 demo_ops).

Lemma demo_live_ok : world_ok demo_live.
Proof.
  apply (exec_good bf16_size (take 3 demo_ops) demo_world).
  - exact (world_init_good 65536 1024 None pow2_1024 demo_space).
  - apply Forall_take. exact demo_ops_wf.
Qed.

Lemma batched_free_equiv_witness :
  ∃ w1 w2, batched_free demo_live [2; 0; 2]%nat true = Ok w1 ∧
    free_each demo_live [2; 0; 2]%nat = Ok w2 ∧ same_memory w1 w2.
Proof. exact (batched_free_equiv demo_live [2; 0; 2]%nat true demo_live_ok). Defined.

Lemma refcount_exact_witness :
  ∃ w', exec_op bf16_size (exec bf16_size demo_world demo_ops) (OpUnpin 1) = Ok w'.
Proof.
  destruct (refcount_exact bf16_size (SL := ListSortedList.t) 65536 1024 None pow2_1024
              demo_space demo_ops (OpUnpin 1) demo_ops_wf I) as (w' & H & _).
  exists w'. exact H.
Defined.

(** At time 100 with a timeout of 5 the pin of the second object has expired. *)
Lemma check_timeouts_witness :
  ∃ w', _check_timeouts demo_live 100 5 = ((1, 1, 1)%nat, w').
Proof.
  destruct (check_timeouts_spec demo_live 100 5 demo_live_ok) as (w' & H & _).
  exists w'. exact H.
Defined.
