(* ===== verification/TTLLock.v ===== *)
(** * TTLLock: counted locks with a time to live

    Models [TTLLock] of src/csrc/lmcache_native/ttl_lock.cpp as seen by the L1
    manager, which calls it under its own lock: the compare-and-swap loops then
    succeed at the first attempt. Every call reads a steady clock; the reading,
    in milliseconds, is an argument. *)

From S2P Require Import Prelude.
Local Open Scope Z_scope.

Record TTLLock := mkTTLLock { tl_counter : Z; tl_expiration_ms : Z; tl_ttl_ms : Z }.

Definition ttl_new (ttl_sec : Z) : TTLLock := mkTTLLock 0 0 (ttl_sec * 1000).

Definition lock (l : TTLLock) (now : Z) : TTLLock :=
  let new_expiration := now + tl_ttl_ms l in
  if tl_expiration_ms l <=? now
  then mkTTLLock 1 new_expiration (tl_ttl_ms l)
  else mkTTLLock (tl_counter l + 1) new_expiration (tl_ttl_ms l).

Definition unlock (l : TTLLock) : TTLLock :=
  if tl_counter l <=? 0 then l
  else mkTTLLock (tl_counter l - 1) (tl_expiration_ms l) (tl_ttl_ms l).

Definition is_locked (l : TTLLock) (now : Z) : bool :=
  (0 <? tl_counter l) && (now <? tl_expiration_ms l).

Definition reset (l : TTLLock) : TTLLock := mkTTLLock 0 0 (tl_ttl_ms l).

(** [for _ in range(n): l.lock()], the readings taken from [now]. *)
Fixpoint lock_n (n : nat) (now : nat → Z) (l : TTLLock) : TTLLock :=
  match n with
  | O => l
  | S n => lock_n n (λ i, now (S i)) (lock l (now 0%nat))
  end.

Fixpoint unlock_n (n : nat) (l : TTLLock) : TTLLock :=
  match n with
  | O => l
  | S n => unlock_n n (unlock l)
  end.

Record ttl_ok (l : TTLLock) : Prop := {
  tk_counter : 0 <= tl_counter l;
  tk_ttl : 0 <= tl_ttl_ms l }.

Lemma ttl_new_ok s : 0 <= s → ttl_ok (ttl_new s).
Proof. constructor; simpl; lia. Qed.

Lemma lock_ok l now : ttl_ok l → ttl_ok (lock l now).
Proof. intros [? ?]. unfold lock. destruct (_ <=? _); constructor; simpl; lia. Qed.

Lemma lock_n_ok n : ∀ now l, ttl_ok l → ttl_ok (lock_n n now l).
Proof. induction n as [|n IH]; intros; simpl; auto using lock_ok. Qed.

Lemma unlock_counter l : 0 <= tl_counter l → tl_counter (unlock l) = Z.max 0 (tl_counter l - 1).
Proof. intros. unfold unlock. destruct (Z.leb_spec (tl_counter l) 0); simpl; lia. Qed.

Lemma unlock_expiration l : tl_expiration_ms (unlock l) = tl_expiration_ms l.
Proof. unfold unlock. by destruct (_ <=? _). Qed.

Lemma unlock_ok l : ttl_ok l → ttl_ok (unlock l).
Proof. intros [? ?]. unfold unlock. destruct (Z.leb_spec (tl_counter l) 0); constructor; simpl; lia. Qed.

Lemma unlock_n_ok n : ∀ l, ttl_ok l → ttl_ok (unlock_n n l).
Proof. induction n; intros; simpl; auto using unlock_ok. Qed.

Lemma unlock_n_counter n : ∀ l,
  0 <= tl_counter l → tl_counter (unlock_n n l) = Z.max 0 (tl_counter l - Z.of_nat n).
Proof.
  induction n as [|n IH]; intros l H; [simpl; lia|]. cbn [unlock_n].
  rewrite IH; rewrite unlock_counter; lia.
Qed.

Lemma unlock_n_expiration n : ∀ l, tl_expiration_ms (unlock_n n l) = tl_expiration_ms l.
Proof. induction n as [|n IH]; intros l; [done|]. cbn [unlock_n]. by rewrite IH, unlock_expiration. Qed.

(** Time only releases a lock. *)
Lemma is_locked_mono l t t' : t <= t' → is_locked l t = false → is_locked l t' = false.
Proof. unfold is_locked. intros. destruct (0 <? tl_counter l); simpl in *; lia. Qed.

(** Unlocking only releases. *)
Lemma unlock_not_locked l t : is_locked l t = false → is_locked (unlock l) t = false.
Proof.
  unfold is_locked, unlock. destruct (Z.leb_spec (tl_counter l) 0); [done|]. simpl.
  rewrite (proj2 (Z.ltb_lt 0 _)) by done. simpl. intros ->. apply andb_false_r.
Qed.

Lemma unlock_n_not_locked n : ∀ l t, is_locked l t = false → is_locked (unlock_n n l) t = false.
Proof. induction n; intros; simpl; auto using unlock_not_locked. Qed.

(** After locking at [now] the lock is held for its time to live. *)
Lemma lock_held l now t : 0 <= tl_counter l → t < now + tl_ttl_ms l → is_locked (lock l now) t = true.
Proof.
  intros Hc Ht. unfold is_locked, lock. destruct (Z.leb_spec (tl_expiration_ms l) now); simpl.
  - lia.
  - apply andb_true_iff. rewrite !Z.ltb_lt. lia.
Qed.

Lemma lock_ttl l now : tl_ttl_ms (lock l now) = tl_ttl_ms l.
Proof. unfold lock. by destruct (_ <=? _). Qed.

Lemma lock_n_held n : ∀ now l t,
  ttl_ok l → t < now n + tl_ttl_ms l → is_locked (lock_n (S n) now l) t = true.
Proof.
  induction n as [|n IH]; intros now l t Hok Ht.
  - simpl. apply lock_held; [by destruct Hok|done].
  - cbn [lock_n]. apply (IH (λ i, now (S i))); [by apply lock_ok|]. by rewrite lock_ttl.
Qed.

(** A free lock taken once is held once. *)
Lemma lock_free_counter l now :
  ttl_ok l → is_locked l now = false → tl_counter (lock l now) = 1.
Proof.
  intros [? ?]. unfold is_locked, lock. destruct (Z.leb_spec (tl_expiration_ms l) now); [done|].
  rewrite (proj2 (Z.ltb_lt now _)) by lia. rewrite andb_true_r. intros Hc%Z.ltb_ge. simpl. lia.
Qed.


Lemma lock_n_ttl n : ∀ now l, tl_ttl_ms (lock_n n now l) = tl_ttl_ms l.
Proof. induction n as [|n IH]; intros; simpl; [done|]. by rewrite IH, lock_ttl. Qed.
