(* ===== verification/L1Manager.v ===== *)
(** * L1Manager: the object lifecycle of the L1 cache

    Models src/lmcache/v1/distributed/l1_manager.py. Every public operation
    runs under the manager's lock, so an operation is a function on the state.
    The clock may advance inside an operation: [clk i] gives the readings taken
    while the [i]-th key is handled. The memory manager is an interface, the
    type class [MemoryManager] with laws [MemoryManagerSpec]; listeners and the
    event bus are the trace of notifications an operation emits. *)

From S2P Require Import Prelude PyDict TTLLock.
Local Open Scope Z_scope.

Inductive L1Error :=
| SUCCESS | KEY_NOT_EXIST | KEY_NOT_READABLE | KEY_NOT_WRITABLE | KEY_IN_WRONG_STATE
| KEY_IS_LOCKED | OUT_OF_MEMORY.

#[export] Instance L1Error_eq_dec : EqDecision L1Error.
Proof. solve_decision. Defined.

Definition strerror (error : L1Error) : string :=
  match error with
  | SUCCESS => "Operation succeeded."
  | KEY_NOT_EXIST => "The specified key does not exist."
  | KEY_NOT_READABLE => "The specified key exists but cannot be read."
  | KEY_NOT_WRITABLE => "The specified key exists but cannot be written."
  | KEY_IN_WRONG_STATE => "The specified key is in the wrong state for the operation."
  | KEY_IS_LOCKED => "The specified key is locked and cannot perform the operation."
  | OUT_OF_MEMORY => "Not enough memory to complete the operation."
  end.

(** ** The memory manager behind the cache (L1ManagerProtocol) *)

Class MemoryManager (M Obj Layout Backend : Type) := {
  mm_allocate : M → Layout → nat → result ((L1Error * list Obj) * M);
  mm_free : M → list Obj → result M;
  mm_get_size : M → Obj → Z;
  mm_get_backend_type : M → Obj → Backend;
  mm_get_memory_usage : M → Z * Z;
  mm_memcheck : M → bool }.

(** What the cache relies on: allocation of [n] objects of a valid layout is
    all or nothing and returns objects that were not live; freeing removes
    exactly the given objects from the live ones. *)
Class MemoryManagerSpec (M Obj Layout Backend : Type) `{MemoryManager M Obj Layout Backend} := {
  mm_ok : M → Prop;
  mm_layout_ok : Layout → Prop;
  mm_live : M → Obj → Prop;
  mm_allocate_spec m l n :
    mm_ok m → mm_layout_ok l →
    (∃ os m', mm_allocate m l n = Ok ((SUCCESS, os), m') ∧ mm_ok m' ∧ length os = n ∧ NoDup os ∧
       (∀ o, o ∈ os → ¬ mm_live m o) ∧ (∀ o, mm_live m' o ↔ o ∈ os ∨ mm_live m o)) ∨
    mm_allocate m l n = Ok ((OUT_OF_MEMORY, []), m);
  mm_free_spec m os :
    mm_ok m → ∃ m', mm_free m os = Ok m' ∧ mm_ok m' ∧ (∀ o, mm_live m' o ↔ mm_live m o ∧ o ∉ os) }.

Inductive WriteMode := ModeNew | ModeUpdate | ModeAll.

Section l1_manager.
Context {K : Type} `{EqDecision K}.
Context {M Obj Layout Backend : Type} {MMO : MemoryManager M Obj Layout Backend}.

Record L1ObjectState := mkL1ObjectState {
  os_memory_obj : Obj;
  os_write_lock : TTLLock;
  os_read_lock : TTLLock;
  os_is_temporary : bool }.

Record L1ObjectMeta := mkL1ObjectMeta { om_size_bytes : Z; om_backend : Backend }.

Record L1Manager := mkL1Manager {
  lm_objects : list (K * L1ObjectState);
  lm_memory_manager : M;
  lm_write_ttl_seconds : Z;
  lm_read_ttl_seconds : Z }.

(** Calls made on every registered listener, and events on the bus. *)
Inductive listener_call :=
| on_l1_keys_reserved_read (keys : list K)
| on_l1_keys_read_finished (keys : list K)
| on_l1_keys_reserved_write (keys : list K)
| on_l1_keys_write_finished (keys : list K)
| on_l1_keys_finish_write_and_reserve_read (keys : list K)
| on_l1_keys_deleted_by_manager (keys : list K)
| on_l1_keys_accessed (keys : list K).

Inductive l1_event :=
| L1_READ_RESERVED (keys : list K)
| L1_READ_FINISHED (keys : list K)
| L1_WRITE_RESERVED (keys : list K)
| L1_WRITE_FINISHED (keys : list K) (meta : list L1ObjectMeta)
| L1_WRITE_FINISHED_AND_READ_RESERVED (keys : list K) (meta : list L1ObjectMeta)
| L1_KEYS_EVICTED (keys : list K) (meta : list L1ObjectMeta)
| L1_KEYS_ACCESSED (keys : list K).

Inductive note :=
| NotifyListeners (calls : list listener_call)   (* these calls on each listener in turn *)
| Publish (e : l1_event).

Definition available_for_read (e : L1ObjectState) (now : nat → Z) : bool :=
  negb (is_locked (os_write_lock e) (now 0%nat)).

Definition available_for_write (e : L1ObjectState) (now : nat → Z) : bool :=
  negb (is_locked (os_write_lock e) (now 0%nat))
  && negb (is_locked (os_read_lock e) (now 1%nat)) && negb (os_is_temporary e).

Definition MAX_READ_LOCK_COUNT : Z := 128.

Definition _validate_read_locks (read_locks : Z) : Z :=
  if read_locks <? 1 then 1
  else if MAX_READ_LOCK_COUNT <? read_locks then MAX_READ_LOCK_COUNT
  else read_locks.

Definition with_read_lock (e : L1ObjectState) (l : TTLLock) : L1ObjectState :=
  mkL1ObjectState (os_memory_obj e) (os_write_lock e) l (os_is_temporary e).

Definition with_write_lock (e : L1ObjectState) (l : TTLLock) : L1ObjectState :=
  mkL1ObjectState (os_memory_obj e) l (os_read_lock e) (os_is_temporary e).

Definition _object_meta (m : M) (o : Obj) : L1ObjectMeta :=
  mkL1ObjectMeta (mm_get_size m o) (mm_get_backend_type m o).

(** ** The loops over the keys

    Each operation scans its keys once. The accumulator holds the object
    dictionary, the result dictionary and the lists the loop appends to. *)

Record scan (R : Type) := mkScan {
  sc_objects : list (K * L1ObjectState);
  sc_ret : list (K * R);
  sc_successful : list K;
  sc_to_free : list (K * Obj);
  sc_to_allocate : list (K * bool) }.
Arguments mkScan {R}.
Arguments sc_objects {R}. Arguments sc_ret {R}. Arguments sc_successful {R}.
Arguments sc_to_free {R}. Arguments sc_to_allocate {R}.

Definition scan_init {R} (objects : list (K * L1ObjectState)) : scan R :=
  mkScan objects [] [] [] [].

(** [ret[key] = r; continue] *)
Definition scan_fail {R} (s : scan R) (key : K) (r : R) : scan R :=
  mkScan (sc_objects s) (dset (sc_ret s) key r) (sc_successful s) (sc_to_free s) (sc_to_allocate s).

(** The entry is stored back, [ret[key] = r; successful_keys.append(key)] *)
Definition scan_update {R} (s : scan R) (key : K) (e : L1ObjectState) (r : R) : scan R :=
  mkScan (dset (sc_objects s) key e) (dset (sc_ret s) key r) (sc_successful s ++ [key])
         (sc_to_free s) (sc_to_allocate s).

(** [del self._objects[key]], the memory object queued for release *)
Definition scan_delete {R} (s : scan R) (key : K) (e : L1ObjectState) (r : R) : scan R :=
  mkScan (ddel (sc_objects s) key) (dset (sc_ret s) key r) (sc_successful s ++ [key])
         (sc_to_free s ++ [(key, os_memory_obj e)]) (sc_to_allocate s).

Definition for_keys {R A} (clk : nat → nat → Z) (body : (nat → Z) → scan R → A → scan R)
    (keys : list A) (s : scan R) : scan R :=
  fold_left (λ s ik, body (clk ik.1) s ik.2) (imap pair keys) s.

Definition reserve_read_key (total : Z) (now : nat → Z) (s : scan (L1Error * option Obj)) (key : K) :=
  match dget (sc_objects s) key with
  | None => scan_fail s key (KEY_NOT_EXIST, None)
  | Some e =>
      if negb (available_for_read e now) then scan_fail s key (KEY_NOT_READABLE, None)
      else
        let e := with_read_lock e (lock_n (Z.to_nat total) (λ i, now (S i)) (os_read_lock e)) in
        scan_update s key e (SUCCESS, Some (os_memory_obj e))
  end.

Definition with_objects (m : L1Manager) (objects : list (K * L1ObjectState)) (mem : M) : L1Manager :=
  mkL1Manager objects mem (lm_write_ttl_seconds m) (lm_read_ttl_seconds m).

Definition reserve_read (m : L1Manager) (clk : nat → nat → Z) (keys : list K) (read_locks : Z)
  : list (K * (L1Error * option Obj)) * list note * L1Manager :=
  let total := _validate_read_locks read_locks in
  let s := for_keys clk (reserve_read_key total) keys (scan_init (lm_objects m)) in
  (sc_ret s,
   [NotifyListeners [on_l1_keys_reserved_read (sc_successful s)];
    Publish (L1_READ_RESERVED (sc_successful s))],
   with_objects m (sc_objects s) (lm_memory_manager m)).

Definition unsafe_read_key (now : nat → Z) (s : scan (L1Error * option Obj)) (key : K) :=
  match dget (sc_objects s) key with
  | None => scan_fail s key (KEY_NOT_EXIST, None)
  | Some e =>
      if negb (is_locked (os_read_lock e) (now 0%nat))
      then scan_fail s key (KEY_NOT_READABLE, None)
      else scan_fail s key (SUCCESS, Some (os_memory_obj e))
  end.

Definition unsafe_read (m : L1Manager) (clk : nat → nat → Z) (keys : list K)
  : list (K * (L1Error * option Obj)) :=
  sc_ret (for_keys clk unsafe_read_key keys (scan_init (lm_objects m))).

Definition finish_read_key (total : Z) (now : nat → Z) (s : scan L1Error) (key : K) :=
  match dget (sc_objects s) key with
  | None => scan_fail s key KEY_NOT_EXIST
  | Some e =>
      if is_locked (os_write_lock e) (now 0%nat) then scan_fail s key KEY_IN_WRONG_STATE
      else if negb (is_locked (os_read_lock e) (now 1%nat)) then scan_fail s key KEY_IN_WRONG_STATE
      else
        let e := with_read_lock e (unlock_n (Z.to_nat total) (os_read_lock e)) in
        if os_is_temporary e && negb (is_locked (os_read_lock e) (now 2%nat))
        then scan_delete s key e SUCCESS
        else scan_update s key e SUCCESS
  end.

Definition finish_read (m : L1Manager) (clk : nat → nat → Z) (keys : list K) (read_locks : Z)
  : result (list (K * L1Error) * list note * L1Manager) :=
  let total := _validate_read_locks read_locks in
  let s := for_keys clk (finish_read_key total) keys (scan_init (lm_objects m)) in
  let freed_meta := _object_meta (lm_memory_manager m) <$> (sc_to_free s).*2 in
  (mem <-? mm_free (lm_memory_manager m) (sc_to_free s).*2;
   Ok (sc_ret s,
       [NotifyListeners [on_l1_keys_read_finished (sc_successful s);
                         on_l1_keys_deleted_by_manager (sc_to_free s).*1];
        Publish (L1_READ_FINISHED (sc_successful s));
        Publish (L1_KEYS_EVICTED (sc_to_free s).*1 freed_meta)],
       with_objects m (sc_objects s) mem))%py.

Definition reserve_write_key (mode : WriteMode) (now : nat → Z) (s : scan (L1Error * option Obj))
    (kt : K * bool) :=
  let key := fst kt in
  match dget (sc_objects s) key with
  | None =>
      mkScan (sc_objects s) (sc_ret s) (sc_successful s) (sc_to_free s)
             (sc_to_allocate s ++ [kt])
  | Some e =>
      match mode with
      | ModeNew => scan_fail s key (KEY_NOT_WRITABLE, None)
      | _ =>
          if negb (available_for_write e now) then scan_fail s key (KEY_NOT_WRITABLE, None)
          else
            let e := with_write_lock e (lock (os_write_lock e) (now 2%nat)) in
            scan_update s key e (SUCCESS, Some (os_memory_obj e))
      end
  end.

(** [for key, _ in need_to_allocate: ret[key] = r] *)
Definition fail_all {R} (need : list (K * bool)) (r : R) (ret : list (K * R)) : list (K * R) :=
  fold_left (λ ret kt, dset ret (fst kt) r) need ret.

(** The new entry of an allocated key, write-locked at once. *)
Definition new_entry (m : L1Manager) (o : Obj) (is_temp : bool) (now : Z) : L1ObjectState :=
  mkL1ObjectState o (lock (ttl_new (lm_write_ttl_seconds m)) now)
    (ttl_new (lm_read_ttl_seconds m)) is_temp.

Definition install_key (m : L1Manager) (now : nat → Z) (s : scan (L1Error * option Obj))
    (a : (K * bool) * Obj) :=
  let '((key, is_temp), o) := a in
  scan_update s key (new_entry m o is_temp (now 0%nat)) (SUCCESS, Some o).

(** Allocate for the missing keys and install them; on failure every missing
    key is reported and a partial allocation is given back. *)
Definition allocate_new (m : L1Manager) (clk2 : nat → nat → Z) (layout : Layout)
    (need : list (K * bool)) (s : scan (L1Error * option Obj))
  : result (scan (L1Error * option Obj) * M) :=
  (r <-? mm_allocate (lm_memory_manager m) layout (length need);
   let '((err, objs), mem) := r in
   if decide (err = SUCCESS)
   then Ok (for_keys clk2 (install_key m) (zip need objs) s, mem)
   else
     let s := mkScan (sc_objects s) (fail_all need (OUT_OF_MEMORY, None) (sc_ret s))
                (sc_successful s) (sc_to_free s) (sc_to_allocate s) in
     match objs with
     | [] => Ok (s, mem)
     | _ => (mem <-? mm_free mem objs; Ok (s, mem))
     end)%py.

(** [clk] times the scan, [clk2] the installation of the new entries. *)
Definition reserve_write (m : L1Manager) (clk clk2 : nat → nat → Z) (keys : list K)
    (is_temporary : list bool) (layout : Layout) (mode : WriteMode)
  : result (list (K * (L1Error * option Obj)) * list note * L1Manager) :=
  let s := for_keys clk (reserve_write_key mode) (zip keys is_temporary)
             (scan_init (lm_objects m)) in
  let need := sc_to_allocate s in
  match need, mode with
  | [], _ => Ok (sc_ret s, [], with_objects m (sc_objects s) (lm_memory_manager m))
  | _, ModeUpdate =>
      Ok (fail_all need (KEY_NOT_WRITABLE, None) (sc_ret s), [],
          with_objects m (sc_objects s) (lm_memory_manager m))
  | _, _ =>
      (sm <-? allocate_new m clk2 layout need s;
       let '(s, mem) := sm in
       Ok (sc_ret s,
           [NotifyListeners [on_l1_keys_reserved_write (sc_successful s)];
            Publish (L1_WRITE_RESERVED (sc_successful s))],
           with_objects m (sc_objects s) mem))%py
  end.

Definition finish_write_key (now : nat → Z) (s : scan L1Error) (key : K) :=
  match dget (sc_objects s) key with
  | None => scan_fail s key KEY_NOT_EXIST
  | Some e =>
      if negb (is_locked (os_write_lock e) (now 0%nat)) then scan_fail s key KEY_IN_WRONG_STATE
      else if is_locked (os_read_lock e) (now 1%nat) then scan_fail s key KEY_IN_WRONG_STATE
      else scan_update s key (with_write_lock e (unlock (os_write_lock e))) SUCCESS
  end.

(** [successful_keys_meta]: the entry of a successful key stays in the
    dictionary, so its memory object is found there after the loop. *)
Definition keys_meta (mem : M) (objects : list (K * L1ObjectState)) (keys : list K)
  : list L1ObjectMeta :=
  omap (λ k, (λ e, _object_meta mem (os_memory_obj e)) <$> dget objects k) keys.

Definition finish_write (m : L1Manager) (clk : nat → nat → Z) (keys : list K)
  : list (K * L1Error) * list note * L1Manager :=
  let s := for_keys clk finish_write_key keys (scan_init (lm_objects m)) in
  (sc_ret s,
   [NotifyListeners [on_l1_keys_write_finished (sc_successful s)];
    Publish (L1_WRITE_FINISHED (sc_successful s)
               (keys_meta (lm_memory_manager m) (sc_objects s) (sc_successful s)))],
   with_objects m (sc_objects s) (lm_memory_manager m)).

Definition finish_write_and_reserve_read_key (total : Z) (now : nat → Z)
    (s : scan (L1Error * option Obj)) (key : K) :=
  match dget (sc_objects s) key with
  | None => scan_fail s key (KEY_NOT_EXIST, None)
  | Some e =>
      if negb (is_locked (os_write_lock e) (now 0%nat))
      then scan_fail s key (KEY_IN_WRONG_STATE, None)
      else if is_locked (os_read_lock e) (now 1%nat)
      then scan_fail s key (KEY_IN_WRONG_STATE, None)
      else
        let e := with_write_lock e (unlock (os_write_lock e)) in
        let e := with_read_lock e
                   (lock_n (Z.to_nat total) (λ i, now (S (S i))) (os_read_lock e)) in
        scan_update s key e (SUCCESS, Some (os_memory_obj e))
  end.

Definition finish_write_and_reserve_read (m : L1Manager) (clk : nat → nat → Z) (keys : list K)
    (read_locks : Z) : list (K * (L1Error * option Obj)) * list note * L1Manager :=
  let total := _validate_read_locks read_locks in
  let s := for_keys clk (finish_write_and_reserve_read_key total) keys
             (scan_init (lm_objects m)) in
  (sc_ret s,
   [NotifyListeners [on_l1_keys_finish_write_and_reserve_read (sc_successful s)];
    Publish (L1_WRITE_FINISHED_AND_READ_RESERVED (sc_successful s)
               (keys_meta (lm_memory_manager m) (sc_objects s) (sc_successful s)))],
   with_objects m (sc_objects s) (lm_memory_manager m)).

Definition delete_key (force : bool) (now : nat → Z) (s : scan L1Error) (key : K) :=
  match dget (sc_objects s) key with
  | None => scan_fail s key KEY_NOT_EXIST
  | Some e =>
      let locked := is_locked (os_read_lock e) (now 0%nat)
                    || is_locked (os_write_lock e) (now 1%nat) in
      if locked && negb force then scan_fail s key KEY_IS_LOCKED
      else scan_delete s key e SUCCESS
  end.

Definition delete (m : L1Manager) (clk : nat → nat → Z) (keys : list K) (force : bool)
  : result (list (K * L1Error) * list note * L1Manager) :=
  let s := for_keys clk (delete_key force) keys (scan_init (lm_objects m)) in
  let freed_meta := _object_meta (lm_memory_manager m) <$> (sc_to_free s).*2 in
  (mem <-? mm_free (lm_memory_manager m) (sc_to_free s).*2;
   Ok (sc_ret s,
       [NotifyListeners [on_l1_keys_deleted_by_manager (sc_successful s)];
        Publish (L1_KEYS_EVICTED (sc_successful s) freed_meta)],
       with_objects m (sc_objects s) mem))%py.

(** The event is published only when someone subscribed to it. *)
Definition touch_keys (has_subscribers : bool) (keys : list K) : list note :=
  NotifyListeners [on_l1_keys_accessed keys] ::
  (if has_subscribers then [Publish (L1_KEYS_ACCESSED keys)] else []).

Definition entry_locked (now : nat → Z) (e : L1ObjectState) : bool :=
  is_locked (os_write_lock e) (now 0%nat) || is_locked (os_read_lock e) (now 1%nat).

(** The unlocked entries, in dictionary order. *)
Definition clearable (clk : nat → nat → Z) (objects : list (K * L1ObjectState))
  : list (K * L1ObjectState) :=
  snd <$> List.filter (λ ik, negb (entry_locked (clk ik.1) ik.2.2)) (imap pair objects).

Definition del_all {V} (d : list (K * V)) (keys : list K) : list (K * V) :=
  fold_left ddel keys d.

Definition clear (m : L1Manager) (clk : nat → nat → Z) (force : bool)
  : result (list note * L1Manager) :=
  if force then
    let all_keys := dkeys (lm_objects m) in
    let all_memory_objs := os_memory_obj <$> dvals (lm_objects m) in
    let all_meta := _object_meta (lm_memory_manager m) <$> all_memory_objs in
    (mem <-? mm_free (lm_memory_manager m) all_memory_objs;
     Ok ([NotifyListeners [on_l1_keys_deleted_by_manager all_keys];
          Publish (L1_KEYS_EVICTED all_keys all_meta)],
         with_objects m [] mem))%py
  else
    let c := clearable clk (lm_objects m) in
    let keys_to_clear := c.*1 in
    let objs_to_free := os_memory_obj <$> c.*2 in
    let objects := del_all (lm_objects m) keys_to_clear in
    let cleared_meta := _object_meta (lm_memory_manager m) <$> objs_to_free in
    (mem <-? mm_free (lm_memory_manager m) objs_to_free;
     Ok (match keys_to_clear with
         | [] => []
         | _ => [NotifyListeners [on_l1_keys_deleted_by_manager keys_to_clear];
                 Publish (L1_KEYS_EVICTED keys_to_clear cleared_meta)]
         end,
         with_objects m objects mem))%py.

Definition is_key_evictable (m : L1Manager) (now : nat → Z) (key : K) : bool :=
  match dget (lm_objects m) key with
  | None => false
  | Some e => negb (is_locked (os_read_lock e) (now 0%nat))
              && negb (is_locked (os_write_lock e) (now 1%nat))
  end.

Definition get_memory_usage (m : L1Manager) : Z * Z := mm_get_memory_usage (lm_memory_manager m).

Definition close (m : L1Manager) : result L1Manager :=
  (mem <-? mm_free (lm_memory_manager m) (os_memory_obj <$> dvals (lm_objects m));
   Ok (with_objects m [] mem))%py.

Record l1_status := mkL1Status {
  st_is_healthy : bool;
  st_total_object_count : nat;
  st_write_locked_count : nat;
  st_read_locked_count : nat;
  st_temporary_count : nat;
  st_memory_used_bytes : Z;
  st_memory_total_bytes : Z }.

Definition count_entries (p : nat → L1ObjectState → bool) (objects : list (K * L1ObjectState)) : nat :=
  length (List.filter (λ ik, p ik.1 ik.2.2) (imap pair objects)).

(** The derived quotient and the configuration values are left out. *)
Definition report_status (m : L1Manager) (clk : nat → nat → Z) : l1_status :=
  let '(used, total) := mm_get_memory_usage (lm_memory_manager m) in
  {| st_is_healthy := mm_memcheck (lm_memory_manager m);
     st_total_object_count := length (lm_objects m);
     st_write_locked_count :=
       count_entries (λ i e, is_locked (os_write_lock e) (clk i 0%nat)) (lm_objects m);
     st_read_locked_count :=
       count_entries (λ i e, is_locked (os_read_lock e) (clk i 1%nat)) (lm_objects m);
     st_temporary_count := count_entries (λ _ e, os_is_temporary e) (lm_objects m);
     st_memory_used_bytes := used;
     st_memory_total_bytes := total |}.

Definition get_object_state (m : L1Manager) (key : K) : option L1ObjectState :=
  dget (lm_objects m) key.

Definition memcheck (m : L1Manager) : bool := mm_memcheck (lm_memory_manager m).

End l1_manager.
Arguments L1ObjectState Obj : clear implicits.
Arguments L1Manager K M Obj : clear implicits.
Arguments scan K Obj R : clear implicits.
Arguments mkScan {K Obj R}.
Arguments sc_objects {K Obj R}.
Arguments sc_ret {K Obj R}.
Arguments sc_successful {K Obj R}.
Arguments sc_to_free {K Obj R}.
Arguments sc_to_allocate {K Obj R}.
