(* ===== verification/L1ManagerProofs.v ===== *)
(** * L1ManagerProofs: lock safety and memory accounting of the L1 cache *)

From S2P Require Import Prelude PyDict TTLLock L1Manager.
Local Open Scope Z_scope.

(** ** Clocks

    [clock_from t clk t']: successive readings of a monotone clock, all taken
    between [t] and [t']. *)

Record clock_from (t : Z) (clk : nat → nat → Z) (t' : Z) : Prop := {
  ck_lo : ∀ i j, t <= clk i j;
  ck_hi : ∀ i j, clk i j <= t';
  ck_key : ∀ i j j', (j <= j')%nat → clk i j <= clk i j';
  ck_next : ∀ i j j', clk i j <= clk (S i) j' }.

(** The readings while one key is handled. *)
Record readings (t : Z) (now : nat → Z) (t' : Z) : Prop := {
  rd_lo : ∀ j, t <= now j;
  rd_hi : ∀ j, now j <= t';
  rd_mono : ∀ j j', (j <= j')%nat → now j <= now j' }.

Lemma clock_from_le t clk t' : clock_from t clk t' → t <= t'.
Proof. intros [Hl Hh _ _]. specialize (Hl 0%nat 0%nat). specialize (Hh 0%nat 0%nat). lia. Qed.

Lemma clock_from_shift t clk t' :
  clock_from t clk t' →
  readings t (clk 0%nat) (clk 1%nat 0%nat) ∧ clock_from (clk 1%nat 0%nat) (λ i, clk (S i)) t'.
Proof.
  intros [Hl Hh Hk Hn]. split.
  - constructor; auto.
  - constructor; auto. intros i j. induction i as [|i IH]; [apply Hk; lia|].
    etrans; [apply IH|]. apply Hn.
Qed.

Section proofs.
Context {K : Type} `{EqDecision K}.
Context {M Obj Layout Backend : Type} {MMO : MemoryManager M Obj Layout Backend}.
Implicit Types (e : L1ObjectState Obj) (m : L1Manager K M Obj).

(** ** Loops *)

Lemma for_keys_cons {R A} (clk : nat → nat → Z) (body : (nat → Z) → scan K Obj R → A → scan K Obj R)
    a keys s :
  for_keys clk body (a :: keys) s
  = for_keys (λ i, clk (S i)) body keys (body (clk 0%nat) s a).
Proof.
  unfold for_keys. cbn [imap fold_left fst snd].
  generalize (body (clk 0%nat) s a) as s'. clear s. intros s'.
  change (imap (pair ∘ S) keys) with (imap (λ i, pair (S i)) keys).
  assert (∀ (g h : nat → nat) s', (∀ i, g i = S (h i)) →
    fold_left (λ s ik, body (clk ik.1) s ik.2) (imap (λ i, pair (g i)) keys) s'
    = fold_left (λ s ik, body (clk (S ik.1)) s ik.2) (imap (λ i, pair (h i)) keys) s') as Hgen.
  { induction keys as [|x keys IH]; intros g h s2 Hg; [done|]. cbn [imap fold_left fst snd].
    rewrite Hg. apply (IH (g ∘ S) (h ∘ S)). intros i. apply Hg. }
  by apply (Hgen S id).
Qed.

Lemma for_keys_inv {R A} (P : Z → scan K Obj R → Prop)
    (body : (nat → Z) → scan K Obj R → A → scan K Obj R) keys :
  (∀ t now t' s a, a ∈ keys → readings t now t' → P t s → P t' (body now s a)) →
  (∀ t t' s, t <= t' → P t s → P t' s) →
  ∀ t clk t' s, clock_from t clk t' → P t s → P t' (for_keys clk body keys s).
Proof.
  intros Hbody Hmono. induction keys as [|a keys IH]; intros t clk t' s Hc HP.
  - unfold for_keys; simpl. eapply Hmono; [by eapply clock_from_le|done].
  - rewrite for_keys_cons. destruct (clock_from_shift _ _ _ Hc) as [Hr Hc'].
    eapply IH; [|exact Hc'|].
    + intros. eapply Hbody; [by right|done..].
    + eapply Hbody; [left|exact Hr|exact HP].
Qed.

(** ** The lock invariant *)

Record entry_ok (t : Z) e : Prop := {
  eo_write : ttl_ok (os_write_lock e);
  eo_read : ttl_ok (os_read_lock e);
  eo_single : tl_counter (os_write_lock e) <= 1;
  eo_excl : is_locked (os_write_lock e) t = false ∨ is_locked (os_read_lock e) t = false }.

Lemma entry_ok_mono t t' e : t <= t' → entry_ok t e → entry_ok t' e.
Proof.
  intros Ht [? ? ? Hx]. constructor; try done.
  destruct Hx; [left|right]; by eapply is_locked_mono.
Qed.

Definition entries_ok (t : Z) (objects : list (K * L1ObjectState Obj)) : Prop :=
  ∀ k e, dget objects k = Some e → entry_ok t e.

Lemma entries_ok_mono t t' objects : t <= t' → entries_ok t objects → entries_ok t' objects.
Proof. intros Ht Ho k e Hk. eapply entry_ok_mono; eauto. Qed.

Lemma entries_ok_dset t objects k e :
  entries_ok t objects → entry_ok t e → entries_ok t (dset objects k e).
Proof. intros Ho He k' e'. rewrite dget_dset. case_decide; [by intros [= <-]|apply Ho]. Qed.

Lemma entries_ok_ddel t objects k : entries_ok t objects → entries_ok t (ddel objects k).
Proof. intros Ho k' e'. rewrite dget_ddel. case_decide; [done|apply Ho]. Qed.

(** What one iteration may do to the dictionary: nothing, replace the locks of
    an entry, or remove it and queue its memory object. *)
Inductive key_effect {R} (t' : Z) (s : scan K Obj R) : scan K Obj R → Prop :=
| effect_keep s' :
    sc_objects s' = sc_objects s → sc_to_free s' = sc_to_free s → key_effect t' s s'
| effect_update key e e' r :
    dget (sc_objects s) key = Some e → os_memory_obj e' = os_memory_obj e → entry_ok t' e' →
    key_effect t' s (scan_update s key e' r)
| effect_delete key e e' r :
    dget (sc_objects s) key = Some e → os_memory_obj e' = os_memory_obj e →
    key_effect t' s (scan_delete s key e' r).

(** Each operation's body, from entries in order at [t] to readings up to [t']. *)
Lemma reserve_read_effect total t now t' s key :
  readings t now t' → entries_ok t (sc_objects s) →
  key_effect t' s (reserve_read_key total now s key).
Proof.
  intros Hr Ho. unfold reserve_read_key. destruct (dget _ key) as [e|] eqn:E; [|by constructor].
  unfold available_for_read. destruct (is_locked (os_write_lock e) (now 0%nat)) eqn:Hw; simpl;
    [by constructor|].
  destruct (Ho _ _ E). eapply effect_update; [done|done|]. constructor; simpl; auto using lock_n_ok.
  left. eapply is_locked_mono; [apply (rd_hi _ _ _ Hr 0%nat)|done].
Qed.

Lemma finish_read_effect total t now t' s key :
  readings t now t' → entries_ok t (sc_objects s) →
  key_effect t' s (finish_read_key total now s key).
Proof.
  intros Hr Ho. unfold finish_read_key. destruct (dget _ key) as [e|] eqn:E; [|by constructor].
  destruct (is_locked (os_write_lock e) _) eqn:Hw; [by constructor|].
  destruct (is_locked (os_read_lock e) _); simpl; [|by constructor].
  destruct (_ && _); [by eapply effect_delete|].
  destruct (Ho _ _ E). eapply effect_update; [done|done|]. constructor; simpl; auto using unlock_n_ok.
  left. eapply is_locked_mono; [apply (rd_hi _ _ _ Hr 0%nat)|done].
Qed.

Lemma reserve_write_effect mode t now t' s kt :
  readings t now t' → entries_ok t (sc_objects s) →
  key_effect t' s (reserve_write_key mode now s kt).
Proof.
  intros Hr Ho. unfold reserve_write_key. destruct (dget _ kt.1) as [e|] eqn:E; [|by constructor].
  assert (key_effect t' s
    (if negb (available_for_write e now) then scan_fail s kt.1 (KEY_NOT_WRITABLE, None)
     else scan_update s kt.1 (with_write_lock e (lock (os_write_lock e) (now 2%nat)))
            (SUCCESS, Some (os_memory_obj (with_write_lock e (lock (os_write_lock e) (now 2%nat)))))))
    as Heff.
  { unfold available_for_write. destruct (is_locked (os_write_lock e) _) eqn:Hw; simpl; [by constructor|].
    destruct (is_locked (os_read_lock e) _) eqn:Hrd; simpl; [by constructor|].
    destruct (os_is_temporary e); simpl; [by constructor|].
    destruct (Ho _ _ E) as [Hokw Hokr _ _]. eapply effect_update; [done|done|].
    constructor; simpl; auto using lock_ok.
    - rewrite lock_free_counter; [lia|done|]. eapply is_locked_mono; [|exact Hw].
      apply (rd_mono _ _ _ Hr). lia.
    - right. eapply is_locked_mono; [apply (rd_hi _ _ _ Hr 1%nat)|done]. }
  destruct mode; [by constructor|exact Heff|exact Heff].
Qed.

Lemma unlock_single_free l t : ttl_ok l → tl_counter l <= 1 → is_locked (unlock l) t = false.
Proof.
  intros [? ?] ?. unfold is_locked. rewrite unlock_counter by done.
  by rewrite (proj2 (Z.ltb_ge 0 _)) by lia.
Qed.

Lemma unlock_single_counter l : ttl_ok l → tl_counter l <= 1 → tl_counter (unlock l) <= 1.
Proof. intros [? ?] ?. rewrite unlock_counter by done. lia. Qed.

Lemma finish_write_effect t now t' s key :
  readings t now t' → entries_ok t (sc_objects s) → key_effect t' s (finish_write_key now s key).
Proof.
  intros Hr Ho. unfold finish_write_key. destruct (dget _ key) as [e|] eqn:E; [|by constructor].
  destruct (is_locked (os_write_lock e) _) eqn:Hw; simpl; [|by constructor].
  destruct (is_locked (os_read_lock e) _) eqn:Hrd; [by constructor|].
  destruct (Ho _ _ E). eapply effect_update; [done|done|].
  constructor; simpl; auto using unlock_ok, unlock_single_counter, unlock_single_free.
Qed.

Lemma finish_write_and_reserve_read_effect total t now t' s key :
  readings t now t' → entries_ok t (sc_objects s) →
  key_effect t' s (finish_write_and_reserve_read_key total now s key).
Proof.
  intros Hr Ho. unfold finish_write_and_reserve_read_key.
  destruct (dget _ key) as [e|] eqn:E; [|by constructor].
  destruct (is_locked (os_write_lock e) _) eqn:Hw; simpl; [|by constructor].
  destruct (is_locked (os_read_lock e) _) eqn:Hrd; [by constructor|].
  destruct (Ho _ _ E). eapply effect_update; [done|done|].
  constructor; simpl; auto using unlock_ok, lock_n_ok, unlock_single_counter, unlock_single_free.
Qed.

Lemma delete_effect force now t' s key : key_effect t' s (delete_key force now s key).
Proof.
  unfold delete_key. destruct (dget _ key) as [e|] eqn:E; [|by constructor].
  destruct (_ && _); [by constructor|]. by eapply effect_delete.
Qed.

(** ** The scan invariant: locks in order, and every memory object is either in
    the dictionary or queued for release. *)

Definition mem_objs (objects : list (K * L1ObjectState Obj)) : list Obj :=
  os_memory_obj <$> dvals objects.

Record scan_ok {R} (L : list Obj) (t : Z) (s : scan K Obj R) : Prop := {
  so_wf : dwf (sc_objects s);
  so_entries : entries_ok t (sc_objects s);
  so_mem : mem_objs (sc_objects s) ++ (sc_to_free s).*2 ≡ₚ L }.

Lemma scan_ok_mono {R} L t t' (s : scan K Obj R) : t <= t' → scan_ok L t s → scan_ok L t' s.
Proof. intros ? []. constructor; eauto using entries_ok_mono. Qed.

Lemma key_effect_ok {R} L t t' (s s' : scan K Obj R) :
  t <= t' → scan_ok L t s → key_effect t' s s' → scan_ok L t' s'.
Proof.
  intros Ht [Hwf Hen Hmem] Heff. apply (entries_ok_mono _ _ _ Ht) in Hen.
  destruct Heff as [s' Ho Hf|key e e' r Hg Hm He|key e e' r Hg Hm].
  - constructor; rewrite ?Ho, ?Hf; done.
  - constructor; simpl; [by apply dset_wf|by apply entries_ok_dset|].
    rewrite <- Hmem. unfold mem_objs. rewrite (dvals_dset _ _ _ _ Hwf Hg), (dvals_ddel _ _ _ Hwf Hg).
    rewrite !fmap_cons. by rewrite Hm.
  - constructor; simpl; [by apply ddel_wf|by apply entries_ok_ddel|].
    rewrite <- Hmem. unfold mem_objs. rewrite (dvals_ddel _ _ _ Hwf Hg).
    rewrite fmap_app, fmap_cons. simpl. rewrite Hm, app_assoc, Permutation_app_comm. done.
Qed.

Lemma for_keys_ok {R A} L (body : (nat → Z) → scan K Obj R → A → scan K Obj R) keys t clk t' s :
  (∀ t now t' s a, readings t now t' → entries_ok t (sc_objects s) → key_effect t' s (body now s a)) →
  clock_from t clk t' → scan_ok L t s → scan_ok L t' (for_keys clk body keys s).
Proof.
  intros Hbody Hc Hs.
  apply (for_keys_inv (λ t s, scan_ok L t s) body keys) with (t := t); [| |done|done].
  - intros t1 now t2 s1 a _ Hr H1. eapply key_effect_ok; [|exact H1|].
    + pose proof (rd_lo _ _ _ Hr 0%nat). pose proof (rd_hi _ _ _ Hr 0%nat). lia.
    + apply (Hbody t1); [done|by destruct H1].
  - intros. by eapply scan_ok_mono.
Qed.

(** ** Reserving writes *)

Lemma reserve_write_key_frame mode now (s : scan K Obj (L1Error * option Obj)) kt :
  (∀ k, dget (sc_objects (reserve_write_key mode now s kt)) k = None ↔ dget (sc_objects s) k = None) ∧
  sc_to_free (reserve_write_key mode now s kt) = sc_to_free s ∧
  sc_to_allocate (reserve_write_key mode now s kt)
    = sc_to_allocate s ++ (if decide (dget (sc_objects s) kt.1 = None) then [kt] else []).
Proof.
  unfold reserve_write_key. destruct (dget (sc_objects s) kt.1) as [e|] eqn:E.
  - rewrite decide_False by done. rewrite app_nil_r.
    destruct mode; simpl; [done| |]; (destruct (available_for_write e now); simpl; [|done]);
      (split; [|done]); intros k; rewrite dget_dset; case_decide; subst; naive_solver.
  - by rewrite decide_True.
Qed.

Lemma reserve_write_scan mode kts : ∀ clk (s : scan K Obj (L1Error * option Obj)),
  let s' := for_keys clk (reserve_write_key mode) kts s in
  sc_to_allocate s' = sc_to_allocate s ++ filter (λ kt, dget (sc_objects s) kt.1 = None) kts ∧
  (∀ k, dget (sc_objects s') k = None ↔ dget (sc_objects s) k = None) ∧
  sc_to_free s' = sc_to_free s.
Proof.
  induction kts as [|kt kts IH]; intros clk s; cbv zeta.
  - unfold for_keys; simpl. by rewrite app_nil_r.
  - rewrite for_keys_cons.
    destruct (reserve_write_key_frame mode (clk 0%nat) s kt) as (F1 & F2 & F3).
    destruct (IH (λ i, clk (S i)) (reserve_write_key mode (clk 0%nat) s kt)) as (H1 & H2 & H3).
    rewrite H1, H3, F2, F3. split_and!; [|intros k; by rewrite H2|done].
    rewrite <- app_assoc. f_equal.
    assert (filter (λ kt', dget (sc_objects (reserve_write_key mode (clk 0%nat) s kt)) kt'.1 = None) kts
            = filter (λ kt', dget (sc_objects s) kt'.1 = None) kts) as ->.
    { apply list_filter_iff. intros x. apply F1. }
    rewrite filter_cons. by case_decide.
Qed.

(** New entries are installed write-locked and not read-locked. *)
Lemma new_entry_ok m o is_temp now t :
  0 <= lm_write_ttl_seconds m → 0 <= lm_read_ttl_seconds m → entry_ok t (new_entry m o is_temp now).
Proof.
  intros Hw Hr. constructor; simpl; [apply lock_ok, ttl_new_ok; lia|by apply ttl_new_ok| |by right].
  unfold lock; simpl. destruct (0 <=? now); simpl; lia.
Qed.

Lemma install_locks m zs t clk t' (s : scan K Obj (L1Error * option Obj)) :
  0 <= lm_write_ttl_seconds m → 0 <= lm_read_ttl_seconds m → clock_from t clk t' →
  dwf (sc_objects s) → entries_ok t (sc_objects s) →
  dwf (sc_objects (for_keys clk (install_key m) zs s)) ∧
  entries_ok t' (sc_objects (for_keys clk (install_key m) zs s)).
Proof.
  intros Hw Hr Hc Hwf Hen.
  apply (for_keys_inv (λ t s, dwf (sc_objects s) ∧ entries_ok t (sc_objects s))) with (t := t);
    [| |done|done].
  - intros t1 now t2 s1 [[k b] o] _ Hrd [Hwf1 Hen1]. split; [by apply dset_wf|].
    apply entries_ok_dset; [|by apply new_entry_ok]. eapply entries_ok_mono; [|done].
    pose proof (rd_lo _ _ _ Hrd 0%nat). pose proof (rd_hi _ _ _ Hrd 0%nat). lia.
  - intros t1 t2 s1 Ht [? ?]. eauto using entries_ok_mono.
Qed.

Lemma install_mem m zs : ∀ clk (s : scan K Obj (L1Error * option Obj)),
  NoDup (fst <$> (fst <$> zs)) → (∀ z, z ∈ zs → dget (sc_objects s) z.1.1 = None) →
  mem_objs (sc_objects (for_keys clk (install_key m) zs s)) = mem_objs (sc_objects s) ++ (snd <$> zs).
Proof.
  induction zs as [|[[k b] o] zs IH]; intros clk s Hnd Habs.
  - unfold for_keys; simpl. by rewrite app_nil_r.
  - rewrite !fmap_cons in Hnd. apply NoDup_cons in Hnd as [Hn Hnd]. simpl in Hn.
    rewrite for_keys_cons, IH; [|done|].
    + simpl. rewrite dkeys_dset_new by (by apply (Habs (k, b, o)); left).
      unfold mem_objs, dvals. rewrite !fmap_app. simpl. by rewrite <- app_assoc.
    + intros [[k' b'] o'] Hz. simpl. rewrite dget_dset_ne.
      * apply (Habs (k', b', o')). by right.
      * intros ->. apply Hn. apply list_elem_of_fmap. exists (k', b'). split; [done|].
        apply list_elem_of_fmap. by exists (k', b', o').
Qed.

(** ** The state invariants *)

Record lock_inv (t : Z) m : Prop := {
  li_wf : dwf (lm_objects m);
  li_entries : entries_ok t (lm_objects m);
  li_ttl : 0 <= lm_write_ttl_seconds m ∧ 0 <= lm_read_ttl_seconds m }.

Lemma lock_inv_scan {R} L t t' m (s : scan K Obj R) mem :
  lock_inv t m → scan_ok L t' s → lock_inv t' (with_objects m (sc_objects s) mem).
Proof. intros [] []. by constructor. Qed.

Lemma scan_init_ok {R} t m :
  lock_inv t m → scan_ok (R := R) (mem_objs (lm_objects m)) t (scan_init (lm_objects m)).
Proof. intros []. constructor; simpl; [done..|]. by rewrite app_nil_r. Qed.

Inductive l1_op :=
| OpReserveRead (keys : list K) (read_locks : Z)
| OpFinishRead (keys : list K) (read_locks : Z)
| OpReserveWrite (keys : list K) (is_temporary : list bool) (layout : Layout) (mode : WriteMode)
| OpFinishWrite (keys : list K)
| OpFinishWriteAndReserveRead (keys : list K) (read_locks : Z)
| OpDelete (keys : list K) (force : bool)
| OpClear (force : bool)
| OpClose.

Definition exec_l1 m (clk clk2 : nat → nat → Z) (op : l1_op) : result (L1Manager K M Obj) :=
  match op with
  | OpReserveRead keys n => Ok (snd (reserve_read (Backend := Backend) m clk keys n))
  | OpFinishRead keys n => (r <-? finish_read m clk keys n; Ok (snd r))%py
  | OpReserveWrite keys temps l mode =>
      (r <-? reserve_write m clk clk2 keys temps l mode; Ok (snd r))%py
  | OpFinishWrite keys => Ok (snd (finish_write m clk keys))
  | OpFinishWriteAndReserveRead keys n => Ok (snd (finish_write_and_reserve_read m clk keys n))
  | OpDelete keys force => (r <-? delete m clk keys force; Ok (snd r))%py
  | OpClear force => (r <-? clear m clk force; Ok (snd r))%py
  | OpClose => close m
  end.

Lemma clearable_sublist clk (objects : list (K * L1ObjectState Obj)) :
  clearable clk objects `sublist_of` objects.
Proof.
  unfold clearable. change (imap pair objects) with (imap (λ i, pair (id i)) objects).
  generalize (@id nat) as g. induction objects as [|x l IH]; intros g; [done|].
  cbn [imap List.filter]. destruct (negb _).
  - rewrite fmap_cons. cbn [snd]. apply sublist_skip. apply (IH (g ∘ S)).
  - apply sublist_cons. apply (IH (g ∘ S)).
Qed.

Lemma clearable_unlocked clk (objects : list (K * L1ObjectState Obj)) k e :
  (k, e) ∈ clearable clk objects → ∃ i, entry_locked (clk i) e = false.
Proof.
  unfold clearable. intros ([i [k' e']] & [= -> ->] & Hf)%list_elem_of_fmap.
  apply list_elem_of_In, filter_In in Hf as [_ Hn]. exists i. by apply negb_true_iff.
Qed.

Lemma clearable_spec clk (objects : list (K * L1ObjectState Obj)) :
  dwf objects → NoDup (clearable clk objects).*1 ∧
  (∀ k e, (k, e) ∈ clearable clk objects → dget objects k = Some e).
Proof.
  intros Hwf. pose proof (clearable_sublist clk objects) as Hs. split.
  - eapply sublist_NoDup; [exact Hwf|]. unfold dkeys. by apply fmap_sublist.
  - intros k e Hin. apply dget_wf_elem_of; [done|]. by eapply elem_of_sublist.
Qed.

Lemma del_all_mem c : ∀ objects : list (K * L1ObjectState Obj),
  dwf objects → NoDup c.*1 → (∀ k e, (k, e) ∈ c → dget objects k = Some e) →
  dwf (del_all objects c.*1) ∧
  mem_objs objects ≡ₚ mem_objs (del_all objects c.*1) ++ (os_memory_obj <$> c.*2).
Proof.
  induction c as [|[k e] c IH]; intros objects Hwf Hnd Hin.
  - simpl. by rewrite app_nil_r.
  - rewrite fmap_cons in Hnd. apply NoDup_cons in Hnd as [Hn Hnd]. rewrite !fmap_cons. cbn [fst snd].
    cbn [del_all fold_left]. fold (del_all (ddel objects k) c.*1).
    destruct (IH (ddel objects k)) as [Hwf' HP]; [by apply ddel_wf|done| |].
    + intros k' e' Hin'. rewrite dget_ddel_ne; [apply Hin; by right|].
      intros ->. apply Hn. apply list_elem_of_fmap. by exists (k', e').
    + split; [done|]. unfold mem_objs at 1.
      rewrite (dvals_ddel objects k e) by (done || (apply Hin; left)).
      rewrite fmap_cons. fold (mem_objs (ddel objects k)). rewrite HP. by rewrite Permutation_middle.
Qed.

Lemma del_all_dget {V} keys : ∀ (objects : list (K * V)) k,
  dget (del_all objects keys) k = if decide (k ∈ keys) then None else dget objects k.
Proof.
  induction keys as [|x keys IH]; intros objects k; simpl; [done|].
  fold (del_all (ddel objects x) keys). rewrite IH, dget_ddel.
  destruct (decide (k ∈ keys)), (decide (x = k)), (decide (k ∈ x :: keys)); try done; set_solver.
Qed.

(** ** Each operation keeps the lock invariant *)

Lemma allocate_new_locks m clk2 l need s t t' s' mem :
  0 <= lm_write_ttl_seconds m → 0 <= lm_read_ttl_seconds m → clock_from t clk2 t' →
  dwf (sc_objects s) → entries_ok t (sc_objects s) →
  allocate_new m clk2 l need s = Ok (s', mem) →
  dwf (sc_objects s') ∧ entries_ok t' (sc_objects s').
Proof.
  intros Hw Hr Hc Hwf Hen. pose proof (clock_from_le _ _ _ Hc) as Ht. unfold allocate_new.
  destruct (mm_allocate _ _ _) as [[[err objs] mem1]|]; [|done]. simpl. case_decide.
  - intros [= <- <-]. by eapply install_locks.
  - intros Heq. assert (sc_objects s' = sc_objects s) as ->.
    { destruct objs; [by injection Heq as <- <-|]. destruct (mm_free mem1 _); [|done].
      simpl in Heq. by injection Heq as <- <-. }
    split; [done|]. by eapply entries_ok_mono.
Qed.

Lemma reserve_write_lock_inv m clk clk2 keys temps l mode t tm t' r :
  clock_from t clk tm → clock_from tm clk2 t' → lock_inv t m →
  reserve_write m clk clk2 keys temps l mode = Ok r → lock_inv t' (snd r).
Proof.
  intros Hc Hc2 Hinv. unfold reserve_write.
  pose proof (for_keys_ok _ (reserve_write_key mode) (zip keys temps) t clk tm
    (scan_init (lm_objects m)) (reserve_write_effect mode) Hc (scan_init_ok t m Hinv)) as Hs.
  set (s := for_keys clk _ _ _) in *. clearbody s.
  assert (∀ mem, lock_inv t' (with_objects m (sc_objects s) mem)) as Hkeep.
  { intros mem. eapply lock_inv_scan; [done|]. eapply scan_ok_mono; [by eapply clock_from_le|done]. }
  destruct Hinv as [_ _ [Hw Hr]], Hs as [Hwf Hen _].
  destruct (sc_to_allocate s) as [|kt need]; [intros [= <-]; apply Hkeep|].
  destruct mode; [|intros [= <-]; apply Hkeep|];
    (destruct (allocate_new m clk2 l (kt :: need) s) as [[s' mem]|] eqn:E; [|done]);
    simpl; intros [= <-]; (edestruct allocate_new_locks as [? ?]; [exact Hw|exact Hr|done..|]);
    by constructor.
Qed.

Lemma clear_lock_inv m clk force t t' r :
  clock_from t clk t' → lock_inv t m → clear m clk force = Ok r → lock_inv t' (snd r).
Proof.
  intros Hc [Hwf Hen Httl]. pose proof (clock_from_le _ _ _ Hc) as Ht. unfold clear.
  destruct force; (destruct (mm_free _ _) as [mem|]; [|done]); simpl; intros [= <-];
    (constructor; simpl; [| |done]).
  - constructor.
  - intros k e. done.
  - destruct (clearable_spec clk _ Hwf) as [Hnd Hin]. by apply del_all_mem.
  - intros k e. rewrite del_all_dget. case_decide; [done|]. intros Hk.
    eapply entry_ok_mono; [exact Ht|]. by eapply Hen.
Qed.

Lemma exec_lock_inv m clk clk2 op t tm t' m' :
  clock_from t clk tm → clock_from tm clk2 t' → lock_inv t m → exec_l1 m clk clk2 op = Ok m' →
  lock_inv t' m'.
Proof.
  intros Hc Hc2 Hinv Hex. pose proof (clock_from_le _ _ _ Hc2) as Ht.
  assert (∀ t1, t1 <= t' → lock_inv t1 m' → lock_inv t' m') as Hmono.
  { intros t1 ? []. constructor; eauto using entries_ok_mono. }
  destruct op as [keys n|keys n|keys temps l mode|keys|keys n|keys force|force|]; simpl in Hex.
  - injection Hex as <-. apply (Hmono tm); [done|]. eapply lock_inv_scan; [done|].
    eapply for_keys_ok; [apply reserve_read_effect|done|by apply scan_init_ok].
  - unfold finish_read in Hex. destruct (mm_free _ _); [|done]. injection Hex as <-.
    apply (Hmono tm); [done|]. eapply lock_inv_scan; [done|].
    eapply for_keys_ok; [apply finish_read_effect|done|by apply scan_init_ok].
  - destruct (reserve_write _ _ _ _ _ _ _) as [r|] eqn:E; [|done]. injection Hex as <-.
    exact (reserve_write_lock_inv _ _ _ _ _ _ _ _ _ _ _ Hc Hc2 Hinv E).
  - injection Hex as <-. apply (Hmono tm); [done|]. eapply lock_inv_scan; [done|].
    eapply for_keys_ok; [apply finish_write_effect|done|by apply scan_init_ok].
  - injection Hex as <-. apply (Hmono tm); [done|]. eapply lock_inv_scan; [done|].
    eapply for_keys_ok; [apply finish_write_and_reserve_read_effect|done|by apply scan_init_ok].
  - unfold delete in Hex. destruct (mm_free _ _); [|done]. injection Hex as <-.
    apply (Hmono tm); [done|]. eapply lock_inv_scan; [done|].
    eapply for_keys_ok; [intros; apply delete_effect|done|by apply scan_init_ok].
  - destruct (clear m clk force) as [r|] eqn:E; [|done]. injection Hex as <-.
    apply (Hmono tm); [done|]. by eapply clear_lock_inv.
  - unfold close in Hex. destruct (mm_free _ _); [|done]. injection Hex as <-.
    destruct Hinv. constructor; simpl; [constructor| |done]. intros k e. done.
Qed.

(** ** Memory accounting *)

Section memory.
Context {MMS : MemoryManagerSpec M Obj Layout Backend}.

(** The memory objects of the cache are distinct, and are the live ones. *)
Record mem_inv m : Prop := {
  mi_ok : mm_ok (lm_memory_manager m);
  mi_nodup : NoDup (mem_objs (lm_objects m));
  mi_live : ∀ o, mm_live (lm_memory_manager m) o ↔ o ∈ mem_objs (lm_objects m) }.

Lemma mem_inv_perm m objects :
  mem_inv m → mem_objs objects ≡ₚ mem_objs (lm_objects m) →
  mem_inv (with_objects m objects (lm_memory_manager m)).
Proof.
  intros [H1 H2 H3] HP. constructor; simpl; [done|by rewrite HP|]. intros o. by rewrite HP.
Qed.

Lemma release_mem m objects freed :
  mem_inv m → mem_objs objects ++ freed ≡ₚ mem_objs (lm_objects m) →
  ∃ mem, mm_free (lm_memory_manager m) freed = Ok mem ∧ mem_inv (with_objects m objects mem).
Proof.
  intros [H1 H2 H3] HP. destruct (mm_free_spec (lm_memory_manager m) freed H1) as (mem & Hf & Hok & Hl).
  exists mem. split; [done|]. rewrite <- HP in H2. apply NoDup_app in H2 as (Hn1 & Hn2 & _).
  constructor; simpl; [done|done|]. intros o. rewrite Hl, H3, <- HP, elem_of_app. naive_solver.
Qed.

(** The scan of an operation that does not install keys, then the release. *)
Lemma scan_release {R A} m (body : (nat → Z) → scan K Obj R → A → scan K Obj R) keys clk t t' :
  (∀ t now t' s a, readings t now t' → entries_ok t (sc_objects s) → key_effect t' s (body now s a)) →
  clock_from t clk t' → lock_inv t m → mem_inv m →
  let s := for_keys clk body keys (scan_init (lm_objects m)) in
  ∃ mem, mm_free (lm_memory_manager m) (sc_to_free s).*2 = Ok mem ∧
    mem_inv (with_objects m (sc_objects s) mem).
Proof.
  intros Hb Hc Hli Hmi s. apply release_mem; [done|].
  destruct (for_keys_ok _ body keys t clk t' _ Hb Hc (scan_init_ok t m Hli)) as [_ _ HP]. exact HP.
Qed.

(** When nothing can be queued for release, the objects are unchanged. *)
Lemma scan_keep {R A} m (body : (nat → Z) → scan K Obj R → A → scan K Obj R) keys clk t t' :
  (∀ t now t' s a, readings t now t' → entries_ok t (sc_objects s) → key_effect t' s (body now s a)) →
  (∀ now s a, sc_to_free (body now s a) = sc_to_free s) →
  clock_from t clk t' → lock_inv t m → mem_inv m →
  mem_inv (with_objects m (sc_objects (for_keys clk body keys (scan_init (lm_objects m))))
             (lm_memory_manager m)).
Proof.
  intros Hb Hf Hc Hli Hmi. apply mem_inv_perm; [done|].
  destruct (for_keys_ok _ body keys t clk t' _ Hb Hc (scan_init_ok t m Hli)) as [_ _ HP].
  assert (∀ clk s, sc_to_free (for_keys clk body keys s) = sc_to_free s) as Hff.
  { clear -Hf. induction keys as [|a keys IH]; intros clk s; [done|].
    by rewrite for_keys_cons, IH, Hf. }
  rewrite Hff in HP. simpl in HP. by rewrite app_nil_r in HP.
Qed.

Lemma allocate_new_mem m clk2 l need s :
  mem_inv (with_objects m (sc_objects s) (lm_memory_manager m)) → mm_layout_ok l →
  NoDup need.*1 → (∀ kt, kt ∈ need → dget (sc_objects s) kt.1 = None) →
  ∃ s' mem, allocate_new m clk2 l need s = Ok (s', mem) ∧
    mem_inv (with_objects m (sc_objects s') mem).
Proof.
  intros [H1 H2 H3] Hl Hnd Habs. unfold allocate_new. simpl in *.
  destruct (mm_allocate_spec (lm_memory_manager m) l (length need) H1 Hl)
    as [(os & mem & -> & Hok & Hlen & Hnos & Hfresh & Hlive)| ->]; simpl.
  - eexists _, _. split; [done|].
    assert (mem_objs (sc_objects (for_keys clk2 (install_key m) (zip need os) s))
            = mem_objs (sc_objects s) ++ os) as Hm.
    { rewrite install_mem.
      - rewrite snd_zip by lia. done.
      - rewrite fst_zip by lia. done.
      - intros [kt o] Hz. apply elem_of_zip_l in Hz. by apply Habs. }
    constructor; simpl; rewrite ?Hm; [done| |].
    + apply NoDup_app. split_and!; [done| |done]. intros o Ho Hos. apply (Hfresh o Hos). by apply H3.
    + intros o. rewrite Hlive, H3, elem_of_app. tauto.
  - eexists _, _. split; [done|]. by constructor.
Qed.

Lemma NoDup_zip_fst {A B} (ks : list A) (bs : list B) : NoDup ks → NoDup (zip ks bs).*1.
Proof.
  intros Hnd. revert bs. induction Hnd as [|k ks Hn Hnd IH]; intros [|b bs]; simpl; try constructor.
  - intros (kb & -> & Hin)%list_elem_of_fmap. apply Hn. destruct kb. by eapply elem_of_zip_l.
  - apply IH.
Qed.

Lemma reserve_write_mem m clk clk2 keys temps l mode t tm :
  clock_from t clk tm → lock_inv t m → mem_inv m → mm_layout_ok l → NoDup keys →
  ∃ r, reserve_write m clk clk2 keys temps l mode = Ok r ∧ mem_inv (snd r).
Proof.
  intros Hc Hli Hmi Hl Hnd. unfold reserve_write.
  pose proof (scan_keep m (reserve_write_key mode) (zip keys temps) clk t tm
    (reserve_write_effect mode) (λ now s kt, proj1 (proj2 (reserve_write_key_frame mode now s kt)))
    Hc Hli Hmi) as Hk.
  destruct (reserve_write_scan mode (zip keys temps) clk (scan_init (lm_objects m)))
    as (Hneed & Hnone & _). cbv zeta in *. simpl in Hneed.
  set (s := for_keys clk _ _ _) in *. clearbody s.
  assert (NoDup (sc_to_allocate s).*1 ∧
          (∀ kt, kt ∈ sc_to_allocate s → dget (sc_objects s) kt.1 = None)) as [Hn Ha].
  { rewrite Hneed. split.
    - eapply sublist_NoDup; [by apply (NoDup_zip_fst keys temps)|].
      apply fmap_sublist, sublist_filter.
    - intros kt [Hkt _]%list_elem_of_filter. by apply Hnone. }
  destruct (sc_to_allocate s) as [|kt need]; [by eexists|].
  destruct (allocate_new_mem m clk2 l (kt :: need) s Hk Hl Hn Ha) as (s' & mem & -> & Hm').
  destruct mode; simpl; by eexists.
Qed.

(** Requests the cache is specified for: valid layouts, and a key named once
    per write reservation. *)
Definition l1_op_wf (op : l1_op) : Prop :=
  match op with
  | OpReserveWrite keys _ l _ => mm_layout_ok l ∧ NoDup keys
  | _ => True
  end.

Lemma exec_mem_inv m clk clk2 op t tm t' :
  clock_from t clk tm → clock_from tm clk2 t' → lock_inv t m → mem_inv m → l1_op_wf op →
  ∃ m', exec_l1 m clk clk2 op = Ok m' ∧ mem_inv m'.
Proof.
  intros Hc Hc2 Hli Hmi Hwf.
  destruct op as [keys n|keys n|keys temps l mode|keys|keys n|keys force|force|]; simpl in *.
  - eexists. split; [done|]. eapply scan_keep; [apply reserve_read_effect| |done..].
    intros now s a. unfold reserve_read_key. destruct (dget _ a); [|done]. by destruct (negb _).
  - unfold finish_read.
    destruct (scan_release m (finish_read_key (_validate_read_locks n)) keys clk t tm)
      as (mem & -> & ?); [apply finish_read_effect|done..|]. by eexists.
  - destruct Hwf as [Hl Hnd]. destruct (reserve_write_mem m clk clk2 keys temps l mode t tm)
      as (r & -> & ?); [done..|]. by eexists.
  - eexists. split; [done|]. eapply scan_keep; [apply finish_write_effect| |done..].
    intros now s a. unfold finish_write_key. destruct (dget _ a); [|done].
    destruct (negb _); [done|]. by destruct (is_locked _ _).
  - eexists. split; [done|]. eapply scan_keep; [apply finish_write_and_reserve_read_effect| |done..].
    intros now s a. unfold finish_write_and_reserve_read_key. destruct (dget _ a); [|done].
    destruct (negb _); [done|]. by destruct (is_locked _ _).
  - unfold delete.
    destruct (scan_release m (delete_key force) keys clk t tm)
      as (mem & -> & ?); [intros; apply delete_effect|done..|]. by eexists.
  - unfold clear. destruct Hli as [Hwfo _ _]. destruct force.
    + destruct (release_mem m [] (mem_objs (lm_objects m)) Hmi) as (mem & Hf & ?); [done|].
      unfold mem_objs in Hf. rewrite Hf. by eexists.
    + destruct (clearable_spec clk _ Hwfo) as [Hnd Hin].
      destruct (del_all_mem _ _ Hwfo Hnd Hin) as [_ HP].
      destruct (release_mem m _ _ Hmi (symmetry HP)) as (mem & -> & ?). by eexists.
  - unfold close. destruct (release_mem m [] (mem_objs (lm_objects m)) Hmi) as (mem & Hf & ?); [done|].
    unfold mem_objs in Hf. rewrite Hf. by eexists.
Qed.

End memory.

(** ** Locked objects survive *)

Definition has_obj (k : K) (o : Obj) (objects : list (K * L1ObjectState Obj)) : Prop :=
  ∃ e, dget objects k = Some e ∧ os_memory_obj e = o.

Lemma effect_has_obj {R} t' (s s' : scan K Obj R) k o :
  key_effect t' s s' → sc_to_free s' = sc_to_free s →
  has_obj k o (sc_objects s) → has_obj k o (sc_objects s').
Proof.
  intros Heff Hf (e0 & Hk & Hm0). destruct Heff as [s' Ho _|key e e' r Hg Hm _|key e e' r Hg Hm].
  - exists e0. by rewrite Ho.
  - unfold has_obj. simpl. rewrite dget_dset. case_decide; subst; [|by exists e0].
    exists e'. split; [done|]. congruence.
  - simpl in Hf. apply (f_equal length) in Hf. rewrite length_app in Hf. simpl in Hf. lia.
Qed.

Lemma scan_has_obj {R A} (body : (nat → Z) → scan K Obj R → A → scan K Obj R) keys clk t t' s k o :
  (∀ t now t' s a, readings t now t' → entries_ok t (sc_objects s) → key_effect t' s (body now s a)) →
  (∀ now s a, sc_to_free (body now s a) = sc_to_free s) →
  clock_from t clk t' → dwf (sc_objects s) → entries_ok t (sc_objects s) →
  has_obj k o (sc_objects s) → has_obj k o (sc_objects (for_keys clk body keys s)).
Proof.
  intros Hb Hf Hc Hwf Hen Hk.
  enough (scan_ok (mem_objs (sc_objects s) ++ (sc_to_free s).*2) t' (for_keys clk body keys s) ∧
          has_obj k o (sc_objects (for_keys clk body keys s))) by naive_solver.
  apply (for_keys_inv (λ t s', scan_ok (mem_objs (sc_objects s) ++ (sc_to_free s).*2) t s' ∧
           has_obj k o (sc_objects s'))) with (t := t); [| |done|split; [by constructor|done]].
  - intros t1 now t2 s1 a _ Hr [H1 H2].
    assert (t1 <= t2) by (pose proof (rd_lo _ _ _ Hr 0%nat); pose proof (rd_hi _ _ _ Hr 0%nat); lia).
    assert (key_effect t2 s1 (body now s1 a)) as He by (apply (Hb t1); [done|by destruct H1]).
    split; [by eapply key_effect_ok|]. by eapply effect_has_obj.
  - intros t1 t2 s1 Ht [? ?]. split; [by eapply scan_ok_mono|done].
Qed.

Definition entry_locked_at (t : Z) e : bool :=
  is_locked (os_write_lock e) t || is_locked (os_read_lock e) t.

Lemma delete_keeps_locked keys clk t t' k e :
  clock_from t clk t' → entry_locked_at t' e = true → ∀ s : scan K Obj L1Error,
  dget (sc_objects s) k = Some e →
  dget (sc_objects (for_keys clk (delete_key false) keys s)) k = Some e.
Proof.
  intros Hc Hl s Hk.
  apply (for_keys_inv (λ t1 s, t1 <= t' → dget (sc_objects s) k = Some e)
           (delete_key false) keys) with (t := t) (t' := t') (clk := clk); [| |done|done|lia].
  - intros t1 now t2 s1 a _ Hr HP Ht2.
    assert (t1 <= t') as Ht1.
    { pose proof (rd_lo _ _ _ Hr 0%nat). pose proof (rd_hi _ _ _ Hr 0%nat). lia. }
    specialize (HP Ht1). unfold delete_key. destruct (dget (sc_objects s1) a) as [x|] eqn:E; [|done].
    destruct (decide (a = k)) as [->|Hne].
    + rewrite HP in E. injection E as <-.
      assert (is_locked (os_read_lock e) (now 0%nat) || is_locked (os_write_lock e) (now 1%nat) = true)
        as ->; [|done].
      apply not_false_iff_true. intros [Hr0 Hw1]%orb_false_iff.
      unfold entry_locked_at in Hl. apply orb_true_iff in Hl.
      pose proof (rd_hi _ _ _ Hr 0%nat). pose proof (rd_hi _ _ _ Hr 1%nat).
      rewrite (is_locked_mono _ (now 1%nat) t'), (is_locked_mono _ (now 0%nat) t') in Hl by (done || lia).
      naive_solver.
    + destruct (_ && _); [done|]. simpl. by rewrite dget_ddel_ne.
  - intros t1 t2 s1 Ht HP Ht2. apply HP. lia.
Qed.

Lemma finish_read_other keys total clk k : ∀ s : scan K Obj L1Error,
  k ∉ keys → dget (sc_objects (for_keys clk (finish_read_key total) keys s)) k = dget (sc_objects s) k.
Proof.
  revert clk. induction keys as [|a keys IH]; intros clk s Hn; [done|].
  rewrite for_keys_cons, IH by set_solver. unfold finish_read_key.
  destruct (dget (sc_objects s) a); [|done]. destruct (is_locked _ _); [done|].
  destruct (negb _); [done|].
  destruct (_ && _); simpl; rewrite ?dget_ddel_ne, ?dget_dset_ne by set_solver; done.
Qed.

Lemma install_has_obj m zs k o : ∀ clk s,
  (∀ z, z ∈ zs → z.1.1 ≠ k) → has_obj k o (sc_objects s) →
  has_obj k o (sc_objects (for_keys clk (install_key m) zs s)).
Proof.
  induction zs as [|[[k' b] x] zs IH]; intros clk s Hn Hk; [done|].
  rewrite for_keys_cons. apply IH; [set_solver|]. destruct Hk as (e & He & Ho). exists e.
  split; [|done]. simpl. rewrite dget_dset_ne; [done|]. apply (Hn (k', b, x)). left.
Qed.

Lemma reserve_write_has_obj m clk clk2 keys temps l mode t tm k o r :
  clock_from t clk tm → lock_inv t m → has_obj k o (lm_objects m) →
  reserve_write m clk clk2 keys temps l mode = Ok r → has_obj k o (lm_objects (snd r)).
Proof.
  intros Hc [Hwf Hen _] Hk. unfold reserve_write.
  pose proof (scan_has_obj (reserve_write_key mode) (zip keys temps) clk t tm
    (scan_init (lm_objects m)) k o
    (reserve_write_effect mode) (λ now s kt, proj1 (proj2 (reserve_write_key_frame mode now s kt)))
    Hc Hwf Hen Hk) as Hs.
  destruct (reserve_write_scan mode (zip keys temps) clk (scan_init (lm_objects m)))
    as (Hneed & _ & _). cbv zeta in Hneed. simpl in Hneed.
  set (s := for_keys clk _ _ _) in *. clearbody s.
  assert (∀ s' mem, allocate_new m clk2 l (sc_to_allocate s) s = Ok (s', mem) →
            has_obj k o (sc_objects s')) as Halloc.
  { intros s' mem. unfold allocate_new. destruct (mm_allocate _ _ _) as [[[err objs] mem1]|]; [|done].
    simpl. case_decide.
    - intros [= <- <-]. apply install_has_obj; [|done]. intros [kt x] Hz%elem_of_zip_l Heq.
      rewrite Hneed in Hz. apply list_elem_of_filter in Hz as [Hz _]. simpl in Heq. subst k.
      destruct Hk as (e & He & _). congruence.
    - destruct objs; [by intros [= <- <-]|]. destruct (mm_free mem1 _); [|done]. by intros [= <- <-]. }
  destruct (sc_to_allocate s) as [|kt need]; [by intros [= <-]|].
  destruct mode; [|by intros [= <-]|];
    (destruct (allocate_new m clk2 l (kt :: need) s) as [[s' mem]|] eqn:E; [|done]);
    intros [= <-]; simpl; by eapply Halloc.
Qed.

(** Operations that respect locks for key [k]. *)
Definition respects (k : K) (op : l1_op) : Prop :=
  match op with
  | OpDelete _ force | OpClear force => force = false
  | OpFinishRead keys _ => k ∉ keys
  | OpClose => False
  | _ => True
  end.

(** C5. No operation other than a forced delete or clear, closing the cache,
    or the [finish_read] of the key itself can remove an object that is still
    read- or write-locked when the operation ends: the key keeps the same
    memory object. In particular eviction ([delete]) and [clear] never free an
    object in use. *)
Theorem locked_objects_survive m clk clk2 op t tm t' m' k e :
  clock_from t clk tm → clock_from tm clk2 t' → lock_inv t m → respects k op →
  exec_l1 m clk clk2 op = Ok m' → dget (lm_objects m) k = Some e → entry_locked_at t' e = true →
  ∃ e', dget (lm_objects m') k = Some e' ∧ os_memory_obj e' = os_memory_obj e.
Proof.
  intros Hc Hc2 Hli Hresp Hex Hk Hlk. pose proof Hli as [Hwf Hen _].
  assert (has_obj k (os_memory_obj e) (lm_objects m)) as Hko by (by exists e).
  assert (entry_locked_at tm e = true) as Hlkm.
  { pose proof (clock_from_le _ _ _ Hc2). apply not_false_iff_true. intros [Hw Hr]%orb_false_iff.
    unfold entry_locked_at in Hlk. rewrite (is_locked_mono _ tm t'), (is_locked_mono _ tm t') in Hlk by done.
    done. }
  destruct op as [keys n|keys n|keys temps l mode|keys|keys n|keys force|force|]; simpl in *; try done.
  - injection Hex as <-. simpl. eapply scan_has_obj with (t := t); [apply reserve_read_effect| |done..].
    intros now s a. unfold reserve_read_key. destruct (dget _ a); [|done]. by destruct (negb _).
  - unfold finish_read in Hex. destruct (mm_free _ _); [|done]. injection Hex as <-. simpl.
    exists e. by rewrite finish_read_other.
  - destruct (reserve_write _ _ _ _ _ _ _) as [r|] eqn:E; [|done]. injection Hex as <-.
    exact (reserve_write_has_obj _ _ _ _ _ _ _ _ _ _ _ _ Hc Hli Hko E).
  - injection Hex as <-. simpl. eapply scan_has_obj with (t := t); [apply finish_write_effect| |done..].
    intros now s a. unfold finish_write_key. destruct (dget _ a); [|done].
    destruct (negb _); [done|]. by destruct (is_locked _ _).
  - injection Hex as <-. simpl.
    eapply scan_has_obj with (t := t); [apply finish_write_and_reserve_read_effect| |done..].
    intros now s a. unfold finish_write_and_reserve_read_key. destruct (dget _ a); [|done].
    destruct (negb _); [done|]. by destruct (is_locked _ _).
  - subst force. unfold delete in Hex. destruct (mm_free _ _); [|done]. injection Hex as <-. simpl.
    exists e. split; [|done]. by eapply delete_keeps_locked.
  - subst force. unfold clear in Hex. destruct (mm_free _ _); [|done]. injection Hex as <-. simpl.
    exists e. split; [|done]. rewrite del_all_dget, decide_False; [done|].
    intros ([k' e'] & -> & Hin)%list_elem_of_fmap.
    pose proof (proj2 (clearable_spec clk _ Hwf) _ _ Hin) as Hg. simpl in Hk.
    rewrite Hk in Hg. injection Hg as <-. destruct (clearable_unlocked _ _ _ _ Hin) as [i Hi].
    unfold entry_locked in Hi. apply orb_false_iff in Hi as [Hw Hr].
    unfold entry_locked_at in Hlkm.
    rewrite (is_locked_mono _ (clk i 0%nat) tm), (is_locked_mono _ (clk i 1%nat) tm) in Hlkm
      by (done || apply (ck_hi _ _ _ Hc)). done.
Qed.

(** ** Successful reservations hold *)

(** Every key reported successful has its entry, with the returned memory
    object, and its [sel] lock is held until [t0] plus the time to live. *)
Definition reserved (t0 : Z) (sel : L1ObjectState Obj → TTLLock)
    (ret : list (K * (L1Error * option Obj))) (objects : list (K * L1ObjectState Obj)) : Prop :=
  ∀ k o, dget ret k = Some (SUCCESS, o) →
    ∃ e, dget objects k = Some e ∧ o = Some (os_memory_obj e) ∧
      ∀ t, t < t0 + tl_ttl_ms (sel e) → is_locked (sel e) t = true.

Definition scan_reserved t0 sel (s : scan K Obj (L1Error * option Obj)) : Prop :=
  reserved t0 sel (sc_ret s) (sc_objects s).

Lemma reserved_fail t0 sel s key err :
  err ≠ SUCCESS → scan_reserved t0 sel s → scan_reserved t0 sel (scan_fail s key (err, None)).
Proof. intros Hne Hs k o. simpl. rewrite dget_dset. case_decide; [by intros [= ? _]|apply Hs]. Qed.

Lemma reserved_update t0 sel s key e :
  (∀ t, t < t0 + tl_ttl_ms (sel e) → is_locked (sel e) t = true) →
  scan_reserved t0 sel s →
  scan_reserved t0 sel (scan_update s key e (SUCCESS, Some (os_memory_obj e))).
Proof.
  intros Hl Hs k o. simpl. rewrite !dget_dset. case_decide; [|apply Hs].
  intros [= <-]. by exists e.
Qed.

Lemma validate_pos n : ∃ k, Z.to_nat (_validate_read_locks n) = S k.
Proof.
  unfold _validate_read_locks, MAX_READ_LOCK_COUNT.
  destruct (Z.ltb_spec n 1); [by exists 0%nat|]. destruct (Z.ltb_spec 128 n); [by exists 127%nat|].
  exists (Z.to_nat (n - 1)). lia.
Qed.

(** Locking at readings not before [t0] holds until [t0] plus the time to live. *)
Lemma lock_n_reserved t0 n now l :
  ttl_ok l → (∀ i, t0 <= now i) →
  ∀ t, t < t0 + tl_ttl_ms (lock_n (S n) now l) → is_locked (lock_n (S n) now l) t = true.
Proof.
  intros Hok Hnow t. rewrite lock_n_ttl. intros Ht. apply lock_n_held; [done|].
  specialize (Hnow n). lia.
Qed.

Lemma for_keys_reserved {A} t0 sel
    (body : (nat → Z) → scan K Obj (L1Error * option Obj) → A → scan K Obj (L1Error * option Obj))
    keys t clk t' s :
  (∀ t now t' s a, readings t now t' → entries_ok t (sc_objects s) → key_effect t' s (body now s a)) →
  (∀ t now t' s a, readings t now t' → t0 <= t → entries_ok t (sc_objects s) →
     scan_reserved t0 sel s → scan_reserved t0 sel (body now s a)) →
  clock_from t clk t' → t0 <= t → dwf (sc_objects s) → entries_ok t (sc_objects s) →
  scan_reserved t0 sel s → scan_reserved t0 sel (for_keys clk body keys s).
Proof.
  intros Hb Hres Hc Ht0 Hwf Hen Hs.
  enough ((t0 <= t' ∧ scan_ok (mem_objs (sc_objects s) ++ (sc_to_free s).*2) t' (for_keys clk body keys s))
          ∧ scan_reserved t0 sel (for_keys clk body keys s)) by naive_solver.
  apply (for_keys_inv (λ t s', (t0 <= t ∧ scan_ok (mem_objs (sc_objects s) ++ (sc_to_free s).*2) t s')
           ∧ scan_reserved t0 sel s')) with (t := t);
    [| |done|split; [split; [done|by constructor]|done]].
  - intros t1 now t2 s1 a _ Hr [[H0 H1] H2].
    assert (t1 <= t2) by (pose proof (rd_lo _ _ _ Hr 0%nat); pose proof (rd_hi _ _ _ Hr 0%nat); lia).
    split; [split; [lia|]|].
    + eapply key_effect_ok; [|exact H1|]; [done|]. apply (Hb t1); [done|by destruct H1].
    + apply (Hres t1 _ t2); [done..| |done]. by destruct H1.
  - intros t1 t2 s1 Ht [[? ?] ?]. split; [split; [lia|by eapply scan_ok_mono]|done].
Qed.

Lemma reserve_read_reserved t0 n t now t' s key :
  readings t now t' → t0 <= t → entries_ok t (sc_objects s) →
  scan_reserved t0 os_read_lock s →
  scan_reserved t0 os_read_lock (reserve_read_key (_validate_read_locks n) now s key).
Proof.
  intros Hr Ht Ho Hs. unfold reserve_read_key.
  destruct (dget (sc_objects s) key) as [e|] eqn:E; [|by apply reserved_fail].
  destruct (negb _); [by apply reserved_fail|]. apply reserved_update; [|done]. simpl.
  destruct (validate_pos n) as [k ->]. destruct (Ho _ _ E). apply lock_n_reserved; [done|].
  intros i. pose proof (rd_lo _ _ _ Hr (S i)). lia.
Qed.

Lemma finish_write_and_reserve_read_reserved t0 n t now t' s key :
  readings t now t' → t0 <= t → entries_ok t (sc_objects s) →
  scan_reserved t0 os_read_lock s →
  scan_reserved t0 os_read_lock
    (finish_write_and_reserve_read_key (_validate_read_locks n) now s key).
Proof.
  intros Hr Ht Ho Hs. unfold finish_write_and_reserve_read_key.
  destruct (dget (sc_objects s) key) as [e|] eqn:E; [|by apply reserved_fail].
  destruct (negb _); [by apply reserved_fail|].
  destruct (is_locked _ _); [by apply reserved_fail|]. apply reserved_update; [|done]. simpl.
  destruct (validate_pos n) as [k ->]. destruct (Ho _ _ E). apply lock_n_reserved; [done|].
  intros i. pose proof (rd_lo _ _ _ Hr (S (S i))). lia.
Qed.

Lemma lock_reserved t0 now l :
  ttl_ok l → t0 <= now → ∀ t, t < t0 + tl_ttl_ms (lock l now) → is_locked (lock l now) t = true.
Proof.
  intros Hok Hnow t. rewrite lock_ttl. intros Ht. apply lock_held; [by destruct Hok|lia].
Qed.

Lemma reserve_write_reserved t0 mode t now t' s kt :
  readings t now t' → t0 <= t → entries_ok t (sc_objects s) →
  scan_reserved t0 os_write_lock s →
  scan_reserved t0 os_write_lock (reserve_write_key mode now s kt).
Proof.
  intros Hr Ht Ho Hs. unfold reserve_write_key.
  destruct (dget (sc_objects s) kt.1) as [e|] eqn:E; [|done].
  assert (∀ x, t0 <= x → scan_reserved t0 os_write_lock
    (scan_update s kt.1 (with_write_lock e (lock (os_write_lock e) x))
            (SUCCESS, Some (os_memory_obj (with_write_lock e (lock (os_write_lock e) x)))))) as Hup.
  { intros x Hx. apply reserved_update; [|done]. simpl. destruct (Ho _ _ E). by apply lock_reserved. }
  pose proof (rd_lo _ _ _ Hr 2%nat).
  destruct mode; [by apply reserved_fail| |];
    (destruct (negb _); [by apply reserved_fail|]); apply Hup; lia.
Qed.

Lemma fail_all_reserved t0 sel need err ret objects :
  err ≠ SUCCESS → reserved t0 sel ret objects → reserved t0 sel (fail_all need (err, None) ret) objects.
Proof.
  intros Hne. revert ret. induction need as [|kt need IH]; intros ret Hs; [done|]. simpl. apply IH.
  intros k o. rewrite dget_dset. case_decide; [by intros [= ? _]|apply Hs].
Qed.

Lemma install_reserved m zs t clk t' s t0 :
  0 <= lm_write_ttl_seconds m → clock_from t clk t' → t0 <= t →
  scan_reserved t0 os_write_lock s →
  scan_reserved t0 os_write_lock (for_keys clk (install_key m) zs s).
Proof.
  intros Hw Hc Ht Hs.
  enough (t0 <= t' ∧ scan_reserved t0 os_write_lock (for_keys clk (install_key m) zs s)) by naive_solver.
  apply (for_keys_inv (λ t s, t0 <= t ∧ scan_reserved t0 os_write_lock s)) with (t := t); [| |done|done].
  - intros t1 now t2 s1 [[k b] o] _ Hrd [Ht1 Hs1]. pose proof (rd_lo _ _ _ Hrd 0%nat).
    pose proof (rd_hi _ _ _ Hrd 0%nat). split; [lia|].
    apply (reserved_update _ _ _ _ (new_entry m o b (now 0%nat))); [|done].
    apply (lock_reserved t0 (now 0%nat) (ttl_new _)); [|lia]. by apply ttl_new_ok.
  - intros t1 t2 s1 ? [? ?]. split; [lia|done].
Qed.

Lemma read_reserved m clk t t' keys n : clock_from t clk t' → lock_inv t m →
  let '(ret, _, m') := reserve_read (Backend := Backend) m clk keys n in reserved t os_read_lock ret (lm_objects m').
Proof.
  intros Hc [Hwf Hen _]. simpl. eapply for_keys_reserved; [apply reserve_read_effect| |done|done|done|done|done].
  intros. by eapply reserve_read_reserved.
Qed.

Lemma write_reserved m clk clk2 t tm t' keys temps l mode ret ns m' :
  clock_from t clk tm → clock_from tm clk2 t' → lock_inv t m →
  reserve_write m clk clk2 keys temps l mode = Ok (ret, ns, m') → reserved t os_write_lock ret (lm_objects m').
Proof.
  intros Hc Hc2 [Hwf Hen [Hw Hr]]. unfold reserve_write.
  assert (scan_reserved t os_write_lock (for_keys clk (reserve_write_key mode) (zip keys temps)
            (scan_init (lm_objects m)))) as Hs.
  { eapply for_keys_reserved; [apply reserve_write_effect| |done|done|done|done|done].
    intros. by eapply reserve_write_reserved. }
  set (s := for_keys clk _ _ _) in *. clearbody s. pose proof (clock_from_le _ _ _ Hc).
  assert (∀ need s' mem, allocate_new m clk2 l need s = Ok (s', mem) →
            scan_reserved t os_write_lock s') as Halloc.
  { intros need s' mem. unfold allocate_new. destruct (mm_allocate _ _ _) as [[[err objs] mem1]|]; [|done].
    simpl. case_decide.
    - intros [= <- <-]. by eapply install_reserved.
    - destruct objs; [intros [= <- <-]; by apply fail_all_reserved|].
      destruct (mm_free mem1 _); [|done]. intros [= <- <-]. by apply fail_all_reserved. }
  destruct (sc_to_allocate s) as [|kt need]; [by intros [= <- <- <-]|].
  destruct mode; [|intros [= <- <- <-]; by apply (fail_all_reserved t os_write_lock (kt :: need) KEY_NOT_WRITABLE (sc_ret s))|];
    (destruct (allocate_new m clk2 l (kt :: need) s) as [[s' mem]|] eqn:E; [|done]);
    intros [= <- <- <-]; by apply (Halloc (kt :: need) s' mem).
Qed.

(** A reservation reported as successful is in force: the key maps to the
    returned memory object, and its read lock ([reserve_read],
    [finish_write_and_reserve_read]) or write lock ([reserve_write]) is held
    from the call until at least its start plus the lock's time to live. For
    the write-to-read handover of a prefetch this leaves no moment at which the
    object is unprotected. *)
Theorem reservations_hold m clk clk2 t tm t' keys n temps l mode :
  clock_from t clk tm → clock_from tm clk2 t' → lock_inv t m →
  (let '(ret, _, m') := reserve_read (Backend := Backend) m clk keys n in
     reserved t os_read_lock ret (lm_objects m')) ∧
  (let '(ret, _, m') := finish_write_and_reserve_read m clk keys n in
     reserved t os_read_lock ret (lm_objects m')) ∧
  (∀ ret ns m', reserve_write m clk clk2 keys temps l mode = Ok (ret, ns, m') →
     reserved t os_write_lock ret (lm_objects m')).
Proof.
  intros Hc Hc2 Hi. split_and!; [by eapply read_reserved| |intros; by eapply write_reserved].
  destruct Hi as [Hwf Hen _]. simpl. eapply for_keys_reserved;
    [apply finish_write_and_reserve_read_effect| |done|done|done|done|done].
  intros. by eapply finish_write_and_reserve_read_reserved.
Qed.

(** ** Runs *)

Record timed_op := mkTimedOp { to_op : l1_op; to_clk : nat → nat → Z; to_clk2 : nat → nat → Z }.

Fixpoint exec_all m (steps : list timed_op) : result (L1Manager K M Obj) :=
  match steps with
  | [] => Ok m
  | s :: steps => (m <-? exec_l1 m (to_clk s) (to_clk2 s) (to_op s); exec_all m steps)%py
  end.

(** The operations follow each other on one monotone clock. *)
Inductive timed : Z → list timed_op → Z → Prop :=
| timed_nil t t' : t <= t' → timed t [] t'
| timed_cons t s steps t1 t2 t' :
    clock_from t (to_clk s) t1 → clock_from t1 (to_clk2 s) t2 → timed t2 steps t' →
    timed t (s :: steps) t'.

Definition l1_init (mem : M) (write_ttl read_ttl : Z) : L1Manager K M Obj :=
  mkL1Manager [] mem write_ttl read_ttl.

Lemma l1_init_lock_inv t mem wt rt : 0 <= wt → 0 <= rt → lock_inv t (l1_init mem wt rt).
Proof. intros. constructor; simpl; [constructor| |done]. intros k e. done. Qed.

Lemma exec_all_lock_inv steps : ∀ m t t' m',
  timed t steps t' → lock_inv t m → exec_all m steps = Ok m' → lock_inv t' m'.
Proof.
  induction steps as [|s steps IH]; intros m t t' m' Ht Hinv Hex; inversion Ht as [|? ? ? ? ? ? Hc1 Hc2 Htl]; subst; simpl in Hex.
  - injection Hex as <-. destruct Hinv. constructor; eauto using entries_ok_mono.
  - destruct (exec_l1 m _ _ _) as [m1|] eqn:E; [|done]. simpl in Hex.
    eapply IH; [done| |done]. exact (exec_lock_inv _ _ _ _ _ _ _ _ Hc1 Hc2 Hinv E).
Qed.

(** C3. Readers and writers exclude each other. In every state the L1 manager
    reaches from an empty cache, by any sequence of operations on any keys
    whose clock readings are monotone, no object is read-locked and
    write-locked at the same time, now or later, and a write lock is never held
    twice. *)
Theorem read_write_exclusion steps t t' mem wt rt m k e t'' :
  0 <= wt → 0 <= rt → timed t steps t' → exec_all (l1_init mem wt rt) steps = Ok m →
  dget (lm_objects m) k = Some e → t' <= t'' →
  is_locked (os_write_lock e) t'' && is_locked (os_read_lock e) t'' = false ∧
  0 <= tl_counter (os_write_lock e) <= 1.
Proof.
  intros Hw Hr Ht Hex Hk Hle.
  pose proof (exec_all_lock_inv _ _ _ _ _ Ht (l1_init_lock_inv t mem wt rt Hw Hr) Hex) as [_ Hen _].
  destruct (entry_ok_mono _ _ _ Hle (Hen _ _ Hk)) as [[? ?] _ ? [-> | ->]];
    rewrite ?andb_false_r; (split; [done|lia]).
Qed.

Section memory_runs.
Context {MMS : MemoryManagerSpec M Obj Layout Backend}.

Lemma l1_init_mem_inv mem wt rt :
  mm_ok mem → (∀ o, ¬ mm_live mem o) → mem_inv (l1_init mem wt rt).
Proof.
  intros Hok Hnone. constructor; simpl; [done|constructor|]. intros o.
  split; [intros Hx; by destruct (Hnone o)|]. intros Hx. by apply not_elem_of_nil in Hx.
Qed.

Lemma exec_all_inv steps : ∀ m t t',
  timed t steps t' → lock_inv t m → mem_inv m → Forall (λ s, l1_op_wf (to_op s)) steps →
  ∃ m', exec_all m steps = Ok m' ∧ lock_inv t' m' ∧ mem_inv m'.
Proof.
  induction steps as [|s steps IH]; intros m t t' Ht Hli Hmi Hwf; inversion Ht as [|? ? ? ? ? ? Hc1 Hc2 Htl]; subst; simpl.
  - exists m. split_and!; [done| |done]. destruct Hli. constructor; eauto using entries_ok_mono.
  - apply Forall_cons in Hwf as [Hs Hwf].
    destruct (exec_mem_inv m _ _ (to_op s) _ _ _ Hc1 Hc2 Hli Hmi Hs) as (m1 & E & Hmi1). rewrite E. simpl.
    eapply IH; [done| |done|done]. exact (exec_lock_inv _ _ _ _ _ _ _ _ Hc1 Hc2 Hli E).
Qed.

(** C4. The cache neither leaks nor double-frees memory. Starting from an
    empty cache on a memory manager with nothing live, any timed sequence of
    operations (write reservations naming a key once and asking for valid
    layouts) runs without raising; afterwards distinct keys hold distinct
    memory objects, and a memory object is live exactly when some key of the
    cache holds it. *)
Theorem l1_memory_exact steps t t' mem wt rt :
  0 <= wt → 0 <= rt → mm_ok mem → (∀ o, ¬ mm_live mem o) → timed t steps t' →
  Forall (λ s, l1_op_wf (to_op s)) steps →
  ∃ m, exec_all (l1_init mem wt rt) steps = Ok m ∧
    (∀ k1 k2 e1 e2, dget (lm_objects m) k1 = Some e1 → dget (lm_objects m) k2 = Some e2 →
       os_memory_obj e1 = os_memory_obj e2 → k1 = k2) ∧
    (∀ o, mm_live (lm_memory_manager m) o ↔
          ∃ k e, dget (lm_objects m) k = Some e ∧ os_memory_obj e = o).
Proof.
  intros Hw Hr Hok Hnone Ht Hwf.
  destruct (exec_all_inv steps _ _ _ Ht (l1_init_lock_inv t mem wt rt Hw Hr)) as (m & -> & [Hdwf _ _] & [_ Hnd Hl]);
    [by apply l1_init_mem_inv|done|].
  exists m. split_and!; [done| |].
  - intros k1 k2 e1 e2 H1 H2 Hm. destruct (decide (k1 = k2)) as [|Hne]; [done|exfalso].
    unfold mem_objs in Hnd. rewrite (dvals_ddel _ _ _ Hdwf H1), fmap_cons in Hnd.
    apply NoDup_cons in Hnd as [Hn _]. apply Hn. rewrite Hm. apply list_elem_of_fmap. exists e2.
    split; [done|]. apply dget_fmap_Some with (k := k2). by rewrite dget_ddel_ne.
  - intros o. rewrite Hl. unfold mem_objs, dvals. rewrite list_elem_of_fmap. split.
    + intros (e & -> & ([k e'] & -> & Hin)%list_elem_of_fmap). exists k, e'.
      split; [by apply dget_wf_elem_of|done].
    + intros (k & e & Hk & <-). exists e. split; [done|]. by apply (dget_fmap_Some _ k).
Qed.

(** Naming a new key twice in one write reservation leaks memory: two
    objects are allocated, and afterwards the first is live but held by no key
    of the cache. (This is why the accounting theorem asks for distinct keys.) *)
Theorem reserve_write_duplicate_leaks mem wt rt clk clk2 k b l o1 o2 mem' :
  mm_allocate mem l 2 = Ok ((SUCCESS, [o1; o2]), mem') → o1 ≠ o2 → mm_live mem' o1 →
  ∃ ret ns m', reserve_write (l1_init mem wt rt) clk clk2 [k; k] [b; b] l ModeAll = Ok (ret, ns, m') ∧
    mm_live (lm_memory_manager m') o1 ∧
    (∀ k' e, dget (lm_objects m') k' = Some e → os_memory_obj e ≠ o1).
Proof.
  intros Ha Hne Hl. eexists _, _, _. split.
  - unfold reserve_write, allocate_new. cbn -[mm_allocate]. rewrite Ha. cbn. reflexivity.
  - split; [exact Hl|]. intros k' e. cbn. rewrite decide_True by done. cbn. case_decide; [|done].
    intros [= <-]. cbn. congruence.
Qed.

End memory_runs.

(** A write reservation that only re-locks existing keys reports nothing to
    the listeners, although they are told of keys reserved for write. *)
Theorem reserve_write_existing_not_notified m clk clk2 k e b l :
  dget (lm_objects m) k = Some e → available_for_write e (clk 0%nat) = true →
  ∃ m', reserve_write m clk clk2 [k] [b] l ModeAll
        = Ok ([(k, (SUCCESS, Some (os_memory_obj e)))], [], m').
Proof.
  intros Hk Ha. unfold reserve_write, for_keys, reserve_write_key. cbn.
  rewrite Hk, Ha. cbn. by eexists.
Qed.

(** An abandoned write becomes readable. When a new key is reserved for
    write and its writer never finishes, the key is not removed once the write
    lock expires: from that moment [reserve_read] succeeds on it and hands out
    the object that was never written. *)
Theorem expired_write_is_readable (m : L1Manager K M Obj) clk clk2 clk3 k b l o mem :
  dget (lm_objects m) k = None → 0 <= lm_write_ttl_seconds m →
  mm_allocate (lm_memory_manager m) l 1 = Ok ((SUCCESS, [o]), mem) →
  0 <= clk2 0%nat 0%nat → clk2 0%nat 0%nat + lm_write_ttl_seconds m * 1000 <= clk3 0%nat 0%nat →
  ∃ ret ns m', reserve_write m clk clk2 [k] [b] l ModeNew = Ok (ret, ns, m') ∧
    fst (fst (reserve_read (Backend := Backend) m' clk3 [k] 1)) = [(k, (SUCCESS, Some o))].
Proof.
  intros Hk Hw Ha Ht Hexp. eexists _, _, _. split.
  - unfold reserve_write, for_keys, reserve_write_key, allocate_new. cbn -[mm_allocate].
    rewrite Hk. cbn -[mm_allocate]. rewrite Ha. cbn. reflexivity.
  - unfold reserve_read, for_keys, reserve_read_key. cbn. rewrite dget_dset_eq.
    unfold available_for_read, new_entry, is_locked, lock. cbn.
    destruct (Z.leb_spec 0 (clk2 0%nat 0%nat)); [|lia]. cbn.
    rewrite (proj2 (Z.ltb_ge (clk3 0%nat 0%nat) _)) by lia. done.
Qed.

End proofs.
