(* ===== verification/L1Memory.v ===== *)
(** * L1Memory: the CPU memory manager implements the cache's interface

    Models [L1MemoryManager] of
    src/lmcache/v1/distributed/memory_manager/l1_memory_manager.py over the
    pinned pool of [MixedMemoryAllocator]
    (src/lmcache/v1/memory_allocators/mixed_memory_allocator.py), and proves
    that it satisfies [MemoryManagerSpec], the interface the L1 manager's
    theorems are proved against. The objects of the store are the pinned ones;
    [BINARY_BUFFER] objects are of another class and never in it. *)

From S2P Require Import Prelude PyDict AddressManager AddressSpace TensorAllocator.
From S2P Require Import TTLLock L1Manager L1ManagerProofs.
Local Open Scope Z_scope.

Definition pinned_formats : list MemoryFormat := [KV_2LTD; KV_2TD; KV_T2D; KV_MLA_FMT; EC_TD; HS_TD].
Definition pinned_format (f : MemoryFormat) : bool := bool_decide (f ∈ pinned_formats).

Inductive L1BackendType := DRAM.

Section l1_memory.
Context {SL : Type} {SLO : SortedListOps SL}.
Context {dtype : Type} (itemsize : dtype → Z).

Record MemoryLayoutDesc := mkLayout { ld_shapes : list Size; ld_dtypes : list dtype }.

(** [MixedMemoryAllocator.batched_free]: dispatch on the first object's format. *)
Definition mixed_batched_free (w : World SL dtype) (memory_objs : list nat)
  : result (World SL dtype) :=
  match memory_objs with
  | [] => Ok w
  | i :: _ =>
      match w_objs w !! i with
      | Some o => if pinned_format (md_fmt (to_meta o)) then batched_free w memory_objs true
                  else Raise ValueError
      | None => batched_free w memory_objs true
      end
  end.

Definition l1mm_allocate (w : World SL dtype) (layout_desc : MemoryLayoutDesc) (count : nat)
  : result ((L1Error * list nat) * World SL dtype) :=
  (r <-? TensorAllocator.batched_allocate itemsize w (inr (ld_shapes layout_desc))
           (inr (ld_dtypes layout_desc)) (Z.of_nat count) KV_2LTD;
   match r with
   | (None, w) => Ok ((OUT_OF_MEMORY, []), w)
   | (Some objects, w) => Ok ((SUCCESS, objects), w)
   end)%py.

Definition l1mm_free (w : World SL dtype) (mem_objs : list nat) : result (World SL dtype) :=
  mixed_batched_free w mem_objs.

Definition l1mm_get_memory_usage (w : World SL dtype) : Z * Z :=
  let address_manager := ta_address_manager (w_alloc w) in
  let free_size := get_free_size address_manager in
  let total_size := get_heap_size address_manager in
  (total_size - free_size, total_size).

#[export] Instance l1_memory_manager : MemoryManager (World SL dtype) nat MemoryLayoutDesc L1BackendType := {
  mm_allocate := l1mm_allocate;
  mm_free := l1mm_free;
  mm_get_size w i := match w_objs w !! i with Some o => TensorAllocator.get_size o | None => 0 end;
  mm_get_backend_type _ _ := DRAM;
  mm_get_memory_usage := l1mm_get_memory_usage;
  mm_memcheck w := TensorAllocator.memcheck (w_alloc w) }.

Context {SLS : SortedListSpec SL}.

Definition all_pinned (objs : list (TensorMemoryObj dtype)) : Prop :=
  Forall (λ o, pinned_format (md_fmt (to_meta o)) = true) objs.

Definition live_obj (w : World SL dtype) (i : nat) : Prop :=
  ∃ o, w_objs w !! i = Some o ∧ to_valid o = true.

Lemma new_objects_fmt shapes dtypes size fmt slices : ∀ os,
  new_objects itemsize shapes dtypes size fmt slices = Ok os → Forall (λ o, md_fmt (to_meta o) = fmt) os.
Proof.
  induction slices as [|[raw a] slices IH]; intros os Hos; simpl in Hos; [by injection Hos as <-|].
  destruct (new_metadata shapes dtypes a size fmt) as [meta|] eqn:Em; [|done]. simpl in Hos.
  destruct (tmo_init itemsize raw meta true) as [o|] eqn:Eo; [|done]. simpl in Hos.
  destruct (new_objects itemsize shapes dtypes size fmt slices) as [os'|]; [|done].
  injection Hos as <-. constructor; [|by apply IH].
  assert (md_fmt meta = fmt) as <-.
  { unfold new_metadata in Em. destruct shapes, dtypes; try done. by injection Em as <-. }
  unfold tmo_init in Eo. destruct (md_dtype meta); [|done]. simpl in Eo.
  destruct (md_shapes meta), (md_dtypes meta);
    repeat match type of Eo with context [rbind ?x _] => destruct x; [|done]; simpl in Eo end;
    by injection Eo as <-.
Qed.

Lemma invalidate_all_lookup ids (objs : list (TensorMemoryObj dtype)) i :
  invalidate_all ids objs !! i
  = if decide (i ∈ ids) then invalidate <$> objs !! i else objs !! i.
Proof.
  induction ids as [|j ids IH]; [done|]. cbn [invalidate_all foldr].
  rewrite list_lookup_alter. fold (invalidate_all ids objs).
  destruct (decide (j = i)) as [->|Hne].
  - rewrite (decide_True (P := i ∈ i :: ids)) by left. rewrite IH.
    case_decide; [|done]. by destruct (objs !! i).
  - rewrite IH. destruct (decide (i ∈ ids)), (decide (i ∈ j :: ids)); try done; set_solver.
Qed.

Lemma invalidate_all_pinned ids (objs : list (TensorMemoryObj dtype)) :
  all_pinned objs → all_pinned (invalidate_all ids objs).
Proof.
  intros H. induction ids as [|i ids IH]; [done|]. cbn [invalidate_all foldr].
  apply Forall_alter; [exact IH|]. done.
Qed.

Lemma mixed_batched_free_eq w ids :
  all_pinned (w_objs w) → mixed_batched_free w ids = batched_free w ids true.
Proof.
  intros Hp. destruct ids as [|i ids]; [done|]. unfold mixed_batched_free.
  destruct (w_objs w !! i) as [o|] eqn:E; [|done].
  unfold all_pinned in Hp. rewrite Forall_lookup in Hp. by rewrite (Hp _ _ E).
Qed.

Lemma l1mm_allocate_pinned w shapes dtypes k r :
  all_pinned (w_objs w) →
  TensorAllocator.batched_allocate itemsize w shapes dtypes k KV_2LTD = Ok r → all_pinned (w_objs (snd r)).
Proof.
  intros Hp. unfold TensorAllocator.batched_allocate.
  destruct (_adapt_shapes_and_dtypes shapes dtypes) as [[sh dt]|]; [|done]. cbn [rbind fst snd].
  destruct (get_size_bytes itemsize sh dt) as [n|]; [|done]. cbn [rbind].
  destruct (AddressManager.batched_allocate _ _ _) as [[rs am]|[]]; try done; [|by intros [= <-]].
  destruct (new_objects _ _ _ _ _ _) as [os|] eqn:Eo; [|done]. cbn [rbind]. intros [= <-]. simpl.
  apply Forall_app. split; [done|]. eapply Forall_impl; [by eapply new_objects_fmt|].
  intros o ->. done.
Qed.

Lemma l1mm_allocate_spec w (l : MemoryLayoutDesc) n sz :
  world_ok w → all_pinned (w_objs w) →
  request_size itemsize (inr (ld_shapes l)) (inr (ld_dtypes l)) = Ok sz → 0 < sz →
  (∃ os w', l1mm_allocate w l n = Ok ((SUCCESS, os), w') ∧ (world_ok w' ∧ all_pinned (w_objs w')) ∧
     length os = n ∧ NoDup os ∧ (∀ i, i ∈ os → ¬ live_obj w i) ∧
     (∀ i, live_obj w' i ↔ i ∈ os ∨ live_obj w i)) ∨
  l1mm_allocate w l n = Ok ((OUT_OF_MEMORY, []), w).
Proof.
  intros Hw Hp Hsz Hpos. unfold l1mm_allocate.
  pose proof (batched_allocate_spec itemsize w _ _ KV_2LTD sz (Z.of_nat n) Hw Hsz Hpos ltac:(lia)) as H.
  cbv zeta in H. destruct (_ <=? _); [left|right; by rewrite H].
  destruct H as (os & w' & E & Hw' & Ho & Hlen & Hf). rewrite E. simpl. eexists _, w'.
  split_and!; [done|done..| | | | |].
  - by apply (l1mm_allocate_pinned _ _ _ _ _ Hp E).
  - rewrite length_seq. lia.
  - apply NoDup_seq.
  - intros i Hi%elem_of_seq (o & Hio & _). apply lookup_lt_Some in Hio. lia.
  - intros i. unfold live_obj. rewrite Ho. split.
    + intros (o & Hio & Hv). apply lookup_app_Some in Hio as [Hio|[Hge Hio]]; [right; by exists o|].
      left. apply elem_of_seq. apply lookup_lt_Some in Hio. lia.
    + intros [Hi|(o & Hio & Hv)].
      * apply elem_of_seq in Hi. destruct (lookup_lt_is_Some_2 os (i - length (w_objs w))) as [o Hio]; [lia|].
        exists o. rewrite lookup_app_r by lia. split; [done|].
        rewrite Forall_lookup in Hf. by destruct (Hf _ _ Hio).
      * exists o. by rewrite (lookup_app_l_Some _ _ _ _ Hio).
Qed.

Lemma l1mm_free_spec w ids :
  world_ok w → all_pinned (w_objs w) →
  ∃ w', l1mm_free w ids = Ok w' ∧ (world_ok w' ∧ all_pinned (w_objs w')) ∧
    (∀ i, live_obj w' i ↔ live_obj w i ∧ i ∉ ids).
Proof.
  intros Hw Hp. unfold l1mm_free. rewrite mixed_batched_free_eq by done.
  destruct (batched_free_spec w ids true Hw) as (w' & -> & Hw' & Ho & _). exists w'.
  split_and!; [done|done..| |].
  - rewrite Ho. by apply invalidate_all_pinned.
  - intros i. unfold live_obj. rewrite Ho, invalidate_all_lookup. case_decide as Hi.
    + split; [|naive_solver]. intros (o & Hio & Hv). destruct (w_objs w !! i); [|done].
      simpl in Hio. injection Hio as <-. done.
    + naive_solver.
Qed.

#[export] Instance l1_memory_manager_spec :
  MemoryManagerSpec (World SL dtype) nat MemoryLayoutDesc L1BackendType.
Proof.
  refine {| mm_ok w := world_ok w ∧ all_pinned (w_objs w);
            mm_layout_ok l := ∃ n, request_size itemsize (inr (ld_shapes l)) (inr (ld_dtypes l)) = Ok n ∧ 0 < n;
            mm_live := live_obj |}.
  - intros w l n [Hw Hp] (sz & Hsz & Hpos). by apply (l1mm_allocate_spec w l n sz).
  - intros w ids [Hw Hp]. by apply l1mm_free_spec.
Defined.

End l1_memory.

(** ** Witnesses: the cache over the allocator stack *)

Module Demo.

#[local] Instance demo_mm :
  MemoryManager (World ListSortedList.t unit) nat (MemoryLayoutDesc (dtype := unit)) L1BackendType :=
  l1_memory_manager bf16_size.
#[local] Instance demo_mms :
  MemoryManagerSpec (World ListSortedList.t unit) nat (MemoryLayoutDesc (dtype := unit)) L1BackendType :=
  l1_memory_manager_spec bf16_size.

Definition layout : MemoryLayoutDesc (dtype := unit) := mkLayout [[2; 3; 100]] [tt].

Definition at_time (t : Z) : nat → nat → Z := λ _ _, t.

Lemma at_time_clock t : clock_from t (at_time t) t.
Proof. constructor; unfold at_time; intros; lia. Defined.

Definition step (t : Z) (op : l1_op (K := nat) (Layout := MemoryLayoutDesc (dtype := unit))) : timed_op :=
  mkTimedOp op (at_time t) (at_time t).

Definition steps : list (timed_op (K := nat) (Layout := MemoryLayoutDesc (dtype := unit))) :=
  [step 5 (OpReserveWrite [1; 2]%nat [false; true] layout ModeAll);
   step 5 (OpFinishWrite [1]%nat); step 5 (OpFinishWriteAndReserveRead [2]%nat 2);
   step 5 (OpReserveRead [1]%nat 1); step 5 (OpDelete [1; 2]%nat false);
   step 5 (OpFinishRead [2]%nat 2)].

Lemma steps_timed : timed 5 steps 5.
Proof.
  repeat (eapply timed_cons; [apply at_time_clock|apply at_time_clock|]). apply timed_nil. lia.
Defined.

Lemma steps_wf : Forall (λ s, l1_op_wf (to_op s)) steps.
Proof.
  apply Forall_cons. split.
  - split; [eexists; split; [vm_compute; reflexivity|lia]|].
    apply (bool_decide_unpack _). vm_compute. exact I.
  - repeat (apply Forall_cons; split; [exact I|]). constructor.
Defined.

Definition cache0 : L1Manager nat (World ListSortedList.t unit) nat := l1_init demo_world 60 60.

(** The cache after the first four steps: key 1 and key 2 read-locked. *)
Definition cache4 : L1Manager nat (World ListSortedList.t unit) nat :=
  match exec_all cache0 (take 4 steps) with Ok m => m | Raise _ => cache0 end.

Lemma cache4_lock_inv : lock_inv 5 cache4.
Proof.
  assert (exec_all cache0 (take 4 steps) = Ok cache4) as E by (vm_compute; reflexivity).
  eapply exec_all_lock_inv; [|apply (l1_init_lock_inv 5 demo_world 60 60); lia|exact E].
  repeat (eapply timed_cons; [apply at_time_clock|apply at_time_clock|]). apply timed_nil. lia.
Qed.

Lemma l1_memory_exact_witness :
  ∃ m, exec_all cache0 steps = Ok m ∧ dkeys (lm_objects m) = [1%nat] ∧ live_obj (lm_memory_manager m) 0.
Proof.
  destruct (l1_memory_exact steps 5 5 demo_world 60 60) as (m & E & _ & Hl).
  - lia.
  - lia.
  - split; [exact demo_world_ok|constructor].
  - intros o (x & Hx & _). discriminate Hx.
  - exact steps_timed.
  - exact steps_wf.
  - exists m. split; [exact E|].
    assert (m = match exec_all cache0 steps with Ok m => m | Raise _ => cache0 end) as Em
      by (unfold cache0; rewrite E; reflexivity).
    split; [rewrite Em; vm_compute; reflexivity|].
    apply Hl. exists 1%nat. eexists. rewrite Em. split; vm_compute; reflexivity.
Defined.

Lemma read_write_exclusion_witness :
  ∃ e, dget (lm_objects cache4) 1%nat = Some e ∧
    is_locked (os_write_lock e) 6 && is_locked (os_read_lock e) 6 = false ∧
    0 <= tl_counter (os_write_lock e) <= 1.
Proof.
  destruct (dget (lm_objects cache4) 1%nat) as [e|] eqn:He; [|vm_compute in He; discriminate He].
  exists e. split; [reflexivity|].
  refine (read_write_exclusion (take 4 steps) 5 5 demo_world 60 60 cache4 1%nat e 6 _ _ _ _ He _);
    [lia|lia| |vm_compute; reflexivity|lia].
  repeat (eapply timed_cons; [apply at_time_clock|apply at_time_clock|]). apply timed_nil. lia.
Defined.

Lemma locked_objects_survive_witness :
  ∃ e e' m', dget (lm_objects cache4) 1%nat = Some e ∧
    exec_l1 cache4 (at_time 7) (at_time 7) (OpDelete [1; 2]%nat false) = Ok m' ∧
    dget (lm_objects m') 1%nat = Some e' ∧ os_memory_obj e' = os_memory_obj e.
Proof.
  destruct (exec_l1 cache4 (at_time 7) (at_time 7) (OpDelete [1; 2]%nat false)) as [m'|] eqn:E;
    [|vm_compute in E; discriminate E].
  destruct (dget (lm_objects cache4) 1%nat) as [e|] eqn:Ee; [|vm_compute in Ee; discriminate Ee].
  destruct (locked_objects_survive cache4 (at_time 7) (at_time 7) (OpDelete [1; 2]%nat false) 5 7 7 m' 1%nat e)
    as (e' & H1 & H2).
  - constructor; unfold at_time; intros; lia.
  - apply at_time_clock.
  - exact cache4_lock_inv.
  - reflexivity.
  - exact E.
  - exact Ee.
  - vm_compute in Ee. injection Ee as <-. vm_compute. reflexivity.
  - exists e, e', m'. repeat split; assumption.
Defined.

Lemma reservations_hold_witness :
  reserved 5 os_read_lock
    (fst (fst (reserve_read (Backend := L1BackendType) cache4 (at_time 5) [1]%nat 3)))
    (lm_objects (snd (reserve_read (Backend := L1BackendType) cache4 (at_time 5) [1]%nat 3))).
Proof.
  exact (proj1 (reservations_hold cache4 (at_time 5) (at_time 5) 5 5 5 [1]%nat 3 [] layout ModeAll
                  (at_time_clock 5) (at_time_clock 5) cache4_lock_inv)).
Defined.

Lemma reserve_write_duplicate_leaks_witness :
  ∃ ret ns m', reserve_write cache0 (at_time 5) (at_time 5) [7; 7]%nat [false; false] layout ModeAll
               = Ok (ret, ns, m') ∧ live_obj (lm_memory_manager m') 0 ∧
    (∀ k' e, dget (lm_objects m') k' = Some e → os_memory_obj e ≠ 0%nat).
Proof.
  destruct (mm_allocate demo_world layout 2) as [[[err os] mem']|] eqn:E; [|vm_compute in E; discriminate E].
  assert (err = SUCCESS ∧ os = [0; 1]%nat ∧ live_obj mem' 0) as (-> & -> & Hl).
  { vm_compute in E. injection E as <- <- <-. repeat split. eexists. split; reflexivity. }
  exact (reserve_write_duplicate_leaks demo_world 60 60 (at_time 5) (at_time 5) 7%nat false layout
           0%nat 1%nat mem' E (Nat.neq_succ_diag_r 0) Hl).
Defined.

(** Reserved at time 5 with a time to live of 60 s; read at 60005 ms. *)
Lemma expired_write_is_readable_witness :
  ∃ ret ns m', reserve_write cache0 (at_time 5) (at_time 5) [7]%nat [false] layout ModeNew
               = Ok (ret, ns, m') ∧
    fst (fst (reserve_read (Backend := L1BackendType) m' (at_time 60005) [7]%nat 1))
      = [(7%nat, (SUCCESS, Some 0%nat))].
Proof.
  destruct (mm_allocate demo_world layout 1) as [[[err os] mem']|] eqn:E; [|vm_compute in E; discriminate E].
  assert (err = SUCCESS ∧ os = [0]%nat) as (-> & ->).
  { vm_compute in E. injection E as <- <- _. repeat split. }
  refine (expired_write_is_readable cache0 (at_time 5) (at_time 5) (at_time 60005) 7%nat false layout
            0%nat mem' _ _ E _ _); unfold at_time; simpl; first [reflexivity|lia].
Defined.

End Demo.
