(* ===== verification/StorageEngine.v ===== *)
(** * Writing and reading through the storage manager

    The calls of [storage_manager.py] that go straight to the L1 manager: the
    serving engine reserves objects, fills them and finishes the write; later it
    reads what a lookup has locked, inside a context manager, and releases it.
    The state is the L1 manager's; the events the storage manager publishes are
    returned beside the notifications of the L1 manager. Clocks are those of the
    L1 operations. *)

From S2P Require Import Prelude PyDict PyState AddressManager AddressSpace TensorAllocator TTLLock L1Manager L1ManagerProofs L1Memory.
Local Open Scope Z_scope.

Section engine.
Context {K : Type} `{EqDecision K}.
Context {M Obj Layout Backend : Type} {MMO : MemoryManager M Obj Layout Backend}.
Abbreviation Cache := (L1Manager K M Obj).
Abbreviation Note := (note (K := K) (Backend := Backend)).

Inductive l1_read_failure := read_not_found | read_write_locked.

Inductive engine_event :=
| SM_WRITE_RESERVED (succeeded_keys failed_keys : list K)
| SM_ALLOCATION_FAILED (keys : list K)                (* L1_ALLOCATION_FAILED during l1_store *)
| SM_WRITE_FINISHED (succeeded_keys failed_keys : list K)
| SM_READ_FAILED (reason : l1_read_failure) (keys : list K)   (* L1_READ_FAILED during l1_retrieve *)
| SM_READ_PREFETCHED_FINISHED (succeeded_keys failed_keys : list K).

(** the keys of a result dictionary whose error satisfies [p] *)
Definition keys_with {R} (p : R → bool) (ret : list (K * R)) : list K := fst <$> List.filter (λ ke, p (snd ke)) ret.
Definition is_error (e e' : L1Error) : bool := bool_decide (e' = e).

Definition sm_reserve_write (m : Cache) (clk clk2 : nat → nat → Z) (keys : list K) (layout : Layout) (mode : WriteMode)
  : result (list (K * Obj) * list engine_event * list Note * Cache) :=
  (r <-? reserve_write m clk clk2 keys (replicate (length keys) false) layout mode;
   let '(reserve_result, notes, m) := r in
   let result := omap (λ ke, (λ o, (fst ke, o)) <$> snd (snd ke)) reserve_result in
   let failed_keys := keys_with (λ eo, match snd eo with None => true | Some _ => false end) reserve_result in
   let oom_keys := keys_with (λ eo, is_error OUT_OF_MEMORY (fst eo)) reserve_result in
   Ok (result,
       SM_WRITE_RESERVED (dkeys result) failed_keys :: (if nonempty oom_keys then [SM_ALLOCATION_FAILED oom_keys] else []),
       notes, m))%py.

Definition sm_finish_write (m : Cache) (clk : nat → nat → Z) (keys : list K) : list engine_event * list Note * Cache :=
  let '(finish_result, notes, m) := finish_write m clk keys in
  ([SM_WRITE_FINISHED (keys_with (is_error SUCCESS) finish_result)
      (keys_with (λ e, negb (is_error SUCCESS e)) finish_result)], notes, m).

(** ** The read context *)

Record read_context := mkReadContext {
  rc_good_keys : list K;
  rc_good_objs : list Obj;
  rc_bad_keys : list K;
  rc_not_found_keys : list K;
  rc_write_locked_keys : list K;
  rc_all_good : bool }.

Fixpoint read_results_loop (read_results : list (K * (L1Error * option Obj))) (c : read_context) : read_context :=
  match read_results with
  | [] => c
  | (k, (e, None)) :: read_results =>
      read_results_loop read_results
        (mkReadContext (rc_good_keys c) (rc_good_objs c) (rc_bad_keys c ++ [k])
           (rc_not_found_keys c ++ if is_error KEY_NOT_EXIST e then [k] else [])
           (rc_write_locked_keys c ++ if negb (is_error KEY_NOT_EXIST e) && is_error KEY_NOT_READABLE e then [k] else [])
           false)
  | (k, (e, Some o)) :: read_results =>
      read_results_loop read_results
        (mkReadContext (rc_good_keys c ++ [k]) (rc_good_objs c ++ [o]) (rc_bad_keys c) (rc_not_found_keys c)
           (rc_write_locked_keys c) (rc_all_good c))
  end.

(** up to the [yield]: what is yielded, and the events published before *)
Definition read_prefetched_enter (m : Cache) (clk : nat → nat → Z) (keys : list K)
  : option (list Obj) * read_context * list engine_event :=
  let c := read_results_loop (unsafe_read m clk keys) (mkReadContext [] [] [] [] [] true) in
  (if rc_all_good c then Some (rc_good_objs c) else None, c,
   (if nonempty (rc_not_found_keys c) then [SM_READ_FAILED read_not_found (rc_not_found_keys c)] else [])
   ++ (if nonempty (rc_write_locked_keys c) then [SM_READ_FAILED read_write_locked (rc_write_locked_keys c)] else [])).

(** the [finally] block; [raised] says that the caller's block raised *)
Definition read_prefetched_exit (m : Cache) (clk : nat → nat → Z) (c : read_context) (raised : bool)
  : result (list engine_event * list Note * Cache) :=
  if negb (rc_all_good c) || raised then
    (r <-? finish_read m clk (rc_good_keys c) 1;
     let '(_, notes, m) := r in
     Ok ([SM_READ_PREFETCHED_FINISHED (rc_good_keys c) (rc_bad_keys c)], notes, m))%py
  else Ok ([], [], m).

Definition finish_read_prefetched (m : Cache) (clk : nat → nat → Z) (keys : list K) (read_locks : Z)
  : result (list engine_event * list Note * Cache) :=
  (r <-? finish_read m clk keys read_locks;
   let '(finish_result, notes, m) := r in
   Ok ([SM_READ_PREFETCHED_FINISHED (keys_with (is_error SUCCESS) finish_result)
          (keys_with (λ e, negb (is_error SUCCESS e)) finish_result)], notes, m))%py.

(** ** Deleting, and reading without a context *)

Definition delete_l1_keys (m : Cache) (clk : nat → nat → Z) (keys : list K) (force : bool)
  : result ((Z * Z) * list Note * Cache) :=
  (r <-? delete m clk keys force;
   let '(results, notes, m) := r in
   Ok ((Z.of_nat (length (keys_with (is_error SUCCESS) results)),
        Z.of_nat (length (keys_with (is_error KEY_IS_LOCKED) results))), notes, m))%py.

Fixpoint unsafe_read_loop (read_results : list (K * (L1Error * option Obj))) (keys : list K) : list K * list Obj :=
  match keys with
  | [] => ([], [])
  | key :: keys =>
      let '(good_keys, good_objs) := unsafe_read_loop read_results keys in
      match default (KEY_NOT_EXIST, None) (dget read_results key) with
      | (SUCCESS, Some o) => (key :: good_keys, o :: good_objs)
      | _ => (good_keys, good_objs)
      end
  end.
Definition sm_unsafe_read (m : Cache) (clk : nat → nat → Z) (keys : list K) : list K * list Obj :=
  unsafe_read_loop (unsafe_read m clk keys) keys.
End engine.

(** ** Key by key *)

Section keywise.
Context {K : Type} `{EqDecision K}.
Context {M Obj Layout Backend : Type} {MMO : MemoryManager M Obj Layout Backend}.
Implicit Types (m : L1Manager K M Obj) (e : L1ObjectState Obj).

(** a loop body that answers for its key and touches no other entry *)
Definition keywise {R} (body : (nat → Z) → scan K Obj R → K → scan K Obj R) : Prop :=
  ∀ now s a, (∃ r, sc_ret (body now s a) = dset (sc_ret s) a r) ∧
    ∀ k, k ≠ a → dget (sc_objects (body now s a)) k = dget (sc_objects s) k.

Lemma scan_fail_keywise {R} (s : scan K Obj R) a r :
  (∃ r', sc_ret (scan_fail s a r) = dset (sc_ret s) a r') ∧ ∀ k, k ≠ a → dget (sc_objects (scan_fail s a r)) k = dget (sc_objects s) k.
Proof. split; [by eexists|done]. Qed.

Lemma scan_update_keywise {R} (s : scan K Obj R) a e r :
  (∃ r', sc_ret (scan_update s a e r) = dset (sc_ret s) a r') ∧ ∀ k, k ≠ a → dget (sc_objects (scan_update s a e r)) k = dget (sc_objects s) k.
Proof. split; [by eexists|]. intros k Hk. cbn. by rewrite dget_dset_ne. Qed.

Lemma reserve_read_keywise total : keywise (reserve_read_key total).
Proof.
  intros now s a. unfold reserve_read_key. destruct (dget _ a); [destruct (negb _)|];
    apply scan_fail_keywise || apply scan_update_keywise.
Qed.

Lemma unsafe_read_keywise : keywise unsafe_read_key.
Proof. intros now s a. unfold unsafe_read_key. destruct (dget _ a); [destruct (negb _)|]; apply scan_fail_keywise. Qed.

Lemma finish_write_keywise : keywise finish_write_key.
Proof.
  intros now s a. unfold finish_write_key. destruct (dget _ a); [destruct (negb _); [|destruct (is_locked _ _)]|];
    apply scan_fail_keywise || apply scan_update_keywise.
Qed.

Lemma readings_weaken t now t1 t' : t1 <= t' → readings t now t1 → readings t now t'.
Proof. intros Ht []. constructor; try done. intros j. specialize (rd_hi j). lia. Qed.

Lemma readings_later t t1 now t' : t <= t1 → readings t1 now t' → readings t now t'.
Proof. intros Ht []. constructor; try done. intros j. specialize (rd_lo j). lia. Qed.

Section loop.
Context {R : Type} (body : (nat → Z) → scan K Obj R → K → scan K Obj R) (Hbody : keywise body).

Lemma keywise_ret now s a k : k ≠ a → dget (sc_ret (body now s a)) k = dget (sc_ret s) k.
Proof. intros Hk. destruct (Hbody now s a) as [[r ->] _]. by rewrite dget_dset_ne. Qed.

Lemma for_keys_other keys k : k ∉ keys → ∀ clk s,
  dget (sc_objects (for_keys clk body keys s)) k = dget (sc_objects s) k ∧
  dget (sc_ret (for_keys clk body keys s)) k = dget (sc_ret s) k.
Proof.
  induction keys as [|a keys IH]; intros Hk clk s; [done|]. apply not_elem_of_cons in Hk as [Hne Hk]. rewrite for_keys_cons.
  destruct (IH Hk (λ i, clk (S i)) (body (clk 0%nat) s a)) as [-> ->]. destruct (Hbody (clk 0%nat) s a) as [_ Ho].
  by rewrite Ho, keywise_ret.
Qed.

(** the entry and the answer for [k] come from its own turn *)
Lemma for_keys_at keys k : NoDup keys → k ∈ keys → ∀ t clk t' s, clock_from t clk t' →
  ∃ now s1, readings t now t' ∧ dget (sc_objects s1) k = dget (sc_objects s) k ∧
    dget (sc_objects (for_keys clk body keys s)) k = dget (sc_objects (body now s1 k)) k ∧
    dget (sc_ret (for_keys clk body keys s)) k = dget (sc_ret (body now s1 k)) k.
Proof.
  induction 1 as [|a keys Hn _ IH]; intros Hk t clk t' s Hc; [by apply not_elem_of_nil in Hk|]. rewrite for_keys_cons.
  destruct (clock_from_shift _ _ _ Hc) as [Hr Hc']. pose proof (clock_from_le _ _ _ Hc') as Hle.
  apply elem_of_cons in Hk as [->|Hk].
  - exists (clk 0%nat), s. destruct (for_keys_other keys a Hn (λ i, clk (S i)) (body (clk 0%nat) s a)) as [-> ->].
    split_and!; try done. by eapply readings_weaken.
  - destruct (IH Hk _ _ _ (body (clk 0%nat) s a) Hc') as (now & s1 & Hr1 & Ho & E1 & E2). exists now, s1. split_and!; try done.
    + eapply readings_later; [|exact Hr1]. pose proof (rd_lo _ _ _ Hr 0%nat). pose proof (rd_hi _ _ _ Hr 0%nat). lia.
    + rewrite Ho. destruct (Hbody (clk 0%nat) s a) as [_ Hx]. apply Hx. by intros ->.
Qed.

(** answers come in the order of the keys *)
Lemma for_keys_dkeys keys : ∀ clk s, NoDup (dkeys (sc_ret s) ++ keys) →
  dkeys (sc_ret (for_keys clk body keys s)) = dkeys (sc_ret s) ++ keys.
Proof.
  induction keys as [|a keys IH]; intros clk s Hnd; [by rewrite app_nil_r|]. rewrite for_keys_cons.
  destruct (Hbody (clk 0%nat) s a) as [[r Er] _].
  assert (dkeys (sc_ret (body (clk 0%nat) s a)) = dkeys (sc_ret s) ++ [a]) as Ek.
  { rewrite Er, dkeys_dset_new; [unfold dkeys; by rewrite fmap_app|]. apply dget_None_dkeys. intros Hin.
    apply NoDup_app in Hnd as (_ & Hd & _). apply (Hd a Hin). left. }
  rewrite IH; rewrite Ek, <- app_assoc; done.
Qed.
End loop.
End keywise.

(** ** What was written is what is read *)

Section roundtrip.
Context {K : Type} `{EqDecision K}.
Context {M Obj Layout Backend : Type} {MMO : MemoryManager M Obj Layout Backend}.
Implicit Types (m : L1Manager K M Obj) (e : L1ObjectState Obj).

Lemma for_keys_pres {R A} (P : scan K Obj R → Prop) (body : (nat → Z) → scan K Obj R → A → scan K Obj R) keys :
  (∀ now s a, P s → P (body now s a)) → ∀ clk s, P s → P (for_keys clk body keys s).
Proof.
  intros Hb. induction keys as [|a keys IH]; intros clk s Hs; [done|]. rewrite for_keys_cons. by apply IH, Hb.
Qed.

(** a result dictionary of reservations: an object means success *)
Definition answers_ok (ret : list (K * (L1Error * option Obj))) : Prop :=
  dwf ret ∧ ∀ k err o, dget ret k = Some (err, Some o) → err = SUCCESS.

Lemma answers_fail ret k err : answers_ok ret → answers_ok (dset ret k (err, None)).
Proof.
  intros [Hw Ha]. split; [by apply dset_wf|]. intros k' e' o. rewrite dget_dset. case_decide; [done|apply Ha].
Qed.

Lemma answers_success ret k o : answers_ok ret → answers_ok (dset ret k (SUCCESS, Some o)).
Proof.
  intros [Hw Ha]. split; [by apply dset_wf|]. intros k' e' o'. rewrite dget_dset. case_decide; [by intros [= <- _]|apply Ha].
Qed.

Lemma answers_fail_all need err ret : answers_ok ret → answers_ok (fail_all need (err, None) ret).
Proof. revert ret. induction need as [|kt need IH]; intros ret Hr; [done|]. cbn. by apply IH, answers_fail. Qed.

Lemma reserve_write_answers m clk clk2 keys temps l mode ret ns m' :
  reserve_write m clk clk2 keys temps l mode = Ok (ret, ns, m') → answers_ok ret.
Proof.
  unfold reserve_write. assert (answers_ok (sc_ret (for_keys clk (reserve_write_key mode) (zip keys temps) (scan_init (lm_objects m))))) as Hs.
  { apply (for_keys_pres (λ s, answers_ok (sc_ret s))); [|split; [exact NoDup_nil_2|done]].
    intros now s kt Hs. unfold reserve_write_key. destruct (dget _ kt.1); [|done].
    destruct mode; [by apply answers_fail|..]; (destruct (negb _); [by apply answers_fail|by apply answers_success]). }
  set (s := for_keys clk _ _ _) in *. clearbody s.
  assert (∀ need s' mem, allocate_new m clk2 l need s = Ok (s', mem) → answers_ok (sc_ret s')) as Halloc.
  { intros need s' mem. unfold allocate_new. destruct (mm_allocate _ _ _) as [[[err objs] mem1]|]; [|done]. cbn. case_decide.
    - intros [= <- <-]. apply (for_keys_pres (λ s, answers_ok (sc_ret s))); [|done].
      intros now s1 [[k b] o] H1. by apply answers_success.
    - destruct objs; [|destruct (mm_free mem1 _); [|done]]; intros [= <- <-]; by apply answers_fail_all. }
  destruct (sc_to_allocate s) as [|kt need]; [by intros [= <- <- <-]|].
  destruct mode; [|intros [= <- <- <-]; by apply (answers_fail_all (kt :: need))|];
    (destruct (allocate_new m clk2 l (kt :: need) s) as [[s' mem]|] eqn:E; [|done]); intros [= <- <- <-]; by eapply Halloc.
Qed.

Lemma written_object (ret : list (K * (L1Error * option Obj))) k o : answers_ok ret →
  dget (omap (λ ke, (λ o, (fst ke, o)) <$> snd (snd ke)) ret) k = Some o → dget ret k = Some (SUCCESS, Some o).
Proof.
  intros [Hw Ha] Hk. apply dget_elem_of, list_elem_of_omap in Hk as ([k' [err o']] & Hin & Heq). cbn in Heq.
  destruct o' as [o'|]; [|done]. injection Heq as -> ->. apply dget_wf_elem_of in Hin; [|done].
  by rewrite Hin, (Ha k err o Hin).
Qed.

(** ** One key of each operation *)

Lemma finish_write_one m clk t t' keys k e : lock_inv t m → clock_from t clk t' → NoDup keys → k ∈ keys →
  dget (lm_objects m) k = Some e → (∀ x, x <= t' → is_locked (os_write_lock e) x = true) →
  let '(ret, _, m') := finish_write m clk keys in
  dget ret k = Some SUCCESS ∧ dget (lm_objects m') k = Some (with_write_lock e (unlock (os_write_lock e))).
Proof.
  intros Hi Hc Hnd Hk He Hlock. cbn.
  destruct (for_keys_at _ finish_write_keywise keys k Hnd Hk t clk t' (scan_init (lm_objects m)) Hc) as (now & s1 & Hr & Ho & -> & ->).
  cbn in Ho. unfold finish_write_key. rewrite Ho, He. rewrite (Hlock (now 0%nat) (rd_hi _ _ _ Hr _)). cbn [negb].
  destruct (li_entries _ _ Hi k e He) as [_ _ _ [Hx|Hx]].
  - rewrite Hlock in Hx; [done|]. by eapply clock_from_le.
  - rewrite (is_locked_mono _ t) by (done || apply (rd_lo _ _ _ Hr)). cbn. by rewrite !dget_dset_eq.
Qed.

Lemma reserve_read_one m clk t t' keys n k e : lock_inv t m → clock_from t clk t' → NoDup keys → k ∈ keys →
  dget (lm_objects m) k = Some e → (∀ x, is_locked (os_write_lock e) x = false) →
  let '(ret, _, m') := reserve_read (Backend := Backend) m clk keys n in
  dget ret k = Some (SUCCESS, Some (os_memory_obj e)) ∧
  ∃ e', dget (lm_objects m') k = Some e' ∧ os_memory_obj e' = os_memory_obj e ∧
    ∀ x, x < t + tl_ttl_ms (os_read_lock e) → is_locked (os_read_lock e') x = true.
Proof.
  intros Hi Hc Hnd Hk He Hfree. cbn.
  destruct (for_keys_at _ (reserve_read_keywise (_validate_read_locks n)) keys k Hnd Hk t clk t' (scan_init (lm_objects m)) Hc)
    as (now & s1 & Hr & Ho & -> & ->).
  cbn in Ho. unfold reserve_read_key, available_for_read. rewrite Ho, He, Hfree. cbn. rewrite !dget_dset_eq. split; [done|].
  eexists. split; [done|]. split; [done|]. cbn. destruct (validate_pos n) as [j ->]. intros x Hx.
  apply (lock_n_reserved t); [apply (li_entries _ _ Hi k e He)|intros i; apply (rd_lo _ _ _ Hr)|by rewrite lock_n_ttl].
Qed.

Lemma unsafe_read_one m clk t t' keys k e : clock_from t clk t' → NoDup keys → k ∈ keys →
  dget (lm_objects m) k = Some e → (∀ x, x <= t' → is_locked (os_read_lock e) x = true) →
  dget (unsafe_read m clk keys) k = Some (SUCCESS, Some (os_memory_obj e)).
Proof.
  intros Hc Hnd Hk He Hlock. unfold unsafe_read.
  destruct (for_keys_at _ unsafe_read_keywise keys k Hnd Hk t clk t' (scan_init (lm_objects m)) Hc) as (now & s1 & Hr & Ho & _ & ->).
  cbn in Ho. unfold unsafe_read_key. rewrite Ho, He, (Hlock (now 0%nat) (rd_hi _ _ _ Hr _)). cbn. by rewrite dget_dset_eq.
Qed.

(** ** The read context *)

Lemma read_loop_good (ret : list (K * (L1Error * option Obj))) : (∀ k r, (k, r) ∈ ret → is_Some (snd r)) → ∀ c,
  read_results_loop ret c = mkReadContext (rc_good_keys c ++ dkeys ret) (rc_good_objs c ++ omap (λ kr, snd (snd kr)) ret)
    (rc_bad_keys c) (rc_not_found_keys c) (rc_write_locked_keys c) (rc_all_good c).
Proof.
  induction ret as [|[k [err o]] ret IH]; intros Hs c; [destruct c; cbn; by rewrite !app_nil_r|].
  destruct (Hs k (err, o)) as [x Hx]; [left|]. cbn in Hx. subst o. cbn. rewrite IH by (intros k' r' Hin; apply (Hs k'); by right).
  cbn. by rewrite <- !app_assoc.
Qed.

Lemma omap_objects (ret : list (K * (L1Error * option Obj))) : (∀ k r, (k, r) ∈ ret → is_Some (snd r)) → ∀ i,
  omap (λ kr, snd (snd kr)) ret !! i = (ret !! i) ≫= λ kr, snd (snd kr).
Proof.
  induction ret as [|[k [err o]] ret IH]; intros Hs i; [done|]. destruct (Hs k (err, o)) as [x Hx]; [left|]. cbn in Hx. subst o.
  destruct i as [|i]; [done|]. cbn. apply IH. intros k' r' Hin. apply (Hs k'). by right.
Qed.

(** every key is locked: the objects are yielded in the order of the keys *)
Lemma read_enter_good m clk keys (obj : K → option Obj) : NoDup keys →
  (∀ k, k ∈ keys → ∃ o, obj k = Some o ∧ dget (unsafe_read m clk keys) k = Some (SUCCESS, Some o)) →
  ∃ objs c, read_prefetched_enter m clk keys = (Some objs, c, []) ∧ rc_all_good c = true ∧ rc_good_keys c = keys ∧
    rc_bad_keys c = [] ∧ length objs = length keys ∧ ∀ i k, keys !! i = Some k → objs !! i = obj k.
Proof.
  intros Hnd Hall. unfold read_prefetched_enter.
  assert (dkeys (unsafe_read m clk keys) = keys) as Hk by (apply (for_keys_dkeys _ unsafe_read_keywise keys clk (scan_init (lm_objects m))); done).
  set (ret := unsafe_read m clk keys) in *. assert (dwf ret) as Hwf by (unfold dwf; by rewrite Hk).
  assert (∀ k r, (k, r) ∈ ret → ∃ o, obj k = Some o ∧ r = (SUCCESS, Some o)) as Hr.
  { intros k r Hin. destruct (Hall k) as (o & Ho & Hg); [rewrite <- Hk; apply list_elem_of_fmap; by exists (k, r)|].
    apply dget_wf_elem_of in Hin; [|done]. rewrite Hg in Hin. injection Hin as <-. by exists o. }
  assert (∀ k r, (k, r) ∈ ret → is_Some (snd r)) as Hsome by (intros k r Hin; destruct (Hr k r Hin) as (o & _ & ->); by exists o).
  rewrite read_loop_good by done. cbn. eexists _, _. split; [done|]. cbn. split_and!; try done.
  - assert (length ret = length keys) as <- by (by rewrite <- Hk; unfold dkeys; rewrite length_fmap).
    clear -Hsome. induction ret as [|[k [err o]] ret IH]; [done|]. destruct (Hsome k (err, o)) as [x Hx]; [left|]. cbn in Hx. subst o.
    cbn. f_equal. apply IH. intros k' r' Hin. apply (Hsome k'). by right.
  - intros i k Hi. rewrite omap_objects by done. rewrite <- Hk in Hi. unfold dkeys in Hi. rewrite list_lookup_fmap in Hi.
    destruct (ret !! i) as [[k' r]|] eqn:E; [|done]. injection Hi as ->.
    destruct (Hr k r) as (o & -> & ->); [by eapply list_elem_of_lookup_2|]. done.
Qed.

Lemma finish_write_all m clk t t' keys : lock_inv t m → clock_from t clk t' → NoDup keys →
  (∀ k, k ∈ keys → ∃ e, dget (lm_objects m) k = Some e ∧ ∀ x, x <= t' → is_locked (os_write_lock e) x = true) →
  ∃ ns m', sm_finish_write m clk keys = ([SM_WRITE_FINISHED keys []], ns, m') ∧ lock_inv t' m' ∧
    ∀ k e, k ∈ keys → dget (lm_objects m) k = Some e → dget (lm_objects m') k = Some (with_write_lock e (unlock (os_write_lock e))).
Proof.
  intros Hi Hc Hnd Hall. unfold sm_finish_write.
  assert (∀ k e, k ∈ keys → dget (lm_objects m) k = Some e →
    dget (finish_write m clk keys).1.1 k = Some SUCCESS ∧
    dget (lm_objects (finish_write m clk keys).2) k = Some (with_write_lock e (unlock (os_write_lock e)))) as Hone.
  { intros k e Hk He. destruct (Hall k Hk) as (e' & He' & Hl). rewrite He in He'. injection He' as <-.
    pose proof (finish_write_one m clk t t' keys k e Hi Hc Hnd Hk He Hl) as H. by destruct (finish_write m clk keys) as [[ret ns] m']. }
  assert (lock_inv t' (finish_write m clk keys).2) as Hi'.
  { eapply lock_inv_scan; [done|]. eapply for_keys_ok; [apply finish_write_effect|done|by apply scan_init_ok]. }
  assert (dkeys (finish_write m clk keys).1.1 = keys) as Hk by (apply (for_keys_dkeys _ finish_write_keywise keys clk (scan_init (lm_objects m))); done).
  destruct (finish_write m clk keys) as [[ret ns] m']. cbn in *. exists ns, m'. split_and!; [|done|intros k e Hin He; by apply Hone].
  assert (∀ k err, (k, err) ∈ ret → err = SUCCESS) as Hs.
  { intros k err Hin. assert (k ∈ keys) as Hkk by (rewrite <- Hk; apply list_elem_of_fmap; by exists (k, err)).
    destruct (Hall k Hkk) as (e & He & _). destruct (Hone k e Hkk He) as [Hg _].
    apply dget_wf_elem_of in Hin; [congruence|]. unfold dwf. by rewrite (Hk : dkeys ret = keys). }
  assert (keys_with (is_error SUCCESS) ret = dkeys ret ∧ keys_with (λ err, negb (is_error SUCCESS err)) ret = []) as [-> ->]; [|by rewrite (Hk : dkeys ret = keys)].
  clear -Hs. induction ret as [|[k err] ret IH]; [done|]. rewrite (Hs k err) in * by left.
  destruct IH as [IH1 IH2]; [intros k' err' Hin; apply (Hs k'); by right|].
  split; [exact (f_equal (cons k) IH1)|exact IH2].
Qed.

(** C35: what the engine writes is what it reads back. Reserve distinct keys for
    writing and let every one be granted; finish the write before the write locks
    expire; look the keys up and read them before the read locks expire. Then the
    finished write is reported for all keys, the lookup grants every key, and the
    read yields, in the order of the keys, the very memory objects that were
    reserved for writing; leaving the read context normally changes nothing, so
    the read locks stay until they are released. *)
Theorem engine_write_read_roundtrip m c1 c2 c3 c4 c5 c6 t0 t1 t2 t3 t4 t5 keys layout mode n written ev ns m1 :
  clock_from t0 c1 t1 → clock_from t1 c2 t2 → clock_from t2 c3 t3 → clock_from t3 c4 t4 → clock_from t4 c5 t5 →
  lock_inv t0 m → NoDup keys →
  sm_reserve_write m c1 c2 keys layout mode = Ok (written, ev, ns, m1) →
  (∀ k, k ∈ keys → is_Some (dget written k)) →
  (∀ k e, dget (lm_objects m1) k = Some e →
     t3 < t0 + tl_ttl_ms (os_write_lock e) ∧ t5 < t3 + tl_ttl_ms (os_read_lock e)) →
  ∃ ns2 m2 found ns3 m3 objs c,
    sm_finish_write m1 c3 keys = ([SM_WRITE_FINISHED keys []], ns2, m2) ∧
    reserve_read (Backend := Backend) m2 c4 keys n = (found, ns3, m3) ∧
    (∀ k, k ∈ keys → ∃ o, dget written k = Some o ∧ dget found k = Some (SUCCESS, Some o)) ∧
    read_prefetched_enter m3 c5 keys = (Some objs, c, []) ∧ length objs = length keys ∧
    (∀ i k, keys !! i = Some k → objs !! i = dget written k) ∧
    read_prefetched_exit m3 c6 c false = Ok ([], [], m3).
Proof.
  intros H1 H2 H3 H4 H5 Hi Hnd Hw Hall Httl. unfold sm_reserve_write in Hw.
  destruct (reserve_write m c1 c2 keys _ layout mode) as [[[ret ns'] m1']|] eqn:E; [|done]. injection Hw as <- _ _ <-.
  pose proof (reserve_write_answers _ _ _ _ _ _ _ _ _ _ E) as Hans.
  pose proof (write_reserved _ _ _ _ _ _ _ _ _ _ _ _ _ H1 H2 Hi E) as Hres.
  pose proof (reserve_write_lock_inv _ _ _ _ _ _ _ _ _ _ _ H1 H2 Hi E) as Hi1. cbn in Hi1.
  set (written := omap _ ret) in *. pose proof (clock_from_le _ _ _ H5) as Ht45. pose proof (clock_from_le _ _ _ H4) as Ht34.
  assert (∀ k, k ∈ keys → ∃ e, dget (lm_objects m1') k = Some e ∧ dget written k = Some (os_memory_obj e) ∧
    (∀ x, x <= t3 → is_locked (os_write_lock e) x = true) ∧ t5 < t3 + tl_ttl_ms (os_read_lock e)) as Hent.
  { intros k Hk. destruct (Hall k Hk) as [o Ho]. destruct (Hres k (Some o) (written_object _ _ _ Hans Ho)) as (e & He & [= ->] & Hl).
    destruct (Httl k e He). exists e. split_and!; try done. intros x Hx. apply Hl. lia. }
  destruct (finish_write_all m1' c3 t2 t3 keys Hi1 H3 Hnd) as (ns2 & m2 & E2 & Hi2 & Hm2).
  { intros k Hk. destruct (Hent k Hk) as (e & He & _ & Hl & _). by exists e. }
  destruct (reserve_read (Backend := Backend) m2 c4 keys n) as [[found ns3] m3] eqn:E3.
  assert (∀ k, k ∈ keys → ∃ o, dget written k = Some o ∧ dget found k = Some (SUCCESS, Some o) ∧
    dget (unsafe_read m3 c5 keys) k = Some (SUCCESS, Some o)) as Hread.
  { intros k Hk. destruct (Hent k Hk) as (e & He & Hwk & Hl & Hr). exists (os_memory_obj e).
    pose proof (reserve_read_one m2 c4 t3 t4 keys n k _ Hi2 H4 Hnd Hk (Hm2 k e Hk He)) as H. rewrite E3 in H.
    destruct H as (Hf & e' & He' & Ho' & Hlk).
    { intros x. cbn. apply unlock_single_free; apply (li_entries _ _ Hi1 k e He). }
    split_and!; [done|done|]. rewrite (unsafe_read_one m3 c5 t4 t5 keys k e' H5 Hnd Hk He'); [by rewrite Ho'|].
    intros x Hx. apply Hlk. cbn. lia. }
  destruct (read_enter_good m3 c5 keys (dget written) Hnd) as (objs & c & E4 & Hg & _ & _ & Hlen & Hobjs).
  { intros k Hk. destruct (Hread k Hk) as (o & ? & _ & ?). by exists o. }
  exists ns2, m2, found, ns3, m3, objs, c. split_and!; try done.
  - intros k Hk. destruct (Hread k Hk) as (o & ? & ? & _). by exists o.
  - unfold read_prefetched_exit. by rewrite Hg.
Qed.
End roundtrip.

(** ** Two objects written and read over the allocator stack *)

Module EngineDemo.
#[local] Instance demo_mm :
  MemoryManager (World ListSortedList.t unit) nat (MemoryLayoutDesc (dtype := unit)) L1BackendType :=
  l1_memory_manager bf16_size.
Abbreviation Cache := (L1Manager nat (World ListSortedList.t unit) nat).

Definition written_run : result (list (nat * nat) * list engine_event * list note * Cache) :=
  sm_reserve_write Demo.cache0 (Demo.at_time 5) (Demo.at_time 5) [7; 3]%nat Demo.layout ModeNew.
Definition written : list (nat * nat) := match written_run with Ok (w, _, _, _) => w | Raise _ => [] end.
Definition cache1 : Cache := match written_run with Ok (_, _, _, m) => m | Raise _ => Demo.cache0 end.

Example written_objects : written = [(7, 0); (3, 1)]%nat.
Proof. vm_compute. reflexivity. Qed.

Lemma engine_write_read_roundtrip_witness : ∃ (m3 : Cache) objs c,
  read_prefetched_enter m3 (Demo.at_time 8) [7; 3]%nat = (Some objs, c, []) ∧ objs !! 1%nat = dget written 3%nat.
Proof.
  assert (clock_from 5 (Demo.at_time 5) 6) as C5 by (constructor; unfold Demo.at_time; intros; lia).
  assert (clock_from 6 (Demo.at_time 6) 6) as C6 by apply Demo.at_time_clock.
  assert (clock_from 6 (Demo.at_time 7) 7) as C7 by (constructor; unfold Demo.at_time; intros; lia).
  assert (clock_from 7 (Demo.at_time 8) 8) as C8 by (constructor; unfold Demo.at_time; intros; lia).
  assert (∃ ev ns, sm_reserve_write Demo.cache0 (Demo.at_time 5) (Demo.at_time 5) [7; 3]%nat Demo.layout ModeNew = Ok (written, ev, ns, cache1))
    as (ev & ns & E) by (vm_compute; do 2 eexists; reflexivity).
  destruct (engine_write_read_roundtrip Demo.cache0 (Demo.at_time 5) (Demo.at_time 5) (Demo.at_time 6) (Demo.at_time 7) (Demo.at_time 8)
    (Demo.at_time 9) 5 5 6 6 7 8 [7; 3]%nat Demo.layout ModeNew 2 written ev ns cache1)
    as (ns2 & m2 & found & ns3 & m3 & objs & c & _ & _ & _ & He & _ & Ho & _).
  - apply Demo.at_time_clock.
  - exact C5.
  - exact C6.
  - exact C7.
  - exact C8.
  - apply l1_init_lock_inv; lia.
  - apply (bool_decide_unpack _). vm_compute. exact I.
  - exact E.
  - intros k Hk. apply (proj1 (Forall_forall (λ k, is_Some (dget written k)) [7; 3]%nat)); [|exact Hk].
    repeat constructor; vm_compute; by eexists.
  - intros k e He. assert (Forall (λ ke, 6 < 5 + tl_ttl_ms (os_write_lock ke.2) ∧ 8 < 6 + tl_ttl_ms (os_read_lock ke.2)) (lm_objects cache1)) as Hf
      by (vm_compute; repeat constructor).
    apply (proj1 (Forall_forall _ _) Hf (k, e)). apply dget_elem_of. exact He.
  - exists m3, objs, c. split; [exact He|]. apply Ho. reflexivity.
Defined.
End EngineDemo.
