(* ===== verification/PyFloat.v ===== *)
(** * Python floats

    Ratios and watermarks are Python floats. They are modelled by the standard
    library's specification of IEEE 754 binary64 ([SpecFloat]); the model only
    needs comparison, the product with an integer, the quotient of two integers
    and truncation. *)

From Stdlib Require Import SpecFloat.
From S2P Require Import Prelude.
Local Open Scope Z_scope.

Definition prec : Z := 53.
Definition emax : Z := 1024.
Definition float := spec_float.

Definition float_of_int (z : Z) : float := binary_normalize prec emax z 0 false.
Definition float_0 : float := S754_zero false.
Definition float_1 : float := float_of_int 1.

Definition fmul (x y : float) : float := SFmul prec emax x y.
Definition fltb (x y : float) : bool := SFltb x y.

(** [int / int], correctly rounded. *)
Definition int_div (a b : Z) : result float :=
  match b with
  | 0 => Raise ZeroDivisionError
  | Zpos pb | Zneg pb =>
      let neg_b := b <? 0 in
      match a with
      | 0 => Ok (S754_zero neg_b)
      | Zpos pa | Zneg pa =>
          let '(q, e, l) := SFdiv_core_binary prec emax (Zpos pa) 0 (Zpos pb) 0 in
          Ok (binary_round_aux prec emax (xorb (a <? 0) neg_b) q e l)
      end
  end.

(** [int(x)]: truncation toward zero. *)
Definition int_of_float (x : float) : result Z :=
  match x with
  | S754_zero _ => Ok 0
  | S754_finite s m e =>
      let v := if 0 <=? e then Zpos m * 2 ^ e else Zpos m / 2 ^ (- e) in
      Ok (if s then - v else v)
  | S754_nan => Raise ValueError
  | S754_infinity _ => Raise OverflowError
  end.

(** [min(a, b)] and [max(a, b)] keep the first argument on ties and NaN. *)
Definition py_min (a b : float) : float := if fltb b a then b else a.
Definition py_max (a b : float) : float := if fltb a b then b else a.

(** [max(0.0, min(1.0, x))] *)
Definition clamp01 (x : float) : float := py_max float_0 (py_min float_1 x).

Example half_of_seven :
  (r <-? int_div 1 2; int_of_float (fmul (float_of_int 7) r))%py = Ok 3.
Proof. vm_compute. reflexivity. Qed.

Example tenth_of_thirty :
  (r <-? int_div 1 10; int_of_float (fmul (float_of_int 30) r))%py = Ok 3.
Proof. vm_compute. reflexivity. Qed.

Example clamp_above : clamp01 (float_of_int 3) = float_1.
Proof. vm_compute. reflexivity. Qed.

(** A clamped ratio is never NaN, infinite or negative. *)
Lemma clamp01_cases x :
  clamp01 x = float_0 ∨ clamp01 x = float_1 ∨
  (clamp01 x = x ∧ fltb float_0 x = true ∧ fltb x float_1 = true).
Proof.
  unfold clamp01, py_min, py_max. destruct (fltb x float_1) eqn:E1.
  - destruct (fltb float_0 x) eqn:E2; auto.
  - right; left. reflexivity.
Qed.

Lemma clamp01_float x : (∃ s, clamp01 x = S754_zero s) ∨ (∃ m e, clamp01 x = S754_finite false m e).
Proof.
  destruct (clamp01_cases x) as [-> | [-> | (-> & H0 & H1)]].
  - left. by exists false.
  - right. vm_compute. by eexists _, _.
  - destruct x as [s|s| |s m e].
    + left. by exists s.
    + destruct s; [by vm_compute in H0|by vm_compute in H1].
    + by vm_compute in H0.
    + destruct s; [by vm_compute in H0|]. right. by exists m, e.
Qed.

(** Python compares an int with a float exactly. *)
Definition int_ltb_float (z : Z) (x : float) : bool :=
  match x with
  | S754_zero _ => z <? 0
  | S754_infinity s => negb s
  | S754_nan => false
  | S754_finite s m e =>
      let v := if s then Zneg m else Zpos m in
      if 0 <=? e then z <? v * 2 ^ e else z * 2 ^ (- e) <? v
  end.

Lemma int_div_ok a b : b ≠ 0 → ∃ x, int_div a b = Ok x.
Proof.
  intros Hb. unfold int_div. destruct b; [done|..]; (destruct a; [by eexists|..]);
    destruct (SFdiv_core_binary _ _ _ _ _ _) as [[? ?] ?]; by eexists.
Qed.

(** ** Roundings that stay finite

    Crude bounds on the mantissa and the exponent of a rounded result: enough to
    see that counts and byte limits never overflow. *)

Lemma digits_log2 p : Zpos (digits2_pos p) = Z.log2 (Zpos p) + 1.
Proof.
  induction p as [p IH|p IH|]; [| |done]; cbn [digits2_pos]; rewrite Pos2Z.inj_succ, IH.
  - rewrite (Pos2Z.inj_xI p), Z.log2_succ_double by lia. lia.
  - rewrite (Pos2Z.inj_xO p), Z.log2_double by lia. lia.
Qed.

Lemma shr_1_bound r : 0 <= shr_m r → 0 <= shr_m (shr_1 r) <= shr_m r.
Proof. destruct r as [m r s]. cbn. destruct m as [|[p|p|]|p]; cbn; lia. Qed.

Lemma shr_iter_bound p : ∀ r, 0 <= shr_m r → 0 <= shr_m (SpecFloat.iter_pos shr_1 p r) <= shr_m r.
Proof.
  induction p as [p IH|p IH|]; intros r Hr; cbn [SpecFloat.iter_pos]; [| |by apply shr_1_bound].
  - pose proof (shr_1_bound r Hr). destruct (IH (shr_1 r)); [lia|]. destruct (IH (SpecFloat.iter_pos shr_1 p (shr_1 r))); lia.
  - destruct (IH r); [lia|]. destruct (IH (SpecFloat.iter_pos shr_1 p r)); lia.
Qed.

(** a shift lowers the mantissa and gives the exponent [fexp] asks for *)
Lemma shr_fexp_bound m e l : 0 <= m →
  0 <= shr_m (shr_fexp prec emax m e l).1 <= m ∧
  (shr_fexp prec emax m e l).2 = Z.max e (fexp prec emax (Zdigits2 m + e)).
Proof.
  intros Hm. unfold shr_fexp. assert (shr_m (shr_record_of_loc m l) = m) as El by (by destruct l as [|[]]).
  destruct (fexp prec emax (Zdigits2 m + e) - e) as [|p|p] eqn:En; cbn [shr fst snd]; rewrite ?El; split; try lia.
  pose proof (shr_iter_bound p (shr_record_of_loc m l)). rewrite El in *. auto.
Qed.

Lemma digits_bound m L : 0 <= m → 0 <= L → Z.log2 m <= L → Zdigits2 m <= L + 1.
Proof. intros Hm HL Hb. destruct m as [|p|p]; cbn [Zdigits2]; [lia|rewrite digits_log2; lia|lia]. Qed.

Lemma round_bound m l : 0 <= m → 0 <= round_nearest_even m l <= m + 1.
Proof. intros Hm. unfold round_nearest_even. destruct l as [|[]]; try lia. destruct (Z.even m); lia. Qed.

Lemma log2_succ_bound m L : 0 <= m → 0 <= L → Z.log2 m <= L → Z.log2 (m + 1) <= L + 1.
Proof.
  intros Hm HL Hb. destruct (decide (m = 0)) as [->|]; [change (Z.log2 (0 + 1)) with 0; lia|].
  rewrite Z.add_1_r. pose proof (Z.log2_succ_le m). lia.
Qed.

(** the exponent after rounding a mantissa of at most [L + 1] bits at exponent [X] *)
Definition exp_bound (L X : Z) : Z := Z.max X (L + 1 + X - 53).

Lemma round_aux_bound s m e L X :
  0 <= m → 0 <= L → Z.log2 m <= L → e <= X → -1074 <= X → exp_bound (L + 1) (exp_bound L X) <= 971 →
  binary_round_aux prec emax s m e loc_Exact = S754_zero s ∨
  ∃ m' e', binary_round_aux prec emax s m e loc_Exact = S754_finite s m' e' ∧
    Z.log2 (Zpos m') <= L + 1 ∧ e' <= exp_bound (L + 1) (exp_bound L X).
Proof.
  unfold exp_bound. intros Hm HL Hb He HX HB. unfold binary_round_aux.
  destruct (shr_fexp prec emax m e loc_Exact) as [r1 e1] eqn:E1.
  pose proof (shr_fexp_bound m e loc_Exact Hm) as [H1 H2]. rewrite E1 in H1, H2. cbn [fst snd] in H1, H2.
  set (m1 := round_nearest_even _ _). pose proof (round_bound (shr_m r1) (loc_of_shr_record r1) ltac:(lia)) as Hr. fold m1 in Hr.
  destruct (shr_fexp prec emax m1 e1 loc_Exact) as [r2 e2] eqn:E2.
  pose proof (shr_fexp_bound m1 e1 loc_Exact ltac:(lia)) as [H3 H4]. rewrite E2 in H3, H4. cbn [fst snd] in H3, H4.
  assert (Z.log2 (m + 1) <= L + 1) as Hb1 by (by apply log2_succ_bound).
  assert (Z.log2 m1 <= L + 1) as Hb2 by (etrans; [apply (Z.log2_le_mono m1 (m + 1)); lia|done]).
  pose proof (digits_bound m L Hm HL Hb). pose proof (digits_bound m1 (L + 1) ltac:(lia) ltac:(lia) Hb2).
  assert (e1 <= Z.max X (L + 1 + X - 53)) as He1 by (rewrite H2; unfold fexp, emin, prec, emax; lia).
  assert (e2 <= Z.max (Z.max X (L + 1 + X - 53)) (L + 1 + 1 + Z.max X (L + 1 + X - 53) - 53)) as He2
    by (rewrite H4; unfold fexp, emin, prec, emax; lia).
  destruct (shr_m r2) as [|p|p] eqn:Em; [by left| |lia]. right. rewrite (proj2 (Z.leb_le _ _)) by (unfold emax, prec; lia).
  exists p, e2. split_and!; [done| |done]. etrans; [|exact Hb2]. apply Z.log2_le_mono. lia.
Qed.

Lemma iter_xO p d : Zpos (Pos.iter xO p d) = Zpos p * 2 ^ Zpos d.
Proof.
  induction d as [|d IH] using Pos.peano_ind; [rewrite Z.pow_1_r; cbn; lia|].
  rewrite Pos.iter_succ, Pos2Z.inj_xO, IH, Pos2Z.inj_succ, Z.pow_succ_r by lia. lia.
Qed.

(** [float(n)] of a byte count *)
Lemma float_of_int_bound n : 0 <= n < 2 ^ 512 →
  float_of_int n = S754_zero false ∨
  ∃ m e, float_of_int n = S754_finite false m e ∧ (n < 2 ^ 53 → Z.log2 (Zpos m) <= 53 ∧ e <= 1).
Proof.
  intros [H0 Hn]. unfold float_of_int, binary_normalize. destruct n as [|p|p]; [by left| |lia].
  assert (Z.log2 (Zpos p) < 512) as Hl by (apply Z.log2_lt_pow2; lia).
  unfold binary_round. rewrite digits_log2. unfold shl_align.
  destruct (fexp prec emax (Z.log2 (Zpos p) + 1 + 0) - 0) as [|d|d] eqn:Ed.
  - destruct (round_aux_bound false (Zpos p) 0 (Z.log2 (Zpos p)) 0) as [->|(m & e & -> & Hm & He)];
      [lia|apply Z.log2_nonneg|lia|lia|lia|unfold exp_bound; lia|by left|].
    right. exists m, e. split; [done|]. intros Hlt. assert (Z.log2 (Zpos p) < 53) by (apply Z.log2_lt_pow2; lia).
    unfold exp_bound in He. lia.
  - assert (53 <= Z.log2 (Zpos p)) as H53 by (unfold fexp, emin, prec, emax in Ed; lia).
    destruct (round_aux_bound false (Zpos p) 0 (Z.log2 (Zpos p)) 0) as [->|(m & e & -> & Hm & He)];
      [lia|apply Z.log2_nonneg|lia|lia|lia|unfold exp_bound; lia|by left|].
    right. exists m, e. split; [done|]. intros Hlt. apply Z.log2_lt_pow2 in Hlt; lia.
  - assert (Zpos d = 52 - Z.log2 (Zpos p)) as Hd by (unfold fexp, emin, prec, emax in Ed; pose proof (Z.log2_nonneg (Zpos p)); lia).
    assert (Z.log2 (Zpos (Pos.iter xO p d)) = 52) as Hl2.
    { rewrite iter_xO, Z.log2_mul_pow2 by lia. lia. }
    destruct (round_aux_bound false (Zpos (Pos.iter xO p d)) (fexp prec emax (Z.log2 (Zpos p) + 1 + 0)) 52 0) as [->|(m & e & -> & Hm & He)];
      [lia|lia|lia|lia|lia|unfold exp_bound; lia|by left|].
    right. exists m, e. split; [done|]. unfold exp_bound in He. lia.
Qed.

Lemma bounded_digits m e : bounded prec emax m e = true → Z.log2 (Zpos m) <= 52.
Proof.
  unfold bounded, canonical_mantissa. rewrite andb_true_iff, Z.eqb_eq, digits_log2. unfold fexp, prec. lia.
Qed.

(** a clamped ratio that is a binary64 value *)
Lemma clamp01_bound r : valid_binary prec emax r = true →
  (∃ s, clamp01 r = S754_zero s) ∨ ∃ m e, clamp01 r = S754_finite false m e ∧ Z.log2 (Zpos m) <= 52 ∧ e <= -52.
Proof.
  intros Hv. destruct (clamp01_cases r) as [-> | [-> | (-> & H0 & H1)]].
  - left. by exists false.
  - right. vm_compute. by eexists _, _.
  - destruct r as [s|s| |s m e]; [left; by exists s|destruct s; [by vm_compute in H0|by vm_compute in H1]|by vm_compute in H0|].
    right. destruct s; [by vm_compute in H0|]. exists m, e. split_and!; [done|by eapply bounded_digits|].
    change float_1 with (S754_finite false 4503599627370496 (-52)) in H1. unfold fltb, SFltb, SFcompare in H1. cbv iota beta in H1. destruct (Z.compare_spec e (-52)); [lia|lia|done].
Qed.

(** [int(n * ratio)] of a list's length exists and is not negative *)
Lemma scaled_count_ok n r : valid_binary prec emax r = true → Z.of_nat n < 2 ^ 53 →
  ∃ z, int_of_float (fmul (float_of_int (Z.of_nat n)) (clamp01 r)) = Ok z ∧ 0 <= z.
Proof.
  intros Hv Hn. assert (∀ s, ∃ z, int_of_float (S754_zero s) = Ok z ∧ 0 <= z) as Hz by (intros; by exists 0).
  destruct (float_of_int_bound (Z.of_nat n)) as [->|(m & e & -> & Hb)]; [split; [lia|etrans; [exact Hn|done]]| |].
  { destruct (clamp01_bound r Hv) as [[s ->]|(m & e & -> & _)]; apply Hz. }
  destruct (Hb Hn) as [Hm He]. destruct (clamp01_bound r Hv) as [[s ->]|(m' & e' & -> & Hm' & He')]; [apply Hz|].
  unfold fmul, SFmul. cbn [xorb].
  destruct (round_aux_bound false (Zpos (m * m')) (e + e') 106 0) as [->|(m2 & e2 & -> & _ & _)];
    [lia|lia| |lia|lia|unfold exp_bound; lia|apply Hz|].
  - rewrite Pos2Z.inj_mul. pose proof (Z.log2_mul_above (Zpos m) (Zpos m') ltac:(lia) ltac:(lia)). lia.
  - cbn [int_of_float]. eexists. split; [done|]. destruct (Z.leb_spec 0 e2).
    + apply Z.mul_nonneg_nonneg; [lia|apply Z.pow_nonneg; lia].
    + apply Z.div_pos; [lia|apply Z.pow_pos_nonneg; lia].
Qed.

(** ** The ratio one is exact *)

Lemma round_aux_normal s m e : Z.log2 (Zpos m) = 52 → -1074 <= e <= 971 →
  binary_round_aux prec emax s (Zpos m) e loc_Exact = S754_finite s m e.
Proof.
  intros Hm He. assert (∀ l, shr_fexp prec emax (Zpos m) e l = (shr_record_of_loc (Zpos m) l, e)) as Hs.
  { intros l. unfold shr_fexp. cbn [Zdigits2]. rewrite digits_log2, Hm.
    replace (fexp prec emax (52 + 1 + e) - e) with 0 by (unfold fexp, emin, prec, emax; lia). done. }
  unfold binary_round_aux. rewrite Hs. cbn [shr_record_of_loc shr_m loc_of_shr_record round_nearest_even]. rewrite Hs.
  cbn [shr_record_of_loc shr_m]. by rewrite (proj2 (Z.leb_le _ _)) by (unfold emax, prec; lia).
Qed.

Lemma shr_exact p : ∀ m, SpecFloat.iter_pos shr_1 p (Build_shr_record (Zpos m * 2 ^ Zpos p) false false) = Build_shr_record (Zpos m) false false.
Proof.
  assert (∀ m, shr_1 (Build_shr_record (Zpos m * 2) false false) = Build_shr_record (Zpos m) false false) as H1.
  { intros m. replace (Zpos m * 2) with (Zpos m~0) by lia. done. }
  assert (∀ m n, ∃ q, Zpos m * 2 ^ Zpos n = Zpos q) as Hpos.
  { intros m n. pose proof (Z.pow_pos_nonneg 2 (Zpos n)). destruct (Zpos m * 2 ^ Zpos n) as [|q|q] eqn:Eq; [|by exists q|]; nia. }
  induction p as [p IH|p IH|]; intros m; cbn [SpecFloat.iter_pos].
  - destruct (Hpos m p) as [q Hq]. destruct (Hpos q p) as [q2 Hq2].
    replace (Zpos m * 2 ^ Zpos p~1) with (Zpos q2 * 2).
    + by rewrite H1, <- Hq2, IH, <- Hq, IH.
    + rewrite <- Hq2, <- Hq, (Pos2Z.inj_xI p), Z.pow_add_r, Z.pow_twice_r by lia. lia.
  - destruct (Hpos m p) as [q Hq]. replace (Zpos m * 2 ^ Zpos p~0) with (Zpos q * 2 ^ Zpos p).
    + by rewrite IH, <- Hq, IH.
    + rewrite <- Hq, (Pos2Z.inj_xO p), Z.pow_twice_r by lia. lia.
  - by rewrite Z.pow_1_r.
Qed.

Lemma round_aux_shifted m e : Z.log2 (Zpos m) = 52 → -1074 <= e <= 971 →
  binary_round_aux prec emax false (Zpos m * 2 ^ 52) (e - 52) loc_Exact = S754_finite false m e.
Proof.
  intros Hm He. pose proof (round_aux_normal false m e Hm He) as Hn. unfold binary_round_aux in *.
  assert (shr_fexp prec emax (Zpos m * 2 ^ 52) (e - 52) loc_Exact = (Build_shr_record (Zpos m) false false, e)) as ->.
  { unfold shr_fexp. assert (Zdigits2 (Zpos m * 2 ^ 52) = 105) as ->.
    { destruct (Zpos m * 2 ^ 52) as [|q|q] eqn:Eq; [lia| |lia]. cbn [Zdigits2]. rewrite digits_log2, <- Eq, Z.log2_mul_pow2 by lia. lia. }
    replace (fexp prec emax (105 + (e - 52)) - (e - 52)) with 52 by (unfold fexp, emin, prec, emax; lia).
    unfold shr. cbn [shr_record_of_loc]. rewrite (shr_exact 52 m). f_equal. lia. }
  assert (shr_fexp prec emax (Zpos m) e loc_Exact = (Build_shr_record (Zpos m) false false, e)) as Hs.
  { unfold shr_fexp. cbn [Zdigits2]. rewrite digits_log2, Hm.
    replace (fexp prec emax (52 + 1 + e) - e) with 0 by (unfold fexp, emin, prec, emax; lia). done. }
  rewrite Hs in Hn. cbn [shr_m loc_of_shr_record round_nearest_even] in Hn |- *. exact Hn.
Qed.

Lemma float_of_int_exact p : Zpos p < 2 ^ 53 →
  ∃ m d, float_of_int (Zpos p) = S754_finite false m (- d) ∧ Z.log2 (Zpos m) = 52 ∧ 0 <= d <= 52 ∧ Zpos m = Zpos p * 2 ^ d.
Proof.
  intros Hp. assert (0 <= Z.log2 (Zpos p) < 53) as Hl by (split; [apply Z.log2_nonneg|apply Z.log2_lt_pow2; lia]).
  unfold float_of_int, binary_normalize, binary_round. rewrite digits_log2. unfold shl_align.
  assert (fexp prec emax (Z.log2 (Zpos p) + 1 + 0) - 0 = Z.log2 (Zpos p) - 52) as -> by (unfold fexp, emin, prec, emax; lia).
  assert (fexp prec emax (Z.log2 (Zpos p) + 1 + 0) = Z.log2 (Zpos p) - 52) as -> by (unfold fexp, emin, prec, emax; lia).
  destruct (Z.log2 (Zpos p) - 52) as [|d|d] eqn:Ed; [|lia|].
  - exists p, 0. rewrite round_aux_normal by lia. split_and!; [done|lia|lia|lia|lia].
  - exists (Pos.iter xO p d), (Zpos d). assert (Z.log2 (Zpos (Pos.iter xO p d)) = 52) as Hi by (rewrite iter_xO, Z.log2_mul_pow2 by lia; lia).
    rewrite round_aux_normal by lia. split_and!; [done|done|lia|lia|apply iter_xO].
Qed.

Lemma scaled_by_one p : Zpos p < 2 ^ 53 → int_of_float (fmul (float_of_int (Zpos p)) float_1) = Ok (Zpos p).
Proof.
  intros Hp. destruct (float_of_int_exact p Hp) as (m & d & -> & Hm & Hd & Em).
  change float_1 with (S754_finite false 4503599627370496 (-52)). unfold fmul, SFmul. cbn [xorb].
  rewrite Pos2Z.inj_mul. change (Zpos 4503599627370496) with (2 ^ 52). replace (- d + -52) with (- d - 52) by lia.
  rewrite round_aux_shifted by lia. cbn [int_of_float]. destruct (Z.leb_spec 0 (- d)).
  - assert (d = 0) as -> by lia. rewrite Em. change (- 0) with 0. rewrite Z.pow_0_r. f_equal. lia.
  - rewrite Em, Z.opp_involutive, Z.div_mul by (apply Z.pow_nonzero; lia). done.
Qed.
