(* ===== verification/EvictionPolicy.v ===== *)
(** * EvictionPolicy: the LRU, isolated LRU and no-op policies

    Models src/lmcache/v1/distributed/eviction_policy/lru.py, isolated_lru.py
    and noop.py, and the bridges of src/lmcache/v1/distributed/eviction.py.
    An [OrderedDict] of keys is a [PyDict] of units; its order is the recency
    order. The abstract specification records when each key was last used. *)

From S2P Require Import Prelude PyDict PyFloat L1Manager.
Local Open Scope Z_scope.

Inductive EvictionDestination := DISCARD | L2_CACHE.

#[export] Instance EvictionDestination_eq_dec : EqDecision EvictionDestination.
Proof. solve_decision. Defined.

Section policies.
Context {K : Type} `{EqDecision K}.
Context (cache_salt_of : K → string).

Record EvictionAction := mkEvictionAction { ea_keys : list K; ea_destination : EvictionDestination }.

(** [order[key] = None] when new, [order.move_to_end(key)] when present *)
Definition touch_or_add (o : list (K * unit)) (key : K) : list (K * unit) :=
  if dmem o key then move_to_end o key else dset o key tt.

Definition touch (o : list (K * unit)) (key : K) : list (K * unit) :=
  if dmem o key then move_to_end o key else o.

Definition remove (o : list (K * unit)) (key : K) : list (K * unit) :=
  if dmem o key then ddel o key else o.

(** [int(len(pool) * expected_ratio)], at least one for a positive ratio *)
Definition target_count (len : nat) (expected_ratio : float) : result Z :=
  let expected_ratio := clamp01 expected_ratio in
  (n <-? int_of_float (fmul (float_of_int (Z.of_nat len)) expected_ratio);
   Ok (if fltb float_0 expected_ratio && (n =? 0) && (0 <? Z.of_nat len) then 1 else n))%py.

(** The selection loop: skip ineligible keys, stop at [n] keys. *)
Fixpoint select_keys (eligible : option (K → bool)) (n : Z) (acc pool : list K) : list K :=
  match pool with
  | [] => acc
  | key :: pool =>
      if match eligible with Some f => negb (f key) | None => false end
      then select_keys eligible n acc pool
      else
        let acc := acc ++ [key] in
        if n <=? Z.of_nat (length acc) then acc else select_keys eligible n acc pool
  end.

Definition eviction_actions (pool : list K) (dest : EvictionDestination)
    (dests : list EvictionDestination) (expected_ratio : float) (eligible : option (K → bool))
  : result (list EvictionAction) :=
  match pool with
  | [] => Ok []
  | _ =>
      (n <-? target_count (length pool) expected_ratio;
       if n =? 0 then Ok []
       else
         match select_keys eligible n [] pool with
         | [] => Ok []
         | keys => Ok [mkEvictionAction keys (match dests with d :: _ => d | [] => dest end)]
         end)%py
  end.

(** ** LRU *)

Record LRUEvictionPolicy := mkLRU {
  lru_order : list (K * unit);
  lru_destinations : list EvictionDestination;
  lru_default_destination : EvictionDestination }.

Definition lru_init (default : EvictionDestination) : LRUEvictionPolicy := mkLRU [] [] default.

Definition lru_with_order (p : LRUEvictionPolicy) (o : list (K * unit)) : LRUEvictionPolicy :=
  mkLRU o (lru_destinations p) (lru_default_destination p).

Definition lru_register_eviction_destination (p : LRUEvictionPolicy) (d : EvictionDestination)
  : LRUEvictionPolicy :=
  if bool_decide (d ∈ lru_destinations p) then p
  else mkLRU (lru_order p) (lru_destinations p ++ [d]) (lru_default_destination p).

Definition lru_on_keys_created (p : LRUEvictionPolicy) (keys : list K) : LRUEvictionPolicy :=
  lru_with_order p (fold_left touch_or_add (rev keys) (lru_order p)).

Definition lru_on_keys_touched (p : LRUEvictionPolicy) (keys : list K) : LRUEvictionPolicy :=
  lru_with_order p (fold_left touch (rev keys) (lru_order p)).

Definition lru_on_keys_removed (p : LRUEvictionPolicy) (keys : list K) : LRUEvictionPolicy :=
  lru_with_order p (fold_left remove keys (lru_order p)).

Definition lru_get_eviction_actions (p : LRUEvictionPolicy) (expected_ratio : float)
    (eligible : option (K → bool)) : result (list EvictionAction) :=
  eviction_actions (dkeys (lru_order p)) (lru_default_destination p) (lru_destinations p)
    expected_ratio eligible.

Definition lru_get_num_tracked_keys (p : LRUEvictionPolicy) : nat := length (lru_order p).

(** The loop appends before it tests the bound. *)
Definition lru_get_eviction_candidates (p : LRUEvictionPolicy) (count : Z) : list K :=
  select_keys None count [] (dkeys (lru_order p)).

(** ** Isolated LRU: one order per cache salt *)

Record IsolatedLRUEvictionPolicy := mkIsolated {
  iso_per_salt_order : list (string * list (K * unit));
  iso_destinations : list EvictionDestination;
  iso_default_destination : EvictionDestination }.

Definition iso_with_orders (p : IsolatedLRUEvictionPolicy) (d : list (string * list (K * unit))) :=
  mkIsolated d (iso_destinations p) (iso_default_destination p).

Definition iso_register_eviction_destination (p : IsolatedLRUEvictionPolicy)
    (d : EvictionDestination) : IsolatedLRUEvictionPolicy :=
  if bool_decide (d ∈ iso_destinations p) then p
  else mkIsolated (iso_per_salt_order p) (iso_destinations p ++ [d]) (iso_default_destination p).

Definition iso_create_key (d : list (string * list (K * unit))) (key : K) : list (string * list (K * unit)) :=
  let salt := cache_salt_of key in
  let o := match dget d salt with Some o => o | None => [] end in
  dset d salt (touch_or_add o key).

Definition iso_touch_key (d : list (string * list (K * unit))) (key : K) : list (string * list (K * unit)) :=
  let salt := cache_salt_of key in
  match dget d salt with
  | Some o => dset d salt (touch o key)
  | None => d
  end.

Definition iso_remove_key (d : list (string * list (K * unit))) (key : K) : list (string * list (K * unit)) :=
  let salt := cache_salt_of key in
  match dget d salt with
  | None => d
  | Some o =>
      match ddel o key with
      | [] => ddel d salt
      | o' => dset d salt o'
      end
  end.

Definition iso_on_keys_created (p : IsolatedLRUEvictionPolicy) (keys : list K) :=
  iso_with_orders p (fold_left iso_create_key (rev keys) (iso_per_salt_order p)).
Definition iso_on_keys_touched (p : IsolatedLRUEvictionPolicy) (keys : list K) :=
  iso_with_orders p (fold_left iso_touch_key (rev keys) (iso_per_salt_order p)).
Definition iso_on_keys_removed (p : IsolatedLRUEvictionPolicy) (keys : list K) :=
  iso_with_orders p (fold_left iso_remove_key keys (iso_per_salt_order p)).

Definition iso_get_eviction_actions (p : IsolatedLRUEvictionPolicy) (expected_ratio : float)
    (eligible : option (K → bool)) (cache_salt : option string) : result (list EvictionAction) :=
  match cache_salt with
  | None => Raise ValueError
  | Some salt =>
      let pool := match dget (iso_per_salt_order p) salt with Some o => dkeys o | None => [] end in
      eviction_actions pool (iso_default_destination p) (iso_destinations p) expected_ratio eligible
  end.

Definition sum_lengths (ds : list (list (K * unit))) : nat := foldr (λ o n, (length o + n)%nat) 0%nat ds.

Definition iso_get_num_tracked_keys (p : IsolatedLRUEvictionPolicy) (cache_salt : option string) : nat :=
  match cache_salt with
  | Some salt => match dget (iso_per_salt_order p) salt with Some o => length o | None => 0 end
  | None => sum_lengths (dvals (iso_per_salt_order p))
  end.

Definition iso_get_tracked_salts (p : IsolatedLRUEvictionPolicy) : list string :=
  dkeys (iso_per_salt_order p).

End policies.
Arguments EvictionAction K : clear implicits.
Arguments LRUEvictionPolicy K : clear implicits.
Arguments IsolatedLRUEvictionPolicy K : clear implicits.

(** ** The policy interface of the controllers *)

Class EvictionPolicy (P K : Type) := {
  ep_support_isolation : bool;
  ep_on_keys_created : P → list K → P;
  ep_on_keys_touched : P → list K → P;
  ep_on_keys_removed : P → list K → P;
  ep_get_eviction_actions :
    P → float → option (K → bool) → option string → result (list (EvictionAction K)) }.

#[export] Instance lru_policy {K} `{EqDecision K} : EvictionPolicy (LRUEvictionPolicy K) K := {
  ep_support_isolation := false;
  ep_on_keys_created := lru_on_keys_created;
  ep_on_keys_touched := lru_on_keys_touched;
  ep_on_keys_removed := lru_on_keys_removed;
  ep_get_eviction_actions p r f _ := lru_get_eviction_actions p r f }.

Definition isolated_policy {K} `{EqDecision K} (salt : K → string)
  : EvictionPolicy (IsolatedLRUEvictionPolicy K) K := {|
  ep_support_isolation := true;
  ep_on_keys_created := iso_on_keys_created salt;
  ep_on_keys_touched := iso_on_keys_touched salt;
  ep_on_keys_removed := iso_on_keys_removed salt;
  ep_get_eviction_actions := iso_get_eviction_actions |}.

(** [NoOpEvictionPolicy] keeps nothing. *)
Definition NoOpEvictionPolicy := unit.

#[export] Instance noop_policy {K} : EvictionPolicy NoOpEvictionPolicy K := {
  ep_support_isolation := false;
  ep_on_keys_created p _ := p;
  ep_on_keys_touched p _ := p;
  ep_on_keys_removed p _ := p;
  ep_get_eviction_actions _ _ _ _ := Ok [] }.

(** The listener bridges: cache events drive the policy. *)
Definition L1EvictionPolicy_on {P K} `{EvictionPolicy P K} (p : P) (c : listener_call (K := K)) : P :=
  match c with
  | on_l1_keys_reserved_read _ => p
  | on_l1_keys_read_finished _ => p
  | on_l1_keys_reserved_write _ => p
  | on_l1_keys_write_finished keys => ep_on_keys_created p keys
  | on_l1_keys_deleted_by_manager keys => ep_on_keys_removed p keys
  | on_l1_keys_finish_write_and_reserve_read keys => ep_on_keys_created p keys
  | on_l1_keys_accessed keys => ep_on_keys_touched p keys
  end.

Inductive l2_listener_call {K : Type} :=
| on_l2_keys_stored (keys : list K) (sizes : list Z)
| on_l2_keys_accessed (keys : list K)
| on_l2_keys_deleted (keys : list K).
Arguments l2_listener_call K : clear implicits.

Definition L2EvictionPolicy_on {P K} `{EvictionPolicy P K} (p : P) (c : l2_listener_call K) : P :=
  match c with
  | on_l2_keys_stored keys _ => ep_on_keys_created p keys
  | on_l2_keys_accessed keys => ep_on_keys_touched p keys
  | on_l2_keys_deleted keys => ep_on_keys_removed p keys
  end.

(** ** The abstract specification of LRU

    A logical clock ticks at every key handled; a key is tracked when it has a
    time of last use. *)

Section lru_spec.
Context {K : Type} `{EqDecision K}.
Implicit Types (k : K) (o : list (K * unit)).

Inductive lru_event :=
| Created (keys : list K)
| Touched (keys : list K)
| Removed (keys : list K).

Record usage := mkUsage { us_clock : nat; us_last : K → option nat }.

Definition use_key (add : bool) (u : usage) (k : K) : usage :=
  mkUsage (S (us_clock u))
    (λ x, if decide (x = k) then (if add then Some (us_clock u)
                                  else (λ _, us_clock u) <$> us_last u k)
          else us_last u x).

Definition drop_key (u : usage) (k : K) : usage :=
  mkUsage (us_clock u) (λ x, if decide (x = k) then None else us_last u x).

(** Later keys of a request count as used earlier. *)
Definition spec_event (u : usage) (e : lru_event) : usage :=
  match e with
  | Created keys => fold_left (use_key true) (rev keys) u
  | Touched keys => fold_left (use_key false) (rev keys) u
  | Removed keys => fold_left drop_key keys u
  end.

Definition lru_event_step (p : LRUEvictionPolicy K) (e : lru_event) : LRUEvictionPolicy K :=
  match e with
  | Created keys => lru_on_keys_created p keys
  | Touched keys => lru_on_keys_touched p keys
  | Removed keys => lru_on_keys_removed p keys
  end.

(** The order lists the tracked keys from the least to the most recently used. *)
Record recency (u : usage) o : Prop := {
  rc_wf : dwf o;
  rc_tracked : ∀ k, k ∈ dkeys o ↔ is_Some (us_last u k);
  rc_clock : ∀ k t, us_last u k = Some t → (t < us_clock u)%nat;
  rc_sorted : StronglySorted (λ a b, ∀ ta tb, us_last u a = Some ta → us_last u b = Some tb →
                                     (ta < tb)%nat) (dkeys o) }.

Lemma StronglySorted_filter {A} (R : A → A → Prop) (P : A → Prop) `{!∀ x, Decision (P x)} l :
  StronglySorted R l → StronglySorted R (filter P l).
Proof.
  induction 1 as [|x l HS IH Hx]; [constructor|]. rewrite filter_cons. case_decide; [|done].
  constructor; [done|]. rewrite Forall_forall in *. intros y [_ Hy]%list_elem_of_filter. auto.
Qed.

Lemma StronglySorted_imp_in {A} (R R' : A → A → Prop) l :
  (∀ x y, x ∈ l → y ∈ l → R x y → R' x y) → StronglySorted R l → StronglySorted R' l.
Proof.
  intros Himp. induction 1 as [|x l HS IH Hx]; constructor.
  - apply IH. intros; apply Himp; [by right|by right|done].
  - rewrite Forall_forall in *. intros y Hy. apply Himp; [left|by right|auto].
Qed.

Lemma StronglySorted_snoc {A} (R : A → A → Prop) l x :
  StronglySorted R l → (∀ y, y ∈ l → R y x) → StronglySorted R (l ++ [x]).
Proof.
  induction 1 as [|y l HS IH Hy]; intros Hx; simpl; [repeat constructor|]. constructor.
  - apply IH. intros; apply Hx. by right.
  - rewrite Forall_app. split; [done|]. repeat constructor. apply Hx. left.
Qed.

Lemma dmem_dkeys o k : dmem o k = true ↔ k ∈ dkeys o.
Proof. unfold dmem. rewrite elem_of_dkeys. destruct (dget o k); naive_solver. Qed.

(** Moving a key to the most recent end. *)
Lemma recency_use u o o' k t :
  recency u o → dwf o' → dkeys o' = filter (.≠ k) (dkeys o) ++ [k] → t = us_clock u →
  recency (mkUsage (S t) (λ x, if decide (x = k) then Some t else us_last u x)) o'.
Proof.
  intros [Hwf Htr Hck Hso] Hwf' Hk ->. constructor; simpl; [done| | |].
  - intros x. rewrite Hk, elem_of_app, list_elem_of_filter, list_elem_of_singleton.
    case_decide; [naive_solver|]. rewrite <- Htr. naive_solver.
  - intros x t. case_decide; [intros [= <-]; lia|]. intros Hx%Hck. lia.
  - rewrite Hk. apply StronglySorted_snoc.
    + eapply StronglySorted_imp_in; [|by apply StronglySorted_filter].
      intros x y [Hx _]%list_elem_of_filter [Hy _]%list_elem_of_filter HR.
      by rewrite !decide_False.
    + intros y [Hy _]%list_elem_of_filter ta tb. rewrite decide_False by done.
      rewrite decide_True by done. intros Hy'%Hck [= <-]. lia.
Qed.

Lemma filter_not_elem o k : k ∉ dkeys o → filter (.≠ k) (dkeys o) = dkeys o.
Proof.
  intros Hn. apply filter_all. rewrite Forall_forall. intros x Hx ->. done.
Qed.

Lemma usage_ext u u' o :
  us_clock u = us_clock u' → (∀ x, us_last u x = us_last u' x) → recency u o → recency u' o.
Proof.
  intros Hc Hl [Hwf Htr Hck Hso]. constructor; [done| | |].
  - intros k. by rewrite Htr, Hl.
  - intros k t. rewrite <- Hl, <- Hc. apply Hck.
  - eapply StronglySorted_imp_in; [|exact Hso]. intros x y _ _ HR. by rewrite <- !Hl.
Qed.

Lemma recency_use_key add u o k :
  recency u o → recency (use_key add u k) (if add then touch_or_add o k else touch o k).
Proof.
  intros Hr. pose proof Hr as [Hwf Htr Hck Hso].
  destruct (dmem o k) eqn:Hm.
  - assert (k ∈ dkeys o) as Hin by by apply dmem_dkeys.
    assert (recency (mkUsage (S (us_clock u))
              (λ x, if decide (x = k) then Some (us_clock u) else us_last u x)) (move_to_end o k)) as H1.
    { eapply recency_use; [done|by apply move_to_end_wf|by apply dkeys_move_to_end|done]. }
    destruct add; unfold touch_or_add, touch; rewrite Hm; [exact H1|].
    eapply usage_ext; [| |exact H1]; [done|]. intros x. simpl. case_decide; [|done].
    apply Htr in Hin as [t Ht]. by rewrite Ht.
  - assert (k ∉ dkeys o) as Hn by (intros Hin; apply dmem_dkeys in Hin; congruence).
    destruct add; unfold touch_or_add, touch; rewrite Hm.
    + eapply recency_use; [done|by apply dset_wf| |done].
      rewrite dkeys_dset, decide_False by done. by rewrite filter_not_elem.
    + assert (us_last u k = None) as Hnone by (apply eq_None_not_Some; by rewrite <- Htr).
      assert (∀ x, us_last (use_key false u k) x = us_last u x) as Hl.
      { intros x. simpl. case_decide; [subst; by rewrite Hnone|done]. }
      constructor; [done| | |].
      * intros x. by rewrite Hl.
      * intros x t. rewrite Hl. intros Hx%Hck. simpl. lia.
      * eapply StronglySorted_imp_in; [|exact Hso]. intros x y _ _ HR. by rewrite !Hl.
Qed.

Lemma recency_drop_key u o k : recency u o → recency (drop_key u k) (remove o k).
Proof.
  intros [Hwf Htr Hck Hso].
  assert (dkeys (remove o k) = filter (.≠ k) (dkeys o)) as Hk.
  { unfold remove. destruct (dmem o k) eqn:E; [by rewrite dkeys_ddel|].
    symmetry. apply filter_not_elem. intros Hin%dmem_dkeys. congruence. }
  constructor; simpl.
  - unfold remove. destruct (dmem o k); [by apply ddel_wf|done].
  - intros x. rewrite Hk, list_elem_of_filter, Htr. case_decide; [|naive_solver].
    split; [naive_solver|intros [? ?]; done].
  - intros x t. case_decide; [done|]. apply Hck.
  - rewrite Hk. eapply StronglySorted_imp_in; [|by apply StronglySorted_filter].
    intros x y [Hx _]%list_elem_of_filter [Hy _]%list_elem_of_filter HR. by rewrite !decide_False.
Qed.

Lemma recency_fold {A} (f : usage → A → usage) (g : list (K * unit) → A → list (K * unit)) l :
  (∀ u o a, recency u o → recency (f u a) (g o a)) →
  ∀ u o, recency u o → recency (fold_left f l u) (fold_left g l o).
Proof. intros Hfg. induction l as [|a l IH]; intros; simpl; auto. Qed.

Lemma recency_event u p e :
  recency u (lru_order p) → recency (spec_event u e) (lru_order (lru_event_step p e)).
Proof.
  intros Hr. destruct e as [keys|keys|keys]; simpl; apply recency_fold; try done.
  - intros. by apply (recency_use_key true).
  - intros. by apply (recency_use_key false).
  - intros. by apply recency_drop_key.
Qed.

Definition usage_init : usage := mkUsage 0 (λ _, None).

Lemma recency_init : recency usage_init [].
Proof.
  constructor; simpl; [constructor| |done|constructor].
  intros k. split; [intros Hk; by apply not_elem_of_nil in Hk|intros [? ?]; done].
Qed.

Lemma recency_events es d :
  recency (fold_left spec_event es usage_init) (lru_order (fold_left lru_event_step es (lru_init d))).
Proof.
  assert (∀ u p, recency u (lru_order p) →
    recency (fold_left spec_event es u) (lru_order (fold_left lru_event_step es p))) as H.
  { induction es as [|e es IH]; intros u p Hr; simpl; [done|]. apply IH. by apply recency_event. }
  apply H. apply recency_init.
Qed.

(** ** Victim selection *)

Definition eligible_keys (f : option (K → bool)) (l : list K) : list K :=
  match f with Some f => List.filter f l | None => l end.

Lemma select_keys_take f n : ∀ pool acc,
  Z.of_nat (length acc) < n →
  select_keys f n acc pool = acc ++ take (Z.to_nat n - length acc) (eligible_keys f pool).
Proof.
  induction pool as [|k pool IH]; intros acc Hlt; simpl.
  { destruct f; simpl; by rewrite take_nil, app_nil_r. }
  assert ((if match f with Some f => negb (f k) | None => false end
           then select_keys f n acc pool
           else if n <=? Z.of_nat (length (acc ++ [k])) then acc ++ [k]
                else select_keys f n (acc ++ [k]) pool)
          = acc ++ take (Z.to_nat n - length acc)
              (if match f with Some f => negb (f k) | None => false end
               then eligible_keys f pool else k :: eligible_keys f pool)) as Hgoal.
  { destruct (match f with Some f => negb (f k) | None => false end); [by apply IH|].
    rewrite length_app. simpl length. destruct (Z.to_nat n - length acc)%nat as [|j] eqn:Ej; [lia|].
    cbn [take]. destruct (Z.leb_spec n (Z.of_nat (length acc + 1))).
    - assert (j = 0%nat) as -> by lia. by rewrite take_0.
    - rewrite IH by (rewrite length_app; simpl; lia). rewrite length_app. simpl length.
      rewrite <- app_assoc. simpl. do 3 f_equal. lia. }
  rewrite Hgoal. destruct f as [f|]; simpl; [|done]. by destruct (f k).
Qed.

Lemma eligible_keys_elem f l k :
  k ∈ eligible_keys f l ↔ k ∈ l ∧ (∀ g, f = Some g → g k = true).
Proof.
  destruct f as [g|]; simpl; [|naive_solver].
  rewrite !list_elem_of_In, filter_In. naive_solver.
Qed.

Lemma eligible_keys_sorted (R : K → K → Prop) f l :
  StronglySorted R l → StronglySorted R (eligible_keys f l).
Proof.
  destruct f as [g|]; [|done]. induction 1 as [|x l HS IH Hx]; simpl; [constructor|].
  destruct (g x); [|done]. constructor; [done|]. rewrite Forall_forall in *. intros y Hy.
  apply list_elem_of_In, filter_In in Hy as [Hy _]. apply Hx. by apply list_elem_of_In.
Qed.

Lemma eligible_keys_NoDup f l : NoDup l → NoDup (eligible_keys f l).
Proof.
  destruct f as [g|]; [|done]. simpl. induction 1 as [|x l Hn Hnd IH]; simpl; [constructor|].
  destruct (g x); [|done]. constructor; [|done]. intros Hin. apply Hn.
  apply list_elem_of_In, filter_In in Hin as [Hin _]. by apply list_elem_of_In.
Qed.

Lemma elem_of_take_sub {A} n (l : list A) x : x ∈ take n l → x ∈ l.
Proof. intros Hx. rewrite <- (take_drop n l), elem_of_app. by left. Qed.

Lemma lru_events_destination es : ∀ p,
  lru_destinations (fold_left lru_event_step es p) = lru_destinations p ∧
  lru_default_destination (fold_left lru_event_step es p) = lru_default_destination p.
Proof.
  induction es as [|e es IH]; intros p; simpl; [done|]. destruct (IH (lru_event_step p e)) as [-> ->].
  by destruct e.
Qed.

(** C36. LRU eviction chooses by recency. After any sequence of notifications
    (keys of a request counting as used from the last to the first), when the
    ratio asks for [n] keys, [get_eviction_actions] returns one action with
    [min n m] of the [m] eligible tracked keys, every one of which was last used
    before every eligible tracked key that is left; with nothing eligible or
    [n = 0] it returns no action. *)
Theorem lru_evicts_least_recent es d ratio f n :
  let p := fold_left lru_event_step es (lru_init d) in
  let u := fold_left spec_event es usage_init in
  let pool := eligible_keys f (dkeys (lru_order p)) in
  target_count (length (lru_order p)) ratio = Ok n → 0 <= n →
  ∃ keys, lru_get_eviction_actions p ratio f
          = Ok (match keys with [] => [] | _ => [mkEvictionAction keys d] end) ∧
    length keys = Nat.min (Z.to_nat n) (length pool) ∧ NoDup keys ∧
    (∀ k, k ∈ keys → is_Some (us_last u k) ∧ (∀ g, f = Some g → g k = true)) ∧
    (∀ k k' t t', k ∈ keys → k' ∉ keys → (∀ g, f = Some g → g k' = true) →
       us_last u k = Some t → us_last u k' = Some t' → (t < t')%nat).
Proof.
  intros p u pool Hn Hpos. pose proof (recency_events es d : recency u (lru_order p)) as [Hwf Htr Hck Hso].
  destruct (lru_events_destination es (lru_init (K := K) d)) as [Hd1 Hd2]. fold p in Hd1, Hd2.
  exists (take (Z.to_nat n) pool).
  assert (∀ k, k ∈ pool ↔ is_Some (us_last u k) ∧ (∀ g, f = Some g → g k = true)) as Hpool.
  { intros k. unfold pool. by rewrite eligible_keys_elem, Htr. }
  assert (StronglySorted (λ a b, ∀ ta tb, us_last u a = Some ta → us_last u b = Some tb →
                                   (ta < tb)%nat) pool) as HS by by apply eligible_keys_sorted.
  assert (NoDup pool) as Hnd by (by apply eligible_keys_NoDup).
  split_and!.
  - unfold lru_get_eviction_actions, eviction_actions. rewrite Hd1, Hd2. simpl.
    destruct (dkeys (lru_order p)) as [|k0 ks] eqn:Ek.
    { unfold pool. destruct f; simpl; by rewrite take_nil. }
    rewrite <- Ek. unfold dkeys at 1. rewrite length_fmap, Hn. simpl.
    destruct (Z.eqb_spec n 0) as [->|Hne]; [done|].
    rewrite select_keys_take by (simpl; lia). simpl length. rewrite Nat.sub_0_r. simpl.
    rewrite Ek. fold pool. by destruct (take (Z.to_nat n) pool).
  - apply length_take.
  - eapply sublist_NoDup; [exact Hnd|]. apply sublist_take.
  - intros k Hk. apply Hpool. by eapply elem_of_take_sub.
  - intros k k' t t' Hk Hk' Hel Ht Ht'.
    assert (k' ∈ drop (Z.to_nat n) pool) as Hdrop.
    { assert (k' ∈ pool) as Hin by (apply Hpool; split; [by eexists|done]).
      rewrite <- (take_drop (Z.to_nat n) pool), elem_of_app in Hin. tauto. }
    rewrite <- (take_drop (Z.to_nat n) pool) in HS.
    apply StronglySorted_app_iff in HS as (_ & _ & HS). by apply (HS k k').
Qed.

End lru_spec.

(** ** Isolation *)

Section isolation.
Context {K : Type} `{EqDecision K}.
Context (cache_salt_of : K → string).
Implicit Types (d : list (string * list (K * unit))) (k : K) (s : string).

Definition bucket d s : list (K * unit) := match dget d s with Some o => o | None => [] end.

Lemma bucket_dset d s s' o : bucket (dset d s o) s' = if decide (s = s') then o else bucket d s'.
Proof. unfold bucket. rewrite dget_dset. by case_decide. Qed.

Lemma bucket_create d k s :
  bucket (iso_create_key cache_salt_of d k) s
  = if decide (cache_salt_of k = s) then touch_or_add (bucket d s) k else bucket d s.
Proof. unfold iso_create_key. rewrite bucket_dset. case_decide; [by subst|done]. Qed.

Lemma bucket_touch d k s :
  bucket (iso_touch_key cache_salt_of d k) s
  = if decide (cache_salt_of k = s) then touch (bucket d s) k else bucket d s.
Proof.
  unfold iso_touch_key. destruct (dget d (cache_salt_of k)) as [o|] eqn:E.
  - rewrite bucket_dset. case_decide; [subst; unfold bucket; by rewrite E|done].
  - case_decide; [|done]. subst. unfold bucket. by rewrite E.
Qed.

Lemma remove_ddel (o : list (K * unit)) k : remove o k = ddel o k.
Proof.
  unfold remove. destruct (dmem o k) eqn:E; [done|]. symmetry. apply ddel_notin.
  intros Hin%dmem_dkeys. congruence.
Qed.

Lemma bucket_remove d k s :
  bucket (iso_remove_key cache_salt_of d k) s
  = if decide (cache_salt_of k = s) then remove (bucket d s) k else bucket d s.
Proof.
  unfold iso_remove_key. destruct (dget d (cache_salt_of k)) as [o|] eqn:E.
  - assert (bucket d (cache_salt_of k) = o) as Hb by (unfold bucket; by rewrite E).
    destruct (ddel o k) as [|x o'] eqn:Eo.
    + unfold bucket at 1. rewrite dget_ddel. case_decide; [|done].
      subst s. rewrite Hb, remove_ddel. by rewrite Eo.
    + rewrite bucket_dset. case_decide; [|done]. subst s. by rewrite Hb, remove_ddel, Eo.
  - case_decide; [|done]. subst. unfold bucket. by rewrite E.
Qed.

Definition event_of_salt s (e : lru_event (K := K)) : lru_event :=
  match e with
  | Created keys => Created (filter (λ k, cache_salt_of k = s) keys)
  | Touched keys => Touched (filter (λ k, cache_salt_of k = s) keys)
  | Removed keys => Removed (filter (λ k, cache_salt_of k = s) keys)
  end.

Definition iso_event_step (p : IsolatedLRUEvictionPolicy K) (e : lru_event) :=
  match e with
  | Created keys => iso_on_keys_created cache_salt_of p keys
  | Touched keys => iso_on_keys_touched cache_salt_of p keys
  | Removed keys => iso_on_keys_removed cache_salt_of p keys
  end.

Lemma bucket_fold (f : list (string * list (K * unit)) → K → list (string * list (K * unit)))
    (g : list (K * unit) → K → list (K * unit)) s keys :
  (∀ d k, bucket (f d k) s = if decide (cache_salt_of k = s) then g (bucket d s) k else bucket d s) →
  ∀ d, bucket (fold_left f keys d) s
       = fold_left g (filter (λ k, cache_salt_of k = s) keys) (bucket d s).
Proof.
  intros Hfg. induction keys as [|k keys IH]; intros d; [done|].
  rewrite filter_cons. simpl fold_left. rewrite IH, Hfg. by case_decide.
Qed.

Lemma filter_rev_comm (P : K → Prop) `{!∀ x, Decision (P x)} l : filter P (rev l) = rev (filter P l).
Proof.
  induction l as [|x l IH]; [done|]. simpl rev. rewrite filter_app, IH, !filter_cons, filter_nil.
  case_decide; simpl; [done|]. by rewrite app_nil_r.
Qed.

Lemma bucket_event p q e s :
  bucket (iso_per_salt_order p) s = lru_order q →
  bucket (iso_per_salt_order (iso_event_step p e)) s = lru_order (lru_event_step q (event_of_salt s e)).
Proof.
  intros Hpq. destruct e as [keys|keys|keys]; simpl.
  - rewrite (bucket_fold _ touch_or_add) by (intros; apply bucket_create).
    by rewrite filter_rev_comm, Hpq.
  - rewrite (bucket_fold _ touch) by (intros; apply bucket_touch). by rewrite filter_rev_comm, Hpq.
  - rewrite (bucket_fold _ remove) by (intros; apply bucket_remove). by rewrite Hpq.
Qed.

Lemma bucket_events es dst s :
  bucket (iso_per_salt_order (fold_left iso_event_step es (mkIsolated [] [] dst))) s
  = lru_order (fold_left lru_event_step (event_of_salt s <$> es) (lru_init dst)).
Proof.
  assert (∀ p q, bucket (iso_per_salt_order p) s = lru_order q →
    bucket (iso_per_salt_order (fold_left iso_event_step es p)) s
    = lru_order (fold_left lru_event_step (event_of_salt s <$> es) q)) as H.
  { induction es as [|e es IH]; intros p q Hpq; [done|]. rewrite fmap_cons. simpl fold_left.
    apply IH. by apply bucket_event. }
  by apply H.
Qed.

Lemma iso_events_destination es : ∀ p,
  iso_destinations (fold_left iso_event_step es p) = iso_destinations p ∧
  iso_default_destination (fold_left iso_event_step es p) = iso_default_destination p.
Proof.
  induction es as [|e es IH]; intros p; simpl; [done|]. destruct (IH (iso_event_step p e)) as [-> ->].
  by destruct e.
Qed.

Lemma spec_fold_salt {B} (P : K → Prop) (f : usage → B → usage) (keys : list B) :
  (∀ u b x, b ∈ keys → is_Some (us_last (f u b) x) → is_Some (us_last u x) ∨ P x) →
  ∀ u, (∀ x, is_Some (us_last u x) → P x) → ∀ x, is_Some (us_last (fold_left f keys u) x) → P x.
Proof.
  induction keys as [|b keys IH]; intros Hf u Hu; [done|]. simpl. apply IH.
  - intros. eapply Hf; [by right|done].
  - intros x Hx. destruct (Hf u b x) as [?|?]; [left|done|auto|done].
Qed.

(** Events of one salt only ever track keys of that salt. *)
Lemma spec_event_salt s e u :
  (∀ k, is_Some (us_last u k) → cache_salt_of k = s) →
  ∀ k, is_Some (us_last (spec_event u (event_of_salt s e)) k) → cache_salt_of k = s.
Proof.
  intros Hu. destruct e as [keys|keys|keys]; simpl; apply spec_fold_salt; try done.
  - intros v b x Hb. simpl. case_decide; [|by left]. subst. intros _. right.
    apply list_elem_of_In, in_rev, list_elem_of_In in Hb. by apply list_elem_of_filter in Hb as [? _].
  - intros v b x _. simpl. case_decide; [|by left]. subst. rewrite fmap_is_Some. by left.
  - intros v b x _. simpl. case_decide; [intros [? ?]; done|by left].
Qed.

Lemma salt_events_tracked es dst s k :
  k ∈ dkeys (lru_order (fold_left lru_event_step (event_of_salt s <$> es) (lru_init dst))) →
  cache_salt_of k = s.
Proof.
  intros Hk. apply (rc_tracked _ _ (recency_events (event_of_salt s <$> es) dst)) in Hk.
  assert (∀ u, (∀ k, is_Some (us_last u k) → cache_salt_of k = s) →
    ∀ k, is_Some (us_last (fold_left spec_event (event_of_salt s <$> es) u) k) → cache_salt_of k = s) as H.
  { clear Hk. induction es as [|e es IH]; intros u Hu; [done|]. rewrite fmap_cons. simpl fold_left.
    apply IH. by apply spec_event_salt. }
  eapply H; [|exact Hk]. simpl. intros ? [? ?]. done.
Qed.

(** Tenants are isolated. After any notifications, evicting from one cache
    salt under the isolated policy gives exactly the actions a plain LRU policy
    would give that had only ever seen the keys of that salt; the keys of other
    salts neither influence nor enter the result. Asking without a salt raises
    ValueError. *)
Theorem isolated_lru_refines_lru es dst s ratio f :
  let p := fold_left iso_event_step es (mkIsolated [] [] dst) in
  let q := fold_left lru_event_step (event_of_salt s <$> es) (lru_init dst) in
  iso_get_eviction_actions p ratio f (Some s) = lru_get_eviction_actions q ratio f ∧
  (∀ k, k ∈ dkeys (lru_order q) → cache_salt_of k = s) ∧
  iso_get_eviction_actions p ratio f None = Raise ValueError.
Proof.
  intros p q. pose proof (bucket_events es dst s : bucket (iso_per_salt_order p) s = lru_order q) as Hb.
  destruct (iso_events_destination es (mkIsolated [] [] dst)) as [Hp1 Hp2]. fold p in Hp1, Hp2.
  destruct (lru_events_destination (event_of_salt s <$> es) (lru_init dst)) as [Hq1 Hq2].
  fold q in Hq1, Hq2. split_and!; [| |done].
  - unfold iso_get_eviction_actions, lru_get_eviction_actions.
    rewrite Hp1, Hp2, Hq1, Hq2, <- Hb. simpl. unfold bucket. by destruct (dget _ _).
  - apply salt_events_tracked.
Qed.

End isolation.

(** ** Witness: keys 1..4, key 2 touched, key 4 locked; half of them are asked for. *)

Definition demo_events : list (lru_event (K := nat)) :=
  [Created [1; 2; 3; 4]%nat; Touched [2; 9]%nat; Removed [7]%nat].

Definition demo_half : float := match int_div 1 2 with Ok x => x | Raise _ => float_0 end.

Definition not_four : option (nat → bool) := Some (λ k, negb (Nat.eqb k 4)).

Lemma lru_evicts_least_recent_witness :
  lru_get_eviction_actions (fold_left lru_event_step demo_events (lru_init DISCARD)) demo_half not_four
    = Ok [mkEvictionAction [3; 1]%nat DISCARD] ∧
  ∃ keys : list nat, length keys = 2%nat ∧ NoDup keys.
Proof.
  split; [vm_compute; reflexivity|].
  destruct (lru_evicts_least_recent demo_events DISCARD demo_half not_four 2) as (keys & _ & Hl & Hnd & _);
    [vm_compute; reflexivity|lia|].
  exists keys. split; [rewrite Hl; vm_compute; reflexivity|exact Hnd].
Defined.
