(* ===== verification/QuotaManager.v ===== *)
(** * QuotaManager: byte quotas per cache salt

    Models src/lmcache/v1/distributed/quota_manager.py. The durable form of the
    registry is the pair [capture] returns. *)

From S2P Require Import Prelude PyDict.
Local Open Scope Z_scope.

Record QuotaManager := mkQuotaManager {
  qm_limits : list (string * Z);
  qm_default_limit_bytes : option Z }.

Record QuotaEntry := mkQuotaEntry { qe_cache_salt : string; qe_limit_bytes : Z }.

Definition qm_init : QuotaManager := mkQuotaManager [] None.

Definition set_quota (q : QuotaManager) (cache_salt : string) (limit_bytes : Z) : result QuotaManager :=
  if limit_bytes <? 0 then Raise ValueError
  else Ok (mkQuotaManager (dset (qm_limits q) cache_salt limit_bytes) (qm_default_limit_bytes q)).

Definition delete_quota (q : QuotaManager) (cache_salt : string) : bool * QuotaManager :=
  (dmem (qm_limits q) cache_salt,
   mkQuotaManager (ddel (qm_limits q) cache_salt) (qm_default_limit_bytes q)).

Definition get_limit_bytes (q : QuotaManager) (cache_salt : string) : Z :=
  match dget (qm_limits q) cache_salt with Some l => l | None => 0 end.

Definition set_default_limit_bytes (q : QuotaManager) (limit_bytes : option Z) : result QuotaManager :=
  match limit_bytes with
  | Some l => if l <? 0 then Raise ValueError else Ok (mkQuotaManager (qm_limits q) (Some l))
  | None => Ok (mkQuotaManager (qm_limits q) None)
  end.

Definition get_default_limit_bytes (q : QuotaManager) : option Z := qm_default_limit_bytes q.

Definition effective_limit_bytes (q : QuotaManager) (cache_salt : string) : option Z :=
  match dget (qm_limits q) cache_salt with
  | Some explicit => Some explicit
  | None => qm_default_limit_bytes q
  end.

Definition has_quota (q : QuotaManager) (cache_salt : string) : bool := dmem (qm_limits q) cache_salt.

Definition capture (q : QuotaManager) : list (string * Z) * option Z :=
  (qm_limits q, qm_default_limit_bytes q).

Definition restore (q : QuotaManager) (state : list (string * Z) * option Z) : QuotaManager :=
  mkQuotaManager (fst state) (snd state).

Definition list_quotas (q : QuotaManager) : list QuotaEntry :=
  (λ sl, mkQuotaEntry sl.1 sl.2) <$> qm_limits q.

(** ** Properties *)

Inductive quota_op :=
| SetQuota (cache_salt : string) (limit_bytes : Z)
| DeleteQuota (cache_salt : string)
| SetDefault (limit_bytes : option Z)
| RestoreFrom (q : QuotaManager).

(** A rejected update leaves the registry as it was. *)
Definition quota_step (q : QuotaManager) (op : quota_op) : QuotaManager :=
  match op with
  | SetQuota s l => match set_quota q s l with Ok q' => q' | Raise _ => q end
  | DeleteQuota s => snd (delete_quota q s)
  | SetDefault l => match set_default_limit_bytes q l with Ok q' => q' | Raise _ => q end
  | RestoreFrom q' => restore q (capture q')
  end.

Definition quota_ok (q : QuotaManager) : Prop :=
  dwf (qm_limits q) ∧ (∀ s l, dget (qm_limits q) s = Some l → 0 <= l) ∧
  (∀ l, qm_default_limit_bytes q = Some l → 0 <= l).

Lemma quota_step_ok q op :
  (match op with RestoreFrom q' => quota_ok q' | _ => True end) → quota_ok q → quota_ok (quota_step q op).
Proof.
  intros Hop (Hwf & Hl & Hd). destruct op as [s l|s|[l|]|q']; simpl; [| | | |done].
  - unfold set_quota. destruct (Z.ltb_spec l 0); [done|]. split_and!; simpl; [by apply dset_wf| |done].
    intros s' l'. rewrite dget_dset. case_decide; [by intros [= <-]|apply Hl].
  - split_and!; simpl; [by apply ddel_wf| |done]. intros s' l'. rewrite dget_ddel.
    case_decide; [done|apply Hl].
  - destruct (Z.ltb_spec l 0); [done|]. split_and!; simpl; [done..|]. by intros l' [= <-].
  - split_and!; simpl; [done..|]. intros l' ?. done.
Qed.

(** Quotas survive a durable round trip and updates are exact. In every
    registry reachable by updates and restores: limits are never negative; a
    capture restored into any registry gives back the same limits, default and
    listing; setting a quota changes the two limit readings of that salt to the
    new value and no other salt; deleting it makes the allowlist reading 0 and
    the default reading the configured default. *)
Theorem quota_manager_exact ops q0 s s' l :
  Forall (λ op, match op with RestoreFrom q' => quota_ok q' | _ => True end) ops → 0 <= l →
  let q := fold_left quota_step ops qm_init in
  0 <= get_limit_bytes q s ∧
  restore q0 (capture q) = q ∧
  (∃ q', set_quota q s l = Ok q' ∧
     get_limit_bytes q' s' = (if decide (s = s') then l else get_limit_bytes q s') ∧
     effective_limit_bytes q' s' = (if decide (s = s') then Some l else effective_limit_bytes q s')) ∧
  (let q' := snd (delete_quota q s) in
     fst (delete_quota q s) = has_quota q s ∧ has_quota q' s = false ∧
     get_limit_bytes q' s = 0 ∧ effective_limit_bytes q' s = get_default_limit_bytes q).
Proof.
  intros Hops Hl q.
  assert (quota_ok q) as (_ & Hpos & _).
  { unfold q. assert (quota_ok qm_init) as H0.
    { split_and!; simpl; [constructor|done|done]. }
    revert H0. generalize qm_init as q1. clear q.
    induction Hops as [|op ops Hop _ IH]; intros q1 H1; simpl; [done|]. apply IH. by apply quota_step_ok. }
  split_and!.
  - unfold get_limit_bytes. destruct (dget (qm_limits q) s) eqn:E; [eauto|lia].
  - clearbody q. by destruct q.
  - unfold set_quota. destruct (Z.ltb_spec l 0); [lia|]. eexists. split; [done|].
    unfold get_limit_bytes, effective_limit_bytes. simpl. rewrite dget_dset. by case_decide.
  - cbv zeta. unfold has_quota, dmem, get_limit_bytes, effective_limit_bytes. simpl.
    by rewrite !dget_ddel_eq.
Qed.

Lemma quota_manager_exact_witness :
  let q := fold_left quota_step [SetQuota "a" 10; SetQuota "b" (-3); DeleteQuota "c"; SetDefault (Some 7)] qm_init in
  get_limit_bytes q "a" = 10 ∧ get_limit_bytes q "b" = 0 ∧ restore qm_init (capture q) = q.
Proof.
  intros q. split; [reflexivity|split; [reflexivity|]].
  refine (proj1 (proj2 (quota_manager_exact _ qm_init "a" "b" 5 _ _))); [repeat constructor|lia].
Defined.
