(* ===== verification/EvictionController.v ===== *)
(** * EvictionController: the eviction passes

    Models src/lmcache/v1/distributed/storage_controllers/eviction_controller.py:
    one iteration of the L1 loop on a cache and its policy, and one pass of the
    L2 loop over its adapters. The threads that repeat the passes are left out.
    The L1 cache and its policy are connected by the notifications the cache
    emits ([L1EvictionPolicy_on]). *)

From S2P Require Import Prelude PyDict PyFloat TTLLock L1Manager L1ManagerProofs.
From S2P Require Import AddressManager AddressSpace TensorAllocator L1Memory.
From S2P Require Import EvictionPolicy QuotaManager.
Local Open Scope Z_scope.

(** ** The cache with a registered policy *)

Section l1_system.
Context {K : Type} `{EqDecision K}.
Context {M Obj Layout Backend : Type} {MMO : MemoryManager M Obj Layout Backend}.
Context {P : Type} {EP : EvictionPolicy P K}.

Record l1_system := mkL1System { sys_cache : L1Manager K M Obj; sys_policy : P }.

Definition deliver_note (p : P) (n : note (K := K) (Backend := Backend)) : P :=
  match n with
  | NotifyListeners calls => fold_left L1EvictionPolicy_on calls p
  | Publish _ => p
  end.

Definition deliver (p : P) (ns : list (note (K := K) (Backend := Backend))) : P :=
  fold_left deliver_note ns p.

(** The operations of the cache, with the notifications they emit. *)
Definition noted_l1 (m : L1Manager K M Obj) (clk clk2 : nat → nat → Z)
    (op : l1_op (K := K) (Layout := Layout))
  : result (list (note (K := K) (Backend := Backend)) * L1Manager K M Obj) :=
  match op with
  | OpReserveRead keys n => let '(_, ns, m) := reserve_read m clk keys n in Ok (ns, m)
  | OpFinishRead keys n => (r <-? finish_read m clk keys n; let '(_, ns, m) := r in Ok (ns, m))%py
  | OpReserveWrite keys temps l mode =>
      (r <-? reserve_write m clk clk2 keys temps l mode; let '(_, ns, m) := r in Ok (ns, m))%py
  | OpFinishWrite keys => let '(_, ns, m) := finish_write m clk keys in Ok (ns, m)
  | OpFinishWriteAndReserveRead keys n =>
      let '(_, ns, m) := finish_write_and_reserve_read m clk keys n in Ok (ns, m)
  | OpDelete keys force => (r <-? delete m clk keys force; let '(_, ns, m) := r in Ok (ns, m))%py
  | OpClear force => clear m clk force
  | OpClose => (m <-? close m; Ok ([], m))%py
  end.

Definition sys_exec (sys : l1_system) (clk clk2 : nat → nat → Z)
    (op : l1_op (K := K) (Layout := Layout)) : result l1_system :=
  (r <-? noted_l1 (sys_cache sys) clk clk2 op;
   Ok (mkL1System (snd r) (deliver (sys_policy sys) (fst r))))%py.

(** [self._l1_manager.touch_keys(keys)] *)
Definition sys_touch (sys : l1_system) (has_subscribers : bool) (keys : list K) : l1_system :=
  mkL1System (sys_cache sys)
    (deliver (sys_policy sys) (touch_keys (Backend := Backend) has_subscribers keys)).

(** Both destinations are treated as DISCARD. *)
Definition execute_eviction_action (clk : nat → nat → Z) (sys : l1_system)
    (action : EvictionAction K) : result l1_system :=
  sys_exec sys clk clk (OpDelete (ea_keys action) false).

Fixpoint execute_actions (clks : nat → nat → nat → Z) (sys : l1_system)
    (actions : list (EvictionAction K)) : result l1_system :=
  match actions with
  | [] => Ok sys
  | a :: actions =>
      (sys <-? execute_eviction_action (clks 0%nat) sys a;
       execute_actions (λ i, clks (S i)) sys actions)%py
  end.

Definition usage_ratio (used total : Z) : result float :=
  if total =? 0 then Ok float_0 else int_div used total.

(** One iteration of the loop. [now] times the unlocked eligibility check of
    each key, [clks] the deletions; the flag tells whether eviction ran. *)
Definition l1_eviction_cycle (watermark ratio : float) (now : K → nat → Z)
    (clks : nat → nat → nat → Z) (sys : l1_system) : result (bool * l1_system) :=
  let '(used, total) := L1Manager.get_memory_usage (sys_cache sys) in
  (usage <-? usage_ratio used total;
   if fltb usage watermark then Ok (false, sys)
   else
     actions <-? ep_get_eviction_actions (sys_policy sys) ratio
                   (Some (λ k, is_key_evictable (sys_cache sys) (now k) k)) None;
     sys <-? execute_actions clks sys actions;
     Ok (true, sys))%py.

End l1_system.
Arguments l1_system K M Obj P : clear implicits.

(** ** The L2 pass *)

Section l2_pass.
Context {K : Type} `{EqDecision K} (cache_salt_of : K → string).
Context {P : Type} {EP : EvictionPolicy P K}.

(** What an adapter reports, and the keys it is told to delete. *)
Record AdapterUsage := mkAdapterUsage {
  au_usage_fraction : float;
  au_bytes_by_cache_salt : list (string * Z) }.

Record L2AdapterEvictionState := mkL2State {
  l2_adapter_id : Z;
  l2_usage : AdapterUsage;
  l2_policy : P;
  l2_trigger_watermark : float;
  l2_eviction_ratio : float }.

Definition add_adapter_state (states : list L2AdapterEvictionState) (s : L2AdapterEvictionState) :=
  states ++ [s].

Definition remove_adapter_state (states : list L2AdapterEvictionState) (adapter_id : Z) :=
  List.filter (λ s, negb (l2_adapter_id s =? adapter_id)) states.

(** A call [adapter.delete(keys)] with the event published after it. *)
Record delete_call := mkDeleteCall { dc_keys : list K; dc_event : option (nat * list string) }.

Definition _execute_eviction_action (action : EvictionAction K) : delete_call :=
  mkDeleteCall (ea_keys action)
    (match ea_keys action with
     | [] => None
     | keys => Some (length keys, cache_salt_of <$> keys)
     end).

Definition _check_and_evict_global (s : L2AdapterEvictionState) : result (list delete_call) :=
  let current_usage := au_usage_fraction (l2_usage s) in
  if fltb current_usage float_0 || fltb current_usage (l2_trigger_watermark s) then Ok []
  else
    (actions <-? ep_get_eviction_actions (l2_policy s) (l2_eviction_ratio s) None None;
     Ok (_execute_eviction_action <$> actions))%py.

(** [pending.setdefault(action.destination, []).extend(action.keys)] *)
Definition add_pending (pending : list (EvictionDestination * list K)) (a : EvictionAction K) :=
  dset pending (ea_destination a)
    (match dget pending (ea_destination a) with Some ks => ks | None => [] end ++ ea_keys a).

Definition over_quota (q : QuotaManager) (watermark : float) (salt : string) (user_bytes : Z) : bool :=
  negb (user_bytes <=? 0)
  && negb (int_ltb_float user_bytes (fmul watermark (float_of_int (get_limit_bytes q salt)))).

Fixpoint collect_pending (q : QuotaManager) (s : L2AdapterEvictionState)
    (salts : list (string * Z)) (pending : list (EvictionDestination * list K))
  : result (list (EvictionDestination * list K)) :=
  match salts with
  | [] => Ok pending
  | (salt, user_bytes) :: salts =>
      if negb (over_quota q (l2_trigger_watermark s) salt user_bytes)
      then collect_pending q s salts pending
      else
        let effective_ratio :=
          if get_limit_bytes q salt =? 0 then float_1 else l2_eviction_ratio s in
        (actions <-? ep_get_eviction_actions (l2_policy s) effective_ratio None (Some salt);
         collect_pending q s salts (fold_left add_pending actions pending))%py
  end.

Definition _check_and_evict_by_cache_salt (q : QuotaManager) (s : L2AdapterEvictionState)
  : result (list delete_call) :=
  (pending <-? collect_pending q s (au_bytes_by_cache_salt (l2_usage s)) [];
   Ok ((λ dk, _execute_eviction_action (mkEvictionAction dk.2 dk.1)) <$> pending))%py.

Definition _check_and_evict (q : option QuotaManager) (s : L2AdapterEvictionState)
  : result (list delete_call) :=
  match q with
  | Some q => if ep_support_isolation (P := P) (K := K) then _check_and_evict_by_cache_salt q s
              else _check_and_evict_global s
  | None => _check_and_evict_global s
  end.

End l2_pass.

(** ** The policy follows the cache *)

Section lru_system.
Context {K : Type} `{EqDecision K}.
Context {M Obj Layout Backend : Type} {MMO : MemoryManager M Obj Layout Backend}.
Implicit Types (p : LRUEvictionPolicy K) (m : L1Manager K M Obj) (k : K).

Definition tracked p k : Prop := k ∈ dkeys (lru_order p).

Lemma tracked_created p keys k : tracked (lru_on_keys_created p keys) k → tracked p k ∨ k ∈ keys.
Proof.
  unfold tracked, lru_on_keys_created. simpl.
  assert (∀ l o, k ∈ dkeys (fold_left touch_or_add l o) → k ∈ dkeys o ∨ k ∈ l) as H.
  { induction l as [|x l IH]; intros o Hk; [by left|]. simpl in Hk. apply IH in Hk as [Hk|Hk]; [|set_solver].
    unfold touch_or_add in Hk. destruct (dmem o x) eqn:E.
    - apply elem_of_dkeys in Hk. rewrite dget_move_to_end, <- elem_of_dkeys in Hk. by left.
    - rewrite dkeys_dset in Hk. case_decide; set_solver. }
  intros Hk%H. destruct Hk as [?|Hk]; [by left|right]. by apply list_elem_of_In, in_rev, list_elem_of_In in Hk.
Qed.

Lemma tracked_touched p keys k : tracked (lru_on_keys_touched p keys) k → tracked p k.
Proof.
  unfold tracked, lru_on_keys_touched. simpl.
  assert (∀ l o, k ∈ dkeys (fold_left touch l o) → k ∈ dkeys o) as H.
  { induction l as [|x l IH]; intros o Hk; [done|]. simpl in Hk. apply IH in Hk.
    unfold touch in Hk. destruct (dmem o x); [|done].
    apply elem_of_dkeys in Hk. by rewrite dget_move_to_end, <- elem_of_dkeys in Hk. }
  apply H.
Qed.

Lemma tracked_removed p keys k : tracked (lru_on_keys_removed p keys) k → tracked p k ∧ k ∉ keys.
Proof.
  unfold tracked, lru_on_keys_removed. simpl.
  assert (∀ l o, k ∈ dkeys (fold_left remove l o) → k ∈ dkeys o ∧ k ∉ l) as H.
  { induction l as [|x l IH]; intros o Hk; [split; [done|apply not_elem_of_nil]|].
    simpl in Hk. apply IH in Hk as [Hk Hn]. rewrite remove_ddel, dkeys_ddel, list_elem_of_filter in Hk.
    set_solver. }
  apply H.
Qed.

(** What one iteration of a scan does, as far as keys are concerned. *)
Inductive basic_step {R} (s : scan K Obj R) : scan K Obj R → Prop :=
| basic_fail key r : basic_step s (scan_fail s key r)
| basic_update key e e' r : dget (sc_objects s) key = Some e → basic_step s (scan_update s key e' r)
| basic_delete key e e' r : dget (sc_objects s) key = Some e → basic_step s (scan_delete s key e' r).

Record scan_keys {R} (objs0 : list (K * L1ObjectState Obj)) (s : scan K Obj R) : Prop := {
  sk_sub : ∀ k, k ∈ dkeys objs0 → k ∈ dkeys (sc_objects s) ∨ k ∈ (sc_to_free s).*1;
  sk_ok : ∀ k, k ∈ sc_successful s → k ∈ dkeys objs0;
  sk_in : ∀ k, k ∈ dkeys (sc_objects s) → k ∈ dkeys objs0;
  sk_free : ∀ k, k ∈ (sc_to_free s).*1 → k ∈ sc_successful s }.

Lemma scan_keys_init {R} objs : scan_keys (R := R) objs (scan_init objs).
Proof. constructor; simpl; [auto| |done|]; intros k Hk; by apply not_elem_of_nil in Hk. Qed.

Lemma basic_step_keys {R} objs0 (s s' : scan K Obj R) :
  basic_step s s' → scan_keys objs0 s → scan_keys objs0 s'.
Proof.
  intros Hst [H1 H2 H3 H4]. destruct Hst as [key r|key e e' r Hg|key e e' r Hg]; [by constructor| |];
    (assert (key ∈ dkeys (sc_objects s)) as Hkey by (apply elem_of_dkeys; by eexists)).
  - assert (dkeys (dset (sc_objects s) key e') = dkeys (sc_objects s)) as Hk
      by (by rewrite dkeys_dset, decide_True).
    constructor; simpl; rewrite ?Hk; [done| |done|].
    + intros k [?|Hk1%list_elem_of_singleton]%elem_of_app; [auto|subst k; auto].
    + intros k Hin. apply elem_of_app. left. auto.
  - constructor; simpl; rewrite ?dkeys_ddel, ?fmap_app.
    + intros k Hin. rewrite list_elem_of_filter, elem_of_app. simpl.
      destruct (decide (k = key)) as [->|]; [right; right; left|]. destruct (H1 k Hin); auto.
    + intros k [?|Hk1%list_elem_of_singleton]%elem_of_app; [auto|subst k; auto].
    + intros k [_ ?]%list_elem_of_filter. auto.
    + intros k [?|Hk]%elem_of_app; apply elem_of_app; [left; auto|right]. done.
Qed.

Lemma for_keys_keys {R A} objs0 (body : (nat → Z) → scan K Obj R → A → scan K Obj R) keys :
  (∀ now s a, basic_step s (body now s a)) →
  ∀ clk s, scan_keys objs0 s → scan_keys objs0 (for_keys clk body keys s).
Proof.
  intros Hb. induction keys as [|a keys IH]; intros clk s Hs; [done|].
  rewrite for_keys_cons. apply IH. by eapply basic_step_keys.
Qed.

Lemma finish_read_basic total now (s : scan K Obj L1Error) key :
  basic_step s (finish_read_key total now s key).
Proof.
  unfold finish_read_key. destruct (dget _ key) eqn:E; [|constructor].
  destruct (is_locked _ _); [constructor|]. destruct (negb _); [constructor|].
  destruct (_ && _); by econstructor.
Qed.

Lemma finish_write_basic now (s : scan K Obj L1Error) key : basic_step s (finish_write_key now s key).
Proof.
  unfold finish_write_key. destruct (dget _ key) eqn:E; [|constructor].
  destruct (negb _); [constructor|]. destruct (is_locked _ _); [constructor|]. by econstructor.
Qed.

Lemma fwrr_basic total now (s : scan K Obj (L1Error * option Obj)) key :
  basic_step s (finish_write_and_reserve_read_key total now s key).
Proof.
  unfold finish_write_and_reserve_read_key. destruct (dget _ key) eqn:E; [|constructor].
  destruct (negb _); [constructor|]. destruct (is_locked _ _); [constructor|]. by econstructor.
Qed.

Lemma reserve_read_basic total now (s : scan K Obj (L1Error * option Obj)) key :
  basic_step s (reserve_read_key total now s key).
Proof.
  unfold reserve_read_key. destruct (dget _ key) eqn:E; [|constructor].
  destruct (negb _); [constructor|]. by econstructor.
Qed.

Lemma delete_basic force now (s : scan K Obj L1Error) key : basic_step s (delete_key force now s key).
Proof.
  unfold delete_key. destruct (dget _ key) eqn:E; [|constructor].
  destruct (_ && _); [constructor|]. by econstructor.
Qed.

Lemma for_keys_to_free {R A} (body : (nat → Z) → scan K Obj R → A → scan K Obj R) keys :
  (∀ now s a, sc_to_free (body now s a) = sc_to_free s) →
  ∀ clk s, sc_to_free (for_keys clk body keys s) = sc_to_free s.
Proof.
  intros Hf. induction keys as [|a keys IH]; intros clk s; [done|]. by rewrite for_keys_cons, IH, Hf.
Qed.

(** The policy tracks only keys of the cache. *)
Definition in_sync (sys : l1_system K M Obj (LRUEvictionPolicy K)) : Prop :=
  ∀ k, tracked (sys_policy sys) k → k ∈ dkeys (lm_objects (sys_cache sys)).

(** A scan that keeps every entry, then a notification of created keys. *)
Lemma sync_created {R} p m (s : scan K Obj R) mem :
  (∀ k, tracked p k → k ∈ dkeys (lm_objects m)) → scan_keys (lm_objects m) s → sc_to_free s = [] →
  ∀ k, tracked (lru_on_keys_created p (sc_successful s)) k →
       k ∈ dkeys (lm_objects (with_objects m (sc_objects s) mem)).
Proof.
  intros Hs [H1 H2 _ _] Hf k Hk. rewrite Hf in H1. simpl.
  apply tracked_created in Hk as [Hk|Hk]; [apply Hs in Hk|apply H2 in Hk];
    (destruct (H1 _ Hk) as [?|Hn]; [done|by apply not_elem_of_nil in Hn]).
Qed.

(** A scan, then a notification of the removed keys. *)
Lemma sync_removed {R} p m (s : scan K Obj R) mem gone :
  (∀ k, tracked p k → k ∈ dkeys (lm_objects m)) → scan_keys (lm_objects m) s →
  (∀ k, k ∈ (sc_to_free s).*1 → k ∈ gone) →
  ∀ k, tracked (lru_on_keys_removed p gone) k →
       k ∈ dkeys (lm_objects (with_objects m (sc_objects s) mem)).
Proof.
  intros Hs [H1 _ _ _] Hg k [Hk Hn]%tracked_removed. apply Hs in Hk. simpl.
  destruct (H1 _ Hk) as [?|Hf]; [done|]. by apply Hg in Hf.
Qed.

Lemma reserve_write_keys m clk clk2 keys temps l mode ret ns m' k :
  reserve_write m clk clk2 keys temps l mode = Ok (ret, ns, m') →
  (∀ p, deliver p ns = p :> LRUEvictionPolicy K) ∧
  (k ∈ dkeys (lm_objects m) → k ∈ dkeys (lm_objects m')).
Proof.
  unfold reserve_write.
  destruct (reserve_write_scan mode (zip keys temps) clk (scan_init (lm_objects m))) as (_ & Hnone & _).
  cbv zeta in Hnone. simpl in Hnone. set (s := for_keys clk _ _ _) in *. clearbody s.
  assert (k ∈ dkeys (lm_objects m) → k ∈ dkeys (sc_objects s)) as Hk.
  { rewrite !elem_of_dkeys, <- !not_eq_None_Some. by rewrite Hnone. }
  assert (∀ need s' mem, allocate_new m clk2 l need s = Ok (s', mem) →
            k ∈ dkeys (sc_objects s) → k ∈ dkeys (sc_objects s')) as Halloc.
  { intros need s' mem. unfold allocate_new. destruct (mm_allocate _ _ _) as [[[err objs] mem1]|]; [|done].
    simpl. case_decide.
    - intros [= <- <-]. generalize (zip need objs) as zs. clear. intros zs. revert clk2 s.
      induction zs as [|[[k' b] o] zs IH]; intros clk2 s Hk; [done|]. rewrite for_keys_cons. apply IH.
      simpl. rewrite dkeys_dset. case_decide; [done|]. set_solver.
    - destruct objs; [by intros [= <- <-]|]. destruct (mm_free mem1 _); [|done]. by intros [= <- <-]. }
  destruct (sc_to_allocate s) as [|kt need]; [by intros [= <- <- <-]|].
  destruct mode; [|by intros [= <- <- <-]|];
    (destruct (allocate_new m clk2 l (kt :: need) s) as [[s' mem]|] eqn:E; [|done]);
    intros [= <- <- <-]; (split; [done|]); intros Hin; simpl; by eapply Halloc, Hk.
Qed.

Lemma sys_exec_sync sys clk clk2 op sys' :
  in_sync sys → op ≠ OpClose → sys_exec (Backend := Backend) sys clk clk2 op = Ok sys' → in_sync sys'.
Proof.
  intros Hs Hop. destruct sys as [m p]. unfold in_sync in *. simpl in Hs. unfold sys_exec. simpl.
  destruct op as [keys n|keys n|keys temps l mode|keys|keys n|keys force|force|]; simpl; [| | | | | | |done].
  - intros [= <-] k Hk. simpl in *. apply Hs in Hk.
    destruct (for_keys_keys (lm_objects m) (reserve_read_key (_validate_read_locks n)) keys
      (reserve_read_basic _) clk _ (scan_keys_init _)) as [H1 _ _ _].
    destruct (H1 _ Hk) as [?|Hf]; [done|]. rewrite for_keys_to_free in Hf; [by apply not_elem_of_nil in Hf|].
    intros now s a. unfold reserve_read_key. destruct (dget _ a); [|done]. by destruct (negb _).
  - unfold finish_read. destruct (mm_free _ _) as [mem|]; [|done]. intros [= <-]. simpl.
    apply (sync_removed p m _ mem); [done| |done].
    apply for_keys_keys; [apply finish_read_basic|apply scan_keys_init].
  - destruct (reserve_write _ _ _ _ _ _ _) as [[[ret ns] m']|] eqn:E; [|done]. intros [= <-] k. simpl.
    destruct (reserve_write_keys _ _ _ _ _ _ _ _ _ _ k E) as [Hd Hk]. rewrite Hd. auto.
  - intros [= <-]. simpl. apply (sync_created p m _ (lm_memory_manager m)); [done| |].
    + apply for_keys_keys; [apply finish_write_basic|apply scan_keys_init].
    + rewrite for_keys_to_free; [done|]. intros now s a. unfold finish_write_key.
      destruct (dget _ a); [|done]. destruct (negb _); [done|]. by destruct (is_locked _ _).
  - intros [= <-]. simpl. apply (sync_created p m _ (lm_memory_manager m)); [done| |].
    + apply for_keys_keys; [apply fwrr_basic|apply scan_keys_init].
    + rewrite for_keys_to_free; [done|]. intros now s a. unfold finish_write_and_reserve_read_key.
      destruct (dget _ a); [|done]. destruct (negb _); [done|]. by destruct (is_locked _ _).
  - unfold delete. destruct (mm_free _ _) as [mem|]; [|done]. intros [= <-]. simpl.
    pose proof (for_keys_keys (lm_objects m) (delete_key force) keys (delete_basic force) clk
                  _ (scan_keys_init _)) as Hk.
    apply (sync_removed p m _ mem); [done|done|]. apply (sk_free _ _ Hk).
  - unfold clear. destruct force.
    + destruct (mm_free _ _) as [mem|]; [|done]. intros [= <-] k. simpl.
      intros [Hk Hn]%tracked_removed. by apply Hs in Hk.
    + destruct (mm_free _ _) as [mem|]; [|done]. intros [= <-] k. simpl. intros Hk.
      assert (tracked p k ∧ k ∉ (clearable clk (lm_objects m)).*1) as [Ht Hn].
      { destruct ((clearable clk (lm_objects m)).*1) as [|x c] eqn:Ec; simpl in Hk.
        - split; [done|apply not_elem_of_nil].
        - by apply tracked_removed in Hk. }
      apply Hs in Ht. rewrite elem_of_dkeys in Ht |- *. by rewrite del_all_dget, decide_False.
Qed.

Lemma noted_exec m clk clk2 op :
  exec_l1 m clk clk2 op = (r <-? noted_l1 m clk clk2 op; Ok (snd r))%py.
Proof.
  destruct op; simpl; try done.
  - by destruct (finish_read _ _ _ _) as [[[? ?] ?]|].
  - by destruct (reserve_write _ _ _ _ _ _ _) as [[[? ?] ?]|].
  - by destruct (delete _ _ _ _) as [[[? ?] ?]|].
  - by destruct (close m).
Qed.

(** ** Runs of the cache with its policy *)

Inductive sys_op :=
| SysCache (s : timed_op (K := K) (Layout := Layout))
| SysTouch (has_subscribers : bool) (keys : list K).

Definition sys_step (sys : l1_system K M Obj (LRUEvictionPolicy K)) (o : sys_op) :=
  match o with
  | SysCache s => sys_exec (Backend := Backend) sys (to_clk s) (to_clk2 s) (to_op s)
  | SysTouch b keys => Ok (sys_touch (Backend := Backend) sys b keys)
  end.

Fixpoint sys_run (sys : l1_system K M Obj (LRUEvictionPolicy K)) (os : list sys_op) :=
  match os with
  | [] => Ok sys
  | o :: os => (sys <-? sys_step sys o; sys_run sys os)%py
  end.

Definition cache_ops (os : list sys_op) : list timed_op :=
  omap (λ o, match o with SysCache s => Some s | SysTouch _ _ => None end) os.

Context {MMS : MemoryManagerSpec M Obj Layout Backend}.

Lemma sys_run_ok os : ∀ sys t t',
  timed t (cache_ops os) t' → lock_inv t (sys_cache sys) → mem_inv (sys_cache sys) → in_sync sys →
  Forall (λ s, l1_op_wf (to_op s) ∧ to_op s ≠ OpClose) (cache_ops os) →
  ∃ sys', sys_run sys os = Ok sys' ∧ lock_inv t' (sys_cache sys') ∧ mem_inv (sys_cache sys') ∧ in_sync sys'.
Proof.
  induction os as [|[s|b keys] os IH]; intros sys t t' Ht Hli Hmi Hsy Hwf; simpl in *.
  - inversion Ht; subst. exists sys. split_and!; [done| |done|done].
    destruct Hli. constructor; eauto using entries_ok_mono.
  - inversion Ht as [|? ? ? ? ? ? Hc1 Hc2 Htl]; subst. apply Forall_cons in Hwf as [[Hw Hne] Hwf].
    destruct (exec_mem_inv _ _ _ (to_op s) _ _ _ Hc1 Hc2 Hli Hmi Hw) as (m1 & E & Hmi1).
    pose proof (exec_lock_inv _ _ _ _ _ _ _ _ Hc1 Hc2 Hli E) as Hli1.
    rewrite noted_exec in E. unfold sys_exec.
    destruct (noted_l1 (sys_cache sys) (to_clk s) (to_clk2 s) (to_op s)) as [r|] eqn:En; [|done].
    simpl in E |- *. injection E as <-. apply (IH _ _ _ Htl); [done..| |done].
    eapply sys_exec_sync; [exact Hsy|exact Hne|]. unfold sys_exec. by rewrite En.
  - apply (IH _ _ _ Ht); [done..| |done]. intros k. simpl.
    destruct b; simpl; intros Hk%tracked_touched; by apply Hsy.
Qed.

(** The eviction policy and the cache stay in step. Starting from an empty
    cache with a fresh LRU policy registered, every timed run of cache
    operations (other than closing) and touches completes, and afterwards every
    key the policy tracks, and so may choose as a victim, is a key of the
    cache. *)
Theorem policy_tracks_resident_keys os t t' mem wt rt dst :
  0 <= wt → 0 <= rt → mm_ok mem → (∀ o, ¬ mm_live mem o) → timed t (cache_ops os) t' →
  Forall (λ s, l1_op_wf (to_op s) ∧ to_op s ≠ OpClose) (cache_ops os) →
  ∃ sys, sys_run (mkL1System (l1_init mem wt rt) (lru_init dst)) os = Ok sys ∧
    ∀ k, k ∈ dkeys (lru_order (sys_policy sys)) → k ∈ dkeys (lm_objects (sys_cache sys)).
Proof.
  intros Hw Hr Hok Hnone Ht Hwf.
  destruct (sys_run_ok os (mkL1System (l1_init mem wt rt) (lru_init dst)) t t')
    as (sys & E & _ & _ & Hs); [done|by apply l1_init_lock_inv| | |done|].
  - by apply l1_init_mem_inv.
  - intros k Hk. by apply not_elem_of_nil in Hk.
  - by exists sys.
Qed.

(** ** The L1 eviction pass *)

Lemma eviction_actions_shape (pool : list K) dst dsts ratio f n :
  target_count (length pool) ratio = Ok n →
  ∃ acts, eviction_actions pool dst dsts ratio f = Ok acts ∧ (length acts <= 1)%nat.
Proof.
  intros Hn. unfold eviction_actions. destruct pool as [|k0 ks]; [eexists; split; [done|simpl; lia]|].
  rewrite Hn. cbn [rbind]. destruct (n =? 0); [eexists; split; [done|simpl; lia]|].
  destruct (select_keys f n [] (k0 :: ks)); eexists; (split; [done|simpl; lia]).
Qed.

Lemma delete_exec sys clk keys t t' :
  clock_from t clk t' → lock_inv t (sys_cache sys) → mem_inv (sys_cache sys) → in_sync sys →
  ∃ sys', sys_exec (Backend := Backend) sys clk clk (OpDelete keys false) = Ok sys' ∧
    lock_inv t' (sys_cache sys') ∧ mem_inv (sys_cache sys') ∧ in_sync sys' ∧
    (∀ k e, dget (lm_objects (sys_cache sys)) k = Some e → entry_locked_at t' e = true →
       dget (lm_objects (sys_cache sys')) k = Some e).
Proof.
  intros Hc Hli Hmi Hsy. pose proof (clock_from_le _ _ _ Hc) as Hle.
  destruct (scan_release (sys_cache sys) (delete_key false) keys clk t t')
    as (mem & Hf & Hmi'); [intros; apply delete_effect|done..|].
  assert (∃ sys', sys_exec (Backend := Backend) sys clk clk (OpDelete keys false) = Ok sys' ∧
     sys_cache sys' = with_objects (sys_cache sys)
       (sc_objects (for_keys clk (delete_key false) keys (scan_init (lm_objects (sys_cache sys))))) mem)
    as (sys' & E & Es).
  { unfold sys_exec. simpl. unfold delete. rewrite Hf. simpl. by eexists. }
  exists sys'. rewrite Es. split_and!; [done| |done| |].
  - eapply lock_inv_scan; [done|]. eapply for_keys_ok; [intros; apply delete_effect|done|by apply scan_init_ok].
  - by eapply (sys_exec_sync sys clk clk (OpDelete keys false)).
  - intros k e Hk Hl. simpl. by eapply delete_keeps_locked.
Qed.

(** One pass of the L1 eviction loop on a cache with its LRU policy never
    raises, keeps the lock discipline, the memory accounting and the policy in
    step with the cache, and leaves untouched every object that is still read-
    or write-locked when the pass ends, even though eligibility was checked
    without the cache's lock. *)
Theorem l1_eviction_pass_safe (sys : l1_system K M Obj (LRUEvictionPolicy K))
    watermark ratio now clks t t' n :
  lock_inv t (sys_cache sys) → mem_inv (sys_cache sys) → in_sync sys →
  clock_from t (clks 0%nat) t' →
  target_count (length (lru_order (sys_policy sys))) ratio = Ok n →
  ∃ b sys', l1_eviction_cycle watermark ratio now clks sys = Ok (b, sys') ∧
    lock_inv t' (sys_cache sys') ∧ mem_inv (sys_cache sys') ∧ in_sync sys' ∧
    (∀ k e, dget (lm_objects (sys_cache sys)) k = Some e → entry_locked_at t' e = true →
       dget (lm_objects (sys_cache sys')) k = Some e).
Proof.
  intros Hli Hmi Hsy Hc Hn. pose proof (clock_from_le _ _ _ Hc) as Hle.
  assert (lock_inv t' (sys_cache sys)) as Hli'
    by (destruct Hli; constructor; eauto using entries_ok_mono).
  unfold l1_eviction_cycle. destruct (L1Manager.get_memory_usage (sys_cache sys)) as [used total].
  assert (∃ u, usage_ratio used total = Ok u) as [u ->].
  { unfold usage_ratio. destruct (Z.eqb_spec total 0); [by eexists|by apply int_div_ok]. }
  cbn [rbind]. destruct (fltb u watermark); [by exists false, sys|].
  change (ep_get_eviction_actions (sys_policy sys) ratio ?g None)
    with (lru_get_eviction_actions (sys_policy sys) ratio g). unfold lru_get_eviction_actions.
  assert (length (lru_order (sys_policy sys)) = length (dkeys (lru_order (sys_policy sys)))) as Hlen
    by (unfold dkeys; by rewrite length_fmap).
  rewrite Hlen in Hn.
  edestruct (eviction_actions_shape (dkeys (lru_order (sys_policy sys)))) as (acts & -> & Hl); [exact Hn|].
  cbn [rbind]. destruct acts as [|a [|a' acts]]; [by exists true, sys| |simpl in Hl; lia].
  cbn [execute_actions]. unfold execute_eviction_action.
  destruct (delete_exec sys (clks 0%nat) (ea_keys a) t t' Hc Hli Hmi Hsy) as (sys' & -> & ? & ? & ? & ?).
  cbn [rbind]. by exists true, sys'.
Qed.

End lru_system.

(** ** The policies in the controllers *)

(** The L1 eviction loop asks its policy for victims without a cache salt,
    which the isolated policy refuses: with that policy configured, a pass whose
    memory usage reaches the watermark raises ValueError, and the loop has no
    handler for it. *)
Theorem l1_isolated_policy_raises {K} `{EqDecision K} {M Obj Layout Backend}
    {MMO : MemoryManager M Obj Layout Backend} (salt : K → string)
    (sys : l1_system K M Obj (IsolatedLRUEvictionPolicy K)) watermark ratio now clks used total u :
  L1Manager.get_memory_usage (sys_cache sys) = (used, total) → usage_ratio used total = Ok u →
  fltb u watermark = false →
  l1_eviction_cycle (EP := isolated_policy salt) watermark ratio now clks sys = Raise ValueError.
Proof. intros Hu Hr Hw. unfold l1_eviction_cycle. rewrite Hu, Hr. cbn [rbind]. by rewrite Hw. Qed.

Section quota_pass.
Context {K : Type} `{EqDecision K} (cache_salt_of : K → string).

#[local] Instance iso_instance : EvictionPolicy (IsolatedLRUEvictionPolicy K) K :=
  isolated_policy cache_salt_of.

(** Every tracked key is in the bucket of its own salt. *)
Definition buckets_ok (p : IsolatedLRUEvictionPolicy K) : Prop :=
  ∀ s k, k ∈ dkeys (bucket (iso_per_salt_order p) s) → cache_salt_of k = s.

Lemma select_keys_sub (f : option (K → bool)) n pool : ∀ acc k,
  k ∈ select_keys f n acc pool → k ∈ acc ∨ k ∈ pool.
Proof.
  induction pool as [|x pool IH]; intros acc k Hk; simpl in Hk; [by left|].
  destruct (match f with Some g => negb (g x) | None => false end).
  - apply IH in Hk. set_solver.
  - destruct (_ <=? _); [set_solver|]. apply IH in Hk. set_solver.
Qed.

Lemma iso_actions_salt p ratio s acts a k :
  buckets_ok p → iso_get_eviction_actions p ratio None (Some s) = Ok acts →
  a ∈ acts → k ∈ ea_keys a → cache_salt_of k = s.
Proof.
  intros Hb. unfold iso_get_eviction_actions, eviction_actions.
  specialize (Hb s). unfold bucket in Hb.
  destruct (dget (iso_per_salt_order p) s) as [o|]; [|intros [= <-] Ha; by apply not_elem_of_nil in Ha].
  destruct (dkeys o) as [|k0 ks] eqn:Eo; [intros [= <-] Ha; by apply not_elem_of_nil in Ha|].
  destruct (target_count _ _) as [n|]; [|done]. cbn [rbind].
  destruct (n =? 0); [intros [= <-] Ha; by apply not_elem_of_nil in Ha|].
  destruct (select_keys None n [] (k0 :: ks)) as [|x l] eqn:Es;
    [intros [= <-] Ha; by apply not_elem_of_nil in Ha|].
  intros [= <-] ->%list_elem_of_singleton Hk. simpl in Hk. apply Hb. rewrite <- Es in Hk.
  apply select_keys_sub in Hk as [Hk|Hk]; [by apply not_elem_of_nil in Hk|done].
Qed.

Definition all_pending (pending : list (EvictionDestination * list K)) (k : K) : Prop :=
  ∃ d ks, dget pending d = Some ks ∧ k ∈ ks.

Lemma add_pending_all pending (a : EvictionAction K) k :
  all_pending (add_pending pending a) k → all_pending pending k ∨ k ∈ ea_keys a.
Proof.
  intros (d & ks & Hd & Hk). unfold add_pending in Hd. rewrite dget_dset in Hd. case_decide.
  - injection Hd as <-. apply elem_of_app in Hk as [Hk|Hk]; [|by right].
    destruct (dget pending (ea_destination a)) as [ks|] eqn:E; [left; by eexists _, _|].
    by apply not_elem_of_nil in Hk.
  - left. by eexists _, _.
Qed.

Lemma add_pending_wf acts : ∀ pending : list (EvictionDestination * list K),
  dwf pending → dwf (fold_left add_pending acts pending).
Proof. induction acts; intros; simpl; [done|]. apply IHacts. by apply dset_wf. Qed.

Lemma collect_pending_over q (s : L2AdapterEvictionState) salts : ∀ pending r,
  buckets_ok (l2_policy s) → dwf pending → collect_pending q s salts pending = Ok r →
  dwf r ∧ ∀ k, all_pending r k → all_pending pending k ∨
    ∃ b, (cache_salt_of k, b) ∈ salts ∧ over_quota q (l2_trigger_watermark s) (cache_salt_of k) b = true.
Proof.
  induction salts as [|[salt b] salts IH]; intros pending r Hb Hwf Hr; cbn [collect_pending] in Hr.
  - injection Hr as <-. split; [done|]. by left.
  - destruct (over_quota _ _ salt b) eqn:Eo; cbn [negb] in Hr.
    + change (ep_get_eviction_actions (l2_policy s) ?x None (Some salt))
        with (iso_get_eviction_actions (l2_policy s) x None (Some salt)) in Hr.
      destruct (iso_get_eviction_actions _ _ _ _) as [acts|] eqn:Ea; [|done]. cbn [rbind] in Hr.
      destruct (IH _ _ Hb (add_pending_wf acts _ Hwf) Hr) as [Hwf' Hall]. split; [done|].
      intros k Hk. destruct (Hall k Hk) as [Hp|(b' & Hin & Ho)].
      * assert (all_pending pending k ∨ ∃ a, a ∈ acts ∧ k ∈ ea_keys a) as [?|(a & Ha & Hka)]; [|by left|].
        { clear -Hp. revert pending Hp. induction acts as [|a acts IHa]; intros pending Hp; [by left|].
          simpl in Hp. apply IHa in Hp as [Hp|(x & Hx & Hk)]; [|right; exists x; set_solver].
          apply add_pending_all in Hp as [?|?]; [by left|right; exists a; set_solver]. }
        right. exists b. rewrite (iso_actions_salt _ _ _ _ _ _ Hb Ea Ha Hka). split; [left|done].
      * right. exists b'. split; [by right|done].
    + destruct (IH _ _ Hb Hwf Hr) as [Hwf' Hall]. split; [done|]. intros k Hk.
      destruct (Hall k Hk) as [?|(b' & Hin & Ho)]; [by left|]. right. exists b'. split; [by right|done].
Qed.

(** Quota eviction is scoped to the tenants over quota: every key a
    quota-driven pass asks an adapter to delete belongs to a cache salt whose
    reported bytes are positive and not below the watermark times its limit. A
    tenant within its quota never loses a key to another tenant's usage. *)
Theorem quota_pass_scoped q (s : L2AdapterEvictionState) calls c k :
  buckets_ok (l2_policy s) → _check_and_evict cache_salt_of (Some q) s = Ok calls → c ∈ calls →
  k ∈ dc_keys c →
  ∃ b, (cache_salt_of k, b) ∈ au_bytes_by_cache_salt (l2_usage s) ∧ 0 < b ∧
    int_ltb_float b (fmul (l2_trigger_watermark s)
                       (float_of_int (get_limit_bytes q (cache_salt_of k)))) = false.
Proof.
  intros Hb. unfold _check_and_evict. simpl. unfold _check_and_evict_by_cache_salt.
  destruct (collect_pending q s _ []) as [pending|] eqn:E; [|done]. simpl. intros [= <-] Hc Hk.
  destruct (collect_pending_over q s _ [] _ Hb (NoDup_nil_2 : dwf []) E) as [Hwf Hall].
  apply list_elem_of_fmap in Hc as ([d ks] & -> & Hin). simpl in Hk.
  destruct (Hall k) as [(d' & ks' & Hd & _)|(b & Hin' & Ho)].
  - exists d, ks. split; [by apply dget_wf_elem_of|done].
  - done.
  - exists b. unfold over_quota in Ho. apply andb_true_iff in Ho as [H1 H2].
    rewrite negb_true_iff in H1, H2. apply Z.leb_gt in H1. done.
Qed.

End quota_pass.

(** ** Witnesses *)

Lemma buckets_ok_events {K} `{EqDecision K} (salt : K → string) es dst :
  buckets_ok salt (fold_left (iso_event_step salt) es (mkIsolated [] [] dst)).
Proof. intros s k. rewrite bucket_events. apply salt_events_tracked. Qed.

Module ControllerDemo.
Import L1Memory.Demo.

#[local] Instance demo_mm :
  MemoryManager (World ListSortedList.t unit) nat (MemoryLayoutDesc (dtype := unit)) L1BackendType :=
  l1_memory_manager bf16_size.
#[local] Instance demo_mms :
  MemoryManagerSpec (World ListSortedList.t unit) nat (MemoryLayoutDesc (dtype := unit)) L1BackendType :=
  l1_memory_manager_spec bf16_size.

Definition sys0 : l1_system nat (World ListSortedList.t unit) nat (LRUEvictionPolicy nat) :=
  mkL1System (l1_init demo_world 60 60) (lru_init DISCARD).

(** Two keys written at time 5, one of them read-locked; then both touched. *)
Definition ops : list (sys_op (K := nat) (Layout := MemoryLayoutDesc (dtype := unit))) :=
  [SysCache (step 5 (OpReserveWrite [1; 2]%nat [false; false] layout ModeAll));
   SysCache (step 5 (OpFinishWrite [1; 2]%nat)); SysCache (step 5 (OpReserveRead [1]%nat 1));
   SysTouch true [2; 8]%nat].

Lemma ops_timed : timed 5 (cache_ops ops) 5.
Proof. repeat (eapply timed_cons; [apply at_time_clock|apply at_time_clock|]). apply timed_nil. lia. Defined.

Lemma ops_wf : Forall (λ s, l1_op_wf (to_op s) ∧ to_op s ≠ OpClose) (cache_ops ops).
Proof.
  apply Forall_cons. split.
  - split; [|discriminate]. split; [eexists; split; [vm_compute; reflexivity|lia]|].
    apply (bool_decide_unpack _). vm_compute. exact I.
  - repeat (apply Forall_cons; split; [split; [exact I|discriminate]|]). constructor.
Defined.

Lemma demo_nothing_live : ∀ o, ¬ mm_live demo_world o.
Proof. intros o (x & Hx & _). discriminate Hx. Defined.

Lemma demo_mm_ok : mm_ok demo_world.
Proof. split; [exact demo_world_ok|constructor]. Defined.

Lemma policy_tracks_resident_keys_witness :
  ∃ sys, sys_run sys0 ops = Ok sys ∧ dkeys (lru_order (sys_policy sys)) = [1; 2]%nat ∧
    1%nat ∈ dkeys (lm_objects (sys_cache sys)).
Proof.
  destruct (policy_tracks_resident_keys ops 5 5 demo_world 60 60 DISCARD) as (sys & E & H);
    [lia|lia|exact demo_mm_ok|exact demo_nothing_live|exact ops_timed|exact ops_wf|].
  assert (sys = match sys_run sys0 ops with Ok s => s | Raise _ => sys0 end) as Es
    by (unfold sys0; rewrite E; reflexivity).
  assert (dkeys (lru_order (sys_policy sys)) = [1; 2]%nat) as Ek by (rewrite Es; vm_compute; reflexivity).
  exists sys. split; [exact E|]. split; [exact Ek|]. apply H. rewrite Ek. left.
Defined.

(** The system after the run. *)
Definition sys4 : l1_system nat (World ListSortedList.t unit) nat (LRUEvictionPolicy nat) :=
  match sys_run sys0 ops with Ok s => s | Raise _ => sys0 end.

Lemma sys4_ok : lock_inv 5 (sys_cache sys4) ∧ mem_inv (sys_cache sys4) ∧ in_sync sys4.
Proof.
  destruct (sys_run_ok ops sys0 5 5) as (sys & E & H1 & H2 & H3).
  - exact ops_timed.
  - apply l1_init_lock_inv; lia.
  - apply l1_init_mem_inv; [exact demo_mm_ok|exact demo_nothing_live].
  - intros k Hk. inversion Hk.
  - exact ops_wf.
  - unfold sys4. rewrite E. auto.
Qed.

(** With watermark 0 and ratio 1 the pass runs; key 1 is read-locked and stays. *)
Lemma l1_eviction_pass_safe_witness :
  ∃ b sys', l1_eviction_cycle float_0 float_1 (λ _ _, 6) (λ _, at_time 6) sys4 = Ok (b, sys') ∧
    in_sync sys' ∧ b = true ∧ dkeys (lm_objects (sys_cache sys')) = [1%nat].
Proof.
  destruct (l1_eviction_pass_safe sys4 float_0 float_1 (λ _ _, 6) (λ _, at_time 6) 5 6 2)
    as (b & sys' & E & _ & _ & Hs & _).
  - exact (proj1 sys4_ok).
  - exact (proj1 (proj2 sys4_ok)).
  - exact (proj2 (proj2 sys4_ok)).
  - constructor; unfold at_time; intros; lia.
  - vm_compute. reflexivity.
  - exists b, sys'. split; [exact E|]. split; [exact Hs|].
    assert (match l1_eviction_cycle float_0 float_1 (λ _ _, 6) (λ _, at_time 6) sys4 with
            | Ok (b, sys') => b = true ∧ dkeys (lm_objects (sys_cache sys')) = [1%nat]
            | Raise _ => False end) as H by (vm_compute; split; reflexivity).
    rewrite E in H. exact H.
Defined.

Lemma l1_isolated_policy_raises_witness :
  l1_eviction_cycle (EP := isolated_policy (λ _ : nat, "tenant"%string)) float_0 float_1 (λ _ _, 6)
    (λ _, at_time 6) (mkL1System (sys_cache sys4) (mkIsolated [] [] DISCARD)) = Raise ValueError.
Proof.
  eapply (l1_isolated_policy_raises (λ _ : nat, "tenant"%string)
            (mkL1System (sys_cache sys4) (mkIsolated [] [] DISCARD)));
    [vm_compute; reflexivity|vm_compute; reflexivity|vm_compute; reflexivity].
Defined.

Definition salt_of (k : nat) : string := if Nat.even k then "even" else "odd".

Definition iso_demo : IsolatedLRUEvictionPolicy nat :=
  fold_left (iso_event_step salt_of) [Created [1; 2; 3; 4; 5]%nat] (mkIsolated [] [] DISCARD).

(** The tenant "odd" is over its quota of 100 bytes, "even" is not. *)
Definition l2_demo : L2AdapterEvictionState (P := IsolatedLRUEvictionPolicy nat) :=
  mkL2State 0 (mkAdapterUsage float_0 [("odd"%string, 120); ("even"%string, 50)]) iso_demo float_1 demo_half.

Definition quota_demo : QuotaManager := mkQuotaManager [("odd"%string, 100); ("even"%string, 100)] None.

Lemma quota_pass_scoped_witness :
  _check_and_evict (EP := isolated_policy salt_of) salt_of (Some quota_demo) l2_demo
    = Ok [mkDeleteCall [5%nat] (Some (1%nat, ["odd"%string]))] ∧
  ∃ b, ("odd"%string, b) ∈ au_bytes_by_cache_salt (l2_usage l2_demo) ∧ 0 < b.
Proof.
  assert (_check_and_evict (EP := isolated_policy salt_of) salt_of (Some quota_demo) l2_demo
    = Ok [mkDeleteCall [5%nat] (Some (1%nat, ["odd"%string]))]) as E by (vm_compute; reflexivity).
  split; [exact E|].
  destruct (quota_pass_scoped salt_of quota_demo l2_demo _
              (mkDeleteCall [5%nat] (Some (1%nat, ["odd"%string]))) 5%nat
              (buckets_ok_events salt_of _ _) E) as (b & H1 & H2 & _); [left|left|].
  exists b. split; [exact H1|exact H2].
Defined.

End ControllerDemo.
