(* ===== verification/BatchBlob.v ===== *)
(** * The MaKV wire protocol

    [storage_backend/makv_remote/protocol.py]: the length-delimited frame and
    the MKVB batch envelope that carries many objects in one frame. The
    fixed-size headers are [struct] formats in network byte order; packing an
    integer that does not fit its field raises [struct.error], and so does
    reading or writing past the end of a buffer. Object values are byte
    strings, [None] a key the server does not have. *)

From Stdlib Require Import Strings.Byte.
From S2P Require Import Prelude.

Open Scope Z_scope.

#[export] Instance byte_eq_decision : EqDecision byte := Byte.byte_eq_dec.

(** ** [struct]: unsigned big-endian fields *)

Module Struct.

Definition byte_of_Z (z : Z) : byte :=
  match Byte.of_N (Z.to_N z) with Some b => b | None => x00 end.
Definition Z_of_byte (b : byte) : Z := Z.of_N (Byte.to_N b).

(** the [n] low bytes of [z], most significant first *)
Fixpoint be_bytes (n : nat) (z : Z) : list byte :=
  match n with
  | O => []
  | S n => be_bytes n (z / 256) ++ [byte_of_Z (z mod 256)]
  end.

Definition be_val (l : list byte) : Z := foldl (fun acc b => acc * 256 + Z_of_byte b) 0 l.

(** [struct.pack] of one unsigned field of [n] bytes *)
Definition pack_uint (n : nat) (z : Z) : result (list byte) :=
  if (0 <=? z) && (z <? 256 ^ Z.of_nat n) then Ok (be_bytes n z) else Raise StructError.

Definition blen (l : list byte) : Z := Z.of_nat (length l).

(** [view[a:b]] of a bytes-like object, for [0 <= a]: bounds are clipped *)
Definition slice (l : list byte) (a b : Z) : list byte :=
  take (Z.to_nat (b - a)) (drop (Z.to_nat a) l).

(** [blob[a:b] = seg] on a bytearray, for [0 <= a <= b]: bounds are clipped
    and the array takes the length of [seg] at that place *)
Definition slice_assign (l : list byte) (a b : Z) (seg : list byte) : list byte :=
  take (Z.to_nat a) l ++ seg ++ drop (Z.to_nat b) l.

(** [Struct.pack_into(buf, off, ...)] once the fields are packed *)
Definition pack_into (l : list byte) (off : Z) (bs : list byte) : result (list byte) :=
  if (0 <=? off) && (off + blen bs <=? blen l)
  then Ok (slice_assign l off (off + blen bs) bs) else Raise StructError.

(** [Struct.unpack_from(buf, off)]: the field bytes *)
Definition unpack_from (l : list byte) (off size : Z) : result (list byte) :=
  if (0 <=? off) && (off + size <=? blen l) then Ok (slice l off (off + size))
  else Raise StructError.

Definition zeros (n : Z) : list byte := replicate (Z.to_nat n) x00.

(** *** Lemmas *)

Lemma Z_of_byte_range b : 0 <= Z_of_byte b < 256.
Proof. unfold Z_of_byte. pose proof (Byte.to_N_bounded b). lia. Qed.

Lemma Z_of_byte_of_Z z : 0 <= z < 256 → Z_of_byte (byte_of_Z z) = z.
Proof.
  intros Hz. unfold Z_of_byte, byte_of_Z. destruct (Byte.of_N (Z.to_N z)) as [b|] eqn:E.
  - apply Byte.to_of_N in E. rewrite E. lia.
  - apply Byte.of_N_None_iff in E. lia.
Qed.

Lemma be_bytes_length n z : length (be_bytes n z) = n.
Proof. revert z. induction n; intros z; simpl; [done|]. rewrite length_app, IHn. simpl. lia. Qed.

Lemma be_val_be_bytes n z : be_val (be_bytes n z) = z mod 256 ^ Z.of_nat n.
Proof.
  revert z. induction n as [|n IH]; intros z.
  - simpl. by rewrite Z.mod_1_r.
  - cbn [be_bytes]. unfold be_val in *. rewrite foldl_app. cbn [foldl]. rewrite IH.
    rewrite Z_of_byte_of_Z by (apply Z.mod_pos_bound; lia).
    rewrite Nat2Z.inj_succ, Z.pow_succ_r by lia.
    rewrite (Z.rem_mul_r z 256 (256 ^ Z.of_nat n)) by (lia || (apply Z.pow_pos_nonneg; lia)). lia.
Qed.

Lemma be_val_range l : 0 <= be_val l < 256 ^ blen l.
Proof.
  unfold be_val, blen. induction l as [|b l IH] using rev_ind; [done|].
  rewrite foldl_app, length_app. cbn [foldl length]. rewrite Nat2Z.inj_add, Z.pow_add_r by lia.
  pose proof (Z_of_byte_range b). simpl (256 ^ Z.of_nat 1). lia.
Qed.

Lemma be_val_roundtrip n z : 0 <= z < 256 ^ Z.of_nat n → be_val (be_bytes n z) = z.
Proof. intros. rewrite be_val_be_bytes. by apply Z.mod_small. Qed.

Lemma pack_uint_ok n z : 0 <= z < 256 ^ Z.of_nat n → pack_uint n z = Ok (be_bytes n z).
Proof. intros. unfold pack_uint. by rewrite (proj2 (andb_true_iff _ _)) by lia. Qed.

Lemma blen_app l1 l2 : blen (l1 ++ l2) = blen l1 + blen l2.
Proof. unfold blen. rewrite length_app. lia. Qed.
Lemma blen_nonneg l : 0 <= blen l.
Proof. unfold blen. lia. Qed.
Lemma blen_zeros n : 0 <= n → blen (zeros n) = n.
Proof. unfold blen, zeros. rewrite length_replicate. lia. Qed.
Lemma blen_be_bytes n z : blen (be_bytes n z) = Z.of_nat n.
Proof. unfold blen. by rewrite be_bytes_length. Qed.

Lemma slice_app l1 l2 l3 a b :
  a = blen l1 → b = blen l1 + blen l2 → slice (l1 ++ l2 ++ l3) a b = l2.
Proof.
  unfold slice, blen. intros -> ->. rewrite Z.add_simpl_l, !Nat2Z.id.
  by rewrite drop_app_length, take_app_length.
Qed.

Lemma slice_app_0 l2 l3 b : b = blen l2 → slice (l2 ++ l3) 0 b = l2.
Proof. intros. by apply (slice_app []). Qed.

Lemma slice_assign_app l1 l2 l3 a b seg :
  a = blen l1 → b = blen l1 + blen l2 → slice_assign (l1 ++ l2 ++ l3) a b seg = l1 ++ seg ++ l3.
Proof.
  unfold slice_assign, blen. intros -> ->. rewrite Nat2Z.id, take_app_length.
  rewrite Z2Nat.inj_add, !Nat2Z.id by lia.
  f_equal. rewrite app_assoc. f_equal. by rewrite drop_app_length' by (by rewrite length_app).
Qed.

Lemma pack_into_app l1 l2 l3 off bs :
  off = blen l1 → blen bs = blen l2 → pack_into (l1 ++ l2 ++ l3) off bs = Ok (l1 ++ bs ++ l3).
Proof.
  intros Ho Hb. unfold pack_into.
  pose proof (blen_nonneg l1). pose proof (blen_nonneg l3).
  rewrite !blen_app, (proj2 (andb_true_iff _ _)) by lia.
  f_equal. apply slice_assign_app; lia.
Qed.

Lemma unpack_from_app l1 l2 l3 off size :
  off = blen l1 → size = blen l2 → unpack_from (l1 ++ l2 ++ l3) off size = Ok l2.
Proof.
  intros -> ->. unfold unpack_from.
  pose proof (blen_nonneg l1). pose proof (blen_nonneg l3).
  rewrite !blen_app, (proj2 (andb_true_iff _ _)) by lia. f_equal. by apply slice_app.
Qed.

Lemma unpack_from_Ok l off size :
  0 <= off → 0 <= size → off + size <= blen l →
  ∃ bs, unpack_from l off size = Ok bs ∧ blen bs = size.
Proof.
  intros. unfold unpack_from. rewrite (proj2 (andb_true_iff _ _)) by lia. eexists; split; [done|].
  unfold slice, blen in *. rewrite length_take, length_drop. lia.
Qed.

Lemma zeros_app n m : 0 <= n → 0 <= m → zeros (n + m) = zeros n ++ zeros m.
Proof. intros. unfold zeros. by rewrite Z2Nat.inj_add, replicate_add by lia. Qed.

End Struct.

Import Struct.

(** ** The MKVB batch envelope *)

Definition MAX_HEADER_BYTES : Z := 64 * 1024.
Definition DEFAULT_MAX_PAYLOAD_BYTES : Z := 8 * 1024 * 1024 * 1024.
Definition BATCH_BLOB_MAGIC : list byte := [x4d; x4b; x56; x42].
Definition BATCH_BLOB_VERSION : Z := 1.
Definition BATCH_BLOB_ALIGNMENT : Z := 64.
Definition MAX_BATCH_OBJECTS : Z := 4096.

(** [struct.Struct("!4sIIQ")] and its size *)
Definition BATCH_BLOB_HEADER_size : Z := 20.
Definition BATCH_BLOB_HEADER_pack (magic : list byte) (version count total : Z)
  : result (list byte) :=
  (v <-? pack_uint 4 version;
   c <-? pack_uint 4 count;
   t <-? pack_uint 8 total;
   Ok (magic ++ v ++ c ++ t))%py.
Definition BATCH_BLOB_HEADER_unpack (bs : list byte) : list byte * Z * Z * Z :=
  (slice bs 0 4, be_val (slice bs 4 8), be_val (slice bs 8 12), be_val (slice bs 12 20)).

(** [struct.Struct("!B7xQQ")] and its size *)
Definition BATCH_BLOB_ENTRY_size : Z := 24.
Definition BATCH_BLOB_ENTRY_pack (found offset length : Z) : result (list byte) :=
  (f <-? pack_uint 1 found;
   o <-? pack_uint 8 offset;
   l <-? pack_uint 8 length;
   Ok (f ++ zeros 7 ++ o ++ l))%py.
Definition BATCH_BLOB_ENTRY_unpack (bs : list byte) : Z * Z * Z :=
  (be_val (slice bs 0 1), be_val (slice bs 8 16), be_val (slice bs 16 24)).

Definition value := option (list byte).

Definition align_up (offset : Z) : Z :=
  (offset + BATCH_BLOB_ALIGNMENT - 1) / BATCH_BLOB_ALIGNMENT * BATCH_BLOB_ALIGNMENT.

Definition directory_end (count : Z) : Z := BATCH_BLOB_HEADER_size + count * BATCH_BLOB_ENTRY_size.

(** the first loop of [_batch_blob_layout]: [offsets] and the final [payload_offset] *)
Fixpoint offsets_loop (values : list value) (payload_offset : Z) : list (option (Z * Z)) * Z :=
  match values with
  | [] => ([], payload_offset)
  | None :: values =>
      let '(offsets, final) := offsets_loop values payload_offset in (None :: offsets, final)
  | Some v :: values =>
      let payload_offset := align_up payload_offset in
      let length := blen v in
      let '(offsets, final) := offsets_loop values (payload_offset + length) in
      (Some (payload_offset, length) :: offsets, final)
  end.

(** The second loop of [_batch_blob_layout], over [zip(values, offsets,
    strict=True)]. [directory] is the bytearray that is also the first
    element of [segments]: it is threaded through the loop and the caller puts
    its final contents in front of the other segments. *)
Fixpoint segments_loop (directory : list byte) (segments : list (list byte))
    (index written_offset : Z) (values : list value) (offsets : list (option (Z * Z)))
  : result (list byte * list (list byte)) :=
  match values, offsets with
  | [], [] => Ok (directory, segments)
  | value :: values, offset_info :: offsets =>
      let entry_offset := BATCH_BLOB_HEADER_size + index * BATCH_BLOB_ENTRY_size in
      match value, offset_info with
      | Some v, Some (object_offset, length) =>
          (bs <-? BATCH_BLOB_ENTRY_pack 1 object_offset length;
           directory <-? pack_into directory entry_offset bs;
           let padding := object_offset - written_offset in
           let segments := if padding =? 0 then segments else segments ++ [zeros padding] in
           segments_loop directory (segments ++ [v]) (index + 1) (object_offset + length)
             values offsets)%py
      | _, _ =>
          (bs <-? BATCH_BLOB_ENTRY_pack 0 0 0;
           directory <-? pack_into directory entry_offset bs;
           segments_loop directory segments (index + 1) written_offset values offsets)%py
      end
  | _, _ => Raise ValueError
  end.

(** [(directory, segments, payload_offset)], [directory] first in [segments] *)
Definition _batch_blob_layout (values : list value)
  : result (list byte * list (list byte) * Z) :=
  let count := Z.of_nat (length values) in
  (guard negb (MAX_BATCH_OBJECTS <? count) else ValueError;
   let directory_end := directory_end count in
   let '(offsets, payload_offset) := offsets_loop values directory_end in
   hdr <-? BATCH_BLOB_HEADER_pack BATCH_BLOB_MAGIC BATCH_BLOB_VERSION count payload_offset;
   directory <-? pack_into (zeros directory_end) 0 hdr;
   r <-? segments_loop directory [] 0 directory_end values offsets;
   Ok (fst r, fst r :: snd r, payload_offset))%py.

Fixpoint size_loop (values : list value) (payload_offset : Z) : Z :=
  match values with
  | [] => payload_offset
  | None :: values => size_loop values payload_offset
  | Some v :: values => size_loop values (align_up payload_offset + blen v)
  end.

Definition batch_blob_size (values : list value) : result Z :=
  let count := Z.of_nat (length values) in
  (guard negb (MAX_BATCH_OBJECTS <? count) else ValueError;
   Ok (size_loop values (directory_end count)))%py.

(** the copy loop of [encode_batch_blob] *)
Fixpoint copy_segments (blob : list byte) (offset : Z) (segments : list (list byte)) : list byte :=
  match segments with
  | [] => blob
  | segment :: segments =>
      let end_ := offset + blen segment in
      copy_segments (slice_assign blob offset end_ segment) end_ segments
  end.

Definition encode_batch_blob (values : list value) : result (list byte) :=
  (r <-? _batch_blob_layout values;
   let '(_, segments, total_length) := r in
   Ok (copy_segments (zeros total_length) 0 segments))%py.

(** the entry loop of [decode_batch_blob_directory]: [fuel] entries from [index] *)
Fixpoint entries_loop (view : list byte) (directory_end total_length : Z) (fuel : nat) (index : Z)
    (res : list (option (Z * Z))) (ranges : list (Z * Z))
  : result (list (option (Z * Z)) * list (Z * Z)) :=
  match fuel with
  | O => Ok (res, ranges)
  | S fuel =>
      (bs <-? unpack_from view (BATCH_BLOB_HEADER_size + index * BATCH_BLOB_ENTRY_size)
                BATCH_BLOB_ENTRY_size;
       let '(found, offset, length) := BATCH_BLOB_ENTRY_unpack bs in
       guard ((found =? 0) || (found =? 1)) else ValueError;
       if found =? 0 then
         guard ((offset =? 0) && (length =? 0)) else ValueError;
         entries_loop view directory_end total_length fuel (index + 1) (res ++ [None]) ranges
       else
         guard negb ((offset <? directory_end) || (total_length <? offset)) else ValueError;
         guard negb (total_length - offset <? length) else ValueError;
         entries_loop view directory_end total_length fuel (index + 1)
           (res ++ [Some (offset, length)]) (ranges ++ [(offset, offset + length)]))%py
  end.

(** Python's order on pairs of integers, the order of [sorted(ranges)] *)
Definition pair_le (p q : Z * Z) : Prop := p.1 < q.1 ∨ (p.1 = q.1 ∧ p.2 <= q.2).
#[export] Instance pair_le_dec : RelDecision pair_le.
Proof. unfold RelDecision, pair_le. intros. apply _. Defined.

Fixpoint overlap_loop (previous_end : Z) (ranges : list (Z * Z)) : result unit :=
  match ranges with
  | [] => Ok tt
  | (start, end_) :: ranges =>
      (guard negb (start <? previous_end) else ValueError;
       overlap_loop (Z.max previous_end end_) ranges)%py
  end.

Definition decode_batch_blob_directory (directory : list byte) (payload_length expected_count : Z)
  : result (list (option (Z * Z))) :=
  (guard negb ((expected_count <? 0) || (MAX_BATCH_OBJECTS <? expected_count)) else ValueError;
   guard negb ((payload_length <? 0) || (DEFAULT_MAX_PAYLOAD_BYTES <? payload_length)) else ValueError;
   guard negb (blen directory <? BATCH_BLOB_HEADER_size) else ValueError;
   bs <-? unpack_from directory 0 BATCH_BLOB_HEADER_size;
   let '(magic, version, count, total_length) := BATCH_BLOB_HEADER_unpack bs in
   guard bool_decide (magic = BATCH_BLOB_MAGIC) else ValueError;
   guard (version =? BATCH_BLOB_VERSION) else ValueError;
   guard (count =? expected_count) else ValueError;
   guard (total_length =? payload_length) else ValueError;
   let directory_end := directory_end count in
   guard negb ((blen directory <? directory_end) || (total_length <? directory_end)) else ValueError;
   r <-? entries_loop directory directory_end total_length (Z.to_nat count) 0 [] [];
   _ <-? overlap_loop directory_end (merge_sort pair_le (snd r));
   Ok (fst r))%py.

Definition decode_batch_blob (blob : list byte) (expected_count : Z) : result (list value) :=
  (entries <-? decode_batch_blob_directory blob (blen blob) expected_count;
   Ok ((fun e => match e with
                 | None => None
                 | Some (offset, length) => Some (slice blob offset (offset + length))
                 end) <$> entries))%py.

Definition demo_values : list value := [Some [x01; x02; x03]; None; Some []; Some [xff]].
Example demo_roundtrip :
  (b <-? encode_batch_blob demo_values; decode_batch_blob b 4)%py = Ok demo_values.
Proof. vm_compute. reflexivity. Qed.

(** ** Frames

    A header is a JSON object; [json.dumps(...).encode] and [json.loads] are
    used as a codec, so a frame is modelled over any [JsonCodec]: [dumps] may
    fail (an unserialisable value), [loads] may reject its input, and
    [is_object] is [isinstance(header, dict)]. The stream is the bytes not yet
    read; [readexactly] raises [IncompleteReadError] at its end. The writer is
    the list of buffers handed to [writer.write], in order. *)

Class JsonCodec (json : Type) := {
  dumps : json → result (list byte);
  loads : list byte → result json;
  is_object : json → bool;
}.

(** [struct.Struct("!IQ")] *)
Definition FRAME_HEADER_size : Z := 12.
Definition FRAME_HEADER_pack (header_len payload_len : Z) : result (list byte) :=
  (h <-? pack_uint 4 header_len;
   p <-? pack_uint 8 payload_len;
   Ok (h ++ p))%py.
Definition FRAME_HEADER_unpack (bs : list byte) : Z * Z :=
  (be_val (slice bs 0 4), be_val (slice bs 4 12)).

Definition readexactly (stream : list byte) (n : Z) : result (list byte * list byte) :=
  if blen stream <? n then Raise IncompleteReadError
  else Ok (take (Z.to_nat n) stream, drop (Z.to_nat n) stream).

Section frames.
Context {json : Type} `{JsonCodec json}.

(** [(header, payload)] and the rest of the stream *)
Definition read_frame (stream : list byte) (max_payload_bytes : Z)
  : result (json * list byte * list byte) :=
  (r <-? readexactly stream FRAME_HEADER_size;
   let '(header_len, payload_len) := FRAME_HEADER_unpack (fst r) in
   guard negb ((header_len <=? 0) || (MAX_HEADER_BYTES <? header_len)) else ValueError;
   guard negb (max_payload_bytes <? payload_len) else ValueError;
   r <-? readexactly (snd r) header_len;
   header <-? loads (fst r);
   guard is_object header else ValueError;
   r <-? readexactly (snd r) payload_len;
   Ok (header, fst r, snd r))%py.

Definition write_frame (writer : list (list byte)) (header : json) (payload : list byte)
  : result (list (list byte)) :=
  (header_bytes <-? dumps header;
   guard negb (MAX_HEADER_BYTES <? blen header_bytes) else ValueError;
   fh <-? FRAME_HEADER_pack (blen header_bytes) (blen payload);
   Ok (writer ++ [fh; header_bytes; payload]))%py.

Definition write_batch_blob_frame (writer : list (list byte)) (header : json)
    (values : list value) : result (list (list byte)) :=
  (header_bytes <-? dumps header;
   guard negb (MAX_HEADER_BYTES <? blen header_bytes) else ValueError;
   r <-? _batch_blob_layout values;
   let '(_, segments, payload_length) := r in
   n <-? batch_blob_size values;
   guard (payload_length =? n) else RuntimeError;
   fh <-? FRAME_HEADER_pack (blen header_bytes) payload_length;
   Ok (writer ++ [fh; header_bytes] ++ segments))%py.

End frames.

(** ** The layout as one byte string *)

Definition fits (e : option (Z * Z)) : Prop :=
  match e with None => True | Some (o, l) => 0 <= o < 2 ^ 64 ∧ 0 <= l < 2 ^ 64 end.

Definition entry_bytes (e : option (Z * Z)) : list byte :=
  match e with
  | None => be_bytes 1 0 ++ zeros 7 ++ be_bytes 8 0 ++ be_bytes 8 0
  | Some (o, l) => be_bytes 1 1 ++ zeros 7 ++ be_bytes 8 o ++ be_bytes 8 l
  end.

Definition header_bytes (count total : Z) : list byte :=
  BATCH_BLOB_MAGIC ++ be_bytes 4 BATCH_BLOB_VERSION ++ be_bytes 4 count ++ be_bytes 8 total.

Definition offs (values : list value) (pos : Z) : list (option (Z * Z)) :=
  fst (offsets_loop values pos).

Fixpoint payload (values : list value) (pos : Z) : list byte :=
  match values with
  | [] => []
  | None :: values => payload values pos
  | Some v :: values =>
      zeros (align_up pos - pos) ++ v ++ payload values (align_up pos + blen v)
  end.

Definition directory_bytes (values : list value) (count pos : Z) : list byte :=
  header_bytes count (size_loop values pos) ++ concat (entry_bytes <$> offs values pos).

Lemma align_up_le pos : pos <= align_up pos < pos + 64.
Proof.
  unfold align_up, BATCH_BLOB_ALIGNMENT.
  pose proof (Z.div_mod (pos + 64 - 1) 64 ltac:(lia)).
  pose proof (Z.mod_pos_bound (pos + 64 - 1) 64 ltac:(lia)). lia.
Qed.

Lemma align_up_divide pos : (64 | align_up pos).
Proof. unfold align_up, BATCH_BLOB_ALIGNMENT. by apply Z.divide_factor_r. Qed.

Lemma offs_cons_None values pos : offs (None :: values) pos = None :: offs values pos.
Proof. unfold offs. simpl. by destruct (offsets_loop values pos). Qed.
Lemma offs_cons_Some v values pos :
  offs (Some v :: values) pos =
  Some (align_up pos, blen v) :: offs values (align_up pos + blen v).
Proof. unfold offs. simpl. by destruct (offsets_loop values _). Qed.

Lemma offsets_loop_eq values pos :
  offsets_loop values pos = (offs values pos, size_loop values pos).
Proof.
  unfold offs. revert pos. induction values as [|[v|] values IH]; intros pos; simpl; [done|..];
    rewrite IH; done.
Qed.

Lemma offs_length values pos : length (offs values pos) = length values.
Proof.
  revert pos. induction values as [|[v|] values IH]; intros pos;
    rewrite ?offs_cons_None, ?offs_cons_Some; simpl; by rewrite ?IH.
Qed.

Lemma size_loop_ge values pos : pos <= size_loop values pos.
Proof.
  revert pos. induction values as [|[v|] values IH]; intros pos; simpl; [lia| |auto].
  pose proof (IH (align_up pos + blen v)). pose proof (align_up_le pos).
  pose proof (blen_nonneg v). lia.
Qed.

(** every range lies between the start of the payload area and the blob's
    end, on an aligned offset *)
Lemma offs_ranges values pos :
  Forall (fun e => match e with
                   | None => True
                   | Some (o, l) => pos <= o ∧ 0 <= l ∧ o + l <= size_loop values pos ∧ (64 | o)
                   end) (offs values pos).
Proof.
  revert pos. induction values as [|[v|] values IH]; intros pos;
    rewrite ?offs_cons_None, ?offs_cons_Some; [constructor|..].
  - pose proof (align_up_le pos). pose proof (blen_nonneg v).
    constructor; cbn [size_loop].
    + pose proof (size_loop_ge values (align_up pos + blen v)). pose proof (align_up_divide pos).
      split_and!; [lia..|done].
    + eapply Forall_impl; [apply IH|]. intros [[o l]|]; [|done]. simpl.
      intros (?&?&?&?). split_and!; [lia..|done].
  - constructor; [done|]. apply IH.
Qed.

Lemma offs_fits values pos :
  0 <= pos → size_loop values pos < 2 ^ 64 → Forall fits (offs values pos).
Proof.
  intros Hp Hs. eapply Forall_impl; [apply offs_ranges|].
  intros [[o l]|]; simpl; [|done]. intros. lia.
Qed.

Lemma blen_payload values pos : blen (payload values pos) = size_loop values pos - pos.
Proof.
  revert pos. induction values as [|[v|] values IH]; intros pos; cbn [payload size_loop].
  - unfold blen. simpl. lia.
  - pose proof (align_up_le pos). rewrite !blen_app, blen_zeros, IH by lia. lia.
  - apply IH.
Qed.

Lemma blen_entry_bytes e : blen (entry_bytes e) = 24.
Proof. destruct e as [[o l]|]; cbn [entry_bytes]; by rewrite !blen_app, !blen_be_bytes, blen_zeros. Qed.

Lemma blen_entries es : blen (concat (entry_bytes <$> es)) = 24 * Z.of_nat (length es).
Proof.
  induction es as [|e es IH]; [done|]. rewrite fmap_cons. cbn [concat length].
  rewrite blen_app, blen_entry_bytes, IH. lia.
Qed.

Lemma blen_header_bytes c t : blen (header_bytes c t) = 20.
Proof. unfold header_bytes. by rewrite !blen_app, !blen_be_bytes. Qed.

Lemma entry_pack_Some o l :
  fits (Some (o, l)) → BATCH_BLOB_ENTRY_pack 1 o l = Ok (entry_bytes (Some (o, l))).
Proof.
  intros [? ?]. unfold BATCH_BLOB_ENTRY_pack.
  by rewrite !pack_uint_ok by (change (256 ^ Z.of_nat 8) with (2 ^ 64); lia).
Qed.

Lemma entry_pack_None : BATCH_BLOB_ENTRY_pack 0 0 0 = Ok (entry_bytes None).
Proof. done. Qed.

Lemma header_pack c t :
  0 <= c <= MAX_BATCH_OBJECTS → 0 <= t < 2 ^ 64 →
  BATCH_BLOB_HEADER_pack BATCH_BLOB_MAGIC BATCH_BLOB_VERSION c t = Ok (header_bytes c t).
Proof.
  unfold MAX_BATCH_OBJECTS. intros. unfold BATCH_BLOB_HEADER_pack.
  rewrite !pack_uint_ok; [done|..]; unfold BATCH_BLOB_VERSION;
    change (256 ^ Z.of_nat 8) with (2 ^ 64); change (256 ^ Z.of_nat 4) with (2 ^ 32); lia.
Qed.

Lemma entry_unpack e :
  fits e →
  BATCH_BLOB_ENTRY_unpack (entry_bytes e) =
  match e with None => (0, 0, 0) | Some (o, l) => (1, o, l) end.
Proof.
  destruct e as [[o l]|]; [|done]. intros [? ?]. unfold BATCH_BLOB_ENTRY_unpack. cbn [entry_bytes].
  rewrite (slice_app_0 (be_bytes 1 1)) by done.
  rewrite (app_assoc (be_bytes 1 1)).
  rewrite (slice_app (be_bytes 1 1 ++ zeros 7) (be_bytes 8 o)) by (by rewrite blen_app, ?blen_be_bytes).
  rewrite (app_assoc _ (be_bytes 8 o)), <- (app_nil_r (be_bytes 8 l)).
  rewrite slice_app by (by rewrite !blen_app, ?blen_be_bytes).
  rewrite !be_val_roundtrip by (change (256 ^ Z.of_nat 8) with (2 ^ 64); lia). done.
Qed.

Lemma header_unpack c t :
  0 <= c <= MAX_BATCH_OBJECTS → 0 <= t < 2 ^ 64 →
  BATCH_BLOB_HEADER_unpack (header_bytes c t) = (BATCH_BLOB_MAGIC, BATCH_BLOB_VERSION, c, t).
Proof.
  unfold MAX_BATCH_OBJECTS. intros Hc Ht. unfold BATCH_BLOB_HEADER_unpack, header_bytes.
  rewrite (slice_app_0 BATCH_BLOB_MAGIC) by done.
  rewrite (slice_app BATCH_BLOB_MAGIC) by (by rewrite ?blen_be_bytes).
  rewrite (app_assoc BATCH_BLOB_MAGIC).
  rewrite (slice_app (BATCH_BLOB_MAGIC ++ _)) by (by rewrite !blen_app, !blen_be_bytes).
  rewrite (app_assoc _ (be_bytes 4 c)), <- (app_nil_r (be_bytes 8 t)).
  rewrite slice_app by (by rewrite !blen_app, ?blen_be_bytes).
  rewrite !be_val_roundtrip; [done|..];
    change (256 ^ Z.of_nat 8) with (2 ^ 64); change (256 ^ Z.of_nat 4) with (2 ^ 32); 
    unfold BATCH_BLOB_VERSION; lia.
Qed.

(** ** The encoder *)

Lemma segments_loop_ok values : ∀ P segs index pos,
  Forall fits (offs values pos) → blen P = 20 + index * 24 →
  ∃ segs',
    segments_loop (P ++ zeros (24 * Z.of_nat (length values))) segs index pos values
      (offs values pos)
    = Ok (P ++ concat (entry_bytes <$> offs values pos), segs') ∧
    concat segs' = concat segs ++ payload values pos.
Proof.
  assert (Hstep : ∀ (P : list byte) (e : option (Z * Z)) (n : nat) index,
    blen P = 20 + index * 24 →
    pack_into (P ++ zeros (24 * Z.of_nat (S n)))
      (BATCH_BLOB_HEADER_size + index * BATCH_BLOB_ENTRY_size) (entry_bytes e)
    = Ok ((P ++ entry_bytes e) ++ zeros (24 * Z.of_nat n))).
  { intros P e n index HP.
    replace (24 * Z.of_nat (S n)) with (24 + 24 * Z.of_nat n) by lia.
    rewrite zeros_app by lia. rewrite pack_into_app; [by rewrite app_assoc| |].
    - unfold BATCH_BLOB_HEADER_size, BATCH_BLOB_ENTRY_size. lia.
    - by rewrite blen_entry_bytes, blen_zeros. }
  induction values as [|[v|] values IH]; intros P segs index pos Hfit HP.
  - exists segs. simpl. by rewrite !app_nil_r.
  - rewrite offs_cons_Some in *. apply Forall_cons in Hfit as [Hf Hfit].
    cbn [segments_loop length]. rewrite entry_pack_Some by done. cbn [rbind].
    rewrite Hstep by done. cbn [rbind]. rewrite fmap_cons. cbn [concat].
    destruct (IH (P ++ entry_bytes (Some (align_up pos, blen v)))
      ((if align_up pos - pos =? 0 then segs else segs ++ [zeros (align_up pos - pos)]) ++ [v])
      (index + 1) (align_up pos + blen v)) as (segs' & -> & Hc); [done| |].
    + rewrite blen_app, blen_entry_bytes. lia.
    + exists segs'. split; [by rewrite <- app_assoc|]. rewrite Hc. cbn [payload].
      destruct (Z.eqb_spec (align_up pos - pos) 0) as [E|E];
        rewrite ?concat_app; simpl; rewrite ?app_nil_r, <- ?app_assoc; [|done].
      by rewrite E.
  - rewrite offs_cons_None in *. apply Forall_cons in Hfit as [Hf Hfit].
    cbn [segments_loop length]. rewrite entry_pack_None. cbn [rbind].
    rewrite Hstep by done. cbn [rbind]. rewrite fmap_cons. cbn [concat].
    destruct (IH (P ++ entry_bytes None) segs (index + 1) pos) as (segs' & -> & Hc); [done| |].
    + rewrite blen_app, blen_entry_bytes. lia.
    + exists segs'. split; [by rewrite <- app_assoc | done].
Qed.

Definition blob_bytes (values : list value) : list byte :=
  let count := Z.of_nat (length values) in
  directory_bytes values count (directory_end count) ++ payload values (directory_end count).

Lemma blen_directory_bytes values count pos :
  blen (directory_bytes values count pos) = directory_end (Z.of_nat (length values)).
Proof.
  unfold directory_bytes. rewrite blen_app, blen_header_bytes, blen_entries, offs_length.
  unfold directory_end, BATCH_BLOB_HEADER_size, BATCH_BLOB_ENTRY_size. lia.
Qed.

Section encodable.
Context (values : list value).
Let count := Z.of_nat (length values).
Let size := size_loop values (directory_end count).
Context (Hcount : count <= MAX_BATCH_OBJECTS) (Hsize : size < 2 ^ 64).

Lemma directory_end_nonneg : 0 <= directory_end count.
Proof. unfold directory_end, BATCH_BLOB_HEADER_size, BATCH_BLOB_ENTRY_size, count. lia. Qed.

Lemma encodable_fits : Forall fits (offs values (directory_end count)).
Proof. apply offs_fits; [apply directory_end_nonneg | done]. Qed.

Lemma batch_blob_layout_ok :
  ∃ segs, _batch_blob_layout values
      = Ok (directory_bytes values count (directory_end count),
            directory_bytes values count (directory_end count) :: segs, size) ∧
    concat segs = payload values (directory_end count).
Proof.
  unfold _batch_blob_layout. fold count. rewrite offsets_loop_eq.
  replace (MAX_BATCH_OBJECTS <? count) with false by (symmetry; by apply Z.ltb_ge). cbn [negb].
  assert (0 <= size) by (etrans; [apply directory_end_nonneg | apply size_loop_ge]).
  fold size. rewrite header_pack by (split; done || (unfold count; lia)). cbn [rbind].
  replace (zeros (directory_end count)) with ([] ++ zeros 20 ++ zeros (24 * count)).
  2:{ rewrite app_nil_l, <- zeros_app by (unfold count; lia). f_equal.
      unfold directory_end, BATCH_BLOB_HEADER_size, BATCH_BLOB_ENTRY_size. lia. }
  rewrite pack_into_app by (by rewrite ?blen_header_bytes). cbn [rbind]. rewrite app_nil_l.
  destruct (segments_loop_ok values (header_bytes count size) [] 0 (directory_end count)
    encodable_fits ltac:(by rewrite blen_header_bytes)) as (segs & Hs & Hc).
  fold count in Hs. rewrite Hs. exists segs. split; [done|]. by rewrite Hc.
Qed.

Lemma blen_blob : blen (blob_bytes values) = size.
Proof.
  unfold blob_bytes. rewrite blen_app, blen_directory_bytes, blen_payload. fold count size. lia.
Qed.

Lemma batch_blob_size_ok : batch_blob_size values = Ok size.
Proof.
  unfold batch_blob_size. fold count. by replace (MAX_BATCH_OBJECTS <? count) with false by (symmetry; by apply Z.ltb_ge).
Qed.

Lemma copy_segments_ok segs : ∀ A,
  copy_segments (A ++ zeros (blen (concat segs))) (blen A) segs = A ++ concat segs.
Proof.
  induction segs as [|s segs IH]; intros A; cbn [copy_segments concat]; [done|].
  rewrite blen_app, zeros_app by apply blen_nonneg.
  rewrite slice_assign_app; [|done|by rewrite blen_zeros by apply blen_nonneg].
  rewrite app_assoc, <- blen_app, IH. by rewrite app_assoc.
Qed.

Lemma encode_batch_blob_ok : encode_batch_blob values = Ok (blob_bytes values).
Proof.
  unfold encode_batch_blob. destruct batch_blob_layout_ok as (segs & -> & Hc). cbn [rbind].
  f_equal. rewrite <- blen_blob.
  pose proof (copy_segments_ok (directory_bytes values count (directory_end count) :: segs) []) as H.
  cbn [concat] in H. rewrite Hc in H. exact H.
Qed.

End encodable.

(** ** The decoder *)

Definition entry_ok (directory_end total : Z) (e : option (Z * Z)) : Prop :=
  match e with
  | None => True
  | Some (o, l) => directory_end <= o ∧ 0 <= l ∧ o + l <= total
  end.

Definition ranges_of (es : list (option (Z * Z))) : list (Z * Z) :=
  omap (fun e => match e with Some (o, l) => Some (o, o + l) | None => None end) es.

Definition precedes (p q : Z * Z) : Prop := p.2 <= q.1.
Definition range_disjoint (p q : Z * Z) : Prop := precedes p q ∨ precedes q p.

Lemma overlap_loop_iff rs : ∀ pe,
  match overlap_loop pe rs with
  | Ok _ => Forall (λ r, pe <= r.1) rs ∧ StronglySorted precedes rs
  | Raise e => e = ValueError ∧ ¬ (Forall (λ r, pe <= r.1) rs ∧ StronglySorted precedes rs)
  end.
Proof.
  induction rs as [|[a b] rs IH]; intros pe; [repeat constructor|]. cbn [overlap_loop].
  destruct (Z.ltb_spec a pe); simpl negb; cbn iota.
  - split; [done|]. intros [[? ?]%Forall_cons ?]. simpl in *. lia.
  - specialize (IH (Z.max pe b)). unfold precedes in *. destruct overlap_loop as [u|e].
    + destruct IH as [Hf HS]. split.
      * constructor; [done|]. eapply Forall_impl; [done|]. simpl. lia.
      * constructor; [done|]. eapply Forall_impl; [done|]. simpl. lia.
    + destruct IH as [-> Hn]. split; [done|]. intros [[_ Hf]%Forall_cons [HS Hb]%StronglySorted_inv].
      apply Hn. split; [|done]. rewrite Forall_forall in *. intros x Hx.
      specialize (Hf x Hx). specialize (Hb x Hx). simpl in *. lia.
Qed.

#[export] Instance pair_le_antisymm : AntiSymm eq pair_le.
Proof. intros [a b] [c d]. unfold pair_le. simpl. intros. f_equal; lia. Qed.
#[export] Instance pair_le_trans : Transitive pair_le.
Proof. intros x y z. unfold pair_le. lia. Qed.
#[export] Instance pair_le_total : Total pair_le.
Proof. intros x y. unfold pair_le. lia. Qed.

Lemma pair_le_sorted_unique rs :
  Forall (λ r, r.1 <= r.2) rs → StronglySorted precedes rs → merge_sort pair_le rs = rs.
Proof.
  intros Hf HS. apply (StronglySorted_unique pair_le).
  - apply (StronglySorted_merge_sort _).
  - clear -Hf HS. induction HS as [|r rs HS IH Hr]; [constructor|].
    apply Forall_cons in Hf as [H1 Hf]. constructor; [auto|].
    rewrite Forall_forall in *. intros q Hq. specialize (Hr q Hq). specialize (Hf q Hq).
    unfold precedes, pair_le in *. lia.
  - apply merge_sort_Permutation.
Qed.

Lemma entries_loop_encoded view de total es : ∀ P R index res rs,
  view = P ++ concat (entry_bytes <$> es) ++ R → blen P = 20 + index * 24 →
  Forall fits es → Forall (entry_ok de total) es →
  entries_loop view de total (length es) index res rs = Ok (res ++ es, rs ++ ranges_of es).
Proof.
  induction es as [|e es IH]; intros P R index res rs Hv HP Hfit Hok.
  - simpl. by rewrite !app_nil_r.
  - apply Forall_cons in Hfit as [Hf Hfit]. apply Forall_cons in Hok as [Ho Hok].
    rewrite fmap_cons in Hv. cbn [concat] in Hv. rewrite <- app_assoc in Hv.
    cbn [length entries_loop]. rewrite Hv at 1.
    rewrite unpack_from_app by
      (rewrite ?blen_entry_bytes; unfold BATCH_BLOB_HEADER_size, BATCH_BLOB_ENTRY_size; lia).
    cbn [rbind]. rewrite entry_unpack by done.
    assert (Hnext : ∀ res rs, entries_loop view de total (length es) (index + 1) res rs =
      Ok (res ++ es, rs ++ ranges_of es)).
    { intros. apply (IH (P ++ entry_bytes e) R); try done; [by rewrite <- app_assoc|].
      rewrite blen_app, blen_entry_bytes. lia. }
    destruct e as [[o l]|]; cbn -[entries_loop Z.ltb].
    + simpl in Ho. rewrite (proj2 (Z.ltb_ge _ _)), (proj2 (Z.ltb_ge _ _)), (proj2 (Z.ltb_ge _ _))
        by lia.
      cbn -[entries_loop Z.ltb]. rewrite Hnext, <- !app_assoc. done.
    + rewrite Hnext, <- app_assoc. done.
Qed.

Lemma ranges_of_offs values : ∀ pos,
  Forall (λ r, pos <= r.1) (ranges_of (offs values pos)) ∧
  Forall (λ r, r.1 <= r.2) (ranges_of (offs values pos)) ∧
  StronglySorted precedes (ranges_of (offs values pos)).
Proof.
  induction values as [|[v|] values IH]; intros pos;
    rewrite ?offs_cons_None, ?offs_cons_Some; [repeat constructor| |apply IH].
  cbn. fold (ranges_of (offs values (align_up pos + blen v))).
  destruct (IH (align_up pos + blen v)) as (H1 & H2 & H3).
  pose proof (align_up_le pos). pose proof (blen_nonneg v).
  split_and!; constructor; simpl; try done; try lia.
  all: eapply Forall_impl; [exact H1|]; unfold precedes; simpl; lia.
Qed.

Definition cut (blob : list byte) (e : option (Z * Z)) : value :=
  match e with None => None | Some (o, l) => Some (slice blob o (o + l)) end.

Lemma cut_offs values : ∀ P R pos,
  pos = blen P → cut (P ++ payload values pos ++ R) <$> offs values pos = values.
Proof.
  induction values as [|[v|] values IH]; intros P R pos Hp; [done| |].
  - rewrite offs_cons_Some. cbn [payload]. rewrite fmap_cons, <- !app_assoc.
    pose proof (align_up_le pos). f_equal.
    + cbn [cut]. f_equal. rewrite app_assoc.
      apply slice_app; rewrite blen_app, blen_zeros by lia; lia.
    + rewrite (app_assoc P), (app_assoc _ v). apply IH.
      rewrite !blen_app, blen_zeros by lia. lia.
  - rewrite offs_cons_None. cbn [payload]. rewrite fmap_cons. f_equal. by apply IH.
Qed.

Lemma entries_loop_sound view de total fuel : ∀ index res rs,
  0 <= index → 20 + (index + Z.of_nat fuel) * 24 <= blen view →
  match entries_loop view de total fuel index res rs with
  | Ok (res', rs') =>
      ∃ es, res' = res ++ es ∧ rs' = rs ++ ranges_of es ∧ length es = fuel ∧
            Forall (entry_ok de total) es
  | Raise e => e = ValueError
  end.
Proof.
  induction fuel as [|fuel IH]; intros index res rs Hi Hb.
  - exists []. by rewrite !app_nil_r.
  - cbn [entries_loop].
    destruct (unpack_from_Ok view (BATCH_BLOB_HEADER_size + index * BATCH_BLOB_ENTRY_size)
      BATCH_BLOB_ENTRY_size) as (bs & -> & Hbs);
      [unfold BATCH_BLOB_HEADER_size, BATCH_BLOB_ENTRY_size; lia..|]. cbn [rbind].
    destruct (BATCH_BLOB_ENTRY_unpack bs) as [[found o] l] eqn:Eu.
    assert (0 <= l).
    { unfold BATCH_BLOB_ENTRY_unpack in Eu. injection Eu as <- <- <-. apply be_val_range. }
    destruct ((found =? 0) || (found =? 1)); [|done].
    destruct (found =? 0).
    + destruct ((o =? 0) && (l =? 0)); [|done].
      specialize (IH (index + 1) (res ++ [None]) rs ltac:(lia) ltac:(lia)).
      destruct entries_loop as [[res' rs']|]; [|done].
      destruct IH as (es & -> & -> & <- & ?). exists (None :: es).
      rewrite <- app_assoc. split_and!; [done..|]. by constructor.
    + destruct (Z.ltb_spec o de), (Z.ltb_spec total o); simpl negb; cbn iota; try done.
      destruct (Z.ltb_spec (total - o) l); simpl negb; cbn iota; [done|].
      specialize (IH (index + 1) (res ++ [Some (o, l)]) (rs ++ [(o, o + l)]) ltac:(lia) ltac:(lia)).
      destruct entries_loop as [[res' rs']|]; [|done].
      destruct IH as (es & -> & -> & <- & ?). exists (Some (o, l) :: es).
      rewrite <- !app_assoc. split_and!; [done..|]. constructor; [|done]. simpl. lia.
Qed.

(** a read inside the first [n] bytes does not see the rest *)
Lemma unpack_from_take l n off size :
  0 <= off → 0 <= size → off + size <= n →
  unpack_from (take (Z.to_nat n) l) off size = unpack_from l off size.
Proof.
  intros. unfold unpack_from, blen. rewrite length_take.
  assert ((off + size <=? Z.of_nat (Z.to_nat n `min` length l)) = (off + size <=? Z.of_nat (length l))) as ->.
  { apply eq_true_iff_eq. rewrite !Z.leb_le. lia. }
  destruct (_ && _); [|done]. f_equal. unfold slice.
  apply list_eq. intros i. rewrite !lookup_take, !lookup_drop, lookup_take.
  repeat case_decide; done || lia.
Qed.

Lemma entries_loop_take view de total fuel n : ∀ index res rs,
  0 <= index → 20 + (index + Z.of_nat fuel) * 24 <= n →
  entries_loop (take (Z.to_nat n) view) de total fuel index res rs
  = entries_loop view de total fuel index res rs.
Proof.
  induction fuel as [|fuel IH]; intros index res rs Hi Hb; [done|]. cbn [entries_loop].
  rewrite unpack_from_take by (unfold BATCH_BLOB_HEADER_size, BATCH_BLOB_ENTRY_size; lia).
  destruct unpack_from as [bs|]; [|done]. cbn [rbind].
  destruct (BATCH_BLOB_ENTRY_unpack bs) as [[found o] l]. by rewrite !IH by lia.
Qed.

(** ** Frame lemmas *)

Lemma readexactly_app l1 l2 n : n = blen l1 → readexactly (l1 ++ l2) n = Ok (l1, l2).
Proof.
  intros ->. unfold readexactly. pose proof (blen_nonneg l2). rewrite blen_app.
  replace (_ <? _) with false by (symmetry; apply Z.ltb_ge; lia).
  unfold blen. by rewrite Nat2Z.id, take_app_length, drop_app_length.
Qed.

Lemma frame_header_pack h p :
  0 <= h < 2 ^ 32 → 0 <= p < 2 ^ 64 → FRAME_HEADER_pack h p = Ok (be_bytes 4 h ++ be_bytes 8 p).
Proof.
  intros. unfold FRAME_HEADER_pack.
  by rewrite !pack_uint_ok by
    (change (256 ^ Z.of_nat 8) with (2 ^ 64); change (256 ^ Z.of_nat 4) with (2 ^ 32); lia).
Qed.

Lemma frame_header_unpack h p :
  0 <= h < 2 ^ 32 → 0 <= p < 2 ^ 64 →
  FRAME_HEADER_unpack (be_bytes 4 h ++ be_bytes 8 p) = (h, p).
Proof.
  intros. unfold FRAME_HEADER_unpack.
  rewrite (slice_app_0 (be_bytes 4 h)) by done.
  rewrite <- (app_nil_r (be_bytes 8 p)), slice_app by (by rewrite ?blen_be_bytes).
  rewrite !be_val_roundtrip by
    (change (256 ^ Z.of_nat 8) with (2 ^ 64); change (256 ^ Z.of_nat 4) with (2 ^ 32); lia).
  done.
Qed.

Section frame_lemmas.
Context {json : Type} `{JsonCodec json}.

(** a header whose serialisation the receiver can read back *)
Record sendable (header : json) (hb : list byte) : Prop := {
  sd_dumps : dumps header = Ok hb;
  sd_loads : loads hb = Ok header;
  sd_object : is_object header = true;
  sd_nonempty : 0 < blen hb;
  sd_bound : blen hb <= MAX_HEADER_BYTES }.

Lemma read_frame_ok header hb payload rest maxp :
  sendable header hb → blen payload <= maxp → blen payload < 2 ^ 64 →
  read_frame ((be_bytes 4 (blen hb) ++ be_bytes 8 (blen payload)) ++ hb ++ payload ++ rest) maxp
  = Ok (header, payload, rest).
Proof.
  intros [Hd Hl Ho Hn Hb] Hm H64. pose proof (blen_nonneg payload). unfold MAX_HEADER_BYTES in Hb.
  unfold read_frame. rewrite readexactly_app by (by rewrite blen_app, !blen_be_bytes).
  cbn [rbind fst snd]. rewrite frame_header_unpack by lia.
  unfold MAX_HEADER_BYTES.
  rewrite (proj2 (Z.leb_gt _ _)), !(proj2 (Z.ltb_ge _ _)) by lia. cbn [negb orb].
  rewrite readexactly_app by done. cbn [rbind fst snd]. rewrite Hl. cbn [rbind]. rewrite Ho.
  by rewrite readexactly_app by done.
Qed.

Lemma write_frame_ok writer header hb payload :
  sendable header hb → blen payload < 2 ^ 64 →
  write_frame writer header payload
  = Ok (writer ++ [be_bytes 4 (blen hb) ++ be_bytes 8 (blen payload); hb; payload]).
Proof.
  intros [Hd Hl Ho Hn Hb] H64. pose proof (blen_nonneg payload).
  unfold write_frame. rewrite Hd. cbn [rbind].
  rewrite (proj2 (Z.ltb_ge _ _)) by lia. cbn [negb]. unfold MAX_HEADER_BYTES in Hb.
  by rewrite frame_header_pack by lia.
Qed.

Lemma write_batch_blob_frame_ok writer header hb values :
  sendable header hb →
  Z.of_nat (length values) <= MAX_BATCH_OBJECTS → blen (blob_bytes values) < 2 ^ 64 →
  ∃ segs, write_batch_blob_frame writer header values
    = Ok (writer ++ [be_bytes 4 (blen hb) ++ be_bytes 8 (blen (blob_bytes values)); hb] ++ segs) ∧
    concat segs = blob_bytes values.
Proof.
  intros [Hd Hl Ho Hn Hb] Hc. rewrite blen_blob. intros Hs.
  pose proof (directory_end_nonneg values). pose proof (size_loop_ge values
    (directory_end (Z.of_nat (length values)))).
  destruct (batch_blob_layout_ok values Hc Hs) as (segs & Hlay & Hseg).
  unfold write_batch_blob_frame. rewrite Hd. cbn [rbind].
  rewrite (proj2 (Z.ltb_ge _ _)) by lia. cbn [negb].
  rewrite Hlay. cbn [rbind]. rewrite batch_blob_size_ok by done. cbn [rbind].
  rewrite Z.eqb_refl. unfold MAX_HEADER_BYTES in Hb.
  rewrite frame_header_pack by lia. cbn [rbind].
  eexists; split; [done|]. cbn [concat]. by rewrite Hseg.
Qed.

End frame_lemmas.

(** ** Theorems *)

Lemma decode_directory_encoded values :
  Z.of_nat (length values) <= MAX_BATCH_OBJECTS →
  blen (blob_bytes values) <= DEFAULT_MAX_PAYLOAD_BYTES →
  decode_batch_blob_directory (blob_bytes values) (blen (blob_bytes values))
    (Z.of_nat (length values))
  = Ok (offs values (directory_end (Z.of_nat (length values)))).
Proof.
  intros Hc Hs. pose proof (blen_nonneg (payload values (directory_end (Z.of_nat (length values))))) as Hp.
  unfold decode_batch_blob_directory. rewrite blen_blob in *. set (c := Z.of_nat (length values)) in *.
  set (size := size_loop values (directory_end c)) in *.
  pose proof (directory_end_nonneg values) as Hd0. pose proof (size_loop_ge values (directory_end c)) as Hsz.
  fold c in Hd0. fold size in Hsz.
  assert (H64 : size < 2 ^ 64) by (unfold DEFAULT_MAX_PAYLOAD_BYTES in Hs; lia).
  assert (Hc0 : 0 <= c) by (unfold c; lia).
  assert (Hde : directory_end c = 20 + c * 24) by done.
  replace ((c <? 0) || (MAX_BATCH_OBJECTS <? c)) with false
    by (symmetry; apply orb_false_iff; rewrite !Z.ltb_ge; lia). cbn [negb].
  replace ((size <? 0) || (DEFAULT_MAX_PAYLOAD_BYTES <? size)) with false
    by (symmetry; apply orb_false_iff; rewrite !Z.ltb_ge; lia). cbn [negb].
  unfold BATCH_BLOB_HEADER_size at 1. rewrite (proj2 (Z.ltb_ge _ _)) by lia. cbn [negb].
  assert (Hblob : blob_bytes values = [] ++ header_bytes c size
    ++ concat (entry_bytes <$> offs values (directory_end c)) ++ payload values (directory_end c)).
  { unfold blob_bytes, directory_bytes. by rewrite <- app_assoc. }
  rewrite Hblob at 1. rewrite unpack_from_app by (by rewrite ?blen_header_bytes). cbn [rbind].
  rewrite header_unpack by lia. rewrite bool_decide_true by done. cbn iota.
  rewrite !Z.eqb_refl. cbn iota.
  replace ((size <? directory_end c) || (size <? directory_end c)) with false
    by (symmetry; apply orb_false_iff; rewrite !Z.ltb_ge; lia). cbn [negb].
  replace (Z.to_nat c) with (length (offs values (directory_end c)))
    by (rewrite offs_length; unfold c; lia).
  erewrite (entries_loop_encoded _ _ _ _ (header_bytes c size)).
  - cbn [rbind fst snd app]. destruct (ranges_of_offs values (directory_end c)) as (H1 & H2 & H3).
    rewrite pair_le_sorted_unique by done.
    pose proof (overlap_loop_iff (ranges_of (offs values (directory_end c))) (directory_end c)) as Ho.
    destruct overlap_loop; [done|]. by destruct Ho as [_ []].
  - exact Hblob.
  - rewrite blen_header_bytes. lia.
  - apply offs_fits; done.
  - eapply Forall_impl; [apply offs_ranges|]. intros [[o l]|]; simpl; [|done]. intros (?&?&?&?). done.
Qed.

(** C37. The batch envelope round trips: when [batch_blob_size] accepts the
    values and reports at most the payload limit, [encode_batch_blob] builds a
    blob of exactly that size, every present object starts on a 64-byte
    boundary, and [decode_batch_blob] returns the values, missing keys
    included. *)
Theorem batch_blob_roundtrip (values : list value) (n : Z) :
  batch_blob_size values = Ok n → n <= DEFAULT_MAX_PAYLOAD_BYTES →
  ∃ blob entries,
    encode_batch_blob values = Ok blob ∧ blen blob = n ∧
    decode_batch_blob_directory blob n (Z.of_nat (length values)) = Ok entries ∧
    (∀ o l, Some (o, l) ∈ entries → (BATCH_BLOB_ALIGNMENT | o)) ∧
    decode_batch_blob blob (Z.of_nat (length values)) = Ok values.
Proof.
  unfold batch_blob_size. destruct (Z.ltb_spec MAX_BATCH_OBJECTS (Z.of_nat (length values))); [done|].
  cbn [negb]. intros [= <-] Hn. rewrite <- blen_blob in Hn |- *.
  assert (blen (blob_bytes values) < 2 ^ 64) by (unfold DEFAULT_MAX_PAYLOAD_BYTES in Hn; lia).
  exists (blob_bytes values), (offs values (directory_end (Z.of_nat (length values)))).
  split_and!; [|done|by apply decode_directory_encoded| |].
  - apply encode_batch_blob_ok; [done|]. by rewrite <- blen_blob.
  - intros o l Hin. pose proof (offs_ranges values (directory_end (Z.of_nat (length values)))) as Hf.
    rewrite Forall_forall in Hf. apply (Hf _ Hin).
  - unfold decode_batch_blob. rewrite decode_directory_encoded by done. cbn [rbind].
    change (Ok (cut (blob_bytes values)
                  <$> offs values (directory_end (Z.of_nat (length values)))) = Ok values).
    f_equal. rewrite <- (app_nil_r (blob_bytes values)). unfold blob_bytes. rewrite <- app_assoc.
    apply cut_offs. by rewrite blen_directory_bytes.
Qed.

Lemma batch_blob_roundtrip_witness :
  ∃ blob entries, encode_batch_blob demo_values = Ok blob ∧ blen blob = 193 ∧
    decode_batch_blob_directory blob 193 4 = Ok entries ∧
    (∀ o l, Some (o, l) ∈ entries → (BATCH_BLOB_ALIGNMENT | o)) ∧
    decode_batch_blob blob 4 = Ok demo_values.
Proof. apply (batch_blob_roundtrip demo_values 193); [reflexivity | vm_compute; congruence]. Defined.

Lemma guard_valid_count ec :
  negb ((ec <? 0) || (MAX_BATCH_OBJECTS <? ec)) = true → 0 <= ec <= MAX_BATCH_OBJECTS.
Proof. rewrite negb_true_iff, orb_false_iff, !Z.ltb_ge. done. Qed.

(** [decode_batch_blob_directory] is safe on arbitrary bytes: it either
    raises [ValueError], never a [struct.error], or returns one entry per
    expected object, and then every present range lies after the directory and
    inside the declared payload and no two ranges share a byte. *)
Theorem decode_directory_safe (directory : list byte) (payload_length expected_count : Z) :
  match decode_batch_blob_directory directory payload_length expected_count with
  | Ok entries =>
      Z.of_nat (length entries) = expected_count ∧
      directory_end expected_count <= blen directory ∧
      Forall (entry_ok (directory_end expected_count) payload_length) entries ∧
      StronglySorted range_disjoint (ranges_of entries)
  | Raise e => e = ValueError
  end.
Proof.
  unfold decode_batch_blob_directory.
  destruct (negb (_ || (MAX_BATCH_OBJECTS <? _))) eqn:Hec; [|done]. apply guard_valid_count in Hec.
  destruct (negb (_ || _)); [|done].
  destruct (Z.ltb_spec (blen directory) BATCH_BLOB_HEADER_size); [done|]. cbn [negb].
  destruct (unpack_from_Ok directory 0 BATCH_BLOB_HEADER_size) as (bs & -> & _);
    [unfold BATCH_BLOB_HEADER_size in *; lia..|]. cbn [rbind].
  destruct (BATCH_BLOB_HEADER_unpack bs) as [[[magic version] count] total].
  case_bool_decide; [|done]. destruct (version =? _); [|done].
  destruct (Z.eqb_spec count expected_count) as [->|]; [|done].
  destruct (Z.eqb_spec total payload_length) as [->|]; [|done].
  destruct (Z.ltb_spec (blen directory) (directory_end expected_count)); [done|].
  destruct (payload_length <? directory_end expected_count); [done|]. cbn [negb orb].
  pose proof (entries_loop_sound directory (directory_end expected_count) payload_length
    (Z.to_nat expected_count) 0 [] [] ltac:(done)) as Hl.
  destruct entries_loop as [[res rs]|e].
  - destruct Hl as (es & -> & -> & Hlen & Hok).
    { unfold directory_end, BATCH_BLOB_HEADER_size, BATCH_BLOB_ENTRY_size in *. lia. }
    cbn [rbind fst snd app].
    pose proof (overlap_loop_iff (merge_sort pair_le (ranges_of es)) (directory_end expected_count)) as Ho.
    destruct overlap_loop; [|by destruct Ho]. destruct Ho as [_ HS]. cbn [rbind].
    split_and!; [lia|done|done|].
    eapply StronglySorted_sym_perm; [|apply (merge_sort_Permutation pair_le)|].
    + unfold range_disjoint. tauto.
    + induction HS as [|r rs' HS IH Hr]; constructor; [done|].
      eapply Forall_impl; [done|]. unfold range_disjoint. tauto.
  - apply Hl. unfold directory_end, BATCH_BLOB_HEADER_size, BATCH_BLOB_ENTRY_size in *. lia.
Qed.

(** The streaming reader, which has only the directory bytes when it
    decides how much to read, validates exactly as the decoder of the whole
    blob does: on every blob the outcome, result or error, is the same. *)
Theorem streaming_directory_equiv (blob : list byte) (payload_length expected_count : Z) :
  decode_batch_blob_directory (take (Z.to_nat (directory_end expected_count)) blob)
    payload_length expected_count
  = decode_batch_blob_directory blob payload_length expected_count.
Proof.
  unfold decode_batch_blob_directory.
  destruct (negb (_ || (MAX_BATCH_OBJECTS <? _))) eqn:Hec; [|done]. apply guard_valid_count in Hec.
  destruct (negb (_ || _)); [|done].
  assert (Hde : 20 <= directory_end expected_count)
    by (unfold directory_end, BATCH_BLOB_HEADER_size, BATCH_BLOB_ENTRY_size; lia).
  assert (Hlt : ∀ m, m <= directory_end expected_count →
    (blen (take (Z.to_nat (directory_end expected_count)) blob) <? m) = (blen blob <? m)).
  { intros m Hm. unfold blen. rewrite length_take. apply eq_true_iff_eq. rewrite !Z.ltb_lt. lia. }
  rewrite Hlt by (unfold BATCH_BLOB_HEADER_size; lia).
  destruct (negb _); [|done].
  rewrite unpack_from_take by (unfold BATCH_BLOB_HEADER_size; lia).
  destruct unpack_from as [bs|]; [|done]. cbn [rbind].
  destruct (BATCH_BLOB_HEADER_unpack bs) as [[[magic version] count] total].
  case_bool_decide; [|done]. destruct (version =? _); [|done].
  destruct (Z.eqb_spec count expected_count) as [->|]; [|done].
  destruct (Z.eqb_spec total payload_length) as [->|]; [|done].
  rewrite Hlt by done. destruct (negb (_ || _)); [|done].
  by rewrite entries_loop_take by
    (unfold directory_end, BATCH_BLOB_HEADER_size, BATCH_BLOB_ENTRY_size in *; lia).
Qed.

(** Frames are self-delimiting: the bytes [write_frame] appends to a
    stream are read back by [read_frame] as the same header and payload, and
    what follows on the stream is left untouched. *)
Theorem frame_roundtrip {json} `{JsonCodec json} writer (header : json) hb payload rest maxp :
  sendable header hb → blen payload <= maxp → blen payload < 2 ^ 64 →
  ∃ out, write_frame writer header payload = Ok (writer ++ out) ∧
         read_frame (concat out ++ rest) maxp = Ok (header, payload, rest).
Proof.
  intros Hs Hm H64. eexists; split; [by apply write_frame_ok|].
  cbn [concat]. rewrite app_nil_r, <- (app_assoc _ (hb ++ payload)), <- (app_assoc hb).
  by apply read_frame_ok.
Qed.

(** The zero-copy writer is equivalent to the copying one: for values
    within the limits [write_batch_blob_frame] hands the transport exactly the
    bytes [write_frame] would send for the blob of [encode_batch_blob], and
    its layout check never fires. *)
Theorem batch_frame_zero_copy {json} `{JsonCodec json} writer (header : json) hb values n :
  sendable header hb → batch_blob_size values = Ok n → n < 2 ^ 64 →
  ∃ blob out1 out2,
    encode_batch_blob values = Ok blob ∧
    write_batch_blob_frame writer header values = Ok (writer ++ out1) ∧
    write_frame writer header blob = Ok (writer ++ out2) ∧
    concat out1 = concat out2.
Proof.
  unfold batch_blob_size. destruct (Z.ltb_spec MAX_BATCH_OBJECTS (Z.of_nat (length values))); [done|].
  cbn [negb]. intros Hs [= <-] Hn. pose proof Hn as Hb. rewrite <- blen_blob in Hb.
  destruct (write_batch_blob_frame_ok writer header hb values Hs) as (segs & Hw & Hseg); [done..|].
  exists (blob_bytes values). eexists _, _. split_and!.
  - by apply encode_batch_blob_ok.
  - exact Hw.
  - by apply write_frame_ok.
  - simpl. by rewrite Hseg, app_nil_r.
Qed.

(** *** Witnesses: headers restricted to the empty JSON object *)

Module FrameDemo.

#[export] Instance empty_object_codec : JsonCodec unit := {|
  dumps _ := Ok [x7b; x7d];
  loads l := if decide (l = [x7b; x7d]) then Ok tt else Raise ValueError;
  is_object _ := true |}.

Lemma empty_sendable : sendable tt [x7b; x7d].
Proof. constructor; vm_compute; congruence. Qed.

Lemma frame_roundtrip_witness :
  ∃ out, write_frame [] tt [x01; x02] = Ok ([] ++ out) ∧
         read_frame (concat out ++ [xff]) 16 = Ok (tt, [x01; x02], [xff]).
Proof.
  apply (frame_roundtrip [] tt [x7b; x7d] [x01; x02] [xff] 16);
    [apply empty_sendable | vm_compute; congruence..].
Defined.

Lemma batch_frame_zero_copy_witness :
  ∃ blob out1 out2,
    encode_batch_blob demo_values = Ok blob ∧
    write_batch_blob_frame [] tt demo_values = Ok ([] ++ out1) ∧
    write_frame [] tt blob = Ok ([] ++ out2) ∧ concat out1 = concat out2.
Proof.
  apply (batch_frame_zero_copy [] tt [x7b; x7d] demo_values 193);
    [apply empty_sendable | reflexivity | vm_compute; congruence].
Defined.

End FrameDemo.
