(* ===== verification/Bitmap.v ===== *)
(** * The native bitmap

    [csrc/lmcache_native/bitmap.cpp], the bit set behind lookup results, load
    plans and retain masks. Bits are packed eight to a byte, least significant
    first; the last byte may be partial. Sizes and indices are [size_t], kept as
    integers here; [u8] is the cast to [uint8_t]. Vector reads and writes are at
    indices the invariant [bm_wf] keeps in range. *)

From S2P Require Import Prelude.

Open Scope Z_scope.
Local Set Default Proof Using "Type".

Record Bitmap := MkBitmap { bm_size : Z; bm_data : list Z }.

Definition u8 (x : Z) : Z := Z.land x 255.
Definition kBitsPerByte : Z := 8.
Definition byte_index (i : Z) : Z := i / kBitsPerByte.
Definition bit_offset (i : Z) : Z := i mod kBitsPerByte.

Definition byte_at (data : list Z) (k : Z) : Z := default 0 (data !! Z.to_nat k).

(** the [n] low bits of a word, least significant first *)
Definition low_bits (n : nat) (x : Z) : list bool := (fun i => Z.testbit x (Z.of_nat i)) <$> seq 0 n.

Definition count_true (l : list bool) : nat := length (List.filter id l).
Fixpoint leading_false (l : list bool) : nat :=
  match l with
  | false :: l => S (leading_false l)
  | _ => O
  end.

(** [__builtin_popcount], [__builtin_ctz] and [__builtin_clz] on 32 bits *)
Definition builtin_popcount (x : Z) : Z := Z.of_nat (count_true (low_bits 32 x)).
Definition builtin_ctz (x : Z) : Z := Z.of_nat (leading_false (low_bits 32 x)).
Definition builtin_clz (x : Z) : Z := 31 - Z.log2 x.

Definition num_bytes (size : Z) : Z := if size =? 0 then 0 else (size - 1) / kBitsPerByte + 1.

(** [Bitmap(size)] *)
Definition bitmap (size : Z) : Bitmap :=
  {| bm_size := size; bm_data := replicate (Z.to_nat (num_bytes size)) 0 |}.

(** [std::fill] over the bytes [[a, b)] *)
Definition fill (data : list Z) (a b v : Z) : list Z :=
  imap (fun k x => if (a <=? Z.of_nat k) && (Z.of_nat k <? b) then v else x) data.

Definition upd (data : list Z) (k : Z) (f : Z -> Z) : list Z := alter f (Z.to_nat k) data.

(** [Bitmap(size, prefix_bits)] *)
Definition bitmap_prefix (size prefix_bits : Z) : Bitmap :=
  if (prefix_bits =? 0) || (size =? 0) then bitmap size
  else
    let prefix_bits := if size <? prefix_bits then size else prefix_bits in
    let full_bytes := prefix_bits / kBitsPerByte in
    let data := fill (bm_data (bitmap size)) 0 full_bytes 255 in
    let remaining := prefix_bits mod kBitsPerByte in
    {| bm_size := size;
       bm_data := if 0 <? remaining
                  then upd data full_bytes (fun _ => u8 (Z.shiftl 1 remaining - 1))
                  else data |}.

Definition set (b : Bitmap) (i : Z) : Bitmap :=
  if bm_size b <=? i then b
  else {| bm_size := bm_size b;
          bm_data := upd (bm_data b) (byte_index i)
                       (fun x => Z.lor x (u8 (Z.shiftl 1 (bit_offset i)))) |}.

Definition batched_set (b : Bitmap) (indices : list Z) : Bitmap := foldl set b indices.

Definition set_range (b : Bitmap) (start end_ : Z) : Bitmap :=
  let end_ := if bm_size b <? end_ then bm_size b else end_ in
  if end_ <=? start then b
  else
    let first_byte := start / kBitsPerByte in
    let last_byte := (end_ - 1) / kBitsPerByte in
    let head_low := bit_offset start in
    {| bm_size := bm_size b;
       bm_data :=
         if first_byte =? last_byte then
           let width := end_ - start in
           upd (bm_data b) first_byte
             (fun x => Z.lor x (u8 (Z.shiftl (Z.shiftl 1 width - 1) head_low)))
         else
           let data := upd (bm_data b) first_byte (fun x => Z.lor x (u8 (Z.shiftl 255 head_low))) in
           let data := fill data (first_byte + 1) last_byte 255 in
           let tail_width := end_ - last_byte * kBitsPerByte in
           upd data last_byte (fun x => Z.lor x (u8 (Z.shiftl 1 tail_width - 1))) |}.

Definition clear (b : Bitmap) (i : Z) : Bitmap :=
  if bm_size b <=? i then b
  else {| bm_size := bm_size b;
          bm_data := upd (bm_data b) (byte_index i)
                       (fun x => Z.land x (u8 (Z.lnot (Z.shiftl 1 (bit_offset i))))) |}.

Definition test (b : Bitmap) (i : Z) : bool :=
  if bm_size b <=? i then false
  else Z.odd (Z.shiftr (byte_at (bm_data b) (byte_index i)) (bit_offset i)).

Definition last_masked (b : Bitmap) (remaining : Z) : Z :=
  Z.land (default 0 (last (bm_data b))) (u8 (Z.shiftl 1 remaining - 1)).

Definition popcount (b : Bitmap) : Z :=
  match bm_data b with
  | [] => 0
  | _ =>
      let num_full_bytes := bm_size b / kBitsPerByte in
      let count := foldl (fun c x => c + builtin_popcount x) 0
                     (take (Z.to_nat num_full_bytes) (bm_data b)) in
      let remaining_bits := bm_size b mod kBitsPerByte in
      if 0 <? remaining_bits then count + builtin_popcount (last_masked b remaining_bits)
      else count
  end.

(** the loop of [clz] over the full bytes: [inl] is the early return *)
Fixpoint clz_loop (count : Z) (data : list Z) : Z + Z :=
  match data with
  | [] => inr count
  | x :: data =>
      if x =? 0 then clz_loop (count + kBitsPerByte) data else inl (count + builtin_ctz x)
  end.

Definition clz (b : Bitmap) : Z :=
  if bm_size b =? 0 then 0
  else
    match clz_loop 0 (take (Z.to_nat (bm_size b / kBitsPerByte)) (bm_data b)) with
    | inl count => count
    | inr count =>
        let remaining_bits := bm_size b mod kBitsPerByte in
        if 0 <? remaining_bits then
          let last_byte := last_masked b remaining_bits in
          if last_byte =? 0 then count + remaining_bits else count + builtin_ctz last_byte
        else count
    end.

(** [operator~] *)
Definition bnot (b : Bitmap) : Bitmap :=
  let data := (fun x => u8 (Z.lnot x)) <$> bm_data b in
  let remaining_bits := bm_size b mod kBitsPerByte in
  {| bm_size := bm_size b;
     bm_data := if 0 <? remaining_bits
                then upd data (Z.of_nat (length data) - 1)
                       (fun x => Z.land x (u8 (Z.shiftl 1 remaining_bits - 1)))
                else data |}.

Definition clo (b : Bitmap) : Z := clz (bnot b).

(** [highest_set_bit]: bytes from the last one down, [k] bytes left *)
Fixpoint highest_loop (data : list Z) (k : nat) : Z :=
  match k with
  | O => -1
  | S k =>
      let value := byte_at data (Z.of_nat k) in
      if value =? 0 then highest_loop data k
      else Z.of_nat k * kBitsPerByte + (31 - builtin_clz value)
  end.
Definition highest_set_bit (b : Bitmap) : Z := highest_loop (bm_data b) (length (bm_data b)).

Definition zip_bytes (f : Z -> Z -> Z) (b1 b2 : Bitmap) : Bitmap :=
  let result := bitmap (if bm_size b1 <=? bm_size b2 then bm_size b1 else bm_size b2) in
  {| bm_size := bm_size result;
     bm_data := imap (fun k _ => f (byte_at (bm_data b1) (Z.of_nat k))
                                   (byte_at (bm_data b2) (Z.of_nat k))) (bm_data result) |}.
(** [operator&] and [operator|] *)
Definition band (b1 b2 : Bitmap) : Bitmap := zip_bytes Z.land b1 b2.
Definition bor (b1 b2 : Bitmap) : Bitmap := zip_bytes Z.lor b1 b2.

(** the [while (byte != 0)] loop of [get_indices]; a byte has at most eight
    set bits, so eight rounds empty it *)
Fixpoint byte_indices (fuel : nat) (byte : Z) : list Z :=
  match fuel with
  | O => []
  | S fuel =>
      if byte =? 0 then []
      else builtin_ctz byte :: byte_indices fuel (Z.land byte (u8 (byte - 1)))
  end.

Definition get_indices (b : Bitmap) : list Z :=
  concat (imap (fun k byte =>
    List.filter (fun i => i <? bm_size b)
      ((fun bit => Z.of_nat k * kBitsPerByte + bit) <$> byte_indices 8 byte)) (bm_data b)).

(** [gather]: the items at the set positions *)
Definition gather {A} (b : Bitmap) (items : list A) : list A :=
  omap (fun i => if i <? Z.of_nat (length items) then items !! Z.to_nat i else None) (get_indices b).

(** ** Bits of the packed representation *)

Definition is_byte (x : Z) : Prop := Z.land x 255 = x.

Definition bitd (data : list Z) (i : Z) : bool := Z.testbit (byte_at data (i / 8)) (i mod 8).

Record bm_wf (b : Bitmap) : Prop := {
  wf_size : 0 <= bm_size b;
  wf_length : Z.of_nat (length (bm_data b)) = num_bytes (bm_size b);
  wf_bytes : Forall is_byte (bm_data b);
  wf_tail : ∀ i, bm_size b <= i → bitd (bm_data b) i = false }.

Lemma num_bytes_bounds size : 0 <= size → 8 * num_bytes size - 8 < size <= 8 * num_bytes size ∨ (size = 0 ∧ num_bytes size = 0).
Proof. unfold num_bytes, kBitsPerByte. intros. destruct (Z.eqb_spec size 0); [by right|]. left. 
  pose proof (Z.div_mod (size - 1) 8 ltac:(lia)). pose proof (Z.mod_pos_bound (size - 1) 8 ltac:(lia)). lia.
Qed.

Lemma byte_range i : 0 <= i → 0 <= i mod 8 < 8 ∧ i = 8 * (i / 8) + i mod 8 ∧ 0 <= i / 8.
Proof.
  intros. pose proof (Z.div_mod i 8 ltac:(lia)). pose proof (Z.mod_pos_bound i 8 ltac:(lia)).
  pose proof (Z.div_pos i 8). lia.
Qed.

Lemma byte_split k n : 0 <= n < 8 → (8 * k + n) / 8 = k ∧ (8 * k + n) mod 8 = n.
Proof.
  intros. rewrite Z.add_comm, Z.mul_comm, Z.div_add, Z.mod_add by lia.
  by rewrite Z.div_small, Z.mod_small by done.
Qed.

Lemma num_bytes_index size i : 0 <= i < size → i / 8 < num_bytes size.
Proof. intros. pose proof (num_bytes_bounds size). pose proof (byte_range i). lia. Qed.

Lemma u8_spec x n : 0 <= n → Z.testbit (u8 x) n = Z.testbit x n && (n <? 8).
Proof.
  intros. unfold u8. change 255 with (Z.ones 8). rewrite Z.land_spec. f_equal.
  destruct (Z.ltb_spec n 8); [by rewrite Z.ones_spec_low by lia | by rewrite Z.ones_spec_high by lia].
Qed.

Lemma is_byte_u8 x : is_byte (u8 x).
Proof. unfold is_byte, u8. by rewrite <- Z.land_assoc, Z.land_diag. Qed.
Lemma is_byte_0 : is_byte 0.
Proof. done. Qed.
Lemma is_byte_255 : is_byte 255.
Proof. done. Qed.
Lemma is_byte_lor x y : is_byte x → is_byte y → is_byte (Z.lor x y).
Proof. unfold is_byte. intros Hx Hy. by rewrite Z.land_lor_distr_l, Hx, Hy. Qed.
Lemma is_byte_land_r x y : is_byte y → is_byte (Z.land x y).
Proof. unfold is_byte. intros Hy. by rewrite <- Z.land_assoc, Hy. Qed.
Lemma is_byte_land_l x y : is_byte x → is_byte (Z.land x y).
Proof. rewrite Z.land_comm. apply is_byte_land_r. Qed.
Lemma is_byte_high x n : is_byte x → 8 <= n → Z.testbit x n = false.
Proof.
  unfold is_byte. intros Hx Hn. rewrite <- Hx. change (Z.land x 255) with (u8 x).
  rewrite u8_spec by lia. rewrite (proj2 (Z.ltb_ge n 8)) by lia. apply andb_false_r.
Qed.
Lemma is_byte_range x : is_byte x → 0 <= x < 256.
Proof.
  unfold is_byte. intros Hx. assert (0 <= x) by (rewrite <- Hx; apply Z.land_nonneg; lia).
  split; [done|]. rewrite <- Hx. change 255 with (Z.ones 8). rewrite Z.land_ones by lia.
  apply Z.mod_pos_bound. lia.
Qed.

Create HintDb bitmap_db.
#[local] Hint Resolve is_byte_u8 is_byte_0 is_byte_255 is_byte_lor is_byte_land_l is_byte_land_r : bitmap_db.

Lemma mask_spec w n : 0 <= w → 0 <= n → Z.testbit (Z.shiftl 1 w - 1) n = (n <? w).
Proof.
  intros. rewrite Z.shiftl_1_l, Z.sub_1_r, <- Z.ones_equiv.
  destruct (Z.ltb_spec n w); [by rewrite Z.ones_spec_low by lia | by rewrite Z.ones_spec_high by lia].
Qed.

Lemma byte_at_upd data k j f :
  0 <= k < Z.of_nat (length data) → 0 <= j →
  byte_at (upd data k f) j = if j =? k then f (byte_at data k) else byte_at data j.
Proof.
  intros Hk Hj. unfold byte_at, upd. rewrite list_lookup_alter.
  destruct (Z.eqb_spec j k) as [->|].
  - rewrite decide_True by done.
    destruct (lookup_lt_is_Some_2 data (Z.to_nat k)) as [x ->]; [lia | done].
  - rewrite decide_False by lia. done.
Qed.

Lemma byte_at_fill data a b v j :
  0 <= j < Z.of_nat (length data) →
  byte_at (fill data a b v) j = if (a <=? j) && (j <? b) then v else byte_at data j.
Proof.
  intros Hj. unfold byte_at, fill. rewrite list_lookup_imap.
  destruct (lookup_lt_is_Some_2 data (Z.to_nat j)) as [x ->]; [lia|]. simpl.
  rewrite Z2Nat.id by lia. done.
Qed.

Lemma byte_at_high data j : Z.of_nat (length data) <= j → byte_at data j = 0.
Proof. intros. unfold byte_at. by rewrite lookup_ge_None_2 by lia. Qed.

Lemma bitd_high data i : 8 * Z.of_nat (length data) <= i → bitd data i = false.
Proof.
  intros. unfold bitd. pose proof (byte_range i). rewrite byte_at_high by lia. apply Z.bits_0.
Qed.

Lemma byte_at_is_byte data j : Forall is_byte data → is_byte (byte_at data j).
Proof.
  intros Hf. unfold byte_at. destruct (data !! Z.to_nat j) eqn:E; [|done].
  by apply (Forall_lookup_1 _ _ _ _ Hf E).
Qed.

Lemma data_ext d1 d2 :
  length d1 = length d2 → Forall is_byte d1 → Forall is_byte d2 →
  (∀ i, 0 <= i → bitd d1 i = bitd d2 i) → d1 = d2.
Proof.
  intros Hl H1 H2 Hb. apply (list_eq_same_length _ _ (length d1)); [done | done |].
  intros k x y Hk Hx Hy. apply Z.bits_inj'. intros n Hn.
  destruct (Z.lt_ge_cases n 8).
  - specialize (Hb (8 * Z.of_nat k + n) ltac:(lia)). unfold bitd in Hb.
    destruct (byte_split (Z.of_nat k) n) as [-> ->] in Hb; [lia|].
    unfold byte_at in Hb. rewrite Nat2Z.id, Hx, Hy in Hb. done.
  - rewrite !is_byte_high; [done|..]; try done.
    + exact (Forall_lookup_1 _ _ _ _ H2 Hy).
    + exact (Forall_lookup_1 _ _ _ _ H1 Hx).
Qed.

Lemma test_bitd b i : test b i = (i <? bm_size b) && bitd (bm_data b) i.
Proof.
  unfold test, bitd, byte_index, bit_offset, kBitsPerByte. rewrite Z.leb_antisym.
  destruct (i <? bm_size b); [|done]. simpl. by rewrite Z.testbit_odd.
Qed.

Lemma bitd_test b i : bm_wf b → bitd (bm_data b) i = test b i.
Proof.
  intros Hw. rewrite test_bitd. destruct (Z.ltb_spec i (bm_size b)); [done|].
  by apply (wf_tail b Hw).
Qed.

(** two well-formed bitmaps with the same size and tests are equal *)
Lemma bitmap_ext b1 b2 :
  bm_wf b1 → bm_wf b2 → bm_size b1 = bm_size b2 →
  (∀ i, 0 <= i < bm_size b1 → test b1 i = test b2 i) → b1 = b2.
Proof.
  intros H1 H2 Hs Ht. destruct b1 as [s d1], b2 as [s' d2]. simpl in *. subst s'. f_equal.
  pose proof (wf_length _ H1). pose proof (wf_length _ H2). simpl in *.
  apply data_ext; [lia|apply H1|apply H2|]. intros i Hi.
  change d1 with (bm_data (MkBitmap s d1)) at 1. change d2 with (bm_data (MkBitmap s d2)).
  rewrite !bitd_test by done. destruct (Z.lt_ge_cases i s); [auto|].
  rewrite !test_bitd. simpl. by rewrite (proj2 (Z.ltb_ge _ _)) by lia.
Qed.

(** ** Updates, bit by bit *)

Lemma upd_length data k f : length (upd data k f) = length data.
Proof. apply length_alter. Qed.
Lemma fill_length data a b v : length (fill data a b v) = length data.
Proof. apply length_imap. Qed.

Lemma upd_bytes data k f :
  Forall is_byte data → (∀ x, is_byte x → is_byte (f x)) → Forall is_byte (upd data k f).
Proof. intros Hd Hf. apply Forall_alter; [done|]. intros x ? ?. auto. Qed.
Lemma fill_bytes data a b v : Forall is_byte data → is_byte v → Forall is_byte (fill data a b v).
Proof.
  intros Hd Hv. apply Forall_lookup. intros k x. unfold fill. rewrite list_lookup_imap.
  destruct (data !! k) eqn:E; [|done]. simpl. intros [= <-].
  destruct (_ && _); [done|]. by apply (Forall_lookup_1 _ _ _ _ Hd E).
Qed.

Lemma bitd_upd data k f i :
  0 <= k < Z.of_nat (length data) → 0 <= i →
  bitd (upd data k f) i =
  if i / 8 =? k then Z.testbit (f (byte_at data k)) (i mod 8) else bitd data i.
Proof.
  intros Hk Hi. unfold bitd. destruct (byte_range i Hi) as (?&?&?).
  rewrite byte_at_upd by lia. by destruct (_ =? _).
Qed.

Lemma bitd_upd_lor data k m i :
  0 <= k < Z.of_nat (length data) → 0 <= i →
  bitd (upd data k (λ x, Z.lor x m)) i = bitd data i || ((i / 8 =? k) && Z.testbit m (i mod 8)).
Proof.
  intros Hk Hi. rewrite bitd_upd by done. destruct (Z.eqb_spec (i / 8) k) as [<-|].
  - by rewrite Z.lor_spec.
  - by rewrite orb_false_r.
Qed.

Lemma bitd_fill data a b i :
  0 <= i → i / 8 < Z.of_nat (length data) →
  bitd (fill data a b 255) i = bitd data i || ((a <=? i / 8) && (i / 8 <? b)).
Proof.
  intros Hi Hk. unfold bitd. destruct (byte_range i Hi) as (?&?&?). rewrite byte_at_fill by lia.
  destruct (_ && _); [|by rewrite orb_false_r]. rewrite orb_true_r.
  change 255 with (Z.ones 8). by apply Z.ones_spec_low.
Qed.

Lemma replicate_bitd n i : bitd (replicate n 0) i = false.
Proof.
  unfold bitd, byte_at. destruct (replicate n 0 !! _) eqn:E; simpl; [|apply Z.bits_0].
  apply lookup_replicate in E as [-> _]. apply Z.bits_0.
Qed.

Lemma bitmap_wf size : 0 <= size → bm_wf (bitmap size).
Proof.
  intros Hs. constructor; simpl; [done| |by apply Forall_replicate|].
  - rewrite length_replicate. pose proof (num_bytes_bounds size Hs). lia.
  - intros. apply replicate_bitd.
Qed.

Lemma test_bitmap size i : test (bitmap size) i = false.
Proof. rewrite test_bitd. simpl. rewrite replicate_bitd. apply andb_false_r. Qed.

(** an operation that changes the bits below the size only *)
Lemma wf_update b data spec :
  bm_wf b → length data = length (bm_data b) → Forall is_byte data →
  (∀ i, 0 <= i < 8 * Z.of_nat (length data) → bitd data i = spec i) →
  (∀ i, bm_size b <= i → spec i = false) →
  bm_wf (MkBitmap (bm_size b) data) ∧
  (∀ i, 0 <= i → test (MkBitmap (bm_size b) data) i = (i <? bm_size b) && spec i).
Proof.
  intros Hw Hl Hb Hs Ht.
  assert (Hall : ∀ i, 0 <= i → i < bm_size b → i < 8 * Z.of_nat (length data)).
  { intros i ? ?. rewrite Hl, (wf_length b Hw). pose proof (num_bytes_bounds (bm_size b)). lia. }
  pose proof (wf_size b Hw). split.
  - constructor; simpl; [done| |done|].
    + rewrite Hl. apply Hw.
    + intros i Hi. destruct (Z.lt_ge_cases i (8 * Z.of_nat (length data))).
      * rewrite Hs by lia. auto.
      * by apply bitd_high.
  - intros i Hi. rewrite test_bitd. simpl. destruct (Z.ltb_spec i (bm_size b)); [|done].
    by rewrite Hs by auto.
Qed.

Lemma set_ok b i : bm_wf b → 0 <= i →
  bm_wf (set b i) ∧ bm_size (set b i) = bm_size b ∧
  (∀ j, 0 <= j → test (set b i) j = test b j || ((j =? i) && (i <? bm_size b))).
Proof.
  intros Hw Hi. unfold set. destruct (Z.leb_spec (bm_size b) i).
  { split_and!; [done..|]. intros. rewrite (proj2 (Z.ltb_ge _ _)) by lia. by rewrite andb_false_r, orb_false_r. }
  unfold byte_index, bit_offset, kBitsPerByte.
  destruct (byte_range i Hi) as (?&?&?). pose proof (num_bytes_index (bm_size b) i).
  pose proof (wf_length b Hw).
  destruct (wf_update b (upd (bm_data b) (i / 8) (λ x, Z.lor x (u8 (Z.shiftl 1 (i mod 8)))))
    (λ j, bitd (bm_data b) j || (j =? i))) as [Hw' Ht]; try done.
  - apply upd_length.
  - apply upd_bytes; [apply Hw|]. auto with bitmap_db.
  - rewrite upd_length. intros j Hj. destruct (byte_range j) as (?&?&?); [lia|].
    rewrite bitd_upd_lor by lia. f_equal. rewrite u8_spec by lia.
    rewrite Z.shiftl_1_l, Z.pow2_bits_eqb by lia.
    apply eq_true_iff_eq. rewrite !andb_true_iff, !Z.eqb_eq, Z.ltb_lt. lia.
  - intros j Hj. rewrite (wf_tail b Hw) by done. apply Z.eqb_neq. lia.
  - split_and!; [done..|]. intros j Hj. rewrite Ht, test_bitd by done.
    rewrite (proj2 (Z.ltb_lt i _)) by done. rewrite andb_true_r.
    destruct (Z.ltb_spec j (bm_size b)); [done|]. symmetry. apply Z.eqb_neq. lia.
Qed.

Lemma clear_ok b i : bm_wf b → 0 <= i →
  bm_wf (clear b i) ∧ bm_size (clear b i) = bm_size b ∧
  (∀ j, 0 <= j → test (clear b i) j = test b j && negb (j =? i)).
Proof.
  intros Hw Hi. unfold clear. destruct (Z.leb_spec (bm_size b) i).
  { split_and!; [done..|]. intros j Hj. rewrite test_bitd.
    destruct (Z.ltb_spec j (bm_size b)); [|done].
    rewrite (proj2 (Z.eqb_neq _ _)) by lia. by rewrite andb_true_r. }
  unfold byte_index, bit_offset, kBitsPerByte.
  destruct (byte_range i Hi) as (?&?&?). pose proof (num_bytes_index (bm_size b) i).
  pose proof (wf_length b Hw).
  destruct (wf_update b (upd (bm_data b) (i / 8) (λ x, Z.land x (u8 (Z.lnot (Z.shiftl 1 (i mod 8))))))
    (λ j, bitd (bm_data b) j && negb (j =? i))) as [Hw' Ht]; try done.
  - apply upd_length.
  - apply upd_bytes; [apply Hw|]. auto with bitmap_db.
  - rewrite upd_length. intros j Hj. destruct (byte_range j) as (?&?&?); [lia|].
    rewrite bitd_upd by lia. destruct (Z.eqb_spec (j / 8) (i / 8)) as [E|E].
    + rewrite Z.land_spec, u8_spec, Z.lnot_spec, Z.shiftl_1_l, Z.pow2_bits_eqb by lia.
      rewrite (proj2 (Z.ltb_lt (j mod 8) 8)), andb_true_r by lia.
      unfold bitd. rewrite E. f_equal. f_equal. apply eq_true_iff_eq. rewrite !Z.eqb_eq. lia.
    + rewrite (proj2 (Z.eqb_neq j i)) by (intros ->; done). by rewrite andb_true_r.
  - intros j Hj. by rewrite (wf_tail b Hw) by done.
  - split_and!; [done..|]. intros j Hj. rewrite Ht, test_bitd by done. by rewrite andb_assoc.
Qed.

Lemma shifted_mask_spec w h n :
  0 <= w → 0 <= h → 0 <= n → Z.testbit (Z.shiftl (Z.shiftl 1 w - 1) h) n = (h <=? n) && (n <? h + w).
Proof.
  intros. rewrite Z.shiftl_spec by done. destruct (Z.leb_spec h n).
  - rewrite mask_spec by lia. simpl. apply eq_true_iff_eq. rewrite !Z.ltb_lt. lia.
  - by rewrite Z.testbit_neg_r by lia.
Qed.

Lemma set_range_ok b start end_ : bm_wf b → 0 <= start →
  bm_wf (set_range b start end_) ∧ bm_size (set_range b start end_) = bm_size b ∧
  (∀ j, 0 <= j → test (set_range b start end_) j =
                 test b j || ((start <=? j) && (j <? end_) && (j <? bm_size b))).
Proof.
  intros Hw Hst. unfold set_range.
  set (e := if bm_size b <? end_ then bm_size b else end_).
  assert (He : ∀ j, (j <? end_) && (j <? bm_size b) = (j <? e)).
  { intros j. unfold e. apply eq_true_iff_eq. rewrite andb_true_iff, !Z.ltb_lt.
    destruct (Z.ltb_spec (bm_size b) end_); lia. }
  assert (e <= bm_size b) by (unfold e; destruct (Z.ltb_spec (bm_size b) end_); lia).
  clearbody e. destruct (Z.leb_spec e start).
  { split_and!; [done..|]. intros j Hj. rewrite <- andb_assoc, He.
    replace ((start <=? j) && (j <? e)) with false by lia. by rewrite orb_false_r. }
  unfold bit_offset, kBitsPerByte.
  destruct (byte_range start Hst) as (Hm1&Hd1&Hp1).
  destruct (byte_range (e - 1)) as (Hm2&Hd2&Hp2); [lia|].
  pose proof (num_bytes_index (bm_size b) (e - 1)).
  pose proof (wf_length b Hw).
  set (fb := start / 8) in *. set (lb := (e - 1) / 8) in *.
  match goal with |- context [MkBitmap (bm_size b) ?d] => set (data := d) end.
  destruct (wf_update b data (λ j, bitd (bm_data b) j || ((start <=? j) && (j <? e)))) as [Hw' Ht];
    try done.
  - unfold data. destruct (fb =? lb); rewrite ?upd_length, ?fill_length, ?upd_length; done.
  - unfold data. destruct (fb =? lb); repeat (apply upd_bytes || apply fill_bytes);
      try apply Hw; auto with bitmap_db.
  - assert (length data = length (bm_data b)) as ->.
    { unfold data. destruct (fb =? lb); rewrite ?upd_length, ?fill_length, ?upd_length; done. }
    intros j Hj. destruct (byte_range j) as (?&?&?); [lia|]. unfold data.
    destruct (Z.eqb_spec fb lb) as [E|E].
    + rewrite bitd_upd_lor by lia. f_equal. rewrite u8_spec, shifted_mask_spec by lia.
      apply eq_true_iff_eq. rewrite !andb_true_iff, Z.eqb_eq, !Z.ltb_lt, !Z.leb_le. lia.
    + rewrite bitd_upd_lor by (rewrite ?fill_length, ?upd_length; lia).
      rewrite bitd_fill by (rewrite ?upd_length; lia).
      rewrite bitd_upd_lor by lia. rewrite <- !orb_assoc. f_equal.
      change 255 with (Z.shiftl 1 8 - 1).
      rewrite !u8_spec, mask_spec, shifted_mask_spec by lia.
      apply eq_true_iff_eq.
      rewrite !orb_true_iff, !andb_true_iff, !Z.eqb_eq, !Z.ltb_lt, !Z.leb_le. lia.
  - intros j Hj. rewrite (wf_tail b Hw) by done. simpl. lia.
  - split_and!; [done..|]. intros j Hj. rewrite Ht, test_bitd, <- andb_assoc, He by done.
    destruct (Z.ltb_spec j (bm_size b)); [done|]. simpl. lia.
Qed.

Lemma fill_prefix size k : 0 <= size →
  ∀ i, 0 <= i → i / 8 < num_bytes size →
  bitd (fill (bm_data (bitmap size)) 0 k 255) i = (i / 8 <? k).
Proof.
  intros Hs i Hi Hk. destruct (byte_range i Hi) as (?&?&?).
  rewrite bitd_fill by (try done; simpl; rewrite length_replicate; lia).
  simpl. rewrite replicate_bitd. simpl. rewrite (proj2 (Z.leb_le _ _)) by done. done.
Qed.

Lemma bitmap_prefix_ok size p : 0 <= size → 0 <= p →
  bm_wf (bitmap_prefix size p) ∧ bm_size (bitmap_prefix size p) = size ∧
  (∀ j, 0 <= j → test (bitmap_prefix size p) j = (j <? p) && (j <? size)).
Proof.
  intros Hs Hp. unfold bitmap_prefix. pose proof (bitmap_wf size Hs) as Hw0.
  destruct (Z.eqb_spec p 0) as [->|Hp0]; [|destruct (Z.eqb_spec size 0) as [->|Hs0]]; cbn [orb].
  1,2: split_and!; [done..|]; intros; rewrite test_bitmap; lia.
  set (q := if size <? p then size else p).
  assert (Hq : ∀ j, (j <? p) && (j <? size) = (j <? q)).
  { intros j. unfold q. destruct (Z.ltb_spec size p); lia. }
  assert (0 < q <= size) by (unfold q; destruct (Z.ltb_spec size p); lia). clearbody q.
  unfold kBitsPerByte. destruct (byte_range q) as (?&?&?); [lia|].
  pose proof (wf_length _ Hw0) as Hlen. simpl bm_size in Hlen. simpl bm_data in Hlen.
  pose proof (num_bytes_bounds size Hs).
  set (data := fill (bm_data (bitmap size)) 0 (q / 8) 255).
  match goal with |- context [MkBitmap size ?d] => set (data' := d) end.
  assert (Hld : length data = length (bm_data (bitmap size))) by apply fill_length.
  assert (Hld' : length data' = length (bm_data (bitmap size))).
  { unfold data'. by destruct (0 <? q mod 8); rewrite ?upd_length, Hld. }
  assert (Hlz : Z.of_nat (length (bm_data (bitmap size))) = num_bytes size) by exact Hlen.
  destruct (wf_update (bitmap size) data' (λ j, j <? q)) as [Hw' Ht]; try done.
  - unfold data', data. destruct (0 <? q mod 8); [apply upd_bytes|];
      try (apply fill_bytes; [apply Hw0 | done]); auto with bitmap_db.
  - rewrite Hld', Hlz. intros j Hj. destruct (byte_range j) as (?&?&?); [lia|]. unfold data'.
    destruct (Z.ltb_spec 0 (q mod 8)).
    + rewrite bitd_upd by (rewrite ?Hld, ?Hlz; lia). unfold data. rewrite fill_prefix by lia.
      destruct (Z.eqb_spec (j / 8) (q / 8)) as [E|E].
      * rewrite u8_spec, mask_spec by lia. lia.
      * lia.
    + unfold data. rewrite fill_prefix by lia. lia.
  - simpl. intros. lia.
  - split_and!; [done..|]. intros j Hj. rewrite Hq. etrans; [exact (Ht j Hj)|]. simpl. lia.
Qed.

Lemma bnot_ok b : bm_wf b →
  bm_wf (bnot b) ∧ bm_size (bnot b) = bm_size b ∧
  (∀ j, 0 <= j → test (bnot b) j = (j <? bm_size b) && negb (test b j)).
Proof.
  intros Hw. unfold bnot, kBitsPerByte. pose proof (wf_size b Hw). pose proof (wf_length b Hw).
  destruct (byte_range (bm_size b)) as (?&?&?); [done|].
  pose proof (num_bytes_bounds (bm_size b)).
  set (data := (λ x, u8 (Z.lnot x)) <$> bm_data b).
  match goal with |- context [MkBitmap (bm_size b) ?d] => set (data' := d) end.
  assert (Hld : length data = length (bm_data b)) by apply length_fmap.
  assert (Hld' : length data' = length (bm_data b)).
  { unfold data'. by destruct (0 <? bm_size b mod 8); rewrite ?upd_length, Hld. }
  assert (Hbit : ∀ j, 0 <= j < 8 * Z.of_nat (length data) →
    bitd data j = negb (bitd (bm_data b) j)).
  { intros j Hj. destruct (byte_range j) as (?&?&?); [lia|]. unfold bitd, data, byte_at.
    rewrite list_lookup_fmap.
    destruct (lookup_lt_is_Some_2 (bm_data b) (Z.to_nat (j / 8))) as [x ->]; [lia|]. simpl.
    rewrite u8_spec, Z.lnot_spec by lia. rewrite (proj2 (Z.ltb_lt _ 8)) by lia. apply andb_true_r. }
  destruct (wf_update b data' (λ j, (j <? bm_size b) && negb (bitd (bm_data b) j))) as [Hw' Ht];
    try done.
  - unfold data', data. destruct (0 <? bm_size b mod 8); [apply upd_bytes|];
      try (apply Forall_fmap, Forall_true; intros; apply is_byte_u8); auto with bitmap_db.
  - rewrite Hld'. intros j Hj. destruct (byte_range j) as (?&?&?); [lia|]. unfold data'.
    destruct (Z.ltb_spec 0 (bm_size b mod 8)).
    + rewrite bitd_upd by lia. destruct (Z.eqb_spec (j / 8) (Z.of_nat (length data) - 1)) as [E|E].
      * rewrite Z.land_spec, u8_spec, mask_spec by lia.
        rewrite <- E. fold (bitd data j). rewrite Hbit by lia. rewrite andb_comm. f_equal. lia.
      * rewrite Hbit by lia. rewrite (proj2 (Z.ltb_lt _ _)) by lia. done.
    + rewrite Hbit by lia. rewrite (proj2 (Z.ltb_lt _ _)) by lia. done.
  - intros j Hj. by rewrite (proj2 (Z.ltb_ge _ _)) by lia.
  - split_and!; [done..|]. intros j Hj. rewrite Ht, test_bitd by done. by destruct (j <? bm_size b).
Qed.

Lemma byte_at_zip f b1 b2 k :
  0 <= k < Z.of_nat (length (bm_data (zip_bytes f b1 b2))) →
  byte_at (bm_data (zip_bytes f b1 b2)) k = f (byte_at (bm_data b1) k) (byte_at (bm_data b2) k).
Proof.
  unfold zip_bytes. simpl. rewrite length_imap, length_replicate. intros Hk.
  unfold byte_at at 1. rewrite list_lookup_imap, lookup_replicate_2 by lia. simpl.
  by rewrite Z2Nat.id by lia.
Qed.

Lemma zip_length f b1 b2 : 0 <= bm_size b1 → 0 <= bm_size b2 →
  bm_size (zip_bytes f b1 b2) = Z.min (bm_size b1) (bm_size b2) ∧
  Z.of_nat (length (bm_data (zip_bytes f b1 b2))) = num_bytes (Z.min (bm_size b1) (bm_size b2)).
Proof.
  intros. unfold zip_bytes. simpl. rewrite length_imap, length_replicate.
  assert ((if bm_size b1 <=? bm_size b2 then bm_size b1 else bm_size b2)
    = Z.min (bm_size b1) (bm_size b2)) as -> by (destruct (Z.leb_spec (bm_size b1) (bm_size b2)); lia).
  split; [done|]. pose proof (num_bytes_bounds (Z.min (bm_size b1) (bm_size b2))). lia.
Qed.

Lemma zip_bytes_ok f g b1 b2 :
  (∀ x y n, Z.testbit (f x y) n = g (Z.testbit x n) (Z.testbit y n)) →
  bm_wf b1 → bm_wf b2 →
  ∀ i, 0 <= i → i < 8 * Z.of_nat (length (bm_data (zip_bytes f b1 b2))) →
  bitd (bm_data (zip_bytes f b1 b2)) i = g (bitd (bm_data b1) i) (bitd (bm_data b2) i).
Proof.
  intros Hf H1 H2 i Hi Hl. destruct (byte_range i Hi) as (?&?&?).
  unfold bitd. rewrite byte_at_zip by lia. apply Hf.
Qed.

Lemma zip_bytes_bytes f b1 b2 :
  (∀ x y, is_byte x → is_byte y → is_byte (f x y)) → bm_wf b1 → bm_wf b2 →
  Forall is_byte (bm_data (zip_bytes f b1 b2)).
Proof.
  intros Hf H1 H2. apply Forall_lookup. intros k x. unfold zip_bytes. simpl.
  rewrite list_lookup_imap. intros (?&?&->)%fmap_Some.
  apply Hf; apply byte_at_is_byte; [apply H1 | apply H2].
Qed.

Lemma zip_test f g b1 b2 i :
  (∀ x y n, Z.testbit (f x y) n = g (Z.testbit x n) (Z.testbit y n)) →
  bm_wf b1 → bm_wf b2 → 0 <= i →
  test (zip_bytes f b1 b2) i =
  (i <? Z.min (bm_size b1) (bm_size b2)) && g (test b1 i) (test b2 i).
Proof.
  intros Hf H1 H2 Hi. pose proof (wf_size _ H1). pose proof (wf_size _ H2).
  destruct (zip_length f b1 b2) as [Hs Hl]; [done..|]. rewrite test_bitd, Hs.
  destruct (Z.ltb_spec i (Z.min (bm_size b1) (bm_size b2))); [|done]. cbn [andb].
  pose proof (num_bytes_bounds (Z.min (bm_size b1) (bm_size b2))).
  rewrite (zip_bytes_ok f g) by (try done; lia). by rewrite !bitd_test.
Qed.

Lemma band_ok b1 b2 : bm_wf b1 → bm_wf b2 →
  bm_wf (band b1 b2) ∧ bm_size (band b1 b2) = Z.min (bm_size b1) (bm_size b2) ∧
  (∀ i, 0 <= i → test (band b1 b2) i = test b1 i && test b2 i).
Proof.
  intros H1 H2. pose proof (wf_size _ H1). pose proof (wf_size _ H2).
  destruct (zip_length Z.land b1 b2) as [Hs Hl]; [done..|]. unfold band. split_and!; [|done|].
  - constructor; [lia | by rewrite Hl, Hs| |].
    + apply zip_bytes_bytes; auto with bitmap_db.
    + rewrite Hs. intros i Hi.
      destruct (Z.lt_ge_cases i (8 * Z.of_nat (length (bm_data (zip_bytes Z.land b1 b2))))).
      * rewrite (zip_bytes_ok _ andb) by (try done; try lia; apply Z.land_spec).
        rewrite !bitd_test, !test_bitd by done.
        destruct (Z.ltb_spec i (bm_size b1)), (Z.ltb_spec i (bm_size b2)); try lia;
          rewrite ?andb_false_r; done.
      * by apply bitd_high.
  - intros i Hi. rewrite (zip_test _ andb) by (try done; apply Z.land_spec).
    rewrite !test_bitd.
    destruct (Z.ltb_spec i (bm_size b1)), (Z.ltb_spec i (bm_size b2)), (Z.ltb_spec i (Z.min (bm_size b1) (bm_size b2)));
      try lia; rewrite ?andb_false_r; done.
Qed.

Lemma bor_test b1 b2 i : bm_wf b1 → bm_wf b2 → 0 <= i →
  test (bor b1 b2) i = (i <? Z.min (bm_size b1) (bm_size b2)) && (test b1 i || test b2 i).
Proof. intros. apply (zip_test _ orb); try done. apply Z.lor_spec. Qed.

Lemma bor_ok b1 b2 : bm_wf b1 → bm_wf b2 → bm_size b1 = bm_size b2 →
  bm_wf (bor b1 b2) ∧ bm_size (bor b1 b2) = bm_size b1 ∧
  (∀ i, 0 <= i → test (bor b1 b2) i = test b1 i || test b2 i).
Proof.
  intros H1 H2 He. pose proof (wf_size _ H1). pose proof (wf_size _ H2).
  destruct (zip_length Z.lor b1 b2) as [Hs Hl]; [done..|]. rewrite <- He, Z.min_id in *.
  unfold bor. split_and!; [|done|].
  - constructor; [lia | by rewrite Hl, Hs| |].
    + apply zip_bytes_bytes; auto with bitmap_db.
    + rewrite Hs. intros i Hi.
      destruct (Z.lt_ge_cases i (8 * Z.of_nat (length (bm_data (zip_bytes Z.lor b1 b2))))).
      * rewrite (zip_bytes_ok _ orb) by (try done; try lia; apply Z.lor_spec).
        by rewrite (wf_tail b1), (wf_tail b2) by (done || lia).
      * by apply bitd_high.
  - intros i Hi. change (zip_bytes Z.lor b1 b2) with (bor b1 b2).
    rewrite bor_test by done. rewrite <- He, Z.min_id, !test_bitd, <- He.
    by destruct (i <? bm_size b1).
Qed.

Lemma batched_set_ok l : ∀ b, bm_wf b → Forall (λ i, 0 <= i) l →
  bm_wf (batched_set b l) ∧ bm_size (batched_set b l) = bm_size b ∧
  (∀ j, 0 <= j → test (batched_set b l) j = test b j || (bool_decide (j ∈ l) && (j <? bm_size b))).
Proof.
  unfold batched_set. induction l as [|i l IH]; intros b Hw Hf; cbn [foldl].
  - split_and!; [done..|]. intros. rewrite bool_decide_false by set_solver. by rewrite orb_false_r.
  - apply Forall_cons in Hf as [Hi Hf]. destruct (set_ok b i) as (Hw' & Hs & Ht); [done..|].
    destruct (IH (set b i) Hw' Hf) as (? & Hs2 & Ht2). split_and!; [done|lia|].
    intros j Hj. rewrite Ht2, Ht, Hs, <- orb_assoc by done. f_equal.
    destruct (Z.eqb_spec j i) as [->|].
    + rewrite (bool_decide_true (i ∈ i :: l)) by set_solver. by destruct (i <? bm_size b), (bool_decide _).
    + simpl. f_equal. apply bool_decide_ext. set_solver.
Qed.

(** ** Queries *)

Definition dbits (n : nat) (data : list Z) : list bool :=
  (λ i, bitd data (Z.of_nat i)) <$> seq 0 n.

(** the bitmap as a list of booleans *)
Definition bits (b : Bitmap) : list bool := (λ i, test b (Z.of_nat i)) <$> seq 0 (Z.to_nat (bm_size b)).

Lemma bits_dbits b : bits b = dbits (Z.to_nat (bm_size b)) (bm_data b).
Proof.
  unfold bits, dbits. apply list_fmap_ext. intros k i Hi. apply lookup_seq in Hi as [-> ?].
  rewrite test_bitd. rewrite (proj2 (Z.ltb_lt _ _)) by lia. done.
Qed.

Lemma bits_length b : length (bits b) = Z.to_nat (bm_size b).
Proof. unfold bits. by rewrite length_fmap, length_seq. Qed.

Lemma bits_lookup b i : (i < Z.to_nat (bm_size b))%nat → bits b !! i = Some (test b (Z.of_nat i)).
Proof. intros. unfold bits. by rewrite list_lookup_fmap, lookup_seq_lt by done. Qed.

Lemma dbits_small n x data : (n <= 8)%nat → dbits n (x :: data) = low_bits n x.
Proof.
  intros. unfold dbits, low_bits. apply list_fmap_ext. intros k i Hi.
  apply lookup_seq in Hi as [-> ?]. unfold bitd. simpl Nat.add.
  by rewrite Z.div_small, Z.mod_small by lia.
Qed.

Lemma dbits_cons n x data : dbits (8 + n) (x :: data) = low_bits 8 x ++ dbits n data.
Proof.
  rewrite <- (dbits_small 8 x data) by done. unfold dbits. rewrite seq_app, fmap_app. f_equal.
  change (0 + 8)%nat with 8%nat. apply list_eq. intros k. rewrite !list_lookup_fmap.
  destruct (decide (k < n)%nat).
  - rewrite !lookup_seq_lt by done. cbn [fmap option_fmap option_map]. f_equal. unfold bitd.
    rewrite Nat2Z.inj_add. cbn [Nat.add]. change (Z.of_nat 8) with (8 * 1).
    destruct (byte_range (Z.of_nat k)) as (?&?&?); [lia|].
    replace (8 * 1 + Z.of_nat k) with (8 * (1 + Z.of_nat k / 8) + Z.of_nat k mod 8) by lia.
    destruct (byte_split (1 + Z.of_nat k / 8) (Z.of_nat k mod 8)) as [-> ->]; [done|].
    f_equal. unfold byte_at. rewrite Z2Nat.inj_add by lia. done.
  - by rewrite !lookup_seq_ge by lia.
Qed.

Lemma low_bits_app n m x :
  low_bits (n + m) x = low_bits n x ++ ((λ i, Z.testbit x (Z.of_nat i)) <$> seq n m).
Proof. unfold low_bits. by rewrite seq_app, fmap_app. Qed.

Lemma low_bits_masked r x : (r <= 8)%nat →
  low_bits 32 (Z.land x (u8 (Z.shiftl 1 (Z.of_nat r) - 1))) = low_bits r x ++ replicate (32 - r) false.
Proof.
  intros Hr. replace 32%nat with (r + (32 - r))%nat at 1 by lia. rewrite low_bits_app. f_equal.
  - apply list_fmap_ext. intros k i Hi. apply lookup_seq in Hi as [-> ?].
    rewrite Z.land_spec, u8_spec, mask_spec by lia. simpl Nat.add.
    rewrite !(proj2 (Z.ltb_lt _ _)) by lia. apply andb_true_r.
  - apply list_eq. intros k. rewrite list_lookup_fmap. destruct (decide (k < 32 - r)%nat).
    + rewrite lookup_seq_lt, lookup_replicate_2 by done. simpl. f_equal.
      rewrite Z.land_spec, u8_spec, mask_spec by lia.
      rewrite (proj2 (Z.ltb_ge _ (Z.of_nat r))) by lia. by rewrite andb_false_r.
    + rewrite lookup_seq_ge by lia. symmetry. apply lookup_ge_None_2. rewrite length_replicate. lia.
Qed.

Lemma low_bits_byte x : is_byte x → low_bits 32 x = low_bits 8 x ++ replicate 24 false.
Proof.
  intros Hx. change 24%nat with (32 - 8)%nat. rewrite <- (low_bits_masked 8 x) by done.
  f_equal. symmetry. exact Hx.
Qed.

Lemma low_bits_length n x : length (low_bits n x) = n.
Proof. unfold low_bits. by rewrite length_fmap, length_seq. Qed.

Lemma count_true_app l1 l2 : count_true (l1 ++ l2) = (count_true l1 + count_true l2)%nat.
Proof. unfold count_true. by rewrite List.filter_app, length_app. Qed.
Lemma count_true_replicate n : count_true (replicate n false) = O.
Proof. by induction n. Qed.
Lemma leading_false_app l1 l2 :
  leading_false (l1 ++ l2) =
  if decide (true ∈ l1) then leading_false l1 else (length l1 + leading_false l2)%nat.
Proof.
  induction l1 as [|[] l1 IH]; simpl leading_false; simpl length; [done|..].
  - by rewrite decide_True by set_solver.
  - change ((false :: l1) ++ l2) with (false :: (l1 ++ l2)). cbn [leading_false]. rewrite IH.
    repeat case_decide; set_solver.
Qed.
Lemma leading_false_replicate n : leading_false (replicate n false) = n.
Proof. induction n; simpl; auto. Qed.
Lemma leading_false_none l : true ∉ l → leading_false l = length l.
Proof.
  intros Hn. rewrite <- (app_nil_r l) at 1. rewrite leading_false_app, decide_False by done.
  simpl. lia.
Qed.

Lemma low_bits_nonzero x : is_byte x → x ≠ 0 → true ∈ low_bits 8 x.
Proof.
  intros Hb Hx. pose proof (is_byte_range x Hb). unfold low_bits. apply list_elem_of_fmap.
  exists (Z.to_nat (Z.log2 x)). pose proof (Z.log2_nonneg x).
  assert (Z.log2 x < 8) by (apply Z.log2_lt_pow2; lia).
  rewrite Z2Nat.id by done. split.
  - rewrite Z.bit_log2 by lia. done.
  - apply elem_of_seq. lia.
Qed.

Lemma low_bits_0 n : low_bits n 0 = replicate n false.
Proof.
  unfold low_bits. apply list_eq. intros k. rewrite list_lookup_fmap. destruct (decide (k < n)%nat).
  - rewrite lookup_seq_lt, lookup_replicate_2 by done. simpl. by rewrite Z.bits_0.
  - rewrite lookup_seq_ge by lia. symmetry. apply lookup_ge_None_2. rewrite length_replicate. lia.
Qed.

Lemma builtin_popcount_byte x : is_byte x → builtin_popcount x = Z.of_nat (count_true (low_bits 8 x)).
Proof.
  intros Hx. unfold builtin_popcount. rewrite low_bits_byte, count_true_app, count_true_replicate by done. lia.
Qed.

Lemma builtin_ctz_byte x : is_byte x → x ≠ 0 → builtin_ctz x = Z.of_nat (leading_false (low_bits 8 x)).
Proof.
  intros Hx Hn. unfold builtin_ctz. rewrite low_bits_byte, leading_false_app by done.
  by rewrite decide_True by (by apply low_bits_nonzero).
Qed.

(** a byte vector of [n] bits: full bytes, then the masked last one *)
Inductive blocks : nat → list Z → Prop :=
| blocks_nil : blocks 0 []
| blocks_last n x : (0 < n < 8)%nat → is_byte x → blocks n [x]
| blocks_full n x data : is_byte x → blocks n data → blocks (8 + n) (x :: data).

Lemma wf_blocks b : bm_wf b → blocks (Z.to_nat (bm_size b)) (bm_data b).
Proof.
  intros [Hs Hl Hb _]. remember (Z.to_nat (bm_size b)) as n eqn:Hn.
  assert (Hl' : Z.of_nat (length (bm_data b)) = num_bytes (Z.of_nat n)) by (subst; by rewrite Z2Nat.id).
  clear -Hl' Hb. revert n Hl'. induction Hb as [|x data Hx Hb IH]; intros n Hl.
  - simpl in Hl. pose proof (num_bytes_bounds (Z.of_nat n)). assert (n = 0)%nat as -> by lia. constructor.
  - simpl in Hl. pose proof (num_bytes_bounds (Z.of_nat n)). 
    destruct (decide (8 <= n)%nat).
    + replace n with (8 + (n - 8))%nat by lia. constructor; [done|]. apply IH.
      pose proof (num_bytes_bounds (Z.of_nat (n - 8))). lia.
    + destruct data; [|simpl in Hl; lia]. constructor; [lia|done].
Qed.

Definition masked_last (data : list Z) (r : Z) : Z :=
  Z.land (default 0 (last data)) (u8 (Z.shiftl 1 r - 1)).

Lemma eight_more n :
  Z.to_nat (Z.of_nat (8 + n) / 8) = S (Z.to_nat (Z.of_nat n / 8)) ∧
  Z.of_nat (8 + n) mod 8 = Z.of_nat n mod 8.
Proof.
  rewrite Nat2Z.inj_add. change (Z.of_nat 8) with 8.
  pose proof (byte_range (Z.of_nat n)) as (?&?&?); [lia|].
  replace (8 + Z.of_nat n) with (8 * (1 + Z.of_nat n / 8) + Z.of_nat n mod 8) by lia.
  destruct (byte_split (1 + Z.of_nat n / 8) (Z.of_nat n mod 8)) as [-> ->]; [done|]. lia.
Qed.

Lemma last_full n x data : blocks n data → 0 < Z.of_nat n mod 8 → last (x :: data) = last data.
Proof. intros Hb Hr. inversion Hb; subst; done. Qed.

Lemma few_bits n : (0 < n < 8)%nat →
  Z.to_nat (Z.of_nat n / 8) = O ∧ Z.of_nat n mod 8 = Z.of_nat n ∧ (0 <? Z.of_nat n) = true.
Proof. intros. rewrite Z.div_small, Z.mod_small by lia. split_and!; [done|done|]. apply Z.ltb_lt. lia. Qed.

Lemma popcount_blocks n data : blocks n data → ∀ c,
  (let count := foldl (λ c x, c + builtin_popcount x) c (take (Z.to_nat (Z.of_nat n / 8)) data) in
   if 0 <? Z.of_nat n mod 8 then count + builtin_popcount (masked_last data (Z.of_nat n mod 8))
   else count) = c + Z.of_nat (count_true (dbits n data)).
Proof.
  induction 1 as [|n x Hn Hx|n x data Hx Hb IH]; intros c; cbn zeta.
  - symmetry. apply Z.add_0_r.
  - destruct (few_bits n Hn) as (-> & -> & ->). rewrite take_0, dbits_small by lia. cbn [foldl].
    unfold masked_last, builtin_popcount. cbn [last default from_option].
    rewrite low_bits_masked, count_true_app, count_true_replicate by lia.
    unfold id. lia.
  - destruct (eight_more n) as [-> ->]. cbn [take foldl]. cbn zeta in IH.
    rewrite builtin_popcount_byte by done.
    rewrite dbits_cons, count_true_app. specialize (IH (c + Z.of_nat (count_true (low_bits 8 x)))).
    unfold masked_last in *. destruct (Z.ltb_spec 0 (Z.of_nat n mod 8)).
    + rewrite (last_full n) by done. rewrite IH. lia.
    + rewrite IH. lia.
Qed.

(** [popcount] counts the set bits *)
Lemma popcount_ok b : bm_wf b → popcount b = Z.of_nat (count_true (bits b)).
Proof.
  intros Hw. rewrite bits_dbits. unfold popcount, last_masked, kBitsPerByte.
  pose proof (popcount_blocks _ _ (wf_blocks b Hw) 0) as H. rewrite Z2Nat.id in H by apply Hw.
  unfold masked_last in H. cbn zeta in H. destruct (bm_data b) eqn:E; [|exact H].
  pose proof (wf_blocks b Hw) as Hb. rewrite E in Hb. by inversion Hb.
Qed.

Lemma clz_blocks n data : blocks n data → ∀ c,
  match clz_loop c (take (Z.to_nat (Z.of_nat n / 8)) data) with
  | inl count => count
  | inr count =>
      if 0 <? Z.of_nat n mod 8 then
        let last_byte := masked_last data (Z.of_nat n mod 8) in
        if last_byte =? 0 then count + Z.of_nat n mod 8 else count + builtin_ctz last_byte
      else count
  end = c + Z.of_nat (leading_false (dbits n data)).
Proof.
  induction 1 as [|n x Hn Hx|n x data Hx Hb IH]; intros c.
  - symmetry. apply Z.add_0_r.
  - destruct (few_bits n Hn) as (-> & -> & ->). rewrite take_0, dbits_small by lia. cbn [clz_loop].
    cbn zeta. unfold masked_last. cbn [last default from_option]. unfold id.
    pose proof (low_bits_masked n x) as Hm. set (y := Z.land x _) in *.
    assert (is_byte y) by apply is_byte_land_r, is_byte_u8.
    destruct (Z.eqb_spec y 0) as [E|E].
    + rewrite E, low_bits_0 in Hm. rewrite leading_false_none, low_bits_length by
        (intros Hin; assert (true ∈ replicate 32 false) as Hbad by (rewrite Hm by lia; by apply elem_of_app; left);
         apply elem_of_replicate in Hbad as [? _]; done). done.
    + unfold builtin_ctz. rewrite Hm, leading_false_app by lia.
      destruct (decide (true ∈ low_bits n x)) as [|Hn']; [done|]. exfalso.
      apply low_bits_nonzero in E; [|done].
      assert (true ∈ low_bits 32 y) as Hin by (rewrite low_bits_byte by done; by apply elem_of_app; left).
      rewrite Hm in Hin by lia. apply elem_of_app in Hin as [?|Hin]; [done|].
      by apply elem_of_replicate in Hin as [? _].
  - destruct (eight_more n) as [-> ->]. cbn [take clz_loop]. rewrite dbits_cons, leading_false_app.
    destruct (Z.eqb_spec x 0) as [->|E].
    + rewrite low_bits_0, decide_False by (intros [? _]%elem_of_replicate; done).
      rewrite length_replicate. specialize (IH (c + kBitsPerByte)).
      unfold masked_last, kBitsPerByte in *. cbn zeta in *.
      destruct (clz_loop _ _); [lia|].
      destruct (Z.ltb_spec 0 (Z.of_nat n mod 8)); [rewrite (last_full n) by done|]; lia.
    + rewrite decide_True by (by apply low_bits_nonzero). by rewrite builtin_ctz_byte by done.
Qed.

(** [clz] is the index of the first set bit, or the size *)
Lemma clz_ok b : bm_wf b → clz b = Z.of_nat (leading_false (bits b)).
Proof.
  intros Hw. unfold clz, kBitsPerByte.
  pose proof (clz_blocks _ _ (wf_blocks b Hw) 0) as H. rewrite Z2Nat.id in H by apply Hw.
  rewrite bits_dbits. destruct (Z.eqb_spec (bm_size b) 0) as [E|E]; [by rewrite E|]. exact H.
Qed.

Lemma bits_bnot b : bm_wf b → bits (bnot b) = negb <$> bits b.
Proof.
  intros Hw. destruct (bnot_ok b Hw) as (_ & Hs & Ht). unfold bits. rewrite Hs, <- list_fmap_compose.
  apply list_fmap_ext. intros k i Hi. apply lookup_seq in Hi as [-> ?]. rewrite Ht by lia.
  rewrite (proj2 (Z.ltb_lt _ _)) by lia. done.
Qed.

(** [clo] is the length of the run of set bits from index 0 *)
Lemma clo_ok b : bm_wf b → clo b = Z.of_nat (leading_false (negb <$> bits b)).
Proof.
  intros Hw. unfold clo. destruct (bnot_ok b Hw) as (Hw' & _). rewrite clz_ok by done.
  by rewrite bits_bnot.
Qed.

Lemma leading_false_spec l n :
  leading_false l = n ↔ (n <= length l)%nat ∧ (∀ i, (i < n)%nat → l !! i = Some false) ∧
                       l !! n ≠ Some false.
Proof.
  revert n. induction l as [|[] l IH]; intros n; simpl.
  - split.
    + intros <-. split_and!; [lia| |done]. intros; lia.
    + intros (?&_&_). lia.
  - split.
    + intros <-. split_and!; [lia| |done]. intros; lia.
    + intros (_ & Hall & _). destruct n; [done|]. by specialize (Hall O ltac:(lia)).
  - destruct n as [|n].
    + split; [done|]. by intros (_ & _ & []).
    + split.
      * intros [= E]. apply IH in E as (?&Hall&?). split_and!; [lia| |done].
        intros [|i] ?; [done|]. apply Hall. lia.
      * intros (?&Hall&?). f_equal. apply IH. split_and!; [lia| |done].
        intros i ?. apply (Hall (S i)). lia.
Qed.

Lemma clo_spec b : bm_wf b →
  0 <= clo b <= bm_size b ∧ (∀ i, 0 <= i < clo b → test b i = true) ∧
  (clo b < bm_size b → test b (clo b) = false).
Proof.
  intros Hw. pose proof (wf_size b Hw). rewrite clo_ok by done.
  destruct (proj1 (leading_false_spec (negb <$> bits b) _) eq_refl) as (Hl & Hall & Hend).
  rewrite length_fmap, bits_length in Hl. set (n := leading_false _) in *. split_and!; [lia..| |].
  - intros i Hi. specialize (Hall (Z.to_nat i) ltac:(lia)).
    rewrite list_lookup_fmap, bits_lookup, Z2Nat.id in Hall by lia. simpl in Hall.
    by destruct (test b i).
  - intros Hlt. rewrite list_lookup_fmap, bits_lookup in Hend by lia. simpl in Hend.
    by destruct (test b (Z.of_nat n)).
Qed.

Lemma highest_loop_spec data k : Forall is_byte data →
  let h := highest_loop data k in
  -1 <= h < 8 * Z.of_nat k ∧ (0 <= h → bitd data h = true) ∧
  (∀ i, h < i → i < 8 * Z.of_nat k → 0 <= i → bitd data i = false).
Proof.
  intros Hb. induction k as [|k IH]; cbn zeta; cbn [highest_loop].
  { split_and!; intros; lia. }
  pose proof (byte_at_is_byte data (Z.of_nat k) Hb) as Hx. cbn zeta in IH.
  set (x := byte_at data (Z.of_nat k)) in *. pose proof (is_byte_range x Hx).
  destruct (Z.eqb_spec x 0) as [E|E].
  - destruct IH as (?&?&Hall). split_and!; [lia|lia|done|]. intros i ? ? ?.
    destruct (Z.lt_ge_cases i (8 * Z.of_nat k)); [auto|].
    destruct (byte_range i) as (?&?&?); [done|]. unfold bitd.
    replace (i / 8) with (Z.of_nat k) by lia. fold x. rewrite E. apply Z.bits_0.
  - unfold builtin_clz, kBitsPerByte. pose proof (Z.log2_nonneg x).
    assert (Z.log2 x < 8) by (apply Z.log2_lt_pow2; lia).
    replace (Z.of_nat k * 8 + (31 - (31 - Z.log2 x))) with (8 * Z.of_nat k + Z.log2 x) by lia.
    split_and!; [lia|lia| |].
    + intros _. unfold bitd. destruct (byte_split (Z.of_nat k) (Z.log2 x)) as [-> ->]; [lia|].
      fold x. apply Z.bit_log2. lia.
    + intros i ? ? ?. destruct (byte_range i) as (?&?&?); [done|]. unfold bitd.
      replace (i / 8) with (Z.of_nat k) by lia. fold x. apply Z.bits_above_log2; lia.
Qed.

(** [highest_set_bit] is the largest set index, [-1] when no bit is set *)
Lemma highest_set_bit_ok b : bm_wf b →
  -1 <= highest_set_bit b < bm_size b ∧
  (0 <= highest_set_bit b → test b (highest_set_bit b) = true) ∧
  (∀ i, highest_set_bit b < i → test b i = false).
Proof.
  intros Hw. unfold highest_set_bit.
  destruct (highest_loop_spec (bm_data b) (length (bm_data b)) (wf_bytes b Hw)) as (H1 & H2 & H3).
  set (h := highest_loop _ _) in *. rewrite bitd_test in H2 by done.
  assert (h < bm_size b).
  { destruct (Z.lt_ge_cases h 0); [pose proof (wf_size b Hw); lia|].
    specialize (H2 ltac:(lia)). rewrite test_bitd in H2. lia. }
  split_and!; [lia|lia|done|]. intros i Hi. rewrite <- bitd_test by done.
  destruct (Z.lt_ge_cases i (8 * Z.of_nat (length (bm_data b)))); [apply H3; lia|by apply bitd_high].
Qed.

(** *** Indices of the set bits *)

Definition byte_positions (x : Z) : list Z := List.filter (Z.testbit x) (seqZ 0 8).

Definition byte_indices_agree (x : Z) : bool := bool_decide (byte_indices 8 x = byte_positions x).

Lemma byte_indices_table : forallb byte_indices_agree (seqZ 0 256) = true.
Proof. vm_compute. reflexivity. Qed.

Lemma byte_indices_ok x : is_byte x → byte_indices 8 x = byte_positions x.
Proof.
  intros Hx%is_byte_range. pose proof (proj1 (forallb_forall _ _) byte_indices_table x) as H.
  unfold byte_indices_agree in H. rewrite bool_decide_eq_true in H.
  apply H, list_elem_of_In, elem_of_seqZ. lia.
Qed.

Lemma filter_ext_in' {A} (f g : A → bool) l :
  (∀ x, x ∈ l → f x = g x) → List.filter f l = List.filter g l.
Proof. intros H. apply List.filter_ext_in. intros x Hx. by apply H, list_elem_of_In. Qed.

Lemma filter_fmap_bool {A B} (f : B → bool) (g : A → B) l :
  List.filter f (g <$> l) = g <$> List.filter (f ∘ g) l.
Proof.
  induction l as [|x l IH]; [done|]. rewrite fmap_cons. cbn [List.filter]. unfold compose in *.
  rewrite IH. by destruct (f (g x)).
Qed.

Lemma filter_filter_bool {A} (f g : A → bool) l :
  List.filter f (List.filter g l) = List.filter (λ x, f x && g x) l.
Proof.
  induction l as [|x l IH]; [done|]. simpl. destruct (g x); simpl; rewrite IH;
    by destruct (f x).
Qed.

Lemma seqZ_shift m n k : seqZ (k + m) n = (λ x, k + x) <$> seqZ m n.
Proof. unfold seqZ. rewrite <- list_fmap_compose. apply list_fmap_ext. intros. simpl. lia. Qed.

Lemma indices_byte D s k0 x :
  is_byte x → D !! k0 = Some x →
  List.filter (λ i, i <? s) ((λ bit, Z.of_nat k0 * kBitsPerByte + bit) <$> byte_indices 8 x)
  = List.filter (λ i, (i <? s) && bitd D i) (seqZ (8 * Z.of_nat k0) 8).
Proof.
  intros Hx HD. rewrite byte_indices_ok by done. unfold byte_positions, kBitsPerByte.
  rewrite <- (Z.add_0_r (8 * Z.of_nat k0)), seqZ_shift, !filter_fmap_bool, filter_filter_bool.
  replace (Z.of_nat k0 * 8) with (8 * Z.of_nat k0) by lia. f_equal.
  apply filter_ext_in'. intros i Hi%elem_of_seqZ. simpl. f_equal. unfold bitd.
  destruct (byte_split (Z.of_nat k0) i) as [-> ->]; [lia|]. unfold byte_at. by rewrite Nat2Z.id, HD.
Qed.

Lemma indices_suffix D s d : ∀ k0,
  (∀ k, d !! k = D !! (k0 + k)%nat) → Forall is_byte d →
  concat (imap (λ k byte, List.filter (λ i, i <? s)
      ((λ bit, Z.of_nat (k0 + k) * kBitsPerByte + bit) <$> byte_indices 8 byte)) d)
  = List.filter (λ i, (i <? s) && bitd D i) (seqZ (8 * Z.of_nat k0) (8 * Z.of_nat (length d))).
Proof.
  induction d as [|x d IH]; intros k0 HD Hb; [done|]. apply Forall_cons in Hb as [Hx Hb].
  rewrite imap_cons. cbn [concat length].
  replace (8 * Z.of_nat (S (length d))) with (8 + 8 * Z.of_nat (length d)) by lia.
  rewrite seqZ_app, List.filter_app by lia. f_equal.
  - rewrite Nat.add_0_r. apply indices_byte; [done|]. specialize (HD O). rewrite Nat.add_0_r in HD. done.
  - replace (8 * Z.of_nat k0 + 8) with (8 * Z.of_nat (S k0)) by lia. rewrite <- IH; [|intros k|done].
    + f_equal. apply imap_ext. intros k y _. unfold compose. by rewrite Nat.add_succ_r.
    + specialize (HD (S k)). rewrite Nat.add_succ_r in HD. exact HD.
Qed.

(** [get_indices] lists the set positions in ascending order *)
Lemma get_indices_ok b : bm_wf b → get_indices b = List.filter (test b) (seqZ 0 (bm_size b)).
Proof.
  intros Hw. unfold get_indices.
  pose proof (indices_suffix (bm_data b) (bm_size b) (bm_data b) 0 ltac:(done) (wf_bytes b Hw)) as H.
  etrans; [exact H|]. clear H. pose proof (wf_size b Hw).
  pose proof (num_bytes_bounds (bm_size b)). pose proof (wf_length b Hw).
  replace (8 * Z.of_nat (length (bm_data b)))
    with (bm_size b + (8 * Z.of_nat (length (bm_data b)) - bm_size b)) by lia.
  rewrite seqZ_app, List.filter_app by lia. simpl (8 * Z.of_nat 0).
  rewrite (filter_ext_in' _ (test b) (seqZ 0 _)) by (intros; by rewrite test_bitd).
  rewrite (filter_ext_in' _ (λ _, false) (seqZ (0 + _) _)).
  - assert (∀ l : list Z, List.filter (λ _, false) l = []) as -> by (induction l; done). apply app_nil_r.
  - intros i Hi%elem_of_seqZ. rewrite (proj2 (Z.ltb_ge _ _)) by lia. done.
Qed.

Lemma elem_of_get_indices b i : bm_wf b → i ∈ get_indices b ↔ 0 <= i ∧ test b i = true.
Proof.
  intros Hw. rewrite get_indices_ok by done. rewrite list_elem_of_In, List.filter_In, <- list_elem_of_In.
  rewrite elem_of_seqZ. split; [intros [? ?]; split; [lia|done]|]. intros [? Ht]. split; [|done].
  rewrite test_bitd in Ht. lia.
Qed.

Lemma elem_of_gather {A} (b : Bitmap) (items : list A) x :
  bm_wf b →
  x ∈ gather b items ↔ ∃ i, items !! i = Some x ∧ test b (Z.of_nat i) = true.
Proof.
  intros Hw. unfold gather. rewrite list_elem_of_omap. split.
  - intros (i & Hi & Hx). apply elem_of_get_indices in Hi as [? Ht]; [|done].
    destruct (i <? _); [|done]. exists (Z.to_nat i). by rewrite Z2Nat.id.
  - intros (i & Hi & Ht). exists (Z.of_nat i). split.
    + apply elem_of_get_indices; [done|]. split; [lia|done].
    + apply lookup_lt_Some in Hi as ?. rewrite (proj2 (Z.ltb_lt _ _)) by lia. by rewrite Nat2Z.id.
Qed.

(** ** Specification: a bitmap is a size and a predicate on indices *)

Inductive bexpr :=
| ENew (size : Z)
| EPrefix (size prefix_bits : Z)
| ESet (e : bexpr) (i : Z)
| EBatched (e : bexpr) (l : list Z)
| ESetRange (e : bexpr) (start end_ : Z)
| EClear (e : bexpr) (i : Z)
| ENot (e : bexpr)
| EAnd (e1 e2 : bexpr)
| EOr (e1 e2 : bexpr).

Fixpoint eval (e : bexpr) : Bitmap :=
  match e with
  | ENew n => bitmap n
  | EPrefix n p => bitmap_prefix n p
  | ESet e i => set (eval e) i
  | EBatched e l => batched_set (eval e) l
  | ESetRange e a b => set_range (eval e) a b
  | EClear e i => clear (eval e) i
  | ENot e => bnot (eval e)
  | EAnd e1 e2 => band (eval e1) (eval e2)
  | EOr e1 e2 => bor (eval e1) (eval e2)
  end.

Fixpoint esize (e : bexpr) : Z :=
  match e with
  | ENew n | EPrefix n _ => n
  | ESet e _ | EBatched e _ | ESetRange e _ _ | EClear e _ | ENot e => esize e
  | EAnd e1 e2 | EOr e1 e2 => Z.min (esize e1) (esize e2)
  end.

Fixpoint ebit (e : bexpr) (j : Z) : bool :=
  match e with
  | ENew _ => false
  | EPrefix n p => (j <? p) && (j <? n)
  | ESet e i => ebit e j || ((j =? i) && (i <? esize e))
  | EBatched e l => ebit e j || (bool_decide (j ∈ l) && (j <? esize e))
  | ESetRange e a b => ebit e j || ((a <=? j) && (j <? b) && (j <? esize e))
  | EClear e i => ebit e j && negb (j =? i)
  | ENot e => (j <? esize e) && negb (ebit e j)
  | EAnd e1 e2 => ebit e1 j && ebit e2 j
  | EOr e1 e2 => ebit e1 j || ebit e2 j
  end.

(** arguments are [size_t], and [|] is used on bitmaps of one size *)
Fixpoint valid (e : bexpr) : Prop :=
  match e with
  | ENew n => 0 <= n
  | EPrefix n p => 0 <= n ∧ 0 <= p
  | ESet e i | EClear e i => valid e ∧ 0 <= i
  | EBatched e l => valid e ∧ Forall (λ i, 0 <= i) l
  | ESetRange e a b => valid e ∧ 0 <= a
  | ENot e => valid e
  | EAnd e1 e2 => valid e1 ∧ valid e2
  | EOr e1 e2 => valid e1 ∧ valid e2 ∧ esize e1 = esize e2
  end.

Lemma eval_ok e : valid e →
  bm_wf (eval e) ∧ bm_size (eval e) = esize e ∧ (∀ j, 0 <= j → test (eval e) j = ebit e j).
Proof.
  induction e as [n|n p|e IH i|e IH l|e IH a b|e IH i|e IH|e1 IH1 e2 IH2|e1 IH1 e2 IH2];
    cbn [valid eval esize ebit]; intros Hv;
    try (destruct Hv as [Hv Hi]); try (destruct (IH Hv) as (Hw & Hs & Ht)).
  - split_and!; [by apply bitmap_wf|done|]. intros. apply test_bitmap.
  - by apply bitmap_prefix_ok.
  - destruct (set_ok (eval e) i Hw Hi) as (?&?&Ht'). split_and!; [done|lia|].
    intros. by rewrite Ht', Ht, Hs.
  - destruct (batched_set_ok l (eval e) Hw Hi) as (?&?&Ht'). split_and!; [done|lia|].
    intros. by rewrite Ht', Ht, Hs.
  - destruct (set_range_ok (eval e) a b Hw Hi) as (?&?&Ht'). split_and!; [done|lia|].
    intros. by rewrite Ht', Ht, Hs.
  - destruct (clear_ok (eval e) i Hw Hi) as (?&?&Ht'). split_and!; [done|lia|].
    intros. by rewrite Ht', Ht.
  - destruct (bnot_ok (eval e) Hw) as (?&?&Ht'). split_and!; [done|lia|].
    intros. by rewrite Ht', Ht, Hs.
  - destruct (IH1 Hv) as (?&?&Ht1), (IH2 Hi) as (?&?&Ht2).
    destruct (band_ok (eval e1) (eval e2)) as (?&?&Ht'); [done..|]. split_and!; [done|lia|].
    intros. by rewrite Ht', Ht1, Ht2.
  - destruct Hi as [Hi He]. destruct (IH1 Hv) as (?&?&Ht1), (IH2 Hi) as (?&?&Ht2).
    destruct (bor_ok (eval e1) (eval e2)) as (?&?&Ht'); [done..|lia|]. split_and!; [done|lia|].
    intros. by rewrite Ht', Ht1, Ht2.
Qed.

Lemma count_true_bits b : bm_wf b → count_true (bits b) = length (get_indices b).
Proof.
  intros Hw. rewrite get_indices_ok by done. unfold bits, count_true, seqZ.
  rewrite filter_fmap_bool. rewrite (filter_fmap_bool (test b) (λ i, Z.of_nat i + 0)), !length_fmap.
  f_equal. apply filter_ext_in'. intros i _. simpl. unfold compose. by rewrite Z.add_0_r.
Qed.

(** C38. The packed bitmap refines its specification: for every expression
    built from the constructors, [set], [batched_set], [set_range], [clear],
    [~], [&] and (on equal sizes) [|], the bytes represent exactly the
    specified bits with no bit past the size, [get_indices] lists the set
    positions in ascending order, [popcount] counts them, [clo] is the length
    of the leading run of ones and [highest_set_bit] the largest set index or
    [-1]. *)
Theorem bitmap_refines_bits (e : bexpr) (b := eval e) (P := ebit e) :
  valid e →
  bm_wf b ∧ bm_size b = esize e ∧ (∀ i, 0 <= i → test b i = P i) ∧
  get_indices b = List.filter P (seqZ 0 (esize e)) ∧
  popcount b = Z.of_nat (length (get_indices b)) ∧
  (0 <= clo b <= esize e ∧ (∀ i, 0 <= i < clo b → P i = true) ∧
   (clo b < esize e → P (clo b) = false)) ∧
  (-1 <= highest_set_bit b < esize e ∧ (0 <= highest_set_bit b → P (highest_set_bit b) = true) ∧
   ∀ i, 0 <= i → highest_set_bit b < i → P i = false).
Proof.
  intros Hv. unfold b, P. destruct (eval_ok e Hv) as (Hw & Hs & Ht).
  destruct (clo_spec (eval e) Hw) as (Hc1 & Hc2 & Hc3).
  destruct (highest_set_bit_ok (eval e) Hw) as (Hh1 & Hh2 & Hh3).
  split; [done|]. split; [done|]. split; [done|]. split; [|split; [|split; split_and!]].
  - rewrite get_indices_ok, Hs by done. apply filter_ext_in'. intros i Hi%elem_of_seqZ. apply Ht. lia.
  - by rewrite popcount_ok, count_true_bits.
  - lia.
  - lia.
  - intros i Hi. rewrite <- Ht by lia. auto.
  - intros Hc. rewrite <- Ht by lia. apply Hc3. lia.
  - lia.
  - lia.
  - intros Hh. rewrite <- Ht by lia. auto.
  - intros i Hi Hlt. rewrite <- Ht by lia. auto.
Qed.

(** [|] on bitmaps of different sizes breaks the representation: a bit
    of the larger one that lies past the smaller size but inside its last byte
    is copied, so the result has a set bit past its size, [highest_set_bit]
    reports an index no [test] accepts, and the result is not well formed. *)
Theorem or_size_mismatch_corrupts (b1 b2 : Bitmap) (i : Z) :
  bm_wf b1 → bm_wf b2 → bm_size b1 < bm_size b2 →
  bm_size b1 <= i < 8 * num_bytes (bm_size b1) → test b2 i = true →
  bm_size (bor b1 b2) = bm_size b1 ∧
  bm_size (bor b1 b2) <= highest_set_bit (bor b1 b2) ∧
  test (bor b1 b2) (highest_set_bit (bor b1 b2)) = false ∧
  ¬ bm_wf (bor b1 b2).
Proof.
  intros H1 H2 Hlt Hi Ht. pose proof (wf_size b1 H1).
  destruct (zip_length Z.lor b1 b2) as [Hs Hl]; [lia..|]. rewrite Z.min_l in * by lia.
  assert (Hbit : bitd (bm_data (bor b1 b2)) i = true).
  { unfold bor. rewrite (zip_bytes_ok _ orb) by (try done; try lia; apply Z.lor_spec).
    by rewrite !bitd_test, Ht, orb_true_r. }
  assert (Hb : Forall is_byte (bm_data (bor b1 b2))) by (apply zip_bytes_bytes; auto with bitmap_db).
  destruct (highest_loop_spec (bm_data (bor b1 b2)) (length (bm_data (bor b1 b2))) Hb) as (_ & _ & Hh).
  fold (highest_set_bit (bor b1 b2)) in Hh. change (zip_bytes Z.lor b1 b2) with (bor b1 b2) in *.
  assert (i <= highest_set_bit (bor b1 b2)).
  { destruct (Z.le_gt_cases i (highest_set_bit (bor b1 b2))) as [|Hgt]; [done|].
    rewrite Hh in Hbit by lia. done. }
  split_and!; [done|lia| |].
  - rewrite test_bitd, Hs. rewrite (proj2 (Z.ltb_ge _ _)) by lia. done.
  - intros Hw. rewrite (wf_tail _ Hw) in Hbit by lia. done.
Qed.

Lemma bitmap_refines_bits_witness :
  popcount (eval (EOr (ESetRange (ENew 12) 3 11) (EPrefix 12 2)))
  = Z.of_nat (length (get_indices (eval (EOr (ESetRange (ENew 12) 3 11) (EPrefix 12 2))))).
Proof.
  apply (bitmap_refines_bits (EOr (ESetRange (ENew 12) 3 11) (EPrefix 12 2))).
  repeat split; vm_compute; congruence.
Defined.

Lemma or_size_mismatch_witness :
  bm_size (bor (bitmap 4) (set (bitmap 8) 6)) = 4 ∧ 4 <= highest_set_bit (bor (bitmap 4) (set (bitmap 8) 6)).
Proof.
  assert (bm_wf (bitmap 4)) as H4 by (by apply bitmap_wf).
  assert (bm_wf (set (bitmap 8) 6)) as H8 by (apply set_ok; [by apply bitmap_wf | done]).
  destruct (or_size_mismatch_corrupts (bitmap 4) (set (bitmap 8) 6) 6 H4 H8) as (Hs & Hh & _ & _).
  - reflexivity.
  - vm_compute. split; congruence.
  - reflexivity.
  - rewrite Hs in Hh. split; [exact Hs | exact Hh].
Defined.
