(* ===== verification/Fold.v ===== *)
(** * Fold and unfold

    [distributed/bitmap_ops/fold.py] and its kernels in
    [csrc/lmcache_native/fold.cpp]: from the presence of every (chunk, object
    group, rank) key to the model-wide prefix hit length, and back to the keys
    each group must keep. The layout is chunk-major: key
    [j * (num_groups * num_ranks) + g * num_ranks + r]. The kernels compute with
    [size_t], written [u64]; arguments cross the language boundary through
    checked conversions. *)

From S2P Require Import Prelude Bitmap.

Open Scope Z_scope.

Definition u64 (x : Z) : Z := x mod 2 ^ 64.

(** pybind conversions of a Python integer *)
Definition to_size_t (z : Z) : result Z :=
  if (0 <=? z) && (z <? 2 ^ 64) then Ok z else Raise TypeError.
Fixpoint to_int64_vector (l : list Z) : result (list Z) :=
  match l with
  | [] => Ok []
  | z :: l =>
      (guard ((- 2 ^ 63 <=? z) && (z <? 2 ^ 63)) else TypeError;
       l <-? to_int64_vector l;
       Ok (z :: l))%py
  end.

Definition unfold_range (prefix_len window : Z) : Z * Z :=
  if prefix_len <=? 0 then (0, 0)
  else ((if window <=? 0 then 0 else Z.max 0 (prefix_len - window)), prefix_len).

(** The loop over prefix lengths [p, p+1, ...], [k] of them, for one group:
    [run] is the number of consecutive present chunks ending at the previous
    chunk. The kernel and the reference share this loop and differ in how they
    compute [present]. *)
Fixpoint group_loop (present : Z → bool) (eff_window run p : Z) (k : nat) (servable : list bool)
  : list bool :=
  match k with
  | O => servable
  | S k =>
      let run := if present (p - 1) then run + 1 else 0 in
      let servable :=
        if default false (servable !! Z.to_nat (p - 1)) && (run <? Z.min eff_window p)
        then <[Z.to_nat (p - 1) := false]> servable else servable in
      group_loop present eff_window run (p + 1) k servable
  end.

Definition eff_window (num_chunks window : Z) : Z := if window <=? 0 then num_chunks else window.

(** the loop over the groups [g, g+1, ...] *)
Fixpoint groups_loop (present : Z → Z → bool) (num_chunks g : Z) (windows : list Z)
    (servable : list bool) : list bool :=
  match windows with
  | [] => servable
  | w :: windows =>
      groups_loop present num_chunks (g + 1) windows
        (group_loop (present g) (eff_window num_chunks w) 0 1 (Z.to_nat num_chunks) servable)
  end.

(** the final loop: a bitmap of the [True] entries *)
Definition servable_bitmap (num_chunks : Z) (servable : list bool) : Bitmap :=
  foldl (fun b j => if default false (servable !! Z.to_nat j) then set b j else b)
    (bitmap num_chunks) (seqZ 0 num_chunks).

(** ** The kernels *)

(** the rank loop of the kernel, with its [break] *)
Fixpoint ranks_present (found : Bitmap) (cbase r : Z) (k : nat) : bool :=
  match k with
  | O => true
  | S k => if test found (u64 (cbase + r)) then ranks_present found cbase (r + 1) k else false
  end.

Definition native_fold (found : Bitmap) (num_chunks num_ranks : Z) (group_windows : list Z) : Bitmap :=
  let num_groups := Z.of_nat (length group_windows) in
  let chunk_stride := u64 (num_groups * num_ranks) in
  let present g j :=
    let gbase := u64 (g * num_ranks) in
    let cbase := u64 (u64 (j * chunk_stride) + gbase) in
    ranks_present found cbase 0 (Z.to_nat num_ranks) in
  servable_bitmap num_chunks
    (groups_loop present num_chunks 0 group_windows (replicate (Z.to_nat num_chunks) true)).

Fixpoint native_unfold_groups (mask : Bitmap) (hit_length num_ranks chunk_stride g : Z)
    (windows : list Z) : Bitmap :=
  match windows with
  | [] => mask
  | window :: windows =>
      let lo := if (0 <? window) && (window <? hit_length) then hit_length - window else 0 in
      let gbase := u64 (g * num_ranks) in
      let mask := foldl (fun m j =>
          let base := u64 (u64 (j * chunk_stride) + gbase) in
          set_range m base (u64 (base + num_ranks))) mask (seqZ lo (hit_length - lo)) in
      native_unfold_groups mask hit_length num_ranks chunk_stride (g + 1) windows
  end.

Definition native_unfold (hit_length num_chunks num_ranks : Z) (group_windows : list Z) : Bitmap :=
  let hit_length := if num_chunks <? hit_length then num_chunks else hit_length in
  let num_groups := Z.of_nat (length group_windows) in
  let chunk_stride := u64 (num_groups * num_ranks) in
  let retain_mask := bitmap (u64 (num_chunks * chunk_stride)) in
  if hit_length =? 0 then retain_mask
  else native_unfold_groups retain_mask hit_length num_ranks chunk_stride 0 group_windows.

(** ** The Python entry points; [kernels] says whether the native module has them *)

Definition fold_guards (kernels : bool) (num_chunks num_ranks : Z) (group_windows : list Z)
  : result unit :=
  (guard kernels else ImportError;
   guard negb (num_ranks <? 1) else ValueError;
   guard negb (match group_windows with [] => true | _ => false end) else ValueError;
   guard negb (num_chunks <? 0) else ValueError;
   Ok tt)%py.

Definition fold (kernels : bool) (found : Bitmap) (num_chunks num_ranks : Z)
    (group_windows : list Z) : result Bitmap :=
  (_ <-? fold_guards kernels num_chunks num_ranks group_windows;
   n <-? to_size_t num_chunks;
   r <-? to_size_t num_ranks;
   ws <-? to_int64_vector group_windows;
   Ok (native_fold found n r ws))%py.

Definition unfold_ (kernels : bool) (hit_length num_chunks num_ranks : Z)
    (group_windows : list Z) : result Bitmap :=
  (_ <-? fold_guards kernels num_chunks num_ranks group_windows;
   h <-? to_size_t hit_length;
   n <-? to_size_t num_chunks;
   r <-? to_size_t num_ranks;
   ws <-? to_int64_vector group_windows;
   Ok (native_unfold h n r ws))%py.

Definition fold_unfold_ranked (kernels : bool) (found : Bitmap) (num_chunks num_ranks : Z)
    (group_windows : list Z) : result (Z * Bitmap) :=
  (servable <-? fold kernels found num_chunks num_ranks group_windows;
   let hit_length := highest_set_bit servable + 1 in
   mask <-? unfold_ kernels hit_length num_chunks num_ranks group_windows;
   Ok (hit_length, mask))%py.

Definition fold_unfold (kernels : bool) (found : Bitmap) (num_chunks : Z) (group_windows : list Z)
  : result (Z * Bitmap) :=
  fold_unfold_ranked kernels found num_chunks 1 group_windows.

(** ** The pure Python references *)

Definition _fold_python (found : Bitmap) (num_chunks num_ranks : Z) (group_windows : list Z) : Bitmap :=
  let num_groups := Z.of_nat (length group_windows) in
  let chunk_stride := num_groups * num_ranks in
  let present g j :=
    let gbase := g * num_ranks in
    let cbase := j * chunk_stride + gbase in
    forallb (fun r => test found (cbase + r)) (seqZ 0 num_ranks) in
  servable_bitmap num_chunks
    (groups_loop present num_chunks 0 group_windows (replicate (Z.to_nat num_chunks) true)).

Fixpoint python_unfold_groups (mask : Bitmap) (hit_length num_ranks chunk_stride g : Z)
    (windows : list Z) : Bitmap :=
  match windows with
  | [] => mask
  | window :: windows =>
      let '(lo, hi) := unfold_range hit_length window in
      let gbase := g * num_ranks in
      let mask := foldl (fun m j =>
          let cbase := j * chunk_stride + gbase in
          foldl (fun m r => set m (cbase + r)) m (seqZ 0 num_ranks)) mask (seqZ lo (hi - lo)) in
      python_unfold_groups mask hit_length num_ranks chunk_stride (g + 1) windows
  end.

Definition _unfold_python (hit_length num_chunks num_ranks : Z) (group_windows : list Z) : Bitmap :=
  let hit_length := Z.min hit_length num_chunks in
  let num_groups := Z.of_nat (length group_windows) in
  let chunk_stride := num_groups * num_ranks in
  let retain_mask := bitmap (num_chunks * chunk_stride) in
  if hit_length <=? 0 then retain_mask
  else python_unfold_groups retain_mask hit_length num_ranks chunk_stride 0 group_windows.

(** ** Merging and selecting *)

Definition merge_bitmaps (bitmaps : list Bitmap) (num_keys : Z) : Bitmap :=
  foldl bor (bitmap num_keys) bitmaps.

Inductive TrimPolicy := PREFIX | SEGMENTED_PREFIX | SPARSE.

Definition select_retained (found : Bitmap) (num_keys : Z) (policy : TrimPolicy) : Bitmap :=
  match policy with
  | PREFIX => bitmap_prefix num_keys (clo found)
  | _ => found
  end.

(** two groups (full attention, window 1), two ranks, three chunks: group 0
    has chunks 0 and 1, group 1 has chunk 1 only *)
Definition demo_found : Bitmap := batched_set (bitmap 12) [0; 1; 4; 5; 6; 7].
Example demo_fold :
  fold_unfold_ranked true demo_found 3 2 [-1; 1] = Ok (2, batched_set (bitmap 12) [0; 1; 4; 5; 6; 7]).
Proof. vm_compute. reflexivity. Qed.

(** ** The servable lengths *)

(** a prefix of [L] chunks is served when its last [min eff L] chunks are present *)
Definition serves (present : Z → bool) (eff L : Z) : bool :=
  forallb present (seqZ (L - Z.min eff L) (Z.min eff L)).

Lemma forallb_seqZ (P : Z → bool) a n :
  forallb P (seqZ a n) = true ↔ ∀ j, a <= j < a + n → P j = true.
Proof.
  rewrite forallb_forall. split.
  - intros H j Hj. apply H, list_elem_of_In, elem_of_seqZ. lia.
  - intros H j Hj%list_elem_of_In%elem_of_seqZ. apply H. lia.
Qed.

(** [run] consecutive present chunks end at chunk [L - 1] *)
Definition run_ok (P : Z → bool) (L run : Z) : Prop :=
  0 <= run <= L ∧ (∀ j, L - run <= j < L → P j = true) ∧ (run < L → P (L - run - 1) = false).

Lemma run_step P L run :
  0 <= L → run_ok P L run → run_ok P (L + 1) (if P L then run + 1 else 0).
Proof.
  intros HL (Hr & Hall & Hend). destruct (P L) eqn:E.
  - split_and!; [lia..| |].
    + intros j Hj. destruct (decide (j = L)) as [->|]; [done|]. apply Hall. lia.
    + intros. replace (L + 1 - (run + 1) - 1) with (L - run - 1) by lia. apply Hend. lia.
  - split_and!; [lia..| |].
    + intros j Hj. lia.
    + intros. by replace (L + 1 - 0 - 1) with L by lia.
Qed.

Lemma run_serves P eff L run :
  0 <= eff → 0 <= L → run_ok P L run → (run <? Z.min eff L) = negb (serves P eff L).
Proof.
  intros He HL (Hr & Hall & Hend). unfold serves.
  destruct (Z.ltb_spec run (Z.min eff L)) as [Hlt|Hge]; symmetry.
  - apply negb_true_iff, not_true_is_false. rewrite forallb_seqZ. intros H.
    rewrite H in Hend by lia. discriminate Hend. lia.
  - apply negb_false_iff, forallb_seqZ. intros j Hj. apply Hall. lia.
Qed.

Lemma group_loop_lookup P eff k : ∀ run p servable i b,
  0 <= eff → 1 <= p → run_ok P (p - 1) run → servable !! i = Some b →
  group_loop P eff run p k servable !! i =
  Some (b && (if (p - 1 <=? Z.of_nat i) && (Z.of_nat i <? p - 1 + Z.of_nat k)
              then serves P eff (Z.of_nat i + 1) else true)).
Proof.
  induction k as [|k IH]; intros run p servable i b He Hp Hrun Hi; cbn [group_loop].
  { rewrite Hi. f_equal. zcases; by rewrite andb_true_r. }
  pose proof (run_step P (p - 1) run ltac:(lia) Hrun) as Hrun'.
  replace (p - 1 + 1) with p in Hrun' by lia.
  set (run' := if P (p - 1) then run + 1 else 0) in *.
  rewrite (run_serves P eff p run') by (done || lia).
  replace p with (p + 1 - 1) in Hrun' by lia.
  destruct (decide (i = Z.to_nat (p - 1))) as [->|Hne].
  - rewrite Hi. cbn [default from_option id].
    rewrite (IH run' (p + 1) _ _ (b && serves P eff p) He ltac:(lia) Hrun').
    + f_equal. zcases; rewrite andb_true_r; do 2 f_equal; lia.
    + destruct b, (serves P eff p); simpl; rewrite ?Hi; try done.
      apply list_lookup_insert_eq. by apply lookup_lt_Some in Hi.
  - rewrite (IH run' (p + 1) _ _ b He ltac:(lia) Hrun').
    + f_equal. f_equal. zcases; done.
    + destruct (_ && _); [|done]. by rewrite list_lookup_insert_ne by done.
Qed.

Lemma group_loop_full P n eff servable i b :
  0 <= eff → 0 <= n → (i < Z.to_nat n)%nat → servable !! i = Some b →
  group_loop P eff 0 1 (Z.to_nat n) servable !! i = Some (b && serves P eff (Z.of_nat i + 1)).
Proof.
  intros He Hn Hlt Hi. rewrite (group_loop_lookup _ _ _ _ _ _ _ b); try done.
  - zcases. done.
  - split_and!; [lia..| |]; intros; lia.
Qed.

(** all groups from [g] on *)
Fixpoint serves_all (present : Z → Z → bool) (n g : Z) (windows : list Z) (L : Z) : bool :=
  match windows with
  | [] => true
  | w :: windows => serves (present g) (eff_window n w) L && serves_all present n (g + 1) windows L
  end.

Lemma groups_loop_lookup present n ws : ∀ g servable i b,
  0 <= n → (i < Z.to_nat n)%nat → servable !! i = Some b →
  groups_loop present n g ws servable !! i = Some (b && serves_all present n g ws (Z.of_nat i + 1)).
Proof.
  induction ws as [|w ws IH]; intros g servable i b Hn Hlt Hi; cbn [groups_loop serves_all].
  - by rewrite andb_true_r.
  - rewrite andb_assoc. apply IH; [done..|]. apply group_loop_full; try done.
    unfold eff_window. destruct (Z.leb_spec w 0); lia.
Qed.

Lemma servable_bitmap_ok n servable : 0 <= n →
  bm_wf (servable_bitmap n servable) ∧ bm_size (servable_bitmap n servable) = n ∧
  (∀ j, 0 <= j → test (servable_bitmap n servable) j =
                 (j <? n) && default false (servable !! Z.to_nat j)).
Proof.
  intros Hn. unfold servable_bitmap.
  assert (Hl : ∀ l b, bm_wf b → Forall (λ i, 0 <= i) l →
    let b' := foldl (λ b j, if default false (servable !! Z.to_nat j) then set b j else b) b l in
    bm_wf b' ∧ bm_size b' = bm_size b ∧
    (∀ j, 0 <= j → test b' j = test b j ||
       (bool_decide (j ∈ l) && (default false (servable !! Z.to_nat j) && (j <? bm_size b))))).
  { induction l as [|x l IH]; intros b Hw Hf; cbn zeta; cbn [foldl].
    - split_and!; [done..|]. intros. rewrite bool_decide_false by set_solver. by rewrite orb_false_r.
    - apply Forall_cons in Hf as [Hx Hf]. destruct (default false (servable !! Z.to_nat x)) eqn:E.
      + destruct (set_ok b x Hw Hx) as (Hw' & Hs & Ht).
        destruct (IH (set b x) Hw' Hf) as (?&?&Ht2). split_and!; [done|lia|].
        intros j Hj. rewrite Ht2, Ht, Hs, <- orb_assoc by done. f_equal.
        destruct (Z.eqb_spec j x) as [->|].
        * rewrite (bool_decide_true (x ∈ x :: l)) by set_solver. rewrite E.
          by destruct (x <? bm_size b), (bool_decide _).
        * simpl. f_equal. apply bool_decide_ext. set_solver.
      + destruct (IH b Hw Hf) as (?&?&Ht2). split_and!; [done..|].
        intros j Hj. rewrite Ht2 by done. f_equal.
        destruct (decide (j = x)) as [->|]; [rewrite E; by rewrite !andb_false_r|].
        f_equal. apply bool_decide_ext. set_solver. }
  destruct (Hl (seqZ 0 n) (bitmap n)) as (?&?&Ht).
  - by apply bitmap_wf.
  - apply Forall_forall. intros i Hi%elem_of_seqZ. lia.
  - split_and!; [done..|]. intros j Hj. rewrite Ht, test_bitmap by done. simpl.
    destruct (Z.ltb_spec j n).
    + rewrite bool_decide_true by (apply elem_of_seqZ; lia). by rewrite andb_true_r.
    + by rewrite !andb_false_r.
Qed.

(** the result of either fold, given how it computes presence *)
Lemma fold_ok present n ws : 0 <= n →
  let b := servable_bitmap n (groups_loop present n 0 ws (replicate (Z.to_nat n) true)) in
  bm_wf b ∧ bm_size b = n ∧
  (∀ j, 0 <= j → test b j = (j <? n) && serves_all present n 0 ws (j + 1)).
Proof.
  intros Hn b. destruct (servable_bitmap_ok n (groups_loop present n 0 ws (replicate (Z.to_nat n) true)) Hn)
    as (?&?&Ht). split_and!; [done..|]. intros j Hj. unfold b. rewrite Ht by done.
  destruct (Z.ltb_spec j n); [|done]. simpl.
  rewrite (groups_loop_lookup _ _ _ _ _ _ true); [|done|lia|].
  - simpl. by rewrite Z2Nat.id.
  - apply lookup_replicate_2. lia.
Qed.

(** ** The key layout *)

Definition key (G R c g r : Z) : Z := c * (G * R) + g * R + r.

Lemma euclid_unique b q r q' r' :
  0 <= r < b → 0 <= r' < b → q * b + r = q' * b + r' → q = q' ∧ r = r'.
Proof. intros H1 H2 E. apply (Z.div_mod_unique b); [lia..|]. lia. Qed.

Lemma key_inj G R c g r c' g' r' :
  0 <= g < G → 0 <= g' < G → 0 <= r < R → 0 <= r' < R →
  key G R c g r = key G R c' g' r' → c = c' ∧ g = g' ∧ r = r'.
Proof.
  unfold key. intros Hg Hg' Hr Hr' E.
  destruct (euclid_unique R (c * G + g) r (c' * G + g') r') as [E1 ?]; [done|done|lia|].
  destruct (euclid_unique G c g c' g') as [? ?]; done.
Qed.

Lemma key_bounds G R n c g r :
  0 <= c < n → 0 <= g < G → 0 <= r < R → 0 <= key G R c g r < n * (G * R).
Proof.
  unfold key. intros Hc Hg Hr.
  assert (0 <= g * R) by nia. assert (g * R + r < G * R) by nia.
  assert (0 <= c * (G * R)) by nia. assert ((c + 1) * (G * R) <= n * (G * R)) by nia. nia.
Qed.

Lemma u64_id x : 0 <= x < 2 ^ 64 → u64 x = x.
Proof. apply Z.mod_small. Qed.

(** ** Building a mask *)

(** [f b x] sets, below the size of [b], the bits [Q x] *)
Definition adds {A} (D : A → Prop) (f : Bitmap → A → Bitmap) (Q : A → Z → bool) : Prop :=
  ∀ b x, bm_wf b → D x →
    bm_wf (f b x) ∧ bm_size (f b x) = bm_size b ∧
    (∀ j, 0 <= j → test (f b x) j = test b j || (Q x j && (j <? bm_size b))).

Lemma adds_foldl {A} (D : A → Prop) f Q :
  adds D f Q → adds (Forall D) (foldl f) (λ l j, existsb (λ x, Q x j) l).
Proof.
  intros Ha b l Hw Hf. revert b Hw. induction Hf as [|x l Hx Hf IH]; intros b Hw; cbn [foldl existsb].
  - split_and!; [done..|]. intros. by rewrite orb_false_r.
  - destruct (Ha b x Hw Hx) as (Hw' & Hs & Ht). destruct (IH (f b x) Hw') as (?&?&Ht2).
    split_and!; [done|lia|]. intros j Hj. rewrite Ht2, Ht, Hs, <- orb_assoc by done. f_equal.
    by destruct (Q x j), (existsb _ l), (j <? bm_size b).
Qed.

Lemma adds_ext {A} (D : A → Prop) f Q Q' :
  (∀ x j, D x → Q x j = Q' x j) → adds D f Q → adds D f Q'.
Proof.
  intros HQ Ha b x Hw Hx. destruct (Ha b x Hw Hx) as (?&?&Ht). split_and!; [done..|].
  intros. by rewrite Ht, HQ.
Qed.

Definition in_cell (base R j : Z) : bool := (base <=? j) && (j <? base + R).

Lemma adds_set : adds (λ i, 0 <= i) set (λ i j, j =? i).
Proof.
  intros b i Hw Hi. destruct (set_ok b i Hw Hi) as (?&?&Ht). split_and!; [done..|].
  intros j Hj. rewrite Ht by done. f_equal. destruct (Z.eqb_spec j i) as [->|]; done.
Qed.

(** setting the bits of a cell one by one, as the reference does *)
Lemma adds_cell R : 0 <= R →
  adds (λ base, 0 <= base) (λ m base, foldl (λ m r, set m (base + r)) m (seqZ 0 R))
    (λ base j, in_cell base R j).
Proof.
  intros HR b base Hw Hb.
  assert (Ha : adds (λ r, 0 <= r) (λ m r, set m (base + r)) (λ r j, j =? base + r)).
  { intros b' r Hw' Hr. apply adds_set; [done|lia]. }
  destruct (adds_foldl _ _ _ Ha b (seqZ 0 R) Hw) as (?&?&Ht).
  { apply Forall_forall. intros r Hr%elem_of_seqZ. lia. }
  split_and!; [done..|]. intros j Hj. rewrite Ht by done. do 2 f_equal. unfold in_cell.
  apply eq_true_iff_eq. rewrite existsb_exists, andb_true_iff, Z.leb_le, Z.ltb_lt. split.
  - intros (r & Hr%list_elem_of_In%elem_of_seqZ & ?%Z.eqb_eq). lia.
  - intros ?. exists (j - base). rewrite <- list_elem_of_In, elem_of_seqZ, Z.eqb_eq. lia.
Qed.

(** filling it with [set_range], as the kernel does *)
Lemma adds_set_range R :
  adds (λ base, 0 <= base) (λ m base, set_range m base (base + R)) (λ base j, in_cell base R j).
Proof.
  intros b base Hw Hb. destruct (set_range_ok b base (base + R) Hw Hb) as (?&?&Ht). split_and!; [done..|].
  intros j Hj. by rewrite Ht.
Qed.

(** the bits group [g] onwards keeps for a prefix of [hit] chunks *)
Fixpoint needs (G R hit g : Z) (ws : list Z) (j : Z) : bool :=
  match ws with
  | [] => false
  | w :: ws =>
      existsb (λ c, in_cell (key G R c g 0) R j)
        (seqZ (unfold_range hit w).1 ((unfold_range hit w).2 - (unfold_range hit w).1))
      || needs G R hit (g + 1) ws j
  end.

Lemma unfold_range_bounds hit w : 0 <= hit → 0 <= (unfold_range hit w).1 ∧ (unfold_range hit w).2 <= hit.
Proof. intros. unfold unfold_range. destruct (Z.leb_spec hit 0), (Z.leb_spec w 0); simpl; lia. Qed.

Lemma needs_iff G R hit ws : ∀ g j,
  needs G R hit g ws j = true ↔
  ∃ k w c, ws !! k = Some w ∧ (unfold_range hit w).1 <= c < (unfold_range hit w).2 ∧
           key G R c (g + Z.of_nat k) 0 <= j < key G R c (g + Z.of_nat k) 0 + R.
Proof.
  induction ws as [|w ws IH]; intros g j; cbn [needs].
  - split; [done|]. by intros (k&w&c&?&_).
  - rewrite orb_true_iff, IH, existsb_exists. unfold in_cell. split.
    + intros [(c & Hc%list_elem_of_In%elem_of_seqZ & [?%Z.leb_le ?%Z.ltb_lt]%andb_true_iff)
             |(k & w' & c & ? & ? & ?)].
      * exists O, w, c. rewrite Z.add_0_r. split_and!; [done|lia..].
      * exists (S k), w', c. rewrite Nat2Z.inj_succ.
        replace (g + Z.succ (Z.of_nat k)) with (g + 1 + Z.of_nat k) by lia. done.
    + intros ([|k] & w' & c & Hw & ? & ?).
      * left. injection Hw as ->. exists c. rewrite <- list_elem_of_In, elem_of_seqZ.
        rewrite Z.add_0_r in *. split; [lia|]. apply andb_true_iff. rewrite Z.leb_le, Z.ltb_lt. lia.
      * right. exists k, w', c. rewrite Nat2Z.inj_succ in *.
        replace (g + 1 + Z.of_nat k) with (g + Z.succ (Z.of_nat k)) by lia. done.
Qed.

(** ** The kernels against the references

    The key space fits [size_t]: that is what a lookup request with these
    dimensions needs to exist at all, and the kernels' index arithmetic then
    never wraps. *)

Record layout_ok (n R : Z) (ws : list Z) : Prop := {
  lo_chunks : 0 <= n;
  lo_ranks : 1 <= R;
  lo_groups : ws ≠ [];
  lo_windows : Forall (λ w, - 2 ^ 63 <= w < 2 ^ 63) ws;
  lo_space : Z.max 1 n * (Z.of_nat (length ws) * R) < 2 ^ 64 }.

Lemma python_unfold_groups_ok G R hit ws : 0 <= R → 0 <= hit → 0 <= G → ∀ g mask,
  0 <= g → bm_wf mask →
  let mask' := python_unfold_groups mask hit R (G * R) g ws in
  bm_wf mask' ∧ bm_size mask' = bm_size mask ∧
  (∀ j, 0 <= j → test mask' j = test mask j || (needs G R hit g ws j && (j <? bm_size mask))).
Proof.
  intros HR Hh HG. induction ws as [|w ws IH]; intros g mask Hg Hw; cbn [python_unfold_groups needs].
  { split_and!; [done..|]. intros. by rewrite orb_false_r. }
  pose proof (unfold_range_bounds hit w Hh) as [Hlo _].
  destruct (unfold_range hit w) as [lo hi]. cbn [fst snd] in *.
  assert (Ha : adds (λ c, 0 <= c)
    (λ m c, foldl (λ m r, set m (c * (G * R) + g * R + r)) m (seqZ 0 R))
    (λ c j, in_cell (key G R c g 0) R j)).
  { intros b c Hb Hc. unfold key. rewrite Z.add_0_r. apply (adds_cell R HR); [done|nia]. }
  destruct (adds_foldl _ _ _ Ha mask (seqZ lo (hi - lo)) Hw) as (Hw' & Hs & Ht).
  { apply Forall_forall. intros c Hc%elem_of_seqZ. lia. }
  set (m1 := foldl _ _ _) in *. destruct (IH (g + 1) m1) as (?&?&Ht2); [lia|done|].
  split_and!; [done|lia|]. intros j Hj. rewrite Ht2, Ht, Hs, <- orb_assoc by done. f_equal.
  by destruct (existsb _ _), (needs _ _ _ _ _ _), (j <? bm_size mask).
Qed.

Lemma native_cell_bounds n R G c g :
  0 <= c < n → 0 <= g < G → 1 <= R → 0 <= G → Z.max 1 n * (G * R) < 2 ^ 64 →
  u64 (u64 (c * (G * R)) + u64 (g * R)) = key G R c g 0 ∧
  u64 (key G R c g 0 + R) = key G R c g 0 + R.
Proof.
  intros Hc Hg HR HG Hsp.
  pose proof (key_bounds G R n c g 0 Hc Hg ltac:(lia)) as Hk.
  pose proof (key_bounds G R n c g (R - 1) Hc Hg ltac:(lia)) as Hk'.
  rewrite Z.max_r in Hsp by lia. unfold key in *.
  assert (0 <= g * R) by nia. assert (0 <= c * (G * R)) by nia.
  rewrite !(u64_id (c * (G * R))), !(u64_id (g * R)) by lia.
  rewrite !u64_id by lia. split; lia.
Qed.

Lemma native_unfold_groups_ok n R G hit : 0 < hit <= n → 1 <= R → 0 <= G →
  Z.max 1 n * (G * R) < 2 ^ 64 → ∀ ws g mask,
  0 <= g → g + Z.of_nat (length ws) <= G → bm_wf mask →
  let mask' := native_unfold_groups mask hit R (G * R) g ws in
  bm_wf mask' ∧ bm_size mask' = bm_size mask ∧
  (∀ j, 0 <= j → test mask' j = test mask j || (needs G R hit g ws j && (j <? bm_size mask))).
Proof.
  intros Hh HR HG Hsp. induction ws as [|w ws IH]; intros g mask Hg Hlen Hw;
    cbn [native_unfold_groups needs].
  { split_and!; [done..|]. intros. by rewrite orb_false_r. }
  cbn [length] in Hlen.
  assert (Hr : unfold_range hit w =
    (if (0 <? w) && (w <? hit) then hit - w else 0, hit)).
  { unfold unfold_range. rewrite (proj2 (Z.leb_gt _ _)) by lia. f_equal. zcases. }
  rewrite Hr. cbn [fst snd]. set (lo := if (0 <? w) && (w <? hit) then hit - w else 0) in *.
  assert (0 <= lo) by (unfold lo; zcases).
  assert (Ha : adds (λ c, 0 <= c < hit)
    (λ m c, set_range m (u64 (u64 (c * (G * R)) + u64 (g * R)))
              (u64 (u64 (u64 (c * (G * R)) + u64 (g * R)) + R)))
    (λ c j, in_cell (key G R c g 0) R j)).
  { intros b c Hb Hc. destruct (native_cell_bounds n R G c g) as [-> ->]; [lia..|].
    apply adds_set_range; [done|]. unfold key. nia. }
  destruct (adds_foldl _ _ _ Ha mask (seqZ lo (hit - lo)) Hw) as (Hw' & Hs & Ht).
  { apply Forall_forall. intros c Hc%elem_of_seqZ. lia. }
  set (m1 := foldl _ _ _) in *. destruct (IH (g + 1) m1) as (?&?&Ht2); [lia|lia|done|].
  split_and!; [done|lia|]. intros j Hj. rewrite Ht2, Ht, Hs, <- orb_assoc by done. f_equal.
  by destruct (existsb _ _), (needs _ _ _ _ _ _), (j <? bm_size mask).
Qed.

Section layout.
Context (n R : Z) (ws : list Z) (Hlay : layout_ok n R ws).
Let G := Z.of_nat (length ws).

Lemma groups_pos : 1 <= G.
Proof using Hlay. unfold G. pose proof (lo_groups _ _ _ Hlay). destruct ws; [done|]. simpl length. lia. Qed.

Lemma stride_fits : 0 <= G * R < 2 ^ 64 ∧ 0 <= n * (G * R) < 2 ^ 64.
Proof using Hlay.
  pose proof (lo_space _ _ _ Hlay) as Hs. pose proof (lo_ranks _ _ _ Hlay). pose proof (lo_chunks _ _ _ Hlay).
  pose proof groups_pos. fold G in Hs. nia.
Qed.

Lemma native_unfold_ok hit : 0 <= hit →
  let h := Z.min hit n in
  bm_wf (native_unfold hit n R ws) ∧ bm_size (native_unfold hit n R ws) = n * (G * R) ∧
  (∀ j, 0 <= j → test (native_unfold hit n R ws) j = needs G R h 0 ws j && (j <? n * (G * R))).
Proof using Hlay.
  intros Hh h. pose proof stride_fits as [? ?]. pose proof groups_pos.
  pose proof (lo_ranks _ _ _ Hlay). pose proof (lo_chunks _ _ _ Hlay). unfold native_unfold.
  replace (if n <? hit then n else hit) with h by (unfold h; zcases). fold G.
  rewrite !(u64_id (G * R)) by done. rewrite u64_id by done.
  assert (bm_wf (bitmap (n * (G * R)))) by (apply bitmap_wf; lia).
  destruct (Z.eqb_spec h 0) as [E|E].
  - split_and!; [done..|]. intros j Hj. rewrite test_bitmap, E. symmetry.
    apply andb_false_iff. left. apply not_true_is_false. rewrite needs_iff. 
    intros (k & w & c & ? & Hc & ?). unfold unfold_range in Hc. simpl in Hc. lia.
  - destruct (native_unfold_groups_ok n R G h ltac:(lia) ltac:(lia) ltac:(lia) (lo_space _ _ _ Hlay) ws 0
      (bitmap (n * (G * R)))) as (?&?&Ht); [done|unfold G; lia|done|].
    split_and!; [done..|]. intros j Hj. by rewrite Ht, test_bitmap.
Qed.

Lemma python_unfold_ok hit :
  let h := Z.min hit n in
  bm_wf (_unfold_python hit n R ws) ∧ bm_size (_unfold_python hit n R ws) = n * (G * R) ∧
  (∀ j, 0 <= j → test (_unfold_python hit n R ws) j = needs G R h 0 ws j && (j <? n * (G * R))).
Proof using Hlay.
  intros h. pose proof stride_fits as [? ?]. pose proof groups_pos.
  pose proof (lo_ranks _ _ _ Hlay). pose proof (lo_chunks _ _ _ Hlay). unfold _unfold_python.
  fold h. fold G. assert (bm_wf (bitmap (n * (G * R)))) by (apply bitmap_wf; lia).
  destruct (Z.leb_spec h 0) as [E|E].
  - split_and!; [done..|]. intros j Hj. rewrite test_bitmap. symmetry.
    apply andb_false_iff. left. apply not_true_is_false. rewrite needs_iff.
    intros (k & w & c & ? & Hc & ?). unfold unfold_range in Hc.
    rewrite (proj2 (Z.leb_le _ _)) in Hc by done. simpl in Hc. lia.
  - destruct (python_unfold_groups_ok G R h ws ltac:(lia) ltac:(lia) ltac:(lia) 0
      (bitmap (n * (G * R)))) as (?&?&Ht); [done|done|].
    split_and!; [done..|]. intros j Hj. by rewrite Ht, test_bitmap.
Qed.

End layout.

(** ** Presence and servable prefixes *)

(** chunk [c] of group [g] is present on every rank *)
Definition chunk_present (found : Bitmap) (G R g c : Z) : bool :=
  forallb (λ r, test found (c * (G * R) + g * R + r)) (seqZ 0 R).

(** every group can serve a prefix of [L] chunks under its own window *)
Definition can_serve (found : Bitmap) (R : Z) (ws : list Z) (L : Z) : Prop :=
  ∀ k w c r, ws !! k = Some w → (unfold_range L w).1 <= c < (unfold_range L w).2 → 0 <= r < R →
    test found (key (Z.of_nat (length ws)) R c (Z.of_nat k) r) = true.

Lemma ranks_present_forallb found cbase k : ∀ r,
  (∀ i, r <= i < r + Z.of_nat k → u64 (cbase + i) = cbase + i) →
  ranks_present found cbase r k = forallb (λ r, test found (cbase + r)) (seqZ r (Z.of_nat k)).
Proof.
  induction k as [|k IH]; intros r Hu; [done|]. cbn [ranks_present].
  rewrite seqZ_cons by lia. cbn [forallb]. rewrite Hu by lia.
  destruct (test found (cbase + r)); [|done]. rewrite IH by (intros; apply Hu; lia).
  simpl. f_equal. f_equal; lia.
Qed.

Lemma serves_ext P P' eff L :
  0 <= eff → (∀ c, 0 <= c < L → P c = P' c) → serves P eff L = serves P' eff L.
Proof.
  intros He HP. unfold serves. apply eq_true_iff_eq. rewrite !forallb_seqZ.
  split; intros H j Hj; [rewrite <- HP by lia | rewrite HP by lia]; auto.
Qed.

Lemma serves_all_ext P P' n L ws : 0 <= n → ∀ g,
  (∀ g' c, g <= g' < g + Z.of_nat (length ws) → 0 <= c < L → P g' c = P' g' c) →
  serves_all P n g ws L = serves_all P' n g ws L.
Proof.
  intros Hn. induction ws as [|w ws IH]; intros g HP; [done|]. cbn [serves_all].
  cbn [length] in HP. f_equal.
  - apply serves_ext; [unfold eff_window; zcases|]. intros. apply HP; lia.
  - apply IH. intros. apply HP; lia.
Qed.

Lemma serves_window P n w L :
  1 <= L <= n →
  serves P (eff_window n w) L = true ↔
  ∀ c, (unfold_range L w).1 <= c < (unfold_range L w).2 → P c = true.
Proof.
  intros HL. unfold serves, eff_window, unfold_range. rewrite forallb_seqZ.
  rewrite (proj2 (Z.leb_gt L 0)) by lia. cbn [fst snd].
  destruct (Z.leb_spec w 0); split; intros H' c Hc; apply H'; lia.
Qed.

Lemma serves_all_iff P n L ws : 1 <= L <= n → ∀ g,
  serves_all P n g ws L = true ↔
  ∀ k w c, ws !! k = Some w → (unfold_range L w).1 <= c < (unfold_range L w).2 →
           P (g + Z.of_nat k) c = true.
Proof.
  intros HL. induction ws as [|w ws IH]; intros g; cbn [serves_all].
  - split; [|done]. intros _ k w c Hk. by rewrite lookup_nil in Hk.
  - rewrite andb_true_iff, serves_window, IH by done. split.
    + intros [Hw Hr] [|k] w' c Hk Hc.
      * injection Hk as <-. rewrite Z.add_0_r. auto.
      * rewrite Nat2Z.inj_succ. replace (g + Z.succ (Z.of_nat k)) with (g + 1 + Z.of_nat k) by lia. eauto.
    + intros H. split.
      * intros c Hc. specialize (H O w c eq_refl Hc). by rewrite Z.add_0_r in H.
      * intros k w' c Hk Hc. specialize (H (S k) w' c Hk Hc).
        rewrite Nat2Z.inj_succ in H.
        by replace (g + Z.succ (Z.of_nat k)) with (g + 1 + Z.of_nat k) in H by lia.
Qed.

Lemma can_serve_iff found n R ws L : 1 <= L <= n →
  serves_all (chunk_present found (Z.of_nat (length ws)) R) n 0 ws L = true ↔ can_serve found R ws L.
Proof.
  intros HL. rewrite serves_all_iff by done. unfold can_serve, chunk_present, key. split.
  - intros H k w c r Hk Hc Hr. specialize (H k w c Hk Hc). rewrite forallb_seqZ in H.
    apply (H r). lia.
  - intros H k w c Hk Hc. apply forallb_seqZ. intros r Hr. apply (H k w c r); [done..|lia].
Qed.

Section folds.
Context (n R : Z) (ws : list Z) (Hlay : layout_ok n R ws) (found : Bitmap).
Let G := Z.of_nat (length ws).

Lemma python_fold_ok :
  bm_wf (_fold_python found n R ws) ∧ bm_size (_fold_python found n R ws) = n ∧
  (∀ j, 0 <= j → test (_fold_python found n R ws) j =
     (j <? n) && serves_all (chunk_present found G R) n 0 ws (j + 1)).
Proof using Hlay. apply fold_ok. apply Hlay. Qed.

Lemma native_fold_ok :
  bm_wf (native_fold found n R ws) ∧ bm_size (native_fold found n R ws) = n ∧
  (∀ j, 0 <= j → test (native_fold found n R ws) j =
     (j <? n) && serves_all (chunk_present found G R) n 0 ws (j + 1)).
Proof using Hlay.
  pose proof (stride_fits n R ws Hlay) as [Hst Hsp]. fold G in Hst, Hsp.
  pose proof (lo_ranks _ _ _ Hlay). pose proof (lo_chunks _ _ _ Hlay).
  pose proof (lo_space _ _ _ Hlay) as Hmax. fold G in Hmax.
  unfold native_fold. fold G. rewrite (u64_id (G * R)) by done.
  match goal with |- context [groups_loop ?p _ _ _ _] => set (P := p) end.
  destruct (fold_ok P n ws ltac:(done)) as (Hw & Hs & Ht). split_and!; [done..|].
  intros j Hj. rewrite Ht by done. destruct (Z.ltb_spec j n); [|done]. simpl.
  apply serves_all_ext; [done|]. intros g c Hg Hc. unfold P, chunk_present.
  destruct (native_cell_bounds n R G c g) as [-> _]; [lia|unfold G; lia|lia|unfold G; lia|done|].
  rewrite ranks_present_forallb.
  - rewrite Z2Nat.id by lia. unfold key. by rewrite Z.add_0_r.
  - intros i Hi. apply u64_id. pose proof (key_bounds G R n c g i) as Hk. unfold key in *.
    unfold G in *. lia.
Qed.

Lemma native_fold_python : native_fold found n R ws = _fold_python found n R ws.
Proof using Hlay.
  destruct native_fold_ok as (H1 & H2 & H3), python_fold_ok as (H4 & H5 & H6).
  apply bitmap_ext; [done|done|lia|]. intros i Hi. by rewrite H3, H6 by lia.
Qed.

Lemma native_unfold_python hit : 0 <= hit → native_unfold hit n R ws = _unfold_python hit n R ws.
Proof using Hlay.
  intros Hh. destruct (native_unfold_ok n R ws Hlay hit Hh) as (H1 & H2 & H3).
  destruct (python_unfold_ok n R ws Hlay hit) as (H4 & H5 & H6).
  apply bitmap_ext; [done|done|lia|]. intros i Hi. by rewrite H3, H6 by lia.
Qed.

Lemma to_int64_vector_ok : to_int64_vector ws = Ok ws.
Proof using Hlay.
  pose proof (lo_windows _ _ _ Hlay) as Hf. clear Hlay G. induction Hf as [|w ws' Hw Hf IH]; [done|].
  cbn [to_int64_vector]. rewrite (proj2 (andb_true_iff _ _)) by lia. by rewrite IH.
Qed.

Lemma guards_ok : fold_guards true n R ws = Ok tt.
Proof using Hlay.
  destruct Hlay. unfold fold_guards. destruct ws; [done|].
  rewrite (proj2 (Z.ltb_ge R 1)), (proj2 (Z.ltb_ge n 0)) by done. done.
Qed.

Lemma sizes_fit : to_size_t n = Ok n ∧ to_size_t R = Ok R.
Proof using Hlay.
  pose proof (stride_fits n R ws Hlay) as [Hst Hsp]. pose proof (groups_pos n R ws Hlay).
  pose proof (lo_ranks _ _ _ Hlay). pose proof (lo_chunks _ _ _ Hlay).
  unfold to_size_t. rewrite !(proj2 (andb_true_iff _ _)) by nia. done.
Qed.

Lemma fold_run : fold true found n R ws = Ok (_fold_python found n R ws).
Proof using Hlay.
  unfold fold. destruct sizes_fit as [E1 E2].
  rewrite guards_ok. cbn [rbind]. rewrite E1, E2, to_int64_vector_ok. cbn [rbind].
  by rewrite native_fold_python.
Qed.

Lemma unfold_run hit : 0 <= hit < 2 ^ 64 → unfold_ true hit n R ws = Ok (_unfold_python hit n R ws).
Proof using Hlay.
  intros Hh. unfold unfold_. destruct sizes_fit as [E1 E2].
  rewrite guards_ok. cbn [rbind]. unfold to_size_t at 1. rewrite (proj2 (andb_true_iff _ _)) by lia.
  cbn [rbind]. rewrite E1, E2, to_int64_vector_ok. cbn [rbind]. by rewrite native_unfold_python by lia.
Qed.

Definition hit_of : Z := highest_set_bit (_fold_python found n R ws) + 1.

Lemma hit_of_spec :
  0 <= hit_of <= n ∧ can_serve found R ws hit_of ∧
  ∀ L, hit_of < L <= n → ¬ can_serve found R ws L.
Proof using Hlay.
  pose proof (lo_chunks _ _ _ Hlay). unfold hit_of.
  destruct python_fold_ok as (Hw & Hs & Ht).
  destruct (highest_set_bit_ok _ Hw) as (Hh1 & Hh2 & Hh3). rewrite Hs in Hh1.
  set (h := highest_set_bit _) in *. split_and!; [lia..| |].
  - destruct (decide (h = -1)) as [->|].
    + intros k w c r _ Hc. unfold unfold_range in Hc. simpl in Hc. lia.
    + apply (can_serve_iff found n); [lia|]. specialize (Hh2 ltac:(lia)).
      rewrite Ht in Hh2 by lia. apply andb_true_iff in Hh2 as [_ ?]. done.
  - intros L HL Hc. apply (can_serve_iff found n) in Hc; [|lia].
    specialize (Hh3 (L - 1) ltac:(lia)). rewrite Ht in Hh3 by lia.
    replace (L - 1 + 1) with L in Hh3 by lia. fold G in Hc. rewrite Hc in Hh3. lia.
Qed.

Lemma fold_unfold_run :
  fold_unfold_ranked true found n R ws = Ok (hit_of, _unfold_python hit_of n R ws).
Proof using Hlay.
  unfold fold_unfold_ranked. rewrite fold_run. cbn [rbind]. fold hit_of.
  pose proof hit_of_spec as [? _]. destruct sizes_fit as [E _]. unfold to_size_t in E.
  rewrite unfold_run; [done|]. destruct ((0 <=? n) && (n <? 2 ^ 64)) eqn:En; [|done]. lia.
Qed.

End folds.

Lemma key_decode G R i : 1 <= G → 1 <= R → 0 <= i →
  ∃ c g r, i = key G R c g r ∧ 0 <= c ∧ 0 <= g < G ∧ 0 <= r < R.
Proof.
  intros HG HR Hi. exists (i / R / G), ((i / R) mod G), (i mod R). unfold key.
  pose proof (Z.div_mod i R ltac:(lia)). pose proof (Z.mod_pos_bound i R ltac:(lia)).
  pose proof (Z.div_mod (i / R) G ltac:(lia)). pose proof (Z.mod_pos_bound (i / R) G ltac:(lia)).
  assert (0 <= i / R) by (apply Z.div_pos; lia). assert (0 <= i / R / G) by (apply Z.div_pos; lia).
  split_and!; [nia|lia..].
Qed.

Lemma key_chunk_lt G R c g r L :
  1 <= G → 1 <= R → 0 <= g → 0 <= r → key G R c g r < L * (G * R) → c < L.
Proof.
  unfold key. intros HG HR Hg Hr Hlt. destruct (Z.lt_ge_cases c L) as [|Hge]; [done|].
  assert (L * (G * R) <= c * (G * R)) by (apply Z.mul_le_mono_nonneg_r; nia).
  assert (0 <= g * R) by nia. lia.
Qed.

Lemma retain_key n R ws hit c k w r :
  layout_ok n R ws → 0 <= hit <= n →
  ws !! k = Some w → 0 <= c < n → 0 <= r < R →
  test (_unfold_python hit n R ws) (key (Z.of_nat (length ws)) R c (Z.of_nat k) r) = true ↔
  (unfold_range hit w).1 <= c < (unfold_range hit w).2.
Proof.
  intros Hl Hh Hk Hc Hr. apply lookup_lt_Some in Hk as Hlt.
  set (G := Z.of_nat (length ws)). assert (0 <= Z.of_nat k < G) by (unfold G; lia).
  pose proof (key_bounds G R n c (Z.of_nat k) r) as Hb.
  destruct (python_unfold_ok n R ws Hl hit) as (_ & _ & Ht). fold G in Ht.
  rewrite Ht by lia. rewrite (proj2 (Z.ltb_lt _ _)) by lia. rewrite andb_true_r, Z.min_l by lia.
  rewrite needs_iff. split.
  - intros (k' & w' & c' & Hk' & Hc' & Hj). rewrite Z.add_0_l in Hj. apply lookup_lt_Some in Hk' as Hlt'.
    destruct (key_inj G R c (Z.of_nat k) r c' (Z.of_nat k')
      (key G R c (Z.of_nat k) r - key G R c' (Z.of_nat k') 0)) as (-> & E & _);
      [done|unfold G; lia|done|lia|unfold key; lia|].
    apply Nat2Z.inj in E as ->. congruence.
  - intros Hc'. exists k, w, c. rewrite Z.add_0_l. split; [done|]. split; [done|]. unfold key. lia.
Qed.

Lemma retain_found n R ws found i :
  layout_ok n R ws → 0 <= i → let hit := hit_of n R ws found in
  test (_unfold_python hit n R ws) i = true → test found i = true.
Proof.
  intros Hl Hi hit. destruct (hit_of_spec n R ws Hl found) as (Hh & Hserve & _). fold hit in Hh, Hserve.
  destruct (python_unfold_ok n R ws Hl hit) as (_ & _ & Ht). rewrite Ht by done.
  rewrite Z.min_l by lia. intros [Hn _]%andb_true_iff. apply needs_iff in Hn as (k & w & c & Hk & Hc & Hj).
  rewrite Z.add_0_l in Hj.
  specialize (Hserve k w c (i - key (Z.of_nat (length ws)) R c (Z.of_nat k) 0) Hk Hc ltac:(lia)).
  rewrite <- Hserve. f_equal. unfold key. lia.
Qed.

Lemma retain_below n R ws hit i :
  layout_ok n R ws → 0 <= hit <= n → 0 <= i →
  test (_unfold_python hit n R ws) i = true → i < hit * (Z.of_nat (length ws) * R).
Proof.
  intros Hl Hh Hi. destruct (python_unfold_ok n R ws Hl hit) as (_ & _ & Ht). rewrite Ht by done.
  rewrite Z.min_l by lia. intros [Hn _]%andb_true_iff. apply needs_iff in Hn as (k & w & c & Hk & Hc & Hj).
  rewrite Z.add_0_l in Hj. apply lookup_lt_Some in Hk. pose proof (unfold_range_bounds hit w ltac:(lia)).
  pose proof (lo_ranks _ _ _ Hl).
  pose proof (key_bounds (Z.of_nat (length ws)) R hit c (Z.of_nat k) (R - 1)). unfold key in *. lia.
Qed.

(** C39. The native kernels compute the reference functions: whenever the key
    space fits [size_t], [fold.cpp]'s [fold] and [unfold], with their 64-bit
    index arithmetic, early exit over ranks and byte-filling [set_range], return
    the same bitmaps as [_fold_python] and [_unfold_python]. *)
Theorem native_matches_reference (n R : Z) (ws : list Z) (found : Bitmap) (hit : Z) :
  layout_ok n R ws → 0 <= hit →
  native_fold found n R ws = _fold_python found n R ws ∧
  native_unfold hit n R ws = _unfold_python hit n R ws.
Proof. intros Hl Hh. split; [by apply native_fold_python | by apply native_unfold_python]. Qed.

(** [fold_unfold_ranked] returns the longest servable prefix and what it
    needs: every group can serve the hit length under its own window, no longer
    prefix is servable by every group, the mask retains exactly, for each group,
    the chunks of [unfold_range] on all ranks, and every retained key was
    found. *)
Theorem fold_unfold_exact (n R : Z) (ws : list Z) (found : Bitmap) :
  layout_ok n R ws →
  ∃ hit mask,
    fold_unfold_ranked true found n R ws = Ok (hit, mask) ∧
    0 <= hit <= n ∧ can_serve found R ws hit ∧
    (∀ L, hit < L <= n → ¬ can_serve found R ws L) ∧
    bm_wf mask ∧ bm_size mask = n * (Z.of_nat (length ws) * R) ∧
    (∀ c k w r, ws !! k = Some w → 0 <= c < n → 0 <= r < R →
       test mask (key (Z.of_nat (length ws)) R c (Z.of_nat k) r) = true ↔
       (unfold_range hit w).1 <= c < (unfold_range hit w).2) ∧
    (∀ i, 0 <= i → test mask i = true → test found i = true).
Proof.
  intros Hl. exists (hit_of n R ws found), (_unfold_python (hit_of n R ws found) n R ws).
  destruct (hit_of_spec n R ws Hl found) as (Hh & Hserve & Hmax).
  destruct (python_unfold_ok n R ws Hl (hit_of n R ws found)) as (Hw & Hs & _).
  split; [by apply fold_unfold_run|]. split; [done|]. split; [done|]. split; [done|].
  split; [done|]. split; [done|]. split.
  - intros c k w r Hk Hc Hr. by apply retain_key.
  - intros i Hi. by apply retain_found.
Qed.

Lemma full_attention_serve n R ws found L :
  layout_ok n R ws → Forall (λ w, w <= 0) ws → bm_wf found →
  bm_size found = n * (Z.of_nat (length ws) * R) → 0 <= L <= n →
  can_serve found R ws L ↔ L * (Z.of_nat (length ws) * R) <= clo found.
Proof.
  intros Hl Hf Hw Hs HL. set (G := Z.of_nat (length ws)) in *.
  pose proof (groups_pos n R ws Hl) as HG. fold G in HG. pose proof (lo_ranks _ _ _ Hl) as HR.
  destruct (clo_spec found Hw) as (Hc1 & Hc2 & Hc3). split.
  - intros Hserve. destruct (Z.le_gt_cases (L * (G * R)) (clo found)) as [|Hgt]; [done|]. exfalso.
    destruct (key_decode G R (clo found)) as (c & g & r & E & ? & Hg & Hr); [done|done|lia|].
    destruct (lookup_lt_is_Some_2 ws (Z.to_nat g)) as [w Hk]; [unfold G in *; lia|].
    assert (c < L) by (apply (key_chunk_lt G R c g r); lia).
    pose proof (Forall_lookup_1 _ _ _ _ Hf Hk) as Hw0. simpl in Hw0.
    specialize (Hserve (Z.to_nat g) w c r Hk). rewrite Z2Nat.id in Hserve by lia. fold G in Hserve.
    rewrite <- E in Hserve. rewrite Hc3 in Hserve by nia. discriminate Hserve; [|done].
    unfold unfold_range. rewrite (proj2 (Z.leb_gt L 0)), (proj2 (Z.leb_le w 0)) by lia. simpl. lia.
  - intros Hle k w c r Hk Hc Hr. pose proof (Forall_lookup_1 _ _ _ _ Hf Hk) as Hw0. simpl in Hw0.
    apply lookup_lt_Some in Hk. pose proof (unfold_range_bounds L w ltac:(lia)).
    pose proof (key_bounds G R L c (Z.of_nat k) r). apply Hc2. unfold G in *. lia.
Qed.

(** With full attention everywhere the fold is the plain prefix rule: the
    hit length is the number of whole chunks in the leading run of found keys,
    and the retained set is exactly that prefix of the keys. *)
Theorem full_attention_leading_ones (n R : Z) (ws : list Z) (found : Bitmap) :
  layout_ok n R ws → Forall (λ w, w <= 0) ws → bm_wf found →
  bm_size found = n * (Z.of_nat (length ws) * R) →
  let stride := Z.of_nat (length ws) * R in
  let hit := clo found / stride in
  fold_unfold_ranked true found n R ws = Ok (hit, bitmap_prefix (n * stride) (hit * stride)).
Proof.
  intros Hl Hf Hw Hs stride hit. rewrite fold_unfold_run by done.
  pose proof (groups_pos n R ws Hl) as HG. pose proof (lo_ranks _ _ _ Hl) as HR.
  pose proof (lo_chunks _ _ _ Hl) as Hn. set (G := Z.of_nat (length ws)) in *.
  assert (Hst : 1 <= stride) by (unfold stride; nia).
  destruct (clo_spec found Hw) as (Hc1 & _ & _).
  pose proof (Z.div_mod (clo found) stride ltac:(lia)) as Hdm.
  pose proof (Z.mod_pos_bound (clo found) stride ltac:(lia)) as Hmod. fold hit in Hdm.
  assert (Hhit : 0 <= hit <= n).
  { split; [apply Z.div_pos; lia|]. rewrite Hs in Hc1. fold stride in Hc1. nia. }
  destruct (hit_of_spec n R ws Hl found) as (Hh & Hserve & Hmax).
  assert (hit_of n R ws found = hit) as ->.
  { apply (full_attention_serve n R ws found) in Hserve; [|done..]. fold G in Hserve. fold stride in Hserve.
    destruct (Z.lt_trichotomy (hit_of n R ws found) hit) as [Hlt|[|Hgt]]; [|done|nia].
    exfalso. apply (Hmax hit); [lia|]. apply (full_attention_serve n R ws found); [done..|].
    fold G. fold stride. lia. }
  f_equal. f_equal. destruct (python_unfold_ok n R ws Hl hit) as (Hw1 & Hs1 & Ht1).
  destruct (bitmap_prefix_ok (n * stride) (hit * stride)) as (Hw2 & Hs2 & Ht2); [nia|nia|].
  fold G in Hs1, Ht1. fold stride in Hs1, Ht1. apply bitmap_ext; [done|done|lia|]. intros i Hi.
  rewrite Ht1, Ht2, Z.min_l by lia. f_equal. apply eq_true_iff_eq. rewrite needs_iff, Z.ltb_lt.
  split.
  - intros (k & w & c & Hk & Hc & Hj). apply lookup_lt_Some in Hk.
    pose proof (unfold_range_bounds hit w ltac:(lia)).
    pose proof (key_bounds G R hit c (0 + Z.of_nat k) (R - 1)) as Hb. unfold key, stride, G in *. lia.
  - intros Hlt. destruct (key_decode G R i) as (c & g & r & E & ? & Hg & Hr); [done|done|lia|].
    destruct (lookup_lt_is_Some_2 ws (Z.to_nat g)) as [w Hk]; [unfold G in *; lia|].
    pose proof (Forall_lookup_1 _ _ _ _ Hf Hk) as Hw0. simpl in Hw0.
    assert (c < hit) by (apply (key_chunk_lt G R c g r); unfold stride in *; lia).
    exists (Z.to_nat g), w, c. rewrite Z2Nat.id, Z.add_0_l by lia. split; [done|]. split; [|split].
    + unfold unfold_range. rewrite (proj2 (Z.leb_gt hit 0)), (proj2 (Z.leb_le w 0)) by lia. simpl. lia.
    + unfold key in *. lia.
    + unfold key in *. lia.
Qed.

Module FoldDemo.

Lemma demo_layout : layout_ok 3 2 [-1; 1].
Proof. constructor; [done|done|done| |done]. repeat constructor; vm_compute; congruence. Qed.

Lemma demo_layout_full : layout_ok 3 2 [-1; -1].
Proof. constructor; [done|done|done| |done]. repeat constructor; vm_compute; congruence. Qed.

Lemma native_matches_reference_witness :
  native_fold demo_found 3 2 [-1; 1] = _fold_python demo_found 3 2 [-1; 1] ∧
  native_unfold 2 3 2 [-1; 1] = _unfold_python 2 3 2 [-1; 1].
Proof. apply (native_matches_reference 3 2 [-1; 1] demo_found 2); [apply demo_layout | done]. Defined.

Lemma fold_unfold_exact_witness : can_serve demo_found 2 [-1; 1] 2 ∧ ¬ can_serve demo_found 2 [-1; 1] 3.
Proof.
  destruct (fold_unfold_exact 3 2 [-1; 1] demo_found demo_layout) as (hit & mask & E & _ & Hs & Hm & _).
  rewrite demo_fold in E. injection E as <- <-. split; [exact Hs | apply Hm; lia].
Defined.

Lemma full_attention_witness :
  fold_unfold_ranked true (batched_set (bitmap 12) [0; 1; 2; 3; 4; 5]) 3 2 [-1; -1]
  = Ok (1, bitmap_prefix 12 4).
Proof.
  apply (full_attention_leading_ones 3 2 [-1; -1] (batched_set (bitmap 12) [0; 1; 2; 3; 4; 5]) demo_layout_full).
  - repeat constructor; lia.
  - apply batched_set_ok; [by apply bitmap_wf | repeat constructor; lia].
  - reflexivity.
Defined.

End FoldDemo.
