(* ===== verification/PrefetchPlan.v ===== *)
(** * Prefetch planning

    The decisions of a prefetch: which L2 adapter loads which key
    ([storage_controllers/prefetch_policy.py]) and which keys are kept
    ([merge_bitmaps], [build_trim_mask], [trim_load_plan_with_mask] and the
    planning steps of [_transition_to_load_phase] in
    [storage_controllers/prefetch_controller.py]). Plans and lookup results are
    dictionaries from adapter index to a bitmap over the requested keys. *)

From S2P Require Import Prelude PyDict Bitmap Fold.

Open Scope Z_scope.

Section prefetch.
Context {config : Type}.

Record AdapterDescriptor := { ad_index : Z; ad_config : config }.

Definition plan := list (Z * Bitmap).

(** ** The policies *)

Fixpoint load_plan_loop (lookup_results : plan) (adapters : list AdapterDescriptor)
    (global_bitmap : Bitmap) (p : plan) : plan :=
  match adapters with
  | [] => p
  | ad :: adapters =>
      match dget lookup_results (ad_index ad) with
      | None => load_plan_loop lookup_results adapters global_bitmap p
      | Some curr_bitmap =>
          let local_bitmap := band global_bitmap curr_bitmap in
          let global_bitmap := band global_bitmap (bnot local_bitmap) in
          load_plan_loop lookup_results adapters global_bitmap
            (if popcount local_bitmap =? 0 then p else dset p (ad_index ad) local_bitmap)
      end
  end.

(** [DefaultPrefetchPolicy.select_load_plan] for [num_keys] keys *)
Definition select_load_plan (num_keys : Z) (lookup_results : plan)
    (adapters : list AdapterDescriptor) : plan :=
  let global_bitmap := foldl bor (bitmap num_keys) (dvals lookup_results) in
  load_plan_loop lookup_results (sort_by ad_index adapters) global_bitmap [].

(** [select_l1_retentions] of the base policy and of [RetainPrefetchPolicy] *)
Definition default_l1_retentions {A} (keys : list A) : list bool := replicate (length keys) false.
Definition retain_l1_retentions {A} (keys : list A) : list bool := replicate (length keys) true.

(** ** Trimming *)

Record AttnWindowDesc := {
  num_chunks_in_sw : list Z;
  world_size : Z;
  group_kinds : list string }.

Definition _VALID_GROUP_KINDS : list string :=
  ["attention"; "recurrent"; "standalone"]%string.

(** [AttnWindowDesc.__post_init__] *)
Definition attn_post_init (d : AttnWindowDesc) : result unit :=
  (guard negb (world_size d <? 1) else ValueError;
   guard forallb (fun w => negb ((w =? 0) || (w <? -1))) (num_chunks_in_sw d) else ValueError;
   match group_kinds d with
   | [] => Ok tt
   | kinds =>
       guard bool_decide (length kinds = length (num_chunks_in_sw d)) else ValueError;
       guard forallb (fun k => bool_decide (k ∈ _VALID_GROUP_KINDS)) kinds else ValueError;
       Ok tt
   end)%py.
Definition num_object_groups (d : AttnWindowDesc) : Z := Z.of_nat (length (num_chunks_in_sw d)).

(** Python's [a // b] *)
Definition floordiv (a b : Z) : result Z :=
  if b =? 0 then Raise ZeroDivisionError else Ok (a / b).

Definition build_trim_mask (kernels : bool) (found : Bitmap) (num_keys : Z) (policy : TrimPolicy)
    (attn_desc : AttnWindowDesc) : result (Z * Bitmap) :=
  let stride := num_object_groups attn_desc * world_size attn_desc in
  match policy with
  | PREFIX =>
      (num_chunks <-? floordiv num_keys stride;
       fold_unfold_ranked kernels found num_chunks (world_size attn_desc)
         (num_chunks_in_sw attn_desc))%py
  | SEGMENTED_PREFIX | SPARSE =>
      (hit_chunks <-? floordiv (clo found) stride;
       Ok (hit_chunks, found))%py
  end.

Fixpoint trim_loop (load_plan : plan) (mask : Bitmap) (trimmed_plan : plan) : plan :=
  match load_plan with
  | [] => trimmed_plan
  | (adapter_idx, b) :: load_plan =>
      let new_bitmap := band b mask in
      trim_loop load_plan mask
        (if popcount new_bitmap =? 0 then trimmed_plan else dset trimmed_plan adapter_idx new_bitmap)
  end.
Definition trim_load_plan_with_mask (load_plan : plan) (mask : Bitmap) : plan :=
  trim_loop load_plan mask [].

(** ** Steps 1 and 2 of [_transition_to_load_phase]

    [descriptors] are the adapters not being drained; [l1_readlocks] the keys
    already read-locked in L1. The result is the hit length, the retained set
    and the part of it each adapter loads. *)
Definition plan_load (kernels : bool) (num_keys : Z) (lookup_results : plan)
    (descriptors : list AdapterDescriptor) (l1_readlocks : Bitmap) (policy : TrimPolicy)
    (attn_desc : AttnWindowDesc) : result (Z * Bitmap * plan) :=
  let load_plan := select_load_plan num_keys lookup_results descriptors in
  let load_plan := trim_load_plan_with_mask load_plan (bnot l1_readlocks) in
  let union_bitmap := bor (merge_bitmaps (dvals load_plan) num_keys) l1_readlocks in
  (r <-? build_trim_mask kernels union_bitmap num_keys policy attn_desc;
   let '(hit_length, retained) := r in
   Ok (hit_length, retained, trim_load_plan_with_mask load_plan retained))%py.

End prefetch.

Arguments AdapterDescriptor config : clear implicits.

(** keys 0-3 for one full-attention group; key 0 in L1, adapter 0 has 1 and
    adapter 1 has 1, 2 (and 0) *)
Definition demo_lookups : plan :=
  [(0, batched_set (bitmap 4) [1]); (1, batched_set (bitmap 4) [0; 1; 2])].
Definition demo_adapters : list (AdapterDescriptor unit) :=
  [{| ad_index := 1; ad_config := tt |}; {| ad_index := 0; ad_config := tt |}].
Definition demo_desc : AttnWindowDesc := {| num_chunks_in_sw := [-1]; world_size := 1; group_kinds := [] |}.
Example demo_plan :
  plan_load true 4 demo_lookups demo_adapters (set (bitmap 4) 0) PREFIX demo_desc
  = Ok (3, batched_set (bitmap 4) [0; 1; 2], [(0, set (bitmap 4) 1); (1, set (bitmap 4) 2)]).
Proof. vm_compute. reflexivity. Qed.

(** ** Correctness *)

Definition sized (N : Z) (b : Bitmap) : Prop := bm_wf b ∧ bm_size b = N.

Lemma sized_bitmap N : 0 <= N → sized N (bitmap N).
Proof. split; [by apply bitmap_wf | done]. Qed.
Lemma sized_band N b1 b2 : sized N b1 → sized N b2 → sized N (band b1 b2).
Proof. intros [? ?] [? ?]. destruct (band_ok b1 b2) as (?&?&_); [done..|]. split; [done|lia]. Qed.
Lemma sized_bor N b1 b2 : sized N b1 → sized N b2 → sized N (bor b1 b2).
Proof. intros [? ?] [? ?]. destruct (bor_ok b1 b2) as (?&?&_); [done|done|lia|]. split; [done|lia]. Qed.
Lemma sized_bnot N b : sized N b → sized N (bnot b).
Proof. intros [? ?]. destruct (bnot_ok b) as (?&?&_); [done|]. split; [done|lia]. Qed.
#[local] Hint Resolve sized_band sized_bor sized_bnot : bitmap_db.

Lemma test_band N b1 b2 i : sized N b1 → sized N b2 → 0 <= i → test (band b1 b2) i = test b1 i && test b2 i.
Proof. intros [? ?] [? ?] ?. by apply band_ok. Qed.
Lemma test_bor N b1 b2 i : sized N b1 → sized N b2 → 0 <= i → test (bor b1 b2) i = test b1 i || test b2 i.
Proof. intros [? ?] [? ?] ?. apply bor_ok; [done|done|lia|done]. Qed.
Lemma test_bnot N b i : sized N b → 0 <= i < N → test (bnot b) i = negb (test b i).
Proof.
  intros [? Hs] ?. destruct (bnot_ok b) as (_&_&Ht); [done|]. rewrite Ht, Hs by lia.
  by rewrite (proj2 (Z.ltb_lt _ _)) by lia.
Qed.
Lemma test_range N b i : sized N b → test b i = true → i < N.
Proof. intros [_ <-]. rewrite test_bitd. intros [?%Z.ltb_lt _]%andb_true_iff. done. Qed.

Lemma popcount_zero b : bm_wf b → (popcount b =? 0) = true ↔ ∀ i, 0 <= i → test b i = false.
Proof.
  intros Hw. rewrite Z.eqb_eq, popcount_ok, count_true_bits by done. split.
  - intros Hl i Hi. apply not_true_is_false. intros Ht.
    destruct (get_indices b) as [|x l] eqn:E; [|simpl in Hl; lia].
    assert (i ∈ get_indices b) as Hin by (by apply elem_of_get_indices). rewrite E in Hin. set_solver.
  - intros Hall. destruct (get_indices b) as [|x l] eqn:E; [done|]. exfalso.
    assert (x ∈ get_indices b) as Hin by (rewrite E; set_solver).
    apply elem_of_get_indices in Hin as [? Ht]; [|done]. by rewrite Hall in Ht.
Qed.

(** the union of bitmaps over one key range *)
Lemma foldl_bor_ok N bs : ∀ b, sized N b → Forall (sized N) bs →
  sized N (foldl bor b bs) ∧
  (∀ i, 0 <= i → test (foldl bor b bs) i = test b i || existsb (λ b, test b i) bs).
Proof.
  induction bs as [|b' bs IH]; intros b Hb Hf; cbn [foldl existsb].
  - split; [done|]. intros. by rewrite orb_false_r.
  - apply Forall_cons in Hf as [Hb' Hf]. destruct (IH (bor b b')) as (?&Ht); [by apply sized_bor|done|].
    split; [done|]. intros i Hi. rewrite Ht, (test_bor N) by done. by rewrite orb_assoc.
Qed.

Definition plan_ok (N : Z) (p : plan) : Prop := dwf p ∧ Forall (sized N) (dvals p).

(** adapter [a] holds key [i] in a plan or a set of lookup results *)
Definition has (p : plan) (a i : Z) : bool :=
  match dget p a with Some b => test b i | None => false end.

Lemma plan_ok_sized N p a b : plan_ok N p → dget p a = Some b → sized N b.
Proof. intros [_ Hf] Hg. rewrite Forall_forall in Hf. apply Hf. by apply dget_fmap_Some in Hg. Qed.

Lemma plan_union p i : dwf p → existsb (λ b, test b i) (dvals p) = true ↔ ∃ a, has p a i = true.
Proof.
  intros Hw. rewrite existsb_exists. unfold has. split.
  - intros (b & Hb & Ht). apply list_elem_of_In in Hb. unfold dvals in Hb.
    apply list_elem_of_fmap in Hb as ([a b'] & -> & Hin). exists a.
    by rewrite (dget_wf_elem_of p a b').
  - intros (a & Ht). destruct (dget p a) as [b|] eqn:E; [|done]. exists b. split; [|done].
    apply list_elem_of_In. by apply dget_fmap_Some in E.
Qed.

Lemma plan_ok_dset N p a b : plan_ok N p → sized N b → plan_ok N (dset p a b).
Proof.
  intros [Hw Hf] Hb. split; [by apply dset_wf|]. rewrite Forall_forall in *. intros x Hx.
  unfold dvals in Hx. apply list_elem_of_fmap in Hx as ([k v] & -> & Hin). simpl.
  assert (dget (dset p a b) k = Some v) as Hg by (apply dget_wf_elem_of; [by apply dset_wf|done]).
  rewrite dget_dset in Hg. case_decide; [congruence|]. apply Hf. by apply dget_fmap_Some in Hg.
Qed.

(** storing a bitmap unless it is empty *)
Lemma has_put N p a b a' i :
  sized N b → 0 <= i →
  has (if popcount b =? 0 then p else dset p a b) a' i =
  if decide (a = a') then (if popcount b =? 0 then has p a' i else test b i) else has p a' i.
Proof.
  intros Hb Hi. destruct (popcount b =? 0); [by case_decide|].
  unfold has. rewrite dget_dset. by case_decide.
Qed.

Definition nonempty_entries (p : plan) : Prop := ∀ a b, dget p a = Some b → popcount b ≠ 0.

Lemma put_ok N p a b :
  plan_ok N p → nonempty_entries p → sized N b →
  plan_ok N (if popcount b =? 0 then p else dset p a b) ∧
  nonempty_entries (if popcount b =? 0 then p else dset p a b).
Proof.
  intros Hp Hn Hb. destruct (Z.eqb_spec (popcount b) 0); [done|].
  split; [by apply plan_ok_dset|]. intros a' b'. rewrite dget_dset. case_decide; [congruence|apply Hn].
Qed.

Section load_plan.
Context {config : Type} (N : Z) (lk : plan) (HN : 0 <= N) (Hlk : plan_ok N lk).

(** adapter [a] is the lowest of [as_] that holds key [i] *)
Definition first_holder (as_ : list Z) (a i : Z) : Prop :=
  a ∈ as_ ∧ has lk a i = true ∧ ∀ a', a' ∈ as_ → a' < a → has lk a' i = false.

Definition unclaimed (seen : list Z) (i : Z) : bool :=
  existsb (λ b, test b i) (dvals lk) && negb (existsb (λ a, has lk a i) seen).

Record loop_inv (seen : list Z) (g : Bitmap) (p : plan) : Prop := {
  li_global : sized N g;
  li_plan : plan_ok N p;
  li_nonempty : nonempty_entries p;
  li_unclaimed : ∀ i, 0 <= i → test g i = unclaimed seen i;
  li_first : ∀ a i, 0 <= i → has p a i = true ↔ first_holder seen a i }.

Lemma unclaimed_local seen a i :
  has lk a i = true → unclaimed seen i = true ↔ ∀ a', a' ∈ seen → has lk a' i = false.
Proof using HN Hlk.
  intros Ha. unfold unclaimed. rewrite andb_true_iff, negb_true_iff. split.
  - intros [_ He] a' Hin. apply not_true_is_false. intros Ht.
    apply not_true_iff_false in He. apply He, existsb_exists. exists a'. by rewrite <- list_elem_of_In.
  - intros Hall. split.
    + apply plan_union; [apply Hlk|]. by exists a.
    + apply not_true_is_false. rewrite existsb_exists. intros (a' & Hin%list_elem_of_In & Ht).
      rewrite Hall in Ht; done.
Qed.

Lemma first_holder_snoc seen a0 a i :
  (∀ a', a' ∈ seen → a' <= a0) →
  first_holder (seen ++ [a0]) a i ↔
  if decide (a = a0) then has lk a0 i = true ∧ ∀ a', a' ∈ seen → a' < a0 → has lk a' i = false
  else first_holder seen a i.
Proof.
  intros Hmax. unfold first_holder. case_decide as E; subst.
  - split.
    + intros (_ & Ha & Hall). split; [done|]. intros a' Hin. apply Hall. set_solver.
    + intros [Ha Hall]. split_and!; [set_solver|done|]. intros a' Hin Hlt. apply Hall; [|done].
      apply elem_of_app in Hin as [?|Hin]; [done|]. apply list_elem_of_singleton in Hin. lia.
  - split.
    + intros (Hin & Ha & Hall). split_and!; [set_solver|done|]. intros a' Hin'. apply Hall. set_solver.
    + intros (Hin & Ha & Hall). split_and!; [set_solver|done|]. intros a' Hin' Hlt.
      apply elem_of_app in Hin' as [?|Hin']; [by apply Hall|].
      apply list_elem_of_singleton in Hin' as ->. specialize (Hmax a Hin). lia.
Qed.

Lemma load_plan_step seen g p a0 curr :
  (∀ a', a' ∈ seen → a' <= a0) → loop_inv seen g p → dget lk a0 = Some curr →
  let local := band g curr in
  loop_inv (seen ++ [a0]) (band g (bnot local)) (if popcount local =? 0 then p else dset p a0 local).
Proof using HN Hlk.
  intros Hmax [Hg Hp Hn Hu Hf] Hcur local.
  pose proof (plan_ok_sized _ _ _ _ Hlk Hcur) as Hc.
  assert (Hl : sized N local) by (by apply sized_band).
  assert (Hhas : ∀ i, has lk a0 i = test curr i) by (intros; unfold has; by rewrite Hcur).
  assert (Hlt : ∀ i, 0 <= i → test local i = unclaimed seen i && has lk a0 i).
  { intros i Hi. unfold local. by rewrite (test_band N), Hu, Hhas. }
  destruct (put_ok N p a0 local Hp Hn Hl) as [Hp' Hn'].
  constructor; [by apply sized_band, sized_bnot|done|done| |].
  - intros i Hi. destruct (Z.lt_ge_cases i N).
    + rewrite (test_band N), (test_bnot N), Hlt, Hu by (done || lia || by apply sized_bnot).
      unfold unclaimed. rewrite existsb_app. cbn [existsb]. rewrite orb_false_r.
      destruct (existsb (λ b, test b i) (dvals lk)), (existsb _ seen), (has lk a0 i); done.
    + rewrite (test_band N), Hu by (done || by apply sized_bnot). unfold unclaimed.
      assert (existsb (λ b, test b i) (dvals lk) = false) as ->; [|done].
      apply not_true_is_false. rewrite plan_union by apply Hlk. intros (a & Ha). unfold has in Ha.
      destruct (dget lk a) eqn:E; [|done]. apply (test_range N) in Ha; [lia|].
      exact (plan_ok_sized _ _ _ _ Hlk E).
  - intros a i Hi. rewrite (has_put N) by done. rewrite first_holder_snoc by done.
    destruct (decide (a0 = a)) as [<-|Hne]; [|rewrite decide_False by congruence; by apply Hf].
    rewrite decide_True by done.
    destruct (decide (a0 ∈ seen)) as [Hin|Hin].
    + assert ((popcount local =? 0) = true) as Hz.
      { apply popcount_zero; [apply Hl|]. intros j Hj. rewrite Hlt by done. apply not_true_is_false.
        intros [Hun Ha]%andb_true_iff. pose proof (proj1 (unclaimed_local seen a0 j Ha) Hun a0 Hin). congruence. }
      rewrite Hz, Hf by done. unfold first_holder. split; [intros (?&?&?)|intros [? ?]]; done.
    + assert (Hold : has p a0 i = false).
      { apply not_true_is_false. rewrite Hf by done. by intros [? _]. }
      assert (Hcond : test local i = true ↔
        has lk a0 i = true ∧ ∀ a', a' ∈ seen → a' < a0 → has lk a' i = false).
      { rewrite Hlt, andb_true_iff by done. split.
        - intros [Hun Ha]. split; [done|]. intros a' Hin' _. exact (proj1 (unclaimed_local seen a0 i Ha) Hun a' Hin').
        - intros [Ha Hall]. split; [|done]. apply (unclaimed_local _ a0); [done|]. intros a' Hin'.
          apply Hall; [done|]. specialize (Hmax a' Hin'). assert (a' ≠ a0) by (intros ->; done). lia. }
      destruct (popcount local =? 0) eqn:Hz; [|done]. rewrite Hold, <- Hcond.
      pose proof (proj1 (popcount_zero local (proj1 Hl)) Hz i Hi) as Hf0. by rewrite Hf0.
Qed.

Lemma load_plan_skip seen g p a0 :
  (∀ a', a' ∈ seen → a' <= a0) → loop_inv seen g p → dget lk a0 = None →
  loop_inv (seen ++ [a0]) g p.
Proof.
  intros Hmax [Hg Hp Hn Hu Hf] Hcur.
  assert (Hhas : ∀ i, has lk a0 i = false) by (intros; unfold has; by rewrite Hcur).
  constructor; [done|done|done| |].
  - intros i Hi. rewrite Hu by done. unfold unclaimed. rewrite existsb_app. cbn [existsb].
    by rewrite Hhas, !orb_false_r.
  - intros a i Hi. rewrite first_holder_snoc, Hf by done. case_decide; [subst|done].
    unfold first_holder. rewrite Hhas. split; [intros (_&?&_)|intros [? _]]; done.
Qed.

Lemma load_plan_loop_ok (ads : list (AdapterDescriptor config)) : ∀ seen g p,
  StronglySorted (key_le ad_index) ads →
  (∀ a' ad, a' ∈ seen → ad ∈ ads → a' <= ad_index ad) → loop_inv seen g p →
  ∃ g', loop_inv (seen ++ (ad_index <$> ads)) g' (load_plan_loop lk ads g p).
Proof using HN Hlk.
  induction ads as [|ad ads IH]; intros seen g p HS Hmax Hinv; cbn [load_plan_loop].
  - exists g. by rewrite app_nil_r.
  - apply StronglySorted_cons_iff in HS as [HS Had].
    assert (Hm : ∀ a', a' ∈ seen → a' <= ad_index ad) by (intros; eapply Hmax; [done|left]).
    assert (Hm' : ∀ a' ad', a' ∈ seen ++ [ad_index ad] → ad' ∈ ads → a' <= ad_index ad').
    { intros a' ad' [?| ->%list_elem_of_singleton]%elem_of_app ?; [eapply Hmax; [done|by right]|].
      by apply Had. }
    rewrite fmap_cons, (cons_middle (ad_index ad)), app_assoc.
    destruct (dget lk (ad_index ad)) as [curr|] eqn:E; apply IH; try done.
    + by apply load_plan_step.
    + by apply load_plan_skip.
Qed.

Lemma select_load_plan_inv (adapters : list (AdapterDescriptor config)) :
  ∃ g, loop_inv (ad_index <$> sort_by ad_index adapters) g (select_load_plan N lk adapters).
Proof using HN Hlk.
  unfold select_load_plan.
  destruct (load_plan_loop_ok (sort_by ad_index adapters) [] (foldl bor (bitmap N) (dvals lk)) [])
    as [g Hg].
  - apply sort_by_sorted.
  - intros a' ad Hin. by apply not_elem_of_nil in Hin.
  - destruct (foldl_bor_ok N (dvals lk) (bitmap N)) as [Hs Ht]; [by apply sized_bitmap|apply Hlk|].
    constructor; [done| | |by intros; rewrite Ht, test_bitmap; unfold unclaimed; rewrite ?andb_true_r|].
    + split; [constructor|constructor].
    + intros a b. done.
    + intros a i _. unfold first_holder. split; [done|]. intros [Hin _]. by apply not_elem_of_nil in Hin.
  - by exists g.
Qed.

End load_plan.

(** ** Trimming a plan *)

Lemma has_cons p a b a' i : has ((a, b) :: p) a' i = if decide (a = a') then test b i else has p a' i.
Proof. unfold has. simpl. by case_decide. Qed.

Lemma has_notin p a i : a ∉ dkeys p → has p a i = false.
Proof. intros H%dget_None_dkeys. unfold has. by rewrite H. Qed.

Lemma trim_loop_ok N mask p : ∀ acc,
  sized N mask → plan_ok N p → plan_ok N acc → nonempty_entries acc →
  (∀ a, a ∈ dkeys p → dget acc a = None) →
  plan_ok N (trim_loop p mask acc) ∧ nonempty_entries (trim_loop p mask acc) ∧
  (∀ a i, 0 <= i → has (trim_loop p mask acc) a i = (has p a i && test mask i) || has acc a i).
Proof.
  induction p as [|[a b] p IH]; intros acc Hm Hp Ha Hn Hd; cbn [trim_loop].
  { split_and!; [done..|]. intros. done. }
  destruct Hp as [Hw Hf]. apply NoDup_cons in Hw as [Hnin Hw]. apply Forall_cons in Hf as [Hb Hf].
  assert (Hl : sized N (band b mask)) by (by apply sized_band).
  destruct (put_ok N acc a (band b mask) Ha Hn Hl) as [Ha' Hn'].
  destruct (IH (if popcount (band b mask) =? 0 then acc else dset acc a (band b mask))) as (H1 & H2 & H3);
    try done.
  - intros a' Hin. destruct (_ =? 0); [apply Hd; by right|]. rewrite dget_dset_ne by (intros ->; done).
    apply Hd. by right.
  - split_and!; [done..|]. intros a' i Hi. rewrite H3, (has_put N), has_cons by done.
    destruct (decide (a = a')) as [<-|]; [|done]. rewrite (has_notin p a) by done. simpl.
    assert (has acc a i = false) as -> by (unfold has; rewrite Hd by (left; done); done).
    rewrite orb_false_r. destruct (popcount (band b mask) =? 0) eqn:Hz.
    + rewrite <- (test_band N) by done.
      by rewrite (proj1 (popcount_zero _ (proj1 Hl)) Hz i Hi).
    + by apply (test_band N).
Qed.

Lemma trim_ok N mask p : sized N mask → plan_ok N p →
  plan_ok N (trim_load_plan_with_mask p mask) ∧ nonempty_entries (trim_load_plan_with_mask p mask) ∧
  (∀ a i, 0 <= i → has (trim_load_plan_with_mask p mask) a i = has p a i && test mask i).
Proof.
  intros Hm Hp. destruct (trim_loop_ok N mask p [] Hm Hp) as (?&?&Ht).
  - split; constructor.
  - intros a b. done.
  - done.
  - split_and!; [done..|]. intros a i Hi. unfold trim_load_plan_with_mask. rewrite Ht by done.
    apply orb_false_r.
Qed.

Lemma merge_ok N bs : 0 <= N → Forall (sized N) bs →
  sized N (merge_bitmaps bs N) ∧ (∀ i, 0 <= i → test (merge_bitmaps bs N) i = existsb (λ b, test b i) bs).
Proof.
  intros HN Hf. destruct (foldl_bor_ok N bs (bitmap N)) as [Hs Ht]; [by apply sized_bitmap|done|].
  split; [done|]. intros i Hi. unfold merge_bitmaps. by rewrite Ht, test_bitmap.
Qed.

Lemma first_holder_unique lk as_ a a' i :
  first_holder lk as_ a i → first_holder lk as_ a' i → a = a'.
Proof.
  intros (H1 & H2 & H3) (H4 & H5 & H6). destruct (Z.lt_trichotomy a a') as [|[|]]; [|done|].
  - rewrite H6 in H2; done.
  - rewrite H3 in H5; done.
Qed.

Lemma first_holder_perm lk as1 as2 a i : as1 ≡ₚ as2 → first_holder lk as1 a i ↔ first_holder lk as2 a i.
Proof. intros HP. unfold first_holder. by setoid_rewrite HP. Qed.

Lemma first_holder_exists lk as_ i :
  (∃ a, a ∈ as_ ∧ has lk a i = true) ↔ ∃ a, first_holder lk as_ a i.
Proof.
  split; [|intros (a & ? & ? & _); by exists a].
  induction as_ as [|b as_ IH]; intros (a & Hin & Ha); [by apply not_elem_of_nil in Hin|].
  destruct (decide (Exists (λ x, has lk x i = true) as_)) as [He|Hne]; rewrite Exists_exists in *.
  - destruct (IH He) as (x & Hx1 & Hx2 & Hx3).
    destruct (has lk b i) eqn:Hb; [destruct (Z.lt_ge_cases b x)|].
    + exists b. split_and!; [left|done|]. intros a' Hin' Hlt.
      apply elem_of_cons in Hin' as [->|Hin']; [lia|]. apply Hx3; [done|lia].
    + exists x. split_and!; [by right|done|]. intros a' Hin' Hlt.
      apply elem_of_cons in Hin' as [->|Hin']; [lia|]. by apply Hx3.
    + exists x. split_and!; [by right|done|]. intros a' Hin' Hlt.
      apply elem_of_cons in Hin' as [->|Hin']; [done|]. by apply Hx3.
  - apply elem_of_cons in Hin as [->|Hin]; [|exfalso; apply Hne; by exists a].
    exists b. split_and!; [left|done|]. intros a' Hin' Hlt.
    apply elem_of_cons in Hin' as [->|Hin']; [lia|]. apply not_true_is_false. intros Ht.
    apply Hne. by exists a'.
Qed.

Lemma select_load_plan_ok {config} N lk (adapters : list (AdapterDescriptor config)) :
  0 <= N → plan_ok N lk →
  plan_ok N (select_load_plan N lk adapters) ∧ nonempty_entries (select_load_plan N lk adapters) ∧
  (∀ a i, 0 <= i → has (select_load_plan N lk adapters) a i = true ↔
                   first_holder lk (ad_index <$> adapters) a i).
Proof.
  intros HN Hlk. destruct (select_load_plan_inv N lk HN Hlk adapters) as [g [_ Hp Hn _ Hf]].
  split; [done|]. split; [done|]. intros a i Hi. rewrite Hf by done. apply first_holder_perm.
  by rewrite sort_by_perm.
Qed.

(** The default policy gives every found key to exactly one adapter: the
    plan's bitmaps cover the requested keys, none is empty, an adapter is
    assigned a key exactly when it is the lowest-indexed routable adapter whose
    lookup found it, so the bitmaps do not overlap and every key some routable
    adapter found is loaded. *)
Theorem load_plan_first_adapter_wins {config} (N : Z) (lookups : plan)
    (adapters : list (AdapterDescriptor config)) (p := select_load_plan N lookups adapters) :
  0 <= N → plan_ok N lookups →
  (plan_ok N p ∧ nonempty_entries p) ∧
  (∀ a i, 0 <= i → has p a i = true ↔ first_holder lookups (ad_index <$> adapters) a i) ∧
  (∀ a a' i, 0 <= i → has p a i = true → has p a' i = true → a = a') ∧
  (∀ i, 0 <= i → (∃ a, has p a i = true) ↔
                 ∃ a, a ∈ ad_index <$> adapters ∧ has lookups a i = true).
Proof.
  intros HN Hlk. destruct (select_load_plan_ok N lookups adapters HN Hlk) as (Hp & Hn & Hf).
  fold p in Hp, Hn, Hf. split; [done|]. split; [done|]. split.
  - intros a a' i Hi Ha Ha'. apply Hf in Ha, Ha'; [|done..]. by eapply first_holder_unique.
  - intros i Hi. rewrite first_holder_exists. split; intros (a & Ha); exists a; by apply Hf.
Qed.

Section planning.
Context {config : Type} (N : Z) (HN : 0 <= N).
Context (lookups : plan) (descriptors : list (AdapterDescriptor config)) (l1 : Bitmap).
Context (Hlk : plan_ok N lookups) (Hl1 : sized N l1).
Let load_plan := trim_load_plan_with_mask (select_load_plan N lookups descriptors) (bnot l1).
Let union_bitmap := bor (merge_bitmaps (dvals load_plan) N) l1.

Lemma load_plan_trimmed :
  plan_ok N load_plan ∧
  (∀ a i, 0 <= i → has load_plan a i = true ↔
     first_holder lookups (ad_index <$> descriptors) a i ∧ test l1 i = false).
Proof using HN Hlk Hl1.
  destruct (select_load_plan_ok N lookups descriptors HN Hlk) as (Hp & _ & Hf).
  destruct (trim_ok N (bnot l1) _ (sized_bnot _ _ Hl1) Hp) as (Hp' & _ & Ht).
  split; [done|]. intros a i Hi. unfold load_plan. rewrite Ht, andb_true_iff, Hf by done.
  split; intros [Hfh Hx]; (split; [done|]); destruct Hfh as (_ & Ha & _); unfold has in Ha;
    destruct (dget lookups a) eqn:E; try done;
    apply (test_range N) in Ha; try exact (plan_ok_sized _ _ _ _ Hlk E).
  - rewrite (test_bnot N) in Hx by done. by apply negb_true_iff.
  - rewrite (test_bnot N) by done. by rewrite Hx.
Qed.

Lemma union_ok :
  sized N union_bitmap ∧
  (∀ i, 0 <= i → test union_bitmap i = true ↔
     test l1 i = true ∨ ∃ a, a ∈ ad_index <$> descriptors ∧ has lookups a i = true).
Proof using HN Hlk Hl1.
  destruct load_plan_trimmed as [[Hw Hf] Hh].
  destruct (merge_ok N (dvals load_plan) HN Hf) as [Hm Ht]. split; [by apply sized_bor|].
  intros i Hi. unfold union_bitmap. rewrite (test_bor N), Ht, orb_true_iff, plan_union by done.
  rewrite first_holder_exists. split.
  - intros [(a & Ha)|?]; [|by left]. apply Hh in Ha as [? _]; [|done]. right. by exists a.
  - intros [?|(a & Ha)]; [by right|]. destruct (test l1 i) eqn:E; [by right|]. left. exists a. by apply Hh.
Qed.

End planning.

(** what the trim policies keep of a set of found keys; only PREFIX needs the
    keys to be a whole grid of chunks *)
Lemma trim_mask_ok (N n R : Z) (ws : list Z) found policy kinds :
  layout_ok n R ws → (policy = PREFIX → N = n * (Z.of_nat (length ws) * R)) →
  let desc := {| num_chunks_in_sw := ws; world_size := R; group_kinds := kinds |} in
  sized N found →
  ∃ hit retained,
    build_trim_mask true found N policy desc = Ok (hit, retained) ∧ sized N retained ∧ 0 <= hit ∧
    (∀ i, 0 <= i → test retained i = true → test found i = true) ∧
    (policy = PREFIX → 0 <= hit <= n ∧ can_serve found R ws hit ∧
       ∀ L, hit < L <= n → ¬ can_serve found R ws L).
Proof.
  intros Hlay HN desc Hu. pose proof (groups_pos n R ws Hlay). pose proof (lo_ranks _ _ _ Hlay).
  unfold build_trim_mask, num_object_groups, floordiv. cbn [desc num_chunks_in_sw world_size].
  assert (0 < Z.of_nat (length ws) * R) as Hst by nia.
  rewrite (proj2 (Z.eqb_neq _ _)) by lia.
  assert (0 <= clo found / (Z.of_nat (length ws) * R)).
  { apply Z.div_pos; [|done]. rewrite clo_ok by apply Hu. lia. }
  destruct policy; cbn [rbind].
  - specialize (HN eq_refl). subst N. rewrite Z.div_mul by lia. rewrite fold_unfold_run by done.
    destruct (python_unfold_ok n R ws Hlay (hit_of n R ws found)) as (? & ? & _).
    pose proof (hit_of_spec n R ws Hlay found) as Hspec.
    eexists _, _. split; [done|]. split; [done|]. split; [by apply Hspec|]. split.
    + intros i Hi. by apply retain_found.
    + intros _. exact Hspec.
  - eexists _, _. split; [done|]. split; [done|]. split; [done|]. by split.
  - eexists _, _. split; [done|]. split; [done|]. split; [done|]. by split.
Qed.

(** the outcome of the planning steps *)
Lemma plan_load_ok {config} (N n R : Z) (ws : list Z) kinds (lookups : plan)
    (descriptors : list (AdapterDescriptor config)) (l1 : Bitmap) (policy : TrimPolicy)
    (desc := {| num_chunks_in_sw := ws; world_size := R; group_kinds := kinds |}) :
  0 <= N → layout_ok n R ws → (policy = PREFIX → N = n * (Z.of_nat (length ws) * R)) →
  plan_ok N lookups → sized N l1 →
  ∃ hit retained trimmed,
    plan_load true N lookups descriptors l1 policy desc = Ok (hit, retained, trimmed) ∧
    sized N retained ∧ plan_ok N trimmed ∧ nonempty_entries trimmed ∧
    (∀ i, 0 <= i → test retained i = true → test l1 i = true ∨ ∃ a, has trimmed a i = true) ∧
    (∀ a i, 0 <= i → has trimmed a i = true →
       test retained i = true ∧ test l1 i = false ∧
       first_holder lookups (ad_index <$> descriptors) a i) ∧
    (policy = PREFIX → ∃ union,
       (∀ i, 0 <= i → test union i = true ↔
          test l1 i = true ∨ ∃ a, a ∈ ad_index <$> descriptors ∧ has lookups a i = true) ∧
       can_serve union R ws hit ∧ ∀ L, hit < L <= n → ¬ can_serve union R ws L).
Proof.
  intros HN Hlay Hgrid Hlk Hl1. destruct (load_plan_trimmed N HN lookups descriptors l1 Hlk Hl1) as [Hp Hh].
  destruct (union_ok N HN lookups descriptors l1 Hlk Hl1) as [Hu Hut].
  destruct (trim_mask_ok N n R ws _ policy kinds Hlay Hgrid Hu)
    as (hit & retained & Hrun & Hret & _ & Hsub & Hpre).
  destruct (trim_ok N retained _ Hret Hp) as (Hpt & Hne & Ht).
  eexists hit, retained, _. split.
  { unfold plan_load. fold desc in Hrun. rewrite Hrun. cbn [rbind]. done. }
  split; [done|]. split; [done|]. split; [done|]. split; [|split].
  - intros i Hi Hr. destruct (test l1 i) eqn:E; [by left|]. right.
    pose proof (Hsub i Hi Hr) as Hun. rewrite Hut in Hun by done. destruct Hun as [?|Hex]; [congruence|].
    apply first_holder_exists in Hex as [a Ha]. exists a. rewrite Ht by done.
    apply andb_true_iff. split; [by apply Hh|done].
  - intros a i Hi. rewrite Ht by done. intros [Ha ?]%andb_true_iff. by apply Hh in Ha as [? ?].
  - intros HP. destruct (Hpre HP) as (_ & ? & ?). eexists. split; [exact Hut|]. by split.
Qed.

(** A prefetch plan keeps only keys it can deliver: for a request over a
    whole chunk grid, planning succeeds, and every retained key is either
    already read-locked in L1 or loaded by an adapter; every planned load is of
    a retained key that is missing in L1, from the lowest routable adapter that
    found it and from no other; under the PREFIX policy the reported hit is the
    longest prefix every group can serve from L1 and the routable adapters
    together. *)
Theorem prefetch_plan_sound {config} (n R : Z) (ws : list Z) kinds (lookups : plan)
    (descriptors : list (AdapterDescriptor config)) (l1 : Bitmap) (policy : TrimPolicy)
    (N := n * (Z.of_nat (length ws) * R))
    (desc := {| num_chunks_in_sw := ws; world_size := R; group_kinds := kinds |}) :
  layout_ok n R ws → plan_ok N lookups → sized N l1 →
  ∃ hit retained trimmed,
    plan_load true N lookups descriptors l1 policy desc = Ok (hit, retained, trimmed) ∧
    (∀ i, 0 <= i → test retained i = true → test l1 i = true ∨ ∃ a, has trimmed a i = true) ∧
    (∀ a i, 0 <= i → has trimmed a i = true →
       test retained i = true ∧ test l1 i = false ∧
       first_holder lookups (ad_index <$> descriptors) a i) ∧
    (∀ a a' i, 0 <= i → has trimmed a i = true → has trimmed a' i = true → a = a') ∧
    (policy = PREFIX → ∃ union,
       (∀ i, 0 <= i → test union i = true ↔
          test l1 i = true ∨ ∃ a, a ∈ ad_index <$> descriptors ∧ has lookups a i = true) ∧
       can_serve union R ws hit ∧ ∀ L, hit < L <= n → ¬ can_serve union R ws L).
Proof.
  intros Hlay Hlk Hl1.
  destruct (plan_load_ok N n R ws kinds lookups descriptors l1 policy (proj1 (proj2 (stride_fits n R ws Hlay))) Hlay
              (λ _, eq_refl) Hlk Hl1)
    as (hit & retained & trimmed & Hrun & _ & _ & _ & Hcover & Htrim & Hpre).
  exists hit, retained, trimmed. split; [exact Hrun|]. split; [done|]. split; [done|]. split; [|done].
  intros a a' i Hi Ha Ha'. apply Htrim in Ha as (_ & _ & Ha), Ha' as (_ & _ & Ha'); [|done..].
  by eapply first_holder_unique.
Qed.

Module PlanDemo.

Lemma demo_lookups_ok : plan_ok 4 demo_lookups.
Proof.
  split.
  - vm_compute. repeat constructor; set_solver.
  - repeat constructor; try reflexivity;
      (apply batched_set_ok; [by apply bitmap_wf | repeat constructor; lia]).
Qed.

Lemma load_plan_witness :
  has (select_load_plan 4 demo_lookups demo_adapters) 0 1 = true ↔
  first_holder demo_lookups [1; 0] 0 1.
Proof.
  apply (load_plan_first_adapter_wins 4 demo_lookups demo_adapters); [done | apply demo_lookups_ok | done].
Defined.

Lemma prefetch_plan_witness :
  plan_load true 4 demo_lookups demo_adapters (set (bitmap 4) 0) PREFIX demo_desc
  = Ok (3, batched_set (bitmap 4) [0; 1; 2], [(0, set (bitmap 4) 1); (1, set (bitmap 4) 2)]) ∧
  ∃ hit retained trimmed,
    plan_load true 4 demo_lookups demo_adapters (set (bitmap 4) 0) PREFIX demo_desc
    = Ok (hit, retained, trimmed) ∧
    (∀ i, 0 <= i → test retained i = true →
       test (set (bitmap 4) 0) i = true ∨ ∃ a, has trimmed a i = true).
Proof.
  split; [exact demo_plan|].
  destruct (prefetch_plan_sound 4 1 [-1] [] demo_lookups demo_adapters (set (bitmap 4) 0) PREFIX)
    as (hit & retained & trimmed & E & Hr & _).
  - constructor; [done|done|done| |done]. repeat constructor; vm_compute; congruence.
  - exact demo_lookups_ok.
  - split; [apply set_ok; [by apply bitmap_wf | done] | reflexivity].
  - exists hit, retained, trimmed. split; [exact E | exact Hr].
Defined.

End PlanDemo.
