(* ===== verification/KeyLedger.v ===== *)
(** * Counting keys selected by bitmaps

    Lock accounting compares calls that name lists of keys with bitmaps over the
    positions of a request: [cnt k p keys] is the number of positions [p]
    selects that hold key [k], [occ k l] the number of times a list names it. *)

From S2P Require Import Prelude PyDict Bitmap Fold PrefetchPlan.
Local Open Scope Z_scope.

(** bitmaps built from bitmaps over the same positions *)
Ltac solve_sized := repeat first
  [assumption | apply sized_band | apply sized_bor | apply sized_bnot | split; assumption].

(** ** Ledgers: what a sequence of calls adds up to *)

Section ledger.
Context {C : Type}.
Implicit Types (d : C → Z) (l ext : list C) (c : C).

Definition ledger d l : Z := foldr (λ c z, d c + z) 0 l.

Lemma ledger_app d l l' : ledger d (l ++ l') = ledger d l + ledger d l'.
Proof. unfold ledger. induction l; simpl; lia. Qed.

Lemma ledger_snoc d l c : ledger d (l ++ [c]) = ledger d l + d c.
Proof. rewrite ledger_app. unfold ledger at 2. simpl. lia. Qed.

Lemma ledger_quiet d l ext : Forall (λ c, d c = 0) ext → ledger d (l ++ ext) = ledger d l.
Proof. intros He. rewrite ledger_app. unfold ledger at 2. induction He; simpl; lia. Qed.
End ledger.

(** a sum over the entries of a dictionary *)
Lemma ledger_ddel {A B} `{EqDecision A} (f : A * B → Z) d k v :
  dwf d → dget d k = Some v → ledger f (ddel d k) = ledger f d - f (k, v).
Proof.
  unfold ledger. induction d as [|[k' v'] d IH]; [done|]. intros [Hn Hd]%NoDup_cons. cbn.
  destruct (decide (k' = k)) as [->|].
  - intros [= ->]. rewrite ddel_notin by done. lia.
  - intros E. cbn. rewrite (IH Hd E). lia.
Qed.

Lemma ledger_dset {A B} `{EqDecision A} (f : A * B → Z) d k v v' :
  dget d k = Some v → ledger f (dset d k v') = ledger f d - f (k, v) + f (k, v').
Proof.
  unfold ledger. induction d as [|[k' w] d IH]; [done|]. cbn. destruct (decide (k' = k)) as [->|].
  - intros [= ->]. cbn. lia.
  - intros E. cbn. rewrite (IH E). lia.
Qed.

(** ** Counting *)

Section counting.
Context {K : Type} `{EqDecision K}.
Implicit Types (k x : K) (keys l : list K) (p q : nat → bool).

Fixpoint occ k l : Z :=
  match l with
  | [] => 0
  | x :: l => (if decide (x = k) then 1 else 0) + occ k l
  end.

Fixpoint cnt k p keys : Z :=
  match keys with
  | [] => 0
  | x :: keys => (if decide (x = k) then (if p O then 1 else 0) else 0) + cnt k (λ i, p (S i)) keys
  end.

(** the selected keys, in order *)
Fixpoint sel p keys : list K :=
  match keys with
  | [] => []
  | x :: keys => (if p O then [x] else []) ++ sel (λ i, p (S i)) keys
  end.

Lemma occ_app k l l' : occ k (l ++ l') = occ k l + occ k l'.
Proof. induction l; simpl; lia. Qed.

Lemma occ_sel k p keys : occ k (sel p keys) = cnt k p keys.
Proof.
  revert p. induction keys as [|x keys IH]; intros p; [done|]. cbn [sel cnt].
  rewrite occ_app, IH. destruct (p O); cbn [occ]; case_decide; lia.
Qed.

Lemma cnt_ext k p q keys : (∀ i, (i < length keys)%nat → p i = q i) → cnt k p keys = cnt k q keys.
Proof.
  revert p q. induction keys as [|x keys IH]; intros p q Hpq; [done|]. cbn [cnt].
  rewrite (Hpq O) by (simpl; lia). rewrite (IH _ (λ i, q (S i))); [done|]. intros. apply Hpq. simpl. lia.
Qed.

Lemma cnt_split k p q keys :
  cnt k p keys = cnt k (λ i, p i && q i) keys + cnt k (λ i, p i && negb (q i)) keys.
Proof.
  revert p q. induction keys as [|x keys IH]; intros p q; [done|]. cbn [cnt].
  rewrite (IH _ (λ i, q (S i))). destruct (p O), (q O); case_decide; simpl; lia.
Qed.

Lemma cnt_or k p q keys :
  (∀ i, (i < length keys)%nat → p i = true → q i = true → False) →
  cnt k (λ i, p i || q i) keys = cnt k p keys + cnt k q keys.
Proof.
  intros Hd. rewrite (cnt_split k (λ i, p i || q i) p).
  rewrite (cnt_ext k (λ i, (p i || q i) && p i) p) by (intros; destruct (p i), (q i); done).
  rewrite (cnt_ext k (λ i, (p i || q i) && negb (p i)) q); [done|].
  intros i Hi. specialize (Hd i Hi). destruct (p i), (q i); naive_solver.
Qed.

Lemma cnt_none k p keys : (∀ i, (i < length keys)%nat → p i = false) → cnt k p keys = 0.
Proof.
  intros Hp. rewrite (cnt_ext k p (λ _, false)) by done. clear. induction keys; simpl; [done|].
  case_decide; lia.
Qed.

Lemma cnt_all k keys : cnt k (λ _, true) keys = occ k keys.
Proof. induction keys; simpl; lia. Qed.

Lemma cnt_reply k (f : K → bool) keys p :
  (∀ i x, keys !! i = Some x → p i = f x) → cnt k p keys = if f k then occ k keys else 0.
Proof.
  revert p. induction keys as [|x keys IH]; intros p Hp; [by destruct (f k)|]. cbn [cnt occ].
  rewrite (IH _ (λ i x, Hp (S i) x)), (Hp O x) by done.
  case_decide; subst; destruct (f k); lia.
Qed.

Lemma occ_notin k l : k ∉ l → occ k l = 0.
Proof.
  induction l as [|x l IH]; [done|]. intros [? ?]%not_elem_of_cons. simpl.
  rewrite decide_False by done. rewrite IH by done. lia.
Qed.

Lemma occ_nodup k l : NoDup l → occ k l = if decide (k ∈ l) then 1 else 0.
Proof.
  induction 1 as [|x l Hx Hl IH]; [done|]. simpl. destruct (decide (x = k)) as [->|].
  - rewrite decide_True by left. by rewrite (occ_notin k l).
  - rewrite IH. destruct (decide (k ∈ l)).
    + by rewrite decide_True by (by right).
    + rewrite decide_False; [done|]. rewrite not_elem_of_cons. naive_solver.
Qed.

Lemma elem_of_sel p keys x : x ∈ sel p keys ↔ ∃ i, keys !! i = Some x ∧ p i = true.
Proof.
  revert p. induction keys as [|y keys IH]; intros p; cbn [sel].
  - split; [intros H; by apply not_elem_of_nil in H | intros (i & Hi & _); done].
  - rewrite elem_of_app, IH. split.
    + intros [Hx|(i & Hi & Hp)]; [|by exists (S i)].
      destruct (p O) eqn:E; [|by apply not_elem_of_nil in Hx].
      apply list_elem_of_singleton in Hx as ->. by exists O.
    + intros ([|i] & Hi & Hp); [|right; by exists i]. left. rewrite Hp. injection Hi as ->.
      by apply list_elem_of_singleton.
Qed.

Lemma NoDup_sel p keys : NoDup keys → NoDup (sel p keys).
Proof.
  revert p. induction keys as [|x keys IH]; intros p; [done|]. intros [Hx Hn]%NoDup_cons. cbn [sel].
  destruct (p O); [|by apply IH]. apply NoDup_cons. split; [|by apply IH].
  intros (i & Hi & _)%elem_of_sel. apply Hx. by apply list_elem_of_lookup_2 in Hi.
Qed.

Lemma cnt_nodup keys i k p : NoDup keys → keys !! i = Some k → cnt k p keys = if p i then 1 else 0.
Proof.
  intros Hnd Hi. rewrite <- occ_sel, occ_nodup by (by apply NoDup_sel).
  destruct (p i) eqn:E.
  - rewrite decide_True; [done|]. apply elem_of_sel. by exists i.
  - rewrite decide_False; [done|]. rewrite elem_of_sel. intros (j & Hj & Hp).
    rewrite (NoDup_lookup _ _ _ _ Hnd Hi Hj) in E. congruence.
Qed.

(** the two halves of a duplicate-free list account for all of it *)
Lemma occ_partition k l l' :
  NoDup l → NoDup l' → (∀ x, x ∈ l' → x ∈ l) → occ k l' + occ k (filter (.∉ l') l) = occ k l.
Proof.
  intros Hl Hl' Hsub. rewrite !occ_nodup by auto using NoDup_filter.
  repeat case_decide; rewrite ?list_elem_of_filter in *; naive_solver.
Qed.

(** ** Bitmaps over the positions *)

Definition bits_of (b : Bitmap) : nat → bool := λ i, test b (Z.of_nat i).

Lemma filter_seqZ_sel (P : Z → bool) keys s :
  omap (λ i, keys !! Z.to_nat (i - s)) (List.filter P (seqZ s (Z.of_nat (length keys))))
  = sel (λ i, P (s + Z.of_nat i)) keys.
Proof.
  revert s. induction keys as [|x keys IH]; intros s; [done|].
  rewrite seqZ_cons by (simpl; lia). cbn [List.filter sel].
  rewrite Z.add_0_r.
  assert (Htail : omap (λ i, (x :: keys) !! Z.to_nat (i - s))
      (List.filter P (seqZ (Z.succ s) (Z.pred (Z.of_nat (length (x :: keys))))))
    = sel (λ i, P (s + Z.of_nat (S i))) keys).
  { replace (Z.pred (Z.of_nat (length (x :: keys)))) with (Z.of_nat (length keys)) by (simpl; lia).
    transitivity (omap (λ i, keys !! Z.to_nat (i - Z.succ s))
      (List.filter P (seqZ (Z.succ s) (Z.of_nat (length keys))))).
    - apply list_omap_ext. apply Forall_Forall2_diag, Forall_forall. intros i Hi.
      apply list_elem_of_In, List.filter_In in Hi as [Hi _]. apply list_elem_of_In, elem_of_seqZ in Hi.
      replace (Z.to_nat (i - s)) with (S (Z.to_nat (i - Z.succ s))) by lia. done.
    - rewrite IH. assert (∀ p q ks, (∀ i, p i = q i) → sel p ks = sel q ks) as Hext.
      { clear. intros p q ks. revert p q. induction ks as [|y ks IH]; intros p q Hpq; [done|].
        cbn [sel]. rewrite Hpq. f_equal. apply IH. intros. apply Hpq. }
      apply Hext. intros i. f_equal. lia. }
  destruct (P s); [|exact Htail]. cbn [omap list_omap]. rewrite Z.sub_diag. cbn [Z.to_nat lookup list_lookup].
  cbn [app]. f_equal. exact Htail.
Qed.

Lemma gather_sel b keys : sized (Z.of_nat (length keys)) b → gather b keys = sel (bits_of b) keys.
Proof.
  intros [Hw Hs]. unfold gather. rewrite get_indices_ok, Hs by done.
  change (sel (bits_of b) keys) with (sel (λ i, test b (0 + Z.of_nat i)) keys).
  rewrite <- filter_seqZ_sel. apply list_omap_ext.
  apply Forall_Forall2_diag, Forall_forall. intros i Hi.
  apply list_elem_of_In, List.filter_In in Hi as [Hi _]. apply list_elem_of_In, elem_of_seqZ in Hi.
  rewrite (proj2 (Z.ltb_lt _ _)) by lia. by rewrite Z.sub_0_r.
Qed.

Lemma occ_gather k b keys :
  sized (Z.of_nat (length keys)) b → occ k (gather b keys) = cnt k (bits_of b) keys.
Proof. intros. by rewrite gather_sel, occ_sel. Qed.

Lemma NoDup_gather b keys : sized (Z.of_nat (length keys)) b → NoDup keys → NoDup (gather b keys).
Proof. intros. rewrite gather_sel by done. by apply NoDup_sel. Qed.

End counting.
