(* ===== verification/PrefetchController.v ===== *)
(** * The prefetch controller

    [storage_controllers/prefetch_controller.py]: the state machine that takes a
    request through lookup and load, one iteration of its background loop, and
    the operations other threads call.

    The requests are mutable objects reached from several places, so the model
    keeps them in a store [pc_requests] and passes request identifiers. An
    operation is a function on the controller that also says how it ended: an
    exception leaves the changes made before it, and the loop goes on after it.

    The L1 cache and the L2 adapters are the interfaces [L1Client] and
    [L2Adapters] on a type of worlds; other threads may change the world between
    any two calls. Every call, with its answer, is recorded in [pc_log] under
    the request it was made for. Messages of the event bus are recorded too;
    their per-salt key counters are given by the keys. *)

From S2P Require Import Prelude PyDict PyState TTLLock L1Manager Bitmap Fold PrefetchPlan.
Local Open Scope Z_scope.

(** ** The components the controller calls *)

(** The operations of [L1Manager] the controller uses. [reserve_write] is always
    called with [mode="new"]. *)
Class L1Client (W K Obj Layout : Type) := {
  l1_reserve_read : W → list K → Z → list (K * (L1Error * option Obj)) * W;
  l1_finish_read : W → list K → Z → result W;
  l1_reserve_write : W → list K → list bool → Layout →
                     result (list (K * (L1Error * option Obj)) * W);
  l1_finish_write : W → list K → W;
  l1_finish_write_and_reserve_read : W → list K → Z → list (K * (L1Error * option Obj)) * W;
  l1_delete : W → list K → result W;
  l1_touch_keys : W → list K → W;
  l1_get_size : W → Obj → Z }.

(** [L2AdapterInterface] of l2_adapters/base.py; [Ad] is a reference to an
    adapter. *)
Class L2Adapters (W Ad K Obj Layout TaskId : Type) := {
  submit_lookup_and_lock_task : W → Ad → list K → list (Z * Layout) → TaskId * W;
  query_lookup_and_lock_result : W → Ad → TaskId → option Bitmap * W;
  submit_unlock : W → Ad → list K → W;
  submit_load_task : W → Ad → list K → list Obj → TaskId * W;
  query_load_result : W → Ad → TaskId → option Bitmap * W;
  get_lookup_and_lock_event_fd : Ad → Z;
  get_load_event_fd : Ad → Z }.

Inductive PrefetchMode := LOOKUP | WARM.
Inductive PrefetchPhase := PhaseLookup | PhasePlanAndLoad.
Inductive PrefetchPolicy := DefaultPrefetchPolicy | RetainPrefetchPolicy.

Definition select_l1_retentions {A} (p : PrefetchPolicy) (keys : list A) : list bool :=
  match p with
  | DefaultPrefetchPolicy => default_l1_retentions keys
  | RetainPrefetchPolicy => retain_l1_retentions keys
  end.

#[export] Instance PrefetchMode_eq_dec : EqDecision PrefetchMode.
Proof. solve_decision. Defined.
#[export] Instance PrefetchPhase_eq_dec : EqDecision PrefetchPhase.
Proof. solve_decision. Defined.
#[export] Instance TrimPolicy_eq_dec : EqDecision TrimPolicy.
Proof. solve_decision. Defined.

Section controller.
Context {W Ad K Obj Layout TaskId config : Type} `{EqDecision K}.
Context {L1 : L1Client W K Obj Layout} {L2 : L2Adapters W Ad K Obj Layout TaskId}.
(** the [object_group_id] field of a key *)
Context (object_group_id : K → Z).
(** the configuration: native kernels present, the policy, the request limit and
    the descriptor that signals submissions *)
Context (kernels : bool) (policy_ : PrefetchPolicy) (max_in_flight submission_fd : Z).

Record PrefetchRequestSpec := mkSpec {
  sp_keys : list K;
  sp_group_layout_descs : list (Z * Layout);
  sp_num_kv_readers : Z;
  sp_policy : TrimPolicy;
  sp_attn_desc : AttnWindowDesc;
  sp_mode : PrefetchMode }.

(** [PrefetchRequestSpec.__post_init__] *)
Definition spec_post_init (sp : PrefetchRequestSpec) : result unit :=
  (guard negb (sp_num_kv_readers sp <? 1) else ValueError;
   guard forallb (λ g, dmem (sp_group_layout_descs sp) g)
           (seqZ 0 (num_object_groups (sp_attn_desc sp))) else ValueError;
   Ok tt)%py.

Record InFlightPrefetchRequest := mkRequest {
  rq_request_id : Z;
  rq_keys : list K;
  rq_phase : PrefetchPhase;
  rq_num_kv_readers : Z;
  rq_policy : TrimPolicy;
  rq_attn_desc : AttnWindowDesc;
  rq_mode : PrefetchMode;
  rq_pending_lookup_tasks : list (Z * TaskId);
  rq_lookup_results : plan;
  rq_l2_adapter2readlocks : plan;
  rq_hit_reported : bool;
  rq_load_plan : plan;
  rq_pending_load_tasks : list (Z * TaskId);
  rq_load_bytes_by_adapter : list (Z * Z);
  rq_load_results : plan;
  rq_write_reserved_keys : list K;
  rq_write_reserved_objs : list (K * Obj);
  rq_l1_readlocks : Bitmap;
  rq_group_layout_descs : list (Z * Layout) }.

Definition all_lookups_done (r : InFlightPrefetchRequest) : bool :=
  bool_decide (length (rq_pending_lookup_tasks r) = 0%nat).
Definition all_loads_done (r : InFlightPrefetchRequest) : bool :=
  bool_decide (length (rq_pending_load_tasks r) = 0%nat).

(** Assignments to the fields of a request. *)
Definition rq_start_load (r : InFlightPrefetchRequest) : InFlightPrefetchRequest :=
  mkRequest (rq_request_id r) (rq_keys r) PhasePlanAndLoad (rq_num_kv_readers r) (rq_policy r)
    (rq_attn_desc r) (rq_mode r) (rq_pending_lookup_tasks r) (rq_lookup_results r)
    (rq_l2_adapter2readlocks r) (rq_hit_reported r) (rq_load_plan r) (rq_pending_load_tasks r)
    (rq_load_bytes_by_adapter r) (rq_load_results r) (rq_write_reserved_keys r)
    (rq_write_reserved_objs r) (rq_l1_readlocks r) (rq_group_layout_descs r).
Definition rq_set_lookups (pending : list (Z * TaskId)) (results : plan)
    (r : InFlightPrefetchRequest) : InFlightPrefetchRequest :=
  mkRequest (rq_request_id r) (rq_keys r) (rq_phase r) (rq_num_kv_readers r) (rq_policy r)
    (rq_attn_desc r) (rq_mode r) pending results
    (rq_l2_adapter2readlocks r) (rq_hit_reported r) (rq_load_plan r) (rq_pending_load_tasks r)
    (rq_load_bytes_by_adapter r) (rq_load_results r) (rq_write_reserved_keys r)
    (rq_write_reserved_objs r) (rq_l1_readlocks r) (rq_group_layout_descs r).
Definition rq_set_l2_locks (held : plan) (r : InFlightPrefetchRequest) : InFlightPrefetchRequest :=
  mkRequest (rq_request_id r) (rq_keys r) (rq_phase r) (rq_num_kv_readers r) (rq_policy r)
    (rq_attn_desc r) (rq_mode r) (rq_pending_lookup_tasks r) (rq_lookup_results r)
    held (rq_hit_reported r) (rq_load_plan r) (rq_pending_load_tasks r)
    (rq_load_bytes_by_adapter r) (rq_load_results r) (rq_write_reserved_keys r)
    (rq_write_reserved_objs r) (rq_l1_readlocks r) (rq_group_layout_descs r).
Definition rq_set_hit_reported (r : InFlightPrefetchRequest) : InFlightPrefetchRequest :=
  mkRequest (rq_request_id r) (rq_keys r) (rq_phase r) (rq_num_kv_readers r) (rq_policy r)
    (rq_attn_desc r) (rq_mode r) (rq_pending_lookup_tasks r) (rq_lookup_results r)
    (rq_l2_adapter2readlocks r) true (rq_load_plan r) (rq_pending_load_tasks r)
    (rq_load_bytes_by_adapter r) (rq_load_results r) (rq_write_reserved_keys r)
    (rq_write_reserved_objs r) (rq_l1_readlocks r) (rq_group_layout_descs r).
Definition rq_set_load_plan (p : plan) (r : InFlightPrefetchRequest) : InFlightPrefetchRequest :=
  mkRequest (rq_request_id r) (rq_keys r) (rq_phase r) (rq_num_kv_readers r) (rq_policy r)
    (rq_attn_desc r) (rq_mode r) (rq_pending_lookup_tasks r) (rq_lookup_results r)
    (rq_l2_adapter2readlocks r) (rq_hit_reported r) p (rq_pending_load_tasks r)
    (rq_load_bytes_by_adapter r) (rq_load_results r) (rq_write_reserved_keys r)
    (rq_write_reserved_objs r) (rq_l1_readlocks r) (rq_group_layout_descs r).
Definition rq_set_loads (pending : list (Z * TaskId)) (bytes : list (Z * Z)) (results : plan)
    (r : InFlightPrefetchRequest) : InFlightPrefetchRequest :=
  mkRequest (rq_request_id r) (rq_keys r) (rq_phase r) (rq_num_kv_readers r) (rq_policy r)
    (rq_attn_desc r) (rq_mode r) (rq_pending_lookup_tasks r) (rq_lookup_results r)
    (rq_l2_adapter2readlocks r) (rq_hit_reported r) (rq_load_plan r) pending
    bytes results (rq_write_reserved_keys r)
    (rq_write_reserved_objs r) (rq_l1_readlocks r) (rq_group_layout_descs r).
Definition rq_add_reserved (key : K) (o : Obj) (r : InFlightPrefetchRequest)
  : InFlightPrefetchRequest :=
  mkRequest (rq_request_id r) (rq_keys r) (rq_phase r) (rq_num_kv_readers r) (rq_policy r)
    (rq_attn_desc r) (rq_mode r) (rq_pending_lookup_tasks r) (rq_lookup_results r)
    (rq_l2_adapter2readlocks r) (rq_hit_reported r) (rq_load_plan r) (rq_pending_load_tasks r)
    (rq_load_bytes_by_adapter r) (rq_load_results r) (rq_write_reserved_keys r ++ [key])
    (dset (rq_write_reserved_objs r) key o) (rq_l1_readlocks r) (rq_group_layout_descs r).
Definition rq_set_l1_readlocks (b : Bitmap) (r : InFlightPrefetchRequest) : InFlightPrefetchRequest :=
  mkRequest (rq_request_id r) (rq_keys r) (rq_phase r) (rq_num_kv_readers r) (rq_policy r)
    (rq_attn_desc r) (rq_mode r) (rq_pending_lookup_tasks r) (rq_lookup_results r)
    (rq_l2_adapter2readlocks r) (rq_hit_reported r) (rq_load_plan r) (rq_pending_load_tasks r)
    (rq_load_bytes_by_adapter r) (rq_load_results r) (rq_write_reserved_keys r)
    (rq_write_reserved_objs r) b (rq_group_layout_descs r).

Inductive failure_reason := l1_oom | l1_contended | not_found.

Inductive event :=
| L2_PREFETCH_LOOKUP_SUBMITTED (keys : list K) (adapter_count : nat)
| L2_PREFETCH_LOOKUP_COMPLETED (prefix_hit_count : Z)
| L2_LOAD_TASK_SUBMITTED (adapter_index : Z) (task_id : TaskId) (desc : AdapterDescriptor config)
    (key_count : nat) (total_bytes : Z)
| L2_PREFETCH_LOAD_SUBMITTED (keys : list K) (adapter_count : nat)
| L2_LOAD_TASK_COMPLETED (adapter_index : Z) (task_id : TaskId) (desc : AdapterDescriptor config)
| L2_PREFETCH_LOAD_COMPLETED (loaded : list K) (failed_count : nat)
| L1_ALLOCATION_FAILED (keys : list K)
| L2_PREFETCH_FAILED (reason : failure_reason) (keys : list K).

Inductive call :=
| CReserveRead (keys : list K) (read_locks : Z) (ret : list (K * (L1Error * option Obj)))
| CFinishRead (keys : list K) (read_locks : Z)
| CReserveWrite (keys : list K) (is_temporary : list bool) (layout : Layout)
    (ret : list (K * (L1Error * option Obj)))
| CFinishWrite (keys : list K)
| CFinishWriteAndReserveRead (keys : list K) (read_locks : Z)
    (ret : list (K * (L1Error * option Obj)))
| CDelete (keys : list K)
| CTouch (keys : list K)
| CSubmitLookup (adapter_id : Z) (keys : list K) (task : TaskId)
| CLookupResult (adapter_id : Z) (task : TaskId) (found : Bitmap)
| CSubmitUnlock (adapter_id : Z) (keys : list K)
| CSubmitLoad (adapter_id : Z) (keys : list K) (objs : list Obj) (task : TaskId)
| CLoadResult (adapter_id : Z) (task : TaskId) (loaded : Bitmap)
| CNoAnswer (adapter_id : Z) (task : TaskId)    (* a query that returned None *)
| CPublish (e : event)
| CCompleted (result : Bitmap).    (* the result is stored and waiters are woken *)

Inductive adapter_op :=
| AddAdapterOp (adapter_id : Z) (adapter : Ad) (descriptor : AdapterDescriptor config) (done_ : Z)
| RemoveAdapterOp (adapter_id : Z) (done_ : Z).

(** The adapter tables: [_l2_adapters], [_adapter_descriptors], [_draining], the
    descriptors of both kinds of completion, and the events set so far. *)
Record AdapterTables := mkTables {
  at_l2_adapters : list (Z * Ad);
  at_descriptors : list (Z * AdapterDescriptor config);
  at_draining : list (Z * Z);
  at_lookup_efd : list (Z * Z);
  at_load_efd : list (Z * Z);
  at_done : list Z }.

Record StatusCounts := mkCounts {
  ct_in_flight : Z;
  ct_pending : Z;
  ct_lookup_phase : Z;
  ct_load_phase : Z }.

Record PrefetchController := mkController {
  pc_world : W;
  pc_log : list (Z * call);
  pc_requests : list (Z * InFlightPrefetchRequest);
  pc_tables : AdapterTables;
  pc_pending_adapter_ops : list adapter_op;
  pc_in_flight : list Z;                       (* keys of _in_flight_requests *)
  pc_pending_queue : list (Z * PrefetchRequestSpec);
  pc_submission_queue : list (Z * PrefetchRequestSpec);
  pc_next_request_id : Z;
  pc_completed_lookups : list (Z * Z);
  pc_completed_results : list (Z * Bitmap);
  pc_counts : StatusCounts }.

(** ** Running on the controller *)

Abbreviation ctl := (py_state PrefetchController).

Definition with_world (w : W) (s : PrefetchController) : PrefetchController :=
  mkController w (pc_log s) (pc_requests s) (pc_tables s) (pc_pending_adapter_ops s)
    (pc_in_flight s) (pc_pending_queue s) (pc_submission_queue s) (pc_next_request_id s)
    (pc_completed_lookups s) (pc_completed_results s) (pc_counts s).
Definition with_log (l : list (Z * call)) (s : PrefetchController) : PrefetchController :=
  mkController (pc_world s) l (pc_requests s) (pc_tables s) (pc_pending_adapter_ops s)
    (pc_in_flight s) (pc_pending_queue s) (pc_submission_queue s) (pc_next_request_id s)
    (pc_completed_lookups s) (pc_completed_results s) (pc_counts s).
Definition with_requests (rs : list (Z * InFlightPrefetchRequest)) (s : PrefetchController)
  : PrefetchController :=
  mkController (pc_world s) (pc_log s) rs (pc_tables s) (pc_pending_adapter_ops s)
    (pc_in_flight s) (pc_pending_queue s) (pc_submission_queue s) (pc_next_request_id s)
    (pc_completed_lookups s) (pc_completed_results s) (pc_counts s).
Definition with_tables (t : AdapterTables) (s : PrefetchController) : PrefetchController :=
  mkController (pc_world s) (pc_log s) (pc_requests s) t (pc_pending_adapter_ops s)
    (pc_in_flight s) (pc_pending_queue s) (pc_submission_queue s) (pc_next_request_id s)
    (pc_completed_lookups s) (pc_completed_results s) (pc_counts s).
Definition with_adapter_ops (ops : list adapter_op) (s : PrefetchController) : PrefetchController :=
  mkController (pc_world s) (pc_log s) (pc_requests s) (pc_tables s) ops
    (pc_in_flight s) (pc_pending_queue s) (pc_submission_queue s) (pc_next_request_id s)
    (pc_completed_lookups s) (pc_completed_results s) (pc_counts s).
Definition with_in_flight (l : list Z) (c : StatusCounts) (s : PrefetchController)
  : PrefetchController :=
  mkController (pc_world s) (pc_log s) (pc_requests s) (pc_tables s) (pc_pending_adapter_ops s)
    l (pc_pending_queue s) (pc_submission_queue s) (pc_next_request_id s)
    (pc_completed_lookups s) (pc_completed_results s) c.
Definition with_queues (pending submitted : list (Z * PrefetchRequestSpec)) (next : Z)
    (c : StatusCounts) (s : PrefetchController) : PrefetchController :=
  mkController (pc_world s) (pc_log s) (pc_requests s) (pc_tables s) (pc_pending_adapter_ops s)
    (pc_in_flight s) pending submitted next
    (pc_completed_lookups s) (pc_completed_results s) c.
Definition with_completed (lookups : list (Z * Z)) (results : list (Z * Bitmap))
    (s : PrefetchController) : PrefetchController :=
  mkController (pc_world s) (pc_log s) (pc_requests s) (pc_tables s) (pc_pending_adapter_ops s)
    (pc_in_flight s) (pc_pending_queue s) (pc_submission_queue s) (pc_next_request_id s)
    lookups results (pc_counts s).

(** A call made for request [rid] that left the world [w]. *)
Definition record (rid : Z) (c : call) (w : W) : ctl unit :=
  modify (λ s, with_log (pc_log s ++ [(rid, c)]) (with_world w s)).
Definition publish (rid : Z) (e : event) : ctl unit :=
  w ← gets pc_world; record rid (CPublish e) w.

Definition get_request (rid : Z) : ctl InFlightPrefetchRequest :=
  rs ← gets pc_requests; getitem rs rid.
Definition upd_request (rid : Z) (f : InFlightPrefetchRequest → InFlightPrefetchRequest)
  : ctl unit :=
  r ← get_request rid; modify (λ s, with_requests (dset (pc_requests s) rid (f r)) s).
Definition get_adapter (adapter_id : Z) : ctl Ad :=
  t ← gets pc_tables; getitem (at_l2_adapters t) adapter_id.

Definition reserve_read_ (rid : Z) (keys : list K) (n : Z)
  : ctl (list (K * (L1Error * option Obj))) :=
  w ← gets pc_world;
  let '(ret, w) := l1_reserve_read w keys n in
  _ ← record rid (CReserveRead keys n ret) w; mret ret.
Definition finish_read_ (rid : Z) (keys : list K) (n : Z) : ctl unit :=
  w ← gets pc_world;
  w ← lift (l1_finish_read w keys n); record rid (CFinishRead keys n) w.
Definition reserve_write_ (rid : Z) (keys : list K) (temps : list bool) (layout : Layout)
  : ctl (list (K * (L1Error * option Obj))) :=
  w ← gets pc_world;
  '(ret, w) ← lift (l1_reserve_write w keys temps layout);
  _ ← record rid (CReserveWrite keys temps layout ret) w; mret ret.
Definition finish_write_ (rid : Z) (keys : list K) : ctl unit :=
  w ← gets pc_world; record rid (CFinishWrite keys) (l1_finish_write w keys).
Definition finish_write_and_reserve_read_ (rid : Z) (keys : list K) (n : Z) : ctl unit :=
  w ← gets pc_world;
  let '(ret, w) := l1_finish_write_and_reserve_read w keys n in
  record rid (CFinishWriteAndReserveRead keys n ret) w.
Definition delete_ (rid : Z) (keys : list K) : ctl unit :=
  w ← gets pc_world; w ← lift (l1_delete w keys); record rid (CDelete keys) w.
Definition touch_keys_ (rid : Z) (keys : list K) : ctl unit :=
  w ← gets pc_world; record rid (CTouch keys) (l1_touch_keys w keys).

(** ** Unlocking *)

Definition _release_l2_locks (rid : Z) (keep : plan) : ctl unit :=
  r ← get_request rid;
  let num_keys := Z.of_nat (length (rq_keys r)) in
  for_each (λ ah : Z * Bitmap,
    let '(adapter_idx, held) := ah in
    let keep_bitmap := default (bitmap num_keys) (dget keep adapter_idx) in
    let unlock_keys := gather (band held (bnot keep_bitmap)) (rq_keys r) in
    _ ← when (nonempty unlock_keys)
          (a ← get_adapter adapter_idx; w ← gets pc_world;
           record rid (CSubmitUnlock adapter_idx unlock_keys) (submit_unlock w a unlock_keys));
    let remaining := band held keep_bitmap in
    upd_request rid (λ r,
      rq_set_l2_locks (if popcount remaining =? 0 then ddel (rq_l2_adapter2readlocks r) adapter_idx
                       else dset (rq_l2_adapter2readlocks r) adapter_idx remaining) r))
    (rq_l2_adapter2readlocks r).

(** ** Completion *)

Definition _update_lookup_results (rid prefix_hit_count : Z) : ctl unit :=
  modify (λ s, with_completed (dset (pc_completed_lookups s) rid prefix_hit_count)
                 (pc_completed_results s) s).

Definition _report_lookup_hit (rid prefix_hit_count : Z) : ctl unit :=
  _ ← upd_request rid rq_set_hit_reported;
  _ ← _update_lookup_results rid prefix_hit_count;
  publish rid (L2_PREFETCH_LOOKUP_COMPLETED prefix_hit_count).

Definition _complete_request (rid : Z) (result : Bitmap) : ctl unit :=
  _ ← modify (λ s, with_completed (pc_completed_lookups s)
                     (dset (pc_completed_results s) rid result) s);
  w ← gets pc_world;
  _ ← record rid (CCompleted result) w;
  in_flight ← gets pc_in_flight;
  if bool_decide (rid ∈ in_flight) then
    removed ← get_request rid;
    modify (λ s,
      let c := pc_counts s in
      with_in_flight (filter (.≠ rid) (pc_in_flight s))
        (mkCounts (ct_in_flight c - 1) (ct_pending c)
           (match rq_phase removed with
            | PhaseLookup => ct_lookup_phase c - 1
            | PhasePlanAndLoad => ct_lookup_phase c end)
           (match rq_phase removed with
            | PhaseLookup => ct_load_phase c
            | PhasePlanAndLoad => ct_load_phase c - 1 end)) s)
  else mret tt.

(** the loaded positions: each adapter's answer is indexed over the keys of its
    own load task *)
Definition loaded_bitmap (r : InFlightPrefetchRequest) : Bitmap :=
  foldl (λ result_bitmap ap,
      match dget (rq_load_results r) (fst ap) with
      | None => result_bitmap
      | Some load_bitmap => foldl set result_bitmap (gather load_bitmap (get_indices (snd ap)))
      end)
    (bitmap (Z.of_nat (length (rq_keys r)))) (rq_load_plan r).

Definition _finish_request (rid : Z) : ctl unit :=
  r ← get_request rid;
  let num_keys := Z.of_nat (length (rq_keys r)) in
  let result_bitmap := loaded_bitmap r in
  let loaded_keys := gather result_bitmap (rq_keys r) in
  let failed_keys := filter (.∉ loaded_keys) (rq_write_reserved_keys r) in
  _ ← _release_l2_locks rid [];
  _ ← when (nonempty loaded_keys)
        (match rq_mode r with
         | WARM => finish_write_ rid loaded_keys
         | LOOKUP => finish_write_and_reserve_read_ rid loaded_keys (rq_num_kv_readers r)
         end);
  _ ← when (nonempty failed_keys)
        (_ ← finish_write_ rid failed_keys; delete_ rid failed_keys);
  _ ← publish rid (L2_PREFETCH_LOAD_COMPLETED loaded_keys (length failed_keys));
  _ ← when (nonempty failed_keys) (publish rid (L2_PREFETCH_FAILED not_found failed_keys));
  let result_bitmap := bor result_bitmap (rq_l1_readlocks r) in
  '(hit_length, retained) ←
    lift (build_trim_mask kernels result_bitmap num_keys (rq_policy r) (rq_attn_desc r));
  _ ← match rq_mode r with
      | WARM =>
          when (0 <? popcount (rq_l1_readlocks r))
            (_ ← finish_read_ rid (gather (rq_l1_readlocks r) (rq_keys r)) (rq_num_kv_readers r);
             upd_request rid (rq_set_l1_readlocks (bitmap num_keys)))
      | LOOKUP =>
          let released := gather (band result_bitmap (bnot retained)) (rq_keys r) in
          when (nonempty released) (finish_read_ rid released (rq_num_kv_readers r))
      end;
  let retained_keys := gather retained (rq_keys r) in
  _ ← when (nonempty retained_keys) (touch_keys_ rid retained_keys);
  _ ← when (negb (rq_hit_reported r)) (_report_lookup_hit rid hit_length);
  _complete_request rid retained.

(** ** Lookup phase *)

Definition stride_of (attn_desc : AttnWindowDesc) : Z :=
  num_object_groups attn_desc * world_size attn_desc.

(** [for i, key in enumerate(keys): if lock_results[key][0] == SUCCESS: set(i)] *)
Fixpoint locked_bitmap (lock_results : list (K * (L1Error * option Obj))) (i : Z) (keys : list K)
    (b : Bitmap) : result Bitmap :=
  match keys with
  | [] => Ok b
  | key :: keys =>
      match dget lock_results key with
      | None => Raise KeyError
      | Some (err, _) =>
          locked_bitmap lock_results (i + 1) keys (if decide (err = SUCCESS) then set b i else b)
      end
  end.

Definition _lock_l1_keys (rid : Z) (keys : list K) (num_kv_readers : Z) (policy : TrimPolicy)
    (attn_desc : AttnWindowDesc) : ctl Bitmap :=
  let num_keys := Z.of_nat (length keys) in
  lock_results ← reserve_read_ rid keys num_kv_readers;
  l1_readlocks ← lift (locked_bitmap lock_results 0 keys (bitmap num_keys));
  match policy with
  | PREFIX =>
      '(hit_length, l1_window) ← lift (build_trim_mask kernels l1_readlocks num_keys policy attn_desc);
      let within_l1_hit := bitmap_prefix num_keys (hit_length * stride_of attn_desc) in
      let evictable := band (band l1_readlocks (bnot l1_window)) within_l1_hit in
      if 0 <? popcount evictable then
        _ ← finish_read_ rid (gather evictable keys) num_kv_readers;
        mret (band l1_readlocks (bnot evictable))
      else mret l1_readlocks
  | _ => mret l1_readlocks
  end.

Definition _start_lookup_phase (rid : Z) (sp : PrefetchRequestSpec) : ctl unit :=
  l1_readlocks ← _lock_l1_keys rid (sp_keys sp) (sp_num_kv_readers sp) (sp_policy sp)
                   (sp_attn_desc sp);
  let request := mkRequest rid (sp_keys sp) PhaseLookup (sp_num_kv_readers sp) (sp_policy sp)
    (sp_attn_desc sp) (sp_mode sp) [] [] [] false [] [] [] [] [] [] l1_readlocks
    (sp_group_layout_descs sp) in
  _ ← modify (λ s, with_requests (dset (pc_requests s) rid request) s);
  t ← gets pc_tables;
  let routing_adapters := List.filter (λ ia, negb (dmem (at_draining t) (fst ia)))
                            (at_l2_adapters t) in
  match routing_adapters with
  | [] => _finish_request rid
  | _ =>
      _ ← for_each (λ ia : Z * Ad,
            let '(adapter_id, adapter) := ia in
            w ← gets pc_world;
            let '(task_id, w) :=
              submit_lookup_and_lock_task w adapter (sp_keys sp) (sp_group_layout_descs sp) in
            _ ← record rid (CSubmitLookup adapter_id (sp_keys sp) task_id) w;
            upd_request rid (λ r,
              rq_set_lookups (dset (rq_pending_lookup_tasks r) adapter_id task_id)
                (rq_lookup_results r) r))
            routing_adapters;
      _ ← modify (λ s,
            let c := pc_counts s in
            with_in_flight (pc_in_flight s ++ [rid])
              (mkCounts (ct_in_flight c + 1) (ct_pending c) (ct_lookup_phase c + 1)
                 (ct_load_phase c)) s);
      r ← get_request rid;
      publish rid (L2_PREFETCH_LOOKUP_SUBMITTED (sp_keys sp) (length (rq_pending_lookup_tasks r)))
  end.

(** ** Load phase *)

(** [itertools.groupby]: runs of equal [object_group_id] *)
Fixpoint groupby (keys : list K) : list (Z * list K) :=
  match keys with
  | [] => []
  | k :: keys =>
      match groupby keys with
      | (g, ks) :: rest =>
          if object_group_id k =? g then (g, k :: ks) :: rest
          else (object_group_id k, [k]) :: (g, ks) :: rest
      | [] => [(object_group_id k, [k])]
      end
  end.

(** one [reserve_write] per object group, the answers collected *)
Fixpoint reserve_groups (rid : Z) (layouts : list (Z * Layout)) (retention_map : list (K * bool))
    (groups : list (Z * list K)) (write_results : list (K * (L1Error * option Obj)))
  : ctl (list (K * (L1Error * option Obj))) :=
  match groups with
  | [] => mret write_results
  | (gid, group_keys) :: groups =>
      gld ← getitem layouts gid;
      gr ← reserve_write_ rid group_keys
             ((λ k, negb (default false (dget retention_map k))) <$> group_keys) gld;
      reserve_groups rid layouts retention_map groups (dupdate write_results gr)
  end.

Definition reserve_ok (x : K * (L1Error * option Obj)) : bool :=
  match x with (_, (SUCCESS, Some _)) => true | _ => false end.
Definition failed_with (e : L1Error) (x : K * (L1Error * option Obj)) : bool :=
  negb (reserve_ok x) && bool_decide (fst (snd x) = e).

Definition _reserve_load_buffers (rid : Z) (keys_to_reserve : list K) : ctl (list K) :=
  r ← get_request rid;
  let retentions := match rq_mode r with
                    | WARM => replicate (length keys_to_reserve) true
                    | LOOKUP => select_l1_retentions policy_ keys_to_reserve
                    end in
  let retention_map := dupdate [] (zip keys_to_reserve retentions) in
  write_results ← reserve_groups rid (rq_group_layout_descs r) retention_map
                    (groupby (sort_by object_group_id keys_to_reserve)) [];
  _ ← for_each (λ x : K * (L1Error * option Obj),
        match x with
        | (key, (SUCCESS, Some mem_obj)) => upd_request rid (rq_add_reserved key mem_obj)
        | _ => mret tt
        end) write_results;
  let reserved := fst <$> List.filter reserve_ok write_results in
  let oom_keys := fst <$> List.filter (failed_with OUT_OF_MEMORY) write_results in
  let contended_keys := fst <$> List.filter (failed_with KEY_NOT_WRITABLE) write_results in
  _ ← when (nonempty oom_keys)
        (_ ← publish rid (L1_ALLOCATION_FAILED oom_keys);
         publish rid (L2_PREFETCH_FAILED l1_oom oom_keys));
  _ ← when (nonempty contended_keys) (publish rid (L2_PREFETCH_FAILED l1_contended contended_keys));
  mret reserved.

(** [[d[k] for k in keys]] *)
Fixpoint getitems (d : list (K * Obj)) (keys : list K) : ctl (list Obj) :=
  match keys with
  | [] => mret []
  | k :: keys => o ← getitem d k; os ← getitems d keys; mret (o :: os)
  end.

Fixpoint sum_obj_sizes (w : W) (objs : list Obj) : Z :=
  match objs with
  | [] => 0
  | o :: objs => l1_get_size w o + sum_obj_sizes w objs
  end.

Definition _submit_load_tasks (rid : Z) (trimmed_plan : plan) : ctl unit :=
  r ← get_request rid;
  _ ← for_each (λ ab : Z * Bitmap,
        let '(adapter_idx, b) := ab in
        let per_adapter_keys := gather b (rq_keys r) in
        per_adapter_objs ← getitems (rq_write_reserved_objs r) per_adapter_keys;
        adapter ← get_adapter adapter_idx;
        w ← gets pc_world;
        let '(task_id, w) := submit_load_task w adapter per_adapter_keys per_adapter_objs in
        _ ← record rid (CSubmitLoad adapter_idx per_adapter_keys per_adapter_objs task_id) w;
        let total_bytes := sum_obj_sizes w per_adapter_objs in
        _ ← upd_request rid (λ r,
              rq_set_loads (dset (rq_pending_load_tasks r) adapter_idx task_id)
                (dset (rq_load_bytes_by_adapter r) adapter_idx total_bytes) (rq_load_results r) r);
        t ← gets pc_tables;
        desc ← getitem (at_descriptors t) adapter_idx;
        publish rid (L2_LOAD_TASK_SUBMITTED adapter_idx task_id desc (length per_adapter_keys)
                       total_bytes)) trimmed_plan;
  publish rid (L2_PREFETCH_LOAD_SUBMITTED
                 (concat ((λ ab, gather (snd ab) (rq_keys r)) <$> trimmed_plan))
                 (length trimmed_plan)).

Definition _transition_to_load_phase (rid : Z) : ctl unit :=
  _ ← upd_request rid rq_start_load;
  _ ← modify (λ s,
        let c := pc_counts s in
        with_in_flight (pc_in_flight s)
          (mkCounts (ct_in_flight c) (ct_pending c) (ct_lookup_phase c - 1) (ct_load_phase c + 1)) s);
  request ← get_request rid;
  let num_keys := Z.of_nat (length (rq_keys request)) in
  t ← gets pc_tables;
  let routing_descriptors :=
    snd <$> List.filter (λ id_, negb (dmem (at_draining t) (fst id_))) (at_descriptors t) in
  '(hit_length, retained, trimmed_plan) ←
    lift (plan_load kernels num_keys (rq_lookup_results request) routing_descriptors
            (rq_l1_readlocks request) (rq_policy request) (rq_attn_desc request));
  match trimmed_plan with
  | [] => _finish_request rid
  | _ =>
      '(_, l1_fallback_retain) ←
        lift (build_trim_mask kernels (rq_l1_readlocks request) num_keys (rq_policy request)
                (rq_attn_desc request));
      let stale := band (band (rq_l1_readlocks request) (bnot retained)) (bnot l1_fallback_retain) in
      _ ← when (0 <? popcount stale)
            (_ ← upd_request rid (λ r,
                   rq_set_l1_readlocks
                     (band (rq_l1_readlocks request) (bor retained l1_fallback_retain)) r);
             finish_read_ rid (gather stale (rq_keys request)) (rq_num_kv_readers request));
      let keys_to_reserve := gather (merge_bitmaps (dvals trimmed_plan) num_keys) (rq_keys request) in
      reserved ← _reserve_load_buffers rid keys_to_reserve;
      if bool_decide (length reserved < length keys_to_reserve)%nat then _finish_request rid
      else
        _ ← upd_request rid (rq_set_load_plan trimmed_plan);
        _ ← _release_l2_locks rid trimmed_plan;
        _ ← _submit_load_tasks rid trimmed_plan;
        _report_lookup_hit rid hit_length
  end.

(** ** Polling *)

Definition _poll_lookup_results (rid : Z) (signaled : list Z) : ctl unit :=
  request ← get_request rid;
  for_each (λ at_ : Z * TaskId,
    let '(adapter_idx, task_id) := at_ in
    if bool_decide (adapter_idx ∉ signaled) then mret tt
    else
      adapter ← get_adapter adapter_idx;
      w ← gets pc_world;
      match query_lookup_and_lock_result w adapter task_id with
      | (None, w) => record rid (CNoAnswer adapter_idx task_id) w
      | (Some result, w) =>
          _ ← record rid (CLookupResult adapter_idx task_id result) w;
          upd_request rid (λ r,
            rq_set_l2_locks (dset (rq_l2_adapter2readlocks r) adapter_idx result)
              (rq_set_lookups (ddel (rq_pending_lookup_tasks r) adapter_idx)
                 (dset (rq_lookup_results r) adapter_idx result) r))
      end) (rq_pending_lookup_tasks request).

Definition _poll_load_results (rid : Z) (signaled : list Z) : ctl unit :=
  request ← get_request rid;
  for_each (λ at_ : Z * TaskId,
    let '(adapter_idx, task_id) := at_ in
    if bool_decide (adapter_idx ∉ signaled) then mret tt
    else
      adapter ← get_adapter adapter_idx;
      w ← gets pc_world;
      match query_load_result w adapter task_id with
      | (None, w) => record rid (CNoAnswer adapter_idx task_id) w
      | (Some result, w) =>
          _ ← record rid (CLoadResult adapter_idx task_id result) w;
          _ ← upd_request rid (λ r,
                rq_set_loads (ddel (rq_pending_load_tasks r) adapter_idx)
                  (ddel (rq_load_bytes_by_adapter r) adapter_idx)
                  (dset (rq_load_results r) adapter_idx result) r);
          t ← gets pc_tables;
          desc ← getitem (at_descriptors t) adapter_idx;
          publish rid (L2_LOAD_TASK_COMPLETED adapter_idx task_id desc)
      end) (rq_pending_load_tasks request).

(** [signaled_adapters]: the adapters with a completed lookup, and with a
    completed load *)
Definition _advance_request (rid : Z) (signaled_lookup signaled_load : list Z) : ctl unit :=
  request ← get_request rid;
  match rq_phase request with
  | PhaseLookup =>
      when (nonempty signaled_lookup)
        (_ ← _poll_lookup_results rid signaled_lookup;
         request ← get_request rid;
         when (all_lookups_done request) (_transition_to_load_phase rid))
  | PhasePlanAndLoad =>
      when (nonempty signaled_load)
        (_ ← _poll_load_results rid signaled_load;
         request ← get_request rid;
         when (all_loads_done request) (_finish_request rid))
  end.

(** ** The background loop *)

Definition _drain_submission_queue : ctl unit :=
  modify (λ s,
    let c := pc_counts s in
    with_queues (pc_pending_queue s ++ pc_submission_queue s) [] (pc_next_request_id s)
      (mkCounts (ct_in_flight c) (ct_pending c + Z.of_nat (length (pc_submission_queue s)))
         (ct_lookup_phase c) (ct_load_phase c)) s).

(** the [while] loop; every round takes one request off the queue *)
Fixpoint start_pending_loop (fuel : nat) : ctl unit :=
  match fuel with
  | O => mret tt
  | S fuel =>
      queue ← gets pc_pending_queue;
      in_flight ← gets pc_in_flight;
      match queue with
      | (rid, sp) :: queue =>
          if Z.of_nat (length in_flight) <? max_in_flight then
            _ ← modify (λ s,
                  let c := pc_counts s in
                  with_queues queue (pc_submission_queue s) (pc_next_request_id s)
                    (mkCounts (ct_in_flight c) (ct_pending c - 1) (ct_lookup_phase c)
                       (ct_load_phase c)) s);
            _ ← _start_lookup_phase rid sp;
            start_pending_loop fuel
          else mret tt
      | [] => mret tt
      end
  end.
Definition _start_pending_requests : ctl unit :=
  queue ← gets pc_pending_queue; start_pending_loop (length queue).

Definition apply_adapter_op (t : AdapterTables) (op : adapter_op) : AdapterTables :=
  match op with
  | AddAdapterOp adapter_id adapter descriptor done_ =>
      mkTables (dset (at_l2_adapters t) adapter_id adapter)
        (dset (at_descriptors t) adapter_id descriptor) (at_draining t)
        (dset (at_lookup_efd t) (get_lookup_and_lock_event_fd adapter) adapter_id)
        (dset (at_load_efd t) (get_load_event_fd adapter) adapter_id)
        (at_done t ++ [done_])
  | RemoveAdapterOp adapter_id done_ =>
      if dmem (at_l2_adapters t) adapter_id then
        mkTables (at_l2_adapters t) (at_descriptors t) (dset (at_draining t) adapter_id done_)
          (at_lookup_efd t) (at_load_efd t) (at_done t)
      else
        mkTables (at_l2_adapters t) (at_descriptors t) (at_draining t)
          (at_lookup_efd t) (at_load_efd t) (at_done t ++ [done_])
  end.
Definition _apply_pending_adapter_ops : ctl unit :=
  modify (λ s, with_tables (foldl apply_adapter_op (pc_tables s) (pc_pending_adapter_ops s))
                 (with_adapter_ops [] s)).

Definition request_uses (adapter_id : Z) (r : InFlightPrefetchRequest) : bool :=
  dmem (rq_pending_lookup_tasks r) adapter_id || dmem (rq_pending_load_tasks r) adapter_id
  || dmem (rq_load_plan r) adapter_id || dmem (rq_lookup_results r) adapter_id.
Definition _adapter_in_use (s : PrefetchController) (adapter_id : Z) : bool :=
  existsb (λ rid, match dget (pc_requests s) rid with
                  | Some r => request_uses adapter_id r
                  | None => false end) (pc_in_flight s).

Definition finalize_adapter (adapter_id : Z) : ctl unit :=
  in_use ← gets (λ s, _adapter_in_use s adapter_id);
  if (in_use : bool) then mret tt
  else
    t ← gets pc_tables;
    adapter ← getitem (at_l2_adapters t) adapter_id;
    done_ ← getitem (at_draining t) adapter_id;
    modify (with_tables
      (mkTables (ddel (at_l2_adapters t) adapter_id) (ddel (at_descriptors t) adapter_id)
         (ddel (at_draining t) adapter_id)
         (ddel (at_lookup_efd t) (get_lookup_and_lock_event_fd adapter))
         (ddel (at_load_efd t) (get_load_event_fd adapter))
         (at_done t ++ [done_]))).
Definition _finalize_drained_adapters : ctl unit :=
  t ← gets pc_tables; for_each finalize_adapter (dkeys (at_draining t)).

(** the loop over the ready descriptors: submissions are drained at once, the
    adapters with news are collected *)
Fixpoint collect_ready (ready : list Z) (signaled_lookup signaled_load : list Z)
  : ctl (list Z * list Z) :=
  match ready with
  | [] => mret (signaled_lookup, signaled_load)
  | fd :: ready =>
      if fd =? submission_fd then
        _ ← _drain_submission_queue; collect_ready ready signaled_lookup signaled_load
      else
        t ← gets pc_tables;
        match dget (at_lookup_efd t) fd, dget (at_load_efd t) fd with
        | Some a, _ => collect_ready ready (signaled_lookup ++ [a]) signaled_load
        | None, Some a => collect_ready ready signaled_lookup (signaled_load ++ [a])
        | None, None => collect_ready ready signaled_lookup signaled_load
        end
  end.

(** one round of [_prefetch_loop]; [ready] are the readable descriptors *)
Definition prefetch_iteration (ready : list Z) : ctl unit :=
  _ ← _apply_pending_adapter_ops;
  '(signaled_lookup, signaled_load) ← collect_ready ready [] [];
  in_flight ← gets pc_in_flight;
  _ ← when (nonempty signaled_lookup || nonempty signaled_load)
        (for_each (λ rid, try_ (_advance_request rid signaled_lookup signaled_load)) in_flight);
  _ ← try_ _start_pending_requests;
  _finalize_drained_adapters.

(** ** Operations of other threads *)

Definition submit_prefetch_request (s : PrefetchController) (sp : PrefetchRequestSpec)
  : Z * PrefetchController :=
  let rid := pc_next_request_id s in
  (rid, with_queues (pc_pending_queue s) (pc_submission_queue s ++ [(rid, sp)]) (rid + 1)
          (pc_counts s) s).

Definition query_lookup_result (s : PrefetchController) (rid : Z) : option Z :=
  dget (pc_completed_lookups s) rid.

Definition query_prefetch_result (s : PrefetchController) (rid : Z)
  : option Bitmap * PrefetchController :=
  match dget (pc_completed_results s) rid with
  | Some result =>
      (Some result, with_completed (ddel (pc_completed_lookups s) rid)
                      (ddel (pc_completed_results s) rid) s)
  | None => (None, s)
  end.

(** [add_adapter] and [request_remove_adapter] queue an operation for the loop *)
Definition queue_adapter_op (s : PrefetchController) (op : adapter_op) : PrefetchController :=
  with_adapter_ops (pc_pending_adapter_ops s ++ [op]) s.

(** [PrefetchController.__init__] *)
Definition init_tables (l2_adapters : list Ad) (adapter_descriptors : list (AdapterDescriptor config))
  : AdapterTables :=
  let adapters := dupdate [] (zip (ad_index <$> adapter_descriptors) l2_adapters) in
  mkTables adapters
    (dupdate [] ((λ desc, (ad_index desc, desc)) <$> adapter_descriptors))
    []
    (dupdate [] ((λ ia, (get_lookup_and_lock_event_fd (snd ia), fst ia)) <$> adapters))
    (dupdate [] ((λ ia, (get_load_event_fd (snd ia), fst ia)) <$> adapters))
    [].
Definition init_controller (w : W) (l2_adapters : list Ad)
    (adapter_descriptors : list (AdapterDescriptor config)) : result PrefetchController :=
  (guard bool_decide (length adapter_descriptors = length l2_adapters) else ValueError;
   Ok (mkController w [] [] (init_tables l2_adapters adapter_descriptors) [] [] [] [] 0 [] []
         (mkCounts 0 0 0 0)))%py.

(** [stop] after the loop has ended *)
Definition cleanup_request (rid : Z) : ctl unit :=
  request ← get_request rid;
  _ ← match rq_phase request with
      | PhasePlanAndLoad =>
          when (nonempty (rq_write_reserved_keys request))
            (_ ← finish_write_ rid (rq_write_reserved_keys request);
             delete_ rid (rq_write_reserved_keys request))
      | PhaseLookup => mret tt
      end;
  _ ← _release_l2_locks rid [];
  when (0 <? popcount (rq_l1_readlocks request))
    (finish_read_ rid (gather (rq_l1_readlocks request) (rq_keys request))
       (rq_num_kv_readers request)).
Definition _cleanup_in_flight_requests : ctl unit :=
  in_flight ← gets pc_in_flight;
  _ ← for_each cleanup_request in_flight;
  modify (λ s, with_in_flight [] (pc_counts s) s).

End controller.

Arguments PrefetchRequestSpec K Layout : clear implicits.
Arguments InFlightPrefetchRequest K Obj Layout TaskId : clear implicits.
Arguments event K TaskId config : clear implicits.
Arguments call K Obj Layout TaskId config : clear implicits.
Arguments adapter_op Ad config : clear implicits.
Arguments AdapterTables Ad config : clear implicits.
Arguments PrefetchController W Ad K Obj Layout TaskId config : clear implicits.
