(* ===== verification/AdapterRoster.v ===== *)
(** * Adapters that come and go

    Both controllers let other threads attach and remove adapters in the same
    way: an operation with an event is queued; the loop applies it at the start of
    a round, attaching the adapter or marking it as draining; and an adapter that
    is draining and no longer used is detached, which sets its event. Here this
    protocol is a small machine of its own, the roster. A controller's round is a
    sequence of turns of its roster, so what is proved here of the events holds
    for both controllers. *)

From S2P Require Import Prelude PyDict PyState PrefetchPlan PrefetchController.
Local Open Scope Z_scope.

Section roster.
Context {Ad config : Type}.
Abbreviation Op := (adapter_op Ad config).

Record roster := mkRoster {
  ro_adapters : list (Z * Ad);
  ro_draining : list (Z * Z);
  ro_done : list Z;
  ro_ops : list Op }.
Implicit Types (r : roster) (A : list (Z * Ad)) (ops : list Op).

Definition op_id (op : Op) : Z := match op with AddAdapterOp a _ _ _ | RemoveAdapterOp a _ => a end.
Definition op_event (op : Op) : Z := match op with AddAdapterOp _ _ _ e | RemoveAdapterOp _ e => e end.

(** applying one operation, with [ops] left in the queue *)
Definition obey (op : Op) ops r : roster :=
  match op with
  | AddAdapterOp a ad _ e => mkRoster (dset (ro_adapters r) a ad) (ro_draining r) (ro_done r ++ [e]) ops
  | RemoveAdapterOp a e =>
      if dmem (ro_adapters r) a then mkRoster (ro_adapters r) (dset (ro_draining r) a e) (ro_done r) ops
      else mkRoster (ro_adapters r) (ro_draining r) (ro_done r ++ [e]) ops
  end.
Definition expel (a e : Z) r : roster :=
  mkRoster (ddel (ro_adapters r) a) (ddel (ro_draining r) a) (ro_done r ++ [e]) (ro_ops r).
Definition enlist (op : Op) r : roster :=
  mkRoster (ro_adapters r) (ro_draining r) (ro_done r) (ro_ops r ++ [op]).

Inductive roster_turn : roster → roster → Prop :=
| turn_obey op ops r : ro_ops r = op :: ops → roster_turn r (obey op ops r)
| turn_expel a e r : dget (ro_draining r) a = Some e → roster_turn r (expel a e r).

(** the adapters once the queue has been applied *)
Fixpoint future A ops : list (Z * Ad) :=
  match ops with
  | [] => A
  | AddAdapterOp a ad _ _ :: ops => future (dset A a ad) ops
  | RemoveAdapterOp _ _ :: ops => future A ops
  end.
Definition ro_future r : list (Z * Ad) := future (ro_adapters r) (ro_ops r).

Definition sub_map A A' : Prop := ∀ a ad, dget A a = Some ad → dget A' a = Some ad.

#[export] Instance sub_map_pre : PreOrder sub_map.
Proof. split; [by intros A a ad|]. intros A B C H1 H2 a ad Ha. auto. Qed.

Lemma sub_map_dset A A' a ad : sub_map A A' → sub_map (dset A a ad) (dset A' a ad).
Proof. intros Hs a' ad'. rewrite !dget_dset. case_decide; [done|apply Hs]. Qed.

Lemma sub_map_ddel A a : sub_map (ddel A a) A.
Proof. intros a' ad'. rewrite dget_ddel. by case_decide. Qed.

Lemma sub_map_new A A' a ad : sub_map A A' → dget A' a = None → sub_map A (dset A' a ad).
Proof. intros Hs Hn a' ad' Ha. apply Hs in Ha. rewrite dget_dset_ne; [done|congruence]. Qed.

Lemma future_mono ops : ∀ A A', sub_map A A' → sub_map (future A ops) (future A' ops).
Proof. induction ops as [|[] ops IH]; intros A A' Hs; cbn; [done|apply IH; by apply sub_map_dset|by apply IH]. Qed.

Lemma future_app ops ops' : ∀ A, future A (ops ++ ops') = future (future A ops) ops'.
Proof. induction ops as [|[] ops IH]; intros A; cbn; auto. Qed.

Lemma future_kept a ops : ∀ A, is_Some (dget A a) → is_Some (dget (future A ops) a).
Proof.
  induction ops as [|[b adb desc e|b e] ops IH]; intros A HA; cbn; [done|apply IH|by apply IH].
  rewrite dget_dset. case_decide; [by eexists|done].
Qed.

(** nothing joins that had not been announced *)
Lemma future_turn r r' : roster_turn r r' → sub_map (ro_future r') (ro_future r).
Proof.
  intros [op ops r0 E|a e r0 E]; unfold ro_future.
  - rewrite E. destruct op as [a ad desc e|a e]; cbn [obey future]; [done|]. by destruct (dmem _ a).
  - apply future_mono, sub_map_ddel.
Qed.

Lemma done_turn e r r' : roster_turn r r' → e ∈ ro_done r → e ∈ ro_done r'.
Proof.
  intros [op ops r0 E|a e' r0 E] He; [destruct op as [a ad desc e1|a e1]; cbn; [|destruct (dmem _ a)]|]; cbn; set_solver.
Qed.

(** ** Identifiers and events in use *)

Record below (n m : Z) r : Prop := {
  bl_adapters : ∀ a, is_Some (dget (ro_adapters r) a) → a < n;
  bl_draining : ∀ a e, dget (ro_draining r) a = Some e → a < n ∧ e < m;
  bl_done : ∀ e, e ∈ ro_done r → e < m;
  bl_ops : ∀ op, op ∈ ro_ops r → op_id op < n ∧ op_event op < m }.

Lemma below_weaken n m n' m' r : n <= n' → m <= m' → below n m r → below n' m' r.
Proof.
  intros Hn Hm []. constructor.
  - intros a Ha. specialize (bl_adapters0 a Ha). lia.
  - intros a e Ha. specialize (bl_draining0 a e Ha). lia.
  - intros e He. specialize (bl_done0 e He). lia.
  - intros op Hop. specialize (bl_ops0 op Hop). lia.
Qed.

Lemma below_enlist n m op r : below n m r → op_id op < n → op_event op < m → below n m (enlist op r).
Proof.
  intros [] Hi He. constructor; cbn; try done. intros op' [?| ->%list_elem_of_singleton]%elem_of_app; auto.
Qed.

Lemma below_turn n m r r' : roster_turn r r' → below n m r → below n m r'.
Proof.
  intros [op ops r0 E|a e r0 E] [HA HR HD HO].
  - rewrite E in HO. destruct (HO op) as [Hi He]; [left|]. assert (∀ op', op' ∈ ops → op_id op' < n ∧ op_event op' < m) as HO'.
    { intros op' Hin. apply HO. by right. }
    destruct op as [a ad desc e|a e]; cbn in Hi, He |- *; [|destruct (dmem _ a)]; constructor; cbn; try done.
    + intros a'. rewrite dget_dset. case_decide; [by subst|apply HA].
    + intros e' [?| ->%list_elem_of_singleton]%elem_of_app; auto.
    + intros a' e'. rewrite dget_dset. case_decide; [intros [= <-]; by subst|apply HR].
    + intros e' [?| ->%list_elem_of_singleton]%elem_of_app; auto.
  - destruct (HR a e E). constructor; cbn; try done.
    + intros a'. rewrite dget_ddel. case_decide; [by intros [? ?]|apply HA].
    + intros a' e'. rewrite dget_ddel. case_decide; [done|apply HR].
    + intros e' [?| ->%list_elem_of_singleton]%elem_of_app; auto.
Qed.

Lemma below_future n m r a : below n m r → is_Some (dget (ro_future r) a) → a < n.
Proof.
  intros [HA _ _ HO]. unfold ro_future. generalize dependent (ro_adapters r). induction (ro_ops r) as [|op ops IH]; intros A HA; [apply HA|].
  pose proof (HO op (list_elem_of_here _ _)) as [Hi _]. assert (∀ op', op' ∈ ops → op_id op' < n ∧ op_event op' < m) as HO'.
  { intros op' Hin. apply HO. by right. }
  destruct op as [a' ad desc e|a' e]; cbn; apply IH; try done. cbn in Hi.
  intros b. rewrite dget_dset. case_decide; [by subst|apply HA].
Qed.

(** ** Leaving *)

Definition adds (a : Z) (op : Op) : bool := match op with AddAdapterOp a' _ _ _ => a' =? a | _ => false end.
Definition no_adds (a : Z) ops : Prop := Forall (λ op, adds a op = false) ops.

Lemma future_no_adds a ops : no_adds a ops → ∀ A, dget (future A ops) a = dget A a.
Proof.
  induction 1 as [|[a' ad' desc e|a' e] ops Hop _ IH]; intros A; cbn; [done| |apply IH].
  rewrite IH. apply dget_dset_ne. cbn in Hop. lia.
Qed.

Fixpoint leave_queue (a e : Z) ops : Prop :=
  match ops with
  | [] => True
  | op :: ops => (op_event op = e → op = RemoveAdapterOp a e ∧ no_adds a ops) ∧ leave_queue a e ops
  end.

(** [e] is the event of a request to remove [a]: it is set only when [a] is gone
    for good *)
Record leaving (a e : Z) r : Prop := {
  lv_queue : leave_queue a e (ro_ops r);
  lv_draining : ∀ a', dget (ro_draining r) a' = Some e → a' = a ∧ no_adds a (ro_ops r);
  lv_done : e ∈ ro_done r → dget (ro_adapters r) a = None ∧ no_adds a (ro_ops r) }.

Lemma leaving_gone a e r : leaving a e r → e ∈ ro_done r → dget (ro_future r) a = None.
Proof. intros [_ _ H] He. destruct (H He) as [Hn Ha]. unfold ro_future. by rewrite future_no_adds. Qed.

Lemma leave_queue_fresh a e ops : (∀ op, op ∈ ops → op_event op < e) → leave_queue a e (ops ++ [RemoveAdapterOp a e]).
Proof.
  intros Hlt. induction ops as [|op ops IH]; cbn; [split; [by intros _; split; [|constructor]|done]|]. split.
  - intros Ho. specialize (Hlt op (list_elem_of_here _ _)). lia.
  - apply IH. intros op' Hin. apply Hlt. by right.
Qed.

(** the request itself *)
Lemma leaving_request a n e r : below n e r → leaving a e (enlist (RemoveAdapterOp a e) r).
Proof.
  intros []. constructor; cbn.
  - apply leave_queue_fresh. intros op Hop. by apply bl_ops0.
  - intros a' Ha'. destruct (bl_draining0 a' e Ha'). lia.
  - intros He. specialize (bl_done0 e He). lia.
Qed.

Lemma leave_queue_snoc a e ops op : leave_queue a e ops → op_event op ≠ e → adds a op = false → leave_queue a e (ops ++ [op]).
Proof.
  intros Hq Hne Ha. induction ops as [|op' ops IH]; cbn; [done|]. destruct Hq as [Hop Hq]. split; [|by apply IH].
  intros He. destruct (Hop He) as [-> Hno]. split; [done|]. apply Forall_app. by split; [|constructor].
Qed.

Lemma leaving_enlist a e op r : leaving a e r → op_event op ≠ e → adds a op = false → leaving a e (enlist op r).
Proof.
  intros [Hq Hd Hn] Hne Ha. assert (∀ ops, no_adds a ops → no_adds a (ops ++ [op])) as Hs
    by (intros ops Ho; apply Forall_app; by split; [|constructor]).
  constructor; cbn.
  - by apply leave_queue_snoc.
  - intros a' Ha'. destruct (Hd a' Ha'). auto.
  - intros He. destruct (Hn He). auto.
Qed.

Lemma leaving_turn a e r r' : roster_turn r r' → leaving a e r → leaving a e r'.
Proof.
  intros [op ops r0 E|a1 e1 r0 E] [Hq Hd Hn].
  - rewrite E in Hq, Hd, Hn. destruct Hq as [Hop Hq]. assert (no_adds a (op :: ops) → no_adds a ops) as Htl by (by inversion 1).
    assert (∀ a', dget (ro_draining r0) a' = Some e → a' = a ∧ no_adds a ops) as Hd'
      by (intros a' Ha'; destruct (Hd a' Ha'); auto).
    destruct op as [a1 ad desc e1|a1 e1]; cbn in Hop |- *.
    + constructor; cbn; [done|done|]. intros [He|He%list_elem_of_singleton]%elem_of_app.
      * destruct (Hn He) as [Ha Hno]. inversion Hno as [|? ? Hx Hno']; subst. cbn in Hx.
        split; [rewrite dget_dset_ne; [done|lia]|done].
      * symmetry in He. by destruct (Hop He).
    + destruct (dmem (ro_adapters r0) a1) eqn:Em; constructor; cbn; try done.
      * intros a'. rewrite dget_dset. case_decide; [|by auto]. intros [= ->]. destruct (Hop eq_refl) as [[= ->] Hno]. by subst.
      * intros He. destruct (Hn He). auto.
      * intros [He|He%list_elem_of_singleton]%elem_of_app; [destruct (Hn He); auto|]. subst e1. destruct (Hop eq_refl) as [[= ->] Hno].
        split; [|done]. unfold dmem in Em. by destruct (dget _ a).
  - constructor; cbn; [done| |].
    + intros a'. rewrite dget_ddel. case_decide; [done|by auto].
    + intros [He|He%list_elem_of_singleton]%elem_of_app; [destruct (Hn He) as [Ha Hno]|subst e1; destruct (Hd a1 E) as [-> Hno]];
        (split; [|done]); rewrite dget_ddel; by case_decide.
Qed.

(** ** Joining *)

(** [e] is the event of the only request to attach [a]: it is set only when [a]
    is there to stay *)
Record joining (a : Z) (ad : Ad) (e : Z) r : Prop := {
  jn_event : ∀ op, op ∈ ro_ops r → op_event op = e → adds a op = true;
  jn_ops : ∀ op, op ∈ ro_ops r → op_id op = a → ∃ desc, op = AddAdapterOp a ad desc e;
  jn_draining : dget (ro_draining r) a = None ∧ ∀ a', dget (ro_draining r) a' ≠ Some e;
  jn_done : e ∈ ro_done r → dget (ro_adapters r) a = Some ad }.

Lemma joining_request a ad desc e r : below a e r → joining a ad e (enlist (AddAdapterOp a ad desc e) r).
Proof.
  intros []. constructor; cbn.
  - intros op [Hin| ->%list_elem_of_singleton]%elem_of_app; [|intros _; apply Z.eqb_refl]. destruct (bl_ops0 op Hin). lia.
  - intros op [Hin| ->%list_elem_of_singleton]%elem_of_app; [|by exists desc]. destruct (bl_ops0 op Hin). lia.
  - split; [destruct (dget _ a) as [e'|] eqn:Ed; [|done]|intros a' Ed]; destruct (bl_draining0 _ _ Ed); lia.
  - intros He. specialize (bl_done0 e He). lia.
Qed.

Lemma joining_enlist a ad e op r : joining a ad e r → op_event op ≠ e → op_id op ≠ a → joining a ad e (enlist op r).
Proof.
  intros [He Ho Hd Hn] Hne Ha. constructor; cbn; [| |done..].
  - intros op' [?| ->%list_elem_of_singleton]%elem_of_app ?; [auto|done].
  - intros op' [?| ->%list_elem_of_singleton]%elem_of_app ?; [auto|done].
Qed.

Lemma joining_turn a ad e r r' : roster_turn r r' → joining a ad e r → joining a ad e r'.
Proof.
  intros [op ops r0 E|a1 e1 r0 E] [He Ho [Hd1 Hd2] Hn].
  - rewrite E in He, Ho. assert (∀ op', op' ∈ ops → op_event op' = e → adds a op' = true) as He' by (intros; apply He; [by right|done]).
    assert (∀ op', op' ∈ ops → op_id op' = a → ∃ desc, op' = AddAdapterOp a ad desc e) as Ho' by (intros; apply Ho; [by right|done]).
    specialize (He op (list_elem_of_here _ _)). specialize (Ho op (list_elem_of_here _ _)).
    destruct op as [a1 ad1 desc e1|a1 e1]; cbn in He, Ho |- *.
    + constructor; cbn; try done. rewrite dget_dset. case_decide as Ec.
      * intros _. destruct (Ho Ec) as [? [= -> -> ->]]. done.
      * intros [?|Hx%list_elem_of_singleton]%elem_of_app; [auto|]. specialize (He (eq_sym Hx)). lia.
    + assert (a1 ≠ a) as Hna by (intros Hx; by destruct (Ho Hx)).
      assert (e1 ≠ e) as Hne by (intros Hx; discriminate (He Hx)).
      destruct (dmem _ a1); constructor; cbn; try done.
      * rewrite dget_dset_ne by done. split; [done|]. intros a'. rewrite dget_dset. case_decide; [congruence|done].
      * intros [?|Hx%list_elem_of_singleton]%elem_of_app; [auto|]. congruence.
  - constructor; cbn; try done.
    + split; [rewrite dget_ddel; by case_decide|]. intros a'. rewrite dget_ddel. by case_decide.
    + assert (a1 ≠ a) as Hna by congruence. rewrite dget_ddel_ne by done.
      intros [?|Hx%list_elem_of_singleton]%elem_of_app; [auto|]. subst. by destruct (Hd2 a1).
Qed.

(** ** Whole rounds *)

Lemma turns_keep (P : roster → Prop) : (∀ r r', roster_turn r r' → P r → P r') →
  ∀ r r', rtc roster_turn r r' → P r → P r'.
Proof. intros HP r r' Hr. induction Hr as [|r r1 r' Ht _ IH]; [done|]. intros H. apply IH. by eapply HP. Qed.

Lemma future_turns r r' : rtc roster_turn r r' → sub_map (ro_future r') (ro_future r).
Proof. induction 1 as [|r r1 r' Ht _ IH]; [done|]. etrans; [exact IH|by apply future_turn]. Qed.
End roster.

Arguments roster Ad config : clear implicits.
Arguments op_id {Ad config} op.
Arguments op_event {Ad config} op.
