(* ===== verification/PrefetchControllerProofs.v ===== *)
(** * Prefetch controller: every lock is accounted for

    What the controller relies on is stated as laws of its interfaces
    ([L1ClientSpec], [L2AdaptersSpec]). The proofs follow one request at a time:
    [view_of] is what a handler sees and changes of the controller on behalf of
    a request, [frame] that it leaves the other requests alone, and [wp] is a
    total-correctness rule: the handler ends normally in a view that satisfies
    the postcondition. *)

From S2P Require Import Prelude PyDict PyState TTLLock L1Manager Bitmap Fold PrefetchPlan KeyLedger.
From S2P Require Import PrefetchController.
Local Open Scope Z_scope.

(** ** Laws of the interfaces

    [w_evolves] covers what the call itself and other threads may do. *)

Class WorldModel (W : Type) := {
  w_ok : W → Prop;
  w_evolves : W → W → Prop;
  w_evolves_pre :: PreOrder w_evolves;
  w_ok_evolves w w' : w_ok w → w_evolves w w' → w_ok w' }.

Class L1ClientSpec (W K Obj Layout : Type) `{EqDecision K, WorldModel W, L1Client W K Obj Layout} := {
  w_layout_ok : Layout → Prop;
  l1_reserve_read_spec w keys n :
    w_ok w → let '(ret, w') := l1_reserve_read w keys n in
    w_evolves w w' ∧ (∀ k, k ∈ keys → is_Some (dget ret k)) ∧
    (∀ k o, dget ret k = Some (SUCCESS, o) → is_Some o);
  l1_finish_read_spec w keys n :
    w_ok w → ∃ w', l1_finish_read w keys n = Ok w' ∧ w_evolves w w';
  l1_reserve_write_spec w keys temps l :
    w_ok w → NoDup keys → length temps = length keys → w_layout_ok l →
    ∃ ret w', l1_reserve_write w keys temps l = Ok (ret, w') ∧ w_evolves w w' ∧
      dwf ret ∧ (∀ k, is_Some (dget ret k) → k ∈ keys);
  l1_finish_write_spec w keys : w_ok w → w_evolves w (l1_finish_write w keys);
  l1_finish_write_and_reserve_read_spec w keys n :
    w_ok w → w_evolves w (l1_finish_write_and_reserve_read w keys n).2;
  l1_delete_spec w keys : w_ok w → ∃ w', l1_delete w keys = Ok w' ∧ w_evolves w w';
  l1_touch_keys_spec w keys : w_ok w → w_evolves w (l1_touch_keys w keys) }.

(** An adapter answers a task about [n] keys with a bitmap over [n] keys. *)
Class L2AdaptersSpec (W Ad K Obj Layout TaskId : Type)
    `{WorldModel W, L2Adapters W Ad K Obj Layout TaskId} := {
  w_lookup_task : W → Ad → TaskId → nat → Prop;
  w_load_task : W → Ad → TaskId → nat → Prop;
  w_lookup_task_evolves w w' a t n : w_lookup_task w a t n → w_evolves w w' → w_lookup_task w' a t n;
  w_load_task_evolves w w' a t n : w_load_task w a t n → w_evolves w w' → w_load_task w' a t n;
  submit_lookup_spec w a keys layouts :
    w_ok w → let '(t, w') := submit_lookup_and_lock_task w a keys layouts in
    w_evolves w w' ∧ w_lookup_task w' a t (length keys);
  query_lookup_spec w a t n :
    w_ok w → w_lookup_task w a t n → let '(ans, w') := query_lookup_and_lock_result w a t in
    w_evolves w w' ∧ (∀ b, ans = Some b → sized (Z.of_nat n) b);
  submit_unlock_spec w a keys : w_ok w → w_evolves w (submit_unlock w a keys);
  submit_load_spec w a keys objs :
    w_ok w → let '(t, w') := submit_load_task w a keys objs in
    w_evolves w w' ∧ w_load_task w' a t (length keys);
  query_load_spec w a t n :
    w_ok w → w_load_task w a t n → let '(ans, w') := query_load_result w a t in
    w_evolves w w' ∧ (∀ b, ans = Some b → sized (Z.of_nat n) b) }.

Section proofs.
Context {W Ad K Obj Layout TaskId config : Type} `{EqDecision K}.
Context {L1 : L1Client W K Obj Layout} {L2 : L2Adapters W Ad K Obj Layout TaskId}.
Context {WM : WorldModel W} {S1 : L1ClientSpec W K Obj Layout}
        {S2 : L2AdaptersSpec W Ad K Obj Layout TaskId}.
Context (object_group_id : K → Z) (policy_ : PrefetchPolicy) (max_in_flight submission_fd : Z).

Abbreviation State := (PrefetchController W Ad K Obj Layout TaskId config).
Abbreviation Request := (InFlightPrefetchRequest K Obj Layout TaskId).
Abbreviation Call := (call K Obj Layout TaskId config).
Abbreviation Tables := (AdapterTables Ad config).
Abbreviation ctl := (py_state State).
Implicit Types (s : State) (r : Request) (c : Call) (T : Tables) (rid : Z).

(** ** Views *)

Definition log_of rid s : list Call :=
  omap (λ rc, if decide (rc.1 = rid) then Some rc.2 else None) (pc_log s).

Record view := mkView {
  v_world : W;
  v_request : option Request;
  v_log : list Call;
  v_live : bool;
  v_counts : StatusCounts;
  v_hit : option Z;
  v_result : option Bitmap }.

Definition view_of rid s : view :=
  mkView (pc_world s) (dget (pc_requests s) rid) (log_of rid s)
    (bool_decide (rid ∈ pc_in_flight s)) (pc_counts s)
    (dget (pc_completed_lookups s) rid) (dget (pc_completed_results s) rid).

(** What handling request [rid] leaves alone. *)
Record frame rid s s' : Prop := {
  fr_world : w_evolves (pc_world s) (pc_world s');
  fr_tables : pc_tables s' = pc_tables s;
  fr_ops : pc_pending_adapter_ops s' = pc_pending_adapter_ops s;
  fr_pending : pc_pending_queue s' = pc_pending_queue s;
  fr_submission : pc_submission_queue s' = pc_submission_queue s;
  fr_next : pc_next_request_id s' = pc_next_request_id s;
  fr_in_flight : filter (.≠ rid) (pc_in_flight s') = filter (.≠ rid) (pc_in_flight s);
  fr_nodup : NoDup (pc_in_flight s) → NoDup (pc_in_flight s');
  fr_requests : ∀ i, i ≠ rid → dget (pc_requests s') i = dget (pc_requests s) i;
  fr_logs : ∀ i, i ≠ rid → log_of i s' = log_of i s;
  fr_prefix : pc_log s `prefix_of` pc_log s';
  fr_hits : ∀ i, i ≠ rid → dget (pc_completed_lookups s') i = dget (pc_completed_lookups s) i;
  fr_results : ∀ i, i ≠ rid → dget (pc_completed_results s') i = dget (pc_completed_results s) i }.

Lemma frame_refl rid s : frame rid s s.
Proof. constructor; try done. Qed.

Lemma frame_trans rid s1 s2 s3 : frame rid s1 s2 → frame rid s2 s3 → frame rid s1 s3.
Proof.
  intros H1 H2. constructor.
  - exact (transitivity (fr_world _ _ _ H1) (fr_world _ _ _ H2)).
  - rewrite (fr_tables _ _ _ H2). apply H1.
  - rewrite (fr_ops _ _ _ H2). apply H1.
  - rewrite (fr_pending _ _ _ H2). apply H1.
  - rewrite (fr_submission _ _ _ H2). apply H1.
  - rewrite (fr_next _ _ _ H2). apply H1.
  - rewrite (fr_in_flight _ _ _ H2). apply H1.
  - intros. apply H2, H1. done.
  - intros. rewrite (fr_requests _ _ _ H2) by done. by apply H1.
  - intros. rewrite (fr_logs _ _ _ H2) by done. by apply H1.
  - etrans; [apply (fr_prefix _ _ _ H1)|apply H2].
  - intros. rewrite (fr_hits _ _ _ H2) by done. by apply H1.
  - intros. rewrite (fr_results _ _ _ H2) by done. by apply H1.
Qed.

Definition wp {A} T rid (m : ctl A) (v : view) (Q : A → view → Prop) : Prop :=
  ∀ s, view_of rid s = v → pc_tables s = T → w_ok (pc_world s) →
  ∃ a s', m s = (Ok a, s') ∧ frame rid s s' ∧ Q a (view_of rid s').

Lemma wp_ret {A} T rid (a : A) v (Q : A → view → Prop) : Q a v → wp T rid (mret a) v Q.
Proof. intros HQ s <- _ _. exists a, s. split_and!; [done|apply frame_refl|done]. Qed.

Lemma wp_bind {A B} T rid (m : ctl A) (f : A → ctl B) v Q :
  wp T rid m v (λ a v', wp T rid (f a) v' Q) → wp T rid (m ≫= f) v Q.
Proof.
  intros Hm s Hv HT Hok. destruct (Hm s Hv HT Hok) as (a & s1 & E & Hf & Hk).
  destruct (Hk s1) as (b & s2 & E2 & Hf2 & HQ); [done| |by eapply w_ok_evolves, Hf|].
  { by rewrite (fr_tables _ _ _ Hf). }
  exists b, s2. split_and!; [|by eapply frame_trans|done].
  unfold mbind, py_bind. by rewrite E.
Qed.

Lemma wp_mono {A} T rid (m : ctl A) v (Q Q' : A → view → Prop) :
  wp T rid m v Q → (∀ a v', Q a v' → Q' a v') → wp T rid m v Q'.
Proof.
  intros Hm HQ s Hv HT Hok. destruct (Hm s Hv HT Hok) as (a & s1 & ? & ? & ?). exists a, s1. eauto.
Qed.

Lemma wp_lift {A} T rid (x : result A) a v (Q : A → view → Prop) :
  x = Ok a → Q a v → wp T rid (lift x) v Q.
Proof. intros -> HQ s <- _ _. exists a, s. split_and!; [done|apply frame_refl|done]. Qed.

Lemma wp_when T rid b (m : ctl unit) v Q :
  (b = true → wp T rid m v Q) → (b = false → Q tt v) → wp T rid (when b m) v Q.
Proof. destruct b; simpl; intros Ht Hf; [by apply Ht|]. apply wp_ret. by apply Hf. Qed.

Lemma wp_tables T rid v (Q : Tables → view → Prop) : Q T v → wp T rid (gets pc_tables) v Q.
Proof. intros HQ s <- <- _. eexists _, s. split_and!; [done|apply frame_refl|done]. Qed.

Lemma wp_world T rid v (Q : W → view → Prop) :
  (w_ok (v_world v) → Q (v_world v) v) → wp T rid (gets pc_world) v Q.
Proof. intros HQ s <- _ Hok. eexists _, s. split_and!; [done|apply frame_refl|]. by apply HQ. Qed.

Lemma wp_getitem {A B} `{EqDecision A} T rid (d : list (A * B)) k b v (Q : B → view → Prop) :
  dget d k = Some b → Q b v → wp T rid (getitem d k) v Q.
Proof. intros E HQ. unfold getitem. rewrite E. by eapply wp_lift. Qed.

Lemma wp_get_request T rid r v (Q : Request → view → Prop) :
  v_request v = Some r → Q r v → wp T rid (get_request rid) v Q.
Proof.
  intros Hr HQ s <- _ _. simpl in Hr. exists r, s. split_and!; [|apply frame_refl|done].
  unfold get_request, getitem, lift. unfold mbind, py_bind. simpl. by rewrite Hr.
Qed.

(** a loop whose rounds keep an invariant over the elements left *)
Lemma wp_for_each {A} T rid (f : A → ctl unit) (I : list A → view → Prop) l :
  (∀ x l' v, I (x :: l') v → wp T rid (f x) v (λ _ v', I l' v')) →
  ∀ v, I l v → wp T rid (for_each f l) v (λ _ v', I [] v').
Proof.
  intros Hf. induction l as [|x l IH]; intros v HI; [by apply wp_ret|].
  cbn [for_each]. apply wp_bind. eapply wp_mono; [by apply Hf|]. intros [] v' HI'. by apply IH.
Qed.

(** ** Primitive effects *)

Definition v_set_request (r : Request) (v : view) : view :=
  mkView (v_world v) (Some r) (v_log v) (v_live v) (v_counts v) (v_hit v) (v_result v).
Definition v_call (c : Call) (w : W) (v : view) : view :=
  mkView w (v_request v) (v_log v ++ [c]) (v_live v) (v_counts v) (v_hit v) (v_result v).

Lemma log_of_app i s l : log_of i (with_log (pc_log s ++ l) s)
  = log_of i s ++ omap (λ rc : Z * Call, if decide (rc.1 = i) then Some rc.2 else None) l.
Proof. unfold log_of. simpl. apply omap_app. Qed.

Lemma wp_record T rid c w v (Q : unit → view → Prop) :
  w_evolves (v_world v) w → Q tt (v_call c w v) → wp T rid (record rid c w) v Q.
Proof.
  intros Hw HQ s <- _ _. eexists tt, _. split_and!; [done| |].
  - constructor; simpl; try done; [|by apply prefix_app_r]. intros i Hi. unfold log_of; simpl. rewrite omap_app. simpl.
    rewrite decide_False by done. by rewrite app_nil_r.
  - unfold view_of, log_of; simpl. rewrite omap_app. simpl. rewrite decide_True by done. exact HQ.
Qed.

Lemma wp_upd_request T rid f r v (Q : unit → view → Prop) :
  v_request v = Some r → Q tt (v_set_request (f r) v) → wp T rid (upd_request rid f) v Q.
Proof.
  intros Hr HQ. apply wp_bind. eapply wp_get_request; [done|].
  intros s <- _ _. eexists tt, _. split_and!; [done| |].
  - constructor; simpl; try done. intros i Hi. by apply dget_dset_ne.
  - unfold view_of, log_of; simpl. rewrite dget_dset_eq. exact HQ.
Qed.

(** ** The calls *)

Lemma wp_publish T rid e v (Q : unit → view → Prop) :
  Q tt (v_call (CPublish e) (v_world v) v) → wp T rid (publish rid e) v Q.
Proof. intros HQ. apply wp_bind, wp_world. intros _. by apply wp_record. Qed.

Lemma wp_reserve_read T rid keys n v (Q : _ → view → Prop) :
  (∀ ret w, w_evolves (v_world v) w → (∀ k, k ∈ keys → is_Some (dget ret k)) →
     Q ret (v_call (CReserveRead keys n ret) w v)) →
  wp T rid (reserve_read_ rid keys n) v Q.
Proof.
  intros HQ. apply wp_bind, wp_world. intros Hok.
  pose proof (l1_reserve_read_spec (v_world v) keys n Hok) as Hs. destruct (l1_reserve_read _ _ _) as [ret w].
  destruct Hs as (? & ? & _). apply wp_bind, wp_record; [done|]. apply wp_ret. by apply HQ.
Qed.

Lemma wp_finish_read T rid keys n v (Q : unit → view → Prop) :
  (∀ w, w_evolves (v_world v) w → Q tt (v_call (CFinishRead keys n) w v)) →
  wp T rid (finish_read_ rid keys n) v Q.
Proof.
  intros HQ. apply wp_bind, wp_world. intros Hok.
  destruct (l1_finish_read_spec (v_world v) keys n Hok) as (w & E & ?).
  apply wp_bind. eapply wp_lift; [exact E|]. apply wp_record; [done|by apply HQ].
Qed.

Lemma wp_reserve_write T rid keys temps layout v (Q : _ → view → Prop) :
  NoDup keys → length temps = length keys → w_layout_ok layout →
  (∀ ret w, w_evolves (v_world v) w → dwf ret → (∀ k, is_Some (dget ret k) → k ∈ keys) →
     Q ret (v_call (CReserveWrite keys temps layout ret) w v)) →
  wp T rid (reserve_write_ rid keys temps layout) v Q.
Proof.
  intros Hnd Hlen Hlay HQ. apply wp_bind, wp_world. intros Hok.
  destruct (l1_reserve_write_spec (v_world v) keys temps layout Hok Hnd Hlen Hlay) as (ret & w & E & ? & ? & ?).
  apply wp_bind. eapply wp_lift; [exact E|]. apply wp_bind, wp_record; [done|]. apply wp_ret. by apply HQ.
Qed.

Lemma wp_finish_write T rid keys v (Q : unit → view → Prop) :
  (∀ w, w_evolves (v_world v) w → Q tt (v_call (CFinishWrite keys) w v)) →
  wp T rid (finish_write_ rid keys) v Q.
Proof.
  intros HQ. apply wp_bind, wp_world. intros Hok.
  pose proof (l1_finish_write_spec (v_world v) keys Hok). apply wp_record; [done|by apply HQ].
Qed.

Lemma wp_finish_write_and_reserve_read T rid keys n v (Q : unit → view → Prop) :
  (∀ ret w, w_evolves (v_world v) w → Q tt (v_call (CFinishWriteAndReserveRead keys n ret) w v)) →
  wp T rid (finish_write_and_reserve_read_ rid keys n) v Q.
Proof.
  intros HQ. apply wp_bind, wp_world. intros Hok.
  pose proof (l1_finish_write_and_reserve_read_spec (v_world v) keys n Hok) as He.
  destruct (l1_finish_write_and_reserve_read _ _ _) as [ret w]. apply wp_record; [done|by apply HQ].
Qed.

Lemma wp_delete T rid keys v (Q : unit → view → Prop) :
  (∀ w, w_evolves (v_world v) w → Q tt (v_call (CDelete keys) w v)) → wp T rid (delete_ rid keys) v Q.
Proof.
  intros HQ. apply wp_bind, wp_world. intros Hok.
  destruct (l1_delete_spec (v_world v) keys Hok) as (w & E & ?).
  apply wp_bind. eapply wp_lift; [exact E|]. apply wp_record; [done|by apply HQ].
Qed.

Lemma wp_touch T rid keys v (Q : unit → view → Prop) :
  (∀ w, w_evolves (v_world v) w → Q tt (v_call (CTouch keys) w v)) → wp T rid (touch_keys_ rid keys) v Q.
Proof.
  intros HQ. apply wp_bind, wp_world. intros Hok.
  pose proof (l1_touch_keys_spec (v_world v) keys Hok). apply wp_record; [done|by apply HQ].
Qed.

Lemma wp_get_adapter T rid a ad v (Q : Ad → view → Prop) :
  dget (at_l2_adapters T) a = Some ad → Q ad v → wp T rid (get_adapter a) v Q.
Proof. intros E HQ. apply wp_bind, wp_tables. by eapply wp_getitem. Qed.

(** ** Ledgers

    What the calls of a request did to the locks, key by key. *)

Definition granted (ret : list (K * (L1Error * option Obj))) (k : K) : bool :=
  match dget ret k with Some (SUCCESS, _) => true | _ => false end.
Definition write_granted (ret : list (K * (L1Error * option Obj))) (k : K) : bool :=
  match dget ret k with Some (SUCCESS, Some _) => true | _ => false end.

(** L1 read locks on [k] *)
Definition read_delta (k : K) (c : Call) : Z :=
  match c with
  | CReserveRead keys n ret | CFinishWriteAndReserveRead keys n ret =>
      if granted ret k then n * occ k keys else 0
  | CFinishRead keys n => - (n * occ k keys)
  | _ => 0
  end.

(** locks of adapter [a] on [k]; a lookup answers for all the request's keys *)
Definition l2_delta (keys : list K) (a : Z) (k : K) (c : Call) : Z :=
  match c with
  | CLookupResult a' _ found => if decide (a' = a) then occ k (gather found keys) else 0
  | CSubmitUnlock a' unlocked => if decide (a' = a) then - occ k unlocked else 0
  | _ => 0
  end.

(** L1 write reservations of [k] *)
Definition write_delta (k : K) (c : Call) : Z :=
  match c with
  | CReserveWrite keys _ _ ret => if write_granted ret k then occ k keys else 0
  | CFinishWrite keys | CFinishWriteAndReserveRead keys _ _ => - occ k keys
  | _ => 0
  end.

Definition hit_delta (c : Call) : Z :=
  match c with CPublish (L2_PREFETCH_LOOKUP_COMPLETED _) => 1 | _ => 0 end.
Definition done_delta (c : Call) : Z := match c with CCompleted _ => 1 | _ => 0 end.

(** queries of an adapter that came back empty *)
Definition miss_delta (c : Call) : Z := match c with CNoAnswer _ _ => 1 | _ => 0 end.

(** every conversion of a write reservation into read locks was granted, that
    is, no load outlasted its write lock *)
Definition conversion_ok (c : Call) : Prop :=
  match c with
  | CFinishWriteAndReserveRead keys _ ret => ∀ k, k ∈ keys → granted ret k = true
  | _ => True
  end.

Definition misses (l : list Call) : Z := ledger miss_delta l.

Lemma misses_app l l' : misses (l ++ l') = misses l + misses l' ∧ 0 <= misses l'.
Proof.
  unfold misses. split.
  - induction l; simpl; lia.
  - induction l' as [|c l' IH]; simpl; [lia|]. destruct c; simpl; lia.
Qed.

Lemma misses_prefix l l' : l `prefix_of` l' → misses l <= misses l'.
Proof. intros [k ->]. destruct (misses_app l k). lia. Qed.

(** all the misses of a controller, and those of one request *)
Definition all_misses s : Z := misses (pc_log s).*2.

Lemma all_misses_mono s s' : pc_log s `prefix_of` pc_log s' → all_misses s <= all_misses s'.
Proof. intros [k Hk]. unfold all_misses. rewrite Hk, fmap_app. apply misses_prefix. by apply prefix_app_r. Qed.

Lemma misses_log rid s s' : pc_log s `prefix_of` pc_log s' → all_misses s' <= all_misses s →
  misses (log_of rid s') <= misses (log_of rid s).
Proof.
  intros [ext Hl]. unfold all_misses, log_of. rewrite Hl, fmap_app, omap_app.
  destruct (misses_app (pc_log s).*2 ext.*2) as [-> _]. destruct (misses_app (omap (λ rc : Z * Call,
    if decide (rc.1 = rid) then Some rc.2 else None) (pc_log s)) (omap (λ rc : Z * Call,
    if decide (rc.1 = rid) then Some rc.2 else None) ext)) as [-> _].
  intros Hle. enough (misses (omap (λ rc : Z * Call, if decide (rc.1 = rid) then Some rc.2 else None) ext)
                      <= misses ext.*2) by lia.
  clear. induction ext as [|[i c] ext IH]; [done|]. unfold misses, ledger in *. cbn.
  assert (0 <= miss_delta c) by (destruct c; cbn; lia). destruct (decide (i = rid)); cbn; lia.
Qed.

Definition spec_of r : PrefetchRequestSpec K Layout :=
  mkSpec (rq_keys r) (rq_group_layout_descs r) (rq_num_kv_readers r) (rq_policy r)
    (rq_attn_desc r) (rq_mode r).

(** A request names each key once and has a layout for every group; under PREFIX
    its keys are a whole grid of chunks, object groups and ranks. *)
Record spec_ok (sp : PrefetchRequestSpec K Layout) : Prop := {
  so_grid : ∃ chunks,
    layout_ok chunks (world_size (sp_attn_desc sp)) (num_chunks_in_sw (sp_attn_desc sp)) ∧
    (sp_policy sp = PREFIX → Z.of_nat (length (sp_keys sp))
    = chunks * (Z.of_nat (length (num_chunks_in_sw (sp_attn_desc sp))) * world_size (sp_attn_desc sp)));
  so_keys : NoDup (sp_keys sp);
  so_layouts : ∀ k, k ∈ sp_keys sp →
    ∃ l, dget (sp_group_layout_descs sp) (object_group_id k) = Some l ∧ w_layout_ok l }.

Definition nkeys r : Z := Z.of_nat (length (rq_keys r)).

(** What the request holds is what its calls add up to. *)
Record held_ok r (l : list Call) : Prop := {
  ho_spec : spec_ok (spec_of r);
  ho_l1 : sized (nkeys r) (rq_l1_readlocks r);
  ho_lookups : plan_ok (nkeys r) (rq_lookup_results r);
  ho_locks : plan_ok (nkeys r) (rq_l2_adapter2readlocks r);
  ho_locks_sub : ∀ a, is_Some (dget (rq_l2_adapter2readlocks r) a) →
                      is_Some (dget (rq_lookup_results r) a);
  ho_reads : Forall conversion_ok l → ∀ k, ledger (read_delta k) l
    = rq_num_kv_readers r * cnt k (bits_of (rq_l1_readlocks r)) (rq_keys r);
  ho_l2 : ∀ a k, ledger (l2_delta (rq_keys r) a k) l
    = cnt k (λ i, has (rq_l2_adapter2readlocks r) a (Z.of_nat i)) (rq_keys r);
  ho_writes : ∀ k, ledger (write_delta k) l = occ k (rq_write_reserved_keys r);
  ho_reserved : NoDup (rq_write_reserved_keys r);
  ho_hits : ledger hit_delta l = if rq_hit_reported r then 1 else 0;
  ho_done : ledger done_delta l = 0 }.

Record load_ok r : Prop := {
  lo_plan : plan_ok (nkeys r) (rq_load_plan r);
  lo_reserved : ∀ a i k, has (rq_load_plan r) a (Z.of_nat i) = true → rq_keys r !! i = Some k →
                         k ∈ rq_write_reserved_keys r;
  lo_disjoint : ∀ a i, 0 <= i → has (rq_load_plan r) a i = true → test (rq_l1_readlocks r) i = false;
  lo_results : ∀ a b, dget (rq_load_results r) a = Some b → bm_wf b }.

(** The outcome of a request: the result is stored and the hit reported once;
    the requester holds its read locks on exactly the keys of the result (no
    locks at all for a warm-up), and every other lock was given back. *)
Record completed_ok (sp : PrefetchRequestSpec K Layout) (l : list Call) (bm : Bitmap) : Prop := {
  co_result : sized (Z.of_nat (length (sp_keys sp))) bm ∧ CCompleted bm ∈ l;
  co_once : ledger done_delta l = 1 ∧ ledger hit_delta l = 1;
  co_reads : Forall conversion_ok l → ∀ k, ledger (read_delta k) l
    = match sp_mode sp with
      | LOOKUP => sp_num_kv_readers sp * cnt k (bits_of bm) (sp_keys sp)
      | WARM => 0
      end;
  co_l2 : ∀ a k, ledger (l2_delta (sp_keys sp) a k) l = 0;
  co_writes : ∀ k, ledger (write_delta k) l = 0 }.

(** ** Returning L2 locks *)

Definition is_unlock c : Prop := match c with CSubmitUnlock _ _ => True | _ => False end.

Lemma unlocks_quiet d ext :
  (∀ a keys, d (CSubmitUnlock a keys) = 0) → Forall is_unlock ext → Forall (λ c, d c = 0) ext.
Proof. intros Hd Hext. eapply Forall_impl; [exact Hext|]. intros []; naive_solver. Qed.

Lemma unlocks_conversion l ext :
  Forall is_unlock ext → Forall conversion_ok (l ++ ext) → Forall conversion_ok l.
Proof. intros _. rewrite Forall_app. naive_solver. Qed.

(** changing only the L2 locks held *)
Lemma held_ok_locks r l ext held :
  held_ok r l → Forall is_unlock ext → plan_ok (nkeys r) held →
  (∀ a, is_Some (dget held a) → is_Some (dget (rq_l2_adapter2readlocks r) a)) →
  (∀ a k, ledger (l2_delta (rq_keys r) a k) (l ++ ext)
          = cnt k (λ i, has held a (Z.of_nat i)) (rq_keys r)) →
  held_ok (rq_set_l2_locks held r) (l ++ ext).
Proof.
  intros [] Hext Hp Hsub Hl2. constructor; simpl; auto.
  - intros Hc k. rewrite ledger_quiet by (by apply unlocks_quiet).
    apply ho_reads0. by eapply unlocks_conversion.
  - intros k. by rewrite ledger_quiet by (by apply unlocks_quiet).
  - by rewrite ledger_quiet by (by apply unlocks_quiet).
  - by rewrite ledger_quiet by (by apply unlocks_quiet).
Qed.

Lemma has_replace N held a rem a' i :
  sized N rem → 0 <= i →
  has (if popcount rem =? 0 then ddel held a else dset held a rem) a' i
  = if decide (a = a') then test rem i else has held a' i.
Proof.
  intros Hs Hi. unfold has. destruct (popcount rem =? 0) eqn:E.
  - rewrite dget_ddel. case_decide; [|done].
    symmetry. by apply (proj1 (popcount_zero rem (proj1 Hs)) E).
  - rewrite dget_dset. by case_decide.
Qed.

Lemma plan_ok_ddel N p a : plan_ok N p → plan_ok N (ddel p a).
Proof.
  intros [Hw Hf]. split; [by apply ddel_wf|]. unfold dvals in *. rewrite Forall_fmap in *.
  by apply ddel_Forall.
Qed.

Lemma replace_ok N held a rem :
  plan_ok N held → sized N rem → plan_ok N (if popcount rem =? 0 then ddel held a else dset held a rem).
Proof. intros. destruct (_ =? 0); [by apply plan_ok_ddel|by apply plan_ok_dset]. Qed.

Section release.
Context T (rid : Z) (keep : plan) (v : view) (r : Request).
Context (Hheld : held_ok r (v_log v)) (Hkeep : plan_ok (nkeys r) keep).
Context (Hadapters : ∀ a, is_Some (dget (rq_lookup_results r) a) →
                          is_Some (dget (at_l2_adapters T) a)).

Definition release_view (held : plan) (w : W) (ext : list Call) : view :=
  mkView w (Some (rq_set_l2_locks held r)) (v_log v ++ ext) (v_live v) (v_counts v) (v_hit v)
    (v_result v).

Record release_state (rest held : plan) (w : W) (ext : list Call) : Prop := {
  rs_world : w_evolves (v_world v) w;
  rs_ext : Forall is_unlock ext;
  rs_plan : plan_ok (nkeys r) held;
  rs_sub : ∀ a, is_Some (dget held a) → is_Some (dget (rq_l2_adapter2readlocks r) a);
  rs_rest : ∀ a b, (a, b) ∈ rest → dget held a = Some b;
  rs_nodup : NoDup rest.*1;
  rs_has : ∀ a i, 0 <= i → has held a i
    = has (rq_l2_adapter2readlocks r) a i && (bool_decide (a ∈ rest.*1) || has keep a i);
  rs_l2 : ∀ a k, ledger (l2_delta (rq_keys r) a k) (v_log v ++ ext)
    = cnt k (λ i, has held a (Z.of_nat i)) (rq_keys r) }.

Lemma keep_bitmap_ok a :
  sized (nkeys r) (default (bitmap (nkeys r)) (dget keep a)) ∧
  ∀ i, test (default (bitmap (nkeys r)) (dget keep a)) i = has keep a i.
Proof.
  unfold has. destruct (dget keep a) eqn:E; simpl.
  - split; [by eapply plan_ok_sized|done].
  - split; [apply sized_bitmap; unfold nkeys; lia|]. intros. apply test_bitmap.
Qed.

(** the round of adapter [a], with and without keys to unlock *)
Lemma release_round a b rest held w ext ext' w' :
  release_state ((a, b) :: rest) held w ext →
  let kb := default (bitmap (nkeys r)) (dget keep a) in
  let rem := band b kb in
  w_evolves w w' → Forall is_unlock ext' →
  (∀ a' k, ledger (l2_delta (rq_keys r) a' k) (v_log v ++ ext ++ ext')
     = ledger (l2_delta (rq_keys r) a' k) (v_log v ++ ext)
       - (if decide (a = a') then cnt k (bits_of (band b (bnot kb))) (rq_keys r) else 0)) →
  release_state rest (if popcount rem =? 0 then ddel held a else dset held a rem) w' (ext ++ ext').
Proof.
  intros [Hw Hext Hp Hsub Hrest Hnd Hhas Hl2] kb rem Hw' Hext' Hled.
  destruct (keep_bitmap_ok a) as [Hkb Htkb]. fold kb in Hkb, Htkb.
  assert (Hb : dget held a = Some b) by (apply Hrest; left).
  assert (Hsb : sized (nkeys r) b) by (by eapply plan_ok_sized).
  assert (Hrem : sized (nkeys r) rem) by (by apply sized_band).
  cbn [fmap list_fmap fst] in Hnd. apply NoDup_cons in Hnd as [Hnin Hnd].
  assert (Hab : ∀ i, 0 <= i → has held a i = test b i) by (intros; unfold has; by rewrite Hb).
  constructor.
  - by etrans.
  - by apply Forall_app.
  - by apply replace_ok.
  - intros a' Ha'. apply Hsub. destruct (popcount rem =? 0); [rewrite dget_ddel in Ha'|rewrite dget_dset in Ha'];
      destruct (decide (a = a')) as [<-|]; try done; by rewrite Hb.
  - intros a' b' Hin. assert (a ≠ a') by (intros <-; apply Hnin; apply list_elem_of_fmap; by exists (a, b')).
    assert (dget held a' = Some b') by (apply Hrest; by right).
    destruct (popcount rem =? 0); [by rewrite dget_ddel_ne|by rewrite dget_dset_ne].
  - done.
  - intros a' i Hi. rewrite (has_replace (nkeys r)) by done. destruct (decide (a = a')) as [<-|Hne].
    + rewrite bool_decide_eq_false_2 by done. unfold rem. rewrite (test_band (nkeys r)), Htkb by done.
      rewrite <- Hab, Hhas by done. rewrite bool_decide_eq_true_2 by left. simpl. by rewrite andb_true_r.
    + rewrite Hhas by done. do 2 f_equal. apply bool_decide_ext. cbn. rewrite elem_of_cons. naive_solver.
  - intros a' k. rewrite Hled, Hl2. destruct (decide (a = a')) as [<-|Hne].
    + rewrite (cnt_split k (λ i, has held a (Z.of_nat i)) (bits_of kb)).
      rewrite (cnt_ext k (λ i, has held a (Z.of_nat i) && negb (bits_of kb i)) (bits_of (band b (bnot kb)))).
      * rewrite (cnt_ext k (λ i, has held a (Z.of_nat i) && bits_of kb i)
                   (λ i, has (if popcount rem =? 0 then ddel held a else dset held a rem) a (Z.of_nat i))); [lia|].
        intros i Hi. rewrite (has_replace (nkeys r)), decide_True by (done || lia). unfold rem, bits_of.
        rewrite (test_band (nkeys r)) by (done || lia). by rewrite Hab by lia.
      * intros i Hi. unfold bits_of. rewrite (test_band (nkeys r)) by (lia || solve_sized).
        rewrite (test_bnot (nkeys r)) by (done || unfold nkeys; lia). by rewrite Hab by lia.
    + rewrite Z.sub_0_r. apply cnt_ext. intros i Hi. rewrite (has_replace (nkeys r)) by (done || lia).
      by rewrite decide_False by done.
Qed.

Lemma release_start : v_request v = Some r →
  release_state (rq_l2_adapter2readlocks r) (rq_l2_adapter2readlocks r) (v_world v) [] ∧
  v = release_view (rq_l2_adapter2readlocks r) (v_world v) [].
Proof.
  intros Hr. split.
  - destruct (ho_locks _ _ Hheld) as [Hwf Hsz]. constructor; try done.
    + intros a b Hin. by apply dget_wf_elem_of.
    + intros a i Hi. unfold has at 1 2. destruct (dget _ a) eqn:E; [|done].
      rewrite bool_decide_eq_true_2; [by rewrite orb_true_l, andb_true_r|]. apply elem_of_dkeys. by rewrite E.
    + intros a k. rewrite app_nil_r. apply Hheld.
  - unfold release_view. rewrite app_nil_r. destruct v; simpl in *. subst. f_equal. by destruct r.
Qed.

Lemma release_ok : v_request v = Some r →
  wp T rid (_release_l2_locks rid keep) v (λ _ v', ∃ held w ext,
    v' = release_view held w ext ∧ w_evolves (v_world v) w ∧ Forall is_unlock ext ∧
    held_ok (rq_set_l2_locks held r) (v_log v ++ ext) ∧
    ∀ a i, 0 <= i → has held a i = has (rq_l2_adapter2readlocks r) a i && has keep a i).
Proof.
  intros Hr. apply wp_bind. eapply wp_get_request; [done|]. destruct (release_start Hr) as [Hst Hv].
  eapply wp_mono; [eapply (wp_for_each _ _ _
    (λ rest v', ∃ held w ext, v' = release_view held w ext ∧ release_state rest held w ext))|].
  2: { by eexists _, _, _. }
  - clear Hst Hv. intros [a b] rest v' (held & w & ext & -> & Hst).
    destruct (keep_bitmap_ok a) as [Hkb _]. fold (nkeys r). set (kb := default _ _) in *.
    assert (Hb : dget held a = Some b) by (apply (rs_rest _ _ _ _ Hst); left).
    assert (Hsb : sized (nkeys r) b) by (eapply plan_ok_sized; [apply Hst|done]).
    pose proof (release_round a b rest held w ext) as Hround. fold kb in Hround. cbv zeta in Hround.
    assert (Hu : ∀ k, occ k (gather (band b (bnot kb)) (rq_keys r))
                      = cnt k (bits_of (band b (bnot kb))) (rq_keys r)).
    { intros k. apply occ_gather. apply sized_band; [done|by apply sized_bnot]. }
    apply wp_bind, wp_when.
    + intros _. destruct (Hadapters a) as [ad Had].
      { apply (ho_locks_sub _ _ Hheld). apply (rs_sub _ _ _ _ Hst). by rewrite Hb. }
      apply wp_bind. eapply wp_get_adapter; [done|]. apply wp_bind, wp_world. intros Hok.
      apply wp_record; [by apply submit_unlock_spec|]. eapply wp_upd_request; [done|].
      eexists _, _, (ext ++ [_]). split; [unfold release_view, v_call, v_set_request; simpl;
        by rewrite app_assoc|]. apply Hround; [done|by apply submit_unlock_spec|by constructor|].
      intros a' k. rewrite app_assoc, ledger_snoc. cbn [l2_delta]. rewrite Hu.
      destruct (decide (a = a')); lia.
    + intros Hemp. eapply wp_upd_request; [done|]. eexists _, _, ext. split; [done|].
      rewrite <- (app_nil_r ext). apply Hround; [done|done|done|]. intros a' k. rewrite app_nil_r.
      rewrite <- Hu. destruct (gather _ _); [|done]. simpl. destruct (decide _); lia.
  - intros [] v' (held & w & ext & -> & [Hw Hext Hp Hsub _ _ Hhas Hl2]).
    exists held, w, ext. split_and!; [done..| |].
    + by apply held_ok_locks.
    + intros a i Hi. rewrite Hhas by done. by rewrite bool_decide_eq_false_2 by apply not_elem_of_nil.
Qed.
End release.

(** ** Loaded keys *)

Lemma load_step_ok N acc lb b :
  sized N acc → bm_wf lb → sized N b →
  let acc' := foldl set acc (gather lb (get_indices b)) in
  sized N acc' ∧ ∀ i, 0 <= i → test acc' i = true → test acc i = true ∨ test b i = true.
Proof.
  intros [Hw Hs] Hlb [Hb _] acc'.
  assert (Hin : ∀ x, x ∈ gather lb (get_indices b) → 0 <= x ∧ test b x = true).
  { intros x (i & Hi & _)%elem_of_gather; [|done]. apply list_elem_of_lookup_2 in Hi.
    by apply elem_of_get_indices in Hi. }
  destruct (batched_set_ok (gather lb (get_indices b)) acc Hw) as (Hw' & Hs' & Ht').
  { apply Forall_forall. intros x Hx. by apply Hin. }
  split; [by split; [|rewrite <- Hs]|]. intros i Hi. unfold acc'. fold (batched_set acc (gather lb (get_indices b))).
  rewrite Ht' by done. intros Ht. apply orb_true_iff in Ht as [Ht|Ht]; [by left|]. right.
  apply andb_true_iff in Ht as [Ht _]. apply bool_decide_eq_true in Ht. by apply Hin.
Qed.

Lemma loaded_bitmap_ok r :
  load_ok r → sized (nkeys r) (loaded_bitmap r) ∧
  ∀ i, 0 <= i → test (loaded_bitmap r) i = true → ∃ a, has (rq_load_plan r) a i = true.
Proof.
  intros [[Hwf Hf] _ _ Hres]. unfold loaded_bitmap. fold (nkeys r).
  assert (Hgen : ∀ p acc, (∀ a b, (a, b) ∈ p → (a, b) ∈ rq_load_plan r) → sized (nkeys r) acc →
    (∀ i, 0 <= i → test acc i = true → ∃ a, has (rq_load_plan r) a i = true) →
    let out := foldl (λ result_bitmap ap, match dget (rq_load_results r) (fst ap) with
       | None => result_bitmap
       | Some load_bitmap => foldl set result_bitmap (gather load_bitmap (get_indices (snd ap))) end) acc p in
    sized (nkeys r) out ∧ ∀ i, 0 <= i → test out i = true → ∃ a, has (rq_load_plan r) a i = true).
  { induction p as [|[a b] p IH]; intros acc Hin Hacc Hsub; [done|]. cbn [foldl fst snd].
    assert (Hab : (a, b) ∈ rq_load_plan r) by (apply Hin; left).
    assert (Hb : dget (rq_load_plan r) a = Some b) by (by apply dget_wf_elem_of).
    apply IH; [intros; apply Hin; by right|..]; destruct (dget (rq_load_results r) a) eqn:E; try done.
    - apply load_step_ok; [done|by eapply Hres|]. eapply plan_ok_sized; [by split|exact Hb].
    - intros i Hi Ht. destruct (load_step_ok (nkeys r) acc b0 b Hacc (Hres _ _ E)) as [_ Hst].
      { eapply plan_ok_sized; [by split|exact Hb]. }
      destruct (Hst i Hi Ht) as [?|?]; [by apply Hsub|]. exists a. unfold has. by rewrite Hb. }
  apply Hgen; [done|apply sized_bitmap; unfold nkeys; lia|]. intros i Hi. by rewrite test_bitmap.
Qed.

(** ** Finishing a request *)

(** the ledgers of a log: reads, writes and reported hits, no L2 lock left *)
Record balance (keys : list K) (l : list Call) (R Wr : K → Z) (h : Z) : Prop := {
  ba_reads : Forall conversion_ok l → ∀ k, ledger (read_delta k) l = R k;
  ba_writes : ∀ k, ledger (write_delta k) l = Wr k;
  ba_l2 : ∀ a k, ledger (l2_delta keys a k) l = 0;
  ba_hits : ledger hit_delta l = h;
  ba_done : ledger done_delta l = 0 }.

Lemma balance_call keys l c R Wr h R' Wr' h' :
  balance keys l R Wr h → (conversion_ok c → ∀ k, R' k = R k + read_delta k c) →
  (∀ k, Wr' k = Wr k + write_delta k c) → (∀ a k, l2_delta keys a k c = 0) →
  h' = h + hit_delta c → done_delta c = 0 → balance keys (l ++ [c]) R' Wr' h'.
Proof.
  intros [Hr Hw Hl Hh Hd] HR HW HL Hh' Hd'. constructor.
  - intros [Hc Hc1]%Forall_app k. apply Forall_cons in Hc1 as [Hc1 _]. rewrite ledger_snoc, Hr by done.
    symmetry. by apply HR.
  - intros k. by rewrite ledger_snoc, Hw.
  - intros a k. rewrite ledger_snoc, Hl, HL. done.
  - by rewrite ledger_snoc, Hh.
  - rewrite ledger_snoc, Hd, Hd'. done.
Qed.

(** a call that moves no lock *)
Lemma balance_silent keys l c R Wr h :
  balance keys l R Wr h → (∀ k, read_delta k c = 0) → (∀ k, write_delta k c = 0) →
  (∀ a k, l2_delta keys a k c = 0) → hit_delta c = 0 → done_delta c = 0 →
  balance keys (l ++ [c]) R Wr h.
Proof.
  intros Hb Hr Hw ? Hh ?. eapply balance_call; [done|..]; try done.
  - intros _ k. rewrite Hr. lia.
  - intros k. rewrite Hw. lia.
  - rewrite Hh. lia.
Qed.

Definition v_with (w : W) (r : Request) (l : list Call) (v : view) : view :=
  mkView w (Some r) l (v_live v) (v_counts v) (v_hit v) (v_result v).

Lemma v_call_with c w r v : v_request v = Some r → v_call c w v = v_with w r (v_log v ++ [c]) v.
Proof. intros Hr. unfold v_call, v_with. by rewrite Hr. Qed.
Lemma v_with_same r v : v_request v = Some r → v = v_with (v_world v) r (v_log v) v.
Proof. intros Hr. unfold v_with. rewrite <- Hr. by destruct v. Qed.

Definition lookup_only (m : PrefetchMode) (z : Z) : Z := match m with LOOKUP => z | WARM => 0 end.

(** loaded buffers become readable *)
Lemma finish_loaded_ok T rid r v loaded R Wr h :
  v_request v = Some r → balance (rq_keys r) (v_log v) R Wr h →
  wp T rid (when (nonempty loaded)
        (match rq_mode r with
         | WARM => finish_write_ rid loaded
         | LOOKUP => finish_write_and_reserve_read_ rid loaded (rq_num_kv_readers r)
         end)) v
    (λ _ v', ∃ w l, v' = v_with w r l v ∧ w_evolves (v_world v) w ∧
       balance (rq_keys r) l (λ k, R k + lookup_only (rq_mode r) (rq_num_kv_readers r * occ k loaded))
         (λ k, Wr k - occ k loaded) h).
Proof.
  intros Hr Hb. apply wp_when.
  - intros _. destruct (rq_mode r) eqn:Em.
    + apply wp_finish_write_and_reserve_read. intros ret w Hw. eexists w, _. split; [by apply v_call_with|].
      split; [done|]. eapply balance_call; [exact Hb|..]; simpl; try done; try (intros; lia).
      intros Hc k. destruct (decide (k ∈ loaded)); [by rewrite Hc|].
      rewrite occ_notin by done. destruct (granted ret k); lia.
    + apply wp_finish_write. intros w Hw. eexists w, _. split; [by apply v_call_with|]. split; [done|].
      eapply balance_call; [exact Hb|..]; simpl; try done; intros; lia.
  - intros Hn%nonempty_false. subst. exists (v_world v), (v_log v). split; [by apply v_with_same|].
    split; [done|]. destruct Hb. constructor; try done.
    + intros. rewrite ba_reads0 by done. simpl. destruct (rq_mode r); simpl; lia.
    + intros. rewrite ba_writes0. simpl. lia.
Qed.

(** the buffers of failed loads are dropped *)
Lemma finish_failed_ok T rid r v failed R Wr h :
  v_request v = Some r → balance (rq_keys r) (v_log v) R Wr h →
  wp T rid (when (nonempty failed) (_ ← finish_write_ rid failed; delete_ rid failed)) v
    (λ _ v', ∃ w l, v' = v_with w r l v ∧ w_evolves (v_world v) w ∧
       balance (rq_keys r) l R (λ k, Wr k - occ k failed) h).
Proof.
  intros Hr Hb. apply wp_when.
  - intros _. apply wp_bind, wp_finish_write. intros w Hw. apply wp_delete. simpl. intros w' Hw'.
    eexists w', _. split; [by rewrite (v_call_with _ w r v Hr)|]. split; [by etrans|].
    eapply balance_silent; [|done..]. eapply balance_call; [exact Hb|..]; simpl; try done; intros; lia.
  - intros Hn%nonempty_false. subst. exists (v_world v), (v_log v). split; [by apply v_with_same|].
    split; [done|]. destruct Hb. constructor; try done. intros. rewrite ba_writes0. simpl. lia.
Qed.

Definition drop_count (phase : PrefetchPhase) (c : StatusCounts) : StatusCounts :=
  match phase with
  | PhaseLookup => mkCounts (ct_in_flight c - 1) (ct_pending c) (ct_lookup_phase c - 1) (ct_load_phase c)
  | PhasePlanAndLoad =>
      mkCounts (ct_in_flight c - 1) (ct_pending c) (ct_lookup_phase c) (ct_load_phase c - 1)
  end.

Lemma wp_modify T rid f v' v (Q : unit → view → Prop) :
  (∀ s, view_of rid s = v → frame rid s (f s) ∧ view_of rid (f s) = v') → Q tt v' →
  wp T rid (modify f) v Q.
Proof. intros Hf HQ s Hv _ _. destruct (Hf s Hv) as [? <-]. by eexists tt, _. Qed.

Lemma wp_report T rid hit r v (Q : unit → view → Prop) :
  v_request v = Some r →
  Q tt (mkView (v_world v) (Some (rq_set_hit_reported r))
          (v_log v ++ [CPublish (L2_PREFETCH_LOOKUP_COMPLETED hit)]) (v_live v) (v_counts v)
          (Some hit) (v_result v)) →
  wp T rid (_report_lookup_hit rid hit) v Q.
Proof.
  intros Hr HQ. apply wp_bind. eapply wp_upd_request; [done|]. apply wp_bind.
  eapply (wp_modify _ _ _ (mkView (v_world v) (Some (rq_set_hit_reported r)) (v_log v) (v_live v)
    (v_counts v) (Some hit) (v_result v))); [|by apply wp_publish].
  intros s [= Hw Hq Hl Hi Hc Hh Hs]. split.
  - constructor; simpl; try done. intros i Hne. by apply dget_dset_ne.
  - unfold view_of, log_of; simpl. rewrite dget_dset_eq. unfold log_of in Hl. congruence.
Qed.

Lemma wp_complete T rid bm r v (Q : unit → view → Prop) :
  v_request v = Some r →
  Q tt (mkView (v_world v) (Some r) (v_log v ++ [CCompleted bm]) false
          (if v_live v then drop_count (rq_phase r) (v_counts v) else v_counts v) (v_hit v) (Some bm)) →
  wp T rid (_complete_request rid bm) v Q.
Proof.
  intros Hr HQ. apply wp_bind.
  eapply (wp_modify _ _ _ (mkView (v_world v) (Some r) (v_log v) (v_live v)
    (v_counts v) (v_hit v) (Some bm))).
  { intros s <-. split.
    - constructor; simpl; try done. intros i Hne. by apply dget_dset_ne.
    - unfold view_of, log_of in *; simpl in *. rewrite dget_dset_eq. congruence. }
  apply wp_bind, wp_world. intros _. apply wp_bind, wp_record; [done|].
  apply wp_bind. intros s Hv HT Hok. eexists _, s. split_and!; [done|apply frame_refl|]. rewrite Hv.
  assert (Hlive : bool_decide (rid ∈ pc_in_flight s) = v_live v) by (by injection Hv).
  rewrite Hlive. clear s Hv HT Hok Hlive. destruct (v_live v) eqn:El; [|apply wp_ret; exact HQ].
  apply wp_bind. eapply wp_get_request; [done|]. eapply wp_modify; [|exact HQ].
  intros s [= Hw Hq Hl Hi Hc Hh Hs]. split.
  - constructor; simpl; try done.
    + rewrite list_filter_filter. apply list_filter_iff. naive_solver.
    + apply NoDup_filter.
  - unfold view_of, log_of; simpl. unfold log_of in Hl.
    rewrite bool_decide_eq_false_2 by (rewrite list_elem_of_filter; naive_solver).
    rewrite <- Hc. destruct (rq_phase r); simpl; congruence.
Qed.

Lemma cnt_popcount (k : K) N b keys :
  sized N b → (0 <? popcount b) = false → cnt k (bits_of b) keys = 0.
Proof.
  intros [Hw Hs] Hp. assert (Hz : (popcount b =? 0) = true).
  { apply Z.ltb_ge in Hp. pose proof (popcount_ok b Hw). apply Z.eqb_eq. lia. }
  apply cnt_none. intros i _. apply (proj1 (popcount_zero b Hw) Hz). lia.
Qed.

(** what is left after giving back everything outside a subset *)
Lemma cnt_release (k : K) N b m keys :
  N = Z.of_nat (length keys) → sized N b → sized N m →
  (∀ i, 0 <= i → test m i = true → test b i = true) →
  cnt k (bits_of b) keys - cnt k (bits_of (band b (bnot m))) keys = cnt k (bits_of m) keys.
Proof.
  intros HN Hb Hm Hsub. rewrite (cnt_split k (bits_of b) (bits_of m)).
  rewrite (cnt_ext k (λ i, bits_of b i && negb (bits_of m i)) (bits_of (band b (bnot m)))).
  - rewrite (cnt_ext k (λ i, bits_of b i && bits_of m i) (bits_of m)); [lia|].
    intros i Hi. unfold bits_of. destruct (test m (Z.of_nat i)) eqn:E; [|by rewrite andb_false_r].
    by rewrite Hsub by (done || lia).
  - intros i Hi. unfold bits_of. rewrite (test_band N) by (lia || solve_sized).
    by rewrite (test_bnot N) by (done || lia).
Qed.

Section finish_reads.
Context T (rid : Z) (v : view) (r : Request) (result retained : Bitmap) (Wr : K → Z) (h : Z).
Context (Hr : v_request v = Some r) (Hl1 : sized (nkeys r) (rq_l1_readlocks r)).
Context (Hres : sized (nkeys r) result) (Hret : sized (nkeys r) retained).
Context (Hsub : ∀ i, 0 <= i → test retained i = true → test result i = true).
Context (Hb : balance (rq_keys r) (v_log v)
  (λ k, match rq_mode r with
        | LOOKUP => rq_num_kv_readers r * cnt k (bits_of result) (rq_keys r)
        | WARM => rq_num_kv_readers r * cnt k (bits_of (rq_l1_readlocks r)) (rq_keys r) end) Wr h).

Lemma finish_reads_ok :
  wp T rid
    (match rq_mode r with
     | WARM =>
         when (0 <? popcount (rq_l1_readlocks r))
           (_ ← finish_read_ rid (gather (rq_l1_readlocks r) (rq_keys r)) (rq_num_kv_readers r);
            upd_request rid (rq_set_l1_readlocks (bitmap (nkeys r))))
     | LOOKUP =>
         when (nonempty (gather (band result (bnot retained)) (rq_keys r)))
           (finish_read_ rid (gather (band result (bnot retained)) (rq_keys r)) (rq_num_kv_readers r))
     end) v
    (λ _ v', ∃ w r' l, v' = v_with w r' l v ∧ w_evolves (v_world v) w ∧
       spec_of r' = spec_of r ∧ rq_phase r' = rq_phase r ∧ rq_hit_reported r' = rq_hit_reported r ∧
       balance (rq_keys r) l
         (λ k, lookup_only (rq_mode r) (rq_num_kv_readers r * cnt k (bits_of retained) (rq_keys r))) Wr h).
Proof.
  destruct (rq_mode r) eqn:Em; simpl; apply wp_when.
  - intros _. apply wp_finish_read. intros w Hw. eexists w, r, _. split; [by apply v_call_with|].
    split_and!; [done..|]. eapply balance_call; [exact Hb|..]; simpl; try done; try (intros; lia).
    intros _ k. rewrite occ_gather by solve_sized.
    rewrite <- (cnt_release k (nkeys r) result retained) by done. lia.
  - intros Hn%nonempty_false. exists (v_world v), r, (v_log v). split; [by apply v_with_same|].
    split_and!; [done..|]. destruct Hb. constructor; try done. intros Hc k. rewrite ba_reads0 by done.
    rewrite <- (cnt_release k (nkeys r) result retained) by done.
    rewrite <- (occ_gather k (band _ _)) by solve_sized.
    rewrite Hn. simpl. lia.
  - intros _. apply wp_bind, wp_finish_read. intros w Hw. eapply wp_upd_request; [done|].
    eexists w, _, _. split; [done|]. split_and!; [done..|].
    eapply balance_call; [exact Hb|..]; simpl; try done; try (intros; lia).
    intros _ k. rewrite occ_gather by done. lia.
  - intros Hn. exists (v_world v), r, (v_log v). split; [by apply v_with_same|].
    split_and!; [done..|]. destruct Hb. constructor; try done. intros Hc k. rewrite ba_reads0 by done.
    rewrite (cnt_popcount k (nkeys r)) by done. lia.
Qed.
End finish_reads.

(** a completed view: not in flight any more, the outcome is right *)
Definition completed_view r v v' : Prop :=
  ∃ w r' l hit bm,
    v' = mkView w (Some r') l false
           (if v_live v then drop_count (rq_phase r) (v_counts v) else v_counts v) hit (Some bm) ∧
    spec_of r' = spec_of r ∧ completed_ok (spec_of r) l bm.

Lemma trim_spec (sp : PrefetchRequestSpec K Layout) found :
  spec_ok sp → sized (Z.of_nat (length (sp_keys sp))) found →
  ∃ hit retained,
    build_trim_mask true found (Z.of_nat (length (sp_keys sp))) (sp_policy sp) (sp_attn_desc sp)
    = Ok (hit, retained) ∧
    sized (Z.of_nat (length (sp_keys sp))) retained ∧ 0 <= hit ∧
    (∀ i, 0 <= i → test retained i = true → test found i = true).
Proof.
  intros [(n & Hlay & HN) _ _] Hf. destruct (sp_attn_desc sp) as [ws R kinds]. simpl in *.
  destruct (trim_mask_ok _ n R ws found (sp_policy sp) kinds Hlay HN Hf) as (hit & ret & ? & ? & ? & ? & _).
  by exists hit, ret.
Qed.

(** the last steps, once all locks are settled *)
Lemma finish_tail_ok T rid r v retained hit (retained_keys : list K) :
  v_request v = Some r → sized (nkeys r) retained →
  balance (rq_keys r) (v_log v)
    (λ k, lookup_only (rq_mode r) (rq_num_kv_readers r * cnt k (bits_of retained) (rq_keys r)))
    (λ _, 0) (if rq_hit_reported r then 1 else 0) →
  wp T rid
    (_ ← when (nonempty retained_keys) (touch_keys_ rid retained_keys);
     _ ← when (negb (rq_hit_reported r)) (_report_lookup_hit rid hit);
     _complete_request rid retained) v
    (λ _, completed_view r v).
Proof.
  intros Hr Hs Hb. apply wp_bind.
  eapply (wp_mono _ _ _ _ (λ _ v', ∃ w l, v' = v_with w r l v ∧
    balance (rq_keys r) l
    (λ k, lookup_only (rq_mode r) (rq_num_kv_readers r * cnt k (bits_of retained) (rq_keys r)))
    (λ _, 0) (if rq_hit_reported r then 1 else 0))).
  { apply wp_when.
    - intros _. apply wp_touch. intros w _. eexists w, _. split; [by apply v_call_with|].
      by apply balance_silent.
    - intros _. eexists _, _. split; [by apply v_with_same|done]. }
  intros [] ? (w & l & -> & Hb1). apply wp_bind.
  eapply (wp_mono _ _ _ _ (λ _ v', ∃ w r' l hit, v' = mkView w (Some r') l (v_live v) (v_counts v) hit (v_result v) ∧
    spec_of r' = spec_of r ∧ rq_phase r' = rq_phase r ∧
    balance (rq_keys r) l
    (λ k, lookup_only (rq_mode r) (rq_num_kv_readers r * cnt k (bits_of retained) (rq_keys r)))
    (λ _, 0) 1)).
  { apply wp_when; intros Hh; destruct (rq_hit_reported r); try done.
    - eapply wp_report; [done|]. eexists _, _, _, _. split; [done|]. split_and!; [done..|]. simpl.
      eapply balance_call; [exact Hb1|..]; simpl; try done; intros; lia.
    - eexists _, _, _, _. split; [done|]. by split_and!. }
  intros [] ? (w2 & r' & l2 & hit' & -> & Hsp & Hph & Hb2). eapply wp_complete; [done|]. simpl.
  exists w2, r', (l2 ++ [CCompleted retained]), hit', retained. split; [by rewrite Hph|]. split; [done|].
  destruct Hb2 as [HR HW HL HH HD]. constructor; simpl.
  - split; [done|]. apply elem_of_app. right. by apply list_elem_of_singleton.
  - rewrite !ledger_snoc, HD, HH. done.
  - intros [Hc _]%Forall_app k. rewrite ledger_snoc, HR by done. simpl. destruct (rq_mode r); simpl; lia.
  - intros a k. rewrite ledger_snoc, HL. done.
  - intros k. rewrite ledger_snoc, HW. done.
Qed.

Lemma held_ok_balance r l :
  held_ok r l → (∀ a i, 0 <= i → has (rq_l2_adapter2readlocks r) a i = false) →
  balance (rq_keys r) l
    (λ k, rq_num_kv_readers r * cnt k (bits_of (rq_l1_readlocks r)) (rq_keys r))
    (λ k, occ k (rq_write_reserved_keys r)) (if rq_hit_reported r then 1 else 0).
Proof.
  intros Hh Hno. constructor; try by apply Hh. intros a k. rewrite (ho_l2 _ _ Hh). apply cnt_none.
  intros i _. apply Hno. lia.
Qed.

Lemma loaded_reserved r k :
  load_ok r → k ∈ gather (loaded_bitmap r) (rq_keys r) → k ∈ rq_write_reserved_keys r.
Proof.
  intros Hl (i & Hi & Ht)%elem_of_gather; [|by apply loaded_bitmap_ok].
  apply loaded_bitmap_ok in Ht as (a & Ha); [|done|lia]. by eapply lo_reserved.
Qed.

(** loaded keys and keys locked in L1 are counted once each *)
Lemma cnt_result k r :
  load_ok r → sized (nkeys r) (rq_l1_readlocks r) →
  cnt k (bits_of (bor (loaded_bitmap r) (rq_l1_readlocks r))) (rq_keys r)
  = cnt k (bits_of (rq_l1_readlocks r)) (rq_keys r) + cnt k (bits_of (loaded_bitmap r)) (rq_keys r).
Proof.
  intros Hl Hl1. destruct (loaded_bitmap_ok r Hl) as [Hs Ht].
  rewrite (cnt_ext k _ (λ i, bits_of (rq_l1_readlocks r) i || bits_of (loaded_bitmap r) i)).
  - apply cnt_or. intros i _ H1 H2. apply Ht in H2 as (a & Ha); [|lia].
    apply (lo_disjoint _ Hl) in Ha; [|lia]. unfold bits_of in H1. congruence.
  - intros i _. unfold bits_of. rewrite (test_bor (nkeys r)) by (done || lia). apply orb_comm.
Qed.

Section finish.
Context T (rid : Z) (v : view) (r : Request).
Context (Hr : v_request v = Some r) (Hheld : held_ok r (v_log v)) (Hload : load_ok r).
Context (Hadapters : ∀ a, is_Some (dget (rq_lookup_results r) a) →
                          is_Some (dget (at_l2_adapters T) a)).
Let loaded := gather (loaded_bitmap r) (rq_keys r).
Let failed := filter (.∉ loaded) (rq_write_reserved_keys r).

(** the write buffers are settled *)
Lemma finish_buffers_ok held w ext (rest : ctl unit) Q :
  held_ok (rq_set_l2_locks held r) (v_log v ++ ext) → (∀ a i, 0 <= i → has held a i = false) →
  (∀ w l,
     balance (rq_keys r) l
       (λ k, match rq_mode r with
             | LOOKUP => rq_num_kv_readers r
                 * cnt k (bits_of (bor (loaded_bitmap r) (rq_l1_readlocks r))) (rq_keys r)
             | WARM => rq_num_kv_readers r * cnt k (bits_of (rq_l1_readlocks r)) (rq_keys r) end)
       (λ _, 0) (if rq_hit_reported r then 1 else 0) →
     wp T rid rest (v_with w (rq_set_l2_locks held r) l v) Q) →
  wp T rid
    (_ ← when (nonempty loaded)
          (match rq_mode r with
           | WARM => finish_write_ rid loaded
           | LOOKUP => finish_write_and_reserve_read_ rid loaded (rq_num_kv_readers r)
           end);
     _ ← when (nonempty failed) (_ ← finish_write_ rid failed; delete_ rid failed);
     _ ← publish rid (L2_PREFETCH_LOAD_COMPLETED loaded (length failed));
     _ ← when (nonempty failed) (publish rid (L2_PREFETCH_FAILED not_found failed));
     rest)
    (release_view v r held w ext) Q.
Proof.
  intros Hh Hno Hrest. pose proof (held_ok_balance _ _ Hh Hno) as Hb. simpl in Hb.
  set (r1 := rq_set_l2_locks held r) in *. apply wp_bind.
  eapply wp_mono; [exact (finish_loaded_ok T rid r1 (release_view v r held w ext) loaded _ _ _ eq_refl Hb)|].
  intros [] ? (w1 & l1 & -> & Hw1 & Hb1). simpl in Hb1. apply wp_bind.
  eapply wp_mono; [exact (finish_failed_ok T rid r1 (v_with w1 r1 l1 (release_view v r held w ext)) failed _ _ _ eq_refl Hb1)|].
  intros [] ? (w2 & l2 & -> & Hw2 & Hb2). simpl in Hb2. apply wp_bind, wp_publish.
  assert (Hb3 : balance (rq_keys r) l2
         (λ k, match rq_mode r with
               | LOOKUP => rq_num_kv_readers r
                   * cnt k (bits_of (bor (loaded_bitmap r) (rq_l1_readlocks r))) (rq_keys r)
               | WARM => rq_num_kv_readers r * cnt k (bits_of (rq_l1_readlocks r)) (rq_keys r) end)
         (λ _, 0) (if rq_hit_reported r then 1 else 0)).
  { destruct Hb2 as [HR HW HL HH HD]. constructor; try done.
    - intros Hc k. rewrite HR by done. destruct (rq_mode r); simpl; [|lia]. unfold loaded.
      rewrite cnt_result by (done || exact (ho_l1 _ _ Hheld)).
      rewrite occ_gather by (by apply loaded_bitmap_ok). lia.
    - intros k. rewrite HW. unfold failed.
      rewrite <- (occ_partition k (rq_write_reserved_keys r) loaded); [lia|apply Hheld| |].
      + apply NoDup_gather; [by apply loaded_bitmap_ok|]. apply (so_keys _ (ho_spec _ _ Hheld)).
      + intros x. by apply loaded_reserved. }
  assert (Hb4 := balance_silent _ _ (CPublish (L2_PREFETCH_LOAD_COMPLETED loaded (length failed))) _ _ _ Hb3
    (λ _, eq_refl) (λ _, eq_refl) (λ _ _, eq_refl) eq_refl eq_refl).
  apply wp_bind, wp_when.
  - intros _. apply wp_publish. apply Hrest. by apply balance_silent.
  - intros _. by apply Hrest.
Qed.

Lemma finish_ok : wp T rid (_finish_request true rid) v (λ _, completed_view r v).
Proof.
  apply wp_bind. eapply wp_get_request; [done|]. apply wp_bind.
  eapply wp_mono; [apply (release_ok T rid [] v r); [done| |done..]|].
  { split; [constructor|constructor]. }
  intros [] ? (held & w & ext & -> & Hw & Hext & Hh & Hno).
  assert (Hno' : ∀ a i, 0 <= i → has held a i = false).
  { intros a i Hi. rewrite Hno by done. unfold has at 2. simpl. apply andb_false_r. }
  apply finish_buffers_ok; [done..|]. clear w Hw ext Hext Hh Hno. intros w l Hb. fold (nkeys r).
  destruct (loaded_bitmap_ok r Hload) as [Hlb _]. pose proof (ho_l1 _ _ Hheld) as Hl1.
  assert (Hres : sized (nkeys r) (bor (loaded_bitmap r) (rq_l1_readlocks r))) by (by apply sized_bor).
  destruct (trim_spec (spec_of r) _ (ho_spec _ _ Hheld) Hres) as (hit & retained & E & Hret & _ & Hsub).
  apply wp_bind. eapply wp_lift; [exact E|]. apply wp_bind.
  set (r1 := rq_set_l2_locks held r) in *. set (v1 := v_with w r1 l v).
  eapply wp_mono.
  { exact (finish_reads_ok T rid v1 r1 (bor (loaded_bitmap r) (rq_l1_readlocks r)) retained _ _
      eq_refl Hl1 Hres Hret Hsub Hb). }
  intros [] ? (w2 & r2 & l2 & -> & _ & Hsp & Hph & Hhit & Hb2).
  assert (Hsp' : spec_of r2 = spec_of r) by (by rewrite Hsp). clear Hsp.
  pose proof Hsp' as [= Hk Hg Hn Hp Ha Hm].
  cbv zeta. change (negb (rq_hit_reported r)) with (negb (rq_hit_reported r1)). rewrite <- Hhit.
  eapply wp_mono; [apply (finish_tail_ok T rid r2 (v_with w2 r2 l2 v1)); [done|..]|].
  - unfold nkeys. by rewrite Hk.
  - rewrite Hk, Hm, Hn, Hhit. exact Hb2.
  - intros [] v' (w3 & r3 & l3 & hit3 & bm & -> & Hs3 & Hc3).
    exists w3, r3, l3, hit3, bm. rewrite Hs3, Hph. by rewrite Hsp' in *.
Qed.
End finish.

(** ** The state of a request *)

(** the request has load state of the adapter [a] *)
Definition loading_from (a : Z) r : Prop :=
  is_Some (dget (rq_pending_load_tasks r) a) ∨ is_Some (dget (rq_load_bytes_by_adapter r) a)
  ∨ is_Some (dget (rq_load_results r) a).

Record live_ok T (v : view) r : Prop := {
  lv_request : v_request v = Some r;
  lv_live : v_live v = true;
  lv_result : v_result v = None;
  lv_held : held_ok r (v_log v);
  lv_load : load_ok r;
  lv_results : ∀ a, is_Some (dget (rq_lookup_results r) a) → is_Some (dget (at_l2_adapters T) a);
  lv_lookups : ∀ a t, dget (rq_pending_lookup_tasks r) a = Some t →
    dget (rq_lookup_results r) a = None ∧
    ∃ ad, dget (at_l2_adapters T) a = Some ad ∧ w_lookup_task (v_world v) ad t (length (rq_keys r));
  lv_loads : ∀ a t, dget (rq_pending_load_tasks r) a = Some t →
    is_Some (dget (at_descriptors T) a) ∧
    ∃ ad n, dget (at_l2_adapters T) a = Some ad ∧ w_load_task (v_world v) ad t n;
  lv_plan : ∀ a, is_Some (dget (rq_load_plan r) a) → is_Some (dget (at_l2_adapters T) a);
  lv_planned : ∀ a, loading_from a r → is_Some (dget (rq_load_plan r) a);
  lv_used : ∃ a, is_Some (dget (rq_pending_lookup_tasks r) a) ∨ is_Some (dget (rq_lookup_results r) a);
  lv_pending : dwf (rq_pending_lookup_tasks r) ∧ dwf (rq_pending_load_tasks r);
  lv_phase : match rq_phase r with
    | PhaseLookup => rq_load_plan r = [] ∧ rq_pending_load_tasks r = [] ∧ rq_load_results r = [] ∧
                     rq_write_reserved_keys r = [] ∧ rq_hit_reported r = false
    | PhasePlanAndLoad => rq_pending_lookup_tasks r = []
    end }.

Record done_ok (sp : PrefetchRequestSpec K Layout) (v : view) : Prop := {
  dn_live : v_live v = false;
  dn_request : ∃ r, v_request v = Some r ∧ spec_of r = sp;
  dn_outcome : ∃ bm, completed_ok sp (v_log v) bm ∧ (v_result v = None ∨ v_result v = Some bm) }.

(** the counters without this request's share *)
Definition base (v : view) : StatusCounts :=
  match v_live v, v_request v with
  | true, Some r => drop_count (rq_phase r) (v_counts v)
  | _, _ => v_counts v
  end.

Definition settled T sp (v v' : view) : Prop :=
  base v' = base v ∧ ((∃ r, live_ok T v' r ∧ spec_of r = sp) ∨ (done_ok sp v' ∧ is_Some (v_result v'))).

Lemma completed_settled T r v v' :
  v_request v = Some r → completed_view r v v' → settled T (spec_of r) v v'.
Proof.
  intros Hr (w & r' & l & hit & bm & -> & Hs & Hc). split.
  - unfold base at 2. rewrite Hr. by destruct (v_live v).
  - right. split; [|by eexists]. constructor; simpl; [done|by exists r'|exists bm; auto].
Qed.

(** no longer looking up *)
Definition past_lookup (v : view) : Prop :=
  ∀ r, v_live v = true → v_request v = Some r → rq_phase r = PhasePlanAndLoad.

Lemma completed_past r v v' : completed_view r v v' → past_lookup v'.
Proof. by intros (w & r' & l & hit & bm & -> & _) ?. Qed.

(** ** Starting a request *)

Lemma locked_bitmap_ok (ret : list (K * (L1Error * option Obj))) N keys : ∀ i b,
  (∀ k, k ∈ keys → is_Some (dget ret k)) → sized N b → 0 <= i →
  i + Z.of_nat (length keys) <= N → (∀ j, i <= j → test b j = false) →
  ∃ b', locked_bitmap ret i keys b = Ok b' ∧ sized N b' ∧
    (∀ j, 0 <= j < i → test b' j = test b j) ∧
    (∀ j k, keys !! j = Some k → test b' (i + Z.of_nat j) = granted ret k).
Proof.
  induction keys as [|k keys IH]; intros i b Hret Hb Hi Hlen Hclear.
  - exists b. split_and!; try done. 
  - cbn [locked_bitmap]. destruct (Hret k) as [[err o] Herr]; [left|]. rewrite Herr. simpl in Hlen.
    destruct Hb as [Hw Hs]. destruct (set_ok b i Hw Hi) as (Hw' & Hs' & Ht').
    set (b1 := if decide (err = SUCCESS) then set b i else b).
    assert (Hb1 : sized N b1) by (unfold b1; case_decide; split; congruence).
    assert (Ht1 : ∀ j, 0 <= j → test b1 j = if decide (j = i) then granted ret k else test b j).
    { intros j Hj. unfold granted. rewrite Herr. unfold b1. destruct (decide (err = SUCCESS)) as [->|Hne].
      - rewrite Ht' by done. destruct (decide (j = i)) as [->|].
        + rewrite Z.eqb_refl, (proj2 (Z.ltb_lt _ _)) by lia. by rewrite orb_true_r.
        + rewrite (proj2 (Z.eqb_neq _ _)) by done. by rewrite orb_false_r.
      - destruct (decide (j = i)) as [->|]; [|done]. rewrite Hclear by lia. by destruct err. }
    destruct (IH (i + 1) b1) as (b' & E & Hs2 & Hlow & Hhigh); [by intros; apply Hret; right|done|lia|lia| |].
    { intros j Hj. rewrite Ht1 by lia. rewrite decide_False by lia. apply Hclear. lia. }
    exists b'. split_and!; [done..| |].
    + intros j Hj. rewrite Hlow by lia. rewrite Ht1 by lia. by rewrite decide_False by lia.
    + intros [|j] k' Hk'; simpl in Hk'.
      * injection Hk' as ->. rewrite Z.add_0_r, Hlow by lia. rewrite Ht1 by lia. by rewrite decide_True.
      * rewrite <- (Hhigh j k' Hk'). f_equal. lia.
Qed.

Lemma lock_l1_ok T rid (sp : PrefetchRequestSpec K Layout) v :
  spec_ok sp → v_log v = [] →
  wp T rid (_lock_l1_keys true rid (sp_keys sp) (sp_num_kv_readers sp) (sp_policy sp) (sp_attn_desc sp)) v
    (λ b v', ∃ w l,
       v' = mkView w (v_request v) l (v_live v) (v_counts v) (v_hit v) (v_result v) ∧
       sized (Z.of_nat (length (sp_keys sp))) b ∧
       balance (sp_keys sp) l (λ k, sp_num_kv_readers sp * cnt k (bits_of b) (sp_keys sp)) (λ _, 0) 0).
Proof.
  intros Hsp Hlog. set (keys := sp_keys sp). set (N := Z.of_nat (length keys)). set (n := sp_num_kv_readers sp).
  apply wp_bind, wp_reserve_read. intros ret w Hw Hcover.
  destruct (locked_bitmap_ok ret N keys 0 (bitmap N)) as (b & E & Hb & _ & Ht);
    [done|apply sized_bitmap; lia|lia|lia|intros; apply test_bitmap|].
  apply wp_bind. eapply wp_lift; [exact E|].
  assert (Hbal : balance keys (v_log v ++ [CReserveRead keys n ret])
            (λ k, n * cnt k (bits_of b) keys) (λ _, 0) 0).
  { rewrite Hlog. eapply (balance_call keys [] _ (λ _, 0) (λ _, 0) 0); try done.
    intros _ k. cbn [read_delta]. rewrite (cnt_reply k (granted ret)).
    - destruct (granted ret k); lia.
    - intros i x Hi. unfold bits_of. by rewrite <- (Ht i x Hi). }
  destruct (sp_policy sp) eqn:Hpol; try (apply wp_ret; by eexists w, _).
  destruct (trim_spec sp b Hsp Hb) as (hit & window & Etrim & Hwin & Hhit & _). rewrite Hpol in Etrim.
  apply wp_bind. eapply wp_lift; [exact Etrim|].
  assert (Hst : 0 <= stride_of (sp_attn_desc sp)).
  { destruct (so_grid _ Hsp) as (m & Hlay & _). pose proof (lo_ranks _ _ _ Hlay).
    unfold stride_of, num_object_groups. nia. }
  destruct (bitmap_prefix_ok N (hit * stride_of (sp_attn_desc sp))) as (? & ? & _); [lia|nia|].
  cbv zeta. fold keys N. set (evictable := band (band b (bnot window)) _).
  assert (Hev : sized N evictable) by (unfold evictable; solve_sized).
  destruct (0 <? popcount evictable); [|apply wp_ret; by eexists w, _].
  apply wp_bind, wp_finish_read. intros w' Hw'. apply wp_ret. eexists w', _. split; [done|].
  split; [solve_sized|].
  eapply balance_call; [exact Hbal|..]; simpl; try done; try (intros; lia).
  intros _ k. rewrite occ_gather by done. rewrite (cnt_split k (bits_of b) (bits_of evictable)).
  rewrite (cnt_ext k (λ i, bits_of b i && bits_of evictable i) (bits_of evictable)).
  - rewrite (cnt_ext k (λ i, bits_of b i && negb (bits_of evictable i)) (bits_of (band b (bnot evictable)))); [lia|].
    intros i Hi. unfold bits_of. rewrite (test_band N) by (lia || solve_sized).
    by rewrite (test_bnot N) by (done || lia).
  - intros i Hi. unfold bits_of, evictable.
    rewrite !(test_band N) by (lia || solve_sized).
    by destruct (test b _).
Qed.

(** the adapter tables agree with each other *)
Record tables_ok T : Prop := {
  tb_adapters : dwf (at_l2_adapters T);
  tb_descriptors : dwf (at_descriptors T);
  tb_same : ∀ a, is_Some (dget (at_l2_adapters T) a) ↔ is_Some (dget (at_descriptors T) a);
  tb_index : ∀ a d, dget (at_descriptors T) a = Some d → ad_index d = a;
  tb_draining_wf : dwf (at_draining T);
  tb_draining : ∀ a, is_Some (dget (at_draining T) a) → is_Some (dget (at_l2_adapters T) a) }.

(** a request as [_start_lookup_phase] creates it, with lookups submitted *)
Definition new_request rid (sp : PrefetchRequestSpec K Layout) (b : Bitmap)
    (pending : list (Z * TaskId)) : Request :=
  mkRequest rid (sp_keys sp) PhaseLookup (sp_num_kv_readers sp) (sp_policy sp) (sp_attn_desc sp)
    (sp_mode sp) pending [] [] false [] [] [] [] [] [] b (sp_group_layout_descs sp).

Lemma plan_ok_nil N : plan_ok N [].
Proof. split; constructor. Qed.

Lemma new_request_held rid sp b pending l :
  spec_ok sp → sized (Z.of_nat (length (sp_keys sp))) b →
  balance (sp_keys sp) l (λ k, sp_num_kv_readers sp * cnt k (bits_of b) (sp_keys sp)) (λ _, 0) 0 →
  held_ok (new_request rid sp b pending) l.
Proof.
  intros Hsp Hb [HR HW HL HH HD].
  constructor; simpl; try done; try apply plan_ok_nil; [by destruct sp|..|by constructor].
  - intros a k. rewrite HL. symmetry. by apply cnt_none.
Qed.

Lemma new_request_load rid sp b pending : load_ok (new_request rid sp b pending).
Proof. constructor; simpl; try done. apply plan_ok_nil. Qed.

Section start.
Context T (rid : Z) (sp : PrefetchRequestSpec K Layout) (v : view) (b : Bitmap).
Context (HT : tables_ok T) (Hsp : spec_ok sp) (Hb : sized (Z.of_nat (length (sp_keys sp))) b).
Context (Hnew : v_live v = false).

Definition started_view w pending l : view :=
  mkView w (Some (new_request rid sp b pending)) l (v_live v) (v_counts v) (v_hit v) (v_result v).

Record started w pending (l : list Call) : Prop := {
  sd_balance : balance (sp_keys sp) l (λ k, sp_num_kv_readers sp * cnt k (bits_of b) (sp_keys sp)) (λ _, 0) 0;
  sd_pending : dwf pending;
  sd_tasks : ∀ a t, dget pending a = Some t →
    ∃ ad, dget (at_l2_adapters T) a = Some ad ∧ w_lookup_task w ad t (length (sp_keys sp)) }.

Lemma submit_lookups_ok routing w l :
  (∀ a ad, (a, ad) ∈ routing → dget (at_l2_adapters T) a = Some ad) → started w [] l → routing ≠ [] →
  wp T rid
    (for_each (λ ia : Z * Ad,
       let '(adapter_id, adapter) := ia in
       w ← gets pc_world;
       let '(task_id, w) :=
         submit_lookup_and_lock_task w adapter (sp_keys sp) (sp_group_layout_descs sp) in
       _ ← record rid (CSubmitLookup adapter_id (sp_keys sp) task_id) w;
       upd_request rid (λ r,
         rq_set_lookups (dset (rq_pending_lookup_tasks r) adapter_id task_id)
           (rq_lookup_results r) r)) routing)
    (started_view w [] l)
    (λ _ v', ∃ w pending l, v' = started_view w pending l ∧ started w pending l ∧
       ∃ a, is_Some (dget pending a)).
Proof.
  intros Hin Hst Hne.
  eapply wp_mono; [apply (wp_for_each _ _ _ (λ rest v', (∀ a ad, (a, ad) ∈ rest → dget (at_l2_adapters T) a = Some ad) ∧
    ∃ w pending l, v' = started_view w pending l ∧ started w pending l ∧
      (rest = [] → ∃ a, is_Some (dget pending a))))|].
  - clear Hst Hin Hne w l. intros [a ad] rest ? (Hin & w & pending & l & -> & [Hbal Hwf Htask] & _).
    apply wp_bind, wp_world. intros Hok. simpl in Hok.
    pose proof (submit_lookup_spec w ad (sp_keys sp) (sp_group_layout_descs sp) Hok) as Hs. simpl.
    destruct (submit_lookup_and_lock_task w ad _ _) as [t w']. destruct Hs as [Hw Ht].
    apply wp_bind, wp_record; [done|]. eapply wp_upd_request; [done|]. simpl.
    split; [intros; apply Hin; by right|]. eexists w', (dset pending a t), _. split; [done|].
    split; [|intros _; exists a; rewrite dget_dset_eq; by eexists]. constructor.
    + by apply balance_silent.
    + by apply dset_wf.
    + intros a' t'. rewrite dget_dset. case_decide; subst.
      * intros [= <-]. exists ad. split; [apply Hin; left|done].
      * intros Hg. destruct (Htask _ _ Hg) as (ad' & ? & ?). exists ad'. split; [done|].
        by eapply w_lookup_task_evolves.
  - split; [done|]. eexists _, _, _. split_and!; [done..|by intros ->].
  - intros [] v' (_ & w' & pending & l' & ? & ? & Hu). exists w', pending, l'. auto.
Qed.

Lemma started_live w pending l counts : v_result v = None → started w pending l → (∃ a, is_Some (dget pending a)) →
  live_ok T (mkView w (Some (new_request rid sp b pending)) l true counts (v_hit v) (v_result v))
    (new_request rid sp b pending).
Proof.
  intros Hres [Hbal Hwf Htask] [a0 Hu]. constructor; simpl; try done.
  - by apply new_request_held.
  - apply new_request_load.
  - intros a t Hg. split; [done|]. by apply Htask.
  - by intros a [[? ?]|[[? ?]|[? ?]]].
  - exists a0. by left.
  - split; [done|constructor].
Qed.
End start.

Lemma start_lookup_ok T rid sp v :
  tables_ok T → spec_ok sp → v_log v = [] → v_live v = false → v_result v = None →
  wp T rid (_start_lookup_phase true rid sp) v (λ _ v', settled T sp v v').
Proof.
  intros HT Hsp Hlog Hlive Hres. apply wp_bind. eapply wp_mono; [by apply lock_l1_ok|].
  intros b ? (w & l & -> & Hb & Hbal). apply wp_bind.
  eapply (wp_modify _ _ _ (started_view rid sp v b w [] l)).
  { intros s [= Hw Hq Hl Hi Hc Hh Hs]. split.
    - constructor; simpl; try done. intros i Hne. by apply dget_dset_ne.
    - unfold view_of, log_of, started_view in *; simpl. rewrite dget_dset_eq. by f_equal. }
  apply wp_bind, wp_tables.
  assert (Hbase : ∀ w r l hit res, base (mkView w (Some r) l false (v_counts v) hit res) = base v).
  { intros. unfold base at 2. by rewrite Hlive. }
  destruct (List.filter _ (at_l2_adapters T)) as [|ad0 routing] eqn:Ero.
  - eapply wp_mono; [apply (finish_ok T rid _ (new_request rid sp b []))|].
    + done.
    + by apply new_request_held.
    + apply new_request_load.
    + intros a [? ?]. done.
    + intros [] v' Hc. destruct sp. simpl in *. eapply completed_settled in Hc; [|done].
      destruct Hc as [Hb' ?]. split; [|done]. rewrite Hb'. unfold started_view. rewrite Hlive. apply Hbase.
  - apply wp_bind. eapply wp_mono; [apply (submit_lookups_ok T rid sp v b); [|constructor; [done|constructor|done]|done]|].
    { intros a ad Hin. apply dget_wf_elem_of; [apply HT|]. rewrite <- Ero in Hin.
      apply list_elem_of_In, List.filter_In in Hin as [Hin _]. by apply list_elem_of_In. }
    intros [] ? (w' & pending & l' & -> & Hst & Hu). apply wp_bind.
    eapply (wp_modify _ _ _ (mkView w' (Some (new_request rid sp b pending)) l' true
      (mkCounts (ct_in_flight (v_counts v) + 1) (ct_pending (v_counts v))
         (ct_lookup_phase (v_counts v) + 1) (ct_load_phase (v_counts v))) (v_hit v) (v_result v))).
    { intros s [= Hw Hq Hl Hi Hc Hh Hs]. rewrite Hlive in Hi. apply bool_decide_eq_false in Hi. split.
      - constructor; simpl; try done.
        + rewrite filter_app, (filter_none _ [rid]), app_nil_r; [done|]. repeat constructor. naive_solver.
        + intros Hnd. apply NoDup_app. split_and!; [done| |apply NoDup_singleton].
          intros x Hx Hx'. apply list_elem_of_singleton in Hx'. congruence.
      - unfold view_of, log_of in *; simpl. rewrite bool_decide_eq_true_2 by set_solver. rewrite Hc. by f_equal. }
    apply wp_bind. eapply wp_get_request; [done|]. apply wp_publish. unfold v_call. simpl. split.
    + unfold base; simpl. rewrite Hlive. destruct (v_counts v). simpl. f_equal; lia.
    + left. exists (new_request rid sp b pending). split; [|by destruct sp].
      apply started_live; [done..| |done]. destruct Hst. constructor; [by apply balance_silent|done..].
Qed.

(** ** Reserving load buffers *)

Lemma groupby_concat keys : concat (groupby object_group_id keys).*2 = keys.
Proof.
  induction keys as [|k keys IH]; [done|]. cbn [groupby]. revert IH.
  destruct (groupby object_group_id keys) as [|[g ks] rest]; cbn; [by intros <-|].
  destruct (_ =? g); cbn; by intros <-.
Qed.

Lemma groupby_groups keys :
  Forall (λ gk : Z * list K, gk.2 ≠ [] ∧ Forall (λ k, object_group_id k = gk.1) gk.2)
    (groupby object_group_id keys).
Proof.
  induction keys as [|k keys IH]; [constructor|]. cbn [groupby].
  destruct (groupby object_group_id keys) as [|[g ks] rest]; [repeat constructor; done|].
  apply Forall_cons in IH as [[? Hg] ?]. destruct (Z.eqb_spec (object_group_id k) g); repeat constructor; try done.
Qed.

(** recording the granted buffers on the request *)
Definition add_all r (wr : list (K * (L1Error * option Obj))) : Request :=
  foldl (λ r x, match x with
                | (key, (SUCCESS, Some o)) => rq_add_reserved key o r
                | _ => r end) r wr.

Definition with_buffers (keys : list K) (objs : list (K * Obj)) r : Request :=
  mkRequest (rq_request_id r) (rq_keys r) (rq_phase r) (rq_num_kv_readers r) (rq_policy r)
    (rq_attn_desc r) (rq_mode r) (rq_pending_lookup_tasks r) (rq_lookup_results r)
    (rq_l2_adapter2readlocks r) (rq_hit_reported r) (rq_load_plan r) (rq_pending_load_tasks r)
    (rq_load_bytes_by_adapter r) (rq_load_results r) keys objs (rq_l1_readlocks r)
    (rq_group_layout_descs r).

Lemma add_all_spec wr : ∀ r,
  rq_write_reserved_keys (add_all r wr) = rq_write_reserved_keys r ++ (List.filter reserve_ok wr).*1 ∧
  (∀ k, k ∈ (List.filter reserve_ok wr).*1 ∨ is_Some (dget (rq_write_reserved_objs r) k) →
     is_Some (dget (rq_write_reserved_objs (add_all r wr)) k)) ∧
  (∃ keys objs, add_all r wr = with_buffers keys objs r).
Proof.
  induction wr as [|[k [e o]] wr IH]; intros r.
  - split_and!; [by rewrite app_nil_r| |]; cbn.
    + intros k [Hk|?]; [by apply not_elem_of_nil in Hk|done].
    + exists (rq_write_reserved_keys r), (rq_write_reserved_objs r). by destruct r.
  - assert (Hskip : reserve_ok (k, (e, o)) = false → add_all r ((k, (e, o)) :: wr) = add_all r wr).
    { cbn. by destruct e, o. }
    cbn [List.filter]. destruct (reserve_ok (k, (e, o))) eqn:E.
    + destruct e, o as [o|]; try done. destruct (IH (rq_add_reserved k o r)) as (H1 & H2 & (ks & os & H3)).
      change (add_all r ((k, (SUCCESS, Some o)) :: wr)) with (add_all (rq_add_reserved k o r) wr).
      split_and!; [rewrite H1; cbn; by rewrite <- app_assoc| |by exists ks, os].
      intros k' Hk'. apply H2. cbn. rewrite dget_dset. destruct (decide (k = k')); [right; by eexists|].
      destruct Hk' as [Hk'|?]; [|by right]. left. cbn in Hk'. apply elem_of_cons in Hk' as [?|?]; congruence.
    + rewrite Hskip by done. apply IH.
Qed.

Lemma granted_keys (wr : list (K * (L1Error * option Obj))) k : dwf wr →
  k ∈ (List.filter reserve_ok wr).*1 ↔ write_granted wr k = true.
Proof.
  intros Hwf. unfold write_granted. rewrite list_elem_of_fmap. split.
  - intros ([k' [e o]] & -> & Hin). apply list_elem_of_In, List.filter_In in Hin as [Hin Hok].
    apply list_elem_of_In in Hin. cbn. rewrite (dget_wf_elem_of _ _ _ Hwf Hin). by destruct e, o.
  - destruct (dget wr k) as [[e o]|] eqn:E; [|done]. intros Hg. exists (k, (e, o)). split; [done|].
    apply list_elem_of_In, List.filter_In. split; [by apply list_elem_of_In, dget_elem_of|]. by destruct e, o.
Qed.

Lemma NoDup_filter_keys (wr : list (K * (L1Error * option Obj))) f :
  dwf wr → NoDup (List.filter f wr).*1.
Proof.
  unfold dwf, dkeys. induction wr as [|x wr IH]; [done|]. rewrite fmap_cons. intros [Hn Hw]%NoDup_cons. cbn.
  destruct (f x); [|by apply IH]. rewrite fmap_cons. apply NoDup_cons. split; [|by apply IH].
  intros (y & Hy & Hin)%list_elem_of_fmap. apply Hn. rewrite Hy. apply list_elem_of_fmap. exists y.
  split; [done|]. apply list_elem_of_In, List.filter_In in Hin as [? _]. by apply list_elem_of_In.
Qed.

(** the answers so far grant exactly the write reservations of the log *)
Record reserving r (l : list Call) (l0 : list Call) (seen : list K)
    (wr : list (K * (L1Error * option Obj))) : Prop := {
  rv_wf : dwf wr;
  rv_seen : ∀ k, is_Some (dget wr k) → k ∈ seen;
  rv_writes : ∀ k, ledger (write_delta k) l
    = ledger (write_delta k) l0 + (if write_granted wr k then 1 else 0);
  rv_other : ∀ d, (∀ ks ts lay ret, d (CReserveWrite ks ts lay ret) = 0) → ledger d l = ledger d l0;
  rv_conv : Forall conversion_ok l → Forall conversion_ok l0 }.

Lemma reserve_groups_ok T rid r layouts ret_map groups : ∀ v wr l0 seen,
  v_request v = Some r → reserving r (v_log v) l0 seen wr →
  NoDup (seen ++ concat groups.*2) →
  Forall (λ gk : Z * list K, gk.2 ≠ [] ∧ Forall (λ k, object_group_id k = gk.1) gk.2) groups →
  (∀ k, k ∈ concat groups.*2 → ∃ lay, dget layouts (object_group_id k) = Some lay ∧ w_layout_ok lay) →
  wp T rid (reserve_groups rid layouts ret_map groups wr) v
    (λ wr' v', ∃ w l, v' = v_with w r l v ∧ w_evolves (v_world v) w ∧
       reserving r l l0 (seen ++ concat groups.*2) wr').
Proof.
  induction groups as [|[g ks] groups IH]; intros v wr l0 seen Hr Hst Hnd Hg Hlay; cbn [reserve_groups].
  - apply wp_ret. exists (v_world v), (v_log v). split; [by apply v_with_same|]. split; [done|].
    by rewrite app_nil_r.
  - apply Forall_cons in Hg as [[Hne Hall] Hg]. cbn in Hne, Hall, Hnd, Hlay. cbn [fmap list_fmap snd concat].
    destruct ks as [|k0 ks]; [done|]. destruct (Hlay k0) as (lay & Elay & Hlok); [left|].
    rewrite (Forall_inv Hall) in Elay. cbn in Elay.
    rewrite app_assoc in Hnd. pose proof Hnd as Hnd0. apply NoDup_app in Hnd as (Hnd1 & _ & _).
    apply NoDup_app in Hnd1 as (_ & Hdis & Hks).
    apply wp_bind. eapply wp_getitem; [exact Elay|]. apply wp_bind.
    apply wp_reserve_write; [done|by rewrite length_fmap|done|]. intros ret w Hw Hwfr Hsub.
    rewrite (v_call_with _ w r v Hr). destruct Hst as [Hwf Hseen Hwr Hoth Hcv].
    eapply wp_mono; [apply (IH (v_with w r _ v) _ l0 (seen ++ k0 :: ks)); [done| |done|done|]|].
    + constructor.
      * by apply dupdate_wf.
      * intros k. rewrite dget_dupdate by done. destruct (dget ret k) eqn:E.
        -- intros _. apply elem_of_app. right. apply Hsub. by rewrite E.
        -- intros Hk. apply elem_of_app. left. by apply Hseen.
      * intros k. cbn [v_log v_with]. rewrite ledger_snoc, Hwr. cbn [write_delta].
        unfold write_granted. rewrite dget_dupdate by done. destruct (dget ret k) as [x|] eqn:E; [|lia].
        assert (Hin : k ∈ k0 :: ks) by (apply Hsub; by rewrite E).
        assert (dget wr k = None) as ->.
        { destruct (dget wr k) eqn:E2; [|done]. exfalso. eapply Hdis; [|exact Hin]. apply Hseen. by rewrite E2. }
        rewrite occ_nodup, decide_True by done. destruct x as [[] []]; lia.
      * intros d Hd. cbn [v_log v_with]. rewrite ledger_snoc, Hd, Hoth by done. lia.
      * cbn [v_log v_with]. intros [? _]%Forall_app. auto.
    + intros k Hk. apply Hlay. change (k0 :: ks ++ ?x) with ((k0 :: ks) ++ x). apply elem_of_app. by right.
    + intros wr' v' (w' & l & -> & Hw' & Hst'). exists w', l. split; [done|]. split; [by etrans|].
      rewrite app_assoc. exact Hst'.
Qed.

Lemma add_reserved_ok T rid wr : ∀ r v,
  v_request v = Some r →
  wp T rid (for_each (λ x : K * (L1Error * option Obj),
        match x with
        | (key, (SUCCESS, Some mem_obj)) => upd_request rid (rq_add_reserved key mem_obj)
        | _ => mret tt
        end) wr) v
    (λ _ v', v' = v_with (v_world v) (add_all r wr) (v_log v) v).
Proof.
  induction wr as [|[k [e o]] wr IH]; intros r v Hr; cbn [for_each].
  - apply wp_ret. by apply v_with_same.
  - apply wp_bind. destruct (reserve_ok (k, (e, o))) eqn:E.
    + destruct e, o as [o|]; try done. eapply wp_upd_request; [done|].
      eapply wp_mono; [by apply (IH (rq_add_reserved k o r))|]. by intros [] v' ->.
    + assert (Hskip : add_all r ((k, (e, o)) :: wr) = add_all r wr) by (cbn; by destruct e, o).
      rewrite Hskip. destruct e; try (apply wp_ret; by apply IH). destruct o; [done|].
      apply wp_ret. by apply IH.
Qed.

(** publishing moves no lock *)
Lemma held_ok_publish r l e :
  held_ok r l → (∀ h, e ≠ L2_PREFETCH_LOOKUP_COMPLETED h) → held_ok r (l ++ [CPublish e]).
Proof.
  intros Hl He. assert (Hh : hit_delta (CPublish e) = 0) by (destruct e; naive_solver).
  constructor; try by apply Hl.
  - intros Hc k. apply Forall_app in Hc as [Hc _]. rewrite ledger_snoc, (ho_reads _ _ Hl) by done. cbn. lia.
  - intros a k. rewrite ledger_snoc, (ho_l2 _ _ Hl). cbn. lia.
  - intros k. rewrite ledger_snoc, (ho_writes _ _ Hl). cbn. lia.
  - rewrite ledger_snoc, Hh, (ho_hits _ _ Hl). lia.
  - rewrite ledger_snoc, (ho_done _ _ Hl). done.
Qed.

Lemma publish_ok T rid e v r Q :
  v_request v = Some r → held_ok r (v_log v) → (∀ h, e ≠ L2_PREFETCH_LOOKUP_COMPLETED h) →
  (∀ l, held_ok r l → Q tt (v_with (v_world v) r l v)) → wp T rid (publish rid e) v Q.
Proof.
  intros Hr Hh He HQ. apply wp_publish. rewrite (v_call_with _ _ r v Hr). apply HQ. by apply held_ok_publish.
Qed.

Section reserve.
Context T (rid : Z) (v : view) (r : Request) (ktr : list K).
Context (Hr : v_request v = Some r) (Hheld : held_ok r (v_log v)).
Context (Hnone : rq_write_reserved_keys r = []) (Hnd : NoDup ktr) (Hsub : ∀ k, k ∈ ktr → k ∈ rq_keys r).

Lemma reserved_held l wr :
  reserving r l (v_log v) ktr wr → held_ok (add_all r wr) l.
Proof.
  intros [Hwf Hseen Hwr Hoth Hcv].
  destruct (add_all_spec wr r) as (Hk & _ & (ks & os & E)). rewrite Hnone in Hk. cbn in Hk.
  rewrite E in Hk |- *. cbn in Hk. subst ks. constructor; cbn; try by apply Hheld.
  - intros Hc k. rewrite Hoth by done. apply Hheld. auto.
  - intros a k. rewrite Hoth by done. apply (ho_l2 _ _ Hheld).
  - intros k. rewrite Hwr, (ho_writes _ _ Hheld), Hnone. cbn.
    rewrite occ_nodup by (by apply NoDup_filter_keys). pose proof (granted_keys wr k Hwf) as Hgk.
    destruct (write_granted wr k), (decide _); naive_solver.
  - by apply NoDup_filter_keys.
  - rewrite Hoth by done. apply Hheld.
  - rewrite Hoth by done. apply Hheld.
Qed.

Lemma reserve_buffers_ok :
  wp T rid (_reserve_load_buffers object_group_id policy_ rid ktr) v (λ reserved v', ∃ w objs l,
    v' = v_with w (with_buffers reserved objs r) l v ∧ w_evolves (v_world v) w ∧
    held_ok (with_buffers reserved objs r) l ∧ NoDup reserved ∧
    (∀ k, k ∈ reserved → k ∈ ktr ∧ is_Some (dget objs k))).
Proof.
  apply wp_bind. eapply wp_get_request; [done|]. apply wp_bind.
  set (sorted := sort_by object_group_id ktr).
  assert (Hperm : sorted ≡ₚ ktr) by apply sort_by_perm.
  eapply wp_mono; [apply (reserve_groups_ok T rid r _ _ _ v [] (v_log v) [])|].
  - done.
  - constructor; try done; [exact (NoDup_nil_2)|by intros k [? ?]|]. intros k. cbn. lia.
  - cbn. rewrite groupby_concat. by rewrite Hperm.
  - apply groupby_groups.
  - intros k. rewrite groupby_concat, Hperm. intros Hk. by apply (so_layouts _ (ho_spec _ _ Hheld)), Hsub.
  - cbn. rewrite groupby_concat. intros wr ? (w & l & -> & Hw & Hst).
    apply wp_bind. eapply wp_mono; [by apply (add_reserved_ok T rid wr r)|]. intros [] ? ->.
    assert (Hst' : reserving r l (v_log v) ktr wr).
    { destruct Hst. constructor; try done. intros k Hk. rewrite <- Hperm. by apply rv_seen0. }
    pose proof (reserved_held l wr Hst') as Hh. pose proof (rv_wf _ _ _ _ _ Hst') as Hwf.
    destruct (add_all_spec wr r) as (Hk & Hobjs & (ks & os & E)). rewrite Hnone in Hk.
    rewrite E in *. cbn in Hk, Hobjs. subst ks.
    assert (Hpost : ∀ l', held_ok (with_buffers (List.filter reserve_ok wr).*1 os r) l' →
      ∃ w0 objs l0, v_with w (with_buffers (List.filter reserve_ok wr).*1 os r) l' v
        = v_with w0 (with_buffers (List.filter reserve_ok wr).*1 objs r) l0 v ∧ w_evolves (v_world v) w0 ∧
        held_ok (with_buffers (List.filter reserve_ok wr).*1 objs r) l0 ∧
        NoDup (List.filter reserve_ok wr).*1 ∧
        (∀ k, k ∈ (List.filter reserve_ok wr).*1 → k ∈ ktr ∧ is_Some (dget objs k))).
    { intros l' Hl'. exists w, os, l'. split_and!; [done..|by apply NoDup_filter_keys|].
      intros k Hin. split; [|apply Hobjs; by left]. apply (rv_seen _ _ _ _ _ Hst').
      apply granted_keys in Hin; [|done]. unfold write_granted in Hin. by destruct (dget wr k). }
    apply wp_bind, wp_when; intros _.
    + apply wp_bind. eapply publish_ok; [done..|]. intros l1 Hl1.
      eapply publish_ok; [done..|]. intros l2 Hl2. apply wp_bind, wp_when; intros _.
      * eapply publish_ok; [done..|]. intros l3 Hl3. apply wp_ret. by apply Hpost.
      * apply wp_ret. by apply Hpost.
    + apply wp_bind, wp_when; intros _.
      * eapply publish_ok; [done..|]. intros l3 Hl3. apply wp_ret. by apply Hpost.
      * apply wp_ret. by apply Hpost.
Qed.
End reserve.

(** ** Submitting the loads *)

Lemma held_ok_silent r l c :
  held_ok r l → (∀ k, read_delta k c = 0) → (∀ k, write_delta k c = 0) →
  (∀ a k, l2_delta (rq_keys r) a k c = 0) → hit_delta c = 0 → done_delta c = 0 → held_ok r (l ++ [c]).
Proof.
  intros Hl Hr Hw H2 Hh Hd. constructor; try by apply Hl.
  - intros Hc k. apply Forall_app in Hc as [Hc _]. rewrite ledger_snoc, Hr, (ho_reads _ _ Hl) by done. lia.
  - intros a k. rewrite ledger_snoc, H2, (ho_l2 _ _ Hl). lia.
  - intros k. rewrite ledger_snoc, Hw, (ho_writes _ _ Hl). lia.
  - rewrite ledger_snoc, Hh, (ho_hits _ _ Hl). lia.
  - rewrite ledger_snoc, Hd, (ho_done _ _ Hl). done.
Qed.

(** the load tables play no part in the accounting *)
Lemma held_ok_loads pending bytes results r l :
  held_ok r l → held_ok (rq_set_loads pending bytes results r) l.
Proof. intros []. by constructor. Qed.

Lemma held_ok_plan p r l : held_ok r l → held_ok (rq_set_load_plan p r) l.
Proof. intros []. by constructor. Qed.

Lemma held_ok_start r l : held_ok r l → held_ok (rq_start_load r) l.
Proof. intros []. by constructor. Qed.

Lemma wp_getitems T rid (d : list (K * Obj)) keys v (Q : list Obj → view → Prop) :
  (∀ k, k ∈ keys → is_Some (dget d k)) → (∀ os, Q os v) → wp T rid (getitems d keys) v Q.
Proof.
  revert Q. induction keys as [|k keys IH]; intros Q Hin HQ; cbn [getitems]; [by apply wp_ret|].
  destruct (Hin k) as [o Ho]; [left|]. apply wp_bind. eapply wp_getitem; [done|].
  apply wp_bind, IH; [intros; apply Hin; by right|]. intros os. by apply wp_ret.
Qed.

Section stale.
Context T (rid : Z) (v : view) (r : Request) (retained fallback : Bitmap).
Context (Hr : v_request v = Some r) (Hheld : held_ok r (v_log v)).
Context (Hret : sized (nkeys r) retained) (Hfb : sized (nkeys r) fallback).
Let stale := band (band (rq_l1_readlocks r) (bnot retained)) (bnot fallback).
Let kept := band (rq_l1_readlocks r) (bor retained fallback).

Lemma cnt_stale k :
  cnt k (bits_of (rq_l1_readlocks r)) (rq_keys r) - cnt k (bits_of stale) (rq_keys r)
  = cnt k (bits_of kept) (rq_keys r).
Proof.
  pose proof (ho_l1 _ _ Hheld) as Hl1.
  rewrite (cnt_split k (bits_of (rq_l1_readlocks r)) (bits_of kept)).
  rewrite (cnt_ext k (λ i, bits_of (rq_l1_readlocks r) i && bits_of kept i) (bits_of kept)),
    (cnt_ext k (λ i, bits_of (rq_l1_readlocks r) i && negb (bits_of kept i)) (bits_of stale)); [lia|..].
  all: intros i Hi; unfold bits_of, kept, stale;
    rewrite !(test_band (nkeys r)), (test_bor (nkeys r)), ?(test_bnot (nkeys r))
      by (unfold nkeys in *; lia || solve_sized);
    by destruct (test (rq_l1_readlocks r) _), (test retained _), (test fallback _).
Qed.

Lemma stale_ok :
  wp T rid (when (0 <? popcount stale)
      (_ ← upd_request rid (λ r', rq_set_l1_readlocks kept r');
       finish_read_ rid (gather stale (rq_keys r)) (rq_num_kv_readers r))) v
    (λ _ v', ∃ w b l, v' = v_with w (rq_set_l1_readlocks b r) l v ∧ w_evolves (v_world v) w ∧
       held_ok (rq_set_l1_readlocks b r) l ∧
       (∀ i, 0 <= i → test b i = true → test (rq_l1_readlocks r) i = true)).
Proof.
  pose proof (ho_l1 _ _ Hheld) as Hl1. apply wp_when.
  - intros _. apply wp_bind. eapply wp_upd_request; [done|]. apply wp_finish_read. intros w Hw.
    exists w, kept, (v_log v ++ [CFinishRead (gather stale (rq_keys r)) (rq_num_kv_readers r)]).
    split; [done|]. split; [done|]. split.
    + constructor; try by apply Hheld.
      * change (sized (nkeys r) kept). unfold kept. solve_sized.
      * intros Hc k. apply Forall_app in Hc as [Hc _]. rewrite ledger_snoc, (ho_reads _ _ Hheld) by done.
        cbn [read_delta rq_set_l1_readlocks rq_l1_readlocks rq_keys rq_num_kv_readers].
        rewrite occ_gather by (unfold stale; fold (nkeys r); solve_sized). rewrite <- cnt_stale. lia.
      * intros a k. rewrite ledger_snoc. cbn [l2_delta]. rewrite Z.add_0_r. apply (ho_l2 _ _ Hheld).
      * intros k. rewrite ledger_snoc. cbn [write_delta]. rewrite Z.add_0_r. apply (ho_writes _ _ Hheld).
      * rewrite ledger_snoc. cbn [hit_delta]. rewrite Z.add_0_r. apply (ho_hits _ _ Hheld).
      * rewrite ledger_snoc, (ho_done _ _ Hheld). done.
    + intros i Hi. unfold kept. rewrite (test_band (nkeys r)) by (lia || solve_sized).
      by intros [? _]%andb_true_iff.
  - intros _. exists (v_world v), (rq_l1_readlocks r), (v_log v).
    assert (rq_set_l1_readlocks (rq_l1_readlocks r) r = r) as -> by (by destruct r).
    split; [by apply v_with_same|done].
Qed.
End stale.

Section submit.
Context T (rid : Z) (v : view) (r : Request) (p : plan).
Context (Hr : v_request v = Some r) (Hheld : held_ok r (v_log v)).
Context (Hpend : rq_pending_load_tasks r = []) (Hresults : rq_load_results r = []).
Context (Hbytes : ∀ a, is_Some (dget (rq_load_bytes_by_adapter r) a) → is_Some (dget p a)).
Context (Hplan : plan_ok (nkeys r) p).
Context (Hadapters : ∀ a, is_Some (dget p a) →
  is_Some (dget (at_l2_adapters T) a) ∧ is_Some (dget (at_descriptors T) a)).
Context (Hobjs : ∀ a i k, has p a (Z.of_nat i) = true → rq_keys r !! i = Some k →
  is_Some (dget (rq_write_reserved_objs r) k)).

Record loads_sent (w : W) (pending : list (Z * TaskId)) (bytes : list (Z * Z)) (l : list Call) : Prop := {
  ls_world : w_evolves (v_world v) w;
  ls_held : held_ok r l;
  ls_wf : dwf pending;
  ls_tasks : ∀ a t, dget pending a = Some t → is_Some (dget (at_descriptors T) a) ∧
    ∃ ad n, dget (at_l2_adapters T) a = Some ad ∧ w_load_task w ad t n;
  ls_planned : ∀ a, is_Some (dget pending a) ∨ is_Some (dget bytes a) → is_Some (dget p a) }.

Lemma submit_loads_ok :
  wp T rid (_submit_load_tasks rid p) v (λ _ v', ∃ w pending bytes l,
    v' = v_with w (rq_set_loads pending bytes [] r) l v ∧ loads_sent w pending bytes l).
Proof.
  apply wp_bind. eapply wp_get_request; [done|]. apply wp_bind.
  eapply wp_mono; [apply (wp_for_each _ _ _ (λ rest v', (∀ ab, ab ∈ rest → ab ∈ p) ∧
    ∃ w pending bytes l, v' = v_with w (rq_set_loads pending bytes [] r) l v ∧ loads_sent w pending bytes l))|].
  - intros [a b] rest ? (Hin & w & pending & bytes & l & -> & [Hw Hh Hwf Htasks Hpl]).
    assert (Hab : dget p a = Some b) by (apply dget_wf_elem_of; [apply Hplan|apply Hin; left]).
    destruct (Hadapters a) as ([ad Had] & [d Hd]); [by rewrite Hab|].
    apply wp_bind, wp_getitems.
    { intros k (i & Hi & Ht)%elem_of_gather; [|eapply plan_ok_sized; [exact Hplan|exact Hab]].
      apply (Hobjs a i k); [|done]. unfold has. by rewrite Hab. }
    intros os. apply wp_bind. eapply wp_get_adapter; [done|]. apply wp_bind, wp_world. intros Hok.
    pose proof (submit_load_spec (v_world (v_with w (rq_set_loads pending bytes [] r) l v)) ad
      (gather b (rq_keys r)) os Hok) as Hs.
    destruct (submit_load_task _ ad _ os) as [t w']. destruct Hs as [Hw' Ht].
    apply wp_bind, wp_record; [done|]. apply wp_bind. eapply wp_upd_request; [done|].
    apply wp_bind, wp_tables. apply wp_bind. eapply wp_getitem; [exact Hd|]. apply wp_publish.
    split; [intros; apply Hin; by right|]. eexists w', (dset pending a t), _, _. split; [done|].
    constructor.
    + by etrans.
    + apply held_ok_silent; [|done..]. by apply held_ok_silent.
    + by apply dset_wf.
    + intros a' t'. rewrite dget_dset. case_decide; subst.
      * intros [= <-]. split; [by rewrite Hd|]. by eexists ad, _.
      * intros (? & ad' & n' & ? & ?)%Htasks. split; [done|]. exists ad', n'. split; [done|].
        by eapply w_load_task_evolves.
    + intros a'. rewrite !dget_dset. case_decide; [subst; by rewrite Hab|apply Hpl].
  - split; [done|]. exists (v_world v), [], (rq_load_bytes_by_adapter r), (v_log v). split.
    + rewrite (v_with_same r v Hr) at 1. f_equal. destruct r; cbn in *. by subst.
    + constructor; try done; [exact NoDup_nil_2|]. intros a [[? ?]|Ha]; [done|by apply Hbytes].
  - intros [] ? (_ & w & pending & bytes & l & -> & [Hw Hh Hwf Htasks Hpl]). apply wp_publish.
    eexists w, pending, bytes, _. split; [done|]. constructor; try done. by apply held_ok_silent.
Qed.
End submit.

(** ** From lookup to load *)

Lemma held_ok_report r l h :
  held_ok r l → rq_hit_reported r = false →
  held_ok (rq_set_hit_reported r) (l ++ [CPublish (L2_PREFETCH_LOOKUP_COMPLETED h)]).
Proof.
  intros Hl Hf. constructor; try by apply Hl.
  - intros Hc k. apply Forall_app in Hc as [Hc _]. rewrite ledger_snoc, (ho_reads _ _ Hl) by done.
    by rewrite Z.add_0_r.
  - intros a k. rewrite ledger_snoc. cbn [l2_delta]. rewrite Z.add_0_r. apply (ho_l2 _ _ Hl).
  - intros k. rewrite ledger_snoc. cbn [write_delta]. rewrite Z.add_0_r. apply (ho_writes _ _ Hl).
  - rewrite ledger_snoc, (ho_hits _ _ Hl), Hf. done.
  - rewrite ledger_snoc, (ho_done _ _ Hl). done.
Qed.

Lemma all_reserved (reserved ktr : list K) k :
  NoDup reserved → (∀ x, x ∈ reserved → x ∈ ktr) → ¬ (length reserved < length ktr)%nat →
  k ∈ ktr → k ∈ reserved.
Proof.
  intros Hnd Hsub Hlen Hk. assert (reserved ≡ₚ ktr) as ->; [|done].
  apply submseteq_length_Permutation; [by apply NoDup_submseteq|lia].
Qed.

Lemma base_same v v' r :
  v_live v' = v_live v → v_counts v' = v_counts v → v_request v = Some r →
  (∃ r', v_request v' = Some r' ∧ rq_phase r' = rq_phase r) → base v' = base v.
Proof. intros Hl Hc Hr (r' & Hr' & Hp). unfold base. by rewrite Hl, Hc, Hr, Hr', Hp. Qed.

Section load_phase.
Context T (rid : Z) (v : view) (r : Request) (retained : Bitmap) (trimmed : plan) (hit : Z).
Context (HT : tables_ok T) (Hlive : live_ok T v r).
Context (Hphase : rq_phase r = PhasePlanAndLoad) (Hempty : rq_load_plan r = [])
        (Hpend : rq_pending_load_tasks r = []) (Hlres : rq_load_results r = [])
        (Hnone : rq_write_reserved_keys r = []) (Hhit : rq_hit_reported r = false).
Context (Hret : sized (nkeys r) retained) (Hplan : plan_ok (nkeys r) trimmed).
Context (Hdisj : ∀ a i, 0 <= i → has trimmed a i = true → test (rq_l1_readlocks r) i = false).
Context (Hadapters : ∀ a, is_Some (dget trimmed a) →
  is_Some (dget (at_l2_adapters T) a) ∧ is_Some (dget (at_descriptors T) a)).
Let ktr := gather (merge_bitmaps (dvals trimmed) (nkeys r)) (rq_keys r).

Lemma merged_ok :
  sized (nkeys r) (merge_bitmaps (dvals trimmed) (nkeys r)) ∧
  ∀ i, 0 <= i → test (merge_bitmaps (dvals trimmed) (nkeys r)) i = true ↔ ∃ a, has trimmed a i = true.
Proof.
  destruct Hplan as [Hwf Hf]. destruct (merge_ok (nkeys r) (dvals trimmed)) as [Hs Ht];
    [unfold nkeys; lia|done|]. split; [done|]. intros i Hi. rewrite Ht by done. by apply plan_union.
Qed.

Lemma to_reserve_ok : NoDup ktr ∧ (∀ k, k ∈ ktr → k ∈ rq_keys r) ∧
  (∀ a i k, has trimmed a (Z.of_nat i) = true → rq_keys r !! i = Some k → k ∈ ktr).
Proof.
  destruct merged_ok as [Hs Ht]. unfold ktr. split_and!.
  - apply NoDup_gather; [done|]. apply (so_keys _ (ho_spec _ _ (lv_held _ _ _ Hlive))).
  - intros k (i & Hi & _)%elem_of_gather; [|apply Hs]. by eapply list_elem_of_lookup_2.
  - intros a i k Ha Hi. apply elem_of_gather; [apply Hs|]. exists i. split; [done|]. apply Ht; [lia|].
    by exists a.
Qed.

(** the request as it goes through the load phase *)
Definition loading b reserved objs held pending bytes : Request :=
  rq_set_loads pending bytes []
    (rq_set_l2_locks held
       (rq_set_load_plan trimmed (with_buffers reserved objs (rq_set_l1_readlocks b r)))).

Lemma loading_live b reserved objs held pending bytes w l h :
  (∀ i, 0 <= i → test b i = true → test (rq_l1_readlocks r) i = true) →
  (∀ k, k ∈ ktr → k ∈ reserved) →
  held_ok (loading b reserved objs held pending bytes) l → w_evolves (v_world v) w →
  dwf pending →
  (∀ a t, dget pending a = Some t → is_Some (dget (at_descriptors T) a) ∧
     ∃ ad n, dget (at_l2_adapters T) a = Some ad ∧ w_load_task w ad t n) →
  (∀ a, is_Some (dget pending a) ∨ is_Some (dget bytes a) → is_Some (dget trimmed a)) →
  let r' := rq_set_hit_reported (loading b reserved objs held pending bytes) in
  let v' := mkView w (Some r') (l ++ [CPublish (L2_PREFETCH_LOOKUP_COMPLETED hit)]) (v_live v)
              (v_counts v) h (v_result v) in
  live_ok T v' r'.
Proof.
  intros Hb Hall Hh Hw Hwf Htasks Hpl r' v'. destruct to_reserve_ok as (_ & _ & Hktr).
  assert (Hlk := lv_phase _ _ _ Hlive). rewrite Hphase in Hlk.
  constructor; cbn; try done; try by apply Hlive.
  - by apply held_ok_report.
  - constructor; cbn; try done.
    + intros a i k Ha Hi. apply Hall. by eapply Hktr.
    + intros a i Hi Ha. apply not_true_is_false. intros Ht. apply Hb in Ht; [|done].
      by rewrite (Hdisj a i Hi Ha) in Ht.
  - intros a t. rewrite Hlk. done.
  - intros a Ha. by apply Hadapters.
  - intros a [Ha|[Ha|[? ?]]]; [apply Hpl; by left|apply Hpl; by right|done].
  - rewrite Hlk. split; [exact NoDup_nil_2|done].
  - by rewrite Hphase.
Qed.

Lemma load_phase_ok :
  wp T rid
    ('(_, l1_fallback_retain) ←
        lift (build_trim_mask true (rq_l1_readlocks r) (nkeys r) (rq_policy r) (rq_attn_desc r));
      let stale := band (band (rq_l1_readlocks r) (bnot retained)) (bnot l1_fallback_retain) in
      _ ← when (0 <? popcount stale)
            (_ ← upd_request rid (λ r',
                   rq_set_l1_readlocks
                     (band (rq_l1_readlocks r) (bor retained l1_fallback_retain)) r');
             finish_read_ rid (gather stale (rq_keys r)) (rq_num_kv_readers r));
      reserved ← _reserve_load_buffers object_group_id policy_ rid ktr;
      if bool_decide (length reserved < length ktr)%nat then _finish_request true rid
      else
        _ ← upd_request rid (rq_set_load_plan trimmed);
        _ ← _release_l2_locks rid trimmed;
        _ ← _submit_load_tasks rid trimmed;
        _report_lookup_hit rid hit) v
    (λ _ v', settled T (spec_of r) v v' ∧ past_lookup v').
Proof.
  pose proof (lv_request _ _ _ Hlive) as Hr. pose proof (lv_held _ _ _ Hlive) as Hheld.
  destruct (trim_spec (spec_of r) _ (ho_spec _ _ Hheld) (ho_l1 _ _ Hheld)) as (h0 & fb & E & Hfb & _ & _).
  apply wp_bind. eapply wp_lift; [exact E|]. cbv beta iota zeta. apply wp_bind.
  eapply wp_mono; [by apply (stale_ok T rid v r retained fb)|].
  intros [] ? (w1 & b & l1 & -> & Hw1 & Hh1 & Hb). destruct to_reserve_ok as (Hnd & Hsub & Hktr).
  apply wp_bind. eapply wp_mono; [by apply (reserve_buffers_ok T rid _ (rq_set_l1_readlocks b r) ktr)|].
  intros reserved ? (w2 & objs & l2 & -> & Hw2 & Hh2 & Hndr & Hres). cbn [v_world v_with] in Hw2.
  set (r2 := with_buffers reserved objs (rq_set_l1_readlocks b r)) in *.
  assert (Hresults : ∀ a, is_Some (dget (rq_lookup_results r) a) → is_Some (dget (at_l2_adapters T) a))
    by apply Hlive.
  destruct (bool_decide (length reserved < length ktr)%nat) eqn:El.
  { eapply wp_mono; [apply (finish_ok T rid _ r2); [done|done| |done]|].
    - constructor; cbn; rewrite ?Hempty, ?Hlres; try done. apply plan_ok_nil.
    - intros [] v' Hc. change (spec_of r) with (spec_of r2). split; [|by eapply completed_past].
      eapply completed_settled in Hc; [|done].
      destruct Hc as [Hbase ?]. split; [|done]. rewrite Hbase. eapply base_same; [done..|]. by exists r2. }
  apply bool_decide_eq_false in El.
  apply wp_bind. eapply wp_upd_request; [done|]. set (r3 := rq_set_load_plan trimmed r2).
  apply wp_bind. eapply wp_mono; [apply (release_ok T rid trimmed _ r3); [by apply held_ok_plan|done..]|].
  intros [] ? (held & w3 & ext & -> & Hw3 & Hext & Hh3 & _). cbn [v_log v_world v_with v_set_request] in Hh3, Hw3.
  apply wp_bind.
  eapply wp_mono; [apply (submit_loads_ok T rid _ (rq_set_l2_locks held r3) trimmed); try done|].
  { cbn. intros a Ha. destruct (lv_planned _ _ _ Hlive a) as [x Hx]; [right; by left|by rewrite Hempty in Hx]. }
  { intros a i k Ha Hi. cbn. apply Hres. eapply all_reserved; [done| |exact El|by eapply Hktr].
    intros x Hx. by apply Hres. }
  intros [] ? (w4 & pending & bytes & l4 & -> & [Hw4 Hh4 Hwf4 Htasks Hpl4]).
  eapply wp_report; [done|]. cbn [v_with v_world v_log v_live v_counts v_result release_view v_set_request].
  split; [|by intros r' _ [= <-]]. split.
  - eapply base_same; [done|done|exact Hr|]. by eexists.
  - left. eexists. split; [apply (loading_live b reserved objs held pending bytes w4 l4); try done|done].
    + intros k Hk. eapply all_reserved; [done| |exact El|done]. intros x Hx. by apply Hres.
    + by apply held_ok_loads.
    + cbn in Hw4. by repeat (etrans; [eassumption|]).
Qed.
End load_phase.

Lemma settled_base T sp v v1 v' : base v1 = base v → settled T sp v1 v' → settled T sp v v'.
Proof. intros Hb [? ?]. split; [congruence|done]. Qed.

(** the adapters of the routable descriptors are attached *)
Lemma routing_attached T a : tables_ok T →
  a ∈ ad_index <$> (snd <$> List.filter (λ id_, negb (dmem (at_draining T) (fst id_))) (at_descriptors T)) →
  is_Some (dget (at_l2_adapters T) a) ∧ is_Some (dget (at_descriptors T) a).
Proof.
  intros HT (d & -> & ([a' d'] & -> & Hin)%list_elem_of_fmap)%list_elem_of_fmap. cbn.
  apply list_elem_of_In, List.filter_In in Hin as [Hin _]. apply list_elem_of_In in Hin.
  apply dget_wf_elem_of in Hin; [|apply HT]. rewrite (tb_index _ HT _ _ Hin).
  assert (is_Some (dget (at_descriptors T) a')) as Hd by (by rewrite Hin).
  split; [by apply (tb_same _ HT)|done].
Qed.

Lemma transition_ok T rid v r :
  tables_ok T → live_ok T v r → rq_phase r = PhaseLookup → rq_pending_lookup_tasks r = [] →
  wp T rid (_transition_to_load_phase object_group_id true policy_ rid) v
    (λ _ v', settled T (spec_of r) v v' ∧ past_lookup v').
Proof.
  intros HT Hlive Hph Hpl. pose proof (lv_request _ _ _ Hlive) as Hr. pose proof (lv_held _ _ _ Hlive) as Hheld.
  pose proof (lv_phase _ _ _ Hlive) as Hphase. rewrite Hph in Hphase. destruct Hphase as (H1 & H2 & H3 & H4 & H5).
  apply wp_bind. eapply wp_upd_request; [done|]. set (r1 := rq_start_load r). apply wp_bind.
  eapply (wp_modify _ _ _ (mkView (v_world v) (Some r1) (v_log v) (v_live v)
    (mkCounts (ct_in_flight (v_counts v)) (ct_pending (v_counts v)) (ct_lookup_phase (v_counts v) - 1)
       (ct_load_phase (v_counts v) + 1)) (v_hit v) (v_result v))).
  { intros s [= Hw Hq Hl Hi Hc Hh Hs]. split; [by constructor|].
    unfold view_of, log_of in *; simpl. rewrite Hc. by f_equal. }
  set (v1 := mkView _ _ _ _ _ _ _). change (spec_of r) with (spec_of r1).
  assert (Hlive1 : live_ok T v1 r1).
  { destruct Hlive. constructor; cbn; try done; [by apply held_ok_start|by destruct lv_load0; constructor]. }
  eapply (wp_mono _ _ _ _ (λ _ v', settled T (spec_of r1) v1 v' ∧ past_lookup v')).
  2: { intros [] v' [Hset ?]. split; [|done]. revert Hset. apply settled_base. unfold base. cbn. rewrite Hr, Hph, (lv_live _ _ _ Hlive). cbn.
       f_equal; lia. }
  apply wp_bind. eapply wp_get_request; [done|]. apply wp_bind, wp_tables. fold (nkeys r1).
  set (routing := snd <$> _).
  destruct (so_grid _ (ho_spec _ _ Hheld)) as (chunks & Hlay & HN).
  pose proof (ho_lookups _ _ Hheld) as Hlk. pose proof (ho_l1 _ _ Hheld) as Hl1. change (nkeys r) with (nkeys r1) in *.
  destruct (plan_load_ok (nkeys r1) chunks (world_size (rq_attn_desc r)) (num_chunks_in_sw (rq_attn_desc r))
    (group_kinds (rq_attn_desc r)) (rq_lookup_results r) routing (rq_l1_readlocks r) (rq_policy r))
    as (hit & retained & trimmed & E & Hret & Hpl' & Hne & _ & Htrim & _); [apply Zle_0_nat|done..|].
  apply wp_bind. eapply wp_lift.
  { etrans; [|exact E]. cbn. by destruct (rq_attn_desc r). }
  cbv beta iota zeta. destruct trimmed as [|ab trimmed'] eqn:Et; [|rewrite <- Et in *].
  - eapply wp_mono; [apply (finish_ok T rid v1 r1); by apply Hlive1|]. intros [] v' Hc.
    split; [by apply completed_settled|by eapply completed_past].
  - eapply (load_phase_ok T rid v1 r1 retained trimmed hit); try done.
    + intros a i Hi Ha. by apply Htrim in Ha as (_ & ? & _).
    + intros a [b Hb]. apply (routing_attached T a HT). fold routing.
      assert (∃ i, 0 <= i ∧ test b i = true) as (i & Hi & Hti).
      { apply Hne in Hb as Hpc. assert (Hw : bm_wf b) by (eapply plan_ok_sized; [exact Hpl'|exact Hb]).
        destruct (decide (get_indices b = [])) as [E0|E0].
        - rewrite popcount_ok, count_true_bits, E0 in Hpc by done. done.
        - destruct (get_indices b) as [|i ?] eqn:E1; [done|]. exists i. apply elem_of_get_indices; [done|].
          rewrite E1. left. }
      assert (has trimmed a i = true) as Ha by (unfold has; by rewrite Hb).
      by apply Htrim in Ha as (_ & _ & ? & _).
Qed.

(** ** Polling the adapters *)

Lemma live_ok_world T v r w :
  live_ok T v r → w_evolves (v_world v) w →
  live_ok T (mkView w (v_request v) (v_log v) (v_live v) (v_counts v) (v_hit v) (v_result v)) r.
Proof.
  intros [] Hw. constructor; cbn; try done.
  - intros a t Ht. destruct (lv_lookups0 a t Ht) as (? & ad & ? & ?). split; [done|]. exists ad.
    split; [done|]. by eapply w_lookup_task_evolves.
  - intros a t Ht. destruct (lv_loads0 a t Ht) as (? & ad & n & ? & ?). split; [done|]. exists ad, n.
    split; [done|]. by eapply w_load_task_evolves.
Qed.

(** the answer [b] of adapter [a] is stored *)
Definition lookup_answered a b r : Request :=
  rq_set_l2_locks (dset (rq_l2_adapter2readlocks r) a b)
    (rq_set_lookups (ddel (rq_pending_lookup_tasks r) a) (dset (rq_lookup_results r) a b) r).

Lemma lookup_answered_held r l a t b :
  held_ok r l → dget (rq_lookup_results r) a = None → sized (nkeys r) b →
  held_ok (lookup_answered a b r) (l ++ [CLookupResult a t b]).
Proof.
  intros Hh Hnone Hb. constructor; try by apply Hh.
  - apply plan_ok_dset; [apply Hh|done].
  - apply plan_ok_dset; [apply Hh|done].
  - intros a'. cbn. rewrite !dget_dset. case_decide; [by eexists|apply Hh].
  - intros Hc k. apply Forall_app in Hc as [Hc _]. rewrite ledger_snoc, (ho_reads _ _ Hh) by done. by rewrite Z.add_0_r.
  - intros a' k. rewrite ledger_snoc. cbn [l2_delta lookup_answered rq_set_l2_locks rq_set_lookups rq_keys].
    rewrite (ho_l2 _ _ Hh). destruct (decide (a = a')) as [<-|Hne].
    + rewrite occ_gather by done. rewrite (cnt_none k (λ i, has (rq_l2_adapter2readlocks r) a (Z.of_nat i))).
      * apply cnt_ext. intros i _. unfold bits_of, has. cbn. by rewrite dget_dset_eq.
      * intros i _. unfold has. destruct (dget (rq_l2_adapter2readlocks r) a) eqn:E; [|done].
        destruct (ho_locks_sub _ _ Hh a) as [x Hx]; [by rewrite E|]. congruence.
    + rewrite Z.add_0_r. apply cnt_ext. intros i _. unfold has. cbn. by rewrite dget_dset_ne.
  - intros k. rewrite ledger_snoc. cbn [write_delta]. rewrite Z.add_0_r. apply (ho_writes _ _ Hh).
  - rewrite ledger_snoc. cbn [hit_delta]. rewrite Z.add_0_r. apply (ho_hits _ _ Hh).
  - rewrite ledger_snoc. cbn [done_delta]. rewrite Z.add_0_r. apply (ho_done _ _ Hh).
Qed.

Lemma lookup_answered_live T v r a t b w :
  live_ok T v r → rq_phase r = PhaseLookup → dget (rq_pending_lookup_tasks r) a = Some t →
  sized (nkeys r) b → w_evolves (v_world v) w →
  live_ok T (v_set_request (lookup_answered a b r) (v_call (CLookupResult a t b) w v)) (lookup_answered a b r).
Proof.
  intros Hlive Hph Ha Hb Hw. pose proof (live_ok_world _ _ _ _ Hlive Hw) as Hl.
  destruct (lv_lookups _ _ _ Hlive a t Ha) as (Hnone & ad & Had & Htask).
  constructor; cbn; try done; try by apply Hl.
  - apply lookup_answered_held; [apply Hlive|done..].
  - destruct (lv_load _ _ _ Hlive). by constructor.
  - intros a'. rewrite dget_dset. case_decide; [|apply Hlive]. subst. by rewrite Had.
  - intros a' t'. rewrite dget_ddel. case_decide; [done|]. intros Ht'. rewrite dget_dset_ne by done.
    by apply (lv_lookups _ _ _ Hl).
  - exists a. right. rewrite dget_dset_eq. by eexists.
  - split; [|apply Hl]. apply ddel_wf. apply Hl.
  - pose proof (lv_phase _ _ _ Hlive) as H. by rewrite Hph in *.
Qed.

(** Both polling loops: a round removes at most its own task, and does so when
    the adapter has signalled and answers. *)
Section poll.
Context T (rid : Z) (phase : PrefetchPhase) (pending : Request → list (Z * TaskId)) (signaled : list Z).
Context (body : Z * TaskId → ctl unit).

Definition polled r v r' v' : Prop :=
  live_ok T v' r' ∧ spec_of r' = spec_of r ∧ rq_phase r' = phase ∧ base v' = base v ∧
  misses (v_log v) <= misses (v_log v').

Context (Hbody : ∀ a t v r, live_ok T v r → rq_phase r = phase → dget (pending r) a = Some t →
  wp T rid (body (a, t)) v (λ _ v', ∃ r', polled r v r' v' ∧
    (∀ a', a ≠ a' → dget (pending r') a' = dget (pending r) a') ∧
    (misses (v_log v') <= misses (v_log v) → is_Some (dget (pending r') a) → a ∉ signaled))).

Lemma poll_ok v r :
  live_ok T v r → rq_phase r = phase → dwf (pending r) →
  wp T rid (for_each body (pending r)) v (λ _ v', ∃ r', polled r v r' v' ∧
    (misses (v_log v') <= misses (v_log v) → ∀ a, is_Some (dget (pending r') a) → a ∉ signaled)).
Proof.
  intros Hlive Hph Hwf.
  eapply wp_mono; [apply (wp_for_each _ _ _ (λ rest v', ∃ r', polled r v r' v' ∧
    (∀ a t, (a, t) ∈ rest → dget (pending r') a = Some t) ∧ NoDup rest.*1 ∧
    (misses (v_log v') <= misses (v_log v) → ∀ a, is_Some (dget (pending r') a) → a ∈ rest.*1 ∨ a ∉ signaled)))|].
  - clear Hwf. intros [a t] rest v1 (r1 & (Hl1 & Hsp & Hp1 & Hb1 & Hm1) & Hrest & Hnd & Hresp).
    cbn in Hnd. apply NoDup_cons in Hnd as [Hnin Hnd].
    eapply wp_mono; [apply (Hbody a t v1 r1); [done|done|apply Hrest; left]|].
    intros [] v2 (r2 & (Hl2 & Hsp2 & Hp2 & Hb2 & Hm2) & Hother & Hown). exists r2.
    split; [split_and!; try done; first [congruence|lia]|]. split_and!; [|done|].
    + intros a' t' Hin. rewrite Hother; [apply Hrest; by right|]. intros <-.
      apply Hnin, list_elem_of_fmap. by exists (a, t').
    + intros HR a' Ha'. destruct (decide (a = a')) as [<-|Hne]; [right; apply Hown; [lia|done]|].
      rewrite Hother in Ha' by done. destruct (Hresp ltac:(lia) a' Ha') as [Hin|?]; [|by right].
      cbn in Hin. apply elem_of_cons in Hin as [?|?]; [congruence|by left].
  - exists r. split_and!; try done.
    + intros a t Hin. by apply dget_wf_elem_of.
    + intros _ a Ha. left. by apply elem_of_dkeys.
  - intros [] v' (r' & ? & _ & _ & Hresp). exists r'. split; [done|]. intros HR a Ha.
    destruct (Hresp HR a Ha) as [Hin|?]; [by apply not_elem_of_nil in Hin|done].
Qed.

(** an adapter that was not signalled is skipped *)
Lemma poll_skip a v r (Q : unit → view → Prop) :
  live_ok T v r → rq_phase r = phase → a ∉ signaled →
  (∀ r', polled r v r' v ∧ (∀ a', a ≠ a' → dget (pending r') a' = dget (pending r) a') ∧
     (misses (v_log v) <= misses (v_log v) → is_Some (dget (pending r') a) → a ∉ signaled) → Q tt v) → wp T rid (mret tt) v Q.
Proof. intros Hl Hp Ha HQ. apply wp_ret. by apply (HQ r). Qed.

(** an adapter without an answer *)
Lemma no_answer_polled a t v r w : live_ok T v r → rq_phase r = phase → w_evolves (v_world v) w →
  let v' := v_call (CNoAnswer a t) w v in
  polled r v r v' ∧ (∀ a', a ≠ a' → dget (pending r) a' = dget (pending r) a') ∧
  (misses (v_log v') <= misses (v_log v) → is_Some (dget (pending r) a) → a ∉ signaled).
Proof.
  intros Hl Hp Hw v'. assert (misses (v_log v') = misses (v_log v) + 1) as Hm by exact (ledger_snoc miss_delta (v_log v) (CNoAnswer a t)).
  split_and!; [split_and!; try done|done|lia]; [|lia].
  destruct (live_ok_world _ _ _ _ Hl Hw). constructor; try done. by apply held_ok_silent.
Qed.
End poll.

Lemma poll_lookup_ok T rid v r signaled :
  live_ok T v r → rq_phase r = PhaseLookup →
  wp T rid (_poll_lookup_results rid signaled) v (λ _ v', ∃ r', polled T PhaseLookup r v r' v' ∧
    (misses (v_log v') <= misses (v_log v) → ∀ a, is_Some (dget (rq_pending_lookup_tasks r') a) → a ∉ signaled)).
Proof.
  intros Hlive Hph. apply wp_bind. eapply wp_get_request; [apply Hlive|].
  apply poll_ok; [|done|done|apply Hlive]. clear v r Hlive Hph. intros a t v r Hlive Hph Ha.
  case_bool_decide as Hsig; [eapply (poll_skip _ _ _ rq_pending_lookup_tasks); [done..|]; eauto|].
  destruct (lv_lookups _ _ _ Hlive a t Ha) as (Hnone & ad & Had & Htask).
  apply wp_bind. eapply wp_get_adapter; [exact Had|]. apply wp_bind, wp_world. intros Hok.
  pose proof (query_lookup_spec (v_world v) ad t _ Hok Htask) as Hs.
  destruct (query_lookup_and_lock_result (v_world v) ad t) as [[b|] w] eqn:Eq; destruct Hs as [Hw Hsz].
  - apply wp_bind, wp_record; [done|]. eapply wp_upd_request; [apply Hlive|].
    exists (lookup_answered a b r). split; [split_and!; try done|split].
    + apply lookup_answered_live; [done..| |done]. by apply Hsz.
    + eapply base_same; [done|done|apply Hlive|]. by eexists.
    + cbn. apply misses_prefix. rewrite <- ?app_assoc. by apply prefix_app_r.
    + intros a' Hne. cbn. by rewrite dget_ddel_ne.
    + intros _. cbn. rewrite dget_ddel_eq. by intros [? ?].
  - apply wp_record; [done|]. exists r. by apply no_answer_polled.
Qed.

Definition load_answered a b r : Request :=
  rq_set_loads (ddel (rq_pending_load_tasks r) a) (ddel (rq_load_bytes_by_adapter r) a)
    (dset (rq_load_results r) a b) r.

Lemma load_answered_live T v r a t b w d :
  live_ok T v r → rq_phase r = PhasePlanAndLoad → dget (rq_pending_load_tasks r) a = Some t → bm_wf b →
  w_evolves (v_world v) w →
  live_ok T (v_call (CPublish (L2_LOAD_TASK_COMPLETED a t d)) w
    (v_set_request (load_answered a b r) (v_call (CLoadResult a t b) w v))) (load_answered a b r).
Proof.
  intros Hlive Hph Ha Hb Hw. pose proof (live_ok_world _ _ _ _ Hlive Hw) as Hl.
  constructor; cbn; try done; try by apply Hl.
  - apply held_ok_loads. apply held_ok_silent; [|done..]. apply held_ok_silent; [apply Hlive|done..].
  - destruct (lv_load _ _ _ Hlive). constructor; try done. intros a' b'. cbn. rewrite dget_dset.
    case_decide; [by intros [= <-]|apply lo_results0].
  - intros a' t'. rewrite dget_ddel. case_decide; [done|]. by apply (lv_loads _ _ _ Hl).
  - intros a' Ha'. apply (lv_planned _ _ _ Hl). unfold loading_from in *. cbn in Ha'. rewrite !dget_ddel, dget_dset in Ha'.
    destruct (decide (a = a')) as [<-|]; [left; by rewrite Ha|done].
  - split; [apply Hl|]. apply ddel_wf. apply Hl.
  - pose proof (lv_phase _ _ _ Hlive) as H. by rewrite Hph in *.
Qed.

Lemma poll_load_ok T rid v r signaled :
  live_ok T v r → rq_phase r = PhasePlanAndLoad →
  wp T rid (_poll_load_results rid signaled) v (λ _ v', ∃ r', polled T PhasePlanAndLoad r v r' v' ∧
    (misses (v_log v') <= misses (v_log v) → ∀ a, is_Some (dget (rq_pending_load_tasks r') a) → a ∉ signaled)).
Proof.
  intros Hlive Hph. apply wp_bind. eapply wp_get_request; [apply Hlive|].
  apply poll_ok; [|done|done|apply Hlive]. clear v r Hlive Hph. intros a t v r Hlive Hph Ha.
  case_bool_decide as Hsig; [eapply (poll_skip _ _ _ rq_pending_load_tasks); [done..|]; eauto|].
  destruct (lv_loads _ _ _ Hlive a t Ha) as ([d Hd] & ad & n & Had & Htask).
  apply wp_bind. eapply wp_get_adapter; [exact Had|]. apply wp_bind, wp_world. intros Hok.
  pose proof (query_load_spec (v_world v) ad t _ Hok Htask) as Hs.
  destruct (query_load_result (v_world v) ad t) as [[b|] w] eqn:Eq; destruct Hs as [Hw Hsz].
  - apply wp_bind, wp_record; [done|]. apply wp_bind. eapply wp_upd_request; [apply Hlive|].
    apply wp_bind, wp_tables. apply wp_bind. eapply wp_getitem; [exact Hd|]. apply wp_publish.
    exists (load_answered a b r). split; [split_and!; try done|split].
    + apply load_answered_live; [done..| |done]. by apply (Hsz b).
    + eapply base_same; [done|done|apply Hlive|]. by eexists.
    + cbn. apply misses_prefix. rewrite <- ?app_assoc. by apply prefix_app_r.
    + intros a' Hne. cbn. by rewrite dget_ddel_ne.
    + intros _. cbn. rewrite dget_ddel_eq. by intros [? ?].
  - apply wp_record; [done|]. exists r. by apply no_answer_polled.
Qed.

(** ** Advancing a request *)

Lemma pending_nil {A} (p : list (Z * A)) :
  (∀ a, is_Some (dget p a) → False) → p = [].
Proof.
  destruct p as [|[a x] p]; [done|]. intros H. exfalso. apply (H a). cbn. rewrite decide_True by done. by eexists.
Qed.

(** [moved]: loads do not go back to looking up; and when every adapter has
    signalled and none came back empty, a lookup leaves its phase and a load
    completes *)
Definition moved T r (lookups loads : list Z) (v v' : view) : Prop :=
  (rq_phase r = PhasePlanAndLoad → past_lookup v') ∧
  ((∀ a, is_Some (dget (at_l2_adapters T) a) → a ∈ lookups ∧ a ∈ loads) →
   lookups ≠ [] → loads ≠ [] → misses (v_log v') <= misses (v_log v) →
   match rq_phase r with
   | PhaseLookup => past_lookup v'
   | PhasePlanAndLoad => v_live v' = false
   end).

Lemma advance_ok T rid v r lookups loads :
  tables_ok T → live_ok T v r →
  wp T rid (_advance_request object_group_id true policy_ rid lookups loads) v
    (λ _ v', settled T (spec_of r) v v' ∧ moved T r lookups loads v v').
Proof.
  intros HT Hlive. apply wp_bind. eapply wp_get_request; [apply Hlive|].
  assert (Hpast : ∀ v' r', v_request v' = Some r' → rq_phase r' = PhasePlanAndLoad → past_lookup v').
  { intros v' r' Hr' Hp r2 _ Hr2. congruence. }
  unfold moved. destruct (rq_phase r) eqn:Hph; apply wp_when.
  2, 4: intros Hn%nonempty_false; split; [split; [done|left; by exists r]|];
        split; [try done; intros _; by eapply Hpast; [apply Hlive|]|congruence].
  - intros _. apply wp_bind. eapply wp_mono; [by apply poll_lookup_ok|].
    intros [] v1 (r1 & (Hl1 & Hsp & Hp1 & Hb1 & Hm1) & Hresp). apply wp_bind. eapply wp_get_request; [apply Hl1|].
    rewrite <- Hsp. apply wp_when; unfold all_lookups_done.
    + intros Hd%bool_decide_eq_true%nil_length_inv. eapply wp_mono; [by apply (transition_ok T rid v1 r1)|].
      intros [] v' [Hset Hp']. split; [by eapply settled_base|]. by split.
    + intros Hd%bool_decide_eq_false. split; [split; [done|left; by exists r1]|]. split; [done|].
      intros Hall _ _ HR. destruct Hd. rewrite (pending_nil (rq_pending_lookup_tasks r1)); [done|].
      intros a Ha. apply (Hresp HR a Ha). apply Hall. destruct Ha as [t Ht].
      by destruct (lv_lookups _ _ _ Hl1 a t Ht) as (_ & ad & -> & _).
  - intros _. apply wp_bind. eapply wp_mono; [by apply poll_load_ok|].
    intros [] v1 (r1 & (Hl1 & Hsp & Hp1 & Hb1 & Hm1) & Hresp). apply wp_bind. eapply wp_get_request; [apply Hl1|].
    rewrite <- Hsp. apply wp_when; unfold all_loads_done.
    + intros _. eapply wp_mono; [apply (finish_ok T rid v1 r1); apply Hl1|].
      intros [] v' Hc. split; [eapply settled_base; [exact Hb1|]; apply completed_settled; [apply Hl1|done]|].
      split; [intros _; by eapply completed_past|]. intros _ _ _ _. by destruct Hc as (w & r' & l & hit & bm & -> & _).
    + intros Hd%bool_decide_eq_false. split; [split; [done|left; by exists r1]|].
      split; [intros _; eapply Hpast; [apply Hl1|done]|].
      intros Hall _ _ HR. destruct Hd. rewrite (pending_nil (rq_pending_load_tasks r1)); [done|].
      intros a Ha. apply (Hresp HR a Ha). apply Hall. destruct Ha as [t Ht].
      by destruct (lv_loads _ _ _ Hl1 a t Ht) as (_ & ad & n & -> & _).
Qed.
End proofs.
