(* ===== verification/PrefetchRuns.v ===== *)
(** * Prefetch controller: runs

    The invariant of the whole controller over any sequence of loop iterations
    and calls from other threads, the accounting theorem for every request of a
    run, and progress when the adapters answer. *)

From S2P Require Import Prelude PyDict PyState TTLLock L1Manager Bitmap Fold PrefetchPlan KeyLedger.
From S2P Require Import PrefetchController PrefetchControllerProofs AdapterRoster.
Local Open Scope Z_scope.

Section runs.
Context {W Ad K Obj Layout TaskId config : Type} `{EqDecision K}.
Context {L1 : L1Client W K Obj Layout} {L2 : L2Adapters W Ad K Obj Layout TaskId}.
Context {WM : WorldModel W} {S1 : L1ClientSpec W K Obj Layout}
        {S2 : L2AdaptersSpec W Ad K Obj Layout TaskId}.
Context (object_group_id : K → Z) (policy_ : PrefetchPolicy) (max_in_flight submission_fd : Z).

Abbreviation State := (PrefetchController W Ad K Obj Layout TaskId config).
Abbreviation Request := (InFlightPrefetchRequest K Obj Layout TaskId).
Abbreviation Spec := (PrefetchRequestSpec K Layout).
Abbreviation Tables := (AdapterTables Ad config).
Abbreviation View := (@view W K Obj Layout TaskId config).
Abbreviation Op := (adapter_op Ad config).
Implicit Types (s : State) (r : Request) (sp : Spec) (T : Tables) (rid : Z).

(** ** Adapter tables *)

Abbreviation lookup_fd := (get_lookup_and_lock_event_fd (L2Adapters := L2)).
Abbreviation load_fd := (get_load_event_fd (L2Adapters := L2)).

(** the descriptors of an adapter are its own *)
Definition fd_fresh (A : list (Z * Ad)) (ad : Ad) : Prop :=
  lookup_fd ad ≠ load_fd ad ∧ lookup_fd ad ≠ submission_fd ∧ load_fd ad ≠ submission_fd ∧
  ∀ a' ad', dget A a' = Some ad' →
    lookup_fd ad ≠ lookup_fd ad' ∧ load_fd ad ≠ load_fd ad' ∧
    lookup_fd ad ≠ load_fd ad' ∧ load_fd ad ≠ lookup_fd ad'.

(** queued operations attach adapters under new identifiers *)
Fixpoint ops_ok (A : list (Z * Ad)) (ops : list Op) : Prop :=
  match ops with
  | [] => True
  | AddAdapterOp a ad desc _ :: ops =>
      dget A a = None ∧ ad_index desc = a ∧ fd_fresh A ad ∧ ops_ok (dset A a ad) ops
  | RemoveAdapterOp _ _ :: ops => ops_ok A ops
  end.

Lemma fd_fresh_sub A A' ad : sub_map A A' → fd_fresh A' ad → fd_fresh A ad.
Proof. intros Hs (? & ? & ? & Hf). split_and!; [done..|]. intros a' ad' Ha'. apply (Hf a'). by apply Hs. Qed.

Lemma ops_ok_sub ops : ∀ A A', sub_map A A' → ops_ok A' ops → ops_ok A ops.
Proof.
  induction ops as [|[a ad desc d|a d] ops IH]; intros A A' Hs; cbn; [done| |by apply IH].
  intros (Hn & Hi & Hf & Hr). split_and!; [|done|by eapply fd_fresh_sub|].
  - destruct (dget A a) eqn:E; [|done]. apply Hs in E. congruence.
  - eapply IH; [|done]. intros a' ad'. rewrite !dget_dset. case_decide; [done|apply Hs].
Qed.

Lemma ops_ok_snoc ops op : ∀ A, ops_ok A ops → ops_ok (future A ops) [op] → ops_ok A (ops ++ [op]).
Proof.
  induction ops as [|[a ad desc d|a d] ops IH]; intros A; cbn [app future]; [done| |apply IH].
  intros (? & ? & ? & ?) Hop. split_and!; [done..|]. by apply IH.
Qed.

Record efds_ok T : Prop := {
  ef_lookup : ∀ a ad, dget (at_l2_adapters T) a = Some ad → dget (at_lookup_efd T) (lookup_fd ad) = Some a;
  ef_load : ∀ a ad, dget (at_l2_adapters T) a = Some ad → dget (at_load_efd T) (load_fd ad) = Some a;
  ef_lookup_inv : ∀ fd a, dget (at_lookup_efd T) fd = Some a →
    ∃ ad, dget (at_l2_adapters T) a = Some ad ∧ lookup_fd ad = fd;
  ef_load_inv : ∀ fd a, dget (at_load_efd T) fd = Some a →
    ∃ ad, dget (at_l2_adapters T) a = Some ad ∧ load_fd ad = fd;
  ef_apart : ∀ a ad a' ad', dget (at_l2_adapters T) a = Some ad → dget (at_l2_adapters T) a' = Some ad' →
    lookup_fd ad ≠ load_fd ad';
  ef_submission : ∀ a ad, dget (at_l2_adapters T) a = Some ad →
    lookup_fd ad ≠ submission_fd ∧ load_fd ad ≠ submission_fd }.

Lemma tables_add T a ad desc d :
  tables_ok T → efds_ok T → dget (at_l2_adapters T) a = None → ad_index desc = a →
  fd_fresh (at_l2_adapters T) ad →
  tables_ok (apply_adapter_op T (AddAdapterOp a ad desc d)) ∧
  efds_ok (apply_adapter_op T (AddAdapterOp a ad desc d)).
Proof.
  intros [] [] Hn Hi (Hf1 & Hf2 & Hf3 & Hf). split.
  - constructor; cbn; try done; auto with pydict.
    + intros a'. rewrite !dget_dset. case_decide; [done|apply tb_same].
    + intros a' d'. rewrite dget_dset. case_decide; [intros [= <-]; congruence|apply tb_index].
    + intros a' Ha'. rewrite dget_dset. case_decide; [by eexists|by apply tb_draining].
  - constructor; cbn.
    + intros a' ad'. rewrite !dget_dset. destruct (decide (a = a')) as [<-|]; [intros [= <-]; by rewrite decide_True|].
      intros Ha'. rewrite decide_False by (by apply (Hf a')). auto.
    + intros a' ad'. rewrite !dget_dset. destruct (decide (a = a')) as [<-|]; [intros [= <-]; by rewrite decide_True|].
      intros Ha'. rewrite decide_False by (by apply (Hf a')). auto.
    + intros fd a'. rewrite !dget_dset. destruct (decide (lookup_fd ad = fd)) as [<-|].
      * intros [= <-]. rewrite decide_True by done. by exists ad.
      * intros (ad' & Ha' & <-)%ef_lookup_inv0. exists ad'. rewrite decide_False by congruence. done.
    + intros fd a'. rewrite !dget_dset. destruct (decide (load_fd ad = fd)) as [<-|].
      * intros [= <-]. rewrite decide_True by done. by exists ad.
      * intros (ad' & Ha' & <-)%ef_load_inv0. exists ad'. rewrite decide_False by congruence. done.
    + intros a1 ad1 a2 ad2. rewrite !dget_dset. repeat case_decide; subst; intros H1 H2; simplify_eq; try done.
      * by apply (Hf a2).
      * apply not_eq_sym. by apply (Hf a1).
      * by eapply ef_apart0.
    + intros a' ad'. rewrite dget_dset. case_decide; [by intros [= <-]|apply ef_submission0].
Qed.

Lemma tables_remove_op T a d : tables_ok T → efds_ok T →
  tables_ok (apply_adapter_op T (RemoveAdapterOp a d)) ∧ efds_ok (apply_adapter_op T (RemoveAdapterOp a d)) ∧
  at_l2_adapters (apply_adapter_op T (RemoveAdapterOp a d)) = at_l2_adapters T ∧
  at_descriptors (apply_adapter_op T (RemoveAdapterOp a d)) = at_descriptors T.
Proof.
  intros [] []. cbn. unfold dmem. destruct (dget (at_l2_adapters T) a) eqn:E; (split_and!; [| |done|done]).
  all: constructor; cbn; try done; auto with pydict.
  intros a'. rewrite dget_dset. case_decide; [subst; by rewrite E|apply tb_draining].
Qed.

(** detaching a drained adapter *)
Definition detach T a ad d : Tables :=
  mkTables (ddel (at_l2_adapters T) a) (ddel (at_descriptors T) a) (ddel (at_draining T) a)
    (ddel (at_lookup_efd T) (lookup_fd ad)) (ddel (at_load_efd T) (load_fd ad)) (at_done T ++ [d]).

Lemma tables_detach T a ad d :
  tables_ok T → efds_ok T → dget (at_l2_adapters T) a = Some ad →
  tables_ok (detach T a ad d) ∧ efds_ok (detach T a ad d).
Proof.
  intros [] [] Ha. split.
  - constructor; cbn; auto with pydict.
    + intros a'. rewrite !dget_ddel. case_decide; [split; by intros [? ?]|apply tb_same].
    + intros a' d'. rewrite dget_ddel. case_decide; [done|apply tb_index].
    + intros a'. rewrite !dget_ddel. case_decide; [by intros [? ?]|apply tb_draining].
  - constructor; cbn.
    + intros a' ad'. rewrite !dget_ddel. case_decide; [done|]. intros Ha'. rewrite decide_False; [auto|].
      intros E. apply ef_lookup0 in Ha, Ha'. congruence.
    + intros a' ad'. rewrite !dget_ddel. case_decide; [done|]. intros Ha'. rewrite decide_False; [auto|].
      intros E. apply ef_load0 in Ha, Ha'. congruence.
    + intros fd a'. rewrite !dget_ddel. case_decide; [done|]. intros Hfd.
      destruct (ef_lookup_inv0 _ _ Hfd) as (ad' & Ha' & <-). exists ad'. rewrite decide_False; [done|].
      intros <-. congruence.
    + intros fd a'. rewrite !dget_ddel. case_decide; [done|]. intros Hfd.
      destruct (ef_load_inv0 _ _ Hfd) as (ad' & Ha' & <-). exists ad'. rewrite decide_False; [done|].
      intros <-. congruence.
    + intros a1 ad1 a2 ad2. rewrite !dget_ddel. repeat case_decide; try done. by apply ef_apart0.
    + intros a' ad'. rewrite dget_ddel. case_decide; [done|apply ef_submission0].
Qed.

(** ** The invariant of the controller *)

Definition fresh rid s : Prop :=
  log_of rid s = [] ∧ dget (pc_requests s) rid = None ∧ (rid ∉ pc_in_flight s) ∧
  dget (pc_completed_results s) rid = None.

Definition in_phase s (ph : PrefetchPhase) rid : bool :=
  match dget (pc_requests s) rid with Some r => bool_decide (rq_phase r = ph) | None => false end.
Definition counts_of s (l : list Z) : StatusCounts :=
  mkCounts (Z.of_nat (length l)) (Z.of_nat (length (pc_pending_queue s)))
    (Z.of_nat (length (List.filter (in_phase s PhaseLookup) l)))
    (Z.of_nat (length (List.filter (in_phase s PhasePlanAndLoad) l))).

Record queue_ok s : Prop := {
  qo_nodup : NoDup (pc_pending_queue s ++ pc_submission_queue s).*1;
  qo_entries : ∀ rid sp, (rid, sp) ∈ pc_pending_queue s ++ pc_submission_queue s →
    spec_ok object_group_id sp ∧ rid < pc_next_request_id s ∧ fresh rid s }.

Record ctl_inv s : Prop := {
  ci_world : w_ok (pc_world s);
  ci_tables : tables_ok (pc_tables s);
  ci_efds : efds_ok (pc_tables s);
  ci_ops : ops_ok (at_l2_adapters (pc_tables s)) (pc_pending_adapter_ops s);
  ci_nodup : NoDup (pc_in_flight s);
  ci_queue : queue_ok s;
  ci_in_flight : ∀ rid, rid ∈ pc_in_flight s → ∃ r, live_ok object_group_id (pc_tables s) (view_of rid s) r;
  ci_finished : ∀ rid r, dget (pc_requests s) rid = Some r → rid ∉ pc_in_flight s →
    done_ok (spec_of r) (view_of rid s);
  ci_specs : ∀ rid r, dget (pc_requests s) rid = Some r → spec_ok object_group_id (spec_of r);
  ci_ids : 0 <= pc_next_request_id s;
  ci_next : ∀ rid, pc_next_request_id s <= rid → fresh rid s;
  ci_counts : pc_counts s = counts_of s (pc_in_flight s);
  ci_limit : Z.of_nat (length (pc_in_flight s)) <= Z.max 0 max_in_flight }.

(** *** Counting *)

Lemma filter_out (P : Z → bool) rid l : NoDup l →
  Z.of_nat (length (List.filter P l))
  = Z.of_nat (length (List.filter P (filter (.≠ rid) l))) + (if bool_decide (rid ∈ l) then (if P rid then 1 else 0) else 0).
Proof.
  induction 1 as [|x l Hx Hl IH]; [done|]. rewrite filter_cons. destruct (decide (x ≠ rid)) as [Hne|Heq].
  - rewrite (bool_decide_ext (rid ∈ x :: l) (rid ∈ l)) by (rewrite elem_of_cons; naive_solver).
    cbn. destruct (P x); cbn; lia.
  - apply dec_stable in Heq. subst. rewrite bool_decide_eq_true_2 by left.
    rewrite bool_decide_eq_false_2 in IH by done. cbn. destruct (P rid); cbn; lia.
Qed.

Lemma length_filter_out rid l : NoDup l →
  Z.of_nat (length l) = Z.of_nat (length (filter (.≠ rid) l)) + (if bool_decide (rid ∈ l) then 1 else 0).
Proof.
  intros Hl. pose proof (filter_out (λ _, true) rid l Hl) as H.
  assert (∀ l' : list Z, List.filter (λ _, true) l' = l') as E by (induction l'; cbn; congruence).
  by rewrite !E in H.
Qed.

(** the counters are right when the shares of the others are *)
Lemma counts_base rid s :
  NoDup (pc_in_flight s) → (rid ∈ pc_in_flight s → is_Some (dget (pc_requests s) rid)) →
  pc_counts s = counts_of s (pc_in_flight s)
  ↔ base (view_of rid s) = counts_of s (filter (.≠ rid) (pc_in_flight s)).
Proof.
  intros Hnd Hreq. unfold counts_of.
  rewrite (length_filter_out rid _ Hnd), !(filter_out _ rid _ Hnd).
  unfold base, in_phase. cbn. case_bool_decide as Hin.
  - destruct (Hreq Hin) as [r Hr]. rewrite Hr. destruct (pc_counts s) as [c1 c2 c3 c4].
    destruct (rq_phase r) eqn:Hp; repeat case_bool_decide; try done; cbn; (split; intros Hx; injection Hx as ? ? ? ?; f_equal; lia).
  - rewrite !Z.add_0_r. done.
Qed.

Lemma counts_others rid s s' :
  frame rid s s' →
  counts_of s' (filter (.≠ rid) (pc_in_flight s')) = counts_of s (filter (.≠ rid) (pc_in_flight s)).
Proof.
  intros Hf. rewrite (fr_in_flight _ _ _ Hf). unfold counts_of. rewrite (fr_pending _ _ _ Hf).
  f_equal; do 2 f_equal; apply filter_ext_in'; intros i Hi; apply list_elem_of_filter in Hi as [Hi _];
    unfold in_phase; by rewrite (fr_requests _ _ _ Hf).
Qed.

Lemma frame_in_flight rid s s' i :
  frame rid s s' → i ≠ rid → i ∈ pc_in_flight s' ↔ i ∈ pc_in_flight s.
Proof.
  intros Hf Hi. assert (i ∈ filter (.≠ rid) (pc_in_flight s') ↔ i ∈ filter (.≠ rid) (pc_in_flight s)) as H
    by (by rewrite (fr_in_flight _ _ _ Hf)).
  rewrite !list_elem_of_filter in H. naive_solver.
Qed.

(** *** Handling one request keeps the others *)

Lemma live_ok_frame rid s s' i r :
  frame rid s s' → i ≠ rid → live_ok object_group_id (pc_tables s) (view_of i s) r →
  live_ok object_group_id (pc_tables s') (view_of i s') r.
Proof.
  intros Hf Hi Hl. rewrite (fr_tables _ _ _ Hf).
  pose proof (live_ok_world _ _ _ _ _ Hl (fr_world _ _ _ Hf)) as [].
  constructor; cbn in *; try done.
  - by rewrite (fr_requests _ _ _ Hf).
  - rewrite <- lv_live. apply bool_decide_ext. by apply (frame_in_flight rid).
  - by rewrite (fr_results _ _ _ Hf).
  - by rewrite (fr_logs _ _ _ Hf).
Qed.

Lemma done_ok_frame rid s s' i sp :
  frame rid s s' → i ≠ rid → done_ok sp (view_of i s) → done_ok sp (view_of i s').
Proof.
  intros Hf Hi []. constructor; cbn in *.
  - rewrite <- dn_live. apply bool_decide_ext. by apply (frame_in_flight rid).
  - by rewrite (fr_requests _ _ _ Hf).
  - by rewrite (fr_logs _ _ _ Hf), (fr_results _ _ _ Hf).
Qed.

Lemma fresh_frame rid s s' i : frame rid s s' → i ≠ rid → fresh i s → fresh i s'.
Proof.
  intros Hf Hi (H1 & H2 & H3 & H4). split_and!.
  - by rewrite (fr_logs _ _ _ Hf).
  - by rewrite (fr_requests _ _ _ Hf).
  - by rewrite (frame_in_flight rid s s' i).
  - by rewrite (fr_results _ _ _ Hf).
Qed.

(** handling request [rid], which is in flight or not started *)
Lemma handled rid sp s s' :
  ctl_inv s → frame rid s s' → rid < pc_next_request_id s → spec_ok object_group_id sp →
  (∀ sp', (rid, sp') ∉ pc_pending_queue s ++ pc_submission_queue s) →
  settled object_group_id (pc_tables s) sp (view_of rid s) (view_of rid s') →
  Z.of_nat (length (pc_in_flight s')) <= Z.max 0 max_in_flight → ctl_inv s'.
Proof.
  intros Hi Hf Hlt Hsp Hq [Hbase Hset] Hlim.
  assert (Hreq : ∀ x, x ∈ pc_in_flight s → is_Some (dget (pc_requests s) x)).
  { intros x Hx. destruct (ci_in_flight _ Hi x Hx) as (r & [Hr _]). by eexists. }
  assert (Hreq' : rid ∈ pc_in_flight s' → is_Some (dget (pc_requests s') rid)).
  { intros Hin. destruct Hset as [(r & [Hr _] & _)|[[Hl _ _] _]]; [by eexists|].
    cbn in Hl. by rewrite bool_decide_eq_true_2 in Hl. }
  constructor.
  - eapply w_ok_evolves; [apply Hi|apply Hf].
  - rewrite (fr_tables _ _ _ Hf). apply Hi.
  - rewrite (fr_tables _ _ _ Hf). apply Hi.
  - rewrite (fr_tables _ _ _ Hf), (fr_ops _ _ _ Hf). apply Hi.
  - apply Hf, Hi.
  - destruct (ci_queue _ Hi) as [Hn He]. constructor; rewrite (fr_pending _ _ _ Hf), (fr_submission _ _ _ Hf); [done|].
    intros i sp' Hin. destruct (He i sp' Hin) as (? & ? & ?). rewrite (fr_next _ _ _ Hf). split_and!; [done..|].
    eapply fresh_frame; [done| |done]. intros ->. by eapply Hq.
  - intros i Hin. destruct (decide (i = rid)) as [->|Hne].
    + destruct Hset as [(r & Hl & _)|[[Hl _ _] _]].
      * exists r. by rewrite (fr_tables _ _ _ Hf).
      * cbn in Hl. by rewrite bool_decide_eq_true_2 in Hl.
    + rewrite (frame_in_flight rid s s') in Hin by done. destruct (ci_in_flight _ Hi i Hin) as (r & Hl). exists r.
      by eapply live_ok_frame.
  - intros i r Hr Hin. destruct (decide (i = rid)) as [->|Hne].
    + destruct Hset as [(r' & [_ Hl] & _)|[Hd _]]; [cbn in Hl; by apply bool_decide_eq_true in Hl|].
      destruct (dn_request _ _ Hd) as (r' & Hr' & Hs). cbn in Hr'. rewrite Hr in Hr'. injection Hr' as <-.
      by rewrite Hs.
    + rewrite (fr_requests _ _ _ Hf) in Hr by done. rewrite (frame_in_flight rid s s') in Hin by done.
      eapply done_ok_frame; [done..|]. by apply (ci_finished _ Hi).
  - intros i r Hr. destruct (decide (i = rid)) as [->|Hne].
    + destruct Hset as [(r' & [Hr' _] & Hs)|[[_ (r' & Hr' & Hs) _] _]]; cbn in Hr'; rewrite Hr in Hr';
        injection Hr' as <-; by rewrite Hs.
    + rewrite (fr_requests _ _ _ Hf) in Hr by done. by eapply ci_specs.
  - rewrite (fr_next _ _ _ Hf). apply Hi.
  - intros i. rewrite (fr_next _ _ _ Hf). intros Hle. eapply fresh_frame; [done|lia|]. by apply Hi.
  - apply (counts_base rid); [apply Hf, Hi|done|]. rewrite (counts_others _ _ _ Hf), Hbase.
    apply (counts_base rid); [apply Hi|by apply Hreq|apply Hi].
  - done.
Qed.

(** ** The rounds of the loop *)

(** request [rid] was submitted with [sp], and is waiting or was started *)
Definition tracked rid sp s : Prop :=
  (rid, sp) ∈ pc_pending_queue s ++ pc_submission_queue s ∨
  ∃ r, dget (pc_requests s) rid = Some r ∧ spec_of r = sp.
(** its result is still to come or has not been fetched *)
Definition awaited rid s : Prop :=
  rid ∈ (pc_pending_queue s ++ pc_submission_queue s).*1 ∨ rid ∈ pc_in_flight s ∨
  is_Some (dget (pc_completed_results s) rid).
Definition keeps s s' : Prop :=
  (∀ rid sp, tracked rid sp s → tracked rid sp s') ∧ (∀ rid, awaited rid s → awaited rid s').

#[local] Instance keeps_pre : PreOrder keeps.
Proof. split; [done|]. intros s1 s2 s3 [H1 H1'] [H2 H2']. split; auto. Qed.

Lemma settled_awaited T sp s rid s' :
  settled object_group_id T sp (view_of rid s) (view_of rid s') → awaited rid s'.
Proof.
  intros [_ [(r & [_ Hl] & _)|[_ Hr]]]; right; [left|by right]. cbn in Hl. by apply bool_decide_eq_true in Hl.
Qed.

Lemma settled_request T sp (v v' : View) : settled object_group_id T sp v v' →
  ∃ r, v_request v' = Some r ∧ spec_of r = sp.
Proof. intros [_ [(r & [Hr _] & Hs)|[[_ Hr _] _]]]; [by exists r|done]. Qed.

Lemma frame_keeps rid sp s s' : frame rid s s' → (∀ sp', tracked rid sp' s → sp' = sp) →
  settled object_group_id (pc_tables s) sp (view_of rid s) (view_of rid s') → keeps s s'.
Proof.
  intros Hf Hsp Hset. split.
  - intros i sp' Ht. destruct (decide (i = rid)) as [->|Hne].
    + rewrite (Hsp sp' Ht). right. by apply settled_request in Hset.
    + unfold tracked. rewrite (fr_pending _ _ _ Hf), (fr_submission _ _ _ Hf), (fr_requests _ _ _ Hf) by done. done.
  - intros i Ha. destruct (decide (i = rid)) as [->|Hne]; [by eapply settled_awaited|]. unfold awaited.
    rewrite (fr_pending _ _ _ Hf), (fr_submission _ _ _ Hf), (fr_results _ _ _ Hf) by done.
    by rewrite (frame_in_flight rid s s').
Qed.


(** what is left alone by handling the requests of [l] *)
Record frames (l : list Z) s s' : Prop := {
  fs_world : w_evolves (pc_world s) (pc_world s');
  fs_tables : pc_tables s' = pc_tables s;
  fs_pending_ops : pc_pending_adapter_ops s' = pc_pending_adapter_ops s;
  fs_next : pc_next_request_id s' = pc_next_request_id s;
  fs_prefix : pc_log s `prefix_of` pc_log s';
  fs_requests : ∀ i, i ∉ l → dget (pc_requests s') i = dget (pc_requests s) i;
  fs_in_flight : ∀ i, i ∉ l → i ∈ pc_in_flight s' ↔ i ∈ pc_in_flight s }.

Lemma frames_refl s : frames [] s s.
Proof. by constructor. Qed.

Lemma frames_cons rid l s s1 s' : frame rid s s1 → frames l s1 s' → frames (rid :: l) s s'.
Proof.
  intros Hf []. constructor.
  - etrans; [apply Hf|done].
  - rewrite fs_tables0. apply Hf.
  - rewrite fs_pending_ops0. apply Hf.
  - rewrite fs_next0. apply Hf.
  - etrans; [apply Hf|done].
  - intros i [? ?]%not_elem_of_cons. rewrite fs_requests0 by done. by apply (fr_requests _ _ _ Hf).
  - intros i [? ?]%not_elem_of_cons. rewrite fs_in_flight0 by done. by apply (frame_in_flight rid).
Qed.

Lemma not_queued s rid : ctl_inv s → is_Some (dget (pc_requests s) rid) →
  ∀ sp, (rid, sp) ∉ pc_pending_queue s ++ pc_submission_queue s.
Proof.
  intros Hi [r Hr] sp Hin. destruct (ci_queue _ Hi) as [_ He].
  destruct (He rid sp Hin) as (_ & _ & _ & Hn & _). congruence.
Qed.

Lemma started_id s rid : ctl_inv s → is_Some (dget (pc_requests s) rid) → rid < pc_next_request_id s.
Proof.
  intros Hi [r Hr]. destruct (Z.lt_ge_cases rid (pc_next_request_id s)) as [|Hge]; [done|].
  destruct (ci_next _ Hi rid Hge) as (_ & Hn & _). congruence.
Qed.

Lemma in_flight_length rid s s' : ctl_inv s → frame rid s s' →
  Z.of_nat (length (pc_in_flight s')) <= Z.of_nat (length (pc_in_flight s))
    + (if bool_decide (rid ∈ pc_in_flight s) then 0 else 1).
Proof.
  intros Hi Hf. rewrite (length_filter_out rid (pc_in_flight s')) by (apply Hf, Hi).
  rewrite (length_filter_out rid (pc_in_flight s)) by apply Hi. rewrite (fr_in_flight _ _ _ Hf).
  repeat case_bool_decide; lia.
Qed.

Abbreviation advance := (_advance_request object_group_id true policy_).

(** how far an iteration takes a request, see [moved] *)
Definition past rid s : Prop :=
  ∀ r, rid ∈ pc_in_flight s → dget (pc_requests s) rid = Some r → rq_phase r = PhasePlanAndLoad.
Definition advanced (lookups loads : list Z) rid r s s' : Prop :=
  (rq_phase r = PhasePlanAndLoad → past rid s') ∧
  ((∀ a, is_Some (dget (at_l2_adapters (pc_tables s)) a) → a ∈ lookups ∧ a ∈ loads) →
   lookups ≠ [] → loads ≠ [] → all_misses s' <= all_misses s →
   match rq_phase r with PhaseLookup => past rid s' | PhasePlanAndLoad => rid ∉ pc_in_flight s' end).

Lemma moved_advanced lookups loads rid r s s' : frame rid s s' →
  moved (pc_tables s) r lookups loads (view_of rid s) (view_of rid s') → advanced lookups loads rid r s s'.
Proof.
  intros Hf [Hl Hm]. assert (past_lookup (view_of rid s') → past rid s') as Hp.
  { intros H' r' Hin Hr'. apply H'; [by apply bool_decide_eq_true|done]. }
  split; [intros E; by apply Hp, Hl|]. intros Hall H1 H2 Hms.
  specialize (Hm Hall H1 H2 (misses_log rid s s' (fr_prefix _ _ _ Hf) Hms)).
  destruct (rq_phase r); [by apply Hp|]. by apply bool_decide_eq_false in Hm.
Qed.

Lemma past_others l rid s s' : frames l s s' → rid ∉ l → past rid s → past rid s'.
Proof.
  intros Hf Hn Hp r. rewrite (fs_in_flight _ _ _ Hf), (fs_requests _ _ _ Hf) by done. apply Hp.
Qed.

Lemma advance_one rid s lookups loads :
  ctl_inv s → rid ∈ pc_in_flight s →
  ∃ s' r, advance rid lookups loads s = (Ok tt, s') ∧ ctl_inv s' ∧ frame rid s s' ∧ keeps s s' ∧
    dget (pc_requests s) rid = Some r ∧ advanced lookups loads rid r s s'.
Proof.
  intros Hi Hin. destruct (ci_in_flight _ Hi rid Hin) as (r & Hl). pose proof (lv_request _ _ _ _ Hl) as Hr.
  destruct (advance_ok object_group_id policy_ (pc_tables s) rid (view_of rid s) r lookups loads (ci_tables _ Hi) Hl s)
    as ([] & s' & E & Hf & Hset & Hmv); [done|done|apply Hi|].
  exists s', r. assert (∀ sp, (rid, sp) ∉ pc_pending_queue s ++ pc_submission_queue s) as Hnq
    by (apply not_queued; [done|]; by eexists).
  split_and!; try done; [|eapply frame_keeps; [done| |done]; intros sp' [Hq|(r' & Hr' & <-)];
    [by apply Hnq in Hq|cbn in Hr; congruence]|by apply moved_advanced].
  eapply (handled rid (spec_of r)); [done|done| | |done|done|].
  - apply started_id; [done|]. by eexists.
  - by apply (ci_specs _ Hi rid).
  - pose proof (in_flight_length _ _ _ Hi Hf) as Hlen. rewrite bool_decide_eq_true_2 in Hlen by done.
    pose proof (ci_limit _ Hi). lia.
Qed.

Lemma advance_all lookups loads l : NoDup l → ∀ s, ctl_inv s → (∀ rid, rid ∈ l → rid ∈ pc_in_flight s) →
  ∃ s', for_each (λ rid, try_ (advance rid lookups loads)) l s = (Ok tt, s') ∧ ctl_inv s' ∧
    frames l s s' ∧ pc_pending_queue s' = pc_pending_queue s ∧
    pc_submission_queue s' = pc_submission_queue s ∧ keeps s s' ∧
    (∀ rid r, rid ∈ l → dget (pc_requests s) rid = Some r → advanced lookups loads rid r s s').
Proof.
  induction 1 as [|rid l Hnin Hnd IH]; intros s Hi Hl.
  - exists s. split_and!; try done. intros rid r Hin. by apply not_elem_of_nil in Hin.
  - destruct (advance_one rid s lookups loads Hi) as (s1 & r & E & Hi1 & Hf & Hk & Hr & Hmv); [apply Hl; left|].
    destruct (IH s1 Hi1) as (s' & E' & Hi' & Hfs & Hp & Hq & Hk' & Hall).
    { intros i Hin. apply (frame_in_flight rid s s1 i Hf); [intros ->; done|]. apply Hl. by right. }
    exists s'. split_and!; try done.
    + cbn [for_each]. unfold mbind, py_bind, try_. rewrite E. exact E'.
    + by eapply frames_cons.
    + rewrite Hp. apply Hf.
    + rewrite Hq. apply Hf.
    + by etrans.
    + intros i ri Hin Hri. assert (all_misses s <= all_misses s1 ∧ all_misses s1 <= all_misses s') as [Hm1 Hm2]
        by (split; apply all_misses_mono; [apply Hf|apply Hfs]).
      apply elem_of_cons in Hin as [->|Hin].
      * rewrite Hri in Hr. injection Hr as <-. destruct Hmv as [Hl1 Hl2]. split; [eauto using past_others|].
        intros Ha Hne1 Hne2 Hms. specialize (Hl2 Ha Hne1 Hne2 ltac:(lia)).
        destruct (rq_phase ri); [by eapply past_others|]. by rewrite (fs_in_flight _ _ _ Hfs).
      * destruct (Hall i ri Hin) as [Hl1 Hl2]; [rewrite (fr_requests _ _ _ Hf); [done|]; by intros ->|].
        split; [done|]. intros Ha Hne1 Hne2 Hms. rewrite (fr_tables _ _ _ Hf) in Hl2. apply Hl2; [done..|lia].
Qed.

(** the counters play no part in the state of a request *)
Lemma live_ok_view T (v v' : View) r :
  v_world v' = v_world v → v_request v' = v_request v → v_log v' = v_log v → v_live v' = v_live v →
  v_result v' = v_result v ∨ v_result v' = None → live_ok object_group_id T v r → live_ok object_group_id T v' r.
Proof.
  intros Hw Hr Hl Hi Hv []. constructor; rewrite ?Hw, ?Hr, ?Hl, ?Hi; try done. by destruct Hv as [->| ->].
Qed.

Lemma done_ok_view sp (v v' : View) :
  v_request v' = v_request v → v_log v' = v_log v → v_live v' = v_live v →
  v_result v' = v_result v ∨ v_result v' = None → done_ok sp v → done_ok sp v'.
Proof.
  intros Hr Hl Hi Hv [? ? (bm & Hc & Hb)]. constructor; rewrite ?Hr, ?Hl, ?Hi; [done..|]. exists bm. split; [done|].
  destruct Hv as [->| ->]; auto.
Qed.

(** ** Work left

    Three units for a request that waits, two for a lookup, one for a load. *)

Definition cost s rid : nat :=
  match dget (pc_requests s) rid with
  | Some r => match rq_phase r with PhaseLookup => 2 | PhasePlanAndLoad => 1 end
  | None => 0
  end.
Definition work s : nat :=
  (sum_list_with (cost s) (pc_in_flight s) + 3 * length (pc_pending_queue s ++ pc_submission_queue s))%nat.

Lemma sum_decreases (f f' : Z → nat) l l' :
  NoDup l' → (∀ i, i ∈ l' → i ∈ l ∧ (f' i < f i)%nat) → (∀ i, i ∈ l → 1 <= f i)%nat →
  (sum_list_with f' l' + length l <= sum_list_with f l)%nat.
Proof.
  intros Hnd Hin Hf. destruct (submseteq_Permutation l' l) as [k Hk].
  { apply NoDup_submseteq; [done|]. intros i Hi. by apply Hin. }
  rewrite Hk, sum_list_with_app, length_app.
  assert ((sum_list_with f' l' + length l' <= sum_list_with f l')%nat) as Hl'.
  { clear Hnd Hk Hf. induction l' as [|i l' IH]; [done|]. cbn. destruct (Hin i); [left|].
    specialize (IH ltac:(intros; apply Hin; by right)). lia. }
  enough ((length k <= sum_list_with f k)%nat) by lia.
  assert (∀ i, i ∈ k → (1 <= f i)%nat) as Hk' by (intros; apply Hf; rewrite Hk; set_solver).
  clear -Hk'. induction k as [|i k IH]; [done|]. cbn. specialize (IH ltac:(intros; apply Hk'; by right)).
  specialize (Hk' i (list_elem_of_here _ _)). lia.
Qed.

Lemma sum_le (f f' : Z → nat) l l' :
  NoDup l' → (∀ i, i ∈ l' → i ∈ l ∧ (f' i <= f i)%nat) → (sum_list_with f' l' <= sum_list_with f l)%nat.
Proof.
  intros Hnd Hin. pose proof (sum_decreases (S ∘ f) f' l l' Hnd) as H. cbn in H.
  enough (sum_list_with (S ∘ f) l = sum_list_with f l + length l)%nat as E.
  - rewrite E in H. enough ((sum_list_with f' l' + length l <= sum_list_with f l + length l)%nat) by lia. apply H.
    + intros i Hi. destruct (Hin i Hi). split; [done|]. cbn. lia.
    + intros. cbn. lia.
  - clear. induction l as [|i l IH]; [done|]. cbn in *. lia.
Qed.

Lemma sum_others (f f' : Z → nat) rid l l' :
  NoDup l' → filter (.≠ rid) l' = filter (.≠ rid) l → (∀ i, i ≠ rid → f' i = f i) →
  (sum_list_with f' l' <= sum_list_with f l + f' rid)%nat.
Proof.
  intros Hnd Heq Hf.
  assert ((sum_list_with f' (filter (.≠ rid) l') <= sum_list_with f l)%nat) as Hrest.
  { rewrite Heq. clear -Hf. induction l as [|i l IH]; [done|]. rewrite filter_cons. case_decide; cbn; [|lia].
    rewrite Hf by done. lia. }
  enough ((sum_list_with f' l' <= sum_list_with f' (filter (.≠ rid) l') + f' rid)%nat) by lia.
  clear -Hnd. induction Hnd as [|i l' Hi Hnd IH]; [cbn; lia|]. rewrite filter_cons. cbn.
  destruct (decide (i = rid)) as [->|Hne]; [rewrite decide_False by auto|rewrite decide_True by done; cbn; lia].
  enough (filter (.≠ rid) l' = l') as -> by lia. clear -Hi. induction l' as [|j l' IH]; [done|].
  apply not_elem_of_cons in Hi as [??]. rewrite filter_cons, decide_True by done. by rewrite IH.
Qed.
Lemma cost_le s rid : (cost s rid <= 2)%nat.
Proof. unfold cost. destruct (dget _ _) as [r|]; [|lia]. destruct (rq_phase r); lia. Qed.

(** *** Starting requests *)

Definition pop_queue s (queue : list (Z * Spec)) : State :=
  with_queues queue (pc_submission_queue s) (pc_next_request_id s)
    (mkCounts (ct_in_flight (pc_counts s)) (ct_pending (pc_counts s) - 1) (ct_lookup_phase (pc_counts s))
       (ct_load_phase (pc_counts s))) s.

Lemma pop_queue_inv s rid sp queue :
  ctl_inv s → pc_pending_queue s = (rid, sp) :: queue →
  ctl_inv (pop_queue s queue) ∧ spec_ok object_group_id sp ∧ rid < pc_next_request_id s ∧ fresh rid s ∧
  (∀ sp', (rid, sp') ∉ queue ++ pc_submission_queue s).
Proof.
  intros Hi Hq. destruct (ci_queue _ Hi) as [Hnd He]. rewrite Hq in Hnd, He. cbn in Hnd.
  apply NoDup_cons in Hnd as [Hnin Hnd]. destruct (He rid sp) as (Hsp & Hlt & Hfr); [left|].
  split_and!; try done.
  - destruct Hi. constructor; try done.
    + constructor; [done|]. intros i sp' Hin. apply He. by right.
    + intros i Hin. destruct (ci_in_flight0 i Hin) as [r Hl]. exists r. apply (live_ok_view _ (view_of i s)); auto.
    + intros i r Hr Hin. apply (done_ok_view _ (view_of i s)); auto.
    + cbn. rewrite ci_counts0. unfold counts_of. rewrite Hq. cbn. f_equal. lia.
  - intros sp' Hin. apply Hnin, list_elem_of_fmap. by exists (rid, sp').
Qed.

Lemma start_one s rid sp :
  ctl_inv s → spec_ok object_group_id sp → rid < pc_next_request_id s → fresh rid s →
  (∀ sp', (rid, sp') ∉ pc_pending_queue s ++ pc_submission_queue s) →
  Z.of_nat (length (pc_in_flight s)) < max_in_flight →
  ∃ s', _start_lookup_phase true rid sp s = (Ok tt, s') ∧ ctl_inv s' ∧ frame rid s s' ∧
    keeps s s' ∧ tracked rid sp s' ∧ awaited rid s'.
Proof.
  intros Hi Hsp Hlt (Hlog & Hreq & Hnf & Hres) Hnq Hlim.
  destruct (start_lookup_ok object_group_id (pc_tables s) rid sp (view_of rid s) (ci_tables _ Hi) Hsp) with (s := s)
    as ([] & s' & E & Hf & Hset); [done|by apply bool_decide_eq_false_2|done|done|done|apply Hi|].
  exists s'. split_and!; try done; [|eapply frame_keeps; [done| |done]; intros sp' [Hq|(r' & Hr' & _)];
    [by apply Hnq in Hq|congruence]|right; by apply settled_request in Hset|by eapply settled_awaited].
  eapply (handled rid sp); try done.
  pose proof (in_flight_length _ _ _ Hi Hf) as Hlen. rewrite bool_decide_eq_false_2 in Hlen by done. lia.
Qed.

Lemma start_work s rid sp queue s1 :
  pc_pending_queue s = (rid, sp) :: queue → frame rid (pop_queue s queue) s1 → NoDup (pc_in_flight s1) →
  (work s1 < work s)%nat.
Proof.
  intros Hq Hf Hnd. unfold work. rewrite (fr_pending _ _ _ Hf), (fr_submission _ _ _ Hf), Hq. cbn [length app].
  pose proof (sum_others (cost s) (cost s1) rid (pc_in_flight s) (pc_in_flight s1) Hnd (fr_in_flight _ _ _ Hf)) as H.
  pose proof (cost_le s1 rid). cbn. rewrite !length_app in *. enough (∀ i, i ≠ rid → cost s1 i = cost s i) as E.
  - specialize (H E). lia.
  - intros i Hi. unfold cost. by rewrite (fr_requests _ _ _ Hf).
Qed.

Lemma start_pending_ok fuel : ∀ s, ctl_inv s → (length (pc_pending_queue s) <= fuel)%nat →
  ∃ s', start_pending_loop true max_in_flight fuel s = (Ok tt, s') ∧ ctl_inv s' ∧
    frames (pc_pending_queue s).*1 s s' ∧ keeps s s' ∧ (work s' <= work s)%nat ∧
    (pc_pending_queue s ≠ [] → Z.of_nat (length (pc_in_flight s)) < max_in_flight → (work s' < work s)%nat) ∧
    (pc_pending_queue s' = [] ∨ max_in_flight <= Z.of_nat (length (pc_in_flight s'))).
Proof.
  induction fuel as [|fuel IH]; intros s Hi Hfuel.
  - destruct (pc_pending_queue s) eqn:Eq; [|cbn in Hfuel; lia]. exists s. split_and!; try done. by left.
  - cbn [start_pending_loop]. unfold gets, mbind, py_bind. destruct (pc_pending_queue s) as [|[rid sp] queue] eqn:Eq.
    { exists s. split_and!; try done. by left. }
    destruct (Z.ltb_spec (Z.of_nat (length (pc_in_flight s))) max_in_flight) as [Hlt|Hge].
    + destruct (pop_queue_inv s rid sp queue Hi Eq) as (Hi1 & Hsp & Hid & Hfr & Hnq).
      destruct (start_one (pop_queue s queue) rid sp Hi1 Hsp Hid Hfr Hnq Hlt) as (s1 & E & Hi2 & Hf & [Hk Hka] & Htr & Haw).
      pose proof (start_work s rid sp queue s1 Eq Hf (ci_nodup _ Hi2)) as Hws.
      destruct (IH s1 Hi2) as (s' & E' & Hi' & Hfs & [Hk' Hka'] & Hw & _ & Hend).
      { rewrite (fr_pending _ _ _ Hf). cbn in *. lia. }
      exists s'. split_and!; try done.
      * unfold modify. fold (pop_queue s queue). by rewrite E.
      * cbn. rewrite (fr_pending _ _ _ Hf) in Hfs. cbn in Hfs. pose proof (frames_cons _ _ _ _ _ Hf Hfs) as [].
        by constructor.
      * split; [intros i sp' [Hin|Hr]; [|apply Hk', Hk; by right]|intros i [Hin|Hr]; [|apply Hka', Hka; by right]];
          rewrite Eq in Hin; cbn in Hin.
        -- apply elem_of_cons in Hin as [[= -> ->]|Hin]; [by apply Hk'|]. apply Hk', Hk. by left.
        -- apply elem_of_cons in Hin as [->|Hin]; [by apply Hka'|]. apply Hka', Hka. by left.
      * lia.
      * lia.
    + exists s. split_and!; try done; [lia|by right].
Qed.

(** *** Adapters come and go *)

Lemma live_ok_extend T T' (v : View) r :
  sub_map (at_l2_adapters T) (at_l2_adapters T') →
  (∀ a, is_Some (dget (at_descriptors T) a) → is_Some (dget (at_descriptors T') a)) →
  live_ok object_group_id T v r → live_ok object_group_id T' v r.
Proof.
  intros Hs Hd []. constructor; try done.
  - intros a Ha. destruct (lv_results a Ha) as [ad Had]. exists ad. by apply Hs.
  - intros a t Ht. destruct (lv_lookups a t Ht) as (? & ad & ? & ?). split; [done|]. exists ad. auto.
  - intros a t Ht. destruct (lv_loads a t Ht) as (? & ad & n & ? & ?). split; [auto|]. exists ad, n. auto.
  - intros a Ha. destruct (lv_plan a Ha) as [ad Had]. exists ad. by apply Hs.
Qed.

Lemma apply_ops_tables ops : ∀ T,
  tables_ok T → efds_ok T → ops_ok (at_l2_adapters T) ops →
  let T' := foldl apply_adapter_op T ops in
  tables_ok T' ∧ efds_ok T' ∧ sub_map (at_l2_adapters T) (at_l2_adapters T') ∧
  (∀ a, is_Some (dget (at_descriptors T) a) → is_Some (dget (at_descriptors T') a)).
Proof.
  induction ops as [|[a ad desc d|a d] ops IH]; intros T HT He Hops; cbn [foldl]; cbv zeta.
  - by split_and!.
  - destruct Hops as (Hn & Hi & Hf & Hr). destruct (tables_add T a ad desc d HT He Hn Hi Hf) as [HT1 He1].
    destruct (IH _ HT1 He1 Hr) as (? & ? & Hs & Hd). split_and!; [done..| |].
    + intros a' ad' Ha'. apply Hs. cbn. rewrite dget_dset_ne; [done|]. intros <-. congruence.
    + intros a' Ha'. apply Hd. cbn. rewrite dget_dset. case_decide; [by eexists|done].
  - destruct (tables_remove_op T a d HT He) as (HT1 & He1 & Ea & Ed).
    destruct (IH _ HT1 He1) as (? & ? & Hs & Hd); [by rewrite Ea|]. rewrite Ea, Ed in *. done.
Qed.

Lemma apply_ops_inv s : ctl_inv s →
  let s' := (_apply_pending_adapter_ops s).2 in
  ctl_inv s' ∧ _apply_pending_adapter_ops s = (Ok tt, s').
Proof.
  intros Hi. split; [|done]. cbn.
  destruct (apply_ops_tables (pc_pending_adapter_ops s) (pc_tables s)) as (HT & He & Hs & Hd); [apply Hi..|].
  destruct Hi. constructor; cbn;
    [done|exact HT|exact He|exact I|done|by destruct ci_queue0| |done..].
  intros rid Hin. destruct (ci_in_flight0 rid Hin) as [r Hl]. exists r.
  by eapply live_ok_extend; [exact Hs|exact Hd|].
Qed.

(** the adapters of the controller as a roster *)
Definition roster_at T (ops : list Op) : roster Ad config :=
  mkRoster (at_l2_adapters T) (at_draining T) (at_done T) ops.
Definition prefetch_roster s : roster Ad config := roster_at (pc_tables s) (pc_pending_adapter_ops s).

Lemma apply_ops_roster ops : ∀ T, rtc roster_turn (roster_at T ops) (roster_at (foldl apply_adapter_op T ops) []).
Proof.
  induction ops as [|op ops IH]; intros T; [done|]. eapply rtc_l; [by apply (turn_obey op ops)|]. cbn [foldl].
  replace (obey op ops (roster_at T (op :: ops))) with (roster_at (apply_adapter_op T op) ops); [apply IH|].
  destruct op as [a ad desc d|a d]; cbn; [done|]. by destruct (dmem _ a).
Qed.

(** removing an adapter that no request in flight uses *)
Lemma live_ok_detach T (v : View) r a ad d :
  request_uses a r = false → live_ok object_group_id T v r → live_ok object_group_id (detach T a ad d) v r.
Proof.
  intros Hu []. unfold request_uses, dmem in Hu. constructor; try done; cbn.
  - intros a' Ha'. rewrite dget_ddel. case_decide as E; [|auto]. subst. destruct Ha' as [x Hx]. rewrite Hx in Hu.
    by rewrite orb_true_r in Hu.
  - intros a' t Ht. destruct (lv_lookups a' t Ht) as (? & ad' & Had' & ?). split; [done|]. exists ad'.
    rewrite dget_ddel. case_decide as E; [|done]. subst. by rewrite Ht in Hu.
  - intros a' t Ht. destruct (lv_loads a' t Ht) as (? & ad' & n & Had' & ?).
    assert (a ≠ a') by (intros ->; rewrite Ht, orb_true_r in Hu; done).
    rewrite !dget_ddel_ne by done. split; [done|]. by exists ad', n.
  - intros a' Ha'. rewrite dget_ddel. case_decide as E; [|auto]. subst. destruct Ha' as [x Hx]. rewrite Hx in Hu.
    by rewrite orb_true_r in Hu.
Qed.

(** only the adapter tables change, and only by detaching *)
Record detached s s' : Prop := {
  de_world : pc_world s' = pc_world s;
  de_requests : pc_requests s' = pc_requests s;
  de_in_flight : pc_in_flight s' = pc_in_flight s;
  de_results : pc_completed_results s' = pc_completed_results s;
  de_log : pc_log s' = pc_log s;
  de_pending : pc_pending_queue s' = pc_pending_queue s;
  de_submission : pc_submission_queue s' = pc_submission_queue s;
  de_ops : pc_pending_adapter_ops s' = pc_pending_adapter_ops s;
  de_roster : rtc roster_turn (prefetch_roster s) (prefetch_roster s') }.

#[local] Instance detached_pre : PreOrder detached.
Proof.
  split; [by constructor|]. intros s1 s2 s3 [] []. constructor; try congruence. by etrans.
Qed.

Lemma finalize_one a s : ctl_inv s → is_Some (dget (at_draining (pc_tables s)) a) →
  ∃ s', finalize_adapter a s = (Ok tt, s') ∧ ctl_inv s' ∧
    detached s s' ∧
    (∀ a', a ≠ a' → dget (at_draining (pc_tables s')) a' = dget (at_draining (pc_tables s)) a').
Proof.
  intros Hi Ha. destruct (tb_draining _ (ci_tables _ Hi) a Ha) as [ad Had]. destruct Ha as [d Hd].
  unfold finalize_adapter, gets, mbind, py_bind. cbn. destruct (_adapter_in_use s a) eqn:Hu.
  { exists s. split_and!; done. }
  unfold getitem, lift. rewrite Had, Hd. cbn. fold (detach (pc_tables s) a ad d).
  eexists. split; [done|]. destruct (tables_detach (pc_tables s) a ad d (ci_tables _ Hi) (ci_efds _ Hi) Had) as [HT He].
  split_and!; cbn; [|constructor; try done; apply rtc_once; exact (turn_expel a d (prefetch_roster s) Hd)
    |intros a' Hne; by rewrite dget_ddel_ne].
  destruct Hi. constructor; cbn; [done|exact HT|exact He| |done|by destruct ci_queue0| |done..].
  - eapply ops_ok_sub; [|exact ci_ops0]. cbn. intros a' ad'. rewrite dget_ddel. by case_decide.
  - intros rid Hin. destruct (ci_in_flight0 rid Hin) as [r Hl]. exists r.
    apply live_ok_detach; [|done]. unfold _adapter_in_use in Hu.
    apply not_true_is_false. intros Hx. apply not_true_iff_false in Hu. apply Hu.
    apply existsb_exists. exists rid. split; [by apply list_elem_of_In|].
    pose proof (lv_request _ _ _ _ Hl) as Hr. cbn in Hr. by rewrite Hr.
Qed.

Lemma finalize_all l : NoDup l → ∀ s, ctl_inv s →
  (∀ a, a ∈ l → is_Some (dget (at_draining (pc_tables s)) a)) →
  ∃ s', for_each finalize_adapter l s = (Ok tt, s') ∧ ctl_inv s' ∧ detached s s'.
Proof.
  induction 1 as [|a l Hnin Hnd IH]; intros s Hi Hl; [by exists s|].
  destruct (finalize_one a s Hi) as (s1 & E & Hi1 & Hf & Hd); [apply Hl; left|].
  destruct (IH s1 Hi1) as (s' & E' & Hi' & Hf').
  { intros a' Hin. rewrite Hd; [apply Hl; by right|]. intros <-. done. }
  exists s'. split_and!; [|done|by etrans]. cbn [for_each]. unfold mbind, py_bind. by rewrite E.
Qed.

(** *** Submissions and signals *)

Lemma drain_inv s : ctl_inv s → ctl_inv (_drain_submission_queue s).2.
Proof.
  intros Hi. destruct (ci_queue _ Hi) as [Hnd He]. destruct Hi. constructor; try done.
  - constructor; cbn; rewrite app_nil_r; [done|]. intros rid sp Hin. by apply He.
  - intros i Hin. destruct (ci_in_flight0 i Hin) as [r Hl]. exists r. apply (live_ok_view _ (view_of i s)); auto.
  - intros i r Hr Hin. apply (done_ok_view _ (view_of i s)); auto.
  - cbn. rewrite ci_counts0. unfold counts_of. cbn. f_equal. rewrite length_app. lia.
Qed.

Lemma collect_ok ready : ∀ s lookups loads, ctl_inv s →
  ∃ lookups' loads' s', collect_ready submission_fd ready lookups loads s = (Ok (lookups', loads'), s') ∧
    ctl_inv s' ∧ pc_requests s' = pc_requests s ∧ pc_in_flight s' = pc_in_flight s ∧
    pc_tables s' = pc_tables s ∧
    (∀ a ad, dget (at_l2_adapters (pc_tables s)) a = Some ad → a ∈ lookups ∨ lookup_fd ad ∈ ready → a ∈ lookups') ∧
    (∀ a ad, dget (at_l2_adapters (pc_tables s)) a = Some ad → a ∈ loads ∨ load_fd ad ∈ ready → a ∈ loads').
Proof.
  induction ready as [|fd ready IH]; intros s lookups loads Hi; cbn [collect_ready].
  { exists lookups, loads, s. split_and!; try done.
    all: intros a ad _ [?|Hn]; [done|by apply not_elem_of_nil in Hn]. }
  destruct (Z.eqb_spec fd submission_fd) as [->|Hne].
  - destruct (IH (_drain_submission_queue s).2 lookups loads (drain_inv s Hi))
      as (lk & ld & s' & E & Hi' & Hr & Hf & HT & Hlk & Hld).
    exists lk, ld, s'. split_and!; try done.
    + intros a ad Ha [?|Hin]; [eapply Hlk; [exact Ha|by left]|].
      apply elem_of_cons in Hin as [Hin|?]; [|eapply Hlk; [exact Ha|by right]].
      by destruct (ef_submission _ (ci_efds _ Hi) a ad Ha) as [? _].
    + intros a ad Ha [?|Hin]; [eapply Hld; [exact Ha|by left]|].
      apply elem_of_cons in Hin as [Hin|?]; [|eapply Hld; [exact Ha|by right]].
      by destruct (ef_submission _ (ci_efds _ Hi) a ad Ha) as [_ ?].
  - unfold mbind, py_bind, gets.
    destruct (dget (at_lookup_efd (pc_tables s)) fd) as [a1|] eqn:E1; [|destruct (dget (at_load_efd (pc_tables s)) fd) as [a2|] eqn:E2].
    + destruct (IH s (lookups ++ [a1]) loads Hi) as (lk & ld & s' & E & Hi' & Hr & Hf & HT & Hlk & Hld).
      exists lk, ld, s'. split_and!; try done.
      * intros a ad Ha Hin. eapply Hlk; [exact Ha|]. rewrite elem_of_app.
        destruct Hin as [?|Hin]; [by left; left|]. apply elem_of_cons in Hin as [<-|?]; [|by right].
        left; right. rewrite (ef_lookup _ (ci_efds _ Hi) a ad Ha) in E1. injection E1 as ->. by apply list_elem_of_singleton.
      * intros a ad Ha [?|Hin]; [eapply Hld; [exact Ha|by left]|].
        apply elem_of_cons in Hin as [<-|?]; [|eapply Hld; [exact Ha|by right]].
        destruct (ef_lookup_inv _ (ci_efds _ Hi) _ _ E1) as (ad1 & Ha1 & Heq).
        by destruct (ef_apart _ (ci_efds _ Hi) a1 ad1 a ad).
    + destruct (IH s lookups (loads ++ [a2]) Hi) as (lk & ld & s' & E & Hi' & Hr & Hf & HT & Hlk & Hld).
      exists lk, ld, s'. split_and!; try done.
      * intros a ad Ha [?|Hin]; [eapply Hlk; [exact Ha|by left]|].
        apply elem_of_cons in Hin as [<-|?]; [|eapply Hlk; [exact Ha|by right]].
        by rewrite (ef_lookup _ (ci_efds _ Hi) a ad Ha) in E1.
      * intros a ad Ha Hin. eapply Hld; [exact Ha|]. rewrite elem_of_app.
        destruct Hin as [?|Hin]; [by left; left|]. apply elem_of_cons in Hin as [<-|?]; [|by right].
        left; right. rewrite (ef_load _ (ci_efds _ Hi) a ad Ha) in E2. injection E2 as ->. by apply list_elem_of_singleton.
    + destruct (IH s lookups loads Hi) as (lk & ld & s' & E & Hi' & Hr & Hf & HT & Hlk & Hld).
      exists lk, ld, s'. split_and!; try done.
      * intros a ad Ha [?|Hin]; [eapply Hlk; [exact Ha|by left]|].
        apply elem_of_cons in Hin as [<-|?]; [|eapply Hlk; [exact Ha|by right]].
        by rewrite (ef_lookup _ (ci_efds _ Hi) a ad Ha) in E1.
      * intros a ad Ha [?|Hin]; [eapply Hld; [exact Ha|by left]|].
        apply elem_of_cons in Hin as [<-|?]; [|eapply Hld; [exact Ha|by right]].
        by rewrite (ef_load _ (ci_efds _ Hi) a ad Ha) in E2.
Qed.

Lemma collect_world ready : ∀ s lookups loads,
  pc_world (collect_ready submission_fd ready lookups loads s).2 = pc_world s.
Proof.
  induction ready as [|fd ready IH]; intros s lookups loads; cbn [collect_ready]; [done|].
  destruct (fd =? submission_fd); unfold mbind, py_bind, gets; [exact (IH (_drain_submission_queue s).2 lookups loads)|].
  destruct (dget (at_lookup_efd _) fd); [apply IH|]. destruct (dget (at_load_efd _) fd); apply IH.
Qed.

Lemma collect_queue ready : ∀ s lookups loads,
  let s' := (collect_ready submission_fd ready lookups loads s).2 in
  pc_pending_queue s' ++ pc_submission_queue s' = pc_pending_queue s ++ pc_submission_queue s ∧
  pc_pending_adapter_ops s' = pc_pending_adapter_ops s ∧
  pc_completed_results s' = pc_completed_results s ∧ pc_log s' = pc_log s ∧
  (submission_fd ∈ ready ∨ pc_submission_queue s = [] → pc_submission_queue s' = []).
Proof.
  induction ready as [|fd ready IH]; intros s lookups loads; cbn [collect_ready].
  { split_and!; [done..|]. intros [Hin|?]; [by apply not_elem_of_nil in Hin|done]. }
  destruct (Z.eqb_spec fd submission_fd) as [->|Hne]; unfold mbind, py_bind, gets.
  - destruct (IH (_drain_submission_queue s).2 lookups loads) as (Hq & Ho & Hc & Hlg & Hs). split_and!.
    + etrans; [exact Hq|]. cbn. by rewrite app_nil_r.
    + exact Ho.
    + exact Hc.
    + exact Hlg.
    + intros _. apply Hs. by right.
  - assert (∀ lookups' loads', let s' := (collect_ready submission_fd ready lookups' loads' s).2 in
      pc_pending_queue s' ++ pc_submission_queue s' = pc_pending_queue s ++ pc_submission_queue s ∧
      pc_pending_adapter_ops s' = pc_pending_adapter_ops s ∧
      pc_completed_results s' = pc_completed_results s ∧ pc_log s' = pc_log s ∧
      (submission_fd ∈ fd :: ready ∨ pc_submission_queue s = [] → pc_submission_queue s' = [])) as Hgo.
    { intros lk ld. destruct (IH s lk ld) as (Hq & Ho & Hc & Hlg & Hs). split_and!; [done..|].
      rewrite elem_of_cons. intros [[?|?]|?]; [congruence|apply Hs; by left|apply Hs; by right]. }
    destruct (dget (at_lookup_efd _) fd); [apply Hgo|]. destruct (dget (at_load_efd _) fd); apply Hgo.
Qed.


(** ** One iteration of the loop *)

(** every descriptor is readable *)
Definition covers (ready : list Z) (A : list (Z * Ad)) : Prop :=
  submission_fd ∈ ready ∧
  ∀ a ad, dget A a = Some ad → lookup_fd ad ∈ ready ∧ load_fd ad ∈ ready.

Lemma uses_adapter s rid : ctl_inv s → rid ∈ pc_in_flight s → ∃ a, is_Some (dget (at_l2_adapters (pc_tables s)) a).
Proof.
  intros Hi Hin. destruct (ci_in_flight _ Hi rid Hin) as [r Hl]. destruct (lv_used _ _ _ _ Hl) as (a & [[t Ht]|Ha]); exists a.
  - destruct (lv_lookups _ _ _ _ Hl a t Ht) as (_ & ad & ? & _). by exists ad.
  - by apply (lv_results _ _ _ _ Hl).
Qed.

Lemma advance_stage s lookups loads : ctl_inv s →
  ∃ s', when (nonempty lookups || nonempty loads)
          (for_each (λ rid, try_ (advance rid lookups loads)) (pc_in_flight s)) s = (Ok tt, s') ∧
    ctl_inv s' ∧ keeps s s' ∧ pc_tables s' = pc_tables s ∧
    pc_pending_adapter_ops s' = pc_pending_adapter_ops s ∧
    pc_pending_queue s' = pc_pending_queue s ∧ pc_submission_queue s' = pc_submission_queue s ∧
    pc_log s `prefix_of` pc_log s' ∧ w_evolves (pc_world s) (pc_world s') ∧ (work s' <= work s)%nat ∧
    (pc_in_flight s = [] → pc_in_flight s' = []) ∧
    ((∀ a, is_Some (dget (at_l2_adapters (pc_tables s)) a) → a ∈ lookups ∧ a ∈ loads) →
     all_misses s' <= all_misses s → (work s' + length (pc_in_flight s) <= work s)%nat).
Proof.
  intros Hi.
  destruct (advance_all lookups loads (pc_in_flight s) (ci_nodup _ Hi) s Hi) as (s' & E & Hi' & Hf & Hp & Hq & Hk & Hmv); [done|].
  destruct (nonempty lookups || nonempty loads) eqn:Hn.
  2: { exists s. split_and!; try done. intros Hall _. apply orb_false_iff in Hn as [->%nonempty_false _].
       destruct (pc_in_flight s) as [|rid l] eqn:El; [cbn; lia|].
       destruct (uses_adapter s rid Hi) as [a Ha]; [rewrite El; left|].
       destruct (Hall a Ha) as [Hx _]. by apply not_elem_of_nil in Hx. }
  assert (∀ i, i ∈ pc_in_flight s' → i ∈ pc_in_flight s ∧
    ∃ r, dget (pc_requests s) i = Some r ∧ advanced lookups loads i r s s') as Hsub.
  { intros i Hin. destruct (decide (i ∈ pc_in_flight s)) as [Hx|Hx]; [|by apply (fs_in_flight _ _ _ Hf i Hx) in Hin].
    split; [done|]. destruct (ci_in_flight _ Hi i Hx) as [r Hl]. pose proof (lv_request _ _ _ _ Hl) as Hr.
    exists r. split; [done|]. by apply Hmv. }
  exists s'. split_and!; try done; try apply Hf.
  - unfold work. rewrite Hp, Hq. apply Nat.add_le_mono_r, sum_le; [apply Hi'|]. intros i Hin.
    destruct (Hsub i Hin) as (Hx & r & Hr & [Hl _]). split; [done|]. unfold cost. rewrite Hr.
    pose proof (cost_le s' i) as Hle. unfold cost in Hle. destruct (rq_phase r) eqn:Ep; [done|].
    destruct (dget (pc_requests s') i) as [r'|] eqn:Er'; [|lia]. by rewrite (Hl eq_refl r' Hin Er').
  - intros E0. destruct (pc_in_flight s') as [|i l]; [done|]. destruct (Hsub i) as [Hx _]; [left|].
    rewrite E0 in Hx. by apply not_elem_of_nil in Hx.
  - intros Hall Hms. unfold work. rewrite Hp, Hq.
    enough ((sum_list_with (cost s') (pc_in_flight s') + length (pc_in_flight s)
             <= sum_list_with (cost s) (pc_in_flight s))%nat) by lia.
    apply sum_decreases; [apply Hi'| |].
    + intros i Hin. destruct (Hsub i Hin) as (Hx & r & Hr & [_ Hl]). split; [done|].
      destruct (uses_adapter s i Hi Hx) as [a Ha]. destruct (Hall a Ha) as [Hlk Hld].
      specialize (Hl Hall ltac:(by intros ->; apply not_elem_of_nil in Hlk)
                  ltac:(by intros ->; apply not_elem_of_nil in Hld) Hms).
      unfold cost. rewrite Hr. destruct (rq_phase r); [|done].
      destruct (dget (pc_requests s') i) as [r'|] eqn:Er'; [|lia]. rewrite (Hl r' Hin Er'). lia.
    + intros i Hin. destruct (ci_in_flight _ Hi i Hin) as [r Hl]. pose proof (lv_request _ _ _ _ Hl) as Hr. cbn in Hr.
      unfold cost. rewrite Hr. destruct (rq_phase r); lia.
Qed.

Lemma work_same s s' : pc_requests s' = pc_requests s → pc_in_flight s' = pc_in_flight s →
  pc_pending_queue s' ++ pc_submission_queue s' = pc_pending_queue s ++ pc_submission_queue s → work s' = work s.
Proof. intros Hr Hf Hq. unfold work, cost. by rewrite Hr, Hf, Hq. Qed.

Lemma keeps_same s s' : pc_requests s' = pc_requests s → pc_in_flight s' = pc_in_flight s →
  pc_completed_results s' = pc_completed_results s →
  pc_pending_queue s' ++ pc_submission_queue s' = pc_pending_queue s ++ pc_submission_queue s → keeps s s'.
Proof. intros Hr Hf Hc Hq. unfold keeps, tracked, awaited. by rewrite Hr, Hf, Hc, Hq. Qed.

Abbreviation iteration := (prefetch_iteration object_group_id true policy_ max_in_flight submission_fd).

(** the adapters once the queued operations have been applied *)
Definition attached s : list (Z * Ad) :=
  at_l2_adapters (foldl apply_adapter_op (pc_tables s) (pc_pending_adapter_ops s)).

(** the first two stages *)
Lemma signals_ok ready s : ctl_inv s →
  ∃ lookups loads s', (_ ← _apply_pending_adapter_ops; collect_ready submission_fd ready [] []) s = (Ok (lookups, loads), s') ∧
    ctl_inv s' ∧ keeps s s' ∧ work s' = work s ∧ pc_pending_adapter_ops s' = [] ∧
    pc_tables s' = foldl apply_adapter_op (pc_tables s) (pc_pending_adapter_ops s) ∧
    pc_log s' = pc_log s ∧ pc_world s' = pc_world s ∧
    (submission_fd ∈ ready → pc_submission_queue s' = []) ∧
    (covers ready (attached s) → ∀ a, is_Some (dget (attached s) a) → a ∈ lookups ∧ a ∈ loads).
Proof.
  intros Hi. destruct (apply_ops_inv s Hi) as [Hi1 E1]. set (s1 := (_apply_pending_adapter_ops s).2) in *.
  destruct (collect_ok ready s1 [] [] Hi1) as (lookups & loads & s2 & E2 & Hi2 & Hr & Hf & HT & Hlk & Hld).
  destruct (collect_queue ready s1 [] []) as (Hq & Ho & Hc & Hlg & Hs). rewrite E2 in Hq, Ho, Hc, Hlg, Hs. cbn [snd] in *.
  exists lookups, loads, s2. split_and!; try done.
  - by apply keeps_same.
  - by apply (work_same s s2).
  - pose proof (collect_world ready s1 [] []) as Hw. by rewrite E2 in Hw.
  - intros Hin. apply Hs. by left.
  - intros [_ Hcov] a [ad Ha]. destruct (Hcov a ad Ha). split; [eapply Hlk|eapply Hld]; (eauto).
Qed.

Lemma iteration_ok ready s : ctl_inv s →
  ∃ s', iteration ready s = (Ok tt, s') ∧ ctl_inv s' ∧ keeps s s' ∧ pc_pending_adapter_ops s' = [] ∧
    pc_log s `prefix_of` pc_log s' ∧ (work s' <= work s)%nat ∧
    w_evolves (pc_world s) (pc_world s') ∧ rtc roster_turn (prefetch_roster s) (prefetch_roster s') ∧
    (0 < max_in_flight → covers ready (attached s) → all_misses s' <= all_misses s → (work s' <= pred (work s))%nat).
Proof.
  intros Hi. destruct (signals_ok ready s Hi) as (lookups & loads & s2 & E2 & Hi2 & Hk2 & Hw2 & Ho2 & HT2 & Hl2 & Hwd2 & Hs2 & Hc2).
  destruct (advance_stage s2 lookups loads Hi2) as (s3 & E3 & Hi3 & Hk3 & HT3 & Ho3 & Hp3 & Hq3 & Hl3 & Hwd3 & Hle3 & He3 & Hw3).
  destruct (start_pending_ok (length (pc_pending_queue s3)) s3 Hi3) as (s4 & E4 & Hi4 & Hf4 & Hk4 & Hle4 & Hlt4 & _); [done|].
  destruct (finalize_all (dkeys (at_draining (pc_tables s4)))) with (s := s4) as (s5 & E5 & Hi5 & Hd5);
    [apply (ci_tables _ Hi4)|done|by intros a Ha; apply elem_of_dkeys|].
  assert (work s5 = work s4) as Hw5
    by (apply work_same; [apply Hd5..|by rewrite (de_pending _ _ Hd5), (de_submission _ _ Hd5)]).
  exists s5. split_and!; try done.
  - unfold prefetch_iteration. unfold mbind, py_bind in *. destruct (_apply_pending_adapter_ops s) as [[[]|] s1]; [|done].
    rewrite E2. unfold gets. rewrite E3. unfold try_, _start_pending_requests, mbind, py_bind, gets. rewrite E4.
    unfold _finalize_drained_adapters, mbind, py_bind, gets. done.
  - etrans; [exact Hk2|]. etrans; [exact Hk3|]. etrans; [exact Hk4|]. apply keeps_same; [apply Hd5..|].
    by rewrite (de_pending _ _ Hd5), (de_submission _ _ Hd5).
  - rewrite (de_ops _ _ Hd5), (fs_pending_ops _ _ _ Hf4). congruence.
  - rewrite (de_log _ _ Hd5), <- Hl2. etrans; [exact Hl3|apply Hf4].
  - lia.
  - rewrite (de_world _ _ Hd5), <- Hwd2. etrans; [exact Hwd3|apply Hf4].
  - etrans; [|exact (de_roster _ _ Hd5)]. unfold prefetch_roster. rewrite (fs_tables _ _ _ Hf4), HT3, HT2.
    rewrite (fs_pending_ops _ _ _ Hf4), Ho3, Ho2. apply apply_ops_roster.
  - intros Hmax Hc Hms. rewrite HT2 in Hw3.
    pose proof (all_misses_mono s3 s4 (fs_prefix _ _ _ Hf4)) as Hm4.
    unfold all_misses in Hms, Hm4, Hw3. rewrite (de_log _ _ Hd5), <- Hl2 in Hms. specialize (Hw3 (Hc2 Hc) ltac:(lia)).
    destruct (pc_in_flight s2) eqn:Ef; [|cbn in Hw3; lia]. specialize (He3 eq_refl). rewrite He3 in Hlt4.
    rewrite Hp3 in Hlt4. destruct (pc_pending_queue s2) eqn:Ep; [|specialize (Hlt4 ltac:(done) ltac:(done)); lia].
    assert (work s2 = 0%nat) as E0; [|lia]. unfold work. by rewrite Ef, Ep, (Hs2 (proj1 Hc)).
Qed.

(** ** Runs *)

(** the adapters a controller is created with *)
Definition adapters_ok (l2_adapters : list Ad) (descriptors : list (AdapterDescriptor config)) : Prop :=
  length descriptors = length l2_adapters ∧ NoDup (ad_index <$> descriptors) ∧
  NoDup (submission_fd :: (lookup_fd <$> l2_adapters) ++ (load_fd <$> l2_adapters)).

Lemma init_tables_ok l2_adapters descriptors : adapters_ok l2_adapters descriptors →
  tables_ok (init_tables l2_adapters descriptors) ∧ efds_ok (init_tables l2_adapters descriptors).
Proof.
  intros (Hlen & Hids & Hfds). set (A := zip (ad_index <$> descriptors) l2_adapters).
  assert (Hk : dkeys A = ad_index <$> descriptors) by (apply fst_zip; rewrite length_fmap; lia).
  assert (Hv : A.*2 = l2_adapters) by (apply snd_zip; rewrite length_fmap; lia).
  assert (Hwf : dwf A) by (unfold dwf; by rewrite Hk).
  assert (Hd : dkeys ((λ desc : AdapterDescriptor config, (ad_index desc, desc)) <$> descriptors) = ad_index <$> descriptors)
    by (unfold dkeys; by rewrite <- list_fmap_compose).
  apply NoDup_cons in Hfds as [Hsub [Hlk [Hap Hld]]%NoDup_app]. rewrite <- Hv in *.
  assert (Hin : ∀ a ad, dget A a = Some ad → ad ∈ A.*2).
  { intros a ad Ha%dget_elem_of. apply list_elem_of_fmap. by exists (a, ad). }
  unfold init_tables. cbv zeta. rewrite Hv. fold A. rewrite (dupdate_app A []) by done.
  rewrite (dupdate_app ((λ desc, (ad_index desc, desc)) <$> descriptors) [])
    by (unfold dwf; cbn [app]; by rewrite Hd). cbn [app]. split; constructor; cbn.
  - done.
  - unfold dwf. by rewrite Hd.
  - intros a. by rewrite <- !elem_of_dkeys, Hk, Hd.
  - intros a d Ha%dget_elem_of%list_elem_of_fmap. by destruct Ha as (d' & [= -> ->] & _).
  - exact NoDup_nil_2.
  - intros a [? [=]].
  - intros a ad Ha. apply dget_by_fd; [done..|by exists ad].
  - intros a ad Ha. apply dget_by_fd; [done..|by exists ad].
  - intros fd a. by apply dget_by_fd.
  - intros fd a. by apply dget_by_fd.
  - intros a ad a' ad' Ha Ha' E. apply (Hap (lookup_fd ad)); [|rewrite E]; apply list_elem_of_fmap_2; eauto.
  - intros a ad Ha. split; intros E; apply Hsub; rewrite <- E; apply elem_of_app; [left|right];
      apply list_elem_of_fmap_2; eauto.
Qed.

Inductive step : State → State → Prop :=
| step_iterate ready s : step s (iteration ready s).2
| step_submit sp s : spec_ok object_group_id sp → step s (submit_prefetch_request s sp).2
| step_query rid s : step s (query_prefetch_result s rid).2
| step_adapter op s :
    ops_ok (at_l2_adapters (pc_tables s)) (pc_pending_adapter_ops s ++ [op]) →
    step s (queue_adapter_op s op)
| step_world w s : w_evolves (pc_world s) w → step s (with_world w s).

Inductive reachable : State → Prop :=
| reach_init w l2_adapters descriptors s :
    w_ok w → adapters_ok l2_adapters descriptors →
    init_controller w l2_adapters descriptors = Ok s → reachable s
| reach_step s s' : reachable s → step s s' → reachable s'.

Lemma init_inv w l2_adapters descriptors s : w_ok w → adapters_ok l2_adapters descriptors →
  init_controller w l2_adapters descriptors = Ok s → ctl_inv s.
Proof.
  intros Hw Ha. unfold init_controller. rewrite bool_decide_eq_true_2 by apply Ha. intros [= <-].
  destruct (init_tables_ok _ _ Ha) as [HT He]. constructor; cbn; try done.
  - exact NoDup_nil_2.
  - constructor; [exact NoDup_nil_2|]. intros rid sp Hin. by apply not_elem_of_nil in Hin.
  - intros rid Hin. by apply not_elem_of_nil in Hin.
  - intros rid _. split_and!; try done. apply not_elem_of_nil.
  - lia.
Qed.

Lemma submit_inv s sp : ctl_inv s → spec_ok object_group_id sp → ctl_inv (submit_prefetch_request s sp).2.
Proof.
  intros Hi Hsp. destruct (ci_queue _ Hi) as [Hnd He]. destruct Hi. constructor; try done.
  - constructor; cbn; rewrite app_assoc.
    + rewrite fmap_app. apply NoDup_app. split_and!; [done| |apply NoDup_singleton].
      intros i Hin Hin'. apply list_elem_of_singleton in Hin'. cbn in Hin'. subst.
      apply list_elem_of_fmap in Hin as ([j sp'] & Hj & Hin). destruct (He j sp' Hin) as (_ & ? & _). cbn in Hj. lia.
    + intros i sp' [Hin|Hin]%elem_of_app; [destruct (He i sp' Hin) as (? & ? & ?); split_and!; [done|lia|done]|].
      apply list_elem_of_singleton in Hin as [= -> ->]. split_and!; [done|lia|]. apply ci_next0. lia.
  - cbn. lia.
  - intros i Hle. cbn in Hle. apply ci_next0. lia.
Qed.

Lemma query_inv s rid : ctl_inv s → ctl_inv (query_prefetch_result s rid).2.
Proof.
  intros Hi. unfold query_prefetch_result.
  assert (∀ i, dget (ddel (pc_completed_results s) rid) i = dget (pc_completed_results s) i
            ∨ dget (ddel (pc_completed_results s) rid) i = None) as Hdel.
  { intros i. rewrite dget_ddel. case_decide; auto. }
  assert (∀ i, fresh i s → fresh i (query_prefetch_result s rid).2) as Hfr.
  { intros i (? & ? & ? & Hn). unfold query_prefetch_result. destruct (dget _ rid); [|done].
    split_and!; try done. cbn. destruct (Hdel i); congruence. }
  unfold query_prefetch_result in Hfr. destruct (dget (pc_completed_results s) rid); [|done].
  destruct Hi. constructor; cbn; try done.
  - destruct ci_queue0 as [Hnd He]. constructor; [done|]. intros i sp Hin. destruct (He i sp Hin) as (? & ? & ?).
    split_and!; [done..|]. by apply Hfr.
  - intros i Hin. destruct (ci_in_flight0 i Hin) as [r Hl]. exists r. apply (live_ok_view _ (view_of i s)); auto. apply Hdel.
  - intros i r Hr Hin. apply (done_ok_view _ (view_of i s)); auto. apply Hdel.
  - intros i Hi. by apply Hfr, ci_next0.
Qed.

Lemma ctl_step_inv s s' : ctl_inv s → step s s' → ctl_inv s' ∧ ∀ rid sp, tracked rid sp s → tracked rid sp s'.
Proof.
  intros Hi Hs. revert Hi. destruct Hs as [ready s|sp s Hsp|rid s|op s Hops|w s Hw]; intros Hi.
  - destruct (iteration_ok ready s Hi) as (s1 & E & Hi1 & Hk & _). rewrite E. split; [done|apply Hk].
  - split; [by apply submit_inv|]. intros i sp' [Hin|Hr]; [left|by right]. cbn. set_solver.
  - split; [by apply query_inv|]. unfold query_prefetch_result. by destruct (dget _ _).
  - split; [|done]. destruct Hi. constructor; cbn; try done. by destruct ci_queue0.
  - split; [|done]. destruct Hi. constructor; cbn; try done.
    + by eapply w_ok_evolves.
    + by destruct ci_queue0.
    + intros i Hin. destruct (ci_in_flight0 i Hin) as [r Hl]. exists r. by apply (live_ok_world _ _ (view_of i s)).
    + intros i r Hr Hin. apply (done_ok_view _ (view_of i s)); auto.
Qed.

Lemma ctl_run_inv s s' : ctl_inv s → rtc step s s' → ctl_inv s' ∧ ∀ rid sp, tracked rid sp s → tracked rid sp s'.
Proof.
  intros Hi Hr. induction Hr as [s|s s1 s' Hs Hr IH]; [done|].
  destruct (ctl_step_inv s s1 Hi Hs) as [Hi1 Hk]. destruct (IH Hi1) as [Hi' Hk']. auto.
Qed.

Lemma reachable_inv s : reachable s → ctl_inv s.
Proof.
  induction 1 as [w ads ds s Hw Ha E|s s' _ IH Hs]; [by eapply init_inv|]. by apply (ctl_step_inv s s').
Qed.

Lemma tracked_outcome s rid sp : ctl_inv s → tracked rid sp s →
  ((rid, sp) ∈ pc_pending_queue s ++ pc_submission_queue s ∧ log_of rid s = [] ∧
     (query_prefetch_result s rid).1 = None)
  ∨ (rid ∈ pc_in_flight s ∧ (query_prefetch_result s rid).1 = None ∧
     ∃ r, dget (pc_requests s) rid = Some r ∧ spec_of r = sp ∧ held_ok object_group_id r (log_of rid s))
  ∨ (rid ∉ pc_in_flight s) ∧ (∃ bm, completed_ok sp (log_of rid s) bm ∧
       ∀ b, (query_prefetch_result s rid).1 = Some b → b = bm).
Proof.
  intros Hi [Hq|(r & Hr & Hs)].
  - left. split; [done|]. destruct (ci_queue _ Hi) as [_ He]. destruct (He rid sp Hq) as (_ & _ & ? & _ & _ & Hn).
    split; [done|]. unfold query_prefetch_result. by rewrite Hn.
  - right. destruct (decide (rid ∈ pc_in_flight s)) as [Hin|Hin]; [left|right]; split; try done.
    + destruct (ci_in_flight _ Hi rid Hin) as [r' Hl]. pose proof (lv_request _ _ _ _ Hl) as Hr'. cbn in Hr'.
      rewrite Hr in Hr'. injection Hr' as <-. pose proof (lv_result _ _ _ _ Hl) as Hn. cbn in Hn.
      unfold query_prefetch_result. rewrite Hn. split; [done|]. exists r. split_and!; [done..|]. apply (lv_held _ _ _ _ Hl).
    + destruct (dn_outcome _ _ (ci_finished _ Hi rid r Hr Hin)) as (bm & Hc & Hb). rewrite Hs in Hc.
      exists bm. split; [done|]. intros b. unfold query_prefetch_result. cbn in Hb. by destruct Hb as [->| ->]; intros [=].
Qed.

(** C7: locks are never lost or kept by mistake. Take any state the controller
    can reach, submit a request, and go on in any way. At every later point the
    request is waiting, has made no call and has no result; or it is in flight,
    has no result, and the L1 read locks, the L2 locks and the write reservations
    its calls add up to are exactly those its record says it holds; or it has
    completed once, every L2 lock and write reservation was given back, a fetched
    result is the result bitmap of the completion, and, when every conversion of a
    write reservation into read locks was granted (no load outlasted its write lock),
    the requester's read locks are on exactly the keys of that bitmap (on none for a
    warm-up). *)
Theorem prefetch_locks_balanced s sp s' :
  reachable s → spec_ok object_group_id sp → rtc step (submit_prefetch_request s sp).2 s' →
  let rid := (submit_prefetch_request s sp).1 in
  ((rid, sp) ∈ pc_pending_queue s' ++ pc_submission_queue s' ∧ log_of rid s' = [] ∧
     (query_prefetch_result s' rid).1 = None)
  ∨ (rid ∈ pc_in_flight s' ∧ (query_prefetch_result s' rid).1 = None ∧
     ∃ r, dget (pc_requests s') rid = Some r ∧ spec_of r = sp ∧ held_ok object_group_id r (log_of rid s'))
  ∨ (rid ∉ pc_in_flight s') ∧ (∃ bm, completed_ok sp (log_of rid s') bm ∧
       ∀ b, (query_prefetch_result s' rid).1 = Some b → b = bm).
Proof.
  intros Hs Hsp Hrun rid. pose proof (submit_inv s sp (reachable_inv s Hs) Hsp) as Hi.
  destruct (ctl_run_inv _ _ Hi Hrun) as [Hi' Hk]. apply tracked_outcome; [done|]. apply Hk. left. cbn.
  rewrite !elem_of_app. right; right. by apply list_elem_of_singleton.
Qed.

(** The request limit is kept and the status counters tell the truth. In
    every reachable state at most [max_in_flight] requests are in flight, no
    request twice, and the four counters are the numbers of requests in flight,
    waiting, looking up and loading; the last two add up to the first. *)
Theorem prefetch_in_flight_bounded s : reachable s →
  Z.of_nat (length (pc_in_flight s)) <= Z.max 0 max_in_flight ∧ NoDup (pc_in_flight s) ∧
  ct_in_flight (pc_counts s) = Z.of_nat (length (pc_in_flight s)) ∧
  ct_pending (pc_counts s) = Z.of_nat (length (pc_pending_queue s)) ∧
  ct_lookup_phase (pc_counts s) = Z.of_nat (length (List.filter (in_phase s PhaseLookup) (pc_in_flight s))) ∧
  ct_load_phase (pc_counts s) = Z.of_nat (length (List.filter (in_phase s PhasePlanAndLoad) (pc_in_flight s))) ∧
  ct_lookup_phase (pc_counts s) + ct_load_phase (pc_counts s) = ct_in_flight (pc_counts s).
Proof.
  intros Hi%reachable_inv. rewrite (ci_counts _ Hi). cbn. split_and!; try done; [apply Hi..|].
  assert (∀ rid, rid ∈ pc_in_flight s → in_phase s PhaseLookup rid = negb (in_phase s PhasePlanAndLoad rid)) as Hph.
  { intros rid Hin. destruct (ci_in_flight _ Hi rid Hin) as [r Hl]. pose proof (lv_request _ _ _ _ Hl) as Hr. cbn in Hr.
    unfold in_phase. rewrite Hr. by destruct (rq_phase r). }
  induction (pc_in_flight s) as [|rid l IH]; [done|]. cbn. rewrite (Hph rid) by left.
  specialize (IH (λ rid' Hin, Hph rid' (list_elem_of_further _ _ _ Hin))). destruct (in_phase s PhasePlanAndLoad rid); cbn; lia.
Qed.

(** C40: the records of requests are well-formed. In every reachable state a
    request in flight has a record under its identifier; every bitmap in it has
    one bit per key; the adapters it refers to are attached; load state exists
    only in the load phase, and no lookup is open then; and what is planned for
    loading has a write buffer and is not already locked in L1. *)
Theorem prefetch_requests_well_formed s rid : reachable s → rid ∈ pc_in_flight s →
  ∃ r, dget (pc_requests s) rid = Some r ∧ spec_ok object_group_id (spec_of r) ∧
    sized (nkeys r) (rq_l1_readlocks r) ∧ plan_ok (nkeys r) (rq_lookup_results r) ∧
    plan_ok (nkeys r) (rq_l2_adapter2readlocks r) ∧ plan_ok (nkeys r) (rq_load_plan r) ∧
    (∀ a, is_Some (dget (rq_pending_lookup_tasks r) a) ∨ is_Some (dget (rq_pending_load_tasks r) a) ∨
          is_Some (dget (rq_lookup_results r) a) → is_Some (dget (at_l2_adapters (pc_tables s)) a)) ∧
    match rq_phase r with
    | PhaseLookup => rq_load_plan r = [] ∧ rq_pending_load_tasks r = [] ∧ rq_write_reserved_keys r = []
    | PhasePlanAndLoad => rq_pending_lookup_tasks r = []
    end ∧
    NoDup (rq_write_reserved_keys r) ∧
    ∀ a i k, has (rq_load_plan r) a (Z.of_nat i) = true → rq_keys r !! i = Some k →
      k ∈ rq_write_reserved_keys r ∧ test (rq_l1_readlocks r) (Z.of_nat i) = false.
Proof.
  intros Hi%reachable_inv Hin. destruct (ci_in_flight _ Hi rid Hin) as [r Hl]. exists r.
  destruct (lv_held _ _ _ _ Hl), (lv_load _ _ _ _ Hl). split_and!; try done; [apply (lv_request _ _ _ _ Hl)|..].
  - intros a [[t Ht]|[[t Ht]|Hr]].
    + destruct (lv_lookups _ _ _ _ Hl a t Ht) as (_ & ad & ? & _). by exists ad.
    + destruct (lv_loads _ _ _ _ Hl a t Ht) as (_ & ad & n & ? & _). by exists ad.
    + by apply (lv_results _ _ _ _ Hl).
  - pose proof (lv_phase _ _ _ _ Hl) as Hp. by destruct (rq_phase r); [destruct Hp as (? & ? & _ & ? & _)|].
  - intros a i k Hh Hk. split; [by eapply lo_reserved|]. eapply lo_disjoint; [lia|exact Hh].
Qed.

(** [turns n s s']: [n] iterations of the loop, each with all descriptors
    readable; between them the rest of the system goes on *)
Inductive turns : nat → State → State → Prop :=
| turns_0 s : turns 0 s s
| turns_S n s s1 w ready :
    turns n s s1 → w_evolves (pc_world s1) w → covers ready (attached s1) →
    turns (S n) s (iteration ready (with_world w s1)).2.

Lemma turns_ok n s s' : turns n s s' → ctl_inv s → 0 < max_in_flight →
  ctl_inv s' ∧ keeps s s' ∧ all_misses s <= all_misses s' ∧
  (Z.of_nat (work s') <= Z.max 0 (Z.of_nat (work s) - Z.of_nat n + (all_misses s' - all_misses s))).
Proof.
  intros Ht Hi Hm. induction Ht as [s|n s s1 w ready Ht IH Hw Hc]; [split_and!; [done..|lia]|].
  destruct (IH Hi) as (Hi1 & Hk1 & Hm1 & Hw1).
  destruct (ctl_step_inv s1 (with_world w s1) Hi1 (step_world w s1 Hw)) as [Hi1' _].
  destruct (iteration_ok ready (with_world w s1) Hi1') as (s2 & E & Hi2 & Hk2 & _ & Hl2 & Hle & _ & _ & Hp). rewrite E. cbn [snd].
  change (keeps s1 s2) in Hk2. change (work (with_world w s1)) with (work s1) in *.
  pose proof (all_misses_mono (with_world w s1) s2 Hl2) as Hm2. change (all_misses (with_world w s1)) with (all_misses s1) in *.
  split_and!; [done|by etrans|lia|]. specialize (Hp Hm Hc). lia.
Qed.

Lemma no_work s : ctl_inv s → work s = 0%nat →
  pc_in_flight s = [] ∧ pc_pending_queue s = [] ∧ pc_submission_queue s = [].
Proof.
  intros Hi. unfold work. rewrite length_app. intros Hw.
  assert (pc_in_flight s = []) as ->.
  { destruct (pc_in_flight s) as [|rid l] eqn:El; [done|]. exfalso.
    destruct (ci_in_flight _ Hi rid) as [r Hl]; [rewrite El; left|]. pose proof (lv_request _ _ _ _ Hl) as Hr. cbn in Hr.
    cbn in Hw. unfold cost in Hw. rewrite Hr in Hw. destruct (rq_phase r); lia. }
  split_and!; [done|destruct (pc_pending_queue s); [done|cbn in Hw; lia]|destruct (pc_submission_queue s); [done|cbn in Hw; lia]].
Qed.

(** C8: the loop completes every request. Let the limit of requests in flight be
    positive, and take [n] iterations from any reachable state, each with every
    descriptor readable; in between, L1 and the adapters go on, but no request is
    submitted or fetched and no adapter is added or deleted. If [n] is at least the work left (three for a request
    that waits, two for a lookup, one for a load) plus the number of queries in
    those iterations that found no answer yet, then nothing is in flight or
    waiting, all counters are zero, and every request whose result had not been
    fetched can now be fetched, with the outcome [completed_ok] of a completed
    request. *)
Theorem prefetch_completes n s s' :
  reachable s → 0 < max_in_flight → turns n s s' →
  Z.of_nat (work s) + (all_misses s' - all_misses s) <= Z.of_nat n →
  pc_in_flight s' = [] ∧ pc_pending_queue s' ++ pc_submission_queue s' = [] ∧ pc_counts s' = mkCounts 0 0 0 0 ∧
  ∀ rid sp, tracked rid sp s → awaited rid s →
    ∃ bm, (query_prefetch_result s' rid).1 = Some bm ∧ completed_ok sp (log_of rid s') bm.
Proof.
  intros Hs Hm Ht Hn.
  destruct (turns_ok n s s' Ht (reachable_inv s Hs) Hm) as (Hi & [Hk Hka] & _ & Hw).
  destruct (no_work s' Hi ltac:(lia)) as (Hf & Hp & Hq). rewrite Hp, Hq. split_and!; try done.
  { rewrite (ci_counts _ Hi). unfold counts_of. by rewrite Hf, Hp. }
  intros rid sp Htr Ha. apply Hk in Htr. apply Hka in Ha.
  destruct Ha as [Ha|[Ha|[b Hb]]]; [rewrite Hp, Hq in Ha; by apply not_elem_of_nil in Ha|rewrite Hf in Ha; by apply not_elem_of_nil in Ha|].
  exists b. assert ((query_prefetch_result s' rid).1 = Some b) as Eq by (unfold query_prefetch_result; by rewrite Hb).
  split; [done|].
  destruct (tracked_outcome s' rid sp Hi Htr) as [[Hin _]|[[Hin _]|(_ & bm & Hbm & Hx)]].
  - rewrite Hp, Hq in Hin. by apply not_elem_of_nil in Hin.
  - rewrite Hf in Hin. by apply not_elem_of_nil in Hin.
  - by rewrite (Hx b Eq).
Qed.
End runs.
