(* ===== verification/PrefetchL1.v ===== *)
(** * The prefetch controller over the L1 manager

    [L1Manager] with any memory manager that meets [MemoryManagerSpec] satisfies
    the laws [L1ClientSpec] the controller's theorems are proved against. The
    world couples it with a clock and the state behind the L2 adapters. *)

From S2P Require Import Prelude PyDict PyState TTLLock L1Manager L1ManagerProofs Bitmap Fold PrefetchPlan KeyLedger.
From S2P Require Import PrefetchController PrefetchControllerProofs.
Local Open Scope Z_scope.

Section l1_world.
Context {K M Obj Layout Backend Sv Ad TaskId : Type} `{EqDecision K}.
Context {MMO : MemoryManager M Obj Layout Backend}.

Record L1World := mkL1World { lw_l1 : L1Manager K M Obj; lw_now : Z; lw_l2 : Sv }.

Definition lw_clock (w : L1World) : nat → nat → Z := λ _ _, lw_now w.
Definition lw_set_l1 (w : L1World) (m : L1Manager K M Obj) : L1World := mkL1World m (lw_now w) (lw_l2 w).
Definition lw_set_l2 (w : L1World) (l2 : Sv) : L1World := mkL1World (lw_l1 w) (lw_now w) l2.

#[export] Instance l1_client : L1Client L1World K Obj Layout := {
  l1_reserve_read w keys n :=
    let '(ret, _, m) := reserve_read (Backend := Backend) (lw_l1 w) (lw_clock w) keys n in (ret, lw_set_l1 w m);
  l1_finish_read w keys n :=
    (r <-? finish_read (lw_l1 w) (lw_clock w) keys n; Ok (lw_set_l1 w (snd r)))%py;
  l1_reserve_write w keys temps layout :=
    (r <-? reserve_write (lw_l1 w) (lw_clock w) (lw_clock w) keys temps layout ModeNew;
     Ok (fst (fst r), lw_set_l1 w (snd r)))%py;
  l1_finish_write w keys := lw_set_l1 w (snd (finish_write (lw_l1 w) (lw_clock w) keys));
  l1_finish_write_and_reserve_read w keys n :=
    let '(ret, _, m) := finish_write_and_reserve_read (lw_l1 w) (lw_clock w) keys n in (ret, lw_set_l1 w m);
  l1_delete w keys :=
    (r <-? delete (lw_l1 w) (lw_clock w) keys false; Ok (lw_set_l1 w (snd r)))%py;
  l1_touch_keys w keys := w;
  l1_get_size w o := mm_get_size (lm_memory_manager (lw_l1 w)) o }.

#[export] Instance l2_over_l1 {A2 : L2Adapters Sv Ad K Obj Layout TaskId}
  : L2Adapters L1World Ad K Obj Layout TaskId := {
  submit_lookup_and_lock_task w a keys layouts :=
    let '(t, l2) := submit_lookup_and_lock_task (lw_l2 w) a keys layouts in (t, lw_set_l2 w l2);
  query_lookup_and_lock_result w a t :=
    let '(ans, l2) := query_lookup_and_lock_result (lw_l2 w) a t in (ans, lw_set_l2 w l2);
  submit_unlock w a keys := lw_set_l2 w (submit_unlock (lw_l2 w) a keys);
  submit_load_task w a keys objs :=
    let '(t, l2) := submit_load_task (lw_l2 w) a keys objs in (t, lw_set_l2 w l2);
  query_load_result w a t :=
    let '(ans, l2) := query_load_result (lw_l2 w) a t in (ans, lw_set_l2 w l2);
  get_lookup_and_lock_event_fd a := get_lookup_and_lock_event_fd (L2Adapters := A2) a;
  get_load_event_fd a := get_load_event_fd (L2Adapters := A2) a }.

Context {MMS : MemoryManagerSpec M Obj Layout Backend} {WM : WorldModel Sv}.

Definition l1_ok (w : L1World) : Prop := lock_inv (lw_now w) (lw_l1 w) ∧ mem_inv (lw_l1 w).

(** The L1 cache may be used by anyone and time may pass; the service behind the
    adapters evolves by its own rules. *)
#[export] Instance l1_world_model : WorldModel L1World.
Proof.
  refine {| w_ok w := l1_ok w ∧ w_ok (lw_l2 w);
            w_evolves w w' := (l1_ok w → l1_ok w') ∧ w_evolves (lw_l2 w) (lw_l2 w') |}.
  - split; [done|]. intros w1 w2 w3 [? ?] [? ?]. split; [auto|by etrans].
  - intros w w' [Hl Hs] [Hl' Hs']. split; [auto|by eapply w_ok_evolves].
Defined.

Lemma lw_clock_from w : clock_from (lw_now w) (lw_clock w) (lw_now w).
Proof. constructor; unfold lw_clock; intros; lia. Qed.

(** an operation of the manager, as seen by the controller *)
Lemma l1_op_evolves w (op : l1_op (K := K) (Layout := Layout)) :
  w_ok w → l1_op_wf op →
  ∃ m, exec_l1 (lw_l1 w) (lw_clock w) (lw_clock w) op = Ok m ∧ w_evolves w (lw_set_l1 w m).
Proof.
  intros [[Hl Hm] _] Hwf.
  destruct (exec_mem_inv (lw_l1 w) (lw_clock w) (lw_clock w) op (lw_now w) (lw_now w) (lw_now w))
    as (m & E & Hm'); [apply lw_clock_from..|done|done|done|].
  exists m. split; [done|]. split; [|done]. intros _. split; [|done].
  eapply exec_lock_inv; [apply lw_clock_from..|done|done].
Qed.

(** every key that a scan visits is answered *)
Lemma for_keys_answered {R} (body : (nat → Z) → scan K Obj R → K → scan K Obj R) keys :
  (∀ now s k, is_Some (dget (sc_ret (body now s k)) k)) →
  (∀ now s k k', is_Some (dget (sc_ret s) k') → is_Some (dget (sc_ret (body now s k)) k')) →
  ∀ clk s k, k ∈ keys ∨ is_Some (dget (sc_ret s) k) → is_Some (dget (sc_ret (for_keys clk body keys s)) k).
Proof.
  intros Hown Hkeep. induction keys as [|a keys IH]; intros clk s k Hk.
  - destruct Hk as [Hk|Hk]; [by apply not_elem_of_nil in Hk|done].
  - rewrite for_keys_cons. apply IH. rewrite elem_of_cons in Hk.
    destruct Hk as [[->|Hk]|Hk]; [right; apply Hown|by left|right; by apply Hkeep].
Qed.

Lemma scan_answers_more {R} (s : scan K Obj R) k r k' :
  is_Some (dget (sc_ret s) k') → is_Some (dget (dset (sc_ret s) k r) k').
Proof. rewrite dget_dset. case_decide; [by eexists|done]. Qed.

Lemma reserve_read_answers total now (s : scan K Obj (L1Error * option Obj)) k :
  ∃ r, sc_ret (reserve_read_key total now s k) = dset (sc_ret s) k r.
Proof.
  unfold reserve_read_key. destruct (dget _ k); [|by eexists]. destruct (negb _); by eexists.
Qed.

Lemma reserve_read_complete w keys n k : k ∈ keys →
  is_Some (dget (l1_reserve_read w keys n).1 k).
Proof.
  intros Hk. cbn. apply for_keys_answered; [| |by left].
  - intros now s k'. destruct (reserve_read_answers (_validate_read_locks n) now s k') as [r ->].
    rewrite dget_dset_eq. by eexists.
  - intros now s k1 k'. destruct (reserve_read_answers (_validate_read_locks n) now s k1) as [r ->].
    apply scan_answers_more.
Qed.

(** a read lock comes with its object *)
Lemma reserve_read_objects w keys n k o :
  dget (l1_reserve_read w keys n).1 k = Some (SUCCESS, o) → is_Some o.
Proof.
  cbn. set (P := λ ret : list (K * (L1Error * option Obj)), ∀ k o, dget ret k = Some (SUCCESS, o) → is_Some o).
  enough (∀ clk s, P (sc_ret s) → P (sc_ret (for_keys clk (reserve_read_key (_validate_read_locks n)) keys s))) as H
    by (by apply (H _ (scan_init _))).
  induction keys as [|a keys IH]; intros clk s Hs; [done|]. rewrite for_keys_cons. apply IH.
  unfold reserve_read_key. destruct (dget (sc_objects s) a); [destruct (negb _)|]; intros k' o'; cbn;
    rewrite dget_dset; (case_decide; [intros [= <-]|apply Hs]); by eexists.
Qed.

(** a write reservation answers for its own keys only *)
Definition answers_within (keys : list K) (ret : list (K * (L1Error * option Obj))) : Prop :=
  dwf ret ∧ ∀ k, is_Some (dget ret k) → k ∈ keys.

Lemma answers_within_dset keys ret k r : answers_within keys ret → k ∈ keys → answers_within keys (dset ret k r).
Proof.
  intros [Hw Hin] Hk. split; [by apply dset_wf|]. intros k'. rewrite dget_dset. case_decide; [congruence|apply Hin].
Qed.

Lemma for_keys_within {A} (body : (nat → Z) → scan K Obj (L1Error * option Obj) → A → _) keys (l : list A) :
  (∀ now s a, a ∈ l → answers_within keys (sc_ret s) → answers_within keys (sc_ret (body now s a))) →
  ∀ clk s, answers_within keys (sc_ret s) → answers_within keys (sc_ret (for_keys clk body l s)).
Proof.
  induction l as [|a l IH]; intros Hb clk s Hs; [done|]. rewrite for_keys_cons.
  apply IH; [intros; apply Hb; [by right|done]|]. apply Hb; [left|done].
Qed.

Lemma reserve_write_within (m : L1Manager K M Obj) clk clk2 keys temps l r :
  reserve_write m clk clk2 keys temps l ModeNew = Ok r → answers_within keys r.1.1.
Proof.
  unfold reserve_write. set (s := for_keys _ _ _ _). intros E.
  assert (answers_within keys (sc_ret s)) as Hs.
  { apply for_keys_within; [|split; [exact NoDup_nil_2|by intros k [? ?]]].
    intros now s1 [k b] Hin Hw. unfold reserve_write_key. cbn. destruct (dget _ k); [|done].
    apply answers_within_dset; [done|]. by eapply elem_of_zip_l. }
  assert (∀ kt, kt ∈ sc_to_allocate s → kt.1 ∈ keys) as Hneed.
  { destruct (reserve_write_scan ModeNew (zip keys temps) clk (scan_init (lm_objects m))) as (Hn & _).
    cbv zeta in Hn. fold s in Hn. rewrite Hn. intros [k b] [_ Hin]%list_elem_of_filter. by eapply elem_of_zip_l. }
  clearbody s. destruct (sc_to_allocate s) as [|kt need]; [by injection E as <-|].
  destruct (allocate_new m clk2 l (kt :: need) s) as [[s' mem]|] eqn:Ea; [|done]. injection E as <-. cbn.
  unfold allocate_new in Ea. destruct (mm_allocate _ _ _) as [[[err objs] mem1]|]; [|done]. cbn [rbind] in Ea.
  destruct (decide (err = SUCCESS)).
  - injection Ea as <- <-. apply for_keys_within; [|done]. intros now s1 [[k b] o] Hin Hw. cbn.
    apply answers_within_dset; [done|]. apply (elem_of_zip_l (k, b) o (kt :: need) objs) in Hin. by apply (Hneed (k, b)).
  - assert (∀ l' ret, (∀ kt, kt ∈ l' → kt.1 ∈ keys) → answers_within keys ret →
      answers_within keys (fail_all l' (OUT_OF_MEMORY, None) ret)) as Hfail.
    { induction l' as [|x l' IH]; intros ret Hl' Hr; [done|]. cbn. apply IH; [intros; apply Hl'; by right|].
      apply answers_within_dset; [done|]. apply Hl'. left. }
    destruct objs; [injection Ea as <- <-|destruct (mm_free _ _); [|done]; injection Ea as <- <-];
      exact (Hfail (kt :: need) (sc_ret s) Hneed Hs).
Qed.

#[export] Instance l1_client_spec : L1ClientSpec L1World K Obj Layout.
Proof.
  refine {| w_layout_ok := mm_layout_ok |}.
  - intros w keys n Hw. destruct (l1_op_evolves w (OpReserveRead keys n) Hw I) as (m & [= <-] & He).
    split; [exact He|]. split; [exact (reserve_read_complete w keys n)|exact (reserve_read_objects w keys n)].
  - intros w keys n Hw. destruct (l1_op_evolves w (OpFinishRead keys n) Hw I) as (m & E & He). cbn in *.
    destruct (finish_read _ _ _ _) as [r|]; [|done]. injection E as <-. by eexists.
  - intros w keys temps l Hw Hnd _ Hl.
    destruct (l1_op_evolves w (OpReserveWrite keys temps l ModeNew) Hw (conj Hl Hnd)) as (m & E & He). cbn in *.
    destruct (reserve_write _ _ _ _ _ _ _) as [r|] eqn:Er; [|done]. injection E as <-.
    destruct (reserve_write_within _ _ _ _ _ _ _ Er). by eexists _, _.
  - intros w keys Hw. destruct (l1_op_evolves w (OpFinishWrite keys) Hw I) as (m & E & He).
    injection E as <-. exact He.
  - intros w keys n Hw. destruct (l1_op_evolves w (OpFinishWriteAndReserveRead keys n) Hw I) as (m & E & He).
    injection E as <-. exact He.
  - intros w keys Hw. destruct (l1_op_evolves w (OpDelete keys false) Hw I) as (m & E & He). cbn in *.
    destruct (delete _ _ _ _) as [r|]; [|done]. injection E as <-. by eexists.
  - done.
Defined.

#[export] Instance l2_over_l1_spec {A2 : L2Adapters Sv Ad K Obj Layout TaskId}
    {S2 : L2AdaptersSpec Sv Ad K Obj Layout TaskId} : L2AdaptersSpec L1World Ad K Obj Layout TaskId.
Proof.
  refine {| w_lookup_task w := w_lookup_task (lw_l2 w); w_load_task w := w_load_task (lw_l2 w) |}.
  - intros w w' a t n Ht [_ He]. by eapply w_lookup_task_evolves.
  - intros w w' a t n Ht [_ He]. by eapply w_load_task_evolves.
  - intros w a keys layouts [_ Hw]. cbn. pose proof (submit_lookup_spec (lw_l2 w) a keys layouts Hw) as Hs.
    destruct (submit_lookup_and_lock_task _ _ _ _) as [t l2]. destruct Hs. split; [split; [exact id|done]|done].
  - intros w a t n [_ Hw] Ht. cbn. pose proof (query_lookup_spec (lw_l2 w) a t n Hw Ht) as Hs.
    destruct (query_lookup_and_lock_result _ _ _) as [ans l2]. destruct Hs. split; [split; [exact id|done]|done].
  - intros w a keys [_ Hw]. split; [done|]. by apply submit_unlock_spec.
  - intros w a keys objs [_ Hw]. cbn. pose proof (submit_load_spec (lw_l2 w) a keys objs Hw) as Hs.
    destruct (submit_load_task _ _ _ _) as [t l2]. destruct Hs. split; [split; [exact id|done]|done].
  - intros w a t n [_ Hw] Ht. cbn. pose proof (query_load_spec (lw_l2 w) a t n Hw Ht) as Hs.
    destruct (query_load_result _ _ _) as [ans l2]. destruct Hs. split; [split; [exact id|done]|done].
Defined.
End l1_world.
