(* ===== verification/PrefetchDemo.v ===== *)
(** * A prefetch controller at work

    The controller's theorems applied to a concrete system: the L1 manager over
    the allocator stack, and a store that answers each task once, behind one
    adapter. *)

From S2P Require Import Prelude PyDict PyState AddressManager AddressSpace TensorAllocator TTLLock L1Manager L1ManagerProofs L1Memory.
From S2P Require Import Bitmap Fold PrefetchPlan KeyLedger PrefetchController PrefetchControllerProofs PrefetchL1 PrefetchRuns.
Local Open Scope Z_scope.

Module PrefetchDemo.

(** ** A store of keys *)

Record Store := mkStore { st_keys : list nat; st_tasks : list (list nat * bool) }.

Definition found (stored keys : list nat) : Bitmap :=
  foldl (λ b ik, if decide (ik.2 ∈ stored) then set b (Z.of_nat ik.1) else b)
    (bitmap (Z.of_nat (length keys))) (imap pair keys).

Definition submit_task (s : Store) (keys : list nat) : nat * Store :=
  (length (st_tasks s), mkStore (st_keys s) (st_tasks s ++ [(keys, false)])).
(** a task is answered once *)
Definition query_task (s : Store) (t : nat) : option Bitmap * Store :=
  match st_tasks s !! t with
  | Some (keys, false) => (Some (found (st_keys s) keys), mkStore (st_keys s) (<[t := (keys, true)]> (st_tasks s)))
  | _ => (None, s)
  end.

#[export] Instance store_adapters {Layout} : L2Adapters Store Z nat nat Layout nat := {
  submit_lookup_and_lock_task s _ keys _ := submit_task s keys;
  query_lookup_and_lock_result s _ t := query_task s t;
  submit_unlock s _ _ := s;
  submit_load_task s _ keys _ := submit_task s keys;
  query_load_result s _ t := query_task s t;
  get_lookup_and_lock_event_fd a := 2 * a + 1;
  get_load_event_fd a := 2 * a + 2 }.

Definition task_of (s : Store) (t n : nat) : Prop := ∃ keys b, st_tasks s !! t = Some (keys, b) ∧ length keys = n.

#[export] Instance store_model : WorldModel Store.
Proof.
  refine {| w_ok _ := True; w_evolves s s' := ∀ t n, task_of s t n → task_of s' t n |}; [|done].
  split; [by intros s t n|]. intros s1 s2 s3 H1 H2 t n Ht. by apply H2, H1.
Defined.

Lemma found_sized stored keys : sized (Z.of_nat (length keys)) (found stored keys).
Proof.
  unfold found. assert (∀ l b N, sized N b → sized N
    (foldl (λ b ik, if decide (ik.2 ∈ stored) then set b (Z.of_nat ik.1) else b) b l)) as H.
  { induction l as [|[i k] l IH]; intros b N Hb; [done|]. cbn. apply IH. case_decide; [|done].
    destruct (set_ok b (Z.of_nat i) (proj1 Hb)) as (? & ? & _); [lia|]. split; [done|]. rewrite <- (proj2 Hb). done. }
  apply H, sized_bitmap. lia.
Qed.

Lemma submit_task_spec s keys : let '(t, s') := submit_task s keys in
  w_evolves s s' ∧ task_of s' t (length keys).
Proof.
  cbn. split.
  - intros t n (k & b & Ht & Hn). exists k, b. split; [|done]. cbn. by apply lookup_app_l_Some.
  - exists keys, false. split; [|done]. cbn. by rewrite list_lookup_middle.
Qed.

Lemma query_task_spec s t n : task_of s t n → let '(ans, s') := query_task s t in
  w_evolves s s' ∧ (∀ b, ans = Some b → sized (Z.of_nat n) b).
Proof.
  intros (keys & b & Ht & <-). unfold query_task. rewrite Ht. destruct b; [by split|]. split.
  - intros t' n (k & b & Ht' & Hn). destruct (decide (t = t')) as [<-|Hne].
    + exists keys, true. cbn. split; [apply list_lookup_insert_eq; by eapply lookup_lt_Some|].
      rewrite Ht in Ht'. injection Ht' as <- _. done.
    + exists k, b. cbn. by rewrite list_lookup_insert_ne.
  - intros b' [= <-]. apply found_sized.
Qed.

#[export] Instance store_spec {Layout} : L2AdaptersSpec Store Z nat nat Layout nat.
Proof.
  refine {| w_lookup_task s _ t n := task_of s t n; w_load_task s _ t n := task_of s t n |}; cbn.
  - intros s s' _ t n Ht He. by apply He.
  - intros s s' _ t n Ht He. by apply He.
  - intros s _ keys _ _. apply submit_task_spec.
  - intros s _ t n _. apply query_task_spec.
  - intros s _ _ _. done.
  - intros s _ keys _ _. apply submit_task_spec.
  - intros s _ t n _. apply query_task_spec.
Defined.

(** ** The system *)

#[export] Instance demo_mm :
  MemoryManager (World ListSortedList.t unit) nat (MemoryLayoutDesc (dtype := unit)) L1BackendType :=
  l1_memory_manager bf16_size.
#[export] Instance demo_mms :
  MemoryManagerSpec (World ListSortedList.t unit) nat (MemoryLayoutDesc (dtype := unit)) L1BackendType :=
  l1_memory_manager_spec bf16_size.

Abbreviation Layout := (MemoryLayoutDesc (dtype := unit)).
Abbreviation DemoWorld := (L1World (K := nat) (M := World ListSortedList.t unit) (Obj := nat) (Sv := Store)).
Abbreviation Controller := (PrefetchController DemoWorld Z nat nat Layout nat unit).

Definition world0 : DemoWorld := mkL1World Demo.cache0 5 (mkStore [0; 1; 2]%nat []).

Definition descriptors : list (AdapterDescriptor unit) := [{| ad_index := 0; ad_config := tt |}].

(** four chunks of one group and one rank, two readers *)
Definition attn : AttnWindowDesc := {| num_chunks_in_sw := [-1]; world_size := 1; group_kinds := [] |}.
Definition spec (mode : PrefetchMode) : PrefetchRequestSpec nat Layout :=
  mkSpec [0; 1; 2; 3]%nat [(0, Demo.layout)] 2 PREFIX attn mode.

Definition group_of (_ : nat) : Z := 0.

Lemma spec_is_ok mode : spec_ok group_of (spec mode).
Proof.
  constructor.
  - exists 4. split; [|done]. constructor; [done|done|done| |done]. repeat constructor; vm_compute; congruence.
  - apply (bool_decide_unpack _). vm_compute. exact I.
  - intros k _. exists Demo.layout. split; [reflexivity|]. eexists. split; [vm_compute; reflexivity|lia].
Qed.

Lemma world0_ok : w_ok world0.
Proof.
  split; [|exact I]. split; [apply l1_init_lock_inv; lia|]. apply l1_init_mem_inv.
  - split; [exact demo_world_ok|constructor].
  - intros o (x & Hx & _). discriminate Hx.
Qed.

Definition controller0 : Controller :=
  match init_controller world0 [0] descriptors with Ok s => s | Raise _ => mkController world0 [] [] (mkTables [] [] [] [] [] []) [] [] [] [] 0 [] [] (mkCounts 0 0 0 0) end.

Lemma controller0_reachable : reachable group_of RetainPrefetchPolicy 8 0 controller0.
Proof.
  apply (reach_init _ _ _ _ world0 [0] descriptors); [exact world0_ok| |reflexivity].
  split; [done|]. split; apply (bool_decide_unpack _); vm_compute; exact I.
Qed.

Definition submitted : Controller := (submit_prefetch_request controller0 (spec LOOKUP)).2.
Definition iterate (s : Controller) : Controller :=
  (prefetch_iteration group_of true RetainPrefetchPolicy 8 0 [0; 1; 2] s).2.
(** a moment passes, then the loop goes round once *)
Definition tick (w : DemoWorld) : DemoWorld := mkL1World (lw_l1 w) (lw_now w + 1) (lw_l2 w).
Definition later (s : Controller) : Controller := with_world (tick (pc_world s)) s.
Definition turn (s : Controller) : Controller := iterate (later s).
(** the request starts, its lookup is answered, its loads arrive *)
Definition finished : Controller := turn (turn (turn submitted)).

Lemma later_evolves (w : DemoWorld) : w_evolves w (tick w).
Proof.
  split; [|done]. intros [[] Hm]. split; [|done]. constructor; try done. cbn.
  eapply entries_ok_mono; [|done]. lia.
Qed.

Lemma turn_steps s : rtc (step group_of RetainPrefetchPolicy 8 0) s (turn s).
Proof.
  apply (rtc_l _ _ (later s)); [apply step_world, later_evolves|]. apply rtc_once. apply step_iterate.
Qed.

Lemma prefetch_locks_balanced_witness :
  ∃ bm, completed_ok (spec LOOKUP) (log_of 0 finished) bm ∧ get_indices bm = [0; 1; 2].
Proof.
  assert (match (query_prefetch_result finished 0).1 with Some b => get_indices b | None => [] end = [0; 1; 2]) as E
    by (vm_compute; reflexivity).
  destruct (prefetch_locks_balanced group_of RetainPrefetchPolicy 8 0 controller0 (spec LOOKUP) finished
              controller0_reachable (spec_is_ok LOOKUP)) as [[Hq _]|[[Hin _]|(_ & bm & Hbm & Hq)]].
  - do 2 (etrans; [|apply turn_steps]). apply turn_steps.
  - exfalso. vm_compute in Hq. by apply not_elem_of_nil in Hq.
  - exfalso. vm_compute in Hin. by apply not_elem_of_nil in Hin.
  - exists bm. split; [exact Hbm|]. change (submit_prefetch_request controller0 (spec LOOKUP)).1 with 0 in Hq.
    destruct (query_prefetch_result finished 0).1 as [b|]; [|discriminate E].
    rewrite <- (Hq b eq_refl). exact E.
Defined.

Lemma covers_all (s : Controller) : attached s = [(0, 0)] →
  covers (W := DemoWorld) (K := nat) (Obj := nat) (Layout := Layout) (TaskId := nat) 0 [0; 1; 2] (attached s).
Proof.
  intros ->. split; [left|]. intros a ad Ha. cbn in Ha. destruct (decide (0 = a)); [|done]. injection Ha as <-.
  cbn. split; [right; left|right; right; left].
Qed.

Lemma turns_snoc n s s1 : turns group_of RetainPrefetchPolicy 8 0 n s s1 → attached s1 = [(0, 0)] →
  turns group_of RetainPrefetchPolicy 8 0 (S n) s (turn s1).
Proof. intros Ht Ha. apply turns_S; [done|apply later_evolves|by apply covers_all]. Qed.

Lemma prefetch_completes_witness :
  pc_in_flight finished = [] ∧
  ∃ bm, (query_prefetch_result finished 0).1 = Some bm ∧ completed_ok (spec LOOKUP) (log_of 0 finished) bm.
Proof.
  destruct (prefetch_completes group_of RetainPrefetchPolicy 8 0 3 submitted finished) as (Hf & _ & _ & H).
  - eapply reach_step; [exact controller0_reachable|]. apply step_submit, spec_is_ok.
  - lia.
  - do 3 (apply turns_snoc; [|vm_compute; reflexivity]). apply turns_0.
  - vm_compute. congruence.
  - split; [exact Hf|]. apply H; left; vm_compute; left.
Defined.

Definition started : Controller := turn submitted.

Lemma started_reachable : reachable group_of RetainPrefetchPolicy 8 0 started.
Proof.
  eapply reach_step; [|apply step_iterate]. eapply reach_step; [|apply step_world, later_evolves].
  eapply reach_step; [exact controller0_reachable|apply step_submit, spec_is_ok].
Qed.

Lemma prefetch_in_flight_bounded_witness :
  pc_in_flight started = [0] ∧ ct_lookup_phase (pc_counts started) + ct_load_phase (pc_counts started) = ct_in_flight (pc_counts started).
Proof.
  split; [vm_compute; reflexivity|].
  destruct (prefetch_in_flight_bounded group_of RetainPrefetchPolicy 8 0 started started_reachable) as (_ & _ & _ & _ & _ & _ & H). exact H.
Defined.

Lemma prefetch_requests_well_formed_witness : ∃ r, dget (pc_requests started) 0 = Some r ∧ sized (nkeys r) (rq_l1_readlocks r).
Proof.
  assert (pc_in_flight started = [0]) as E by (vm_compute; reflexivity).
  destruct (prefetch_requests_well_formed group_of RetainPrefetchPolicy 8 0 started 0 started_reachable
    (eq_ind_r (λ l, 0 ∈ l) (list_elem_of_here _ _) E)) as (r & Hr & _ & Hs & _).
  exists r. split; [exact Hr|exact Hs].
Defined.
End PrefetchDemo.
