(* ===== verification/StorageManager.v ===== *)
(** * The storage manager

    [storage_manager.py]: what the serving engine calls. A lookup read-locks what
    the L1 cache has, gives the locks outside the served prefix back and sends
    the rest to the prefetch controller; the handle it returns is later turned
    into the bitmap of found keys. The L1 calls the manager makes itself are
    recorded in [sm_log], the events it publishes in [sm_events]; the world is
    the controller's. *)

From S2P Require Import Prelude PyDict PyState TTLLock L1Manager Bitmap Fold PrefetchPlan PrefetchController.
Local Open Scope Z_scope.

Section storage_manager.
Context {W Ad K Obj Layout TaskId config : Type} `{EqDecision K}.
Context {L1 : L1Client W K Obj Layout}.
(** native kernels present *)
Context (kernels : bool).

Abbreviation Controller := (PrefetchController W Ad K Obj Layout TaskId config).
Abbreviation Spec := (PrefetchRequestSpec K Layout).
Abbreviation L1Results := (list (K * (L1Error * option Obj))).

Record PrefetchHandle := mkHandle {
  ph_prefetch_request_id : Z;
  ph_external_request_id : string;
  ph_l1_found_indices : list Z;
  ph_l1_hit_chunks : Z;
  ph_total_requested_keys : Z;
  ph_submit_time : Z;
  ph_l2_orig_indices : list Z }.

Inductive sm_event :=
| SM_READ_PREFETCHED (succeeded_keys failed_keys : list K).

Record StorageManager := mkStorageManager {
  sm_prefetch_controller : Controller;
  sm_l2_adapters : list (Z * Ad);
  sm_log : list (call K Obj Layout TaskId config);
  sm_events : list sm_event }.

Abbreviation sm := (py_state StorageManager).

Definition with_controller (c : Controller) (s : StorageManager) : StorageManager :=
  mkStorageManager c (sm_l2_adapters s) (sm_log s) (sm_events s).
Definition sm_record (c : call K Obj Layout TaskId config) (w : W) : sm unit :=
  modify (λ s, mkStorageManager (with_world w (sm_prefetch_controller s)) (sm_l2_adapters s)
                 (sm_log s ++ [c]) (sm_events s)).
Definition sm_publish (e : sm_event) : sm unit :=
  modify (λ s, mkStorageManager (sm_prefetch_controller s) (sm_l2_adapters s) (sm_log s) (sm_events s ++ [e])).

Definition sm_world (s : StorageManager) : W := pc_world (sm_prefetch_controller s).
Definition sm_reserve_read (keys : list K) (read_locks : Z) : sm L1Results :=
  w ← gets sm_world;
  let '(ret, w) := l1_reserve_read w keys read_locks in
  _ ← sm_record (CReserveRead keys read_locks ret) w; mret ret.
Definition sm_finish_read (keys : list K) (read_locks : Z) : sm unit :=
  w ← gets sm_world;
  w ← lift (l1_finish_read w keys read_locks);
  sm_record (CFinishRead keys read_locks) w.

Definition sm_submit (sp : Spec) : sm Z :=
  s ← gets sm_prefetch_controller;
  let '(rid, c) := submit_prefetch_request s sp in
  _ ← modify (with_controller c); mret rid.

Definition _has_l2_adapters : sm bool := gets (λ s, nonempty (sm_l2_adapters s)).

(** [replace(spec, keys=...)] *)
Definition spec_with_keys (keys : list K) (sp : Spec) : Spec :=
  mkSpec keys (sp_group_layout_descs sp) (sp_num_kv_readers sp) (sp_policy sp) (sp_attn_desc sp) (sp_mode sp).
Definition replace_keys (keys : list K) (sp : Spec) : sm Spec :=
  _ ← lift (spec_post_init (spec_with_keys keys sp)); mret (spec_with_keys keys sp).

(** [ent is not None and ent[0] == SUCCESS and ent[1] is not None] *)
Definition l1_hit (l1_read_result : L1Results) (key : K) : bool :=
  match dget l1_read_result key with Some (SUCCESS, Some _) => true | _ => false end.

(** the loop of the SPARSE branch: indices and keys of the hits, then of the
    misses *)
Fixpoint sparse_split (l1_read_result : L1Results) (i : Z) (keys : list K)
  : list Z * list K * (list Z * list K) :=
  match keys with
  | [] => ([], [], ([], []))
  | key :: keys =>
      let '(found, succeeded, (missed, remaining)) := sparse_split l1_read_result (i + 1) keys in
      if l1_hit l1_read_result key then (i :: found, key :: succeeded, (missed, remaining))
      else (found, succeeded, (i :: missed, key :: remaining))
  end.

Fixpoint presence_loop (l1_read_result : L1Results) (i : Z) (keys : list K) (b : Bitmap) : Bitmap :=
  match keys with
  | [] => b
  | key :: keys =>
      presence_loop l1_read_result (i + 1) keys (if l1_hit l1_read_result key then set b i else b)
  end.

Definition _submit_prefix_fold (sp : Spec) (l1_read_result : L1Results) (external_request_id : string)
    (skip_l2 : bool) (now : Z) : sm PrefetchHandle :=
  let keys := sp_keys sp in
  let attn_desc := sp_attn_desc sp in
  let stride := num_object_groups attn_desc * world_size attn_desc in
  num_chunks ← lift (floordiv (Z.of_nat (length keys)) stride);
  let l1_presence := presence_loop l1_read_result 0 keys (bitmap (Z.of_nat (length keys))) in
  '(l1_hit_chunks, retain) ←
    lift (fold_unfold_ranked kernels l1_presence num_chunks (world_size attn_desc) (num_chunks_in_sw attn_desc));
  let retained_indices := get_indices retain in
  let released := gather (band l1_presence (bnot retain)) keys in
  _ ← when (nonempty released) (sm_finish_read released (sp_num_kv_readers sp));
  let l1_key_boundary := l1_hit_chunks * stride in
  let remaining_keys := drop (Z.to_nat l1_key_boundary) keys in
  _ ← sm_publish (SM_READ_PREFETCHED (gather retain keys) (gather (bnot retain) keys));
  has_adapters ← _has_l2_adapters;
  let l1_only := skip_l2 || negb has_adapters in
  '(prefetch_request_id, l2_orig_indices) ←
    (if negb l1_only && nonempty remaining_keys then
       sp' ← replace_keys remaining_keys sp;
       rid ← sm_submit sp';
       mret (rid, seqZ l1_key_boundary (Z.of_nat (length keys) - l1_key_boundary))
     else mret (-1, []));
  mret (mkHandle prefetch_request_id external_request_id retained_indices l1_hit_chunks
          (Z.of_nat (length keys)) now l2_orig_indices).

Definition submit_prefetch_task (sp : Spec) (external_request_id : string) (skip_l2 : bool) (now : Z)
  : sm PrefetchHandle :=
  let keys := sp_keys sp in
  let total := Z.of_nat (length keys) in
  match sp_mode sp with
  | WARM =>
      has_adapters ← _has_l2_adapters;
      prefetch_request_id ←
        (if negb skip_l2 && nonempty keys && has_adapters then sm_submit sp else mret (-1));
      mret (mkHandle prefetch_request_id external_request_id [] 0 total now
              (if prefetch_request_id =? -1 then [] else seqZ 0 total))
  | LOOKUP =>
      l1_read_result ← sm_reserve_read keys (sp_num_kv_readers sp);
      match sp_policy sp with
      | SPARSE =>
          let '(l1_found_indices, succeeded_keys, (sparse_l2_indices, remaining_keys)) :=
            sparse_split l1_read_result 0 keys in
          _ ← sm_publish (SM_READ_PREFETCHED succeeded_keys remaining_keys);
          has_adapters ← _has_l2_adapters;
          prefetch_request_id ←
            (if negb skip_l2 && nonempty remaining_keys && has_adapters then
               sp' ← replace_keys remaining_keys sp; sm_submit sp'
             else mret (-1));
          mret (mkHandle prefetch_request_id external_request_id l1_found_indices 0 total now
                  (if prefetch_request_id =? -1 then [] else sparse_l2_indices))
      | PREFIX => _submit_prefix_fold sp l1_read_result external_request_id skip_l2 now
      | SEGMENTED_PREFIX => lift (Raise ValueError)
      end
  end.

Definition _combine_found (handle : PrefetchHandle) (l2_local : option Bitmap) : Bitmap :=
  let found := batched_set (bitmap (ph_total_requested_keys handle)) (ph_l1_found_indices handle) in
  match l2_local with
  | None => found
  | Some l2_local => batched_set found (gather l2_local (ph_l2_orig_indices handle))
  end.

Definition query_prefetch_lookup_hits (s : Controller) (handle : PrefetchHandle) : option Z :=
  if ph_prefetch_request_id handle =? -1 then Some (ph_l1_hit_chunks handle)
  else match query_lookup_result s (ph_prefetch_request_id handle) with
       | None => None
       | Some l2_r => Some (ph_l1_hit_chunks handle + l2_r)
       end.

Definition query_prefetch_status (s : Controller) (handle : PrefetchHandle) : option Bitmap * Controller :=
  if ph_prefetch_request_id handle =? -1 then (Some (_combine_found handle None), s)
  else match query_prefetch_result s (ph_prefetch_request_id handle) with
       | (None, s) => (None, s)
       | (Some l2_r, s) => (Some (_combine_found handle (Some l2_r)), s)
       end.
End storage_manager.

Arguments StorageManager W Ad K Obj Layout TaskId config : clear implicits.
