(* ===== verification/StorageManagerProofs.v ===== *)
(** * The storage manager: found means locked

    The calls of a lookup are added up over both components: those the storage
    manager makes itself and those the prefetch controller makes for the request
    it was sent, using the controller's theorem about every run. *)

From S2P Require Import Prelude PyDict PyState TTLLock L1Manager Bitmap Fold PrefetchPlan KeyLedger.
From S2P Require Import PrefetchController PrefetchControllerProofs PrefetchRuns StorageManager.
Local Open Scope Z_scope.

Section proofs.
Context {W Ad K Obj Layout TaskId config : Type} `{EqDecision K}.
Context {L1 : L1Client W K Obj Layout} {L2 : L2Adapters W Ad K Obj Layout TaskId}.
Context {WM : WorldModel W} {S1 : L1ClientSpec W K Obj Layout}
        {S2 : L2AdaptersSpec W Ad K Obj Layout TaskId}.
Context (object_group_id : K → Z) (policy_ : PrefetchPolicy) (max_in_flight submission_fd : Z).

Abbreviation Controller := (PrefetchController W Ad K Obj Layout TaskId config).
Abbreviation Manager := (StorageManager W Ad K Obj Layout TaskId config).
Abbreviation Spec := (PrefetchRequestSpec K Layout).
Abbreviation Call := (call K Obj Layout TaskId config).
Abbreviation ctl_step := (step object_group_id policy_ max_in_flight submission_fd (config := config)).
Abbreviation ctl_reachable := (reachable object_group_id policy_ max_in_flight submission_fd (config := config)).
Implicit Types (s : Manager) (sp : Spec).

(** ** Effects of the manager's calls *)

(** to the controller, other threads have moved on *)
Definition drifts (c c' : Controller) : Prop := ∃ w, w_evolves (pc_world c) w ∧ c' = with_world w c.

#[local] Instance drifts_pre : PreOrder drifts.
Proof.
  split; [intros c; exists (pc_world c); by destruct c|].
  intros c1 c2 c3 (w & Hw & ->) (w' & Hw' & ->). exists w'. split; [by etrans|done].
Qed.

Lemma drifts_steps c c' : drifts c c' → rtc ctl_step c c'.
Proof. intros (w & Hw & ->). apply rtc_once. by constructor. Qed.

(** the manager has made the calls [ext] *)
Record sm_moves s s' (ext : list Call) : Prop := {
  mv_log : sm_log s' = sm_log s ++ ext;
  mv_adapters : sm_l2_adapters s' = sm_l2_adapters s;
  mv_drifts : drifts (sm_prefetch_controller s) (sm_prefetch_controller s') }.

Lemma sm_moves_trans s1 s2 s3 l l' : sm_moves s1 s2 l → sm_moves s2 s3 l' → sm_moves s1 s3 (l ++ l').
Proof.
  intros [] []. constructor; [by rewrite app_assoc; congruence|congruence|by etrans].
Qed.

Lemma sm_record_moves c w s : w_evolves (sm_world s) w →
  sm_moves s (sm_record c w s).2 [c].
Proof. intros Hw. constructor; try done. by exists w. Qed.

Lemma mv_steps s s' ext : sm_moves s s' ext → rtc ctl_step (sm_prefetch_controller s) (sm_prefetch_controller s').
Proof. intros Hm. apply drifts_steps, Hm. Qed.

Lemma reachable_run c c' : ctl_reachable c → rtc ctl_step c c' → ctl_reachable c'.
Proof. intros Hc Hr. induction Hr as [|c c1 c' Hs _ IH]; [done|]. apply IH. by eapply reach_step. Qed.

Lemma reachable_ok c : ctl_reachable c → w_ok (pc_world c).
Proof. intros Hc. exact (ci_world _ _ _ _ (reachable_inv _ _ _ _ _ Hc)). Qed.

Lemma reserve_read_run s keys n : ctl_reachable (sm_prefetch_controller s) →
  ∃ ret s', sm_reserve_read keys n s = (Ok ret, s') ∧ sm_moves s s' [CReserveRead keys n ret] ∧
    (∀ k, k ∈ keys → is_Some (dget ret k)) ∧ (∀ k, l1_hit ret k = granted ret k).
Proof.
  intros Hr. unfold sm_reserve_read, gets, mbind, py_bind. cbn.
  pose proof (l1_reserve_read_spec (sm_world s) keys n (reachable_ok _ Hr)) as Hs.
  destruct (l1_reserve_read (sm_world s) keys n) as [ret w]. destruct Hs as (Hw & Hall & Hobj).
  eexists ret, _. split; [done|]. split; [exact (sm_record_moves (CReserveRead keys n ret) w s Hw)|]. split; [done|].
  intros k. unfold l1_hit, granted. destruct (dget ret k) as [[[] o]|] eqn:E; try done.
  by destruct (Hobj k o E) as [x ->].
Qed.

Lemma finish_read_run s keys n : ctl_reachable (sm_prefetch_controller s) →
  ∃ s', when (nonempty keys) (sm_finish_read keys n) s = (Ok tt, s') ∧
    sm_moves s s' (if nonempty keys then [CFinishRead keys n] else []).
Proof.
  intros Hr. destruct (nonempty keys); cbn [when].
  - unfold sm_finish_read, gets, mbind, py_bind, lift. cbn.
    destruct (l1_finish_read_spec (sm_world s) keys n (reachable_ok _ Hr)) as (w & -> & Hw).
    eexists. split; [done|]. exact (sm_record_moves (CFinishRead keys n) w s Hw).
  - exists s. split; [done|]. constructor; try done. by rewrite app_nil_r.
Qed.

(** ** Which keys L1 had *)

Lemma presence_loop_locked (ret : list (K * (L1Error * option Obj))) keys :
  (∀ k, k ∈ keys → is_Some (dget ret k)) → (∀ k, l1_hit ret k = granted ret k) →
  ∀ i b, locked_bitmap ret i keys b = Ok (presence_loop ret i keys b).
Proof.
  intros Hall Hhit. induction keys as [|k keys IH]; intros i b; [done|]. cbn.
  destruct (Hall k) as [[err o] E]; [left|]. rewrite E, <- IH by (intros; apply Hall; by right). do 2 f_equal.
  rewrite Hhit. unfold granted. rewrite E. by destruct err.
Qed.

Lemma presence_ok (ret : list (K * (L1Error * option Obj))) keys (N := Z.of_nat (length keys)) :
  (∀ k, k ∈ keys → is_Some (dget ret k)) → (∀ k, l1_hit ret k = granted ret k) →
  sized N (presence_loop ret 0 keys (bitmap N)) ∧
  (∀ i k, keys !! i = Some k → test (presence_loop ret 0 keys (bitmap N)) (Z.of_nat i) = granted ret k).
Proof.
  intros Hall Hhit. destruct (locked_bitmap_ok ret N keys 0 (bitmap N)) as (b & E & Hb & _ & Ht);
    [done|apply sized_bitmap; lia|lia|lia|intros; apply test_bitmap|].
  rewrite presence_loop_locked in E by done. injection E as E. rewrite E. done.
Qed.

Lemma sparse_split_ok (ret : list (K * (L1Error * option Obj))) keys : ∀ i,
  let '(found, _, (missed, remaining)) := sparse_split ret i keys in
  length missed = length remaining ∧ NoDup missed ∧
  (∀ p, p ∈ found ↔ ∃ j k, p = i + Z.of_nat j ∧ keys !! j = Some k ∧ l1_hit ret k = true) ∧
  (∀ j p, missed !! j = Some p → ∃ m k, p = i + Z.of_nat m ∧ keys !! m = Some k ∧ remaining !! j = Some k ∧
     l1_hit ret k = false).
Proof.
  induction keys as [|key keys IH]; intros i; cbn [sparse_split].
  { split_and!; [done|exact NoDup_nil_2| |done]. intros p. split; [by intros ?%not_elem_of_nil|by intros (?&?&_&?&_)]. }
  specialize (IH (i + 1)). destruct (sparse_split ret (i + 1) keys) as [[found succ] [missed remaining]].
  destruct IH as (Hlen & Hnd & Hf & Hm). destruct (l1_hit ret key) eqn:Eh; (split_and!; [cbn; try lia|..]).
  - done.
  - intros p. rewrite elem_of_cons, Hf. split.
    + intros [->|(j & k & -> & ? & ?)]; [exists 0%nat, key; split; [lia|done]|]. exists (S j), k. split; [lia|done].
    + intros ([|j] & k & -> & Hk & ?); [left; lia|right]. exists j, k. split; [lia|done].
  - intros j p Hj. destruct (Hm j p Hj) as (m & k & -> & ? & ? & ?). exists (S m), k. split; [lia|done].
  - apply NoDup_cons. split; [|done]. intros Hin. apply list_elem_of_lookup in Hin as [j Hj].
    destruct (Hm j i Hj) as (m & k & ? & _). lia.
  - intros p. rewrite Hf. split.
    + intros (j & k & -> & ? & ?). exists (S j), k. split; [lia|done].
    + intros ([|j] & k & -> & Hk & ?); [cbn in Hk; congruence|]. exists j, k. split; [lia|done].
  - intros [|j] p Hj; cbn in Hj; [injection Hj as <-; exists 0%nat, key; split; [lia|done]|].
    destruct (Hm j p Hj) as (m & k & -> & ? & ? & ?). exists (S m), k. split; [lia|done].
Qed.

Lemma sparse_sublist (ret : list (K * (L1Error * option Obj))) keys : ∀ i,
  (sparse_split ret i keys).2.2 `sublist_of` keys.
Proof.
  induction keys as [|key keys IH]; intros i; [done|]. specialize (IH (i + 1)). cbn [sparse_split].
  destruct (sparse_split ret (i + 1) keys) as [[found succ] [missed remaining]].
  destruct (l1_hit ret key); by constructor.
Qed.

(** ** Adding the two components up *)

Lemma cnt_notin (k : K) p keys : k ∉ keys → cnt k p keys = 0.
Proof.
  intros Hk. rewrite <- occ_sel. apply occ_notin. intros (i & Hi & _)%elem_of_sel.
  apply Hk. by apply list_elem_of_lookup_2 in Hi.
Qed.

(** what the manager keeps locked itself, and the keys it sent on *)
Record task_ok sp (h : PrefetchHandle) (calls : list Call) (remaining : list K) : Prop := {
  tk_total : ph_total_requested_keys h = Z.of_nat (length (sp_keys sp));
  tk_warm : sp_mode sp = WARM → ph_l1_found_indices h = [];
  tk_found : ∀ p, p ∈ ph_l1_found_indices h → 0 <= p < Z.of_nat (length (sp_keys sp));
  tk_calls : ∀ i k, sp_keys sp !! i = Some k → ledger (read_delta k) calls
    = if bool_decide (Z.of_nat i ∈ ph_l1_found_indices h) then sp_num_kv_readers sp else 0;
  tk_orig : length (ph_l2_orig_indices h) = length remaining ∧ NoDup (ph_l2_orig_indices h);
  tk_remaining : ∀ j p, ph_l2_orig_indices h !! j = Some p → ∃ m k, p = Z.of_nat m ∧
    sp_keys sp !! m = Some k ∧ remaining !! j = Some k ∧ p ∉ ph_l1_found_indices h }.

Lemma combine_ok sp h calls remaining l2 : task_ok sp h calls remaining →
  (∀ bm, l2 = Some bm → bm_wf bm) →
  sized (Z.of_nat (length (sp_keys sp))) (_combine_found h l2) ∧
  (∀ i, 0 <= i → test (_combine_found h l2) i = true ↔
     i ∈ ph_l1_found_indices h ∨
     ∃ bm j, l2 = Some bm ∧ ph_l2_orig_indices h !! j = Some i ∧ test bm (Z.of_nat j) = true).
Proof.
  intros Ht Hbm. unfold _combine_found. rewrite (tk_total _ _ _ _ Ht). set (N := Z.of_nat _).
  destruct (batched_set_ok (ph_l1_found_indices h) (bitmap N)) as (Hw & Hs & Htest).
  { apply bitmap_wf. lia. } { apply Forall_forall. intros p Hp. by apply (tk_found _ _ _ _ Ht). }
  set (b1 := batched_set (bitmap N) (ph_l1_found_indices h)) in *.
  assert (∀ i, 0 <= i → test b1 i = true ↔ i ∈ ph_l1_found_indices h) as Hb1.
  { intros i Hi. rewrite Htest, test_bitmap by done. cbn. rewrite andb_true_iff, bool_decide_eq_true, Z.ltb_lt.
    split; [by intros [? _]|]. intros Hin. split; [done|]. by apply (tk_found _ _ _ _ Ht). }
  destruct l2 as [bm|].
  2: { split; [done|]. intros i Hi. rewrite Hb1 by done. split; [by left|]. intros [?|(? & ? & ? & _)]; done. }
  assert (Hpos : ∀ p, p ∈ gather bm (ph_l2_orig_indices h) → 0 <= p < N).
  { intros p (j & Hj & _)%elem_of_gather; [|by apply Hbm]. destruct (tk_remaining _ _ _ _ Ht j p Hj) as (m & k & -> & Hk & _).
    apply lookup_lt_Some in Hk. lia. }
  destruct (batched_set_ok (gather bm (ph_l2_orig_indices h)) b1 Hw) as (Hw2 & Hs2 & Ht2).
  { apply Forall_forall. intros p Hp. by apply Hpos. }
  change (bm_size b1 = N) in Hs. split; [split; [done|lia]|]. intros i Hi. rewrite Ht2, orb_true_iff, Hb1 by done. rewrite andb_true_iff, bool_decide_eq_true.
  apply or_iff_compat_l. rewrite elem_of_gather by (by apply Hbm). split.
  - intros [(j & Hj & Hx) _]. by exists bm, j.
  - intros (bm' & j & [= <-] & Hj & Hx). split; [by exists j|]. apply Z.ltb_lt. rewrite Hs.
    apply (Hpos i). apply elem_of_gather; [by apply Hbm|]. by exists j.
Qed.

(** the read locks a requester keeps on a found key *)
Definition kept_locks sp : Z := match sp_mode sp with LOOKUP => sp_num_kv_readers sp | WARM => 0 end.

(** the outcome, once the controller is done with its part *)
Lemma task_locks sp h calls remaining log bm :
  NoDup (sp_keys sp) → NoDup remaining → task_ok sp h calls remaining →
  completed_ok (spec_with_keys remaining sp) log bm → Forall conversion_ok log →
  ∀ i k, sp_keys sp !! i = Some k → ledger (read_delta k) (calls ++ log)
    = if test (_combine_found h (Some bm)) (Z.of_nat i) then kept_locks sp else 0.
Proof.
  intros Hnd Hrem Ht Hc Hconv i k Hi. destruct (co_result _ _ _ Hc) as [[Hw _] _].
  destruct (combine_ok sp h calls remaining (Some bm) Ht) as [_ Hcomb]; [by intros ? [= <-]|].
  specialize (Hcomb (Z.of_nat i) ltac:(lia)). rewrite ledger_app, (tk_calls _ _ _ _ Ht i k Hi), (co_reads _ _ _ Hc Hconv).
  cbn [sp_mode spec_with_keys sp_keys sp_num_kv_readers]. pose proof (tk_warm _ _ _ _ Ht) as Hwarm. unfold kept_locks.
  destruct (sp_mode sp); [set (n := sp_num_kv_readers sp)|].
  2: { rewrite Hwarm, bool_decide_eq_false_2 by (done || apply not_elem_of_nil). by destruct (test _ _). }
  destruct (decide (Z.of_nat i ∈ ph_l2_orig_indices h)) as [Hin|Hin].
  - apply list_elem_of_lookup in Hin as [j Hj]. destruct (tk_remaining _ _ _ _ Ht j _ Hj) as (m & k' & Hm & Hk' & Hrk & Hnf).
    apply Nat2Z.inj in Hm as <-. rewrite Hi in Hk'. injection Hk' as <-.
    rewrite (cnt_nodup remaining j k) by done. rewrite bool_decide_eq_false_2 by done.
    assert (test (_combine_found h (Some bm)) (Z.of_nat i) = bits_of bm j) as ->; [|destruct (bits_of bm j); lia].
    apply eq_true_iff_eq. rewrite Hcomb. unfold bits_of. split; [|intros; right; by exists bm, j].
    intros [?|(bm' & j' & [= <-] & Hj' & Hx)]; [done|].
    by rewrite (NoDup_lookup _ _ _ _ (proj2 (tk_orig _ _ _ _ Ht)) Hj Hj').
  - rewrite (cnt_notin k (bits_of bm) remaining).
    + rewrite Z.mul_0_r, Z.add_0_r. case_bool_decide as Hf; [by rewrite (proj2 Hcomb) by (by left)|].
      assert (test (_combine_found h (Some bm)) (Z.of_nat i) = false) as ->; [|done].
      apply not_true_is_false. rewrite Hcomb. intros [?|(bm' & j & _ & Hj & _)]; [done|].
      destruct Hin. by apply list_elem_of_lookup_2 in Hj.
    + intros Hk. apply list_elem_of_lookup in Hk as [j Hj]. apply Hin.
      destruct (lookup_lt_is_Some_2 (ph_l2_orig_indices h) j) as [p Hp].
      { rewrite (proj1 (tk_orig _ _ _ _ Ht)). by apply lookup_lt_Some in Hj. }
      destruct (tk_remaining _ _ _ _ Ht j p Hp) as (m & k' & -> & Hk' & Hrk & _). rewrite Hj in Hrk. injection Hrk as <-.
      rewrite (NoDup_lookup _ _ _ _ Hnd Hi Hk'). by apply list_elem_of_lookup_2 in Hp.
Qed.

(** nothing was sent on *)
Lemma task_locks_l1 sp h calls : task_ok sp h calls [] → ∀ i k, sp_keys sp !! i = Some k →
  ledger (read_delta k) calls
  = if test (_combine_found h None) (Z.of_nat i) then kept_locks sp else 0.
Proof.
  intros Ht i k Hi. destruct (combine_ok sp h calls [] None Ht) as [_ Hcomb]; [done|].
  specialize (Hcomb (Z.of_nat i) ltac:(lia)). rewrite (tk_calls _ _ _ _ Ht i k Hi).
  case_bool_decide as Hf.
  { rewrite (proj2 Hcomb) by (by left). unfold kept_locks. destruct (sp_mode sp) eqn:Em; [done|].
    rewrite (tk_warm _ _ _ _ Ht Em) in Hf. by apply not_elem_of_nil in Hf. }
  assert (test (_combine_found h None) (Z.of_nat i) = false) as ->; [|done].
  apply not_true_is_false. rewrite Hcomb. by intros [?|(? & ? & [=] & _)].
Qed.

(** ** Sending the rest on *)

(** the request [rid] was sent to the controller for [remaining], or nothing was *)
Inductive sent sp (remaining : list K) (rid : Z) (c c' : Controller) : Prop :=
| sent_none : rid = -1 → remaining = [] → drifts c c' → sent sp remaining rid c c'
| sent_on c1 :
    rid ≠ -1 → drifts c c1 → spec_ok object_group_id (spec_with_keys remaining sp) →
    submit_prefetch_request c1 (spec_with_keys remaining sp) = (rid, c') → sent sp remaining rid c c'.

Lemma submit_run s sp : ctl_reachable (sm_prefetch_controller s) →
  ∃ rid c', submit_prefetch_request (sm_prefetch_controller s) sp = (rid, c') ∧ rid ≠ -1 ∧
    sm_submit sp s = (Ok rid, with_controller c' s).
Proof.
  intros Hr. eexists _, _. split; [done|]. split; [|done].
  pose proof (ci_ids _ _ _ _ (reachable_inv _ _ _ _ _ Hr)). lia.
Qed.

Lemma replace_run s sp keys : spec_post_init sp = Ok tt →
  replace_keys keys sp s = (Ok (spec_with_keys keys sp), s).
Proof. intros Hsp. unfold replace_keys, lift, mbind, py_bind. by change (spec_post_init (spec_with_keys keys sp)) with (spec_post_init sp); rewrite Hsp. Qed.

Lemma spec_with_keys_id sp : spec_with_keys (sp_keys sp) sp = sp.
Proof. by destruct sp. Qed.

(** fewer keys of the same request *)
Lemma spec_ok_sub sp keys chunks :
  spec_ok object_group_id sp → NoDup keys → (∀ k, k ∈ keys → k ∈ sp_keys sp) →
  layout_ok chunks (world_size (sp_attn_desc sp)) (num_chunks_in_sw (sp_attn_desc sp)) →
  (sp_policy sp = PREFIX → Z.of_nat (length keys)
     = chunks * (Z.of_nat (length (num_chunks_in_sw (sp_attn_desc sp))) * world_size (sp_attn_desc sp))) →
  spec_ok object_group_id (spec_with_keys keys sp).
Proof. intros Hsp Hnd Hsub Hl Hg. constructor; [by exists chunks|done|]. intros k Hk. apply Hsp. by apply Hsub. Qed.

(** ** The prefix fold *)

Definition lookup_calls sp (ret : list (K * (L1Error * option Obj))) (released : list K) : list Call :=
  CReserveRead (sp_keys sp) (sp_num_kv_readers sp) ret
  :: if nonempty released then [CFinishRead released (sp_num_kv_readers sp)] else [].

Lemma lookup_calls_ledger sp ret released k : ledger (read_delta k) (lookup_calls sp ret released)
  = (if granted ret k then sp_num_kv_readers sp * occ k (sp_keys sp) else 0) - sp_num_kv_readers sp * occ k released.
Proof. unfold lookup_calls. destruct released; cbn -[occ]; [cbn [occ]|]; lia. Qed.

Section prefix.
Context (sp : Spec) (ret : list (K * (L1Error * option Obj))) (chunks : Z).
Let keys := sp_keys sp.
Let N := Z.of_nat (length keys).
Let R := world_size (sp_attn_desc sp).
Let ws := num_chunks_in_sw (sp_attn_desc sp).
Let stride := Z.of_nat (length ws) * R.
Let presence := presence_loop ret 0 keys (bitmap N).
Let hit := hit_of chunks R ws presence.
Let retain := _unfold_python hit chunks R ws.
Let released := gather (band presence (bnot retain)) keys.
Context (Hlay : layout_ok chunks R ws) (HN : N = chunks * stride) (Hnd : NoDup keys).
Context (Hall : ∀ k, k ∈ keys → is_Some (dget ret k)) (Hhit : ∀ k, l1_hit ret k = granted ret k).

Lemma prefix_sizes : sized N presence ∧ sized N retain ∧ 0 <= hit <= chunks ∧ 1 <= stride ∧
  0 <= hit * stride <= N.
Proof.
  destruct (presence_ok ret keys Hall Hhit) as [Hp _]. destruct (hit_of_spec chunks R ws Hlay presence) as [Hh _].
  destruct (python_unfold_ok chunks R ws Hlay hit) as (Hw & Hs & _). pose proof (lo_ranks _ _ _ Hlay).
  pose proof (groups_pos _ _ _ Hlay). assert (1 <= stride) by (unfold stride; nia).
  split_and!; try done; try lia; [split; [done|unfold N; fold stride in Hs; fold retain in Hs; lia]|unfold hit in *; nia..].
Qed.

Lemma prefix_ledger i k : keys !! i = Some k →
  ledger (read_delta k) (lookup_calls sp ret released)
  = if bool_decide (Z.of_nat i ∈ get_indices retain) then sp_num_kv_readers sp else 0.
Proof.
  intros Hi. destruct prefix_sizes as (Hp & Hr & _). rewrite lookup_calls_ledger. fold keys.
  assert (0 <= Z.of_nat i < N) as HiN by (apply lookup_lt_Some in Hi; unfold N; lia).
  unfold released. rewrite occ_gather by auto using sized_band, sized_bnot. rewrite (cnt_nodup keys i k) by done.
  unfold bits_of. rewrite (test_band N), (test_bnot N) by (auto using sized_bnot; lia).
  assert (test presence (Z.of_nat i) = granted ret k) as Ep by (by apply (presence_ok ret keys Hall Hhit)).
  rewrite Ep.
  rewrite <- (cnt_all k keys), (cnt_nodup keys i k) by done.
  rewrite (bool_decide_ext _ (test retain (Z.of_nat i) = true)) by (rewrite elem_of_get_indices by apply Hr; naive_solver lia).
  destruct (test retain (Z.of_nat i)) eqn:Er.
  - apply retain_found in Er; [|done|lia]. rewrite Ep in Er. rewrite Er, bool_decide_eq_true_2 by done. cbn [andb negb]. lia.
  - rewrite bool_decide_eq_false_2 by done. destruct (granted ret k); cbn [andb negb]; lia.
Qed.

Lemma prefix_task id ext now (sent_on : bool) : sp_mode sp = LOOKUP →
  let b := hit * stride in
  task_ok sp
    (mkHandle id ext (get_indices retain) hit N now (if sent_on then seqZ b (N - b) else []))
    (lookup_calls sp ret released)
    (if sent_on then drop (Z.to_nat b) keys else []).
Proof.
  intros Hmode b. destruct prefix_sizes as (Hp & Hr & Hh & Hst & Hb). fold b in Hb. constructor.
  - done.
  - by rewrite Hmode.
  - intros p [H0 Hp']%elem_of_get_indices; [|apply Hr]. cbn in Hp'. split; [done|].
    apply retain_below in Hp'; [|done..]. fold keys N. fold stride in Hp'. lia.
  - intros i k Hi. by apply prefix_ledger.
  - destruct sent_on; cbn [ph_l2_orig_indices]; [|split; [done|exact NoDup_nil_2]].
    split; [|apply NoDup_seqZ]. rewrite length_seqZ, length_drop. unfold N. lia.
  - destruct sent_on; cbn [ph_l2_orig_indices ph_l1_found_indices]; [|done].
    intros j p [-> Hlt]%lookup_seqZ. assert ((Z.to_nat b + j < length keys)%nat) as Hlen by (unfold N in *; lia).
    destruct (lookup_lt_is_Some_2 keys (Z.to_nat b + j) Hlen) as [k Hk]. exists (Z.to_nat b + j)%nat, k.
    split_and!; [lia|done|by rewrite lookup_drop|].
    intros [H0 Ht]%elem_of_get_indices; [|apply Hr]. apply retain_below in Ht; [|done..]. fold stride b in Ht. lia.
Qed.

Lemma prefix_rest_ok : spec_ok object_group_id sp →
  spec_ok object_group_id (spec_with_keys (drop (Z.to_nat (hit * stride)) keys) sp).
Proof.
  intros Hsp. destruct prefix_sizes as (_ & _ & Hh & Hst & Hb). apply (spec_ok_sub sp _ (chunks - hit)); [done| | | |].
  - by apply (sublist_NoDup _ keys); [|apply sublist_drop].
  - intros k Hk. fold keys. rewrite <- (take_drop (Z.to_nat (hit * stride)) keys). apply elem_of_app. by right.
  - destruct Hlay. constructor; try done; [lia|]. fold stride in lo_space |- *.
    eapply Z.le_lt_trans; [|exact lo_space]. apply Z.mul_le_mono_nonneg_r; lia.
  - intros _. fold ws R stride. rewrite length_drop. fold keys. unfold N in *. nia.
Qed.
End prefix.

Lemma send_run s sp keys (go : bool) :
  ctl_reachable (sm_prefetch_controller s) → spec_post_init sp = Ok tt →
  (go = true → spec_ok object_group_id (spec_with_keys keys sp)) →
  ∃ rid s', (if go then sp' ← replace_keys keys sp; sm_submit sp' else mret (-1)) s = (Ok rid, s') ∧
    sm_log s' = sm_log s ∧ sm_l2_adapters s' = sm_l2_adapters s ∧ (rid =? -1) = negb go ∧
    sent sp (if go then keys else []) rid (sm_prefetch_controller s) (sm_prefetch_controller s').
Proof.
  intros Hr Hpost Hsp. destruct go; [|by exists (-1), s; split_and!; try done; apply sent_none].
  destruct (submit_run s (spec_with_keys keys sp) Hr) as (rid & c' & Ec & Hne & E).
  exists rid, (with_controller c' s). rewrite (bind_ok _ _ _ _ _ (replace_run s sp _ Hpost)).
  split_and!; [done..|by apply Z.eqb_neq|]. eapply (sent_on _ _ _ _ _ (sm_prefetch_controller s)); [done..|by apply Hsp|done].
Qed.

(** ** What a submission leaves behind *)

Definition task_done sp s s' (h : PrefetchHandle) (calls : list Call) : Prop :=
  sm_l2_adapters s' = sm_l2_adapters s ∧
  ∃ remaining, task_ok sp h calls remaining ∧
    sent sp remaining (ph_prefetch_request_id h) (sm_prefetch_controller s) (sm_prefetch_controller s').

Lemma sent_later sp remaining rid c c1 c' :
  drifts c c1 → sent sp remaining rid c1 c' → sent sp remaining rid c c'.
Proof. intros Hr [? ? ?|c2 ? ? ? ?]; [apply sent_none|eapply (sent_on _ _ _ _ _ c2)]; try done; by etrans. Qed.

Lemma prefix_run sp ret s s0 ext skip now :
  ctl_reachable (sm_prefetch_controller s) → spec_ok object_group_id sp → spec_post_init sp = Ok tt →
  sp_mode sp = LOOKUP → sp_policy sp = PREFIX → (∀ k, k ∈ sp_keys sp → is_Some (dget ret k)) → (∀ k, l1_hit ret k = granted ret k) →
  sm_moves s0 s [CReserveRead (sp_keys sp) (sp_num_kv_readers sp) ret] →
  ∃ h s' calls, _submit_prefix_fold true sp ret ext skip now s = (Ok h, s') ∧
    sm_log s' = sm_log s0 ++ calls ∧ task_done sp s0 s' h calls.
Proof.
  intros Hr Hsp Hpost Hmode Hpol Hall Hhit Hmv. destruct (so_grid _ _ Hsp) as (chunks & Hlay & HN). specialize (HN Hpol).
  destruct (prefix_sizes sp ret chunks Hlay HN Hall Hhit) as (_ & _ & Hh & Hst & Hb).
  pose proof (prefix_task sp ret chunks Hlay HN (so_keys _ _ Hsp) Hall Hhit) as Htask. cbv zeta in Htask.
  pose proof (prefix_rest_ok sp ret chunks Hlay HN (so_keys _ _ Hsp) Hall Hhit Hsp) as Hrest.
  unfold _submit_prefix_fold. rewrite (bind_ok _ _ s s chunks).
  2: { unfold lift, floordiv, num_object_groups. rewrite (proj2 (Z.eqb_neq _ _)) by lia. rewrite HN, Z.div_mul by lia. done. }
  erewrite bind_ok; [|unfold lift; by rewrite (fold_unfold_run _ _ _ Hlay)]. cbv beta iota.
  set (hit := hit_of _ _ _ _) in *. set (retain := _unfold_python _ _ _ _) in *.
  set (released := gather _ _) in *. unfold num_object_groups. set (b := hit * _) in *.
  destruct (finish_read_run s released (sp_num_kv_readers sp) Hr) as (s1 & E1 & Hmv1). rewrite (bind_ok _ _ _ _ _ E1).
  pose proof (sm_moves_trans _ _ _ _ _ Hmv Hmv1) as Hmv2. 
  erewrite bind_ok; [|done]. erewrite bind_ok; [|done]. cbv beta.
  set (s2 := mkStorageManager _ _ _ _). set (go := negb _ && _).
  destruct (send_run s2 sp (drop (Z.to_nat b) (sp_keys sp)) go) as (rid & s3 & E3 & Hlog & Had & Hid & Hsent); [|done..|].
  { eapply reachable_run; [exact Hr|exact (mv_steps _ _ _ Hmv1)]. }
  rewrite (bind_ok _ _ s2 s3 (rid, if go then seqZ b (Z.of_nat (length (sp_keys sp)) - b) else [])).
  2: { destruct go; [exact (bind_bind_ok _ _ (λ rid, (rid, seqZ b (Z.of_nat (length (sp_keys sp)) - b))) _ _ _ E3)|]. by injection E3 as <- <-. }
  cbv beta iota.
  eexists _, s3, (lookup_calls sp ret released). split; [done|]. split.
  { etrans; [exact Hlog|exact (mv_log _ _ _ Hmv2)]. }
  split; [rewrite Had; exact (mv_adapters _ _ _ Hmv2)|]. eexists. split; [by apply (Htask rid ext now go)|]. eapply sent_later; [apply Hmv2|]. exact Hsent.
Qed.

Lemma sparse_task sp ret id ext now (go : bool) :
  sp_mode sp = LOOKUP → NoDup (sp_keys sp) → (∀ k, l1_hit ret k = granted ret k) →
  let '(found, _, (missed, remaining)) := sparse_split ret 0 (sp_keys sp) in
  task_ok sp (mkHandle id ext found 0 (Z.of_nat (length (sp_keys sp))) now (if go then missed else []))
    (lookup_calls sp ret []) (if go then remaining else []).
Proof.
  intros Hmode Hnd Hhit. pose proof (sparse_split_ok ret (sp_keys sp) 0) as Hs.
  destruct (sparse_split ret 0 (sp_keys sp)) as [[found succ] [missed remaining]]. destruct Hs as (Hlen & Hm & Hf & Hj).
  constructor; cbn.
  - done.
  - by rewrite Hmode.
  - intros p (j & k & -> & Hk & _)%Hf. apply lookup_lt_Some in Hk. lia.
  - intros i k Hi. rewrite Z.add_0_r, <- (cnt_all k), (cnt_nodup _ i k), Z.mul_1_r by done.
    rewrite <- Hhit. erewrite (bool_decide_ext _ (l1_hit ret k = true)); [by destruct (l1_hit ret k)|].
    rewrite Hf. split; [|intros; by exists i, k].
    intros (j & k' & Hij & Hk' & Hl). rewrite Z.add_0_l in Hij. apply Nat2Z.inj in Hij as <-. congruence.
  - destruct go; [done|]. split; [done|exact NoDup_nil_2].
  - destruct go; [|done]. intros j p Hp. destruct (Hj j p Hp) as (m & k & -> & Hk & Hr & Hl). exists m, k.
    split_and!; [lia|done..|]. intros (j' & k' & Hij & Hk' & Hl')%Hf. assert (m = j') as -> by lia. congruence.
Qed.

Lemma sparse_rest_ok sp (ret : list (K * (L1Error * option Obj))) : spec_ok object_group_id sp → sp_policy sp = SPARSE →
  spec_ok object_group_id (spec_with_keys (sparse_split ret 0 (sp_keys sp)).2.2 sp).
Proof.
  intros Hsp Hpol. destruct (so_grid _ _ Hsp) as (chunks & Hlay & _). pose proof (sparse_sublist ret (sp_keys sp) 0) as Hsub.
  apply (spec_ok_sub sp _ chunks); [done| | |done|by rewrite Hpol].
  - by eapply sublist_NoDup; [apply Hsp|].
  - intros k Hk. eapply elem_of_submseteq; [exact Hk|]. by apply sublist_submseteq.
Qed.

(** a warm-up keeps no locks and sends everything on, if anything *)
Lemma warm_task sp id ext now (go : bool) :
  let N := Z.of_nat (length (sp_keys sp)) in
  task_ok sp (mkHandle id ext [] 0 N now (if go then seqZ 0 N else [])) [] (if go then sp_keys sp else []).
Proof.
  constructor; cbn.
  - done.
  - done.
  - intros p Hp. by apply not_elem_of_nil in Hp.
  - intros i k _. by rewrite bool_decide_eq_false_2 by apply not_elem_of_nil.
  - destruct go; [|split; [done|exact NoDup_nil_2]]. rewrite length_seqZ. split; [lia|apply NoDup_seqZ].
  - destruct go; [|done]. intros j p [-> Hlt]%lookup_seqZ. destruct (lookup_lt_is_Some_2 (sp_keys sp) j ltac:(lia)) as [k Hk].
    exists j, k. split_and!; [lia|done|done|apply not_elem_of_nil].
Qed.

Lemma submit_task_run sp s ext skip now :
  ctl_reachable (sm_prefetch_controller s) → spec_ok object_group_id sp → spec_post_init sp = Ok tt →
  sp_mode sp = WARM ∨ sp_policy sp ≠ SEGMENTED_PREFIX →
  ∃ h s' calls, submit_prefetch_task true sp ext skip now s = (Ok h, s') ∧
    sm_log s' = sm_log s ++ calls ∧ task_done sp s s' h calls.
Proof.
  intros Hr Hsp Hpost Hpol. unfold submit_prefetch_task. destruct (sp_mode sp) eqn:Emode.
  - destruct Hpol as [?|Hpol]; [done|].
    destruct (reserve_read_run s (sp_keys sp) (sp_num_kv_readers sp) Hr) as (ret & s1 & E1 & Hmv & Hall & Hhit).
    rewrite (bind_ok _ _ _ _ _ E1). pose proof (reachable_run _ _ Hr (mv_steps _ _ _ Hmv)) as Hr1.
    destruct (sp_policy sp) eqn:Epol; [by eapply prefix_run|done|].
    pose proof (sparse_rest_ok sp ret Hsp Epol) as Hrest. pose proof (λ id go, sparse_task sp ret id ext now go Emode (so_keys _ _ Hsp) Hhit) as Htask.
    destruct (sparse_split ret 0 (sp_keys sp)) as [[found succ] [missed remaining]].
    erewrite bind_ok; [|done]. erewrite bind_ok; [|done]. cbv beta. set (s2 := mkStorageManager _ _ _ _). set (go := _ && _ && _).
    destruct (send_run s2 sp remaining go) as (rid & s3 & E3 & Hlog & Had & Hid & Hsent); [done..|].
    rewrite (bind_ok _ _ _ _ _ E3). eexists _, s3, _. split; [done|]. split; [rewrite Hlog; apply (mv_log _ _ _ Hmv)|].
    split; [rewrite Had; exact (mv_adapters _ _ _ Hmv)|]. exists (if go then remaining else []). split; [|eapply sent_later; [apply Hmv|exact Hsent]].
    rewrite Hid. specialize (Htask rid go). by destruct go.
  - erewrite bind_ok; [|done]. cbv beta. set (go := _ && _ && _).
    destruct (send_run s sp (sp_keys sp) go) as (rid & s3 & E3 & Hlog & Had & Hid & Hsent); [done..|by rewrite spec_with_keys_id|].
    rewrite (bind_ok _ _ s s3 rid).
    2: { revert E3. destruct go; [|done]. by rewrite (bind_ok _ _ _ _ _ (replace_run s sp _ Hpost)), spec_with_keys_id. }
    eexists _, s3, []. split; [done|]. split; [by rewrite app_nil_r|].
    split; [exact Had|]. exists (if go then sp_keys sp else []). split; [|exact Hsent]. rewrite Hid. pose proof (warm_task sp rid ext now go). by destruct go.
Qed.

(** what any submission is to the controller *)
Lemma submit_task_steps sp s ext skip now :
  ctl_reachable (sm_prefetch_controller s) → spec_ok object_group_id sp → spec_post_init sp = Ok tt →
  let s' := (submit_prefetch_task true sp ext skip now s).2 in
  sm_l2_adapters s' = sm_l2_adapters s ∧
  ∃ c1, drifts (sm_prefetch_controller s) c1 ∧
    (sm_prefetch_controller s' = c1 ∨
     ∃ sp', spec_ok object_group_id sp' ∧ sm_prefetch_controller s' = (submit_prefetch_request c1 sp').2).
Proof.
  intros Hr Hsp Hpost. cbv zeta.
  destruct (decide (sp_mode sp = LOOKUP ∧ sp_policy sp = SEGMENTED_PREFIX)) as [[Hm Hp]|Hn].
  - unfold submit_prefetch_task. rewrite Hm, Hp.
    destruct (reserve_read_run s (sp_keys sp) (sp_num_kv_readers sp) Hr) as (ret & s' & E & Hmv & _).
    rewrite (bind_ok _ _ _ _ _ E). split; [apply Hmv|]. eexists. split; [apply Hmv|by left].
  - destruct (submit_task_run sp s ext skip now Hr Hsp Hpost) as (h & s' & calls & -> & _ & Ha & rem & _ & Hsent).
    { destruct (sp_mode sp); [right; naive_solver|by left]. }
    split; [exact Ha|]. destruct Hsent as [_ _ Hd|c1 _ Hd Hsp' E]; [exists (sm_prefetch_controller s'); by auto|].
    exists c1. split; [done|]. right. eexists. split; [exact Hsp'|]. cbn [snd]. by rewrite E.
Qed.

(** the calls the controller made for a handle *)
Definition handle_log (h : PrefetchHandle) (c : Controller) : list Call :=
  if ph_prefetch_request_id h =? -1 then [] else log_of (ph_prefetch_request_id h) c.

Lemma sent_outcome sp remaining rid c c' c'' : ctl_reachable c → sent sp remaining rid c c' → rid ≠ -1 →
  rtc ctl_step c' c'' →
  awaited rid c' ∧ NoDup remaining ∧
  ∀ b, (query_prefetch_result c'' rid).1 = Some b → completed_ok (spec_with_keys remaining sp) (log_of rid c'') b.
Proof.
  intros Hc [?|c1 Hne Hr1 Hsp E] Hrid Hr2; [done|].
  pose proof (reachable_inv _ _ _ _ _ (reachable_run _ _ Hc (drifts_steps _ _ Hr1))) as Hi1.
  pose proof (submit_inv _ _ _ _ _ Hi1 Hsp) as Hi2. rewrite E in Hi2. cbn in Hi2.
  assert ((rid, spec_with_keys remaining sp) ∈ pc_pending_queue c' ++ pc_submission_queue c') as Hin.
  { injection E as <- <-. cbn. set_solver. }
  destruct (ctl_run_inv _ _ _ _ _ _ Hi2 Hr2) as [Hi3 Hk]. split_and!.
  - left. apply list_elem_of_fmap. by exists (rid, spec_with_keys remaining sp).
  - apply Hsp.
  - intros b Hb. destruct (tracked_outcome _ _ _ _ rid (spec_with_keys remaining sp) Hi3) as [(_ & _ & Hn)|[(_ & Hn & _)|(_ & bm & Hbm & Hx)]].
    { apply Hk. by left. } { by rewrite Hn in Hb. } { by rewrite Hn in Hb. } by rewrite (Hx b Hb).
Qed.

(** C6: found means locked. Submit any lookup the storage manager supports (not of
    policy SEGMENTED_PREFIX), or any warm-up, with a well-formed request, in a state
    the controller can reach: the call returns a handle. Whatever happens next, the
    handle's bitmap can be fetched at once or its request is awaited by the
    controller; and when the bitmap comes, and every conversion of a write
    reservation into read locks was granted (no load outlasted its write lock), it
    covers all keys and says what is locked: over the manager's own calls and the
    controller's, each found key has one read lock per reader (none for a warm-up)
    and every other key has none. *)
Theorem prefetch_found_is_locked sp s ext skip now :
  ctl_reachable (sm_prefetch_controller s) → spec_ok object_group_id sp → spec_post_init sp = Ok tt →
  sp_mode sp = WARM ∨ sp_policy sp ≠ SEGMENTED_PREFIX →
  ∃ h s' calls, submit_prefetch_task true sp ext skip now s = (Ok h, s') ∧ sm_log s' = sm_log s ++ calls ∧
    ∀ c, rtc ctl_step (sm_prefetch_controller s') c →
    (is_Some (query_prefetch_status c h).1 ∨ awaited (ph_prefetch_request_id h) (sm_prefetch_controller s')) ∧
    ∀ found, (query_prefetch_status c h).1 = Some found → Forall conversion_ok (handle_log h c) →
      sized (Z.of_nat (length (sp_keys sp))) found ∧
      ∀ i k, sp_keys sp !! i = Some k → ledger (read_delta k) (calls ++ handle_log h c)
        = if test found (Z.of_nat i) then kept_locks sp else 0.
Proof.
  intros Hr Hsp Hpost Hpol. destruct (submit_task_run sp s ext skip now Hr Hsp Hpost Hpol) as (h & s' & calls & E & Hlog & _ & rem & Ht & Hsent).
  exists h, s', calls. split; [done|]. split; [done|]. intros c Hc. unfold query_prefetch_status, handle_log.
  destruct (Z.eqb_spec (ph_prefetch_request_id h) (-1)) as [Hid|Hid].
  - split; [left; by eexists|]. intros found [= <-] _. rewrite app_nil_r.
    destruct Hsent as [_ -> _|]; [|done]. split; [by apply (combine_ok sp h calls [] None)|by apply task_locks_l1].
  - destruct (sent_outcome _ _ _ _ _ c Hr Hsent Hid Hc) as (Haw & Hnd & Hout). split; [by right|].
    destruct (query_prefetch_result c (ph_prefetch_request_id h)) as [[bm|] c'] eqn:Eq; [|done].
    intros found [= <-] Hconv. specialize (Hout bm eq_refl).
    split; [|by apply (task_locks sp h calls rem); [apply Hsp|..]].
    apply (combine_ok sp h calls rem (Some bm) Ht). intros ? [= <-]. apply (co_result _ _ _ Hout).
Qed.

(** A lookup that asks for segmented trimming takes its read locks and then
    raises: nobody is left with a handle to give them back. *)
Theorem segmented_lookup_leaks sp s ext skip now :
  ctl_reachable (sm_prefetch_controller s) → sp_mode sp = LOOKUP → sp_policy sp = SEGMENTED_PREFIX →
  ∃ ret s', submit_prefetch_task true sp ext skip now s = (Raise ValueError, s') ∧
    sm_log s' = sm_log s ++ [CReserveRead (sp_keys sp) (sp_num_kv_readers sp) ret].
Proof.
  intros Hr Hmode Hpol. unfold submit_prefetch_task. rewrite Hmode, Hpol.
  destruct (reserve_read_run s (sp_keys sp) (sp_num_kv_readers sp) Hr) as (ret & s' & E & Hmv & _).
  exists ret, s'. rewrite (bind_ok _ _ _ _ _ E). split; [done|apply Hmv].
Qed.
End proofs.
