(* ===== verification/StorageManagerDemo.v ===== *)
(** * A lookup through the whole stack

    The demonstration system again: one lookup has brought the keys 0, 1 and 2
    from the store into the cache; a second lookup of the same keys finds them
    there and sends only key 3 on. *)

From S2P Require Import Prelude PyDict PyState AddressSpace TTLLock L1Manager L1Memory Bitmap Fold PrefetchPlan KeyLedger.
From S2P Require Import PrefetchController PrefetchControllerProofs PrefetchRuns PrefetchL1 PrefetchDemo.
From S2P Require Import StorageManager StorageManagerProofs.
Local Open Scope Z_scope.

Module StorageManagerDemo.
Import PrefetchDemo.

Abbreviation Manager := (StorageManager DemoWorld Z nat nat Layout nat unit).

Definition manager0 : Manager := mkStorageManager finished [(0, 0)] [] [].
Definition lookup_run : result PrefetchHandle * Manager := submit_prefetch_task true (spec LOOKUP) "req" false 7 manager0.
Definition handle : PrefetchHandle :=
  match lookup_run.1 with Ok h => h | Raise _ => mkHandle (-1) "" [] 0 0 0 [] end.
Definition answered : Controller := turn (turn (turn (sm_prefetch_controller lookup_run.2))).

Lemma finished_reachable : reachable group_of RetainPrefetchPolicy 8 0 finished.
Proof.
  assert (∀ s : Controller, reachable group_of RetainPrefetchPolicy 8 0 s → reachable group_of RetainPrefetchPolicy 8 0 (turn s)) as Hturn.
  { intros s Hs. unfold turn, iterate. apply (reach_step _ _ _ _ (later s)); [|apply step_iterate].
    apply (reach_step _ _ _ _ s); [exact Hs|]. apply step_world, later_evolves. }
  unfold finished. do 3 apply Hturn. eapply reach_step; [exact controller0_reachable|]. apply step_submit, spec_is_ok.
Qed.

Example lookup_splits : (ph_l1_found_indices handle, ph_l2_orig_indices handle) = ([0; 1; 2], [3]).
Proof. vm_compute. reflexivity. Qed.

Lemma prefetch_found_is_locked_witness :
  ∃ found, (query_prefetch_status answered handle).1 = Some found ∧ get_indices found = [0; 1; 2] ∧
    ∀ i k, sp_keys (spec LOOKUP) !! i = Some k →
      ledger (read_delta k) (sm_log lookup_run.2 ++ handle_log handle answered)
      = if test found (Z.of_nat i) then 2 else 0.
Proof.
  destruct (prefetch_found_is_locked group_of RetainPrefetchPolicy 8 0 (spec LOOKUP) manager0 "req" false 7)
    as (h & s' & calls & E & Hlog & H).
  - exact finished_reachable.
  - apply spec_is_ok.
  - vm_compute. reflexivity.
  - right. done.
  - assert (lookup_run = (Ok h, s')) as Erun by (unfold lookup_run; exact E).
    clear E. destruct (H answered) as [_ Hf].
    { unfold answered. rewrite Erun. do 2 (etrans; [|apply turn_steps]). apply turn_steps. }
    assert (match (query_prefetch_status answered handle).1 with Some b => get_indices b | None => [] end = [0; 1; 2]) as Ei
      by (vm_compute; reflexivity).
    assert (handle = h) as Eh by (unfold handle; by rewrite Erun). rewrite <- Eh in Hf.
    destruct (query_prefetch_status answered handle).1 as [found|]; [|discriminate Ei].
    destruct (Hf found eq_refl) as [_ Hl]; [vm_compute; repeat constructor|].
    exists found. split; [reflexivity|]. split; [exact Ei|]. rewrite Erun. cbn [snd]. rewrite Hlog. exact Hl.
Defined.
End StorageManagerDemo.
