(* ===== verification/StoreController.v ===== *)
(** * The store controller

    [storage_controllers/store_controller.py] and [store_policy.py]: the loop that
    copies freshly written objects from the L1 cache to the L2 adapters. It
    read-locks the objects, submits one task per adapter and shape, and when the
    adapter reports the outcome gives the locks back and applies the policy's
    deletions.

    The world, the L1 interface and the adapter operations are those of the
    prefetch controller. Every call is appended to [ss_log]. The iteration order
    of a Python set is a parameter. *)

From S2P Require Import Prelude PyDict PyState TTLLock L1Manager Bitmap Fold PrefetchPlan PrefetchController.
Local Open Scope Z_scope.

(** ** Results of store tasks: [L2StoreResult] is an [int] *)

Definition L2StoreResult := Z.
Definition new_L2StoreResult (success : bool) (bytes_transferred : Z) : result L2StoreResult :=
  (guard negb (bytes_transferred <? 0) else ValueError;
   Ok (if success then bytes_transferred else -1))%py.
Definition is_successful (r : L2StoreResult) : bool := 0 <=? r.
Definition bytes_transferred (r : L2StoreResult) : Z := if 0 <=? r then r else 0.

(** the store half of [L2AdapterInterface] *)
Class L2StoreAdapters (W Ad K Obj TaskId : Type) := {
  submit_store_task : W → Ad → list K → list Obj → TaskId * W;
  pop_completed_store_tasks : W → Ad → list (TaskId * L2StoreResult) * W;
  get_store_event_fd : Ad → Z }.

(** ** Policies *)

Inductive StorePolicy := DefaultStorePolicy | BufferOnlyStorePolicy.

Definition select_store_targets {K config} (keys : list K) (adapters : list (AdapterDescriptor config))
  : list (Z * list K) :=
  dupdate [] ((λ ad, (ad_index ad, keys)) <$> adapters).
Definition select_l1_deletions {K} (p : StorePolicy) (keys : list K) : list K :=
  match p with DefaultStorePolicy => [] | BufferOnlyStorePolicy => keys end.

(** [_STORE_POLICY_REGISTRY] after the module is loaded *)
Definition store_policy_registry : list (string * StorePolicy) :=
  [("default", DefaultStorePolicy); ("skip_l1", BufferOnlyStorePolicy)]%string.
Definition create_store_policy (name : string) : result StorePolicy :=
  match dget store_policy_registry name with Some p => Ok p | None => Raise ValueError end.

(** ** The controller *)

Section store.
Context {W Ad K Obj Layout TaskId config : Type} `{EqDecision K, EqDecision TaskId}.
Context {L1 : L1Client W K Obj Layout} {L2 : L2StoreAdapters W Ad K Obj TaskId}.
(** fields of a key, and the order in which Python iterates a set *)
Context (model_name : K → string) (kv_rank : K → Z) (cache_salt : K → string).
Context (iter_set : list Z → list Z).
Context (policy_ : StorePolicy) (listener_fd : Z).

Fixpoint group_loop_store (groups : list ((string * Z) * list K)) (keys : list K) : list ((string * Z) * list K) :=
  match keys with
  | [] => groups
  | key :: keys =>
      let shape := (model_name key, kv_rank key) in
      group_loop_store (dset groups shape (default [] (dget groups shape) ++ [key])) keys
  end.
Definition _group_keys_by_shape (keys : list K) : list ((string * Z) * list K) := group_loop_store [] keys.

(** [Counter(k.cache_salt for k in keys)] *)
Definition salt_counter (keys : list K) : list (string * Z) :=
  foldl (λ d key, dset d (cache_salt key) (default 0 (dget d (cache_salt key)) + 1)) [] keys.

Inductive read_failure := rf_not_found | rf_write_locked.

Inductive store_event :=
| L1_READ_FAILED (reason : read_failure) (keys : list K)
| L2_STORE_SUBMITTED (adapter_index : Z) (task_id : TaskId) (desc : AdapterDescriptor config)
    (key_count : nat) (total_bytes : Z) (key_count_per_salt : list (string * Z))
| L2_STORE_COMPLETED (adapter_index : Z) (task_id : TaskId) (desc : AdapterDescriptor config)
    (bytes_transferred : Z) (succeeded_count failed_count : nat)
    (key_count_per_salt : option (list (string * Z))).

Inductive store_call :=
| SReserveRead (keys : list K) (ret : list (K * (L1Error * option Obj)))
| SFinishRead (keys : list K)
| SSubmitStore (adapter_index : Z) (task_id : TaskId) (keys : list K) (objs : list Obj)
| SPopCompleted (adapter_index : Z) (completed : list (TaskId * L2StoreResult))
| SDelete (keys : list K)
| SPublish (e : store_event).

Record InFlightStoreTask := mkStoreTask {
  tk_adapter_index : Z;
  tk_keys : list K;
  tk_read_locked_keys : list K;
  tk_l2_store_result : option bool;
  tk_l2_bytes_transferred : Z }.

Abbreviation task_key := (Z * TaskId)%type.

Record StoreController := mkStoreController {
  ss_world : W;
  ss_log : list store_call;
  ss_l2_adapters : list (Z * Ad);
  ss_adapter_descriptors : list (Z * AdapterDescriptor config);
  ss_draining : list (Z * Z);
  ss_efd_to_adapter_index : list (Z * Z);
  ss_done : list Z;                            (* events set so far *)
  ss_pending_adapter_ops : list (adapter_op Ad config);
  ss_pending_keys : list K;                    (* of the StoreListener *)
  ss_in_flight_tasks : list (task_key * InFlightStoreTask);
  ss_status_in_flight_count : Z }.

Abbreviation st := (py_state StoreController).

Definition ss_call (c : store_call) (w : W) (s : StoreController) : StoreController :=
  mkStoreController w (ss_log s ++ [c]) (ss_l2_adapters s) (ss_adapter_descriptors s) (ss_draining s)
    (ss_efd_to_adapter_index s) (ss_done s) (ss_pending_adapter_ops s) (ss_pending_keys s)
    (ss_in_flight_tasks s) (ss_status_in_flight_count s).
Definition ss_set_world (w : W) (s : StoreController) : StoreController :=
  mkStoreController w (ss_log s) (ss_l2_adapters s) (ss_adapter_descriptors s) (ss_draining s)
    (ss_efd_to_adapter_index s) (ss_done s) (ss_pending_adapter_ops s) (ss_pending_keys s)
    (ss_in_flight_tasks s) (ss_status_in_flight_count s).
Definition ss_set_adapters (adapters : list (Z * Ad)) (descs : list (Z * AdapterDescriptor config))
    (draining efds : list (Z * Z)) (done : list Z) (s : StoreController) : StoreController :=
  mkStoreController (ss_world s) (ss_log s) adapters descs draining efds done
    (ss_pending_adapter_ops s) (ss_pending_keys s) (ss_in_flight_tasks s) (ss_status_in_flight_count s).
Definition ss_set_ops (ops : list (adapter_op Ad config)) (s : StoreController) : StoreController :=
  mkStoreController (ss_world s) (ss_log s) (ss_l2_adapters s) (ss_adapter_descriptors s) (ss_draining s)
    (ss_efd_to_adapter_index s) (ss_done s) ops (ss_pending_keys s)
    (ss_in_flight_tasks s) (ss_status_in_flight_count s).
Definition ss_set_pending (keys : list K) (s : StoreController) : StoreController :=
  mkStoreController (ss_world s) (ss_log s) (ss_l2_adapters s) (ss_adapter_descriptors s) (ss_draining s)
    (ss_efd_to_adapter_index s) (ss_done s) (ss_pending_adapter_ops s) keys
    (ss_in_flight_tasks s) (ss_status_in_flight_count s).
Definition ss_set_tasks (tasks : list (task_key * InFlightStoreTask)) (count : Z) (s : StoreController)
  : StoreController :=
  mkStoreController (ss_world s) (ss_log s) (ss_l2_adapters s) (ss_adapter_descriptors s) (ss_draining s)
    (ss_efd_to_adapter_index s) (ss_done s) (ss_pending_adapter_ops s) (ss_pending_keys s) tasks count.

Definition store_record (c : store_call) (w : W) : st unit := modify (ss_call c w).
Definition store_publish (e : store_event) : st unit :=
  w ← gets ss_world; store_record (SPublish e) w.
Definition store_reserve_read (keys : list K) : st (list (K * (L1Error * option Obj))) :=
  w ← gets ss_world;
  let '(ret, w) := l1_reserve_read w keys 1 in
  _ ← store_record (SReserveRead keys ret) w; mret ret.
Definition store_finish_read (keys : list K) : st unit :=
  w ← gets ss_world;
  w ← lift (l1_finish_read w keys 1); store_record (SFinishRead keys) w.
Definition store_delete (keys : list K) : st unit :=
  w ← gets ss_world;
  w ← lift (l1_delete w keys); store_record (SDelete keys) w.

(** ** Submitting *)

(** the loop over [target_keys]: locked keys, their objects, missing keys,
    write-locked keys *)
Fixpoint split_read_results (read_results : list (K * (L1Error * option Obj))) (target_keys : list K)
  : list K * list Obj * (list K * list K) :=
  match target_keys with
  | [] => ([], [], ([], []))
  | key :: target_keys =>
      let '(ok, objs, (nf, wl)) := split_read_results read_results target_keys in
      match dget read_results key with
      | None => (ok, objs, (nf, wl))
      | Some (SUCCESS, Some obj) => (key :: ok, obj :: objs, (nf, wl))
      | Some (KEY_NOT_EXIST, _) => (ok, objs, (key :: nf, wl))
      | Some (KEY_NOT_READABLE, _) => (ok, objs, (nf, key :: wl))
      | Some (_, _) => (ok, objs, (nf, wl))
      end
  end.

(** from [if not successful_keys: continue] to the end of the loop's body *)
Definition submit_locked (adapter_index : Z) (successful_keys : list K) (successful_objs : list Obj) : st unit :=
  if negb (nonempty successful_keys) then mret tt
  else
    adapters ← gets ss_l2_adapters;
    adapter ← getitem adapters adapter_index;
    w ← gets ss_world;
    let '(task_id, w) := submit_store_task w adapter successful_keys successful_objs in
    _ ← store_record (SSubmitStore adapter_index task_id successful_keys successful_objs) w;
    _ ← modify (λ s, ss_set_tasks
          (dset (ss_in_flight_tasks s) (adapter_index, task_id)
             (mkStoreTask adapter_index successful_keys successful_keys None 0))
          (ss_status_in_flight_count s + 1) s);
    obj0 ← lift (match successful_objs with obj :: _ => Ok obj | [] => Raise IndexError end);
    w ← gets ss_world;
    let total_bytes := l1_get_size w obj0 * Z.of_nat (length successful_objs) in
    descs ← gets ss_adapter_descriptors;
    desc ← getitem descs adapter_index;
    store_publish (L2_STORE_SUBMITTED adapter_index task_id desc (length successful_keys) total_bytes
                     (salt_counter successful_keys)).

(** the body of the loop over [plan.items()] *)
Definition submit_to_adapter (adapter_index : Z) (target_keys : list K) : st unit :=
  adapters ← gets ss_l2_adapters;
  if negb (nonempty target_keys) || negb (dmem adapters adapter_index) then mret tt
  else
    read_results ← store_reserve_read target_keys;
    let '(successful_keys, successful_objs, (not_found_keys, write_locked_keys)) :=
      split_read_results read_results target_keys in
    _ ← when (nonempty not_found_keys) (store_publish (L1_READ_FAILED rf_not_found not_found_keys));
    _ ← when (nonempty write_locked_keys) (store_publish (L1_READ_FAILED rf_write_locked write_locked_keys));
    submit_locked adapter_index successful_keys successful_objs.

Definition routing_descriptors (s : StoreController) : list (AdapterDescriptor config) :=
  (List.filter (λ ad, negb (dmem (ss_draining s) (fst ad))) (ss_adapter_descriptors s)).*2.

Definition _submit_store_for_single_shape (keys : list K) : st unit :=
  routing ← gets routing_descriptors;
  for_each (λ at_, submit_to_adapter (fst at_) (snd at_)) (select_store_targets keys routing).

Definition _process_new_keys (keys : list K) : st unit :=
  for_each _submit_store_for_single_shape (dvals (_group_keys_by_shape keys)).

(** ** Completions *)

Definition deposit (adapter_index : Z) (tr : TaskId * L2StoreResult) (s : StoreController) : StoreController :=
  match dget (ss_in_flight_tasks s) (adapter_index, fst tr) with
  | None => s
  | Some task =>
      ss_set_tasks
        (dset (ss_in_flight_tasks s) (adapter_index, fst tr)
           (mkStoreTask (tk_adapter_index task) (tk_keys task) (tk_read_locked_keys task)
              (Some (is_successful (snd tr))) (bytes_transferred (snd tr))))
        (ss_status_in_flight_count s) s
  end.

Definition drain_adapter (adapter_index : Z) : st unit :=
  adapters ← gets ss_l2_adapters;
  adapter ← getitem adapters adapter_index;
  w ← gets ss_world;
  let '(completed, w) := pop_completed_store_tasks w adapter in
  _ ← store_record (SPopCompleted adapter_index completed) w;
  for_each (λ tr, modify (deposit adapter_index tr)) completed.

Definition _drain_l2_store_completions (signaled_adapters : list Z) : st unit :=
  for_each drain_adapter (iter_set signaled_adapters).

Definition _finalize_store (key : task_key) (task : InFlightStoreTask) : st unit :=
  let '(adapter_index, task_id) := key in
  _ ← store_finish_read (tk_read_locked_keys task);
  tasks ← gets ss_in_flight_tasks;
  _ ← getitem tasks key;
  _ ← modify (λ s, ss_set_tasks (ddel (ss_in_flight_tasks s) key) (ss_status_in_flight_count s - 1) s);
  descs ← gets ss_adapter_descriptors;
  desc ← getitem descs adapter_index;
  if bool_decide (tk_l2_store_result task = Some true) then
    _ ← store_publish (L2_STORE_COMPLETED adapter_index task_id desc (tk_l2_bytes_transferred task)
          (length (tk_keys task)) 0 (Some (salt_counter (tk_keys task))));
    let delete_keys := select_l1_deletions policy_ (tk_keys task) in
    when (nonempty delete_keys) (store_delete delete_keys)
  else
    store_publish (L2_STORE_COMPLETED adapter_index task_id desc (tk_l2_bytes_transferred task)
      0 (length (tk_keys task)) None).

Definition _advance_request (key : task_key) (task : InFlightStoreTask) : st unit :=
  match tk_l2_store_result task with
  | None => mret tt
  | Some _ => _finalize_store key task
  end.

(** ** Adapters at run time *)

Definition apply_op (op : adapter_op Ad config) (s : StoreController) : StoreController :=
  match op with
  | AddAdapterOp adapter_id adapter descriptor done_ =>
      ss_set_adapters (dset (ss_l2_adapters s) adapter_id adapter)
        (dset (ss_adapter_descriptors s) adapter_id descriptor) (ss_draining s)
        (dset (ss_efd_to_adapter_index s) (get_store_event_fd adapter) adapter_id)
        (ss_done s ++ [done_]) s
  | RemoveAdapterOp adapter_id done_ =>
      if dmem (ss_l2_adapters s) adapter_id then
        ss_set_adapters (ss_l2_adapters s) (ss_adapter_descriptors s)
          (dset (ss_draining s) adapter_id done_) (ss_efd_to_adapter_index s) (ss_done s) s
      else
        ss_set_adapters (ss_l2_adapters s) (ss_adapter_descriptors s) (ss_draining s)
          (ss_efd_to_adapter_index s) (ss_done s ++ [done_]) s
  end.
Definition _apply_pending_adapter_ops : st unit :=
  ops ← gets ss_pending_adapter_ops;
  _ ← modify (ss_set_ops []);
  for_each (λ op, modify (apply_op op)) ops.

Definition _adapter_in_use (s : StoreController) (adapter_id : Z) : bool :=
  existsb (λ kt, fst (fst kt) =? adapter_id) (ss_in_flight_tasks s).

Definition finalize_drained (adapter_id : Z) : st unit :=
  in_use ← gets (λ s, _adapter_in_use s adapter_id);
  if (in_use : bool) then mret tt
  else
    adapters ← gets ss_l2_adapters;
    adapter ← getitem adapters adapter_id;
    draining ← gets ss_draining;
    done_ ← getitem draining adapter_id;
    modify (λ s, ss_set_adapters (ddel (ss_l2_adapters s) adapter_id)
      (ddel (ss_adapter_descriptors s) adapter_id) (ddel (ss_draining s) adapter_id)
      (ddel (ss_efd_to_adapter_index s) (get_store_event_fd adapter)) (ss_done s ++ [done_]) s).
Definition _finalize_drained_adapters : st unit :=
  draining ← gets ss_draining; for_each finalize_drained (dkeys draining).

(** ** The loop *)

Definition pop_pending_keys : st (list K) :=
  keys ← gets ss_pending_keys; _ ← modify (ss_set_pending []); mret keys.

(** the loop over the ready descriptors; returns the set of signalled adapters *)
Fixpoint ready_loop (ready : list Z) (signaled : list Z) : st (list Z) :=
  match ready with
  | [] => mret signaled
  | fd :: ready =>
      if fd =? listener_fd then
        _ ← try_ (keys ← pop_pending_keys; when (nonempty keys) (_process_new_keys keys));
        ready_loop ready signaled
      else
        efds ← gets ss_efd_to_adapter_index;
        ready_loop ready
          (match dget efds fd with
           | Some adapter_idx => if decide (adapter_idx ∈ signaled) then signaled else signaled ++ [adapter_idx]
           | None => signaled
           end)
  end.

(** one round of [_store_loop] *)
Definition store_iteration (ready : list Z) : st unit :=
  _ ← _apply_pending_adapter_ops;
  signaled ← ready_loop ready [];
  _ ← when (nonempty signaled)
        (_ ← try_ (_drain_l2_store_completions signaled);
         tasks ← gets ss_in_flight_tasks;
         for_each (λ kt, try_ (_advance_request (fst kt) (snd kt))) tasks);
  _finalize_drained_adapters.

(** ** Operations of other threads *)

Definition on_l1_keys_write_finished (s : StoreController) (keys : list K) : StoreController :=
  ss_set_pending (ss_pending_keys s ++ keys) s.

(** [add_adapter] and [request_remove_adapter] *)
Definition store_queue_op (s : StoreController) (op : adapter_op Ad config) : StoreController :=
  ss_set_ops (ss_pending_adapter_ops s ++ [op]) s.

Definition init_store (w : W) (l2_adapters : list Ad) (adapter_descriptors : list (AdapterDescriptor config))
  : result StoreController :=
  (guard bool_decide (length adapter_descriptors = length l2_adapters) else ValueError;
   let adapters := dupdate [] (zip (ad_index <$> adapter_descriptors) l2_adapters) in
   Ok (mkStoreController w [] adapters
         (dupdate [] ((λ desc, (ad_index desc, desc)) <$> adapter_descriptors)) []
         (dupdate [] ((λ ia, (get_store_event_fd (snd ia), fst ia)) <$> adapters)) [] [] [] [] 0))%py.

(** [stop] after the loop has ended *)
Definition _cleanup_in_flight_tasks : st unit :=
  tasks ← gets ss_in_flight_tasks;
  _ ← for_each (λ kt, store_finish_read (tk_read_locked_keys (snd kt))) tasks;
  modify (λ s, ss_set_tasks [] (ss_status_in_flight_count s) s).

End store.

Arguments store_event K TaskId config : clear implicits.
Arguments store_call K Obj TaskId config : clear implicits.
Arguments InFlightStoreTask K : clear implicits.
Arguments StoreController W Ad K Obj TaskId config : clear implicits.
