(* ===== verification/StoreControllerProofs.v ===== *)
(** * The store controller: locks, deletions and deliveries

    The invariant of the controller over every run. While a handler is at work
    the read locks it has taken but not yet entered in a task, or given back
    before the task is dropped, are the offset of the invariant. *)

From S2P Require Import Prelude PyDict PyState TTLLock L1Manager Bitmap Fold PrefetchPlan KeyLedger.
From S2P Require Import PrefetchController PrefetchControllerProofs StoreController.
Local Open Scope Z_scope.

(** ** Laws of the adapters

    Task identifiers are unique within an adapter, and a poll reports a task
    once. *)

Class L2StoreSpec (W Ad K Obj TaskId : Type)
    `{EqDecision TaskId, WorldModel W, L2StoreAdapters W Ad K Obj TaskId} := {
  w_store_issued : W → Ad → TaskId → Prop;
  w_store_issued_evolves w w' a t : w_store_issued w a t → w_evolves w w' → w_store_issued w' a t;
  submit_store_spec w a keys objs :
    w_ok w → length keys = length objs → let '(t, w') := submit_store_task w a keys objs in
    w_evolves w w' ∧ (¬ w_store_issued w a t) ∧ w_store_issued w' a t;
  pop_completed_spec w a :
    w_ok w → let '(completed, w') := pop_completed_store_tasks w a in
    w_evolves w w' ∧ dwf completed }.

Section proofs.
Context {W Ad K Obj Layout TaskId config : Type} `{EqDecision K, EqDecision TaskId}.
Context {L1 : L1Client W K Obj Layout} {L2 : L2StoreAdapters W Ad K Obj TaskId}.
Context {WM : WorldModel W} {S1 : L1ClientSpec W K Obj Layout} {S2 : L2StoreSpec W Ad K Obj TaskId}.
Context (listener_fd : Z).

Abbreviation State := (StoreController W Ad K Obj TaskId config).
Abbreviation Call := (store_call K Obj TaskId config).
Abbreviation Task := (InFlightStoreTask K).
Abbreviation store_fd := (get_store_event_fd (L2StoreAdapters := L2)).
Implicit Types (s : State) (c : Call) (l : list Call) (a : Z) (off : K → Z).

(** ** What the log says *)

(** read locks on [k] *)
Definition lock_delta (k : K) c : Z :=
  match c with
  | SReserveRead keys ret => if granted ret k then occ k keys else 0
  | SFinishRead keys => - occ k keys
  | _ => 0
  end.

(** an adapter reported that it stored all of [keys] *)
Definition stored l (keys : list K) : Prop :=
  ∃ a t ks objs completed r, SSubmitStore a t ks objs ∈ l ∧ SPopCompleted a completed ∈ l ∧
    dget completed t = Some r ∧ is_successful r = true ∧ keys ⊆ ks.

Definition deletes_ok l : Prop := ∀ l1 keys l2, l = l1 ++ SDelete keys :: l2 → stored l1 keys.

(** [k] was offered to adapter [a]: it was locked together with others, and if
    the lock was granted its object went into a task *)
Definition offered a (k : K) l : Prop :=
  ∃ keys ret, k ∈ keys ∧ SReserveRead keys ret ∈ l ∧
    ∀ o, dget ret k = Some (SUCCESS, Some o) → ∃ t ks objs, SSubmitStore a t ks objs ∈ l ∧ (k, o) ∈ zip ks objs.

Lemma stored_mono l l' keys : l ⊆ l' → stored l keys → stored l' keys.
Proof. intros Hl (a & t & ks & objs & cs & r & H1 & H2 & H3). exists a, t, ks, objs, cs, r. auto. Qed.

Lemma offered_mono a k l l' : l ⊆ l' → offered a k l → offered a k l'.
Proof.
  intros Hl (keys & ret & Hk & H1 & H2). exists keys, ret. split_and!; auto.
  intros o Ho. destruct (H2 o Ho) as (t & ks & objs & ? & ?). exists t, ks, objs. auto.
Qed.

Lemma deletes_ok_snoc l c : deletes_ok l → (∀ keys, c = SDelete keys → stored l keys) → deletes_ok (l ++ [c]).
Proof.
  intros Hl Hc l1 keys l2 E. destruct l2 as [|c2 l2 _] using rev_ind.
  - apply app_inj_tail in E as [-> ->]. by apply Hc.
  - rewrite app_comm_cons, app_assoc in E. apply app_inj_tail in E as [-> _]. by apply (Hl l1 keys l2).
Qed.

(** ** The invariant *)

(** the tables of adapters, descriptors, adapters being drained and event
    descriptors *)
Record tables_ok (A : list (Z * Ad)) (D : list (Z * AdapterDescriptor config)) (R E : list (Z * Z)) : Prop := {
  ao_wf : dwf A ∧ dwf D ∧ dwf R;
  ao_desc : ∀ a, is_Some (dget A a) → is_Some (dget D a);
  ao_index : ∀ a d, dget D a = Some d → ad_index d = a ∧ is_Some (dget A a);
  ao_draining : ∀ a, is_Some (dget R a) → is_Some (dget A a);
  ao_efd : ∀ a ad, dget A a = Some ad → dget E (store_fd ad) = Some a ∧ store_fd ad ≠ listener_fd;
  ao_efd_inv : ∀ fd a, dget E fd = Some a → ∃ ad, dget A a = Some ad ∧ store_fd ad = fd }.

Definition adapters_ok s : Prop :=
  tables_ok (ss_l2_adapters s) (ss_adapter_descriptors s) (ss_draining s) (ss_efd_to_adapter_index s).

Record task_ok s (key : Z * TaskId) (task : Task) : Prop := {
  to_issued : ∃ ad, dget (ss_l2_adapters s) key.1 = Some ad ∧ w_store_issued (ss_world s) ad key.2;
  to_adapter : tk_adapter_index task = key.1;
  to_locked : tk_read_locked_keys task = tk_keys task;
  to_submitted : ∃ objs, SSubmitStore key.1 key.2 (tk_keys task) objs ∈ ss_log s;
  to_reported : ∀ b, tk_l2_store_result task = Some b → ∃ completed r,
    SPopCompleted key.1 completed ∈ ss_log s ∧ dget completed key.2 = Some r ∧ is_successful r = b }.

(** read locks on [k] that the tasks in flight account for *)
Definition held (k : K) (tasks : list ((Z * TaskId) * Task)) : Z :=
  ledger (λ kt, occ k (tk_read_locked_keys kt.2)) tasks.

(** queued operations attach adapters under new identifiers *)
Fixpoint store_ops_ok (A : list (Z * Ad)) (ops : list (adapter_op Ad config)) : Prop :=
  match ops with
  | [] => True
  | AddAdapterOp a ad desc _ :: ops =>
      dget A a = None ∧ ad_index desc = a ∧ store_fd ad ≠ listener_fd ∧
      (∀ a' ad', dget A a' = Some ad' → store_fd ad ≠ store_fd ad') ∧ store_ops_ok (dset A a ad) ops
  | RemoveAdapterOp _ _ :: ops => store_ops_ok A ops
  end.

Record store_inv off s : Prop := {
  si_world : w_ok (ss_world s);
  si_adapters : adapters_ok s;
  si_ops : store_ops_ok (ss_l2_adapters s) (ss_pending_adapter_ops s);
  si_wf : dwf (ss_in_flight_tasks s);
  si_tasks : ∀ key task, dget (ss_in_flight_tasks s) key = Some task → task_ok s key task;
  si_count : ss_status_in_flight_count s = Z.of_nat (length (ss_in_flight_tasks s));
  si_locks : ∀ k, ledger (lock_delta k) (ss_log s) = held k (ss_in_flight_tasks s) + off k;
  si_deletes : deletes_ok (ss_log s) }.

Abbreviation inv := (store_inv (λ _, 0)).

Lemma store_inv_ext off off' s : (∀ k, off k = off' k) → store_inv off s → store_inv off' s.
Proof. intros Ho []. constructor; try done. intros k. by rewrite <- Ho. Qed.

(** a handler leaves the tables alone and makes calls of the kind [P] *)
Record moved (P : Call → Prop) s s' : Prop := {
  mv_world : w_evolves (ss_world s) (ss_world s');
  mv_log : ∃ ext, ss_log s' = ss_log s ++ ext ∧ Forall P ext;
  mv_adapters : ss_l2_adapters s' = ss_l2_adapters s;
  mv_descs : ss_adapter_descriptors s' = ss_adapter_descriptors s;
  mv_draining : ss_draining s' = ss_draining s;
  mv_efds : ss_efd_to_adapter_index s' = ss_efd_to_adapter_index s;
  mv_done : ss_done s' = ss_done s;
  mv_ops : ss_pending_adapter_ops s' = ss_pending_adapter_ops s;
  mv_pending : ss_pending_keys s' = ss_pending_keys s }.

#[export] Instance moved_pre P : PreOrder (moved P).
Proof.
  split.
  - intros s. constructor; try done. exists []. by rewrite app_nil_r.
  - intros s1 s2 s3 [? (e1 & ? & ?)] [? (e2 & ? & ?)]. constructor; try congruence; [by etrans|].
    exists (e1 ++ e2). rewrite app_assoc. split; [congruence|by apply Forall_app].
Qed.

Lemma moved_weaken (P Q : Call → Prop) s s' : (∀ c, P c → Q c) → moved P s s' → moved Q s s'.
Proof. intros Hpq [? (ext & ? & ?)]. constructor; try done. exists ext. split; [done|by eapply Forall_impl]. Qed.

Definition not_pop c : Prop := match c with SPopCompleted _ _ => False | _ => True end.
Definition any c : Prop := True.

Lemma adapters_ok_moved P s s' : moved P s s' → adapters_ok s → adapters_ok s'.
Proof. intros [_ _ E1 E2 E3 E4 _ _ _]. unfold adapters_ok. by rewrite E1, E2, E3, E4. Qed.

Lemma task_ok_moved P s s' key task : moved P s s' → task_ok s key task → task_ok s' key task.
Proof.
  intros Hm []. assert (ss_log s ⊆ ss_log s') as Hl by (destruct (mv_log _ _ _ Hm) as (ext & -> & _); set_solver).
  constructor; try done.
  - destruct to_issued0 as (ad & ? & ?). exists ad. rewrite (mv_adapters _ _ _ Hm). split; [done|].
    by eapply w_store_issued_evolves, Hm.
  - destruct to_submitted0 as [objs ?]. exists objs. auto.
  - intros b Hb. destruct (to_reported0 b Hb) as (cs & r & ? & ? & ?). exists cs, r. auto.
Qed.

Lemma set_tasks_moved P s s' tasks n : moved P s s' → moved P s (ss_set_tasks tasks n s').
Proof. intros []. by constructor. Qed.

(** one call *)
Lemma call_moved (P : Call → Prop) c w s : w_evolves (ss_world s) w → P c → moved P s (ss_call c w s).
Proof. intros Hw Hc. constructor; try done. exists [c]. split; [done|]. by repeat constructor. Qed.

Lemma call_inv off c w s :
  store_inv off s → w_evolves (ss_world s) w → (∀ keys, c = SDelete keys → stored (ss_log s) keys) →
  store_inv (λ k, off k + lock_delta k c) (ss_call c w s).
Proof.
  intros Hi Hw Hc. pose proof (call_moved any c w s Hw I) as Hm. constructor; try apply Hi.
  - eapply w_ok_evolves; [apply Hi|done].
  - intros key task Ht. eapply task_ok_moved; [done|]. by apply (si_tasks _ _ Hi).
  - intros k. cbn [ss_call ss_log ss_in_flight_tasks]. rewrite ledger_snoc, (si_locks _ _ Hi). lia.
  - apply deletes_ok_snoc; [apply Hi|done].
Qed.

Lemma store_publish_ok off e s : store_inv off s →
  runs (store_publish e) s (λ _ s', store_inv off s' ∧ moved not_pop s s' ∧ ss_in_flight_tasks s' = ss_in_flight_tasks s).
Proof.
  intros Hi. apply runs_bind, runs_gets, runs_modify. split; [|split; [by apply call_moved|done]].
  eapply store_inv_ext; [|by apply call_inv]. intros k. cbn. lia.
Qed.

(** ** Submitting *)

Context (cache_salt : K → string).

Lemma split_ok (ret : list (K * (L1Error * option Obj))) keys :
  (∀ k o, dget ret k = Some (SUCCESS, o) → is_Some o) →
  let '(ok, objs, _) := split_read_results ret keys in
  length ok = length objs ∧ (∀ k, occ k ok = if granted ret k then occ k keys else 0) ∧
  (∀ k o, k ∈ keys → dget ret k = Some (SUCCESS, Some o) → (k, o) ∈ zip ok objs).
Proof.
  intros Hobj. induction keys as [|key keys IH]; cbn [split_read_results].
  { split_and!; [done|intros k; by destruct (granted ret k)|]. intros k o Hk. by apply not_elem_of_nil in Hk. }
  destruct (split_read_results ret keys) as [[ok objs] [nf wl]]. destruct IH as (Hlen & Hocc & Hin).
  assert (granted ret key = false → (∀ k, occ k ok = if granted ret k then occ k (key :: keys) else 0) ∧
    (∀ k o, k ∈ key :: keys → dget ret k = Some (SUCCESS, Some o) → (k, o) ∈ zip ok objs)) as Hskip.
  { intros Hg. split.
    - intros k. rewrite Hocc. cbn. destruct (decide (key = k)) as [<-|]; [by rewrite Hg|done].
    - intros k o [->|Hk]%elem_of_cons Ho; [|by apply Hin]. unfold granted in Hg. by rewrite Ho in Hg. }
  unfold granted in Hskip at 1. destruct (dget ret key) as [[[] [o|]]|] eqn:Ek;
    try (destruct (Hskip eq_refl); split_and!; done).
  - split_and!; [cbn; lia| |].
    + intros k. cbn. rewrite Hocc. destruct (decide (key = k)) as [<-|]; [|destruct (granted ret k); lia].
      unfold granted. by rewrite Ek.
    + intros k o' [->|Hk]%elem_of_cons Ho; cbn; [rewrite Ek in Ho; injection Ho as ->; left|right; by apply Hin].
  - by destruct (Hobj key None Ek).
Qed.

(** a task enters the table with the locks taken for it *)
Lemma track_inv a ad t keys objs w s :
  let s1 := ss_call (SSubmitStore a t keys objs) w s in
  store_inv (λ k, occ k keys) s → dget (ss_l2_adapters s) a = Some ad → w_evolves (ss_world s) w →
  ¬ w_store_issued (ss_world s) ad t → w_store_issued w ad t →
  inv (ss_set_tasks (dset (ss_in_flight_tasks s1) (a, t) (mkStoreTask a keys keys None 0))
         (ss_status_in_flight_count s1 + 1) s1).
Proof.
  intros s1 Hi Ha Hw Hfresh Hiss.
  assert (store_inv (λ k, occ k keys) s1) as Hi1.
  { eapply store_inv_ext; [|by apply call_inv]. intros k. cbn. lia. }
  assert (dget (ss_in_flight_tasks s) (a, t) = None) as Hnone.
  { destruct (dget (ss_in_flight_tasks s) (a, t)) as [task|] eqn:E; [|done]. apply (si_tasks _ _ Hi) in E as [(ad' & Ha' & Hx) _ _ _ _].
    cbn in Ha', Hx. rewrite Ha in Ha'. injection Ha' as <-. done. }
  constructor; try apply Hi1; cbn [ss_in_flight_tasks ss_set_tasks ss_log ss_status_in_flight_count].
  - apply dset_wf, Hi.
  - intros key task. rewrite dget_dset. case_decide as Hk; [|intros Ht; by destruct (si_tasks _ _ Hi1 key task Ht)].
    intros [= <-]. subst key. constructor; try done; cbn.
    + by exists ad.
    + exists objs. set_solver.
  - rewrite dkeys_dset_new by done. rewrite length_app. cbn. rewrite (si_count _ _ Hi). lia.
  - intros k. rewrite dkeys_dset_new by done. unfold held. rewrite ledger_snoc. rewrite (si_locks _ _ Hi1). cbn. unfold held. lia.
Qed.

(** the second half of a submission: the objects in [ok] are locked *)
Lemma submit_locked_ok a ad keys ret ok objs ext s s3 :
  dget (ss_l2_adapters s) a = Some ad → length ok = length objs →
  (∀ k o, k ∈ keys → dget ret k = Some (SUCCESS, Some o) → (k, o) ∈ zip ok objs) →
  store_inv (λ k, occ k ok) s3 → moved not_pop s s3 → ss_log s3 = ss_log s ++ SReserveRead keys ret :: ext →
  runs (submit_locked cache_salt a ok objs) s3 (λ _ s', inv s' ∧
    moved not_pop s s' ∧ ∃ ext, ss_log s' = ss_log s ++ ext ∧ ∀ k, k ∈ keys → offered a k ext).
Proof.
  intros Ha Hlen Hin Hi3 Hm Hlog3. unfold submit_locked. destruct ok as [|k1 ok1]; cbn [nonempty negb].
  { apply runs_ret. split_and!; [eapply store_inv_ext; [|exact Hi3]; done|done|].
    eexists. split; [exact Hlog3|]. intros k Hk. exists keys, ret. split_and!; [done|set_solver|].
    intros o Ho. specialize (Hin k o Hk Ho). by apply not_elem_of_nil in Hin. }
  apply runs_bind, runs_gets, runs_bind. eapply runs_getitem; [by rewrite (mv_adapters _ _ _ Hm)|]. apply runs_bind, runs_gets.
  pose proof (submit_store_spec (ss_world s3) ad (k1 :: ok1) objs (si_world _ _ Hi3) Hlen) as Hsub.
  destruct (submit_store_task (ss_world s3) ad (k1 :: ok1) objs) as [t w4]. destruct Hsub as (Hw4 & Hfr & Hiss).
  apply runs_bind, runs_modify, runs_bind, runs_modify. set (s4 := ss_call _ _ s3). set (s5 := ss_set_tasks _ _ s4).
  assert (inv s5) as Hi5 by (by eapply track_inv; [exact Hi3|rewrite (mv_adapters _ _ _ Hm)|..]).
  assert (moved not_pop s s5) as Hm5 by (apply set_tasks_moved; etrans; [exact Hm|]; by apply call_moved).
  destruct objs as [|o1 objs]; [done|]. apply runs_bind, runs_lift, runs_bind, runs_gets, runs_bind, runs_gets.
  destruct (ao_desc _ _ _ _ (si_adapters _ _ Hi5) a) as [desc Hdesc]; [rewrite (mv_adapters _ _ _ Hm5); by exists ad|].
  apply runs_bind. eapply runs_getitem; [exact Hdesc|]. eapply runs_mono; [by apply store_publish_ok|].
  intros [] s6 (Hi6 & Hm6 & _). split_and!; [done|by etrans|]. destruct (mv_log _ _ _ Hm6) as (ext6 & Hlog6 & _).
  cbn [s5 s4 ss_call ss_set_tasks ss_log] in Hlog6. rewrite Hlog3, <- !app_assoc in Hlog6. eexists. split; [exact Hlog6|].
  intros k Hk. exists keys, ret. split_and!; [done|set_solver|].
  intros o Ho. exists t, (k1 :: ok1), (o1 :: objs). split; [set_solver|by apply Hin].
Qed.

Lemma submit_to_adapter_ok a keys s : inv s → is_Some (dget (ss_l2_adapters s) a) →
  runs (submit_to_adapter cache_salt a keys) s (λ _ s', inv s' ∧
    moved not_pop s s' ∧ ∃ ext, ss_log s' = ss_log s ++ ext ∧ ∀ k, k ∈ keys → offered a k ext).
Proof.
  intros Hi [ad Ha]. apply runs_bind, runs_gets. unfold dmem. rewrite Ha. rewrite orb_false_r.
  destruct keys as [|k0 keys0]; cbn [nonempty negb].
  { apply runs_ret. split_and!; [done..|]. exists []. rewrite app_nil_r. split; [done|]. intros k Hk. by apply not_elem_of_nil in Hk. }
  set (keys := k0 :: keys0). apply runs_bind. unfold store_reserve_read. apply runs_bind, runs_gets.
  pose proof (l1_reserve_read_spec (ss_world s) keys 1 (si_world _ _ Hi)) as Hrr.
  destruct (l1_reserve_read (ss_world s) keys 1) as [ret w1]. destruct Hrr as (Hw1 & _ & Hobj).
  apply runs_bind, runs_modify, runs_ret. set (s1 := ss_call _ _ s).
  pose proof (split_ok ret keys Hobj) as Hsplit.
  destruct (split_read_results ret keys) as [[ok objs] [nf wl]]. destruct Hsplit as (Hlen & Hocc & Hin).
  assert (Hi1 : store_inv (λ k, occ k ok) s1).
  { eapply store_inv_ext; [|by apply call_inv]. intros k. rewrite Hocc. cbn [lock_delta]. apply Z.add_0_l. }
  assert (moved not_pop s s1) as Hm1 by (by apply call_moved).
  apply runs_bind. eapply (runs_mono _ _ (λ _ s2, store_inv (λ k, occ k ok) s2 ∧ moved not_pop s1 s2)).
  { apply runs_when; [intros _|done]. eapply runs_mono; [by apply store_publish_ok|]. naive_solver. }
  intros [] s2 [Hi2 Hm2]. apply runs_bind. eapply (runs_mono _ _ (λ _ s3, store_inv (λ k, occ k ok) s3 ∧ moved not_pop s1 s3)).
  { apply runs_when; [intros _|done]. eapply runs_mono; [by apply store_publish_ok|]. intros [] s3 (? & ? & _). split; [done|by etrans]. }
  intros [] s3 [Hi3 Hm3]. destruct (mv_log _ _ _ Hm3) as (ext & Hlog & _). cbn [s1 ss_call ss_log] in Hlog.
  eapply (submit_locked_ok a ad keys ret ok objs ext); try done; [by etrans|]. by rewrite Hlog, <- app_assoc.
Qed.

(** a loop of submissions: each element is dealt with *)
Lemma for_each_log {A} (f : A → py_state State unit) (Done : A → list Call → Prop) (xs : list A) s :
  (∀ x l l', l ⊆ l' → Done x l → Done x l') → inv s →
  (∀ x s', x ∈ xs → inv s' → moved not_pop s s' → runs (f x) s' (λ _ s'', inv s'' ∧ moved not_pop s' s'' ∧
     ∃ ext, ss_log s'' = ss_log s' ++ ext ∧ Done x ext)) →
  runs (for_each f xs) s (λ _ s', inv s' ∧ moved not_pop s s' ∧
    ∃ ext, ss_log s' = ss_log s ++ ext ∧ ∀ x, x ∈ xs → Done x ext).
Proof.
  intros Hmono. revert s. induction xs as [|x xs IH]; intros s Hi Hf.
  { apply runs_ret. split_and!; [done..|]. exists []. rewrite app_nil_r. split; [done|]. intros x Hx. by apply not_elem_of_nil in Hx. }
  cbn. apply runs_bind. eapply runs_mono; [apply Hf; [left|done..]|]. intros [] s1 (Hi1 & Hm1 & ext1 & Hl1 & Hd1).
  eapply runs_mono.
  { apply (IH s1 Hi1). intros y s' Hy Hi' Hm'. apply Hf; [by right|done|by etrans]. }
  intros [] s2 (Hi2 & Hm2 & ext2 & Hl2 & Hd2). split_and!; [done|by etrans|]. exists (ext1 ++ ext2).
  rewrite Hl2, Hl1, app_assoc. split; [done|]. intros y [->|Hy]%elem_of_cons.
  - eapply Hmono; [|done]. set_solver.
  - eapply Hmono; [|by apply Hd2]. set_solver.
Qed.

(** *** Routing *)

(** attached and not being drained *)
Definition routable s a : Prop := is_Some (dget (ss_l2_adapters s) a) ∧ dget (ss_draining s) a = None.

Lemma routing_index s : adapters_ok s →
  ad_index <$> routing_descriptors s
  = (List.filter (λ ad, negb (dmem (ss_draining s) (fst ad))) (ss_adapter_descriptors s)).*1.
Proof.
  intros Ha. unfold routing_descriptors. destruct (ao_wf _ _ _ _ Ha) as (_ & Hwf & _).
  pose proof (λ a d Hin, proj1 (ao_index _ _ _ _ Ha a d (dget_wf_elem_of _ a d Hwf Hin))) as Hix. clear Ha Hwf.
  induction (ss_adapter_descriptors s) as [|[a d] D IH]; [done|]. cbn [List.filter].
  specialize (IH (λ a d Hin, Hix a d (list_elem_of_further _ _ _ Hin))).
  destruct (negb _); [|done]. cbn. by rewrite IH, (Hix a d (list_elem_of_here _ _)).
Qed.

Lemma routing_nodup s : adapters_ok s → NoDup (ad_index <$> routing_descriptors s).
Proof.
  intros Ha. rewrite routing_index by done. destruct (ao_wf _ _ _ _ Ha) as (_ & Hwf & _).
  unfold dwf, dkeys in Hwf. revert Hwf. generalize (ss_adapter_descriptors s). intros D. induction D as [|[a d] D IH]; [done|].
  cbn. intros [Hn Hd]%NoDup_cons. destruct (negb _); [|by apply IH]. cbn. apply NoDup_cons. split; [|by apply IH].
  intros ([a' d'] & -> & [Hin _]%list_elem_of_In%List.filter_In)%list_elem_of_fmap. apply Hn, list_elem_of_fmap.
  exists (a', d'). split; [done|by apply list_elem_of_In].
Qed.

Lemma routing_routable s a : adapters_ok s → a ∈ ad_index <$> routing_descriptors s ↔ routable s a.
Proof.
  intros Ha. rewrite routing_index by done. rewrite list_elem_of_fmap. destruct (ao_wf _ _ _ _ Ha) as (_ & Hwf & _). split.
  - intros ([a' d] & -> & [Hin%list_elem_of_In Hn]%list_elem_of_In%List.filter_In). cbn in *.
    apply (dget_wf_elem_of _ a' d) in Hin; [|done]. split; [by apply (ao_index _ _ _ _ Ha a' d)|].
    unfold dmem in Hn. by destruct (dget (ss_draining s) a').
  - intros [Hs Hn]. destruct (ao_desc _ _ _ _ Ha a Hs) as [d Hd]. exists (a, d). split; [done|].
    apply list_elem_of_In, List.filter_In. split; [by apply list_elem_of_In, dget_elem_of|]. cbn. unfold dmem. by rewrite Hn.
Qed.

Lemma targets_ok s (keys : list K) : adapters_ok s →
  select_store_targets keys (routing_descriptors s) = (λ d, (ad_index d, keys)) <$> routing_descriptors s.
Proof.
  intros Ha. unfold select_store_targets. rewrite dupdate_app; [done|]. unfold dwf, dkeys. cbn.
  rewrite <- list_fmap_compose. apply routing_nodup in Ha. exact Ha.
Qed.

Lemma single_shape_ok keys s : inv s →
  runs (_submit_store_for_single_shape cache_salt keys) s (λ _ s', inv s' ∧ moved not_pop s s' ∧
    ∃ ext, ss_log s' = ss_log s ++ ext ∧ ∀ a k, routable s a → k ∈ keys → offered a k ext).
Proof.
  intros Hi. pose proof (si_adapters _ _ Hi) as Ha. apply runs_bind, runs_gets. rewrite targets_ok by done.
  eapply runs_mono; [apply (for_each_log _ (λ at_ l, ∀ k, k ∈ at_.2 → offered at_.1 k l))|].
  - intros x l l' Hl Hd k Hk. eapply offered_mono; [done|auto].
  - done.
  - intros [a ks] s' (d & [= -> ->] & Hd)%list_elem_of_fmap Hi' Hm. cbn [fst snd]. apply submit_to_adapter_ok; [done|].
    rewrite (mv_adapters _ _ _ Hm). apply (routing_routable s (ad_index d) Ha). by apply list_elem_of_fmap_2.
  - intros [] s' (Hi' & Hm & ext & Hl & Hd). split_and!; [done..|]. exists ext. split; [done|]. intros a k Hr Hk.
    apply (routing_routable s a Ha) in Hr. apply list_elem_of_fmap in Hr as (d & -> & Hin).
    apply (Hd (ad_index d, keys)); [|done]. apply list_elem_of_fmap. by exists d.
Qed.

Context (model_name : K → string) (kv_rank : K → Z).

Lemma group_loop_get keys : ∀ g sh,
  default [] (dget (group_loop_store model_name kv_rank g keys) sh)
  = default [] (dget g sh) ++ filter (λ k, (model_name k, kv_rank k) = sh) keys.
Proof.
  induction keys as [|key keys IH]; intros g sh; cbn [group_loop_store]; [by rewrite app_nil_r|].
  rewrite IH, dget_dset, filter_cons. destruct (decide ((model_name key, kv_rank key) = sh)) as [<-|].
  - cbn. by rewrite <- app_assoc.
  - done.
Qed.

(** each key lands in the group of its shape, and the groups have one shape *)
Lemma group_keys_ok keys sh :
  default [] (dget (_group_keys_by_shape model_name kv_rank keys) sh)
  = filter (λ k, (model_name k, kv_rank k) = sh) keys.
Proof. apply group_loop_get. Qed.

Lemma process_new_keys_ok keys s : inv s →
  runs (_process_new_keys model_name kv_rank cache_salt keys) s (λ _ s', inv s' ∧ moved not_pop s s' ∧
    ∃ ext, ss_log s' = ss_log s ++ ext ∧ ∀ a k, routable s a → k ∈ keys → offered a k ext).
Proof.
  intros Hi. eapply runs_mono; [apply (for_each_log _ (λ group l, ∀ a k, routable s a → k ∈ group → offered a k l))|].
  - intros x l l' Hl Hd a k Ha Hk. eapply offered_mono; [done|auto].
  - done.
  - intros group s' _ Hi' Hm. eapply runs_mono; [by apply single_shape_ok|].
    intros [] s2 (Hi2 & Hm2 & ext & Hl & Hd). split_and!; [done..|]. exists ext. split; [done|]. intros a k [Hr1 Hr2] Hk.
    apply Hd; [|done]. split; [by rewrite (mv_adapters _ _ _ Hm)|by rewrite (mv_draining _ _ _ Hm)].
  - intros [] s' (Hi' & Hm & ext & Hl & Hd). split_and!; [done..|]. exists ext. split; [done|]. intros a k Hr Hk.
    pose proof (group_keys_ok keys (model_name k, kv_rank k)) as Hg.
    assert (k ∈ filter (λ x, (model_name x, kv_rank x) = (model_name k, kv_rank k)) keys) as Hin by (by apply list_elem_of_filter).
    destruct (dget (_group_keys_by_shape model_name kv_rank keys) (model_name k, kv_rank k)) as [group|] eqn:E; cbn in Hg.
    + apply (Hd group); [by eapply dget_fmap_Some|done|]. by rewrite Hg.
    + rewrite <- Hg in Hin. by apply not_elem_of_nil in Hin.
Qed.

(** ** Completions *)

(** outcomes are only ever added *)
Definition keeps_results s s' : Prop := ∀ key task', dget (ss_in_flight_tasks s') key = Some task' →
  ∃ task, dget (ss_in_flight_tasks s) key = Some task ∧
    (is_Some (tk_l2_store_result task) → is_Some (tk_l2_store_result task')).

#[export] Instance keeps_results_pre : PreOrder keeps_results.
Proof.
  split; [intros s key task' Ht; by exists task'|]. intros s1 s2 s3 H1 H2 key task' Ht.
  destruct (H2 key task' Ht) as (t2 & Ht2 & H2r). destruct (H1 key t2 Ht2) as (t1 & Ht1 & H1r). exists t1. auto.
Qed.

(** every task the calls [l] reported has its outcome, or is gone *)
Definition reported l s : Prop := ∀ a cs t r task, SPopCompleted a cs ∈ l → dget cs t = Some r →
  dget (ss_in_flight_tasks s) (a, t) = Some task → is_Some (tk_l2_store_result task).

Lemma reported_keeps l s s' : keeps_results s s' → reported l s → reported l s'.
Proof.
  intros Hk Hr a cs t r task Hin Hcs Ht. destruct (Hk _ _ Ht) as (task0 & Ht0 & Himp). apply Himp. by eapply Hr.
Qed.

Lemma deposit_ok a cs t r s : inv s → SPopCompleted a cs ∈ ss_log s → dget cs t = Some r →
  inv (deposit a (t, r) s) ∧ moved any s (deposit a (t, r) s) ∧ ss_log (deposit a (t, r) s) = ss_log s ∧
  keeps_results s (deposit a (t, r) s) ∧
  (∀ task, dget (ss_in_flight_tasks (deposit a (t, r) s)) (a, t) = Some task → is_Some (tk_l2_store_result task)).
Proof.
  intros Hi Hpop Hr. unfold deposit. cbn [fst snd].
  destruct (dget (ss_in_flight_tasks s) (a, t)) as [task|] eqn:Et; [|split_and!; try done; rewrite Et; done].
  set (task' := mkStoreTask _ _ _ _ _).
  assert (∀ key task1, dget (dset (ss_in_flight_tasks s) (a, t) task') key = Some task1 →
    (key = (a, t) ∧ task1 = task') ∨ dget (ss_in_flight_tasks s) key = Some task1) as Hget.
  { intros key task1. rewrite dget_dset. case_decide as Hk; [intros [= <-]; by left|by right]. }
  split_and!.
  - destruct (si_tasks _ _ Hi _ _ Et). constructor; try apply Hi; cbn [ss_set_tasks ss_in_flight_tasks].
    + apply dset_wf, Hi.
    + intros key task1 [[-> ->]|Ht]%Hget; [|by destruct (si_tasks _ _ Hi key task1 Ht)]. constructor; try done.
      intros b [= <-]. by exists cs, r.
    + rewrite (si_count _ _ Hi). f_equal. rewrite <- (length_fmap fst), <- (length_fmap fst (dset _ _ _)).
      fold (dkeys (ss_in_flight_tasks s)) (dkeys (dset (ss_in_flight_tasks s) (a, t) task')).
      rewrite dkeys_dset. by rewrite decide_True by (apply elem_of_dkeys; by exists task).
    + intros k. unfold held. rewrite (ledger_dset _ _ _ _ _ Et). cbn [ss_log snd task' tk_read_locked_keys].
      rewrite (si_locks _ _ Hi). unfold held. by rewrite Z.sub_add.
  - apply set_tasks_moved. reflexivity.
  - done.
  - intros key task1 [[-> ->]|Ht]%Hget; [exists task; split; [done|by eexists]|by exists task1].
  - intros task1. cbn. rewrite dget_dset_eq. intros [= <-]. by eexists.
Qed.

Lemma drain_adapter_ok a s : inv s → is_Some (dget (ss_l2_adapters s) a) →
  runs (drain_adapter a) s (λ _ s', inv s' ∧ moved any s s' ∧ keeps_results s s' ∧
    ∃ cs, ss_log s' = ss_log s ++ [SPopCompleted a cs] ∧ reported [SPopCompleted a cs] s').
Proof.
  intros Hi [ad Ha]. apply runs_bind, runs_gets, runs_bind. eapply runs_getitem; [exact Ha|]. apply runs_bind, runs_gets.
  pose proof (pop_completed_spec (ss_world s) ad (si_world _ _ Hi)) as Hpop.
  destruct (pop_completed_store_tasks (ss_world s) ad) as [cs w]. destruct Hpop as [Hw Hwf].
  apply runs_bind, runs_modify. set (s1 := ss_call _ _ s).
  assert (inv s1) as Hi1 by (eapply store_inv_ext; [|by apply call_inv]; done).
  assert (moved any s s1) as Hm1 by (by apply call_moved).
  eapply runs_mono; [apply (runs_for_each _ (λ rest s', inv s' ∧ moved any s1 s' ∧ ss_log s' = ss_log s1 ∧ keeps_results s1 s' ∧
    rest ⊆ cs ∧ ∀ t r, (t, r) ∈ cs → (t, r) ∈ rest ∨
      ∀ task, dget (ss_in_flight_tasks s') (a, t) = Some task → is_Some (tk_l2_store_result task)))|].
  - split_and!; try done. by left.
  - intros [t r] rest s2 (Hi2 & Hm2 & Hl2 & Hk2 & Hsub & Hdone).
    assert (dget cs t = Some r) as Hr by (apply dget_wf_elem_of; [done|]; apply Hsub; left).
    apply runs_modify. destruct (deposit_ok a cs t r s2 Hi2) as (Hi3 & Hm3 & Hl3 & Hk3 & Hres); [|done|].
    { rewrite Hl2. cbn. set_solver. }
    split_and!; [done|by etrans|congruence|by etrans|set_solver|]. intros t' r' Hin.
    destruct (Hdone t' r' Hin) as [[[= -> ->]|?]%elem_of_cons|Hd]; [right; by apply Hres|by left|right].
    intros task' Ht'. destruct (Hk3 _ _ Ht') as (task & Ht & Himp). apply Himp. by apply Hd.
  - intros [] s2 (Hi2 & Hm2 & Hl2 & Hk2 & _ & Hdone). split_and!; [done|by etrans|done|].
    exists cs. split; [done|]. intros a' cs' t r task [= -> ->]%list_elem_of_singleton Hr Ht.
    apply dget_elem_of in Hr. destruct (Hdone t r Hr) as [Hin|Hd]; [by apply not_elem_of_nil in Hin|by apply Hd].
Qed.

(** ** Finishing tasks *)

Context (policy_ : StorePolicy).

Lemma finish_read_ok off keys s : store_inv off s →
  runs (store_finish_read keys) s (λ _ s', store_inv (λ k, off k - occ k keys) s' ∧ moved not_pop s s' ∧
    ss_in_flight_tasks s' = ss_in_flight_tasks s).
Proof.
  intros Hi. apply runs_bind, runs_gets, runs_bind.
  destruct (l1_finish_read_spec (ss_world s) keys 1 (si_world _ _ Hi)) as (w & -> & Hw).
  apply runs_lift, runs_modify. split_and!; [|by apply call_moved|done].
  eapply store_inv_ext; [|by apply call_inv]. intros k. cbn. lia.
Qed.

Lemma delete_ok off keys s : store_inv off s → stored (ss_log s) keys →
  runs (store_delete keys) s (λ _ s', store_inv off s' ∧ moved not_pop s s' ∧ ss_in_flight_tasks s' = ss_in_flight_tasks s).
Proof.
  intros Hi Hst. apply runs_bind, runs_gets, runs_bind.
  destruct (l1_delete_spec (ss_world s) keys (si_world _ _ Hi)) as (w & -> & Hw).
  apply runs_lift, runs_modify. split_and!; [|by apply call_moved|done].
  eapply store_inv_ext; [|apply call_inv; [done|done|by intros ? [= <-]]]. intros k. cbn. lia.
Qed.

Lemma drop_task_inv key task s : store_inv (λ k, 0 - occ k (tk_read_locked_keys task)) s →
  dget (ss_in_flight_tasks s) key = Some task →
  inv (ss_set_tasks (ddel (ss_in_flight_tasks s) key) (ss_status_in_flight_count s - 1) s).
Proof.
  intros Hi Ht. constructor; try apply Hi; cbn [ss_set_tasks ss_in_flight_tasks ss_status_in_flight_count ss_log].
  - apply ddel_wf, Hi.
  - intros key' task'. rewrite dget_ddel. case_decide; [done|]. intros Ht'. by destruct (si_tasks _ _ Hi key' task' Ht').
  - rewrite (si_count _ _ Hi). pose proof (ledger_ddel (λ _, 1) _ _ _ (si_wf _ _ Hi) Ht) as E.
    assert (∀ d : list ((Z * TaskId) * Task), ledger (λ _, 1) d = Z.of_nat (length d)) as Hl.
    { intros d. unfold ledger. induction d; cbn [foldr length]; lia. }
    rewrite !Hl in E. lia.
  - intros k. rewrite (si_locks _ _ Hi). unfold held. rewrite (ledger_ddel _ _ _ _ (si_wf _ _ Hi) Ht). cbn [snd].
    rewrite Z.add_0_r, Z.sub_0_l. by rewrite Z.add_opp_r.
Qed.

Lemma finalize_store_ok key task s : inv s → dget (ss_in_flight_tasks s) key = Some task →
  is_Some (tk_l2_store_result task) →
  runs (_finalize_store cache_salt policy_ key task) s (λ _ s', inv s' ∧ moved not_pop s s' ∧
    ss_in_flight_tasks s' = ddel (ss_in_flight_tasks s) key).
Proof.
  intros Hi Ht [b Hb]. destruct key as [a t]. cbn [_finalize_store].
  apply runs_bind. eapply runs_mono; [by apply finish_read_ok|]. intros [] s1 (Hi1 & Hm1 & Ht1).
  assert (dget (ss_in_flight_tasks s1) (a, t) = Some task) as Htask by (by rewrite Ht1).
  apply runs_bind, runs_gets, runs_bind. eapply runs_getitem; [exact Htask|]. apply runs_bind, runs_modify.
  pose proof (drop_task_inv _ _ _ Hi1 Htask) as Hi2. set (s2 := ss_set_tasks _ _ s1) in *.
  assert (moved not_pop s s2) as Hm2 by (by apply set_tasks_moved).
  destruct (si_tasks _ _ Hi1 _ _ Htask) as [(ad & Ha & _) _ _ (objs & Hsub) Hrep]. cbn [fst snd] in *.
  destruct (ao_desc _ _ _ _ (si_adapters _ _ Hi2) a) as [desc Hdesc]; [by exists ad|].
  apply runs_bind, runs_gets, runs_bind. eapply runs_getitem; [exact Hdesc|].
  assert (ss_in_flight_tasks s2 = ddel (ss_in_flight_tasks s) (a, t)) as Hts2 by (cbn; by rewrite Ht1).
  assert (Hpub : ∀ e, runs (store_publish e) s2 (λ _ s3, inv s3 ∧ moved not_pop s s3 ∧
    ss_in_flight_tasks s3 = ddel (ss_in_flight_tasks s) (a, t) ∧ ss_log s1 ⊆ ss_log s3)).
  { intros e. eapply runs_mono; [by apply store_publish_ok|]. intros [] s3 (Hi3 & Hm3 & Ht3). split_and!; [done| |congruence|].
    - by etrans.
    - destruct (mv_log _ _ _ Hm3) as (ext & -> & _). cbn. set_solver. }
  rewrite Hb. case_bool_decide as Hcase.
  - injection Hcase as ->. apply runs_bind. eapply runs_mono; [apply Hpub|]. intros [] s3 (Hi3 & Hm3 & Ht3 & Hl3).
    apply runs_when; [intros _|done]. eapply runs_mono; [apply delete_ok; [done|]|].
    + destruct (Hrep true Hb) as (cs & r & Hpop & Hr & Hok). eapply stored_mono; [exact Hl3|].
      exists a, t, (tk_keys task), objs, cs, r. split_and!; try done. destruct policy_; cbn; set_solver.
    + intros [] s4 (Hi4 & Hm4 & Ht4). split_and!; [done|by etrans|congruence].
  - eapply runs_mono; [apply Hpub|]. naive_solver.
Qed.

(** every task with an outcome leaves *)
Lemma advance_all_ok s : inv s →
  runs (tasks ← gets ss_in_flight_tasks; for_each (λ kt, try_ (_advance_request cache_salt policy_ (fst kt) (snd kt))) tasks) s
    (λ _ s', inv s' ∧ moved not_pop s s' ∧ keeps_results s s' ∧
      ∀ key task, dget (ss_in_flight_tasks s') key = Some task → tk_l2_store_result task = None).
Proof.
  intros Hi. apply runs_bind, runs_gets.
  eapply runs_mono; [apply (runs_for_each _ (λ rest s', inv s' ∧ moved not_pop s s' ∧ keeps_results s s' ∧ dwf rest ∧
    (∀ key task, (key, task) ∈ rest → dget (ss_in_flight_tasks s') key = Some task) ∧
    (∀ key task, dget (ss_in_flight_tasks s') key = Some task → tk_l2_store_result task = None ∨ (key, task) ∈ rest)))|].
  - split_and!; [done..|apply Hi| |].
    + intros key task Hin. by apply dget_wf_elem_of; [apply Hi|].
    + intros key task Ht. right. by apply dget_elem_of.
  - intros [key task] rest s1 (Hi1 & Hm1 & Hk1 & [Hn Hwf]%NoDup_cons & Hin & Hall). cbn [fst snd].
    assert (dget (ss_in_flight_tasks s1) key = Some task) as Ht by (apply Hin; left). apply runs_try.
    unfold _advance_request. destruct (tk_l2_store_result task) eqn:Eres.
    + eapply runs_mono; [apply finalize_store_ok; [done..|by rewrite Eres]|]. intros [] s2 (Hi2 & Hm2 & Ht2).
      split_and!; [done|by etrans| |done| |].
      * intros key' task' Ht'. rewrite Ht2, dget_ddel in Ht'. case_decide; [done|]. by apply Hk1.
      * intros key' task' Hin'. rewrite Ht2, dget_ddel_ne; [apply Hin; by right|]. intros ->. apply Hn, list_elem_of_fmap.
        by exists (key', task').
      * intros key' task'. rewrite Ht2, dget_ddel. case_decide; [done|]. intros Ht'.
        destruct (Hall key' task' Ht') as [?|[[= -> ->]|?]%elem_of_cons]; [by left|done|by right].
    + apply runs_ret. split_and!; [done..| |].
      * intros key' task' Hin'. apply Hin. by right.
      * intros key' task' Ht'. destruct (Hall key' task' Ht') as [?|[[= -> ->]|?]%elem_of_cons]; auto.
  - intros [] s1 (Hi1 & Hm1 & Hk1 & _ & _ & Hall). split_and!; [done..|]. intros key task Ht.
    destruct (Hall key task Ht) as [?|Hin]; [done|by apply not_elem_of_nil in Hin].
Qed.

(** ** Collecting the outcomes of several adapters *)

Context (iter_set : list Z → list Z) (iter_set_perm : ∀ x, iter_set x ≡ₚ x).

Lemma drain_ok signaled s : inv s → (∀ a, a ∈ signaled → is_Some (dget (ss_l2_adapters s) a)) →
  runs (_drain_l2_store_completions iter_set signaled) s (λ _ s', inv s' ∧ moved any s s' ∧
    ∃ ext, ss_log s' = ss_log s ++ ext ∧ reported ext s' ∧ ∀ a, a ∈ signaled → ∃ cs, SPopCompleted a cs ∈ ext).
Proof.
  intros Hi Hsig. eapply runs_mono; [apply (runs_for_each _ (λ rest s', inv s' ∧ moved any s s' ∧ rest ⊆ signaled ∧
    ∃ ext, ss_log s' = ss_log s ++ ext ∧ reported ext s' ∧ ∀ a, a ∈ signaled → a ∈ rest ∨ ∃ cs, SPopCompleted a cs ∈ ext))|].
  - split_and!; [done..|intros a; by rewrite (iter_set_perm signaled)|]. exists []. rewrite app_nil_r. split_and!; [done| |].
    + intros a cs t r task Hin. by apply not_elem_of_nil in Hin.
    + intros a Ha. left. by rewrite (iter_set_perm signaled).
  - intros a rest s1 (Hi1 & Hm1 & Hsub & ext1 & Hl1 & Hr1 & Hp1). eapply runs_mono; [apply drain_adapter_ok; [done|]|].
    { rewrite (mv_adapters _ _ _ Hm1). apply Hsig, Hsub. left. }
    intros [] s2 (Hi2 & Hm2 & Hk2 & cs2 & Hl2 & Hr2). split_and!; [done|by etrans|set_solver|].
    exists (ext1 ++ [SPopCompleted a cs2]). rewrite Hl2, Hl1, app_assoc. split_and!; [done| |].
    + intros a' cs t r task [Hin|Hin]%elem_of_app Hr Ht; [by eapply (reported_keeps ext1 s1)|by eapply Hr2].
    + intros a' Ha'. destruct (Hp1 a' Ha') as [[->|?]%elem_of_cons|(cs & ?)]; [right|by left|right].
      * exists cs2. set_solver.
      * exists cs. set_solver.
  - intros [] s1 (Hi1 & Hm1 & _ & ext & Hl & Hr & Hp). split_and!; [done..|]. exists ext. split_and!; [done..|].
    intros a Ha. destruct (Hp a Ha) as [Hx|?]; [by apply not_elem_of_nil in Hx|done].
Qed.
End proofs.
