(* ===== verification/StoreRuns.v ===== *)
(** * The store controller: every run

    The loop as a whole, the step relation with the threads around it, and the
    theorems about every reachable state. *)

From S2P Require Import Prelude PyDict PyState TTLLock L1Manager Bitmap Fold PrefetchPlan KeyLedger.
From S2P Require Import PrefetchController PrefetchControllerProofs AdapterRoster StoreController StoreControllerProofs.
Local Open Scope Z_scope.

Section runs.
Context {W Ad K Obj Layout TaskId config : Type} `{EqDecision K, EqDecision TaskId}.
Context {L1 : L1Client W K Obj Layout} {L2 : L2StoreAdapters W Ad K Obj TaskId}.
Context {WM : WorldModel W} {S1 : L1ClientSpec W K Obj Layout} {S2 : L2StoreSpec W Ad K Obj TaskId}.
Context (model_name : K → string) (kv_rank : K → Z) (cache_salt : K → string).
Context (iter_set : list Z → list Z) (policy_ : StorePolicy) (listener_fd : Z).
Context (iter_set_perm : ∀ l, iter_set l ≡ₚ l).

Abbreviation State := (StoreController W Ad K Obj TaskId config).
Abbreviation Call := (store_call K Obj TaskId config).
Abbreviation store_fd := (get_store_event_fd (L2StoreAdapters := L2)).
Abbreviation inv := (store_inv listener_fd (λ _, 0)).
Abbreviation iteration := (store_iteration model_name kv_rank cache_salt iter_set policy_ listener_fd).
Implicit Types (s : State) (a : Z) (A : list (Z * Ad)) (D : list (Z * AdapterDescriptor config)) (R E : list (Z * Z)).

(** ** The tables *)

Lemma store_tables_add A D R E a ad desc : tables_ok listener_fd A D R E →
  dget A a = None → ad_index desc = a → store_fd ad ≠ listener_fd →
  (∀ a' ad', dget A a' = Some ad' → store_fd ad ≠ store_fd ad') →
  tables_ok listener_fd (dset A a ad) (dset D a desc) R (dset E (store_fd ad) a).
Proof.
  intros [(Hw1 & Hw2 & Hw3) Hd Hix Hdr Hfd Hfi] Ha Hi Hl Hf. constructor.
  - auto using dset_wf.
  - intros a'. rewrite !dget_dset. case_decide; [by eexists|apply Hd].
  - intros a' d'. rewrite !dget_dset. case_decide; [intros [= <-]; split; [congruence|by eexists]|apply Hix].
  - intros a' Hr. rewrite dget_dset. case_decide; [by eexists|by apply Hdr].
  - intros a' ad'. rewrite !dget_dset. case_decide as Hc; [intros [= <-]; rewrite decide_True by done; by subst|].
    intros Ha'. rewrite decide_False by (by eapply Hf). by apply Hfd.
  - intros fd a'. rewrite !dget_dset. case_decide as Hc; [intros [= <-]; exists ad; by rewrite decide_True|].
    intros He. destruct (Hfi fd a' He) as (ad' & Ha' & ?). exists ad'. rewrite decide_False; [done|]. congruence.
Qed.

Lemma store_tables_drain A D R E a d : tables_ok listener_fd A D R E → is_Some (dget A a) →
  tables_ok listener_fd A D (dset R a d) E.
Proof.
  intros [(Hw1 & Hw2 & Hw3) Hd Hix Hdr Hfd Hfi] Ha. constructor; try done; [by auto using dset_wf|].
  intros a'. rewrite dget_dset. case_decide; [by subst|apply Hdr].
Qed.

Lemma store_tables_detach A D R E a ad : tables_ok listener_fd A D R E → dget A a = Some ad →
  tables_ok listener_fd (ddel A a) (ddel D a) (ddel R a) (ddel E (store_fd ad)).
Proof.
  intros [(Hw1 & Hw2 & Hw3) Hd Hix Hdr Hfd Hfi] Ha. constructor.
  - auto using ddel_wf.
  - intros a'. rewrite !dget_ddel. case_decide; [done|apply Hd].
  - intros a' d'. rewrite !dget_ddel. case_decide; [done|apply Hix].
  - intros a'. rewrite !dget_ddel. case_decide; [by intros [? ?]|apply Hdr].
  - intros a' ad'. rewrite !dget_ddel. case_decide; [done|]. intros Ha'. destruct (Hfd a ad Ha), (Hfd a' ad' Ha').
    rewrite decide_False; [done|]. congruence.
  - intros fd a'. rewrite !dget_ddel. case_decide; [done|]. intros He. destruct (Hfi fd a' He) as (ad' & Ha' & ?).
    exists ad'. rewrite decide_False; [done|]. congruence.
Qed.

(** the adapters of the controller as a roster *)
Definition store_roster_at s (ops : list (adapter_op Ad config)) : roster Ad config :=
  mkRoster (ss_l2_adapters s) (ss_draining s) (ss_done s) ops.
Definition store_roster s : roster Ad config := store_roster_at s (ss_pending_adapter_ops s).

Lemma apply_op_turn op ops s : roster_turn (store_roster_at s (op :: ops)) (store_roster_at (apply_op op s) ops).
Proof.
  replace (store_roster_at (apply_op op s) ops) with (obey op ops (store_roster_at s (op :: ops))); [by apply turn_obey|].
  destruct op as [a ad desc d|a d]; cbn; [done|]. by destruct (dmem _ a).
Qed.

(** only the tables change *)
Record retabled s s' : Prop := {
  rt_world : ss_world s' = ss_world s;
  rt_log : ss_log s' = ss_log s;
  rt_tasks : ss_in_flight_tasks s' = ss_in_flight_tasks s;
  rt_count : ss_status_in_flight_count s' = ss_status_in_flight_count s;
  rt_pending : ss_pending_keys s' = ss_pending_keys s;
  rt_ops : ss_pending_adapter_ops s' = ss_pending_adapter_ops s }.

#[local] Instance retabled_pre : PreOrder retabled.
Proof. split; [by constructor|]. intros s1 s2 s3 [] []. constructor; congruence. Qed.

Lemma retabled_inv s s' : retabled s s' → inv s → adapters_ok listener_fd s' →
  store_ops_ok listener_fd (ss_l2_adapters s') (ss_pending_adapter_ops s') →
  (∀ key task, dget (ss_in_flight_tasks s) key = Some task → dget (ss_l2_adapters s') key.1 = dget (ss_l2_adapters s) key.1) →
  inv s'.
Proof.
  intros [Ew El Et Ec Ep Eo] Hi Ha Hops Hsub. constructor; rewrite ?Ew, ?El, ?Et, ?Ec; try done; try apply Hi.
  intros key task Ht. destruct (si_tasks _ _ _ Hi key task Ht) as [(ad & Had & Hiss) ? ? ? ?].
  constructor; rewrite ?Ew, ?El; try done. exists ad. by rewrite (Hsub key task Ht).
Qed.

Lemma store_ops_ok_sub (ops : list (adapter_op Ad config)) : ∀ A A', (∀ a ad, dget A a = Some ad → dget A' a = Some ad) →
  store_ops_ok listener_fd A' ops → store_ops_ok listener_fd A ops.
Proof.
  induction ops as [|[a ad desc d|a d] ops IH]; intros A A' Hs; cbn; [done| |by apply IH].
  intros (Hn & Hi & Hl & Hf & Hr). split_and!; [|done|done|by eauto|].
  - destruct (dget A a) eqn:E; [|done]. apply Hs in E. congruence.
  - eapply IH; [|done]. intros a' ad'. rewrite !dget_dset. case_decide; [done|apply Hs].
Qed.

Lemma store_ops_ok_snoc (ops : list (adapter_op Ad config)) op : ∀ A, store_ops_ok listener_fd A ops →
  store_ops_ok listener_fd (future A ops) [op] → store_ops_ok listener_fd A (ops ++ [op]).
Proof.
  induction ops as [|[a ad desc d|a d] ops IH]; intros A; cbn [app future]; [done| |apply IH].
  intros (? & ? & ? & ? & ?) Hop. split_and!; [done..|]. by apply IH.
Qed.

(** ** Adapters come and go *)

Lemma apply_op_ok op ops s : inv s → ss_pending_adapter_ops s = [] → store_ops_ok listener_fd (ss_l2_adapters s) (op :: ops) →
  inv (apply_op op s) ∧ retabled s (apply_op op s) ∧ store_ops_ok listener_fd (ss_l2_adapters (apply_op op s)) ops.
Proof.
  intros Hi Hno Hops. destruct op as [a ad desc d|a d]; cbn [apply_op].
  - destruct Hops as (Hn & Hix & Hl & Hf & Hr). split_and!; [|done|done].
    eapply (retabled_inv s); [done|done| |cbn [ss_set_adapters ss_pending_adapter_ops]; by rewrite Hno|].
    + apply store_tables_add; try done. apply Hi.
    + intros key task Ht. destruct (si_tasks _ _ _ Hi key task Ht) as [(ad' & Ha & _) _ _ _ _]. cbn.
      rewrite dget_dset_ne; [done|]. congruence.
  - destruct (dmem (ss_l2_adapters s) a) eqn:Em; (split_and!; [|done|done]).
    + eapply (retabled_inv s); [done|done| |cbn [ss_set_adapters ss_pending_adapter_ops]; by rewrite Hno|done]. apply store_tables_drain; [apply Hi|].
      unfold dmem in Em. destruct (dget _ a) eqn:Ea; [by eexists|done].
    + eapply (retabled_inv s); [done|done|apply Hi|cbn [ss_set_adapters ss_pending_adapter_ops]; by rewrite Hno|done].
Qed.

Lemma apply_ops_ok s : inv s → runs _apply_pending_adapter_ops s (λ _ s', inv s' ∧
  ss_pending_adapter_ops s' = [] ∧ retabled (ss_set_ops [] s) s' ∧ rtc roster_turn (store_roster s) (store_roster s')).
Proof.
  intros Hi. apply runs_bind, runs_gets, runs_bind, runs_modify. set (s0 := ss_set_ops [] s).
  assert (inv s0) as Hi0.
  { constructor; try apply Hi; [done|]. intros key task Ht. by destruct (si_tasks _ _ _ Hi key task Ht). }
  eapply runs_mono; [apply (runs_for_each _ (λ rest s', inv s' ∧ retabled s0 s' ∧ ss_pending_adapter_ops s' = [] ∧
    store_ops_ok listener_fd (ss_l2_adapters s') rest ∧ rtc roster_turn (store_roster s) (store_roster_at s' rest)))|].
  - split_and!; try done. apply Hi.
  - intros op rest s1 (Hi1 & Hr1 & Hno & Hops & Hro). apply runs_modify.
    destruct (apply_op_ok op rest s1 Hi1 Hno Hops) as (Hi2 & Hr2 & Hops2). split_and!; [done|by etrans| |done|].
    + by rewrite (rt_ops _ _ Hr2).
    + by eapply rtc_r; [exact Hro|apply apply_op_turn].
  - intros [] s1 (? & ? & Hno & _ & Hro). split_and!; try done. unfold store_roster. by rewrite Hno.
Qed.

Lemma in_use_spec s a : _adapter_in_use s a = true ↔ ∃ t, is_Some (dget (ss_in_flight_tasks s) (a, t)).
Proof.
  unfold _adapter_in_use. rewrite existsb_exists. split.
  - intros ([[a' t] task] & Hin & Ea). cbn in Ea. apply Z.eqb_eq in Ea as ->. exists t.
    apply elem_of_dkeys, list_elem_of_fmap. exists ((a, t), task). split; [done|by apply list_elem_of_In].
  - intros (t & task & Ht). exists ((a, t), task). split; [by apply list_elem_of_In, dget_elem_of|]. apply Z.eqb_refl.
Qed.

Lemma finalize_one_ok a s : inv s → is_Some (dget (ss_draining s) a) →
  runs (finalize_drained a) s (λ _ s', inv s' ∧ retabled s s' ∧ rtc roster_turn (store_roster s) (store_roster s') ∧
    ((s' = s ∧ _adapter_in_use s a = true) ∨
     (∃ d, dget (ss_draining s) a = Some d ∧ ss_draining s' = ddel (ss_draining s) a ∧ ss_done s' = ss_done s ++ [d]))).
Proof.
  intros Hi [d Hd]. destruct (ao_draining _ _ _ _ _ (si_adapters _ _ _ Hi) a) as [ad Ha]; [by exists d|].
  apply runs_bind, runs_gets. destruct (_adapter_in_use s a) eqn:Eu; [apply runs_ret; split_and!; [done..|by left]|].
  apply runs_bind, runs_gets, runs_bind. eapply runs_getitem; [exact Ha|]. apply runs_bind, runs_gets, runs_bind.
  eapply runs_getitem; [exact Hd|]. apply runs_modify.
  split_and!; [|done|apply rtc_once; exact (turn_expel a d (store_roster s) Hd)|right; by exists d].
  eapply (retabled_inv s); [done|done|apply store_tables_detach; [apply Hi|done]| |].
  - eapply store_ops_ok_sub; [|apply Hi]. intros a' ad'. cbn. rewrite dget_ddel. by case_decide.
  - intros key task Ht. cbn [ss_set_adapters ss_l2_adapters]. rewrite dget_ddel_ne; [done|]. intros ->. apply not_true_iff_false in Eu. apply Eu, in_use_spec.
    exists key.2. destruct key. by exists task.
Qed.

Lemma finalize_drained_ok s : inv s → runs _finalize_drained_adapters s (λ _ s', inv s' ∧ retabled s s' ∧
  rtc roster_turn (store_roster s) (store_roster s') ∧
  (∀ a, is_Some (dget (ss_draining s') a) → _adapter_in_use s' a = true) ∧
  (∀ a d, dget (ss_draining s) a = Some d → dget (ss_draining s') a = Some d ∨ d ∈ ss_done s')).
Proof.
  intros Hi. apply runs_bind, runs_gets. destruct (ao_wf _ _ _ _ _ (si_adapters _ _ _ Hi)) as (_ & _ & Hwf).
  eapply runs_mono; [apply (runs_for_each _ (λ rest s', inv s' ∧ retabled s s' ∧ rtc roster_turn (store_roster s) (store_roster s') ∧ NoDup rest ∧
    (∀ a, a ∈ rest → is_Some (dget (ss_draining s') a)) ∧
    (∀ a, is_Some (dget (ss_draining s') a) → a ∈ rest ∨ _adapter_in_use s' a = true) ∧
    (∀ a d, dget (ss_draining s) a = Some d → dget (ss_draining s') a = Some d ∨ d ∈ ss_done s')))|].
  - split_and!; try done; [intros a; by rewrite elem_of_dkeys|intros a Ha; left; by apply elem_of_dkeys|by left].
  - intros a rest s1 (Hi1 & Hr1 & Hro1 & [Hn Hnd]%NoDup_cons & Hin & Hall & Hdone).
    eapply runs_mono; [apply finalize_one_ok; [done|apply Hin; left]|]. intros [] s2 (Hi2 & Hr2 & Hro2 & [[-> Hu]|(d & Hd & Hdr & Hdn)]).
    + split_and!; try done.
      * intros a' Ha'. apply Hin. by right.
      * intros a' Ha'. destruct (Hall a' Ha') as [[->|?]%elem_of_cons|?]; auto.
    + split_and!; [done|by etrans|by etrans|done| | |].
      * intros a' Ha'. rewrite Hdr, dget_ddel_ne by (by intros ->). apply Hin. by right.
      * intros a' Ha'. rewrite Hdr, dget_ddel in Ha'. case_decide; [by destruct Ha'|].
        unfold _adapter_in_use. rewrite (rt_tasks _ _ Hr2). destruct (Hall a' Ha') as [[->|?]%elem_of_cons|?]; auto; done.
      * intros a' d' Hd'. rewrite Hdr, Hdn. destruct (Hdone a' d' Hd') as [Hx|?]; [|set_solver].
        rewrite dget_ddel. case_decide as Hc; [|by left]. subst. right. rewrite Hd in Hx. injection Hx as ->. set_solver.
  - intros [] s1 (Hi1 & Hr1 & Hro1 & _ & _ & Hall & Hdone). split_and!; try done. intros a Ha.
    destruct (Hall a Ha) as [Hx|?]; [by apply not_elem_of_nil in Hx|done].
Qed.

(** ** The ready descriptors *)

Lemma set_pending_inv keys s : inv s → inv (ss_set_pending keys s).
Proof.
  intros Hi. constructor; try apply Hi. intros key task Ht. by destruct (si_tasks _ _ _ Hi key task Ht).
Qed.

Lemma set_pending_moved P keys s s' : moved P s s' → moved P (ss_set_pending keys s) (ss_set_pending keys s').
Proof. intros []. by constructor. Qed.

Lemma set_pending_id s : ss_set_pending (ss_pending_keys s) s = s.
Proof. by destruct s. Qed.

Lemma moved_roster P s s' : moved P s s' → store_roster s' = store_roster s.
Proof. intros [_ _ E1 _ E2 _ E3 E4 _]. unfold store_roster, store_roster_at. by rewrite E1, E2, E3, E4. Qed.

(** what the loop over the descriptors leaves: pending keys may have been taken *)
Record polled (ready : list Z) s s' (signaled : list Z) : Prop := {
  po_inv : inv s';
  po_moved : moved not_pop (ss_set_pending (ss_pending_keys s') s) s';
  po_signaled : ∀ a, a ∈ signaled → is_Some (dget (ss_l2_adapters s) a);
  po_ready : ∀ a ad, dget (ss_l2_adapters s) a = Some ad → store_fd ad ∈ ready → a ∈ signaled;
  po_pending : listener_fd ∈ ready → ss_pending_keys s' = [];
  po_kept : listener_fd ∉ ready → ss_pending_keys s' = ss_pending_keys s;
  po_offered : listener_fd ∈ ready → ∃ ext, ss_log s' = ss_log s ++ ext ∧
    ∀ a k, routable s a → k ∈ ss_pending_keys s → offered a k ext }.

Lemma take_pending_ok s : inv s →
  runs (try_ (keys ← pop_pending_keys; when (nonempty keys) (_process_new_keys model_name kv_rank cache_salt keys))) s
    (λ _ s', inv s' ∧ moved not_pop (ss_set_pending [] s) s' ∧
      ∃ ext, ss_log s' = ss_log s ++ ext ∧ ∀ a k, routable s a → k ∈ ss_pending_keys s → offered a k ext).
Proof.
  intros Hi. apply runs_try, runs_bind. unfold pop_pending_keys. apply runs_bind, runs_gets, runs_bind, runs_modify, runs_ret.
  apply runs_when.
  - intros _. eapply runs_mono; [apply process_new_keys_ok, set_pending_inv, Hi|]. intros [] s' (Hi' & Hm & Hx). done.
  - intros ->%nonempty_false. split_and!; [by apply set_pending_inv|done|]. exists []. rewrite app_nil_r. split; [done|].
    intros a k _ Hk. by apply not_elem_of_nil in Hk.
Qed.

Lemma routable_moved P s s' a keys : moved P (ss_set_pending keys s) s' → routable s a → routable s' a.
Proof. intros Hm [H1 H2]. split; [by rewrite (mv_adapters _ _ _ Hm)|by rewrite (mv_draining _ _ _ Hm)]. Qed.

Lemma ready_loop_ok ready : ∀ signaled s, inv s → (∀ a, a ∈ signaled → is_Some (dget (ss_l2_adapters s) a)) →
  runs (ready_loop model_name kv_rank cache_salt listener_fd ready signaled) s (λ signaled' s',
    polled ready s s' signaled' ∧ signaled ⊆ signaled').
Proof.
  induction ready as [|fd ready IH]; intros signaled s Hi Hsig; cbn [ready_loop].
  { apply runs_ret. split; [|done].
    constructor; try done; [by rewrite set_pending_id|intros a ad _ Hin; by apply not_elem_of_nil in Hin|..];
      intros Hin; by apply not_elem_of_nil in Hin. }
  destruct (Z.eqb_spec fd listener_fd) as [->|Hne].
  - apply runs_bind. eapply runs_mono; [by apply take_pending_ok|]. intros [] s1 (Hi1 & Hm1 & ext1 & Hl1 & Ho1).
    eapply runs_mono; [apply (IH signaled s1 Hi1); by rewrite (mv_adapters _ _ _ Hm1)|].
    intros sg s2 [[Hi2 Hm2 Hs2 Hr2 Hp2 Hk2 Ho2] Hsub]. split; [|done].
    assert (ss_pending_keys s1 = []) as Hp1 by apply (mv_pending _ _ _ Hm1).
    assert (ss_pending_keys s2 = []) as Hp.
    { destruct (decide (listener_fd ∈ ready)) as [Hin|Hin]; [auto|]. rewrite Hk2 by done. done. }
    constructor; try done.
    + rewrite Hp in Hm2 |- *. etrans; [apply (set_pending_moved not_pop [] _ _ Hm1)|]. exact Hm2.
    + intros a Ha. specialize (Hs2 a Ha). by rewrite (mv_adapters _ _ _ Hm1) in Hs2.
    + intros a ad Ha [Hin|Hin]%elem_of_cons.
      * destruct (ao_efd _ _ _ _ _ (si_adapters _ _ _ Hi) a ad Ha). done.
      * apply (Hr2 a ad); [|done]. by rewrite (mv_adapters _ _ _ Hm1).
    + intros Hin. destruct Hin. left.
    + intros _. destruct (mv_log _ _ _ Hm2) as (ext2 & Hl2 & _). exists (ext1 ++ ext2). cbn in Hl2.
      rewrite Hl2, Hl1, app_assoc. split; [done|]. intros a k Ha Hk. eapply offered_mono; [|by apply Ho1]. set_solver.
  - apply runs_bind, runs_gets. set (sig1 := match _ with Some _ => _ | None => _ end).
    assert (signaled ⊆ sig1 ∧ (∀ a, a ∈ sig1 → is_Some (dget (ss_l2_adapters s) a)) ∧
      ∀ a ad, dget (ss_l2_adapters s) a = Some ad → store_fd ad = fd → a ∈ sig1) as (Hsub1 & Hsig1 & Hfd1).
    { unfold sig1. destruct (dget (ss_efd_to_adapter_index s) fd) as [a0|] eqn:Ef.
      - destruct (ao_efd_inv _ _ _ _ _ (si_adapters _ _ _ Hi) fd a0 Ef) as (ad0 & Ha0 & _).
        assert (∀ a ad, dget (ss_l2_adapters s) a = Some ad → store_fd ad = fd → a = a0) as Heq.
        { intros a ad Ha <-. destruct (ao_efd _ _ _ _ _ (si_adapters _ _ _ Hi) a ad Ha) as [Hx _]. congruence. }
        case_decide as Hin; split_and!; try done; [|set_solver| |].
        + intros a ad Ha Hx. by rewrite (Heq a ad Ha Hx).
        + intros a [?| ->%list_elem_of_singleton]%elem_of_app; [auto|by exists ad0].
        + intros a ad Ha Hx. rewrite (Heq a ad Ha Hx). set_solver.
      - split_and!; [done|done|]. intros a ad Ha <-. destruct (ao_efd _ _ _ _ _ (si_adapters _ _ _ Hi) a ad Ha). congruence. }
    eapply runs_mono; [by apply (IH sig1 s Hi)|]. intros sg s2 [[Hi2 Hm2 Hs2 Hr2 Hp2 Hk2 Ho2] Hsub]. split; [|by etrans].
    assert (listener_fd ∈ fd :: ready ↔ listener_fd ∈ ready) as Hl by (rewrite elem_of_cons; naive_solver).
    constructor; try done; rewrite ?Hl; try done.
    intros a ad Ha [Hin|Hin]%elem_of_cons; [|by apply (Hr2 a ad)]. apply Hsub. by apply (Hfd1 a ad).
Qed.

(** ** One iteration *)

(** from the polled state on: outcomes are collected and tasks finished *)
Lemma complete_ok signaled s : inv s → (∀ a, a ∈ signaled → is_Some (dget (ss_l2_adapters s) a)) →
  runs (when (nonempty signaled)
    (_ ← try_ (_drain_l2_store_completions iter_set signaled);
     tasks ← gets ss_in_flight_tasks;
     for_each (λ kt, try_ (_advance_request cache_salt policy_ (fst kt) (snd kt))) tasks)) s (λ _ s', inv s' ∧
    moved any s s' ∧ ∃ ext, ss_log s' = ss_log s ++ ext ∧ (∀ a, a ∈ signaled → ∃ cs, SPopCompleted a cs ∈ ext) ∧
      ∀ a cs t r, SPopCompleted a cs ∈ ext → dget cs t = Some r → dget (ss_in_flight_tasks s') (a, t) = None).
Proof.
  intros Hi Hsig. apply runs_when.
  2: { intros ->%nonempty_false. split_and!; [done..|]. exists []. rewrite app_nil_r.
       split_and!; [done|intros a Ha|intros a cs t r Ha]; by apply not_elem_of_nil in Ha. }
  intros _. apply runs_bind, runs_try. eapply runs_mono; [by apply drain_ok|].
  intros [] s1 (Hi1 & Hm1 & ext1 & Hl1 & Hr1 & Hp1). eapply runs_mono; [by apply advance_all_ok|].
  intros [] s2 (Hi2 & Hm2 & Hk2 & Hnone). destruct (mv_log _ _ _ Hm2) as (ext2 & Hl2 & Hnp2).
  split_and!; [done|etrans; [exact Hm1|]; by eapply moved_weaken; [|exact Hm2]|]. exists (ext1 ++ ext2).
  rewrite Hl2, Hl1, app_assoc. split_and!; [done| |].
  - intros a Ha. destruct (Hp1 a Ha) as [cs ?]. exists cs. set_solver.
  - intros a cs t r [Hin|Hin]%elem_of_app Hr; [|by eapply Forall_forall in Hnp2; [|exact Hin]].
    destruct (dget (ss_in_flight_tasks s2) (a, t)) as [task|] eqn:Et; [|done].
    pose proof (reported_keeps _ _ _ Hk2 Hr1 a cs t r task Hin Hr Et) as [b Hb]. by rewrite (Hnone _ _ Et) in Hb.
Qed.

Record iterated (ready : list Z) s s' (ext : list Call) : Prop := {
  it_inv : inv s';
  it_world : w_evolves (ss_world s) (ss_world s');
  it_roster : rtc roster_turn (store_roster s) (store_roster s');
  it_log : ss_log s' = ss_log s ++ ext;
  it_pending : listener_fd ∈ ready → ss_pending_keys s' = [] ∧
    ∀ a k, routable (_apply_pending_adapter_ops s).2 a → k ∈ ss_pending_keys s → offered a k ext;
  it_polled : ∀ a ad, dget (ss_l2_adapters (_apply_pending_adapter_ops s).2) a = Some ad → store_fd ad ∈ ready →
    ∃ cs, SPopCompleted a cs ∈ ext;
  it_reported : ∀ a cs t r, SPopCompleted a cs ∈ ext → dget cs t = Some r → dget (ss_in_flight_tasks s') (a, t) = None;
  it_draining : ∀ a d, dget (ss_draining (_apply_pending_adapter_ops s).2) a = Some d →
    _adapter_in_use s' a = true ∨ d ∈ ss_done s' }.

Lemma store_iteration_ok ready s : inv s → ∃ s' ext, iteration ready s = (Ok tt, s') ∧ iterated ready s s' ext.
Proof.
  intros Hi. enough (runs (iteration ready) s (λ _ s', ∃ ext, iterated ready s s' ext)) as ([] & s' & E & ext & H) by eauto.
  destruct (apply_ops_ok s Hi) as ([] & s1 & E1 & Hi1 & Ho1 & Hr1 & Hro1). apply runs_bind. exists tt, s1. split; [done|].
  assert ((_apply_pending_adapter_ops s).2 = s1) as Es1 by (by rewrite E1).
  pose proof (rt_log _ _ Hr1) as Hl1. pose proof (rt_pending _ _ Hr1) as Hp1. cbn in Hl1, Hp1.
  apply runs_bind. eapply runs_mono; [apply ready_loop_ok; [done|]; intros a Ha; by apply not_elem_of_nil in Ha|].
  intros sg s2 [[Hi2 Hm2 Hs2 Hrd2 Hp2 _ Ho2] _]. destruct (mv_log _ _ _ Hm2) as (ext2 & Hl2 & Hnp2). cbn in Hl2.
  pose proof (mv_adapters _ _ _ Hm2) as Ha2. pose proof (mv_draining _ _ _ Hm2) as Hd2. cbn in Ha2, Hd2.
  apply runs_bind. eapply runs_mono; [apply (complete_ok sg s2 Hi2); by rewrite Ha2|].
  intros [] s3 (Hi3 & Hm3 & ext3 & Hl3 & Hpo3 & Hrep3). eapply runs_mono; [by apply finalize_drained_ok|].
  intros [] s4 (Hi4 & Hr4 & Hro4 & Hdr4 & Hdn4). exists (ext2 ++ ext3). constructor; rewrite ?Es1.
  - done.
  - rewrite (rt_world _ _ Hr4). etrans; [|exact (mv_world _ _ _ Hm3)]. etrans; [|exact (mv_world _ _ _ Hm2)]. cbn. by rewrite (rt_world _ _ Hr1).
  - etrans; [exact Hro1|]. etrans; [|exact Hro4]. by rewrite (moved_roster _ _ _ Hm3), (moved_roster _ _ _ Hm2).
  - rewrite (rt_log _ _ Hr4), Hl3, Hl2, Hl1, app_assoc. done.
  - intros Hin. rewrite (rt_pending _ _ Hr4), (mv_pending _ _ _ Hm3). split; [by apply Hp2|]. intros a k Ha Hk.
    destruct (Ho2 Hin) as (ext2' & Hl2' & Hoff). rewrite Hl2 in Hl2'. apply app_inv_head in Hl2' as <-.
    eapply offered_mono; [|apply (Hoff a k Ha); by rewrite Hp1]. set_solver.
  - intros a ad Ha Hin. destruct (Hpo3 a (Hrd2 a ad Ha Hin)) as [cs ?]. exists cs. set_solver.
  - intros a cs t r [Hin|Hin]%elem_of_app Hr; [by eapply Forall_forall in Hnp2; [|exact Hin]|].
    rewrite (rt_tasks _ _ Hr4). by eapply Hrep3.
  - intros a d Hd. rewrite <- Hd2, <- (mv_draining _ _ _ Hm3) in Hd. destruct (Hdn4 a d Hd) as [Hx|?]; [left|by right].
    apply Hdr4. by exists d.
Qed.

(** ** Runs *)

Definition store_adapters_ok (l2_adapters : list Ad) (descriptors : list (AdapterDescriptor config)) : Prop :=
  length descriptors = length l2_adapters ∧ NoDup (ad_index <$> descriptors) ∧
  NoDup (listener_fd :: (store_fd <$> l2_adapters)).

Inductive store_step : State → State → Prop :=
| store_step_iterate ready s : store_step s (iteration ready s).2
| store_step_written keys s : store_step s (on_l1_keys_write_finished s keys)
| store_step_adapter op s :
    store_ops_ok listener_fd (ss_l2_adapters s) (ss_pending_adapter_ops s ++ [op]) → store_step s (store_queue_op s op)
| store_step_world w s : w_evolves (ss_world s) w → store_step s (ss_set_world w s).

Inductive store_reachable : State → Prop :=
| store_reach_init w l2_adapters descriptors s :
    w_ok w → store_adapters_ok l2_adapters descriptors → init_store w l2_adapters descriptors = Ok s → store_reachable s
| store_reach_step s s' : store_reachable s → store_step s s' → store_reachable s'.

Lemma init_store_inv w l2_adapters descriptors s : w_ok w → store_adapters_ok l2_adapters descriptors →
  init_store w l2_adapters descriptors = Ok s → inv s.
Proof.
  intros Hw (Hlen & Hids & [Hnl Hfds]%NoDup_cons). unfold init_store. rewrite bool_decide_eq_true_2 by done. intros [= <-].
  set (A := zip (ad_index <$> descriptors) l2_adapters).
  assert (Hk : dkeys A = ad_index <$> descriptors) by (apply fst_zip; rewrite length_fmap; lia).
  assert (Hv : A.*2 = l2_adapters) by (apply snd_zip; rewrite length_fmap; lia).
  assert (Hwf : dwf A) by (unfold dwf; by rewrite Hk).
  assert (Hd : dkeys ((λ desc : AdapterDescriptor config, (ad_index desc, desc)) <$> descriptors) = ad_index <$> descriptors)
    by (unfold dkeys; by rewrite <- list_fmap_compose).
  assert (∀ a ad, dget A a = Some ad → store_fd ad ≠ listener_fd) as Hne.
  { intros a ad Ha%dget_elem_of Hx. apply Hnl. rewrite <- Hx. apply list_elem_of_fmap_2. rewrite <- Hv.
    apply list_elem_of_fmap. by exists (a, ad). }
  constructor; cbn; try done; [|exact NoDup_nil_2|by intros [|? ?] ? ?].
  rewrite (dupdate_app A []) by done. cbn [app]. rewrite (dupdate_app (_ <$> descriptors) []) by (unfold dwf; cbn [app]; by rewrite Hd).
  rewrite <- Hv in Hfds. constructor; cbn.
  - split_and!; [done|unfold dwf; by rewrite Hd|exact NoDup_nil_2].
  - intros a. by rewrite <- !elem_of_dkeys, Hk, Hd.
  - intros a d Ha. split; [|by rewrite <- elem_of_dkeys, Hk, <- Hd, elem_of_dkeys; exists d].
    apply dget_elem_of, list_elem_of_fmap in Ha. by destruct Ha as (d' & [= -> ->] & _).
  - intros a [? [=]].
  - intros a ad Ha. split; [|by eapply Hne]. apply dget_by_fd; [done..|by exists ad].
  - intros fd a. by apply dget_by_fd.
Qed.

Lemma store_step_inv s s' : inv s → store_step s s' → inv s'.
Proof.
  intros Hi Hs. revert Hi. destruct Hs as [ready s|keys s|op s Hops|w s Hw]; intros Hi.
  - destruct (store_iteration_ok ready s Hi) as (s1 & ext & -> & Hit). apply Hit.
  - by apply set_pending_inv.
  - constructor; try apply Hi; [done|]. intros key task Ht. by destruct (si_tasks _ _ _ Hi key task Ht).
  - constructor; try apply Hi; [by eapply w_ok_evolves; [apply Hi|]|]. intros key task Ht.
    destruct (si_tasks _ _ _ Hi key task Ht) as [(ad & ? & ?)]. constructor; try done. exists ad. split; [done|].
    by eapply w_store_issued_evolves.
Qed.

Lemma store_reachable_inv s : store_reachable s → inv s.
Proof. induction 1 as [w ads ds s Hw Ha E|s s' _ IH Hs]; [by eapply init_store_inv|by eapply store_step_inv]. Qed.

(** ** What holds of every run *)

Lemma cleanup_ok s : inv s → runs _cleanup_in_flight_tasks s (λ _ s',
  ss_in_flight_tasks s' = [] ∧ ∀ k, ledger (lock_delta k) (ss_log s') = 0).
Proof.
  intros Hi. apply runs_bind, runs_gets, runs_bind.
  eapply runs_mono; [apply (runs_for_each _ (λ rest s', ∃ off, store_inv listener_fd off s' ∧
    ss_in_flight_tasks s' = ss_in_flight_tasks s ∧ ∀ k, off k = held k rest - held k (ss_in_flight_tasks s)))|].
  - exists (λ _, 0). split_and!; [done..|]. intros k. lia.
  - intros [key task] rest s1 (off & Hi1 & Ht1 & Hoff). cbn [snd]. eapply runs_mono; [by apply finish_read_ok|].
    intros [] s2 (Hi2 & _ & Ht2). eexists. split; [exact Hi2|]. split; [congruence|]. intros k. rewrite Hoff.
    change (held k ((key, task) :: rest)) with (occ k (tk_read_locked_keys task) + held k rest). lia.
  - intros [] s1 (off & Hi1 & Ht1 & Hoff). apply runs_modify. split; [done|]. intros k.
    cbn [ss_set_tasks ss_log]. rewrite (si_locks _ _ _ Hi1), Ht1, Hoff. unfold held at 2. cbn. lia.
Qed.

(** C9: the store controller never loses a read lock. In every reachable state
    the read locks its calls add up to, key by key, are those of the tasks in
    flight; the status counter is the number of these tasks; each of them was
    submitted to an adapter that is still attached; and stopping the controller
    gives every lock back. *)
Theorem store_locks_balanced s : store_reachable s →
  (∀ k, ledger (lock_delta k) (ss_log s) = held k (ss_in_flight_tasks s)) ∧
  ss_status_in_flight_count s = Z.of_nat (length (ss_in_flight_tasks s)) ∧
  (∀ a t task, dget (ss_in_flight_tasks s) (a, t) = Some task →
     is_Some (dget (ss_l2_adapters s) a) ∧ ∃ objs, SSubmitStore a t (tk_keys task) objs ∈ ss_log s) ∧
  ∃ s', _cleanup_in_flight_tasks s = (Ok tt, s') ∧ ∀ k, ledger (lock_delta k) (ss_log s') = 0.
Proof.
  intros Hi%store_reachable_inv. split_and!.
  - intros k. rewrite (si_locks _ _ _ Hi). lia.
  - apply Hi.
  - intros a t task Ht. destruct (si_tasks _ _ _ Hi _ _ Ht) as [(ad & Ha & _) _ _ Hsub _]. split; [by exists ad|done].
  - destruct (cleanup_ok s Hi) as ([] & s' & E & _ & H). by exists s'.
Qed.

(** One round of the store loop, from any reachable state, ends normally and
    does its work. If the listener is ready, each key written since the last
    round is offered to each attached adapter that is not being drained: it is
    read-locked, and if the lock is granted its object is submitted. Each adapter
    that is ready is polled, and each task it reports has left the table. Each
    adapter being drained is still in use or its removal has been signalled. *)
Theorem store_round_complete ready s : store_reachable s →
  ∃ s' ext, iteration ready s = (Ok tt, s') ∧ ss_log s' = ss_log s ++ ext ∧
    let s1 := (_apply_pending_adapter_ops s).2 in
    (listener_fd ∈ ready → ss_pending_keys s' = [] ∧
       ∀ a k, routable s1 a → k ∈ ss_pending_keys s → offered a k ext) ∧
    (∀ a ad, dget (ss_l2_adapters s1) a = Some ad → store_fd ad ∈ ready → ∃ cs, SPopCompleted a cs ∈ ext) ∧
    (∀ a cs t r, SPopCompleted a cs ∈ ext → dget cs t = Some r → dget (ss_in_flight_tasks s') (a, t) = None) ∧
    (∀ a d, dget (ss_draining s1) a = Some d → _adapter_in_use s' a = true ∨ d ∈ ss_done s').
Proof.
  intros Hi%store_reachable_inv. destruct (store_iteration_ok ready s Hi) as (s' & ext & E & []). by exists s', ext.
Qed.

(** C10: the store controller deletes from L1 only what an adapter has confirmed:
    whenever it deletes keys, the calls before include a task with these keys and
    a successful report of that task by the same adapter. *)
Theorem store_deletes_only_stored s l1 keys l2 : store_reachable s →
  ss_log s = l1 ++ SDelete keys :: l2 → stored l1 keys.
Proof. intros Hi%store_reachable_inv. apply (si_deletes _ _ _ Hi). Qed.
End runs.
