(* ===== verification/StoreDemo.v ===== *)
(** * A store controller at work

    The store controller's theorems applied to the L1 manager over the allocator
    stack and a service that completes every task by the next poll. *)

From S2P Require Import Prelude PyDict PyState AddressManager AddressSpace TensorAllocator TTLLock L1Manager L1ManagerProofs L1Memory.
From S2P Require Import Bitmap Fold PrefetchPlan KeyLedger PrefetchController PrefetchControllerProofs PrefetchL1.
From S2P Require Import StoreController StoreControllerProofs StoreRuns.
Local Open Scope Z_scope.

(** ** Adapters beside an L1 manager *)

Section over_l1.
Context {K M Obj Layout Backend Sv Ad TaskId : Type} `{EqDecision K, EqDecision TaskId}.
Context {MMO : MemoryManager M Obj Layout Backend}.

#[export] Instance store_over_l1 {A2 : L2StoreAdapters Sv Ad K Obj TaskId}
  : L2StoreAdapters (L1World (K := K) (M := M) (Obj := Obj) (Sv := Sv)) Ad K Obj TaskId := {
  submit_store_task w a keys objs :=
    let '(t, l2) := submit_store_task (lw_l2 w) a keys objs in (t, lw_set_l2 w l2);
  pop_completed_store_tasks w a :=
    let '(cs, l2) := pop_completed_store_tasks (lw_l2 w) a in (cs, lw_set_l2 w l2);
  get_store_event_fd a := get_store_event_fd (L2StoreAdapters := A2) a }.

Context {MMS : MemoryManagerSpec M Obj Layout Backend} {WM : WorldModel Sv}.

#[export] Instance store_over_l1_spec {A2 : L2StoreAdapters Sv Ad K Obj TaskId} {S2 : L2StoreSpec Sv Ad K Obj TaskId}
  : L2StoreSpec (L1World (K := K) (M := M) (Obj := Obj) (Sv := Sv)) Ad K Obj TaskId.
Proof.
  refine {| w_store_issued w := w_store_issued (lw_l2 w) |}.
  - intros w w' a t Ht [_ He]. by eapply w_store_issued_evolves.
  - intros w a keys objs [_ Hw] Hlen. cbn. pose proof (submit_store_spec (lw_l2 w) a keys objs Hw Hlen) as Hs.
    destruct (submit_store_task _ _ _ _) as [t l2]. destruct Hs as (? & ? & ?). split; [split; [exact id|done]|done].
  - intros w a [_ Hw]. cbn. pose proof (pop_completed_spec (lw_l2 w) a Hw) as Hs.
    destruct (pop_completed_store_tasks _ _) as [cs l2]. destruct Hs. split; [split; [exact id|done]|done].
Defined.
End over_l1.

Module StoreDemo.

(** ** A service that stores everything *)

Record Service := mkService { sv_next : nat; sv_completed : list (nat * Z) }.

#[export] Instance service_adapters : L2StoreAdapters Service Z nat nat nat := {
  submit_store_task s _ keys _ :=
    (sv_next s, mkService (S (sv_next s)) (dset (sv_completed s) (sv_next s) (Z.of_nat (length keys) * 100)));
  pop_completed_store_tasks s _ := (dupdate [] (sv_completed s), mkService (sv_next s) []);
  get_store_event_fd a := a + 10 }.

#[export] Instance service_model : WorldModel Service.
Proof.
  refine {| w_ok _ := True; w_evolves s s' := (sv_next s <= sv_next s')%nat |}; [|done].
  split; [intros s; lia|intros s1 s2 s3; lia].
Defined.

#[export] Instance service_spec : L2StoreSpec Service Z nat nat nat.
Proof.
  refine {| w_store_issued s _ t := (t < sv_next s)%nat |}; cbn.
  - intros s s' _ t. lia.
  - intros s _ keys objs _ _. lia.
  - intros s _ _. split; [lia|]. apply dupdate_wf. exact NoDup_nil_2.
Defined.

(** ** The system: two objects have been written *)

#[export] Instance demo_mm :
  MemoryManager (World ListSortedList.t unit) nat (MemoryLayoutDesc (dtype := unit)) L1BackendType :=
  l1_memory_manager bf16_size.
#[export] Instance demo_mms :
  MemoryManagerSpec (World ListSortedList.t unit) nat (MemoryLayoutDesc (dtype := unit)) L1BackendType :=
  l1_memory_manager_spec bf16_size.

Abbreviation Layout := (MemoryLayoutDesc (dtype := unit)).
Abbreviation DemoWorld := (L1World (K := nat) (M := World ListSortedList.t unit) (Obj := nat) (Sv := Service)).
Abbreviation Controller := (StoreController DemoWorld Z nat nat nat unit).

Definition world0 : DemoWorld := mkL1World Demo.cache0 5 (mkService 0 []).
Definition world1 : DemoWorld :=
  match l1_reserve_write world0 [0; 1]%nat [false; false] Demo.layout with
  | Ok (_, w) => l1_finish_write (L1Client := l1_client) w [0; 1]%nat
  | Raise _ => world0
  end.

Definition descriptors : list (AdapterDescriptor unit) := [{| ad_index := 0; ad_config := tt |}].
Definition model_of (_ : nat) : string := "m".
Definition rank_of (_ : nat) : Z := 0.
Definition salt_of (_ : nat) : string := "".

Definition iterate (ready : list Z) (s : Controller) : Controller :=
  (store_iteration model_of rank_of salt_of id BufferOnlyStorePolicy 1 ready s).2.
Abbreviation reach := (store_reachable model_of rank_of salt_of id BufferOnlyStorePolicy 1).

Definition idle : Controller :=
  match init_store world1 [0] descriptors with
  | Ok s => s
  | Raise _ => mkStoreController world1 [] [] [] [] [] [] [] [] [] 0
  end.
Definition written : Controller := on_l1_keys_write_finished idle [0; 1]%nat.
Definition submitted : Controller := iterate [1] written.
Definition completed : Controller := iterate [10] submitted.

Lemma world1_ok : w_ok world1.
Proof.
  assert (w_ok world0) as H0.
  { split; [|exact I]. split; [apply l1_init_lock_inv; lia|]. apply l1_init_mem_inv.
    - split; [exact demo_world_ok|constructor].
    - intros o (x & Hx & _). discriminate Hx. }
  destruct (l1_reserve_write_spec world0 [0; 1]%nat [false; false] Demo.layout H0) as (ret & w & E & Hw & _).
  - apply (bool_decide_unpack _). vm_compute. exact I.
  - reflexivity.
  - eexists. split; [vm_compute; reflexivity|lia].
  - unfold world1. rewrite E. pose proof (w_ok_evolves _ _ H0 Hw) as H1. eapply w_ok_evolves; [exact H1|].
    by apply l1_finish_write_spec.
Qed.

Lemma written_reachable : reach written.
Proof.
  apply (store_reach_step _ _ _ _ _ _ idle); [|apply store_step_written].
  apply (store_reach_init _ _ _ _ _ _ world1 [0] descriptors); [exact world1_ok| |reflexivity].
  split; [done|]. split; apply (bool_decide_unpack _); vm_compute; exact I.
Qed.

Lemma submitted_reachable : reach submitted.
Proof. apply (store_reach_step _ _ _ _ _ _ written); [exact written_reachable|apply store_step_iterate]. Qed.

Lemma completed_reachable : reach completed.
Proof. apply (store_reach_step _ _ _ _ _ _ submitted); [exact submitted_reachable|apply store_step_iterate]. Qed.

Lemma id_perm (l : list Z) : id l ≡ₚ l.
Proof. done. Qed.

Lemma store_locks_balanced_witness :
  length (ss_in_flight_tasks submitted) = 1%nat ∧
  ∀ k, ledger (lock_delta k) (ss_log submitted) = held k (ss_in_flight_tasks submitted).
Proof.
  split; [vm_compute; reflexivity|].
  exact (proj1 (store_locks_balanced model_of rank_of salt_of id BufferOnlyStorePolicy 1 id_perm submitted submitted_reachable)).
Defined.

Lemma store_round_complete_witness : ∃ (s' : Controller) ext, ss_log s' = ss_log written ++ ext ∧ offered 0 1%nat ext.
Proof.
  destruct (store_round_complete model_of rank_of salt_of id BufferOnlyStorePolicy 1 id_perm [1] written written_reachable)
    as (s' & ext & _ & Hl & Hoff & _).
  exists s', ext. split; [exact Hl|]. apply Hoff; [left|split; [vm_compute; by eexists|vm_compute; reflexivity]|].
  apply (bool_decide_unpack _). vm_compute. exact I.
Defined.

Lemma store_deletes_only_stored_witness :
  ∃ l1 l2, ss_log completed = l1 ++ SDelete [0; 1]%nat :: l2 ∧ stored l1 [0; 1]%nat.
Proof.
  assert (ss_log completed = take 6 (ss_log completed) ++ SDelete [0; 1]%nat :: drop 7 (ss_log completed)) as E
    by (vm_compute; reflexivity).
  eexists _, _. split; [exact E|].
  exact (store_deletes_only_stored model_of rank_of salt_of id BufferOnlyStorePolicy 1 id_perm completed _ _ _ completed_reachable E).
Defined.
End StoreDemo.
