(* ===== verification/StorageSystem.v ===== *)
(** * The storage manager and its controllers together

    [storage_manager.py] again, now as the owner of the two controllers: the
    adapter tables, [add_l2_adapter] and [delete_l2_adapter], and what the
    manager reports about its adapters. The system is the manager with its
    prefetch controller, the store controller and the rest of the manager's
    fields; the controllers share one world.

    Adding and deleting block on events that the controllers set. The point such
    a call has reached is kept in [sy_lifecycle], whoever holds
    [_lifecycle_lock]; [lifecycle_resume] is what the call does when its wait
    ends. Events are numbers, handed out in order. *)

From S2P Require Import Prelude PyDict PyState TTLLock L1Manager Bitmap Fold PrefetchPlan PrefetchController.
From S2P Require Import StorageManager StoreController.
Local Open Scope Z_scope.

Record AdapterUsage := mkUsage {
  us_total_bytes_used : Z;
  us_total_capacity_bytes : Z;
  us_bytes_by_cache_salt : list (string * Z) }.

(** the rest of [L2AdapterInterface] *)
Class L2Management (W Ad Listener : Type) := {
  get_usage : W → Ad → result AdapterUsage;
  register_listener : W → Ad → Listener → W;
  close_adapter : W → Ad → W;
  supports_global_eviction : Ad → bool }.

Inductive Tier := TierL1 | TierL2.
Record ModuleMemoryCapacity := mkCapacity {
  mc_tier : Tier;
  mc_backend : string;
  mc_capacity_bytes : Z;
  mc_shared : bool }.

Section system.
Context {W Ad K Obj Layout TaskId config Listener : Type} `{EqDecision K, EqDecision TaskId}.
Context {L1 : L1Client W K Obj Layout} {L2 : L2Adapters W Ad K Obj Layout TaskId}
        {L2S : L2StoreAdapters W Ad K Obj TaskId} {L2M : L2Management W Ad Listener}.
(** of a configuration: the registered type name, [shared], and the policy of
    the eviction config if there is one *)
Context (type_name : config → string) (shared : config → bool) (eviction_policy : config → option string).
(** the configured L1 capacity per medium *)
Context (l1_capacity : list (string * Z)).

Abbreviation Prefetch := (PrefetchController W Ad K Obj Layout TaskId config).
Abbreviation Store := (StoreController W Ad K Obj TaskId config).
Abbreviation Manager := (StorageManager W Ad K Obj Layout TaskId config).
Abbreviation Descriptor := (AdapterDescriptor config).

(** what a blocked [add_l2_adapter] or [delete_l2_adapter] waits for *)
Inductive lifecycle :=
| Idle
| AddingToStore (adapter_id : Z) (adapter : Ad) (descriptor : Descriptor) (done_ : Z)
| AddingToPrefetch (adapter_id : Z) (adapter : Ad) (descriptor : Descriptor) (store_done done_ : Z)
| DrainingStore (adapter_id store_done prefetch_done : Z)
| DrainingPrefetch (adapter_id store_done prefetch_done : Z).

Record System := mkSystem {
  sy_manager : Manager;
  sy_store_controller : Store;
  sy_adapter_descriptors : list (Z * Descriptor);
  sy_next_adapter_id : Z;
  sy_registered_l2_listeners : list Listener;
  sy_eviction_states : list (Z * Ad);       (* of the L2 eviction controller *)
  sy_capacity_events : list (list ModuleMemoryCapacity);
  sy_next_event : Z;
  sy_lifecycle : lifecycle;
  sy_closed : list (Z * Ad) }.

(** ** Parts of the system *)

Definition sy_prefetch_controller (s : System) : Prefetch := sm_prefetch_controller (sy_manager s).
Definition sy_l2_adapters (s : System) : list (Z * Ad) := sm_l2_adapters (sy_manager s).
Definition sy_world (s : System) : W := sm_world (sy_manager s).

Definition with_l2_adapters (adapters : list (Z * Ad)) (m : Manager) : Manager :=
  mkStorageManager (sm_prefetch_controller m) adapters (sm_log m) (sm_events m).

Definition set_manager (m : Manager) (s : System) : System :=
  mkSystem m (ss_set_world (sm_world m) (sy_store_controller s)) (sy_adapter_descriptors s)
    (sy_next_adapter_id s) (sy_registered_l2_listeners s) (sy_eviction_states s) (sy_capacity_events s)
    (sy_next_event s) (sy_lifecycle s) (sy_closed s).
Definition set_prefetch (c : Prefetch) (s : System) : System := set_manager (with_controller c (sy_manager s)) s.
Definition set_store (c : Store) (s : System) : System :=
  mkSystem (with_controller (with_world (ss_world c) (sy_prefetch_controller s)) (sy_manager s)) c
    (sy_adapter_descriptors s) (sy_next_adapter_id s) (sy_registered_l2_listeners s) (sy_eviction_states s)
    (sy_capacity_events s) (sy_next_event s) (sy_lifecycle s) (sy_closed s).
Definition set_sys_world (w : W) (s : System) : System := set_prefetch (with_world w (sy_prefetch_controller s)) s.
Definition set_tables (adapters : list (Z * Ad)) (descs : list (Z * Descriptor)) (s : System) : System :=
  mkSystem (with_l2_adapters adapters (sy_manager s)) (sy_store_controller s) descs
    (sy_next_adapter_id s) (sy_registered_l2_listeners s) (sy_eviction_states s) (sy_capacity_events s)
    (sy_next_event s) (sy_lifecycle s) (sy_closed s).
Definition set_next_adapter_id (n : Z) (s : System) : System :=
  mkSystem (sy_manager s) (sy_store_controller s) (sy_adapter_descriptors s) n
    (sy_registered_l2_listeners s) (sy_eviction_states s) (sy_capacity_events s)
    (sy_next_event s) (sy_lifecycle s) (sy_closed s).
Definition set_listeners (l : list Listener) (s : System) : System :=
  mkSystem (sy_manager s) (sy_store_controller s) (sy_adapter_descriptors s) (sy_next_adapter_id s)
    l (sy_eviction_states s) (sy_capacity_events s) (sy_next_event s) (sy_lifecycle s) (sy_closed s).
Definition set_eviction (states : list (Z * Ad)) (s : System) : System :=
  mkSystem (sy_manager s) (sy_store_controller s) (sy_adapter_descriptors s) (sy_next_adapter_id s)
    (sy_registered_l2_listeners s) states (sy_capacity_events s) (sy_next_event s) (sy_lifecycle s) (sy_closed s).
Definition publish_capacities (caps : list ModuleMemoryCapacity) (s : System) : System :=
  mkSystem (sy_manager s) (sy_store_controller s) (sy_adapter_descriptors s) (sy_next_adapter_id s)
    (sy_registered_l2_listeners s) (sy_eviction_states s) (sy_capacity_events s ++ [caps])
    (sy_next_event s) (sy_lifecycle s) (sy_closed s).
(** the call blocks, having created [n] events *)
Definition wait_for (l : lifecycle) (n : Z) (s : System) : System :=
  mkSystem (sy_manager s) (sy_store_controller s) (sy_adapter_descriptors s) (sy_next_adapter_id s)
    (sy_registered_l2_listeners s) (sy_eviction_states s) (sy_capacity_events s)
    (sy_next_event s + n) l (sy_closed s).
Definition add_closed (a : Z) (ad : Ad) (s : System) : System :=
  mkSystem (sy_manager s) (sy_store_controller s) (sy_adapter_descriptors s) (sy_next_adapter_id s)
    (sy_registered_l2_listeners s) (sy_eviction_states s) (sy_capacity_events s)
    (sy_next_event s) (sy_lifecycle s) (sy_closed s ++ [(a, ad)]).

(** ** Reports *)

(** ascending identifiers; [self._adapter_descriptors[adapter_id]] may raise *)
Fixpoint snapshot_loop (descs : list (Z * Descriptor)) (items : list (Z * Ad)) : result (list (Z * Descriptor * Ad)) :=
  match items with
  | [] => Ok []
  | (adapter_id, adapter) :: items =>
      match dget descs adapter_id with
      | None => Raise KeyError
      | Some desc => (rest <-? snapshot_loop descs items; Ok ((adapter_id, desc, adapter) :: rest))%py
      end
  end.
Definition _snapshot_adapters (s : System) : result (list (Z * Descriptor * Ad)) :=
  snapshot_loop (sy_adapter_descriptors s) (sort_by fst (sy_l2_adapters s)).

(** usage of the adapters that report it, by type *)
Fixpoint usages_loop (w : W) (out_by_type : list (string * list AdapterUsage)) (items : list (Z * Descriptor * Ad))
  : list (string * list AdapterUsage) :=
  match items with
  | [] => out_by_type
  | (_, desc, adapter) :: items =>
      usages_loop w
        (match get_usage w adapter with
         | Raise _ => out_by_type
         | Ok usage =>
             let name := type_name (ad_config desc) in
             dset out_by_type name (default [] (dget out_by_type name) ++ [usage])
         end) items
  end.
Definition get_l2_usages_by_type (s : System) : result (list (string * list AdapterUsage)) :=
  (items <-? _snapshot_adapters s; Ok (usages_loop (sy_world s) [] items))%py.
Definition get_l2_usages (s : System) : result (list (Z * string)) :=
  (by_type <-? get_l2_usages_by_type s;
   Ok (flat_map (λ tu : string * list AdapterUsage, map (λ u, (us_total_bytes_used u, tu.1)) tu.2) by_type))%py.

Fixpoint capacities_loop (w : W) (items : list (Z * Descriptor * Ad)) : list ModuleMemoryCapacity :=
  match items with
  | [] => []
  | (_, desc, adapter) :: items =>
      match get_usage w adapter with
      | Raise _ => capacities_loop w items
      | Ok usage =>
          mkCapacity TierL2 (type_name (ad_config desc)) (us_total_capacity_bytes usage) (shared (ad_config desc))
          :: capacities_loop w items
      end
  end.
Definition _build_capacities (s : System) : result (list ModuleMemoryCapacity) :=
  (items <-? _snapshot_adapters s;
   Ok (((λ bc : string * Z, mkCapacity TierL1 bc.1 bc.2 false) <$> l1_capacity) ++ capacities_loop (sy_world s) items))%py.
Definition _publish_capacity_changed (s : System) : result unit * System :=
  match _build_capacities s with
  | Ok caps => (Ok tt, publish_capacities caps s)
  | Raise e => (Raise e, s)
  end.

Fixpoint salt_totals (w : W) (totals : list (string * Z)) (items : list (Z * Descriptor * Ad)) : result (list (string * Z)) :=
  match items with
  | [] => Ok totals
  | (_, _, adapter) :: items =>
      (usage <-? get_usage w adapter;
       salt_totals w (foldl (λ t su, dset t su.1 (default 0 (dget t su.1) + su.2)) totals (us_bytes_by_cache_salt usage)) items)%py
  end.
Definition get_usage_bytes_by_cache_salt (s : System) : result (list (string * Z)) :=
  (items <-? _snapshot_adapters s; salt_totals (sy_world s) [] items)%py.

(** ** Adapters at run time *)

(** [created] is what [create_l2_adapter] gives, serde wrapper and backend
    identity included *)
Definition _build_l2_adapter (cfg : config) (created : result (Ad * W)) (s : System) : result (Z * Ad * Descriptor) * System :=
  let adapter_id := sy_next_adapter_id s in
  let s := set_next_adapter_id (adapter_id + 1) s in
  match created with
  | Raise e => (Raise e, s)
  | Ok (adapter, w) => (Ok (adapter_id, adapter, {| ad_index := adapter_id; ad_config := cfg |}), set_sys_world w s)
  end.

Definition _should_enable_l2_eviction (adapter : Ad) (cfg : config) : bool :=
  match eviction_policy cfg with
  | None => false
  | Some policy_name => String.eqb policy_name "IsolatedLRU" || supports_global_eviction adapter
  end.

(** up to the first wait; an answer is given at once only for an error *)
Definition add_l2_adapter (cfg : config) (created : result (Ad * W)) (s : System) : option (result Z) * System :=
  match _build_l2_adapter cfg created s with
  | (Raise e, s) => (Some (Raise e), s)
  | (Ok (adapter_id, adapter, descriptor), s) =>
      let s := set_sys_world
        (foldl (λ w listener, register_listener w adapter listener) (sy_world s) (sy_registered_l2_listeners s)) s in
      let s := set_tables (dset (sy_l2_adapters s) adapter_id adapter)
                 (dset (sy_adapter_descriptors s) adapter_id descriptor) s in
      let e := sy_next_event s in
      let s := set_store (store_queue_op (sy_store_controller s) (AddAdapterOp adapter_id adapter descriptor e)) s in
      (None, wait_for (AddingToStore adapter_id adapter descriptor e) 1 s)
  end.

Definition delete_l2_adapter (adapter_id : Z) (s : System) : option (result Z) * System :=
  if negb (dmem (sy_l2_adapters s) adapter_id) then (Some (Raise ValueError), s)
  else
    let e := sy_next_event s in
    let s := set_store (store_queue_op (sy_store_controller s) (RemoveAdapterOp adapter_id e)) s in
    let s := set_prefetch (queue_adapter_op (sy_prefetch_controller s) (RemoveAdapterOp adapter_id (e + 1))) s in
    (None, wait_for (DrainingStore adapter_id e (e + 1)) 2 s).

(** the end of a call: the lock is released *)
Definition returns (r : result Z) (s : System) : option (result Z) * System := (Some r, wait_for Idle 0 s).

(** [_publish_capacity_changed] and the return *)
Definition announce_and_return (adapter_id : Z) (s : System) : option (result Z) * System :=
  match _publish_capacity_changed s with
  | (Ok _, s) => returns (Ok adapter_id) s
  | (Raise e, s) => returns (Raise e) s
  end.

Definition finish_add (adapter_id : Z) (adapter : Ad) (descriptor : Descriptor) (s : System) : option (result Z) * System :=
  let s := if _should_enable_l2_eviction adapter (ad_config descriptor)
           then set_eviction (sy_eviction_states s ++ [(adapter_id, adapter)]) s else s in
  announce_and_return adapter_id s.

Definition finish_delete (adapter_id : Z) (s : System) : option (result Z) * System :=
  let s := set_eviction (List.filter (λ st, negb (st.1 =? adapter_id)) (sy_eviction_states s)) s in
  match dget (sy_l2_adapters s) adapter_id with
  | None => returns (Raise KeyError) s
  | Some adapter =>
      let s := set_tables (ddel (sy_l2_adapters s) adapter_id) (ddel (sy_adapter_descriptors s) adapter_id) s in
      let s := add_closed adapter_id adapter (set_sys_world (close_adapter (sy_world s) adapter) s) in
      announce_and_return adapter_id s
  end.

(** the blocked call looks at its event; [expired] says that its time is up *)
Definition lifecycle_resume (expired : bool) (s : System) : option (result Z) * System :=
  let is_set (e : Z) (done : list Z) := bool_decide (e ∈ done) in
  let store_done := ss_done (sy_store_controller s) in
  let prefetch_done := at_done (pc_tables (sy_prefetch_controller s)) in
  match sy_lifecycle s with
  | Idle => (None, s)
  | AddingToStore adapter_id adapter descriptor done_ =>
      if is_set done_ store_done then
        let e := sy_next_event s in
        let s := set_prefetch
          (queue_adapter_op (sy_prefetch_controller s) (AddAdapterOp adapter_id adapter descriptor e)) s in
        (None, wait_for (AddingToPrefetch adapter_id adapter descriptor done_ e) 1 s)
      else if expired then returns (Raise RuntimeError) s else (None, s)
  | AddingToPrefetch adapter_id adapter descriptor _ done_ =>
      if is_set done_ prefetch_done then finish_add adapter_id adapter descriptor s
      else if expired then returns (Raise RuntimeError) s else (None, s)
  | DrainingStore adapter_id sd pd =>
      if is_set sd store_done then (None, wait_for (DrainingPrefetch adapter_id sd pd) 0 s)
      else if expired then returns (Raise TimeoutError) s else (None, s)
  | DrainingPrefetch adapter_id sd pd =>
      if is_set pd prefetch_done then finish_delete adapter_id s
      else if expired then returns (Raise TimeoutError) s else (None, s)
  end.

Definition register_l2_listener (listener : Listener) (s : System) : System :=
  let s := set_listeners (sy_registered_l2_listeners s ++ [listener]) s in
  set_sys_world (foldl (λ w ia, register_listener w ia.2 listener) (sy_world s) (sy_l2_adapters s)) s.

(** ** Start *)

(** [__init__]: [built] are the configured adapters, created in order *)
Definition init_system (w : W) (built : list (config * Ad)) : result System :=
  let ids := seqZ 0 (Z.of_nat (length built)) in
  let adapters := zip ids built.*2 in
  let descs := (λ ic : Z * config, {| ad_index := ic.1; ad_config := ic.2 |}) <$> zip ids built.*1 in
  let states := (λ ica : Z * (config * Ad), (ica.1, ica.2.2)) <$>
    List.filter (λ ica, _should_enable_l2_eviction ica.2.2 ica.2.1) (zip ids built) in
  (store <-? init_store w built.*2 descs;
   prefetch <-? init_controller w built.*2 descs;
   Ok (mkSystem (mkStorageManager prefetch adapters [] []) store
         ((λ d, (ad_index d, d)) <$> descs) (Z.of_nat (length built)) [] states [] 0 Idle []))%py.
End system.

Arguments lifecycle Ad config : clear implicits.
Arguments System W Ad K Obj Layout TaskId config Listener : clear implicits.
