(* ===== verification/StorageSystemProofs.v ===== *)
(** * The storage system: every run

    The step relation of the whole system and its invariant. Every step of the
    system is a sequence of steps of each controller, so what was proved of the
    controllers alone holds here; the conditions under which adapters may be
    attached, assumed there, are discharged here from the manager's counter. *)

From S2P Require Import Prelude PyDict PyState TTLLock L1Manager Bitmap Fold PrefetchPlan KeyLedger.
From S2P Require Import PrefetchController PrefetchControllerProofs AdapterRoster PrefetchRuns.
From S2P Require Import StorageManager StorageManagerProofs StoreController StoreControllerProofs StoreRuns StorageSystem.
Local Open Scope Z_scope.

(** adapters keep their tasks when a listener is added or another is closed *)
Class L2ManagementSpec (W Ad Listener : Type) `{WorldModel W, L2Management W Ad Listener} := {
  register_listener_spec w ad l : w_ok w → w_evolves w (register_listener w ad l);
  close_adapter_spec w ad : w_ok w → w_evolves w (close_adapter w ad) }.

Section proofs.
Context {W Ad K Obj Layout TaskId config Listener : Type} `{EqDecision K, EqDecision TaskId}.
Context {L1 : L1Client W K Obj Layout} {L2 : L2Adapters W Ad K Obj Layout TaskId}
        {L2S : L2StoreAdapters W Ad K Obj TaskId} {L2M : L2Management W Ad Listener}.
Context {WM : WorldModel W} {S1 : L1ClientSpec W K Obj Layout} {S2 : L2AdaptersSpec W Ad K Obj Layout TaskId}
        {S3 : L2StoreSpec W Ad K Obj TaskId} {S4 : L2ManagementSpec W Ad Listener}.
Context (type_name : config → string) (shared : config → bool) (eviction_policy : config → option string).
Context (l1_capacity : list (string * Z)).
Context (object_group_id : K → Z) (prefetch_policy : PrefetchPolicy) (max_in_flight submission_fd : Z).
Context (model_name : K → string) (kv_rank : K → Z) (cache_salt : K → string).
Context (iter_set : list Z → list Z) (store_policy : StorePolicy) (listener_fd : Z).

Abbreviation Sys := (System W Ad K Obj Layout TaskId config Listener).
Abbreviation Prefetch := (PrefetchController W Ad K Obj Layout TaskId config).
Abbreviation Store := (StoreController W Ad K Obj TaskId config).
Abbreviation Roster := (roster Ad config).
Abbreviation ctl := sy_prefetch_controller.
Abbreviation sto := sy_store_controller.
Abbreviation lookup_fd := (get_lookup_and_lock_event_fd (L2Adapters := L2)).
Abbreviation load_fd := (get_load_event_fd (L2Adapters := L2)).
Abbreviation store_fd := (get_store_event_fd (L2StoreAdapters := L2S)).
Abbreviation ctl_step := (step object_group_id prefetch_policy max_in_flight submission_fd (config := config)).
Abbreviation ctl_reachable := (reachable object_group_id prefetch_policy max_in_flight submission_fd (config := config)).
Abbreviation sto_step := (store_step model_name kv_rank cache_salt iter_set store_policy listener_fd (config := config)).
Abbreviation sto_reachable := (store_reachable model_name kv_rank cache_salt iter_set store_policy listener_fd (config := config)).
Abbreviation add := (add_l2_adapter (L2M := L2M) (config := config)).
Abbreviation resume := (lifecycle_resume type_name shared eviction_policy l1_capacity (L2M := L2M)).
Implicit Types (s : Sys) (A : list (Z * Ad)).

(** ** Steps *)

(** the descriptors of a new adapter differ from those of the adapters in [A] *)
Definition own_fds A (ad : Ad) : Prop :=
  fd_fresh submission_fd A ad ∧ store_fd ad ≠ listener_fd ∧
  ∀ a' ad', dget A a' = Some ad' → store_fd ad ≠ store_fd ad'.

Inductive sys_step : Sys → Sys → Prop :=
| sys_prefetch ready s :
    sys_step s (set_prefetch (prefetch_iteration object_group_id true prefetch_policy max_in_flight submission_fd ready (ctl s)).2 s)
| sys_store ready s :
    sys_step s (set_store (store_iteration model_name kv_rank cache_salt iter_set store_policy listener_fd ready (sto s)).2 s)
| sys_lookup sp ext skip_l2 now s : spec_ok object_group_id sp → spec_post_init sp = Ok tt →
    sys_step s (set_manager (submit_prefetch_task true sp ext skip_l2 now (sy_manager s)).2 s)
| sys_query h s : sys_step s (set_prefetch (query_prefetch_status (ctl s) h).2 s)
| sys_written keys s : sys_step s (set_store (on_l1_keys_write_finished (sto s) keys) s)
| sys_world w s : w_evolves (sy_world s) w → sys_step s (set_sys_world w s)
| sys_add cfg created s : sy_lifecycle s = Idle →
    (∀ ad w, created = Ok (ad, w) → w_evolves (sy_world s) w ∧ own_fds (sy_l2_adapters s) ad) →
    sys_step s (add cfg created s).2
| sys_delete adapter_id s : sy_lifecycle s = Idle → sys_step s (delete_l2_adapter adapter_id s).2
| sys_resume expired s : sys_step s (resume expired s).2
| sys_listener l s : sy_lifecycle s = Idle → sys_step s (register_l2_listener l s).

Inductive sys_reachable : Sys → Prop :=
| sys_reach_init w built s :
    w_ok w → NoDup (submission_fd :: (lookup_fd <$> built.*2) ++ (load_fd <$> built.*2)) →
    NoDup (listener_fd :: (store_fd <$> built.*2)) →
    init_system eviction_policy w built = Ok s → sys_reachable s
| sys_reach_step s s' : sys_reachable s → sys_step s s' → sys_reachable s'.

(** ** The invariant *)

Definition open_fds A : Prop := ∀ a ad, dget A a = Some ad → own_fds (ddel A a) ad.

(** the call that holds the lifecycle lock *)
Definition life_ok (l : lifecycle Ad config) A (n : Z) (P S : Roster) : Prop :=
  match l with
  | Idle => True
  | AddingToStore a ad desc e => dget A a = Some ad ∧ ad_index desc = a ∧ joining a ad e S ∧ below a n P
  | AddingToPrefetch a ad desc e0 e =>
      dget A a = Some ad ∧ joining a ad e0 S ∧ e0 ∈ ro_done S ∧ joining a ad e P
  | DrainingStore a e1 e2 => is_Some (dget A a) ∧ leaving a e1 S ∧ leaving a e2 P
  | DrainingPrefetch a e1 e2 => is_Some (dget A a) ∧ leaving a e1 S ∧ e1 ∈ ro_done S ∧ leaving a e2 P
  end.

(** what the controllers may hold of the adapters in [A] *)
Record held_ok A (n m : Z) (r : Roster) : Prop := {
  ho_open : sub_map (ro_future r) A;
  ho_below : below n m r }.

Record sys_inv s : Prop := {
  iv_prefetch : ctl_reachable (ctl s);
  iv_store : sto_reachable (sto s);
  iv_world : ss_world (sto s) = sy_world s;
  iv_held_prefetch : held_ok (sy_l2_adapters s) (sy_next_adapter_id s) (sy_next_event s) (prefetch_roster (ctl s));
  iv_held_store : held_ok (sy_l2_adapters s) (sy_next_adapter_id s) (sy_next_event s) (store_roster (sto s));
  iv_ids : ∀ a, is_Some (dget (sy_l2_adapters s) a) → a < sy_next_adapter_id s;
  iv_fds : open_fds (sy_l2_adapters s);
  iv_descs : ∀ a, is_Some (dget (sy_l2_adapters s) a) → is_Some (dget (sy_adapter_descriptors s) a);
  iv_descs_open : ∀ a, is_Some (dget (sy_adapter_descriptors s) a) → is_Some (dget (sy_l2_adapters s) a);
  iv_evicting : ∀ a ad, (a, ad) ∈ sy_eviction_states s → dget (sy_l2_adapters s) a = Some ad;
  iv_closed : ∀ a ad, (a, ad) ∈ sy_closed s → a < sy_next_adapter_id s ∧ dget (sy_l2_adapters s) a = None;
  iv_life : life_ok (sy_lifecycle s) (sy_l2_adapters s) (sy_next_event s) (prefetch_roster (ctl s)) (store_roster (sto s)) }.

(** ** Event descriptors *)

Lemma own_fds_sub A A' ad : sub_map A A' → own_fds A' ad → own_fds A ad.
Proof. intros Hs (H1 & H2 & H3). split_and!; [by eapply fd_fresh_sub|done|]. intros a' ad' Ha. eapply H3. by apply Hs. Qed.

Lemma open_fds_dset A a ad : open_fds A → dget A a = None → own_fds A ad → open_fds (dset A a ad).
Proof.
  intros Ho Hn Hf a' ad'. rewrite dget_dset. case_decide as E.
  - subst a'. intros [= <-]. eapply own_fds_sub; [|exact Hf]. intros b adb. rewrite dget_ddel, dget_dset. by case_decide.
  - intros Ha'. destruct (Ho a' ad' Ha') as ((? & ? & ? & Hold) & Hl & Hs).
    destruct Hf as ((Hne & _ & _ & Hnew) & _ & Hsn). destruct (Hnew a' ad' Ha') as (? & ? & ? & ?).
    specialize (Hsn a' ad' Ha'). unfold own_fds, fd_fresh. split_and!; try done.
    + intros b adb. rewrite dget_ddel, dget_dset. destruct (decide (a' = b)); [done|]. destruct (decide (a = b)) as [<-|]; [intros [= <-]; auto 10|].
      intros Hb. apply (Hold b). by rewrite dget_ddel_ne.
    + intros b adb. rewrite dget_ddel, dget_dset. destruct (decide (a' = b)); [done|]. destruct (decide (a = b)) as [<-|]; [intros [= <-]; auto|].
      intros Hb. apply (Hs b). by rewrite dget_ddel_ne.
Qed.

Lemma open_fds_ddel A a : open_fds A → open_fds (ddel A a).
Proof.
  intros Ho a' ad'. rewrite dget_ddel. case_decide; [done|]. intros Ha'. eapply own_fds_sub; [|by apply (Ho a')].
  intros b adb. rewrite !dget_ddel. repeat case_decide; done.
Qed.

(** ** Queueing *)

Lemma queue_remove_prefetch c a e : ctl_reachable c → ctl_step c (queue_adapter_op c (RemoveAdapterOp a e)).
Proof. intros Hc. constructor. apply ops_ok_snoc; [apply (ci_ops _ _ _ _ (reachable_inv _ _ _ _ _ Hc))|done]. Qed.

Lemma queue_add_prefetch c A a ad desc e : ctl_reachable c → sub_map (ro_future (prefetch_roster c)) A →
  dget A a = None → ad_index desc = a → own_fds A ad → ctl_step c (queue_adapter_op c (AddAdapterOp a ad desc e)).
Proof.
  intros Hc Hs Hn Hi Hf. constructor. apply ops_ok_snoc; [apply (ci_ops _ _ _ _ (reachable_inv _ _ _ _ _ Hc))|].
  split_and!; [|done| |done]; [|by eapply fd_fresh_sub; [exact Hs|apply Hf]].
  destruct (dget (future _ _) a) as [ad'|] eqn:E; [|done]. apply Hs in E. congruence.
Qed.

Context (iter_set_perm : ∀ l, iter_set l ≡ₚ l).

Lemma queue_remove_store c a e : sto_reachable c → sto_step c (store_queue_op c (RemoveAdapterOp a e)).
Proof.
  intros Hc. constructor. apply store_ops_ok_snoc; [|done].
  apply (si_ops _ _ _ (store_reachable_inv _ _ _ _ _ _ iter_set_perm _ Hc)).
Qed.

Lemma queue_add_store c A a ad desc e : sto_reachable c → sub_map (ro_future (store_roster c)) A →
  dget A a = None → ad_index desc = a → own_fds A ad → sto_step c (store_queue_op c (AddAdapterOp a ad desc e)).
Proof.
  intros Hc Hs Hn Hi (_ & Hl & Hf). constructor.
  apply store_ops_ok_snoc; [apply (si_ops _ _ _ (store_reachable_inv _ _ _ _ _ _ iter_set_perm _ Hc))|].
  split_and!; [|done|done| |done].
  - destruct (dget (future _ _) a) as [ad'|] eqn:E; [|done]. apply Hs in E. congruence.
  - intros a' ad' Ha'. apply (Hf a'). by apply Hs.
Qed.

(** ** The controllers move *)

Lemma store_run c c' : sto_reachable c → rtc sto_step c c' → sto_reachable c'.
Proof. intros Hc Hr. induction Hr as [|c c1 c' Hs _ IH]; [done|]. apply IH. by eapply store_reach_step. Qed.

Lemma held_turns A n m r r' : rtc roster_turn r r' → held_ok A n m r → held_ok A n m r'.
Proof.
  intros Hr [Ho Hb]. split; [etrans; [by apply future_turns|done]|].
  revert Hb. eapply turns_keep; [|exact Hr]. apply below_turn.
Qed.

Lemma life_turns l A n P P' S S' : rtc roster_turn P P' → rtc roster_turn S S' → life_ok l A n P S → life_ok l A n P' S'.
Proof.
  intros HP HS. assert (∀ (Q : Roster → Prop) r r', (∀ r r', roster_turn r r' → Q r → Q r') → rtc roster_turn r r' → Q r → Q r') as Hk
    by (intros; eapply turns_keep; eauto).
  destruct l as [|a ad desc e|a ad desc e0 e|a e1 e2|a e1 e2]; cbn; [done|..].
  - intros (? & ? & HJ & HB). split_and!; [done|done|exact (Hk _ _ _ (joining_turn a ad e) HS HJ)|exact (Hk _ _ _ (below_turn a n) HP HB)].
  - intros (? & HJ & HD & HJ2). split_and!; [done|exact (Hk _ _ _ (joining_turn a ad e0) HS HJ)
      |exact (Hk _ _ _ (done_turn e0) HS HD)|exact (Hk _ _ _ (joining_turn a ad e) HP HJ2)].
  - intros (? & HL & HL2). split_and!; [done|exact (Hk _ _ _ (leaving_turn a e1) HS HL)|exact (Hk _ _ _ (leaving_turn a e2) HP HL2)].
  - intros (? & HL & HD & HL2). split_and!; [done|exact (Hk _ _ _ (leaving_turn a e1) HS HL)
      |exact (Hk _ _ _ (done_turn e1) HS HD)|exact (Hk _ _ _ (leaving_turn a e2) HP HL2)].
Qed.

(** the controllers take steps, the manager stands still *)
Record advances s s' : Prop := {
  av_prefetch : rtc ctl_step (ctl s) (ctl s');
  av_store : rtc sto_step (sto s) (sto s');
  av_prefetch_roster : rtc roster_turn (prefetch_roster (ctl s)) (prefetch_roster (ctl s'));
  av_store_roster : rtc roster_turn (store_roster (sto s)) (store_roster (sto s'));
  av_world : ss_world (sto s') = sy_world s';
  av_adapters : sy_l2_adapters s' = sy_l2_adapters s;
  av_descs : sy_adapter_descriptors s' = sy_adapter_descriptors s;
  av_next : sy_next_adapter_id s' = sy_next_adapter_id s;
  av_evicting : sy_eviction_states s' = sy_eviction_states s;
  av_event : sy_next_event s' = sy_next_event s;
  av_life : sy_lifecycle s' = sy_lifecycle s;
  av_closed : sy_closed s' = sy_closed s }.

Lemma advances_inv s s' : sys_inv s → advances s s' → sys_inv s'.
Proof.
  intros [] []. constructor; rewrite ?av_adapters0, ?av_descs0, ?av_next0, ?av_evicting0, ?av_event0, ?av_life0, ?av_closed0; try done.
  - by eapply reachable_run.
  - by eapply store_run.
  - by eapply held_turns.
  - by eapply held_turns.
  - by eapply life_turns.
Qed.

(** to the other controller it is the world that moves *)
Lemma world_steps s w : sys_inv s → w_evolves (sy_world s) w → advances s (set_sys_world w s).
Proof.
  intros Hi Hw. constructor; try done.
  - apply rtc_once. by constructor.
  - apply rtc_once. constructor. by rewrite (iv_world _ Hi).
Qed.

Lemma prefetch_steps s c : sys_inv s → rtc ctl_step (ctl s) c → w_evolves (sy_world s) (pc_world c) →
  rtc roster_turn (prefetch_roster (ctl s)) (prefetch_roster c) → advances s (set_prefetch c s).
Proof.
  intros Hi Hc Hw Hr. constructor; try done. apply rtc_once. constructor. by rewrite (iv_world _ Hi).
Qed.

Lemma store_steps s c : sys_inv s → rtc sto_step (sto s) c → w_evolves (sy_world s) (ss_world c) →
  rtc roster_turn (store_roster (sto s)) (store_roster c) → advances s (set_store c s).
Proof. intros Hi Hc Hw Hr. constructor; try done. apply rtc_once. by constructor. Qed.

Lemma prefetch_round s ready : sys_inv s →
  advances s (set_prefetch (prefetch_iteration object_group_id true prefetch_policy max_in_flight submission_fd ready (ctl s)).2 s).
Proof.
  intros Hi. pose proof (reachable_inv _ _ _ _ _ (iv_prefetch _ Hi)) as Hc.
  destruct (iteration_ok _ prefetch_policy _ _ ready (ctl s) Hc) as (c & E & _ & _ & _ & _ & _ & Hw & Hr & _).
  apply prefetch_steps; [done|apply rtc_once; constructor|by rewrite E..].
Qed.

Lemma store_round s ready : sys_inv s →
  advances s (set_store (store_iteration model_name kv_rank cache_salt iter_set store_policy listener_fd ready (sto s)).2 s).
Proof.
  intros Hi. pose proof (store_reachable_inv _ _ _ _ _ _ iter_set_perm _ (iv_store _ Hi)) as Hc.
  destruct (store_iteration_ok model_name kv_rank cache_salt iter_set store_policy _ iter_set_perm ready (sto s) Hc) as (c & ext & E & Hit).
  apply store_steps; [done|apply rtc_once; constructor|rewrite E; cbn..].
  - rewrite <- (iv_world _ Hi). apply Hit.
  - apply Hit.
Qed.

Lemma lookup_round s sp ext skip_l2 now : sys_inv s → spec_ok object_group_id sp → spec_post_init sp = Ok tt →
  advances s (set_manager (submit_prefetch_task true sp ext skip_l2 now (sy_manager s)).2 s).
Proof.
  intros Hi Hsp Hpost.
  destruct (submit_task_steps _ _ _ _ sp (sy_manager s) ext skip_l2 now (iv_prefetch _ Hi) Hsp Hpost) as (Ha & c1 & (w & Hw & ->) & Hc).
  set (m := (submit_prefetch_task _ _ _ _ _ _).2) in *.
  assert (sm_world m = w ∧ rtc ctl_step (ctl s) (sm_prefetch_controller m) ∧
    prefetch_roster (sm_prefetch_controller m) = prefetch_roster (ctl s)) as (Ew & Hst & Er).
  { unfold sm_world. destruct Hc as [->|(sp' & Hsp' & ->)]; (split_and!; [done| |done]).
    - apply rtc_once. by constructor.
    - eapply rtc_l; [by apply step_world|]. apply rtc_once. by constructor. }
  constructor; try done.
  - apply rtc_once. constructor. by rewrite (iv_world _ Hi), Ew.
  - unfold sy_prefetch_controller at 2. cbn [set_manager sy_manager]. by rewrite Er.
Qed.

Lemma query_round s h : sys_inv s → advances s (set_prefetch (query_prefetch_status (ctl s) h).2 s).
Proof.
  intros Hi. assert ((query_prefetch_status (ctl s) h).2 = ctl s ∨
    (query_prefetch_status (ctl s) h).2 = (query_prefetch_result (ctl s) (ph_prefetch_request_id h)).2) as [->| ->].
  { unfold query_prefetch_status. destruct (_ =? -1); [by left|]. destruct (query_prefetch_result _ _) as [[]]; by right. }
  - by apply prefetch_steps.
  - assert (∀ c : Prefetch, pc_world (query_prefetch_result c (ph_prefetch_request_id h)).2 = pc_world c ∧
      prefetch_roster (query_prefetch_result c (ph_prefetch_request_id h)).2 = prefetch_roster c) as Hq.
    { intros c. unfold query_prefetch_result. by destruct (dget _ _). }
    destruct (Hq (ctl s)) as [Hw Hr]. apply prefetch_steps; [done|apply rtc_once; constructor|by rewrite Hw|by rewrite Hr].
Qed.

Lemma written_round s keys : sys_inv s → advances s (set_store (on_l1_keys_write_finished (sto s) keys) s).
Proof. intros Hi. apply store_steps; [done|apply rtc_once; constructor|by rewrite <- (iv_world _ Hi)|done]. Qed.

Lemma inv_world_ok s : sys_inv s → w_ok (sy_world s).
Proof. intros Hi. exact (reachable_ok _ _ _ _ _ (iv_prefetch _ Hi)). Qed.

Lemma register_all {X} (f : X → Ad * Listener) (l : list X) w : w_ok w →
  w_evolves w (foldl (λ w x, register_listener w (f x).1 (f x).2) w l).
Proof.
  revert w. induction l as [|x l IH]; intros w Hw; [done|]. cbn [foldl].
  assert (w_evolves w (register_listener w (f x).1 (f x).2)) as Hx by (by apply register_listener_spec).
  etrans; [exact Hx|]. apply IH. by eapply w_ok_evolves.
Qed.

Lemma listener_round s l : sys_inv s → advances s (register_l2_listener l s).
Proof.
  intros Hi. unfold register_l2_listener. set (w := foldl _ _ _).
  assert (w_evolves (sy_world s) w) as Hw by exact (register_all (λ ia : Z * Ad, (ia.2, l)) _ _ (inv_world_ok s Hi)).
  destruct (world_steps s w Hi Hw). by constructor.
Qed.

(** ** Adding and deleting *)

Lemma held_weaken A n m n' m' r : n <= n' → m <= m' → held_ok A n m r → held_ok A n' m' r.
Proof. intros ? ? []. split; [done|]. by eapply below_weaken. Qed.

Lemma held_enlist_add A n m r a ad desc e : held_ok A n m r → dget A a = Some ad → a < n → e < m →
  held_ok A n m (enlist (AddAdapterOp a ad desc e) r).
Proof.
  intros [Ho Hb] Ha Hn Hm. split; [|by apply below_enlist]. unfold ro_future. cbn. rewrite future_app. cbn.
  intros b adb. rewrite dget_dset. case_decide; [intros [= <-]; by subst|apply Ho].
Qed.

Lemma held_enlist_remove A n m r a e : held_ok A n m r → a < n → e < m → held_ok A n m (enlist (RemoveAdapterOp a e) r).
Proof. intros [Ho Hb] Hn Hm. split; [|by apply below_enlist]. unfold ro_future. cbn. by rewrite future_app. Qed.

Lemma held_new A n m r a ad : held_ok A n m r → dget A a = None → held_ok (dset A a ad) n m r.
Proof. intros [Ho Hb] Ha. split; [by apply sub_map_new|done]. Qed.

Lemma held_gone A n m r a : held_ok A n m r → dget (ro_future r) a = None → held_ok (ddel A a) n m r.
Proof.
  intros [Ho Hb] Ha. split; [|done]. intros b adb Hx. rewrite dget_ddel. case_decide; [congruence|by apply Ho].
Qed.

Lemma prefetch_world_same c : ctl_reachable c → ctl_reachable (with_world (pc_world c) c).
Proof. intros Hc. eapply reach_step; [exact Hc|]. by constructor. Qed.

Lemma bump_inv s : sys_inv s → sys_inv (set_next_adapter_id (sy_next_adapter_id s + 1) s).
Proof.
  intros []. constructor; cbn; try done.
  - eapply held_weaken; [..|done]; lia.
  - eapply held_weaken; [..|done]; lia.
  - intros a Ha. specialize (iv_ids0 a Ha). lia.
  - intros a ad Ha. destruct (iv_closed0 a ad Ha). split; [lia|done].
Qed.

(** the new adapter enters the tables and the store controller's queue *)
Definition attach_new (cfg : config) (ad : Ad) s : Sys :=
  let a := sy_next_adapter_id s in
  let desc := {| ad_index := a; ad_config := cfg |} in
  let s1 := set_tables (dset (sy_l2_adapters s) a ad) (dset (sy_adapter_descriptors s) a desc) (set_next_adapter_id (a + 1) s) in
  wait_for (AddingToStore a ad desc (sy_next_event s)) 1
    (set_store (store_queue_op (sto s) (AddAdapterOp a ad desc (sy_next_event s))) s1).

Lemma next_unused s : sys_inv s → dget (sy_l2_adapters s) (sy_next_adapter_id s) = None.
Proof.
  intros Hi. destruct (dget _ _) as [ad|] eqn:E; [|done]. pose proof (iv_ids _ Hi (sy_next_adapter_id s) ltac:(by eexists)). lia.
Qed.

Lemma attach_inv cfg ad s : sys_inv s → own_fds (sy_l2_adapters s) ad → sys_inv (attach_new cfg ad s).
Proof.
  intros Hi Hf. pose proof (next_unused s Hi) as Hn. unfold attach_new. set (a := sy_next_adapter_id s) in *. set (e := sy_next_event s).
  set (desc := {| ad_index := a; ad_config := cfg |}).
  pose proof (queue_add_store _ _ a ad desc e (iv_store _ Hi) (ho_open _ _ _ _ (iv_held_store _ Hi)) Hn eq_refl Hf) as Hst.
  assert (ss_world (sto s) = sy_world s) as Ew by apply Hi. destruct Hi. constructor; cbn -[dget dset].
  - change (ctl_reachable (with_world (ss_world (sto s)) (ctl s))). rewrite Ew. by apply prefetch_world_same.
  - by eapply store_reach_step.
  - done.
  - apply held_new; [|done]. eapply held_weaken; [..|exact iv_held_prefetch0]; unfold a; lia.
  - eapply (held_enlist_add _ _ _ (store_roster (sto s))); [|by rewrite dget_dset_eq|lia|lia]. apply held_new; [|done].
    eapply held_weaken; [..|exact iv_held_store0]; unfold a; lia.
  - intros b. rewrite dget_dset. case_decide; [lia|]. intros Hb. specialize (iv_ids0 b Hb). unfold a. lia.
  - by apply open_fds_dset.
  - intros b. rewrite !dget_dset. case_decide; [by eexists|apply iv_descs0].
  - intros b. rewrite !dget_dset. case_decide; [by eexists|apply iv_descs_open0].
  - intros b adb Hb. apply iv_evicting0 in Hb. rewrite dget_dset_ne; [done|]. congruence.
  - intros b adb Hb. destruct (iv_closed0 b adb Hb) as [Hlt Hnb]. fold a in Hlt. split; [lia|]. rewrite dget_dset_ne; [done|lia].
  - split_and!; [by rewrite dget_dset_eq|done|apply (joining_request a ad desc e (store_roster (sto s))), iv_held_store0|].
    eapply below_weaken; [..|apply iv_held_prefetch0]; lia.
Qed.

Lemma add_inv cfg created s : sys_inv s →
  (∀ ad w, created = Ok (ad, w) → w_evolves (sy_world s) w ∧ own_fds (sy_l2_adapters s) ad) →
  sys_inv (add cfg created s).2.
Proof.
  intros Hi Hc. destruct created as [[ad w]|ex]; [|by apply bump_inv]. destruct (Hc ad w eq_refl) as [Hw Hf].
  set (w' := foldl (λ w listener, register_listener w ad listener) w (sy_registered_l2_listeners s)).
  assert (w_evolves (sy_world s) w') as Hw'.
  { etrans; [exact Hw|]. apply (register_all (λ l, (ad, l))). eapply w_ok_evolves; [by apply inv_world_ok|exact Hw]. }
  exact (attach_inv cfg ad (set_sys_world w' s) (advances_inv _ _ Hi (world_steps s w' Hi Hw')) Hf).
Qed.

Lemma delete_inv a s : sys_inv s → sys_inv (delete_l2_adapter a s).2.
Proof.
  intros Hi. unfold delete_l2_adapter. destruct (dmem (sy_l2_adapters s) a) eqn:Em; [|done]. cbn [negb snd].
  assert (is_Some (dget (sy_l2_adapters s) a)) as Ha by (unfold dmem in Em; destruct (dget _ a); [by eexists|done]).
  pose proof (iv_ids _ Hi a Ha) as Hlt. set (e := sy_next_event s).
  assert (ss_world (sto s) = sy_world s) as Ew by apply Hi. destruct Hi. constructor; cbn -[dget]; try done.
  - eapply reach_step; [|apply queue_remove_prefetch]; rewrite Ew; by apply prefetch_world_same.
  - eapply store_reach_step; [eapply store_reach_step; [exact iv_store0|by apply (queue_remove_store _ a e)]|].
    by apply store_step_world.
  - apply (held_enlist_remove _ _ _ (prefetch_roster (ctl s))); [|done|lia]. eapply held_weaken; [..|done]; lia.
  - apply (held_enlist_remove _ _ _ (store_roster (sto s))); [|done|lia]. eapply held_weaken; [..|done]; lia.
  - split_and!; [done|apply (leaving_request a (sy_next_adapter_id s) e (store_roster (sto s))), iv_held_store0|].
    apply (leaving_request a (sy_next_adapter_id s) (e + 1) (prefetch_roster (ctl s))).
    eapply below_weaken; [..|apply iv_held_prefetch0]; lia.
Qed.

(** a change of the waiting call only *)
Lemma wait_inv l n s : sys_inv s → 0 <= n →
  life_ok l (sy_l2_adapters s) (sy_next_event s + n) (prefetch_roster (ctl s)) (store_roster (sto s)) →
  sys_inv (wait_for l n s).
Proof. intros [] Hn Hl. constructor; cbn; try done; (eapply held_weaken; [..|done]; lia). Qed.

Lemma idle_inv s : sys_inv s → sys_inv (wait_for Idle 0 s).
Proof. intros Hi. apply wait_inv; [done|lia|exact I]. Qed.

Lemma announce_inv a s : sys_inv (wait_for Idle 0 s) → sys_inv (announce_and_return type_name shared l1_capacity a s).2.
Proof.
  intros []. unfold announce_and_return, _publish_capacity_changed, returns. by destruct (_build_capacities _ _ _ _).
Qed.

Lemma eviction_inv states s : sys_inv s → (∀ a ad, (a, ad) ∈ states → dget (sy_l2_adapters s) a = Some ad) →
  sys_inv (set_eviction states s).
Proof. intros [] Hs. by constructor. Qed.

Lemma finish_add_inv a ad desc s : sys_inv s → dget (sy_l2_adapters s) a = Some ad →
  sys_inv (finish_add type_name shared eviction_policy l1_capacity a ad desc s).2.
Proof.
  intros Hi Ha. unfold finish_add. apply announce_inv, idle_inv. destruct (_should_enable_l2_eviction _ _ _); [|done].
  apply eviction_inv; [done|]. intros b adb [Hb|Hb]%elem_of_app; [by apply (iv_evicting _ Hi)|]. by apply list_elem_of_singleton in Hb as [= -> ->].
Qed.

(** the adapter leaves the tables once neither controller can reach it *)
Definition detach_closed (a : Z) (ad : Ad) s : Sys :=
  add_closed a ad (set_sys_world (close_adapter (sy_world s) ad)
    (set_tables (ddel (sy_l2_adapters s) a) (ddel (sy_adapter_descriptors s) a) (wait_for Idle 0 s))).

Lemma detach_inv a ad s : sys_inv s → dget (sy_l2_adapters s) a = Some ad → (∀ adb, (a, adb) ∉ sy_eviction_states s) →
  dget (ro_future (prefetch_roster (ctl s))) a = None → dget (ro_future (store_roster (sto s))) a = None →
  sys_inv (detach_closed a ad s).
Proof.
  intros Hi Ha He HP HS. pose proof (close_adapter_spec _ ad (inv_world_ok s Hi)) as Hw.
  pose proof (advances_inv _ _ Hi (world_steps s _ Hi Hw)) as []. pose proof (iv_ids _ Hi a ltac:(by eexists)) as Hlt.
  destruct Hi. constructor; cbn -[dget ddel]; rewrite ?Z.add_0_r; try done.
  - by apply held_gone.
  - by apply held_gone.
  - intros b. rewrite dget_ddel. case_decide; [by intros [? ?]|apply iv_ids0].
  - by apply open_fds_ddel.
  - intros b. rewrite !dget_ddel. case_decide; [by intros [? ?]|apply iv_descs0].
  - intros b. rewrite !dget_ddel. case_decide; [by intros [? ?]|apply iv_descs_open0].
  - intros b adb Hb. rewrite dget_ddel_ne; [by apply iv_evicting0|]. intros ->. by eapply He.
  - intros b adb [Hb|Hb]%elem_of_app.
    + destruct (iv_closed0 b adb Hb). split; [done|]. rewrite dget_ddel. by case_decide.
    + apply list_elem_of_singleton in Hb as [= -> ->]. split; [done|]. by rewrite dget_ddel, decide_True.
Qed.

Lemma finish_delete_inv a e1 e2 s : sys_inv s → sy_lifecycle s = DrainingPrefetch a e1 e2 →
  e2 ∈ at_done (pc_tables (ctl s)) → sys_inv (finish_delete type_name shared l1_capacity a s).2.
Proof.
  intros Hi Hl He. pose proof (iv_life _ Hi) as Hlife. rewrite Hl in Hlife. destruct Hlife as ([ad Ha] & HL1 & Hd1 & HL2).
  unfold finish_delete. cbv zeta. set (states := List.filter _ _).
  assert (dget (sy_l2_adapters (set_eviction states s)) a = Some ad) as Ha' by exact Ha. rewrite Ha'.
  assert (∀ b adb, (b, adb) ∈ states → b ≠ a ∧ dget (sy_l2_adapters s) b = Some adb) as Hst.
  { intros b adb [Hb Hne]%list_elem_of_In%filter_In. cbn in Hne. split; [lia|]. apply (iv_evicting _ Hi). by apply list_elem_of_In. }
  apply announce_inv. apply (detach_inv a ad (set_eviction states s)); [|done| | |].
  - apply eviction_inv; [done|]. intros b adb Hb. by apply Hst.
  - intros adb Hb. by destruct (Hst a adb Hb).
  - by apply (leaving_gone a e2).
  - by apply (leaving_gone a e1).
Qed.

Lemma add_to_prefetch_inv a ad desc e0 s : sys_inv s → sy_lifecycle s = AddingToStore a ad desc e0 →
  e0 ∈ ss_done (sto s) →
  let e := sy_next_event s in
  sys_inv (wait_for (AddingToPrefetch a ad desc e0 e) 1
             (set_prefetch (queue_adapter_op (ctl s) (AddAdapterOp a ad desc e)) s)).
Proof.
  intros Hi Hl He0 e. pose proof (iv_life _ Hi) as Hlife. rewrite Hl in Hlife. destruct Hlife as (Ha & Hix & HJ & HB).
  assert (dget (ro_future (prefetch_roster (ctl s))) a = None) as Hgone.
  { destruct (dget (ro_future _) a) as [x|] eqn:E; [|done]. assert (a < a); [|lia]. eapply below_future; [exact HB|by exists x]. }
  assert (a < sy_next_adapter_id s) as Hlt by (apply (iv_ids _ Hi); by exists ad).
  assert (ctl_step (ctl s) (queue_adapter_op (ctl s) (AddAdapterOp a ad desc e))) as Hstep.
  { apply (queue_add_prefetch _ (ddel (sy_l2_adapters s) a)); [exact (iv_prefetch _ Hi)| |by rewrite dget_ddel, decide_True|done|exact (iv_fds _ Hi a ad Ha)].
    by apply (ho_open _ _ _ _ (held_gone _ _ _ _ a (iv_held_prefetch _ Hi) Hgone)). }
  assert (ss_world (sto s) = sy_world s) as Ew by apply Hi. destruct Hi. constructor; cbn -[dget]; try done.
  - by eapply reach_step.
  - eapply store_reach_step; [exact iv_store0|]. apply store_step_world. by rewrite Ew.
  - apply (held_enlist_add _ _ _ (prefetch_roster (ctl s))); [|done|done|unfold e; lia]. eapply held_weaken; [..|done]; lia.
  - eapply held_weaken; [..|done]; lia.
  - split_and!; [done|done|done|]. by apply (joining_request a ad desc e (prefetch_roster (ctl s))).
Qed.

Lemma resume_inv expired s : sys_inv s → sys_inv (resume expired s).2.
Proof.
  intros Hi. pose proof (iv_life _ Hi) as Hlife. unfold lifecycle_resume.
  assert (∀ r, sys_inv (returns r s).2) as Hret by (intros r; by apply idle_inv).
  destruct (sy_lifecycle s) as [|a ad desc e|a ad desc e0 e|a e1 e2|a e1 e2] eqn:El; cbv zeta beta; [done|..].
  all: case_bool_decide as Hd; [|destruct expired; [apply Hret|done]].
  - by apply add_to_prefetch_inv.
  - apply finish_add_inv; [done|apply Hlife].
  - destruct Hlife as (? & ? & ?). apply wait_inv; [done|lia|done].
  - by eapply finish_delete_inv.
Qed.

Lemma sys_step_inv s s' : sys_inv s → sys_step s s' → sys_inv s'.
Proof.
  intros Hi Hs. revert Hi. destruct Hs; intros Hi.
  - eapply advances_inv; [done|by apply prefetch_round].
  - eapply advances_inv; [done|by apply store_round].
  - eapply advances_inv; [done|by apply lookup_round].
  - eapply advances_inv; [done|by apply query_round].
  - eapply advances_inv; [done|by apply written_round].
  - eapply advances_inv; [done|by apply world_steps].
  - by apply add_inv.
  - by apply delete_inv.
  - by apply resume_inv.
  - eapply advances_inv; [done|by apply listener_round].
Qed.

(** ** The start *)

Lemma open_fds_tables (T : AdapterTables Ad config) D R E : efds_ok submission_fd T → StoreControllerProofs.tables_ok (config := config) listener_fd (at_l2_adapters T) D R E →
  open_fds (at_l2_adapters T).
Proof.
  intros [] [_ _ _ _ Hfd _] a ad Ha. destruct (ef_submission a ad Ha). destruct (Hfd a ad Ha) as [Hs Hl].
  assert (∀ b adb, dget (ddel (at_l2_adapters T) a) b = Some adb → a ≠ b ∧ dget (at_l2_adapters T) b = Some adb) as Hb
    by (intros b adb; rewrite dget_ddel; by case_decide).
  unfold own_fds, fd_fresh. split_and!; try done; [by eapply ef_apart|..]; intros b adb [Hne Hb']%Hb.
  - pose proof (ef_lookup a ad Ha). pose proof (ef_lookup b adb Hb'). pose proof (ef_load a ad Ha). pose proof (ef_load b adb Hb').
    split_and!; [congruence|congruence|by eapply ef_apart|]. intros Hx. exact (ef_apart b adb a ad Hb' Ha (eq_sym Hx)).
  - destruct (Hfd b adb Hb'). congruence.
Qed.

Lemma sys_init_inv w built s : w_ok w → NoDup (submission_fd :: (lookup_fd <$> built.*2) ++ (load_fd <$> built.*2)) →
  NoDup (listener_fd :: (store_fd <$> built.*2)) → init_system eviction_policy w built = Ok s → sys_inv s.
Proof.
  intros Hw Hf1 Hf2. unfold init_system. set (n := Z.of_nat (length built)). set (ids := seqZ 0 n).
  set (descs := _ <$> zip ids built.*1). set (A := zip ids built.*2).
  assert (length ids = length built) as Hlen by (unfold ids; rewrite length_seqZ; unfold n; lia).
  assert (ad_index <$> descs = ids) as Hids.
  { unfold descs. rewrite <- list_fmap_compose. change (compose ad_index _) with (@fst Z config). apply fst_zip. rewrite length_fmap. lia. }
  assert (length descs = length built.*2) as Hld by (rewrite <- (length_fmap ad_index), Hids, length_fmap; lia).
  assert (NoDup ids) as Hnd by (unfold ids; apply NoDup_seqZ).
  assert (dkeys A = ids) as Hk by (apply fst_zip; rewrite length_fmap; lia).
  assert (PrefetchRuns.adapters_ok submission_fd built.*2 descs) as Ha1 by (split_and!; [done|by rewrite Hids|done]).
  assert (store_adapters_ok listener_fd built.*2 descs) as Ha2 by (split_and!; [done|by rewrite Hids|done]).
  assert (dupdate [] (zip (ad_index <$> descs) built.*2) = A) as HA.
  { rewrite Hids. apply dupdate_app. unfold dwf. cbn [app]. exact (eq_ind_r NoDup Hnd Hk). }
  destruct (init_store w built.*2 descs) as [store|] eqn:Es; [|done]. cbn [rbind].
  destruct (init_controller w built.*2 descs) as [prefetch|] eqn:Ep; [|done]. cbn [rbind]. intros [= <-].
  pose proof (store_reach_init model_name kv_rank cache_salt iter_set store_policy listener_fd _ _ _ _ Hw Ha2 Es) as HS.
  pose proof (reach_init object_group_id prefetch_policy max_in_flight submission_fd _ _ _ _ Hw Ha1 Ep) as HP.
  pose proof (init_store_inv _ _ _ _ _ Hw Ha2 Es) as HSi. pose proof (init_inv object_group_id max_in_flight _ _ _ _ _ Hw Ha1 Ep) as HPi.
  unfold init_store in Es. rewrite bool_decide_eq_true_2 in Es by done. injection Es as <-.
  unfold init_controller in Ep. rewrite bool_decide_eq_true_2 in Ep by done. injection Ep as <-.
  assert (∀ a, is_Some (dget A a) → a < n) as Hlt.
  { intros a. rewrite <- elem_of_dkeys, Hk. unfold ids. rewrite elem_of_seqZ. lia. }
  assert (∀ r : Roster, ro_adapters r = A → ro_draining r = [] → ro_done r = [] → ro_ops r = [] → held_ok A n 0 r) as Hheld.
  { intros [A' R D O]; cbn; intros -> -> -> ->. split; [done|]. constructor; cbn; try done; intros ? Hx; by apply not_elem_of_nil in Hx. }
  constructor; cbn -[dget]; try done.
  - by apply Hheld.
  - by apply Hheld.
  - change (zip ids built.*2) with A. rewrite <- HA. apply (open_fds_tables _ _ _ _ (ci_efds _ _ _ _ HPi) (si_adapters _ _ _ HSi)).
  - intros a Ha. apply elem_of_dkeys. unfold dkeys. rewrite <- list_fmap_compose.
    change (compose fst _) with (@ad_index config). rewrite Hids. change (sy_l2_adapters _) with A in Ha. by rewrite <- Hk, elem_of_dkeys.
  - intros a Ha%elem_of_dkeys. unfold dkeys in Ha. rewrite <- list_fmap_compose in Ha.
    change (compose fst _) with (@ad_index config) in Ha. rewrite Hids in Ha. change (sy_l2_adapters _) with A. by rewrite <- elem_of_dkeys, Hk.
  - intros a ad ([i [cfg ad']] & [= -> ->] & [Hin _]%list_elem_of_In%filter_In)%list_elem_of_fmap.
    change (sy_l2_adapters _) with A. apply dget_wf_elem_of; [unfold dwf; by rewrite Hk|].
    apply list_elem_of_In, list_elem_of_lookup in Hin as [j Hj]. apply lookup_zip_with_Some in Hj as (x & y & Exy & H1 & H2).
    injection Exy as <- <-. apply list_elem_of_lookup. exists j. apply lookup_zip_with_Some. exists i, ad'.
    split_and!; [done|done|]. by rewrite list_lookup_fmap, H2.
  - intros a ad Hx. by apply not_elem_of_nil in Hx.
Qed.

Lemma sys_reachable_inv s : sys_reachable s → sys_inv s.
Proof. induction 1; [by eapply sys_init_inv|by eapply sys_step_inv]. Qed.

(** ** Every step is steps of the controllers *)

Definition simulates s s' : Prop := rtc ctl_step (ctl s) (ctl s') ∧ rtc sto_step (sto s) (sto s').

#[local] Instance simulates_pre : PreOrder simulates.
Proof. split; [done|]. intros s1 s2 s3 [] []. split; by etrans. Qed.

Lemma advances_simulates s s' : advances s s' → simulates s s'.
Proof. by intros []. Qed.

Lemma same_world s : sys_inv s → ctl_step (ctl s) (with_world (ss_world (sto s)) (ctl s)).
Proof. intros Hi. constructor. by rewrite (iv_world _ Hi). Qed.

Lemma add_simulates cfg created s : sys_inv s →
  (∀ ad w, created = Ok (ad, w) → w_evolves (sy_world s) w ∧ own_fds (sy_l2_adapters s) ad) →
  simulates s (add cfg created s).2.
Proof.
  intros Hi Hc. destruct created as [[ad w]|ex]; [|done]. destruct (Hc ad w eq_refl) as [Hw Hf].
  set (w' := foldl (λ w listener, register_listener w ad listener) w (sy_registered_l2_listeners s)).
  assert (w_evolves (sy_world s) w') as Hw'.
  { etrans; [exact Hw|]. apply (register_all (λ l, (ad, l))). eapply w_ok_evolves; [by apply inv_world_ok|exact Hw]. }
  pose proof (world_steps s w' Hi Hw') as Hav. etrans; [exact (advances_simulates _ _ Hav)|].
  pose proof (advances_inv _ _ Hi Hav) as Hi'. split.
  - apply rtc_once. exact (same_world _ Hi').
  - apply rtc_once. apply (queue_add_store _ (sy_l2_adapters s)); [apply (iv_store _ Hi')|apply (iv_held_store _ Hi')|by apply next_unused|done|done].
Qed.

Lemma delete_simulates a s : sys_inv s → simulates s (delete_l2_adapter a s).2.
Proof.
  intros Hi. unfold delete_l2_adapter. destruct (dmem _ a); [|done]. cbn [negb snd]. pose proof (same_world s Hi) as Hw.
  pose proof (queue_remove_store _ a (sy_next_event s) (iv_store _ Hi)) as Hq. split.
  - eapply rtc_l; [exact Hw|]. apply rtc_once. apply (queue_remove_prefetch _ a). eapply reach_step; [exact (iv_prefetch _ Hi)|exact Hw].
  - eapply rtc_l; [exact Hq|]. apply rtc_once. by apply store_step_world.
Qed.

Lemma announce_same a s : ctl (announce_and_return type_name shared l1_capacity a s).2 = ctl s ∧
  sto (announce_and_return type_name shared l1_capacity a s).2 = sto s ∧
  sy_closed (announce_and_return type_name shared l1_capacity a s).2 = sy_closed s.
Proof. unfold announce_and_return, _publish_capacity_changed. by destruct (_build_capacities _ _ _ _). Qed.

Lemma resume_simulates expired s : sys_inv s → simulates s (resume expired s).2.
Proof.
  intros Hi. unfold lifecycle_resume.
  destruct (sy_lifecycle s) as [|a ad desc e|a ad desc e0 e|a e1 e2|a e1 e2] eqn:El; cbv zeta beta; [done|..].
  all: case_bool_decide as Hd; [|by destruct expired].
  - pose proof (iv_prefetch _ (add_to_prefetch_inv a ad desc e s Hi El Hd)) as Hr. split.
    + apply rtc_once. cbn [snd]. constructor. exact (ci_ops _ _ _ _ (reachable_inv _ _ _ _ _ Hr)).
    + apply rtc_once. apply store_step_world. cbn. by rewrite (iv_world _ Hi).
  - unfold finish_add, simulates. set (s1 := if (_ : bool) then _ else s). destruct (announce_same a s1) as (-> & -> & _).
    unfold s1. by destruct (_should_enable_l2_eviction _ _ _).
  - done.
  - unfold finish_delete. cbv zeta. set (s1 := set_eviction _ s).
    destruct (dget (sy_l2_adapters s1) a) as [ad|]; [|done]. unfold simulates.
    set (s2 := add_closed _ _ _). destruct (announce_same a s2) as (-> & -> & _).
    exact (advances_simulates _ _ (world_steps s _ Hi (close_adapter_spec _ ad (inv_world_ok s Hi)))).
Qed.

Lemma step_simulates s s' : sys_inv s → sys_step s s' → simulates s s'.
Proof.
  intros Hi Hs. revert Hi. destruct Hs; intros Hi.
  - by apply advances_simulates, prefetch_round.
  - by apply advances_simulates, store_round.
  - by apply advances_simulates, lookup_round.
  - by apply advances_simulates, query_round.
  - by apply advances_simulates, written_round.
  - by apply advances_simulates, world_steps.
  - by apply add_simulates.
  - by apply delete_simulates.
  - by apply resume_simulates.
  - by apply advances_simulates, listener_round.
Qed.

Lemma sys_run_inv s s' : sys_inv s → rtc sys_step s s' → sys_inv s' ∧ simulates s s'.
Proof.
  intros Hi Hr. revert Hi. induction Hr as [s|s s1 s' Hs _ IH]; intros Hi; [done|].
  destruct (IH (sys_step_inv _ _ Hi Hs)) as [Hi' Hsim]. split; [done|]. etrans; [by apply step_simulates|done].
Qed.



(** the prefetch controller's tables and the record of a request say nothing of the adapter [a] *)
Record unlisted_prefetch (a : Z) (T : AdapterTables Ad config) : Prop := {
  up_adapters : dget (at_l2_adapters T) a = None;
  up_descs : dget (at_descriptors T) a = None;
  up_draining : dget (at_draining T) a = None;
  up_lookup_efd : ∀ fd, dget (at_lookup_efd T) fd ≠ Some a;
  up_load_efd : ∀ fd, dget (at_load_efd T) fd ≠ Some a }.

Record unlisted_request (a : Z) (r : InFlightPrefetchRequest K Obj Layout TaskId) : Prop := {
  ur_lookups : dget (rq_pending_lookup_tasks r) a = None;
  ur_results : dget (rq_lookup_results r) a = None;
  ur_locks : dget (rq_l2_adapter2readlocks r) a = None;
  ur_plan : dget (rq_load_plan r) a = None;
  ur_loads : dget (rq_pending_load_tasks r) a = None;
  ur_bytes : dget (rq_load_bytes_by_adapter r) a = None;
  ur_loaded : dget (rq_load_results r) a = None }.

(** nor those of the store controller *)
Record unlisted_store (a : Z) (c : Store) : Prop := {
  us_adapters : dget (ss_l2_adapters c) a = None;
  us_descs : dget (ss_adapter_descriptors c) a = None;
  us_draining : dget (ss_draining c) a = None;
  us_efd : ∀ fd, dget (ss_efd_to_adapter_index c) fd ≠ Some a;
  us_tasks : ∀ t, dget (ss_in_flight_tasks c) (a, t) = None }.

(** nobody holds the adapter [a], and no queue will bring it back *)
Record unused (a : Z) s : Prop := {
  un_manager : dget (sy_l2_adapters s) a = None ∧ dget (sy_adapter_descriptors s) a = None;
  un_evicting : ∀ ad, (a, ad) ∉ sy_eviction_states s;
  un_prefetch : unlisted_prefetch a (pc_tables (ctl s));
  un_requests : ∀ rid r, rid ∈ pc_in_flight (ctl s) → dget (pc_requests (ctl s)) rid = Some r → unlisted_request a r;
  un_store : unlisted_store a (sto s);
  un_queues : dget (ro_future (prefetch_roster (ctl s))) a = None ∧ dget (ro_future (store_roster (sto s))) a = None }.

Lemma dget_absent {V} (d : list (Z * V)) a : (is_Some (dget d a) → False) → dget d a = None.
Proof. destruct (dget d a); [|done]. intros H. exfalso. by apply H. Qed.

Lemma prefetch_unlisted c a : ctl_reachable c → dget (at_l2_adapters (pc_tables c)) a = None →
  unlisted_prefetch a (pc_tables c) ∧
  ∀ rid r, rid ∈ pc_in_flight c → dget (pc_requests c) rid = Some r → unlisted_request a r.
Proof.
  intros Hc%reachable_inv Ha. pose proof (ci_tables _ _ _ _ Hc) as HT. pose proof (ci_efds _ _ _ _ Hc) as HE.
  assert (is_Some (dget (at_l2_adapters (pc_tables c)) a) → False) as Hno by (rewrite Ha; by intros [? ?]). split.
  - constructor; [done|..].
    + apply dget_absent. intros Hd. by apply Hno, (tb_same _ HT).
    + apply dget_absent. intros Hd. by apply Hno, (tb_draining _ HT).
    + intros fd Hfd. destruct (ef_lookup_inv _ _ HE fd a Hfd) as (ad & Had & _). congruence.
    + intros fd Hfd. destruct (ef_load_inv _ _ HE fd a Hfd) as (ad & Had & _). congruence.
  - intros rid r Hin Hr. destruct (ci_in_flight _ _ _ _ Hc rid Hin) as [r' Hl].
    pose proof (lv_request _ _ _ _ Hl) as Hr'. cbn in Hr'. rewrite Hr in Hr'. injection Hr' as <-.
    assert (loading_from a r → False) as Hload by (intros Hx; by apply Hno, (lv_plan _ _ _ _ Hl), (lv_planned _ _ _ _ Hl)).
    constructor; apply dget_absent; intros Hx; try (apply Hload; unfold loading_from; by auto).
    + destruct Hx as [t Ht]. destruct (lv_lookups _ _ _ _ Hl a t Ht) as (_ & ad & Had & _). congruence.
    + by apply Hno, (lv_results _ _ _ _ Hl).
    + by apply Hno, (lv_results _ _ _ _ Hl), (ho_locks_sub _ _ _ (lv_held _ _ _ _ Hl)).
    + by apply Hno, (lv_plan _ _ _ _ Hl).
Qed.

Lemma store_unlisted c a : sto_reachable c → dget (ss_l2_adapters c) a = None → unlisted_store a c.
Proof.
  intros Hc Ha. pose proof (store_reachable_inv _ _ _ _ _ _ iter_set_perm _ Hc) as Hi.
  pose proof (si_adapters _ _ _ Hi) as HT. constructor; [done|..].
  - apply dget_absent. intros [d Hd]. destruct (ao_index _ _ _ _ _ HT a d Hd) as [_ [ad Had]]. congruence.
  - apply dget_absent. intros Hd. destruct (ao_draining _ _ _ _ _ HT a Hd) as [ad Had]. congruence.
  - intros fd Hfd. destruct (ao_efd_inv _ _ _ _ _ HT fd a Hfd) as (ad & Had & _). congruence.
  - intros t. destruct (dget _ (a, t)) as [task|] eqn:E; [|done]. destruct (si_tasks _ _ _ Hi _ _ E) as [(ad & Had & _)]. cbn in Had. congruence.
Qed.

Lemma absent_unused a s : sys_inv s → dget (sy_l2_adapters s) a = None → unused a s.
Proof.
  intros Hi Ha. assert (∀ r : Roster, sub_map (ro_future r) (sy_l2_adapters s) → dget (ro_future r) a = None ∧ dget (ro_adapters r) a = None) as Hro.
  { intros r Hr. assert (dget (ro_future r) a = None) as Hf by (apply dget_absent; intros [ad Had]; apply Hr in Had; congruence).
    split; [done|]. apply dget_absent. intros E. destruct (future_kept a (ro_ops r) (ro_adapters r) E) as [x Hx]. unfold ro_future in Hf. congruence. }
  destruct (Hro _ (ho_open _ _ _ _ (iv_held_prefetch _ Hi))) as [HP1 HP2]. destruct (Hro _ (ho_open _ _ _ _ (iv_held_store _ Hi))) as [HS1 HS2].
  destruct (prefetch_unlisted _ a (iv_prefetch _ Hi) HP2) as [HP3 HP4]. constructor; try done.
  - split; [done|]. apply dget_absent. intros Hd%(iv_descs_open _ Hi). rewrite Ha in Hd. by destruct Hd.
  - intros ad Hin. apply (iv_evicting _ Hi) in Hin. congruence.
  - by apply store_unlisted; [apply Hi|].
Qed.

(** ** The manager's reports *)

Lemma snapshot_loop_ok (descs : list (Z * AdapterDescriptor config)) (items : list (Z * Ad)) :
  (∀ a, a ∈ items.*1 → is_Some (dget descs a)) →
  ∃ out, snapshot_loop descs items = Ok out ∧ (λ x, (x.1.1, x.2)) <$> out = items ∧
    ∀ a d ad, (a, d, ad) ∈ out → dget descs a = Some d.
Proof.
  induction items as [|[a ad] items IH]; intros Hd; cbn; [exists []; split_and!; [done|done|]; intros ? ? ? Hx; by apply not_elem_of_nil in Hx|].
  cbn in Hd. destruct (Hd a) as [d Hda]; [left|]. rewrite Hda. destruct IH as (out & -> & Hm & Hout); [intros b Hb; apply Hd; by right|].
  eexists. cbn. split_and!; [done|cbn; by f_equal|]. intros b d' ad' [[= -> -> ->]|Hin]%elem_of_cons; [done|by eapply Hout].
Qed.

Lemma snapshot_ok s : (∀ a, is_Some (dget (sy_l2_adapters s) a) → is_Some (dget (sy_adapter_descriptors s) a)) →
  ∃ out, _snapshot_adapters s = Ok out ∧ (λ x, (x.1.1, x.2)) <$> out = sort_by fst (sy_l2_adapters s).
Proof.
  intros Hd. destruct (snapshot_loop_ok (sy_adapter_descriptors s) (sort_by fst (sy_l2_adapters s))) as (out & E & Hm & _); [|by exists out].
  intros a Ha. apply Hd. rewrite (sort_by_perm fst (sy_l2_adapters s)) in Ha. by apply elem_of_dkeys.
Qed.

Lemma announce_ok a s : (∀ a, is_Some (dget (sy_l2_adapters s) a) → is_Some (dget (sy_adapter_descriptors s) a)) →
  ∃ caps, announce_and_return type_name shared l1_capacity a s = (Some (Ok a), wait_for Idle 0 (publish_capacities caps s)).
Proof.
  intros Hd. destruct (snapshot_ok s Hd) as (out & E & _). unfold announce_and_return, _publish_capacity_changed, _build_capacities.
  rewrite E. cbn. by eexists.
Qed.

(** ** What holds of the whole system *)

(** C11: the composed system refines its parts. The manager, the two controllers
    and whoever adds and deletes adapters, in any interleaving, only ever take
    the controllers through steps of their own: the controllers stay reachable on
    their own terms, over one shared world. In particular the manager meets what
    the controllers rely on when adapters are attached: identifiers are new and
    descriptors are not shared. *)
Theorem system_refines_controllers s s' : sys_reachable s → rtc sys_step s s' →
  ctl_reachable (ctl s') ∧ sto_reachable (sto s') ∧
  rtc ctl_step (ctl s) (ctl s') ∧ rtc sto_step (sto s) (sto s') ∧ ss_world (sto s') = pc_world (ctl s').
Proof.
  intros Hi%sys_reachable_inv Hr. destruct (sys_run_inv s s' Hi Hr) as [[] []]. done.
Qed.


(** both controllers route to the adapter *)
Definition in_service (a : Z) (ad : Ad) s : Prop :=
  dget (sy_l2_adapters s) a = Some ad ∧
  (dget (at_l2_adapters (pc_tables (ctl s))) a = Some ad ∧ dget (at_draining (pc_tables (ctl s))) a = None) ∧
  (dget (ss_l2_adapters (sto s)) a = Some ad ∧ dget (ss_draining (sto s)) a = None).

Definition same_adapters s s' : Prop :=
  sy_l2_adapters s' = sy_l2_adapters s ∧ sy_closed s' = sy_closed s ∧ ctl s' = ctl s ∧ sto s' = sto s.

Lemma finish_add_ok a ad desc s : sys_inv s → in_service a ad s →
  ∃ s', finish_add type_name shared eviction_policy l1_capacity a ad desc s = (Some (Ok a), s') ∧
    sy_lifecycle s' = Idle ∧ in_service a ad s'.
Proof.
  intros Hi Hs. unfold finish_add. set (s1 := if (_ : bool) then _ else s).
  destruct (announce_ok a s1) as (caps & ->); [unfold s1; destruct (_should_enable_l2_eviction _ _ _); apply Hi|].
  eexists. split; [done|]. split; [done|]. unfold s1. by destruct (_should_enable_l2_eviction _ _ _).
Qed.

Lemma finish_delete_ok a e1 e2 s : sys_inv s → sy_lifecycle s = DrainingPrefetch a e1 e2 → e2 ∈ at_done (pc_tables (ctl s)) →
  ∃ s' ad, finish_delete type_name shared l1_capacity a s = (Some (Ok a), s') ∧ sy_lifecycle s' = Idle ∧
    dget (sy_l2_adapters s) a = Some ad ∧ sy_closed s' = sy_closed s ++ [(a, ad)] ∧ unused a s'.
Proof.
  intros Hi Hl He. pose proof (finish_delete_inv a e1 e2 s Hi Hl He) as Hi'.
  pose proof (iv_life _ Hi) as Hlife. rewrite Hl in Hlife. destruct Hlife as ([ad Ha] & _).
  unfold finish_delete in *. cbv zeta in *. set (s1 := set_eviction _ s) in *.
  assert (dget (sy_l2_adapters s1) a = Some ad) as Ha' by exact Ha. rewrite Ha' in *.
  set (s2 := add_closed _ _ _) in *. destruct (announce_ok a s2) as (caps & E).
  { intros b. cbn -[dget ddel]. rewrite !dget_ddel. case_decide; [by intros [? ?]|apply Hi]. }
  rewrite E in *. eexists _, ad. split_and!; [done..|]. apply absent_unused; [exact Hi'|]. cbn -[dget ddel].
  by rewrite dget_ddel, decide_True.
Qed.

(** What [add_l2_adapter] and [delete_l2_adapter] promise when they return.
    The lifecycle lock is free again, and: adding has returned the identifier of
    an adapter that both controllers route to; deleting has closed the adapter
    and nobody holds it; a wait that timed out raises RuntimeError for adding and
    TimeoutError for deleting and leaves the tables and the controllers as they
    were. No other outcome exists. *)
Theorem lifecycle_outcome expired s r s' : sys_reachable s → resume expired s = (Some r, s') →
  sy_lifecycle s' = Idle ∧
  match sy_lifecycle s, r with
  | AddingToPrefetch a ad _ _ _, Ok b => b = a ∧ in_service a ad s'
  | DrainingPrefetch a _ _, Ok b => b = a ∧ unused a s' ∧
      ∃ ad, dget (sy_l2_adapters s) a = Some ad ∧ sy_closed s' = sy_closed s ++ [(a, ad)]
  | AddingToStore _ _ _ _, Raise ex | AddingToPrefetch _ _ _ _ _, Raise ex => ex = RuntimeError ∧ same_adapters s s'
  | DrainingStore _ _ _, Raise ex | DrainingPrefetch _ _ _, Raise ex => ex = TimeoutError ∧ same_adapters s s'
  | _, _ => False
  end.
Proof.
  intros Hi%sys_reachable_inv. pose proof (iv_life _ Hi) as Hlife. unfold lifecycle_resume.
  destruct (sy_lifecycle s) as [|a ad desc e|a ad desc e0 e|a e1 e2|a e1 e2] eqn:El; cbv zeta beta; [done|..].
  all: case_bool_decide as Hd; [|by destruct expired; [intros [= <- <-]|]].
  - done.
  - destruct Hlife as (Ha & HJ & Hd0 & HJ2). destruct (finish_add_ok a ad desc s Hi) as (s2 & -> & ? & ?).
    { split; [done|]. destruct (jn_draining _ _ _ _ HJ) as [HD _]. destruct (jn_draining _ _ _ _ HJ2) as [HD2 _].
      split; [exact (conj (jn_done _ _ _ _ HJ2 Hd) HD2)|exact (conj (jn_done _ _ _ _ HJ Hd0) HD)]. }
    by intros [= <- <-].
  - done.
  - destruct (finish_delete_ok a e1 e2 s Hi El Hd) as (s2 & ad & -> & ? & ? & ? & ?). intros [= <- <-]. eauto 10.
Qed.
End proofs.
