(* ===== verification/StorageSystemDemo.v ===== *)
(** * An adapter comes and goes

    The storage system over the demonstration cache and services. It starts with
    one adapter; a lookup is submitted; a second adapter is added, both
    controllers attach it, it is deleted again, drained and closed. *)

From S2P Require Import Prelude PyDict PyState AddressManager AddressSpace TensorAllocator TTLLock L1Manager L1ManagerProofs L1Memory.
From S2P Require Import Bitmap Fold PrefetchPlan KeyLedger PrefetchController PrefetchControllerProofs AdapterRoster PrefetchL1 PrefetchRuns PrefetchDemo.
From S2P Require Import StorageManager StorageManagerProofs StoreController StoreControllerProofs StoreRuns StoreDemo StorageSystem StorageSystemProofs.
Local Open Scope Z_scope.

(** ** Two services side by side *)

Section pair.
Context {V1 V2 Ad K Obj Layout TaskId : Type} `{EqDecision TaskId}.

#[export] Instance pair_lookup {A2 : L2Adapters V1 Ad K Obj Layout TaskId} : L2Adapters (V1 * V2) Ad K Obj Layout TaskId := {
  submit_lookup_and_lock_task v a keys layouts :=
    let '(t, v1) := submit_lookup_and_lock_task v.1 a keys layouts in (t, (v1, v.2));
  query_lookup_and_lock_result v a t := let '(r, v1) := query_lookup_and_lock_result v.1 a t in (r, (v1, v.2));
  submit_unlock v a keys := (submit_unlock v.1 a keys, v.2);
  submit_load_task v a keys objs := let '(t, v1) := submit_load_task v.1 a keys objs in (t, (v1, v.2));
  query_load_result v a t := let '(r, v1) := query_load_result v.1 a t in (r, (v1, v.2));
  get_lookup_and_lock_event_fd a := get_lookup_and_lock_event_fd (L2Adapters := A2) a;
  get_load_event_fd a := get_load_event_fd (L2Adapters := A2) a }.

#[export] Instance pair_store {A2 : L2StoreAdapters V2 Ad K Obj TaskId} : L2StoreAdapters (V1 * V2) Ad K Obj TaskId := {
  submit_store_task v a keys objs := let '(t, v2) := submit_store_task v.2 a keys objs in (t, (v.1, v2));
  pop_completed_store_tasks v a := let '(cs, v2) := pop_completed_store_tasks v.2 a in (cs, (v.1, v2));
  get_store_event_fd a := get_store_event_fd (L2StoreAdapters := A2) a }.

Context {M1 : WorldModel V1} {M2 : WorldModel V2}.

#[export] Instance pair_model : WorldModel (V1 * V2).
Proof.
  refine {| w_ok v := w_ok v.1 ∧ w_ok v.2; w_evolves v v' := w_evolves v.1 v'.1 ∧ w_evolves v.2 v'.2 |}.
  - split; [intros v; by split|]. intros v1 v2 v3 [] []. split; by etrans.
  - intros v v' [] []. split; by eapply w_ok_evolves.
Defined.

#[export] Instance pair_lookup_spec {A2 : L2Adapters V1 Ad K Obj Layout TaskId} {SP : L2AdaptersSpec V1 Ad K Obj Layout TaskId}
  : L2AdaptersSpec (V1 * V2) Ad K Obj Layout TaskId.
Proof.
  refine {| w_lookup_task v := w_lookup_task v.1; w_load_task v := w_load_task v.1 |}.
  - intros v v' a t n Ht [He _]. by eapply w_lookup_task_evolves.
  - intros v v' a t n Ht [He _]. by eapply w_load_task_evolves.
  - intros v a keys layouts [Hw _]. cbn. pose proof (submit_lookup_spec v.1 a keys layouts Hw) as Hs.
    destruct (submit_lookup_and_lock_task _ _ _ _). by destruct Hs.
  - intros v a t n [Hw _] Ht. cbn. pose proof (query_lookup_spec v.1 a t n Hw Ht) as Hs.
    destruct (query_lookup_and_lock_result _ _ _). by destruct Hs.
  - intros v a keys [Hw _]. cbn. split; [by apply submit_unlock_spec|done].
  - intros v a keys objs [Hw _]. cbn. pose proof (submit_load_spec v.1 a keys objs Hw) as Hs.
    destruct (submit_load_task _ _ _ _). by destruct Hs.
  - intros v a t n [Hw _] Ht. cbn. pose proof (query_load_spec v.1 a t n Hw Ht) as Hs.
    destruct (query_load_result _ _ _). by destruct Hs.
Defined.

#[export] Instance pair_store_spec {A2 : L2StoreAdapters V2 Ad K Obj TaskId} {SP : L2StoreSpec V2 Ad K Obj TaskId}
  : L2StoreSpec (V1 * V2) Ad K Obj TaskId.
Proof.
  refine {| w_store_issued v := w_store_issued v.2 |}.
  - intros v v' a t Ht [_ He]. by eapply w_store_issued_evolves.
  - intros v a keys objs [_ Hw] Hlen. cbn. pose proof (submit_store_spec v.2 a keys objs Hw Hlen) as Hs.
    destruct (submit_store_task _ _ _ _). destruct Hs as (? & ? & ?). by split_and!.
  - intros v a [_ Hw]. cbn. pose proof (pop_completed_spec v.2 a Hw) as Hs.
    destruct (pop_completed_store_tasks _ _). by destruct Hs.
Defined.
End pair.

Module StorageSystemDemo.
Import PrefetchDemo.
#[local] Existing Instance StoreDemo.service_adapters.
#[local] Existing Instance StoreDemo.service_model.
#[local] Existing Instance StoreDemo.service_spec.

Abbreviation DemoWorld :=
  (L1World (K := nat) (M := World ListSortedList.t unit) (Obj := nat) (Sv := (PrefetchDemo.Store * StoreDemo.Service)%type)).
Abbreviation Sys := (System DemoWorld Z nat nat Layout nat unit unit).

#[export] Instance demo_management : L2Management DemoWorld Z unit := {
  get_usage _ a := if a =? 7 then Raise RuntimeError else Ok (mkUsage 10 (100 * (a + 1)) []);
  register_listener w _ _ := w;
  close_adapter w _ := w;
  supports_global_eviction _ := true }.
#[export] Instance demo_management_spec : L2ManagementSpec DemoWorld Z unit.
Proof. split; done. Defined.

Definition name_of (_ : unit) : string := "mock".
Definition shared_of (_ : unit) : bool := false.
Definition eviction_of (_ : unit) : option string := Some "LRU"%string.

Definition world0 : DemoWorld :=
  mkL1World Demo.cache0 5 (mkStore [0; 1; 2]%nat [], StoreDemo.mkService 0 []).

Abbreviation steps := (sys_step name_of shared_of eviction_of [("dram"%string, 1000)] group_of RetainPrefetchPolicy 8 0
  StoreDemo.model_of StoreDemo.rank_of StoreDemo.salt_of id BufferOnlyStorePolicy 1 (Listener := unit)).
Abbreviation reached := (sys_reachable name_of shared_of eviction_of [("dram"%string, 1000)] group_of RetainPrefetchPolicy 8 0
  StoreDemo.model_of StoreDemo.rank_of StoreDemo.salt_of id BufferOnlyStorePolicy 1 (Listener := unit)).

Definition store_turn (s : Sys) : Sys :=
  set_store (store_iteration StoreDemo.model_of StoreDemo.rank_of StoreDemo.salt_of id BufferOnlyStorePolicy 1 [] (sy_store_controller s)).2 s.
Definition prefetch_turn (s : Sys) : Sys :=
  set_prefetch (prefetch_iteration group_of true RetainPrefetchPolicy 8 0 [0] (sy_prefetch_controller s)).2 s.
Definition resume (s : Sys) : option (result Z) * Sys :=
  lifecycle_resume name_of shared_of eviction_of [("dram"%string, 1000)] false s.

Definition started : result Sys := init_system eviction_of world0 [(tt, 0)].
Definition system0 : Sys :=
  match started with Ok s => s | Raise _ =>
    mkSystem (mkStorageManager (mkController world0 [] [] (mkTables [] [] [] [] [] []) [] [] [] [] 0 [] [] (mkCounts 0 0 0 0)) [] [] [])
      (mkStoreController world0 [] [] [] [] [] [] [] [] [] 0) [] 0 [] [] [] 0 Idle [] end.
Definition looking_up : Sys := set_manager (submit_prefetch_task true (spec LOOKUP) "req" false 7 (sy_manager system0)).2 system0.
Definition adding : Sys := (add_l2_adapter tt (Ok (5, sy_world looking_up)) looking_up).2.
Definition half_added : Sys := (resume (store_turn adding)).2.
Definition attached : Sys := prefetch_turn half_added.
Definition deleting : Sys := (delete_l2_adapter 1 (resume attached).2).2.
(** the request in flight has asked both adapters: it has to finish first *)
Definition answer (s : Sys) : Sys :=
  set_prefetch (prefetch_iteration group_of true RetainPrefetchPolicy 8 0 [0; 1; 2; 11; 12] (sy_prefetch_controller s)).2 s.
Definition drained : Sys := (resume (store_turn (answer (answer deleting)))).2.
Definition closed : Sys := (resume drained).2.

Example adapter_comes_and_goes :
  (resume attached).1 = Some (Ok 1) ∧ length (sy_eviction_states (resume attached).2) = 2%nat ∧
  (resume drained).1 = Some (Ok 1) ∧ sy_closed closed = [(1, 5)] ∧ sy_l2_adapters closed = [(0, 0)] ∧
  length (sy_capacity_events closed) = 2%nat.
Proof. vm_compute. done. Qed.

Lemma system_world_ok : w_ok world0.
Proof.
  split; [|by split]. split; [apply l1_init_lock_inv; lia|]. apply l1_init_mem_inv.
  - split; [exact demo_world_ok|constructor].
  - intros o (x & Hx & _). discriminate Hx.
Qed.

Lemma system0_reached : reached system0.
Proof.
  apply (sys_reach_init _ _ _ _ _ _ _ _ _ _ _ _ _ _ world0 [(tt, 0)]); [exact system_world_ok| | |reflexivity];
    apply (bool_decide_unpack _); vm_compute; exact I.
Qed.

Lemma store_turn_step s : steps s (store_turn s).
Proof. apply sys_store. Qed.
Lemma prefetch_turn_step s : steps s (prefetch_turn s).
Proof. apply sys_prefetch. Qed.
Lemma answer_step s : steps s (answer s).
Proof. apply sys_prefetch. Qed.
Lemma resume_step s : steps s (resume s).2.
Proof. apply sys_resume. Qed.
Lemma lookup_step s : steps s (set_manager (submit_prefetch_task true (spec LOOKUP) "req" false 7 (sy_manager s)).2 s).
Proof. apply sys_lookup; [by destruct (spec_is_ok LOOKUP)|vm_compute; reflexivity]. Qed.
Lemma add_step s : sy_lifecycle s = Idle → sy_l2_adapters s = [(0, 0)] → steps s (add_l2_adapter tt (Ok (5, sy_world s)) s).2.
Proof.
  intros Hl Ha. apply sys_add; [done|]. intros ad w [= <- <-]. split; [reflexivity|]. rewrite Ha.
  split; [split_and!; [done|done|done|]|split; [done|]]; intros a ad; cbn; destruct (decide (0 = a)); try done; intros [= <-]; cbn; lia.
Qed.

Lemma delete_step s : sy_lifecycle s = Idle → steps s (delete_l2_adapter 1 s).2.
Proof. apply sys_delete. Qed.

Lemma to_attached : rtc steps system0 attached.
Proof.
  unfold attached, half_added, adding. eapply rtc_r; [|apply prefetch_turn_step]. eapply rtc_r; [|apply resume_step].
  eapply rtc_r; [|apply store_turn_step]. eapply rtc_r; [|apply add_step; vm_compute; reflexivity].
  apply rtc_once, lookup_step.
Qed.

Lemma to_drained : rtc steps attached drained.
Proof.
  unfold drained, deleting. eapply rtc_r; [|apply resume_step]. eapply rtc_r; [|apply store_turn_step].
  do 2 (eapply rtc_r; [|apply answer_step]). eapply rtc_r; [|apply delete_step; vm_compute; reflexivity].
  apply rtc_once, resume_step.
Qed.

Lemma run_reached s s' : reached s → rtc steps s s' → reached s'.
Proof. intros Hs Hr. induction Hr as [|s s1 s' H1 _ IH]; [done|]. apply IH. by eapply sys_reach_step. Qed.

Lemma drained_reached : reached drained.
Proof. eapply run_reached; [exact system0_reached|]. etrans; [exact to_attached|exact to_drained]. Qed.


Lemma system_refines_controllers_witness :
  pc_in_flight (sy_prefetch_controller attached) = [0] ∧
  reachable group_of RetainPrefetchPolicy 8 0 (sy_prefetch_controller attached) ∧
  ss_world (sy_store_controller attached) = pc_world (sy_prefetch_controller attached).
Proof.
  split; [vm_compute; reflexivity|].
  destruct (system_refines_controllers name_of shared_of eviction_of [("dram"%string, 1000)] group_of RetainPrefetchPolicy 8 0
    StoreDemo.model_of StoreDemo.rank_of StoreDemo.salt_of id BufferOnlyStorePolicy 1 StoreDemo.id_perm
    system0 attached system0_reached to_attached) as (H1 & _ & _ & _ & H2).
  split; [exact H1|exact H2].
Defined.


Lemma lifecycle_outcome_witness : ∃ s', resume drained = (Some (Ok 1), s') ∧ unused 1 s'.
Proof.
  assert ((resume drained).1 = Some (Ok 1)) as E by (vm_compute; reflexivity).
  assert (sy_lifecycle drained = DrainingPrefetch 1 2 3) as El by (vm_compute; reflexivity).
  generalize drained_reached El E. generalize drained as d. intros d Hd Ed. destruct (resume d) as [r s'] eqn:Er. cbn [fst].
  intros ->. exists s'. split; [reflexivity|].
  pose proof (lifecycle_outcome name_of shared_of eviction_of [("dram"%string, 1000)] group_of RetainPrefetchPolicy 8 0
    StoreDemo.model_of StoreDemo.rank_of StoreDemo.salt_of id BufferOnlyStorePolicy 1 StoreDemo.id_perm
    false d (Ok 1) s' Hd Er) as [_ H].
  rewrite Ed in H. exact (proj1 (proj2 H)).
Defined.
End StorageSystemDemo.
