(* ===== verification/ObjectKey.v ===== *)
(** * Object keys and their serialised forms

    [ObjectKey] of [distributed/api.py] with its validation, the JSON-safe
    [EncodedObjectKey], the capture tuple of
    [mp_coordinator/utils/encoding.py], the wire name of
    [l2_adapters/native_connector_l2_adapter.py] parsed back by
    [l2_adapters/s3_l2_adapter.py], and the file name of
    [l2_adapters/fs_l2_adapter.py].

    A [str] is its list of code points. [int(s, 16)] and [bytes.fromhex] are
    modelled on ASCII: a code point above 127 is neither a digit nor a space. *)

From Stdlib Require Import Strings.Byte Strings.Ascii.
From S2P Require Import Prelude BatchBlob.
Import Struct.

Open Scope Z_scope.

Definition str := list Z.
Definition lit (s : string) : str :=
  (fun a => Z.of_nat (nat_of_ascii a)) <$> String.list_ascii_of_string s.

(** ** Hexadecimal *)

Definition hex_digit (d : Z) : Z := if d <? 10 then 48 + d else 87 + d.
Definition hex_value (c : Z) : option Z :=
  if (48 <=? c) && (c <=? 57) then Some (c - 48)
  else if (97 <=? c) && (c <=? 102) then Some (c - 87)
  else if (65 <=? c) && (c <=? 70) then Some (c - 55)
  else None.

(** [bytes.hex()] *)
Definition byte_hex (b : byte) : str :=
  [hex_digit (Z_of_byte b / 16); hex_digit (Z_of_byte b mod 16)].
Definition bytes_hex (l : list byte) : str := concat (byte_hex <$> l).

(** ASCII white space: [bytes.fromhex] skips the first set, [int] strips both *)
Definition is_space (c : Z) : bool := (c =? 32) || ((9 <=? c) && (c <=? 13)).
Definition is_int_space (c : Z) : bool := is_space c || ((28 <=? c) && (c <=? 31)).

(** [bytes.fromhex]; every round consumes a character, so the length is fuel *)
Fixpoint fromhex_loop (fuel : nat) (s : str) : option (list byte) :=
  match fuel with
  | O => Some []
  | S fuel =>
      match s with
      | [] => Some []
      | c :: s' =>
          if is_space c then fromhex_loop fuel s'
          else match s' with
               | [] => None
               | d :: s'' =>
                   match hex_value c, hex_value d with
                   | Some hi, Some lo =>
                       (fun l => byte_of_Z (16 * hi + lo) :: l) <$> fromhex_loop fuel s''
                   | _, _ => None
                   end
               end
      end
  end.
Definition bytes_fromhex (s : str) : result (list byte) :=
  match fromhex_loop (length s) s with Some l => Ok l | None => Raise ValueError end.

(** the digits of [format(n, "x")] for [0 <= n] *)
Fixpoint hex_digits (fuel : nat) (n : Z) : str :=
  match fuel with
  | O => [hex_digit (n mod 16)]
  | S fuel =>
      if n <? 16 then [hex_digit n] else hex_digits fuel (n / 16) ++ [hex_digit (n mod 16)]
  end.
Definition to_hex (n : Z) : str := hex_digits (Z.to_nat (Z.log2 n)) n.

(** [format(x, "0<width>x")], with ["#"] when [alt]; the width counts the sign
    and the prefix *)
Definition format_hex (alt : bool) (width : nat) (x : Z) : str :=
  let sign := if x <? 0 then lit "-" else [] in
  let prefix := if alt then lit "0x" else [] in
  let digits := to_hex (Z.abs x) in
  sign ++ prefix ++ replicate (width - (length sign + length prefix + length digits)) 48 ++ digits.

(** [int(s, 16)]: digits with single underscores between them; [gap] says
    that no digit precedes directly *)
Fixpoint parse_digits (acc : Z) (gap : bool) (s : str) : option Z :=
  match s with
  | [] => if gap then None else Some acc
  | c :: s =>
      if c =? 95 then (if gap then None else parse_digits acc true s)
      else match hex_value c with
           | Some v => parse_digits (16 * acc + v) false s
           | None => None
           end
  end.

Fixpoint lstrip (s : str) : str :=
  match s with
  | c :: s' => if is_int_space c then lstrip s' else s
  | [] => []
  end.
Definition strip (s : str) : str := rev (lstrip (rev (lstrip s))).

(** after the optional sign: an optional [0x], which one underscore may follow *)
Definition parse_prefixed (s : str) : option Z :=
  match s with
  | c :: s' => if c =? 95 then parse_digits 0 true s' else parse_digits 0 true s
  | [] => None
  end.
Definition parse_unsigned (s : str) : option Z :=
  match s with
  | z :: x :: s' =>
      if (z =? 48) && ((x =? 120) || (x =? 88)) then parse_prefixed s' else parse_digits 0 true s
  | _ => parse_digits 0 true s
  end.

Definition int16 (s : str) : result Z :=
  let r := match strip s with
           | c :: s' =>
               if c =? 45 then Z.opp <$> parse_unsigned s'
               else if c =? 43 then parse_unsigned s'
               else parse_unsigned (c :: s')
           | [] => None
           end in
  match r with Some z => Ok z | None => Raise ValueError end.

(** ** Strings *)

(** [s.split(sep)] for a one-character separator *)
Fixpoint split_on (sep : Z) (s : str) : list str :=
  match s with
  | [] => [[]]
  | c :: s =>
      if c =? sep then [] :: split_on sep s
      else match split_on sep s with
           | h :: t => (c :: h) :: t
           | [] => [[c]]
           end
  end.

Fixpoint is_prefix (p s : str) : bool :=
  match p, s with
  | [], _ => true
  | a :: p, b :: s => (a =? b) && is_prefix p s
  | _, [] => false
  end.

(** [s.replace(old, new)], leftmost and not overlapping, for non-empty [old] *)
Fixpoint replace_loop (fuel : nat) (old new s : str) : str :=
  match fuel with
  | O => s
  | S fuel =>
      match s with
      | [] => []
      | c :: s' =>
          if is_prefix old s then new ++ replace_loop fuel old new (drop (length old) s)
          else c :: replace_loop fuel old new s'
      end
  end.
Definition py_replace (old new s : str) : str := replace_loop (length s) old new s.

(** [s.endswith(suffix)] *)
Definition endswith (suffix s : str) : bool :=
  (length suffix <=? length s)%nat && bool_decide (drop (length s - length suffix) s = suffix).

(** ** The key *)

Record ObjectKey := MkObjectKey {
  chunk_hash : list byte;
  model_name : str;
  kv_rank : Z;
  object_group_id : Z;
  cache_salt : str }.

Definition _SALT_FORBIDDEN_CHARS : str := [64; 47; 92; 0].
Definition _SALT_MAX_LEN : nat := 128.

Definition post_init (k : ObjectKey) : result unit :=
  (guard negb (bool_decide (64 ∈ model_name k)) else ValueError;
   guard negb (object_group_id k <? 0) else ValueError;
   guard forallb (fun c => negb (bool_decide (c ∈ _SALT_FORBIDDEN_CHARS))) (cache_salt k) else ValueError;
   guard (length (cache_salt k) <=? _SALT_MAX_LEN)%nat else ValueError;
   Ok tt)%py.

(** [ObjectKey(...)] *)
Definition new_object_key (chunk_hash : list byte) (model_name : str) (kv_rank object_group_id : Z)
    (cache_salt : str) : result ObjectKey :=
  let k := MkObjectKey chunk_hash model_name kv_rank object_group_id cache_salt in
  (_ <-? post_init k; Ok k)%py.

Definition ComputeKVRank (world_size global_rank local_world_size local_rank : Z) : Z :=
  Z.lor (Z.lor (Z.lor (Z.shiftl world_size 24) (Z.shiftl global_rank 16))
               (Z.shiftl local_world_size 8)) local_rank.

Record EncodedObjectKey := {
  ek_chunk_hash_hex : str;
  ek_model_name : str;
  ek_kv_rank : Z;
  ek_object_group_id : Z;
  ek_cache_salt : str }.

Definition to_encoded_object_key (k : ObjectKey) : EncodedObjectKey :=
  {| ek_chunk_hash_hex := bytes_hex (chunk_hash k); ek_model_name := model_name k;
     ek_kv_rank := kv_rank k; ek_object_group_id := object_group_id k;
     ek_cache_salt := cache_salt k |}.

Definition to_object_key (e : EncodedObjectKey) : result ObjectKey :=
  (h <-? bytes_fromhex (ek_chunk_hash_hex e);
   new_object_key h (ek_model_name e) (ek_kv_rank e) (ek_object_group_id e) (ek_cache_salt e))%py.

(** the capture tuple *)
Definition EncodedKey : Type := list byte * str * Z * Z * str.
Definition encode_key (k : ObjectKey) : EncodedKey :=
  (chunk_hash k, model_name k, kv_rank k, object_group_id k, cache_salt k).
Definition decode_key (e : EncodedKey) : result ObjectKey :=
  let '(h, m, r, g, s) := e in new_object_key h m r g s.

Definition _KEY_SEP : Z := 64.

(** ** The wire name *)

Definition _object_key_to_string (k : ObjectKey) : str :=
  let base := model_name k ++ [_KEY_SEP] ++ format_hex false 8 (kv_rank k)
              ++ [_KEY_SEP] ++ format_hex false 0 (object_group_id k)
              ++ [_KEY_SEP] ++ bytes_hex (chunk_hash k) in
  match cache_salt k with [] => base | salt => base ++ [_KEY_SEP] ++ salt end.

Definition _string_to_object_key (name : str) : result ObjectKey :=
  let finish model_name kv_rank_hex object_group_id_hex chunk_hash_hex cache_salt :=
    (kv_rank <-? int16 kv_rank_hex;
     object_group_id <-? int16 object_group_id_hex;
     chunk_hash <-? bytes_fromhex chunk_hash_hex;
     new_object_key chunk_hash model_name kv_rank object_group_id cache_salt)%py in
  match split_on _KEY_SEP name with
  | [m; r; g; h] => finish m r g h []
  | [m; r; g; h; s] => finish m r g h s
  | _ => Raise ValueError
  end.

(** ** The file name *)

Definition _PATH_SLASH_REPLACEMENT : str := lit "-SEP-".
Definition _FILE_EXT : str := lit ".data".

Definition _object_key_to_filename (k : ObjectKey) : str :=
  let safe_model := py_replace [47] _PATH_SLASH_REPLACEMENT (model_name k) in
  let base := safe_model ++ [_KEY_SEP] ++ format_hex true 10 (kv_rank k)
              ++ [_KEY_SEP] ++ format_hex false 0 (object_group_id k)
              ++ [_KEY_SEP] ++ bytes_hex (chunk_hash k) in
  match cache_salt k with
  | [] => base ++ _FILE_EXT
  | salt => base ++ [_KEY_SEP] ++ salt ++ _FILE_EXT
  end.

Definition _filename_to_object_key (filename : str) : option ObjectKey :=
  if negb (endswith _FILE_EXT filename) then None
  else
    let stem := take (length filename - length _FILE_EXT) filename in
    let finish safe_model kv_rank_str object_group_str chunk_hash_hex cache_salt :=
      let model_name := py_replace _PATH_SLASH_REPLACEMENT [47] safe_model in
      let r := (chunk_hash <-? bytes_fromhex chunk_hash_hex;
                kv_rank <-? int16 kv_rank_str;
                object_group_id <-? int16 object_group_str;
                new_object_key chunk_hash model_name kv_rank object_group_id cache_salt)%py in
      match r with Ok k => Some k | Raise _ => None end in
    match split_on _KEY_SEP stem with
    | [m; r; g; h] => finish m r g h []
    | [m; r; g; h; s] => finish m r g h s
    | _ => None
    end.

Definition demo_key : ObjectKey :=
  MkObjectKey [xde; xad; x0f] (lit "org/model-7B") (ComputeKVRank 8 5 4 1) 10 (lit "tenant").
Example demo_wire : _object_key_to_string demo_key = lit "org/model-7B@08050401@a@dead0f@tenant".
Proof. reflexivity. Qed.
Example demo_filename :
  _object_key_to_filename demo_key = lit "org-SEP-model-7B@0x08050401@a@dead0f@tenant.data".
Proof. reflexivity. Qed.
Example demo_parse : int16 (lit "  -0x_1F ") = Ok (-31) ∧ int16 (lit "1__0") = Raise ValueError.
Proof. split; reflexivity. Qed.

(** ** Hexadecimal round trips *)

Definition is_hexc (c : Z) : Prop := ∃ v, 0 <= v < 16 ∧ c = hex_digit v.

Lemma hex_value_digit d : 0 <= d < 16 → hex_value (hex_digit d) = Some d.
Proof. intros. unfold hex_digit, hex_value. zcases; f_equal; lia. Qed.

Lemma hex_digit_range d : 0 <= d < 16 → 48 <= hex_digit d <= 57 ∨ 97 <= hex_digit d <= 102.
Proof. intros. unfold hex_digit. zcases. Qed.

Lemma is_hexc_range c : is_hexc c → 48 <= c <= 57 ∨ 97 <= c <= 102.
Proof. intros (v & ? & ->). by apply hex_digit_range. Qed.

Lemma byte_of_Z_of_byte b : byte_of_Z (Z_of_byte b) = b.
Proof. unfold byte_of_Z, Z_of_byte. by rewrite N2Z.id, Byte.of_to_N. Qed.

Lemma byte_hex_parts b :
  0 <= Z_of_byte b / 16 < 16 ∧ 0 <= Z_of_byte b mod 16 < 16 ∧
  16 * (Z_of_byte b / 16) + Z_of_byte b mod 16 = Z_of_byte b.
Proof.
  pose proof (Z_of_byte_range b). pose proof (Z.mod_pos_bound (Z_of_byte b) 16 ltac:(lia)).
  pose proof (Z.div_mod (Z_of_byte b) 16 ltac:(lia)). lia.
Qed.

Lemma fromhex_loop_hex l : ∀ fuel,
  (length (bytes_hex l) <= fuel)%nat → fromhex_loop fuel (bytes_hex l) = Some l.
Proof.
  induction l as [|b l IH]; intros fuel Hf; [by destruct fuel|].
  unfold bytes_hex in *. rewrite fmap_cons in *. cbn [concat byte_hex app length] in *.
  destruct fuel as [|fuel]; [lia|]. cbn [fromhex_loop].
  destruct (byte_hex_parts b) as (H1 & H2 & H3).
  assert (is_space (hex_digit (Z_of_byte b / 16)) = false) as ->.
  { pose proof (hex_digit_range _ H1). unfold is_space. lia. }
  rewrite !hex_value_digit by done. rewrite IH by lia. simpl. by rewrite H3, byte_of_Z_of_byte.
Qed.

Lemma fromhex_hex l : bytes_fromhex (bytes_hex l) = Ok l.
Proof. unfold bytes_fromhex. by rewrite fromhex_loop_hex. Qed.

Lemma bytes_hex_chars l : Forall is_hexc (bytes_hex l).
Proof.
  unfold bytes_hex. apply Forall_concat, Forall_fmap, Forall_true. intros b.
  destruct (byte_hex_parts b) as (H1 & H2 & _).
  repeat constructor; [by exists (Z_of_byte b / 16) | by exists (Z_of_byte b mod 16)].
Qed.

Definition hex_fold (acc : Z) (s : str) : Z := foldl (λ a c, 16 * a + default 0 (hex_value c)) acc s.

Lemma parse_digits_hex s : ∀ acc gap,
  Forall is_hexc s → (gap = true → s ≠ []) → parse_digits acc gap s = Some (hex_fold acc s).
Proof.
  induction s as [|c s IH]; intros acc gap Hf Hg; cbn [parse_digits hex_fold foldl].
  - destruct gap; [by destruct (Hg eq_refl)|done].
  - apply Forall_cons in Hf as [Hc Hf]. pose proof (is_hexc_range c Hc).
    destruct (Z.eqb_spec c 95); [lia|]. destruct Hc as (v & Hv & ->).
    rewrite hex_value_digit by done. rewrite IH; done.
Qed.

Lemma hex_fold_digits fuel : ∀ n, 0 <= n < 16 ^ (Z.of_nat fuel + 1) → hex_fold 0 (hex_digits fuel n) = n.
Proof.
  induction fuel as [|fuel IH]; intros n Hn; cbn [hex_digits].
  - simpl in Hn. rewrite Z.mod_small by lia. unfold hex_fold. cbn [foldl].
    rewrite hex_value_digit by lia. simpl. lia.
  - destruct (Z.ltb_spec n 16).
    + unfold hex_fold. cbn [foldl]. rewrite hex_value_digit by lia. simpl. lia.
    + unfold hex_fold in *. rewrite foldl_app. cbn [foldl].
      pose proof (Z.mod_pos_bound n 16 ltac:(lia)). pose proof (Z.div_mod n 16 ltac:(lia)).
      rewrite hex_value_digit by done. rewrite IH; [simpl; lia|]. split; [apply Z.div_pos; lia|].
      apply Z.div_lt_upper_bound; [lia|]. rewrite <- Z.pow_succ_r by lia.
      replace (Z.succ (Z.of_nat fuel + 1)) with (Z.of_nat (S fuel) + 1) by lia. lia.
Qed.

Lemma hex_digits_chars fuel : ∀ n, 0 <= n → Forall is_hexc (hex_digits fuel n) ∧ hex_digits fuel n ≠ [].
Proof.
  assert (Hmod : ∀ n, is_hexc (hex_digit (n mod 16))).
  { intros n. exists (n mod 16). split; [apply Z.mod_pos_bound; lia|done]. }
  induction fuel as [|fuel IH]; intros n Hn; cbn [hex_digits].
  - split; [by repeat constructor|done].
  - destruct (Z.ltb_spec n 16).
    + split; [|done]. repeat constructor. exists n. split; [lia|done].
    + destruct (IH (n / 16)) as [? ?]; [apply Z.div_pos; lia|]. split.
      * apply Forall_app. split; [done|by repeat constructor].
      * by destruct (hex_digits fuel (n / 16)).
Qed.

Lemma to_hex_fold n : 0 <= n → hex_fold 0 (to_hex n) = n.
Proof.
  intros Hn. apply hex_fold_digits. split; [done|]. pose proof (Z.log2_nonneg n).
  rewrite Z2Nat.id by done. destruct (decide (n = 0)) as [->|]; [done|].
  pose proof (Z.log2_spec n ltac:(lia)) as [_ Hlt].
  eapply Z.lt_le_trans; [exact Hlt|]. rewrite Z.add_1_r. apply Z.pow_le_mono_l. lia.
Qed.

Lemma strip_id s : Forall (λ c, is_int_space c = false) s → strip s = s.
Proof.
  assert (Hl : ∀ s, Forall (λ c, is_int_space c = false) s → lstrip s = s).
  { intros [|c s'] Hf; [done|]. apply Forall_cons in Hf as [Hc _]. simpl. by rewrite Hc. }
  intros Hf. unfold strip. rewrite (Hl s Hf), Hl; [apply rev_involutive|].
  rewrite Forall_forall in *. intros c Hc. apply Hf.
  apply list_elem_of_In, in_rev. by apply list_elem_of_In.
Qed.

(** [int(format(x, spec), 16) == x] for every integer, padded or not *)
Lemma int16_format_hex alt width x : int16 (format_hex alt width x) = Ok x.
Proof.
  unfold format_hex. cbv zeta.
  match goal with |- context [if alt then ?a else ?b] => set (prefix := if alt then a else b) end.
  set (body := replicate _ 48 ++ to_hex (Z.abs x)).
  destruct (hex_digits_chars (Z.to_nat (Z.log2 (Z.abs x))) (Z.abs x) ltac:(lia)) as [Hd Hne].
  fold (to_hex (Z.abs x)) in Hd, Hne.
  assert (Hb : Forall is_hexc body).
  { apply Forall_app. split; [|done]. apply Forall_replicate. by exists 0. }
  assert (Hbne : body ≠ []) by (intros E; apply app_eq_nil in E as [_ E]; done).
  assert (Hval : hex_fold 0 body = Z.abs x).
  { unfold body, hex_fold. rewrite foldl_app. 
    assert (∀ k, foldl (λ a c, 16 * a + default 0 (hex_value c)) 0 (replicate k 48) = 0) as ->.
    { induction k; [done|]. cbn [replicate foldl]. done. }
    apply to_hex_fold. lia. }
  clearbody body. clear Hd Hne.
  assert (Hpu : parse_unsigned (prefix ++ body) = Some (Z.abs x)).
  { unfold prefix. destruct alt.
    - change (lit "0x") with [48; 120]. cbn [app parse_unsigned].
      change ((48 =? 48) && ((120 =? 120) || (120 =? 88))) with true. cbn iota.
      destruct body as [|c body]; [done|]. unfold parse_prefixed.
      apply Forall_cons in Hb as Hb'. destruct Hb' as [Hc _]. pose proof (is_hexc_range c Hc).
      destruct (Z.eqb_spec c 95); [lia|]. rewrite parse_digits_hex, Hval by done. done.
    - cbn [app]. assert (parse_unsigned body = parse_digits 0 true body) as ->.
      { destruct body as [|c [|d body]]; [done..|]. unfold parse_unsigned.
        apply Forall_cons in Hb as [_ Hb]. apply Forall_cons in Hb as [Hd _].
        pose proof (is_hexc_range d Hd). destruct (Z.eqb_spec d 120), (Z.eqb_spec d 88); try lia.
        by rewrite andb_false_r. }
      by rewrite parse_digits_hex, Hval. }
  set (rest := prefix ++ body) in *.
  assert (Hrest : ∃ c r, rest = c :: r ∧ 48 <= c ∧ Forall (λ c, is_int_space c = false) rest).
  { assert (Hsp : Forall (λ c, is_int_space c = false) body).
    { eapply Forall_impl; [exact Hb|]. intros c Hc%is_hexc_range. unfold is_int_space, is_space. lia. }
    unfold rest, prefix. destruct alt.
    - change (lit "0x") with [48; 120]. eexists _, _. split; [done|]. split; [lia|].
      by repeat constructor.
    - destruct body as [|c body]; [done|]. exists c, body. split; [done|]. split; [|done].
      apply Forall_cons in Hb as [Hc _]. apply is_hexc_range in Hc. lia. }
  destruct Hrest as (c & r & Er & Hc & Hsp). unfold int16.
  destruct (Z.ltb_spec x 0).
  - assert (lit "-" = [45]) as -> by done.
    rewrite strip_id by (by constructor). cbn [app].
    change (45 =? 45) with true. cbn iota. rewrite Hpu. simpl. f_equal. lia.
  - rewrite app_nil_l, strip_id by done. rewrite Er in Hpu |- *.
    destruct (Z.eqb_spec c 45), (Z.eqb_spec c 43); [lia..|]. rewrite Hpu. f_equal. lia.
Qed.

(** ** Splitting and replacing *)

Lemma split_on_app sep p s : sep ∉ p → split_on sep (p ++ sep :: s) = p :: split_on sep s.
Proof.
  induction p as [|c p IH]; intros Hn; cbn [app split_on].
  - by rewrite Z.eqb_refl.
  - rewrite not_elem_of_cons in Hn. destruct Hn as [Hc Hn].
    destruct (Z.eqb_spec c sep); [congruence|]. by rewrite IH.
Qed.

Lemma split_on_last sep p : sep ∉ p → split_on sep p = [p].
Proof.
  induction p as [|c p IH]; intros Hn; cbn [split_on]; [done|].
  rewrite not_elem_of_cons in Hn. destruct Hn as [Hc Hn].
  destruct (Z.eqb_spec c sep); [congruence|]. by rewrite IH.
Qed.

(** [s.replace("/", "-SEP-")], character by character *)
Definition escape (s : str) : str :=
  concat ((λ c, if c =? 47 then _PATH_SLASH_REPLACEMENT else [c]) <$> s).

Lemma escape_cons c s :
  escape (c :: s) = (if c =? 47 then _PATH_SLASH_REPLACEMENT else [c]) ++ escape s.
Proof. done. Qed.

Lemma replace_slash s : py_replace [47] _PATH_SLASH_REPLACEMENT s = escape s.
Proof.
  unfold py_replace.
  assert (∀ fuel s, (length s <= fuel)%nat →
    replace_loop fuel [47] _PATH_SLASH_REPLACEMENT s = escape s) as H; [|by apply H].
  clear s. induction fuel as [|fuel IH]; intros [|c s] Hf; cbn [length] in Hf; [done|lia|done|].
  cbn [replace_loop is_prefix]. rewrite escape_cons, andb_true_r, Z.eqb_sym.
  change (drop (length [47]) (c :: s)) with s. destruct (c =? 47); rewrite (IH s) by lia; done.
Qed.

Lemma escape_elem c s : c ∈ escape s → c ∈ s ∨ c ∈ _PATH_SLASH_REPLACEMENT.
Proof.
  induction s as [|d s IH]; [intros H; by apply not_elem_of_nil in H|]. rewrite escape_cons, elem_of_app.
  intros [Hc|Hc].
  - destruct (d =? 47); [by right|]. apply list_elem_of_singleton in Hc as ->. left. left.
  - destruct (IH Hc); [left; by right|by right].
Qed.

Lemma escape_no_slash s : 47 ∉ escape s.
Proof.
  induction s as [|d s IH]; [apply not_elem_of_nil|]. rewrite escape_cons, elem_of_app.
  intros [Hc|Hc]; [|done]. destruct (Z.eqb_spec d 47).
  - change _PATH_SLASH_REPLACEMENT with [45; 83; 69; 80; 45] in Hc. set_solver.
  - apply list_elem_of_singleton in Hc. congruence.
Qed.

Lemma escape_id s : 47 ∉ s → escape s = s.
Proof.
  induction s as [|d s IH]; [done|]. rewrite not_elem_of_cons, escape_cons. intros [Hd Hs].
  destruct (Z.eqb_spec d 47); [congruence|]. by rewrite IH.
Qed.

(** [p] does not occur in [s] *)
Fixpoint absent (p s : str) : Prop :=
  is_prefix p s = false ∧ match s with [] => True | _ :: s => absent p s end.

(** a text without [-] and [/] at the front of an escaped string is in the string *)
Lemma is_prefix_escape p : ∀ s,
  Forall (λ c, c ≠ 45 ∧ c ≠ 47) p → is_prefix p (escape s) = true → is_prefix p s = true.
Proof.
  induction p as [|a p IH]; intros [|c s] Hf Hp; try done.
  apply Forall_cons in Hf as [[Ha Ha'] Hf]. rewrite escape_cons in Hp.
  destruct (Z.eqb_spec c 47) as [->|Hc].
  - change _PATH_SLASH_REPLACEMENT with [45; 83; 69; 80; 45] in Hp. cbn [app is_prefix] in Hp.
    apply andb_true_iff in Hp as [E%Z.eqb_eq _]. done.
  - cbn [app is_prefix] in Hp |- *. apply andb_true_iff in Hp as [-> Hp]. by apply IH.
Qed.

Lemma is_prefix_app_l p q s : is_prefix (p ++ q) s = true → is_prefix p s = true.
Proof.
  revert s. induction p as [|a p IH]; intros [|c s]; try done. cbn [app is_prefix].
  rewrite !andb_true_iff. intros [? ?]. auto.
Qed.

Lemma unescape_loop s : ∀ fuel, (length (escape s) <= fuel)%nat →
  absent (lit "-SEP") s → replace_loop fuel _PATH_SLASH_REPLACEMENT [47] (escape s) = s.
Proof.
  induction s as [|c s IH]; intros fuel Hf Ha; [by destruct fuel|].
  destruct Ha as [Hnp Ha]. rewrite escape_cons in Hf |- *.
  destruct (Z.eqb_spec c 47) as [->|Hc].
  - change _PATH_SLASH_REPLACEMENT with [45; 83; 69; 80; 45] in Hf |- *.
    cbn [app length] in Hf. destruct fuel as [|fuel]; [lia|]. cbn [app replace_loop].
    cbn [is_prefix Z.eqb Pos.eqb andb length drop]. cbn [app]. f_equal. apply IH; [lia|done].
  - cbn [app length] in Hf |- *. destruct fuel as [|fuel]; [lia|]. cbn [replace_loop].
    destruct (is_prefix _PATH_SLASH_REPLACEMENT (c :: escape s)) eqn:E.
    + exfalso. change _PATH_SLASH_REPLACEMENT with (45 :: [83; 69; 80] ++ [45]) in E.
      cbn [is_prefix] in E. apply andb_true_iff in E as [E1 E2].
      apply is_prefix_app_l, is_prefix_escape in E2; [|repeat constructor; lia].
      change (lit "-SEP") with (45 :: [83; 69; 80]) in Hnp. cbn [is_prefix] in Hnp.
      rewrite E1 in Hnp. change ([83; 69; 80]) with ([83] ++ [69; 80]) in E2, Hnp.
      cbn [app is_prefix] in E2, Hnp. rewrite E2 in Hnp. done.
    + f_equal. apply IH; [lia|done].
Qed.

Lemma unescape s : absent (lit "-SEP") s →
  py_replace _PATH_SLASH_REPLACEMENT [47] (escape s) = s.
Proof. intros. by apply unescape_loop. Qed.

(** ** No separator inside a field *)

Lemma hexc_no_sep s : Forall is_hexc s → 64 ∉ s.
Proof. rewrite Forall_forall. intros Hf Hin. apply Hf, is_hexc_range in Hin. lia. Qed.

Lemma bytes_hex_no_sep l : 64 ∉ bytes_hex l.
Proof. apply hexc_no_sep, bytes_hex_chars. Qed.

Lemma format_hex_no_sep alt width x : 64 ∉ format_hex alt width x.
Proof.
  unfold format_hex. cbv zeta.
  destruct (hex_digits_chars (Z.to_nat (Z.log2 (Z.abs x))) (Z.abs x) ltac:(lia)) as [Hd _].
  rewrite !elem_of_app. intros [H|[H|[H|H]]].
  - destruct (x <? 0); [apply list_elem_of_singleton in H; done | by apply not_elem_of_nil in H].
  - destruct alt; [|by apply not_elem_of_nil in H]. change (lit "0x") with [48; 120] in H. set_solver.
  - apply elem_of_replicate in H as [? _]. done.
  - by apply hexc_no_sep in H.
Qed.

Record valid_key (k : ObjectKey) : Prop := {
  vk_model : 64 ∉ model_name k;
  vk_group : 0 <= object_group_id k;
  vk_salt : Forall (λ c, c ∉ _SALT_FORBIDDEN_CHARS) (cache_salt k);
  vk_len : (length (cache_salt k) <= _SALT_MAX_LEN)%nat }.

Lemma post_init_iff k : match post_init k with Ok _ => valid_key k | Raise e => e = ValueError ∧ ¬ valid_key k end.
Proof.
  unfold post_init. case_bool_decide; cbn [negb]; [split; [done|intros []; done]|].
  destruct (Z.ltb_spec (object_group_id k) 0); cbn [negb]; [split; [done|intros []; lia]|].
  destruct (forallb _ _) eqn:E; cbn iota.
  - destruct (Nat.leb_spec (length (cache_salt k)) _SALT_MAX_LEN); cbn iota.
    + constructor; [done|done| |done]. apply Forall_forall. intros c Hc Hbad.
      rewrite forallb_forall in E. specialize (E c). rewrite <- list_elem_of_In in E.
      specialize (E Hc). rewrite bool_decide_true in E by done. done.
    + split; [done|]. intros []. lia.
  - split; [done|]. intros [_ _ Hs _]. apply not_true_iff_false in E. apply E.
    apply forallb_forall. intros c Hc%list_elem_of_In. rewrite Forall_forall in Hs.
    rewrite bool_decide_false; [done|auto].
Qed.

Lemma new_object_key_valid k :
  valid_key k →
  new_object_key (chunk_hash k) (model_name k) (kv_rank k) (object_group_id k) (cache_salt k) = Ok k.
Proof.
  intros Hv. unfold new_object_key. destruct k as [h m r g s]. cbn [chunk_hash model_name kv_rank object_group_id cache_salt].
  pose proof (post_init_iff (MkObjectKey h m r g s)) as H.
  destruct (post_init _); [done|]. by destruct H.
Qed.

Lemma salt_no_sep k : valid_key k → 64 ∉ cache_salt k.
Proof.
  intros [_ _ Hs _] Hin. rewrite Forall_forall in Hs. apply (Hs 64 Hin).
  unfold _SALT_FORBIDDEN_CHARS. set_solver.
Qed.

(** the fields of a name, split at the separators *)
Lemma split_fields m r g h salt :
  64 ∉ m → 64 ∉ r → 64 ∉ g → 64 ∉ h → 64 ∉ salt →
  split_on _KEY_SEP (m ++ [_KEY_SEP] ++ r ++ [_KEY_SEP] ++ g ++ [_KEY_SEP] ++ h) = [m; r; g; h] ∧
  split_on _KEY_SEP ((m ++ [_KEY_SEP] ++ r ++ [_KEY_SEP] ++ g ++ [_KEY_SEP] ++ h) ++ [_KEY_SEP] ++ salt)
  = [m; r; g; h; salt].
Proof.
  intros Hm Hr Hg Hh Hs. unfold _KEY_SEP. cbn [app]. split.
  - by rewrite !split_on_app, split_on_last.
  - rewrite <- app_assoc. cbn [app]. rewrite <- app_assoc. cbn [app]. rewrite <- app_assoc. cbn [app].
    by rewrite !split_on_app, split_on_last.
Qed.

Lemma filename_shape k :
  ∃ base, _object_key_to_filename k = base ++ _FILE_EXT ∧
    base = (let b := escape (model_name k) ++ [_KEY_SEP] ++ format_hex true 10 (kv_rank k)
              ++ [_KEY_SEP] ++ format_hex false 0 (object_group_id k)
              ++ [_KEY_SEP] ++ bytes_hex (chunk_hash k) in
            match cache_salt k with [] => b | salt => b ++ [_KEY_SEP] ++ salt end).
Proof.
  unfold _object_key_to_filename. rewrite replace_slash. eexists. split; [|reflexivity]. cbv zeta.
  destruct (cache_salt k); [done|]. by rewrite <- !app_assoc.
Qed.

Lemma file_ext_stem base :
  endswith _FILE_EXT (base ++ _FILE_EXT) = true ∧
  take (length (base ++ _FILE_EXT) - length _FILE_EXT) (base ++ _FILE_EXT) = base.
Proof.
  unfold endswith. rewrite length_app.
  replace (length base + length _FILE_EXT - length _FILE_EXT)%nat with (length base) by lia.
  rewrite drop_app_length, take_app_length, bool_decide_true by done. split; [|done].
  rewrite andb_true_r. apply Nat.leb_le. lia.
Qed.

Lemma escape_no_sep s : 64 ∉ s → 64 ∉ escape s.
Proof.
  intros Hs [?|Hc]%escape_elem; [done|].
  change _PATH_SLASH_REPLACEMENT with [45; 83; 69; 80; 45] in Hc. set_solver.
Qed.

(** Keys survive serialisation: for every key the constructor accepts,
    the JSON-safe form, the capture tuple and the wire name all decode back to
    the same key, with or without a salt and for every rank, so distinct keys
    have distinct wire names. *)
Theorem key_serialisations_roundtrip (k : ObjectKey) :
  post_init k = Ok tt →
  to_object_key (to_encoded_object_key k) = Ok k ∧
  decode_key (encode_key k) = Ok k ∧
  _string_to_object_key (_object_key_to_string k) = Ok k.
Proof.
  intros Hp. pose proof (post_init_iff k) as Hv. rewrite Hp in Hv. split_and!.
  - unfold to_object_key, to_encoded_object_key. cbn [ek_chunk_hash_hex]. rewrite fromhex_hex.
    by apply new_object_key_valid.
  - by apply new_object_key_valid.
  - unfold _string_to_object_key, _object_key_to_string. cbv zeta.
    destruct (split_fields (model_name k) (format_hex false 8 (kv_rank k))
      (format_hex false 0 (object_group_id k)) (bytes_hex (chunk_hash k)) (cache_salt k)) as [H4 H5];
      auto using format_hex_no_sep, bytes_hex_no_sep, salt_no_sep, vk_model.
    pose proof (new_object_key_valid k Hv) as Hnew.
    destruct (cache_salt k) as [|c salt] eqn:E; [rewrite H4 | rewrite H5];
      rewrite !int16_format_hex, fromhex_hex; exact Hnew.
Qed.

Lemma key_serialisations_witness :
  to_object_key (to_encoded_object_key demo_key) = Ok demo_key ∧
  decode_key (encode_key demo_key) = Ok demo_key ∧
  _string_to_object_key (_object_key_to_string demo_key) = Ok demo_key.
Proof. apply (key_serialisations_roundtrip demo_key). reflexivity. Defined.

(** File names are reversible for models whose name does not contain
    [-SEP]: the file system adapter recovers exactly the key it named the file
    after. *)
Theorem filename_roundtrip (k : ObjectKey) :
  post_init k = Ok tt → absent (lit "-SEP") (model_name k) →
  _filename_to_object_key (_object_key_to_filename k) = Some k.
Proof.
  intros Hp Ha. pose proof (post_init_iff k) as Hv. rewrite Hp in Hv.
  destruct (filename_shape k) as (base & -> & Hbase).
  unfold _filename_to_object_key. destruct (file_ext_stem base) as [-> ->]. cbn [negb].
  destruct (split_fields (escape (model_name k)) (format_hex true 10 (kv_rank k))
    (format_hex false 0 (object_group_id k)) (bytes_hex (chunk_hash k)) (cache_salt k)) as [H4 H5];
    auto using format_hex_no_sep, bytes_hex_no_sep, salt_no_sep, escape_no_sep, vk_model.
  pose proof (new_object_key_valid k Hv) as Hnew. rewrite Hbase. cbv zeta.
  destruct (cache_salt k) as [|c salt] eqn:E; [rewrite H4 | rewrite H5];
    rewrite fromhex_hex, !int16_format_hex; cbn [rbind]; rewrite unescape, Hnew; done.
Qed.

Lemma filename_roundtrip_witness :
  _filename_to_object_key (_object_key_to_filename demo_key) = Some demo_key.
Proof.
  apply (filename_roundtrip demo_key); [reflexivity|]. vm_compute. repeat split.
Defined.

(** File names are not injective: every key whose model name has a [/]
    shares its file name with a different valid key, the one whose model name
    spells the replacement out, although their wire names differ. *)
Theorem filename_collision (k : ObjectKey) :
  post_init k = Ok tt → 47 ∈ model_name k →
  ∃ k', k' ≠ k ∧ post_init k' = Ok tt ∧
        _object_key_to_filename k' = _object_key_to_filename k ∧
        _object_key_to_string k' ≠ _object_key_to_string k.
Proof.
  intros Hp Hslash. pose proof (post_init_iff k) as Hv. rewrite Hp in Hv.
  set (k' := MkObjectKey (chunk_hash k) (escape (model_name k)) (kv_rank k) (object_group_id k) (cache_salt k)).
  assert (Hne : escape (model_name k) ≠ model_name k).
  { intros E. apply (escape_no_slash (model_name k)). by rewrite E. }
  assert (Hv' : valid_key k').
  { destruct Hv. constructor; try done. by apply escape_no_sep. }
  exists k'. split_and!.
  - intros E. apply Hne. by rewrite <- E at 2.
  - pose proof (post_init_iff k') as H'. destruct (post_init k') as [[]|]; [done|]. by destruct H'.
  - unfold _object_key_to_filename. rewrite !replace_slash. cbn [k' model_name].
    by rewrite (escape_id (escape _)) by apply escape_no_slash.
  - intros E. apply Hne. 
    assert (∀ x y s1 s2 : str, 64 ∉ x → 64 ∉ y → x ++ 64 :: s1 = y ++ 64 :: s2 → x = y) as Hcut.
    { intros x y s1 s2 Hx Hy Es. apply (f_equal (split_on 64)) in Es.
      rewrite !split_on_app in Es by done. congruence. }
    unfold _object_key_to_string in E. cbn [k' model_name cache_salt chunk_hash kv_rank object_group_id] in E.
    destruct (cache_salt k); [|rewrite <- !app_assoc in E];
      eapply Hcut; [..|exact E| | |exact E]; auto using escape_no_sep, vk_model.
Qed.

Lemma filename_collision_witness :
  ∃ k', k' ≠ demo_key ∧ post_init k' = Ok tt ∧
        _object_key_to_filename k' = _object_key_to_filename demo_key ∧
        _object_key_to_string k' ≠ _object_key_to_string demo_key.
Proof.
  apply (filename_collision demo_key); [reflexivity|].
  apply list_elem_of_In. vm_compute. tauto.
Defined.
