(* ===== verification/Utf8.v ===== *)
(** * UTF-8

    [str.encode("utf-8")] and the strict [bytes.decode("utf-8")] of Python, on lists of
    code points and of bytes. *)

From Stdlib Require Import Strings.Byte.
From S2P Require Import Prelude BatchBlob ObjectKey.
Import Struct.

Open Scope Z_scope.

(** a Unicode scalar value: a code point that is not a surrogate *)
Definition is_high (c : Z) : bool := (0xD800 <=? c) && (c <=? 0xDBFF).
Definition is_low (c : Z) : bool := (0xDC00 <=? c) && (c <=? 0xDFFF).
Definition is_char (c : Z) : bool := (0 <=? c) && (c <? 0x110000) && negb (is_high c) && negb (is_low c).
Definition str_ok (s : str) : bool := forallb is_char s.

Definition utf8 (c : Z) : list Z :=
  if c <? 128 then [c]
  else if c <? 2048 then [192 + c / 64; 128 + c mod 64]
  else if c <? 65536 then [224 + c / 4096; 128 + c / 64 mod 64; 128 + c mod 64]
  else [240 + c / 262144; 128 + c / 4096 mod 64; 128 + c / 64 mod 64; 128 + c mod 64].

(** a surrogate cannot be encoded *)
Definition encode_utf8 (s : str) : result (list byte) :=
  if str_ok s then Ok (byte_of_Z <$> concat (utf8 <$> s)) else Raise ValueError.

Definition cont (b : Z) : bool := (128 <=? b) && (b <? 192).
Definition tail6 (b : Z) : Z := b - 128.

(** shortest forms only, and no surrogates *)
Fixpoint decode_codes (l : list Z) : option str :=
  match l with
  | [] => Some []
  | b0 :: l1 =>
      if b0 <? 128 then cons b0 <$> decode_codes l1
      else
        match l1 with
        | b1 :: l2 =>
            if (192 <=? b0) && (b0 <? 224) then
              let c := 64 * (b0 - 192) + tail6 b1 in
              if cont b1 && (128 <=? c) then cons c <$> decode_codes l2 else None
            else
              match l2 with
              | b2 :: l3 =>
                  if (224 <=? b0) && (b0 <? 240) then
                    let c := 4096 * (b0 - 224) + 64 * tail6 b1 + tail6 b2 in
                    if cont b1 && cont b2 && (2048 <=? c) && is_char c then cons c <$> decode_codes l3 else None
                  else
                    match l3 with
                    | b3 :: l4 =>
                        let c := 262144 * (b0 - 240) + 4096 * tail6 b1 + 64 * tail6 b2 + tail6 b3 in
                        if (240 <=? b0) && (b0 <? 248) && cont b1 && cont b2 && cont b3 && (65536 <=? c) && is_char c
                        then cons c <$> decode_codes l4 else None
                    | [] => None
                    end
              | [] => None
              end
        | [] => None
        end
  end.

Definition decode_utf8 (l : list byte) : result str :=
  match decode_codes (Z_of_byte <$> l) with Some s => Ok s | None => Raise ValueError end.

Lemma split6 c : c = 64 * (c / 64) + c mod 64 ∧ 0 <= c mod 64 < 64.
Proof. split; [apply Z.div_mod; lia|apply Z.mod_pos_bound; lia]. Qed.

Lemma decode_utf8_cons c l : is_char c = true → decode_codes (utf8 c ++ l) = cons c <$> decode_codes l.
Proof.
  intros Hc. assert (0 <= c < 0x110000) by (unfold is_char in Hc; lia).
  pose proof (split6 c) as [E0 H0]. pose proof (split6 (c / 64)) as [E1 H1]. pose proof (split6 (c / 64 / 64)) as [E2 H2].
  assert (c / 4096 = c / 64 / 64 ∧ c / 262144 = c / 64 / 64 / 64) as [D1 D2] by (rewrite !Zdiv_Zdiv by lia; done).
  assert (0 <= c / 64 / 64 / 64 ∧ 0 <= c / 64 / 64 ∧ 0 <= c / 64) as (? & ? & ?) by (rewrite !Zdiv_Zdiv by lia; split_and!; apply Z.div_pos; lia).
  unfold utf8. rewrite D1, D2. case_match; [cbn [app decode_codes]; by replace (c <? 128) with true by lia|].
  unfold tail6, cont.
  case_match; [|case_match]; cbn [app decode_codes].
  - replace (192 + c / 64 <? 128) with false by lia. replace (192 + c / 64 <? 224) with true by lia.
    replace (192 <=? 192 + c / 64) with true by lia. cbn [andb]. unfold tail6, cont.
    replace (64 * _ + _) with c by lia. by replace (_ && _) with true by lia.
  - replace (224 + c / 64 / 64 <? 128) with false by lia. replace (_ && (_ <? 224)) with false by lia.
    replace ((224 <=? _) && (_ <? 240)) with true by lia. unfold tail6, cont.
    replace (4096 * _ + _ + _) with c by lia. rewrite Hc. by replace (_ && _) with true by lia.
  - replace (240 + c / 64 / 64 / 64 <? 128) with false by lia. replace (_ && (_ <? 224)) with false by lia.
    replace ((224 <=? _) && (_ <? 240)) with false by lia. unfold tail6, cont.
    replace (262144 * _ + _ + _ + _) with c by lia. rewrite Hc. by replace (_ && _) with true by lia.
Qed.

Lemma utf8_bytes c : is_char c = true → Forall (λ b, 0 <= b < 256) (utf8 c).
Proof.
  intros Hc. assert (0 <= c < 0x110000) by (unfold is_char in Hc; lia).
  pose proof (split6 c) as [E0 H0]. pose proof (split6 (c / 64)) as [E1 H1]. pose proof (split6 (c / 64 / 64)) as [E2 H2].
  assert (c / 4096 = c / 64 / 64 ∧ c / 262144 = c / 64 / 64 / 64) as [D1 D2] by (rewrite !Zdiv_Zdiv by lia; done).
  assert (0 <= c / 64 / 64 / 64 ∧ 0 <= c / 64 / 64 ∧ 0 <= c / 64) as (? & ? & ?) by (rewrite !Zdiv_Zdiv by lia; split_and!; apply Z.div_pos; lia).
  unfold utf8. rewrite D1, D2. repeat case_match; repeat constructor; lia.
Qed.

Lemma bytes_roundtrip (l : list Z) : Forall (λ b, 0 <= b < 256) l → Z_of_byte <$> (byte_of_Z <$> l) = l.
Proof. induction 1 as [|b l Hb HF IH]; [done|]. cbn [fmap list_fmap]. f_equal; [by apply Z_of_byte_of_Z|exact IH]. Qed.

Lemma utf8_roundtrip s : str_ok s = true → ∃ l, encode_utf8 s = Ok l ∧ decode_utf8 l = Ok s.
Proof.
  intros Hs. unfold encode_utf8. rewrite Hs. eexists. split; [done|]. unfold decode_utf8. rewrite bytes_roundtrip.
  - assert (decode_codes (concat (utf8 <$> s)) = Some s) as ->; [|done]. unfold str_ok in Hs.
    induction s as [|c s IH]; [done|]. cbn [forallb] in Hs. apply andb_prop in Hs as [Hc Hs]. cbn [fmap list_fmap concat].
    rewrite decode_utf8_cons by done. etrans; [apply (f_equal (fmap _)), IH, Hs|done].
  - unfold str_ok in Hs. induction s as [|c s IH]; [constructor|]. cbn [forallb] in Hs. apply andb_prop in Hs as [Hc Hs].
    cbn [fmap list_fmap concat]. apply Forall_app. split; [by apply utf8_bytes|by apply IH].
Qed.
