(* ===== verification/EventGate.v ===== *)
(** * The coordinator's event gate

    [mp_coordinator/ingest/event_gate.py] with the fan-out of
    [event_broadcaster.py]: per-emitter stream cursors that fence restarted
    emitters, drop duplicates and detect gaps. What every consumer is told, in
    order, is a list of deliveries. The gate's lock is held across each
    operation, so an operation is one step. Instance identifiers are compared
    only; the contents of a batch are opaque. *)

From S2P Require Import Prelude PyDict.

Open Scope Z_scope.

Section gate.
Context {I : Type} `{EqDecision I} {B : Type}.

Record CacheEventBatch := {
  b_instance_id : I;
  b_incarnation : Z;
  b_seq : Z;
  b_body : B }.

Inductive IngestResult := ADMITTED | DUPLICATE | STALE_INCARNATION.

Record StreamCursor := mkCursor {
  cu_incarnation : Z;
  cu_last_seq : Z;
  cu_gap_detected : bool }.

Definition EventGate := list (I * StreamCursor).

(** one call on every registered consumer *)
Inductive delivery :=
| Consume (b : CacheEventBatch)
| FenceInstance (i : I).

Definition ingest (g : EventGate) (batch : CacheEventBatch)
  : IngestResult * EventGate * list delivery :=
  let i := b_instance_id batch in
  (** accept on [cursor], which is the instance's entry *)
  let accept (cursor : StreamCursor) (fences : list delivery) :=
    let gap := cu_gap_detected cursor
               || ((cu_last_seq cursor + 1 <? b_seq batch) && negb (cu_gap_detected cursor)) in
    (ADMITTED, dset g i (mkCursor (cu_incarnation cursor) (b_seq batch) gap),
     fences ++ [Consume batch]) in
  let fresh := mkCursor (b_incarnation batch) 0 false in
  match dget g i with
  | None => accept fresh []
  | Some cursor =>
      if b_incarnation batch <? cu_incarnation cursor then (STALE_INCARNATION, g, [])
      else if cu_incarnation cursor <? b_incarnation batch then accept fresh [FenceInstance i]
      else if b_seq batch <=? cu_last_seq cursor then (DUPLICATE, g, [])
      else accept cursor []
  end.

Definition drop_instance (g : EventGate) (i : I) : EventGate * list delivery :=
  (ddel g i, [FenceInstance i]).

Definition capture (g : EventGate) : list (I * (Z * Z * bool)) :=
  (fun c => (fst c, (cu_incarnation (snd c), cu_last_seq (snd c), cu_gap_detected (snd c)))) <$> g.

Definition restore (g : EventGate) (state : list (I * (Z * Z * bool))) : result EventGate :=
  match g with
  | [] => Ok (foldl (fun g c => let '(inc, seq, gap) := snd c in dset g (fst c) (mkCursor inc seq gap))
                    g state)
  | _ => Raise ValueError
  end.

(** [InstanceStreamStats] has the fields of a cursor *)
Definition stats (g : EventGate) : list (I * StreamCursor) := g.

(** ** Runs of the gate *)

Inductive op :=
| OIngest (b : CacheEventBatch)
| ODrop (i : I)
(** the coordinator restarts from a checkpoint of the gate *)
| ORestart.

Definition step (s : EventGate * list delivery) (o : op) : EventGate * list delivery :=
  let '(g, t) := s in
  match o with
  | OIngest b => let '(_, g, d) := ingest g b in (g, t ++ d)
  | ODrop i => let '(g, d) := drop_instance g i in (g, t ++ d)
  | ORestart => match restore [] (capture g) with Ok g => (g, t) | Raise _ => (g, t) end
  end.

Definition run (ops : list op) : EventGate * list delivery := foldl step ([], []) ops.

(** what consumers saw of instance [i], cut at its fences: the closed segments
    and the current one *)
Definition segment_step (i : I) (s : list (list CacheEventBatch) * list CacheEventBatch)
    (d : delivery) : list (list CacheEventBatch) * list CacheEventBatch :=
  match d with
  | Consume b => if decide (b_instance_id b = i) then (fst s, snd s ++ [b]) else s
  | FenceInstance j => if decide (j = i) then (fst s ++ [snd s], []) else s
  end.
Definition segments (i : I) (t : list delivery) : list (list CacheEventBatch) * list CacheEventBatch :=
  foldl (segment_step i) ([], []) t.

(** one incarnation, each batch newer than the ones before *)
Record segment_ok (inc : Z) (seg : list CacheEventBatch) : Prop := {
  sg_incarnation : Forall (λ b, b_incarnation b = inc) seg;
  sg_increasing : StronglySorted (λ b b', b_seq b < b_seq b') seg }.

(** the cursor describes the current segment *)
Definition cursor_ok (c : option StreamCursor) (seg : list CacheEventBatch) : Prop :=
  match c with
  | None => seg = []
  | Some c =>
      segment_ok (cu_incarnation c) seg ∧ seg ≠ [] ∧ 1 <= cu_last_seq c ∧
      (∃ b, last seg = Some b ∧ b_seq b = cu_last_seq c) ∧ Forall (λ b, 1 <= b_seq b) seg ∧
      (cu_gap_detected c = false ↔ b_seq <$> seg = seqZ 1 (cu_last_seq c))
  end.

Record gate_inv (s : EventGate * list delivery) : Prop := {
  gi_wf : dwf (fst s);
  gi_closed : ∀ i seg, seg ∈ fst (segments i (snd s)) → ∃ inc, segment_ok inc seg;
  gi_current : ∀ i, cursor_ok (dget (fst s) i) (snd (segments i (snd s))) }.

Lemma cursor_ok_segment c seg : cursor_ok c seg → ∃ inc, segment_ok inc seg.
Proof.
  destruct c as [c|]; [intros [? _]; by eexists|]. intros ->. exists 0. repeat constructor.
Qed.

Lemma segments_app i t d : segments i (t ++ d) = foldl (segment_step i) (segments i t) d.
Proof. unfold segments. apply foldl_app. Qed.

Lemma capture_restore g : dwf g → restore [] (capture g) = Ok g.
Proof.
  intros Hw. unfold restore. f_equal. unfold capture.
  assert (H : ∀ g2 g1 : EventGate, dwf (g1 ++ g2) →
    foldl (λ g c, let '(inc, seq, gap) := snd c in dset g (fst c) (mkCursor inc seq gap)) g1
      ((λ c, (fst c, (cu_incarnation (snd c), cu_last_seq (snd c), cu_gap_detected (snd c)))) <$> g2)
    = g1 ++ g2).
  { induction g2 as [|[i [inc seq gap]] g2 IH]; intros g1 Hwf; [by rewrite app_nil_r|].
    rewrite fmap_cons. cbn [foldl fst snd cu_incarnation cu_last_seq cu_gap_detected].
    rewrite dkeys_dset_new.
    - rewrite IH by (by rewrite <- app_assoc). by rewrite <- app_assoc.
    - apply dget_None_dkeys. unfold dwf, dkeys in Hwf |- *. rewrite fmap_app in Hwf.
      apply NoDup_app in Hwf as (_ & Hd & _). intros Hin. apply (Hd i Hin). rewrite fmap_cons. left. }
  apply (H g []). done.
Qed.

Lemma seq_increasing_bound seg b b' :
  StronglySorted (λ b b' : CacheEventBatch, b_seq b < b_seq b') seg → last seg = Some b → b' ∈ seg →
  b_seq b' <= b_seq b.
Proof.
  intros HS Hl Hin. destruct seg as [|x seg] using rev_ind; [done|].
  rewrite last_snoc in Hl. injection Hl as ->.
  apply StronglySorted_app_iff in HS as (_ & _ & Hb). apply elem_of_app in Hin as [Hin|Hin].
  - specialize (Hb b' b Hin ltac:(left)). simpl in Hb. lia.
  - apply list_elem_of_singleton in Hin as ->. lia.
Qed.

(** admitting a batch on the current segment *)
Lemma cursor_ok_snoc c seg b :
  cursor_ok (Some c) seg → b_incarnation b = cu_incarnation c → cu_last_seq c < b_seq b →
  cursor_ok (Some (mkCursor (cu_incarnation c) (b_seq b)
    (cu_gap_detected c || ((cu_last_seq c + 1 <? b_seq b) && negb (cu_gap_detected c))))) (seg ++ [b]).
Proof.
  intros ([Hinc HS] & Hne & Hl1 & (bl & Hlast & Hbl) & Hpos & Hgap) Hb Hlt. split_and!.
  - constructor; simpl.
    + apply Forall_app. split; [done|]. by constructor.
    + apply StronglySorted_app_iff. split_and!; [done|repeat constructor|]. intros x y Hx Hy.
      apply list_elem_of_singleton in Hy as ->. pose proof (seq_increasing_bound seg bl x HS Hlast Hx). lia.
  - by destruct seg.
  - simpl. lia.
  - exists b. split; [apply last_snoc|done].
  - apply Forall_app. split; [done|]. constructor; [lia|done].
  - cbn [cu_gap_detected cu_last_seq]. rewrite fmap_app. cbn [fmap list_fmap].
    destruct (cu_gap_detected c) eqn:Eg; simpl.
    + split; [done|]. intros Heq. exfalso. apply Bool.diff_true_false. apply Hgap.
      assert (Hlen : length seg = Z.to_nat (b_seq b - 1)).
      { apply (f_equal length) in Heq. rewrite length_app, length_fmap, length_seqZ in Heq. simpl in Heq. lia. }
      replace (b_seq b) with ((b_seq b - 1) + 1) in Heq at 2 by lia.
      rewrite seqZ_app in Heq by lia. apply app_inj_1 in Heq as [Heq _];
        [|rewrite length_fmap, length_seqZ; lia].
      rewrite Heq. f_equal. assert (Hl : last (b_seq <$> seg) = Some (cu_last_seq c)).
      { rewrite fmap_last, Hlast. simpl. by rewrite Hbl. }
      rewrite Heq in Hl. replace (b_seq b - 1) with ((b_seq b - 2) + 1) in Hl at 1 by lia.
      rewrite seqZ_app in Hl by lia. change (seqZ (1 + (b_seq b - 2)) 1) with [(0 + (1 + (b_seq b - 2)))] in Hl.
      rewrite last_snoc in Hl. injection Hl as Hl. lia.
    + rewrite andb_true_r. assert (Hseg : b_seq <$> seg = seqZ 1 (cu_last_seq c)) by (by apply Hgap).
      rewrite Hseg, Z.ltb_ge. split.
      * intros Hle. assert (b_seq b = cu_last_seq c + 1) as -> by lia.
        rewrite seqZ_app by lia. f_equal. unfold seqZ. simpl. f_equal. lia.
      * intros Heq. apply (f_equal length) in Heq.
        rewrite length_app, !length_seqZ in Heq. simpl in Heq. lia.
Qed.

Lemma cursor_ok_fresh b :
  1 <= b_seq b →
  cursor_ok (Some (mkCursor (b_incarnation b) (b_seq b) (false || ((0 + 1 <? b_seq b) && negb false)))) [b].
Proof.
  intros Hb. split_and!; simpl.
  - repeat constructor.
  - done.
  - done.
  - by exists b.
  - by constructor.
  - rewrite andb_true_r, Z.ltb_ge. split.
    + intros. assert (b_seq b = 1) as -> by lia. done.
    + intros Heq. apply (f_equal length) in Heq. rewrite length_seqZ in Heq. simpl in Heq. lia.
Qed.

(** deliveries about another instance do not touch the segments of [i] *)
Lemma segment_step_other i s d :
  match d with Consume b => b_instance_id b ≠ i | FenceInstance j => j ≠ i end →
  segment_step i s d = s.
Proof. destruct d; simpl; intros; by rewrite decide_False. Qed.

Lemma inv_step_at s i g' d c' :
  gate_inv s → (g' = dset (fst s) i c' ∨ (g' = ddel (fst s) i)) →
  Forall (λ d, match d with Consume b => b_instance_id b = i | FenceInstance j => j = i end) d →
  (∀ seg, seg ∈ fst (foldl (segment_step i) (segments i (snd s)) d) → ∃ inc, segment_ok inc seg) →
  cursor_ok (dget g' i) (snd (foldl (segment_step i) (segments i (snd s)) d)) →
  gate_inv (g', snd s ++ d).
Proof.
  intros [Hw Hc Hcur] Hg Hd Hseg Hci.
  assert (Hother : ∀ j, j ≠ i → segments j (snd s ++ d) = segments j (snd s) ∧ dget g' j = dget (fst s) j).
  { intros j Hj. split.
    - rewrite segments_app. clear -Hd Hj. revert Hd. generalize (segments j (snd s)).
      induction d as [|x d IH]; intros p Hd; [done|]. apply Forall_cons in Hd as [Hx Hd]. cbn [foldl].
      rewrite segment_step_other by (destruct x; congruence). by apply IH.
    - destruct Hg as [->| ->]; [by rewrite dget_dset_ne | by rewrite dget_ddel_ne]. }
  constructor; cbn [fst snd].
  - destruct Hg as [->| ->]; [by apply dset_wf | by apply ddel_wf].
  - intros j seg. destruct (decide (j = i)) as [->|Hj].
    + rewrite segments_app. apply Hseg.
    + destruct (Hother j Hj) as [-> _]. apply Hc.
  - intros j. destruct (decide (j = i)) as [->|Hj].
    + by rewrite segments_app.
    + destruct (Hother j Hj) as [-> ->]. apply Hcur.
Qed.

Lemma ingest_inv s b : gate_inv s → 1 <= b_seq b →
  let '(r, g, d) := ingest (fst s) b in gate_inv (g, snd s ++ d).
Proof.
  intros Hinv Hb. pose proof Hinv as [Hw Hc Hcur].
  specialize (Hc (b_instance_id b)). specialize (Hcur (b_instance_id b)). unfold ingest.
  destruct (dget (fst s) (b_instance_id b)) as [c|] eqn:E.
  - destruct (Z.ltb_spec (b_incarnation b) (cu_incarnation c)).
    { rewrite app_nil_r. by destruct s. }
    destruct (Z.ltb_spec (cu_incarnation c) (b_incarnation b)).
    + eapply inv_step_at; [done|by left|by repeat constructor| |];
        cbn [foldl segment_step app]; rewrite !decide_True by done; cbn [fst snd app].
      * intros seg [Hin|Hin]%elem_of_app; [auto|]. apply list_elem_of_singleton in Hin as ->.
        by eapply cursor_ok_segment.
      * rewrite dget_dset_eq. by apply cursor_ok_fresh.
    + destruct (Z.leb_spec (b_seq b) (cu_last_seq c)).
      { rewrite app_nil_r. by destruct s. }
      eapply inv_step_at; [done|by left|by repeat constructor| |];
        cbn [foldl segment_step app]; rewrite decide_True by done; cbn [fst snd]; [done|].
      rewrite dget_dset_eq. apply cursor_ok_snoc; [done|lia|done].
  - eapply inv_step_at; [done|by left|by repeat constructor| |];
      cbn [foldl segment_step app]; rewrite decide_True by done; cbn [fst snd]; [done|].
    rewrite dget_dset_eq. simpl in Hcur. rewrite Hcur. by apply cursor_ok_fresh.
Qed.

Lemma drop_inv s i : gate_inv s → gate_inv (ddel (fst s) i, snd s ++ [FenceInstance i]).
Proof.
  intros Hinv. pose proof Hinv as [Hw Hc Hcur].
  eapply (inv_step_at s i _ _ (mkCursor 0 0 false)); [done|by right|by repeat constructor| |];
    cbn [foldl segment_step]; rewrite decide_True by done; cbn [fst snd].
  - intros seg [Hin|Hin]%elem_of_app; [by apply (Hc i)|]. apply list_elem_of_singleton in Hin as ->.
    by eapply cursor_ok_segment.
  - by rewrite dget_ddel_eq.
Qed.

Definition op_ok (o : op) : Prop := match o with OIngest b => 1 <= b_seq b | _ => True end.

Lemma step_inv s o : gate_inv s → op_ok o → gate_inv (step s o).
Proof.
  intros Hinv Ho. destruct s as [g t]. destruct o as [b|i|]; cbn [step].
  - pose proof (ingest_inv (g, t) b Hinv Ho) as H. cbn [fst snd] in H.
    by destruct (ingest g b) as [[r g'] d].
  - apply (drop_inv (g, t) i Hinv).
  - by rewrite capture_restore by apply (gi_wf _ Hinv).
Qed.

Lemma run_inv ops : Forall op_ok ops → gate_inv (run ops).
Proof.
  assert (H0 : gate_inv ([], [])).
  { constructor; cbn; [constructor| |done]. intros i seg Hin. by apply not_elem_of_nil in Hin. }
  unfold run. revert H0. generalize (([], []) : EventGate * list delivery).
  induction ops as [|o ops IH]; intros s Hs Hf; [done|]. apply Forall_cons in Hf as [Ho Hf].
  cbn [foldl]. apply IH; [by apply step_inv|done].
Qed.

Lemma duplicate_dropped s b :
  gate_inv s → b ∈ snd (segments (b_instance_id b) (snd s)) → ingest (fst s) b = (DUPLICATE, fst s, []).
Proof.
  intros [_ _ Hcur] Hin. specialize (Hcur (b_instance_id b)). unfold ingest.
  destruct (dget (fst s) (b_instance_id b)) as [c|]; [|simpl in Hcur; rewrite Hcur in Hin; by apply not_elem_of_nil in Hin].
  destruct Hcur as ([Hinc HS] & _ & _ & (bl & Hl & Hbl) & _ & _).
  rewrite Forall_forall in Hinc. specialize (Hinc b Hin). simpl in Hinc. rewrite Hinc.
  rewrite Z.ltb_irrefl. pose proof (seq_increasing_bound _ _ _ HS Hl Hin).
  by rewrite (proj2 (Z.leb_le _ _)) by lia.
Qed.

End gate.

Arguments op I B : clear implicits.
Arguments delivery I B : clear implicits.
Arguments CacheEventBatch I B : clear implicits.

(** Consumers see every emitter's stream in order and at most once: for
    every sequence of offered batches, departures and restarts from a
    checkpoint, the batches delivered for an instance between two of its fences
    belong to one incarnation and have increasing sequence numbers; the cursor
    describes the current segment, and reports no gap exactly when the segment is
    the unbroken sequence from 1; a batch of the current segment offered again
    is dropped as a duplicate; and an offer that is not admitted changes and
    delivers nothing. *)
Theorem event_stream_ordered {I} `{EqDecision I} {B} (ops : list (op I B))
    (g := fst (run ops)) (t := snd (run ops)) :
  Forall op_ok ops →
  (∀ i seg, seg ∈ fst (segments i t) ++ [snd (segments i t)] → ∃ inc, segment_ok inc seg) ∧
  (∀ i, cursor_ok (dget (stats g) i) (snd (segments i t))) ∧
  (∀ b, b ∈ snd (segments (b_instance_id b) t) → ingest g b = (DUPLICATE, g, [])) ∧
  (∀ b : CacheEventBatch I B, let '(r, g', d) := ingest g b in
     match r with ADMITTED => last d = Some (Consume b) | _ => g' = g ∧ d = [] end).
Proof.
  intros Hok. pose proof (run_inv ops Hok) as Hinv.
  split; [|split; [|split]].
  - intros i seg [Hin|Hin]%elem_of_app; [by apply (gi_closed _ Hinv i)|].
    apply list_elem_of_singleton in Hin as ->. eapply cursor_ok_segment, (gi_current _ Hinv).
  - intros i. apply (gi_current _ Hinv).
  - intros b Hb. by apply (duplicate_dropped (run ops)).
  - intros b. unfold ingest. destruct (dget g (b_instance_id b)); [|done].
    repeat (destruct (_ <? _); [done|]). by destruct (_ <=? _).
Qed.

(** a gap, a duplicate, a restart of the emitter and of the coordinator *)
Definition demo_gate_ops : list (op nat unit) :=
  let b inc seq := OIngest {| b_instance_id := 7%nat; b_incarnation := inc; b_seq := seq; b_body := tt |} in
  [b 1 1; b 1 3; b 1 3; ORestart; b 2 1; b 1 4; b 2 2].

Example demo_gate_run : dget (stats (fst (run demo_gate_ops))) 7%nat = Some (mkCursor 2 2 false).
Proof. reflexivity. Qed.

Lemma event_stream_ordered_witness :
  cursor_ok (dget (stats (fst (run demo_gate_ops))) 7%nat)
    (snd (segments 7%nat (snd (run demo_gate_ops)))).
Proof.
  apply (event_stream_ordered demo_gate_ops).
  unfold demo_gate_ops. repeat constructor; simpl; lia.
Defined.
