(* ===== verification/PySet.v ===== *)
(** * Python sets, dictionaries of sets, and sums over dictionaries

    A [set] is a list without duplicates; its order stands for the iteration
    order, on which no result may depend. A reverse index is a dictionary of sets
    read through [bucket]. [sum_of] adds up the values a dictionary holds under
    the keys of one group. *)

From S2P Require Import Prelude PyDict.

Open Scope Z_scope.

Section sets.
Context {A : Type} `{EqDecision A}.
Implicit Types (s : list A) (x : A).

(** [s.add(x)] and [s.discard(x)] *)
Definition sadd s x : list A := if bool_decide (x ∈ s) then s else s ++ [x].
Definition sdiscard s x : list A := filter (.≠ x) s.

Lemma elem_of_sadd s x y : y ∈ sadd s x ↔ y ∈ s ∨ y = x.
Proof. unfold sadd. case_bool_decide; set_solver. Qed.
Lemma elem_of_sdiscard s x y : y ∈ sdiscard s x ↔ y ∈ s ∧ y ≠ x.
Proof. unfold sdiscard. rewrite list_elem_of_filter. naive_solver. Qed.
Lemma sadd_nodup s x : NoDup s → NoDup (sadd s x).
Proof.
  intros Hs. unfold sadd. case_bool_decide; [done|]. apply NoDup_app. split_and!; [done| |apply NoDup_singleton].
  intros y Hy ->%list_elem_of_singleton. done.
Qed.
Lemma sdiscard_nodup s x : NoDup s → NoDup (sdiscard s x).
Proof. apply NoDup_filter. Qed.
Lemma sadd_nonempty s x : sadd s x ≠ [].
Proof. intros E. assert (x ∈ sadd s x) as Hx by (apply elem_of_sadd; auto). rewrite E in Hx. by apply not_elem_of_nil in Hx. Qed.

Lemma sadd_fresh s x : x ∉ s → sadd s x = s ++ [x].
Proof. intros. unfold sadd. by rewrite bool_decide_false. Qed.

(** [set(l)] of distinct elements *)
Lemma foldl_sadd_nodup l : ∀ s, NoDup (s ++ l) → foldl sadd s l = s ++ l.
Proof.
  induction l as [|x l IH]; intros s Hs; [by rewrite app_nil_r|]. cbn [foldl]. rewrite sadd_fresh.
  - rewrite IH; by rewrite <- app_assoc.
  - intros Hx. apply NoDup_app in Hs as (_ & Hs & _). apply (Hs x Hx). left.
Qed.
End sets.
#[export] Hint Resolve sadd_nodup sdiscard_nodup : pydict.

(** ** Dictionaries of sets *)

Section index.
Context {I A : Type} `{EqDecision I, EqDecision A}.
Implicit Types (d : list (I * list A)).

Definition bucket d (i : I) : list A := default [] (dget d i).

(** [d.setdefault(i, set()).add(x)] *)
Definition bucket_add d i x : list (I * list A) := dset d i (sadd (bucket d i) x).

Lemma bucket_of_dset d i s j : bucket (dset d i s) j = if decide (i = j) then s else bucket d j.
Proof. unfold bucket. rewrite dget_dset. by case_decide. Qed.
Lemma bucket_ddel d i j : bucket (ddel d i) j = if decide (i = j) then [] else bucket d j.
Proof. unfold bucket. rewrite dget_ddel. by case_decide. Qed.
Lemma elem_of_bucket_add d i x j y :
  y ∈ bucket (bucket_add d i x) j ↔ y ∈ bucket d j ∨ (i = j ∧ y = x).
Proof. unfold bucket_add. rewrite bucket_of_dset. case_decide; subst; rewrite ?elem_of_sadd; naive_solver. Qed.
End index.

(** ** Sums *)

Section sums.
Context {P G : Type} `{EqDecision P, EqDecision G} (f : P → G).
Implicit Types (d : list (P * Z)) (g : G).

Definition sum_of d g : Z := foldr (λ pn s, if decide (f pn.1 = g) then pn.2 + s else s) 0 d.

Definition value_of d (p : P) : Z := default 0 (dget d p).

Lemma sum_of_cons q m d g : sum_of ((q, m) :: d) g = if decide (f q = g) then m + sum_of d g else sum_of d g.
Proof. done. Qed.

Lemma sum_of_dset d p n g :
  sum_of (dset d p n) g = sum_of d g + if decide (f p = g) then n - value_of d p else 0.
Proof.
  unfold value_of. induction d as [|[q m] d IH]; simpl; [case_decide; lia|].
  destruct (decide (q = p)) as [->|]; simpl; [case_decide; lia|]. rewrite IH. repeat case_decide; lia.
Qed.

Lemma sum_of_ddel d p g : dwf d →
  sum_of (ddel d p) g = sum_of d g - if decide (f p = g) then value_of d p else 0.
Proof.
  unfold value_of. induction d as [|[q m] d IH]; simpl; [case_decide; lia|].
  intros [Hn Hd]%NoDup_cons. destruct (decide (q = p)) as [->|]; simpl.
  - rewrite (ddel_notin d p) by done. case_decide; lia.
  - rewrite (IH Hd). repeat case_decide; lia.
Qed.

Lemma sum_of_nonneg d g : Forall (λ pn, 0 <= pn.2) d → 0 <= sum_of d g.
Proof. induction 1; simpl; [lia|]. case_decide; lia. Qed.

Lemma sum_of_app d d' g : sum_of (d ++ d') g = sum_of d g + sum_of d' g.
Proof. induction d as [|[q m] d IH]; simpl; [done|]. rewrite IH. case_decide; lia. Qed.

Lemma sum_of_perm d d' g : d ≡ₚ d' → sum_of d g = sum_of d' g.
Proof. induction 1; simpl; [done|case_decide; lia|repeat case_decide; lia|lia]. Qed.

(** the groups of [ks] together hold what the keys of those groups hold *)
Lemma sum_of_groups (ks : list G) d : NoDup ks →
  foldr Z.add 0 (sum_of d <$> ks) = foldr (λ pn s, if decide (f pn.1 ∈ ks) then pn.2 + s else s) 0 d.
Proof.
  intros Hks. induction d as [|[q m] d IH]; simpl.
  - clear Hks. induction ks as [|g ks IH]; [done|]. cbn. cbn in IH. by rewrite IH.
  - assert (∀ l : list G, foldr Z.add 0 ((λ g, if decide (f q = g) then m + sum_of d g else sum_of d g) <$> l)
      = foldr Z.add 0 (sum_of d <$> l) + foldr (λ g s, if decide (f q = g) then m + s else s) 0 l) as Hsplit.
    { induction l as [|g l IHl]; [done|]. rewrite !fmap_cons. cbn [foldr]. rewrite IHl. case_decide; lia. }
    rewrite Hsplit, IH. clear Hsplit IH.
    assert (foldr (λ g s, if decide (f q = g) then m + s else s) 0 ks = if decide (f q ∈ ks) then m else 0) as ->.
    { induction Hks as [|g l Hn _ IHl]; cbn [foldr]; [by rewrite decide_False by apply not_elem_of_nil|]. rewrite IHl.
      destruct (decide (f q = g)) as [<-|Hne].
      - rewrite (decide_True (P := f q ∈ _ :: _)) by left. rewrite decide_False by done. lia.
      - destruct (decide (f q ∈ l)); [rewrite decide_True by (by right)|rewrite decide_False by set_solver]; lia. }
    case_decide; lia.
Qed.
End sums.
