(* ===== verification/CacheEvents.v ===== *)
(** * The coordinator's cache events

    [mp_coordinator/api.py]: the vocabulary of the event stream, with the checks
    its constructors make, and the validation of a request of [schemas.py]. The
    object keys of the consumers are an interface, [KeyCodec]: what the
    coordinator reads of a key, and its two serialised forms with their round
    trips; the keys of [ObjectKey] implement it. Text is a [string] of its UTF-8
    bytes. *)

From S2P Require Import Prelude PyDict PyState PyFloat EventGate.
From Stdlib Require Export Strings.Byte.

Open Scope Z_scope.

#[export] Instance byte_eq_dec : EqDecision byte := Byte.byte_eq_dec.

Inductive Tier := L1 | L2 | ALL.
#[export] Instance Tier_eq_dec : EqDecision Tier.
Proof. solve_decision. Defined.

Definition tier_value (t : Tier) : string :=
  match t with L1 => "l1" | L2 => "l2" | ALL => "all" end%string.

(** [Tier(value)] *)
Definition tier_of (s : string) : result Tier :=
  if decide (s = "l1"%string) then Ok L1
  else if decide (s = "l2"%string) then Ok L2
  else if decide (s = "all"%string) then Ok ALL
  else Raise ValueError.

Lemma tier_of_value t : tier_of (tier_value t) = Ok t.
Proof. by destruct t. Qed.

Definition UNKNOWN_TOKEN_OFFSET : Z := -1.

Inductive CacheEventType := STORE | DELETE | ACCESS | CONFIG.
#[export] Instance CacheEventType_eq_dec : EqDecision CacheEventType.
Proof. solve_decision. Defined.

Record BlendMatch := mkBlendMatch {
  bm_chunk_hash : list byte;
  bm_old_st : Z;
  bm_cur_st : Z }.

(** ** Keys *)

(** [K]: object keys; [E]: their wire form; [F]: the tuple of a capture *)
Class KeyCodec (K E F : Type) := {
  key_chunk_hash : K → list byte;
  key_cache_salt : K → string;
  to_object_key : E → result K;
  to_encoded_object_key : K → E;
  encode_key : K → F;
  decode_key : F → result K;
  to_object_key_encoded k : to_object_key (to_encoded_object_key k) = Ok k;
  decode_key_encode k : decode_key (encode_key k) = Ok k }.

(** ** Entries and batches *)

Record CacheEventEntry (E : Type) := mkEntry {
  en_key : E;
  en_size_bytes : Z;
  en_token_ids : list Z;
  en_token_offset : Z }.
Arguments mkEntry {E}.
Arguments en_key {E}.
Arguments en_size_bytes {E}.
Arguments en_token_ids {E}.
Arguments en_token_offset {E}.

Definition entry_post_init {E} (e : CacheEventEntry E) : result unit :=
  (guard negb (en_size_bytes e <? 0) else ValueError;
   guard negb ((en_token_offset e <? 0) && negb (en_token_offset e =? UNKNOWN_TOKEN_OFFSET)) else ValueError;
   Ok tt)%py.

(** the fields of a batch beside the stream's [instance_id], [incarnation], [seq] *)
Record batch_body (E : Type) := mkBody {
  bo_event_type : CacheEventType;
  bo_tier : Tier;
  bo_backend : string;
  bo_entries : list (CacheEventEntry E);
  bo_shared : bool;
  bo_ts : float;
  bo_capacity_bytes : Z;
  bo_capacity_revision : Z }.
Arguments mkBody {E}.
Arguments bo_event_type {E}.
Arguments bo_tier {E}.
Arguments bo_backend {E}.
Arguments bo_entries {E}.
Arguments bo_shared {E}.
Arguments bo_ts {E}.
Arguments bo_capacity_bytes {E}.
Arguments bo_capacity_revision {E}.

Abbreviation Batch E := (CacheEventBatch string (batch_body E)).

(** [not s] of a string *)
Definition is_empty (s : string) : bool := match s with EmptyString => true | _ => false end.

Definition batch_post_init {E} (b : Batch E) : result unit :=
  let body := b_body b in
  (guard negb (is_empty (b_instance_id b)) else ValueError;
   guard negb (is_empty (bo_backend body) && negb (bool_decide (bo_event_type body = ACCESS))) else ValueError;
   guard negb (bool_decide (bo_event_type body = CONFIG) && nonempty (bo_entries body)) else ValueError;
   guard negb (bo_capacity_bytes body <? 0) else ValueError;
   guard negb (bo_capacity_revision body <? 0) else ValueError;
   guard negb (b_incarnation b <? 0) else ValueError;
   guard negb (b_seq b <? 1) else ValueError;
   guard (bool_decide (bo_tier body = L1) || bool_decide (bo_tier body = L2)) else ValueError;
   guard negb (fltb (bo_ts body) float_0) else ValueError;
   Ok tt)%py.

Section events.
Context {K E F : Type} `{KC : KeyCodec K E F}.

(** [CacheEventsRequest]: pydantic has built every entry and batch, which ran
    their [__post_init__], and the validator converts every key *)
Fixpoint all_ok {A} (f : A → result unit) (l : list A) : result unit :=
  match l with
  | [] => Ok tt
  | x :: l => (_ <-? f x; all_ok f l)%py
  end.

Definition _validate_batches (value : list (Batch E)) : result unit :=
  all_ok (λ batch, all_ok (λ entry, (_ <-? to_object_key (en_key entry); Ok tt)%py)
                     (bo_entries (b_body batch))) value.

Definition new_request (value : list (Batch E)) : result unit :=
  (_ <-? all_ok (λ batch, (_ <-? all_ok entry_post_init (bo_entries (b_body batch)); batch_post_init batch)%py) value;
   _validate_batches value)%py.

(** what the checks establish *)
Record batch_ok (b : Batch E) : Prop := {
  bk_instance : b_instance_id b ≠ ""%string;
  bk_backend : bo_event_type (b_body b) ≠ ACCESS → bo_backend (b_body b) ≠ ""%string;
  bk_config : bo_event_type (b_body b) = CONFIG → bo_entries (b_body b) = [];
  bk_capacity : 0 <= bo_capacity_bytes (b_body b);
  bk_revision : 0 <= bo_capacity_revision (b_body b);
  bk_incarnation : 0 <= b_incarnation b;
  bk_seq : 1 <= b_seq b;
  bk_tier : bo_tier (b_body b) = L1 ∨ bo_tier (b_body b) = L2;
  bk_sizes : Forall (λ e, 0 <= en_size_bytes e) (bo_entries (b_body b));
  bk_offsets : Forall (λ e, 0 <= en_token_offset e ∨ en_token_offset e = UNKNOWN_TOKEN_OFFSET)
                 (bo_entries (b_body b));
  bk_keys : Forall (λ e, ∃ k, to_object_key (en_key e) = Ok k) (bo_entries (b_body b)) }.

Lemma all_ok_Forall {A} (f : A → result unit) l : all_ok f l = Ok tt ↔ Forall (λ x, f x = Ok tt) l.
Proof.
  induction l as [|x l IH]; simpl; [by split|]. rewrite Forall_cons, <- IH.
  destruct (f x) as [[]|]; simpl; naive_solver.
Qed.

Lemma entry_post_init_ok (e : CacheEventEntry E) :
  entry_post_init e = Ok tt ↔
  0 <= en_size_bytes e ∧ (0 <= en_token_offset e ∨ en_token_offset e = UNKNOWN_TOKEN_OFFSET).
Proof.
  unfold entry_post_init. zcases; destruct (Z.eqb_spec (en_token_offset e) UNKNOWN_TOKEN_OFFSET);
    simpl; split; intros; try done; try lia; intuition.
Qed.

Lemma is_empty_spec s : is_empty s = false ↔ s ≠ ""%string.
Proof. by destruct s. Qed.

Lemma batch_post_init_ok (b : Batch E) :
  batch_post_init b = Ok tt →
  b_instance_id b ≠ ""%string ∧ (bo_event_type (b_body b) ≠ ACCESS → bo_backend (b_body b) ≠ ""%string) ∧
  (bo_event_type (b_body b) = CONFIG → bo_entries (b_body b) = []) ∧
  0 <= bo_capacity_bytes (b_body b) ∧ 0 <= bo_capacity_revision (b_body b) ∧
  0 <= b_incarnation b ∧ 1 <= b_seq b ∧ (bo_tier (b_body b) = L1 ∨ bo_tier (b_body b) = L2).
Proof.
  unfold batch_post_init. intros H.
  repeat match type of H with
  | (if ?c then _ else _) = _ => let E := fresh "G" in destruct c eqn:E; [|done]
  end.
  rewrite negb_true_iff in *. rewrite is_empty_spec in G. rewrite Z.ltb_ge in *.
  split_and!; try lia; [done| | |].
  - intros Ha. rewrite (bool_decide_false _ Ha), andb_true_r in G0. by apply is_empty_spec.
  - intros Hc. rewrite (bool_decide_true _ Hc) in G1. by apply nonempty_false.
  - apply orb_true_iff in G6 as [?%bool_decide_eq_true|?%bool_decide_eq_true]; auto.
Qed.

Lemma new_request_ok value : new_request value = Ok tt → Forall batch_ok value.
Proof.
  unfold new_request. destruct (all_ok _ value) as [[]|] eqn:E1; [|done]. cbn. intros E2.
  apply all_ok_Forall in E1. unfold _validate_batches in E2. apply all_ok_Forall in E2.
  rewrite Forall_forall in E1, E2 |- *. intros b Hb. specialize (E1 b Hb). specialize (E2 b Hb). cbn in E1, E2.
  destruct (all_ok entry_post_init _) as [[]|] eqn:E3; [|done]. cbn in E1.
  apply batch_post_init_ok in E1 as (?&?&?&?&?&?&?&?). apply all_ok_Forall in E3, E2.
  constructor; try done.
  - eapply Forall_impl; [exact E3|]. intros e He%entry_post_init_ok. apply He.
  - eapply Forall_impl; [exact E3|]. intros e He%entry_post_init_ok. apply He.
  - eapply Forall_impl; [exact E2|]. intros e He. cbn in He. destruct (to_object_key (en_key e)); [eauto|done].
Qed.

(** the keyed entries of a batch whose keys convert *)
Definition keyed (entries : list (CacheEventEntry E)) (l : list (K * CacheEventEntry E)) : Prop :=
  Forall2 (λ e ke, ke.2 = e ∧ to_object_key (en_key e) = Ok ke.1) entries l.

Definition keyed_entries (entries : list (CacheEventEntry E)) : list (K * CacheEventEntry E) :=
  omap (λ e, match to_object_key (en_key e) with Ok k => Some (k, e) | Raise _ => None end) entries.

Lemma batch_ok_keyed b : batch_ok b → keyed (bo_entries (b_body b)) (keyed_entries (bo_entries (b_body b))).
Proof.
  intros [_ _ _ _ _ _ _ _ _ _ Hk]. unfold keyed, keyed_entries.
  induction Hk as [|e es [k Hk] _ IH]; [constructor|]. cbn. rewrite Hk. by constructor.
Qed.

(** consumers loop over the entries, convert the key and apply the entry *)
Definition for_entries {S} (apply : K → CacheEventEntry E → S → S) (entries : list (CacheEventEntry E))
  : py_state S unit :=
  for_each (λ entry, key ← lift (to_object_key (en_key entry)); modify (apply key entry)) entries.

Lemma for_entries_keyed {S} (apply : K → CacheEventEntry E → S → S) entries l s :
  keyed entries l → for_entries apply entries s = (Ok tt, foldl (λ s ke, apply ke.1 ke.2 s) s l).
Proof.
  unfold for_entries. intros H. induction H as [|e ke es l [<- Hk] _ IH] in s |- *; [done|].
  cbn. unfold mbind, py_bind, lift, modify at 1. rewrite Hk. cbn. apply IH.
Qed.

Lemma for_entries_ok {S} (apply : K → CacheEventEntry E → S → S) b s : batch_ok b →
  for_entries apply (bo_entries (b_body b)) s =
  (Ok tt, foldl (λ s ke, apply ke.1 ke.2 s) s (keyed_entries (bo_entries (b_body b)))).
Proof. intros Hb. by apply for_entries_keyed, batch_ok_keyed. Qed.

Lemma keyed_entries_sizes b : batch_ok b →
  Forall (λ ke, 0 <= en_size_bytes ke.2) (keyed_entries (bo_entries (b_body b))).
Proof.
  intros [_ _ _ _ _ _ _ _ Hs _ _]. unfold keyed_entries. induction Hs as [|e es He _ IH]; [constructor|].
  cbn. destruct (to_object_key (en_key e)); [by constructor|done].
Qed.

(** every batch a consumer is given passed the checks *)
Definition delivery_ok (d : delivery string (batch_body E)) : Prop :=
  match d with Consume b => batch_ok b | FenceInstance _ => True end.

Lemma deliveries_checked ds :
  new_request (omap (λ d, match d with Consume b => Some b | FenceInstance _ => None end) ds) = Ok tt →
  Forall delivery_ok ds.
Proof.
  intros H%new_request_ok. induction ds as [|[b|i] ds IH]; [constructor| |].
  - cbn in H. apply Forall_cons in H as [Hb H]. constructor; [done|auto].
  - constructor; [done|auto].
Qed.

End events.
