(* ===== verification/CoordinatorKeys.v ===== *)
(** * The coordinator's keys

    The object keys of [distributed/api.py] implement the interface the
    coordinator's components are written against. A Python [ObjectKey] exists only
    after its [__post_init__] accepted it, so a key here is an [ObjectKey] with
    that fact. *)

From S2P Require Import Prelude PyDict PyState PyFloat ObjectKey EventGate CacheEvents Utf8.

Open Scope Z_scope.

#[export] Instance result_unit_eq_dec : EqDecision (result unit).
Proof. solve_decision. Defined.
#[export] Instance ObjectKey_eq_dec : EqDecision ObjectKey.
Proof. solve_decision. Defined.

Definition Key : Type := dsig (λ k : ObjectKey, post_init k = Ok tt).

#[export] Instance Key_eq_dec : EqDecision Key.
Proof. intros x y. destruct (decide (`x = `y)) as [E|E]; [left; by apply dsig_eq|right; by intros ->]. Defined.

(** the key a constructor returned *)
Definition checked (r : result ObjectKey) : result Key :=
  match r with
  | Ok k => match decide (post_init k = Ok tt) with
            | left H => Ok (dexist k H)
            | right _ => Raise ValueError
            end
  | Raise e => Raise e
  end.

(** constructors check, so [checked] only records it *)
Lemma checked_new h m r g s :
  match new_object_key h m r g s with
  | Ok k => ∃ H, checked (new_object_key h m r g s) = Ok (dexist k H)
  | Raise e => checked (new_object_key h m r g s) = Raise e
  end.
Proof.
  unfold new_object_key. destruct (post_init _) as [[]|] eqn:E; [|done]. cbn.
  destruct (decide _) as [H|]; [by exists H|done].
Qed.

Lemma checked_ok (x : Key) : checked (Ok (`x)) = Ok x.
Proof.
  unfold checked. destruct (decide _) as [H|H].
  - f_equal. by apply dsig_eq.
  - destruct H. apply (proj2_dsig x).
Qed.

Lemma key_valid (x : Key) : valid_key (`x).
Proof.
  pose proof (post_init_iff (`x)) as H. pose proof (proj2_dsig x) as Hx. cbv beta in Hx.
  destruct (post_init (`x)); done.
Qed.

(** a string as its UTF-8 bytes *)
Definition text (s : str) : string :=
  String.string_of_list_ascii ((λ z, Ascii.ascii_of_N (Z.to_N z)) <$> concat (utf8 <$> s)).

#[export] Instance object_keys : KeyCodec Key EncodedObjectKey EncodedKey.
Proof.
  refine {|
    CacheEvents.key_chunk_hash x := chunk_hash (`x);
    CacheEvents.key_cache_salt x := text (cache_salt (`x));
    CacheEvents.to_object_key e := checked (ObjectKey.to_object_key e);
    CacheEvents.to_encoded_object_key x := ObjectKey.to_encoded_object_key (`x);
    CacheEvents.encode_key x := ObjectKey.encode_key (`x);
    CacheEvents.decode_key f := checked (ObjectKey.decode_key f) |}.
  - intros x. unfold ObjectKey.to_object_key. cbn. rewrite fromhex_hex. cbn.
    rewrite new_object_key_valid by apply key_valid. apply checked_ok.
  - intros x. cbn. rewrite new_object_key_valid by apply key_valid. apply checked_ok.
Defined.

(** a key for examples: chunk [h], salt [s] *)
Definition example_key (h : byte) (s : string) : ObjectKey :=
  MkObjectKey [h] (lit "m") 0 0 (lit s).
Definition example_encoded (h : byte) (s : string) : EncodedObjectKey :=
  ObjectKey.to_encoded_object_key (example_key h s).

(** a batch for examples *)
Definition example_batch (instance : string) (incarnation seq : Z) (type : CacheEventType) (tier : Tier)
    (backend : string) (shared : bool) (entries : list (CacheEventEntry EncodedObjectKey)) : Batch EncodedObjectKey :=
  {| b_instance_id := instance; b_incarnation := incarnation; b_seq := seq;
     b_body := mkBody type tier backend entries shared float_0 0 0 |}.
