(* ===== verification/UsageManager.v ===== *)
(** * The coordinator's usage view

    [mp_coordinator/views/usage_manager.py]: bytes per placement, rolled up per
    key, per cache salt and per owner and backend, as a consumer of the event
    stream. The abstract specification is the finite function from placements to
    sizes that the stream describes; the theorems say that the view holds it, that
    every read is a sum over it, and that a restart loses nothing. *)

From S2P Require Import Prelude PyDict PyState PySet PyFloat ObjectKey EventGate CacheEvents CoordinatorKeys.

Open Scope Z_scope.

Section usage.
Context {K E F : Type} `{EqDecision K} `{KC : KeyCodec K E F}.

(** [(tier, key, owner, backend)] *)
Definition placement_id : Type := Tier * K * string * string.
Definition pid_tier (p : placement_id) : Tier := p.1.1.1.
Definition pid_key (p : placement_id) : K := p.1.1.2.
Definition pid_owner (p : placement_id) : string := p.1.2.
Definition pid_backend (p : placement_id) : string := p.2.

Record CacheUsageManager := mkUsageManager {
  um_placement_sizes : list (placement_id * Z);
  um_key_bytes : list ((Tier * K) * Z);
  um_salt_bytes : list ((Tier * string) * Z);
  um_instance_bytes : list ((Tier * string * string) * Z);
  um_l1_by_instance : list (string * list placement_id) }.

Definition um_init : CacheUsageManager := mkUsageManager [] [] [] [] [].

Definition with_sizes (u : CacheUsageManager) d :=
  mkUsageManager d (um_key_bytes u) (um_salt_bytes u) (um_instance_bytes u) (um_l1_by_instance u).
Definition with_l1 (u : CacheUsageManager) d :=
  mkUsageManager (um_placement_sizes u) (um_key_bytes u) (um_salt_bytes u) (um_instance_bytes u) d.

(** the groups a placement feeds *)
Definition key_id (p : placement_id) : Tier * K := (pid_tier p, pid_key p).
Definition salt_id (p : placement_id) : Tier * string := (pid_tier p, key_cache_salt (pid_key p)).
Definition node_id (p : placement_id) : Tier * string * string := (pid_tier p, pid_owner p, pid_backend p).

(** one rollup of [_adjust]: [total = d.get(id, 0) + delta], dropped at zero *)
Definition adjust_rollup {G} `{EqDecision G} (d : list (G * Z)) (id : G) (delta : Z) : list (G * Z) :=
  let total := default 0 (dget d id) + delta in
  if 0 <? total then dset d id total else ddel d id.

Definition _adjust (u : CacheUsageManager) (p : placement_id) (delta : Z) : CacheUsageManager :=
  if delta =? 0 then u
  else mkUsageManager (um_placement_sizes u)
         (adjust_rollup (um_key_bytes u) (key_id p) delta)
         (adjust_rollup (um_salt_bytes u) (salt_id p) delta)
         (adjust_rollup (um_instance_bytes u) (node_id p) delta)
         (um_l1_by_instance u).

Definition _remove (u : CacheUsageManager) (p : placement_id) : CacheUsageManager :=
  let u :=
    match (if decide (pid_tier p = L1) then dget (um_l1_by_instance u) (pid_owner p) else None) with
    | None => u
    | Some owned =>
        match sdiscard owned p with
        | [] => with_l1 u (ddel (um_l1_by_instance u) (pid_owner p))
        | owned => with_l1 u (dset (um_l1_by_instance u) (pid_owner p) owned)
        end
    end in
  _adjust (with_sizes u (ddel (um_placement_sizes u) p)) p
    (- default 0 (dget (um_placement_sizes u) p)).

(** the body of [consume] and [restore] for one placement of [size] bytes; [old]
    is what it held before *)
Definition track (u : CacheUsageManager) (p : placement_id) (size old : Z) : CacheUsageManager :=
  let u := with_sizes u (dset (um_placement_sizes u) p size) in
  let u := if bool_decide (pid_tier p = L1) && negb (is_empty (pid_owner p))
           then with_l1 u (bucket_add (um_l1_by_instance u) (pid_owner p) p) else u in
  _adjust u p (size - old).

Definition owner_of (b : Batch E) : string := if bo_shared (b_body b) then ""%string else b_instance_id b.
Definition placement_of (b : Batch E) (key : K) : placement_id :=
  (bo_tier (b_body b), key, owner_of b, bo_backend (b_body b)).

Definition um_apply_entry (b : Batch E) (key : K) (entry : CacheEventEntry E) (u : CacheUsageManager)
  : CacheUsageManager :=
  let p := placement_of b key in
  match bo_event_type (b_body b) with
  | STORE => track u p (en_size_bytes entry) (default 0 (dget (um_placement_sizes u) p))
  | DELETE => _remove u p
  | _ => u
  end.

Definition um_consume (b : Batch E) : py_state CacheUsageManager unit :=
  if bool_decide (bo_event_type (b_body b) = ACCESS) then mret tt
  else for_entries (um_apply_entry b) (bo_entries (b_body b)).

Definition um_fence_instance (instance_id : string) (u : CacheUsageManager) : CacheUsageManager :=
  let owned := bucket (um_l1_by_instance u) instance_id in
  foldl _remove (with_l1 u (ddel (um_l1_by_instance u) instance_id)) owned.

(** ** Reads *)

Definition get_salt_bytes (u : CacheUsageManager) (tier : Tier) (cache_salt : string) : Z :=
  default 0 (dget (um_salt_bytes u) (tier, cache_salt)).

Definition get_bytes_by_salt (u : CacheUsageManager) (tier : Tier) : list (string * Z) :=
  foldl (λ d e, if decide (e.1.1 = tier) then dset d e.1.2 e.2 else d) [] (um_salt_bytes u).

Definition get_bytes_by_instance (u : CacheUsageManager) (tier : Tier) : list (string * list (string * Z)) :=
  foldl (λ d e, let '(placement_tier, instance_id, backend) := e.1 in
                if decide (placement_tier = tier)
                then dset d instance_id (dset (default [] (dget d instance_id)) backend e.2) else d)
    [] (um_instance_bytes u).

Definition get_key_bytes (u : CacheUsageManager) (tier : Tier) (key : K) : Z :=
  default 0 (dget (um_key_bytes u) (tier, key)).

Definition get_total_bytes (u : CacheUsageManager) (tier : Tier) : Z :=
  foldl (λ s e, if decide (e.1.1 = tier) then s + e.2 else s) 0 (um_salt_bytes u).

(** ** Capture and restore *)

Definition um_capture (u : CacheUsageManager) : list (string * F * string * string * Z) :=
  (λ e, (tier_value (pid_tier e.1), encode_key (pid_key e.1), pid_owner e.1, pid_backend e.1, e.2))
    <$> um_placement_sizes u.

Definition um_restore (placements : list (string * F * string * string * Z)) : py_state CacheUsageManager unit :=
  u ← gets id;
  if nonempty (um_placement_sizes u) then lift (Raise ValueError)
  else for_each (λ e, let '(tier_value, encoded_key, owner, backend, size) := e in
         tier ← lift (tier_of tier_value);
         key ← lift (decode_key encoded_key);
         modify (λ u, track u (tier, key, owner, backend) size 0)) placements.

(** ** The abstract specification *)

(** what the stream says the fleet holds *)
Definition fleet : Type := placement_id → option Z.

Definition fleet_set (m : fleet) (p : placement_id) (n : option Z) : fleet :=
  λ q, if decide (q = p) then n else m q.

Definition fleet_entry (b : Batch E) (m : fleet) (ke : K * CacheEventEntry E) : fleet :=
  match bo_event_type (b_body b) with
  | STORE => fleet_set m (placement_of b ke.1) (Some (en_size_bytes ke.2))
  | DELETE => fleet_set m (placement_of b ke.1) None
  | _ => m
  end.

(** the memory of an instance is gone; a pool the fleet shares is nobody's *)
Definition fleet_fence (i : string) (m : fleet) : fleet :=
  λ q, if bool_decide (pid_tier q = L1) && bool_decide (pid_owner q = i) && negb (is_empty i) then None else m q.

Definition fleet_deliver (m : fleet) (d : delivery string (batch_body E)) : fleet :=
  match d with
  | Consume b => foldl (fleet_entry b) m (keyed_entries (bo_entries (b_body b)))
  | FenceInstance i => fleet_fence i m
  end.

Definition um_deliver (d : delivery string (batch_body E)) : py_state CacheUsageManager unit :=
  match d with
  | Consume b => um_consume b
  | FenceInstance i => modify (um_fence_instance i)
  end.

(** ** The invariant *)

(** the rollup holds the positive sums of its groups *)
Record rollup_ok {G} `{EqDecision G} (f : placement_id → G) (r : list (G * Z)) (d : list (placement_id * Z)) : Prop := {
  ro_wf : dwf r;
  ro_exact : ∀ g, dget r g = let n := sum_of f d g in if 0 <? n then Some n else None }.

Definition indexed (p : placement_id) (i : string) : Prop :=
  pid_tier p = L1 ∧ pid_owner p = i ∧ i ≠ ""%string.

(** sizes and rollups agree *)
Record tallies (u : CacheUsageManager) : Prop := {
  ta_wf : dwf (um_placement_sizes u);
  ta_sizes : Forall (λ pn, 0 <= pn.2) (um_placement_sizes u);
  ta_keys : rollup_ok key_id (um_key_bytes u) (um_placement_sizes u);
  ta_salts : rollup_ok salt_id (um_salt_bytes u) (um_placement_sizes u);
  ta_nodes : rollup_ok node_id (um_instance_bytes u) (um_placement_sizes u) }.

(** and the index lists the tracked L1 placements of each instance *)
Record usage_ok (u : CacheUsageManager) : Prop := {
  uo_tallies : tallies u;
  uo_l1_nodup : ∀ i, NoDup (bucket (um_l1_by_instance u) i);
  uo_l1 : ∀ i p, p ∈ bucket (um_l1_by_instance u) i ↔ p ∈ dkeys (um_placement_sizes u) ∧ indexed p i }.

(** [get] with a default of zero reads the sum *)
Lemma rollup_read {G} `{EqDecision G} (f : placement_id → G) r d g :
  rollup_ok f r d → Forall (λ pn, 0 <= pn.2) d → default 0 (dget r g) = sum_of f d g.
Proof.
  intros [_ Hr] Hd. rewrite Hr. cbv zeta. pose proof (sum_of_nonneg f d g Hd).
  destruct (Z.ltb_spec 0 (sum_of f d g)); simpl; lia.
Qed.

Lemma adjust_rollup_ok {G} `{EqDecision G} (f : placement_id → G) r d d' p delta :
  rollup_ok f r d → Forall (λ pn, 0 <= pn.2) d →
  (∀ g, sum_of f d' g = sum_of f d g + if decide (f p = g) then delta else 0) →
  rollup_ok f (adjust_rollup r (f p) delta) d'.
Proof.
  intros Hr Hd Hs. unfold adjust_rollup. rewrite (rollup_read f r d) by done. cbv zeta.
  pose proof (Hs (f p)) as Hp. rewrite decide_True in Hp by done. rewrite <- Hp.
  split.
  - destruct (0 <? _); [apply dset_wf|apply ddel_wf]; apply Hr.
  - intros g. cbv zeta. destruct (decide (f p = g)) as [<-|Hne].
    + destruct (0 <? _); [by rewrite dget_dset_eq|by rewrite dget_ddel_eq].
    + assert (dget (if 0 <? sum_of f d' (f p) then dset r (f p) (sum_of f d' (f p)) else ddel r (f p)) g = dget r g) as ->.
      { destruct (0 <? _); [by rewrite dget_dset_ne|by rewrite dget_ddel_ne]. }
      rewrite (ro_exact _ _ _ Hr g), Hs, decide_False by done. by rewrite Z.add_0_r.
Qed.

(** the rollups follow a change of the sizes *)
Lemma adjust_tallies u d' l1 p delta :
  tallies u → dwf d' → Forall (λ pn, 0 <= pn.2) d' →
  (∀ G (HG : EqDecision G) (f : placement_id → G) g,
     sum_of f d' g = sum_of f (um_placement_sizes u) g + if decide (f p = g) then delta else 0) →
  tallies (_adjust (with_l1 (with_sizes u d') l1) p delta).
Proof.
  intros [? Hd Hk Hs Hn] ?? Hsum. unfold _adjust. destruct (Z.eqb_spec delta 0) as [->|].
  - assert (∀ G (HG : EqDecision G) (f : placement_id → G) r,
      rollup_ok f r (um_placement_sizes u) → rollup_ok f r d') as Hext.
    { intros G ? f r [Hw Hr]. split; [done|]. intros g. rewrite Hr, Hsum. case_decide; by rewrite Z.add_0_r. }
    constructor; cbn; auto.
  - constructor; cbn; try done; by eapply adjust_rollup_ok.
Qed.

Lemma adjust_sizes u p delta : um_placement_sizes (_adjust u p delta) = um_placement_sizes u.
Proof. unfold _adjust. by destruct (_ =? _). Qed.
Lemma adjust_l1 u p delta : um_l1_by_instance (_adjust u p delta) = um_l1_by_instance u.
Proof. unfold _adjust. by destruct (_ =? _). Qed.

Lemma dset_sizes_nonneg (d : list (placement_id * Z)) p n :
  Forall (λ pn, 0 <= pn.2) d → 0 <= n → Forall (λ pn, 0 <= pn.2) (dset d p n).
Proof. intros Hd Hn. induction Hd as [|[q m] d ? ? IH]; simpl; [by repeat constructor|]. case_decide; by constructor. Qed.

(** *** Tracking a placement *)

Definition indexes (p : placement_id) : bool := bool_decide (pid_tier p = L1) && negb (is_empty (pid_owner p)).

Lemma indexed_spec p i : indexed p i ↔ indexes p = true ∧ pid_owner p = i.
Proof.
  unfold indexed, indexes. rewrite andb_true_iff, bool_decide_eq_true, negb_true_iff, is_empty_spec. naive_solver.
Qed.

Lemma track_unfold u p size old :
  track u p size old =
  _adjust (with_l1 (with_sizes u (dset (um_placement_sizes u) p size))
             (if indexes p then bucket_add (um_l1_by_instance u) (pid_owner p) p else um_l1_by_instance u)) p (size - old).
Proof. unfold track, indexes. by destruct (_ && _). Qed.

Lemma track_sizes u p size old :
  um_placement_sizes (track u p size old) = dset (um_placement_sizes u) p size.
Proof. rewrite track_unfold. apply adjust_sizes. Qed.

Lemma track_ok u p size :
  usage_ok u → 0 <= size → usage_ok (track u p size (value_of (um_placement_sizes u) p)).
Proof.
  intros [Ht Hnd Hl1] Hsize. rewrite track_unfold. constructor.
  - apply adjust_tallies; [done|apply dset_wf, Ht|apply dset_sizes_nonneg; [apply Ht|done]|].
    intros G HG f g. by rewrite sum_of_dset.
  - intros i. rewrite adjust_l1. cbn [um_l1_by_instance um_placement_sizes with_l1 with_sizes]. destruct (indexes p); [|apply Hnd]. unfold bucket_add. rewrite bucket_of_dset.
    case_decide; [apply sadd_nodup|]; apply Hnd.
  - intros i q. rewrite adjust_l1, adjust_sizes. cbn [um_l1_by_instance um_placement_sizes with_l1 with_sizes].
    rewrite elem_of_dkeys, dget_dset. specialize (Hl1 i q). rewrite elem_of_dkeys in Hl1. rewrite indexed_spec in *.
    destruct (indexes p) eqn:Ep; [rewrite elem_of_bucket_add|]; rewrite Hl1;
      destruct (decide (p = q)) as [<-|]; rewrite ?Ep; naive_solver.
Qed.

(** *** Removing a placement *)

(** the index of [_remove] *)
Definition unindex (l1 : list (string * list placement_id)) (p : placement_id) : list (string * list placement_id) :=
  match (if decide (pid_tier p = L1) then dget l1 (pid_owner p) else None) with
  | None => l1
  | Some owned =>
      match sdiscard owned p with [] => ddel l1 (pid_owner p) | owned => dset l1 (pid_owner p) owned end
  end.

Lemma remove_unfold u p :
  _remove u p = _adjust (with_l1 (with_sizes u (ddel (um_placement_sizes u) p)) (unindex (um_l1_by_instance u) p)) p
                  (- value_of (um_placement_sizes u) p).
Proof.
  unfold _remove, unindex, value_of. case_decide; [|done].
  destruct (dget _ _) as [o|]; [|done]. by destruct (sdiscard o p).
Qed.

Lemma remove_sizes u p : um_placement_sizes (_remove u p) = ddel (um_placement_sizes u) p.
Proof. rewrite remove_unfold. apply adjust_sizes. Qed.
Lemma remove_l1 u p : um_l1_by_instance (_remove u p) = unindex (um_l1_by_instance u) p.
Proof. rewrite remove_unfold. apply adjust_l1. Qed.

Lemma remove_tallies u p : tallies u → tallies (_remove u p).
Proof.
  intros Ht. rewrite remove_unfold. apply adjust_tallies; [done|apply ddel_wf, Ht|apply ddel_Forall, Ht|].
  intros G HG f g. rewrite sum_of_ddel by apply Ht. case_decide; lia.
Qed.

Lemma bucket_unindex l1 p i :
  bucket (unindex l1 p) i = if decide (pid_tier p = L1 ∧ pid_owner p = i) then sdiscard (bucket l1 i) p else bucket l1 i.
Proof.
  unfold unindex. destruct (decide (pid_tier p = L1)) as [HL|HL]; [|by rewrite decide_False by naive_solver].
  destruct (decide (pid_owner p = i)) as [<-|Hne].
  - rewrite decide_True by done. destruct (dget l1 (pid_owner p)) as [o|] eqn:Ed; unfold bucket at 2; rewrite Ed; cbn [from_option id].
    + destruct (sdiscard o p); [rewrite bucket_ddel|rewrite bucket_of_dset]; by rewrite decide_True.
    + unfold bucket. by rewrite Ed.
  - rewrite decide_False by naive_solver. destruct (dget l1 (pid_owner p)) as [o|] eqn:Ed; [|done].
    destruct (sdiscard o p); [rewrite bucket_ddel|rewrite bucket_of_dset]; by rewrite decide_False.
Qed.

Lemma remove_ok u p : usage_ok u → usage_ok (_remove u p).
Proof.
  intros [Ht Hnd Hl1]. constructor; [by apply remove_tallies| |].
  - intros i. rewrite remove_l1, bucket_unindex. case_decide; [apply sdiscard_nodup|]; apply Hnd.
  - intros i q. rewrite remove_l1, remove_sizes, bucket_unindex, elem_of_dkeys, dget_ddel.
    specialize (Hl1 i q). rewrite elem_of_dkeys in Hl1. unfold indexed in *.
    case_decide; [rewrite elem_of_sdiscard|]; rewrite Hl1; destruct (decide (p = q)) as [<-|]; rewrite ?is_Some_alt; naive_solver.
Qed.

(** *** Fencing an instance *)

Lemma unindex_popped l1 p : dget l1 (pid_owner p) = None → unindex l1 p = l1.
Proof. unfold unindex. intros ->. by case_decide. Qed.

Lemma fence_loop i owned : ∀ u,
  Forall (λ p, pid_owner p = i) owned → dget (um_l1_by_instance u) i = None → tallies u →
  let u' := foldl _remove u owned in
  tallies u' ∧ um_l1_by_instance u' = um_l1_by_instance u ∧
  ∀ q, dget (um_placement_sizes u') q = if decide (q ∈ owned) then None else dget (um_placement_sizes u) q.
Proof.
  induction owned as [|p owned IH]; intros u Ho Hi Ht.
  { split_and!; [done..|]. intros q. by rewrite decide_False by apply not_elem_of_nil. }
  apply Forall_cons in Ho as [Hp Ho]. cbn [foldl].
  assert (um_l1_by_instance (_remove u p) = um_l1_by_instance u) as El.
  { rewrite remove_l1. apply unindex_popped. by rewrite Hp. }
  destruct (IH (_remove u p) Ho) as (Ht' & El' & Hq); [by rewrite El|by apply remove_tallies|].
  split_and!; [done|by rewrite El', El|]. intros q. rewrite Hq, remove_sizes, dget_ddel.
  destruct (decide (q ∈ owned)); [by rewrite decide_True by set_solver|].
  destruct (decide (p = q)) as [->|]; [by rewrite decide_True by left|by rewrite decide_False by set_solver].
Qed.

Lemma fence_sizes u i : usage_ok u →
  usage_ok (um_fence_instance i u) ∧
  ∀ q, dget (um_placement_sizes (um_fence_instance i u)) q = fleet_fence i (dget (um_placement_sizes u)) q.
Proof.
  intros [Ht Hnd Hl1]. unfold um_fence_instance.
  destruct (fence_loop i (bucket (um_l1_by_instance u) i) (with_l1 u (ddel (um_l1_by_instance u) i)))
    as (Ht' & El & Hq).
  { apply Forall_forall. intros p Hp%Hl1. apply Hp. }
  { apply dget_ddel_eq. }
  { destruct Ht. by constructor. }
  set (u' := foldl _ _ _) in *. cbn in El, Hq.
  assert (∀ q, dget (um_placement_sizes u') q = fleet_fence i (dget (um_placement_sizes u)) q) as Hf.
  { intros q. rewrite Hq. unfold fleet_fence.
    destruct (decide (q ∈ bucket (um_l1_by_instance u) i)) as [Hin|Hin].
    - apply Hl1 in Hin as [_ (-> & -> & Hi)]. rewrite !bool_decide_true by done.
      apply is_empty_spec in Hi. by rewrite Hi.
    - rewrite Hl1, elem_of_dkeys in Hin. destruct (_ && _) eqn:Ec; [|done].
      apply andb_true_iff in Ec as [[?%bool_decide_eq_true ?%bool_decide_eq_true]%andb_true_iff Hi].
      apply negb_true_iff, is_empty_spec in Hi. apply eq_None_not_Some. intros Hs. by apply Hin. }
  split; [|done]. constructor; [done| |].
  - intros j. rewrite El, bucket_ddel. case_decide; [constructor|done].
  - intros j q. rewrite El, bucket_ddel, elem_of_dkeys, Hf. unfold fleet_fence.
    specialize (Hl1 j q). rewrite elem_of_dkeys in Hl1. unfold indexed in *.
    destruct (decide (i = j)) as [->|Hne].
    + split; [intros Hx; by apply not_elem_of_nil in Hx|]. intros (Hs & HL & HO & Hj). exfalso.
      rewrite !bool_decide_true in Hs by done. apply is_empty_spec in Hj. rewrite Hj in Hs. by destruct Hs.
    + rewrite Hl1. destruct (_ && _) eqn:Ec; [|done].
      apply andb_true_iff in Ec as [[?%bool_decide_eq_true ?%bool_decide_eq_true]%andb_true_iff _].
      split; [naive_solver|]. intros [Hs _]. by destruct Hs.
Qed.

(** *** Deliveries *)

Lemma apply_entry_ok b ke u : usage_ok u → 0 <= en_size_bytes ke.2 →
  usage_ok (um_apply_entry b ke.1 ke.2 u) ∧
  ∀ q, dget (um_placement_sizes (um_apply_entry b ke.1 ke.2 u)) q = fleet_entry b (dget (um_placement_sizes u)) ke q.
Proof.
  intros Hu Hs. unfold um_apply_entry, fleet_entry, fleet_set. destruct (bo_event_type (b_body b)).
  - split; [by apply track_ok|]. intros q. rewrite track_sizes, dget_dset. repeat case_decide; congruence.
  - split; [by apply remove_ok|]. intros q. rewrite remove_sizes, dget_ddel. repeat case_decide; congruence.
  - done.
  - done.
Qed.

(** the specification does not distinguish functions with equal values *)
Lemma fleet_entries_ext b l : ∀ m m' : fleet, (∀ q, m q = m' q) →
  ∀ q, foldl (fleet_entry b) m l q = foldl (fleet_entry b) m' l q.
Proof.
  induction l as [|ke l IH]; intros m m' Hm; [done|]. cbn [foldl]. apply IH. intros q.
  unfold fleet_entry, fleet_set. destruct (bo_event_type _); try done; by case_decide.
Qed.

Lemma entries_ok b l : ∀ u, usage_ok u → Forall (λ ke, 0 <= en_size_bytes ke.2) l →
  let u' := foldl (λ u ke, um_apply_entry b ke.1 ke.2 u) u l in
  usage_ok u' ∧ ∀ q, dget (um_placement_sizes u') q = foldl (fleet_entry b) (dget (um_placement_sizes u)) l q.
Proof.
  induction l as [|ke l IH]; intros u Hu Hl; [done|]. apply Forall_cons in Hl as [Hs Hl]. cbn [foldl].
  destruct (apply_entry_ok b ke u Hu Hs) as [Hu1 H1]. destruct (IH _ Hu1 Hl) as [Hu2 H2].
  split; [done|]. intros q. rewrite H2. by apply fleet_entries_ext.
Qed.

Lemma deliver_ok d u : usage_ok u → delivery_ok d →
  ∃ u', um_deliver d u = (Ok tt, u') ∧ usage_ok u' ∧
  ∀ q, dget (um_placement_sizes u') q = fleet_deliver (dget (um_placement_sizes u)) d q.
Proof.
  intros Hu Hd. destruct d as [b|i]; cbn in Hd |- *.
  - unfold um_consume. case_bool_decide as Ha.
    + exists u. split_and!; [done..|]. intros q. generalize (keyed_entries (bo_entries (b_body b))).
      intros l. induction l as [|ke l IH]; [done|]. cbn [foldl]. unfold fleet_entry at 2. by rewrite Ha.
    + rewrite for_entries_ok by done. eexists. split; [done|]. by apply entries_ok, keyed_entries_sizes.
  - eexists. split; [done|]. by apply fence_sizes.
Qed.

Lemma fleet_deliver_ext d (m m' : fleet) : (∀ q, m q = m' q) → ∀ q, fleet_deliver m d q = fleet_deliver m' d q.
Proof.
  intros Hm q. destruct d as [b|i]; cbn; [by apply fleet_entries_ext|]. unfold fleet_fence. by destruct (_ && _).
Qed.

Lemma deliveries_ok ds : ∀ u m, usage_ok u → (∀ q, dget (um_placement_sizes u) q = m q) → Forall delivery_ok ds →
  ∃ u', for_each um_deliver ds u = (Ok tt, u') ∧ usage_ok u' ∧
  ∀ q, dget (um_placement_sizes u') q = foldl fleet_deliver m ds q.
Proof.
  induction ds as [|d ds IH]; intros u m Hu Hm Hds; [by exists u|]. apply Forall_cons in Hds as [Hd Hds].
  destruct (deliver_ok d u Hu Hd) as (u1 & E1 & Hu1 & H1).
  destruct (IH u1 (fleet_deliver m d) Hu1) as (u2 & E2 & Hu2 & H2); [|done|].
  { intros q. rewrite H1. by apply fleet_deliver_ext. }
  exists u2. split_and!; [|done|done]. cbn [for_each]. by rewrite (bind_ok _ _ _ _ _ E1).
Qed.

Lemma um_init_ok : usage_ok um_init.
Proof.
  constructor; [by repeat constructor|intros; constructor|]. intros i p. cbn.
  split; [intros Hx; by apply not_elem_of_nil in Hx|]. intros [Hx _]. by apply not_elem_of_nil in Hx.
Qed.

(** ** Every read is a sum over the placements *)

Lemma bytes_by_salt_read (r : list ((Tier * string) * Z)) tier s : ∀ acc, dwf r →
  dget (foldl (λ d e, if decide (e.1.1 = tier) then dset d e.1.2 e.2 else d) acc r) s =
  match dget r (tier, s) with Some n => Some n | None => dget acc s end.
Proof.
  induction r as [|[[t' s'] n] r IH]; intros acc Hr; [done|]. apply NoDup_cons in Hr as [Hn Hr].
  cbn [foldl fst snd]. rewrite IH by done. cbn. apply dget_None_dkeys in Hn. cbn [fst] in Hn.
  destruct (decide (t' = tier)) as [->|].
  - destruct (decide ((tier, s') = (tier, s))) as [[= ->]|Hne]; [by rewrite Hn, dget_dset_eq|].
    rewrite dget_dset_ne by congruence. done.
  - by rewrite decide_False by congruence.
Qed.

Lemma bytes_by_instance_read (r : list ((Tier * string * string) * Z)) tier i b : ∀ acc, dwf r →
  dget (default [] (dget (foldl (λ d e, let '(t, i, b) := e.1 in
      if decide (t = tier) then dset d i (dset (default [] (dget d i)) b e.2) else d) acc r) i)) b =
  match dget r (tier, i, b) with Some n => Some n | None => dget (default [] (dget acc i)) b end.
Proof.
  induction r as [|[[[t' i'] b'] n] r IH]; intros acc Hr; [done|]. apply NoDup_cons in Hr as [Hn Hr].
  cbn [foldl fst snd]. rewrite IH by done. cbn. apply dget_None_dkeys in Hn. cbn [fst] in Hn.
  destruct (decide (t' = tier)) as [->|]; [|by rewrite decide_False by congruence].
  destruct (decide ((tier, i', b') = (tier, i, b))) as [[= -> ->]|Hne].
  - by rewrite Hn, dget_dset_eq; cbn; rewrite dget_dset_eq.
  - destruct (decide (i' = i)) as [->|]; [|by rewrite dget_dset_ne].
    rewrite dget_dset_eq. cbn. by rewrite dget_dset_ne by congruence.
Qed.

Lemma total_unfold (r : list ((Tier * string) * Z)) tier (h : Tier * string → Z) : ∀ acc,
  (∀ g n, (g, n) ∈ r → n = h g) →
  foldl (λ s e, if decide (e.1.1 = tier) then s + e.2 else s) acc r =
  acc + foldr Z.add 0 (h <$> filter (λ g, g.1 = tier) (dkeys r)).
Proof.
  induction r as [|[g n] r IH]; intros acc Hr; [cbn; lia|]. cbn [foldl fst snd].
  rewrite IH by (intros; apply Hr; by right). unfold dkeys. rewrite fmap_cons, filter_cons.
  cbn [fst]. case_decide; [|done]. rewrite fmap_cons. cbn [foldr]. rewrite (Hr g n) by left. lia.
Qed.

Lemma sum_of_member {G} `{EqDecision G} (f : placement_id → G) d p n :
  Forall (λ pn, 0 <= pn.2) d → (p, n) ∈ d → n <= sum_of f d (f p).
Proof.
  induction 1 as [|[q m] d Hm Hd IH]; intros Hin; [by apply not_elem_of_nil in Hin|]. cbn in Hm. rewrite sum_of_cons.
  pose proof (sum_of_nonneg f d (f p) Hd). apply elem_of_cons in Hin as [[= -> ->]|Hin].
  - rewrite decide_True by done. lia.
  - specialize (IH Hin). case_decide; lia.
Qed.

Lemma total_bytes_read u tier : tallies u →
  get_total_bytes u tier = sum_of pid_tier (um_placement_sizes u) tier.
Proof.
  intros [_ Hd _ [Hw Hr] _]. unfold get_total_bytes.
  rewrite (total_unfold _ _ (sum_of salt_id (um_placement_sizes u))).
  2:{ intros g n Hin. apply (dget_wf_elem_of _ _ _ Hw) in Hin. rewrite Hr in Hin. cbv zeta in Hin.
      destruct (0 <? _); congruence. }
  rewrite Z.add_0_l, sum_of_groups by (by apply NoDup_filter).
  assert (∀ p n, (p, n) ∈ um_placement_sizes u →
    salt_id p ∈ filter (λ g, g.1 = tier) (dkeys (um_salt_bytes u)) ↔ pid_tier p = tier ∧ (n = 0 → salt_id p ∈ dkeys (um_salt_bytes u))) as Hg.
  { intros p n Hin. rewrite list_elem_of_filter. split; [naive_solver|]. intros [Hp Hz]. split; [done|].
    apply elem_of_dkeys. pose proof (sum_of_member salt_id _ p n Hd Hin).
    destruct (decide (n = 0)) as [?|Hne]; [by apply elem_of_dkeys; auto|].
    assert (0 <= n) by (rewrite Forall_forall in Hd; by apply (Hd (p, n))).
    rewrite Hr. cbv zeta. rewrite (proj2 (Z.ltb_lt _ _)) by lia. done. }
  clear Hd. revert Hg. generalize (filter (λ g : Tier * string, g.1 = tier) (dkeys (um_salt_bytes u))).
  generalize (um_placement_sizes u). intros d ks Hg. induction d as [|[p n] d IH]; [done|].
  rewrite sum_of_cons. cbn [foldr fst snd]. rewrite IH by (intros; apply Hg; by right). specialize (Hg p n ltac:(left)).
  destruct (decide (pid_tier p = tier)); destruct (decide (salt_id p ∈ ks)); try done; [|naive_solver].
  destruct (decide (n = 0)) as [->|]; [lia|naive_solver].
Qed.

(** what the reads of the view promise of the sizes it tracks *)
Record reads_exact (u : CacheUsageManager) : Prop := {
  re_key t k : get_key_bytes u t k = sum_of key_id (um_placement_sizes u) (t, k);
  re_salt t s : get_salt_bytes u t s = sum_of salt_id (um_placement_sizes u) (t, s);
  re_by_salt t s : default 0 (dget (get_bytes_by_salt u t) s) = sum_of salt_id (um_placement_sizes u) (t, s);
  re_by_instance t i b :
    default 0 (dget (default [] (dget (get_bytes_by_instance u t) i)) b) =
    sum_of node_id (um_placement_sizes u) (t, i, b);
  re_total t : get_total_bytes u t = sum_of pid_tier (um_placement_sizes u) t }.

Lemma tallies_reads u : tallies u → reads_exact u.
Proof.
  intros Ht. pose proof Ht as [_ Hd Hk Hs Hn]. constructor; intros.
  - by apply rollup_read.
  - by apply rollup_read.
  - unfold get_bytes_by_salt. rewrite bytes_by_salt_read by apply Hs. rewrite <- (rollup_read _ _ _ _ Hs Hd).
    by destruct (dget _ _).
  - unfold get_bytes_by_instance. rewrite bytes_by_instance_read by apply Hn. rewrite <- (rollup_read _ _ _ _ Hn Hd).
    by destruct (dget _ _).
  - by apply total_bytes_read.
Qed.

(** ** Restarting *)

Lemma restore_loop (d2 : list (placement_id * Z)) : ∀ u,
  usage_ok u → dwf (um_placement_sizes u ++ d2) → Forall (λ pn, 0 <= pn.2) d2 →
  ∃ u', for_each (λ e, let '(tier_value, encoded_key, owner, backend, size) := e in
         tier ← lift (tier_of tier_value);
         key ← lift (decode_key encoded_key);
         modify (λ u, track u (tier, key, owner, backend) size 0))
       ((λ e, (tier_value (pid_tier e.1), encode_key (pid_key e.1), pid_owner e.1, pid_backend e.1, e.2)) <$> d2) u
     = (Ok tt, u') ∧ usage_ok u' ∧ um_placement_sizes u' = um_placement_sizes u ++ d2.
Proof.
  induction d2 as [|[[[[t k] o] b] n] d2 IH]; intros u Hu Hw Hd; [exists u; by rewrite app_nil_r|].
  apply Forall_cons in Hd as [Hn Hd]. set (p := (t, k, o, b)) in *.
  assert (dget (um_placement_sizes u) p = None) as Hp.
  { apply dget_None_dkeys. unfold dwf, dkeys in *. rewrite fmap_app in Hw.
    apply NoDup_app in Hw as (_ & Hw & _). intros Hin. apply (Hw p Hin). left. }
  pose proof (track_ok u p n Hu Hn) as Hu1. unfold value_of in Hu1. rewrite Hp in Hu1. cbn [from_option id] in Hu1.
  assert (um_placement_sizes (track u p n 0) = um_placement_sizes u ++ [(p, n)]) as Es
    by (rewrite track_sizes; by apply dkeys_dset_new).
  destruct (IH (track u p n 0) Hu1) as (u' & E' & Hu' & Es'); [by rewrite Es, <- app_assoc|done|].
  exists u'. split_and!; [|done|by rewrite Es', Es, <- app_assoc].
  rewrite fmap_cons. cbn [for_each fst snd pid_tier pid_key pid_owner pid_backend p].
  unfold mbind at 1, py_bind at 1. unfold mbind at 1, py_bind at 1, lift at 1. rewrite tier_of_value.
  unfold mbind at 1, py_bind at 1, lift at 1. rewrite decode_key_encode. exact E'.
Qed.

Lemma restore_capture u : usage_ok u →
  ∃ u', um_restore (um_capture u) um_init = (Ok tt, u') ∧ usage_ok u' ∧ um_placement_sizes u' = um_placement_sizes u.
Proof.
  intros Hu. apply (restore_loop (um_placement_sizes u) um_init); [apply um_init_ok|apply Hu|apply Hu].
Qed.

End usage.

Arguments CacheUsageManager K : clear implicits.
Arguments placement_id K : clear implicits.

(** C17: The usage view is the sum of what the stream reports: after any sequence
    of batches that passed the checks and of fences, it has raised nothing, holds
    the size of every placement that the stream says exists and of no other (a
    store replaces, a delete removes, a fence removes the L1 placements of the
    instance), and every read, per key, per salt, per owner and backend and in
    total, is the sum of those sizes over the placements it is about. *)
Theorem usage_view_exact {K E F} `{EqDecision K} `{KC : KeyCodec K E F} (ds : list (delivery string (batch_body E))) :
  Forall delivery_ok ds →
  ∃ u : CacheUsageManager K, for_each um_deliver ds um_init = (Ok tt, u) ∧
    (∀ p, dget (um_placement_sizes u) p = foldl fleet_deliver (λ _, None) ds p) ∧
    reads_exact u.
Proof.
  intros Hds. destruct (deliveries_ok ds um_init (λ _, None) um_init_ok (λ _, eq_refl) Hds) as (u & Eu & Hu & Hp).
  exists u. split_and!; [done|done|]. apply tallies_reads, Hu.
Qed.

(** A restart of the usage view is not observable: capturing the view after
    any prefix of the stream, restoring the capture into a new view and going on
    gives the placements and the sums of the whole stream; a view that holds
    placements refuses to be restored. *)
Theorem usage_restart_transparent {K E F} `{EqDecision K} `{KC : KeyCodec K E F}
    (ds1 ds2 : list (delivery string (batch_body E))) :
  Forall delivery_ok (ds1 ++ ds2) →
  ∃ u1 u2 u3 : CacheUsageManager K, for_each um_deliver ds1 um_init = (Ok tt, u1) ∧
    um_restore (um_capture u1) um_init = (Ok tt, u2) ∧
    for_each um_deliver ds2 u2 = (Ok tt, u3) ∧
    (∀ p, dget (um_placement_sizes u3) p = foldl fleet_deliver (λ _, None) (ds1 ++ ds2) p) ∧
    reads_exact u3 ∧
    (um_placement_sizes u1 ≠ [] → ∀ s, um_restore s u1 = (Raise ValueError, u1)).
Proof.
  intros [H1 H2]%Forall_app.
  destruct (deliveries_ok ds1 um_init (λ _, None) um_init_ok (λ _, eq_refl) H1) as (u1 & E1 & Hu1 & Hp1).
  destruct (restore_capture u1 Hu1) as (u2 & E2 & Hu2 & Es).
  destruct (deliveries_ok ds2 u2 (foldl fleet_deliver (λ _, None) ds1) Hu2) as (u3 & E3 & Hu3 & Hp3); [|done|].
  { intros q. by rewrite Es. }
  exists u1, u2, u3. split_and!; [done..| | |].
  - intros p. by rewrite Hp3, foldl_app.
  - apply tallies_reads, Hu3.
  - intros Hne s. unfold um_restore, gets, mbind, py_bind, id. cbv beta iota. by destruct (um_placement_sizes u1).
Qed.

(** two servers share a bucket and keep private memory; one restarts *)
Definition demo_usage : list (delivery string (batch_body EncodedObjectKey)) :=
  [ Consume (example_batch "a" 1 1 STORE CacheEvents.L1 "dram" false [mkEntry (example_encoded x01 "t") 10 [] (-1); mkEntry (example_encoded x02 "t") 7 [] (-1)]);
    Consume (example_batch "b" 1 1 STORE CacheEvents.L1 "dram" false [mkEntry (example_encoded x01 "t") 10 [] (-1)]);
    Consume (example_batch "a" 1 2 STORE CacheEvents.L2 "s3" true [mkEntry (example_encoded x01 "t") 5 [] (-1)]);
    Consume (example_batch "b" 1 2 STORE CacheEvents.L2 "s3" true [mkEntry (example_encoded x01 "t") 6 [] (-1)]);
    FenceInstance "a"%string;
    Consume (example_batch "b" 1 3 DELETE CacheEvents.L1 "dram" false [mkEntry (example_encoded x02 "t") 0 [] (-1)]) ].

Lemma demo_usage_ok : Forall delivery_ok demo_usage.
Proof. apply deliveries_checked. vm_compute. reflexivity. Qed.

Example demo_usage_reads :
  let u := (for_each um_deliver demo_usage um_init).2 in
  (get_total_bytes u CacheEvents.L1, get_total_bytes u CacheEvents.L2, get_salt_bytes u CacheEvents.L1 "t"%string,
   get_bytes_by_instance u CacheEvents.L2) = (10, 6, 10, [(""%string, [("s3"%string, 6)])]).
Proof. vm_compute. reflexivity. Qed.

Lemma usage_view_exact_witness :
  ∃ u : CacheUsageManager Key, for_each um_deliver demo_usage um_init = (Ok tt, u) ∧ reads_exact u ∧
    get_total_bytes u CacheEvents.L1 = 10.
Proof.
  destruct (usage_view_exact demo_usage demo_usage_ok) as (u & Eu & _ & Hr). exists u. split_and!; [done..|].
  assert (u = (for_each um_deliver demo_usage um_init).2) as -> by (by rewrite Eu). vm_compute. reflexivity.
Defined.

Lemma usage_restart_witness :
  ∃ u1 u2 : CacheUsageManager Key, um_restore (um_capture u1) um_init = (Ok tt, u2) ∧
    for_each um_deliver (take 3 demo_usage) um_init = (Ok tt, u1).
Proof.
  destruct (usage_restart_transparent (take 3 demo_usage) (drop 3 demo_usage)) as (u1 & u2 & _ & E1 & E2 & _).
  - rewrite take_drop. exact demo_usage_ok.
  - by exists u1, u2.
Defined.
