(* ===== verification/BlendIndex.v ===== *)
(** * The blend index

    [mp_coordinator/blend_index.py] with the two hash kernels of
    [multiprocess/token_hasher.py]: a table from the 64-bit fingerprint of a
    chunk's tokens to the chunks that hold them, behind an occupancy filter. Arrays
    are lists of their elements; the kernels wrap at 64 bits. The reference is an
    index keyed by the content itself, without hashing or filter. *)

From S2P Require Import Prelude PyDict PyState PyFloat EventGate CacheEvents.

Open Scope Z_scope.

(** ** The kernels *)

Definition w64 (z : Z) : Z := z mod 2 ^ 64.

(** one step of Horner's rule in [uint64] *)
Definition horner (base h x : Z) : Z := w64 (w64 (h * base) + x).

Definition power_loop (k : nat) (base : Z) : Z := Nat.iter (k - 1) (λ p, w64 (p * base)) 1.

(** [for i in range(k, n)]: [old = arr[i - k]], [new = arr[i]] *)
Fixpoint rolling_loop (power base h : Z) (pairs : list (Z * Z)) : list Z :=
  match pairs with
  | [] => []
  | (old, new) :: pairs =>
      let h := w64 (h - w64 (old * power)) in
      let h := horner base h new in
      h :: rolling_loop power base h pairs
  end.

(** called with [k <= len(arr)] *)
Definition rolling_hash_windows_numba (arr : list Z) (k : nat) (base : Z) : list Z :=
  let power := power_loop k base in
  let h := foldl (horner base) 0 (take k arr) in
  h :: rolling_loop power base h (zip arr (drop k arr)).

Definition chunk_hash_windows_numba (arr : list Z) (k : nat) (base : Z) : list Z :=
  (λ w, foldl (horner base) 0 (take k (drop (w * k) arr))) <$> seq 0 (length arr / k).

(** ** The index *)

Definition POLY_BASE : Z := 0x9E3779B97F4A7C15.
Definition _TABLE_GROWTH : Z := 16.
Definition _MIN_TABLE_SIZE : Z := 1024.

Abbreviation chunk := (list byte).

Record _FingerprintEntry := mkFingerprint {
  fe_token_ids : list Z;
  fe_occupants : list (chunk * Z) }.

Record BlendIndex := mkBlendIndex {
  bi_chunk_size : nat;
  bi_probe_stride : nat;
  bi_table : list (Z * _FingerprintEntry);
  bi_slots : list Z;
  bi_mask : Z;
  bi_bits_set : Z }.

Record BlendIndexStats := mkBlendStats { bs_num_contents : Z; bs_num_chunks : Z; bs_table_size : Z }.

Definition zeros (n : Z) : list Z := replicate (Z.to_nat n) 0.

Definition new_blend_index (chunk_size probe_stride : Z) : result BlendIndex :=
  (guard negb (chunk_size <? 1) else ValueError;
   guard negb (probe_stride <? 1) else ValueError;
   Ok (mkBlendIndex (Z.to_nat chunk_size) (Z.to_nat probe_stride) [] (zeros _MIN_TABLE_SIZE)
         (_MIN_TABLE_SIZE - 1) 0))%py.

Definition with_table (t : BlendIndex) d : BlendIndex :=
  mkBlendIndex (bi_chunk_size t) (bi_probe_stride t) d (bi_slots t) (bi_mask t) (bi_bits_set t).
Definition with_slots (t : BlendIndex) s m b : BlendIndex :=
  mkBlendIndex (bi_chunk_size t) (bi_probe_stride t) (bi_table t) s m b.

(** the callers have checked the length, so there is one window *)
Definition _fingerprint (t : BlendIndex) (token_ids : list Z) : Z :=
  match chunk_hash_windows_numba token_ids (bi_chunk_size t) POLY_BASE with h :: _ => h | [] => 0 end.

(** [while size < target: size <<= 1] *)
Fixpoint grow (fuel : nat) (size target : Z) : Z :=
  match fuel with
  | O => size
  | S fuel => if size <? target then grow fuel (Z.shiftl size 1) target else size
  end.

Definition set_slot (slots : list Z) (i : Z) : list Z := <[Z.to_nat i := 1]> slots.
Definition count_nonzero (l : list Z) : Z := Z.of_nat (length (filter (λ x, x ≠ 0) l)).

Definition _rebuild_table (t : BlendIndex) : BlendIndex :=
  let target := _TABLE_GROWTH * Z.of_nat (length (bi_table t)) in
  let size := grow (Z.to_nat (Z.log2_up target)) _MIN_TABLE_SIZE target in
  let mask := size - 1 in
  let slots := foldl (λ s poly, set_slot s (Z.land poly mask)) (zeros size) (dkeys (bi_table t)) in
  with_slots t slots mask (count_nonzero slots).

(** the occupants with [chunk_hash] at its place, or appended *)
Fixpoint put_occupant (occupants : list (chunk * Z)) (chunk_hash : chunk) (token_offset : Z) : list (chunk * Z) :=
  match occupants with
  | [] => [(chunk_hash, token_offset)]
  | (held, off) :: occupants =>
      if decide (held = chunk_hash) then (chunk_hash, token_offset) :: occupants
      else (held, off) :: put_occupant occupants chunk_hash token_offset
  end.

Definition slot_at (slots : list Z) (i : Z) : Z := default 0 (slots !! Z.to_nat i).

Definition add (t : BlendIndex) (token_ids : list Z) (chunk_hash : chunk) (token_offset : Z) : BlendIndex :=
  if negb (length token_ids =? bi_chunk_size t)%nat then t
  else
    let poly := _fingerprint t token_ids in
    match dget (bi_table t) poly with
    | None =>
        let t := with_table t (dset (bi_table t) poly (mkFingerprint token_ids [(chunk_hash, token_offset)])) in
        let slot := Z.land poly (bi_mask t) in
        let t := if slot_at (bi_slots t) slot =? 0
                 then with_slots t (set_slot (bi_slots t) slot) (bi_mask t) (bi_bits_set t + 1) else t in
        if Z.of_nat (length (bi_slots t)) <? _TABLE_GROWTH * Z.of_nat (length (bi_table t))
        then _rebuild_table t else t
    | Some entry =>
        with_table t (dset (bi_table t) poly
          (mkFingerprint (fe_token_ids entry) (put_occupant (fe_occupants entry) chunk_hash token_offset)))
    end.

Definition remove (t : BlendIndex) (token_ids : list Z) (chunk_hash : chunk) : BlendIndex :=
  if negb (length token_ids =? bi_chunk_size t)%nat then t
  else
    let poly := _fingerprint t token_ids in
    match dget (bi_table t) poly with
    | None => t
    | Some entry =>
        match filter (λ o, o.1 ≠ chunk_hash) (fe_occupants entry) with
        | [] =>
            let t := with_table t (ddel (bi_table t) poly) in
            if 2 * Z.of_nat (length (bi_table t)) <? bi_bits_set t then _rebuild_table t else t
        | occupants => with_table t (dset (bi_table t) poly (mkFingerprint (fe_token_ids entry) occupants))
        end
    end.

(** [l[::stride]] *)
Definition strided (l : list Z) (stride : nat) : list Z :=
  omap (λ j, l !! (j * stride)%nat) (seq 0 (length l)).

Definition window (query : list Z) (k p : nat) : list Z := take k (drop p query).

(** [for chunk_hash, token_offset in occupants: if seen continue; ...; break] *)
Definition first_unseen (seen : list chunk) (occupants : list (chunk * Z)) : option (chunk * Z) :=
  List.find (λ o, negb (bool_decide (o.1 ∈ seen))) occupants.

(** a verified candidate at [cur_st] *)
Definition accept (s : list BlendMatch * list chunk) (occupants : list (chunk * Z)) (cur_st : nat)
  : list BlendMatch * list chunk :=
  match first_unseen (snd s) occupants with
  | None => s
  | Some (chunk_hash, token_offset) =>
      (fst s ++ [mkBlendMatch chunk_hash token_offset (Z.of_nat cur_st)], chunk_hash :: snd s)
  end.

Definition match_position (t : BlendIndex) (query : list Z) (s : list BlendMatch * list chunk) (jp : nat * Z)
  : list BlendMatch * list chunk :=
  let '(position, poly) := jp in
  if slot_at (bi_slots t) (Z.land poly (bi_mask t)) =? 0 then s
  else
    match dget (bi_table t) poly with
    | None => s
    | Some entry =>
        let cur_st := (position * bi_probe_stride t)%nat in
        if bool_decide (window query (bi_chunk_size t) cur_st = fe_token_ids entry)
        then accept s (fe_occupants entry) cur_st else s
    end.

Definition match_ (t : BlendIndex) (query : list Z) : list BlendMatch :=
  if (length query <? bi_chunk_size t)%nat then []
  else
    let rolling := rolling_hash_windows_numba query (bi_chunk_size t) POLY_BASE in
    let probe := strided rolling (bi_probe_stride t) in
    fst (foldl (match_position t query) ([], []) (imap pair probe)).

Definition stats (t : BlendIndex) : BlendIndexStats :=
  mkBlendStats (Z.of_nat (length (bi_table t)))
    (foldl (λ n e, n + Z.of_nat (length (fe_occupants e))) 0 (dvals (bi_table t)))
    (Z.of_nat (length (bi_slots t))).

(** ** The reference: an index keyed by content *)

Definition content_index : Type := list (list Z * list (chunk * Z)).

Definition spec_add (c : content_index) (k : nat) (token_ids : list Z) (chunk_hash : chunk) (token_offset : Z)
  : content_index :=
  if negb (length token_ids =? k)%nat then c
  else dset c token_ids (put_occupant (default [] (dget c token_ids)) chunk_hash token_offset).

Definition spec_remove (c : content_index) (k : nat) (token_ids : list Z) (chunk_hash : chunk) : content_index :=
  if negb (length token_ids =? k)%nat then c
  else match dget c token_ids with
       | None => c
       | Some occupants =>
           match filter (λ o, o.1 ≠ chunk_hash) occupants with
           | [] => ddel c token_ids
           | occupants => dset c token_ids occupants
           end
       end.

(** look at every [stride]-th position of the query *)
Definition spec_match (c : content_index) (k stride : nat) (query : list Z) : list BlendMatch :=
  fst (foldl (λ s p, match dget c (window query k p) with Some occupants => accept s occupants p | None => s end)
    ([], []) (filter (λ p, (p + k <= length query)%nat) ((λ j, (j * stride)%nat) <$> seq 0 (length query + 1 - k)))).

(** ** The rolling hash equals the hash of each window *)

Definition horner_z (base h x : Z) : Z := h * base + x.

Lemma w64_w64 z : w64 (w64 z) = w64 z.
Proof. unfold w64. by rewrite Z.mod_mod by lia. Qed.

Lemma horner_w64 base z x : horner base (w64 z) x = w64 (horner_z base z x).
Proof.
  unfold horner, horner_z, w64. rewrite Zplus_mod_idemp_l, <- (Zplus_mod_idemp_l (z mod _ * base)).
  by rewrite Zmult_mod_idemp_l, Zplus_mod_idemp_l.
Qed.

Lemma horner_exact base l : ∀ z, foldl (horner base) (w64 z) l = w64 (foldl (horner_z base) z l).
Proof. induction l as [|x l IH]; intros z; [done|]. cbn [foldl]. by rewrite horner_w64, IH. Qed.

Lemma horner_z_shift base l : ∀ z,
  foldl (horner_z base) z l = z * base ^ Z.of_nat (length l) + foldl (horner_z base) 0 l.
Proof.
  induction l as [|x l IH]; intros z; [cbn; lia|]. cbn [foldl length]. rewrite IH, (IH (horner_z base 0 x)).
  unfold horner_z. rewrite Nat2Z.inj_succ, Z.pow_succ_r by lia. ring.
Qed.

Definition window_hash (base : Z) (l : list Z) : Z := foldl (horner base) 0 l.

Lemma window_hash_exact base l : window_hash base l = w64 (foldl (horner_z base) 0 l).
Proof. unfold window_hash. by rewrite <- (horner_exact base l 0). Qed.

Lemma power_loop_exact k base : power_loop k base = w64 (base ^ Z.of_nat (k - 1)).
Proof.
  unfold power_loop. induction (k - 1)%nat as [|n IH]; [done|].
  cbn [Nat.iter nat_rect]. change (nat_rect _ 1 _ n) with (Nat.iter n (λ p, w64 (p * base)) 1). rewrite IH.
  unfold w64. rewrite Zmult_mod_idemp_l. f_equal. rewrite Nat2Z.inj_succ, Z.pow_succ_r by lia. ring.
Qed.

(** sliding the window by one *)
Lemma rolling_step k base x l y : length (x :: l) = k →
  horner base (w64 (window_hash base (x :: l) - w64 (x * power_loop k base))) y = window_hash base (l ++ [y]).
Proof.
  intros Hk. rewrite !window_hash_exact, power_loop_exact, foldl_app. cbn [foldl length] in *.
  assert (w64 (w64 (foldl (horner_z base) (horner_z base 0 x) l) - w64 (x * w64 (base ^ Z.of_nat (k - 1))))
    = w64 (foldl (horner_z base) 0 l)) as ->.
  { unfold w64. rewrite Zmult_mod_idemp_r, <- Zminus_mod. f_equal.
    rewrite horner_z_shift. unfold horner_z at 1. replace (k - 1)%nat with (length l) by lia. ring. }
  by rewrite horner_w64.
Qed.

Lemma rolling_windows k base : (0 < k)%nat → ∀ arr, (k <= length arr)%nat →
  rolling_hash_windows_numba arr k base =
  (λ p, window_hash base (window arr k p)) <$> seq 0 (length arr + 1 - k).
Proof.
  intros Hk arr. induction arr as [|x arr IH]; intros Hlen; [cbn in Hlen; lia|].
  unfold rolling_hash_windows_numba. change (foldl (horner base) 0) with (window_hash base).
  destruct (decide (length arr < k)%nat) as [Hlt|Hge].
  - cbn in Hlen. assert (drop k (x :: arr) = []) as -> by (apply drop_ge; cbn; lia).
    replace (length (x :: arr) + 1 - k)%nat with 1%nat by (cbn; lia). cbn [seq fmap list_fmap].
    by destruct k.
  - destruct k as [|k]; [lia|]. cbn [drop]. destruct (lookup_lt_is_Some_2 arr k) as [y Hy]; [lia|].
    assert (drop k arr = y :: drop (S k) arr) as -> by (by rewrite (drop_S _ _ _ Hy)).
    cbn [zip_with rolling_loop]. cbn [take].
    rewrite rolling_step by (cbn; rewrite length_take; lia).
    assert (take k arr ++ [y] = take (S k) arr) as -> by (by rewrite (take_S_r _ _ _ Hy)).
    specialize (IH ltac:(lia)). unfold rolling_hash_windows_numba in IH.
    change (foldl (horner base) 0) with (window_hash base) in IH. rewrite IH.
    replace (length (x :: arr) + 1 - S k)%nat with (S (length arr + 1 - S k)) by (cbn; lia).
    cbn [seq]. rewrite fmap_cons. f_equal. rewrite <- fmap_S_seq, <- list_fmap_compose. done.
Qed.

Lemma chunk_hash_one k base tokens : (0 < k)%nat → length tokens = k →
  chunk_hash_windows_numba tokens k base = [window_hash base tokens].
Proof.
  intros Hk <-. unfold chunk_hash_windows_numba. rewrite Nat.div_same by lia. cbn.
  rewrite drop_0, take_ge by lia. done.
Qed.

(** ** The invariant *)

Abbreviation content_hash := (window_hash POLY_BASE).

Record entry_ok (k : nat) (poly : Z) (e : _FingerprintEntry) : Prop := {
  eo_length : length (fe_token_ids e) = k;
  eo_hash : poly = content_hash (fe_token_ids e);
  eo_occupied : fe_occupants e ≠ [];
  eo_nodup : NoDup (fe_occupants e).*1 }.

(** the filter: a power of two of slots, a bit for every live content, and not
    many more *)
Record filter_ok (t : BlendIndex) : Prop := {
  fi_size : ∃ m, 0 <= m ∧ Z.of_nat (length (bi_slots t)) = 2 ^ m;
  fi_min : _MIN_TABLE_SIZE <= Z.of_nat (length (bi_slots t));
  fi_mask : bi_mask t = Z.of_nat (length (bi_slots t)) - 1;
  fi_live : ∀ poly, poly ∈ dkeys (bi_table t) → slot_at (bi_slots t) (Z.land poly (bi_mask t)) ≠ 0;
  fi_bits : bi_bits_set t = count_nonzero (bi_slots t);
  fi_stale : bi_bits_set t <= 2 * Z.of_nat (length (bi_table t));
  fi_load : _TABLE_GROWTH * Z.of_nat (length (bi_table t)) <= Z.of_nat (length (bi_slots t)) }.

Record index_ok (t : BlendIndex) : Prop := {
  io_chunk : (0 < bi_chunk_size t)%nat;
  io_stride : (0 < bi_probe_stride t)%nat;
  io_wf : dwf (bi_table t);
  io_entries : ∀ poly e, dget (bi_table t) poly = Some e → entry_ok (bi_chunk_size t) poly e;
  io_filter : filter_ok t }.

Lemma fingerprint_hash t tokens : (0 < bi_chunk_size t)%nat → length tokens = bi_chunk_size t →
  _fingerprint t tokens = content_hash tokens.
Proof. intros Hk Hl. unfold _fingerprint. by rewrite chunk_hash_one. Qed.

(** *** Slots *)

Lemma land_mask poly n m : 0 <= m → Z.of_nat n = 2 ^ m → 0 <= Z.land poly (Z.of_nat n - 1) < Z.of_nat n.
Proof.
  intros Hm ->. replace (2 ^ m - 1) with (Z.ones m) by (rewrite Z.ones_equiv; lia). rewrite Z.land_ones by lia.
  apply Z.mod_pos_bound. lia.
Qed.

Lemma slot_at_set slots i j : 0 <= i < Z.of_nat (length slots) → 0 <= j →
  slot_at (set_slot slots i) j = if decide (i = j) then 1 else slot_at slots j.
Proof.
  intros Hi Hj. unfold slot_at, set_slot. case_decide.
  - subst. rewrite list_lookup_insert_eq by lia. done.
  - by rewrite list_lookup_insert_ne by lia.
Qed.

Lemma count_nonzero_set slots i : 0 <= i < Z.of_nat (length slots) →
  count_nonzero (set_slot slots i) = count_nonzero slots + if slot_at slots i =? 0 then 1 else 0.
Proof.
  unfold count_nonzero, set_slot, slot_at. generalize (Z.to_nat i) as n, (Z2Nat.id i). intros n Hn Hi.
  assert (n < length slots)%nat as Hlt by lia. clear Hi Hn.
  induction slots as [|x slots IH] in n, Hlt |- *; [cbn in Hlt; lia|]. destruct n as [|n].
  - change (<[0%nat := 1]> (x :: slots)) with (1 :: slots). rewrite !filter_cons. rewrite decide_True by lia. cbn [lookup list_lookup from_option id].
    destruct (Z.eqb_spec x 0); [rewrite decide_False by naive_solver|rewrite decide_True by done]; cbn [length]; lia.
  - cbn in Hlt. specialize (IH n ltac:(lia)). change (<[S n := 1]> (x :: slots)) with (x :: <[n := 1]> slots).
    change ((x :: slots) !! S n) with (slots !! n). rewrite !filter_cons.
    destruct (decide (x ≠ 0)); cbn [length]; rewrite ?Nat2Z.inj_succ, IH; lia.
Qed.

Lemma length_set_slot slots i : length (set_slot slots i) = length slots.
Proof. apply length_insert. Qed.

Lemma slot_at_zeros n i : slot_at (zeros n) i = 0.
Proof. unfold slot_at, zeros. destruct (replicate _ _ !! _) eqn:E; [|done]. by apply lookup_replicate in E as [-> _]. Qed.
Lemma count_nonzero_zeros n : count_nonzero (zeros n) = 0.
Proof. unfold count_nonzero, zeros. induction (Z.to_nat n); [done|]. cbn [replicate]. by rewrite filter_cons, decide_False by naive_solver. Qed.

(** setting the bits of a list of polynomials *)
Lemma set_bits_ok (polys : list Z) m n : 0 <= m → Z.of_nat n = 2 ^ m → ∀ slots, length slots = n →
  let slots' := foldl (λ s poly, set_slot s (Z.land poly (Z.of_nat n - 1))) slots polys in
  length slots' = n ∧
  (∀ poly, poly ∈ polys ∨ slot_at slots (Z.land poly (Z.of_nat n - 1)) ≠ 0 → slot_at slots' (Z.land poly (Z.of_nat n - 1)) ≠ 0) ∧
  count_nonzero slots' <= count_nonzero slots + Z.of_nat (length polys).
Proof.
  intros Hm Hn. induction polys as [|q polys IH]; intros slots Hl; cbn [foldl].
  { split_and!; [done| |cbn; lia]. intros poly [H|H]; [by apply not_elem_of_nil in H|done]. }
  pose proof (land_mask q n m Hm Hn) as Hq.
  destruct (IH (set_slot slots (Z.land q (Z.of_nat n - 1)))) as (Hl' & Hb & Hc); [by rewrite length_set_slot|].
  split_and!; [done| |].
  - intros poly Hp. apply Hb. pose proof (land_mask poly n m Hm Hn) as Hp'.
    rewrite slot_at_set by lia. case_decide as Hd; [by right|]. destruct Hp as [[->|Hp]%elem_of_cons|Hp]; [done|by left|by right].
  - rewrite count_nonzero_set in Hc by lia. cbn [length]. destruct (_ =? _); lia.
Qed.

(** *** Growing *)

Lemma grow_ok target : ∀ fuel a, 0 <= a → target <= 2 ^ (a + Z.of_nat fuel) →
  ∃ b, a <= b ∧ grow fuel (2 ^ a) target = 2 ^ b ∧ target <= 2 ^ b.
Proof.
  induction fuel as [|fuel IH]; intros a Ha Ht; cbn [grow].
  - exists a. rewrite Z.add_0_r in Ht. split_and!; [lia|done|done].
  - destruct (Z.ltb_spec (2 ^ a) target); [|exists a; split_and!; [lia|done|lia]].
    rewrite Z.shiftl_mul_pow2 by lia. rewrite <- Z.pow_add_r by lia.
    destruct (IH (a + 1)) as (b & Hb & E & Hle); [lia| |].
    { eapply Z.le_trans; [exact Ht|]. apply Z.pow_le_mono_r; lia. }
    exists b. split_and!; [lia|done|done].
Qed.

Lemma rebuild_filter t : filter_ok (_rebuild_table t).
Proof.
  unfold _rebuild_table. set (target := _TABLE_GROWTH * Z.of_nat (length (bi_table t))).
  destruct (grow_ok target (Z.to_nat (Z.log2_up target)) 10) as (b & Hb & E & Ht); [lia| |].
  { pose proof (Z.log2_up_nonneg target).
    destruct (decide (1 < target)) as [H1|H1].
    - destruct (Z.log2_up_spec target H1) as [_ H2]. eapply Z.le_trans; [exact H2|]. apply Z.pow_le_mono_r; lia.
    - pose proof (Z.pow_pos_nonneg 2 (10 + Z.of_nat (Z.to_nat (Z.log2_up target)))). lia. }
  change (2 ^ 10) with _MIN_TABLE_SIZE in E. rewrite E.
  pose proof (Z.pow_pos_nonneg 2 b ltac:(lia) ltac:(lia)) as Hpos.
  assert (Hn : Z.of_nat (Z.to_nat (2 ^ b)) = 2 ^ b) by lia.
  destruct (set_bits_ok (dkeys (bi_table t)) b (Z.to_nat (2 ^ b)) ltac:(lia) Hn (zeros (2 ^ b))) as (Hl & Hlive & Hc);
    [unfold zeros; by rewrite length_replicate|].
  rewrite Hn in *. rewrite count_nonzero_zeros in Hc.
  assert (_MIN_TABLE_SIZE <= 2 ^ b) by (change _MIN_TABLE_SIZE with (2 ^ 10); apply Z.pow_le_mono_r; lia).
  constructor; cbn [with_slots bi_slots bi_mask bi_bits_set bi_table]; rewrite ?Hl, ?Hn; try done.
  - exists b. split; [lia|done].
  - intros poly Hp. apply Hlive. by left.
  - assert (length (dkeys (bi_table t)) = length (bi_table t)) as El by apply length_fmap. rewrite El in Hc. lia.
Qed.

(** *** The operations keep the invariant *)

Lemma put_occupant_keys o h n x : x ∈ (put_occupant o h n).*1 ↔ x ∈ o.*1 ∨ x = h.
Proof.
  induction o as [|[g m] o IH]; cbn [put_occupant]; [cbn; set_solver|].
  case_decide; subst; cbn [fmap list_fmap fst]; set_solver.
Qed.

Lemma put_occupant_nodup o h n : NoDup o.*1 → NoDup (put_occupant o h n).*1.
Proof.
  induction o as [|[g m] o IH]; cbn [put_occupant]; intros Ho; [apply NoDup_singleton|].
  cbn [fmap list_fmap fst] in Ho. apply NoDup_cons in Ho as [Hn Ho].
  case_decide as Hd; cbn [fmap list_fmap fst]; apply NoDup_cons; [by subst|]. split; [|auto].
  rewrite put_occupant_keys. naive_solver.
Qed.

Lemma put_occupant_nonempty o h n : put_occupant o h n ≠ [].
Proof. destruct o as [|[g m] o]; cbn; [done|]. by case_decide. Qed.

Lemma filter_occupants_nodup o h : NoDup o.*1 → NoDup (filter (λ o : chunk * Z, o.1 ≠ h) o).*1.
Proof.
  induction o as [|[g m] o IH]; intros Ho; [done|]. cbn [fmap list_fmap fst] in Ho. apply NoDup_cons in Ho as [Hn Ho].
  rewrite filter_cons. cbn [fst]. case_decide; [|auto]. cbn [fmap list_fmap fst]. apply NoDup_cons. split; [|auto].
  intros ([c z] & -> & [_ Hin]%list_elem_of_filter)%list_elem_of_fmap. apply Hn. apply list_elem_of_fmap. by exists (c, z).
Qed.

Lemma length_dset_new (d : list (Z * _FingerprintEntry)) p e : dget d p = None → length (dset d p e) = S (length d).
Proof. intros. rewrite dkeys_dset_new by done. rewrite length_app. cbn. lia. Qed.
Lemma length_dset_old (d : list (Z * _FingerprintEntry)) p e e' : dget d p = Some e → length (dset d p e') = length d.
Proof. induction d as [|[q x] d IH]; cbn; [done|]. case_decide; [done|]. intros. cbn. by rewrite IH. Qed.

(** same keys, same filter *)
Lemma filter_same_keys t d : filter_ok t → (∀ p, p ∈ dkeys d ↔ p ∈ dkeys (bi_table t)) → length d = length (bi_table t) →
  filter_ok (with_table t d).
Proof. intros [? ? ? Hl ? ? ?] Hk Hlen. constructor; cbn; rewrite ?Hlen; try done. intros poly. rewrite Hk. apply Hl. Qed.

(** a new content: its bit is set, and the table grows when it is too full *)
Lemma filter_new t poly e : filter_ok t → dget (bi_table t) poly = None →
  let t1 := with_table t (dset (bi_table t) poly e) in
  let slot := Z.land poly (bi_mask t1) in
  let t2 := if slot_at (bi_slots t1) slot =? 0
            then with_slots t1 (set_slot (bi_slots t1) slot) (bi_mask t1) (bi_bits_set t1 + 1) else t1 in
  filter_ok (if Z.of_nat (length (bi_slots t2)) <? _TABLE_GROWTH * Z.of_nat (length (bi_table t2))
             then _rebuild_table t2 else t2).
Proof.
  intros [(m & Hm & Hsize) Hmin Hmask Hlive Hbits Hstale Hload] Hp t1 slot t2.
  destruct (Z.ltb_spec (Z.of_nat (length (bi_slots t2))) (_TABLE_GROWTH * Z.of_nat (length (bi_table t2)))) as [?|Hok];
    [apply rebuild_filter|].
  assert (0 <= slot < Z.of_nat (length (bi_slots t))) as Hslot.
  { unfold slot. cbn. rewrite Hmask. by apply (land_mask poly _ m). }
  assert (length (bi_table t2) = S (length (bi_table t)) ∧ bi_mask t2 = bi_mask t ∧
    length (bi_slots t2) = length (bi_slots t) ∧ dkeys (bi_table t2) = dkeys (bi_table t) ++ [poly]) as (Elen & Em & Es & Ek).
  { unfold t2. destruct (_ =? _); cbn; rewrite ?length_set_slot, (length_dset_new _ _ _ Hp), (dkeys_dset_new _ _ _ Hp);
      unfold dkeys; rewrite fmap_app; done. }
  constructor; rewrite ?Es, ?Em; try done; [by exists m| | | |].
  - intros q. rewrite Ek, elem_of_app, list_elem_of_singleton. intros Hq.
    assert (0 <= Z.land q (bi_mask t)) as Hq0 by (rewrite Hmask; by apply (land_mask q _ m)).
    unfold t2. destruct (slot_at (bi_slots t1) slot =? 0) eqn:Ez; cbn.
    + rewrite slot_at_set by done. case_decide as Hd; [done|]. destruct Hq as [Hq| ->]; [by apply Hlive|done].
    + destruct Hq as [Hq| ->]; [by apply Hlive|]. by apply Z.eqb_neq in Ez.
  - unfold t2. destruct (slot_at (bi_slots t1) slot =? 0) eqn:Ez; cbn; [|done].
    rewrite count_nonzero_set by done. cbn in Ez. rewrite Ez. lia.
  - rewrite Elen. unfold t2. destruct (_ =? _); cbn; lia.
  - rewrite Es in Hok. lia.
Qed.

Lemma add_filter t tokens h n : filter_ok t → filter_ok (add t tokens h n).
Proof.
  intros Hf. unfold add. destruct (negb _); [done|]. destruct (dget (bi_table t) _) as [e|] eqn:E; [|by apply filter_new].
  apply filter_same_keys; [done| |by eapply length_dset_old].
  intros p. rewrite !elem_of_dkeys, dget_dset. case_decide; [subst; rewrite E|]; naive_solver.
Qed.

Lemma remove_filter t tokens h : dwf (bi_table t) → filter_ok t → filter_ok (remove t tokens h).
Proof.
  intros Hw Hf. unfold remove. destruct (negb _); [done|]. set (poly := _fingerprint t tokens).
  destruct (dget (bi_table t) poly) as [e|] eqn:E; [|done].
  destruct (filter _ _) as [|o os] eqn:Eo.
  - cbn zeta. destruct (Z.ltb_spec (2 * Z.of_nat (length (bi_table (with_table t (ddel (bi_table t) poly)))))
      (bi_bits_set (with_table t (ddel (bi_table t) poly)))) as [?|Hle]; [apply rebuild_filter|].
    assert (length (ddel (bi_table t) poly) <= length (bi_table t))%nat as Hlen.
    { clear. induction (bi_table t) as [|[q x] d IH]; cbn; [done|]. case_decide; cbn; lia. }
    destruct Hf as [? ? ? Hlive ? ? ?]. constructor; cbn [with_table bi_slots bi_mask bi_bits_set bi_table] in *; try done; [|unfold _TABLE_GROWTH in *; lia].
    intros q. rewrite elem_of_dkeys, dget_ddel. case_decide; [by intros []|]. rewrite <- elem_of_dkeys. apply Hlive.
  - apply filter_same_keys; [done| |by eapply length_dset_old].
    intros p. rewrite !elem_of_dkeys, dget_dset. case_decide; [subst; rewrite E|]; naive_solver.
Qed.

Lemma add_params t tokens h n :
  bi_chunk_size (add t tokens h n) = bi_chunk_size t ∧ bi_probe_stride (add t tokens h n) = bi_probe_stride t.
Proof. unfold add. destruct (negb _); [done|]. destruct (dget _ _); [done|]. cbn zeta. destruct (_ =? _); by destruct (_ <? _). Qed.

Lemma remove_params t tokens h :
  bi_chunk_size (remove t tokens h) = bi_chunk_size t ∧ bi_probe_stride (remove t tokens h) = bi_probe_stride t.
Proof.
  unfold remove. destruct (negb _); [done|]. destruct (dget _ _); [|done]. destruct (filter _ _); [|done].
  cbn zeta. by destruct (_ <? _).
Qed.

Definition entry_put (tokens : list Z) (e : option _FingerprintEntry) (h : chunk) (n : Z) : _FingerprintEntry :=
  match e with
  | None => mkFingerprint tokens [(h, n)]
  | Some e => mkFingerprint (fe_token_ids e) (put_occupant (fe_occupants e) h n)
  end.

Lemma add_table t tokens h n : (0 < bi_chunk_size t)%nat →
  bi_table (add t tokens h n) =
  if negb (length tokens =? bi_chunk_size t)%nat then bi_table t
  else let poly := content_hash tokens in dset (bi_table t) poly (entry_put tokens (dget (bi_table t) poly) h n).
Proof.
  intros Hk. unfold add. destruct (Nat.eqb_spec (length tokens) (bi_chunk_size t)) as [Hl|]; cbn [negb]; [|done].
  rewrite fingerprint_hash by done. cbn zeta. destruct (dget _ _); [done|]. cbn [entry_put].
  destruct (_ =? _); by destruct (_ <? _).
Qed.

Lemma remove_table t tokens h : (0 < bi_chunk_size t)%nat →
  bi_table (remove t tokens h) =
  if negb (length tokens =? bi_chunk_size t)%nat then bi_table t
  else match dget (bi_table t) (content_hash tokens) with
       | None => bi_table t
       | Some e => match filter (λ o, o.1 ≠ h) (fe_occupants e) with
                   | [] => ddel (bi_table t) (content_hash tokens)
                   | os => dset (bi_table t) (content_hash tokens) (mkFingerprint (fe_token_ids e) os)
                   end
       end.
Proof.
  intros Hk. unfold remove. destruct (Nat.eqb_spec (length tokens) (bi_chunk_size t)) as [Hl|]; cbn [negb]; [|done].
  rewrite fingerprint_hash by done. destruct (dget _ _); [|done]. destruct (filter _ _); [|done].
  cbn zeta. by destruct (_ <? _).
Qed.

Lemma add_index_ok t tokens h n : index_ok t → index_ok (add t tokens h n).
Proof.
  intros [Hk Hs Hw He Hf]. destruct (add_params t tokens h n) as [Ek Es].
  constructor; rewrite ?Ek, ?Es; [done|done| | |by apply add_filter];
    rewrite add_table by done; destruct (Nat.eqb_spec (length tokens) (bi_chunk_size t)) as [Hl|]; cbn [negb]; cbn zeta; try done.
  - by apply dset_wf.
  - intros poly e. rewrite dget_dset. case_decide; [subst|apply He]. intros [= <-].
    destruct (dget (bi_table t) (content_hash tokens)) as [e|] eqn:E.
    + apply He in E as [? ? ? ?]. constructor; cbn; [done|done|apply put_occupant_nonempty|by apply put_occupant_nodup].
    + constructor; cbn; [done|done|done|apply NoDup_singleton].
Qed.

Lemma remove_index_ok t tokens h : index_ok t → index_ok (remove t tokens h).
Proof.
  intros [Hk Hs Hw He Hf]. destruct (remove_params t tokens h) as [Ek Es].
  constructor; rewrite ?Ek, ?Es; [done|done| | |by apply remove_filter];
    rewrite remove_table by done; destruct (Nat.eqb_spec (length tokens) (bi_chunk_size t)) as [Hl|]; cbn [negb]; try done;
    destruct (dget (bi_table t) (content_hash tokens)) as [e|] eqn:E; try done;
    destruct (filter _ (fe_occupants e)) as [|o os] eqn:Eo.
  - by apply ddel_wf.
  - by apply dset_wf.
  - intros poly e'. rewrite dget_ddel. case_decide; [done|apply He].
  - intros poly e'. rewrite dget_dset. case_decide; [subst|apply He]. intros [= <-].
    apply He in E as [? ? _ Hnd]. constructor; cbn [fe_token_ids fe_occupants]; [done..|]. rewrite <- Eo. by apply filter_occupants_nodup.
Qed.

Lemma new_index_ok c s t : new_blend_index c s = Ok t → index_ok t ∧ bi_table t = [] ∧
  bi_chunk_size t = Z.to_nat c ∧ bi_probe_stride t = Z.to_nat s.
Proof.
  unfold new_blend_index. destruct (Z.ltb_spec c 1); [done|]. destruct (Z.ltb_spec s 1); [done|]. intros [= <-].
  split; [|done]. constructor; cbn [bi_chunk_size bi_probe_stride bi_table]; [lia|lia|constructor|done|].
  constructor; cbn [bi_slots bi_mask bi_bits_set bi_table]; try done.
  - exists 10. split; [lia|done].
  - intros poly Hp. by apply not_elem_of_nil in Hp.
Qed.

(** ** Matching equals scanning by content *)

Definition contents_of (t : BlendIndex) : content_index :=
  (λ pe, (fe_token_ids pe.2, fe_occupants pe.2)) <$> bi_table t.

(** looking a content up by its hash and comparing *)
Lemma contents_lookup t tokens : index_ok t → length tokens = bi_chunk_size t →
  dget (contents_of t) tokens =
  match dget (bi_table t) (content_hash tokens) with
  | Some e => if bool_decide (tokens = fe_token_ids e) then Some (fe_occupants e) else None
  | None => None
  end.
Proof.
  intros [_ _ Hw He _] Hl. unfold contents_of. revert Hw He. generalize (bi_table t). intros d.
  induction d as [|[p e] d IH]; intros Hw He; [done|]. apply NoDup_cons in Hw as [Hn Hw].
  rewrite fmap_cons. cbn. destruct (He p e) as [_ Hp _ _]; [cbn; by rewrite decide_True|].
  assert (∀ poly e', dget d poly = Some e' → entry_ok (bi_chunk_size t) poly e') as He'.
  { intros poly e' E. apply He. cbn. rewrite decide_False; [done|]. intros ->. apply Hn, elem_of_dkeys. by eexists. }
  rewrite IH by done. destruct (decide (p = content_hash tokens)) as [Heq|Hne].
  - case_decide as Ht; [rewrite bool_decide_true by done; done|].
    rewrite bool_decide_false by congruence. rewrite <- Heq.
    rewrite (proj2 (dget_None_dkeys d p)) by done. done.
  - rewrite decide_False; [done|]. intros <-. done.
Qed.

Lemma filter_seq_closed (P : nat → Prop) `{!∀ n, Decision (P n)} N :
  (∀ i j, (i <= j)%nat → P j → P i) → ∃ M, filter P (seq 0 N) = seq 0 M.
Proof.
  intros HP. induction N as [|N [M IH]]; [by exists 0%nat|]. rewrite seq_S, filter_app. cbn [Nat.add].
  rewrite (filter_cons P N []). case_decide as HN; [|rewrite IH, app_nil_r; by exists M].
  exists (S N). rewrite seq_S. cbn [Nat.add]. rewrite filter_all; [done|].
  apply Forall_forall. intros i Hi%elem_of_seq. apply (HP i N); [lia|done].
Qed.

(** the positions the probe visits, with their hashes *)
Lemma strided_windows (f : nat → Z) N stride : (0 < stride)%nat →
  imap pair (strided (f <$> seq 0 N) stride) =
  (λ j, (j, f (j * stride)%nat)) <$> filter (λ j, (j * stride < N)%nat) (seq 0 N).
Proof.
  intros Hs. destruct (filter_seq_closed (λ j, (j * stride < N)%nat) N) as [M HM]; [intros; nia|].
  assert (strided (f <$> seq 0 N) stride = (λ j, f (j * stride)%nat) <$> filter (λ j, (j * stride < N)%nat) (seq 0 N)) as ->.
  { unfold strided. rewrite length_fmap, length_seq. generalize (seq 0 N) at 2 3. intros l. induction l as [|j l IH]; [done|].
    cbn [omap list_omap]. rewrite filter_cons. rewrite list_lookup_fmap. case_decide.
    - rewrite lookup_seq_lt by lia. cbn. by rewrite IH.
    - rewrite lookup_seq_ge by lia. cbn. by rewrite IH. }
  rewrite HM. clear. apply list_eq. intros i. rewrite list_lookup_imap, !list_lookup_fmap.
  destruct (decide (i < M)%nat); [by rewrite lookup_seq_lt by done|by rewrite lookup_seq_ge by lia].
Qed.

Lemma match_position_spec t query s j p : index_ok t → p = (j * bi_probe_stride t)%nat →
  (p + bi_chunk_size t <= length query)%nat →
  match_position t query s (j, content_hash (window query (bi_chunk_size t) p)) =
  match dget (contents_of t) (window query (bi_chunk_size t) p) with Some o => accept s o p | None => s end.
Proof.
  intros Ht -> Hp. unfold match_position.
  rewrite contents_lookup by (try done; unfold window; rewrite length_take, length_drop; lia).
  destruct (dget (bi_table t) _) as [e|] eqn:E; [|by destruct (_ =? _)].
  assert (slot_at (bi_slots t) (Z.land (content_hash (window query (bi_chunk_size t) (j * bi_probe_stride t))) (bi_mask t)) ≠ 0) as Hz.
  { apply (fi_live _ (io_filter _ Ht)), elem_of_dkeys. by rewrite E. }
  apply Z.eqb_neq in Hz. rewrite Hz. by case_bool_decide.
Qed.

Lemma match_scans t query : index_ok t →
  match_ t query = spec_match (contents_of t) (bi_chunk_size t) (bi_probe_stride t) query.
Proof.
  intros Ht. pose proof (io_chunk _ Ht) as Hk. pose proof (io_stride _ Ht) as Hs. unfold match_, spec_match.
  destruct (Nat.ltb_spec (length query) (bi_chunk_size t)).
  { replace (length query + 1 - bi_chunk_size t)%nat with 0%nat by lia. done. }
  rewrite rolling_windows by done. set (N := (length query + 1 - bi_chunk_size t)%nat).
  rewrite (strided_windows (λ p, content_hash (window query (bi_chunk_size t) p))) by done. f_equal.
  generalize (([], []) : list BlendMatch * list chunk). induction (seq 0 N) as [|j l IH]; intros s; [done|].
  rewrite fmap_cons, !filter_cons. destruct (decide (j * bi_probe_stride t < N)%nat) as [Hj|Hj];
    [rewrite decide_True by lia|rewrite decide_False by lia; apply IH].
  rewrite fmap_cons. cbn [foldl]. rewrite (match_position_spec t query s j (j * bi_probe_stride t)) by (done || lia).
  apply IH.
Qed.

(** ** Histories *)

Inductive blend_op :=
| OAdd (token_ids : list Z) (chunk_hash : chunk) (token_offset : Z)
| ORemove (token_ids : list Z) (chunk_hash : chunk).

Definition op_tokens (o : blend_op) : list Z := match o with OAdd tokens _ _ => tokens | ORemove tokens _ => tokens end.

Definition blend_step (t : BlendIndex) (o : blend_op) : BlendIndex :=
  match o with OAdd tokens h n => add t tokens h n | ORemove tokens h => remove t tokens h end.
Definition spec_step (k : nat) (c : content_index) (o : blend_op) : content_index :=
  match o with OAdd tokens h n => spec_add c k tokens h n | ORemove tokens h => spec_remove c k tokens h end.

(** the offset under which chunk [h] is indexed for [tokens]: the last word on it *)
Definition live_step (k : nat) (tokens : list Z) (h : chunk) (s : option Z) (o : blend_op) : option Z :=
  match o with
  | OAdd tokens' h' n => if decide (tokens' = tokens ∧ h' = h ∧ length tokens = k) then Some n else s
  | ORemove tokens' h' => if decide (tokens' = tokens ∧ h' = h) then None else s
  end.
Definition live (k : nat) (ops : list blend_op) (tokens : list Z) (h : chunk) : option Z :=
  foldl (live_step k tokens h) None ops.

(** distinct contents of the history have distinct fingerprints *)
Definition collision_free (k : nat) (ops : list blend_op) : Prop :=
  ∀ o o', o ∈ ops → o' ∈ ops → length (op_tokens o) = k → length (op_tokens o') = k →
  content_hash (op_tokens o) = content_hash (op_tokens o') → op_tokens o = op_tokens o'.

Lemma blend_step_ok t o : index_ok t → index_ok (blend_step t o).
Proof. destruct o; [apply add_index_ok|apply remove_index_ok]. Qed.

Lemma blend_run_ok ops : ∀ t, index_ok t → index_ok (foldl blend_step t ops) ∧
  bi_chunk_size (foldl blend_step t ops) = bi_chunk_size t ∧ bi_probe_stride (foldl blend_step t ops) = bi_probe_stride t.
Proof.
  induction ops as [|o ops IH]; intros t Ht; [done|]. cbn [foldl]. destruct (IH (blend_step t o)) as (? & E1 & E2).
  { by apply blend_step_ok. }
  split_and!; [done|rewrite E1|rewrite E2]; destruct o; by apply add_params || apply remove_params.
Qed.

(** *** The table as a content index *)

Section distinct.
Context (d : list (Z * _FingerprintEntry)) (tokens : list Z).
Hypothesis Hd : ∀ p e, (p, e) ∈ d → p = content_hash (fe_token_ids e).
Hypothesis Hdistinct : ∀ p e, (p, e) ∈ d → content_hash (fe_token_ids e) = content_hash tokens → fe_token_ids e = tokens.
Let content := λ pe : Z * _FingerprintEntry, (fe_token_ids pe.2, fe_occupants pe.2).

Lemma content_dget : dget (content <$> d) tokens = fe_occupants <$> dget d (content_hash tokens).
Proof.
  unfold content. induction d as [|[p e] d' IH]; [done|]. rewrite fmap_cons. cbn.
  assert (p = content_hash (fe_token_ids e)) as Hp by (apply Hd; left).
  destruct (decide (p = content_hash tokens)) as [Heq|Hne].
  - rewrite decide_True; [done|]. apply (Hdistinct p e); [left|congruence].
  - rewrite decide_False by congruence. apply IH; intros q f Hq; [apply Hd; by right|apply (Hdistinct q); by right].
Qed.

Lemma content_dset e' : fe_token_ids e' = tokens →
  content <$> dset d (content_hash tokens) e' = dset (content <$> d) tokens (fe_occupants e').
Proof.
  intros He'. unfold content. induction d as [|[p e] d' IH]; [cbn; by rewrite He'|]. rewrite fmap_cons. cbn.
  assert (p = content_hash (fe_token_ids e)) as Hp by (apply Hd; left).
  destruct (decide (p = content_hash tokens)) as [Heq|Hne].
  - assert (fe_token_ids e = tokens) as Ee by (apply (Hdistinct p e); [left|congruence]).
    rewrite decide_True by done. rewrite fmap_cons. cbn. by rewrite He', Ee.
  - rewrite decide_False by congruence. rewrite fmap_cons. cbn. f_equal.
    apply IH; intros q f Hq; [apply Hd; by right|apply (Hdistinct q); by right].
Qed.

Lemma content_ddel : content <$> ddel d (content_hash tokens) = ddel (content <$> d) tokens.
Proof.
  unfold content. induction d as [|[p e] d' IH]; [done|]. rewrite fmap_cons. cbn.
  assert (p = content_hash (fe_token_ids e)) as Hp by (apply Hd; left).
  assert ((λ pe : Z * _FingerprintEntry, (fe_token_ids pe.2, fe_occupants pe.2)) <$> ddel d' (content_hash tokens)
    = ddel ((λ pe : Z * _FingerprintEntry, (fe_token_ids pe.2, fe_occupants pe.2)) <$> d') tokens) as IH'.
  { apply IH; intros q f Hq; [apply Hd; by right|apply (Hdistinct q); by right]. }
  destruct (decide (p = content_hash tokens)) as [Heq|Hne].
  - rewrite decide_True; [done|]. apply (Hdistinct p e); [left|congruence].
  - rewrite decide_False by congruence. rewrite fmap_cons. cbn. by f_equal.
Qed.
End distinct.

Lemma blend_step_spec t o : index_ok t →
  (∀ p e, (p, e) ∈ bi_table t → length (op_tokens o) = bi_chunk_size t →
     content_hash (fe_token_ids e) = content_hash (op_tokens o) → fe_token_ids e = op_tokens o) →
  contents_of (blend_step t o) = spec_step (bi_chunk_size t) (contents_of t) o.
Proof.
  intros Ht Hdist. pose proof Ht as [Hk _ Hw He _].
  assert (∀ p e, (p, e) ∈ bi_table t → p = content_hash (fe_token_ids e)) as Hh.
  { intros p e Hin. apply (He p e). by apply dget_wf_elem_of. }
  unfold contents_of. destruct o as [tokens h n|tokens h]; cbn [blend_step spec_step op_tokens] in *.
  - rewrite add_table by done. unfold spec_add. destruct (Nat.eqb_spec (length tokens) (bi_chunk_size t)) as [Hl|]; cbn [negb]; [|done].
    cbn zeta. rewrite (content_dget (bi_table t) tokens) by eauto.
    destruct (dget (bi_table t) (content_hash tokens)) as [e|] eqn:E; cbn [entry_put fmap option_fmap option_map from_option id].
    + apply (content_dset (bi_table t) tokens); [done|eauto|]. cbn. apply dget_elem_of in E. by eapply Hdist; [|done|rewrite <- (Hh _ _ E)].
    + apply (content_dset (bi_table t) tokens); [done|eauto|done].
  - rewrite remove_table by done. unfold spec_remove. destruct (Nat.eqb_spec (length tokens) (bi_chunk_size t)) as [Hl|]; cbn [negb]; [|done].
    rewrite (content_dget (bi_table t) tokens) by eauto.
    destruct (dget (bi_table t) (content_hash tokens)) as [e|] eqn:E; cbn [fmap option_fmap option_map]; [|done].
    destruct (filter _ (fe_occupants e)) as [|x os] eqn:Eo.
    + apply content_ddel; eauto.
    + apply (content_dset (bi_table t) tokens); [done|eauto|]. cbn. apply dget_elem_of in E. by eapply Hdist; [|done|rewrite <- (Hh _ _ E)].
Qed.

(** *** What the reference index holds *)

Definition occupants (c : content_index) (tokens : list Z) : list (chunk * Z) := default [] (dget c tokens).

Lemma occupants_step k c o tokens :
  occupants (spec_step k c o) tokens =
  if decide (op_tokens o = tokens ∧ length tokens = k) then
    match o with
    | OAdd _ h n => put_occupant (occupants c tokens) h n
    | ORemove _ h => filter (λ x, x.1 ≠ h) (occupants c tokens)
    end
  else occupants c tokens.
Proof.
  unfold occupants. destruct o as [tokens' h n|tokens' h]; cbn [spec_step op_tokens].
  - unfold spec_add. destruct (Nat.eqb_spec (length tokens') k); cbn [negb]; [|by rewrite decide_False by naive_solver].
    rewrite dget_dset. destruct (decide (tokens' = tokens)) as [->|]; [by rewrite decide_True|by rewrite decide_False by naive_solver].
  - unfold spec_remove. destruct (Nat.eqb_spec (length tokens') k); cbn [negb]; [|by rewrite decide_False by naive_solver].
    destruct (decide (tokens' = tokens)) as [->|Hne].
    + rewrite decide_True by done. destruct (dget c tokens) as [os|] eqn:E; [|by rewrite E].
      cbn [from_option id]. destruct (filter _ os) eqn:Eo; [by rewrite dget_ddel_eq|by rewrite dget_dset_eq].
    + rewrite decide_False by naive_solver. destruct (dget c tokens') as [os|]; [|done].
      destruct (filter _ os); [by rewrite dget_ddel_ne|by rewrite dget_dset_ne].
Qed.

Lemma elem_of_put_occupant o h n h' n' : NoDup o.*1 →
  (h', n') ∈ put_occupant o h n ↔ if decide (h = h') then n' = n else (h', n') ∈ o.
Proof.
  induction o as [|[g m] o IH]; cbn [put_occupant]; intros Ho.
  { rewrite list_elem_of_singleton. case_decide; [naive_solver|]. rewrite elem_of_nil. naive_solver. }
  cbn [fmap list_fmap fst] in Ho. apply NoDup_cons in Ho as [Hn Ho].
  destruct (decide (g = h)) as [->|Hgh]; rewrite elem_of_cons.
  - case_decide; [subst|rewrite elem_of_cons; naive_solver]. split; [|naive_solver].
    intros [?|Hin]; [naive_solver|]. destruct Hn. apply list_elem_of_fmap. by exists (h', n').
  - rewrite IH by done. case_decide; rewrite ?elem_of_cons; naive_solver.
Qed.

Definition spec_run (k : nat) (ops : list blend_op) : content_index := foldl (spec_step k) [] ops.

(** an occupant is a chunk whose last word was an addition *)
Lemma occupants_live k ops tokens :
  NoDup (occupants (spec_run k ops) tokens).*1 ∧
  ∀ h n, (h, n) ∈ occupants (spec_run k ops) tokens ↔ live k ops tokens h = Some n.
Proof.
  unfold spec_run, live. induction ops as [|o ops [IHn IH]] using rev_ind.
  { split; [constructor|]. intros h n. cbn. split; [intros Hx; by apply not_elem_of_nil in Hx|done]. }
  rewrite foldl_app. cbn [foldl]. rewrite occupants_step.
  destruct (decide (op_tokens o = tokens ∧ length tokens = k)) as [[Ho Hl]|Hne].
  - destruct o as [tokens' h' n'|tokens' h']; cbn [op_tokens] in Ho; subst tokens'.
    + split; [by apply put_occupant_nodup|]. intros h n. specialize (IH h n). rewrite elem_of_put_occupant, foldl_app by done. cbn [foldl live_step].
      repeat case_decide; naive_solver.
    + split; [by apply filter_occupants_nodup|]. intros h n. rewrite list_elem_of_filter, IH, foldl_app. cbn [foldl live_step fst].
      case_decide; naive_solver.
  - split; [done|]. intros h n. rewrite IH, foldl_app. cbn [foldl].
    destruct o as [tokens' h' n'|tokens' h']; cbn [op_tokens live_step] in *; [by rewrite decide_False by naive_solver|].
    case_decide as Hd; [|done]. destruct Hd as [-> ->].
    assert (length tokens ≠ k) as Hl by naive_solver. split; [|done]. intros Hlive. exfalso. clear -Hl Hlive.
    revert Hlive. cut (∀ s : option Z, s = None → foldl (live_step k tokens h) s ops = None).
    { intros Hx. by rewrite Hx. }
    induction ops as [|o ops IH]; intros s Hs; [done|]. cbn [foldl]. apply IH.
    destruct o; cbn [live_step]; case_decide; naive_solver.
Qed.

Lemma spec_run_keys k ops tokens : tokens ∈ dkeys (spec_run k ops) → ∃ o, o ∈ ops ∧ op_tokens o = tokens ∧ length tokens = k.
Proof.
  unfold spec_run. induction ops as [|o ops IH] using rev_ind; [intros H; by apply not_elem_of_nil in H|].
  rewrite foldl_app. cbn [foldl]. intros Hin.
  assert (tokens ∈ dkeys (foldl (spec_step k) [] ops) ∨ (op_tokens o = tokens ∧ length tokens = k)) as [H|[]].
  { revert Hin. rewrite !elem_of_dkeys.
    destruct o as [tokens' h n|tokens' h]; cbn [spec_step op_tokens]; unfold spec_add, spec_remove;
      destruct (Nat.eqb_spec (length tokens') k); cbn [negb]; auto.
    - rewrite dget_dset. case_decide; naive_solver.
    - destruct (dget _ tokens') as [os|] eqn:E; [|auto]. destruct (filter _ os).
      + rewrite dget_ddel. case_decide; naive_solver.
      + rewrite dget_dset. case_decide; naive_solver. }
  - destruct (IH H) as (o' & ? & ?). exists o'. split; [set_solver|done].
  - exists o. split; [set_solver|done].
Qed.

Lemma blend_run_spec t ops : index_ok t → bi_table t = [] → collision_free (bi_chunk_size t) ops →
  contents_of (foldl blend_step t ops) = spec_run (bi_chunk_size t) ops.
Proof.
  intros Ht H0. unfold spec_run. induction ops as [|o ops IH] using rev_ind; intros Hc.
  { cbn. unfold contents_of. by rewrite H0. }
  rewrite !foldl_app. cbn [foldl]. destruct (blend_run_ok ops t Ht) as (Ht' & Ek & _).
  rewrite <- IH by (intros x y Hx Hy; apply Hc; set_solver). rewrite <- Ek.
  apply blend_step_spec; [done|]. intros p e Hin Hl Hh. symmetry in Hh.
  assert (fe_token_ids e ∈ dkeys (spec_run (bi_chunk_size t) ops)) as Hkey.
  { unfold spec_run. rewrite <- IH by (intros x y Hx Hy; apply Hc; set_solver).
    unfold dkeys, contents_of. rewrite <- list_fmap_compose. apply list_elem_of_fmap. by exists (p, e). }
  apply spec_run_keys in Hkey as (o' & Ho' & Eo & Hlo). rewrite <- Eo in Hh |- *. symmetry.
  apply Hc; [set_solver|set_solver|congruence|congruence|done].
Qed.

(** ** What a match means *)

(** [ms] answers the query at the positions [ps], where [held p h n] says that
    chunk [h], stored at [n], has the tokens of the query at [p] *)
Record answers (held : nat → chunk → Z → Prop) (ps : list nat) (ms : list BlendMatch) : Prop := {
  an_sound : ∀ m, m ∈ ms → ∃ p, p ∈ ps ∧ bm_cur_st m = Z.of_nat p ∧ held p (bm_chunk_hash m) (bm_old_st m);
  an_once : NoDup (bm_chunk_hash <$> ms);
  an_ascending : StronglySorted Z.lt (bm_cur_st <$> ms);
  an_complete : ∀ p h n, p ∈ ps → held p h n →
    (∃ m, m ∈ ms ∧ bm_cur_st m = Z.of_nat p) ∨
    (∀ h' n', held p h' n' → ∃ m, m ∈ ms ∧ bm_chunk_hash m = h' ∧ bm_cur_st m < Z.of_nat p) }.

Definition probed (k stride : nat) (query : list Z) : list nat :=
  filter (λ p, (p + k <= length query)%nat) ((λ j, (j * stride)%nat) <$> seq 0 (length query + 1 - k)).

Lemma probed_sorted k stride query : (0 < stride)%nat → StronglySorted lt (probed k stride query).
Proof.
  intros Hs. unfold probed. generalize (length query + 1 - k)%nat. intros n. generalize 0%nat.
  induction n as [|n IH]; intros i; [constructor|]. cbn [seq]. rewrite fmap_cons, filter_cons.
  case_decide; [|apply IH]. constructor; [apply IH|]. apply Forall_forall.
  intros p (_ & (j & -> & Hj%elem_of_seq)%list_elem_of_fmap)%list_elem_of_filter. nia.
Qed.

Lemma first_unseen_Some seen os h n : first_unseen seen os = Some (h, n) → (h, n) ∈ os ∧ h ∉ seen.
Proof.
  unfold first_unseen. intros H%List.find_some. destruct H as [H1 H2]. split; [by apply list_elem_of_In|].
  apply negb_true_iff in H2. by apply bool_decide_eq_false in H2.
Qed.
Lemma first_unseen_None seen os : first_unseen seen os = None → ∀ h n, (h, n) ∈ os → h ∈ seen.
Proof.
  unfold first_unseen. intros Hn h n Hin. apply list_elem_of_In in Hin.
  pose proof (List.find_none _ _ Hn (h, n) Hin) as H. cbn in H. apply negb_false_iff in H. by apply bool_decide_eq_true in H.
Qed.

Lemma scan_answers (occ : nat → list (chunk * Z)) (held : nat → chunk → Z → Prop) ps :
  (∀ p h n, held p h n ↔ (h, n) ∈ occ p) → StronglySorted lt ps →
  let s := foldl (λ s p, accept s (occ p) p) ([], []) ps in
  answers held ps s.1 ∧ ∀ h, h ∈ s.2 ↔ h ∈ bm_chunk_hash <$> s.1.
Proof.
  intros Hocc. induction ps as [|p ps IH] using rev_ind; intros Hsorted.
  { cbn. split; [constructor|]; try (intros; set_solver); constructor. }
  apply StronglySorted_app_iff in Hsorted as (Hsorted & _ & Hlt).
  rewrite foldl_app. cbn [foldl]. destruct (IH Hsorted) as [[Hsound Honce Hasc Hcomp] Hseen]. clear IH.
  set (s := foldl _ ([], []) ps) in *. unfold accept.
  assert (∀ m, m ∈ s.1 → bm_cur_st m < Z.of_nat p) as Hbefore.
  { intros m Hm. destruct (Hsound m Hm) as (q & Hq & -> & _). specialize (Hlt q p Hq ltac:(left)). lia. }
  destruct (first_unseen s.2 (occ p)) as [[h n]|] eqn:E; cbn [fst snd].
  - apply first_unseen_Some in E as [Hin Hnew]. split.
    + constructor.
      * intros m [Hm| ->%list_elem_of_singleton]%elem_of_app; [destruct (Hsound m Hm) as (q & ? & ?); exists q; set_solver|].
        exists p. cbn. split_and!; [set_solver|done|by apply Hocc].
      * rewrite fmap_app. apply NoDup_app. split_and!; [done| |apply NoDup_singleton].
        intros x Hx%Hseen ->%list_elem_of_singleton. done.
      * rewrite fmap_app. apply StronglySorted_app_iff. split_and!; [done|repeat constructor|].
        intros x y (m & -> & Hm)%list_elem_of_fmap ->%list_elem_of_singleton. cbn. by apply Hbefore.
      * intros q h' n' [Hq| ->%list_elem_of_singleton]%elem_of_app Hh.
        -- destruct (Hcomp q h' n' Hq Hh) as [(m & ? & ?)|Hall]; [left; exists m; set_solver|].
           right. intros h2 n2 H2. destruct (Hall h2 n2 H2) as (m & ? & ?). exists m. set_solver.
        -- left. eexists. split; [apply elem_of_app; right; left|done].
    + intros x. rewrite fmap_app, elem_of_app, elem_of_cons, Hseen. cbn. rewrite list_elem_of_singleton. naive_solver.
  - split; [|done]. constructor; [|done|done|].
    + intros m Hm. destruct (Hsound m Hm) as (q & ? & ?). exists q. set_solver.
    + intros q h' n' [Hq| ->%list_elem_of_singleton]%elem_of_app Hh; [by eapply Hcomp|].
      right. intros h2 n2 H2%Hocc. pose proof (first_unseen_None _ _ E h2 n2 H2) as H3.
      apply Hseen in H3. apply list_elem_of_fmap in H3 as (m & -> & Hm). exists m. auto.
Qed.

Lemma spec_match_scan c k stride query :
  spec_match c k stride query =
  (foldl (λ s p, accept s (occupants c (window query k p)) p) ([], []) (probed k stride query)).1.
Proof.
  unfold spec_match, probed, occupants. f_equal. generalize (([], []) : list BlendMatch * list chunk).
  generalize (filter (λ p, (p + k <= length query)%nat) ((λ j, (j * stride)%nat) <$> seq 0 (length query + 1 - k))).
  intros l. induction l as [|p l IH]; intros s; [done|]. cbn [foldl]. rewrite IH. f_equal.
  by destruct (dget c _).
Qed.

(** C33: A fragment lookup finds the indexed chunks a query contains: for any
    history of additions and removals in which distinct contents have distinct
    fingerprints, the answer names only chunks whose last recorded content equals
    the query's tokens at the reported position and reports the offset recorded
    with it, each chunk at most once and in ascending position; and at every
    position the stride visits where some chunk's content occurs, a match is
    reported there or all those chunks were matched further left. The hashing,
    the occupancy filter and its resizing lose nothing. *)
Theorem blend_lookup_exact (chunk_size probe_stride : Z) (t : BlendIndex) (ops : list blend_op) (query : list Z)
    (k := Z.to_nat chunk_size) (stride := Z.to_nat probe_stride) :
  new_blend_index chunk_size probe_stride = Ok t → collision_free k ops →
  answers (λ p h n, live k ops (window query k p) h = Some n) (probed k stride query)
    (match_ (foldl blend_step t ops) query).
Proof.
  intros Hnew Hc. destruct (new_index_ok _ _ _ Hnew) as (Ht & H0 & Ek & Es).
  destruct (blend_run_ok ops t Ht) as (Ht' & Ek' & Es').
  assert (collision_free (bi_chunk_size t) ops) as Hc' by (by rewrite Ek).
  rewrite (match_scans _ _ Ht'), Ek', Es', (blend_run_spec t ops Ht H0 Hc'), Ek, Es, spec_match_scan.
  apply scan_answers.
  - intros p h n. symmetry. apply occupants_live.
  - apply probed_sorted. rewrite <- Es. apply Ht.
Qed.

(** The occupancy filter stays sound and small: after any history its slots
    are a power of two, at least 1024 and at least sixteen per indexed content, the
    bit of every indexed content is set, and the counter is the exact number of set
    bits, at most two per content however many contents came and went. *)
Theorem blend_filter_bounded (chunk_size probe_stride : Z) (t : BlendIndex) (ops : list blend_op) :
  new_blend_index chunk_size probe_stride = Ok t →
  let t' := foldl blend_step t ops in
  filter_ok t' ∧ bs_table_size (stats t') = bi_mask t' + 1 ∧
  16 * bs_num_contents (stats t') <= bs_table_size (stats t') ∧
  count_nonzero (bi_slots t') <= 2 * bs_num_contents (stats t').
Proof.
  intros Hnew t'. destruct (new_index_ok _ _ _ Hnew) as (Ht & _).
  destruct (blend_run_ok ops t Ht) as ([_ _ _ _ Hf] & _). pose proof Hf as [? ? Hm ? Hb Hst Hl]. split; [done|]. cbn.
  unfold t' in *. rewrite <- Hb. unfold _TABLE_GROWTH in Hl. split_and!; lia.
Qed.

(** A fingerprint collision makes the index name the wrong chunk. With the
    default chunk size, two different contents of valid token ids have the same
    fingerprint; [add] attaches the second chunk to the entry of the first without
    comparing the tokens, so once the first chunk is gone a query for its content is
    answered with the second chunk, which never held it. *)
Theorem blend_collision_mismatch :
  let c1 := replicate 256 0 in
  let c2 := replicate 254 0 ++ [2971215073; 50920843] in
  ∃ t, new_blend_index 256 1 = Ok t ∧ c1 ≠ c2 ∧
    Forall (λ x, 0 <= x < 2 ^ 32) c1 ∧ Forall (λ x, 0 <= x < 2 ^ 32) c2 ∧
    let ops := [OAdd c1 [x01] 0; OAdd c2 [x02] 256; ORemove c1 [x01]] in
    match_ (foldl blend_step t ops) c1 = [mkBlendMatch [x02] 256 0] ∧ live 256 ops c1 [x02] = None.
Proof.
  cbv zeta. eexists. split; [reflexivity|]. split_and!.
  - intros H. apply (f_equal (λ l, l !! 254%nat)) in H. vm_compute in H. done.
  - apply Forall_replicate. lia.
  - apply Forall_app. split; [apply Forall_replicate; lia|]. repeat constructor; lia.
  - vm_compute. reflexivity.
  - vm_compute. reflexivity.
Qed.

Lemma collision_free_check k ops :
  forallb (λ o, forallb (λ o', implb (content_hash (op_tokens o) =? content_hash (op_tokens o'))
    (bool_decide (op_tokens o = op_tokens o'))) ops) ops = true → collision_free k ops.
Proof.
  intros H o o' Ho Ho' _ _ Hh. rewrite forallb_forall in H. specialize (H o (proj1 (list_elem_of_In _ _) Ho)).
  rewrite forallb_forall in H. specialize (H o' (proj1 (list_elem_of_In _ _) Ho')).
  rewrite Hh, Z.eqb_refl in H. by apply bool_decide_eq_true in H.
Qed.

(** a chunk stored twice, one replaced, a query that repeats content *)
Definition demo_blend_ops : list blend_op :=
  [OAdd [1; 2] [x01] 0; OAdd [3; 4] [x02] 2; OAdd [1; 2] [x03] 8; ORemove [3; 4] [x02]; OAdd [3; 4] [x04] 6; OAdd [5] [x05] 0].
Definition demo_blend_index : BlendIndex := mkBlendIndex 2 1 [] (zeros _MIN_TABLE_SIZE) (_MIN_TABLE_SIZE - 1) 0.

Example demo_blend_match :
  match_ (foldl blend_step demo_blend_index demo_blend_ops) [9; 1; 2; 3; 4; 1; 2; 1; 2] =
  [mkBlendMatch [x01] 0 1; mkBlendMatch [x04] 6 3; mkBlendMatch [x03] 8 5].
Proof. vm_compute. reflexivity. Qed.

Lemma blend_lookup_exact_witness :
  answers (λ p h n, live 2 demo_blend_ops (window [9; 1; 2; 3; 4; 1; 2] 2 p) h = Some n) (probed 2 1 [9; 1; 2; 3; 4; 1; 2])
    (match_ (foldl blend_step demo_blend_index demo_blend_ops) [9; 1; 2; 3; 4; 1; 2]).
Proof.
  apply (blend_lookup_exact 2 1 demo_blend_index demo_blend_ops); [reflexivity|].
  apply collision_free_check. vm_compute. reflexivity.
Defined.

Lemma blend_filter_bounded_witness :
  let t' := foldl blend_step demo_blend_index demo_blend_ops in filter_ok t' ∧ bs_num_contents (stats t') = 2.
Proof.
  split; [|vm_compute; reflexivity]. apply (blend_filter_bounded 2 1 demo_blend_index demo_blend_ops). reflexivity.
Defined.
