(* ===== verification/KeyDirectory.v ===== *)
(** * The coordinator's key directory

    [mp_coordinator/views/key_directory.py]: the placements of every key across
    the fleet, the reverse index that makes fencing cheap, and the token bindings
    that feed the blend index, as a consumer of the event stream. The conversion of
    token ids to a [uint32] array is numpy's ([UInt32Array]); arrays are lists. *)

From S2P Require Import Prelude PyDict PyState PySet PyFloat BatchBlob EventGate CacheEvents BlendIndex.

Open Scope Z_scope.

Definition u32_range (x : Z) : Prop := 0 <= x < 2 ^ 32.

(** [np.asarray(l, dtype=np.uint32)]: [None] when it raises [OverflowError],
    [TypeError] or [ValueError]; ids in range are kept *)
Class UInt32Array := {
  asarray_uint32 : list Z → option (list Z);
  asarray_exact l : Forall u32_range l → asarray_uint32 l = Some l;
  asarray_range l l' : asarray_uint32 l = Some l' → Forall u32_range l' ∧ length l' = length l }.

Record Placement := mkPlacement {
  pl_instance_id : string;
  pl_incarnation : Z;
  pl_tier : Tier;
  pl_backend : string;
  pl_size_bytes : Z;
  pl_shared : bool }.

(** ** Sorting by a tuple of strings *)

Definition string_le (a b : string) : bool := match String.compare a b with Gt => false | _ => true end.

Definition tuple_le (a b : string * string * string) : bool :=
  let '(a1, a2, a3) := a in let '(b1, b2, b3) := b in
  if decide (a1 = b1) then if decide (a2 = b2) then string_le a3 b3 else string_le a2 b2 else string_le a1 b1.

Definition placement_key (p : Placement) : string * string * string :=
  (pl_instance_id p, tier_value (pl_tier p), pl_backend p).

Fixpoint insert_placement (p : Placement) (l : list Placement) : list Placement :=
  match l with
  | [] => [p]
  | q :: l => if tuple_le (placement_key p) (placement_key q) then p :: q :: l else q :: insert_placement p l
  end.
Definition sort_placements (l : list Placement) : list Placement := foldr insert_placement [] l.

(** ** Little-endian [uint32] bytes *)

Definition u32_bytes (x : Z) : list byte := rev (Struct.be_bytes 4 x).
Definition tobytes (l : list Z) : list byte := concat (u32_bytes <$> l).
Fixpoint words (l : list byte) : list Z :=
  match l with
  | a :: b :: c :: d :: l => Struct.be_val [d; c; b; a] :: words l
  | _ => []
  end.
(** [np.frombuffer(raw, dtype="<u4")] *)
Definition frombuffer (raw : list byte) : result (list Z) :=
  if (length raw mod 4 =? 0)%nat then Ok (words raw) else Raise ValueError.

Section directory.
Context {K E F : Type} `{EqDecision K} `{KC : KeyCodec K E F} `{NP : UInt32Array}.

Record _KeyRecord := mkKeyRecord { kr_placements : list Placement; kr_last_access : float }.
Record _TokenBinding := mkBinding { tb_token_ids : list Z; tb_token_offset : Z; tb_keys : list K }.

Record DirectoryStats := mkDirectoryStats {
  ds_num_keys : Z;
  ds_num_placements : Z;
  ds_l1_keys_by_instance : list (string * Z);
  ds_blend : BlendIndexStats }.

Record KeyDirectory := mkDirectory {
  kd_directory : list (K * _KeyRecord);
  kd_l1_keys_by_instance : list (string * list K);
  kd_token_bindings : list (chunk * _TokenBinding);
  kd_blend_index : BlendIndex;
  kd_blend_lookup_enabled : bool }.

Definition with_directory (d : KeyDirectory) x :=
  mkDirectory x (kd_l1_keys_by_instance d) (kd_token_bindings d) (kd_blend_index d) (kd_blend_lookup_enabled d).
Definition with_l1_keys (d : KeyDirectory) x :=
  mkDirectory (kd_directory d) x (kd_token_bindings d) (kd_blend_index d) (kd_blend_lookup_enabled d).
Definition with_bindings (d : KeyDirectory) x :=
  mkDirectory (kd_directory d) (kd_l1_keys_by_instance d) x (kd_blend_index d) (kd_blend_lookup_enabled d).
Definition with_blend (d : KeyDirectory) x :=
  mkDirectory (kd_directory d) (kd_l1_keys_by_instance d) (kd_token_bindings d) x (kd_blend_lookup_enabled d).

(** [BlendIndex()] *)
Definition default_blend_index : BlendIndex :=
  mkBlendIndex 256 1 [] (zeros _MIN_TABLE_SIZE) (_MIN_TABLE_SIZE - 1) 0.
Definition kd_init : KeyDirectory := mkDirectory [] [] [] default_blend_index false.

Definition enable_blend_lookup (d : KeyDirectory) (chunk_size probe_stride : Z) : result KeyDirectory :=
  (t <-? new_blend_index chunk_size probe_stride;
   Ok (mkDirectory (kd_directory d) (kd_l1_keys_by_instance d) (kd_token_bindings d) t true))%py.

(** of the configuration: [enable_blend_lookup], [chunk_size], [blend_probe_stride] *)
Definition from_config (enable : bool) (chunk_size probe_stride : Z) : result KeyDirectory :=
  if enable then enable_blend_lookup kd_init chunk_size probe_stride else Ok kd_init.

(** ** Token bindings *)

Definition _add_token_binding (key : K) (d : KeyDirectory) : KeyDirectory :=
  let h := key_chunk_hash key in
  match dget (kd_token_bindings d) h with
  | None => with_bindings d (dset (kd_token_bindings d) h (mkBinding [] UNKNOWN_TOKEN_OFFSET [key]))
  | Some b => with_bindings d (dset (kd_token_bindings d) h
                (mkBinding (tb_token_ids b) (tb_token_offset b) (sadd (tb_keys b) key)))
  end.

Definition _remove_token_binding (key : K) (d : KeyDirectory) : KeyDirectory :=
  let h := key_chunk_hash key in
  match dget (kd_token_bindings d) h with
  | None => d
  | Some b =>
      match sdiscard (tb_keys b) key with
      | [] =>
          let d := with_bindings d (ddel (kd_token_bindings d) h) in
          if kd_blend_lookup_enabled d && nonempty (tb_token_ids b)
          then with_blend d (remove (kd_blend_index d) (tb_token_ids b) h) else d
      | keys => with_bindings d (dset (kd_token_bindings d) h (mkBinding (tb_token_ids b) (tb_token_offset b) keys))
      end
  end.

Definition _create_token_binding (chunk_hash : chunk) (entry : CacheEventEntry E) : py_state KeyDirectory unit :=
  match asarray_uint32 (en_token_ids entry) with
  | None => mret tt
  | Some token_ids =>
      d ← gets id;
      binding ← getitem (kd_token_bindings d) chunk_hash;
      _ ← when (kd_blend_lookup_enabled d && nonempty (tb_token_ids binding)
                && negb (bool_decide (tb_token_ids binding = token_ids)))
            (modify (λ d, with_blend d (remove (kd_blend_index d) (tb_token_ids binding) chunk_hash)));
      _ ← modify (λ d, with_bindings d (dset (kd_token_bindings d) chunk_hash
                          (mkBinding token_ids (en_token_offset entry) (tb_keys binding))));
      when (kd_blend_lookup_enabled d && negb (en_token_offset entry =? UNKNOWN_TOKEN_OFFSET))
        (modify (λ d, with_blend d (add (kd_blend_index d) token_ids chunk_hash (en_token_offset entry))))
  end.

(** ** Applying a batch *)

Definition matches (b : Batch E) (p : Placement) : bool :=
  bool_decide (pl_shared p = bo_shared (b_body b))
  && (bo_shared (b_body b) || bool_decide (pl_instance_id p = b_instance_id b))
  && bool_decide (pl_tier p = bo_tier (b_body b))
  && bool_decide (pl_backend p = bo_backend (b_body b)).

Fixpoint _find_placement (placements : list Placement) (b : Batch E) : option nat :=
  match placements with
  | [] => None
  | p :: placements => if matches b p then Some 0%nat else S <$> _find_placement placements b
  end.

Definition placement_of_entry (b : Batch E) (entry : CacheEventEntry E) : Placement :=
  mkPlacement (b_instance_id b) (b_incarnation b) (bo_tier (b_body b)) (bo_backend (b_body b))
    (en_size_bytes entry) (bo_shared (b_body b)).

Definition put_placement (ps : list Placement) (b : Batch E) (p : Placement) : list Placement :=
  match _find_placement ps b with None => ps ++ [p] | Some i => <[i := p]> ps end.

(** [record.last_access = max(record.last_access, batch.ts)] *)
Definition touch_record (b : Batch E) (key : K) (d : KeyDirectory) : KeyDirectory :=
  match dget (kd_directory d) key with
  | None => d
  | Some r => with_directory d (dset (kd_directory d) key
                (mkKeyRecord (kr_placements r) (py_max (kr_last_access r) (bo_ts (b_body b)))))
  end.

Definition is_l1_of (i : string) (p : Placement) : bool :=
  bool_decide (pl_tier p = L1) && bool_decide (pl_instance_id p = i).

Definition store_placement (b : Batch E) (key : K) (entry : CacheEventEntry E) (d : KeyDirectory) : KeyDirectory :=
  let d := match dget (kd_directory d) key with
           | None => _add_token_binding key (with_directory d (dset (kd_directory d) key (mkKeyRecord [] float_0)))
           | Some _ => d
           end in
  match dget (kd_directory d) key with
  | None => d
  | Some r => with_directory d (dset (kd_directory d) key
                (mkKeyRecord (put_placement (kr_placements r) b (placement_of_entry b entry)) (kr_last_access r)))
  end.

Definition delete_placement (b : Batch E) (key : K) (d : KeyDirectory) : KeyDirectory :=
  match dget (kd_directory d) key with
  | None => d
  | Some r =>
      let placements := match _find_placement (kr_placements r) b with
                        | None => kr_placements r
                        | Some i => base.delete i (kr_placements r)
                        end in
      let d := if nonempty placements
               then with_directory d (dset (kd_directory d) key (mkKeyRecord placements (kr_last_access r)))
               else _remove_token_binding key (with_directory d (ddel (kd_directory d) key)) in
      if bool_decide (bo_tier (b_body b) = L1) && negb (existsb (is_l1_of (b_instance_id b)) placements)
      then with_l1_keys d (dset (kd_l1_keys_by_instance d) (b_instance_id b)
                             (sdiscard (bucket (kd_l1_keys_by_instance d) (b_instance_id b)) key))
      else d
  end.

(** [l1_keys] is the emitter's entry of the reverse index *)
Definition _apply_entry (b : Batch E) (key : K) (entry : CacheEventEntry E) : py_state KeyDirectory unit :=
  match bo_event_type (b_body b) with
  | STORE =>
      _ ← modify (store_placement b key entry);
      _ ← when (nonempty (en_token_ids entry)) (_create_token_binding (key_chunk_hash key) entry);
      _ ← modify (touch_record b key);
      when (bool_decide (bo_tier (b_body b) = L1))
        (modify (λ d, with_l1_keys d (bucket_add (kd_l1_keys_by_instance d) (b_instance_id b) key)))
  | DELETE => modify (delete_placement b key)
  | ACCESS => modify (touch_record b key)
  | CONFIG => mret tt
  end.

Definition kd_consume (b : Batch E) : py_state KeyDirectory unit :=
  _ ← modify (λ d, with_l1_keys d (dset (kd_l1_keys_by_instance d) (b_instance_id b)
                                     (bucket (kd_l1_keys_by_instance d) (b_instance_id b))));
  for_each (λ entry, key ← lift (to_object_key (en_key entry)); _apply_entry b key entry) (bo_entries (b_body b)).

(** ** Fencing *)

(** one key of [_drop_l1_placements] *)
Definition drop_l1 (instance_id : string) (d : KeyDirectory) (key : K) : KeyDirectory :=
  match dget (kd_directory d) key with
  | None => d
  | Some r =>
      match List.filter (λ p, negb (is_l1_of instance_id p)) (kr_placements r) with
      | [] => _remove_token_binding key (with_directory d (ddel (kd_directory d) key))
      | kept => with_directory d (dset (kd_directory d) key (mkKeyRecord kept (kr_last_access r)))
      end
  end.

Definition kd_fence_instance (instance_id : string) (d : KeyDirectory) : KeyDirectory :=
  let d := foldl (drop_l1 instance_id) d (bucket (kd_l1_keys_by_instance d) instance_id) in
  with_l1_keys d (ddel (kd_l1_keys_by_instance d) instance_id).

Definition kd_deliver (x : delivery string (batch_body E)) : py_state KeyDirectory unit :=
  match x with
  | Consume b => kd_consume b
  | FenceInstance i => modify (kd_fence_instance i)
  end.

(** ** Reads *)

Definition placements_of (d : KeyDirectory) (key : K) : list Placement :=
  match dget (kd_directory d) key with Some r => kr_placements r | None => [] end.

Definition lookup (d : KeyDirectory) (keys : list K) : list (list Placement) :=
  (λ key, match dget (kd_directory d) key with
          | None => []
          | Some r => sort_placements (kr_placements r)
          end) <$> keys.

Definition get_token_ids (d : KeyDirectory) (chunk_hashes : list chunk) : list (list Z) :=
  (λ h, match dget (kd_token_bindings d) h with Some b => tb_token_ids b | None => [] end) <$> chunk_hashes.

Definition blend_match (d : KeyDirectory) (tokens : list Z) : list BlendMatch :=
  if kd_blend_lookup_enabled d then match_ (kd_blend_index d) tokens else [].

Definition blend_stats (d : KeyDirectory) : BlendIndexStats := BlendIndex.stats (kd_blend_index d).

Definition listed (tier : Tier) (instance_id backend : string) (p : Placement) : bool :=
  (bool_decide (tier = ALL) || bool_decide (pl_tier p = tier))
  && (is_empty instance_id || bool_decide (pl_instance_id p = instance_id))
  && (is_empty backend || bool_decide (pl_backend p = backend)).

Definition list_keys (d : KeyDirectory) (tier : Tier) (instance_id backend : string) (offset limit : Z)
  : result (Z * list (K * list Placement)) :=
  (guard negb (offset <? 0) else ValueError;
   guard negb (limit <? 0) else ValueError;
   Ok (foldl (λ tp kr,
        let '(total, page) := tp in
        match List.filter (listed tier instance_id backend) (kr_placements kr.2) with
        | [] => (total, page)
        | placements =>
            (total + 1, if (offset <=? total) && (Z.of_nat (length page) <? limit)
                        then dset page kr.1 placements else page)
        end) (0, []) (kd_directory d)))%py.

Definition kd_stats (d : KeyDirectory) : DirectoryStats :=
  mkDirectoryStats (Z.of_nat (length (kd_directory d)))
    (foldl (λ n r, n + Z.of_nat (length (kr_placements r))) 0 (dvals (kd_directory d)))
    ((λ ik, (ik.1, Z.of_nat (length ik.2))) <$> kd_l1_keys_by_instance d)
    (blend_stats d).

(** ** Capture and restore *)

Definition encoded_placement : Type := string * Z * string * string * Z * bool.

Definition _encode_placement (p : Placement) : encoded_placement :=
  (pl_instance_id p, pl_incarnation p, tier_value (pl_tier p), pl_backend p, pl_size_bytes p, pl_shared p).

Definition _decode_placement (x : encoded_placement) : result Placement :=
  let '(instance_id, incarnation, tier, backend, size_bytes, shared) := x in
  (t <-? tier_of tier; Ok (mkPlacement instance_id incarnation t backend size_bytes shared))%py.

Record capture_state := mkCapture {
  ca_keys : list (F * float * list encoded_placement);
  ca_bindings : list (chunk * Z * list byte);
  ca_l1_keys_by_instance : list (string * list Z) }.

Definition kd_capture (d : KeyDirectory) : capture_state :=
  let positions := imap (λ i kr, (kr.1, Z.of_nat i)) (kd_directory d) in
  mkCapture
    ((λ kr : K * _KeyRecord, (encode_key kr.1, kr_last_access kr.2, _encode_placement <$> kr_placements kr.2)) <$> kd_directory d)
    ((λ hb : chunk * _TokenBinding, (hb.1, tb_token_offset hb.2, tobytes (tb_token_ids hb.2))) <$> kd_token_bindings d)
    ((λ ik : string * list K, (ik.1, omap (dget positions) ik.2)) <$> kd_l1_keys_by_instance d).

Definition restore_key (x : F * float * list encoded_placement) (key_table : list K) : py_state KeyDirectory (list K) :=
  let '(encoded_key, last_access, placements) := x in
  key ← lift (decode_key encoded_key);
  ps ← lift (map_ok _decode_placement placements);
  _ ← modify (λ d, with_directory d (dset (kd_directory d) key (mkKeyRecord ps last_access)));
  _ ← modify (_add_token_binding key);
  mret (key_table ++ [key]).

Fixpoint restore_keys (xs : list (F * float * list encoded_placement)) (key_table : list K)
  : py_state KeyDirectory (list K) :=
  match xs with
  | [] => mret key_table
  | x :: xs => key_table ← restore_key x key_table; restore_keys xs key_table
  end.

Definition restore_binding (x : chunk * Z * list byte) : py_state KeyDirectory unit :=
  let '(chunk_hash, token_offset, raw_tokens) := x in
  d ← gets id;
  match dget (kd_token_bindings d) chunk_hash with
  | None => mret tt
  | Some binding =>
      token_ids ← lift (frombuffer raw_tokens);
      _ ← modify (λ d, with_bindings d (dset (kd_token_bindings d) chunk_hash
                          (mkBinding token_ids token_offset (tb_keys binding))));
      when (kd_blend_lookup_enabled d && negb (token_offset =? UNKNOWN_TOKEN_OFFSET))
        (modify (λ d, with_blend d (add (kd_blend_index d) token_ids chunk_hash token_offset)))
  end.

Definition restore_l1 (key_table : list K) (x : string * list Z) : py_state KeyDirectory unit :=
  keys ← lift (map_ok (λ position, if (0 <=? position) && (position <? Z.of_nat (length key_table))
                                   then match key_table !! Z.to_nat position with
                                        | Some key => Ok key | None => Raise ValueError end
                                   else Raise ValueError) x.2);
  modify (λ d, with_l1_keys d (dset (kd_l1_keys_by_instance d) x.1 (foldl sadd [] keys))).

Definition kd_restore (state : capture_state) : py_state KeyDirectory unit :=
  d ← gets id;
  if nonempty (kd_directory d) || nonempty (kd_l1_keys_by_instance d) then lift (Raise ValueError)
  else
    key_table ← restore_keys (ca_keys state) [];
    _ ← for_each restore_binding (ca_bindings state);
    for_each (restore_l1 key_table) (ca_l1_keys_by_instance state).

End directory.

Arguments KeyDirectory K : clear implicits.
Arguments _TokenBinding K : clear implicits.
Arguments capture_state F : clear implicits.
