(* ===== verification/KeyDirectoryProofs.v ===== *)
(** * The key directory: invariant and theorems

    The abstract specification of the directory is a function from keys and
    placement identities to placements, driven by the stream. The invariant ties
    the reverse index and the token bindings to the records, and the blend index to
    the bindings. *)

From S2P Require Import Prelude PyDict PyState PySet PyFloat BatchBlob EventGate CacheEvents BlendIndex KeyDirectory.

Open Scope Z_scope.

(** ** Placement identities *)

(** fleet-scoped when shared, else per instance *)
Definition identity : Type := bool * string * Tier * string.
Definition identity_of (p : Placement) : identity :=
  (pl_shared p, if pl_shared p then ""%string else pl_instance_id p, pl_tier p, pl_backend p).
Definition batch_identity {E} (b : Batch E) : identity :=
  (bo_shared (b_body b), if bo_shared (b_body b) then ""%string else b_instance_id b,
   bo_tier (b_body b), bo_backend (b_body b)).

#[export] Instance Placement_eq_dec : EqDecision Placement.
Proof. solve_decision. Defined.

Lemma matches_spec {E} (b : Batch E) p : matches b p = true ↔ identity_of p = batch_identity b.
Proof.
  unfold matches, identity_of, batch_identity. rewrite !andb_true_iff, orb_true_iff, !bool_decide_eq_true.
  split.
  - intros [[[Hs Ho] Ht] Hb]. rewrite Hs, Ht, Hb. destruct (bo_shared (b_body b)); [done|].
    destruct Ho as [?|Ho]; [done|by rewrite Ho].
  - intros [= Hs Ho Ht Hb]. split_and!; try done. rewrite Hs in Ho. destruct (bo_shared (b_body b)); auto.
Qed.

Definition placed (ps : list Placement) (id : identity) : option Placement :=
  List.find (λ p, bool_decide (identity_of p = id)) ps.

Definition ids_ok (ps : list Placement) : Prop := NoDup (identity_of <$> ps).

Lemma placed_cons p ps id : placed (p :: ps) id = if decide (identity_of p = id) then Some p else placed ps id.
Proof. unfold placed. cbn. case_decide; [by rewrite bool_decide_true|by rewrite bool_decide_false]. Qed.

Lemma placed_Some ps id p : placed ps id = Some p → p ∈ ps ∧ identity_of p = id.
Proof. unfold placed. intros H%List.find_some. destruct H as [? ?%bool_decide_eq_true]. split; [by apply list_elem_of_In|done]. Qed.

Lemma placed_None ps id : placed ps id = None ↔ id ∉ identity_of <$> ps.
Proof.
  induction ps as [|p ps IH]; [split; [intros _ Hx; by apply not_elem_of_nil in Hx|done]|].
  rewrite placed_cons, fmap_cons, elem_of_cons. case_decide; naive_solver.
Qed.

Lemma placed_elem ps p : ids_ok ps → p ∈ ps ↔ placed ps (identity_of p) = Some p.
Proof.
  intros Hps. split; [|by intros []%placed_Some]. unfold ids_ok in Hps. induction ps as [|q ps IH]; intros Hin.
  { by apply not_elem_of_nil in Hin. }
  rewrite fmap_cons in Hps. apply NoDup_cons in Hps as [Hn Hps]. rewrite placed_cons.
  apply elem_of_cons in Hin as [->|Hin]; [by rewrite decide_True|].
  rewrite decide_False; [by apply IH|]. intros Heq. apply Hn. rewrite Heq. by apply list_elem_of_fmap_2.
Qed.

(** *** Storing and deleting a placement *)

Section batch.
Context {E : Type} (b : Batch E).

Lemma find_placement_None ps : _find_placement ps b = None ↔ placed ps (batch_identity b) = None.
Proof.
  induction ps as [|p ps IH]; [done|]. cbn [_find_placement]. rewrite placed_cons. pose proof (matches_spec b p) as Hm.
  destruct (matches b p).
  - rewrite decide_True by (by apply Hm). done.
  - rewrite decide_False by (intros Hp%Hm; done). rewrite <- IH. by destruct (_find_placement ps b).
Qed.

Lemma find_placement_Some ps i : _find_placement ps b = Some i →
  ∃ l p l', ps = l ++ p :: l' ∧ length l = i ∧ identity_of p = batch_identity b.
Proof.
  revert i. induction ps as [|p ps IH]; intros i; [done|]. cbn [_find_placement]. pose proof (matches_spec b p) as Hm.
  destruct (matches b p); [intros [= <-]; exists [], p, ps; naive_solver|].
  destruct (_find_placement ps b) as [j|]; [|done]. intros [= <-].
  destruct (IH j eq_refl) as (l & q & l' & -> & <- & ?). by exists (p :: l), q, l'.
Qed.

Lemma put_placement_fmap ps p : identity_of p = batch_identity b →
  (identity_of <$> put_placement ps b p) = identity_of <$> ps ∧ placed ps (batch_identity b) ≠ None ∨
  put_placement ps b p = ps ++ [p] ∧ placed ps (batch_identity b) = None.
Proof.
  intros Hp. unfold put_placement. destruct (_find_placement ps b) as [i|] eqn:Ef.
  - left. split; [|intros Hn%find_placement_None; congruence].
    apply find_placement_Some in Ef as (l & q & l' & -> & <- & Hq).
    rewrite insert_app_r_alt by lia. rewrite Nat.sub_diag. cbn. rewrite !fmap_app, !fmap_cons. congruence.
  - right. split; [done|]. by apply find_placement_None.
Qed.

Lemma placed_app ps qs id : placed (ps ++ qs) id = match placed ps id with Some p => Some p | None => placed qs id end.
Proof. induction ps as [|p ps IH]; [done|]. cbn [app]. rewrite !placed_cons. by case_decide. Qed.

Lemma put_placement_placed ps p id : ids_ok ps → identity_of p = batch_identity b →
  placed (put_placement ps b p) id = if decide (id = batch_identity b) then Some p else placed ps id.
Proof.
  intros Hps Hp. unfold put_placement. destruct (_find_placement ps b) as [i|] eqn:Ef.
  - apply find_placement_Some in Ef as (l & q & l' & -> & <- & Hq).
    rewrite insert_app_r_alt by lia. rewrite Nat.sub_diag. cbn. rewrite !placed_app, !placed_cons, Hp, Hq.
    unfold ids_ok in Hps. rewrite fmap_app, fmap_cons in Hps. apply NoDup_app in Hps as (_ & Hps & _).
    assert (placed l (batch_identity b) = None) as Hl.
    { apply placed_None. intros Hin. apply (Hps _ Hin). rewrite Hq. left. }
    destruct (decide (id = batch_identity b)) as [->|]; [by rewrite Hl, decide_True|by rewrite !decide_False].
  - apply find_placement_None in Ef. rewrite placed_app, placed_cons, Hp.
    destruct (decide (id = batch_identity b)) as [->|]; [by rewrite Ef, decide_True|].
    rewrite decide_False by done. by destruct (placed ps id).
Qed.

Lemma put_placement_ids ps p : ids_ok ps → identity_of p = batch_identity b → ids_ok (put_placement ps b p).
Proof.
  intros Hps Hp. unfold ids_ok. destruct (put_placement_fmap ps p Hp) as [[-> _]|[-> Hn]]; [done|].
  rewrite fmap_app. apply NoDup_app. split_and!; [done| |apply NoDup_singleton].
  intros id Hid ->%list_elem_of_singleton. apply placed_None in Hn. by rewrite Hp in Hid.
Qed.

Lemma put_placement_nonempty ps p : put_placement ps b p ≠ [].
Proof.
  unfold put_placement. destruct (_find_placement ps b) as [i|] eqn:Ef; [|by destruct ps].
  apply find_placement_Some in Ef as (l & q & l' & -> & <- & Hq). rewrite insert_app_r_alt by lia. rewrite Nat.sub_diag.
  by destruct l.
Qed.

Definition pop_placement (ps : list Placement) : list Placement :=
  match _find_placement ps b with None => ps | Some i => base.delete i ps end.

Lemma pop_placement_placed ps id : ids_ok ps →
  placed (pop_placement ps) id = if decide (id = batch_identity b) then None else placed ps id.
Proof.
  intros Hps. unfold pop_placement. destruct (_find_placement ps b) as [i|] eqn:Ef.
  - apply find_placement_Some in Ef as (l & q & l' & -> & <- & Hq). rewrite delete_middle, !placed_app, placed_cons, Hq.
    unfold ids_ok in Hps. rewrite fmap_app, fmap_cons in Hps. apply NoDup_app in Hps as (_ & Hps & [Hn _]%NoDup_cons).
    rewrite Hq in Hn. destruct (decide (id = batch_identity b)) as [->|]; [|by rewrite decide_False].
    rewrite (proj2 (placed_None l _)); [by apply placed_None|]. intros Hin. apply (Hps _ Hin). rewrite Hq. left.
  - apply find_placement_None in Ef. case_decide; [by subst|done].
Qed.

Lemma pop_placement_ids ps : ids_ok ps → ids_ok (pop_placement ps).
Proof.
  intros Hps. unfold pop_placement. destruct (_find_placement ps b) as [i|] eqn:Ef; [|done].
  apply find_placement_Some in Ef as (l & q & l' & -> & <- & Hq). rewrite delete_middle. unfold ids_ok in *.
  rewrite fmap_app, fmap_cons in Hps. rewrite fmap_app. apply NoDup_app in Hps as (H1 & H2 & [_ H3]%NoDup_cons).
  apply NoDup_app. split_and!; [done| |done]. intros x Hx Hin. apply (H2 x Hx). by right.
Qed.
End batch.

Lemma placed_filter (f : Placement → bool) ps id : ids_ok ps →
  placed (List.filter f ps) id = match placed ps id with Some p => if f p then Some p else None | None => None end.
Proof.
  unfold ids_ok. induction ps as [|p ps IH]; intros Hps; [done|]. rewrite fmap_cons in Hps.
  apply NoDup_cons in Hps as [Hn Hps]. cbn [List.filter]. rewrite placed_cons.
  destruct (decide (identity_of p = id)) as [Hid|Hid].
  - destruct (f p); [by rewrite placed_cons, decide_True|]. rewrite IH by done.
    rewrite (proj2 (placed_None ps id)); [done|]. by rewrite <- Hid.
  - destruct (f p); [rewrite placed_cons, decide_False by done|]; by apply IH.
Qed.

Lemma filter_ids (f : Placement → bool) ps : ids_ok ps → ids_ok (List.filter f ps).
Proof.
  unfold ids_ok. induction ps as [|p ps IH]; intros Hps; [done|]. rewrite fmap_cons in Hps.
  apply NoDup_cons in Hps as [Hn Hps]. cbn [List.filter]. destruct (f p); [|auto]. rewrite fmap_cons. apply NoDup_cons. split; [|auto].
  intros (q & Hq & Hin)%list_elem_of_fmap. apply Hn. rewrite Hq. apply list_elem_of_fmap_2.
  apply list_elem_of_In, filter_In in Hin as [? _]. by apply list_elem_of_In.
Qed.

Section directory.
Context {K E F : Type} `{EqDecision K} `{KC : KeyCodec K E F} `{NP : UInt32Array}.
Implicit Types (d : KeyDirectory K) (k key : K) (b : Batch E) (entry : CacheEventEntry E).

(** ** The invariant *)

(** one binding per chunk hash of the keys in [P], holding exactly those keys *)
Record bindings_ok (P : K → Prop) (bs : list (chunk * _TokenBinding K)) : Prop := {
  bo_wf : dwf bs;
  bo_each : ∀ h x, dget bs h = Some x → tb_keys x ≠ [] ∧ Forall u32_range (tb_token_ids x) ∧
              ∀ k, k ∈ tb_keys x ↔ P k ∧ key_chunk_hash k = h;
  bo_all : ∀ k, P k → is_Some (dget bs (key_chunk_hash k)) }.

Record dir_core d : Prop := {
  dc_wf : dwf (kd_directory d);
  dc_records : ∀ k r, dget (kd_directory d) k = Some r → kr_placements r ≠ [] ∧ ids_ok (kr_placements r);
  dc_bindings : bindings_ok (λ k, k ∈ dkeys (kd_directory d)) (kd_token_bindings d) }.

(** fencing an instance visits every key it has an L1 placement of *)
Definition l1_ok d : Prop :=
  ∀ k p, p ∈ placements_of d k → pl_tier p = L1 → k ∈ bucket (kd_l1_keys_by_instance d) (pl_instance_id p).

Record dir_ok d : Prop := { do_core : dir_core d; do_l1 : l1_ok d }.

Lemma bindings_ok_ext (P Q : K → Prop) bs : (∀ k, P k ↔ Q k) → bindings_ok P bs → bindings_ok Q bs.
Proof. intros Hpq [Hw He Ha]. constructor; [done| |]. { intros h x Hx. destruct (He h x Hx) as (? & ? & Hk). split_and!; [done..|]. intros k. by rewrite Hk, Hpq. } intros k Hk. by apply Ha, Hpq. Qed.

Lemma add_binding_ok P key d : bindings_ok P (kd_token_bindings d) →
  bindings_ok (λ k, P k ∨ k = key) (kd_token_bindings (_add_token_binding key d)).
Proof.
  intros [Hw He Ha]. unfold _add_token_binding. set (h := key_chunk_hash key).
  destruct (dget (kd_token_bindings d) h) as [x|] eqn:Ex; cbn [kd_token_bindings with_bindings].
  - destruct (He h x Ex) as (Hne & Hr & Hk). constructor; [by apply dset_wf| |].
    + intros h' x'. rewrite dget_dset. case_decide as Hh.
      * subst h'. intros [= <-]. cbn. split_and!; [apply sadd_nonempty|done|]. intros k. rewrite elem_of_sadd, Hk.
        split; [|naive_solver]. intros [?| ->]; [naive_solver|auto].
      * intros Hx'. destruct (He h' x' Hx') as (? & ? & Hk'). split_and!; [done..|]. intros k. rewrite Hk'.
        split; [naive_solver|]. intros [[?| ->] ?]; [done|by destruct Hh].
    + intros k Hk'. rewrite dget_dset. case_decide; [done|]. destruct Hk' as [?| ->]; [by apply Ha|done].
  - constructor; [by apply dset_wf| |].
    + intros h' x'. rewrite dget_dset. case_decide as Hh.
      * subst h'. intros [= <-]. cbn. split_and!; [done|constructor|]. intros k. rewrite list_elem_of_singleton.
        split; [intros ->; auto|]. intros [[Hp| ->] Hh]; [|done]. specialize (Ha k Hp). rewrite Hh, Ex in Ha. by destruct Ha.
      * intros Hx'. destruct (He h' x' Hx') as (? & ? & Hk'). split_and!; [done..|]. intros k. rewrite Hk'.
        split; [naive_solver|]. intros [[?| ->] ?]; [done|by destruct Hh].
    + intros k Hk'. rewrite dget_dset. case_decide; [done|]. destruct Hk' as [?| ->]; [by apply Ha|done].
Qed.

(** the bindings of [_remove_token_binding] *)
Definition unbind key (bs : list (chunk * _TokenBinding K)) : list (chunk * _TokenBinding K) :=
  let h := key_chunk_hash key in
  match dget bs h with
  | None => bs
  | Some x => match sdiscard (tb_keys x) key with
              | [] => ddel bs h
              | keys => dset bs h (mkBinding (tb_token_ids x) (tb_token_offset x) keys)
              end
  end.

Lemma remove_binding_fields key d :
  kd_directory (_remove_token_binding key d) = kd_directory d ∧
  kd_l1_keys_by_instance (_remove_token_binding key d) = kd_l1_keys_by_instance d ∧
  kd_token_bindings (_remove_token_binding key d) = unbind key (kd_token_bindings d) ∧
  kd_blend_lookup_enabled (_remove_token_binding key d) = kd_blend_lookup_enabled d.
Proof.
  unfold _remove_token_binding, unbind. destruct (dget _ _) as [x|]; [|done]. destruct (sdiscard _ _); [|done].
  cbn zeta. by destruct (_ && _).
Qed.

Lemma unbind_ok P key bs : bindings_ok P bs → bindings_ok (λ k, P k ∧ k ≠ key) (unbind key bs).
Proof.
  intros [Hw He Ha]. unfold unbind. set (h := key_chunk_hash key).
  assert (∀ h' x, h ≠ h' → dget bs h' = Some x → tb_keys x ≠ [] ∧ Forall u32_range (tb_token_ids x) ∧
    ∀ k, k ∈ tb_keys x ↔ (P k ∧ k ≠ key) ∧ key_chunk_hash k = h') as Hother.
  { intros h' x Hh Hx. destruct (He h' x Hx) as (? & ? & Hk). split_and!; [done..|]. intros k. rewrite Hk. split; [|naive_solver].
    intros [? <-]. split_and!; [done| |done]. by intros ->. }
  destruct (dget bs h) as [x|] eqn:Ex.
  - destruct (He h x Ex) as (_ & Hr & Hk).
    assert (∀ k, k ∈ sdiscard (tb_keys x) key ↔ (P k ∧ k ≠ key) ∧ key_chunk_hash k = h) as Hs.
    { intros k. rewrite elem_of_sdiscard, Hk. naive_solver. }
    destruct (sdiscard (tb_keys x) key) as [|k0 ks] eqn:Es.
    + constructor; [by apply ddel_wf| |].
      * intros h' x'. rewrite dget_ddel. case_decide; [done|]. by apply Hother.
      * intros k [Hp Hne]. rewrite dget_ddel. case_decide as Hh; [|by apply Ha].
        assert (k ∈ []) as Hin by (by apply Hs). by apply not_elem_of_nil in Hin.
    + constructor; [by apply dset_wf| |].
      * intros h' x'. rewrite dget_dset. case_decide; [|by apply Hother]. subst h'. intros [= <-]. done.
      * intros k [Hp Hne]. rewrite dget_dset. case_decide; [done|by apply Ha].
  - constructor; [done| |intros k [? _]; by apply Ha]. intros h' x' Hx'. apply Hother; [congruence|done].
Qed.

(** *** Filling a binding *)

Definition bind_tokens (h : chunk) entry d : KeyDirectory K :=
  match asarray_uint32 (en_token_ids entry), dget (kd_token_bindings d) h with
  | Some tokens, Some x =>
      let on := kd_blend_lookup_enabled d in
      let d := if on && nonempty (tb_token_ids x) && negb (bool_decide (tb_token_ids x = tokens))
               then with_blend d (remove (kd_blend_index d) (tb_token_ids x) h) else d in
      let d := with_bindings d (dset (kd_token_bindings d) h (mkBinding tokens (en_token_offset entry) (tb_keys x))) in
      if on && negb (en_token_offset entry =? UNKNOWN_TOKEN_OFFSET)
      then with_blend d (add (kd_blend_index d) tokens h (en_token_offset entry)) else d
  | _, _ => d
  end.

Lemma create_token_binding_runs h entry d : is_Some (dget (kd_token_bindings d) h) →
  _create_token_binding h entry d = (Ok tt, bind_tokens h entry d).
Proof.
  intros [x Hx]. unfold _create_token_binding, bind_tokens. destruct (asarray_uint32 _) as [tokens|]; [|done].
  unfold gets, getitem, when, modify, mbind, py_bind, lift, id. cbv beta iota. rewrite Hx. cbn zeta.
  by destruct (kd_blend_lookup_enabled d && nonempty (tb_token_ids x) && _),
    (kd_blend_lookup_enabled d && negb (_ =? _)).
Qed.

Lemma bind_tokens_fields h entry d :
  kd_directory (bind_tokens h entry d) = kd_directory d ∧
  kd_l1_keys_by_instance (bind_tokens h entry d) = kd_l1_keys_by_instance d ∧
  kd_blend_lookup_enabled (bind_tokens h entry d) = kd_blend_lookup_enabled d.
Proof.
  unfold bind_tokens. destruct (asarray_uint32 _) as [tokens|]; [|done]. destruct (dget _ _) as [x|]; [|done]. cbn zeta.
  by destruct (kd_blend_lookup_enabled d && nonempty (tb_token_ids x) && _), (kd_blend_lookup_enabled d && negb (_ =? _)).
Qed.

Lemma bind_tokens_bindings h entry d :
  kd_token_bindings (bind_tokens h entry d) =
  match asarray_uint32 (en_token_ids entry), dget (kd_token_bindings d) h with
  | Some tokens, Some x => dset (kd_token_bindings d) h (mkBinding tokens (en_token_offset entry) (tb_keys x))
  | _, _ => kd_token_bindings d
  end.
Proof.
  unfold bind_tokens. destruct (asarray_uint32 _) as [tokens|]; [|done]. destruct (dget _ _) as [x|]; [|done]. cbn zeta.
  by destruct (kd_blend_lookup_enabled d && nonempty (tb_token_ids x) && _), (kd_blend_lookup_enabled d && negb (_ =? _)).
Qed.

Lemma set_tokens_ok P bs h x tokens n : bindings_ok P bs → dget bs h = Some x → Forall u32_range tokens →
  bindings_ok P (dset bs h (mkBinding tokens n (tb_keys x))).
Proof.
  intros [Hw He Ha] Hx Ht. destruct (He h x Hx) as (? & _ & Hk). constructor; [by apply dset_wf| |].
  - intros h' x'. rewrite dget_dset. case_decide; [subst h'|apply He]. intros [= <-]. done.
  - intros k Hp. rewrite dget_dset. case_decide; [done|by apply Ha].
Qed.

Lemma bind_tokens_ok P h entry d : bindings_ok P (kd_token_bindings d) →
  bindings_ok P (kd_token_bindings (bind_tokens h entry d)).
Proof.
  intros HP. rewrite bind_tokens_bindings. destruct (asarray_uint32 (en_token_ids entry)) as [tokens|] eqn:Ea; [|done].
  destruct (dget _ _) as [x|] eqn:Ex; [|done]. apply set_tokens_ok; [done..|]. by eapply asarray_range.
Qed.

(** ** The abstract specification *)

Definition view : Type := K → identity → option Placement.
Definition view_of d : view := λ k id, placed (placements_of d k) id.

Definition view_set (m : view) key (id : identity) (p : option Placement) : view :=
  λ k id', if decide (k = key ∧ id' = id) then p else m k id'.

Definition view_entry b (m : view) (ke : K * CacheEventEntry E) : view :=
  match bo_event_type (b_body b) with
  | STORE => view_set m ke.1 (batch_identity b) (Some (placement_of_entry b ke.2))
  | DELETE => view_set m ke.1 (batch_identity b) None
  | _ => m
  end.

(** L1 placements go with the stream that reported them last *)
Definition view_fence (i : string) (m : view) : view :=
  λ k id, match m k id with Some p => if is_l1_of i p then None else Some p | None => None end.

Definition view_deliver (m : view) (x : delivery string (batch_body E)) : view :=
  match x with
  | Consume b => foldl (view_entry b) m (keyed_entries (bo_entries (b_body b)))
  | FenceInstance i => view_fence i m
  end.

(** ** Records *)

(** replacing the record of a present or fresh key *)
Lemma placements_of_dset d x r k :
  placements_of (with_directory d (dset (kd_directory d) x r)) k =
  if decide (x = k) then kr_placements r else placements_of d k.
Proof. unfold placements_of. cbn. rewrite dget_dset. by case_decide. Qed.

Lemma placements_of_ddel d x k :
  placements_of (with_directory d (ddel (kd_directory d) x)) k = if decide (x = k) then [] else placements_of d k.
Proof. unfold placements_of. cbn. rewrite dget_ddel. by case_decide. Qed.

Lemma placements_of_fields d d' k : kd_directory d' = kd_directory d → placements_of d' k = placements_of d k.
Proof. unfold placements_of. by intros ->. Qed.

Lemma placements_ids d k : dir_core d → ids_ok (placements_of d k).
Proof.
  intros [_ Hr _]. unfold placements_of. destruct (dget _ _) as [r|] eqn:Er; [by apply (Hr k)|]. constructor.
Qed.

Lemma dkeys_dset_elem {V} (x : list (K * V)) k v k' : k' ∈ dkeys (dset x k v) ↔ k' ∈ dkeys x ∨ k' = k.
Proof. rewrite !elem_of_dkeys, dget_dset. case_decide; naive_solver. Qed.
Lemma dkeys_ddel_elem {V} (x : list (K * V)) k k' : k' ∈ dkeys (ddel x k) ↔ k' ∈ dkeys x ∧ k' ≠ k.
Proof. rewrite !elem_of_dkeys, dget_ddel. case_decide; rewrite ?is_Some_alt; naive_solver. Qed.

(** a record may change its placements as long as it keeps one *)
Lemma core_update d key r r' : dir_core d → dget (kd_directory d) key = Some r →
  kr_placements r' ≠ [] → ids_ok (kr_placements r') →
  dir_core (with_directory d (dset (kd_directory d) key r')).
Proof.
  intros [Hw Hr Hb] Hkey Hne Hid. constructor; cbn [kd_directory kd_token_bindings with_directory].
  - by apply dset_wf.
  - intros k x. rewrite dget_dset. case_decide; [intros [= <-]; done|apply Hr].
  - eapply bindings_ok_ext; [|exact Hb]. intros k. cbn. rewrite dkeys_dset_elem. split; [auto|].
    intros [?| ->]; [done|]. apply elem_of_dkeys. by eexists.
Qed.

Lemma core_fields d d' : kd_directory d' = kd_directory d → kd_token_bindings d' = kd_token_bindings d →
  dir_core d → dir_core d'.
Proof. intros E1 E2 [? ? ?]. constructor; rewrite ?E1, ?E2; done. Qed.

(** forgetting a key *)
Lemma core_remove d key : dir_core d →
  dir_core (_remove_token_binding key (with_directory d (ddel (kd_directory d) key))).
Proof.
  intros [Hw Hr Hb]. destruct (remove_binding_fields key (with_directory d (ddel (kd_directory d) key))) as (E1 & _ & E3 & _).
  constructor; rewrite ?E1, ?E3; cbn [kd_directory kd_token_bindings with_directory].
  - by apply ddel_wf.
  - intros k r. rewrite dget_ddel. case_decide; [done|apply Hr].
  - eapply bindings_ok_ext; [|apply unbind_ok, Hb]. intros k. cbn. by rewrite dkeys_ddel_elem.
Qed.

Lemma touch_record_placements b key d k : placements_of (touch_record b key d) k = placements_of d k.
Proof.
  unfold touch_record. destruct (dget (kd_directory d) key) as [r|] eqn:Er; [|done]. rewrite placements_of_dset.
  case_decide; [subst|done]. unfold placements_of. by rewrite Er.
Qed.

Lemma touch_record_core b key d : dir_core d → dir_core (touch_record b key d).
Proof.
  intros Hd. unfold touch_record. destruct (dget (kd_directory d) key) as [r|] eqn:Er; [|done].
  destruct (dc_records _ Hd key r Er). by eapply core_update.
Qed.

(** *** Store *)

Lemma identity_of_entry b entry : identity_of (placement_of_entry b entry) = batch_identity b.
Proof. done. Qed.

Lemma store_placement_spec b key entry d : dir_core d →
  let d' := store_placement b key entry d in
  dir_core d' ∧ key ∈ dkeys (kd_directory d') ∧ kd_l1_keys_by_instance d' = kd_l1_keys_by_instance d ∧
  ∀ k, placements_of d' k = if decide (key = k) then put_placement (placements_of d key) b (placement_of_entry b entry)
                            else placements_of d k.
Proof.
  intros Hd. unfold store_placement. destruct (dget (kd_directory d) key) as [r|] eqn:Er.
  - cbv zeta. rewrite Er. destruct (dc_records _ Hd key r Er) as [Hne Hid]. split_and!.
    + eapply core_update; [done|exact Er|apply put_placement_nonempty|by apply put_placement_ids].
    + cbn [kd_directory with_directory]. rewrite dkeys_dset_elem. auto.
    + done.
    + intros k. rewrite placements_of_dset. assert (placements_of d key = kr_placements r) as ->; [|done].
      unfold placements_of. by rewrite Er.
  - set (d0 := with_directory d (dset (kd_directory d) key (mkKeyRecord [] float_0))).
    assert (kd_directory (_add_token_binding key d0) = dset (kd_directory d) key (mkKeyRecord [] float_0) ∧
      kd_l1_keys_by_instance (_add_token_binding key d0) = kd_l1_keys_by_instance d) as [E1 E2].
    { unfold _add_token_binding. by destruct (dget (kd_token_bindings d0) (key_chunk_hash key)). }
    cbv zeta. rewrite E1, dget_dset_eq. cbn [kr_placements kr_last_access]. split_and!.
    + destruct Hd as [Hw Hr Hb]. constructor; cbn [kd_directory kd_token_bindings with_directory].
      * by repeat apply dset_wf.
      * intros k r. rewrite !dget_dset. case_decide; [|apply Hr]. intros [= <-]. cbn.
        split; [done|apply NoDup_singleton].
      * eapply bindings_ok_ext; [|apply (add_binding_ok (λ k, k ∈ dkeys (kd_directory d)) key d0 Hb)]. intros k. cbv beta. rewrite !dkeys_dset_elem. naive_solver.
    + cbn [kd_directory with_directory]. rewrite dkeys_dset_elem. auto.
    + done.
    + intros k. unfold placements_of. cbn. rewrite !dget_dset. case_decide; [|done]. by rewrite Er.
Qed.

Definition store_pure b key entry d : KeyDirectory K :=
  let d := store_placement b key entry d in
  let d := if nonempty (en_token_ids entry) then bind_tokens (key_chunk_hash key) entry d else d in
  let d := touch_record b key d in
  if bool_decide (bo_tier (b_body b) = L1)
  then with_l1_keys d (bucket_add (kd_l1_keys_by_instance d) (b_instance_id b) key) else d.

Lemma apply_store_runs b key entry d : dir_core d → bo_event_type (b_body b) = STORE →
  _apply_entry b key entry d = (Ok tt, store_pure b key entry d).
Proof.
  intros Hd Hs. unfold _apply_entry, store_pure. rewrite Hs.
  destruct (store_placement_spec b key entry d Hd) as (Hd1 & Hin & _).
  rewrite (bind_ok (modify (store_placement b key entry)) _ d _ tt eq_refl).
  assert (when (nonempty (en_token_ids entry)) (_create_token_binding (key_chunk_hash key) entry) (store_placement b key entry d)
    = (Ok tt, if nonempty (en_token_ids entry) then bind_tokens (key_chunk_hash key) entry (store_placement b key entry d)
              else store_placement b key entry d)) as E1.
  { unfold when. destruct (nonempty _); [|done]. apply create_token_binding_runs. by apply (bo_all _ _ (dc_bindings _ Hd1)). }
  rewrite (bind_ok _ _ _ _ _ E1), (bind_ok (modify (touch_record b key)) _ _ _ tt eq_refl). unfold when. by case_bool_decide.
Qed.

Lemma store_pure_spec b key entry d : dir_core d →
  let d' := store_pure b key entry d in
  dir_core d' ∧
  kd_l1_keys_by_instance d' = (if bool_decide (bo_tier (b_body b) = L1)
    then bucket_add (kd_l1_keys_by_instance d) (b_instance_id b) key else kd_l1_keys_by_instance d) ∧
  ∀ k, placements_of d' k = if decide (key = k) then put_placement (placements_of d key) b (placement_of_entry b entry)
                            else placements_of d k.
Proof.
  intros Hd. destruct (store_placement_spec b key entry d Hd) as (Hd1 & _ & El & Hp).
  set (d2 := if nonempty (en_token_ids entry) then bind_tokens (key_chunk_hash key) entry (store_placement b key entry d)
             else store_placement b key entry d).
  assert (dir_core d2 ∧ kd_directory d2 = kd_directory (store_placement b key entry d) ∧
    kd_l1_keys_by_instance d2 = kd_l1_keys_by_instance d) as (Hd2 & E2 & El2).
  { unfold d2. destruct (nonempty _); [|done].
    destruct (bind_tokens_fields (key_chunk_hash key) entry (store_placement b key entry d)) as (E2 & E3 & _).
    split_and!; [|done|congruence]. destruct Hd1 as [Hw Hr Hb]. constructor; rewrite ?E2; [done..|]. by apply bind_tokens_ok. }
  assert (kd_l1_keys_by_instance (touch_record b key d2) = kd_l1_keys_by_instance d) as El3.
  { unfold touch_record. by destruct (dget _ _). }
  pose proof (touch_record_core b key d2 Hd2) as Hd3. unfold store_pure. fold d2. cbv zeta.
  split_and!.
  - case_bool_decide; [|done]. by eapply core_fields; [..|exact Hd3].
  - case_bool_decide; cbn; by rewrite El3.
  - intros k. rewrite <- Hp, <- (placements_of_fields (store_placement b key entry d) d2 k E2), <- (touch_record_placements b key d2 k).
    by case_bool_decide.
Qed.

Lemma l1_store b key entry d : dir_core d → l1_ok d → l1_ok (store_pure b key entry d).
Proof.
  intros Hd Hl k p Hin Ht. destruct (store_pure_spec b key entry d Hd) as (_ & El & Hp). rewrite Hp in Hin. rewrite El.
  assert (p ∈ placements_of d k ∨ (k = key ∧ p = placement_of_entry b entry)) as [Hold|[-> ->]].
  { case_decide; [subst k|auto]. pose proof (placements_ids d key Hd) as Hid.
    apply placed_elem in Hin; [|by apply put_placement_ids]. rewrite put_placement_placed in Hin by done.
    case_decide; [naive_solver|]. left. by apply placed_elem. }
  - specialize (Hl k p Hold Ht). case_bool_decide; [|done]. apply elem_of_bucket_add. auto.
  - cbn in Ht |- *. rewrite bool_decide_true by done. apply elem_of_bucket_add. auto.
Qed.

(** *** Delete *)

Lemma pop_placement_sub b ps p : p ∈ pop_placement b ps → p ∈ ps.
Proof.
  unfold pop_placement. destruct (_find_placement ps b) as [i|] eqn:Ef; [|done].
  apply find_placement_Some in Ef as (l & q & l' & -> & <- & Hq). rewrite delete_middle. set_solver.
Qed.

Lemma placements_of_Some d key r : dget (kd_directory d) key = Some r → placements_of d key = kr_placements r.
Proof. unfold placements_of. by intros ->. Qed.
Lemma placements_of_None d key : dget (kd_directory d) key = None → placements_of d key = [].
Proof. unfold placements_of. by intros ->. Qed.

Lemma delete_placement_spec b key d : dir_core d →
  let d' := delete_placement b key d in
  dir_core d' ∧
  (∀ k, placements_of d' k = if decide (key = k) then pop_placement b (placements_of d key) else placements_of d k) ∧
  ((kd_l1_keys_by_instance d' = kd_l1_keys_by_instance d) ∨
   (kd_l1_keys_by_instance d' = dset (kd_l1_keys_by_instance d) (b_instance_id b)
      (sdiscard (bucket (kd_l1_keys_by_instance d) (b_instance_id b)) key) ∧
    existsb (is_l1_of (b_instance_id b)) (pop_placement b (placements_of d key)) = false)).
Proof.
  intros Hd. unfold delete_placement. destruct (dget (kd_directory d) key) as [r|] eqn:Er.
  2:{ split_and!; [done| |by left]. intros k. case_decide; [subst|done]. by rewrite placements_of_None. }
  rewrite (placements_of_Some d key r Er). fold (pop_placement b (kr_placements r)).
  destruct (dc_records _ Hd key r Er) as [_ Hid]. set (ps := pop_placement b (kr_placements r)).
  set (d1 := if nonempty ps then _ else _).
  assert (dir_core d1 ∧ (∀ k, placements_of d1 k = if decide (key = k) then ps else placements_of d k) ∧
    kd_l1_keys_by_instance d1 = kd_l1_keys_by_instance d) as (Hd1 & Hp1 & El1).
  { unfold d1. destruct (nonempty ps) eqn:En.
    - split_and!; [|intros k; by rewrite placements_of_dset|done].
      eapply core_update; [done|exact Er|cbn; by destruct ps|by apply pop_placement_ids].
    - apply nonempty_false in En. destruct (remove_binding_fields key (with_directory d (ddel (kd_directory d) key))) as (E1 & E2 & _).
      split_and!; [by apply core_remove| |by rewrite E2]. intros k.
      rewrite (placements_of_fields _ _ k E1), placements_of_ddel. by rewrite En. }
  destruct (bool_decide (bo_tier (b_body b) = L1) && negb (existsb (is_l1_of (b_instance_id b)) ps)) eqn:Ec.
  - split_and!; [by eapply core_fields; [..|exact Hd1]| |].
    + intros k. rewrite <- Hp1. done.
    + right. apply andb_true_iff in Ec as [_ Ec%negb_true_iff]. cbn. by rewrite El1.
  - split_and!; [done|done|by left].
Qed.

Lemma l1_delete b key d : dir_core d → l1_ok d → l1_ok (delete_placement b key d).
Proof.
  intros Hd Hl k p Hin Ht. destruct (delete_placement_spec b key d Hd) as (_ & Hp & El). rewrite Hp in Hin.
  assert (p ∈ placements_of d k) as Hold.
  { case_decide; [subst k|done]. by eapply pop_placement_sub. }
  specialize (Hl k p Hold Ht). destruct El as [->|[-> Hno]]; [done|]. rewrite bucket_of_dset.
  destruct (decide (b_instance_id b = pl_instance_id p)) as [Hi|]; [|done].
  rewrite Hi. apply elem_of_sdiscard. split; [done|]. intros ->. rewrite decide_True in Hin by done.
  rewrite <- not_true_iff_false in Hno. apply Hno. apply existsb_exists. exists p. split; [by apply list_elem_of_In|].
  unfold is_l1_of. by rewrite !bool_decide_true.
Qed.

(** *** One entry *)

Definition apply_pure b (d : KeyDirectory K) (ke : K * CacheEventEntry E) : KeyDirectory K :=
  match bo_event_type (b_body b) with
  | STORE => store_pure b ke.1 ke.2 d
  | DELETE => delete_placement b ke.1 d
  | ACCESS => touch_record b ke.1 d
  | CONFIG => d
  end.

Lemma apply_entry_runs b ke d : dir_core d → _apply_entry b ke.1 ke.2 d = (Ok tt, apply_pure b d ke).
Proof.
  intros Hd. unfold apply_pure. destruct (bo_event_type (b_body b)) eqn:Et; [by apply apply_store_runs|..];
    unfold _apply_entry; by rewrite Et.
Qed.

Lemma apply_pure_ok b ke d : dir_ok d →
  dir_ok (apply_pure b d ke) ∧ ∀ k id, view_of (apply_pure b d ke) k id = view_entry b (view_of d) ke k id.
Proof.
  intros [Hd Hl]. destruct ke as [key entry]. unfold apply_pure, view_entry, view_set, view_of. cbn [fst snd].
  destruct (bo_event_type (b_body b)).
  - destruct (store_pure_spec b key entry d Hd) as (Hd' & _ & Hp). split; [split; [done|by apply l1_store]|].
    intros k id. rewrite Hp. destruct (decide (key = k)) as [<-|Hne]; [|by rewrite decide_False by naive_solver].
    rewrite put_placement_placed by (done || by apply placements_ids). repeat case_decide; naive_solver.
  - destruct (delete_placement_spec b key d Hd) as (Hd' & Hp & _). split; [split; [done|by apply l1_delete]|].
    intros k id. rewrite Hp. destruct (decide (key = k)) as [<-|Hne]; [|by rewrite decide_False by naive_solver].
    rewrite pop_placement_placed by (by apply placements_ids). repeat case_decide; naive_solver.
  - split; [split|].
    + by apply touch_record_core.
    + intros k p. rewrite touch_record_placements. intros Hin Ht.
      assert (kd_l1_keys_by_instance (touch_record b key d) = kd_l1_keys_by_instance d) as ->; [|by apply Hl].
      unfold touch_record. by destruct (dget _ _).
    + intros k id. by rewrite touch_record_placements.
  - done.
Qed.

(** *** Fence *)

Lemma drop_l1_spec i d key : dir_core d →
  let d' := drop_l1 i d key in
  dir_core d' ∧ kd_l1_keys_by_instance d' = kd_l1_keys_by_instance d ∧
  ∀ k, placements_of d' k = if decide (key = k) then List.filter (λ p, negb (is_l1_of i p)) (placements_of d key)
                            else placements_of d k.
Proof.
  intros Hd. unfold drop_l1. destruct (dget (kd_directory d) key) as [r|] eqn:Er.
  2:{ split_and!; [done|done|]. intros k. case_decide; [subst|done]. by rewrite placements_of_None. }
  rewrite (placements_of_Some d key r Er). destruct (dc_records _ Hd key r Er) as [_ Hid].
  pose proof (filter_ids (λ p, negb (is_l1_of i p)) _ Hid) as Hid'.
  destruct (List.filter _ (kr_placements r)) as [|p ps].
  - destruct (remove_binding_fields key (with_directory d (ddel (kd_directory d) key))) as (E1 & E2 & _).
    split_and!; [by apply core_remove|by rewrite E2|]. intros k. by rewrite (placements_of_fields _ _ k E1), placements_of_ddel.
  - split_and!; [by eapply core_update|done|]. intros k. by rewrite placements_of_dset.
Qed.

Lemma drop_l1s_spec i keys : ∀ d, dir_core d →
  let d' := foldl (drop_l1 i) d keys in
  dir_core d' ∧ kd_l1_keys_by_instance d' = kd_l1_keys_by_instance d ∧
  ∀ k, placements_of d' k = if decide (k ∈ keys) then List.filter (λ p, negb (is_l1_of i p)) (placements_of d k)
                            else placements_of d k.
Proof.
  induction keys as [|key keys IH]; intros d Hd; [done|]. cbn [foldl].
  destruct (drop_l1_spec i d key Hd) as (Hd1 & El1 & Hp1). destruct (IH _ Hd1) as (Hd2 & El2 & Hp2).
  split_and!; [done|by rewrite El2|]. intros k. rewrite Hp2, !Hp1.
  assert (∀ ps, List.filter (λ p, negb (is_l1_of i p)) (List.filter (λ p, negb (is_l1_of i p)) ps)
    = List.filter (λ p, negb (is_l1_of i p)) ps) as Hidem.
  { induction ps as [|p ps IHp]; [done|]. cbn. destruct (negb (is_l1_of i p)) eqn:Ep; cbn; [by rewrite Ep, IHp|done]. }
  destruct (decide (key = k)) as [->|Hne].
  - rewrite (decide_True (P := k ∈ _ :: _)) by left. case_decide; [apply Hidem|done].
  - destruct (decide (k ∈ keys)); [by rewrite decide_True by (by right)|by rewrite decide_False by set_solver].
Qed.

Lemma fence_ok i d : dir_ok d →
  dir_ok (kd_fence_instance i d) ∧ ∀ k id, view_of (kd_fence_instance i d) k id = view_fence i (view_of d) k id.
Proof.
  intros [Hd Hl]. unfold kd_fence_instance.
  destruct (drop_l1s_spec i (bucket (kd_l1_keys_by_instance d) i) d Hd) as (Hd1 & El1 & Hp1).
  set (d1 := foldl _ _ _) in *.
  assert (∀ k, placements_of d1 k = List.filter (λ p, negb (is_l1_of i p)) (placements_of d k)) as Hp.
  { intros k. rewrite Hp1. case_decide as Hin; [done|]. symmetry. apply List.forallb_filter_id, forallb_forall.
    intros p Hp%list_elem_of_In. apply negb_true_iff. unfold is_l1_of. apply not_true_iff_false.
    intros [Ht%bool_decide_eq_true Hi%bool_decide_eq_true]%andb_true_iff. apply Hin. rewrite <- Hi. by apply Hl. }
  cbv zeta. split; [split|].
  - by eapply core_fields; [..|exact Hd1].
  - intros k p Hin Ht. change (placements_of _ k) with (placements_of d1 k) in Hin. rewrite Hp in Hin.
    apply list_elem_of_In, filter_In in Hin as [Hin Hn]. apply list_elem_of_In in Hin.
    cbn [kd_l1_keys_by_instance with_l1_keys]. rewrite El1, bucket_ddel. case_decide as Hi; [|by apply Hl]. exfalso. unfold is_l1_of in Hn.
    rewrite !bool_decide_true in Hn; done.
  - intros k id. unfold view_of, view_fence. change (placements_of (with_l1_keys _ _) k) with (placements_of d1 k).
    rewrite Hp, placed_filter by (by apply placements_ids). destruct (placed _ id) as [p|]; [|done]. by destruct (is_l1_of i p).
Qed.

(** ** Deliveries *)

(** [setdefault(instance_id, set())] *)
Definition open_l1 (i : string) d : KeyDirectory K :=
  with_l1_keys d (dset (kd_l1_keys_by_instance d) i (bucket (kd_l1_keys_by_instance d) i)).

Lemma open_l1_ok i d : dir_ok d → dir_ok (open_l1 i d) ∧ ∀ k id, view_of (open_l1 i d) k id = view_of d k id.
Proof.
  intros [Hd Hl]. split; [|done]. split; [by eapply core_fields; [..|exact Hd]|]. intros k p Hin Ht.
  unfold open_l1. cbn [kd_l1_keys_by_instance with_l1_keys]. rewrite bucket_of_dset.
  case_decide as Hi; [rewrite Hi|]; by apply Hl.
Qed.

Definition deliver_pure d (x : delivery string (batch_body E)) : KeyDirectory K :=
  match x with
  | Consume b => foldl (apply_pure b) (open_l1 (b_instance_id b) d) (keyed_entries (bo_entries (b_body b)))
  | FenceInstance i => kd_fence_instance i d
  end.

Lemma view_entries_ext b l : ∀ m m' : view, (∀ k id, m k id = m' k id) →
  ∀ k id, foldl (view_entry b) m l k id = foldl (view_entry b) m' l k id.
Proof.
  induction l as [|ke l IH]; intros m m' Hm; [done|]. cbn [foldl]. apply IH. intros k id.
  unfold view_entry, view_set. destruct (bo_event_type _); try done; by case_decide.
Qed.

Lemma view_deliver_ext x (m m' : view) : (∀ k id, m k id = m' k id) → ∀ k id, view_deliver m x k id = view_deliver m' x k id.
Proof.
  intros Hm k id. destruct x as [b|i]; cbn; [by apply view_entries_ext|]. unfold view_fence. by rewrite Hm.
Qed.

Lemma entries_runs b entries l : keyed entries l → ∀ d, dir_ok d →
  for_each (λ entry, key ← lift (to_object_key (en_key entry)); _apply_entry b key entry) entries d =
    (Ok tt, foldl (apply_pure b) d l) ∧
  dir_ok (foldl (apply_pure b) d l) ∧
  ∀ k id, view_of (foldl (apply_pure b) d l) k id = foldl (view_entry b) (view_of d) l k id.
Proof.
  induction 1 as [|e ke es l [<- Hk] _ IH]; intros d Hd; [done|]. cbn [for_each foldl].
  destruct (apply_pure_ok b ke d Hd) as [Hd1 Hv1]. destruct (IH _ Hd1) as (E2 & Hd2 & Hv2).
  split_and!; [|done|].
  - unfold mbind at 1, py_bind at 1. unfold mbind at 1, py_bind at 1, lift at 1. rewrite Hk.
    rewrite (apply_entry_runs b ke d (do_core _ Hd)). exact E2.
  - intros k id. rewrite Hv2. by apply view_entries_ext.
Qed.

Lemma deliver_runs x d : dir_ok d → delivery_ok x →
  kd_deliver x d = (Ok tt, deliver_pure d x) ∧ dir_ok (deliver_pure d x) ∧
  ∀ k id, view_of (deliver_pure d x) k id = view_deliver (view_of d) x k id.
Proof.
  intros Hd Hx. destruct x as [b|i]; cbn [kd_deliver deliver_pure view_deliver].
  - destruct (open_l1_ok (b_instance_id b) d Hd) as [Hd1 Hv1].
    destruct (entries_runs b _ _ (batch_ok_keyed b Hx) _ Hd1) as (E2 & Hd2 & Hv2).
    split_and!; [|done|].
    + unfold kd_consume, mbind at 1, py_bind at 1, modify at 1. exact E2.
    + intros k id. rewrite Hv2. by apply view_entries_ext.
  - split; [done|]. by apply fence_ok.
Qed.

Lemma deliveries_run xs : ∀ d m, dir_ok d → (∀ k id, view_of d k id = m k id) → Forall delivery_ok xs →
  for_each kd_deliver xs d = (Ok tt, foldl deliver_pure d xs) ∧ dir_ok (foldl deliver_pure d xs) ∧
  ∀ k id, view_of (foldl deliver_pure d xs) k id = foldl view_deliver m xs k id.
Proof.
  induction xs as [|x xs IH]; intros d m Hd Hm Hxs; [done|]. apply Forall_cons in Hxs as [Hx Hxs]. cbn [foldl for_each].
  destruct (deliver_runs x d Hd Hx) as (E1 & Hd1 & Hv1).
  destruct (IH _ (view_deliver m x) Hd1) as (E2 & Hd2 & Hv2); [|done|].
  { intros k id. rewrite Hv1. by apply view_deliver_ext. }
  split_and!; [|done|done]. by rewrite (bind_ok _ _ _ _ _ E1).
Qed.

Lemma from_config_init on c s d : from_config on c s = Ok d →
  kd_directory d = [] ∧ kd_l1_keys_by_instance d = [] ∧ kd_token_bindings d = [] ∧ kd_blend_lookup_enabled d = on ∧
  bi_table (kd_blend_index d) = [] ∧ (on = true → index_ok (kd_blend_index d) ∧
    bi_chunk_size (kd_blend_index d) = Z.to_nat c ∧ bi_probe_stride (kd_blend_index d) = Z.to_nat s).
Proof.
  unfold from_config, enable_blend_lookup. destruct on; [|by intros [= <-]].
  destruct (new_blend_index c s) as [t|] eqn:Et; [|done]. intros [= <-]. cbn.
  destruct (new_index_ok _ _ _ Et) as (? & ? & ? & ?). done.
Qed.

Lemma empty_ok d : kd_directory d = [] → kd_token_bindings d = [] → dir_ok d.
Proof.
  intros E1 E3. split; [constructor|]; rewrite ?E1, ?E3.
  - constructor.
  - done.
  - constructor; [constructor|done|]. intros k Hk. by apply not_elem_of_nil in Hk.
  - intros k p. unfold placements_of. rewrite E1. intros Hp. by apply not_elem_of_nil in Hp.
Qed.

(** ** The blend index follows the bindings *)

Section blend.
(** the contents that occur have distinct fingerprints *)
Context (U : list Z → Prop) (HU : ∀ c c', U c → U c' → content_hash c = content_hash c' → c = c').

Record index_in (t : BlendIndex) : Prop := {
  ii_ok : index_ok t;
  ii_universe : ∀ c, c ∈ dkeys (contents_of t) → U c }.

Lemma index_distinct t tokens : index_in t → (length tokens = bi_chunk_size t → U tokens) →
  ∀ p e, (p, e) ∈ bi_table t → length tokens = bi_chunk_size t →
    content_hash (fe_token_ids e) = content_hash tokens → fe_token_ids e = tokens.
Proof.
  intros [Ht Hu] Htok p e Hin Hl Hh. apply HU; [|auto|done]. apply Hu. unfold dkeys, contents_of.
  rewrite <- list_fmap_compose. apply list_elem_of_fmap. by exists (p, e).
Qed.

Lemma index_step t o : index_in t → (length (op_tokens o) = bi_chunk_size t → U (op_tokens o)) →
  index_in (blend_step t o) ∧
  ∀ c, occupants (contents_of (blend_step t o)) c =
    if decide (op_tokens o = c ∧ length c = bi_chunk_size t) then
      match o with
      | OAdd _ h n => put_occupant (occupants (contents_of t) c) h n
      | ORemove _ h => filter (λ x, x.1 ≠ h) (occupants (contents_of t) c)
      end
    else occupants (contents_of t) c.
Proof.
  intros Ht Htok. pose proof Ht as [Hok Hu].
  pose proof (blend_step_spec t o Hok (index_distinct t (op_tokens o) Ht Htok)) as Es.
  split; [split|].
  - by apply blend_step_ok.
  - intros c. rewrite Es. destruct o as [tokens h n|tokens h]; cbn [spec_step op_tokens] in *; unfold spec_add, spec_remove.
    + destruct (Nat.eqb_spec (length tokens) (bi_chunk_size t)) as [Hl|]; cbn [negb]; [|apply Hu].
      rewrite elem_of_dkeys, dget_dset. case_decide; [subst; auto|]. rewrite <- elem_of_dkeys. apply Hu.
    + destruct (Nat.eqb_spec (length tokens) (bi_chunk_size t)) as [Hl|]; cbn [negb]; [|apply Hu].
      destruct (dget _ tokens) as [os|]; [|apply Hu]. destruct (filter _ os).
      * rewrite elem_of_dkeys, dget_ddel. case_decide; [by intros []|]. rewrite <- elem_of_dkeys. apply Hu.
      * rewrite elem_of_dkeys, dget_dset. case_decide; [subst; auto|]. rewrite <- elem_of_dkeys. apply Hu.
  - intros c. rewrite Es. apply occupants_step.
Qed.

Lemma occupants_facts t c : index_ok t → NoDup (occupants (contents_of t) c).*1 ∧
  (∀ x, x ∈ occupants (contents_of t) c → length c = bi_chunk_size t).
Proof.
  intros [_ _ Hw He _]. unfold occupants. destruct (dget (contents_of t) c) as [os|] eqn:Ec; cbn [from_option id].
  - apply dget_elem_of, list_elem_of_fmap in Ec as ([p e] & [= -> ->] & Hin). apply dget_wf_elem_of in Hin; [|done].
    destruct (He p e Hin) as [? ? ? ?]. done.
  - split; [constructor|]. intros x Hx. by apply not_elem_of_nil in Hx.
Qed.

Record blend_ok d : Prop := {
  bl_on : kd_blend_lookup_enabled d = true;
  bl_index : index_in (kd_blend_index d);
  bl_tokens : ∀ h x, dget (kd_token_bindings d) h = Some x → tb_token_ids x = [] ∨ U (tb_token_ids x);
  bl_sound : ∀ c h n, (h, n) ∈ occupants (contents_of (kd_blend_index d)) c →
    ∃ x, dget (kd_token_bindings d) h = Some x ∧ tb_token_ids x = c ∧
         (tb_token_offset x = n ∨ tb_token_offset x = UNKNOWN_TOKEN_OFFSET);
  bl_complete : ∀ h x, dget (kd_token_bindings d) h = Some x →
    length (tb_token_ids x) = bi_chunk_size (kd_blend_index d) → tb_token_offset x ≠ UNKNOWN_TOKEN_OFFSET →
    (h, tb_token_offset x) ∈ occupants (contents_of (kd_blend_index d)) (tb_token_ids x) }.

Lemma blend_same d d' : kd_token_bindings d' = kd_token_bindings d → kd_blend_index d' = kd_blend_index d →
  kd_blend_lookup_enabled d' = kd_blend_lookup_enabled d → blend_ok d → blend_ok d'.
Proof. intros E1 E2 E3 [? ? ? ? ?]. constructor; rewrite ?E1, ?E2, ?E3; done. Qed.

(** changing who shares a chunk, or adding a chunk of unknown content *)
Lemma blend_rebind d bs' : blend_ok d →
  (∀ h x, dget bs' h = Some x → (tb_token_ids x = [] ∧ tb_token_offset x = UNKNOWN_TOKEN_OFFSET) ∨
     ∃ y, dget (kd_token_bindings d) h = Some y ∧ tb_token_ids x = tb_token_ids y ∧ tb_token_offset x = tb_token_offset y) →
  (∀ h y, dget (kd_token_bindings d) h = Some y →
     ∃ x, dget bs' h = Some x ∧ tb_token_ids x = tb_token_ids y ∧ tb_token_offset x = tb_token_offset y) →
  blend_ok (with_bindings d bs').
Proof.
  intros [Hon Hi Ht Hs Hc] Hnew Hold. constructor; cbn [kd_blend_lookup_enabled kd_blend_index kd_token_bindings with_bindings]; [done|done| | |].
  - intros h x Hx. destruct (Hnew h x Hx) as [[? _]|(y & Hy & -> & _)]; [by left|by eapply Ht].
  - intros c h n Hin. destruct (Hs c h n Hin) as (y & Hy & <- & Hn). destruct (Hold h y Hy) as (x & ? & ? & Eo).
    exists x. by rewrite Eo.
  - intros h x Hx Hl Hn. destruct (Hnew h x Hx) as [[_ ?]|(y & Hy & Et & Eo)]; [done|]. rewrite Et, Eo in *. by apply Hc.
Qed.

Lemma blend_add_binding key d : blend_ok d → blend_ok (_add_token_binding key d).
Proof.
  intros Hd. unfold _add_token_binding. destruct (dget _ _) as [x|] eqn:Ex; apply blend_rebind; try done; intros h y;
    rewrite dget_dset; case_decide as Hh; subst; try (intros; by eauto).
  - intros [= <-]. right. by exists x.
  - rewrite Ex. intros [= <-]. eauto.
  - intros [= <-]. by left.
  - rewrite Ex. done.
Qed.

(** dropping chunk [h] from the index under content [tokens] *)
Lemma index_remove t tokens h : index_in t → (length tokens = bi_chunk_size t → U tokens) →
  index_in (remove t tokens h) ∧ bi_chunk_size (remove t tokens h) = bi_chunk_size t ∧
  ∀ c h' n, (h', n) ∈ occupants (contents_of (remove t tokens h)) c ↔
            (h', n) ∈ occupants (contents_of t) c ∧ ¬ (h' = h ∧ c = tokens).
Proof.
  intros Ht Hu. destruct (index_step t (ORemove tokens h) Ht Hu) as [Ht' Ho]. cbn [blend_step op_tokens] in *.
  split_and!; [done|by apply remove_params|]. intros c h' n. rewrite Ho.
  pose proof (occupants_facts t c (ii_ok _ Ht)) as [_ Hlen]. case_decide as Hd.
  - destruct Hd as [-> Hl]. rewrite list_elem_of_filter. cbn. naive_solver.
  - split; [|naive_solver]. intros Hin. split; [done|]. intros [-> ->]. apply Hd. split; [done|]. by eapply Hlen.
Qed.

Lemma index_add t tokens h n0 : index_in t → (length tokens = bi_chunk_size t → U tokens) →
  index_in (add t tokens h n0) ∧ bi_chunk_size (add t tokens h n0) = bi_chunk_size t ∧
  ∀ c h' n, (h', n) ∈ occupants (contents_of (add t tokens h n0)) c ↔
            if decide (h' = h ∧ c = tokens ∧ length c = bi_chunk_size t) then n = n0
            else (h', n) ∈ occupants (contents_of t) c.
Proof.
  intros Ht Hu. destruct (index_step t (OAdd tokens h n0) Ht Hu) as [Ht' Ho]. cbn [blend_step op_tokens] in *.
  split_and!; [done|by apply add_params|]. intros c h' n. rewrite Ho.
  pose proof (occupants_facts t c (ii_ok _ Ht)) as [Hnd _].
  destruct (decide (tokens = c ∧ length c = bi_chunk_size t)) as [[-> Hl]|Hd].
  - rewrite elem_of_put_occupant by done. destruct (decide (h = h')) as [->|]; [by rewrite decide_True|by rewrite decide_False by naive_solver].
  - by rewrite decide_False by naive_solver.
Qed.

Lemma blend_remove_binding key d : blend_ok d → blend_ok (_remove_token_binding key d).
Proof.
  intros Hd. unfold _remove_token_binding. set (h := key_chunk_hash key). destruct (dget _ h) as [x|] eqn:Ex; [|done].
  destruct (sdiscard (tb_keys x) key) as [|k0 ks].
  2:{ apply blend_rebind; [done| |]; intros h' y; rewrite dget_dset; case_decide as Hh; subst; try (intros; by eauto).
      - intros [= <-]. right. by exists x.
      - rewrite Ex. intros [= <-]. eauto. }
  pose proof Hd as [Hon Hi Ht Hs Hc]. cbv zeta. cbn [kd_blend_lookup_enabled with_bindings]. rewrite Hon. cbn [andb].
  assert (length (tb_token_ids x) = bi_chunk_size (kd_blend_index d) → U (tb_token_ids x)) as Hu.
  { intros Hl. destruct (Ht h x Ex) as [E0|]; [|done]. rewrite E0 in Hl. pose proof (io_chunk _ (ii_ok _ Hi)). cbn in Hl. lia. }
  destruct (index_remove (kd_blend_index d) (tb_token_ids x) h Hi Hu) as (Hi' & Ek & Ho).
  assert (∀ t', index_in t' → bi_chunk_size t' = bi_chunk_size (kd_blend_index d) →
    (∀ c h' n, (h', n) ∈ occupants (contents_of t') c ↔ (h', n) ∈ occupants (contents_of (kd_blend_index d)) c ∧ ¬ (h' = h ∧ c = tb_token_ids x)) →
    blend_ok (with_blend (with_bindings d (ddel (kd_token_bindings d) h)) t')) as Hgoal.
  { intros t' Hi2 Ek2 Ho2. constructor; cbn [kd_blend_lookup_enabled kd_blend_index kd_token_bindings with_bindings with_blend]; [done|done| | |].
    - intros h' y. rewrite dget_ddel. case_decide; [done|apply Ht].
    - intros c h' n [Hin Hne]%Ho2. destruct (Hs c h' n Hin) as (y & Hy & Hyc & Hyn). exists y. rewrite dget_ddel.
      case_decide as Hh; [|done]. subst h'. destruct Hne. split; [done|]. congruence.
    - intros h' y. rewrite dget_ddel, Ek2. case_decide as Hh; [done|]. intros Hy Hl Hn. apply Ho2. split; [by apply Hc|naive_solver]. }
  destruct (nonempty (tb_token_ids x)) eqn:En; [by apply Hgoal|].
  apply nonempty_false in En. apply (Hgoal (kd_blend_index d)); [done|done|]. intros c h' n. split; [|naive_solver].
  intros Hin. split; [done|]. intros [-> ->]. destruct (occupants_facts _ (tb_token_ids x) (ii_ok _ Hi)) as [_ Hlen].
  specialize (Hlen _ Hin). rewrite En in Hlen. pose proof (io_chunk _ (ii_ok _ Hi)). cbn in Hlen. lia.
Qed.

Lemma blend_bind_tokens h entry d : blend_ok d →
  (∀ tokens, asarray_uint32 (en_token_ids entry) = Some tokens → tokens = [] ∨ U tokens) → blend_ok (bind_tokens h entry d).
Proof.
  intros Hd Hu. unfold bind_tokens. destruct (asarray_uint32 (en_token_ids entry)) as [tokens|] eqn:Ea; [|done].
  destruct (dget (kd_token_bindings d) h) as [x|] eqn:Ex; [|done]. specialize (Hu tokens eq_refl).
  pose proof Hd as [Hon Hi Ht Hs Hc]. cbv zeta. rewrite Hon. cbn [andb]. set (k := bi_chunk_size (kd_blend_index d)).
  set (off := en_token_offset entry). 
  set (d1 := if nonempty (tb_token_ids x) && negb (bool_decide (tb_token_ids x = tokens))
             then with_blend d (remove (kd_blend_index d) (tb_token_ids x) h) else d).
  (** the old content is gone unless it is the new one *)
  assert (kd_token_bindings d1 = kd_token_bindings d ∧ kd_blend_lookup_enabled d1 = true ∧ index_in (kd_blend_index d1) ∧
    bi_chunk_size (kd_blend_index d1) = k ∧
    ∀ c h' n, (h', n) ∈ occupants (contents_of (kd_blend_index d1)) c ↔
              (h', n) ∈ occupants (contents_of (kd_blend_index d)) c ∧ (h' = h → c = tokens)) as (Eb1 & Eon1 & Hi1 & Ek1 & Ho1).
  { assert (∀ c n, (h, n) ∈ occupants (contents_of (kd_blend_index d)) c → c = tb_token_ids x ∧ c ≠ []) as Hx.
    { intros c n Hin. destruct (Hs c h n Hin) as (y & Hy & <- & _). split; [congruence|]. intros E0.
      destruct (occupants_facts _ (tb_token_ids y) (ii_ok _ Hi)) as [_ Hl]. specialize (Hl _ Hin). rewrite E0 in Hl.
      pose proof (io_chunk _ (ii_ok _ Hi)). cbn in Hl. lia. }
    unfold d1. destruct (nonempty (tb_token_ids x) && negb (bool_decide (tb_token_ids x = tokens))) eqn:En.
    - apply andb_true_iff in En as [Hne Hdiff%negb_true_iff%bool_decide_eq_false].
      destruct (index_remove (kd_blend_index d) (tb_token_ids x) h Hi) as (Hi' & Ek & Ho).
      { intros _. destruct (Ht h x Ex) as [E0|]; [by rewrite E0 in Hne|done]. }
      split_and!; [done|done|done|done|]. intros c h' n. cbn [kd_blend_index with_blend]. rewrite Ho. split; [|naive_solver].
      intros [Hin Hn]. split; [done|]. intros ->. destruct (Hx c n Hin). naive_solver.
    - split_and!; [done|done|done|done|]. intros c h' n. split; [|naive_solver]. intros Hin. split; [done|]. intros ->.
      destruct (Hx c n Hin) as [-> Hne]. apply andb_false_iff in En as [En%nonempty_false|En%negb_false_iff%bool_decide_eq_true]; done. }
  clearbody d1. set (d2 := with_bindings d1 _).
  assert (∀ h', dget (kd_token_bindings d2) h' = if decide (h = h') then Some (mkBinding tokens off (tb_keys x))
                                                 else dget (kd_token_bindings d) h') as Eb2.
  { intros h'. unfold d2. cbn. by rewrite dget_dset, Eb1. }
  (** with the final index [t] *)
  assert (∀ t, index_in t → bi_chunk_size t = k →
    (∀ c h' n, h' ≠ h → (h', n) ∈ occupants (contents_of t) c ↔ (h', n) ∈ occupants (contents_of (kd_blend_index d)) c) →
    (∀ c n, (h, n) ∈ occupants (contents_of t) c → c = tokens ∧ (n = off ∨ off = UNKNOWN_TOKEN_OFFSET)) →
    (length tokens = k → off ≠ UNKNOWN_TOKEN_OFFSET → (h, off) ∈ occupants (contents_of t) tokens) →
    blend_ok (with_blend d2 t)) as Hfinal.
  { intros t Hit Ekt Hother Hsnd Hcmp. constructor; cbn [kd_blend_lookup_enabled kd_blend_index kd_token_bindings with_blend].
    - exact Eon1.
    - done.
    - intros h' y. rewrite Eb2. case_decide; [intros [= <-]; done|apply Ht].
    - intros c h' n Hin. rewrite Eb2. case_decide as Hh.
      + subst h'. destruct (Hsnd c n Hin) as [-> Hn]. eexists. split; [done|]. cbn. naive_solver.
      + apply Hs. by apply Hother.
    - intros h' y. rewrite Eb2, Ekt. case_decide as Hh.
      + subst h'. intros [= <-]. cbn. apply Hcmp.
      + intros. apply Hother; [naive_solver|]. by apply Hc. }
  destruct (Z.eqb_spec off UNKNOWN_TOKEN_OFFSET) as [Eoff|Hoff]; cbn [negb].
  - replace d2 with (with_blend d2 (kd_blend_index d1)) by (by destruct d1). apply Hfinal; [done|done| | |done].
    + intros c h' n Hne. rewrite Ho1. naive_solver.
    + intros c n [_ Hc']%Ho1. split; [by apply Hc'|by right].
  - destruct (index_add (kd_blend_index d2) tokens h off) as (Hi3 & Ek3 & Ho3); [done| |].
    { intros Hl. destruct Hu as [->|]; [|done]. pose proof (io_chunk _ (ii_ok _ Hi1)). cbn in Hl. lia. }
    change (kd_blend_index d2) with (kd_blend_index d1) in *. rewrite Ek1 in *. apply Hfinal; [done|done| | |].
    + intros c h' n Hne. rewrite Ho3, decide_False by naive_solver. rewrite Ho1. naive_solver.
    + intros c n. rewrite Ho3. case_decide as Hcond; [naive_solver|]. intros [Hin Hc']%Ho1. specialize (Hc' eq_refl). subst c.
      exfalso. apply Hcond. split_and!; [done|done|]. destruct (occupants_facts _ tokens (ii_ok _ Hi)) as [_ Hl]. by eapply Hl.
    + intros Hl _. apply Ho3. by rewrite decide_True.
Qed.

(** *** Deliveries *)

(** every content a batch brings is in the universe *)
Definition brings (x : delivery string (batch_body E)) : Prop :=
  match x with
  | Consume b => Forall (λ e, ∀ tokens, asarray_uint32 (en_token_ids e) = Some tokens → tokens ≠ [] → U tokens) (bo_entries (b_body b))
  | FenceInstance _ => True
  end.

Lemma touch_record_same b key d :
  kd_token_bindings (touch_record b key d) = kd_token_bindings d ∧ kd_blend_index (touch_record b key d) = kd_blend_index d ∧
  kd_blend_lookup_enabled (touch_record b key d) = kd_blend_lookup_enabled d.
Proof. unfold touch_record. by destruct (dget _ _). Qed.

Lemma blend_store b key entry d : blend_ok d → blend_ok (store_placement b key entry d).
Proof.
  intros Hd. unfold store_placement.
  assert (blend_ok (match dget (kd_directory d) key with
    | None => _add_token_binding key (with_directory d (dset (kd_directory d) key (mkKeyRecord [] float_0)))
    | Some _ => d end)) as Hd1.
  { destruct (dget (kd_directory d) key); [done|]. apply blend_add_binding. by eapply blend_same; [..|exact Hd]. }
  cbv zeta. set (d1 := match dget (kd_directory d) key with Some _ => _ | None => _ end) in *.
  destruct (dget (kd_directory d1) key); [|done]. by eapply blend_same; [..|exact Hd1].
Qed.

Lemma blend_apply b ke d : blend_ok d → dir_core d →
  (∀ tokens, asarray_uint32 (en_token_ids ke.2) = Some tokens → tokens ≠ [] → U tokens) →
  blend_ok (apply_pure b d ke).
Proof.
  intros Hd Hcore Hu. destruct ke as [key entry]. unfold apply_pure. cbn [fst snd] in *. destruct (bo_event_type (b_body b)).
  - pose proof (blend_store b key entry d Hd) as Hd1. unfold store_pure. cbv zeta.
    assert (blend_ok (if nonempty (en_token_ids entry) then bind_tokens (key_chunk_hash key) entry (store_placement b key entry d)
      else store_placement b key entry d)) as Hd2.
    { destruct (nonempty (en_token_ids entry)) eqn:En; [|done]. apply blend_bind_tokens; [done|].
      intros tokens Ea. right. apply Hu; [done|]. intros ->. apply asarray_range in Ea as [_ El]. by destruct (en_token_ids entry). }
    set (d2 := if nonempty _ then _ else _) in *. destruct (touch_record_same b key d2) as (E1 & E2 & E3).
    pose proof (blend_same _ _ E1 E2 E3 Hd2) as Hd3. case_bool_decide; [|done]. by eapply blend_same; [..|exact Hd3].
  - unfold delete_placement. destruct (dget (kd_directory d) key) as [r|]; [|done]. cbv zeta.
    set (ps := match _find_placement _ _ with Some _ => _ | None => _ end). set (d1 := if nonempty ps then _ else _).
    assert (blend_ok d1) as Hd1.
    { unfold d1. destruct (nonempty ps); [by eapply blend_same; [..|exact Hd]|]. apply blend_remove_binding.
      by eapply blend_same; [..|exact Hd]. }
    destruct (_ && _); [|done]. by eapply blend_same; [..|exact Hd1].
  - destruct (touch_record_same b key d) as (E1 & E2 & E3). by eapply blend_same.
  - done.
Qed.

Lemma blend_drop i d key : blend_ok d → blend_ok (drop_l1 i d key).
Proof.
  intros Hd. unfold drop_l1. destruct (dget (kd_directory d) key); [|done]. destruct (List.filter _ _).
  - apply blend_remove_binding. by eapply blend_same; [..|exact Hd].
  - by eapply blend_same; [..|exact Hd].
Qed.

Lemma keyed_entries_in entries ke : ke ∈ keyed_entries entries → ke.2 ∈ entries.
Proof.
  unfold keyed_entries. intros (e & He & Hke)%list_elem_of_omap. destruct (to_object_key (en_key e)); by simplify_eq.
Qed.

Lemma blend_deliver x d : blend_ok d → dir_ok d → brings x → blend_ok (deliver_pure d x).
Proof.
  intros Hb Hd Hx. destruct x as [b|i]; cbn [deliver_pure].
  - assert (blend_ok (open_l1 (b_instance_id b) d)) as Hb1 by (by eapply blend_same; [..|exact Hb]).
    destruct (open_l1_ok (b_instance_id b) d Hd) as [Hd1 _]. cbn in Hx. rewrite Forall_forall in Hx.
    assert (∀ ke, ke ∈ keyed_entries (bo_entries (b_body b)) → ∀ tokens, asarray_uint32 (en_token_ids ke.2) = Some tokens → tokens ≠ [] → U tokens) as Hl.
    { intros ke Hke. apply Hx. by apply keyed_entries_in. }
    revert Hl. generalize (keyed_entries (bo_entries (b_body b))). intros l. revert Hb1 Hd1. generalize (open_l1 (b_instance_id b) d). clear -HU.
    induction l as [|ke l IH]; intros d Hb Hd Hl; [done|]. cbn [foldl]. apply IH.
    + apply blend_apply; [done|apply Hd|]. apply Hl. left.
    + by apply apply_pure_ok.
    + intros ke' Hke. apply Hl. by right.
  - unfold kd_fence_instance. cbv zeta. apply (blend_same (foldl (drop_l1 i) d (bucket (kd_l1_keys_by_instance d) i))); [done..|].
    generalize (bucket (kd_l1_keys_by_instance d) i). intros l. clear Hd. revert d Hb. induction l as [|k l IH]; intros d Hb; [done|].
    cbn [foldl]. by apply IH, blend_drop.
Qed.

Lemma blend_deliveries xs : ∀ d, blend_ok d → dir_ok d → Forall delivery_ok xs → Forall brings xs →
  blend_ok (foldl deliver_pure d xs).
Proof.
  induction xs as [|x xs IH]; intros d Hb Hd Hok Hbr; [done|]. apply Forall_cons in Hok as [? ?], Hbr as [? ?]. cbn [foldl].
  apply IH; [by apply blend_deliver|by apply deliver_runs|done|done].
Qed.

Lemma blend_init d c s : from_config true c s = Ok d → blend_ok d.
Proof.
  intros Hd. destruct (from_config_init _ _ _ _ Hd) as (_ & _ & E3 & Eon & Et & Hi). destruct (Hi eq_refl) as (Hi' & _).
  constructor; rewrite ?E3; try done.
  - split; [done|]. unfold contents_of. rewrite Et. intros x Hx. by apply not_elem_of_nil in Hx.
  - intros x h n. unfold occupants, contents_of. rewrite Et. intros Hx. by apply not_elem_of_nil in Hx.
Qed.
End blend.
End directory.
