(* ===== verification/DirectoryRuns.v ===== *)
(** * Runs of the key directory, with restarts

    A restart captures the directory and restores the capture into a new one. The
    restored directory has the records, token contents and a sufficient reverse
    index of the old one; two directories that agree on records and contents keep
    agreeing ([same_reads]), so a restart cannot be observed. *)

From S2P Require Import Prelude PyDict PyState PySet PyFloat BatchBlob EventGate CacheEvents BlendIndex KeyDirectory KeyDirectoryProofs.

Open Scope Z_scope.

(** ** Little-endian words *)

Lemma words_bytes x l : u32_range x → words (u32_bytes x ++ l) = x :: words l.
Proof.
  intros Hx. assert (length (u32_bytes x) = 4%nat) as Hl.
  { unfold u32_bytes. rewrite length_rev. apply Struct.be_bytes_length. }
  assert (Struct.be_val (rev (u32_bytes x)) = x) as Hv.
  { unfold u32_bytes. rewrite rev_involutive. apply Struct.be_val_roundtrip. exact Hx. }
  destruct (u32_bytes x) as [|b1 [|b2 [|b3 [|b4 [|]]]]]; try done. cbn [app words]. f_equal. exact Hv.
Qed.

Lemma length_tobytes l : length (tobytes l) = (4 * length l)%nat.
Proof.
  unfold tobytes. induction l as [|x l IH]; [done|]. rewrite fmap_cons. cbn [concat]. rewrite length_app, IH.
  assert (length (u32_bytes x) = 4%nat) as ->; [|cbn; lia]. unfold u32_bytes. rewrite length_rev. apply Struct.be_bytes_length.
Qed.

Lemma frombuffer_tobytes l : Forall u32_range l → frombuffer (tobytes l) = Ok l.
Proof.
  intros Hl. unfold frombuffer. rewrite length_tobytes. replace (4 * length l)%nat with (length l * 4)%nat by lia.
  rewrite Nat.Div0.mod_mul. cbn. f_equal. unfold tobytes.
  induction Hl as [|x l Hx _ IH]; [done|]. rewrite fmap_cons. cbn [concat]. by rewrite words_bytes, IH.
Qed.

(** ** Sorted lookups *)

Lemma string_le_total a b : string_le a b = false → string_le b a = true.
Proof. unfold string_le. rewrite (String.compare_antisym b a). by destruct (String.compare a b). Qed.

Lemma tuple_le_total a b : tuple_le a b = false → tuple_le b a = true.
Proof.
  destruct a as [[a1 a2] a3], b as [[b1 b2] b3]. cbn.
  destruct (decide (a1 = b1)) as [->|Hne]; [|rewrite (decide_False (P := b1 = a1)) by congruence; apply string_le_total].
  rewrite (decide_True (P := b1 = b1)) by done.
  destruct (decide (a2 = b2)) as [->|Hne]; [rewrite (decide_True (P := b2 = b2)) by done|rewrite (decide_False (P := b2 = a2)) by congruence];
    apply string_le_total.
Qed.

Definition by_key (p q : Placement) : Prop := tuple_le (placement_key p) (placement_key q) = true.

Lemma insert_placement_perm p l : insert_placement p l ≡ₚ p :: l.
Proof.
  induction l as [|q l IH]; cbn [insert_placement]; [done|]. destruct (tuple_le _ _); [done|]. rewrite IH. apply Permutation_swap.
Qed.
Lemma sort_placements_perm l : sort_placements l ≡ₚ l.
Proof. induction l as [|p l IH]; cbn [sort_placements foldr]; [done|]. fold (sort_placements l). by rewrite insert_placement_perm, IH. Qed.

Lemma insert_placement_sorted p l : Sorted by_key l → Sorted by_key (insert_placement p l).
Proof.
  induction 1 as [|q l Hl IH Hq]; cbn [insert_placement]; [repeat constructor|]. destruct (tuple_le _ _) eqn:Ele.
  - constructor; [by constructor|by constructor].
  - apply tuple_le_total in Ele. constructor; [done|]. destruct l as [|r l]; cbn [insert_placement]; [by constructor|].
    destruct (tuple_le (placement_key p) (placement_key r)); constructor; [done|]. by inversion Hq.
Qed.
Lemma sort_placements_sorted l : Sorted by_key (sort_placements l).
Proof. induction l; cbn [sort_placements foldr]; [constructor|]. by apply insert_placement_sorted. Qed.

Section runs.
Context {K E F : Type} `{EqDecision K} `{KC : KeyCodec K E F} `{NP : UInt32Array}.
Implicit Types (d : KeyDirectory K) (k key : K) (b : Batch E) (entry : CacheEventEntry E).

(** ** The reverse index is a dictionary *)

Definition l1_wf d : Prop := dwf (kd_l1_keys_by_instance d).

Lemma apply_pure_l1_wf b ke d : dir_core d → l1_wf d → l1_wf (apply_pure b d ke).
Proof.
  intros Hd Hw. unfold l1_wf, apply_pure. destruct (bo_event_type (b_body b)).
  - destruct (store_pure_spec b ke.1 ke.2 d Hd) as (_ & -> & _). case_bool_decide; [by apply dset_wf|done].
  - destruct (delete_placement_spec b ke.1 d Hd) as (_ & _ & [->|[-> _]]); [done|by apply dset_wf].
  - unfold touch_record. by destruct (dget _ _).
  - done.
Qed.

Lemma deliver_l1_wf x d : dir_ok d → l1_wf d → l1_wf (deliver_pure d x).
Proof.
  intros Hd Hw. destruct x as [b|i]; cbn [deliver_pure].
  - destruct (open_l1_ok (b_instance_id b) d Hd) as [Hd1 _].
    assert (l1_wf (open_l1 (b_instance_id b) d)) as Hw1 by (by apply dset_wf).
    revert Hd1 Hw1. generalize (open_l1 (b_instance_id b) d). generalize (keyed_entries (bo_entries (b_body b))).
    clear. intros l. induction l as [|ke l IH]; intros d Hd Hw; [done|]. cbn [foldl].
    apply IH; [by apply apply_pure_ok|apply apply_pure_l1_wf; [apply Hd|done]].
  - unfold kd_fence_instance, l1_wf. cbv zeta. cbn. apply ddel_wf.
    destruct (drop_l1s_spec i (bucket (kd_l1_keys_by_instance d) i) d (do_core _ Hd)) as (_ & -> & _). done.
Qed.

(** ** Restoring a capture *)

Definition chunk_content (x : _TokenBinding K) : list Z * Z := (tb_token_ids x, tb_token_offset x).
Definition content_at d (h : chunk) : option (list Z * Z) := chunk_content <$> dget (kd_token_bindings d) h.

Lemma map_ok_encode ps : map_ok _decode_placement (_encode_placement <$> ps) = Ok ps.
Proof.
  induction ps as [|[i n t bk sz sh] ps IH]; [done|]. rewrite fmap_cons. cbn [map_ok _encode_placement _decode_placement].
  cbn [pl_instance_id pl_incarnation pl_tier pl_backend pl_size_bytes pl_shared]. rewrite tier_of_value. cbn. by rewrite IH.
Qed.

Definition encode_record (kr : K * _KeyRecord) : F * float * list encoded_placement :=
  (encode_key kr.1, kr_last_access kr.2, _encode_placement <$> kr_placements kr.2).

Lemma restore_keys_runs (l : list (K * _KeyRecord)) : ∀ d table,
  dwf (kd_directory d ++ l) →
  ∃ d', restore_keys (encode_record <$> l) table d = (Ok (table ++ dkeys l), d') ∧
    kd_directory d' = kd_directory d ++ l ∧ kd_l1_keys_by_instance d' = kd_l1_keys_by_instance d ∧
    kd_blend_index d' = kd_blend_index d ∧ kd_blend_lookup_enabled d' = kd_blend_lookup_enabled d ∧
    (∀ P, bindings_ok P (kd_token_bindings d) → bindings_ok (λ k, P k ∨ k ∈ dkeys l) (kd_token_bindings d')) ∧
    ((∀ h c, content_at d h = Some c → c = ([], UNKNOWN_TOKEN_OFFSET)) →
     (∀ h c, content_at d' h = Some c → c = ([], UNKNOWN_TOKEN_OFFSET))).
Proof.
  induction l as [|[key r] l IH]; intros d table Hw.
  { exists d. rewrite !app_nil_r. split_and!; try done. intros P HP. eapply bindings_ok_ext; [|exact HP].
    intros k. split; [auto|]. intros [?|Hx]; [done|by apply not_elem_of_nil in Hx]. }
  set (d1 := _add_token_binding key (with_directory d (dset (kd_directory d) key r))).
  assert (kd_directory d1 = kd_directory d ++ [(key, r)] ∧ kd_l1_keys_by_instance d1 = kd_l1_keys_by_instance d ∧
    kd_blend_index d1 = kd_blend_index d ∧ kd_blend_lookup_enabled d1 = kd_blend_lookup_enabled d) as (Ed1 & El1 & Eb1 & Eon1).
  { assert (dget (kd_directory d) key = None) as Hn.
    { apply dget_None_dkeys. unfold dwf, dkeys in *. rewrite fmap_app in Hw. apply NoDup_app in Hw as (_ & Hw & _).
      intros Hin. apply (Hw key Hin). left. }
    rewrite <- (dkeys_dset_new _ _ r Hn). unfold d1, _add_token_binding.
    by destruct (dget (kd_token_bindings _) (key_chunk_hash key)). }
  destruct (IH d1 (table ++ [key])) as (d' & Er & E1 & E2 & E3 & E4 & Hb & Hc); [by rewrite Ed1, <- app_assoc|].
  exists d'. split_and!.
  - rewrite fmap_cons. cbn [restore_keys encode_record restore_key fst snd].
    unfold mbind at 1, py_bind at 1. unfold mbind at 1, py_bind at 1, lift at 1. rewrite decode_key_encode.
    unfold mbind at 1, py_bind at 1, lift at 1. rewrite map_ok_encode.
    unfold mbind at 1, py_bind at 1, modify at 1. unfold mbind at 1, py_bind at 1, modify at 1. cbn [mret py_ret].
    replace (mkKeyRecord (kr_placements r) (kr_last_access r)) with r by (by destruct r). fold d1.
    rewrite Er. by rewrite <- app_assoc.
  - by rewrite E1, Ed1, <- app_assoc.
  - by rewrite E2.
  - by rewrite E3.
  - by rewrite E4.
  - intros P HP. eapply bindings_ok_ext; [|apply Hb, (add_binding_ok P key (with_directory d (dset (kd_directory d) key r)) HP)].
    intros k. cbn. rewrite elem_of_cons. naive_solver.
  - intros H0. apply Hc. intros h c. unfold content_at, d1, _add_token_binding.
    destruct (dget (kd_token_bindings (with_directory d _)) (key_chunk_hash key)) as [x|] eqn:Ex; cbn; rewrite dget_dset; case_decide as Hh;
      try apply H0; intros [= <-]; [|done]. apply (H0 (key_chunk_hash key)). unfold content_at. cbn in Ex. by rewrite Ex.
Qed.
(** a binding whose content is not known yet is filled as a store would fill it *)
Definition content_entry key (x : _TokenBinding K) : CacheEventEntry E :=
  mkEntry (to_encoded_object_key key) 0 (tb_token_ids x) (tb_token_offset x).

Lemma restore_binding_runs key h (x y : _TokenBinding K) d :
  Forall u32_range (tb_token_ids x) → dget (kd_token_bindings d) h = Some y → tb_token_ids y = [] →
  restore_binding (h, tb_token_offset x, tobytes (tb_token_ids x)) d = (Ok tt, bind_tokens h (content_entry key x) d).
Proof.
  intros Hr Hy H0. unfold restore_binding, bind_tokens, gets, mbind, py_bind, id. cbv beta iota.
  rewrite Hy. cbn [content_entry en_token_ids en_token_offset]. rewrite asarray_exact by done. unfold lift.
  rewrite frombuffer_tobytes by done. unfold modify. cbv beta iota zeta. rewrite H0. cbn [nonempty]. rewrite andb_false_r. cbn [andb].
  unfold when. by destruct (kd_blend_lookup_enabled d && _).
Qed.

Lemma bind_tokens_content h entry d h' : content_at (bind_tokens h entry d) h' =
  match asarray_uint32 (en_token_ids entry) with
  | Some tokens => if decide (h = h') then (λ _, (tokens, en_token_offset entry)) <$> content_at d h else content_at d h'
  | None => content_at d h'
  end.
Proof.
  unfold content_at. rewrite bind_tokens_bindings. destruct (asarray_uint32 _) as [tokens|]; [|done].
  destruct (dget (kd_token_bindings d) h) as [x|] eqn:Ex; [rewrite dget_dset|]; case_decide; subst; cbn; try done.
  by rewrite Ex.
Qed.

Lemma bind_tokens_params h entry d : bi_chunk_size (kd_blend_index (bind_tokens h entry d)) = bi_chunk_size (kd_blend_index d) ∧
  bi_probe_stride (kd_blend_index (bind_tokens h entry d)) = bi_probe_stride (kd_blend_index d).
Proof.
  unfold bind_tokens. destruct (asarray_uint32 _) as [tokens|]; [|done]. destruct (dget _ _) as [x|]; [|done]. cbv zeta.
  destruct (kd_blend_lookup_enabled d && nonempty (tb_token_ids x) && _), (kd_blend_lookup_enabled d && negb (_ =? _)); cbn;
    repeat (rewrite (proj1 (add_params _ _ _ _)) || rewrite (proj2 (add_params _ _ _ _)));
    repeat (rewrite (proj1 (remove_params _ _ _)) || rewrite (proj2 (remove_params _ _ _))); done.
Qed.

Definition encode_binding (hb : chunk * _TokenBinding K) : chunk * Z * list byte :=
  (hb.1, tb_token_offset hb.2, tobytes (tb_token_ids hb.2)).

Lemma restore_bindings_runs P (l : list (chunk * _TokenBinding K)) : ∀ d,
  dwf l → bindings_ok P (kd_token_bindings d) →
  Forall (λ hx, Forall u32_range (tb_token_ids hx.2) ∧ content_at d hx.1 = Some ([], UNKNOWN_TOKEN_OFFSET)) l →
  ∃ d', for_each restore_binding (encode_binding <$> l) d = (Ok tt, d') ∧
    kd_directory d' = kd_directory d ∧ kd_l1_keys_by_instance d' = kd_l1_keys_by_instance d ∧
    kd_blend_lookup_enabled d' = kd_blend_lookup_enabled d ∧
    bi_chunk_size (kd_blend_index d') = bi_chunk_size (kd_blend_index d) ∧
    bi_probe_stride (kd_blend_index d') = bi_probe_stride (kd_blend_index d) ∧
    bindings_ok P (kd_token_bindings d') ∧
    (∀ h, content_at d' h = match dget l h with Some x => Some (chunk_content x) | None => content_at d h end) ∧
    (∀ U, (∀ c c', U c → U c' → content_hash c = content_hash c' → c = c') →
       Forall (λ hx, tb_token_ids hx.2 = [] ∨ U (tb_token_ids hx.2)) l → blend_ok U d → blend_ok U d').
Proof.
  induction l as [|[h x] l IH]; intros d Hw HP Hl.
  { exists d. by split_and!. }
  apply NoDup_cons in Hw as [Hn Hw]. apply Forall_cons in Hl as [[Hr Hc] Hl]. cbn [fst snd] in Hr, Hc.
  unfold content_at in Hc. destruct (dget (kd_token_bindings d) h) as [y|] eqn:Ey; [|done]. injection Hc as Hy0 Hyo.
  destruct (tb_keys y) as [|key ks] eqn:Eks.
  { destruct (bo_each _ _ HP h y Ey) as [? _]. by rewrite Eks in *. }
  set (d1 := bind_tokens h (content_entry key x) d).
  destruct (bind_tokens_fields h (content_entry key x) d) as (E1 & E2 & E3). destruct (bind_tokens_params h (content_entry key x) d) as [E4 E5].
  fold d1 in E1, E2, E3, E4, E5.
  assert (∀ h', content_at d1 h' = if decide (h = h') then Some (chunk_content x) else content_at d h') as Hc1.
  { intros h'. unfold d1. rewrite bind_tokens_content. cbn [content_entry en_token_ids en_token_offset]. rewrite asarray_exact by done.
    case_decide; [|done]. unfold content_at. by rewrite Ey. }
  destruct (IH d1) as (d' & Er & F1 & F2 & F3 & F4 & F5 & F6 & F7 & F8); [done|by apply bind_tokens_ok| |].
  { rewrite Forall_forall in Hl |- *. intros [h' x'] Hin. destruct (Hl _ Hin) as [? Hc']. split; [done|]. rewrite Hc1.
    cbn [fst snd] in *. rewrite decide_False; [done|]. intros ->. apply Hn. apply list_elem_of_fmap. by exists (h', x'). }
  exists d'. split_and!; [|congruence..|done| |].
  - rewrite fmap_cons. cbn [for_each encode_binding fst snd].
    rewrite (bind_ok _ _ _ _ _ (restore_binding_runs key h x y d Hr Ey Hy0)). exact Er.
  - intros h'. rewrite F7, Hc1. cbn. destruct (decide (h = h')) as [->|]; [|done].
    by rewrite (proj2 (dget_None_dkeys l h') Hn).
  - intros U HU Hu Hb. apply Forall_cons in Hu as [Hu0 Hu]. apply F8; [done|done|]. apply blend_bind_tokens; [done|done|].
    intros tokens. cbn [content_entry en_token_ids]. rewrite asarray_exact by done. intros [= <-]. exact Hu0.
Qed.

(** *** The reverse index *)

Lemma dget_positions (l : list (K * _KeyRecord)) key i n : dwf l →
  dget (imap (λ i kr, (kr.1, Z.of_nat (n + i))) l) key = Some i → ∃ j, i = Z.of_nat (n + j) ∧ dkeys l !! j = Some key.
Proof.
  revert n. induction l as [|[k r] l IH]; intros n Hw; [done|]. apply NoDup_cons in Hw as [_ Hw].
  rewrite imap_cons. cbn. case_decide as Hk; [intros [= <-]; exists 0%nat; subst; split; [lia|done]|].
  intros Hi. destruct (IH (S n) Hw) as (j & -> & Hj).
  { rewrite <- Hi. f_equal. apply imap_ext. intros m x _. cbn. f_equal. f_equal. lia. }
  exists (S j). split; [lia|done].
Qed.

Lemma positions_some (l : list (K * _KeyRecord)) key n : is_Some (dget (imap (λ i kr, (kr.1, Z.of_nat (n + i))) l) key) ↔ key ∈ dkeys l.
Proof.
  revert n. induction l as [|[k r] l IH]; intros n; [cbn; rewrite elem_of_nil, is_Some_alt; done|].
  rewrite imap_cons. cbn. rewrite elem_of_cons. case_decide; [naive_solver|].
  rewrite <- (IH (S n)). assert (imap ((λ i kr, (kr.1, Z.of_nat (n + i))) ∘ S) l = imap (λ i kr, (kr.1, Z.of_nat (S n + i))) l) as ->.
  { apply imap_ext. intros m x _. cbn. f_equal. f_equal. lia. }
  naive_solver.
Qed.

Lemma restore_l1_positions (l : list (K * _KeyRecord)) (positions := imap (λ i kr, (kr.1, Z.of_nat i)) l) keys : dwf l →
  map_ok (λ position, if (0 <=? position) && (position <? Z.of_nat (length (dkeys l)))
                      then match dkeys l !! Z.to_nat position with Some key => Ok key | None => Raise ValueError end
                      else Raise ValueError) (omap (dget positions) keys) = Ok (filter (λ k, k ∈ dkeys l) keys).
Proof.
  intros Hw. induction keys as [|key keys IH]; [done|]. rewrite filter_cons. cbn [omap list_omap].
  pose proof (positions_some l key 0) as Hp. change (imap (λ i kr, (kr.1, Z.of_nat (0 + i))) l) with positions in Hp.
  destruct (dget positions key) as [i|] eqn:Ei.
  - rewrite decide_True by (by apply Hp). pose proof (dget_positions l key i 0 Hw Ei) as (j & -> & Hj).
    pose proof (lookup_lt_Some _ _ _ Hj). cbn [map_ok Nat.add].
    rewrite (proj2 (Z.leb_le _ _)), (proj2 (Z.ltb_lt _ _)) by lia. cbn [andb]. rewrite Nat2Z.id, Hj. cbn [rbind]. by rewrite IH.
  - rewrite decide_False; [done|]. intros Hin%Hp. by destruct Hin.
Qed.
Lemma elem_of_foldl_sadd (l : list K) : ∀ s x, x ∈ foldl sadd s l ↔ x ∈ s ∨ x ∈ l.
Proof.
  induction l as [|y l IH]; intros s x; cbn [foldl]; [rewrite elem_of_nil; naive_solver|].
  rewrite IH, elem_of_sadd, elem_of_cons. naive_solver.
Qed.

Definition restored_l1 (l : list (K * _KeyRecord)) (ik : string * list K) : string * list K :=
  (ik.1, foldl sadd [] (filter (λ k, k ∈ dkeys l) ik.2)).

Lemma restore_l1s_runs (l : list (K * _KeyRecord)) (positions := imap (λ i kr, (kr.1, Z.of_nat i)) l)
    (l1 : list (string * list K)) : dwf l → ∀ d, dwf (kd_l1_keys_by_instance d ++ l1) →
  for_each (restore_l1 (dkeys l)) ((λ ik : string * list K, (ik.1, omap (dget positions) ik.2)) <$> l1) d =
  (Ok tt, with_l1_keys d (kd_l1_keys_by_instance d ++ (restored_l1 l <$> l1))).
Proof.
  intros Hw. induction l1 as [|[i keys] l1 IH]; intros d Hd.
  { cbn. rewrite app_nil_r. by destruct d. }
  assert (restore_l1 (dkeys l) (i, omap (dget positions) keys) d = (Ok tt, with_l1_keys d
    (dset (kd_l1_keys_by_instance d) i (foldl sadd [] (filter (λ k, k ∈ dkeys l) keys))))) as E1.
  { unfold restore_l1. cbn [fst snd]. pose proof (restore_l1_positions l keys Hw) as Hp. fold positions in Hp.
    unfold mbind, py_bind, lift. by rewrite Hp. }
  rewrite fmap_cons. cbn [for_each fst snd]. rewrite (bind_ok _ _ _ _ _ E1).
  rewrite IH; cbn [kd_l1_keys_by_instance with_l1_keys].
  - rewrite dkeys_dset_new; [by rewrite <- app_assoc|]. apply dget_None_dkeys. unfold dwf, dkeys in *.
    rewrite fmap_app in Hd. apply NoDup_app in Hd as (_ & Hd & _). intros Hin. apply (Hd i Hin). left.
  - rewrite dkeys_dset_new.
    + unfold dwf, dkeys in *. rewrite !fmap_app in *. cbn in *. by rewrite <- app_assoc.
    + apply dget_None_dkeys. unfold dwf, dkeys in *. rewrite fmap_app in Hd. apply NoDup_app in Hd as (_ & Hd & _).
      intros Hin. apply (Hd i Hin). left.
Qed.

Lemma bucket_restored l (l1 : list (string * list K)) i k :
  k ∈ bucket (restored_l1 l <$> l1) i ↔ k ∈ bucket l1 i ∧ k ∈ dkeys l.
Proof.
  unfold bucket. assert (dget (restored_l1 l <$> l1) i = (λ keys, foldl sadd [] (filter (λ k, k ∈ dkeys l) keys)) <$> dget l1 i) as ->.
  { induction l1 as [|[j keys] l1 IH]; [done|]. cbn. case_decide; [done|exact IH]. }
  destruct (dget l1 i) as [keys|]; cbn; [|rewrite elem_of_nil; naive_solver].
  rewrite elem_of_foldl_sadd, list_elem_of_filter, elem_of_nil. naive_solver.
Qed.

Lemma binding_exists P (bs : list (chunk * _TokenBinding K)) h : bindings_ok P bs →
  is_Some (dget bs h) ↔ ∃ k, P k ∧ key_chunk_hash k = h.
Proof.
  intros [Hw He Ha]. split; [|by intros (k & Hk & <-); apply Ha]. intros [x Hx]. destruct (He h x Hx) as (Hne & _ & Hk).
  destruct (tb_keys x) as [|k ks]; [done|]. exists k. apply Hk. left.
Qed.

(** a new directory with the same configuration takes over *)
Lemma restore_runs d d0 : dir_ok d → l1_wf d →
  kd_directory d0 = [] → kd_l1_keys_by_instance d0 = [] → kd_token_bindings d0 = [] →
  ∃ d', kd_restore (kd_capture d) d0 = (Ok tt, d') ∧ dir_ok d' ∧ l1_wf d' ∧
    kd_directory d' = kd_directory d ∧ (∀ h, content_at d' h = content_at d h) ∧
    kd_blend_lookup_enabled d' = kd_blend_lookup_enabled d0 ∧
    bi_chunk_size (kd_blend_index d') = bi_chunk_size (kd_blend_index d0) ∧
    bi_probe_stride (kd_blend_index d') = bi_probe_stride (kd_blend_index d0) ∧
    (∀ U, (∀ c c', U c → U c' → content_hash c = content_hash c' → c = c') →
       (∀ h x, dget (kd_token_bindings d) h = Some x → tb_token_ids x = [] ∨ U (tb_token_ids x)) →
       blend_ok U d0 → blend_ok U d').
Proof.
  intros [Hd Hl] Hlw Ed0 El0 Eb0. pose proof Hd as [Hw Hr Hb].
  destruct (restore_keys_runs (kd_directory d) d0 []) as (d1 & R1 & D1 & L1' & B1 & On1 & P1 & C1); [by rewrite Ed0|].
  rewrite Ed0 in D1. cbn [app] in D1, R1.
  assert (bindings_ok (λ k, k ∈ dkeys (kd_directory d)) (kd_token_bindings d1)) as Hb1.
  { eapply bindings_ok_ext; [|apply (P1 (λ _, False))]; [cbv beta; naive_solver|]. rewrite Eb0.
    constructor; [constructor|done|done]. }
  assert (∀ h c, content_at d1 h = Some c → c = ([], UNKNOWN_TOKEN_OFFSET)) as Hc1.
  { apply C1. intros h c. unfold content_at. by rewrite Eb0. }
  assert (∀ h, is_Some (dget (kd_token_bindings d1) h) ↔ is_Some (dget (kd_token_bindings d) h)) as Hex.
  { intros h. by rewrite (binding_exists _ _ h Hb1), (binding_exists _ _ h Hb). }
  destruct (restore_bindings_runs _ (kd_token_bindings d) d1 (bo_wf _ _ Hb) Hb1) as (d2 & R2 & D2 & L2' & On2 & K2 & S2 & P2 & C2 & U2).
  { apply Forall_forall. intros [h x] Hin. cbn. pose proof (dget_wf_elem_of _ _ _ (bo_wf _ _ Hb) Hin) as Hx.
    destruct (bo_each _ _ Hb h x Hx) as (_ & Hrange & _). split; [done|].
    destruct (proj2 (Hex h)) as [y Hy]; [by eexists|]. unfold content_at. rewrite Hy. cbn [fmap option_fmap option_map]. f_equal.
    apply (Hc1 h). unfold content_at. by rewrite Hy. }
  pose proof (restore_l1s_runs (kd_directory d) (kd_l1_keys_by_instance d) Hw d2) as R3.
  rewrite L2', L1', El0 in R3. specialize (R3 Hlw). cbn [app] in R3.
  set (d3 := with_l1_keys d2 _) in *. exists d3.
  assert (dir_core d3) as Hd3.
  { constructor; cbn; rewrite ?D2, ?D1; done. }
  split_and!.
  - unfold kd_restore, gets. unfold mbind at 1, py_bind at 1, id. rewrite Ed0, El0. cbn [nonempty orb].
    unfold kd_capture. cbv zeta. cbn [ca_keys ca_bindings ca_l1_keys_by_instance].
    change (λ kr : K * _KeyRecord, (encode_key kr.1, kr_last_access kr.2, _encode_placement <$> kr_placements kr.2)) with encode_record.
    change (λ hb : chunk * _TokenBinding K, (hb.1, tb_token_offset hb.2, tobytes (tb_token_ids hb.2))) with encode_binding.
    rewrite (bind_ok _ _ _ _ _ R1), (bind_ok _ _ _ _ _ R2). exact R3.
  - split; [done|]. intros k p Hin Ht. cbn [kd_l1_keys_by_instance d3 with_l1_keys].
    assert (p ∈ placements_of d k) as Hin'.
    { unfold placements_of in *. cbn in Hin. by rewrite D2, D1 in Hin. }
    apply bucket_restored. split; [by apply Hl|]. unfold placements_of in Hin'.
    destruct (dget (kd_directory d) k) eqn:Ek; [|by apply not_elem_of_nil in Hin']. apply elem_of_dkeys. by eexists.
  - unfold l1_wf. cbn. unfold dwf, dkeys. rewrite <- list_fmap_compose. exact Hlw.
  - cbn. by rewrite D2, D1.
  - intros h. change (content_at d3 h) with (content_at d2 h). rewrite C2. unfold content_at.
    destruct (dget (kd_token_bindings d) h) as [x|] eqn:Ex; [done|].
    destruct (dget (kd_token_bindings d1) h) as [y|] eqn:Ey; [|done]. exfalso.
    destruct (proj1 (Hex h)) as [z Hz]; [by rewrite Ey|]. congruence.
  - cbn. by rewrite On2.
  - cbn. by rewrite K2, B1.
  - cbn. by rewrite S2, B1.
  - intros U HU Hu Hb0. apply (blend_same U d2); [done..|]. apply U2; [done| |].
    + apply Forall_forall. intros [h x] Hin. apply (Hu h). by apply dget_wf_elem_of; [apply Hb|].
    + destruct Hb0 as [Hon Hi _ Hs _]. constructor; rewrite ?B1; [by rewrite On1|done| | |].
      * intros h x Hx. left. assert (chunk_content x = ([], UNKNOWN_TOKEN_OFFSET)) as [= ? ?]; [|done].
        apply (Hc1 h). unfold content_at. by rewrite Hx.
      * intros c h n Hin. exfalso. destruct (Hs c h n Hin) as (x & Hx & _). by rewrite Eb0 in Hx.
      * intros h x Hx Hlen Hn. assert (chunk_content x = ([], UNKNOWN_TOKEN_OFFSET)) as [= ? ?]; [|done].
        apply (Hc1 h). unfold content_at. by rewrite Hx.
Qed.
(** ** Directories that agree keep agreeing *)

Record same_reads d d' : Prop := {
  sr_records : ∀ k, dget (kd_directory d) k = dget (kd_directory d') k;
  sr_contents : ∀ h, content_at d h = content_at d' h }.

Definition record_placements (r : option _KeyRecord) : list Placement := match r with Some r => kr_placements r | None => [] end.
Definition record_access (r : option _KeyRecord) : float := match r with Some r => kr_last_access r | None => float_0 end.

(** what the operations do to one record *)
Definition stored_record b entry (r : option _KeyRecord) : option _KeyRecord :=
  Some (mkKeyRecord (put_placement (record_placements r) b (placement_of_entry b entry))
          (py_max (record_access r) (bo_ts (b_body b)))).
Definition keep_record (f : list Placement → list Placement) (r : option _KeyRecord) : option _KeyRecord :=
  match r with
  | Some r => if nonempty (f (kr_placements r)) then Some (mkKeyRecord (f (kr_placements r)) (kr_last_access r)) else None
  | None => None
  end.

Lemma touch_record_record b key d k : dget (kd_directory (touch_record b key d)) k =
  if decide (key = k) then (λ r, mkKeyRecord (kr_placements r) (py_max (kr_last_access r) (bo_ts (b_body b)))) <$> dget (kd_directory d) key
  else dget (kd_directory d) k.
Proof.
  unfold touch_record. destruct (dget (kd_directory d) key) as [r|] eqn:Er; cbn; [rewrite dget_dset; by case_decide|].
  case_decide; [by subst|done].
Qed.

Lemma store_pure_record b key entry d k : dget (kd_directory (store_pure b key entry d)) k =
  if decide (key = k) then stored_record b entry (dget (kd_directory d) key) else dget (kd_directory d) k.
Proof.
  unfold store_pure. cbv zeta. set (d2 := if nonempty _ then _ else _).
  assert (kd_directory d2 = kd_directory (store_placement b key entry d)) as E2.
  { unfold d2. destruct (nonempty _); [|done]. by apply bind_tokens_fields. }
  assert (dget (kd_directory (touch_record b key d2)) k =
    if decide (key = k) then stored_record b entry (dget (kd_directory d) key) else dget (kd_directory d) k) as Hk;
    [|by case_bool_decide].
  rewrite touch_record_record, E2. unfold store_placement, stored_record.
  destruct (dget (kd_directory d) key) as [r|] eqn:Er; cbv zeta.
  - rewrite Er. cbn [kd_directory with_directory].
    destruct (decide (key = k)) as [->|Hne]; [by rewrite dget_dset_eq|by rewrite dget_dset_ne].
  - set (d0 := with_directory d (dset (kd_directory d) key (mkKeyRecord [] float_0))).
    assert (kd_directory (_add_token_binding key d0) = dset (kd_directory d) key (mkKeyRecord [] float_0)) as E1.
    { unfold _add_token_binding. by destruct (dget (kd_token_bindings d0) (key_chunk_hash key)). }
    rewrite E1, dget_dset_eq. cbn [kd_directory with_directory].
    destruct (decide (key = k)) as [->|Hne]; [by rewrite dget_dset_eq|by rewrite !dget_dset_ne].
Qed.

Lemma delete_record b key d k : dget (kd_directory (delete_placement b key d)) k =
  if decide (key = k) then keep_record (pop_placement b) (dget (kd_directory d) key) else dget (kd_directory d) k.
Proof.
  unfold delete_placement. destruct (dget (kd_directory d) key) as [r|] eqn:Er; [|case_decide; by subst].
  fold (pop_placement b (kr_placements r)). cbv zeta. cbn [keep_record]. set (ps := pop_placement b (kr_placements r)).
  destruct (remove_binding_fields key (with_directory d (ddel (kd_directory d) key))) as (E1 & _).
  destruct (nonempty ps); destruct (_ && _); cbn; rewrite ?E1; cbn; rewrite ?dget_dset, ?dget_ddel; by case_decide.
Qed.

Definition not_l1_of (i : string) (ps : list Placement) : list Placement := List.filter (λ p, negb (is_l1_of i p)) ps.

Lemma not_l1_of_idem i ps : not_l1_of i (not_l1_of i ps) = not_l1_of i ps.
Proof. unfold not_l1_of. induction ps as [|p ps IH]; [done|]. cbn. destruct (negb _) eqn:Ep; cbn; [by rewrite Ep, IH|done]. Qed.

Lemma keep_record_idem i r : keep_record (not_l1_of i) (keep_record (not_l1_of i) r) = keep_record (not_l1_of i) r.
Proof.
  destruct r as [r|]; [|done]. cbn [keep_record].
  destruct (nonempty (not_l1_of i (kr_placements r))) eqn:En; [|done]. cbn [keep_record kr_placements kr_last_access].
  by rewrite not_l1_of_idem, En.
Qed.

Lemma drop_l1_record i d key k : dget (kd_directory (drop_l1 i d key)) k =
  if decide (key = k) then keep_record (not_l1_of i) (dget (kd_directory d) key) else dget (kd_directory d) k.
Proof.
  unfold drop_l1. destruct (dget (kd_directory d) key) as [r|] eqn:Er; [|case_decide; by subst].
  cbn [keep_record]. fold (not_l1_of i (kr_placements r)).
  destruct (remove_binding_fields key (with_directory d (ddel (kd_directory d) key))) as (E1 & _).
  destruct (not_l1_of i (kr_placements r)) as [|p ps]; cbn; rewrite ?E1; cbn; rewrite ?dget_dset, ?dget_ddel; by case_decide.
Qed.

Lemma fence_record i d k : dir_ok d →
  dget (kd_directory (kd_fence_instance i d)) k = keep_record (not_l1_of i) (dget (kd_directory d) k).
Proof.
  intros [Hd Hl]. unfold kd_fence_instance. cbv zeta. cbn [kd_directory with_l1_keys].
  assert (∀ keys d, dget (kd_directory (foldl (drop_l1 i) d keys)) k =
    if decide (k ∈ keys) then keep_record (not_l1_of i) (dget (kd_directory d) k) else dget (kd_directory d) k) as Hfold.
  { clear. induction keys as [|key keys IH]; intros d; [by rewrite decide_False by apply not_elem_of_nil|].
    cbn [foldl]. rewrite IH, drop_l1_record. destruct (decide (key = k)) as [->|Hne].
    - rewrite (decide_True (P := k ∈ k :: keys)) by left. case_decide; [apply keep_record_idem|done].
    - destruct (decide (k ∈ keys)); [by rewrite decide_True by (by right)|by rewrite decide_False by set_solver]. }
  rewrite Hfold. case_decide as Hin; [done|]. destruct (dget (kd_directory d) k) as [r|] eqn:Er; [|done]. cbn.
  assert (not_l1_of i (kr_placements r) = kr_placements r) as ->.
  { unfold not_l1_of. apply List.forallb_filter_id, forallb_forall. intros p Hp%list_elem_of_In. apply negb_true_iff, not_true_iff_false.
    unfold is_l1_of. intros [Ht%bool_decide_eq_true Hi%bool_decide_eq_true]%andb_true_iff. apply Hin. rewrite <- Hi.
    apply Hl; [|done]. by rewrite (placements_of_Some d k r Er). }
  destruct (dc_records _ Hd k r Er) as [Hne _]. destruct r as [ps la]. cbn in *. by destruct ps.
Qed.

(** deleting and fencing forget contents but do not change them *)
Definition shrinks d d' : Prop := ∀ h c, content_at d' h = Some c → content_at d h = Some c.

Lemma remove_binding_shrinks key d : shrinks d (_remove_token_binding key d).
Proof.
  intros h c. unfold content_at. destruct (remove_binding_fields key d) as (_ & _ & -> & _). unfold unbind.
  destruct (dget (kd_token_bindings d) (key_chunk_hash key)) as [x|] eqn:Ex; [|done].
  destruct (sdiscard (tb_keys x) key); [rewrite dget_ddel|rewrite dget_dset]; case_decide; try done. subst h. by rewrite Ex.
Qed.

Lemma delete_shrinks b key d : shrinks d (delete_placement b key d).
Proof.
  unfold delete_placement. destruct (dget (kd_directory d) key) as [r|]; [|by intros h c]. cbv zeta.
  destruct (nonempty _); [by destruct (_ && _); intros h c|].
  destruct (_ && _); intros h c; exact (remove_binding_shrinks key (with_directory d (ddel (kd_directory d) key)) h c).
Qed.

Lemma fence_shrinks i d : shrinks d (kd_fence_instance i d).
Proof.
  unfold kd_fence_instance. cbv zeta. generalize (bucket (kd_l1_keys_by_instance d) i). intros keys h c.
  change (content_at (with_l1_keys ?x _) h) with (content_at x h). revert d. induction keys as [|key keys IH]; intros d; [done|].
  cbn [foldl]. intros Hc%IH. revert Hc. unfold drop_l1. destruct (dget (kd_directory d) key) as [r|]; [|done].
  destruct (List.filter _ _); [|done].
  exact (remove_binding_shrinks key (with_directory d (ddel (kd_directory d) key)) h c).
Qed.

Lemma same_shrunk d1 d2 d1' d2' : (∀ h, content_at d1 h = content_at d2 h) → shrinks d1 d1' → shrinks d2 d2' →
  dir_core d1' → dir_core d2' → (∀ k, dget (kd_directory d1') k = dget (kd_directory d2') k) →
  ∀ h, content_at d1' h = content_at d2' h.
Proof.
  intros Hc H1 H2 [_ _ Hb1] [_ _ Hb2] Hd h.
  assert (is_Some (dget (kd_token_bindings d1') h) ↔ is_Some (dget (kd_token_bindings d2') h)) as Hex.
  { rewrite (binding_exists _ _ h Hb1), (binding_exists _ _ h Hb2). split; intros (k & Hk & <-); exists k; (split; [|done]);
      rewrite elem_of_dkeys in *; by rewrite Hd in * || rewrite <- Hd in *. }
  specialize (H1 h). specialize (H2 h). specialize (Hc h). unfold content_at in *.
  destruct (dget (kd_token_bindings d1') h) as [x|], (dget (kd_token_bindings d2') h) as [y|]; cbn in *.
  - specialize (H1 _ eq_refl). specialize (H2 _ eq_refl). congruence.
  - destruct (proj1 Hex) as [? ?]; [by eexists|done].
  - destruct (proj2 Hex) as [? ?]; [by eexists|done].
  - done.
Qed.

Lemma add_binding_content key d h : content_at (_add_token_binding key d) h =
  if decide (key_chunk_hash key = h) then Some (default ([], UNKNOWN_TOKEN_OFFSET) (content_at d h)) else content_at d h.
Proof.
  unfold content_at, _add_token_binding. destruct (dget (kd_token_bindings d) (key_chunk_hash key)) as [x|] eqn:Ex; cbn;
    rewrite dget_dset; case_decide; subst; try done; by rewrite Ex.
Qed.

Lemma store_content b key entry d d' : same_reads d d' → ∀ h, content_at (store_pure b key entry d) h = content_at (store_pure b key entry d') h.
Proof.
  intros [Hr Hc]. unfold store_pure. cbv zeta.
  assert (∀ d h, content_at (if bool_decide (bo_tier (b_body b) = L1)
     then with_l1_keys (touch_record b key d) (bucket_add (kd_l1_keys_by_instance (touch_record b key d)) (b_instance_id b) key)
     else touch_record b key d) h = content_at d h) as Houter.
  { clear. intros d h. unfold content_at. destruct (touch_record_same b key d) as (E1 & _). case_bool_decide; cbn; by rewrite E1. }
  assert (∀ d h, content_at (store_placement b key entry d) h =
    match dget (kd_directory d) key with None => content_at (_add_token_binding key d) h | Some _ => content_at d h end) as Hstore.
  { clear. intros d h. unfold store_placement, content_at. destruct (dget (kd_directory d) key) as [r|] eqn:Er; cbv zeta; [by rewrite Er|].
    destruct (dget (kd_directory (_add_token_binding _ _)) key); cbn [kd_token_bindings with_directory];
      unfold _add_token_binding; cbn; by destruct (dget (kd_token_bindings d) _). }
  assert (∀ h, content_at (store_placement b key entry d) h = content_at (store_placement b key entry d') h) as H1.
  { intros h. rewrite !Hstore, Hr, !add_binding_content, !Hc. done. }
  intros h. rewrite !Houter. destruct (nonempty _); [|apply H1]. rewrite !bind_tokens_content, !H1. done.
Qed.

Lemma same_apply b ke d d' : dir_ok d → dir_ok d' → same_reads d d' → same_reads (apply_pure b d ke) (apply_pure b d' ke).
Proof.
  intros Hd Hd' Hs. pose proof Hs as [Hr Hc].
  assert (∀ k, dget (kd_directory (apply_pure b d ke)) k = dget (kd_directory (apply_pure b d' ke)) k) as Hrec.
  { intros k. unfold apply_pure. destruct (bo_event_type (b_body b)).
    - rewrite !store_pure_record, !Hr. done.
    - rewrite !delete_record, !Hr. done.
    - rewrite !touch_record_record, !Hr. done.
    - done. }
  split; [done|]. destruct (apply_pure_ok b ke d Hd) as [[Hd1 _] _]. destruct (apply_pure_ok b ke d' Hd') as [[Hd1' _] _].
  revert Hrec Hd1 Hd1'. unfold apply_pure. destruct (bo_event_type (b_body b)); intros Hrec Hd1 Hd1'.
  - by apply store_content.
  - eapply same_shrunk; [exact Hc|apply delete_shrinks..|done|done|done].
  - intros h. unfold content_at. destruct (touch_record_same b ke.1 d) as (-> & _). destruct (touch_record_same b ke.1 d') as (-> & _). apply Hc.
  - done.
Qed.

Lemma same_deliver x d d' : dir_ok d → dir_ok d' → same_reads d d' → same_reads (deliver_pure d x) (deliver_pure d' x).
Proof.
  intros Hd Hd' Hs. destruct x as [b|i]; cbn [deliver_pure].
  - destruct (open_l1_ok (b_instance_id b) d Hd) as [H1 _]. destruct (open_l1_ok (b_instance_id b) d' Hd') as [H1' _].
    assert (same_reads (open_l1 (b_instance_id b) d) (open_l1 (b_instance_id b) d')) as Hs1 by (destruct Hs; by split).
    revert H1 H1' Hs1. generalize (open_l1 (b_instance_id b) d), (open_l1 (b_instance_id b) d').
    generalize (keyed_entries (bo_entries (b_body b))). clear. intros l. induction l as [|ke l IH]; intros d d' Hd Hd' Hs; [done|].
    cbn [foldl]. apply IH; [by apply apply_pure_ok|by apply apply_pure_ok|by apply same_apply].
  - assert (∀ k, dget (kd_directory (kd_fence_instance i d)) k = dget (kd_directory (kd_fence_instance i d')) k) as Hrec.
    { intros k. by rewrite !fence_record, (sr_records _ _ Hs). }
    split; [done|]. eapply same_shrunk; [exact (sr_contents _ _ Hs)|apply fence_shrinks..| | |done]; by apply fence_ok.
Qed.
(** ** The configuration of the index stays *)

Definition params d : bool * nat * nat :=
  (kd_blend_lookup_enabled d, bi_chunk_size (kd_blend_index d), bi_probe_stride (kd_blend_index d)).

Lemma remove_binding_params key d : params (_remove_token_binding key d) = params d.
Proof.
  unfold _remove_token_binding. destruct (dget _ _) as [x|]; [|done]. destruct (sdiscard _ _); [|done]. cbv zeta.
  destruct (_ && _); [|done]. unfold params. cbn. by destruct (remove_params (kd_blend_index d) (tb_token_ids x) (key_chunk_hash key)) as [-> ->].
Qed.

Lemma bind_tokens_params_eq h entry d : params (bind_tokens h entry d) = params d.
Proof.
  unfold params. destruct (bind_tokens_params h entry d) as [-> ->]. by destruct (bind_tokens_fields h entry d) as (_ & _ & ->).
Qed.

Lemma apply_params b ke d : params (apply_pure b d ke) = params d.
Proof.
  unfold apply_pure. destruct (bo_event_type (b_body b)).
  - unfold store_pure. cbv zeta. set (d1 := store_placement b ke.1 ke.2 d).
    assert (params d1 = params d) as <-.
    { unfold d1, store_placement. cbv zeta. destruct (dget (kd_directory d) ke.1); [by destruct (dget (kd_directory d) ke.1)|].
      unfold _add_token_binding. destruct (dget (kd_token_bindings _) _); by destruct (dget (kd_directory _) _). }
    set (d2 := if nonempty _ then _ else _). assert (params d2 = params d1) as <-.
    { unfold d2. destruct (nonempty _); [|done]. apply bind_tokens_params_eq. }
    unfold touch_record. destruct (dget (kd_directory d2) ke.1); by case_bool_decide.
  - unfold delete_placement. destruct (dget (kd_directory d) ke.1) as [r|]; [|done]. cbv zeta.
    destruct (nonempty _); destruct (_ && _); try done;
      exact (remove_binding_params ke.1 (with_directory d (ddel (kd_directory d) ke.1))).
  - unfold touch_record. by destruct (dget _ _).
  - done.
Qed.

Lemma deliver_params x d : params (deliver_pure d x) = params d.
Proof.
  destruct x as [b|i]; cbn [deliver_pure].
  - change (params d) with (params (open_l1 (b_instance_id b) d)). generalize (open_l1 (b_instance_id b) d).
    induction (keyed_entries (bo_entries (b_body b))) as [|ke l IH]; intros d'; [done|]. cbn [foldl]. by rewrite IH, apply_params.
  - unfold kd_fence_instance. cbv zeta. generalize (bucket (kd_l1_keys_by_instance d) i). intros keys.
    transitivity (params (foldl (drop_l1 i) d keys)); [done|]. revert d. induction keys as [|key keys IH]; intros d; [done|]. cbn [foldl]. rewrite IH.
    unfold drop_l1. destruct (dget (kd_directory d) key) as [r|]; [|done]. destruct (List.filter _ _); [|done].
    exact (remove_binding_params key (with_directory d (ddel (kd_directory d) key))).
Qed.

(** ** Runs *)

Inductive dir_op :=
| Deliver (x : delivery string (batch_body E))
(** the coordinator restarts from a checkpoint of the directory *)
| Restart.

Definition dir_step (on : bool) (chunk_size probe_stride : Z) (o : dir_op) : py_state (KeyDirectory K) unit := λ d,
  match o with
  | Deliver x => kd_deliver x d
  | Restart => match from_config on chunk_size probe_stride with
               | Ok d0 => kd_restore (kd_capture d) d0
               | Raise e => (Raise e, d)
               end
  end.

Definition delivered (ops : list dir_op) : list (delivery string (batch_body E)) :=
  omap (λ o, match o with Deliver x => Some x | Restart => None end) ops.

Context (on : bool) (chunk_size probe_stride : Z) (d0 : KeyDirectory K).
Hypothesis Hconfig : from_config on chunk_size probe_stride = Ok d0.

Definition run_ok d : Prop := dir_ok d ∧ l1_wf d ∧ params d = params d0.

Lemma init_run_ok : run_ok d0.
Proof.
  destruct (from_config_init _ _ _ _ Hconfig) as (E1 & E2 & E3 & _). split_and!; [by apply empty_ok| |done].
  unfold l1_wf. rewrite E2. constructor.
Qed.

Lemma step_run_ok o d : run_ok d → Forall delivery_ok (delivered [o]) →
  ∃ d', dir_step on chunk_size probe_stride o d = (Ok tt, d') ∧ run_ok d' ∧
    match o with
    | Deliver x => d' = deliver_pure d x
    | Restart => same_reads d' d
    end ∧
    (∀ U, (∀ c c', U c → U c' → content_hash c = content_hash c' → c = c') → Forall (brings U) (delivered [o]) →
       blend_ok U d → blend_ok U d').
Proof.
  intros (Hd & Hw & Hp) Ho. destruct o as [x|]; cbn [dir_step delivered omap list_omap] in *.
  - apply Forall_cons in Ho as [Hx _]. destruct (deliver_runs x d Hd Hx) as (E1 & Hd1 & _).
    exists (deliver_pure d x). split_and!; [done| |done|].
    + split_and!; [done|by apply deliver_l1_wf|by rewrite deliver_params].
    + intros U HU [Hb _]%Forall_cons Hbl. by apply blend_deliver.
  - rewrite Hconfig. destruct (from_config_init _ _ _ _ Hconfig) as (E1 & E2 & E3 & Eon & Et & _).
    destruct (restore_runs d d0 Hd Hw E1 E2 E3) as (d' & R & Hd' & Hw' & Ed & Ec & P1 & P2 & P3 & HU').
    exists d'. split_and!; [done| | |].
    + split_and!; [done|done|]. unfold params. by rewrite P1, P2, P3.
    + split; [by rewrite Ed|done].
    + intros U HU _ [Hon Hi Ht Hs Hc]. apply HU'; [done|done|]. unfold params in Hp.
      assert (on = true) as -> by (rewrite <- Eon; congruence). by eapply blend_init.
Qed.

Lemma view_same d d' : same_reads d d' → ∀ k id, view_of d k id = view_of d' k id.
Proof. intros [Hr _] k id. unfold view_of, placements_of. by rewrite Hr. Qed.

(** a run, the run without its restarts, and the specification *)
Lemma run_runs ops : ∀ d e m, run_ok d → dir_ok e → same_reads d e → (∀ k id, view_of d k id = m k id) →
  Forall delivery_ok (delivered ops) →
  ∃ d' e', for_each (dir_step on chunk_size probe_stride) ops d = (Ok tt, d') ∧ run_ok d' ∧
    for_each kd_deliver (delivered ops) e = (Ok tt, e') ∧ dir_ok e' ∧ same_reads d' e' ∧
    (∀ k id, view_of d' k id = foldl view_deliver m (delivered ops) k id) ∧
    (∀ U, (∀ c c', U c → U c' → content_hash c = content_hash c' → c = c') → Forall (brings U) (delivered ops) →
       blend_ok U d → blend_ok U d').
Proof.
  induction ops as [|o ops IH]; intros d e m Hd He Hs Hm Hops; [by exists d, e|].
  assert (delivered (o :: ops) = delivered [o] ++ delivered ops) as Eo by (by destruct o).
  rewrite Eo in Hops. apply Forall_app in Hops as [Ho Hops].
  destruct (step_run_ok o d Hd Ho) as (d1 & S1 & Hd1 & Hrel & HU1).
  assert (∃ e1, for_each kd_deliver (delivered [o]) e = (Ok tt, e1) ∧ dir_ok e1 ∧ same_reads d1 e1 ∧
    ∀ k id, view_of d1 k id = foldl view_deliver m (delivered [o]) k id) as (e1 & T1 & He1 & Hs1 & Hm1).
  { destruct o as [x|]; cbn [delivered omap list_omap for_each foldl] in *.
    - apply Forall_cons in Ho as [Hx _]. destruct (deliver_runs x e He Hx) as (T & He1 & _). exists (deliver_pure e x).
      rewrite Hrel. split_and!; [by rewrite (bind_ok _ _ _ _ _ T)|done|apply same_deliver; [apply Hd|done|done]|].
      destruct (deliver_runs x d (proj1 Hd) Hx) as (_ & _ & Hv). intros k id. rewrite Hv. by apply view_deliver_ext.
    - exists e. split_and!; [done|done| |].
      + destruct Hrel, Hs. split; intros; etrans; eauto.
      + intros k id. rewrite (view_same _ _ Hrel). apply Hm. }
  destruct (IH d1 e1 (foldl view_deliver m (delivered [o])) Hd1 He1 Hs1 Hm1 Hops) as (d' & e' & S2 & Hd2 & T2 & He2 & Hs2 & Hm2 & HU2).
  exists d', e'. split_and!; try done.
  - cbn [for_each]. by rewrite (bind_ok _ _ _ _ _ S1).
  - rewrite Eo. destruct o as [x|]; cbn [delivered omap list_omap app for_each] in *; [|by injection T1 as <-].
    destruct (kd_deliver x e) as [[[]|] e2] eqn:Ex; cbn in T1.
    + unfold mbind, py_bind in T1 |- *. rewrite Ex in T1 |- *. by injection T1 as <-.
    + unfold mbind, py_bind in T1. by rewrite Ex in T1.
  - intros k id. rewrite Eo, foldl_app. apply Hm2.
  - intros U HU Hb Hbl. rewrite Eo in Hb. apply Forall_app in Hb as [Hb1 Hb2]. apply HU2; [done|done|]. by apply HU1.
Qed.
End runs.
Arguments dir_op E : clear implicits.
