(* ===== verification/DirectoryTheorems.v ===== *)
(** * The key directory: theorems

    What the directory promises to its readers, over every run of the stream with
    restarts of the coordinator, and a fleet of two servers as a witness. *)

From S2P Require Import Prelude PyDict PyState PySet PyFloat BatchBlob ObjectKey EventGate CacheEvents CoordinatorKeys.
From S2P Require Import BlendIndex KeyDirectory KeyDirectoryProofs DirectoryRuns.

Open Scope Z_scope.

Section theorems.
Context {K E F : Type} `{EqDecision K} `{KC : KeyCodec K E F} `{NP : UInt32Array}.
Implicit Types (d : KeyDirectory K).

Lemma ids_nodup ps : ids_ok ps → NoDup ps.
Proof. apply NoDup_fmap_1. Qed.

Lemma lookup_spec d keys i k : keys !! i = Some k → lookup d keys !! i = Some (sort_placements (placements_of d k)).
Proof.
  intros Hk. unfold lookup. rewrite list_lookup_fmap, Hk. cbn. f_equal. unfold placements_of. by destruct (dget _ _).
Qed.

(** the lookup of a chunk with live content *)
Lemma binding_live d h x : dir_core d → dget (kd_token_bindings d) h = Some x →
  ∃ k, key_chunk_hash k = h ∧ placements_of d k ≠ [].
Proof.
  intros [Hw Hr Hb] Hx. destruct (bo_each _ _ Hb h x Hx) as (Hne & _ & Hk). destruct (tb_keys x) as [|k ks]; [done|].
  destruct (proj1 (Hk k)) as [Hin Hh]; [left|]. exists k. split; [done|]. apply elem_of_dkeys in Hin as [r Hr'].
  rewrite (placements_of_Some d k r Hr'). by apply (Hr k r).
Qed.

(** one page of a listing *)
Definition matching d (tier : Tier) (instance_id backend : string) : list (K * list Placement) :=
  omap (λ kr : K * _KeyRecord, match List.filter (listed tier instance_id backend) (kr_placements kr.2) with
                               | [] => None | ps => Some (kr.1, ps) end) (kd_directory d).

(** Listing by pages lists everything once: a page is the requested slice of the
    keys that have a matching placement, in the directory's order, and the total is
    their number; negative arguments are refused. *)
Theorem list_keys_pages d tier instance_id backend offset limit : dwf (kd_directory d) →
  list_keys d tier instance_id backend offset limit =
  if (0 <=? offset) && (0 <=? limit) then
    Ok (Z.of_nat (length (matching d tier instance_id backend)),
        take (Z.to_nat limit) (drop (Z.to_nat offset) (matching d tier instance_id backend)))
  else Raise ValueError.
Proof.
  intros Hw. unfold list_keys, matching. rewrite !Z.leb_antisym. destruct (Z.ltb_spec offset 0); [done|].
  destruct (Z.ltb_spec limit 0); [done|]. cbn [negb andb]. f_equal. revert Hw. generalize (kd_directory d). intros l Hw.
  set (f := λ kr : K * _KeyRecord, match List.filter (listed tier instance_id backend) (kr_placements kr.2) with
                               | [] => None | ps => Some (kr.1, ps) end).
  induction l as [|[k r] l IH] using rev_ind.
  { cbn [foldl omap list_omap length]. by rewrite drop_nil, take_nil. }
  unfold dwf, dkeys in Hw. rewrite fmap_app in Hw. apply NoDup_app in Hw as (Hw & Hd & _).
  assert (omap f [(k, r)] = match List.filter (listed tier instance_id backend) (kr_placements r) with
                            | [] => [] | ps => [(k, ps)] end) as Ef.
  { unfold f. cbn [omap list_omap snd fst]. by destruct (List.filter _ (kr_placements r)). }
  rewrite foldl_app, omap_app, Ef, IH by done. cbn [foldl snd fst].
  destruct (List.filter _ (kr_placements r)) as [|p ps]; [by rewrite app_nil_r|].
  set (l' := omap f l). rewrite length_app. cbn [length]. f_equal; [lia|].
  assert (k ∉ dkeys (take (Z.to_nat limit) (drop (Z.to_nat offset) l'))) as Hk.
  { intros (kp & -> & Hin)%list_elem_of_fmap. apply elem_of_take in Hin as (i & Hin & _). rewrite lookup_drop in Hin.
    apply list_elem_of_lookup_2, list_elem_of_omap in Hin as ([k' r'] & Hin & Hf). unfold f in Hf. cbn in Hf.
    destruct (List.filter _ _) in Hf; [done|]. injection Hf as <-. apply (Hd k'); [|left]. apply list_elem_of_fmap. by exists (k', r'). }
  rewrite length_take, length_drop.
  destruct (Z.leb_spec offset (Z.of_nat (length l'))); cbn [andb].
  - rewrite drop_app_le by lia. destruct (Z.ltb_spec (Z.of_nat (Z.to_nat limit `min` (length l' - Z.to_nat offset))) limit).
    + rewrite dkeys_dset_new by (by apply dget_None_dkeys).
      rewrite !take_ge by (rewrite ?length_app, ?length_drop; cbn; lia). done.
    + rewrite take_app_le by (rewrite length_drop; lia). done.
  - rewrite !drop_ge by (rewrite ?length_app; cbn; lia). done.
Qed.
End theorems.

(** C16: The directory is what the stream says: after any sequence of checked
    batches, fences and restarts from a checkpoint, nothing has raised, and looking
    keys up returns, for each requested key in request order, exactly the placements
    the stream leaves it with (a store replaces the placement of its identity, which
    is fleet-wide for a shared pool; a delete removes it; a fence removes the L1
    placements the instance reported last), each once, sorted by instance, tier and
    backend. The reverse index that makes fencing cheap never misses a key. *)
Theorem directory_refines_stream {K E F} `{EqDecision K} `{KC : KeyCodec K E F} `{NP : UInt32Array}
    (on : bool) (chunk_size probe_stride : Z) (d0 : KeyDirectory K) (ops : list (dir_op E)) :
  from_config on chunk_size probe_stride = Ok d0 → Forall delivery_ok (delivered ops) →
  ∃ d, for_each (dir_step on chunk_size probe_stride) ops d0 = (Ok tt, d) ∧
    ∀ keys i k, keys !! i = Some k →
      ∃ l, lookup d keys !! i = Some l ∧ NoDup l ∧ Sorted by_key l ∧
        ∀ p, p ∈ l ↔ foldl view_deliver (λ _ _, None) (delivered ops) k (identity_of p) = Some p.
Proof.
  intros Hc Hok. pose proof (init_run_ok _ _ _ _ Hc) as Hi. destruct (from_config_init _ _ _ _ Hc) as (E1 & _).
  destruct (run_runs _ _ _ _ Hc ops d0 d0 (λ _ _, None) Hi (proj1 Hi)) as (d & e & R & ([Hd _] & _) & _ & _ & _ & Hv & _); [done| |done|].
  { intros k id. unfold view_of, placements_of. by rewrite E1. }
  exists d. split; [done|]. intros keys i k Hk. eexists. split; [by apply lookup_spec|].
  pose proof (placements_ids d k Hd) as Hid. split_and!.
  - rewrite sort_placements_perm. by apply ids_nodup.
  - apply sort_placements_sorted.
  - intros p. rewrite sort_placements_perm, placed_elem by done. fold (view_of d k (identity_of p)). by rewrite Hv.
Qed.

(** Restarting the coordinator from a checkpoint of the directory cannot be
    observed: a run with restarts and the same run without them both succeed and
    answer every lookup and every request for token ids alike, and agree on the
    records, recency included. *)
Theorem directory_restart_transparent {K E F} `{EqDecision K} `{KC : KeyCodec K E F} `{NP : UInt32Array}
    (on : bool) (chunk_size probe_stride : Z) (d0 : KeyDirectory K) (ops : list (dir_op E)) :
  from_config on chunk_size probe_stride = Ok d0 → Forall delivery_ok (delivered ops) →
  ∃ d e, for_each (dir_step on chunk_size probe_stride) ops d0 = (Ok tt, d) ∧
    for_each kd_deliver (delivered ops) d0 = (Ok tt, e) ∧
    (∀ keys, lookup d keys = lookup e keys) ∧ (∀ hs, get_token_ids d hs = get_token_ids e hs) ∧
    (∀ k, dget (kd_directory d) k = dget (kd_directory e) k).
Proof.
  intros Hc Hok. pose proof (init_run_ok _ _ _ _ Hc) as Hi.
  destruct (run_runs _ _ _ _ Hc ops d0 d0 (view_of d0) Hi (proj1 Hi)) as (d & e & R & _ & T & _ & [Hr Hcon] & _); [done|done|done|].
  exists d, e. split_and!; [done|done| | |done].
  - intros keys. unfold lookup. apply list_fmap_ext. intros i k _. by rewrite Hr.
  - intros hs. unfold get_token_ids. apply list_fmap_ext. intros i h _. specialize (Hcon h). unfold content_at, chunk_content in Hcon.
    destruct (dget (kd_token_bindings d) h), (dget (kd_token_bindings e) h); naive_solver.
Qed.

(** Fragment lookups follow the directory: with blend lookup enabled, and
    when the contents that occur have distinct fingerprints, after any run with
    restarts a match names a chunk that some key with a live placement holds, whose
    recorded tokens are the query's at the reported position, and the reported
    offset is the recorded one unless a later store did not know it; chunks are
    matched once and in ascending position; and a live chunk of known offset whose
    tokens occur at a visited position is matched by then, or another one is
    matched there. *)
Theorem directory_blend_exact {K E F} `{EqDecision K} `{KC : KeyCodec K E F} `{NP : UInt32Array}
    (chunk_size probe_stride : Z) (d0 : KeyDirectory K) (ops : list (dir_op E)) (U : list Z → Prop) (query : list Z)
    (k := Z.to_nat chunk_size) (stride := Z.to_nat probe_stride) :
  from_config true chunk_size probe_stride = Ok d0 → Forall delivery_ok (delivered ops) →
  (∀ c c', U c → U c' → content_hash c = content_hash c' → c = c') → Forall (brings U) (delivered ops) →
  ∃ d, for_each (dir_step true chunk_size probe_stride) ops d0 = (Ok tt, d) ∧
    let ms := blend_match d query in
    NoDup (bm_chunk_hash <$> ms) ∧ StronglySorted Z.lt (bm_cur_st <$> ms) ∧
    (∀ m, m ∈ ms → ∃ p x key, p ∈ probed k stride query ∧ bm_cur_st m = Z.of_nat p ∧
       dget (kd_token_bindings d) (bm_chunk_hash m) = Some x ∧ tb_token_ids x = window query k p ∧
       (tb_token_offset x = bm_old_st m ∨ tb_token_offset x = UNKNOWN_TOKEN_OFFSET) ∧
       key_chunk_hash key = bm_chunk_hash m ∧ placements_of d key ≠ []) ∧
    (∀ p h x, p ∈ probed k stride query → dget (kd_token_bindings d) h = Some x →
       tb_token_ids x = window query k p → tb_token_offset x ≠ UNKNOWN_TOKEN_OFFSET →
       ∃ m, m ∈ ms ∧ (bm_cur_st m = Z.of_nat p ∨ bm_chunk_hash m = h ∧ bm_cur_st m < Z.of_nat p)).
Proof.
  intros Hc Hok HU Hb. pose proof (init_run_ok _ _ _ _ Hc) as Hi.
  destruct (run_runs _ _ _ _ Hc ops d0 d0 (view_of d0) Hi (proj1 Hi)) as (d & e & R & ([Hd _] & _ & Hp) & _ & _ & _ & _ & HUb);
    [done|done|done|].
  destruct (from_config_init _ _ _ _ Hc) as (_ & _ & _ & Eon & _ & Hx). destruct (Hx eq_refl) as (_ & Ek & Es).
  injection Hp as Hon Hk Hs. rewrite Ek in Hk. rewrite Es in Hs. rewrite Eon in Hon. fold k in Hk. fold stride in Hs.
  pose proof (HUb U HU Hb (blend_init U d0 _ _ Hc)) as [_ Hin Htok Hsnd Hcmp]. pose proof (ii_ok _ _ Hin) as Hix.
  exists d. split; [done|]. unfold blend_match. rewrite Hon, (match_scans _ _ Hix), spec_match_scan, Hk, Hs.
  destruct (scan_answers (λ p, occupants (contents_of (kd_blend_index d)) (window query k p))
    (λ p h n, (h, n) ∈ occupants (contents_of (kd_blend_index d)) (window query k p)) (probed k stride query)) as [[A1 A2 A3 A4] _];
    [done|apply probed_sorted; rewrite <- Hs; apply Hix|].
  split_and!; [done|done| |].
  - intros m Hm. destruct (A1 m Hm) as (p & Hpin & Hcur & Hocc). destruct (Hsnd _ _ _ Hocc) as (x & Hx' & Et & Eo).
    destruct (binding_live d _ x Hd Hx') as (key & ? & ?). by exists p, x, key.
  - intros p h x Hpin Hx' Et Eo.
    assert ((h, tb_token_offset x) ∈ occupants (contents_of (kd_blend_index d)) (window query k p)) as Hocc.
    { rewrite <- Et. apply Hcmp; [done| |done]. rewrite Et, Hk. unfold window, probed in *.
      apply list_elem_of_filter in Hpin as [? _]. rewrite length_take, length_drop. lia. }
    destruct (A4 p h _ Hpin Hocc) as [(m & ? & ?)|Hall]; [exists m; auto|].
    destruct (Hall h _ Hocc) as (m & ? & ? & ?). exists m. auto.
Qed.

(** ** A fleet of two servers *)

(** an array conversion that keeps ids in range and refuses the rest *)
Definition strict_uint32 (l : list Z) : option (list Z) :=
  if decide (Forall (λ x, 0 <= x ∧ x < 2 ^ 32) l) then Some l else None.

#[export] Instance strict_array : UInt32Array.
Proof.
  refine {| asarray_uint32 := strict_uint32 |}.
  - intros l Hl. unfold strict_uint32. by rewrite decide_True.
  - intros l l'. unfold strict_uint32. case_decide; [|done]. intros [= <-]. done.
Defined.

(** server a stores two chunks in memory and one in a shared bucket; b stores one of
    them too; the coordinator restarts; a is fenced; b evicts *)
Definition demo_directory : list (dir_op EncodedObjectKey) :=
  [ Deliver (Consume (example_batch "a" 1 1 STORE CacheEvents.L1 "dram" false
      [mkEntry (example_encoded x01 "t") 10 [1; 2] 0; mkEntry (example_encoded x02 "t") 7 [3; 4] 2]));
    Deliver (Consume (example_batch "b" 1 1 STORE CacheEvents.L1 "dram" false [mkEntry (example_encoded x01 "t") 10 [1; 2] 0]));
    Deliver (Consume (example_batch "a" 1 2 STORE CacheEvents.L2 "s3" true [mkEntry (example_encoded x02 "t") 5 [3; 4] 2]));
    Restart;
    Deliver (FenceInstance "a"%string);
    Deliver (Consume (example_batch "b" 1 2 STORE CacheEvents.L2 "s3" true [mkEntry (example_encoded x02 "t") 6 [] (-1)]));
    Restart ].
Definition demo_directory_init : KeyDirectory Key := match from_config true 2 1 with Ok d => d | Raise _ => kd_init end.

Definition demo_keys : list Key :=
  omap (λ h, match CacheEvents.to_object_key (example_encoded h "t") with Ok k => Some k | Raise _ => None end) [x01; x02; x03].

Lemma demo_directory_ok : Forall delivery_ok (delivered demo_directory).
Proof. apply deliveries_checked. vm_compute. reflexivity. Qed.
Lemma demo_directory_config : from_config true 2 1 = Ok demo_directory_init.
Proof. vm_compute. reflexivity. Qed.

(** the contents of the example *)
Definition demo_contents (c : list Z) : Prop := c ∈ [[1; 2]; [3; 4]].

Lemma demo_contents_distinct c c' : demo_contents c → demo_contents c' → content_hash c = content_hash c' → c = c'.
Proof.
  assert (content_hash [1; 2] ≠ content_hash [3; 4]) as Hne.
  { apply Z.eqb_neq. vm_compute. reflexivity. }
  unfold demo_contents. rewrite !elem_of_cons, !elem_of_nil.
  intros [->|[->|[]]] [->|[->|[]]] Hh; [reflexivity|destruct (Hne Hh)|destruct (Hne (eq_sym Hh))|reflexivity].
Qed.

Lemma demo_brings : Forall (brings demo_contents) (delivered demo_directory).
Proof.
  assert (∀ l tokens, asarray_uint32 l = Some tokens → tokens = l) as Ha.
  { intros l tokens. cbn. unfold strict_uint32. case_decide; congruence. }
  repeat first [apply List.Forall_nil | apply List.Forall_cons | exact I];
    cbn [en_token_ids]; intros tokens Ht%Ha Hne; subst tokens; unfold demo_contents; rewrite !elem_of_cons; try (by destruct Hne); auto.
Qed.

Lemma directory_refines_stream_witness :
  ∃ d, for_each (dir_step true 2 1) demo_directory demo_directory_init = (Ok tt, d) ∧
    lookup d demo_keys = [[mkPlacement "b" 1 CacheEvents.L1 "dram" 10 false]; [mkPlacement "b" 1 CacheEvents.L2 "s3" 6 true]; []].
Proof.
  destruct (directory_refines_stream true 2 1 _ _ demo_directory_config demo_directory_ok) as (d & Ed & _).
  exists d. split; [exact Ed|].
  assert (d = (for_each (dir_step true 2 1) demo_directory demo_directory_init).2) as -> by (by rewrite Ed). vm_compute. reflexivity.
Defined.

Lemma directory_restart_witness :
  ∃ d e, for_each (dir_step true 2 1) demo_directory demo_directory_init = (Ok tt, d) ∧
    for_each kd_deliver (delivered demo_directory) demo_directory_init = (Ok tt, e) ∧ lookup d demo_keys = lookup e demo_keys.
Proof.
  destruct (directory_restart_transparent true 2 1 _ _ demo_directory_config demo_directory_ok) as (d & e & Ed & Ee & Hl & _).
  exists d, e. exact (conj Ed (conj Ee (Hl demo_keys))).
Defined.

Lemma directory_blend_witness :
  ∃ d, for_each (dir_step true 2 1) demo_directory demo_directory_init = (Ok tt, d) ∧
    NoDup (bm_chunk_hash <$> blend_match d [9; 3; 4; 1; 2]) ∧
    blend_match d [9; 3; 4; 1; 2] = [mkBlendMatch [x02] 2 1; mkBlendMatch [x01] 0 3].
Proof.
  destruct (directory_blend_exact 2 1 _ _ demo_contents [9; 3; 4; 1; 2] demo_directory_config demo_directory_ok
    demo_contents_distinct demo_brings) as (d & Ed & Hn & _).
  exists d. split; [exact Ed|]. split; [exact Hn|].
  assert (d = (for_each (dir_step true 2 1) demo_directory demo_directory_init).2) as -> by (by rewrite Ed). vm_compute. reflexivity.
Defined.
