(* ===== verification/ServerConfig.v ===== *)
(** * The coordinator's capacity registry

    [mp_coordinator/views/server_config.py]: the memory compartments every server
    declares by [config] batches. A declaration is identified by its stamp, the pair
    of incarnation and revision; the registry keeps the newest one of each server.
    The specification reads it off the history of a server's declarations. *)

From S2P Require Import Prelude PyDict PyState PyFloat ObjectKey EventGate CacheEvents CoordinatorKeys.

Open Scope Z_scope.

Definition UNDECLARED_CAPACITY : Z := 0.

Record ModuleMemoryCapacity := mkModule {
  mc_tier : Tier;
  mc_backend : string;
  mc_capacity_bytes : Z;
  mc_shared : bool }.

Definition compartment (m : ModuleMemoryCapacity) : Tier * string := (mc_tier m, mc_backend m).

Definition stamp : Type := Z * Z.
(** [<] on tuples *)
Definition stamp_lt (a b : stamp) : bool := (a.1 <? b.1) || ((a.1 =? b.1) && (a.2 <? b.2)).

Record ServerConfigRegistry := mkServerConfig {
  sc_by_instance : list (string * list ((Tier * string) * ModuleMemoryCapacity));
  sc_stamps : list (string * stamp) }.

Definition sc_init : ServerConfigRegistry := mkServerConfig [] [].

Definition with_modules (s : ServerConfigRegistry) x := mkServerConfig x (sc_stamps s).
Definition with_stamps (s : ServerConfigRegistry) x := mkServerConfig (sc_by_instance s) x.

Section registry.
Context {E : Type}.

Definition declared_module (b : Batch E) : ModuleMemoryCapacity :=
  mkModule (bo_tier (b_body b)) (bo_backend (b_body b)) (bo_capacity_bytes (b_body b)) (bo_shared (b_body b)).
Definition stamp_of (b : Batch E) : stamp := (b_incarnation b, bo_capacity_revision (b_body b)).

Definition sc_consume (b : Batch E) : py_state ServerConfigRegistry unit :=
  if negb (bool_decide (bo_event_type (b_body b) = CONFIG)) then mret tt
  else
    let module := declared_module b in
    let i := b_instance_id b in
    s ← gets id;
    let stored := default (-1, -1) (dget (sc_stamps s) i) in
    if stamp_lt (stamp_of b) stored then mret tt
    else
      _ ← when (stamp_lt stored (stamp_of b))
            (modify (λ s, mkServerConfig (dset (sc_by_instance s) i []) (dset (sc_stamps s) i (stamp_of b))));
      s ← gets id;
      modules ← getitem (sc_by_instance s) i;
      modify (λ s, with_modules s (dset (sc_by_instance s) i (dset modules (compartment module) module))).

Definition sc_fence_instance (instance_id : string) (s : ServerConfigRegistry) : ServerConfigRegistry := s.

Definition sc_get (s : ServerConfigRegistry) (instance_id : string) : list ModuleMemoryCapacity :=
  dvals (default [] (dget (sc_by_instance s) instance_id)).

Definition sc_get_all (s : ServerConfigRegistry) : list (string * list ModuleMemoryCapacity) :=
  (λ im, (im.1, dvals im.2)) <$> sc_by_instance s.

Definition forget (instance_id : string) (s : ServerConfigRegistry) : ServerConfigRegistry :=
  mkServerConfig (ddel (sc_by_instance s) instance_id) (ddel (sc_stamps s) instance_id).

Definition encoded_module : Type := string * string * Z * bool.

Definition sc_capture (s : ServerConfigRegistry) : list (string * Z * Z * list encoded_module) :=
  (λ st : string * stamp,
     (st.1, st.2.1, st.2.2,
      (λ m, (tier_value (mc_tier m), mc_backend m, mc_capacity_bytes m, mc_shared m)) <$> sc_get s st.1))
    <$> sc_stamps s.

Definition decode_module (x : encoded_module) : result ((Tier * string) * ModuleMemoryCapacity) :=
  let '(tier_value, backend, capacity_bytes, shared) := x in
  (tier <-? tier_of tier_value; Ok ((tier, backend), mkModule tier backend capacity_bytes shared))%py.

Definition sc_restore (declarations : list (string * Z * Z * list encoded_module))
  : py_state ServerConfigRegistry unit :=
  s ← gets id;
  if nonempty (sc_by_instance s) || nonempty (sc_stamps s) then lift (Raise ValueError)
  else for_each (λ x, let '(instance_id, incarnation, revision, modules) := x in
         _ ← modify (λ s, with_stamps s (dset (sc_stamps s) instance_id (incarnation, revision)));
         ms ← lift (map_ok decode_module modules);
         modify (λ s, with_modules s (dset (sc_by_instance s) instance_id (dupdate [] ms)))) declarations.

Definition sc_deliver (d : delivery string (batch_body E)) : py_state ServerConfigRegistry unit :=
  match d with
  | Consume b => sc_consume b
  | FenceInstance i => modify (sc_fence_instance i)
  end.

(** ** The specification *)

Inductive config_op :=
| ConfigDeliver (d : delivery string (batch_body E))
| ConfigForget (i : string)
| ConfigRestart.

Definition config_step (o : config_op) : py_state ServerConfigRegistry unit := λ s,
  match o with
  | ConfigDeliver d => sc_deliver d s
  | ConfigForget i => modify (forget i) s
  | ConfigRestart => sc_restore (sc_capture s) sc_init
  end.

(** what server [i] declared since it was last forgotten *)
Definition history_step (i : string) (h : list (stamp * ModuleMemoryCapacity)) (o : config_op) :=
  match o with
  | ConfigDeliver (Consume b) =>
      if bool_decide (bo_event_type (b_body b) = CONFIG) && bool_decide (b_instance_id b = i)
      then h ++ [(stamp_of b, declared_module b)] else h
  | ConfigForget j => if decide (j = i) then [] else h
  | _ => h
  end.
Definition history (i : string) (ops : list config_op) := foldl (history_step i) [] ops.

Definition stamp_max (a b : stamp) : stamp := if stamp_lt a b then b else a.
Definition newest (h : list (stamp * ModuleMemoryCapacity)) : stamp := foldl stamp_max (-1, -1) h.*1.

(** the compartments of the newest declaration, each as declared last *)
Definition declaration (h : list (stamp * ModuleMemoryCapacity)) : list ((Tier * string) * ModuleMemoryCapacity) :=
  foldl (λ d m, dset d (compartment m) m) [] (filter (λ x, x.1 = newest h) h).*2.

(** ** Stamps *)

Lemma stamp_lt_spec (a b : stamp) : stamp_lt a b = true ↔ a.1 < b.1 ∨ (a.1 = b.1 ∧ a.2 < b.2).
Proof. unfold stamp_lt. rewrite orb_true_iff, andb_true_iff, Z.ltb_lt, Z.eqb_eq, Z.ltb_lt. done. Qed.
Lemma stamp_not_lt (a b : stamp) : stamp_lt a b = false ↔ b.1 < a.1 ∨ (a.1 = b.1 ∧ b.2 <= a.2).
Proof. rewrite <- not_true_iff_false, stamp_lt_spec. lia. Qed.
Lemma stamp_eq (a b : stamp) : stamp_lt a b = false → stamp_lt b a = false → a = b.
Proof. rewrite !stamp_not_lt. destruct a, b. cbn. intros. f_equal; lia. Qed.

Lemma newest_snoc h x : newest (h ++ [x]) = stamp_max (newest h) x.1.
Proof. unfold newest. by rewrite fmap_app, foldl_app. Qed.

Lemma newest_bound h x : x ∈ h → stamp_lt (newest h) x.1 = false.
Proof.
  induction h as [|y h IH] using rev_ind; [intros Hx; by apply not_elem_of_nil in Hx|].
  rewrite newest_snoc. unfold stamp_max. intros [Hx| ->%list_elem_of_singleton]%elem_of_app.
  - specialize (IH Hx). destruct (stamp_lt (newest h) y.1) eqn:Hy; [|done].
    rewrite stamp_not_lt in *. rewrite stamp_lt_spec in Hy. lia.
  - destruct (stamp_lt (newest h) y.1) eqn:Hy; [|done]. rewrite stamp_not_lt. lia.
Qed.

(** an older declaration is dropped, an equal one extends, a newer one replaces *)
Lemma declaration_snoc h (t : stamp) m : stamp_lt (-1, -1) t = true →
  declaration (h ++ [(t, m)]) =
  if stamp_lt t (newest h) then declaration h
  else dset (if stamp_lt (newest h) t then [] else declaration h) (compartment m) m.
Proof.
  intros Hpos. unfold declaration. rewrite newest_snoc. unfold stamp_max. cbn [fst].
  destruct (stamp_lt t (newest h)) eqn:Hlt.
  { assert (stamp_lt (newest h) t = false) as -> by (rewrite stamp_not_lt; rewrite stamp_lt_spec in Hlt; lia).
    rewrite filter_app, filter_cons, filter_nil. cbn [fst]. rewrite decide_False; [by rewrite app_nil_r|].
    intros ->. rewrite stamp_lt_spec in Hlt. lia. }
  destruct (stamp_lt (newest h) t) eqn:Hgt; rewrite filter_app, filter_cons, filter_nil; cbn [fst].
  - rewrite (decide_True (P := t = t)) by done. rewrite (filter_none _ h); [done|].
    rewrite Forall_forall. intros x Hx%newest_bound Heq. subst t. congruence.
  - rewrite (stamp_eq _ _ Hlt Hgt), (decide_True (P := newest h = newest h)) by done. by rewrite fmap_app, foldl_app.
Qed.

(** ** The registry follows the history *)

Lemma declaration_shape h : dwf (declaration h) ∧ Forall (λ cm, cm.1 = compartment cm.2) (declaration h).
Proof.
  unfold declaration. induction ((filter (λ x, x.1 = newest h) h).*2) as [|m l IH] using rev_ind.
  { split; constructor. }
  rewrite foldl_app. cbn [foldl]. destruct IH as [Hw Hk]. split; [by apply dset_wf|]. apply Forall_forall. intros [c m'] Hin.
  apply dget_wf_elem_of in Hin; [|by apply dset_wf]. rewrite dget_dset in Hin. case_decide; [by injection Hin as <-|].
  rewrite Forall_forall in Hk. apply (Hk (c, m')). by apply dget_elem_of.
Qed.

Definition of_history {A} (h : list (stamp * ModuleMemoryCapacity)) (x : A) : option A :=
  match h with [] => None | _ => Some x end.

Record registry_ok (hs : string → list (stamp * ModuleMemoryCapacity)) (s : ServerConfigRegistry) : Prop := {
  rg_wf : dwf (sc_stamps s);
  rg_keys : dkeys (sc_by_instance s) = dkeys (sc_stamps s);
  rg_stamp i : dget (sc_stamps s) i = of_history (hs i) (newest (hs i));
  rg_modules i : dget (sc_by_instance s) i = of_history (hs i) (declaration (hs i)) }.

Lemma of_history_snoc {A} h x (a : A) : of_history (h ++ [x]) a = Some a.
Proof. by destruct h. Qed.

Lemma stored_newest {A} h (d : A) (f : list (stamp * ModuleMemoryCapacity) → A) : f [] = d →
  default d (of_history h (f h)) = f h.
Proof. intros <-. by destruct h. Qed.

Lemma consume_registry b hs s : registry_ok hs s → stamp_lt (-1, -1) (stamp_of b) = true →
  ∃ s', sc_consume b s = (Ok tt, s') ∧ registry_ok (λ i, history_step i (hs i) (ConfigDeliver (Consume b))) s'.
Proof.
  intros Hr Hb. pose proof Hr as [Hw Hk Hs Hm]. unfold sc_consume, history_step.
  destruct (bool_decide (bo_event_type (b_body b) = CONFIG)); cbn [negb andb]; [|by exists s].
  set (i := b_instance_id b). set (t := stamp_of b) in *. set (m := declared_module b).
  unfold mbind at 1, py_bind at 1, gets at 1. cbv beta iota. rewrite Hs, stored_newest by done. unfold id at 1.
  pose proof (declaration_snoc (hs i) t m Hb) as Hd. pose proof (newest_snoc (hs i) (t, m)) as Hn. cbn [fst] in Hn.
  unfold stamp_max in Hn. destruct (stamp_lt t (newest (hs i))) eqn:Hlt.
  { exists s. split; [done|]. destruct (stamp_lt (newest (hs i)) t) eqn:Hgt.
    { rewrite stamp_lt_spec in Hlt, Hgt. lia. }
    assert (hs i ≠ []) as Hne.
    { intros E0. rewrite E0 in Hlt. unfold newest in Hlt. cbn in Hlt. rewrite stamp_lt_spec in Hlt, Hb. cbn in Hlt, Hb. lia. }
    constructor; [done|done|..]; intros j; case_bool_decide as Hj; subst; try done;
      [rewrite Hs, of_history_snoc, Hn|rewrite Hm, of_history_snoc, Hd]; by destruct (hs i). }
  destruct (stamp_lt (newest (hs i)) t) eqn:Hgt; unfold when, modify, gets, getitem, lift, id, mbind, py_bind, with_modules;
    cbv beta iota; cbn [sc_by_instance sc_stamps mret py_ret].
  - rewrite dget_dset_eq. eexists. split; [done|]. constructor; cbn [sc_by_instance sc_stamps].
    + by apply dset_wf.
    + rewrite (dkeys_dset (dset _ _ _)), !dkeys_dset, Hk. repeat case_decide; set_solver.
    + intros j. rewrite dget_dset. case_bool_decide as Hj; case_decide; subst; try done. by rewrite of_history_snoc, Hn.
    + intros j. rewrite !dget_dset. case_bool_decide as Hj; case_decide; subst; try done. by rewrite of_history_snoc, Hd.
  - assert (hs i ≠ []) as Hne.
    { intros E0. rewrite E0 in Hgt. unfold newest in Hgt. cbn in Hgt. congruence. }
    rewrite Hm. destruct (of_history (hs i) _) as [x|] eqn:Ex; [|by destruct (hs i)].
    assert (x = declaration (hs i)) as -> by (destruct (hs i); [done|by injection Ex]).
    eexists. split; [done|]. constructor; cbn [sc_by_instance sc_stamps].
    + done.
    + rewrite dkeys_dset, decide_True; [done|]. apply elem_of_dkeys. rewrite Hm, Ex. done.
    + intros j. rewrite Hs. case_bool_decide as Hj; subst; try done. rewrite of_history_snoc, Hn. by destruct (hs i).
    + intros j. rewrite !dget_dset. case_bool_decide as Hj; case_decide; subst; try done. by rewrite of_history_snoc, Hd.
Qed.

Lemma forget_registry j hs s : registry_ok hs s → registry_ok (λ i, history_step i (hs i) (ConfigForget j)) (forget j s).
Proof.
  intros [Hw Hk Hs Hm]. constructor; cbn [forget sc_by_instance sc_stamps history_step].
  - by apply ddel_wf.
  - by rewrite !dkeys_ddel, Hk.
  - intros i. rewrite dget_ddel. by case_decide.
  - intros i. rewrite dget_ddel. by case_decide.
Qed.

(** *** Restarting *)

Definition encode_module (m : ModuleMemoryCapacity) : encoded_module :=
  (tier_value (mc_tier m), mc_backend m, mc_capacity_bytes m, mc_shared m).

Definition modules_ok (d : list ((Tier * string) * ModuleMemoryCapacity)) : Prop :=
  dwf d ∧ Forall (λ cm, cm.1 = compartment cm.2) d.

Lemma decode_modules d : modules_ok d → map_ok decode_module (encode_module <$> dvals d) = Ok d.
Proof.
  intros [_ Hd]. unfold dvals. rewrite <- list_fmap_compose, (map_ok_fmap _ _ id), list_fmap_id; [done|].
  intros [c [t b n sh]] Hin. rewrite Forall_forall in Hd. specialize (Hd _ Hin). cbn in Hd. subst c.
  unfold encode_module, decode_module. cbn. by rewrite tier_of_value.
Qed.

Lemma restore_declarations st2 : ∀ by2 by1 st1,
  dkeys by2 = dkeys st2 → dkeys by1 = dkeys st1 → dwf (st1 ++ st2) → Forall (λ im, modules_ok im.2) by2 →
  for_each (λ x, let '(instance_id, incarnation, revision, modules) := x in
         _ ← modify (λ s, with_stamps s (dset (sc_stamps s) instance_id (incarnation, revision)));
         ms ← lift (map_ok decode_module modules);
         modify (λ s, with_modules s (dset (sc_by_instance s) instance_id (dupdate [] ms))))
    (zip_with (λ (st : string * stamp) (im : string * list ((Tier * string) * ModuleMemoryCapacity)),
                 (st.1, st.2.1, st.2.2, encode_module <$> dvals im.2)) st2 by2) (mkServerConfig by1 st1)
  = (Ok tt, mkServerConfig (by1 ++ by2) (st1 ++ st2)).
Proof.
  induction st2 as [|[i [inc rev]] st2 IH]; intros [|[i' d] by2] by1 st1 Hk Hk1 Hw Hd; try done; [by rewrite !app_nil_r|].
  injection Hk as -> Hk. apply Forall_cons in Hd as [[Hdw Hd0] Hd]. cbn [zip_with fst snd].
  assert (i ∉ dkeys st1) as Hn.
  { unfold dwf, dkeys in *. rewrite fmap_app in Hw. apply NoDup_app in Hw as (_ & Hw & _). intros Hin. apply (Hw i Hin). left. }
  cbn [for_each]. rewrite (bind_ok _ _ _ (mkServerConfig (by1 ++ [(i, d)]) (st1 ++ [(i, (inc, rev))])) tt).
  - rewrite IH; [by rewrite <- !app_assoc|done| |by rewrite <- app_assoc|done]. unfold dkeys in *. rewrite !fmap_app. by f_equal.
  - unfold modify, lift, mbind, py_bind. cbv beta iota. rewrite (decode_modules d) by done.
    unfold with_modules, with_stamps. cbn [sc_by_instance sc_stamps].
    rewrite dupdate_app by done. cbn [app]. rewrite !dkeys_dset_new; [done|by apply dget_None_dkeys|apply dget_None_dkeys; by rewrite Hk1].
Qed.

Lemma zip_capture (full : list (string * list ((Tier * string) * ModuleMemoryCapacity))) (l : list (string * stamp)) : ∀ l',
  dkeys l' = dkeys l → (∀ im, im ∈ l' → dget full im.1 = Some im.2) →
  (λ st : string * stamp, (st.1, st.2.1, st.2.2, encode_module <$> dvals (default [] (dget full st.1)))) <$> l =
  zip_with (λ (st : string * stamp) (im : string * list ((Tier * string) * ModuleMemoryCapacity)),
              (st.1, st.2.1, st.2.2, encode_module <$> dvals im.2)) l l'.
Proof.
  induction l as [|[i t] l IH]; intros [|[i' d] l'] Hk Hg; try done. injection Hk as -> Hk.
  rewrite fmap_cons. cbn [zip_with fst snd]. pose proof (Hg (i, d) ltac:(left)) as Hi. cbn [fst snd] in Hi. rewrite Hi. cbn [default from_option].
  f_equal. apply IH; [done|]. intros. apply Hg. by right.
Qed.

Lemma restore_registry hs s : registry_ok hs s → sc_restore (sc_capture s) sc_init = (Ok tt, s).
Proof.
  intros [Hw Hk Hs Hm]. unfold sc_restore. rewrite (bind_ok _ _ _ sc_init sc_init) by done. cbn [sc_init sc_by_instance sc_stamps nonempty orb].
  assert (sc_capture s = zip_with (λ (st : string * stamp) (im : string * list ((Tier * string) * ModuleMemoryCapacity)),
                 (st.1, st.2.1, st.2.2, encode_module <$> dvals im.2)) (sc_stamps s) (sc_by_instance s)) as ->.
  { unfold sc_capture, sc_get.
    assert (∀ im, im ∈ sc_by_instance s → dget (sc_by_instance s) im.1 = Some im.2) as Hg.
    { intros [i d] Hin. apply dget_wf_elem_of; [|done]. unfold dwf. by rewrite Hk. }
    by apply zip_capture. }
  etransitivity; [apply (restore_declarations (sc_stamps s) (sc_by_instance s) [] []); [done|done|done|]|by destruct s].
  apply Forall_forall. intros [i d] Hin. assert (dget (sc_by_instance s) i = Some d) as Hd.
  { apply dget_wf_elem_of; [|done]. unfold dwf. by rewrite Hk. }
  rewrite Hm in Hd. destruct (hs i) eqn:Eh; [done|]. injection Hd as <-. rewrite <- Eh. apply declaration_shape.
Qed.

Lemma config_runs ops : ∀ s hs, registry_ok hs s →
  Forall (λ o, match o with ConfigDeliver (Consume b) => stamp_lt (-1, -1) (stamp_of b) = true | _ => True end) ops →
  ∃ s', for_each config_step ops s = (Ok tt, s') ∧ registry_ok (λ i, foldl (history_step i) (hs i) ops) s'.
Proof.
  induction ops as [|o ops IH]; intros s hs Hr Ho; [by exists s|]. apply Forall_cons in Ho as [Ho Hops].
  assert (∃ s1, config_step o s = (Ok tt, s1) ∧ registry_ok (λ i, history_step i (hs i) o) s1) as (s1 & E1 & H1).
  { destruct o as [[b|i]|i|]; cbn [config_step sc_deliver].
    - by apply consume_registry.
    - by exists s.
    - eexists. split; [done|]. by apply forget_registry.
    - exists s. split; [by eapply restore_registry|done]. }
  destruct (IH s1 _ H1 Hops) as (s' & E2 & H2). exists s'. split; [|done]. cbn [for_each]. by rewrite (bind_ok _ _ _ _ _ E1).
Qed.

Lemma init_registry : registry_ok (λ _, []) sc_init.
Proof. by constructor; [constructor|..]. Qed.

End registry.
Arguments config_op E : clear implicits.

Definition config_op_ok {K E F} `{KC : KeyCodec K E F} (o : config_op E) : Prop :=
  match o with ConfigDeliver d => delivery_ok d | _ => True end.

(** The registry reports the newest declaration of every server: after any
    sequence of checked batches, fences, departures and restarts from a checkpoint,
    nothing has raised; a server is listed exactly when it declared something since
    it last departed; and its compartments are those of its newest declaration, in
    order of incarnation and then revision, each with the capacity declared last, no
    matter in which order older and newer declarations arrived. *)
Theorem config_newest_declaration {K E F} `{KC : KeyCodec K E F} (ops : list (config_op E)) :
  Forall config_op_ok ops →
  ∃ s, for_each config_step ops sc_init = (Ok tt, s) ∧
    ∀ i, sc_get s i = dvals (declaration (history i ops)) ∧
      (i ∈ dkeys (sc_get_all s) ↔ history i ops ≠ []) ∧
      (history i ops ≠ [] → dget (sc_get_all s) i = Some (sc_get s i)).
Proof.
  intros Hops. destruct (config_runs ops sc_init (λ _, []) init_registry) as (s & Es & [Hw Hk Hs Hm]).
  { eapply Forall_impl; [exact Hops|]. intros [[b|]| |]; [|done..]. intros Hb. apply stamp_lt_spec. left. cbn.
    pose proof (bk_incarnation _ Hb). lia. }
  exists s. split; [done|]. intros i. specialize (Hs i). specialize (Hm i). fold (history i ops) in Hs, Hm.
  assert (∀ l, dget ((λ im : string * list ((Tier * string) * ModuleMemoryCapacity), (im.1, dvals im.2)) <$> l) i
    = dvals <$> dget l i) as Hf.
  { induction l as [|[j d] l IH]; [done|]. rewrite fmap_cons. cbn. by case_decide. }
  split_and!.
  - unfold sc_get. rewrite Hm. by destruct (history i ops).
  - rewrite elem_of_dkeys. unfold sc_get_all. rewrite Hf, Hm. destruct (history i ops); cbn; [|naive_solver].
    split; [intros [? ?]; done|done].
  - intros Hne. unfold sc_get_all, sc_get. rewrite Hf, Hm. by destruct (history i ops).
Qed.

(** a server declares two compartments, then one of them again under a newer
    revision, a straggler arrives, and the coordinator restarts *)
Definition declare (i : string) (inc rev : Z) (backend : string) (n : Z) : config_op EncodedObjectKey :=
  ConfigDeliver (Consume {| b_instance_id := i; b_incarnation := inc; b_seq := 1;
                            b_body := mkBody CONFIG CacheEvents.L2 backend [] false float_0 n rev |}).
Definition demo_config : list (config_op EncodedObjectKey) :=
  [declare "a" 1 0 "s3" 5; declare "a" 1 0 "fs" 6; declare "b" 1 0 "s3" 9; ConfigRestart; declare "a" 2 0 "s3" 7;
   declare "a" 1 3 "fs" 8; ConfigForget "b"; ConfigDeliver (FenceInstance "a"%string); ConfigRestart].

Lemma config_newest_declaration_witness :
  ∃ s, for_each config_step demo_config sc_init = (Ok tt, s) ∧ sc_get s "a" = [mkModule CacheEvents.L2 "s3" 7 false] ∧ sc_get s "b" = [].
Proof.
  destruct (config_newest_declaration (K := Key) (F := EncodedKey) demo_config) as (s & Es & Hs).
  { assert (Forall delivery_ok (omap (λ o, match o with ConfigDeliver d => Some d | _ => None end) demo_config)) as Hd
      by (apply deliveries_checked; vm_compute; reflexivity).
    unfold demo_config in *. cbn [omap list_omap declare] in Hd. repeat (apply Forall_cons in Hd as [? Hd]). by repeat constructor. }
  exists s. split; [exact Es|]. split; [rewrite (proj1 (Hs "a"%string))|rewrite (proj1 (Hs "b"%string))]; vm_compute; reflexivity.
Defined.
