(* ===== verification/ViewsAgree.v ===== *)
(** * The usage view and the key directory agree

    Both are read models of one stream, under different identities: the usage view
    files a shared pool under the empty owner, the directory under a fleet-wide
    identity that remembers who reported it last. Everything but a shared pool in L1
    is treated alike, so the two views hold the same placements with the same sizes;
    a shared L1 pool is not, and fencing its last reporter tells them apart. *)

From S2P Require Import Prelude PyDict PyState PySet PyFloat BatchBlob ObjectKey EventGate CacheEvents CoordinatorKeys UsageManager.
From S2P Require Import BlendIndex KeyDirectory KeyDirectoryProofs.

Open Scope Z_scope.

Definition id_shared (id : identity) : bool := id.1.1.1.
Definition id_owner (id : identity) : string := id.1.1.2.
Definition id_tier (id : identity) : Tier := id.1.2.
Definition id_backend (id : identity) : string := id.2.

(** identities of placements that named servers report *)
Definition scoped (id : identity) : Prop := id_shared id = true ↔ id_owner id = ""%string.
(** not a shared pool in L1 *)
Definition settled (id : identity) : Prop := id_tier id = CacheEvents.L1 → id_shared id = false.

Section agree.
Context {K E F : Type} `{EqDecision K} `{KC : KeyCodec K E F} `{NP : UInt32Array}.
Implicit Types (v : view (K := K)) (m : fleet (K := K)) (k : K) (id : identity).

Definition pid_of k id : placement_id K := (id_tier id, k, id_owner id, id_backend id).

Lemma pid_of_inj k k' id id' : scoped id → scoped id' → pid_of k id = pid_of k' id' → k = k' ∧ id = id'.
Proof.
  destruct id as [[[s o] t] b], id' as [[[s' o'] t'] b']. unfold scoped, pid_of. cbn. intros Hs Hs' [= -> -> -> ->].
  split; [done|]. destruct s, s'; naive_solver.
Qed.

Record agree v m : Prop := {
  ag_label k id p : v k id = Some p → identity_of p = id ∧ scoped id;
  ag_owner k id p : v k id = Some p → id_shared id = false → pl_instance_id p = id_owner id;
  ag_size k id : scoped id → settled id → pl_size_bytes <$> v k id = m (pid_of k id) }.

Lemma batch_scoped (b : Batch E) : batch_ok b → scoped (batch_identity b).
Proof. intros Hb. unfold scoped, batch_identity. cbn. pose proof (bk_instance _ Hb). by destruct (bo_shared (b_body b)). Qed.

Lemma placement_of_identity (b : Batch E) k : placement_of b k = pid_of k (batch_identity b).
Proof. done. Qed.

Lemma agree_entry (b : Batch E) ke v m : batch_ok b → agree v m → agree (view_entry b v ke) (fleet_entry b m ke).
Proof.
  intros Hb Ha. pose proof Ha as [Hl Ho Hs]. pose proof (batch_scoped b Hb) as Hsc.
  assert (∀ x n, (∀ p, x = Some p → identity_of p = batch_identity b ∧ (bo_shared (b_body b) = false → pl_instance_id p = b_instance_id b)) →
    pl_size_bytes <$> x = n → agree (view_set v ke.1 (batch_identity b) x) (fleet_set m (placement_of b ke.1) n)) as Hset.
  { intros x n Hx Hn. constructor.
    - intros k id p. unfold view_set. case_decide as Hd; [destruct Hd as [-> ->]; intros Hp; by destruct (Hx p Hp)|apply Hl].
    - intros k id p. unfold view_set. case_decide as Hd; [|apply Ho]. destruct Hd as [-> ->]. intros Hp Hsh.
      destruct (Hx p Hp) as [_ Hi]. unfold id_shared, id_owner, batch_identity in *. cbn in Hsh |- *. rewrite Hsh. by apply Hi.
    - intros k id Hid Hst. unfold view_set, fleet_set. rewrite placement_of_identity.
      destruct (decide (k = ke.1 ∧ id = batch_identity b)) as [[-> ->]|Hne]; [by rewrite decide_True|].
      rewrite decide_False; [by apply Hs|]. intros Heq. by apply Hne, pid_of_inj. }
  unfold view_entry, fleet_entry. destruct (bo_event_type (b_body b)); [|by apply Hset|done|done].
  apply Hset; [|done]. intros p [= <-]. split; [apply identity_of_entry|done].
Qed.

Lemma agree_fence i v m : agree v m → agree (view_fence i v) (fleet_fence i m).
Proof.
  intros [Hl Ho Hs]. constructor.
  - intros k id p. unfold view_fence. destruct (v k id) as [q|] eqn:Ev; [|done]. destruct (is_l1_of i q); [done|]. intros [= <-]. by apply (Hl k).
  - intros k id p. unfold view_fence. destruct (v k id) as [q|] eqn:Ev; [|done]. destruct (is_l1_of i q); [done|]. intros [= <-]. by apply (Ho k).
  - intros k id Hid Hst. unfold view_fence, fleet_fence. specialize (Hs k id Hid Hst).
    unfold pid_tier, pid_owner, pid_of. cbn. fold (pid_of k id). destruct (v k id) as [q|] eqn:Ev; cbn in Hs; rewrite <- Hs; [|by destruct (_ && _)].
    destruct (Hl k id q Ev) as [Hq _]. specialize (Ho k id q Ev). unfold is_l1_of.
    assert (pl_tier q = id_tier id) as -> by (rewrite <- Hq; done).
    destruct (bool_decide (id_tier id = CacheEvents.L1)) eqn:Et; [|done]. apply bool_decide_eq_true in Et. cbn [andb].
    rewrite (Ho (Hst Et)). case_bool_decide as Hi; [|done]. cbn [andb]. rewrite (proj2 (is_empty_spec i)); [done|].
    rewrite <- Hi. intros E0. apply Hid in E0. rewrite (Hst Et) in E0. done.
Qed.

Lemma agree_deliver d v m : delivery_ok d → agree v m → agree (view_deliver v d) (fleet_deliver m d).
Proof.
  intros Hd Ha. destruct d as [b|i]; cbn; [|by apply agree_fence].
  revert v m Ha. induction (keyed_entries (bo_entries (b_body b))) as [|ke l IH]; intros v m Ha; [done|]. cbn [foldl]. apply IH. by apply agree_entry.
Qed.

Lemma agree_deliveries ds : Forall delivery_ok ds → agree (foldl view_deliver (λ _ _, None) ds) (foldl fleet_deliver (λ _, None) ds).
Proof.
  intros Hds. assert (agree (λ _ _, None) (λ _, None)) as H0 by (by constructor). revert H0.
  generalize ((λ _ _, None) : view (K := K)). generalize ((λ _, None) : fleet (K := K)).
  induction Hds as [|d ds Hd _ IH]; intros m v Ha; [done|]. cbn [foldl]. apply IH. by apply agree_deliver.
Qed.

(** ** Sums *)

Definition sizes_of (ps : list Placement) : Z := foldr (λ p n, pl_size_bytes p + n) 0 ps.

Lemma sum_of_filter {G} `{EqDecision G} (f : placement_id K → G) (d : list (placement_id K * Z)) g :
  sum_of f d g = sum_of f (filter (λ pn, f pn.1 = g) d) g.
Proof.
  induction d as [|[p n] d IH]; [done|]. rewrite filter_cons, sum_of_cons. cbn [fst]. case_decide; [|done]. rewrite sum_of_cons, decide_True by done. by rewrite IH.
Qed.

(** the L2 bytes of a key are the sizes of its L2 placements *)
Lemma key_bytes_placements (d : KeyDirectory K) (u : CacheUsageManager K) k :
  agree (view_of d) (dget (um_placement_sizes u)) → ids_ok (placements_of d k) → dwf (um_placement_sizes u) →
  sum_of key_id (um_placement_sizes u) (CacheEvents.L2, k) = sizes_of (filter (λ p, pl_tier p = CacheEvents.L2) (placements_of d k)).
Proof.
  intros [Hl Ho Hs] Hids Hw. rewrite sum_of_filter.
  set (ps := filter (λ p, pl_tier p = CacheEvents.L2) (placements_of d k)).
  assert (∀ p, p ∈ ps → pl_tier p = CacheEvents.L2 ∧ view_of d k (identity_of p) = Some p) as Hps.
  { intros p [Ht Hin]%list_elem_of_filter. split; [done|]. by apply placed_elem. }
  assert (filter (λ pn : placement_id K * Z, key_id pn.1 = (CacheEvents.L2, k)) (um_placement_sizes u)
    ≡ₚ (λ p, (pid_of k (identity_of p), pl_size_bytes p)) <$> ps) as ->%(sum_of_perm key_id _ _ (CacheEvents.L2, k)).
  { apply NoDup_Permutation.
    - apply NoDup_filter. by eapply NoDup_fmap_1.
    - apply NoDup_fmap_2_strong.
      + intros p q Hp Hq Heq. apply (f_equal fst) in Heq. cbn [fst] in Heq. destruct (Hps p Hp) as [_ Vp]. destruct (Hps q Hq) as [_ Vq].
        assert (identity_of p = identity_of q) as Hpq.
        { apply (pid_of_inj k k); [by apply (Hl _ _ _ Vp)|by apply (Hl _ _ _ Vq)|exact Heq]. }
        rewrite Hpq in Vp. congruence.
      + apply NoDup_filter. by eapply NoDup_fmap_1.
    - intros [[[[t k'] o] bk] n]. rewrite list_elem_of_filter, list_elem_of_fmap. unfold key_id, pid_tier, pid_key. cbn [fst snd].
      assert ((t, k', o, bk, n) ∈ um_placement_sizes u ↔ dget (um_placement_sizes u) (t, k', o, bk) = Some n) as Hd
        by (split; [by apply dget_wf_elem_of|apply dget_elem_of]).
      split.
      + intros [[= -> ->] Hn%Hd]. set (id := (if is_empty o then true else false, o, CacheEvents.L2, bk) : identity).
        assert (scoped id) as Hid by (unfold scoped, id, id_shared, id_owner; cbn; by destruct o).
        pose proof (Hs k id Hid ltac:(done)) as Hx. unfold pid_of in Hx. cbn in Hx. rewrite Hn in Hx.
        destruct (view_of d k id) as [p|] eqn:Ep; [|done]. injection Hx as <-. exists p. destruct (Hl _ _ _ Ep) as [Hpi _].
        split; [by rewrite Hpi|]. apply list_elem_of_filter. apply placed_Some in Ep as [Hin _]. split; [|done].
        change (pl_tier p) with (id_tier (identity_of p)). by rewrite Hpi.
      + intros (p & [= -> -> -> -> ->] & Hp). destruct (Hps p Hp) as [Ht Vp]. destruct (Hl _ _ _ Vp) as [_ Hsc].
        split; [unfold id_tier, identity_of; cbn; by rewrite Ht|]. apply Hd. pose proof (Hs k (identity_of p) Hsc) as Hx. rewrite Vp in Hx. symmetry. apply Hx.
        unfold settled. cbn. rewrite Ht. done. }
  clear -Hps. induction ps as [|p ps IH]; [done|]. rewrite fmap_cons, sum_of_cons. cbn [sizes_of foldr]. fold (sizes_of ps).
  rewrite decide_True by (unfold key_id; cbn; by rewrite (proj1 (Hps p ltac:(left)))). f_equal. apply IH. intros. apply Hps. by right.
Qed.

End agree.
