(* ===== verification/FleetEviction.v ===== *)
(** * The fleet's eviction controller

    [mp_coordinator/controllers/eviction_controller.py] with the fleet registry
    ([registry.py]) and the durable form of the isolated LRU order
    ([eviction_policy/isolated_lru.py]): per-salt eviction from L2, driven by the
    usage view and the quotas, with pins. The choice [random.choice] makes is an
    argument. The requests of a pass are values; the HTTP client is not modelled. *)

From S2P Require Import Prelude PyDict PyState PySet PyFloat ObjectKey EventGate CacheEvents CoordinatorKeys UsageManager.
From S2P Require Import L1Manager EvictionPolicy QuotaManager EvictionController.

Open Scope Z_scope.

(** ** Fleet membership *)

Record MPInstance := mkMPInstance {
  mp_instance_id : string;
  mp_ip : string;
  mp_http_port : Z;
  mp_registration_time : float;
  mp_last_heartbeat_time : float;
  mp_metadata : list (string * string);
  mp_p2p_advertised_url : string;
  mp_mq_port : Z }.

Definition InstanceRegistry := list (string * MPInstance).

Definition register (r : InstanceRegistry) (instance : MPInstance) : bool * InstanceRegistry :=
  (dmem r (mp_instance_id instance), dset r (mp_instance_id instance) instance).

Definition deregister (r : InstanceRegistry) (instance_id : string) : option MPInstance * InstanceRegistry :=
  (dget r instance_id, ddel r instance_id).

Definition get_instance (r : InstanceRegistry) (instance_id : string) : option MPInstance := dget r instance_id.
Definition contains (r : InstanceRegistry) (instance_id : string) : bool := dmem r instance_id.
Definition all_instances (r : InstanceRegistry) : list MPInstance := dvals r.

(** [choice]: the index [random.choice] draws *)
Definition random_instance (choice : nat) (r : InstanceRegistry) : option MPInstance :=
  match dvals r with
  | [] => None
  | instances => instances !! (choice mod length instances)%nat
  end.

Definition update_heartbeat (r : InstanceRegistry) (instance_id : string) (timestamp : float) : bool * InstanceRegistry :=
  match dget r instance_id with
  | None => (false, r)
  | Some i => (true, dset r instance_id
                 (mkMPInstance (mp_instance_id i) (mp_ip i) (mp_http_port i) (mp_registration_time i) timestamp
                    (mp_metadata i) (mp_p2p_advertised_url i) (mp_mq_port i)))
  end.

(** [now - t > timeout], with the float subtraction of [SpecFloat] *)
Definition expired (now timeout t : float) : bool := fltb timeout (SpecFloat.SFsub prec emax now t).

Definition stale (r : InstanceRegistry) (now timeout : float) : list string :=
  omap (λ ii : string * MPInstance, if expired now timeout (mp_last_heartbeat_time ii.2) then Some ii.1 else None) r.

(** [app.evict_stale] *)
Definition evict_stale (r : InstanceRegistry) (now timeout : float) : list string * InstanceRegistry :=
  foldl (λ er i, let '(evicted, r) := er in
                 match deregister r i with
                 | (Some _, r) => (evicted ++ [i], r)
                 | (None, r) => (evicted, r)
                 end) ([], r) (stale r now timeout).

Definition MAX_DELETE_BATCH : Z := 10000.

Section controller.
Context {K E F : Type} `{EqDecision K} `{KC : KeyCodec K E F}.

(** ** The durable order of the policy *)

Definition iso_capture (p : IsolatedLRUEvictionPolicy K) : list (string * list F) :=
  (λ so : string * list (K * unit), (so.1, encode_key <$> dkeys so.2)) <$> iso_per_salt_order p.

Definition restore_order (ordered : list F) : result (list (K * unit)) :=
  (ks <-? map_ok decode_key ordered; Ok (dupdate [] ((λ k, (k, tt)) <$> ks)))%py.

Definition iso_restore (buckets : list (string * list F)) (p : IsolatedLRUEvictionPolicy K)
  : result (IsolatedLRUEvictionPolicy K) :=
  (orders <-? map_ok (λ so : string * list F, (o <-? restore_order so.2; Ok (so.1, o))%py) buckets;
   Ok (iso_with_orders p (dupdate [] orders)))%py.

(** ** The controller *)

Record FleetEvictionController := mkFleetEviction {
  fe_quota_manager : QuotaManager;
  fe_eviction_ratio : float;
  fe_trigger_watermark : float;
  fe_policy : IsolatedLRUEvictionPolicy K;
  fe_pin_counts : list (K * Z) }.

Definition fe_init (eviction_ratio trigger_watermark : float) : FleetEvictionController :=
  mkFleetEviction qm_init (clamp01 eviction_ratio) trigger_watermark (mkIsolated [] [] DISCARD) [].

Definition with_policy (c : FleetEvictionController) x :=
  mkFleetEviction (fe_quota_manager c) (fe_eviction_ratio c) (fe_trigger_watermark c) x (fe_pin_counts c).
Definition with_pins (c : FleetEvictionController) x :=
  mkFleetEviction (fe_quota_manager c) (fe_eviction_ratio c) (fe_trigger_watermark c) (fe_policy c) x.
Definition with_quota (c : FleetEvictionController) x :=
  mkFleetEviction x (fe_eviction_ratio c) (fe_trigger_watermark c) (fe_policy c) (fe_pin_counts c).

Definition on_store (key : K) (c : FleetEvictionController) :=
  with_policy c (iso_on_keys_created key_cache_salt (fe_policy c) [key]).
Definition on_lookup (key : K) (c : FleetEvictionController) :=
  with_policy c (iso_on_keys_touched key_cache_salt (fe_policy c) [key]).
Definition on_remove (key : K) (c : FleetEvictionController) :=
  with_policy c (iso_on_keys_removed key_cache_salt (fe_policy c) [key]).

(** [u] is the usage view, which has consumed the batch *)
Definition fe_apply_entry (u : CacheUsageManager K) (b : Batch E) (key : K) (entry : CacheEventEntry E)
    (c : FleetEvictionController) : FleetEvictionController :=
  match bo_event_type (b_body b) with
  | STORE => on_store key c
  | ACCESS => on_lookup key c
  | DELETE => if get_key_bytes u CacheEvents.L2 key =? 0 then on_remove key c else c
  | CONFIG => c
  end.

Definition fe_consume (u : CacheUsageManager K) (b : Batch E) : py_state FleetEvictionController unit :=
  if negb (bool_decide (bo_tier (b_body b) = CacheEvents.L2)) then mret tt
  else for_entries (fe_apply_entry u b) (bo_entries (b_body b)).

Definition fe_fence_instance (instance_id : string) (c : FleetEvictionController) : FleetEvictionController := c.

Definition fe_deliver (u : CacheUsageManager K) (d : delivery string (batch_body E)) : py_state FleetEvictionController unit :=
  match d with
  | Consume b => fe_consume u b
  | FenceInstance i => modify (fe_fence_instance i)
  end.

(** ** Pins *)

Definition pin_key (pins : list (K * Z)) (key : K) : list (K * Z) := dset pins key (default 0 (dget pins key) + 1).
Definition unpin_key (pins : list (K * Z)) (key : K) : list (K * Z) :=
  let count := default 0 (dget pins key) in
  if count <=? 1 then ddel pins key else dset pins key (count - 1).

Definition pin (keys : list K) (c : FleetEvictionController) := with_pins c (foldl pin_key (fe_pin_counts c) keys).
Definition unpin (keys : list K) (c : FleetEvictionController) := with_pins c (foldl unpin_key (fe_pin_counts c) keys).
Definition filter_unpinned (c : FleetEvictionController) (keys : list K) : list K :=
  List.filter (λ key, negb (dmem (fe_pin_counts c) key)) keys.
Definition drop_pins (keys : list K) (c : FleetEvictionController) := with_pins c (foldl ddel (fe_pin_counts c) keys).

Definition pins_capture (c : FleetEvictionController) : list (E * Z) :=
  (λ kn : K * Z, (to_encoded_object_key kn.1, kn.2)) <$> fe_pin_counts c.

Definition _decode_pin (entry : E * Z) : result (K * Z) := (k <-? to_object_key entry.1; Ok (k, entry.2))%py.

Definition pins_restore (entries : list (E * Z)) (c : FleetEvictionController) : result FleetEvictionController :=
  (restored <-? map_ok _decode_pin entries;
   Ok (with_pins c (dupdate [] (List.filter (λ kn, 0 <? kn.2) restored))))%py.

(** ** The plan *)

(** [float(n)], as [float * int] converts it *)
Definition py_float (n : Z) : result float :=
  match float_of_int n with SpecFloat.S754_infinity _ => Raise OverflowError | x => Ok x end.

(** the keys of one salt the plan evicts *)
Definition salt_victims (u : CacheUsageManager K) (c : FleetEvictionController) (cache_salt : string) : result (list K) :=
  let current_bytes := get_salt_bytes u CacheEvents.L2 cache_salt in
  if current_bytes <=? 0 then Ok []
  else match effective_limit_bytes (fe_quota_manager c) cache_salt with
  | None => Ok []
  | Some limit =>
      (l <-? py_float limit;
       if int_ltb_float current_bytes (fmul (fe_trigger_watermark c) l) then Ok []
       else
         let effective_ratio := if limit =? 0 then float_1 else fe_eviction_ratio c in
         (actions <-? iso_get_eviction_actions (fe_policy c) effective_ratio
                        (Some (λ key, negb (dmem (fe_pin_counts c) key))) (Some cache_salt);
          Ok (concat (ea_keys <$> actions))))%py
  end.

Fixpoint plan_salts (u : CacheUsageManager K) (c : FleetEvictionController) (salts : list string)
    (eviction_plan : list (string * list K)) : result (list (string * list K)) :=
  match salts with
  | [] => Ok eviction_plan
  | cache_salt :: salts =>
      (keys_to_evict <-? salt_victims u c cache_salt;
       plan_salts u c salts (if nonempty keys_to_evict then dset eviction_plan cache_salt keys_to_evict else eviction_plan))%py
  end.

Definition compute_eviction_plan (u : CacheUsageManager K) (c : FleetEvictionController)
  : result (list (string * list K)) :=
  plan_salts u c (iso_get_tracked_salts (fe_policy c)) [].

(** ** Dispatch *)

(** one [DELETE /cache/objects] *)
Record dispatch := mkDispatch { di_target : MPInstance; di_keys : list E }.

(** [range(0, len(l), n)] and the slices it cuts *)
Fixpoint slices {A} (fuel : nat) (n : nat) (l : list A) : list (list A) :=
  match fuel, l with
  | S fuel, _ :: _ => take n l :: slices fuel n (drop n l)
  | _, _ => []
  end.

Definition execute_evictions (choice : nat) (registry : InstanceRegistry) (u : CacheUsageManager K)
    (c : FleetEvictionController) : result (list (string * list K) * list dispatch) :=
  (plan <-? compute_eviction_plan u c;
   match plan with
   | [] => Ok (plan, [])
   | _ => match random_instance choice registry with
          | None => Ok (plan, [])
          | Some target =>
              let all_keys := concat (dvals plan) in
              Ok (plan, (λ chunk, mkDispatch target (to_encoded_object_key <$> chunk))
                          <$> slices (length all_keys) (Z.to_nat MAX_DELETE_BATCH) all_keys)
          end
   end)%py.

End controller.
Arguments FleetEvictionController K : clear implicits.
Arguments dispatch E : clear implicits.
