(* ===== verification/FleetEvictionProofs.v ===== *)
(** * The fleet's eviction controller: invariant and plan

    The controller tracks every key that holds bytes in L2, because the usage view
    has consumed each batch before it; so a tenant over its quota always has
    something to evict. *)

From S2P Require Import Prelude PyDict PyState PySet PyFloat ObjectKey EventGate CacheEvents CoordinatorKeys UsageManager.
From S2P Require Import L1Manager EvictionPolicy QuotaManager EvictionController FleetEviction.

Open Scope Z_scope.

Section proofs.
Context {K E F : Type} `{EqDecision K} `{KC : KeyCodec K E F}.
Implicit Types (u : CacheUsageManager K) (c : FleetEvictionController K) (k key : K) (b : Batch E).

(** ** Bytes of a key in L2 *)

Definition l2_bytes u k : Z := sum_of key_id (um_placement_sizes u) (CacheEvents.L2, k).

Lemma l2_bytes_read u k : tallies u → get_key_bytes u CacheEvents.L2 k = l2_bytes u k.
Proof. intros Ht. apply (re_key _ (tallies_reads u Ht)). Qed.

Lemma entry_bytes b ke u k : tallies u →
  l2_bytes (um_apply_entry b ke.1 ke.2 u) k =
  l2_bytes u k +
  if decide (bo_tier (b_body b) = CacheEvents.L2 ∧ ke.1 = k) then
    match bo_event_type (b_body b) with
    | STORE => en_size_bytes ke.2 - value_of (um_placement_sizes u) (placement_of b ke.1)
    | DELETE => - value_of (um_placement_sizes u) (placement_of b ke.1)
    | _ => 0
    end
  else 0.
Proof.
  intros Ht. unfold l2_bytes, um_apply_entry.
  assert (key_id (placement_of b ke.1) = (CacheEvents.L2, k) ↔ bo_tier (b_body b) = CacheEvents.L2 ∧ ke.1 = k) as Hid
    by (unfold key_id, placement_of; cbn; split; [by intros [= -> ->]|by intros [-> ->]]).
  destruct (bo_event_type (b_body b)).
  - rewrite track_sizes, sum_of_dset. destruct (decide (key_id _ = _)), (decide (_ ∧ _)); (lia || tauto).
  - rewrite remove_sizes, sum_of_ddel by apply Ht. destruct (decide (key_id _ = _)), (decide (_ ∧ _)); (lia || tauto).
  - case_decide; lia.
  - case_decide; lia.
Qed.

(** a batch changes the L2 bytes of the keys it mentions only *)
Definition mentions b k : Prop := bo_tier (b_body b) = CacheEvents.L2 ∧ k ∈ (keyed_entries (bo_entries (b_body b))).*1.

Lemma value_nonneg u p : tallies u → 0 <= value_of (um_placement_sizes u) p.
Proof.
  intros Ht. unfold value_of. destruct (dget _ p) as [n|] eqn:En; cbn; [|lia].
  pose proof (ta_sizes _ Ht) as Hs. rewrite Forall_forall in Hs. by apply (Hs (p, n)), dget_elem_of.
Qed.

Lemma entries_bytes b l : ∀ u, usage_ok u → Forall (λ ke, 0 <= en_size_bytes ke.2) l →
  let u' := foldl (λ u ke, um_apply_entry b ke.1 ke.2 u) u l in
  (∀ k, ¬ (bo_tier (b_body b) = CacheEvents.L2 ∧ k ∈ l.*1) → l2_bytes u' k = l2_bytes u k) ∧
  (bo_event_type (b_body b) ≠ STORE → ∀ k, l2_bytes u' k <= l2_bytes u k).
Proof.
  induction l as [|ke l IH]; intros u Hu Hl; [done|]. apply Forall_cons in Hl as [Hs Hl]. cbn [foldl].
  destruct (apply_entry_ok b ke u Hu Hs) as [Hu1 _]. destruct (IH _ Hu1 Hl) as [IH1 IH2].
  pose proof (uo_tallies _ Hu) as Ht. split.
  - intros k Hk. rewrite fmap_cons, elem_of_cons in Hk. rewrite IH1 by naive_solver. rewrite entry_bytes by done.
    rewrite decide_False by naive_solver. lia.
  - intros Hne k. specialize (IH2 Hne k). rewrite entry_bytes in IH2 by done.
    pose proof (value_nonneg u (placement_of b ke.1) Ht). destruct (bo_event_type (b_body b)); case_decide; try done; lia.
Qed.

Lemma fence_bytes i u k : usage_ok u → l2_bytes (um_fence_instance i u) k = l2_bytes u k.
Proof.
  intros Hu. unfold um_fence_instance.
  assert (∀ owned u, Forall (λ p, pid_tier p = CacheEvents.L1) owned → tallies u →
    l2_bytes (foldl _remove u owned) k = l2_bytes u k) as Hr.
  { induction owned as [|p owned IH]; intros v Ho Hv; [done|]. apply Forall_cons in Ho as [Hp Ho]. cbn [foldl].
    rewrite IH; [|done|by apply remove_tallies]. unfold l2_bytes. rewrite remove_sizes, sum_of_ddel by apply Hv.
    rewrite decide_False; [lia|]. unfold key_id. rewrite Hp. congruence. }
  rewrite Hr; [done| |].
  - apply Forall_forall. intros p Hp. apply (uo_l1 _ Hu) in Hp as [_ [HL _]]. done.
  - destruct (uo_tallies _ Hu). by constructor.
Qed.

Lemma deliver_bytes d u u' k : usage_ok u → delivery_ok d → um_deliver d u = (Ok tt, u') →
  (match d with Consume b => ¬ mentions b k | FenceInstance _ => True end → l2_bytes u' k = l2_bytes u k) ∧
  (match d with Consume b => bo_event_type (b_body b) ≠ STORE | FenceInstance _ => True end → l2_bytes u' k <= l2_bytes u k).
Proof.
  intros Hu Hd. destruct d as [b|i]; cbn [um_deliver].
  - unfold um_consume. case_bool_decide as Ha; [intros [= <-]; split; intros; done|].
    rewrite for_entries_ok by done. intros [= <-].
    destruct (entries_bytes b (keyed_entries (bo_entries (b_body b))) u Hu) as [H1 H2]; [by apply keyed_entries_sizes|]. split; auto.
  - intros [= <-]. rewrite fence_bytes by done. split; intros; [done|lia].
Qed.

(** ** The policy's buckets *)

Definition order_of c (salt : string) : list (K * unit) := EvictionPolicy.bucket (iso_per_salt_order (fe_policy c)) salt.
Definition is_tracked c k : Prop := k ∈ dkeys (order_of c (key_cache_salt k)).

Record policy_ok (p : IsolatedLRUEvictionPolicy K) : Prop := {
  po_wf : dwf (iso_per_salt_order p);
  po_orders : ∀ salt o, dget (iso_per_salt_order p) salt = Some o → o ≠ [] ∧ dwf o;
  po_salts : buckets_ok key_cache_salt p }.

Lemma touch_or_add_ok (o : list (K * unit)) key : dwf o →
  dwf (touch_or_add o key) ∧ touch_or_add o key ≠ [] ∧ ∀ k, k ∈ dkeys (touch_or_add o key) ↔ k ∈ dkeys o ∨ k = key.
Proof.
  intros Ho. unfold touch_or_add. assert (∀ (o' : list (K * unit)), key ∈ dkeys o' → o' ≠ []) as Hne.
  { intros [|] Hk; [by apply not_elem_of_nil in Hk|done]. }
  destruct (dmem o key) eqn:Em.
  - assert (key ∈ dkeys o) as Hin by (by apply dmem_dkeys).
    assert (∀ k, k ∈ dkeys (move_to_end o key) ↔ k ∈ dkeys o ∨ k = key) as Hk.
    { intros k. rewrite dkeys_move_to_end by done. rewrite elem_of_app, list_elem_of_filter, list_elem_of_singleton.
      destruct (decide (k = key)); naive_solver. }
    split_and!; [by apply move_to_end_wf| |done]. apply Hne, Hk. by right.
  - assert (∀ k, k ∈ dkeys (dset o key tt) ↔ k ∈ dkeys o ∨ k = key) as Hk.
    { intros k. rewrite !elem_of_dkeys, dget_dset. case_decide; naive_solver. }
    split_and!; [by apply dset_wf| |done]. apply Hne, Hk. by right.
Qed.

Lemma touch_ok (o : list (K * unit)) key : dwf o →
  dwf (touch o key) ∧ (o ≠ [] → touch o key ≠ []) ∧ ∀ k, k ∈ dkeys (touch o key) ↔ k ∈ dkeys o.
Proof.
  intros Ho. unfold touch. destruct (dmem o key) eqn:Em; [|done]. assert (key ∈ dkeys o) as Hin by (by apply dmem_dkeys).
  destruct (touch_or_add_ok o key Ho) as (H1 & H2 & H3). unfold touch_or_add in *. rewrite Em in *.
  split_and!; [done|done|]. intros k. rewrite H3. naive_solver.
Qed.

(** one event of the policy, seen in the buckets *)
Lemma policy_update p (d' : list (string * list (K * unit))) key :
  policy_ok p → dwf d' →
  (∀ salt, salt ≠ key_cache_salt key → dget d' salt = dget (iso_per_salt_order p) salt) →
  (∀ o, dget d' (key_cache_salt key) = Some o → o ≠ [] ∧ dwf o ∧
     ∀ k, k ∈ dkeys o → k = key ∨ k ∈ dkeys (EvictionPolicy.bucket (iso_per_salt_order p) (key_cache_salt key))) →
  policy_ok (iso_with_orders p d').
Proof.
  intros [Hw Ho Hb] Hw' Hother Hkey. constructor; cbn; [done| |].
  - intros salt o. destruct (decide (salt = key_cache_salt key)) as [->|Hne]; [intros Hd; destruct (Hkey o Hd) as (? & ? & _); done|].
    rewrite Hother by done. apply Ho.
  - intros salt k. unfold EvictionPolicy.bucket. cbn. destruct (decide (salt = key_cache_salt key)) as [->|Hne].
    + destruct (dget d' (key_cache_salt key)) as [o|] eqn:Ed; [|intros Hk; by apply not_elem_of_nil in Hk].
      intros Hk. destruct (Hkey o eq_refl) as (_ & _ & Hin). destruct (Hin k Hk) as [->|Hin']; [done|]. by apply Hb.
    + rewrite Hother by done. apply Hb.
Qed.

Lemma created_ok p key : policy_ok p → policy_ok (iso_on_keys_created key_cache_salt p [key]).
Proof.
  intros Hp. pose proof Hp as [Hw Ho Hb]. unfold iso_on_keys_created. cbn [rev app fold_left]. unfold iso_create_key.
  assert (dwf (match dget (iso_per_salt_order p) (key_cache_salt key) with Some o => o | None => [] end)) as Hw0.
  { destruct (dget _ _) eqn:Ed; [by apply (Ho _ _ Ed)|constructor]. }
  destruct (touch_or_add_ok _ key Hw0) as (H1 & H2 & H3).
  apply (policy_update p _ key); [done|by apply dset_wf| |].
  - intros salt Hne. by rewrite dget_dset_ne by congruence.
  - intros o. rewrite dget_dset_eq. intros [= <-]. split_and!; [done|done|]. intros k Hk%H3. unfold EvictionPolicy.bucket. naive_solver.
Qed.

Lemma touched_ok p key : policy_ok p → policy_ok (iso_on_keys_touched key_cache_salt p [key]).
Proof.
  intros Hp. pose proof Hp as [Hw Ho Hb]. unfold iso_on_keys_touched. cbn [rev app fold_left]. unfold iso_touch_key.
  destruct (dget (iso_per_salt_order p) (key_cache_salt key)) as [o|] eqn:Ed; [|by destruct p].
  destruct (Ho _ _ Ed) as [Hne Hwo]. destruct (touch_ok o key Hwo) as (H1 & H2 & H3).
  apply (policy_update p _ key); [done|by apply dset_wf| |].
  - intros salt Hs. by rewrite dget_dset_ne by congruence.
  - intros o'. rewrite dget_dset_eq. intros [= <-]. split_and!; [auto|done|]. intros k Hk%H3. unfold EvictionPolicy.bucket. rewrite Ed. auto.
Qed.

Lemma removed_ok p key : policy_ok p → policy_ok (iso_on_keys_removed key_cache_salt p [key]).
Proof.
  intros Hp. pose proof Hp as [Hw Ho Hb]. unfold iso_on_keys_removed. cbn [fold_left]. unfold iso_remove_key.
  destruct (dget (iso_per_salt_order p) (key_cache_salt key)) as [o|] eqn:Ed; [|by destruct p].
  destruct (Ho _ _ Ed) as [Hne Hwo]. destruct (ddel o key) as [|x o'] eqn:Eo.
  - apply (policy_update p _ key); [done|by apply ddel_wf| |].
    + intros salt Hs. by rewrite dget_ddel_ne by congruence.
    + intros o'. by rewrite dget_ddel_eq.
  - rewrite <- Eo. apply (policy_update p _ key); [done|by apply dset_wf| |].
    + intros salt Hs. by rewrite dget_dset_ne by congruence.
    + intros o2. rewrite dget_dset_eq. intros [= <-]. split_and!; [by rewrite Eo|by apply ddel_wf|].
      intros k. rewrite dkeys_ddel, list_elem_of_filter. unfold EvictionPolicy.bucket. rewrite Ed. naive_solver.
Qed.

(** ** What one entry does to the controller *)

Lemma tracked_store c key k : policy_ok (fe_policy c) → is_tracked (on_store key c) k ↔ is_tracked c k ∨ k = key.
Proof.
  intros [Hw Ho Hb]. unfold is_tracked, order_of. cbn. rewrite bucket_create. case_decide as Hs; [|naive_solver].
  apply touch_or_add_ok. unfold EvictionPolicy.bucket. destruct (dget _ _) eqn:Ed; [by apply (Ho _ _ Ed)|constructor].
Qed.
Lemma tracked_lookup c key k : policy_ok (fe_policy c) → is_tracked (on_lookup key c) k ↔ is_tracked c k.
Proof.
  intros [Hw Ho Hb]. unfold is_tracked, order_of. cbn. rewrite bucket_touch. case_decide as Hs; [|naive_solver].
  apply touch_ok. unfold EvictionPolicy.bucket. destruct (dget _ _) eqn:Ed; [by apply (Ho _ _ Ed)|constructor].
Qed.
Lemma tracked_remove c key k : is_tracked (on_remove key c) k ↔ is_tracked c k ∧ k ≠ key.
Proof.
  unfold is_tracked, order_of. cbn. rewrite bucket_remove. case_decide as Hs; [|naive_solver].
  rewrite remove_ddel, dkeys_ddel, list_elem_of_filter. naive_solver.
Qed.

Lemma entry_policy u b key entry c : policy_ok (fe_policy c) → policy_ok (fe_policy (fe_apply_entry u b key entry c)).
Proof.
  intros Hc. unfold fe_apply_entry. destruct (bo_event_type (b_body b)); try done; [by apply created_ok| |by apply touched_ok].
  destruct (_ =? _); [by apply removed_ok|done].
Qed.

Lemma entry_tracked u b key entry c k : policy_ok (fe_policy c) →
  is_tracked (fe_apply_entry u b key entry c) k ↔
  match bo_event_type (b_body b) with
  | STORE => is_tracked c k ∨ k = key
  | DELETE => is_tracked c k ∧ ¬ (k = key ∧ get_key_bytes u CacheEvents.L2 k = 0)
  | _ => is_tracked c k
  end.
Proof.
  intros Hc. unfold fe_apply_entry. destruct (bo_event_type (b_body b)); [by apply tracked_store| |by apply tracked_lookup|done].
  destruct (Z.eqb_spec (get_key_bytes u CacheEvents.L2 key) 0) as [E0|E0]; [rewrite tracked_remove|]; naive_solver.
Qed.

Lemma entries_tracked u b l : ∀ c, policy_ok (fe_policy c) →
  let c' := foldl (λ c ke, fe_apply_entry u b ke.1 ke.2 c) c l in
  policy_ok (fe_policy c') ∧ fe_quota_manager c' = fe_quota_manager c ∧ fe_eviction_ratio c' = fe_eviction_ratio c ∧
  fe_trigger_watermark c' = fe_trigger_watermark c ∧ fe_pin_counts c' = fe_pin_counts c ∧
  ∀ k, is_tracked c' k ↔
    match bo_event_type (b_body b) with
    | STORE => is_tracked c k ∨ k ∈ l.*1
    | DELETE => is_tracked c k ∧ ¬ (k ∈ l.*1 ∧ get_key_bytes u CacheEvents.L2 k = 0)
    | _ => is_tracked c k
    end.
Proof.
  induction l as [|ke l IH]; intros c Hc.
  { split_and!; try done. intros k. cbn [fmap list_fmap foldl]. pose proof (not_elem_of_nil k). destruct (bo_event_type (b_body b)); naive_solver. }
  cbn [foldl]. set (c1 := fe_apply_entry u b ke.1 ke.2 c).
  assert (fe_quota_manager c1 = fe_quota_manager c ∧ fe_eviction_ratio c1 = fe_eviction_ratio c ∧
    fe_trigger_watermark c1 = fe_trigger_watermark c ∧ fe_pin_counts c1 = fe_pin_counts c) as (E1 & E2 & E3 & E4).
  { unfold c1, fe_apply_entry. destruct (bo_event_type (b_body b)); try done. by destruct (_ =? _). }
  destruct (IH c1) as (Hp & F1 & F2 & F3 & F4 & Ht); [by apply entry_policy|].
  split_and!; [done|congruence..|]. intros k. rewrite Ht. pose proof (elem_of_cons l.*1 k ke.1) as Hcons. rewrite fmap_cons.
  pose proof (entry_tracked u b ke.1 ke.2 c k Hc) as H1. fold c1 in H1.
  destruct (bo_event_type (b_body b)); rewrite H1; naive_solver.
Qed.

(** ** The invariant *)

Record fleet_ok u c : Prop := {
  fl_usage : usage_ok u;
  fl_policy : policy_ok (fe_policy c);
  fl_tracked : ∀ k, 0 < l2_bytes u k → is_tracked c k;
  fl_pins : dwf (fe_pin_counts c) ∧ Forall (λ kn, 0 < kn.2) (fe_pin_counts c) }.

(** what a delivery does to the set of tracked keys, given the bytes after it *)
Definition tracked_after u' (d : delivery string (batch_body E)) (P : K → Prop) (k : K) : Prop :=
  match d with
  | FenceInstance _ => P k
  | Consume b =>
      match bo_event_type (b_body b) with
      | STORE => P k ∨ mentions b k
      | DELETE => P k ∧ ¬ (mentions b k ∧ l2_bytes u' k = 0)
      | _ => P k
      end
  end.

Definition same_settings c c' : Prop :=
  fe_quota_manager c' = fe_quota_manager c ∧ fe_eviction_ratio c' = fe_eviction_ratio c ∧
  fe_trigger_watermark c' = fe_trigger_watermark c ∧ fe_pin_counts c' = fe_pin_counts c.

Lemma deliver_controller d u' c : tallies u' → policy_ok (fe_policy c) → delivery_ok d →
  ∃ c', fe_deliver u' d c = (Ok tt, c') ∧ policy_ok (fe_policy c') ∧ same_settings c c' ∧
    ∀ k, is_tracked c' k ↔ tracked_after u' d (is_tracked c) k.
Proof.
  intros Ht Hc Hd. destruct d as [b|i]; cbn [fe_deliver tracked_after]; [|by exists c].
  unfold fe_consume, mentions. case_bool_decide as Hl2; cbn [negb].
  - rewrite for_entries_ok by done. eexists. split; [done|].
    destruct (entries_tracked u' b (keyed_entries (bo_entries (b_body b))) c Hc) as (Hp & E1 & E2 & E3 & E4 & Htr).
    split_and!; [done|done|]. intros k. rewrite Htr. destruct (bo_event_type (b_body b)); try done; rewrite ?l2_bytes_read by done; naive_solver.
  - exists c. split_and!; [done..|]. intros k. destruct (bo_event_type (b_body b)); naive_solver.
Qed.

Lemma deliver_fleet d u u' c : fleet_ok u c → delivery_ok d → um_deliver d u = (Ok tt, u') → usage_ok u' →
  ∃ c', fe_deliver u' d c = (Ok tt, c') ∧ fleet_ok u' c' ∧ same_settings c c' ∧
    ∀ k, is_tracked c' k ↔ tracked_after u' d (is_tracked c) k.
Proof.
  intros [Hu Hp Ht Hpins] Hd Eu Hu'. destruct (deliver_controller d u' c (uo_tallies _ Hu') Hp Hd) as (c' & Ec & Hp' & Hs & Ht').
  exists c'. split_and!; [done| |done|done]. pose proof Hs as (_ & _ & _ & Epins). constructor; [done|done| |by rewrite Epins].
  intros k Hk. apply Ht'. destruct (deliver_bytes d u u' k Hu Hd Eu) as [Hsame Hless]. unfold tracked_after.
  destruct d as [b|i]; [|apply Ht; by rewrite <- Hsame].
  destruct (bo_event_type (b_body b)).
  - destruct (decide (bo_tier (b_body b) = CacheEvents.L2 ∧ k ∈ (keyed_entries (bo_entries (b_body b))).*1)) as [Hm|Hm]; [by right|].
    left. apply Ht. by rewrite <- Hsame.
  - split; [apply Ht; specialize (Hless ltac:(done)); lia|]. intros [_ H0]. lia.
  - apply Ht. specialize (Hless ltac:(done)). lia.
  - apply Ht. specialize (Hless ltac:(done)). lia.
Qed.

(** ** The plan *)

Lemma target_count_ok len r : SpecFloat.valid_binary prec emax r = true → Z.of_nat len < 2 ^ 53 →
  ∃ n, target_count len r = Ok n ∧ 0 <= n ∧ (fltb float_0 (clamp01 r) = true → (0 < len)%nat → 1 <= n).
Proof.
  intros Hr Hl. destruct (scaled_count_ok len r Hr Hl) as (z & Ez & Hz). unfold target_count. rewrite Ez. cbn [rbind].
  destruct (fltb float_0 (clamp01 r)); cbn [andb]; [|by exists z]. destruct (Z.eqb_spec z 0), (Z.ltb_spec 0 (Z.of_nat len)); cbn [andb];
    eexists; (split; [done|]); lia.
Qed.

Lemma target_count_all len : Z.of_nat len < 2 ^ 53 → target_count len float_1 = Ok (Z.of_nat len).
Proof.
  intros Hl. unfold target_count. change (clamp01 float_1) with float_1. change (fltb float_0 float_1) with true.
  destruct len as [|len]; [done|]. change (Z.of_nat (S len)) with (Zpos (Pos.of_succ_nat len)) in *.
  rewrite scaled_by_one by done. done.
Qed.

(** the keys of a bucket a ratio selects *)
Lemma actions_keys (pool : list K) dst dsts r f n : target_count (length pool) r = Ok n → 0 <= n →
  ∃ actions, eviction_actions pool dst dsts r f = Ok actions ∧
    concat (ea_keys <$> actions) = take (Z.to_nat n) (eligible_keys f pool).
Proof.
  intros Hn Hpos. unfold eviction_actions. destruct pool as [|k0 ks] eqn:Ep.
  { exists []. split; [done|]. destruct f; cbn [eligible_keys List.filter]; by rewrite take_nil. }
  rewrite <- Ep in *. rewrite Hn. cbn [rbind]. destruct (Z.eqb_spec n 0) as [->|Hne]; [by exists []|].
  rewrite select_keys_take by (cbn; lia). cbn [length app]. rewrite Nat.sub_0_r.
  destruct (take (Z.to_nat n) (eligible_keys f pool)) eqn:Et; [by exists []|]. eexists. split; [done|]. cbn. by rewrite app_nil_r.
Qed.

(** sizes that floats count exactly enough, as every deployment has them *)
Record settings_ok c : Prop := {
  so_ratio : SpecFloat.valid_binary prec emax (fe_eviction_ratio c) = true;
  so_limits salt limit : effective_limit_bytes (fe_quota_manager c) salt = Some limit → 0 <= limit < 2 ^ 512;
  so_orders salt : Z.of_nat (length (order_of c salt)) < 2 ^ 53 }.

(** the limit that salt has reached *)
Definition reached_limit u c (salt : string) : option Z :=
  let current_bytes := get_salt_bytes u CacheEvents.L2 salt in
  if current_bytes <=? 0 then None
  else match effective_limit_bytes (fe_quota_manager c) salt with
  | None => None
  | Some limit => if int_ltb_float current_bytes (fmul (fe_trigger_watermark c) (float_of_int limit)) then None else Some limit
  end.

(** the unpinned keys of a salt, from the least to the most recently used *)
Definition evictable c (salt : string) : list K :=
  List.filter (λ key, negb (dmem (fe_pin_counts c) key)) (dkeys (order_of c salt)).

Definition salt_ratio c (limit : Z) : float := if limit =? 0 then float_1 else fe_eviction_ratio c.

Lemma py_float_ok limit : 0 <= limit < 2 ^ 512 → py_float limit = Ok (float_of_int limit).
Proof. intros Hl. unfold py_float. by destruct (float_of_int_bound limit Hl) as [->|(m & e & -> & _)]. Qed.

Lemma salt_victims_spec u c salt : settings_ok c →
  match reached_limit u c salt with
  | None => salt_victims u c salt = Ok []
  | Some limit => ∃ n, salt_victims u c salt = Ok (take (Z.to_nat n) (evictable c salt)) ∧ 0 <= n ∧
      (limit = 0 → n = Z.of_nat (length (order_of c salt))) ∧
      (fltb float_0 (fe_eviction_ratio c) = true → order_of c salt ≠ [] → 1 <= n)
  end.
Proof.
  intros [Hr Hl Ho]. unfold reached_limit, salt_victims. cbv zeta. destruct (_ <=? 0); [done|].
  destruct (effective_limit_bytes _ salt) as [limit|] eqn:El; [|done]. rewrite py_float_ok by (by eapply Hl). cbn [rbind].
  destruct (int_ltb_float _ _); [done|]. specialize (Ho salt).
  assert (iso_get_eviction_actions (fe_policy c) (salt_ratio c limit) (Some (λ key, negb (dmem (fe_pin_counts c) key))) (Some salt)
    = eviction_actions (dkeys (order_of c salt)) (iso_default_destination (fe_policy c)) (iso_destinations (fe_policy c)) (salt_ratio c limit)
        (Some (λ key, negb (dmem (fe_pin_counts c) key)))) as Ea.
  { unfold iso_get_eviction_actions, order_of, EvictionPolicy.bucket. by destruct (dget _ _). }
  fold (salt_ratio c limit). rewrite Ea.
  assert (∃ n, target_count (length (dkeys (order_of c salt))) (salt_ratio c limit) = Ok n ∧ 0 <= n ∧
    (limit = 0 → n = Z.of_nat (length (order_of c salt))) ∧
    (fltb float_0 (fe_eviction_ratio c) = true → order_of c salt ≠ [] → 1 <= n)) as (n & En & Hn & H0 & H1).
  { unfold dkeys. rewrite length_fmap. unfold salt_ratio. destruct (Z.eqb_spec limit 0) as [Hz|Hz].
    - exists (Z.of_nat (length (order_of c salt))). rewrite target_count_all by done. split_and!; [done|lia|done|].
      intros _ Hne. destruct (order_of c salt); [done|cbn; lia].
    - destruct (target_count_ok (length (order_of c salt)) (fe_eviction_ratio c) Hr Ho) as (n & En & Hn & H1). exists n.
      split_and!; [done|done|done|]. intros Hpos Hne. apply H1; [|destruct (order_of c salt); [done|cbn; lia]].
      destruct (clamp01_cases (fe_eviction_ratio c)) as [E0 | [-> | (-> & _ & _)]]; [|done|done].
      revert E0 Hpos. unfold clamp01, py_min, py_max. destruct (fltb (fe_eviction_ratio c) float_1) eqn:Elt; [by intros E0 Hp; rewrite Hp in E0; rewrite E0 in Hp|done]. }
  destruct (actions_keys (dkeys (order_of c salt)) (iso_default_destination (fe_policy c)) (iso_destinations (fe_policy c)) (salt_ratio c limit)
    (Some (λ key, negb (dmem (fe_pin_counts c) key))) n En Hn) as (acts & -> & Ek).
  cbn [rbind]. exists n. rewrite Ek. done.
Qed.

(** the loop over salts keeps the victims of each *)
Lemma plan_salts_spec u c (victims : string → list K) salts : (∀ salt, salt_victims u c salt = Ok (victims salt)) →
  ∀ plan, NoDup salts → (∀ salt, salt ∈ salts → dget plan salt = None) →
  ∃ plan', plan_salts u c salts plan = Ok plan' ∧
    ∀ salt, dget plan' salt = if decide (salt ∈ salts) then match victims salt with [] => None | ks => Some ks end else dget plan salt.
Proof.
  intros Hv. induction salts as [|s salts IH]; intros plan Hnd Hp.
  { exists plan. split; [done|]. intros salt. by rewrite decide_False by apply not_elem_of_nil. }
  apply NoDup_cons in Hnd as [Hs Hnd]. cbn [plan_salts]. rewrite Hv. cbn [rbind].
  destruct (IH (if nonempty (victims s) then dset plan s (victims s) else plan) Hnd) as (plan' & Ep & Hp').
  { intros salt Hin. destruct (nonempty _); [rewrite dget_dset_ne by (by intros ->)|]; apply Hp; by right. }
  exists plan'. split; [done|]. intros salt. rewrite Hp'. destruct (decide (salt ∈ salts)) as [Hin|Hin].
  - by rewrite decide_True by (by right).
  - destruct (decide (salt = s)) as [->|Hne].
    + rewrite decide_True by left. destruct (victims s); cbn [nonempty]; [apply Hp; left|by rewrite dget_dset_eq].
    + rewrite decide_False by (rewrite elem_of_cons; tauto). destruct (nonempty _); [by rewrite dget_dset_ne|done].
Qed.

Lemma evictable_elem c salt k : k ∈ evictable c salt ↔ k ∈ dkeys (order_of c salt) ∧ dget (fe_pin_counts c) k = None.
Proof.
  unfold evictable. rewrite !list_elem_of_In, filter_In, negb_true_iff. unfold dmem.
  destruct (dget (fe_pin_counts c) k); naive_solver.
Qed.

Lemma evictable_nodup c salt : policy_ok (fe_policy c) → NoDup (evictable c salt).
Proof.
  intros [_ Ho _]. apply (eligible_keys_NoDup (Some _)). unfold order_of, EvictionPolicy.bucket.
  destruct (dget _ salt) as [o|] eqn:Ed; [by apply (Ho _ _ Ed)|constructor].
Qed.

Lemma plan_spec u c : policy_ok (fe_policy c) → settings_ok c →
  ∃ plan, compute_eviction_plan u c = Ok plan ∧ ∀ salt,
    match reached_limit u c salt with
    | None => dget plan salt = None
    | Some limit => ∃ n,
        dget plan salt = (match take (Z.to_nat n) (evictable c salt) with [] => None | ks => Some ks end) ∧
        (limit = 0 → take (Z.to_nat n) (evictable c salt) = evictable c salt) ∧
        (fltb float_0 (fe_eviction_ratio c) = true → evictable c salt ≠ [] → take (Z.to_nat n) (evictable c salt) ≠ [])
    end.
Proof.
  intros Hp Hs. set (victims salt := match salt_victims u c salt with Ok l => l | Raise _ => [] end).
  assert (∀ salt, salt_victims u c salt = Ok (victims salt)) as Hv.
  { intros salt. unfold victims. pose proof (salt_victims_spec u c salt Hs) as H.
    destruct (reached_limit u c salt); [destruct H as (n & -> & _)|rewrite H]; done. }
  destruct (plan_salts_spec u c victims (iso_get_tracked_salts (fe_policy c)) Hv []) as (plan & Ep & Hplan); [apply Hp|done|].
  exists plan. split; [done|]. intros salt. specialize (Hplan salt). pose proof (salt_victims_spec u c salt Hs) as Hsv. specialize (Hv salt).
  assert (salt ∉ iso_get_tracked_salts (fe_policy c) → order_of c salt = []) as Hn.
  { unfold iso_get_tracked_salts, order_of, EvictionPolicy.bucket. intros Hin%dget_None_dkeys. by rewrite Hin. }
  destruct (reached_limit u c salt) as [limit|].
  - destruct Hsv as (n & En & Hn0 & H0 & H1). exists n. rewrite En in Hv. injection Hv as Hv. split_and!.
    + rewrite Hplan, <- Hv. destruct (decide _) as [Hin|Hin]; [done|]. specialize (Hn Hin). unfold evictable. rewrite Hn. cbn. by rewrite take_nil.
    + intros Hl. rewrite take_ge; [done|]. rewrite (H0 Hl), Nat2Z.id. unfold evictable. etrans; [apply List.filter_length_le|].
      unfold dkeys. by rewrite length_fmap.
    + intros Hr Hne. destruct (evictable c salt) as [|k ks] eqn:Ee; [done|]. assert (1 <= n) as Hge.
      { apply H1; [done|]. intros Eo. unfold evictable in Ee. rewrite Eo in Ee. done. }
      destruct (Z.to_nat n) eqn:Ez; [lia|done].
  - rewrite Hsv in Hv. injection Hv as Hv. rewrite Hplan, <- Hv. by destruct (decide _).
Qed.

(** a tenant with bytes has a key with bytes *)
Lemma salt_bytes_key u salt : usage_ok u → 0 < get_salt_bytes u CacheEvents.L2 salt →
  ∃ k, key_cache_salt k = salt ∧ 0 < l2_bytes u k.
Proof.
  intros Hu. pose proof (uo_tallies _ Hu) as Ht. rewrite (re_salt _ (tallies_reads u Ht)).
  pose proof (ta_sizes _ Ht) as Hd. unfold l2_bytes. revert Hd. induction (um_placement_sizes u) as [|[p n] d IH]; intros Hd; [done|].
  apply Forall_cons in Hd as [Hn Hd]. cbn [snd] in Hn. rewrite sum_of_cons. intros Hpos.
  destruct (decide (salt_id p = (CacheEvents.L2, salt))) as [Hp|Hp].
  - destruct (decide (n = 0)) as [->|Hne].
    + destruct (IH Hd) as (k & Hk & Hb); [lia|]. exists k. split; [done|]. rewrite sum_of_cons. case_decide; lia.
    + exists (pid_key p). unfold salt_id in Hp. injection Hp as Ht' Hs. split; [done|]. rewrite sum_of_cons, decide_True.
      * pose proof (sum_of_nonneg key_id d (CacheEvents.L2, pid_key p) Hd). lia.
      * unfold key_id. by rewrite Ht'.
  - destruct (IH Hd Hpos) as (k & Hk & Hb). exists k. split; [done|]. rewrite sum_of_cons. case_decide; lia.
Qed.

Lemma key_le_salt u k : usage_ok u → 0 < l2_bytes u k → 0 < sum_of salt_id (um_placement_sizes u) (CacheEvents.L2, key_cache_salt k).
Proof.
  intros Hu. pose proof (ta_sizes _ (uo_tallies _ Hu)) as Hd. unfold l2_bytes.
  induction Hd as [|[p n] d Hn Hd IH]; [done|]. cbn [snd] in Hn. rewrite !sum_of_cons.
  pose proof (sum_of_nonneg salt_id d (CacheEvents.L2, key_cache_salt k) Hd) as H0.
  destruct (decide (key_id p = (CacheEvents.L2, k))) as [Hk|Hk].
  - rewrite decide_True by (unfold key_id in Hk; injection Hk as Hk1 Hk2; unfold salt_id; by rewrite Hk1, Hk2).
    intros Hpos. destruct (decide (n = 0)) as [->|]; [|lia]. specialize (IH Hpos). lia.
  - intros Hpos. specialize (IH Hpos). case_decide; lia.
Qed.

Lemma reached_limit_bytes u c salt limit : reached_limit u c salt = Some limit →
  0 < get_salt_bytes u CacheEvents.L2 salt ∧ effective_limit_bytes (fe_quota_manager c) salt = Some limit.
Proof.
  unfold reached_limit. cbv zeta. destruct (Z.leb_spec (get_salt_bytes u CacheEvents.L2 salt) 0); [done|].
  destruct (effective_limit_bytes _ _); [|done]. destruct (int_ltb_float _ _); [done|]. intros [= ->]. done.
Qed.

(** ** Restarting *)

Lemma dupdate_units (o : list (K * unit)) : dwf o → dupdate [] ((λ k, (k, tt)) <$> dkeys o) = o.
Proof.
  intros Ho. assert ((λ k, (k, tt)) <$> dkeys o = o) as ->.
  { unfold dkeys. rewrite <- list_fmap_compose. rewrite <- (list_fmap_id o) at 2. apply list_fmap_ext. by intros i [k []] _. }
  by rewrite dupdate_app.
Qed.

Lemma iso_restore_capture p q : policy_ok p → iso_restore (iso_capture p) q = Ok (iso_with_orders q (iso_per_salt_order p)).
Proof.
  intros [Hw Ho _]. unfold iso_restore, iso_capture. rewrite (map_ok_fmap _ _ id).
  - rewrite list_fmap_id. cbn [rbind]. by rewrite dupdate_app.
  - intros [salt o] Hin. cbn [fst snd]. unfold restore_order. rewrite (map_ok_fmap _ _ id) by (intros; apply decode_key_encode).
    rewrite list_fmap_id. cbn [rbind]. rewrite dupdate_units; [done|]. apply (Ho salt o). by apply dget_wf_elem_of.
Qed.

Lemma pins_restore_capture c c0 : dwf (fe_pin_counts c) → Forall (λ kn, 0 < kn.2) (fe_pin_counts c) →
  pins_restore (pins_capture c) c0 = Ok (with_pins c0 (fe_pin_counts c)).
Proof.
  intros Hw Hp. unfold pins_restore, pins_capture. rewrite (map_ok_fmap _ _ id).
  - rewrite list_fmap_id. cbn [rbind].
    assert (List.filter (λ kn : K * Z, 0 <? kn.2) (fe_pin_counts c) = fe_pin_counts c) as ->; [|by rewrite dupdate_app].
    clear Hw. induction Hp as [|kn l Hk _ IH]; [done|]. cbn [List.filter]. rewrite (proj2 (Z.ltb_lt _ _)) by done. by rewrite IH.
  - intros [k n] _. unfold _decode_pin. cbn [fst snd]. by rewrite to_object_key_encoded.
Qed.

(** ** Pins *)

Definition pins_ok (pins : list (K * Z)) : Prop := dwf pins ∧ Forall (λ kn, 0 < kn.2) pins.

Lemma pins_dset pins k n : pins_ok pins → 0 < n → pins_ok (dset pins k n).
Proof.
  intros [Hw Hp] Hn. split; [by apply dset_wf|]. clear Hw. induction Hp as [|[q m] d ? ? IH]; simpl; [by repeat constructor|].
  case_decide; by constructor.
Qed.
Lemma pins_ddel pins k : pins_ok pins → pins_ok (ddel pins k).
Proof. intros [Hw Hp]. split; [by apply ddel_wf|by apply ddel_Forall]. Qed.
Lemma pins_count pins k : pins_ok pins → 0 <= default 0 (dget pins k) ∧ (dget pins k ≠ None ↔ 0 < default 0 (dget pins k)).
Proof.
  intros [Hw Hp]. destruct (dget pins k) as [n|] eqn:En; cbn; [|split; [lia|split; [done|lia]]].
  rewrite Forall_forall in Hp. specialize (Hp (k, n) (dget_elem_of _ _ _ En)). cbn in Hp. split; [lia|split; [done|done]].
Qed.

Lemma pin_key_spec pins key : pins_ok pins → pins_ok (pin_key pins key) ∧
  ∀ k, default 0 (dget (pin_key pins key) k) = default 0 (dget pins k) + if decide (key = k) then 1 else 0.
Proof.
  intros Hp. pose proof (pins_count pins key Hp) as [H0 _]. split; [apply pins_dset; [done|lia]|].
  intros k. unfold pin_key. rewrite dget_dset. case_decide; subst; cbn; lia.
Qed.

Lemma unpin_key_spec pins key : pins_ok pins → pins_ok (unpin_key pins key) ∧
  ∀ k, default 0 (dget (unpin_key pins key) k) = if decide (key = k) then Z.max 0 (default 0 (dget pins k) - 1) else default 0 (dget pins k).
Proof.
  intros Hp. pose proof (pins_count pins key Hp) as [H0 _]. unfold unpin_key. destruct (Z.leb_spec (default 0 (dget pins key)) 1).
  - split; [by apply pins_ddel|]. intros k. rewrite dget_ddel. case_decide; subst; cbn; lia.
  - split; [apply pins_dset; [done|lia]|]. intros k. rewrite dget_dset. case_decide; subst; cbn; lia.
Qed.

Lemma pins_fold (f : list (K * Z) → K → list (K * Z)) keys : (∀ pins k, pins_ok pins → pins_ok (f pins k)) →
  ∀ pins, pins_ok pins → pins_ok (foldl f pins keys).
Proof. intros Hf. induction keys as [|k keys IH]; intros pins Hp; [done|]. cbn [foldl]. by apply IH, Hf. Qed.

(** ** Deletions drain the order *)

(** the view, then the controller *)
Definition pair_deliver (d : delivery string (batch_body E))
  : py_state (CacheUsageManager K * FleetEvictionController K) unit := λ uc,
  match um_deliver d uc.1 with
  | (Ok _, u) => let '(r, c) := fe_deliver u d uc.2 in (r, (u, c))
  | (Raise e, u) => (Raise e, (u, uc.2))
  end.

Definition is_deletion (d : delivery string (batch_body E)) : Prop :=
  match d with Consume b => bo_event_type (b_body b) = DELETE | FenceInstance _ => True end.
Definition reports (ds : list (delivery string (batch_body E))) (k : K) : Prop := ∃ b, Consume b ∈ ds ∧ mentions b k.

(** removals lower every sum *)
Lemma removes_le {G} `{EqDecision G} (f : placement_id K → G) g (ps : list (placement_id K)) : ∀ u, tallies u →
  tallies (foldl _remove u ps) ∧ sum_of f (um_placement_sizes (foldl _remove u ps)) g <= sum_of f (um_placement_sizes u) g.
Proof.
  induction ps as [|p ps IH]; intros u Hu; cbn [foldl]; [split; [done|lia]|].
  destruct (IH (_remove u p) (remove_tallies u p Hu)) as [H1 H2]. split; [done|]. etrans; [exact H2|].
  rewrite remove_sizes, sum_of_ddel by apply Hu. pose proof (value_nonneg u p Hu). destruct (decide (f p = g)); lia.
Qed.

Lemma deletion_le {G} `{EqDecision G} (f : placement_id K → G) g d u u' : usage_ok u → delivery_ok d → is_deletion d →
  um_deliver d u = (Ok tt, u') → sum_of f (um_placement_sizes u') g <= sum_of f (um_placement_sizes u) g.
Proof.
  intros Hu Hd Hdel. destruct d as [b|i]; cbn [um_deliver is_deletion] in *.
  - unfold um_consume. rewrite bool_decide_false by congruence. rewrite for_entries_ok by done. intros [= <-].
    assert (∀ l u, foldl (λ u ke, um_apply_entry b ke.1 ke.2 u) u l = foldl _remove u ((λ ke, placement_of b ke.1) <$> l)) as ->.
    { induction l as [|ke l IH]; intros v; [done|]. rewrite fmap_cons. cbn [foldl]. rewrite IH. unfold um_apply_entry. by rewrite Hdel. }
    apply removes_le, Hu.
  - intros [= <-]. unfold um_fence_instance. apply (removes_le f g (PySet.bucket (um_l1_by_instance u) i) (with_l1 u (ddel (um_l1_by_instance u) i))).
    destruct (uo_tallies _ Hu). by constructor.
Qed.

Lemma int_ltb_float_mono (m n : Z) x : m <= n → int_ltb_float n x = true → int_ltb_float m x = true.
Proof.
  intros Hab. unfold int_ltb_float. destruct x as [s|s| |s q e]; [rewrite !Z.ltb_lt; lia|done|done|].
  destruct (Z.leb_spec 0 e); rewrite !Z.ltb_lt; [lia|]. intros Hb. eapply Z.le_lt_trans; [|exact Hb].
  apply Z.mul_le_mono_nonneg_r; [apply Z.pow_nonneg; lia|done].
Qed.

(** a tenant below its limit stays below while bytes only go away *)
Lemma below_stays u c u' c' salt : same_settings c c' →
  get_salt_bytes u' CacheEvents.L2 salt <= get_salt_bytes u CacheEvents.L2 salt →
  reached_limit u c salt = None → reached_limit u' c' salt = None.
Proof.
  intros (E1 & E2 & E3 & E4) Hle. unfold reached_limit. cbv zeta. rewrite E1, E3.
  destruct (Z.leb_spec (get_salt_bytes u' CacheEvents.L2 salt) 0); [done|].
  destruct (Z.leb_spec (get_salt_bytes u CacheEvents.L2 salt) 0); [lia|].
  destruct (effective_limit_bytes _ salt) as [limit|]; [|done].
  destruct (int_ltb_float (get_salt_bytes u CacheEvents.L2 salt) _) eqn:Elt; [|done]. intros _. by rewrite (int_ltb_float_mono _ _ _ Hle Elt).
Qed.

Lemma pair_deliver_ok d u c : fleet_ok u c → delivery_ok d →
  ∃ u' c', pair_deliver d (u, c) = (Ok tt, (u', c')) ∧ um_deliver d u = (Ok tt, u') ∧ fe_deliver u' d c = (Ok tt, c') ∧
    fleet_ok u' c' ∧ same_settings c c' ∧
    (∀ k, is_tracked c' k ↔ tracked_after u' d (is_tracked c) k).
Proof.
  intros Hf Hd. destruct (deliver_ok d u (fl_usage _ _ Hf) Hd) as (u' & Eu & Hu' & _).
  destruct (deliver_fleet d u u' c Hf Hd Eu Hu') as (c' & Ec & Hf' & Hs & Ht).
  exists u', c'. unfold pair_deliver. cbn [fst snd]. rewrite Eu, Ec. done.
Qed.

Lemma deletions_drain ds : ∀ u c, fleet_ok u c → Forall delivery_ok ds → Forall is_deletion ds →
  ∃ u' c', for_each pair_deliver ds (u, c) = (Ok tt, (u', c')) ∧ fleet_ok u' c' ∧ same_settings c c' ∧
    (∀ k, l2_bytes u' k <= l2_bytes u k) ∧ (∀ k, ¬ reports ds k → l2_bytes u' k = l2_bytes u k) ∧
    (∀ k, is_tracked c' k → is_tracked c k) ∧
    (∀ k, reports ds k → l2_bytes u' k = 0 → ¬ is_tracked c' k) ∧
    (∀ salt, get_salt_bytes u' CacheEvents.L2 salt <= get_salt_bytes u CacheEvents.L2 salt).
Proof.
  induction ds as [|d ds IH]; intros u c Hf Hds Hdel.
  { exists u, c. split_and!; try done. intros k (b & Hb & _). by apply not_elem_of_nil in Hb. }
  apply Forall_cons in Hds as [Hd Hds]. apply Forall_cons in Hdel as [Hdl Hdel].
  destruct (pair_deliver_ok d u c Hf Hd) as (u1 & c1 & E1 & Eu & _ & Hf1 & Hs1 & Ht1).
  destruct (IH u1 c1 Hf1 Hds Hdel) as (u' & c' & E2 & Hf2 & Hs2 & Hle & Heq & Hsub & Hgone & Hsalt).
  assert (∀ k, l2_bytes u1 k <= l2_bytes u k ∧ (¬ reports [d] k → l2_bytes u1 k = l2_bytes u k)) as Hb.
  { intros k. destruct (deliver_bytes d u u1 k (fl_usage _ _ Hf) Hd Eu) as [Ha Hb]. destruct d as [b|i]; cbn in Hdl.
    - split; [apply Hb; congruence|]. intros Hn. apply Ha. intros Hm. apply Hn. exists b. split; [left|done].
    - split; [by apply Hb|]. intros _. by apply Ha. }
  assert (∀ k, is_tracked c1 k → is_tracked c k ∧ ¬ (reports [d] k ∧ l2_bytes u1 k = 0)) as Htr.
  { intros k Hk%Ht1. unfold tracked_after in Hk. destruct d as [b|i]; cbn in Hdl.
    - rewrite Hdl in Hk. destruct Hk as [Hk Hn]. split; [done|]. intros [(b' & Hb' & Hm) H0]. apply Hn.
      apply list_elem_of_singleton in Hb'. injection Hb' as ->. done.
    - split; [done|]. intros [(b' & Hb' & _) _]. by apply list_elem_of_singleton in Hb'. }
  assert (∀ k, reports (d :: ds) k ↔ reports [d] k ∨ reports ds k) as Hrep.
  { intros k. split.
    - intros (b & [<-|Hb']%elem_of_cons & Hm); [left|right]; exists b; split; [left|done|done|done].
    - intros [(b & Hb' & Hm)|(b & Hb' & Hm)]; exists b; (split; [|done]); [apply list_elem_of_singleton in Hb' as <-; left|by right]. }
  exists u', c'. split_and!.
  - cbn [for_each]. by rewrite (bind_ok _ _ _ _ _ E1).
  - done.
  - destruct Hs1 as (? & ? & ? & ?), Hs2 as (? & ? & ? & ?). repeat split; congruence.
  - intros k. destruct (Hb k). specialize (Hle k). lia.
  - intros k Hn. rewrite Hrep in Hn. rewrite Heq by tauto. apply Hb. tauto.
  - intros k Hk. by apply Htr, Hsub.
  - intros k Hr H0 Hk. assert (¬ reports ds k) as Hn by (intros Hy; by apply (Hgone k)). rewrite (Heq k Hn) in H0.
    apply Hrep in Hr as [Hr|Hr]; [|done]. destruct (Htr k (Hsub k Hk)) as [_ Hx]. by apply Hx.
  - intros salt. etrans; [apply Hsalt|]. pose proof (deletion_le salt_id (CacheEvents.L2, salt) d u u1 (fl_usage _ _ Hf) Hd Hdl Eu) as Hx.
    rewrite <- !(re_salt _ (tallies_reads _ (uo_tallies _ (fl_usage _ _ Hf)))) in Hx.
    by rewrite <- (re_salt _ (tallies_reads _ (uo_tallies _ (fl_usage _ _ Hf1)))) in Hx.
Qed.

(** a round that deletes what the plan names shortens the order of a salt that
    reached its limit *)
Lemma round_shrinks u c u' c' plan salt :
  fleet_ok u c → policy_ok (fe_policy c') → settings_ok c → fltb float_0 (fe_eviction_ratio c) = true →
  (∀ k, key_cache_salt k = salt → dget (fe_pin_counts c) k = None) →
  compute_eviction_plan u c = Ok plan → (∀ k, is_tracked c' k → is_tracked c k) →
  (∀ k, k ∈ default [] (dget plan salt) → ¬ is_tracked c' k) →
  (length (order_of c' salt) <= length (order_of c salt))%nat ∧
  (reached_limit u c salt ≠ None → (length (order_of c' salt) < length (order_of c salt))%nat).
Proof.
  intros Hf Hp' Hs Hr Hpin Ep Hsub Hgone. pose proof (fl_policy _ _ Hf) as Hp.
  assert (∀ c k, policy_ok (fe_policy c) → k ∈ dkeys (order_of c salt) ↔ key_cache_salt k = salt ∧ is_tracked c k) as Hord.
  { intros c0 k [_ _ Hb]. unfold is_tracked. split; [|naive_solver]. intros Hk. pose proof (Hb salt k Hk). subst salt. done. }
  assert (∀ c, policy_ok (fe_policy c) → NoDup (dkeys (order_of c salt))) as Hnd.
  { intros c0 [_ Ho _]. unfold order_of, EvictionPolicy.bucket.
    destruct (dget (iso_per_salt_order (fe_policy c0)) salt) eqn:Ed; [by apply (Ho _ _ Ed)|constructor]. }
  assert (dkeys (order_of c' salt) ⊆+ dkeys (order_of c salt)) as Hsm.
  { apply NoDup_submseteq; [by apply Hnd|]. intros k. rewrite !Hord by done. naive_solver. }
  assert (∀ o : list (K * unit), length (dkeys o) = length o) as Hlen by (intros; apply length_fmap).
  split; [rewrite <- !Hlen; by apply submseteq_length|]. intros Hreach.
  destruct (reached_limit u c salt) as [limit|] eqn:El; [|done]. destruct (reached_limit_bytes _ _ _ _ El) as [Hb _].
  destruct (salt_bytes_key u salt (fl_usage _ _ Hf) Hb) as (k & Hks & Hkb).
  assert (k ∈ evictable c salt) as Hev.
  { apply evictable_elem. split; [|by apply Hpin]. apply Hord; [done|]. split; [done|]. by apply Hf. }
  destruct (plan_spec u c Hp Hs) as (plan' & Ep' & Hplan). rewrite Ep in Ep'. injection Ep' as <-. specialize (Hplan salt). rewrite El in Hplan.
  destruct Hplan as (n & Hd & _ & Hne). specialize (Hne Hr ltac:(by intros E0; rewrite E0 in Hev; apply not_elem_of_nil in Hev)).
  destruct (take (Z.to_nat n) (evictable c salt)) as [|v vs] eqn:Et; [done|].
  assert (v ∈ dkeys (order_of c salt)) as Hv.
  { assert (v ∈ evictable c salt) as Hv by (apply (elem_of_take_sub (Z.to_nat n)); rewrite Et; left). by apply evictable_elem in Hv as [? _]. }
  assert (v ∉ dkeys (order_of c' salt)) as Hv'.
  { rewrite Hord by done. intros [_ Hx]. apply (Hgone v); [|done]. rewrite Hd. left. }
  rewrite <- !Hlen. destruct (decide (length (dkeys (order_of c' salt)) < length (dkeys (order_of c salt)))%nat) as [|Hge]; [done|].
  exfalso. apply Hv'. rewrite (submseteq_length_Permutation _ _ Hsm); [done|lia].
Qed.

End proofs.
