(* ===== verification/Coordinator.v ===== *)
(** * The coordinator

    [mp_coordinator/app.py] with the handlers of [http_apis] that change state: the
    gate admits batches, the broadcaster hands each to the usage view, the key
    directory, the capacity registry and the eviction controller, in this order, and
    a new process loads the metadata, written at every change of a pin or a quota, and
    the checkpoint, written on a timer and on a clean stop, or starts without them. The
    byte encodings of the two artifacts (msgpack and JSON) are not modelled: an artifact
    is the sections it holds, or absent when it is missing or cannot be read. *)

From S2P Require Import Prelude PyDict PyState PySet PyFloat BatchBlob ObjectKey EventGate CacheEvents CoordinatorKeys UsageManager.
From S2P Require Import BlendIndex KeyDirectory KeyDirectoryProofs DirectoryRuns DirectoryTheorems ServerConfig.
From S2P Require Import L1Manager EvictionPolicy QuotaManager EvictionController FleetEviction FleetEvictionProofs.

Open Scope Z_scope.

(** a method of a part of the state *)
Definition on_part {S T A} (part : S → T) (update : S → T → S) (m : py_state T A) : py_state S A := λ s,
  let '(r, t) := m (part s) in (r, update s t).

(** [MPCoordinatorConfig], as far as the state depends on it *)
Record MPCoordinatorConfig := mkConfig {
  cf_instance_timeout : float;
  cf_eviction_ratio : float;
  cf_trigger_watermark : float;
  cf_chunk_size : Z;
  cf_enable_blend_lookup : bool;
  cf_blend_probe_stride : Z }.

Section coordinator.
Context {K E F : Type} `{EqDecision K} `{KC : KeyCodec K E F} `{NP : UInt32Array}.

Record Coordinator := mkCoordinator {
  co_registry : InstanceRegistry;
  co_gate : EventGate (I := string);
  co_usage : CacheUsageManager K;
  co_directory : KeyDirectory K;
  co_config : ServerConfigRegistry;
  co_eviction : FleetEvictionController K }.

Definition with_registry s x := mkCoordinator x (co_gate s) (co_usage s) (co_directory s) (co_config s) (co_eviction s).
Definition with_gate s x := mkCoordinator (co_registry s) x (co_usage s) (co_directory s) (co_config s) (co_eviction s).
Definition with_usage s x := mkCoordinator (co_registry s) (co_gate s) x (co_directory s) (co_config s) (co_eviction s).
Definition with_keys s x := mkCoordinator (co_registry s) (co_gate s) (co_usage s) x (co_config s) (co_eviction s).
Definition with_config s x := mkCoordinator (co_registry s) (co_gate s) (co_usage s) (co_directory s) x (co_eviction s).
Definition with_eviction s x := mkCoordinator (co_registry s) (co_gate s) (co_usage s) (co_directory s) (co_config s) x.

(** ** Ingest *)

(** [CacheEventBroadcaster.broadcast] and [fence_instance], over the consumers that
    [create_app] registered: views by class name, then controllers *)
Definition broadcast (d : delivery string (batch_body E)) : py_state Coordinator unit :=
  _ ← on_part co_usage with_usage (um_deliver d);
  _ ← on_part co_directory with_keys (kd_deliver d);
  _ ← on_part co_config with_config (sc_deliver d);
  u ← gets co_usage;
  on_part co_eviction with_eviction (fe_deliver u d).

Definition is_fence (d : delivery string (batch_body E)) : bool :=
  match d with FenceInstance _ => true | Consume _ => false end.

(** fences reach the consumers before the cursor changes, the batch after *)
Definition co_ingest (batch : Batch E) : py_state Coordinator IngestResult :=
  s ← gets id;
  let '(r, g, ds) := ingest (co_gate s) batch in
  _ ← for_each broadcast (List.filter is_fence ds);
  _ ← modify (λ s, with_gate s g);
  _ ← for_each broadcast (List.filter (λ d, negb (is_fence d)) ds);
  mret r.

Record CacheEventsResponse := mkResponse { rs_applied : Z; rs_duplicates : Z; rs_stale : Z }.

Definition count_result (n : CacheEventsResponse) (r : IngestResult) : CacheEventsResponse :=
  match r with
  | ADMITTED => mkResponse (rs_applied n + 1) (rs_duplicates n) (rs_stale n)
  | DUPLICATE => mkResponse (rs_applied n) (rs_duplicates n + 1) (rs_stale n)
  | STALE_INCARNATION => mkResponse (rs_applied n) (rs_duplicates n) (rs_stale n + 1)
  end.

Fixpoint report_batches (batches : list (Batch E)) (response : CacheEventsResponse)
  : py_state Coordinator CacheEventsResponse :=
  match batches with
  | [] => mret response
  | batch :: batches => r ← co_ingest batch; report_batches batches (count_result response r)
  end.
Definition report_cache_events (batches : list (Batch E)) : py_state Coordinator CacheEventsResponse :=
  report_batches batches (mkResponse 0 0 0).

Definition co_drop_instance (instance_id : string) : py_state Coordinator unit :=
  _ ← broadcast (FenceInstance instance_id);
  modify (λ s, with_gate s (drop_instance (B := batch_body E) (co_gate s) instance_id).1).

(** ** Membership *)

Definition register_instance (instance : MPInstance) : py_state Coordinator bool :=
  s ← gets id;
  _ ← modify (λ s, with_registry s (register (co_registry s) instance).2);
  mret (register (co_registry s) instance).1.

(** [false]: the caller is told to re-register *)
Definition heartbeat (instance_id : string) (now : float) : py_state Coordinator bool :=
  s ← gets id;
  _ ← modify (λ s, with_registry s (update_heartbeat (co_registry s) instance_id now).2);
  mret (update_heartbeat (co_registry s) instance_id now).1.

Definition deregister_instance (instance_id : string) : py_state Coordinator unit :=
  _ ← modify (λ s, with_registry s (deregister (co_registry s) instance_id).2);
  _ ← co_drop_instance instance_id;
  modify (λ s, with_config s (forget instance_id (co_config s))).

(** one turn of [_health_loop] *)
Definition health_check (cfg : MPCoordinatorConfig) (now : float) : py_state Coordinator unit :=
  s ← gets id;
  let '(evicted, registry) := evict_stale (co_registry s) now (cf_instance_timeout cfg) in
  _ ← modify (λ s, with_registry s registry);
  for_each co_drop_instance evicted.

(** ** Starting and restarting *)

Definition create_app (cfg : MPCoordinatorConfig) : result Coordinator :=
  (d <-? from_config (cf_enable_blend_lookup cfg) (cf_chunk_size cfg) (cf_blend_probe_stride cfg);
   Ok (mkCoordinator [] [] um_init d sc_init (fe_init (cf_eviction_ratio cfg) (cf_trigger_watermark cfg))))%py.

(** [component.restore(section)], whose exceptions are logged *)
Definition load {S} (m : py_state S unit) (s : S) : S := (m s).2.
Definition load_result {S} (r : result S) (s : S) : S := match r with Ok s => s | Raise _ => s end.

(** what the two artifacts hold: the sections of the durable components *)
Record Metadata := mkMetadata {
  me_pins : list (E * Z);
  me_quotas : list (string * Z) * option Z }.
Record Checkpoint := mkCheckpoint {
  ch_gate : list (string * (Z * Z * bool));
  ch_usage : list (string * F * string * string * Z);
  ch_directory : capture_state F;
  ch_config : list (string * Z * Z * list encoded_module);
  ch_policy : list (string * list F) }.

(** [MetadataPersister.save], called by every handler that changes a pin or a quota *)
Definition save_metadata (s : Coordinator) : Metadata :=
  mkMetadata (pins_capture (co_eviction s)) (QuotaManager.capture (fe_quota_manager (co_eviction s))).

(** [save_checkpoint], on a timer and once more on a clean stop *)
Definition save_checkpoint (s : Coordinator) : Checkpoint :=
  mkCheckpoint (EventGate.capture (co_gate s)) (um_capture (co_usage s)) (kd_capture (co_directory s)) (sc_capture (co_config s))
    (iso_capture (fe_policy (co_eviction s))).

(** [MetadataPersister.load]: no document, or one that cannot be read, is [None] *)
Definition load_metadata (document : option Metadata) (c : FleetEvictionController K) : FleetEvictionController K :=
  match document with
  | None => c
  | Some m =>
      let c := load_result (pins_restore (me_pins m) c) c in
      with_quota c (QuotaManager.restore (fe_quota_manager c) (me_quotas m))
  end.

(** [load_checkpoint], likewise *)
Definition load_checkpoint (sections : option Checkpoint) (s : Coordinator) : Coordinator :=
  match sections with
  | None => s
  | Some x =>
      let c := co_eviction s in
      mkCoordinator (co_registry s)
        (load_result (EventGate.restore (co_gate s) (ch_gate x)) (co_gate s))
        (load (um_restore (ch_usage x)) (co_usage s))
        (load (kd_restore (ch_directory x)) (co_directory s))
        (load (sc_restore (ch_config x)) (co_config s))
        (with_policy c (load_result (iso_restore (ch_policy x) (fe_policy c)) (fe_policy c)))
  end.

(** a new process: the metadata is loaded before the checkpoint *)
Definition start (cfg : MPCoordinatorConfig) (document : option Metadata) (sections : option Checkpoint) : result Coordinator :=
  (s0 <-? create_app cfg; Ok (load_checkpoint sections (with_eviction s0 (load_metadata document (co_eviction s0)))))%py.

(** a clean stop, which writes a last checkpoint, and a start, with both paths configured *)
Definition restart (cfg : MPCoordinatorConfig) (s : Coordinator) : result Coordinator :=
  start cfg (Some (save_metadata s)) (Some (save_checkpoint s)).

(** ** Runs *)

Inductive co_op :=
| Report (batches : list (Batch E))
| Register (instance : MPInstance)
| Heartbeat (instance_id : string) (now : float)
| Deregister (instance_id : string)
| HealthCheck (now : float)
| Pin (keys : list K)
| Unpin (keys : list K)
| ForceDelete (keys : list K)
| SetSaltQuota (cache_salt : string) (limit_bytes : Z)
| DeleteSaltQuota (cache_salt : string)
| SetDefaultQuota (limit_bytes : option Z)
| RestartCoordinator.

Definition on_controller (f : FleetEvictionController K → FleetEvictionController K) : py_state Coordinator unit :=
  modify (λ s, with_eviction s (f (co_eviction s))).
Definition on_quota (o : quota_op) : py_state Coordinator unit :=
  on_controller (λ c, with_quota c (quota_step (fe_quota_manager c) o)).

Definition co_step (cfg : MPCoordinatorConfig) (o : co_op) : py_state Coordinator unit :=
  match o with
  | Report batches => _ ← report_cache_events batches; mret tt
  | Register instance => _ ← register_instance instance; mret tt
  | Heartbeat i now => _ ← heartbeat i now; mret tt
  | Deregister i => deregister_instance i
  | HealthCheck now => health_check cfg now
  | Pin keys => on_controller (pin keys)
  | Unpin keys => on_controller (unpin keys)
  | ForceDelete keys => on_controller (drop_pins keys)
  | SetSaltQuota salt limit => on_quota (SetQuota salt limit)
  | DeleteSaltQuota salt => on_quota (DeleteQuota salt)
  | SetDefaultQuota limit => on_quota (SetDefault limit)
  | RestartCoordinator => λ s, match restart cfg s with Ok s' => (Ok tt, s') | Raise e => (Raise e, s) end
  end.

End coordinator.
Arguments Coordinator K : clear implicits.
Arguments co_op K E : clear implicits.
