(* ===== verification/CoordinatorProofs.v ===== *)
(** * The coordinator: invariants of its runs *)

From S2P Require Import Prelude PyDict PyState PySet PyFloat BatchBlob ObjectKey EventGate CacheEvents CoordinatorKeys UsageManager.
From S2P Require Import BlendIndex KeyDirectory KeyDirectoryProofs DirectoryRuns DirectoryTheorems ServerConfig.
From S2P Require Import L1Manager EvictionPolicy QuotaManager EvictionController FleetEviction FleetEvictionProofs Coordinator.

Open Scope Z_scope.

Lemma on_part_ok {S T A} (part : S → T) (update : S → T → S) (m : py_state T A) s t a :
  m (part s) = (Ok a, t) → on_part part update m s = (Ok a, update s t).
Proof. unfold on_part. by intros ->. Qed.

Section proofs.
Context {K E F : Type} `{EqDecision K} `{KC : KeyCodec K E F} `{NP : UInt32Array}.
Context (cfg : MPCoordinatorConfig) (s0 : Coordinator K).
Hypothesis Hcreate : create_app cfg = Ok s0.
Implicit Types (s : Coordinator K) (t : list (delivery string (batch_body E))).

(** what the consumers hold after the deliveries [t] *)
Record consumers_ok t s : Prop := {
  cs_deliveries : Forall delivery_ok t;
  cs_sizes : ∀ p, dget (um_placement_sizes (co_usage s)) p = foldl fleet_deliver (λ _, None) t p;
  cs_directory : run_ok (co_directory s0) (co_directory s);
  cs_view : ∀ k id, view_of (co_directory s) k id = foldl view_deliver (λ _ _, None) t k id;
  cs_config : ∃ hs, registry_ok hs (co_config s);
  cs_fleet : fleet_ok (co_usage s) (co_eviction s);
  cs_settings : fe_eviction_ratio (co_eviction s) = clamp01 (cf_eviction_ratio cfg) ∧
                fe_trigger_watermark (co_eviction s) = cf_trigger_watermark cfg }.

Lemma create_config : from_config (cf_enable_blend_lookup cfg) (cf_chunk_size cfg) (cf_blend_probe_stride cfg) = Ok (co_directory s0) ∧
  s0 = mkCoordinator [] [] um_init (co_directory s0) sc_init (fe_init (cf_eviction_ratio cfg) (cf_trigger_watermark cfg)).
Proof.
  unfold create_app in Hcreate. destruct (from_config _ _ _) as [d|] eqn:Ed; [|done]. cbn [rbind] in Hcreate. by injection Hcreate as <-.
Qed.

Lemma broadcast_ok d t s : consumers_ok t s → delivery_ok d →
  ∃ s', broadcast d s = (Ok tt, s') ∧ consumers_ok (t ++ [d]) s' ∧ co_registry s' = co_registry s ∧ co_gate s' = co_gate s ∧
    pair_deliver d (co_usage s, co_eviction s) = (Ok tt, (co_usage s', co_eviction s')).
Proof.
  intros [Ht Hu Hd Hv [hs Hc] Hf Hset] Hok.
  destruct (pair_deliver_ok d (co_usage s) (co_eviction s) Hf Hok) as (u' & c' & Ep & Eu & Ec & Hf' & Hsame & _).
  destruct (deliver_runs d (co_directory s) (proj1 Hd) Hok) as (Ed & Hd' & Hv').
  assert (∃ sc', sc_deliver d (co_config s) = (Ok tt, sc') ∧ ∃ hs', registry_ok hs' sc') as (sc' & Es & Hsc).
  { destruct d as [b|i]; cbn [sc_deliver]; [|by exists (co_config s); split; [|exists hs]].
    destruct (consume_registry b hs (co_config s) Hc) as (sc' & Es & Hr); [|by exists sc'; split; [|eexists]].
    apply stamp_lt_spec. left. cbn. pose proof (bk_incarnation _ Hok). lia. }
  exists (mkCoordinator (co_registry s) (co_gate s) u' (deliver_pure (co_directory s) d) sc' c'). split_and!; [| |done|done|done].
  - unfold broadcast.
    rewrite (bind_ok _ _ _ _ _ (on_part_ok co_usage with_usage _ s _ _ Eu)).
    rewrite (bind_ok _ _ _ _ _ (on_part_ok co_directory with_keys _ (with_usage s u') _ _ Ed)).
    rewrite (bind_ok _ _ _ _ _ (on_part_ok co_config with_config _ (with_keys (with_usage s u') _) _ _ Es)).
    rewrite (bind_ok _ _ _ _ _ (eq_refl : gets co_usage (with_config (with_keys (with_usage s u') (deliver_pure (co_directory s) d)) sc') = (Ok u', _))).
    exact (on_part_ok co_eviction with_eviction (fe_deliver u' d) (with_config (with_keys (with_usage s u') _) sc') _ _ Ec).
  - constructor; cbn [co_usage co_directory co_config co_eviction].
    + apply Forall_app. split; [done|]. by apply Forall_cons, conj, List.Forall_nil.
    + destruct (deliver_ok d (co_usage s) (fl_usage _ _ Hf) Hok) as (u2 & Eu2 & _ & Hq). rewrite Eu in Eu2. injection Eu2 as <-.
      intros p. rewrite Hq, foldl_app. cbn [foldl]. by apply fleet_deliver_ext.
    + destruct Hd as (Hd1 & Hw & Hp). split_and!; [done|by apply deliver_l1_wf|by rewrite deliver_params].
    + intros k id. rewrite Hv', foldl_app. cbn [foldl]. by apply view_deliver_ext.
    + done.
    + done.
    + destruct Hsame as (_ & -> & -> & _). done.
Qed.

Lemma broadcasts_ok ds : ∀ t s, consumers_ok t s → Forall delivery_ok ds →
  ∃ s', for_each broadcast ds s = (Ok tt, s') ∧ consumers_ok (t ++ ds) s' ∧ co_registry s' = co_registry s ∧ co_gate s' = co_gate s ∧
    for_each pair_deliver ds (co_usage s, co_eviction s) = (Ok tt, (co_usage s', co_eviction s')).
Proof.
  induction ds as [|d ds IH]; intros t s Hs Hds; [exists s; by rewrite app_nil_r|]. apply Forall_cons in Hds as [Hd Hds].
  destruct (broadcast_ok d t s Hs Hd) as (s1 & E1 & H1 & R1 & G1 & P1). destruct (IH (t ++ [d]) s1 H1 Hds) as (s2 & E2 & H2 & R2 & G2 & P2).
  exists s2. cbn [for_each]. rewrite (bind_ok _ _ _ _ _ E1), (bind_ok _ _ _ _ _ P1). rewrite <- app_assoc in H2.
  split_and!; [done|done|congruence|congruence|done].
Qed.

(** the gate and what it delivered are a run of the gate *)
Record co_ok (gops : list (op string (batch_body E))) s : Prop := {
  ck_gops : Forall op_ok gops;
  ck_gate : co_gate s = (run gops).1;
  ck_consumers : consumers_ok (run gops).2 s }.

Lemma run_snoc gops o : run (gops ++ [o]) = step (run (I := string) (B := batch_body E) gops) o.
Proof. unfold run. by rewrite foldl_app. Qed.

Lemma consumers_ext t s s' : consumers_ok t s → co_usage s' = co_usage s → co_directory s' = co_directory s →
  co_config s' = co_config s → co_eviction s' = co_eviction s → consumers_ok t s'.
Proof. intros [Ht Hu Hd Hv Hc Hf Hs] E1 E2 E3 E4. constructor; by rewrite ?E1, ?E2, ?E3, ?E4. Qed.

Lemma ingest_ok b gops s : co_ok gops s → batch_ok b →
  ∃ r s', co_ingest b s = (Ok r, s') ∧ co_ok (gops ++ [OIngest b]) s' ∧ co_registry s' = co_registry s ∧
    r = (ingest (co_gate s) b).1.1.
Proof.
  intros [Hg Eg Hc] Hb. unfold co_ingest. rewrite (bind_ok _ _ _ s s) by done.
  destruct (ingest (co_gate s) b) as [[r g] ds] eqn:Ei.
  assert (Forall delivery_ok ds ∧ List.filter is_fence ds ++ List.filter (λ d, negb (is_fence d)) ds = ds) as [Hds Efs].
  { assert (∀ i, Forall delivery_ok ([FenceInstance i; Consume b] : list (delivery string (batch_body E)))) as H2
      by (intros i; by apply Forall_cons, conj, Forall_cons, conj, List.Forall_nil).
    assert (Forall delivery_ok [Consume b]) as H1 by (by apply Forall_cons, conj, List.Forall_nil).
    unfold ingest in Ei. destruct (dget (co_gate s) (b_instance_id b)) as [c|]; [|by injection Ei as <- <- <-].
    destruct (_ <? _); [injection Ei as <- <- <-; by split; [apply List.Forall_nil|]|].
    destruct (_ <? _); [injection Ei as <- <- <-; by split|].
    destruct (_ <=? _); injection Ei as <- <- <-; by split; [done || apply List.Forall_nil|]. }
  rewrite <- Efs in Hds. apply Forall_app in Hds as [Hd1 Hd2].
  destruct (broadcasts_ok _ _ s Hc Hd1) as (s1 & E1 & H1 & R1 & G1 & _).
  destruct (broadcasts_ok (List.filter (λ d, negb (is_fence d)) ds) ((run gops).2 ++ List.filter is_fence ds) (with_gate s1 g)) as (s2 & E2 & H2 & R2 & G2 & _);
    [by eapply consumers_ext|done|].
  exists r, s2. split_and!.
  - rewrite (bind_ok _ _ _ _ _ E1), (bind_ok _ _ _ (with_gate s1 g) tt) by done. by rewrite (bind_ok _ _ _ _ _ E2).
  - rewrite <- app_assoc, Efs in H2. constructor.
    + apply Forall_app. split; [done|]. constructor; [|done]. apply (bk_seq _ Hb).
    + rewrite run_snoc, G2. destruct (run gops) as [g0 t0]. cbn [fst] in Eg. subst g0. cbn [step]. by rewrite Ei.
    + rewrite run_snoc. destruct (run gops) as [g0 t0]. cbn [fst] in Eg. subst g0. cbn [step]. by rewrite Ei.
  - by rewrite R2.
  - done.
Qed.

Lemma drop_ok i gops s : co_ok gops s →
  ∃ s', co_drop_instance i s = (Ok tt, s') ∧ co_ok (gops ++ [ODrop i]) s' ∧ co_registry s' = co_registry s.
Proof.
  intros [Hg Eg Hc]. destruct (broadcast_ok (FenceInstance i) _ s Hc I) as (s1 & E1 & H1 & R1 & G1 & _).
  exists (with_gate s1 (ddel (co_gate s1) i)). split_and!; [| |done].
  - unfold co_drop_instance. by rewrite (bind_ok _ _ _ _ _ E1).
  - constructor; [apply Forall_app; by repeat constructor|..]; rewrite run_snoc; cbn [step co_gate with_gate]; destruct (run gops) as [g0 t0]; cbn in Eg |- *.
    + by rewrite G1, Eg.
    + by eapply consumers_ext.
Qed.

Lemma reports_ok batches : ∀ gops s n, co_ok gops s → Forall batch_ok batches →
  ∃ r s', report_batches batches n s = (Ok r, s') ∧ co_ok (gops ++ (OIngest <$> batches)) s' ∧ co_registry s' = co_registry s ∧
    rs_applied r + rs_duplicates r + rs_stale r = rs_applied n + rs_duplicates n + rs_stale n + Z.of_nat (length batches).
Proof.
  induction batches as [|b batches IH]; intros gops s n Hs Hb.
  { exists n, s. rewrite app_nil_r. split_and!; [done..|cbn; lia]. }
  apply Forall_cons in Hb as [Hb Hbs]. destruct (ingest_ok b gops s Hs Hb) as (r & s1 & E1 & H1 & R1 & _).
  destruct (IH (gops ++ [OIngest b]) s1 (count_result n r) H1 Hbs) as (r' & s2 & E2 & H2 & R2 & N2). exists r', s2. cbn [report_batches].
  rewrite (bind_ok _ _ _ _ _ E1), fmap_cons. rewrite <- app_assoc in H2. split_and!; [done|done|congruence|].
  rewrite N2. destruct r; cbn; lia.
Qed.

Lemma drops_ok ids : ∀ gops s, co_ok gops s →
  ∃ s', for_each co_drop_instance ids s = (Ok tt, s') ∧ co_ok (gops ++ (ODrop <$> ids)) s' ∧ co_registry s' = co_registry s.
Proof.
  induction ids as [|i ids IH]; intros gops s Hs; [exists s; by rewrite app_nil_r|].
  destruct (drop_ok i gops s Hs) as (s1 & E1 & H1 & R1). destruct (IH (gops ++ [ODrop i]) s1 H1) as (s2 & E2 & H2 & R2).
  exists s2. cbn [for_each]. rewrite (bind_ok _ _ _ _ _ E1), fmap_cons. rewrite <- app_assoc in H2. split_and!; [done|done|congruence].
Qed.

Lemma co_ok_ext gops s s' : co_ok gops s → co_gate s' = co_gate s → co_usage s' = co_usage s → co_directory s' = co_directory s →
  co_config s' = co_config s → co_eviction s' = co_eviction s → co_ok gops s'.
Proof. intros [Hg Eg Hc] E0 E1 E2 E3 E4. constructor; [done|by rewrite E0|by eapply consumers_ext]. Qed.

(** an operator's change of pins or quotas *)
Lemma controller_ok gops s f : co_ok gops s →
  (∀ c, fe_policy (f c) = fe_policy c ∧ fe_eviction_ratio (f c) = fe_eviction_ratio c ∧ fe_trigger_watermark (f c) = fe_trigger_watermark c ∧
     (pins_ok (fe_pin_counts c) → pins_ok (fe_pin_counts (f c)))) →
  co_ok gops (with_eviction s (f (co_eviction s))).
Proof.
  intros [Hg Eg [Ht Hu Hd Hv Hc [Hfu Hfp Hft Hpins] Hset]] Hf. destruct (Hf (co_eviction s)) as (E1 & E2 & E3 & Hp).
  constructor; [done|done|]. constructor; cbn; try done; [|by rewrite E2, E3].
  constructor; [done|by rewrite E1| |by apply Hp]. intros k Hk. unfold is_tracked, order_of. rewrite E1. by apply Hft.
Qed.

Record same_after_restart s s' : Prop := {
  sr_registry : co_registry s' = [];
  sr_gate : co_gate s' = co_gate s;
  sr_sizes : um_placement_sizes (co_usage s') = um_placement_sizes (co_usage s);
  sr_directory : same_reads (co_directory s') (co_directory s);
  sr_config : co_config s' = co_config s;
  sr_orders : iso_per_salt_order (fe_policy (co_eviction s')) = iso_per_salt_order (fe_policy (co_eviction s));
  sr_same : same_settings (co_eviction s) (co_eviction s') }.

(** the operator's settings of [m] in the state [s] *)
Definition with_metadata m s : Coordinator K :=
  with_eviction s (with_quota (with_pins (co_eviction s) (fe_pin_counts (co_eviction m))) (fe_quota_manager (co_eviction m))).

Lemma with_metadata_self s : with_metadata s s = s.
Proof. by destruct s as [? ? ? ? ? []]. Qed.

Lemma co_pins gops s : co_ok gops s → pins_ok (fe_pin_counts (co_eviction s)).
Proof. by intros [_ _ [_ _ _ _ _ [_ _ _ Hp] _]]. Qed.

Lemma with_metadata_ok gops gops' s m : co_ok gops s → co_ok gops' m → co_ok gops (with_metadata m s).
Proof.
  intros Hs Hm. apply (controller_ok gops s (λ c, with_quota (with_pins c _) _) Hs). intros c. split_and!; [done..|]. intros _.
  by eapply co_pins.
Qed.

Lemma load_metadata_ok gops m : co_ok gops m →
  with_eviction s0 (load_metadata (Some (save_metadata m)) (co_eviction s0)) = with_metadata m s0.
Proof.
  intros Hm. pose proof (co_pins _ _ Hm) as [Hpw Hpp].
  unfold load_metadata, save_metadata, with_metadata. cbn [me_pins me_quotas]. rewrite (pins_restore_capture _ _ Hpw Hpp). cbn [load_result].
  by destruct (fe_quota_manager (co_eviction m)).
Qed.

Lemma load_checkpoint_ok gops s m : co_ok gops s → pins_ok (fe_pin_counts (co_eviction m)) →
  let s' := load_checkpoint (Some (save_checkpoint s)) (with_metadata m s0) in
  co_ok (gops ++ [ORestart]) s' ∧ same_after_restart (with_metadata m s) s'.
Proof.
  intros [Hg Eg [Ht Hu Hd Hv [hs Hc] Hf [Hr Hw]]] [Hpw Hpp]. pose proof Hf as [Hfu Hfp Hft _]. destruct create_config as [Econf Es0].
  destruct (restore_capture (co_usage s) Hfu) as (u' & Eu & Hu' & Esz).
  destruct (step_run_ok (K := K) (E := E) _ _ _ _ Econf Restart (co_directory s) Hd) as (d' & Ed & Hd' & Hsame & _); [by apply List.Forall_nil|].
  assert (dwf (co_gate s)) as Hgw by (rewrite Eg; apply (gi_wf _ (run_inv gops Hg))).
  unfold load_checkpoint, save_checkpoint, with_metadata. rewrite Es0.
  cbn [co_registry co_gate co_usage co_directory co_config co_eviction with_eviction ch_gate ch_usage ch_directory ch_config ch_policy].
  rewrite capture_restore by done. cbn [load_result].
  unfold load. rewrite Eu, (restore_registry hs (co_config s) Hc), iso_restore_capture by done. cbn [load_result snd].
  cbn [dir_step] in Ed. rewrite Econf in Ed. rewrite Ed. cbn [snd]. split.
  - constructor; [apply Forall_app; by repeat constructor|..]; rewrite run_snoc; destruct (run gops) as [g0 t0]; cbn [fst] in Eg; subst g0; cbn [step];
      rewrite capture_restore by done; cbn [fst snd co_gate]; [done|].
    constructor; cbn; [done|by rewrite Esz|done| |by exists hs| |].
    + intros k id. rewrite (view_same _ _ Hsame). apply Hv.
    + constructor; cbn; [done| | |done].
      * destruct Hfp as [Hp1 Hp2 Hp3]. by constructor.
      * intros k. unfold l2_bytes. rewrite Esz. apply Hft.
    + done.
  - constructor; cbn; done.
Qed.

(** A start from any checkpoint or none, and from any metadata or none: nothing stored
    is as good as what a new process would have stored. *)
Lemma start_ok gops gops' s m sections document : co_ok gops s → co_ok gops' m →
  sections = Some (save_checkpoint s) ∨ sections = None ∧ s = s0 →
  document = Some (save_metadata m) ∨ document = None ∧ m = s0 →
  ∃ gops'' s', start cfg document sections = Ok s' ∧ co_ok gops'' s' ∧ same_after_restart (with_metadata m s) s'.
Proof.
  intros Hs Hm Hx Hd. unfold start. rewrite Hcreate. cbn [rbind].
  assert (with_eviction s0 (load_metadata document (co_eviction s0)) = with_metadata m s0) as ->.
  { destruct Hd as [->|[-> ->]]; [by eapply load_metadata_ok|]. rewrite with_metadata_self. by destruct s0. }
  destruct Hx as [->|[-> ->]].
  - exists (gops ++ [ORestart]). eexists. split; [done|]. eapply load_checkpoint_ok; [done|by eapply co_pins].
  - exists gops. eexists. split; [done|]. split; [by eapply with_metadata_ok|]. constructor; try done. by destruct create_config as [_ ->].
Qed.

Lemma restart_ok gops s : co_ok gops s → ∃ s', restart cfg s = Ok s' ∧ co_ok (gops ++ [ORestart]) s' ∧ same_after_restart s s'.
Proof.
  intros Hs. unfold restart, start. rewrite Hcreate. cbn [rbind]. rewrite (load_metadata_ok gops s Hs). eexists. split; [done|].
  pose proof (load_checkpoint_ok gops s s Hs (co_pins _ _ Hs)) as Hl. by rewrite with_metadata_self in Hl.
Qed.

(** ** Steps and runs *)

Definition co_op_ok (o : co_op K E) : Prop := match o with Report batches => Forall batch_ok batches | _ => True end.

Lemma co_step_ok o gops s : co_ok gops s → co_op_ok o →
  ∃ gops' s', co_step cfg o s = (Ok tt, s') ∧ co_ok (gops ++ gops') s'.
Proof.
  intros Hs Ho. destruct o as [batches|inst|i now|i|now|keys|keys|keys|salt limit|salt|limit|]; cbn [co_step].
  - destruct (reports_ok batches gops s (mkResponse 0 0 0) Hs Ho) as (r & s1 & E1 & H1 & _). exists (OIngest <$> batches), s1.
    split; [|done]. unfold report_cache_events. by rewrite (bind_ok _ _ _ _ _ E1).
  - exists []. eexists. split; [done|]. rewrite app_nil_r. by eapply co_ok_ext.
  - exists []. eexists. split; [done|]. rewrite app_nil_r. by eapply co_ok_ext.
  - assert (co_ok gops (with_registry s (deregister (co_registry s) i).2)) as H0 by (by eapply co_ok_ext).
    destruct (drop_ok i _ _ H0) as (s1 & E1 & H1 & _). exists [ODrop i]. eexists. split.
    + unfold deregister_instance. rewrite (bind_ok _ _ _ (with_registry s (deregister (co_registry s) i).2) tt) by done.
      rewrite (bind_ok _ _ _ _ _ E1). done.
    + destruct H1 as [Hg Eg [Ht Hu Hd Hv [hs Hc] Hf Hset]]. constructor; [done|done|]. constructor; try done.
      eexists. by apply (forget_registry (E := E)).
  - unfold health_check. rewrite (bind_ok _ _ _ s s) by done. destruct (evict_stale _ _ _) as [evicted registry].
    assert (co_ok gops (with_registry s registry)) as H0 by (by eapply co_ok_ext).
    destruct (drops_ok evicted _ _ H0) as (s1 & E1 & H1 & _). exists (ODrop <$> evicted), s1. split; [|done].
    by rewrite (bind_ok _ _ _ (with_registry s registry) tt).
  - exists []. eexists. split; [done|]. rewrite app_nil_r. apply (controller_ok gops s (pin keys)); [done|]. intros c. split_and!; [done..|].
    apply pins_fold. intros. by apply pin_key_spec.
  - exists []. eexists. split; [done|]. rewrite app_nil_r. apply (controller_ok gops s (unpin keys)); [done|]. intros c. split_and!; [done..|].
    apply pins_fold. intros. by apply unpin_key_spec.
  - exists []. eexists. split; [done|]. rewrite app_nil_r. apply (controller_ok gops s (drop_pins keys)); [done|]. intros c. split_and!; [done..|].
    apply pins_fold. intros. by apply pins_ddel.
  - exists []. eexists. split; [done|]. rewrite app_nil_r. by apply (controller_ok gops s (λ c, with_quota c _)).
  - exists []. eexists. split; [done|]. rewrite app_nil_r. by apply (controller_ok gops s (λ c, with_quota c _)).
  - exists []. eexists. split; [done|]. rewrite app_nil_r. by apply (controller_ok gops s (λ c, with_quota c _)).
  - destruct (restart_ok gops s Hs) as (s' & -> & H1 & _). by exists [ORestart], s'.
Qed.

Lemma co_runs ops : ∀ gops s, co_ok gops s → Forall co_op_ok ops →
  ∃ gops' s', for_each (co_step cfg) ops s = (Ok tt, s') ∧ co_ok (gops ++ gops') s'.
Proof.
  induction ops as [|o ops IH]; intros gops s Hs Hops; [exists [], s; by rewrite app_nil_r|]. apply Forall_cons in Hops as [Ho Hops].
  destruct (co_step_ok o gops s Hs Ho) as (g1 & s1 & E1 & H1). destruct (IH _ s1 H1 Hops) as (g2 & s2 & E2 & H2).
  exists (g1 ++ g2), s2. rewrite app_assoc. split; [|done]. cbn [for_each]. by rewrite (bind_ok _ _ _ _ _ E1).
Qed.

Lemma init_ok : co_ok [] s0.
Proof.
  destruct create_config as [Econf Es0]. constructor; [done|by rewrite Es0|].
  pose proof (init_run_ok (K := K) _ _ _ _ Econf) as Hi. destruct (from_config_init _ _ _ _ Econf) as (Ed & _).
  constructor; [by apply List.Forall_nil|by rewrite Es0|done| | | |].
  - intros k id. unfold view_of, placements_of. by rewrite Ed.
  - rewrite Es0. exists (λ _, []). apply init_registry.
  - rewrite Es0. cbn. constructor; cbn; [apply um_init_ok| | |].
    + constructor; cbn; [constructor|done|]. intros salt k Hk. by apply not_elem_of_nil in Hk.
    + intros k Hk. unfold l2_bytes in Hk. cbn in Hk. lia.
    + split; constructor.
  - by rewrite Es0.
Qed.

Lemma coordinator_reachable_ok ops : Forall co_op_ok ops → ∃ gops s, for_each (co_step cfg) ops s0 = (Ok tt, s) ∧ co_ok gops s.
Proof. intros Hops. destruct (co_runs ops [] s0 init_ok Hops) as (g & s & E1 & H1). by exists g, s. Qed.

End proofs.
