(* ===== verification/CoordinatorTheorems.v ===== *)
(** * The coordinator: theorems

    What holds of every run of the coordinator: its views agree, its eviction plan
    is exact and complete, obeyed plans bring a tenant under its quota, and a
    restart keeps what was saved, and loses the membership. *)

From S2P Require Import Prelude PyDict PyState PySet PyFloat BatchBlob ObjectKey EventGate CacheEvents CoordinatorKeys UsageManager.
From S2P Require Import BlendIndex KeyDirectory KeyDirectoryProofs DirectoryRuns DirectoryTheorems ServerConfig ViewsAgree.
From S2P Require Import L1Manager EvictionPolicy QuotaManager EvictionController FleetEviction FleetEvictionProofs Coordinator CoordinatorProofs.

Open Scope Z_scope.

Section lemmas.
(** slices cut a list into pieces of at most [n] *)
Lemma slices_spec {A} n : (0 < n)%nat → ∀ fuel (l : list A), (length l <= fuel)%nat →
  concat (slices fuel n l) = l ∧ Forall (λ c, (0 < length c <= n)%nat) (slices fuel n l).
Proof.
  intros Hn. induction fuel as [|fuel IH]; intros [|x l] Hl; [split; [done|constructor]|cbn in Hl; lia|split; [done|constructor]|].
  cbn [slices]. destruct (IH (drop n (x :: l))) as [IH1 IH2]; [rewrite length_drop; cbn in *; lia|].
  split; [cbn [concat]; rewrite IH1; apply take_drop|]. constructor; [|done]. rewrite length_take. cbn. lia.
Qed.
End lemmas.

(** C18: The coordinator's views agree. After any sequence of reported batches,
    registrations, heartbeats, departures, health checks, operator requests and
    restarts, nothing has raised, and the two read models of the stream hold the
    same placements: the L2 bytes the usage view charges a key are the sizes of its
    L2 placements in the directory; every placement in the directory that is not a
    shared pool in L1 is accounted with its size, under its owner; and every
    accounted placement that is not such a pool is in the directory. *)
Theorem coordinator_views_agree {K E F} `{EqDecision K} `{KC : KeyCodec K E F} `{NP : UInt32Array}
    (cfg : MPCoordinatorConfig) (s0 : Coordinator K) (ops : list (co_op K E)) :
  create_app cfg = Ok s0 → Forall co_op_ok ops →
  ∃ s, for_each (co_step cfg) ops s0 = (Ok tt, s) ∧
    (∀ k, get_key_bytes (co_usage s) CacheEvents.L2 k =
          sizes_of (filter (λ p, pl_tier p = CacheEvents.L2) (placements_of (co_directory s) k))) ∧
    (∀ k p, p ∈ placements_of (co_directory s) k → (pl_tier p = CacheEvents.L1 → pl_shared p = false) →
       dget (um_placement_sizes (co_usage s))
         (pl_tier p, k, (if pl_shared p then "" else pl_instance_id p)%string, pl_backend p) = Some (pl_size_bytes p)) ∧
    (∀ t k owner backend n, dget (um_placement_sizes (co_usage s)) (t, k, owner, backend) = Some n →
       (t = CacheEvents.L1 → owner ≠ ""%string) →
       ∃ p, p ∈ placements_of (co_directory s) k ∧ pl_tier p = t ∧ pl_backend p = backend ∧ pl_size_bytes p = n ∧
         if pl_shared p then owner = ""%string else pl_instance_id p = owner).
Proof.
  intros Hc Hops. destruct (coordinator_reachable_ok cfg s0 Hc ops Hops) as (gops & s & Es & [_ _ [Ht Hu Hd Hv _ Hf _]]).
  assert (agree (view_of (co_directory s)) (dget (um_placement_sizes (co_usage s)))) as Ha.
  { destruct (agree_deliveries _ Ht) as [A1 A2 A3]. constructor.
    - intros k id p. rewrite Hv. apply A1.
    - intros k id p. rewrite Hv. apply A2.
    - intros k id Hid Hst. rewrite Hv, Hu. by apply A3. }
  pose proof Ha as [Hl Ho Hs]. pose proof (uo_tallies _ (fl_usage _ _ Hf)) as Htl. pose proof (placements_ids (co_directory s)) as Hids.
  assert (∀ k p, p ∈ placements_of (co_directory s) k ↔ view_of (co_directory s) k (identity_of p) = Some p) as Hpl.
  { intros k p. unfold view_of. apply placed_elem. apply Hids, Hd. }
  exists s. split_and!; [done| | |].
  - intros k. rewrite (re_key _ (tallies_reads _ Htl)). apply key_bytes_placements; [done|apply Hids, Hd|apply Htl].
  - intros k p Hp%Hpl Hst. destruct (Hl _ _ _ Hp) as [_ Hsc]. pose proof (Hs k (identity_of p) Hsc Hst) as Hx. rewrite Hp in Hx. exact (eq_sym Hx).
  - intros t k owner backend n Hn Hst. set (id := (is_empty owner, owner, t, backend) : identity).
    assert (scoped id) as Hid by (unfold scoped, id, id_shared, id_owner; cbn; by destruct owner).
    assert (settled id) as Hse by (intros Et; apply is_empty_spec; by apply Hst).
    pose proof (Hs k id Hid Hse) as Hx. change (pid_of k id) with (t, k, owner, backend) in Hx. rewrite Hn in Hx.
    destruct (view_of (co_directory s) k id) as [p|] eqn:Ep; [|done]. injection Hx as <-. destruct (Hl _ _ _ Ep) as [Hpi _]. exists p.
    assert (p ∈ placements_of (co_directory s) k) by (apply Hpl; by rewrite Hpi).
    unfold identity_of, id in Hpi. injection Hpi as H1 H2 H3 H4. split_and!; try done. by destruct (pl_shared p).
Qed.


(** ** Obeyed plans *)

Section drain.
Context {K E F : Type} `{EqDecision K} `{KC : KeyCodec K E F} `{NP : UInt32Array}.
Implicit Types (s : Coordinator K).

(** [n] passes of the eviction loop for [salt], each obeyed by the fleet: between a
    pass and the next the stream brings deletions (and fences), reports every key
    the plan named for the salt, and leaves it without bytes in L2 *)
Inductive obeyed (salt : string) : nat → Coordinator K → Coordinator K → Prop :=
| obeyed_0 s : obeyed salt 0 s s
| obeyed_S n s plan (ds : list (delivery string (batch_body E))) s1 s2 :
    compute_eviction_plan (co_usage s) (co_eviction s) = Ok plan →
    Forall delivery_ok ds → Forall is_deletion ds →
    for_each broadcast ds s = (Ok tt, s1) →
    (∀ k, k ∈ default [] (dget plan salt) → reports ds k ∧ get_key_bytes (co_usage s1) CacheEvents.L2 k = 0) →
    obeyed salt n s1 s2 → obeyed salt (S n) s s2.

Lemma settings_same c c' : same_settings c c' → (∀ salt, (length (order_of c' salt) <= length (order_of (K := K) c salt))%nat) →
  settings_ok c → settings_ok c'.
Proof.
  intros (E1 & E2 & E3 & E4) Hl [Hr Hlim Ho]. constructor; [by rewrite E2|intros; rewrite E1 in *; by eapply Hlim|].
  intros salt. specialize (Hl salt). specialize (Ho salt). lia.
Qed.

(** tracked keys only go away *)
Lemma orders_shrink c c' salt : policy_ok (fe_policy c) → policy_ok (fe_policy c') → (∀ k, is_tracked c' k → is_tracked c k) →
  (length (order_of c' salt) <= length (order_of (K := K) c salt))%nat.
Proof.
  intros Hp Hp' Hsub. rewrite <- !(length_fmap fst). apply submseteq_length, NoDup_submseteq.
  - destruct Hp' as [_ Ho _]. unfold order_of, EvictionPolicy.bucket. destruct (dget _ salt) eqn:Ed; [by apply (Ho _ _ Ed)|constructor].
  - intros k Hk. assert (key_cache_salt k = salt) as <- by (by apply (po_salts _ Hp')). by apply Hsub.
Qed.

Lemma drain_loop cfg (s0 : Coordinator K) salt n s s' : obeyed salt n s s' → ∀ t, consumers_ok cfg s0 t s →
  settings_ok (co_eviction s) → fltb float_0 (fe_eviction_ratio (co_eviction s)) = true →
  (∀ k, key_cache_salt k = salt → dget (fe_pin_counts (co_eviction s)) k = None) →
  reached_limit (co_usage s) (co_eviction s) salt = None ∨ (length (order_of (co_eviction s) salt) <= n)%nat →
  reached_limit (co_usage s') (co_eviction s') salt = None.
Proof.
  induction 1 as [s|n s plan ds s1 s2 Ep Hds Hdel Eb Hobey _ IH]; intros t Hs Hset Hr Hpin Hn.
  - destruct (reached_limit _ _ salt) as [limit|] eqn:El; [|done]. exfalso. destruct Hn as [?|Hn]; [done|].
    destruct (reached_limit_bytes _ _ _ _ El) as [Hb _]. pose proof (cs_fleet _ _ _ _ Hs) as [Hu Hp Htr _].
    destruct (salt_bytes_key _ _ Hu Hb) as (k & Hk & Hkb). apply Htr in Hkb. unfold is_tracked in Hkb. rewrite Hk in Hkb.
    destruct (order_of (co_eviction s) salt); [by apply not_elem_of_nil in Hkb|cbn in Hn; lia].
  - destruct (broadcasts_ok cfg s0 ds t s Hs Hds) as (s1' & Eb' & Hs1 & _ & _ & Epair). rewrite Eb in Eb'. injection Eb' as <-.
    pose proof (cs_fleet _ _ _ _ Hs) as Hf. pose proof (cs_fleet _ _ _ _ Hs1) as Hf1.
    destruct (deletions_drain ds _ _ Hf Hds Hdel) as (u' & c' & Epair' & _ & Hsame & _ & _ & Hsub & Hgone & Hsalt).
    rewrite Epair in Epair'. injection Epair' as <- <-.
    destruct (round_shrinks (co_usage s) (co_eviction s) (co_usage s1) (co_eviction s1) plan salt Hf (fl_policy _ _ Hf1) Hset Hr Hpin Ep Hsub) as [Hle Hlt].
    { intros k Hk. destruct (Hobey k Hk) as [Hrep H0]. apply Hgone; [done|]. rewrite <- l2_bytes_read; [done|apply Hf1]. }
    pose proof Hsame as (Q1 & Q2 & Q3 & Q4). apply (IH (t ++ ds)); [done| |by rewrite Q2|by rewrite Q4|].
    + eapply settings_same; [done| |done]. intros salt'. apply orders_shrink; [apply Hf|apply Hf1|done].
    + destruct (reached_limit (co_usage s) (co_eviction s) salt) as [limit|] eqn:El.
      * right. specialize (Hlt ltac:(done)). destruct Hn as [?|Hn]; [done|lia].
      * left. eapply below_stays; [exact Hsame|apply Hsalt|exact El].
Qed.
End drain.

(** C32: Obeyed plans bring a tenant under its quota. In every reachable state,
    for a tenant without pinned keys, a positive eviction ratio and settings that floats
    represent: after as many
    obeyed passes as the tenant has tracked keys, its L2 bytes are zero, or it has no
    limit, or they are below the watermark times its limit. A pass is obeyed when
    the fleet deletes the keys the plan named, wherever they are placed, and reports
    it, in any order and along with other deletions, and nothing but deletions is
    reported in between. *)
Theorem eviction_converges {K E F} `{EqDecision K} `{KC : KeyCodec K E F} `{NP : UInt32Array}
    (cfg : MPCoordinatorConfig) (s0 : Coordinator K) (ops : list (co_op K E)) (salt : string) (n : nat) (s s' : Coordinator K) :
  create_app cfg = Ok s0 → Forall co_op_ok ops → for_each (co_step cfg) ops s0 = (Ok tt, s) →
  settings_ok (co_eviction s) → fltb float_0 (fe_eviction_ratio (co_eviction s)) = true →
  (∀ k, key_cache_salt k = salt → dget (fe_pin_counts (co_eviction s)) k = None) →
  (length (order_of (co_eviction s) salt) <= n)%nat → obeyed (E := E) salt n s s' →
  get_salt_bytes (co_usage s') CacheEvents.L2 salt <= 0 ∨
  match effective_limit_bytes (fe_quota_manager (co_eviction s')) salt with
  | None => True
  | Some limit => int_ltb_float (get_salt_bytes (co_usage s') CacheEvents.L2 salt)
                    (fmul (fe_trigger_watermark (co_eviction s')) (float_of_int limit)) = true
  end.
Proof.
  intros Hc Hops Es Hset Hr Hpin Hn Hob. destruct (coordinator_reachable_ok cfg s0 Hc ops Hops) as (gops & s1 & Es1 & [_ _ Hcs]).
  rewrite Es in Es1. injection Es1 as <-. pose proof (drain_loop cfg s0 salt n s s' Hob _ Hcs Hset Hr Hpin (or_intror Hn)) as Hx.
  unfold reached_limit in Hx. cbv zeta in Hx. destruct (Z.leb_spec (get_salt_bytes (co_usage s') CacheEvents.L2 salt) 0); [by left|right].
  destruct (effective_limit_bytes _ salt); [|done]. by destruct (int_ltb_float _ _).
Qed.

(** ** Restarts *)

Section restarts.
Context {K E F : Type} `{EqDecision K} `{KC : KeyCodec K E F} `{NP : UInt32Array}.

(** where victims would go does not matter to the plan *)
Lemma actions_destination (pool : list K) dst dsts dst' dsts' r f :
  (acts <-? eviction_actions pool dst dsts r f; Ok (concat (ea_keys <$> acts)))%py =
  (acts <-? eviction_actions pool dst' dsts' r f; Ok (concat (ea_keys <$> acts)))%py.
Proof.
  unfold eviction_actions. destruct pool as [|k0 ks]; [done|]. destruct (target_count _ _) as [n|]; [|done]. cbn [rbind].
  destruct (n =? 0); [done|]. by destruct (select_keys f n [] (k0 :: ks)).
Qed.

Lemma plan_same (u u' : CacheUsageManager K) (c c' : FleetEvictionController K) :
  (∀ salt, get_salt_bytes u' CacheEvents.L2 salt = get_salt_bytes u CacheEvents.L2 salt) →
  iso_per_salt_order (fe_policy c') = iso_per_salt_order (fe_policy c) → same_settings c c' →
  compute_eviction_plan u' c' = compute_eviction_plan u c.
Proof.
  intros Hb Ho (E1 & E2 & E3 & E4). unfold compute_eviction_plan, iso_get_tracked_salts. rewrite Ho.
  assert (∀ salt, salt_victims u' c' salt = salt_victims u c salt) as Hv.
  { intros salt. unfold salt_victims. rewrite Hb, E1, E2, E3, E4. cbv zeta. destruct (_ <=? 0); [done|].
    destruct (effective_limit_bytes _ _) as [limit|]; [|done]. destruct (py_float limit) as [l|]; [|done]. cbn [rbind].
    destruct (int_ltb_float _ _); [done|]. unfold iso_get_eviction_actions. rewrite Ho. apply actions_destination. }
  generalize (dkeys (iso_per_salt_order (fe_policy c))). intros salts. generalize ([] : list (string * list K)).
  induction salts as [|salt salts IH]; intros plan; [done|]. cbn [plan_salts]. rewrite Hv. destruct (salt_victims u c salt); [apply IH|done].
Qed.
End restarts.

(** C34: What a restart of the coordinator keeps. The old process wrote its checkpoint in
    some reachable state [s1], and the metadata at its last change of a pin or a quota, so
    with the settings of a later state [s2] ([s2] is [s1] after a clean stop, which writes
    a last checkpoint). A new process comes up from them, or without one or both of them
    when their paths are not configured. The registry of live servers is empty until they
    heartbeat again. The cursors of the gate, the declared capacities, the usage per key,
    per tenant and in total and the placements that lookups return are those of [s1] with
    a checkpoint, and those of a fresh process without; the quotas and the pins are those
    of [s2] with metadata, and those of a fresh process without; and the eviction plan is
    the plan for this usage and recency with these quotas and pins. The byte encodings of
    the two artifacts are not modelled. *)
Theorem coordinator_restart_transparent {K E F} `{EqDecision K} `{KC : KeyCodec K E F} `{NP : UInt32Array}
    (cfg : MPCoordinatorConfig) (s0 : Coordinator K) (ops1 ops2 : list (co_op K E)) :
  create_app cfg = Ok s0 → Forall co_op_ok ops1 → Forall co_op_ok ops2 →
  ∃ s1 s2, for_each (co_step cfg) ops1 s0 = (Ok tt, s1) ∧ for_each (co_step cfg) ops2 s1 = (Ok tt, s2) ∧
  ∀ checkpoint_path metadata_path : bool, ∃ s',
    start cfg (if metadata_path then Some (save_metadata s2) else None) (if checkpoint_path then Some (save_checkpoint s1) else None) = Ok s' ∧
    let s := if checkpoint_path then s1 else s0 in
    let c := co_eviction (if metadata_path then s2 else s0) in
    co_registry s' = [] ∧ co_gate s' = co_gate s ∧ co_config s' = co_config s ∧
    fe_quota_manager (co_eviction s') = fe_quota_manager c ∧ fe_pin_counts (co_eviction s') = fe_pin_counts c ∧
    (∀ t k, get_key_bytes (co_usage s') t k = get_key_bytes (co_usage s) t k) ∧
    (∀ t salt, get_salt_bytes (co_usage s') t salt = get_salt_bytes (co_usage s) t salt) ∧
    (∀ t, get_total_bytes (co_usage s') t = get_total_bytes (co_usage s) t) ∧
    (∀ keys, lookup (co_directory s') keys = lookup (co_directory s) keys) ∧
    compute_eviction_plan (co_usage s') (co_eviction s') =
    compute_eviction_plan (co_usage s) (with_quota (with_pins (co_eviction s) (fe_pin_counts c)) (fe_quota_manager c)).
Proof.
  intros Hc Hops1 Hops2. destruct (coordinator_reachable_ok cfg s0 Hc ops1 Hops1) as (g1 & s1 & E1 & H1).
  destruct (co_runs cfg s0 Hc ops2 g1 s1 H1 Hops2) as (g2 & s2 & E2 & H2). pose proof (init_ok cfg s0 Hc) as H0.
  exists s1, s2. split_and!; [done..|]. intros cp mp.
  assert (∃ g, co_ok cfg s0 g (if cp then s1 else s0)) as [g Hg] by (destruct cp; eauto).
  assert (∃ g, co_ok cfg s0 g (if mp then s2 else s0)) as [g' Hm] by (destruct mp; eauto).
  destruct (start_ok cfg s0 Hc g g' _ _ (if cp then Some (save_checkpoint s1) else None) (if mp then Some (save_metadata s2) else None) Hg Hm)
    as (gs & s' & Er & Hs' & [R1 R2 R3 R4 R5 R6 R7]); [destruct cp; auto|destruct mp; auto|].
  exists s'. split; [done|]. cbv zeta. set (s := if cp then s1 else s0) in *. set (c := co_eviction (if mp then s2 else s0)).
  pose proof (tallies_reads _ (uo_tallies _ (fl_usage _ _ (cs_fleet _ _ _ _ (ck_consumers _ _ _ _ Hg))))) as T.
  pose proof (tallies_reads _ (uo_tallies _ (fl_usage _ _ (cs_fleet _ _ _ _ (ck_consumers _ _ _ _ Hs'))))) as T'.
  pose proof R7 as (Q1 & _ & _ & Q4).
  assert (∀ t salt, get_salt_bytes (co_usage s') t salt = get_salt_bytes (co_usage s) t salt) as Hsalt
    by (intros; by rewrite (re_salt _ T), (re_salt _ T'), R3).
  split_and!; try done.
  - intros t k. by rewrite (re_key _ T), (re_key _ T'), R3.
  - intros t. by rewrite (re_total _ T), (re_total _ T'), R3.
  - intros keys. unfold lookup. apply list_fmap_ext. intros i k _. by rewrite (sr_records _ _ R4).
  - apply plan_same; [|done|done]. intros salt. apply Hsalt.
Qed.

Lemma dispatch_keys {K E F} `{KC : KeyCodec K E F} target (chunks : list (list K)) :
  concat (di_keys <$> ((λ chunk, mkDispatch target (to_encoded_object_key <$> chunk)) <$> chunks)) = to_encoded_object_key <$> concat chunks.
Proof.
  induction chunks as [|ch chunks IH]; [done|]. rewrite !fmap_cons. cbn [concat di_keys]. by rewrite IH, fmap_app.
Qed.

(** A pass asks one registered server to delete exactly what the plan names:
    the requests of a pass all go to one member of the fleet, carry between one and
    MAX_DELETE_BATCH keys each, and together list the planned keys once each, tenant
    by tenant; nothing is sent when the plan or the fleet is empty. *)
Theorem eviction_dispatch_exact {K E F} `{EqDecision K} `{KC : KeyCodec K E F} (choice : nat) (registry : InstanceRegistry)
    (u : CacheUsageManager K) (c : FleetEvictionController K) plan (ds : list (dispatch E)) :
  execute_evictions choice registry u c = Ok (plan, ds) →
  compute_eviction_plan u c = Ok plan ∧
  (∃ target, (target ∈ dvals registry ∨ ds = []) ∧ Forall (λ d, di_target d = target) ds) ∧
  Forall (λ d, 1 <= Z.of_nat (length (di_keys d)) <= MAX_DELETE_BATCH) ds ∧
  concat (di_keys <$> ds) = (if decide (registry = []) then [] else to_encoded_object_key <$> concat (dvals plan)).
Proof.
  unfold execute_evictions. destruct (compute_eviction_plan u c) as [plan'|] eqn:Ep; [|done]. cbn [rbind]. intros Hx.
  assert (∀ t0 : MPInstance, (∃ target, (target ∈ dvals registry ∨ ([] : list (dispatch E)) = []) ∧ Forall (λ d, di_target d = target) ([] : list (dispatch E)))) as Hnone.
  { intros t0. exists t0. split; [by right|constructor]. }
  set (dummy := mkMPInstance "" "" 0 float_0 float_0 [] "" 0).
  destruct plan' as [|sk plan'']; [injection Hx as <- <-; split_and!; [done|by apply Hnone|constructor|by destruct (decide _)]|].
  set (plan' := sk :: plan'') in *. unfold random_instance in Hx. destruct registry as [|r rs] eqn:Er.
  { injection Hx as <- <-. split_and!; [done|by apply Hnone|constructor|done]. }
  rewrite <- Er in *. destruct (dvals registry) as [|i0 is0] eqn:Ed; [by rewrite Er in Ed|]. rewrite <- Ed in *.
  destruct (dvals registry !! (choice mod length (dvals registry))%nat) as [target|] eqn:Et.
  - injection Hx as <- <-. destruct (slices_spec (Z.to_nat MAX_DELETE_BATCH) ltac:(unfold MAX_DELETE_BATCH; lia) (length (concat (dvals plan')))
      (concat (dvals plan')) (le_n _)) as [Hcat Hsz].
    split_and!; [done| | |].
    + exists target. split; [left; by eapply list_elem_of_lookup_2|]. apply Forall_fmap, Forall_true. done.
    + apply Forall_fmap. eapply Forall_impl; [exact Hsz|]. intros ch Hch. cbn. rewrite length_fmap. unfold MAX_DELETE_BATCH in *. lia.
    + rewrite decide_False by (by rewrite Er). rewrite dispatch_keys. f_equal. exact Hcat.
  - exfalso. apply lookup_ge_None in Et. pose proof (Nat.mod_upper_bound choice (length (dvals registry))) as Hm.
    rewrite Ed in Hm, Et. cbn [length] in Hm, Et. lia.
Qed.
