(* ===== verification/CoordinatorDemo.v ===== *)
(** * A small fleet

    Two servers, a tenant over its quota, a restart, and the witnesses of the
    coordinator's theorems; then two runs in which the coordinator does not do what
    its documents say. *)

From S2P Require Import Prelude PyDict PyState PySet PyFloat BatchBlob ObjectKey EventGate CacheEvents CoordinatorKeys UsageManager.
From S2P Require Import BlendIndex KeyDirectory KeyDirectoryProofs DirectoryRuns DirectoryTheorems ServerConfig ViewsAgree.
From S2P Require Import L1Manager EvictionPolicy QuotaManager EvictionController FleetEviction FleetEvictionProofs Coordinator CoordinatorProofs CoordinatorTheorems.

Open Scope Z_scope.

(** ** Checking the sizes *)

Section check.
Context {K : Type}.

Definition settings_check (c : FleetEvictionController K) : bool :=
  SpecFloat.valid_binary prec emax (fe_eviction_ratio c)
  && forallb (λ sl : string * Z, (0 <=? sl.2) && (sl.2 <? 2 ^ 512)) (qm_limits (fe_quota_manager c))
  && match qm_default_limit_bytes (fe_quota_manager c) with Some l => (0 <=? l) && (l <? 2 ^ 512) | None => true end
  && forallb (λ so : string * list (K * unit), Z.of_nat (length so.2) <? 2 ^ 53) (iso_per_salt_order (fe_policy c)).

Lemma settings_checked c : settings_check c = true → settings_ok c.
Proof.
  unfold settings_check. rewrite !andb_true_iff. intros [[[Hr Hl] Hd] Ho]. constructor; [done| |].
  - intros salt limit. unfold effective_limit_bytes. destruct (dget _ salt) as [l|] eqn:El.
    + intros [= <-]. apply dget_elem_of, list_elem_of_In in El. rewrite forallb_forall in Hl. specialize (Hl _ El). cbn in Hl. lia.
    + intros El'. rewrite El' in Hd. lia.
  - intros salt. unfold order_of, EvictionPolicy.bucket. destruct (dget _ salt) as [o|] eqn:Eo; [|done].
    apply dget_elem_of, list_elem_of_In in Eo. rewrite forallb_forall in Ho. specialize (Ho _ Eo). cbn [snd] in Ho. lia.
Qed.
End check.

(** ** The fleet *)

Definition demo_cfg : MPCoordinatorConfig := mkConfig (float_of_int 5) demo_half float_1 2 true 1.
Definition demo_server (i : string) (beat : Z) : MPInstance :=
  mkMPInstance i "10.0.0.1" 8000 float_0 (float_of_int beat) [] "" 0.

Definition stored (i : string) (inc seq : Z) (tier : Tier) (backend : string) (shared : bool) (h : byte) (n : Z) : Batch EncodedObjectKey :=
  example_batch i inc seq STORE tier backend shared [mkEntry (example_encoded h "t") n [] (-1)].
Definition deleted (i : string) (inc seq : Z) (backend : string) (h : byte) : Batch EncodedObjectKey :=
  example_batch i inc seq DELETE CacheEvents.L2 backend true [mkEntry (example_encoded h "t") 0 [] (-1)].

(** two servers store in memory and in a bucket; one batch arrives twice; the tenant
    gets a quota below its usage; the coordinator restarts *)
Definition demo_ops : list (co_op Key EncodedObjectKey) :=
  [Register (demo_server "a" 1); Register (demo_server "b" 2);
   Report [stored "a" 1 1 CacheEvents.L1 "dram" false x01 10; stored "a" 1 2 CacheEvents.L2 "s3" true x01 6];
   Report [stored "b" 1 1 CacheEvents.L2 "s3" true x02 4; stored "a" 1 2 CacheEvents.L2 "s3" true x01 6];
   SetSaltQuota "t" 5; RestartCoordinator; Register (demo_server "a" 3)].

Definition demo_start : Coordinator Key := match create_app demo_cfg with Ok s => s | Raise _ => mkCoordinator [] [] um_init kd_init sc_init (fe_init demo_half float_1) end.
Definition demo_state : Coordinator Key := (for_each (co_step demo_cfg) demo_ops demo_start).2.

Definition reported (ops : list (co_op Key EncodedObjectKey)) : list (Batch EncodedObjectKey) :=
  concat ((λ o, match o with Report bs => bs | _ => [] end) <$> ops).

Lemma reported_ok ops : new_request (reported ops) = Ok tt → Forall (co_op_ok (F := EncodedKey)) ops.
Proof.
  intros H%(new_request_ok (F := EncodedKey)). unfold reported in H. induction ops as [|o ops IH]; [by apply List.Forall_nil|].
  rewrite fmap_cons in H. cbn [concat] in H. apply Forall_app in H as [H1 H2]. apply List.Forall_cons; [by destruct o|by apply IH].
Qed.

Lemma demo_ops_ok : Forall (co_op_ok (F := EncodedKey)) demo_ops.
Proof. apply reported_ok. vm_compute. reflexivity. Qed.
Lemma demo_create : create_app demo_cfg = Ok demo_start.
Proof. vm_compute. reflexivity. Qed.

Definition demo_key (h : byte) : list Key :=
  match CacheEvents.to_object_key (example_encoded h "t") with Ok k => [k] | Raise _ => [] end.
Definition demo_plan : list (string * list Key) := [("t"%string, demo_key x01)].

Lemma coordinator_views_agree_witness :
  ∃ s, for_each (co_step demo_cfg) demo_ops demo_start = (Ok tt, s) ∧
    get_total_bytes (co_usage s) CacheEvents.L2 = 10 ∧
    ∀ k, get_key_bytes (co_usage s) CacheEvents.L2 k =
         sizes_of (filter (λ p, pl_tier p = CacheEvents.L2) (placements_of (co_directory s) k)).
Proof.
  destruct (coordinator_views_agree demo_cfg demo_start demo_ops demo_create demo_ops_ok) as (s & Es & Hk & _).
  exists s. split; [exact Es|]. split; [|exact Hk].
  assert (s = demo_state) as -> by (unfold demo_state; by rewrite Es). vm_compute. reflexivity.
Defined.

Lemma demo_settings : settings_ok (co_eviction demo_state).
Proof. apply settings_checked. vm_compute. reflexivity. Qed.


(** the fleet deletes what the first plan names; the second pass has nothing to do *)
Definition demo_deletions : list (delivery string (batch_body EncodedObjectKey)) := [Consume (deleted "b" 1 2 "s3" x01)].
Definition demo_after : Coordinator Key := (for_each broadcast demo_deletions demo_state).2.

Lemma demo_obeyed : obeyed (E := EncodedObjectKey) "t" 2 demo_state demo_after.
Proof.
  eapply (obeyed_S _ 1 demo_state demo_plan demo_deletions demo_after).
  - vm_compute. reflexivity.
  - apply deliveries_checked. vm_compute. reflexivity.
  - by apply List.Forall_cons, List.Forall_nil.
  - unfold demo_after. apply ran_ok. vm_compute. reflexivity.
  - intros k Hk. assert (default [] (dget demo_plan "t"%string) = demo_key x01) as Ek by reflexivity. rewrite Ek in Hk. split.
    + exists (deleted "b" 1 2 "s3" x01). split; [left|]. split; [reflexivity|].
      assert ((keyed_entries (K := Key) (bo_entries (b_body (deleted "b" 1 2 "s3" x01)))).*1 = demo_key x01) as E2 by (vm_compute; reflexivity).
      rewrite E2. exact Hk.
    + assert (forallb (λ k, get_key_bytes (co_usage demo_after) CacheEvents.L2 k =? 0) (demo_key x01) = true) as Hall by (vm_compute; reflexivity).
      rewrite forallb_forall in Hall. apply Z.eqb_eq, Hall. by apply list_elem_of_In.
  - eapply (obeyed_S _ 0 demo_after [] [] demo_after); [vm_compute; reflexivity|by apply List.Forall_nil|by apply List.Forall_nil|reflexivity| |apply obeyed_0].
    intros k Hk. by apply not_elem_of_nil in Hk.
Qed.

Lemma eviction_converges_witness :
  int_ltb_float (get_salt_bytes (co_usage demo_after) CacheEvents.L2 "t") (fmul float_1 (float_of_int 5)) = true.
Proof.
  assert (for_each (co_step demo_cfg) demo_ops demo_start = (Ok tt, demo_state)) as Es by (unfold demo_state; apply ran_ok; vm_compute; reflexivity).
  assert (fe_pin_counts (co_eviction demo_state) = []) as Ep by (vm_compute; reflexivity).
  destruct (eviction_converges demo_cfg demo_start demo_ops "t" 2 demo_state demo_after demo_create demo_ops_ok Es demo_settings) as [H|H].
  - vm_compute. reflexivity.
  - intros k _. by rewrite Ep.
  - vm_compute. lia.
  - exact demo_obeyed.
  - exfalso. revert H. vm_compute. intros H. by apply H.
  - revert H. assert (effective_limit_bytes (fe_quota_manager (co_eviction demo_after)) "t"%string = Some 5) as -> by (vm_compute; reflexivity).
    assert (fe_trigger_watermark (co_eviction demo_after) = float_1) as -> by (vm_compute; reflexivity). done.
Defined.

(** after the checkpoint, an operator pins the key that would be evicted first *)
Definition later_ops : list (co_op Key EncodedObjectKey) := [Pin (demo_key x01)].

(** The process dies then: the new one plans with the usage of the checkpoint and the
    later pin, and, with no metadata, has no quota and plans nothing. *)
Lemma coordinator_restart_witness :
  ∃ s1 s2 s' s'', for_each (co_step demo_cfg) demo_ops demo_start = (Ok tt, s1) ∧ for_each (co_step demo_cfg) later_ops s1 = (Ok tt, s2) ∧
    start demo_cfg (Some (save_metadata s2)) (Some (save_checkpoint s1)) = Ok s' ∧ co_registry s1 ≠ [] ∧ co_registry s' = [] ∧
    compute_eviction_plan (co_usage s') (co_eviction s') = Ok [("t"%string, demo_key x02)] ∧
    start demo_cfg None (Some (save_checkpoint s1)) = Ok s'' ∧ compute_eviction_plan (co_usage s'') (co_eviction s'') = Ok [].
Proof.
  destruct (coordinator_restart_transparent demo_cfg demo_start demo_ops later_ops demo_create demo_ops_ok) as (s1 & s2 & E1 & E2 & Hs).
  { apply reported_ok. vm_compute. reflexivity. }
  destruct (Hs true true) as (s' & Er & Hr & _ & _ & _ & _ & _ & _ & _ & _ & Hp). destruct (Hs true false) as (s'' & Er' & _ & _ & _ & _ & _ & _ & _ & _ & _ & Hp').
  assert (s1 = demo_state) as -> by (unfold demo_state; by rewrite E1).
  assert (s2 = (for_each (co_step demo_cfg) later_ops demo_state).2) as -> by (by rewrite E2).
  exists demo_state, (for_each (co_step demo_cfg) later_ops demo_state).2, s', s''. split; [exact E1|]. split; [exact E2|]. split; [exact Er|].
  split; [vm_compute; discriminate|]. split; [exact Hr|]. split; [rewrite Hp; vm_compute; reflexivity|]. split; [exact Er'|]. rewrite Hp'. vm_compute. reflexivity.
Defined.

Lemma eviction_dispatch_exact_witness :
  ∃ ds, execute_evictions 7 (co_registry demo_state) (co_usage demo_state) (co_eviction demo_state) = Ok (demo_plan, ds) ∧
    concat (di_keys <$> ds) = [example_encoded x01 "t"].
Proof.
  destruct (execute_evictions 7 (co_registry demo_state) (co_usage demo_state) (co_eviction demo_state)) as [[plan ds]|] eqn:Ex;
    [|exfalso; revert Ex; vm_compute; discriminate].
  pose proof (eviction_dispatch_exact _ _ _ _ _ _ Ex) as (Ep & _ & _ & Hk). exists ds.
  assert (plan = demo_plan) as -> by (apply (f_equal (λ r, match r with Ok p => p | Raise _ => [] end)) in Ep; rewrite <- Ep; vm_compute; reflexivity).
  split; [reflexivity|]. rewrite Hk. vm_compute. reflexivity.
Defined.

(** ** Where the documents disagree *)

(** a shared pool in L1: the server that reported it last is fenced *)
Definition shared_l1 : list (co_op Key EncodedObjectKey) :=
  [Report [stored "a" 1 1 CacheEvents.L1 "cxl" true x01 10]; Deregister "a"].
Definition shared_state : Coordinator Key := (for_each (co_step demo_cfg) shared_l1 demo_start).2.

(** The two views disagree about a shared pool in L1 once its last reporter
    is fenced: after one server stores a key into a shared L1 pool and leaves, the
    directory has no placement of the key, while the usage view still charges its
    bytes to the pool. *)
Theorem shared_l1_fence_disagrees :
  Forall (co_op_ok (F := EncodedKey)) shared_l1 ∧
  for_each (co_step demo_cfg) shared_l1 demo_start = (Ok tt, shared_state) ∧
  lookup (co_directory shared_state) (demo_key x01) = [[]] ∧
  get_total_bytes (co_usage shared_state) CacheEvents.L1 = 10.
Proof. split_and!; [apply reported_ok|unfold shared_state; apply ran_ok|..]; vm_compute; reflexivity. Qed.

(** a server stores and declares, then dies; its silence is noticed, or the
    coordinator restarts first *)
Definition declared_by (i : string) : Batch EncodedObjectKey :=
  {| b_instance_id := i; b_incarnation := 1; b_seq := 2; b_body := mkBody CONFIG CacheEvents.L1 "dram" [] false float_0 100 0 |}.
Definition silent (crash : bool) : list (co_op Key EncodedObjectKey) :=
  [Register (demo_server "a" 1); Report [stored "a" 1 1 CacheEvents.L1 "dram" false x01 10; declared_by "a"]]
  ++ (if crash then [RestartCoordinator] else []) ++ [HealthCheck (float_of_int 60)].
Definition silent_state (crash : bool) : Coordinator Key := (for_each (co_step demo_cfg) (silent crash) demo_start).2.

(** Silence is noticed of registered servers only. A server that stops
    sending heartbeats is fenced by the next health check: its L1 placement is gone
    and its bytes are not charged, though its declared capacity stays. But if the
    coordinator restarts in between, the restored placement, bytes and cursor of the
    dead server stay, since the membership is not persisted and health checks look at
    members. *)
Theorem restart_hides_dead_server :
  Forall (co_op_ok (F := EncodedKey)) (silent false) ∧ Forall (co_op_ok (F := EncodedKey)) (silent true) ∧
  (lookup (co_directory (silent_state false)) (demo_key x01) = [[]] ∧
   get_total_bytes (co_usage (silent_state false)) CacheEvents.L1 = 0 ∧
   sc_get (co_config (silent_state false)) "a" = [mkModule CacheEvents.L1 "dram" 100 false]) ∧
  (lookup (co_directory (silent_state true)) (demo_key x01) = [[mkPlacement "a" 1 CacheEvents.L1 "dram" 10 false]] ∧
   get_total_bytes (co_usage (silent_state true)) CacheEvents.L1 = 10 ∧
   dget (co_gate (silent_state true)) "a"%string = Some (mkCursor 1 2 false) ∧ co_registry (silent_state true) = []).
Proof.
  split_and!; [apply reported_ok|apply reported_ok|..]; vm_compute; reflexivity.
Qed.
