(* ===== verification/ArithmeticCoder.v ===== *)
(** * The arithmetic coder

    [platform/torch_ops.py]: [calculate_cdf], [_encode_single_channel],
    [encode_fast_new], [_decode_single_channel] and [decode_fast_prefsum], the
    coder behind MaKV's entropy payloads. Tensors of unsigned bytes and of words
    are lists of integers. The kernels are compiled by numba, whose integers are
    64 bits wide; every intermediate value is below [2 ^ 49], so they are [Z]. *)

From S2P Require Import Prelude.

Open Scope Z_scope.

(** [a[i]]; numba does not check bounds, and the indices here are in bounds *)
Definition at_ (l : list Z) (i : Z) : Z := default 0 (l !! Z.to_nat i).

Definition MASK32 : Z := 0xFFFFFFFF.
Definition precision : Z := 16.

(** ** The encoder *)

(** the output buffer with its write position, and the bits not yet written *)
Record writer := mkWriter {
  wr_buf : list Z;
  wr_ptr : Z;
  wr_output_reg : Z;
  wr_output_reg_len : Z }.

(** [if ptr < buf_size: out_buf_lc[ptr] = byte; ptr += 1] *)
Definition put_byte (w : writer) (b : Z) : list Z * Z :=
  if wr_ptr w <? Z.of_nat (length (wr_buf w))
  then (<[Z.to_nat (wr_ptr w) := b]> (wr_buf w), wr_ptr w + 1) else (wr_buf w, wr_ptr w).

(** the inlined [flush_bit] *)
Definition flush_bit (w : writer) (bit : Z) : writer :=
  let output_reg := Z.lor (Z.shiftl (wr_output_reg w) 1) bit in
  let output_reg_len := wr_output_reg_len w + 1 in
  if output_reg_len =? 8 then
    let '(buf, ptr) := put_byte w (Z.land output_reg 0xFF) in mkWriter buf ptr 0 0
  else mkWriter (wr_buf w) (wr_ptr w) output_reg output_reg_len.

(** [for _ in range(n)] *)
Definition flush_bits (w : writer) (n : Z) (bit : Z) : writer := Nat.iter (Z.to_nat n) (λ w, flush_bit w bit) w.

(** the sub-interval of [c_low, c_high) out of [2 ^ 16] *)
Definition span_of (low high : Z) : Z :=
  let span := Z.land (high - low + 1) MASK32 in if span =? 0 then 0x100000000 else span.

Definition narrow (low high c_low c_high : Z) : Z * Z :=
  let span := span_of low high in
  (Z.land (low + Z.shiftr (span * c_low) precision) MASK32,
   Z.land (low + Z.shiftr (span * c_high) precision - 1) MASK32).

(** [c_low] and [c_high] of a symbol *)
Definition interval (cdf : list Z) (sym : Z) : Z * Z :=
  let max_symbol := Z.of_nat (length cdf) - 2 in
  (at_ cdf sym, if sym =? max_symbol then 0x10000 else at_ cdf (sym + 1)).

Record encoder := mkEncoder { en_low : Z; en_high : Z; en_pending_bits : Z; en_writer : writer }.

(** [while True]: shift out the bits the two ends agree on *)
Fixpoint enc_renorm (fuel : nat) (e : encoder) : encoder :=
  match fuel with
  | O => e
  | S fuel =>
      let 'mkEncoder low high pending_bits w := e in
      if Z.land high 0x80000000 =? Z.land low 0x80000000 then
        let bit := Z.land (Z.shiftr high 31) 1 in
        let w := flush_bits (flush_bit w bit) pending_bits (1 - bit) in
        enc_renorm fuel (mkEncoder (Z.land (Z.shiftl low 1) MASK32) (Z.land (Z.lor (Z.shiftl high 1) 1) MASK32) 0 w)
      else if negb (Z.land low 0x40000000 =? 0) && (Z.land high 0x40000000 =? 0) then
        enc_renorm fuel (mkEncoder (Z.land (Z.shiftl low 1) 0x7FFFFFFF)
                           (Z.land (Z.lor (Z.shiftl high 1) 0x80000001) MASK32) (pending_bits + 1) w)
      else e
  end.

(** the width doubles with each shift, from 1 to at most [2 ^ 32] *)
Definition renorm_fuel : nat := 33.

Definition encode_symbol (cdf : list Z) (e : encoder) (sym : Z) : encoder :=
  let '(c_low, c_high) := interval cdf sym in
  let '(low, high) := narrow (en_low e) (en_high e) c_low c_high in
  enc_renorm renorm_fuel (mkEncoder low high (en_pending_bits e) (en_writer e)).

(** the final flushing sequence: the buffer and the number of bytes written *)
Definition enc_finish (e : encoder) : list Z * Z :=
  let pending_bits := en_pending_bits e + 1 in
  let bit := if Z.land (en_low e) 0x40000000 =? 0 then 0 else 1 in
  let w := flush_bits (flush_bit (en_writer e) bit) pending_bits (1 - bit) in
  if 0 <? wr_output_reg_len w
  then put_byte w (Z.land (Z.shiftl (wr_output_reg w) (8 - wr_output_reg_len w)) 0xFF)
  else (wr_buf w, wr_ptr w).

Definition _encode_single_channel (cdf_layer_c sym_channel out_buf_lc : list Z) : list Z * Z :=
  enc_finish (foldl (encode_symbol cdf_layer_c) (mkEncoder 0 MASK32 0 (mkWriter out_buf_lc 0 0 0)) sym_channel).

(** ** The decoder *)

(** the byte being read and the position of the next bit in it, from 1 *)
Record reader := mkReader { rd_byte_buffer_offset : Z; rd_bit_idx : Z; rd_byte_buffer : Z }.

Definition next_bit (r : reader) : Z := Z.land (Z.shiftr (rd_byte_buffer r) (8 - rd_bit_idx r)) 1.

Definition byte_before (bs : list Z) (offset end_off : Z) : Z := if offset <? end_off then at_ bs offset else 0.

Definition advance (bs : list Z) (end_off : Z) (r : reader) : reader :=
  let bit_idx := rd_bit_idx r + 1 in
  if bit_idx =? 9 then
    let offset := rd_byte_buffer_offset r + 1 in mkReader offset 1 (byte_before bs offset end_off)
  else mkReader (rd_byte_buffer_offset r) bit_idx (rd_byte_buffer r).

Record decoder := mkDecoder { de_low : Z; de_high : Z; de_v_val : Z; de_reader : reader }.

Fixpoint dec_renorm (fuel : nat) (bs : list Z) (end_off : Z) (d : decoder) : decoder :=
  match fuel with
  | O => d
  | S fuel =>
      let 'mkDecoder low high v_val r := d in
      if (0x80000000 <=? low) || (high <? 0x80000000) then
        dec_renorm fuel bs end_off
          (mkDecoder (Z.land (Z.shiftl low 1) MASK32) (Z.land (Z.lor (Z.shiftl high 1) 1) MASK32)
             (Z.land (Z.lor (Z.shiftl v_val 1) (next_bit r)) MASK32) (advance bs end_off r))
      else if (0x40000000 <=? low) && (high <? 0xC0000000) then
        let v_val := Z.land (v_val - 0x40000000) MASK32 in
        dec_renorm fuel bs end_off
          (mkDecoder (Z.land (Z.shiftl low 1) 0x7FFFFFFF) (Z.land (Z.lor (Z.shiftl high 1) 0x80000001) MASK32)
             (Z.land (Z.lor (Z.shiftl v_val 1) (next_bit r)) MASK32) (advance bs end_off r))
      else d
  end.

(** the binary search for the symbol whose interval holds [count] *)
Fixpoint search (fuel : nat) (cdf : list Z) (count left right : Z) : Z :=
  match fuel with
  | O => left
  | S fuel =>
      if left + 1 <? right then
        let m := (left + right) / 2 in
        if at_ cdf m <? count then search fuel cdf count m right
        else if count <? at_ cdf m then search fuel cdf count left m
        else m
      else left
  end.

Definition decode_symbol (cdf : list Z) (d : decoder) : Z :=
  let max_symbol := Z.of_nat (length cdf) - 2 in
  let span := span_of (de_low d) (de_high d) in
  let v_minus_l := Z.land (de_v_val d - de_low d) MASK32 in
  let count := ((v_minus_l + 1) * 0x10000 - 1) / span in
  search (length cdf) cdf (Z.land count 0xFFFF) 0 (max_symbol + 1).

Definition decode_advance (cdf bs : list Z) (end_off : Z) (d : decoder) (sym : Z) : decoder :=
  let '(c_low, c_high) := interval cdf sym in
  let '(low, high) := narrow (de_low d) (de_high d) c_low c_high in
  dec_renorm renorm_fuel bs end_off (mkDecoder low high (de_v_val d) (de_reader d)).

(** [for i in range(n_tokens)]; the last iteration ends at its [break] *)
Fixpoint decode_tokens (cdf bs : list Z) (end_off : Z) (n_tokens : nat) (d : decoder) : list Z :=
  match n_tokens with
  | O => []
  | S n =>
      let sym := decode_symbol cdf d in
      sym :: match n with O => [] | S _ => decode_tokens cdf bs end_off n (decode_advance cdf bs end_off d sym) end
  end.

(** the first four bytes, whether or not they are before [end_off] *)
Definition first_word (bs : list Z) (start_off : Z) : Z :=
  if start_off + 4 <=? Z.of_nat (length bs) then
    Z.land (Z.lor (Z.lor (Z.lor (Z.shiftl (at_ bs start_off) 24) (Z.shiftl (at_ bs (start_off + 1)) 16))
                     (Z.shiftl (at_ bs (start_off + 2)) 8)) (at_ bs (start_off + 3))) MASK32
  else 0.

Definition _decode_single_channel (cdf_layer_c bs_np : list Z) (start_off end_off : Z) (n_tokens : nat) : list Z :=
  let offset := start_off + 4 in
  decode_tokens cdf_layer_c bs_np end_off n_tokens
    (mkDecoder 0 MASK32 (first_word bs_np start_off) (mkReader offset 1 (byte_before bs_np offset end_off))).

(** ** The 32-bit operations as arithmetic *)

Definition word (x : Z) : Prop := 0 <= x < 2 ^ 32.

Lemma land_MASK32 x : Z.land x MASK32 = x mod 2 ^ 32.
Proof. change MASK32 with (Z.ones 32). by rewrite Z.land_ones. Qed.

Lemma land_pow2 x n : 0 <= n → Z.land x (2 ^ n) = if Z.testbit x n then 2 ^ n else 0.
Proof.
  intros Hn. apply Z.bits_inj'. intros i Hi. rewrite Z.land_spec, Z.pow2_bits_eqb by done.
  destruct (Z.eqb_spec n i) as [->|].
  - destruct (Z.testbit x i) eqn:E; [by rewrite Z.pow2_bits_true|by rewrite Z.bits_0].
  - rewrite andb_false_r. destruct (Z.testbit x n); [by rewrite Z.pow2_bits_false|by rewrite Z.bits_0].
Qed.

Lemma testbit_div x n : 0 <= n → Z.testbit x n = Z.odd (x / 2 ^ n).
Proof. intros. by rewrite Z.testbit_odd, Z.shiftr_div_pow2. Qed.

Lemma bit_31 x : word x → Z.testbit x 31 = (2 ^ 31 <=? x).
Proof.
  unfold word. intros Hx. rewrite testbit_div by done. destruct (Z.leb_spec (2 ^ 31) x) as [H|H].
  - by rewrite <-(Z.div_unique x (2 ^ 31) 1 (x - 2 ^ 31)) by lia.
  - by rewrite Z.div_small by lia.
Qed.

Lemma bit_30_low x : 0 <= x < 2 ^ 31 → Z.testbit x 30 = (2 ^ 30 <=? x).
Proof.
  intros Hx. rewrite testbit_div by done. destruct (Z.leb_spec (2 ^ 30) x) as [H|H].
  - by rewrite <-(Z.div_unique x (2 ^ 30) 1 (x - 2 ^ 30)) by lia.
  - by rewrite Z.div_small by lia.
Qed.

Lemma bit_30_high x : 2 ^ 31 <= x < 2 ^ 32 → Z.testbit x 30 = (3 * 2 ^ 30 <=? x).
Proof.
  intros Hx. rewrite testbit_div by done. destruct (Z.leb_spec (3 * 2 ^ 30) x) as [H|H].
  - by rewrite <-(Z.div_unique x (2 ^ 30) 3 (x - 3 * 2 ^ 30)) by lia.
  - by rewrite <-(Z.div_unique x (2 ^ 30) 2 (x - 2 * 2 ^ 30)) by lia.
Qed.

Lemma lor_bit x b : Z.lor (Z.shiftl x 1) (Z.b2z b) = 2 * x + Z.b2z b.
Proof.
  rewrite Z.shiftl_mul_pow2 by done. replace (x * 2 ^ 1) with (2 * x) by lia. rewrite <-Z.add_lor_land.
  enough (Z.land (2 * x) (Z.b2z b) = 0) by lia. destruct b; [|apply Z.land_0_r].
  change (Z.b2z true) with (2 ^ 0). by rewrite land_pow2, Z.testbit_even_0.
Qed.

Lemma land_1 x : Z.land x 1 = Z.b2z (Z.odd x).
Proof. change 1 with (2 ^ 0) at 1. rewrite land_pow2, Z.bit0_odd by done. by destruct (Z.odd x). Qed.

(** the two ways an interval can be doubled *)
Definition double (b : bool) (x : Z) : Z := 2 * x - Z.b2z b * 2 ^ 32.
Definition spread (x : Z) : Z := 2 * x - 2 ^ 31.

Definition agree_bit (b : bool) (low high : Z) : Prop := if b then 2 ^ 31 <= low else high < 2 ^ 31.

Lemma same_msb low high : word low → word high → low <= high →
  (Z.land high 0x80000000 =? Z.land low 0x80000000) = (2 ^ 31 <=? low) || (high <? 2 ^ 31).
Proof.
  intros Hl Hh Hle. change 0x80000000 with (2 ^ 31). rewrite !land_pow2, !bit_31 by done.
  destruct (Z.leb_spec (2 ^ 31) high), (Z.leb_spec (2 ^ 31) low), (Z.ltb_spec high (2 ^ 31)); try lia; done.
Qed.

Lemma straddles low high : word low → word high → low < 2 ^ 31 → 2 ^ 31 <= high →
  negb (Z.land low 0x40000000 =? 0) && (Z.land high 0x40000000 =? 0) = (2 ^ 30 <=? low) && (high <? 3 * 2 ^ 30).
Proof.
  unfold word. intros Hl Hh Hl31 Hh31. change 0x40000000 with (2 ^ 30).
  rewrite !land_pow2, bit_30_low, bit_30_high by (done || lia).
  destruct (Z.leb_spec (2 ^ 30) low), (Z.leb_spec (3 * 2 ^ 30) high), (Z.ltb_spec high (3 * 2 ^ 30)); try lia; done.
Qed.

Lemma msb_bit high b low : word high → word low → low <= high → agree_bit b low high →
  Z.land (Z.shiftr high 31) 1 = Z.b2z b.
Proof.
  unfold word, agree_bit. intros Hh Hl Hle Hb.
  rewrite land_1, <-Z.bit0_odd, Z.shiftr_spec, Z.add_0_l, bit_31 by done.
  destruct b; [by rewrite (proj2 (Z.leb_le _ _)) by lia|by rewrite (proj2 (Z.leb_gt _ _)) by lia].
Qed.

Lemma shift_low b low high : word low → word high → low <= high → agree_bit b low high →
  Z.land (Z.shiftl low 1) MASK32 = double b low.
Proof.
  unfold word, agree_bit, double. intros Hl Hh Hle Hb. rewrite land_MASK32, Z.shiftl_mul_pow2 by done.
  symmetry. apply (Z.mod_unique _ _ (Z.b2z b)); [|destruct b; simpl; lia]. destruct b; cbn [Z.b2z] in *; lia.
Qed.

Lemma shift_high b low high : word low → word high → low <= high → agree_bit b low high →
  Z.land (Z.lor (Z.shiftl high 1) 1) MASK32 = double b high + 1.
Proof.
  unfold word, agree_bit, double. intros Hl Hh Hle Hb. rewrite land_MASK32.
  rewrite (lor_bit high true : Z.lor (Z.shiftl high 1) 1 = _).
  symmetry. apply (Z.mod_unique _ _ (Z.b2z b)); [|destruct b; simpl; lia]. destruct b; cbn [Z.b2z] in *; lia.
Qed.

Lemma spread_low low : 2 ^ 30 <= low < 2 ^ 31 → Z.land (Z.shiftl low 1) 0x7FFFFFFF = spread low.
Proof.
  unfold spread. intros Hl. change 0x7FFFFFFF with (Z.ones 31). rewrite Z.land_ones, Z.shiftl_mul_pow2 by done.
  symmetry. apply (Z.mod_unique _ _ 1); lia.
Qed.

Lemma spread_high high : 2 ^ 31 <= high < 3 * 2 ^ 30 →
  Z.land (Z.lor (Z.shiftl high 1) 0x80000001) MASK32 = spread high + 1.
Proof.
  unfold spread. intros Hh.
  assert (Z.lor (Z.shiftl high 1) 0x80000001 = 2 * high + 1 + 2 ^ 31) as ->.
  { change 0x80000001 with (Z.lor 1 (2 ^ 31)). rewrite Z.lor_assoc, (lor_bit high true : Z.lor (Z.shiftl high 1) 1 = _).
    cbn [Z.b2z]. pose proof (Z.add_lor_land (2 * high + 1) (2 ^ 31)) as E.
    rewrite land_pow2, testbit_div in E by done.
    rewrite <-(Z.div_unique (2 * high + 1) (2 ^ 31) 2 (2 * high + 1 - 2 ^ 32)) in E by lia. cbn [Z.odd] in E. lia. }
  rewrite land_MASK32. symmetry. apply (Z.mod_unique _ _ 1); lia.
Qed.

(** ** The code of a message

    What the encoder writes, without its pending bits: a shift emits the bit both
    ends agree on; a spread, of ends that straddle the middle closely, says that the
    next bit will be followed by its complement. *)

Inductive shift := Emit (b : bool) | Spread.

Fixpoint shifts (fuel : nat) (low high : Z) : list shift * (Z * Z) :=
  match fuel with
  | O => ([], (low, high))
  | S fuel =>
      if (2 ^ 31 <=? low) || (high <? 2 ^ 31) then
        let b := 2 ^ 31 <=? low in
        let '(ops, lh) := shifts fuel (double b low) (double b high + 1) in (Emit b :: ops, lh)
      else if (2 ^ 30 <=? low) && (high <? 3 * 2 ^ 30) then
        let '(ops, lh) := shifts fuel (spread low) (spread high + 1) in (Spread :: ops, lh)
      else ([], (low, high))
  end.

Definition apply_shift (o : shift) (c : list bool) : list bool :=
  match o, c with
  | Emit b, _ => b :: c
  | Spread, b :: c => b :: negb b :: c
  | Spread, [] => []
  end.
Definition apply_shifts (ops : list shift) (c : list bool) : list bool := foldr apply_shift c ops.

Fixpoint code (low high : Z) (intervals : list (Z * Z)) : list bool :=
  match intervals with
  | [] => let b := 2 ^ 30 <=? low in [b; negb b]
  | (c_low, c_high) :: intervals =>
      let '(low, high) := narrow low high c_low c_high in
      let '(ops, (low, high)) := shifts renorm_fuel low high in
      apply_shifts ops (code low high intervals)
  end.

(** pending bits [n] *)
Definition expand (n : nat) (c : list bool) : list bool :=
  match c with [] => [] | b :: c => b :: replicate n (negb b) ++ c end.

(** the ends straddle the middle, and not closely: nothing to shift *)
Definition normal (low high : Z) : Prop :=
  0 <= low < 2 ^ 31 ∧ 2 ^ 31 <= high < 2 ^ 32 ∧ (low < 2 ^ 30 ∨ 3 * 2 ^ 30 <= high).

Definition ordered (low high : Z) : Prop := word low ∧ word high ∧ low <= high.

Lemma normal_ordered low high : normal low high → ordered low high.
Proof. unfold normal, ordered, word. lia. Qed.

Lemma agrees low high : ordered low high → (2 ^ 31 <=? low) || (high <? 2 ^ 31) = true →
  agree_bit (2 ^ 31 <=? low) low high.
Proof. unfold ordered, agree_bit. destruct (Z.leb_spec (2 ^ 31) low); simpl; [done|]. by intros _ ?%Z.ltb_lt. Qed.

Lemma double_ordered b low high : ordered low high → agree_bit b low high →
  ordered (double b low) (double b high + 1).
Proof. unfold ordered, word, agree_bit, double. destruct b; cbn [Z.b2z]; lia. Qed.

Lemma spread_ordered low high : 2 ^ 30 <= low < 2 ^ 31 → 2 ^ 31 <= high < 3 * 2 ^ 30 →
  ordered (spread low) (spread high + 1).
Proof. unfold ordered, word, spread. lia. Qed.

(** one round of [shifts] *)
Lemma shifts_cases fuel low high (P : list shift * (Z * Z) → Prop) :
  ordered low high →
  (∀ b, (2 ^ 31 <=? low) || (high <? 2 ^ 31) = true → b = (2 ^ 31 <=? low) → agree_bit b low high →
     P (let '(ops, lh) := shifts fuel (double b low) (double b high + 1) in (Emit b :: ops, lh))) →
  ((2 ^ 31 <=? low) || (high <? 2 ^ 31) = false → (2 ^ 30 <=? low) && (high <? 3 * 2 ^ 30) = true →
     2 ^ 30 <= low < 2 ^ 31 → 2 ^ 31 <= high < 3 * 2 ^ 30 →
     P (let '(ops, lh) := shifts fuel (spread low) (spread high + 1) in (Spread :: ops, lh))) →
  ((2 ^ 31 <=? low) || (high <? 2 ^ 31) = false → (2 ^ 30 <=? low) && (high <? 3 * 2 ^ 30) = false →
     normal low high → P ([], (low, high))) →
  P (shifts (S fuel) low high).
Proof.
  intros Ho He Hs Hn. cbn [shifts]. destruct ((2 ^ 31 <=? low) || _) eqn:E1.
  - apply He; [done..|]. by apply agrees.
  - unfold ordered, word in Ho. assert (low < 2 ^ 31 ∧ 2 ^ 31 <= high) by lia.
    destruct ((2 ^ 30 <=? low) && _) eqn:E2; [apply Hs; [done|done|lia..]|].
    apply Hn; [done|done|]. unfold normal. lia.
Qed.

Lemma shifts_width fuel low high : ordered low high →
  let '(ops, (l, h)) := shifts fuel low high in
  ordered l h ∧ h - l + 1 = 2 ^ Z.of_nat (length ops) * (high - low + 1).
Proof.
  revert low high. induction fuel as [|fuel IH]; intros low high Ho; [split; [done|simpl; lia]|].
  apply shifts_cases; [done| | |].
  - intros b _ _ Hb. pose proof (double_ordered _ _ _ Ho Hb) as Ho'. specialize (IH _ _ Ho').
    destruct (shifts fuel _ _) as [ops [l h]]. destruct IH as [? ->]. split; [done|].
    cbn [length]. rewrite Nat2Z.inj_succ, Z.pow_succ_r by lia. unfold double. nia.
  - intros _ _ Hl Hh. pose proof (spread_ordered _ _ Hl Hh) as Ho'. specialize (IH _ _ Ho').
    destruct (shifts fuel _ _) as [ops [l h]]. destruct IH as [? ->]. split; [done|].
    cbn [length]. rewrite Nat2Z.inj_succ, Z.pow_succ_r by lia. unfold spread. nia.
  - intros _ _ _. split; [done|]. simpl. lia.
Qed.

(** the loop ends before its fuel: a width of at least [2 ^ (33 - fuel)] is normal
    after at most [fuel - 1] shifts *)
Lemma shifts_normal fuel low high : ordered low high → (0 < fuel <= 33)%nat → 2 ^ (33 - Z.of_nat fuel) <= high - low + 1 →
  let '(ops, (l, h)) := shifts fuel low high in normal l h.
Proof.
  revert low high. induction fuel as [|fuel IH]; intros low high Ho Hf Hw; [lia|].
  assert (fuel = 0%nat ∨ (0 < fuel)%nat) as [->|Hpos] by lia.
  { assert (low = 0 ∧ high = 2 ^ 32 - 1) as [-> ->] by (unfold ordered, word in Ho; lia). unfold normal. simpl. lia. }
  assert (2 ^ (33 - Z.of_nat fuel) = 2 * 2 ^ (33 - Z.of_nat (S fuel))) as Hp.
  { rewrite <-Z.pow_succ_r by lia. f_equal. lia. }
  apply shifts_cases; [done| | |].
  - intros b _ _ Hb. specialize (IH _ _ (double_ordered _ _ _ Ho Hb)).
    destruct (shifts fuel _ _) as [ops [l h]]. apply IH; [lia|]. rewrite Hp. unfold double. lia.
  - intros _ _ Hl Hh. specialize (IH _ _ (spread_ordered _ _ Hl Hh)).
    destruct (shifts fuel _ _) as [ops [l h]]. apply IH; [lia|]. rewrite Hp. unfold spread. lia.
  - done.
Qed.

(** ** Narrowing *)

Definition valid_interval (i : Z * Z) : Prop := 0 <= i.1 < i.2 ∧ i.2 <= 2 ^ 16.

Lemma span_of_normal low high : ordered low high → span_of low high = high - low + 1.
Proof.
  unfold ordered, word, span_of. intros Ho. rewrite land_MASK32.
  destruct (decide (high - low + 1 = 2 ^ 32)) as [E|].
  - rewrite E, Z.mod_same by done. done.
  - rewrite Z.mod_small by lia. by rewrite (proj2 (Z.eqb_neq _ _)) by lia.
Qed.

Lemma narrow_eq low high i : ordered low high → valid_interval i → let span := high - low + 1 in
  2 ^ 16 <= span →
  narrow low high i.1 i.2 = (low + span * i.1 / 2 ^ 16, low + span * i.2 / 2 ^ 16 - 1).
Proof.
  intros Ho [Hi1 Hi2] span Hspan. unfold narrow. rewrite span_of_normal by done.
  unfold precision. rewrite !Z.shiftr_div_pow2, !land_MASK32 by done. fold span.
  assert (0 <= span * i.1 / 2 ^ 16) by (apply Z.div_pos; [unfold span; nia|done]).
  assert (span * i.1 / 2 ^ 16 < span) by (apply Z.div_lt_upper_bound; [done|unfold span in *; nia]).
  assert (span * i.2 / 2 ^ 16 <= span) by (apply Z.div_le_upper_bound; [done|unfold span in *; nia]).
  assert (1 <= span * i.2 / 2 ^ 16) by (apply Z.div_le_lower_bound; [done|unfold span in *; nia]).
  unfold ordered, word, span in *. f_equal; apply Z.mod_small; lia.
Qed.

Lemma narrow_ok low high i : normal low high → valid_interval i →
  let '(l, h) := narrow low high i.1 i.2 in
  ordered l h ∧ low <= l ∧ h <= high ∧ (high - low + 1) * (i.2 - i.1) - 2 ^ 16 < 2 ^ 16 * (h - l + 1).
Proof.
  intros Hn Hi. pose proof (normal_ordered _ _ Hn) as Ho.
  rewrite narrow_eq by (done || (unfold normal in Hn; lia)).
  destruct Hi as [Hi1 Hi2]. set (span := high - low + 1). set (a := i.1) in *. set (b := i.2) in *.
  assert (2 ^ 30 < span) by (unfold normal in Hn; unfold span; lia).
  pose proof (Z.mul_div_le (span * a) (2 ^ 16) ltac:(done)) as Ha1.
  pose proof (Z.mul_succ_div_gt (span * a) (2 ^ 16) ltac:(done)) as Ha2.
  pose proof (Z.mul_div_le (span * b) (2 ^ 16) ltac:(done)) as Hb1.
  pose proof (Z.mul_succ_div_gt (span * b) (2 ^ 16) ltac:(done)) as Hb2.
  assert (0 <= span * a / 2 ^ 16) by (apply Z.div_pos; [nia|done]).
  assert (span * b / 2 ^ 16 <= span) by (apply Z.div_le_upper_bound; [done|nia]).
  assert (span * a / 2 ^ 16 + 1 <= span * b / 2 ^ 16).
  { apply Z.div_le_lower_bound; [done|]. nia. }
  unfold ordered, word, normal, span in *. split_and!; lia.
Qed.

(** ** Streams and windows *)

(** [n] bits of a stream, most significant first *)
Fixpoint window (n : nat) (s : nat → bool) : Z :=
  match n with O => 0 | S n => Z.b2z (s O) * 2 ^ Z.of_nat n + window n (λ i, s (S i)) end.

Definition prepend (c : list bool) (s : nat → bool) (i : nat) : bool :=
  match c !! i with Some b => b | None => s (i - length c)%nat end.

Lemma window_ext n s t : (∀ i, (i < n)%nat → s i = t i) → window n s = window n t.
Proof.
  revert s t. induction n as [|n IH]; intros s t H; [done|]. cbn [window].
  rewrite (H 0%nat) by lia. f_equal. apply IH. intros i Hi. apply H. lia.
Qed.

Lemma window_range n s : 0 <= window n s < 2 ^ Z.of_nat n.
Proof.
  revert s. induction n as [|n IH]; intros s; [done|]. cbn [window].
  rewrite Nat2Z.inj_succ, Z.pow_succ_r by lia. specialize (IH (λ i, s (S i))). destruct (s 0%nat); cbn [Z.b2z]; lia.
Qed.

Lemma window_snoc n s : window (S n) s = 2 * window n s + Z.b2z (s n).
Proof.
  revert s. induction n as [|n IH]; intros s; [cbn; lia|].
  change (window (S (S n)) s) with (Z.b2z (s O) * 2 ^ Z.of_nat (S n) + window (S n) (λ i, s (S i))).
  rewrite IH. cbn [window]. rewrite Nat2Z.inj_succ, Z.pow_succ_r by lia. lia.
Qed.

Lemma window_app m n s : window (m + n) s = window m s * 2 ^ Z.of_nat n + window n (λ i, s (m + i)%nat).
Proof.
  revert s. induction m as [|m IH]; intros s; [by simpl|]. cbn [window Nat.add]. rewrite IH.
  rewrite Nat2Z.inj_add, Z.pow_add_r by lia. cbn [Nat.add]. lia.
Qed.

Lemma prepend_cons b c s i : prepend (b :: c) s (S i) = prepend c s i.
Proof. done. Qed.

Lemma window_prepend_cons n b c s :
  window (S n) (prepend (b :: c) s) = Z.b2z b * 2 ^ Z.of_nat n + window n (prepend c s).
Proof. cbn [window]. done. Qed.

Lemma window_half n s : window n s = window (S n) s / 2.
Proof.
  rewrite window_snoc. apply (Z.div_unique _ _ _ (Z.b2z (s n))); [|lia]. destruct (s n); simpl; lia.
Qed.

(** ** The code lies in its interval, whatever follows it *)

Definition within (low high : Z) (c : list bool) : Prop :=
  c ≠ [] ∧ ∀ t, low <= window 32 (prepend c t) <= high.

Lemma within_emit b low high c : ordered low high → agree_bit b low high →
  within (double b low) (double b high + 1) c → within low high (b :: c).
Proof.
  intros Ho Hb [_ Hc]. split; [done|]. intros t. rewrite window_prepend_cons, window_half. specialize (Hc t).
  change (Z.of_nat 31) with 31. unfold double in Hc.
  set (w := window 32 _) in *.
  pose proof (Z.mul_div_le w 2 ltac:(done)). pose proof (Z.mul_succ_div_gt w 2 ltac:(done)). lia.
Qed.

Lemma within_spread low high c : within (spread low) (spread high + 1) c → within low high (apply_shift Spread c).
Proof.
  intros [Hne Hc]. destruct c as [|b c]; [done|]. split; [done|]. intros t. specialize (Hc t). revert Hc. cbn [apply_shift].
  rewrite !window_prepend_cons. change (Z.of_nat 31) with 31; change (Z.of_nat 30) with 30.
  rewrite (window_half 30). set (w := window 31 _). unfold spread. intros Hc.
  assert (Z.b2z (negb b) = 1 - Z.b2z b) as -> by by destruct b.
  pose proof (Z.mul_div_le w 2 ltac:(done)). pose proof (Z.mul_succ_div_gt w 2 ltac:(done)). lia.
Qed.

Lemma within_shifts fuel low high c : ordered low high →
  let '(ops, (l, h)) := shifts fuel low high in within l h c → within low high (apply_shifts ops c).
Proof.
  revert low high. induction fuel as [|fuel IH]; intros low high Ho; [by intros ?|].
  apply shifts_cases; [done| | |by intros _ _ _ ?].
  - intros b _ _ Hb. specialize (IH _ _ (double_ordered _ _ _ Ho Hb)).
    destruct (shifts fuel _ _) as [ops [l h]]. intros Hc. by apply within_emit; [| |apply IH].
  - intros _ _ Hl Hh. specialize (IH _ _ (spread_ordered _ _ Hl Hh)).
    destruct (shifts fuel _ _) as [ops [l h]]. intros Hc. by apply within_spread, IH.
Qed.

(** a narrowed interval after its shifts *)
Lemma step_normal low high i : normal low high → valid_interval i →
  let '(l, h) := narrow low high i.1 i.2 in
  let '(ops, (l', h')) := shifts renorm_fuel l h in normal l' h'.
Proof.
  intros Hn Hi. pose proof (narrow_ok low high i Hn Hi) as H. destruct (narrow _ _ _ _) as [l h].
  destruct H as [Ho _]. apply shifts_normal; [done|unfold renorm_fuel; lia|]. unfold ordered in Ho. change (2 ^ (33 - Z.of_nat renorm_fuel)) with 1. lia.
Qed.

Lemma code_within intervals low high : normal low high → Forall valid_interval intervals →
  within low high (code low high intervals).
Proof.
  intros Hn HF. revert low high Hn. induction HF as [|[cl ch] ivs Hi HF IH]; intros low high Hn.
  - split; [done|]. intros t. cbn [code]. rewrite !window_prepend_cons.
    pose proof (window_range 30 (prepend [] t)). change (Z.of_nat 30) with 30 in *. change (Z.of_nat 31) with 31.
    unfold normal in Hn. destruct (Z.leb_spec (2 ^ 30) low); cbn [negb Z.b2z]; lia.
  - cbn [code]. pose proof (narrow_ok low high _ Hn Hi) as H1. pose proof (step_normal low high _ Hn Hi) as H2.
    cbn [fst snd] in *. destruct (narrow _ _ _ _) as [l h]. destruct H1 as (Ho & Hl & Hh & _).
    pose proof (within_shifts renorm_fuel l h) as Hs.
    destruct (shifts _ _ _) as [ops [l' h']]. destruct (Hs _ Ho (IH _ _ H2)) as [Hne Hw].
    split; [done|]. intros t. specialize (Hw t). lia.
Qed.

(** ** The encoder writes the code *)

Definition write (w : writer) (c : list bool) : writer := foldl (λ w b, flush_bit w (Z.b2z b)) w c.

Lemma write_app w c1 c2 : write w (c1 ++ c2) = write (write w c1) c2.
Proof. apply foldl_app. Qed.

Lemma flush_bits_write w n b : flush_bits w n (Z.b2z b) = write w (replicate (Z.to_nat n) b).
Proof.
  unfold flush_bits. generalize (Z.to_nat n) as k. clear n. intros k. revert w.
  induction k as [|k IH]; intros w; [done|]. rewrite Nat.iter_succ_r. apply IH.
Qed.

Lemma b2z_negb b : 1 - Z.b2z b = Z.b2z (negb b).
Proof. by destruct b. Qed.

Lemma write_expand w p b c : 0 <= p →
  write w (expand (Z.to_nat p) (b :: c)) = write (flush_bits (flush_bit w (Z.b2z b)) p (1 - Z.b2z b)) c.
Proof. intros. rewrite b2z_negb, flush_bits_write. cbn [expand]. change (?x :: ?y ++ c) with ([x] ++ y ++ c). by rewrite !write_app. Qed.

Lemma expand_spread n c : c ≠ [] → expand n (apply_shift Spread c) = expand (S n) c.
Proof.
  destruct c as [|b c]; [done|]. intros _. cbn [expand apply_shift]. f_equal.
  rewrite replicate_S_end, <-app_assoc. done.
Qed.

Lemma apply_shifts_nonempty ops c : c ≠ [] → apply_shifts ops c ≠ [].
Proof.
  intros Hc. induction ops as [|[b|] ops IH]; [done|done|]. cbn [apply_shifts foldr] in *.
  fold (apply_shifts ops c) in *. by destruct (apply_shifts ops c).
Qed.

Lemma enc_renorm_ok fuel low high p w : ordered low high → 0 <= p →
  let '(ops, (l, h)) := shifts fuel low high in
  ∃ p' w', enc_renorm fuel (mkEncoder low high p w) = mkEncoder l h p' w' ∧ 0 <= p' ∧
    ∀ c, c ≠ [] → write w (expand (Z.to_nat p) (apply_shifts ops c)) = write w' (expand (Z.to_nat p') c).
Proof.
  revert low high p w. induction fuel as [|fuel IH]; intros low high p w Ho Hp; [by exists p, w|].
  pose proof Ho as (Hl & Hh & Hle). cbn [enc_renorm]. rewrite same_msb by done.
  apply shifts_cases; [done| | |].
  - intros b E _ Hb. rewrite E. rewrite (msb_bit high b low), (shift_low b low high), (shift_high b low high) by done.
    specialize (IH _ _ 0 (flush_bits (flush_bit w (Z.b2z b)) p (1 - Z.b2z b)) (double_ordered _ _ _ Ho Hb) ltac:(done)).
    destruct (shifts fuel _ _) as [ops [l h]]. destruct IH as (p' & w' & -> & Hp' & IH).
    exists p', w'. split_and!; [done..|]. intros c Hc. rewrite <-IH by done.
    cbn [apply_shifts foldr apply_shift]. fold (apply_shifts ops c). rewrite write_expand by done.
    f_equal. by destruct (apply_shifts ops c).
  - intros E1 E2 Hl' Hh'. rewrite E1, straddles by (done || lia). rewrite E2, spread_low, spread_high by done.
    specialize (IH _ _ (p + 1) w (spread_ordered _ _ Hl' Hh') ltac:(lia)).
    destruct (shifts fuel _ _) as [ops [l h]]. destruct IH as (p' & w' & -> & Hp' & IH).
    exists p', w'. split_and!; [done..|]. intros c Hc. rewrite <-IH by done.
    cbn [apply_shifts foldr]. fold (apply_shifts ops c).
    rewrite expand_spread by by apply apply_shifts_nonempty. by rewrite Z2Nat.inj_add, Nat.add_comm by lia.
  - intros E1 E2 Hn. unfold normal in Hn. rewrite E1, straddles, E2 by (done || lia). by exists p, w.
Qed.

(** intervals of a message *)
Definition intervals (cdf : list Z) (syms : list Z) : list (Z * Z) := interval cdf <$> syms.

Lemma code_nonempty low high ivs : code low high ivs ≠ [].
Proof.
  revert low high. induction ivs as [|[cl ch] ivs IH]; intros low high; [done|]. cbn [code].
  destruct (narrow _ _ _ _) as [l h], (shifts _ _ _) as [ops [l' h']]. by apply apply_shifts_nonempty.
Qed.

(** the encoder after all symbols, before the last bits *)
Lemma encode_symbols_ok cdf syms low high p w :
  normal low high → 0 <= p → Forall valid_interval (intervals cdf syms) →
  ∃ l h p' w', foldl (encode_symbol cdf) (mkEncoder low high p w) syms = mkEncoder l h p' w' ∧
    normal l h ∧ 0 <= p' ∧
    write w (expand (Z.to_nat p) (code low high (intervals cdf syms))) = write w' (expand (Z.to_nat p') (code l h [])).
Proof.
  revert low high p w. induction syms as [|s syms IH]; intros low high p w Hn Hp HF; [by exists low, high, p, w|].
  apply Forall_cons in HF as [Hi HF]. cbn [foldl intervals fmap list_fmap code]. unfold encode_symbol at 2.
  pose proof (narrow_ok low high _ Hn Hi) as H1. pose proof (step_normal low high _ Hn Hi) as H2.
  destruct (interval cdf s) as [cl ch]. cbn [fst snd en_low en_high en_pending_bits en_writer] in *.
  destruct (narrow _ _ _ _) as [l h]. destruct H1 as (Ho & _).
  pose proof (enc_renorm_ok renorm_fuel l h p w Ho Hp) as He.
  destruct (shifts _ _ _) as [ops [l' h']]. destruct He as (p1 & w1 & -> & Hp1 & He).
  destruct (IH l' h' p1 w1 H2 Hp1 HF) as (l2 & h2 & p2 & w2 & -> & ? & ? & Hw).
  exists l2, h2, p2, w2. split_and!; [done..|]. etrans; [|exact Hw]. apply He, code_nonempty.
Qed.

Lemma enc_finish_bit low : 0 <= low < 2 ^ 31 →
  (if Z.land low 0x40000000 =? 0 then 0 else 1) = Z.b2z (2 ^ 30 <=? low).
Proof.
  intros Hl. change 0x40000000 with (2 ^ 30). rewrite land_pow2, bit_30_low by done. by destruct (2 ^ 30 <=? low).
Qed.

(** the last bits *)
Definition finish (w : writer) : list Z * Z :=
  if 0 <? wr_output_reg_len w
  then put_byte w (Z.land (Z.shiftl (wr_output_reg w) (8 - wr_output_reg_len w)) 0xFF)
  else (wr_buf w, wr_ptr w).

Lemma encoder_writes_code cdf syms buf : Forall valid_interval (intervals cdf syms) →
  _encode_single_channel cdf syms buf = finish (write (mkWriter buf 0 0 0) (code 0 MASK32 (intervals cdf syms))).
Proof.
  intros HF. unfold _encode_single_channel.
  destruct (encode_symbols_ok cdf syms 0 MASK32 0 (mkWriter buf 0 0 0)) as (l & h & p & w & -> & Hn & Hp & Hw);
    [unfold normal, MASK32; lia|done..|].
  change (Z.to_nat 0) with 0%nat in Hw.
  assert (∀ c, expand 0 c = c) as E0 by by intros []. rewrite E0 in Hw. rewrite Hw.
  unfold enc_finish. cbn [en_low en_pending_bits en_writer]. rewrite enc_finish_bit by (unfold normal in Hn; lia).
  cbn [code]. rewrite write_expand by done. unfold finish.
  assert (∀ w n b, 0 <= n → flush_bits w (n + 1) b = flush_bit (flush_bits w n b) b) as Hsucc.
  { intros w' n b Hn'. unfold flush_bits. by rewrite Z2Nat.inj_add, Nat.add_comm by lia. }
  rewrite Hsucc by done. by rewrite b2z_negb.
Qed.

(** ** Bytes and bits *)

Fixpoint be_bits (n : nat) (z : Z) : list bool :=
  match n with O => [] | S n => be_bits n (z / 2) ++ [Z.odd z] end.

Definition bits_of_bytes (l : list Z) : list bool := concat (be_bits 8 <$> l).

Lemma be_bits_length n z : length (be_bits n z) = n.
Proof. revert z. induction n; intros z; [done|]. cbn [be_bits]. rewrite length_app, IHn. simpl. lia. Qed.

Lemma bits_of_bytes_length l : length (bits_of_bytes l) = (8 * length l)%nat.
Proof.
  induction l as [|b l IH]; [done|]. unfold bits_of_bytes in *. cbn [fmap list_fmap concat].
  rewrite length_app, IH, be_bits_length. simpl. lia.
Qed.

Lemma bits_of_bytes_app l1 l2 : bits_of_bytes (l1 ++ l2) = bits_of_bytes l1 ++ bits_of_bytes l2.
Proof. unfold bits_of_bytes. by rewrite fmap_app, concat_app. Qed.

Lemma be_bits_snoc n x b : be_bits (S n) (2 * x + Z.b2z b) = be_bits n x ++ [b].
Proof.
  cbn [be_bits]. f_equal.
  - f_equal. symmetry. apply (Z.div_unique _ _ _ (Z.b2z b)); [|lia]. destruct b; simpl; lia.
  - rewrite Z.add_comm, Z.odd_add_mul_2. by destruct b.
Qed.

Lemma be_bits_shift n k x : be_bits (n + k) (x * 2 ^ Z.of_nat k) = be_bits n x ++ replicate k false.
Proof.
  induction k as [|k IH]; [by rewrite Nat.add_0_r, Z.mul_1_r, app_nil_r|].
  rewrite Nat.add_succ_r, Nat2Z.inj_succ, Z.pow_succ_r by lia.
  replace (x * (2 * 2 ^ Z.of_nat k)) with (2 * (x * 2 ^ Z.of_nat k) + Z.b2z false) by (simpl; lia).
  rewrite be_bits_snoc, IH, <-app_assoc, replicate_S_end. done.
Qed.

Definition is_byte (b : Z) : Prop := 0 <= b < 256.

(** the bits [e] have been handed to the writer *)
Record writer_ok (n : nat) (w : writer) (e : list bool) : Prop := {
  wo_len : 0 <= wr_output_reg_len w < 8;
  wo_reg : 0 <= wr_output_reg w < 2 ^ wr_output_reg_len w;
  wo_buf : length (wr_buf w) = n;
  wo_bytes : Forall is_byte (wr_buf w);
  wo_ptr : 0 <= wr_ptr w <= Z.of_nat n;
  wo_bits : bits_of_bytes (take (Z.to_nat (wr_ptr w)) (wr_buf w)) ++
            be_bits (Z.to_nat (wr_output_reg_len w)) (wr_output_reg w) = e }.

Lemma land_byte x : is_byte x → Z.land x 0xFF = x.
Proof. unfold is_byte. intros. change 0xFF with (Z.ones 8). rewrite Z.land_ones by done. by apply Z.mod_small. Qed.

Lemma take_insert_snoc {A} (l : list A) i x : (i < length l)%nat → take (S i) (<[i := x]> l) = take i l ++ [x].
Proof.
  intros Hi. rewrite (take_S_r _ _ x) by by apply list_lookup_insert_eq. by rewrite take_insert_ge.
Qed.

(** the buffer has room for one more byte *)
Lemma put_byte_ok w b : 0 <= wr_ptr w < Z.of_nat (length (wr_buf w)) →
  put_byte w b = (<[Z.to_nat (wr_ptr w) := b]> (wr_buf w), wr_ptr w + 1) ∧
  take (Z.to_nat (wr_ptr w + 1)) (<[Z.to_nat (wr_ptr w) := b]> (wr_buf w)) =
    take (Z.to_nat (wr_ptr w)) (wr_buf w) ++ [b].
Proof.
  intros Hp. unfold put_byte. rewrite (proj2 (Z.ltb_lt _ _)) by lia. split; [done|].
  rewrite Z2Nat.inj_add, Nat.add_comm by lia. apply take_insert_snoc. lia.
Qed.

Lemma writer_len n w e : writer_ok n w e → Z.of_nat (length e) = 8 * wr_ptr w + wr_output_reg_len w.
Proof.
  intros [Hl _ Hb _ Hp <-]. rewrite length_app, be_bits_length, bits_of_bytes_length, length_take. lia.
Qed.

Lemma flush_bit_ok n w e b : writer_ok n w e → (length e < 8 * n)%nat →
  writer_ok n (flush_bit w (Z.b2z b)) (e ++ [b]).
Proof.
  intros Hw Hlen. pose proof (writer_len _ _ _ Hw) as HL. destruct Hw as [Hl Hr Hb HB Hp He].
  unfold flush_bit. rewrite lor_bit.
  assert (0 <= 2 * wr_output_reg w + Z.b2z b < 2 ^ (wr_output_reg_len w + 1)) as Hr'.
  { rewrite Z.pow_add_r by lia. destruct b; cbn [Z.b2z]; lia. }
  assert (be_bits (Z.to_nat (wr_output_reg_len w + 1)) (2 * wr_output_reg w + Z.b2z b) =
          be_bits (Z.to_nat (wr_output_reg_len w)) (wr_output_reg w) ++ [b]) as Hbits.
  { rewrite Z2Nat.inj_add, Nat.add_comm by lia. apply be_bits_snoc. }
  destruct (Z.eqb_spec (wr_output_reg_len w + 1) 8) as [E8|].
  - rewrite E8 in *. rewrite land_byte by done.
    destruct (put_byte_ok w (2 * wr_output_reg w + Z.b2z b)) as [-> Ht]; [rewrite Hb; lia|].
    split; cbn [wr_buf wr_ptr wr_output_reg wr_output_reg_len]; try done; [by rewrite length_insert|by apply Forall_insert|lia|].
    rewrite Ht, bits_of_bytes_app, app_nil_r, <-He, <-app_assoc. f_equal.
    unfold bits_of_bytes. cbn [fmap list_fmap concat]. by rewrite app_nil_r.
  - split; cbn [wr_buf wr_ptr wr_output_reg wr_output_reg_len]; try done; [lia|].
    by rewrite Hbits, app_assoc, He.
Qed.

Lemma write_ok n w e c : writer_ok n w e → (length e + length c <= 8 * n)%nat → writer_ok n (write w c) (e ++ c).
Proof.
  revert w e. induction c as [|b c IH]; intros w e Hw Hl; [by rewrite app_nil_r|].
  change (write w (b :: c)) with (write (flush_bit w (Z.b2z b)) c). change (b :: c) with ([b] ++ c). rewrite app_assoc.
  cbn [length] in Hl. apply IH; [apply flush_bit_ok; [done|lia]|]. rewrite length_app. simpl. lia.
Qed.

(** what a finished writer leaves: the bits, padded with zeros to whole bytes *)
Lemma enc_finish_ok n w e : writer_ok n w e → (length e <= 8 * n)%nat →
  let '(buf, ptr) := finish w in
  length buf = n ∧ Forall is_byte buf ∧ 0 <= ptr <= Z.of_nat n ∧ 8 * ptr < Z.of_nat (length e) + 8 ∧
  ∃ k, bits_of_bytes (take (Z.to_nat ptr) buf) = e ++ replicate k false.
Proof.
  intros Hw Hlen. pose proof (writer_len _ _ _ Hw) as HL. destruct Hw as [Hl Hr Hb HB Hp He]. unfold finish.
  destruct (Z.ltb_spec 0 (wr_output_reg_len w)) as [Hpos|Hz].
  - rewrite Z.shiftl_mul_pow2 by lia.
    assert (is_byte (wr_output_reg w * 2 ^ (8 - wr_output_reg_len w))) as Hby.
    { unfold is_byte. assert (256 = 2 ^ wr_output_reg_len w * 2 ^ (8 - wr_output_reg_len w)) as ->.
      { rewrite <-Z.pow_add_r by lia. by replace (wr_output_reg_len w + (8 - wr_output_reg_len w)) with 8 by lia. }
      assert (0 < 2 ^ (8 - wr_output_reg_len w)) by (apply Z.pow_pos_nonneg; lia). nia. }
    rewrite land_byte by done.
    destruct (put_byte_ok w (wr_output_reg w * 2 ^ (8 - wr_output_reg_len w))) as [-> Ht]; [rewrite Hb; lia|].
    split_and!; [by rewrite length_insert|by apply Forall_insert|lia|lia|lia|].
    exists (Z.to_nat (8 - wr_output_reg_len w)). rewrite Ht, bits_of_bytes_app, <-He, <-app_assoc. f_equal.
    unfold bits_of_bytes. cbn [fmap list_fmap concat]. rewrite app_nil_r, <-be_bits_shift, Z2Nat.id by lia.
    f_equal. lia.
  - split_and!; [done|done|lia|lia|lia|]. exists 0%nat. rewrite app_nil_r, <-He.
    replace (Z.to_nat (wr_output_reg_len w)) with 0%nat by lia. by rewrite app_nil_r.
Qed.

Lemma encoder_bytes cdf syms buf : Forall valid_interval (intervals cdf syms) → Forall is_byte buf →
  let c := code 0 MASK32 (intervals cdf syms) in
  (length c <= 8 * length buf)%nat →
  let '(buf', ptr) := _encode_single_channel cdf syms buf in
  length buf' = length buf ∧ Forall is_byte buf' ∧ 0 < ptr <= Z.of_nat (length buf) ∧ 8 * ptr < Z.of_nat (length c) + 8 ∧
  ∃ k, bits_of_bytes (take (Z.to_nat ptr) buf') = c ++ replicate k false.
Proof.
  intros HF HB c Hlen. rewrite encoder_writes_code by done. fold c.
  assert (writer_ok (length buf) (write (mkWriter buf 0 0 0) c) ([] ++ c)) as Hw.
  { apply write_ok; [|done]. split; cbn; try done; lia. }
  pose proof (enc_finish_ok _ _ _ Hw Hlen) as Hf. destruct (finish _) as [buf' ptr]. destruct Hf as (? & ? & Hp & ? & k & Hk).
  split_and!; [done|done| |lia|done|by exists k].
  assert (c ≠ []) as Hne by apply code_nonempty. destruct (decide (ptr = 0)) as [->|]; [|lia].
  change (take _ buf') with (@nil Z) in Hk. simpl in Hk. by destruct c.
Qed.
