(* ===== verification/ArithmeticDecoder.v ===== *)
(** * The arithmetic decoder inverts the encoder

    The decoder of [ArithmeticCoder] follows the encoder's shifts over the stream it
    reads, so its window stays inside the encoder's interval and the binary search
    finds the symbol. *)

From S2P Require Import Prelude ArithmeticCoder.

Open Scope Z_scope.

(** ** The cumulative table *)

Record good_cdf (cdf : list Z) : Prop := {
  gc_length : (2 <= length cdf)%nat;
  gc_zero : at_ cdf 0 = 0;
  gc_increasing : ∀ i, 0 <= i < Z.of_nat (length cdf) - 1 → at_ cdf i < at_ cdf (i + 1);
  gc_last : at_ cdf (Z.of_nat (length cdf) - 1) <= 2 ^ 16 }.

Definition is_symbol (cdf : list Z) (s : Z) : Prop := 0 <= s <= Z.of_nat (length cdf) - 2.

Section cdf.
Context (cdf : list Z) (Hcdf : good_cdf cdf).
Local Abbreviation max_symbol := (Z.of_nat (length cdf) - 2).

Lemma cdf_lt i j : 0 <= i < j → j <= max_symbol + 1 → at_ cdf i < at_ cdf j.
Proof using Hcdf.
  intros Hi Hj. assert (∃ k : nat, j = i + 1 + Z.of_nat k) as [k ->] by (exists (Z.to_nat (j - i - 1)); lia).
  induction k as [|k IH].
  - rewrite Z.add_0_r. apply (gc_increasing _ Hcdf). lia.
  - etrans; [apply IH; lia|]. replace (i + 1 + Z.of_nat (S k)) with (i + 1 + Z.of_nat k + 1) by lia.
    apply (gc_increasing _ Hcdf). lia.
Qed.

Lemma cdf_range i : 0 <= i <= max_symbol + 1 → 0 <= at_ cdf i <= 2 ^ 16.
Proof using Hcdf.
  pose proof (gc_zero _ Hcdf) as H0. pose proof (gc_last _ Hcdf) as HL. pose proof (gc_length _ Hcdf). intros Hi.
  replace (Z.of_nat (length cdf) - 1) with (max_symbol + 1) in HL by lia. split.
  - destruct (decide (i = 0)) as [->|]; [lia|]. pose proof (cdf_lt 0 i). lia.
  - destruct (decide (i = max_symbol + 1)) as [->|]; [lia|]. pose proof (cdf_lt i (max_symbol + 1)). lia.
Qed.

Lemma interval_valid s : is_symbol cdf s → valid_interval (interval cdf s).
Proof using Hcdf.
  unfold is_symbol, valid_interval, interval. intros Hs. cbn [fst snd].
  pose proof (cdf_range s). pose proof (cdf_range (s + 1)). pose proof (cdf_lt s (s + 1)).
  pose proof (cdf_lt s (max_symbol + 1)). pose proof (cdf_range (max_symbol + 1)).
  destruct (Z.eqb_spec s max_symbol); lia.
Qed.

Lemma intervals_valid syms : Forall (is_symbol cdf) syms → Forall valid_interval (intervals cdf syms).
Proof using Hcdf. unfold intervals. rewrite Forall_fmap. intros H. eapply Forall_impl; [exact H|]. apply interval_valid. Qed.

(** the symbol whose interval holds [count] *)
Definition holds (count s : Z) : Prop := is_symbol cdf s ∧ (interval cdf s).1 <= count < (interval cdf s).2.

Lemma search_ok fuel count left right : (Z.to_nat (right - left) <= fuel)%nat → 0 <= left < right → right <= max_symbol + 1 →
  at_ cdf left <= count < 2 ^ 16 → (right = max_symbol + 1 ∨ count < at_ cdf right) →
  holds count (search fuel cdf count left right).
Proof using Hcdf.
  revert left right. induction fuel as [|fuel IH]; intros left right Hf Hl Hr Hc Hu; [lia|]. cbn [search].
  destruct (Z.ltb_spec (left + 1) right) as [Hlt|Hge].
  - set (m := (left + right) / 2).
    assert (left < m < right).
    { unfold m. pose proof (Z.mul_div_le (left + right) 2 ltac:(done)).
      pose proof (Z.mul_succ_div_gt (left + right) 2 ltac:(done)). lia. }
    destruct (Z.ltb_spec (at_ cdf m) count); [apply IH; lia|].
    destruct (Z.ltb_spec count (at_ cdf m)); [apply IH; lia|].
    unfold holds, is_symbol, interval. cbn [fst snd]. pose proof (cdf_lt m (m + 1)).
    destruct (Z.eqb_spec m max_symbol); lia.
  - assert (right = left + 1) as -> by lia. unfold holds, is_symbol, interval. cbn [fst snd].
    destruct (Z.eqb_spec left max_symbol); lia.
Qed.

Lemma holds_unique count s s' : holds count s → holds count s' → s = s'.
Proof using Hcdf.
  unfold holds, is_symbol, interval. cbn [fst snd]. intros [Hs Hc] [Hs' Hc'].
  destruct (Z.lt_trichotomy s s') as [Hlt|[?|Hlt]]; [|done|].
  - rewrite (proj2 (Z.eqb_neq s max_symbol)) in Hc by lia.
    assert (at_ cdf (s + 1) <= at_ cdf s'); [|lia].
    destruct (decide (s + 1 = s')) as [->|]; [lia|]. pose proof (cdf_lt (s + 1) s'). lia.
  - rewrite (proj2 (Z.eqb_neq s' max_symbol)) in Hc' by lia.
    assert (at_ cdf (s' + 1) <= at_ cdf s); [|lia].
    destruct (decide (s' + 1 = s)) as [->|]; [lia|]. pose proof (cdf_lt (s' + 1) s). lia.
Qed.

(** a value inside the narrowed interval of [s] decodes to [s] *)
Lemma decode_symbol_ok low high v r s : normal low high → is_symbol cdf s →
  let '(l, h) := narrow low high (interval cdf s).1 (interval cdf s).2 in
  l <= v <= h → decode_symbol cdf (mkDecoder low high v r) = s.
Proof using Hcdf.
  intros Hn Hs. pose proof (interval_valid s Hs) as Hi. pose proof (normal_ordered _ _ Hn) as Ho.
  pose proof (narrow_ok low high _ Hn Hi) as Hnar. revert Hnar.
  rewrite narrow_eq by (done || (unfold normal in Hn; lia)). intros (_ & Hl & Hh & _) Hv.
  unfold decode_symbol. cbn [de_low de_high de_v_val]. rewrite span_of_normal by done. rewrite !land_MASK32.
  set (span := high - low + 1) in *. unfold normal in Hn.
  rewrite (Z.mod_small (v - low)) by lia. change 0x10000 with (2 ^ 16). change 0xFFFF with (Z.ones 16). rewrite Z.land_ones by done.
  pose proof (Z.mul_succ_div_gt (span * (interval cdf s).1) (2 ^ 16) ltac:(done)) as Ha.
  pose proof (Z.mul_div_le (span * (interval cdf s).2) (2 ^ 16) ltac:(done)) as Hb.
  assert ((interval cdf s).1 <= ((v - low + 1) * 2 ^ 16 - 1) / span) by (apply Z.div_le_lower_bound; lia).
  assert (((v - low + 1) * 2 ^ 16 - 1) / span < (interval cdf s).2) by (apply Z.div_lt_upper_bound; lia).
  destruct Hi as [Hi1 Hi2]. rewrite Z.mod_small by lia.
  pose proof (gc_length _ Hcdf). eapply holds_unique; [apply search_ok; try lia|done].
  rewrite (gc_zero _ Hcdf). lia.
Qed.
End cdf.

(** ** Reading *)

(** the bits of a sequence of bytes, most significant first *)
Definition byte_stream (f : Z → Z) (i : nat) : bool := Z.testbit (f (Z.of_nat i / 8)) (7 - Z.of_nat i mod 8).

(** what the decoder reads from [start_off]: four bytes, then those before [end_off],
    then zeros *)
Definition input (bs : list Z) (start_off end_off : Z) (i : nat) : bool :=
  if (i <? 32)%nat then byte_stream (λ k, at_ bs (start_off + k)) i
  else byte_stream (λ k, byte_before bs (start_off + 4 + k) end_off) (i - 32).

(** a reader that has handed out [n] bits after the first word *)
Definition reader_at (bs : list Z) (start_off end_off : Z) (n : nat) : reader :=
  let offset := start_off + 4 + Z.of_nat n / 8 in
  mkReader offset (Z.of_nat n mod 8 + 1) (byte_before bs offset end_off).

Section reading.
Context (bs : list Z) (start_off end_off : Z).
Local Abbreviation input := (input bs start_off end_off).
Local Abbreviation reader_at := (reader_at bs start_off end_off).

Lemma next_bit_input n : next_bit (reader_at n) = Z.b2z (input (32 + n)).
Proof.
  unfold next_bit, ArithmeticDecoder.reader_at, ArithmeticDecoder.input. cbn [rd_byte_buffer rd_bit_idx].
  destruct (Nat.ltb_spec (32 + n) 32); [lia|]. replace (32 + n - 32)%nat with n by lia.
  unfold byte_stream. rewrite land_1, <-Z.bit0_odd. pose proof (Z.mod_pos_bound (Z.of_nat n) 8 ltac:(done)).
  rewrite Z.shiftr_spec by done. f_equal. f_equal. lia.
Qed.

Lemma advance_input n : advance bs end_off (reader_at n) = reader_at (S n).
Proof.
  unfold advance, ArithmeticDecoder.reader_at. cbn [rd_bit_idx rd_byte_buffer_offset rd_byte_buffer].
  pose proof (Z.mod_pos_bound (Z.of_nat n) 8 ltac:(done)). pose proof (Z.div_mod (Z.of_nat n) 8 ltac:(done)) as Hdm.
  rewrite Nat2Z.inj_succ. destruct (Z.eqb_spec (Z.of_nat n mod 8 + 1 + 1) 9).
  - rewrite <-(Z.div_unique (Z.succ (Z.of_nat n)) 8 (Z.of_nat n / 8 + 1) 0) by lia.
    rewrite <-(Z.mod_unique (Z.succ (Z.of_nat n)) 8 (Z.of_nat n / 8 + 1) 0) by lia. by rewrite !Z.add_assoc.
  - rewrite <-(Z.div_unique (Z.succ (Z.of_nat n)) 8 (Z.of_nat n / 8) (Z.of_nat n mod 8 + 1)) by lia.
    by rewrite <-(Z.mod_unique (Z.succ (Z.of_nat n)) 8 (Z.of_nat n / 8) (Z.of_nat n mod 8 + 1)) by lia.
Qed.

(** the window [v] shows the stream [s], whose bits after the window are still unread *)
Definition shows (v : Z) (r : reader) (s : nat → bool) : Prop :=
  v = window 32 s ∧ ∃ n, r = reader_at n ∧ ∀ i, (32 <= i)%nat → s i = input (n + i).

Lemma shows_next v r s : shows v r s → next_bit r = Z.b2z (s 32%nat).
Proof. intros (_ & n & -> & Hs). rewrite next_bit_input, Hs by done. by rewrite Nat.add_comm. Qed.

Lemma shows_advance v r s v' (s' : nat → bool) : shows v r s → v' = window 32 s' →
  (∀ i, (32 <= i)%nat → s' i = s (S i)) → shows v' (advance bs end_off r) s'.
Proof.
  intros (_ & n & -> & Hs) Hv Hs'. split; [done|]. exists (S n). split; [apply advance_input|].
  intros i Hi. rewrite Hs', Hs by lia. f_equal. lia.
Qed.

Lemma shift_window s : (2 * window 32 s + Z.b2z (s 32%nat)) mod 2 ^ 32 = window 32 (λ i, s (S i)).
Proof.
  rewrite <-window_snoc. change (window 33 s) with (Z.b2z (s O) * 2 ^ 32 + window 32 (λ i, s (S i))).
  rewrite Z.add_comm, Z.mod_add by done. apply Z.mod_small, (window_range 32).
Qed.

Lemma shows_emit v r s : shows v r s →
  shows (Z.land (Z.lor (Z.shiftl v 1) (next_bit r)) MASK32) (advance bs end_off r) (λ i, s (S i)).
Proof.
  intros H. apply (shows_advance v r s); [done| |done].
  rewrite (shows_next _ _ _ H), lor_bit, land_MASK32. destruct H as [-> _]. apply shift_window.
Qed.

Lemma shows_spread v r s : shows v r s → s 1%nat = negb (s 0%nat) →
  shows (Z.land (Z.lor (Z.shiftl (Z.land (v - 0x40000000) MASK32) 1) (next_bit r)) MASK32) (advance bs end_off r)
    (λ i, match i with O => s O | S i => s (S (S i)) end).
Proof.
  intros H H1. apply (shows_advance v r s); [done| |by intros [|i] Hi; [lia|]].
  rewrite (shows_next _ _ _ H), lor_bit, !land_MASK32. destruct H as [-> _].
  set (q := λ i, s (S (S i))).
  assert (window 32 s = Z.b2z (s O) * 2 ^ 31 + (Z.b2z (s 1%nat) * 2 ^ 30 + window 30 q)) as Hw by done.
  assert (window 32 (λ i, match i with O => s O | S i => s (S (S i)) end) = Z.b2z (s O) * 2 ^ 31 + window 31 q) as -> by done.
  pose proof (window_range 30 q) as Hr. pose proof (window_range 31 q) as Hr31.
  pose proof (window_snoc 30 q) as Hsnoc. change (q 30%nat) with (s 32%nat) in Hsnoc.
  change (Z.of_nat 30) with 30 in Hr. change (Z.of_nat 31) with 31 in Hr31.
  assert (Z.b2z (s 1%nat) = 1 - Z.b2z (s O)) as E by (rewrite H1; by destruct (s O)).
  assert (0 <= Z.b2z (s O) <= 1) by (destruct (s O); simpl; lia).
  assert (0 <= Z.b2z (s 32%nat) <= 1) by (destruct (s 32%nat); simpl; lia).
  change 0x40000000 with (2 ^ 30). rewrite (Z.mod_small (window 32 s - 2 ^ 30)) by lia.
  rewrite Z.mod_small by lia. lia.
Qed.

(** the decoder's loop follows the encoder's shifts *)
Lemma dec_renorm_ok fuel low high v r s c t : ordered low high → shows v r s → c ≠ [] →
  let '(ops, (l, h)) := shifts fuel low high in
  (∀ i, s i = prepend (apply_shifts ops c) t i) →
  ∃ v' r' s', dec_renorm fuel bs end_off (mkDecoder low high v r) = mkDecoder l h v' r' ∧
    shows v' r' s' ∧ ∀ i, s' i = prepend c t i.
Proof.
  intros Ho Hsh Hc. revert low high v r s Ho Hsh. induction fuel as [|fuel IH]; intros low high v r s Ho Hsh.
  { intros Hs. by exists v, r, s. }
  pose proof Ho as (Hl & Hh & Hle). cbn [dec_renorm].
  change 0x80000000 with (2 ^ 31). change 0x40000000 with (2 ^ 30). change 0xC0000000 with (3 * 2 ^ 30).
  apply shifts_cases; [done| | |].
  - intros b E _ Hb. rewrite E, (shift_low b low high), (shift_high b low high) by done.
    specialize (IH _ _ _ _ _ (double_ordered _ _ _ Ho Hb) (shows_emit _ _ _ Hsh)).
    destruct (shifts fuel _ _) as [ops [l h]]. intros Hs. apply IH. intros i. rewrite Hs. done.
  - intros E1 E2 Hl' Hh'. rewrite E1, E2, spread_low, spread_high by done.
    assert (∀ ops, (∀ i, s i = prepend (apply_shifts (Spread :: ops) c) t i) →
      s 1%nat = negb (s O) ∧ ∀ i, match i with O => s O | S i => s (S (S i)) end = prepend (apply_shifts ops c) t i) as Hspread.
    { intros ops Hs. pose proof (apply_shifts_nonempty ops c Hc) as Hne. cbn [apply_shifts foldr] in Hs.
      fold (apply_shifts ops c) in Hs. destruct (apply_shifts ops c) as [|b c']; [done|]. cbn [apply_shift] in Hs.
      split; [by rewrite (Hs 0%nat), (Hs 1%nat)|]. intros [|i]; by rewrite Hs. }
    destruct (shifts fuel _ _) as [ops [l h]] eqn:Esh. intros Hs. destruct (Hspread _ Hs) as [H1 H2].
    specialize (IH _ _ _ _ _ (spread_ordered _ _ Hl' Hh') (shows_spread _ _ _ Hsh H1)).
    rewrite Esh in IH. by apply IH.
  - intros E1 E2 _ Hs. rewrite E1, E2. by exists v, r, s.
Qed.

Lemma decode_tokens_ok cdf syms low high v r s t : good_cdf cdf → Forall (is_symbol cdf) syms → normal low high →
  shows v r s → (∀ i, s i = prepend (code low high (intervals cdf syms)) t i) →
  decode_tokens cdf bs end_off (length syms) (mkDecoder low high v r) = syms.
Proof.
  intros Hcdf HF. revert low high v r s. induction HF as [|x syms Hx HF IH]; intros low high v r s Hn Hsh Hs; [done|].
  cbn [length decode_tokens]. pose proof (interval_valid cdf Hcdf x Hx) as Hi.
  pose proof (decode_symbol_ok cdf Hcdf low high v r x Hn Hx) as Hdec.
  pose proof (narrow_ok low high _ Hn Hi) as H1. pose proof (step_normal low high _ Hn Hi) as H2.
  unfold decode_advance. cbn [de_low de_high de_v_val de_reader]. revert Hs. cbn [intervals fmap list_fmap code].
  destruct (interval cdf x) as [cl ch] eqn:Ex. cbn [fst snd] in *.
  destruct (narrow low high cl ch) as [l h] eqn:En. destruct H1 as (Ho & _).
  pose proof (dec_renorm_ok renorm_fuel l h v r s) as Hren. pose proof (within_shifts renorm_fuel l h) as Hw.
  destruct (shifts _ _ _) as [ops [l' h']].
  assert (within l' h' (code l' h' (intervals cdf syms))) as Hc by (apply code_within; [done|by apply intervals_valid]).
  intros Hs. destruct (Hw _ Ho Hc) as [_ Hwt]. specialize (Hwt t).
  assert (v = window 32 (prepend (apply_shifts ops (code l' h' (intervals cdf syms))) t)) as Hv.
  { destruct Hsh as [-> _]. apply window_ext. intros i _. apply Hs. }
  rewrite Hdec by lia. f_equal. destruct syms as [|y syms]; [done|]. cbn [length]. rewrite Ex, En.
  destruct (Hren _ t Ho Hsh (code_nonempty _ _ _) Hs) as (v' & r' & s' & -> & Hsh' & Hs').
  by apply (IH _ _ _ _ s').
Qed.
End reading.

(** ** One channel *)

Lemma lookup_be_bits n z j : (j < n)%nat → be_bits n z !! j = Some (Z.testbit z (Z.of_nat n - 1 - Z.of_nat j)).
Proof.
  revert z. induction n as [|n IH]; intros z Hj; [lia|]. cbn [be_bits].
  destruct (decide (j = n)) as [->|].
  - rewrite lookup_app_r by (rewrite be_bits_length; lia). rewrite be_bits_length, Nat.sub_diag. simpl.
    f_equal. rewrite <-Z.bit0_odd. f_equal. lia.
  - rewrite lookup_app_l by (rewrite be_bits_length; lia). rewrite IH by lia. f_equal.
    rewrite <-Z.div2_div, Z.div2_spec, Z.shiftr_spec by lia. f_equal. lia.
Qed.

Lemma lookup_bits_of_bytes l i : (i < 8 * length l)%nat → bits_of_bytes l !! i = Some (byte_stream (at_ l) i).
Proof.
  revert i. induction l as [|b l IH]; intros i Hi; [simpl in Hi; lia|].
  unfold bits_of_bytes in *. cbn [fmap list_fmap concat]. unfold byte_stream.
  destruct (decide (i < 8)%nat) as [H8|H8].
  - rewrite lookup_app_l by (rewrite be_bits_length; lia). rewrite lookup_be_bits by done.
    rewrite Z.div_small, Z.mod_small by lia. simpl. done.
  - rewrite lookup_app_r by (rewrite be_bits_length; lia). rewrite be_bits_length. cbn [length] in Hi. rewrite IH by lia.
    unfold byte_stream. rewrite Nat2Z.inj_sub by lia. f_equal.
    set (j := Z.of_nat i - Z.of_nat 8). assert (Z.of_nat i = j + 1 * 8) as -> by lia.
    assert (0 <= j / 8) by (apply Z.div_pos; lia). rewrite Z.div_add, Z.mod_add by done. f_equal. unfold at_.
    rewrite Z2Nat.inj_add, Nat.add_comm by lia. done.
Qed.

Lemma window_low_bits b n : window n (λ i, Z.testbit b (Z.of_nat n - 1 - Z.of_nat i)) = b mod 2 ^ Z.of_nat n.
Proof.
  induction n as [|n IH]; [by rewrite Z.mod_1_r|]. cbn [window].
  rewrite Nat2Z.inj_succ, Z.pow_succ_r, (Z.mul_comm 2), Z.rem_mul_r by lia.
  rewrite <-Z.testbit_spec' by lia. rewrite <-IH, Z.add_comm, (Z.mul_comm (2 ^ _)). f_equal.
  - apply window_ext. intros i Hi. f_equal. lia.
  - f_equal. f_equal. f_equal. lia.
Qed.

Lemma window_byte b : is_byte b → window 8 (byte_stream (λ _, b)) = b.
Proof.
  intros Hb. transitivity (b mod 2 ^ Z.of_nat 8); [|by apply Z.mod_small]. rewrite <-window_low_bits.
  apply window_ext. intros i Hi. unfold byte_stream. by rewrite Z.mod_small by lia.
Qed.

Lemma at_is_byte bs i : Forall is_byte bs → is_byte (at_ bs i).
Proof.
  intros HF. unfold at_. destruct (bs !! Z.to_nat i) as [b|] eqn:E; simpl; [|done].
  by eapply Forall_lookup_1 in HF.
Qed.

Lemma window_bytes n f : (∀ k, is_byte (f k)) → window (8 * S n) (byte_stream f) = window (8 * n) (byte_stream f) * 256 + f (Z.of_nat n).
Proof.
  intros Hf. replace (8 * S n)%nat with (8 * n + 8)%nat by lia. rewrite window_app.
  change (2 ^ Z.of_nat 8) with 256. f_equal. rewrite <-(window_byte (f (Z.of_nat n))) by done.
  apply window_ext. intros i Hi. unfold byte_stream.
  replace (Z.of_nat (8 * n + i)) with (Z.of_nat i + Z.of_nat n * 8) by lia.
  rewrite Z.div_add, Z.mod_add, (Z.div_small (Z.of_nat i)) by lia. done.
Qed.

Lemma first_word_window bs start_off end_off : Forall is_byte bs → start_off + 4 <= Z.of_nat (length bs) →
  first_word bs start_off = window 32 (input bs start_off end_off).
Proof.
  intros HF Hlen. unfold first_word. rewrite (proj2 (Z.leb_le _ _)) by done.
  transitivity (window 32 (byte_stream (λ k, at_ bs (start_off + k)))).
  2:{ apply window_ext. intros i Hi. unfold input. by rewrite (proj2 (Nat.ltb_lt _ _)). }
  set (f := λ k, at_ bs (start_off + k)). assert (∀ k, is_byte (f k)) as Hf by (intros k; by apply at_is_byte).
  change 32%nat with (8 * 4)%nat. rewrite !window_bytes by done. change (Z.of_nat 0) with 0. change (Z.of_nat 1) with 1.
  change (Z.of_nat 2) with 2. change (Z.of_nat 3) with 3. change (window (8 * 0) _) with 0.
  assert (at_ bs start_off = f 0) as -> by (unfold f; by rewrite Z.add_0_r).
  change (at_ bs (start_off + 1)) with (f 1). change (at_ bs (start_off + 2)) with (f 2). change (at_ bs (start_off + 3)) with (f 3).
  pose proof (Hf 0). pose proof (Hf 1). pose proof (Hf 2). pose proof (Hf 3). unfold is_byte in *.
  assert (∀ x y n, 0 <= n → 0 <= y < 2 ^ n → Z.lor (Z.shiftl x n) y = x * 2 ^ n + y) as Hlor.
  { intros x y n Hn Hy. rewrite Z.shiftl_mul_pow2 by done. rewrite <-Z.add_lor_land.
    enough (Z.land (x * 2 ^ n) y = 0) by lia. apply Z.bits_inj'. intros i Hi. rewrite Z.land_spec, Z.bits_0.
    destruct (decide (i < n)) as [Hlt|Hge]; [by rewrite Z.mul_pow2_bits_low|].
    rewrite <-(Z.mod_small y (2 ^ n)) by done. rewrite Z.mod_pow2_bits_high by lia. apply andb_false_r. }
  rewrite <-!Z.lor_assoc, (Hlor (f 2) (f 3) 8) by lia. rewrite (Hlor (f 1) _ 16) by lia. rewrite (Hlor (f 0) _ 24) by lia.
  rewrite land_MASK32, Z.mod_small by lia. lia.
Qed.

(** the stream of a channel starts with its code, wherever it lies in the input *)
Lemma input_code bs pre bytes post c k : bs = pre ++ bytes ++ post → bits_of_bytes bytes = c ++ replicate k false →
  let start_off := Z.of_nat (length pre) in let end_off := start_off + Z.of_nat (length bytes) in
  ∀ i, input bs start_off end_off i =
       prepend c (λ j, input bs start_off end_off (j + length c)) i.
Proof.
  intros -> Hb start_off end_off i. unfold prepend. destruct (c !! i) as [b|] eqn:E.
  - assert ((i < length c)%nat) as Hi by by apply lookup_lt_Some in E.
    assert ((length c + k = 8 * length bytes)%nat) as Hlen.
    { rewrite <-bits_of_bytes_length, Hb, length_app, length_replicate. done. }
    assert (bits_of_bytes bytes !! i = Some b) as E' by (rewrite Hb, lookup_app_l by done; done).
    rewrite lookup_bits_of_bytes in E' by lia. injection E' as E'. rewrite <-E'.
    assert (Z.of_nat i / 8 < Z.of_nat (length bytes)) by (apply Z.div_lt_upper_bound; lia).
    assert (0 <= Z.of_nat i / 8) by (apply Z.div_pos; lia).
    assert (∀ m, 0 <= m < Z.of_nat (length bytes) → at_ (pre ++ bytes ++ post) (start_off + m) = at_ bytes m) as Hat.
    { intros m Hm. unfold at_, start_off. rewrite Z2Nat.inj_add, Nat2Z.id by lia.
      rewrite lookup_app_r, Nat.add_comm, Nat.add_sub by lia. rewrite lookup_app_l by lia. done. }
    unfold input. destruct (Nat.ltb_spec i 32); unfold byte_stream; [by rewrite Hat|].
    rewrite Nat2Z.inj_sub by lia. replace (Z.of_nat i - Z.of_nat 32) with (Z.of_nat i + (-4) * 8) by lia.
    rewrite Z.div_add, Z.mod_add by done. unfold byte_before, end_off.
    replace (start_off + 4 + (Z.of_nat i / 8 + -4)) with (start_off + Z.of_nat i / 8) by lia.
    rewrite (proj2 (Z.ltb_lt _ _)) by lia. by rewrite Hat.
  - apply lookup_ge_None in E. f_equal. lia.
Qed.

Lemma channel_roundtrip cdf syms buf pre post : good_cdf cdf → Forall (is_symbol cdf) syms → Forall is_byte buf →
  (length (code 0 MASK32 (intervals cdf syms)) <= 8 * length buf)%nat →
  let '(buf', ptr) := _encode_single_channel cdf syms buf in
  let bs := pre ++ take (Z.to_nat ptr) buf' ++ post in
  let start_off := Z.of_nat (length pre) in
  Forall is_byte bs → start_off + 4 <= Z.of_nat (length bs) →
  _decode_single_channel cdf bs start_off (start_off + ptr) (length syms) = syms.
Proof.
  intros Hcdf HF Hbuf Hlen. pose proof (encoder_bytes cdf syms buf (intervals_valid cdf Hcdf syms HF) Hbuf Hlen) as He.
  destruct (_encode_single_channel _ _ _) as [buf' ptr]. destruct He as (Hl' & _ & Hptr & _ & k & Hk).
  cbv zeta. intros Hbs H4. set (bytes := take (Z.to_nat ptr) buf') in *. set (bs := pre ++ bytes ++ post) in *.
  assert (Z.of_nat (length bytes) = ptr) as Hbl by (unfold bytes; rewrite length_take; lia).
  unfold _decode_single_channel. rewrite <-Hbl.
  pose proof (input_code bs pre bytes post _ k eq_refl Hk) as Hin. cbv zeta in Hin.
  set (start_off := Z.of_nat (length pre)) in *. set (end_off := start_off + Z.of_nat (length bytes)) in *.
  eapply (decode_tokens_ok bs start_off end_off); [done|done|unfold normal, MASK32; lia| |exact Hin].
  split; [by apply first_word_window|]. exists 0%nat. split; [|done].
  unfold reader_at. rewrite Z.div_0_l, Z.mod_0_l, Z.add_0_r by done. done.
Qed.
