(* ===== verification/ArithmeticTables.v ===== *)
(** * Whole tensors of coded channels

    [calculate_cdf], [encode_fast_new] and [decode_fast_prefsum] of torch_ops.py over
    the channels of a tensor, and the size of what the encoder writes. A tensor of
    shape [n_layers, n_tokens, n_channels] is the list of its channels in the order
    of the code's tasks, by layer and then by channel; the thread pool runs the
    tasks on disjoint slices. *)

From S2P Require Import Prelude ArithmeticCoder ArithmeticDecoder.

Open Scope Z_scope.

(** [.to(torch.int16)] keeps the low 16 bits; [.view(np.uint16)] reads them unsigned *)
Definition to_int16 (z : Z) : Z := (z + 2 ^ 15) mod 2 ^ 16 - 2 ^ 15.
Definition view_uint16 (z : Z) : Z := z mod 2 ^ 16.
(** [.astype(np.uint8)] *)
Definition astype_uint8 (z : Z) : Z := z mod 2 ^ 8.

Definition clamp (lo hi x : Z) : Z := Z.min hi (Z.max lo x).

Definition count_of (l : list Z) (b : Z) : nat := length (filter (.= b) l).

(** [cumsum] *)
Fixpoint cumsum (acc : Z) (l : list Z) : list Z :=
  match l with [] => [] | x :: l => (acc + x) :: cumsum (acc + x) l end.

Definition bins (num_bins : nat) : list Z := Z.of_nat <$> seq 0 num_bins.

(** the table of one channel, with [num_bins + 1] entries *)
Definition normalized (num_bins : nat) (tokens : list Z) : list Z :=
  let clamped := clamp 0 (Z.of_nat num_bins - 1) <$> tokens in
  let counts := (λ b, Z.of_nat (count_of clamped b)) <$> bins num_bins in
  let cdf := 0 :: cumsum 0 counts in
  let total := at_ cdf (Z.of_nat num_bins) in
  let max_uint16_value := 0xFFFF - Z.of_nat num_bins in
  imap (λ i c, if 0 <? total then (max_uint16_value * c) / Z.max 1 total + Z.of_nat i else Z.of_nat i) cdf.

Definition calculate_cdf (channels : list (list Z)) (num_bins : nat) : list (list Z) :=
  (λ tokens, to_int16 <$> normalized num_bins tokens) <$> channels.

Definition encode_fast_new (cdf channels : list (list Z)) (buffer_size : nat) : list (list Z * Z) :=
  zip_with (λ cdf tokens, _encode_single_channel (view_uint16 <$> cdf) (astype_uint8 <$> tokens) (replicate buffer_size 0))
    cdf channels.

(** every channel has a buffer of its own *)
Definition decode_fast_new (cdf bytestreams : list (list Z)) (lengths : list Z) (n_tokens : nat) : list (list Z) :=
  imap (λ c cdf, _decode_single_channel (view_uint16 <$> cdf) (default [] (bytestreams !! c)) 0 (default 0 (lengths !! c)) n_tokens) cdf.

(** zeros are appended so that the first word of every channel is inside *)
Definition padded (bytestreams lengths_prefsum : list Z) : list Z :=
  let max_prefsum := foldr Z.max 0 lengths_prefsum in
  bytestreams ++ replicate (Z.to_nat (Z.max 0 (max_prefsum + 4 - Z.of_nat (length bytestreams)))) 0.

Definition decode_fast_prefsum (cdf : list (list Z)) (bytestreams lengths_prefsum : list Z) (n_tokens : nat) : list (list Z) :=
  let bs := padded bytestreams lengths_prefsum in
  imap (λ cid cdf, _decode_single_channel (view_uint16 <$> cdf) bs
                     (match cid with O => 0 | S cid => default 0 (lengths_prefsum !! cid) end)
                     (default 0 (lengths_prefsum !! cid)) n_tokens) cdf.

(** ** Counting *)

Lemma count_of_cons x l b : count_of (x :: l) b = ((if decide (x = b) then 1 else 0) + count_of l b)%nat.
Proof. unfold count_of. rewrite filter_cons. by case_decide. Qed.

Lemma elem_of_bins n s : s ∈ bins n ↔ 0 <= s < Z.of_nat n.
Proof.
  unfold bins. rewrite list_elem_of_fmap. setoid_rewrite elem_of_seq. split.
  - intros (k & -> & ?). lia.
  - intros ?. exists (Z.to_nat s). lia.
Qed.

Lemma NoDup_bins n : NoDup (bins n).
Proof. apply NoDup_fmap_2; [intros ???; lia|]. apply NoDup_seq. Qed.

Definition prod (l : list Z) : Z := foldr Z.mul 1 l.

(** a product over tokens, grouped by symbol *)
Lemma prod_grouped (g : Z → Z) n tokens : Forall (λ s, 0 <= s < Z.of_nat n) tokens →
  prod (g <$> tokens) = prod ((λ s, g s ^ Z.of_nat (count_of tokens s)) <$> bins n).
Proof.
  induction 1 as [|x tokens Hx HF IH].
  - unfold prod. induction (bins n) as [|b bs IHb]; [done|]. cbn [fmap list_fmap foldr] in *.
    rewrite <-IHb, Z.mul_1_r. done.
  - cbn [fmap list_fmap prod foldr]. fold (prod (g <$> tokens)). rewrite IH.
    apply elem_of_bins in Hx. pose proof (NoDup_bins n) as HN. clear IH HF. revert Hx HN.
    induction (bins n) as [|b bs IHb]; [by intros ?%elem_of_nil|]. intros Hx [Hb HN]%NoDup_cons.
    cbn [fmap list_fmap prod foldr]. rewrite count_of_cons.
    apply elem_of_cons in Hx as [->|Hx].
    + rewrite decide_True by done. rewrite Nat2Z.inj_add, Z.pow_add_r by lia. rewrite Z.pow_1_r.
      assert ((λ s, g s ^ Z.of_nat (count_of (b :: tokens) s)) <$> bs = (λ s, g s ^ Z.of_nat (count_of tokens s)) <$> bs) as E.
      { apply list_fmap_ext. intros i s Hs%list_elem_of_lookup_2. rewrite count_of_cons, decide_False; [done|]. by intros ->. }
      rewrite E. lia.
    + rewrite decide_False by (intros ->; done). cbn [Nat.add]. unfold prod in IHb. rewrite <-IHb by done. lia.
Qed.

Lemma cumsum_length acc l : length (cumsum acc l) = length l.
Proof. revert acc. induction l; intros; simpl; auto. Qed.

Lemma cumsum_step acc l i x : l !! i = Some x →
  default 0 ((acc :: cumsum acc l) !! S i) = default 0 ((acc :: cumsum acc l) !! i) + x.
Proof.
  revert acc i. induction l as [|y l IH]; intros acc i Hi; [done|]. destruct i as [|i].
  - injection Hi as ->. done.
  - exact (IH (acc + y) i Hi).
Qed.

(** ** The table of a channel *)

Section table.
Context (n : nat) (tokens : list Z) (Hn : 0 < Z.of_nat n <= 0xFFFE) (Htok : Forall (λ s, 0 <= s < Z.of_nat n) tokens).

Definition running (i : nat) : Z :=
  default 0 ((0 :: cumsum 0 ((λ b, Z.of_nat (count_of tokens b)) <$> bins n)) !! i).

Lemma running_step i : (i < n)%nat → running (S i) = running i + Z.of_nat (count_of tokens (Z.of_nat i)).
Proof.
  intros Hi. apply cumsum_step. unfold bins. rewrite !list_lookup_fmap, lookup_seq_lt by done. done.
Qed.

Lemma running_total k : (k <= n)%nat → prod ((λ s, 2 ^ Z.of_nat (count_of tokens s)) <$> bins k) = 2 ^ running k ∧ 0 <= running k.
Proof.
  induction k as [|k IH]; intros Hk; [done|]. destruct IH as [IH Hpos]; [lia|].
  rewrite running_step by lia. split; [|lia]. rewrite Z.pow_add_r, <-IH by lia.
  unfold bins. rewrite seq_S, !fmap_app. unfold prod. rewrite foldr_app. cbn.
  rewrite Z.mul_1_r. generalize (2 ^ Z.of_nat (count_of tokens (Z.of_nat k))) as z. intros z.
  induction (_ <$> (_ <$> seq 0 k)) as [|x l IHl]; cbn; [lia|]. rewrite IHl. lia.
Qed.

Lemma running_length : running n = Z.of_nat (length tokens).
Proof.
  destruct (running_total n) as [Ht Hpos]; [done|]. rewrite <-(prod_grouped (λ _, 2)) in Ht by done.
  assert (∀ l : list Z, prod ((λ _, 2) <$> l) = 2 ^ Z.of_nat (length l)) as Hc.
  { induction l as [|x l IHl]; [done|]. cbn [fmap list_fmap prod foldr length]. fold (prod ((λ _ : Z, 2) <$> l)).
    rewrite IHl, Nat2Z.inj_succ, Z.pow_succ_r by lia. done. }
  rewrite Hc in Ht. symmetry. eapply (Z.pow_inj_r 2); [lia|lia|lia|done].
Qed.

Lemma running_mono i j : (i <= j <= n)%nat → running i <= running j.
Proof.
  intros [Hij Hj]. induction Hij as [|j Hij IH]; [lia|]. rewrite running_step by lia. lia.
Qed.

Definition entry (i : nat) : Z :=
  if 0 <? running n then ((0xFFFF - Z.of_nat n) * running i) / Z.max 1 (running n) + Z.of_nat i else Z.of_nat i.

Lemma clamped : clamp 0 (Z.of_nat n - 1) <$> tokens = tokens.
Proof.
  rewrite <-(list_fmap_id tokens) at 2. apply list_fmap_ext. intros i s Hs. rewrite Forall_lookup in Htok.
  specialize (Htok i s Hs). unfold clamp. simpl in *. lia.
Qed.

Lemma normalized_entry i : (i <= n)%nat → normalized n tokens !! i = Some (entry i).
Proof.
  intros Hi. unfold normalized. rewrite clamped, list_lookup_imap.
  set (l := 0 :: cumsum 0 _). assert (length l = S n) as Hl.
  { unfold l. cbn [length]. rewrite cumsum_length, length_fmap. unfold bins. by rewrite length_fmap, length_seq. }
  destruct (lookup_lt_is_Some_2 l i) as [c Hc]; [lia|]. rewrite Hc. cbn. f_equal. unfold entry.
  assert (running i = c) as -> by (unfold running; fold l; by rewrite Hc).
  assert (at_ l (Z.of_nat n) = running n) as -> by (unfold at_, running; fold l; by rewrite Nat2Z.id). done.
Qed.

Lemma normalized_length : length (normalized n tokens) = S n.
Proof.
  unfold normalized. rewrite length_imap. cbn [length]. rewrite cumsum_length, length_fmap.
  unfold bins. by rewrite length_fmap, length_seq.
Qed.

Lemma entry_step i : (i < n)%nat → entry i < entry (S i) ∧
  (0xFFFF - Z.of_nat n) * Z.of_nat (count_of tokens (Z.of_nat i)) <= (entry (S i) - entry i) * running n.
Proof.
  intros Hi. unfold entry. pose proof (running_step i Hi) as Hs. pose proof (running_mono i (S i)).
  pose proof (running_mono (S i) n). pose proof (running_mono 0 i). change (running 0) with 0 in *.
  destruct (Z.ltb_spec 0 (running n)) as [Hpos|Hz]; [|split; [lia|nia]].
  replace (Z.max 1 (running n)) with (running n) by lia.
  set (M := 0xFFFF - Z.of_nat n). set (a := M * running i). set (b := M * running (S i)).
  assert (0 <= M) by (unfold M; lia).
  pose proof (Z.mul_div_le a (running n) Hpos). pose proof (Z.mul_succ_div_gt b (running n) Hpos).
  assert (a / running n <= b / running n) by (apply Z.div_le_mono; [lia|unfold a, b; nia]).
  split; [lia|]. assert (b = a + M * Z.of_nat (count_of tokens (Z.of_nat i))) by (unfold a, b; rewrite Hs; lia). nia.
Qed.

Lemma entry_range i : (i <= n)%nat → 0 <= entry i <= 0xFFFF.
Proof.
  intros Hi. unfold entry. pose proof (running_mono 0 i). pose proof (running_mono i n). change (running 0) with 0 in *.
  destruct (Z.ltb_spec 0 (running n)) as [Hpos|Hz]; [|lia]. replace (Z.max 1 (running n)) with (running n) by lia.
  set (M := 0xFFFF - Z.of_nat n). assert (0 <= M) by (unfold M; lia).
  assert (0 <= M * running i / running n) by (apply Z.div_pos; nia).
  assert (M * running i / running n <= M) by (apply Z.div_le_upper_bound; nia). lia.
Qed.

Lemma view_to_int16 z : 0 <= z < 2 ^ 16 → view_uint16 (to_int16 z) = z.
Proof.
  intros Hz. unfold view_uint16, to_int16.
  rewrite Zminus_mod_idemp_l. replace (z + 2 ^ 15 - 2 ^ 15) with z by lia. by apply Z.mod_small.
Qed.

(** the table as the coder reads it *)
Definition table : list Z := view_uint16 <$> (to_int16 <$> normalized n tokens).

Lemma table_length : length table = S n.
Proof. unfold table. by rewrite !length_fmap, normalized_length. Qed.

Lemma at_table i : 0 <= i <= Z.of_nat n → at_ table i = entry (Z.to_nat i).
Proof.
  intros Hi. unfold at_, table. rewrite !list_lookup_fmap, normalized_entry by lia. cbn.
  apply view_to_int16. pose proof (entry_range (Z.to_nat i)). lia.
Qed.

Lemma table_good : good_cdf table.
Proof.
  split; rewrite ?table_length; [lia| | |].
  - rewrite at_table by lia. unfold entry. change (Z.to_nat 0) with 0%nat. change (running 0) with 0.
    rewrite Z.mul_0_r. destruct (0 <? running n); [|done]. rewrite Z.div_0_l by lia. done.
  - intros i Hi. rewrite !at_table by lia. rewrite Z2Nat.inj_add, Nat.add_comm by lia.
    apply (entry_step (Z.to_nat i)). lia.
  - rewrite at_table by lia. pose proof (entry_range (Z.to_nat (Z.of_nat (S n) - 1))). lia.
Qed.

Lemma table_symbols : Forall (is_symbol table) tokens.
Proof.
  eapply Forall_impl; [exact Htok|]. intros s Hs. unfold is_symbol. rewrite table_length. cbn beta in Hs. lia.
Qed.

(** the share of a symbol is at least the share of its occurrences *)
Definition gap (cdf : list Z) (s : Z) : Z := (interval cdf s).2 - (interval cdf s).1.

Lemma table_gap s : 0 <= s < Z.of_nat n →
  (0xFFFF - Z.of_nat n) * Z.of_nat (count_of tokens s) <= gap table s * Z.of_nat (length tokens).
Proof.
  intros Hs. rewrite <-running_length. pose proof (running_mono 0 n). change (running 0) with 0 in *.
  destruct (entry_step (Z.to_nat s)) as [_ Hstep]; [lia|]. rewrite Z2Nat.id in Hstep by lia.
  unfold gap, interval. rewrite table_length. cbn [fst snd]. rewrite (at_table s) by lia.
  destruct (Z.eqb_spec s (Z.of_nat (S n) - 2)) as [E|].
  - pose proof (entry_range (S (Z.to_nat s))). nia.
  - rewrite at_table by lia. rewrite Z2Nat.inj_add, Nat.add_comm by lia. exact Hstep.
Qed.
End table.

(** ** The length of a code *)

Lemma apply_shifts_length ops c : c ≠ [] → length (apply_shifts ops c) = (length ops + length c)%nat.
Proof.
  intros Hc. induction ops as [|o ops IH]; [done|]. cbn [apply_shifts foldr length] in *.
  fold (apply_shifts ops c) in *. pose proof (apply_shifts_nonempty ops c Hc) as Hne.
  destruct o as [b|]; cbn [apply_shift]; [cbn [length]; by rewrite IH|].
  destruct (apply_shifts ops c) as [|b c']; [done|]. cbn [length] in *. lia.
Qed.

Lemma prod_nonneg l : Forall (Z.le 0) l → 0 <= prod l.
Proof. induction 1; simpl; [lia|]. by apply Z.mul_nonneg_nonneg. Qed.

(** every bit but the last two halves the interval; a narrowing shrinks it to the
    share of its symbol, up to the rounding of one part in [2 ^ 14] *)
Lemma code_length ivs low high : normal low high → Forall valid_interval ivs →
  ∃ k : nat, length (code low high ivs) = (k + 2)%nat ∧
    2 ^ Z.of_nat k * (high - low + 1) * prod ((λ i, i.2 - i.1) <$> ivs) * (2 ^ 14 - 1) ^ Z.of_nat (length ivs)
      <= 2 ^ 32 * (2 ^ 30) ^ Z.of_nat (length ivs).
Proof.
  intros Hn HF. revert low high Hn. induction HF as [|[cl ch] ivs Hi HF IH]; intros low high Hn.
  { exists 0%nat. split; [done|]. unfold normal in Hn. cbn [fmap list_fmap prod foldr length]. simpl (Z.of_nat 0). lia. }
  pose proof (narrow_ok low high _ Hn Hi) as H1. pose proof (step_normal low high _ Hn Hi) as H2.
  cbn [code fmap list_fmap prod foldr length fst snd] in *. fold (prod ((λ i : Z * Z, i.2 - i.1) <$> ivs)).
  destruct (narrow _ _ _ _) as [l h]. destruct H1 as (Ho & _ & _ & Hw).
  pose proof (shifts_width renorm_fuel l h Ho) as Hs.
  destruct (shifts _ _ _) as [ops [l' h']]. destruct Hs as [_ Hs]. destruct (IH _ _ H2) as (k & Hk & Hle).
  exists (length ops + k)%nat. rewrite apply_shifts_length, Hk by apply code_nonempty. split; [lia|].
  rewrite Hs in Hle. rewrite Nat2Z.inj_add, Nat2Z.inj_succ, Z.pow_add_r, !Z.pow_succ_r by lia.
  set (P := prod _) in *. set (q := (2 ^ 14 - 1) ^ _) in *. set (A := 2 ^ Z.of_nat k) in *. set (B := 2 ^ Z.of_nat (length ops)) in *.
  assert (0 <= P) as HP.
  { apply prod_nonneg. rewrite Forall_fmap. eapply Forall_impl; [exact HF|]. intros [a b] [Hab _]. simpl in *. lia. }
  assert (0 <= q) by (apply Z.pow_nonneg; lia). assert (0 <= A) by (apply Z.pow_nonneg; lia). assert (0 <= B) by (apply Z.pow_nonneg; lia).
  assert ((high - low + 1) * (ch - cl) * (2 ^ 14 - 1) <= 2 ^ 30 * (h - l + 1)) as Hstep.
  { destruct Hi as [Hi1 Hi2]. cbn [fst snd] in *. unfold normal in Hn. nia. }
  transitivity (2 ^ 30 * (A * (B * (h - l + 1)) * P * q)); [|lia].
  transitivity (((high - low + 1) * (ch - cl) * (2 ^ 14 - 1)) * (A * B * P * q)); [lia|].
  transitivity ((2 ^ 30 * (h - l + 1)) * (A * B * P * q)); [|lia].
  apply Z.mul_le_mono_nonneg_r; [|done]. repeat apply Z.mul_nonneg_nonneg; done.
Qed.

(** ** MaKV's streams: 256 symbols of an alphabet of at most 16 *)

(** a symbol that occurs [c] times out of 256 costs less than [cost c] bits each time,
    and at most [32 + 3 c] bits over all its occurrences *)
Definition cost (c : Z) : Z := Z.log2_up (2 ^ 24 / (65519 * c) + 1).
Definition cost_ok (c : Z) : bool := (2 ^ 24 <=? 65519 * c * 2 ^ cost c) && (c * cost c <=? 32 + 3 * c) && (0 <=? cost c).

Lemma costs_ok : forallb cost_ok ((λ c, c + 1) <$> bins 256) = true.
Proof. vm_compute. reflexivity. Qed.

Lemma occurrence_cost (g : Z) (c : nat) : (c <= 256)%nat → 0 <= g → 65519 * Z.of_nat c <= g * 256 →
  (2 ^ 16) ^ Z.of_nat c <= g ^ Z.of_nat c * (2 ^ 32 * (2 ^ 3) ^ Z.of_nat c).
Proof.
  intros Hc Hg Hgap. destruct (decide (c = 0)%nat) as [->|]; [done|].
  assert (cost_ok (Z.of_nat c) = true) as Hok.
  { eapply forallb_forall; [exact costs_ok|]. apply list_elem_of_In, list_elem_of_fmap.
    exists (Z.of_nat c - 1). rewrite elem_of_bins. lia. }
  unfold cost_ok in Hok. set (e := cost _) in *. assert (0 <= e) by lia. assert (0 < 2 ^ e) by (apply Z.pow_pos_nonneg; lia).
  assert (2 ^ 16 <= g * 2 ^ e) as Hge by nia.
  transitivity ((g * 2 ^ e) ^ Z.of_nat c); [apply Z.pow_le_mono_l; lia|].
  rewrite Z.pow_mul_l, <-!Z.pow_mul_r, <-Z.pow_add_r by lia.
  apply Z.mul_le_mono_nonneg_l; [apply Z.pow_nonneg; lia|]. apply Z.pow_le_mono_r; lia.
Qed.

Lemma prod_mono {A} (f g : A → Z) l : (∀ x, x ∈ l → 0 <= f x <= g x) → 0 <= prod (f <$> l) <= prod (g <$> l).
Proof.
  induction l as [|x l IH]; intros H; [done|]. cbn [fmap list_fmap prod foldr].
  fold (prod (f <$> l)) (prod (g <$> l)). destruct IH as [? ?]; [intros y Hy; apply H; by right|].
  destruct (H x) as [? ?]; [by left|]. split; [by apply Z.mul_nonneg_nonneg|]. by apply Z.mul_le_mono_nonneg.
Qed.

Lemma prod_mul {A} (f g : A → Z) l : prod ((λ x, f x * g x) <$> l) = prod (f <$> l) * prod (g <$> l).
Proof. induction l as [|x l IH]; [done|]. cbn [fmap list_fmap prod foldr] in *. unfold prod in IH. rewrite IH. lia. Qed.

Lemma prod_const {A} z (l : list A) : prod ((λ _, z) <$> l) = z ^ Z.of_nat (length l).
Proof.
  induction l as [|x l IH]; [done|]. cbn [fmap list_fmap prod foldr length]. unfold prod in IH.
  by rewrite IH, Nat2Z.inj_succ, Z.pow_succ_r by lia.
Qed.

Lemma rounding : (2 ^ 14) ^ 256 <= 2 * (2 ^ 14 - 1) ^ 256.
Proof. vm_compute. discriminate. Qed.

Lemma bits_bound K G q A B C : 0 <= K → 0 < A → 0 < B → 0 < C → K * G * q <= A * B → A <= G * C → B <= 2 * q → K <= 2 * C.
Proof.
  intros HK HA HB HC H1 H2 H3. apply (Z.mul_le_mono_pos_r _ _ (A * B)); [by apply Z.mul_pos_pos|].
  transitivity (K * ((G * C) * (2 * q))); [apply Z.mul_le_mono_nonneg_l; [done|apply Z.mul_le_mono_nonneg; lia]|].
  transitivity (2 * C * (K * G * q)); [lia|]. apply Z.mul_le_mono_nonneg_l; lia.
Qed.

Lemma count_of_le l b : (count_of l b <= length l)%nat.
Proof. unfold count_of. apply length_filter. Qed.

Section stream.
Context (n : nat) (tokens : list Z) (Hn : 0 < Z.of_nat n <= 16) (Hlen : length tokens = 256%nat)
  (Htok : Forall (λ s, 0 <= s < Z.of_nat n) tokens).
Local Abbreviation cdf := (table n tokens).

Lemma gaps_product : (2 ^ 16) ^ 256 <= prod (gap cdf <$> tokens) * 2 ^ 1280.
Proof.
  rewrite (prod_grouped (gap cdf) n tokens) by done.
  transitivity (prod ((λ s, gap cdf s ^ Z.of_nat (count_of tokens s) * (2 ^ 32 * (2 ^ 3) ^ Z.of_nat (count_of tokens s))) <$> bins n)).
  - transitivity (prod ((λ s, (2 ^ 16) ^ Z.of_nat (count_of tokens s)) <$> bins n)).
    + rewrite <-(prod_grouped (λ _, 2 ^ 16)), prod_const, Hlen by done. done.
    + apply prod_mono. intros s Hs. apply elem_of_bins in Hs. split; [apply Z.pow_nonneg; lia|].
      pose proof (table_gap n tokens ltac:(lia) Htok s Hs) as Hg. rewrite Hlen in Hg.
      pose proof (interval_valid cdf (table_good n tokens ltac:(lia) Htok) s) as Hi.
      unfold is_symbol, valid_interval in Hi. rewrite table_length in Hi.
      apply occurrence_cost; [rewrite <-Hlen; apply count_of_le|unfold gap; lia|]. change (Z.of_nat 256) with 256 in Hg. nia.
  - rewrite !(prod_mul (λ s, gap cdf s ^ Z.of_nat (count_of tokens s))).
    assert (0 <= prod ((λ s, gap cdf s ^ Z.of_nat (count_of tokens s)) <$> bins n)).
    { apply prod_nonneg. rewrite Forall_fmap, Forall_forall. intros s Hs%elem_of_bins. simpl. apply Z.pow_nonneg.
      pose proof (interval_valid cdf (table_good n tokens ltac:(lia) Htok) s) as Hi.
      unfold is_symbol, valid_interval in Hi. rewrite table_length in Hi. unfold gap. lia. }
    apply Z.mul_le_mono_nonneg_l; [done|].
    rewrite (prod_mul (λ _, 2 ^ 32)), prod_const, <-(prod_grouped (λ _, 2 ^ 3)), prod_const, Hlen by done.
    unfold bins. rewrite length_fmap, length_seq, <-!Z.pow_mul_r, <-Z.pow_add_r by lia. apply Z.pow_le_mono_r; lia.
Qed.

Lemma code_fits : (length (code 0 MASK32 (intervals cdf tokens)) <= 1283)%nat.
Proof.
  pose proof (table_good n tokens ltac:(lia) Htok) as Hg.
  destruct (code_length (intervals cdf tokens) 0 MASK32) as (k & -> & Hk).
  { unfold normal, MASK32. lia. }
  { apply intervals_valid; [done|]. by apply table_symbols. }
  unfold intervals in Hk. rewrite <-list_fmap_compose, length_fmap, Hlen in Hk.
  change ((λ i : Z * Z, i.2 - i.1) ∘ interval cdf) with (gap cdf) in Hk. change (MASK32 - 0 + 1) with (2 ^ 32) in Hk.
  assert (2 ^ Z.of_nat k <= 2 * 2 ^ 1280) as Hb.
  { eapply bits_bound; [..|exact gaps_product|exact rounding]; try (apply Z.pow_pos_nonneg; lia); [apply Z.pow_nonneg; lia|].
    rewrite <-Z.pow_mul_l. apply (Z.mul_le_mono_pos_l _ _ (2 ^ 32)); [done|]. etrans; [|exact Hk].
    rewrite !Z.mul_assoc, (Z.mul_comm (2 ^ 32)). apply Z.le_refl. }
  rewrite <-Z.pow_succ_r in Hb by lia. apply Z.pow_le_mono_r_iff in Hb; lia.
Qed.
End stream.

(** ** Round trip of a tensor of streams *)

#[local] Opaque _encode_single_channel _decode_single_channel normalized.

Definition stream_ok (n : nat) (tokens : list Z) : Prop :=
  length tokens = 256%nat ∧ Forall (λ s, 0 <= s < Z.of_nat n) tokens.

(** what [encode_fast_new] writes for a channel, and the bytes of it that count *)
Definition encoded (n : nat) (tokens : list Z) : list Z * Z :=
  _encode_single_channel (table n tokens) tokens (replicate 256 0).
Definition used (e : list Z * Z) : list Z := take (Z.to_nat e.2) e.1.

Lemma encode_fast_new_eq n channels : 0 < Z.of_nat n <= 16 → Forall (stream_ok n) channels →
  encode_fast_new (calculate_cdf channels n) channels 256 = encoded n <$> channels.
Proof.
  intros Hn. unfold encode_fast_new, calculate_cdf. induction 1 as [|t channels [_ Ht] HF IH]; [done|].
  cbn [fmap list_fmap zip_with]. f_equal; [|exact IH]. unfold encoded, table. f_equal.
  rewrite <-(list_fmap_id t) at 2. apply list_fmap_ext. intros i s Hs. rewrite Forall_lookup in Ht. specialize (Ht i s Hs).
  simpl in *. apply Z.mod_small. lia.
Qed.

Section streams.
Context (n : nat) (Hn : 0 < Z.of_nat n <= 16).

Lemma encoded_bytes t : stream_ok n t →
  length (encoded n t).1 = 256%nat ∧ Forall is_byte (encoded n t).1 ∧ 0 < (encoded n t).2 <= 161.
Proof.
  intros [Hl Ht]. unfold encoded. assert (Forall is_byte (replicate 256 0)) as Hz by by apply Forall_replicate.
  pose proof (table_good n t ltac:(lia) Ht) as Hg. pose proof (code_fits n t Hn Hl Ht) as Hfit.
  pose proof (encoder_bytes (table n t) t (replicate 256 0) (intervals_valid _ Hg _ (table_symbols _ _ Ht)) Hz) as He.
  cbv zeta in He. rewrite length_replicate in He. specialize (He ltac:(lia)).
  destruct (_encode_single_channel _ _ _) as [buf ptr]. destruct He as (Hbl & Hby & Hptr & H8 & _). cbn [fst snd].
  split_and!; [done|done|lia|lia].
Qed.

Lemma encoded_ok t : stream_ok n t →
  0 < (encoded n t).2 <= 161 ∧ Z.of_nat (length (used (encoded n t))) = (encoded n t).2 ∧
  Forall is_byte (used (encoded n t)).
Proof.
  intros Ht. destruct (encoded_bytes t Ht) as (Hl & Hb & Hp). unfold used.
  split_and!; [lia|lia|rewrite length_take, Hl; lia|by apply Forall_take].
Qed.

Lemma prefix_sum channels i : Forall (stream_ok n) channels → (i < length channels)%nat →
  default 0 (cumsum 0 ((encoded n <$> channels).*2) !! i) =
  Z.of_nat (length (concat (used <$> (encoded n <$> take (S i) channels)))).
Proof.
  assert (∀ acc l j, Forall (stream_ok n) l → (j < length l)%nat →
    default 0 (cumsum acc ((encoded n <$> l).*2) !! j) =
    acc + Z.of_nat (length (concat (used <$> (encoded n <$> take (S j) l))))) as H; [|intros; by apply (H 0)].
  intros acc l j HF. revert acc j. induction HF as [|t l Ht HF IH]; intros acc j Hj; [simpl in Hj; lia|].
  pose proof (encoded_ok t Ht) as (_ & Hlen & _). cbn [fmap list_fmap cumsum take concat] in *.
  rewrite length_app. destruct j as [|j]; cbn [lookup list_lookup default].
  - change (acc + (encoded n t).2 = acc + Z.of_nat (length (used (encoded n t)) + 0)). lia.
  - cbn [length] in Hj. etrans; [apply (IH _ j); lia|]. lia.
Qed.

Lemma all_bytes channels : Forall (stream_ok n) channels → Forall is_byte (concat (used <$> (encoded n <$> channels))).
Proof.
  induction 1 as [|t l Ht HF IH]; [constructor|]. cbn [fmap list_fmap concat].
  apply Forall_app. split; [by apply encoded_ok|done].
Qed.

Lemma max_prefix l x : x ∈ l → x <= foldr Z.max 0 l.
Proof. induction l as [|y l IH]; [by intros ?%elem_of_nil|]. intros [->|H]%elem_of_cons; simpl; [|specialize (IH H)]; lia. Qed.

Lemma streams_roundtrip channels : Forall (stream_ok n) channels →
  let cdf := calculate_cdf channels n in
  let encs := encode_fast_new cdf channels 256 in
  decode_fast_prefsum cdf (concat (used <$> encs)) (cumsum 0 encs.*2) 256 = channels.
Proof.
  intros HF. cbv zeta. rewrite encode_fast_new_eq by done.
  set (encs := encoded n <$> channels). set (prefs := cumsum 0 encs.*2). set (stream := concat (used <$> encs)).
  unfold decode_fast_prefsum. apply list_eq. intros i. rewrite list_lookup_imap.
  unfold calculate_cdf. rewrite list_lookup_fmap. destruct (channels !! i) as [t|] eqn:Ei; [|reflexivity]. cbn [fmap option_fmap option_map]. f_equal.
  change (view_uint16 <$> (to_int16 <$> normalized n t)) with (table n t).
  assert (stream_ok n t) as [Hl Ht] by by eapply Forall_lookup_1 in HF.
  pose proof (lookup_lt_Some _ _ _ Ei) as Hi.
  set (pre := concat (used <$> (encoded n <$> take i channels))).
  set (rest := concat (used <$> (encoded n <$> drop (S i) channels))).
  assert (stream = pre ++ used (encoded n t) ++ rest) as Hstream.
  { unfold stream, encs, pre, rest. rewrite <-(take_drop_middle channels i t Ei) at 1.
    rewrite !fmap_app, concat_app. done. }
  assert (default 0 (prefs !! i) = Z.of_nat (length pre) + (encoded n t).2) as Hend.
  { unfold prefs, encs. rewrite prefix_sum by done. rewrite (take_S_r _ _ t Ei), !fmap_app, concat_app, length_app.
    fold pre. cbn [fmap list_fmap concat]. rewrite app_nil_r, Nat2Z.inj_add. f_equal. by apply encoded_ok. }
  assert (match i with O => 0 | S i => default 0 (prefs !! i) end = Z.of_nat (length pre)) as Hstart.
  { unfold pre. destruct i as [|i]; [done|]. unfold prefs, encs. by rewrite prefix_sum by (done || lia). }
  assert (default 0 (prefs !! i) ∈ prefs) as Hin.
  { destruct (lookup_lt_is_Some_2 prefs i) as [x Hx]; [|rewrite Hx; by apply list_elem_of_lookup_2 in Hx].
    unfold prefs, encs. by rewrite cumsum_length, !length_fmap. }
  pose proof (max_prefix _ _ Hin) as Hmax. rewrite Hstart, Hend in *.
  unfold padded. fold stream. set (zs := replicate _ 0).
  assert (stream ++ zs = pre ++ used (encoded n t) ++ (rest ++ zs)) as -> by (rewrite Hstream, <-!app_assoc; done).
  pose proof (encoded_ok t (conj Hl Ht)) as (Hptr & Hul & Hub).
  pose proof (channel_roundtrip (table n t) t (replicate 256 0) pre (rest ++ zs) (table_good n t ltac:(lia) Ht)
    (table_symbols n t Ht) ltac:(by apply Forall_replicate)) as Hrt.
  rewrite length_replicate in Hrt. specialize (Hrt ltac:(pose proof (code_fits n t Hn Hl Ht); lia)).
  assert (Forall is_byte (pre ++ used (encoded n t) ++ rest ++ zs)) as Hbytes.
  { pose proof (all_bytes channels HF) as Hall. fold encs in Hall. fold stream in Hall. rewrite Hstream in Hall.
    rewrite !Forall_app in *. destruct Hall as (? & ? & ?). split_and!; [done..|]. by apply Forall_replicate. }
  assert (Z.of_nat (length pre) + 4 <= Z.of_nat (length (pre ++ used (encoded n t) ++ rest ++ zs))) as H4.
  { apply (f_equal length) in Hstream. rewrite !length_app in *. unfold zs. rewrite length_replicate. lia. }
  clearbody pre rest zs. clear Hin Hmax Hend Hstart Hstream. unfold encoded, used in *.
  destruct (_encode_single_channel _ _ _) as [buf ptr]. cbn [fst snd] in *. rewrite Hl in Hrt. by apply Hrt.
Qed.

Lemma buffers_roundtrip channels : Forall (stream_ok n) channels →
  let cdf := calculate_cdf channels n in
  let encs := encode_fast_new cdf channels 256 in
  decode_fast_new cdf encs.*1 encs.*2 256 = channels.
Proof.
  intros HF. cbv zeta. rewrite encode_fast_new_eq by done. unfold decode_fast_new. apply list_eq. intros i.
  rewrite list_lookup_imap. unfold calculate_cdf. rewrite !list_lookup_fmap.
  destruct (channels !! i) as [t|] eqn:Ei; [|done]. cbn [fmap option_fmap option_map default]. f_equal.
  change (view_uint16 <$> (to_int16 <$> normalized n t)) with (table n t).
  assert (stream_ok n t) as Hok by by eapply Forall_lookup_1 in HF. destruct (encoded_bytes t Hok) as (Hel & Heb & _).
  destruct Hok as [Hl Ht]. unfold encoded in *.
  pose proof (channel_roundtrip (table n t) t (replicate 256 0) [] (drop (Z.to_nat (encoded n t).2) (encoded n t).1)
    (table_good n t ltac:(lia) Ht) (table_symbols n t Ht) ltac:(by apply Forall_replicate)) as Hrt.
  rewrite length_replicate in Hrt. specialize (Hrt ltac:(pose proof (code_fits n t Hn Hl Ht); lia)). unfold encoded in Hrt.
  destruct (_encode_single_channel _ _ _) as [buf ptr]. cbn [fst snd app length Z.of_nat id] in *. rewrite take_drop, Hl in Hrt.
  apply Hrt; [done|lia].
Qed.
End streams.
