(* ===== verification/LowBitPacking.v ===== *)
(** * Packed low-bit rows

    Quantised vectors of MaKV as bytes: [_pack_low_bit] of makv/entropy.py, which is
    also the packing of [_quantize_vector_bucket] of makv/quantizer.py, and
    [_unpack_low_bit] of makv/reference_dequant.py; and tensors of small integers as
    their little-endian bytes. A two-dimensional tensor is the list of its rows. *)

From Stdlib Require Import Strings.Byte.
From S2P Require Import Prelude PyState BatchBlob.
Import Struct.

Open Scope Z_scope.

(** [t.view(n, k)] of a flat tensor of [n * k] elements *)
Fixpoint groups {A} (k n : nat) (l : list A) : list (list A) :=
  match n with O => [] | S n => take k l :: groups k n (drop k l) end.

(** ** Packing *)

Definition is_low_bit (bits : Z) : bool := (bits =? 2) || (bits =? 4).

Definition values_per_byte (bits : Z) : Z := 8 / bits.
Definition bytes_per_row (head_dim bits : Z) : Z := (head_dim + values_per_byte bits - 1) / values_per_byte bits.

(** [torch.sum(fields << shifts, dim=-1).to(torch.uint8)] *)
Definition byte_of_fields (bits : Z) (fields : list Z) : Z :=
  foldr Z.add 0 (imap (λ i f, Z.shiftl f (Z.of_nat i * bits)) fields) mod 2 ^ 8.

Definition pack_row (bits head_dim : Z) (row : list Z) : list Z :=
  let v := values_per_byte bits in
  let padding := (- head_dim) mod v in
  let row := row ++ replicate (Z.to_nat padding) 0 in
  let fields := (λ q, Z.land q (Z.shiftl 1 bits - 1)) <$> row in
  byte_of_fields bits <$> groups (Z.to_nat v) (Z.to_nat (bytes_per_row head_dim bits)) fields.

Definition _pack_low_bit (q : list (list Z)) (head_dim bits : Z) : result (list Z) :=
  (guard is_low_bit bits else ValueError;
   guard forallb (λ row, Z.of_nat (length row) =? head_dim) q else ValueError;
   Ok (concat (pack_row bits head_dim <$> q)))%py.

(** [((byte >> shifts) & mask)], one field per shift *)
Definition fields_of_byte (bits : Z) (byte : Z) : list Z :=
  (λ i, Z.land (Z.shiftr byte (Z.of_nat i * bits)) (Z.shiftl 1 bits - 1)) <$> seq 0 (Z.to_nat (values_per_byte bits)).

Definition signed (bits f : Z) : Z := let sign := Z.shiftl 1 (bits - 1) in Z.lxor f sign - sign.

Definition unpack_row (bits head_dim : Z) (bytes : list Z) : list Z :=
  take (Z.to_nat head_dim) (signed bits <$> concat (fields_of_byte bits <$> bytes)).

Definition _unpack_low_bit (packed : list Z) (logical_count head_dim bits : Z) : result (list (list Z)) :=
  (guard is_low_bit bits else ValueError;
   let bpr := bytes_per_row head_dim bits in
   guard Z.of_nat (length packed) =? logical_count * bpr else RuntimeError;
   Ok (unpack_row bits head_dim <$> groups (Z.to_nat bpr) (Z.to_nat logical_count) packed))%py.

(** ** Tensors and bytes *)

(** elements of [n] bytes, as [numpy().tobytes()] writes them *)
Definition le_bytes (n : nat) (z : Z) : list byte := rev (be_bytes n (z mod 256 ^ Z.of_nat n)).
Definition tensor_bytes (n : nat) (l : list Z) : list byte := concat (le_bytes n <$> l).

Definition le_val (l : list byte) : Z := be_val (rev l).
(** two's complement *)
Definition to_signed (n : nat) (z : Z) : Z := if z <? 256 ^ Z.of_nat n / 2 then z else z - 256 ^ Z.of_nat n.

(** [_tensor_from_bytes] with an unsigned element type of [n] bytes *)
Definition from_bytes (n : nat) (data : list byte) : result (list Z) :=
  if (length data mod n =? 0)%nat then Ok (le_val <$> groups n (length data / n) data) else Raise ValueError.
Definition from_bytes_signed (n : nat) (data : list byte) : result (list Z) :=
  (l <-? from_bytes n data; Ok (to_signed n <$> l))%py.

(** ** Lemmas on [groups] *)

Lemma groups_concat {A} k (ls : list (list A)) : Forall (λ l, length l = k) ls → groups k (length ls) (concat ls) = ls.
Proof.
  induction 1 as [|l ls Hl HF IH]; [done|]. cbn [length groups concat].
  rewrite take_app_length', drop_app_length', IH by done. done.
Qed.

Lemma concat_groups {A} k n (l : list A) : length l = (n * k)%nat → concat (groups k n l) = l.
Proof.
  revert l. induction n as [|n IH]; intros l Hl; [by apply nil_length_inv in Hl as ->|].
  cbn [groups concat]. rewrite IH by (rewrite length_drop; lia). apply take_drop.
Qed.

Lemma groups_lengths {A} k n (l : list A) : length l = (n * k)%nat → Forall (λ g, length g = k) (groups k n l) ∧ length (groups k n l) = n.
Proof.
  revert l. induction n as [|n IH]; intros l Hl; [done|]. cbn [groups length].
  destruct (IH (drop k l)) as [HF ->]; [rewrite length_drop; lia|]. split; [|done].
  constructor; [|done]. rewrite length_take. lia.
Qed.

Lemma groups_fmap {A B} (f : A → B) k n (l : list A) :
  groups k n (fmap (M:=list) f l) = fmap (M:=list) (fmap (M:=list) f) (groups k n l).
Proof. revert l. induction n as [|n IH]; intros l; [done|]. cbn. by rewrite <-fmap_take, <-fmap_drop, IH. Qed.

Lemma concat_length_const {A} k (ls : list (list A)) : Forall (λ l, length l = k) ls → length (concat ls) = (length ls * k)%nat.
Proof. induction 1 as [|l ls Hl HF IH]; [done|]. cbn. rewrite length_app, IH, Hl. done. Qed.

(** ** The fields of a byte *)

Definition field (bits f : Z) : Prop := 0 <= f < 2 ^ bits.

Lemma land_low_mask x bits : 0 <= bits → Z.land x (Z.shiftl 1 bits - 1) = x mod 2 ^ bits.
Proof. intros. rewrite Z.shiftl_1_l, <-Z.land_ones by done. f_equal. rewrite Z.ones_equiv. lia. Qed.

Lemma fields_of_byte_eq bits b : 0 <= bits → fields_of_byte bits b =
  (λ i, b / 2 ^ (Z.of_nat i * bits) mod 2 ^ bits) <$> seq 0 (Z.to_nat (values_per_byte bits)).
Proof.
  intros Hb. unfold fields_of_byte. apply list_fmap_ext. intros i x _. by rewrite land_low_mask, Z.shiftr_div_pow2 by lia.
Qed.

Lemma byte_of_fields_eq bits fields : 0 <= bits →
  byte_of_fields bits fields = foldr Z.add 0 (imap (λ i f, f * 2 ^ (Z.of_nat i * bits)) fields) mod 2 ^ 8.
Proof.
  intros Hb. unfold byte_of_fields. f_equal. f_equal. apply imap_ext. intros i x _. by rewrite Z.shiftl_mul_pow2 by lia.
Qed.

Lemma fields_roundtrip bits fields : is_low_bit bits = true → length fields = Z.to_nat (values_per_byte bits) →
  Forall (field bits) fields → fields_of_byte bits (byte_of_fields bits fields) = fields.
Proof.
  unfold is_low_bit. intros [->%Z.eqb_eq| ->%Z.eqb_eq]%orb_true_iff Hl HF; unfold field in HF;
    rewrite fields_of_byte_eq, byte_of_fields_eq by done.
  - destruct fields as [|a [|b [|c [|d [|]]]]]; try done. rewrite !Forall_cons in HF. destruct HF as (?&?&?&?&_).
    change (2 ^ 2) with 4 in *. change (seq 0 _) with [0; 1; 2; 3]%nat. unfold imap. cbn [foldr imap fmap list_fmap compose].
    change (2 ^ (Z.of_nat 0 * 2)) with 1; change (2 ^ (Z.of_nat 1 * 2)) with 4; change (2 ^ (Z.of_nat 2 * 2)) with 16;
      change (2 ^ (Z.of_nat 3 * 2)) with 64; change (2 ^ 8) with 256.
    rewrite (Z.mod_small (a * 1 + _)) by lia.
    repeat f_equal; Z.div_mod_to_equations; lia.
  - destruct fields as [|a [|b [|]]]; try done. rewrite !Forall_cons in HF. destruct HF as (?&?&_).
    change (2 ^ 4) with 16 in *. change (seq 0 _) with [0; 1]%nat. unfold imap. cbn [foldr imap fmap list_fmap compose].
    change (2 ^ (Z.of_nat 0 * 4)) with 1; change (2 ^ (Z.of_nat 1 * 4)) with 16; change (2 ^ 8) with 256.
    rewrite (Z.mod_small (a * 1 + _)) by lia.
    repeat f_equal; Z.div_mod_to_equations; lia.
Qed.

Definition fits_bits (bits q : Z) : Prop := - 2 ^ (bits - 1) <= q < 2 ^ (bits - 1).

Lemma signed_field bits q : is_low_bit bits = true → fits_bits bits q →
  signed bits (Z.land q (Z.shiftl 1 bits - 1)) = q.
Proof.
  unfold is_low_bit, fits_bits. intros [->%Z.eqb_eq| ->%Z.eqb_eq]%orb_true_iff Hq; cbn in Hq.
  - assert (q = -2 ∨ q = -1 ∨ q = 0 ∨ q = 1) as [-> | [-> | [-> | ->]]] by lia; done.
  - assert (q ∈ (λ i, Z.of_nat i - 8) <$> seq 0 16) as Hin.
    { apply list_elem_of_fmap. exists (Z.to_nat (q + 8)). rewrite elem_of_seq. lia. }
    clear Hq. revert q Hin. apply Forall_forall. repeat constructor.
Qed.

Lemma low_bit_nonneg bits : is_low_bit bits = true → 0 <= bits.
Proof. unfold is_low_bit. lia. Qed.

Lemma land_field bits q : is_low_bit bits = true → field bits (Z.land q (Z.shiftl 1 bits - 1)).
Proof.
  intros Hb%low_bit_nonneg. unfold field. rewrite land_low_mask by done. apply Z.mod_pos_bound, Z.pow_pos_nonneg; lia.
Qed.

(** ** Rows *)

Lemma row_geometry head_dim bits : is_low_bit bits = true → 0 <= head_dim → let v := values_per_byte bits in
  0 <= bytes_per_row head_dim bits ∧ 0 < v ∧ 0 <= (- head_dim) mod v ∧
  head_dim + (- head_dim) mod v = bytes_per_row head_dim bits * v.
Proof.
  unfold is_low_bit, bytes_per_row. intros [->%Z.eqb_eq| ->%Z.eqb_eq]%orb_true_iff Hd;
    [change (values_per_byte 2) with 4|change (values_per_byte 4) with 2]; cbv zeta; Z.div_mod_to_equations; lia.
Qed.

Lemma pack_row_length bits head_dim row : is_low_bit bits = true → Z.of_nat (length row) = head_dim →
  length (pack_row bits head_dim row) = Z.to_nat (bytes_per_row head_dim bits).
Proof.
  intros Hb Hl. destruct (row_geometry head_dim bits Hb) as (H1 & H2 & H3 & H4); [lia|].
  unfold pack_row. rewrite length_fmap. apply groups_lengths. rewrite length_fmap, length_app, length_replicate. lia.
Qed.

Lemma unpack_pack_row bits head_dim row : is_low_bit bits = true → Z.of_nat (length row) = head_dim →
  Forall (fits_bits bits) row → unpack_row bits head_dim (pack_row bits head_dim row) = row.
Proof.
  intros Hb Hl HF. destruct (row_geometry head_dim bits Hb) as (H1 & H2 & H3 & H4); [lia|].
  unfold unpack_row, pack_row. set (v := values_per_byte bits) in *. set (pad := replicate _ 0).
  set (fields := (λ q, Z.land q (Z.shiftl 1 bits - 1)) <$> row ++ pad).
  assert (length fields = (Z.to_nat (bytes_per_row head_dim bits) * Z.to_nat v)%nat) as Hlen.
  { unfold fields, pad. rewrite length_fmap, length_app, length_replicate. lia. }
  assert (fields_of_byte bits <$> (byte_of_fields bits <$> groups (Z.to_nat v) (Z.to_nat (bytes_per_row head_dim bits)) fields)
          = groups (Z.to_nat v) (Z.to_nat (bytes_per_row head_dim bits)) fields) as ->.
  { rewrite <-list_fmap_compose. rewrite <-(list_fmap_id (groups _ _ _)) at 2. apply list_fmap_ext.
    intros i g Hg. apply list_elem_of_lookup_2 in Hg. destruct (groups_lengths (Z.to_nat v) _ fields Hlen) as [HG _].
    rewrite Forall_forall in HG. apply fields_roundtrip; [done|by apply HG|]. apply Forall_forall. intros f Hf.
    assert (f ∈ fields) as Hin.
    { rewrite <-(concat_groups _ _ _ Hlen). apply list_elem_of_In, in_concat. exists g. split; by apply list_elem_of_In. }
    apply list_elem_of_fmap in Hin as (q & -> & _). by apply land_field. }
  rewrite concat_groups by done. unfold fields. rewrite <-list_fmap_compose.
  assert ((signed bits ∘ (λ q, Z.land q (Z.shiftl 1 bits - 1))) <$> row ++ pad = row ++ pad) as ->.
  { rewrite <-(list_fmap_id (row ++ pad)) at 2. apply list_fmap_ext. intros i q Hq. apply list_elem_of_lookup_2 in Hq.
    apply signed_field; [done|]. apply elem_of_app in Hq as [Hq|Hq]; [by rewrite Forall_forall in HF; apply HF|].
    unfold pad in Hq. apply elem_of_replicate in Hq as [-> _].
    unfold fits_bits. apply orb_true_iff in Hb as [->%Z.eqb_eq| ->%Z.eqb_eq]; cbn; lia. }
  apply take_app_length'. lia.
Qed.

(** what is packed unpacks to itself *)
Lemma unpack_pack bits head_dim q : is_low_bit bits = true →
  Forall (λ row, Z.of_nat (length row) = head_dim ∧ Forall (fits_bits bits) row) q →
  ∃ packed, _pack_low_bit q head_dim bits = Ok packed ∧
    Z.of_nat (length packed) = Z.of_nat (length q) * bytes_per_row head_dim bits ∧
    _unpack_low_bit packed (Z.of_nat (length q)) head_dim bits = Ok q.
Proof.
  intros Hb HF. exists (concat (pack_row bits head_dim <$> q)). unfold _pack_low_bit, _unpack_low_bit. rewrite Hb.
  assert (forallb (λ row, Z.of_nat (length row) =? head_dim) q = true) as ->.
  { apply forallb_forall. intros row Hr%list_elem_of_In. rewrite Forall_forall in HF. apply Z.eqb_eq. by apply HF. }
  assert (Forall (λ l, length l = Z.to_nat (bytes_per_row head_dim bits)) (pack_row bits head_dim <$> q)) as Hls.
  { apply Forall_fmap. eapply Forall_impl; [exact HF|]. intros row [? _]. by apply pack_row_length. }
  assert (0 <= bytes_per_row head_dim bits ∨ q = []) as Hpos.
  { destruct q as [|row q]; [by right|]. left. apply Forall_cons in HF as [[? _] _].
    destruct (row_geometry head_dim bits Hb) as (? & _); [lia|done]. }
  assert (Z.of_nat (length (concat (pack_row bits head_dim <$> q))) = Z.of_nat (length q) * bytes_per_row head_dim bits) as Hlen.
  { rewrite (concat_length_const _ _ Hls), length_fmap. destruct Hpos as [| ->]; simpl; lia. }
  split_and!; [done|done|]. rewrite Hlen, Z.eqb_refl. f_equal. rewrite Nat2Z.id.
  rewrite <-(length_fmap (pack_row bits head_dim) q), groups_concat by done.
  rewrite <-list_fmap_compose. rewrite <-(list_fmap_id q) at 2. apply list_fmap_ext. intros i row Hr.
  rewrite Forall_lookup in HF. destruct (HF i row Hr). by apply unpack_pack_row.
Qed.

(** ** Bytes of tensors *)

Lemma le_val_bytes n z : le_val (le_bytes n z) = z mod 256 ^ Z.of_nat n.
Proof.
  unfold le_val, le_bytes. rewrite rev_involutive, be_val_be_bytes. apply Z.mod_mod, Z.pow_nonzero; lia.
Qed.

Lemma le_bytes_length n z : length (le_bytes n z) = n.
Proof. unfold le_bytes. by rewrite length_rev, be_bytes_length. Qed.

Lemma tensor_bytes_length n l : length (tensor_bytes n l) = (length l * n)%nat.
Proof.
  unfold tensor_bytes. rewrite (concat_length_const n), length_fmap; [done|].
  apply Forall_fmap, Forall_forall. intros z _. apply le_bytes_length.
Qed.

Lemma from_bytes_tensor n l : n ≠ 0%nat →
  from_bytes n (tensor_bytes n l) = Ok ((λ z, z mod 256 ^ Z.of_nat n) <$> l).
Proof.
  intros Hn. unfold from_bytes. rewrite tensor_bytes_length, Nat.Div0.mod_mul, Nat.div_mul by done. cbn [Nat.eqb]. f_equal.
  unfold tensor_bytes. rewrite <-(length_fmap (le_bytes n) l), groups_concat.
  - rewrite <-list_fmap_compose. apply list_fmap_ext. intros i z _. apply le_val_bytes.
  - apply Forall_fmap, Forall_forall. intros z _. apply le_bytes_length.
Qed.

Lemma to_signed_mod n z : - (256 ^ Z.of_nat (S n) / 2) <= z < 256 ^ Z.of_nat (S n) / 2 → to_signed (S n) (z mod 256 ^ Z.of_nat (S n)) = z.
Proof.
  unfold to_signed. intros Hz. set (m := 256 ^ Z.of_nat (S n)) in *.
  assert (m = 2 * (m / 2)) as Hm.
  { unfold m. rewrite Nat2Z.inj_succ, Z.pow_succ_r by lia. set (p := 256 ^ Z.of_nat n).
    replace (256 * p) with (128 * p * 2) by lia. rewrite Z.div_mul by done. lia. }
  assert (0 < m) by (apply Z.pow_pos_nonneg; lia).
  destruct (Z.le_gt_cases 0 z).
  - rewrite Z.mod_small by lia. by rewrite (proj2 (Z.ltb_lt _ _)) by lia.
  - rewrite <-(Z.mod_unique z m (-1) (z + m)) by lia. rewrite (proj2 (Z.ltb_ge _ _)) by lia. lia.
Qed.
