(* ===== verification/EntropyCodec.v ===== *)
(** * MaKV's entropy payloads

    [storage_backend/makv/entropy.py] on a host without the CUDA extension: the
    quantised payload of each low-bit bucket is turned into small symbols, coded by
    the arithmetic coder in streams of 256 symbols, and stored as three payloads per
    symbol plane; decoding gives the quantised payload back. The metadata, a JSON
    object in the code, is a record of the entries this module reads and writes. *)

From Stdlib Require Import Strings.Byte.
From stdpp Require Import pretty.
From S2P Require Import Prelude PyDict PyState BatchBlob ArithmeticCoder ArithmeticDecoder ArithmeticTables LowBitPacking.
Import Struct.

Open Scope Z_scope.

Definition CODEC_NAME : string := "cachegen_arithmetic_v1".
Definition CODEC_VERSION : Z := 1.
Definition STREAM_TOKENS : Z := 256.
Definition STREAM_BUFFER_BYTES : Z := 256.
Definition SUPPORTED_ENTROPY_BITS : list Z := [2; 4; 8].

(** the entries of the plan this module reads *)
Record MaKVQuantPlan := mkQuantPlan {
  qp_importance_layout : string;
  qp_bucket_bits : list Z;
  qp_num_layers : Z;
  qp_num_kv_heads : Z;
  qp_head_dim : Z }.

Record plane := mkPlane {
  pn_name : string;
  pn_stream_name : string; pn_cdf_name : string; pn_lengths_name : string;
  pn_symbol_count : Z; pn_stream_count : Z; pn_max_bins : Z;
  pn_stream_bytes : Z; pn_cdf_bytes : Z; pn_lengths_bytes : Z }.

Record entropy_bucket := mkBucket {
  eb_bits : Z; eb_vectors : Z; eb_head_dim : Z; eb_logical_elements : Z; eb_input_payload_bytes : Z;
  eb_planes : list plane }.

Record entropy_table := mkEntropy {
  et_codec : string; et_version : Z; et_backend : string; et_stream_tokens : Z;
  et_buckets : list (Z * entropy_bucket);
  et_input_bytes : Z; et_output_bytes : Z }.

(** a bucket entry is a width and a count *)
Record makv_metadata := mkMetadata {
  md_plan : MaKVQuantPlan;
  md_bucket_entries : list (Z * Z);
  md_entropy : option entropy_table }.

Definition with_entropy (m : makv_metadata) (e : entropy_table) := mkMetadata (md_plan m) (md_bucket_entries m) (Some e).

Definition payload_dict : Type := list (string * list byte).

(** ** Symbols *)

(** without the CUDA extension; the backend is one of the strings the code knows *)
Definition _select_backend (backend : string) (require_cuda : bool) : result string :=
  (guard bool_decide (backend ∈ ["auto"; "cuda"; "reference"]%string) else ValueError;
   guard negb (bool_decide (backend = "reference"%string) && require_cuda) else ValueError;
   guard bool_decide (backend = "reference"%string) || negb (bool_decide (backend = "cuda"%string) || require_cuda) else RuntimeError;
   Ok "reference"%string)%py.

Definition _alphabet_size (bits : Z) : result Z :=
  if bits =? 2 then Ok 3 else if bits =? 4 then Ok 15 else if bits =? 8 then Ok 16 else Raise ValueError.

(** a [KeyError] for other widths, which no caller passes *)
Definition _qmax (bits : Z) : Z := if bits =? 2 then 1 else if bits =? 4 then 7 else 127.

Definition _bucket_geometry (m : makv_metadata) (bits : Z) : result (Z * Z * Z * Z) :=
  let plan := md_plan m in
  match filter (λ e, e.1 = bits) (md_bucket_entries m) with
  | [(_, count)] =>
      let vectors := if bool_decide (qp_importance_layout plan = "layer_kv_token"%string)
                     then count * qp_num_kv_heads plan
                     else count * qp_num_layers plan * 2 * qp_num_kv_heads plan in
      (guard negb ((count <? 0) || (vectors <? 0) || (qp_head_dim plan <=? 0)) else ValueError;
       Ok (count, vectors, qp_head_dim plan, vectors * qp_head_dim plan))%py
  | _ => Raise ValueError
  end.

Definition _payload_to_symbol_planes (payload : list byte) (bits vectors head_dim : Z) : result (list (string * list Z)) :=
  if bits =? 8 then
    (guard blen payload =? vectors * head_dim else ValueError;
     q <-? from_bytes_signed 1 payload;
     let unsigned := (λ x, x + _qmax bits) <$> q in
     Ok [("low"%string, (λ u, Z.land u 0x0F) <$> unsigned); ("high"%string, (λ u, Z.shiftr u 4) <$> unsigned)])%py
  else
    (guard blen payload =? vectors * bytes_per_row head_dim bits else ValueError;
     if vectors =? 0 then Ok [("value"%string, [])]
     else
       packed <-? from_bytes 1 payload;
       q <-? _unpack_low_bit packed vectors head_dim bits;
       Ok [("value"%string, (λ x, x + _qmax bits) <$> concat q)])%py.

(** stream, table and lengths as bytes, and the number of streams *)
Definition _encode_symbol_stream (symbols : list Z) (max_bins : Z) : result (list byte * list byte * list byte * Z) :=
  let symbol_count := Z.of_nat (length symbols) in
  if symbol_count =? 0 then Ok ([], [], [], 0)
  else
    (guard forallb (λ s, (0 <=? s) && (s <? max_bins)) symbols else ValueError;
     let stream_count := (symbol_count + STREAM_TOKENS - 1) / STREAM_TOKENS in
     let input := symbols ++ replicate (Z.to_nat (stream_count * STREAM_TOKENS - symbol_count)) 0 in
     let channels := groups (Z.to_nat STREAM_TOKENS) (Z.to_nat stream_count) input in
     let cdf := calculate_cdf channels (Z.to_nat max_bins) in
     let encs := encode_fast_new cdf channels (Z.to_nat STREAM_BUFFER_BYTES) in
     guard forallb (λ l, (0 <? l) && (l <=? STREAM_BUFFER_BYTES)) encs.*2 else ValueError;
     Ok (tensor_bytes 1 (concat (used <$> encs)), tensor_bytes 2 (concat cdf), tensor_bytes 4 encs.*2, stream_count))%py.

(** ** Encoding *)

Definition plane_prefix (bits : Z) (plane_index : nat) : string := pretty bits +:+ "_p" +:+ pretty plane_index.

(** what a coded plane adds to the payloads, and its description *)
Definition store_plane (bits : Z) (plane_index : nat) (p : string * list Z) (max_bins : Z)
    (coded : list byte * list byte * list byte * Z) (payloads : payload_dict) : payload_dict * plane :=
  let '(stream, cdf, lengths, stream_count) := coded in
  let prefix := plane_prefix bits plane_index in
  let stream_name := ("entropy_stream_" +:+ prefix)%string in
  let cdf_name := ("entropy_cdf_" +:+ prefix)%string in
  let lengths_name := ("entropy_lengths_" +:+ prefix)%string in
  (dset (dset (dset payloads stream_name stream) cdf_name cdf) lengths_name lengths,
   mkPlane p.1 stream_name cdf_name lengths_name (Z.of_nat (length p.2)) stream_count max_bins
     (blen stream) (blen cdf) (blen lengths)).

Definition encode_plane (bits : Z) (plane_index : nat) (p : string * list Z) (payloads : payload_dict)
  : result (payload_dict * plane) :=
  (max_bins <-? _alphabet_size bits;
   coded <-? _encode_symbol_stream p.2 max_bins;
   Ok (store_plane bits plane_index p max_bins coded payloads))%py.

Fixpoint encode_planes (bits : Z) (plane_index : nat) (ps : list (string * list Z)) (payloads : payload_dict)
  : result (payload_dict * list plane) :=
  match ps with
  | [] => Ok (payloads, [])
  | p :: ps =>
      (r <-? encode_plane bits plane_index p payloads;
       r' <-? encode_planes bits (S plane_index) ps r.1;
       Ok (r'.1, r.2 :: r'.2))%py
  end.

Definition payload_name (bits : Z) : string := "payload_" +:+ pretty bits.

Definition plane_bytes (p : plane) : Z := pn_stream_bytes p + pn_cdf_bytes p + pn_lengths_bytes p.

(** one pass of the loop over [bucket_bits] *)
Definition encode_bucket (m : makv_metadata) (bits : Z) (s : payload_dict * entropy_table) : result (payload_dict * entropy_table) :=
  let '(payloads, e) := s in
  if negb (bool_decide (bits ∈ SUPPORTED_ENTROPY_BITS)) then Ok s
  else
    (g <-? _bucket_geometry m bits;
     let '(_, vectors, head_dim, logical_elements) := g in
     match dget payloads (payload_name bits) with
     | None => Raise ValueError
     | Some raw_payload =>
         planes <-? _payload_to_symbol_planes raw_payload bits vectors head_dim;
         r <-? encode_planes bits 0 planes (ddel payloads (payload_name bits));
         let bucket := mkBucket bits vectors head_dim logical_elements (blen raw_payload) r.2 in
         Ok (r.1, mkEntropy (et_codec e) (et_version e) (et_backend e) (et_stream_tokens e)
                    (dset (et_buckets e) bits bucket) (et_input_bytes e + blen raw_payload)
                    (et_output_bytes e + foldr Z.add 0 (plane_bytes <$> r.2)))
     end)%py.

Fixpoint encode_buckets (m : makv_metadata) (bits : list Z) (s : payload_dict * entropy_table)
  : result (payload_dict * entropy_table) :=
  match bits with
  | [] => Ok s
  | b :: bits => (s <-? encode_bucket m b s; encode_buckets m bits s)%py
  end.

(** the codec is one of the normalised names *)
Definition encode_entropy_payloads (m : makv_metadata) (payloads : payload_dict) (codec backend : string) (require_cuda : bool)
  : result (makv_metadata * payload_dict) :=
  if bool_decide (codec = "none"%string) then Ok (m, payloads)
  else
    (guard bool_decide (codec = "cachegen_arithmetic"%string) else ValueError;
     selected <-? _select_backend backend require_cuda;
     r <-? encode_buckets m (qp_bucket_bits (md_plan m))
             (payloads, mkEntropy CODEC_NAME CODEC_VERSION selected STREAM_TOKENS [] 0 0);
     Ok (with_entropy m r.2, r.1))%py.

(** ** Decoding *)

(** [get_payload(name, dtype)] of makv/residual.py: a missing payload is empty *)
Definition get_payload (payloads : payload_dict) (name : string) : list byte := default [] (dget payloads name).

Definition _decode_symbol_plane (p : plane) (payloads : payload_dict) : result (list Z) :=
  let stream_count := pn_stream_count p in
  let symbol_count := pn_symbol_count p in
  let max_bins := pn_max_bins p in
  let stream_bytes := pn_stream_bytes p in
  (guard negb ((stream_count <? 0) || (symbol_count <? 0) || (stream_count * STREAM_TOKENS <? symbol_count)
               || (max_bins <=? 0) || (64 <=? max_bins) || (stream_bytes <? 0)
               || (stream_count * STREAM_BUFFER_BYTES <? stream_bytes)) else ValueError;
   if stream_count =? 0 then
     guard (symbol_count =? 0) && (stream_bytes =? 0) else ValueError; Ok []
   else
     cdf <-? from_bytes_signed 2 (get_payload payloads (pn_cdf_name p));
     stream <-? from_bytes 1 (get_payload payloads (pn_stream_name p));
     lengths <-? from_bytes_signed 4 (get_payload payloads (pn_lengths_name p));
     guard Z.of_nat (length cdf) =? stream_count * (max_bins + 1) else ValueError;
     guard Z.of_nat (length lengths) =? stream_count else ValueError;
     guard Z.of_nat (length stream) =? stream_bytes else ValueError;
     guard forallb (λ l, (0 <? l) && (l <=? STREAM_BUFFER_BYTES)) lengths else ValueError;
     let output := decode_fast_prefsum (groups (Z.to_nat (max_bins + 1)) (Z.to_nat stream_count) cdf) stream
                     (cumsum 0 lengths) (Z.to_nat STREAM_TOKENS) in
     guard symbol_count <=? stream_count * STREAM_TOKENS else ValueError;
     Ok (take (Z.to_nat symbol_count) (concat output)))%py.

Fixpoint decode_planes (ps : list plane) (payloads : payload_dict) (values : list (string * list Z))
  : result (list (string * list Z)) :=
  match ps with
  | [] => Ok values
  | p :: ps =>
      (guard negb (dmem values (pn_name p)) else ValueError;
       v <-? _decode_symbol_plane p payloads;
       decode_planes ps payloads (dset values (pn_name p) v))%py
  end.

(** [.to(torch.int8)] *)
Definition to_int8 (z : Z) : Z := to_signed 1 (z mod 2 ^ 8).

(** the decoded planes of a bucket as a payload tensor *)
Definition assemble (bits vectors head_dim logical_elements : Z) (values : list (string * list Z)) : result (list Z) :=
  if bits =? 8 then
    match dget values "low"%string, dget values "high"%string with
    | Some low, Some high =>
        (guard (length values =? 2)%nat else ValueError;
         guard (Z.of_nat (length low) =? logical_elements) && (Z.of_nat (length high) =? logical_elements) else ValueError;
         Ok (zip_with (λ l h, to_int8 (Z.lor l (Z.shiftl h 4) - _qmax bits)) low high))%py
    | _, _ => Raise ValueError
    end
  else
    match values with
    | [(_, symbols)] =>
        (guard Z.of_nat (length symbols) =? logical_elements else ValueError;
         _pack_low_bit (groups (Z.to_nat head_dim) (Z.to_nat vectors) ((λ s, to_int8 (s - _qmax bits)) <$> symbols)) head_dim bits)%py
    | _ => Raise ValueError
    end.

Definition decode_bucket (bits : Z) (b : entropy_bucket) (payloads : payload_dict) : result (list Z) :=
  let vectors := eb_vectors b in
  let head_dim := eb_head_dim b in
  let logical_elements := eb_logical_elements b in
  (guard bool_decide (bits ∈ SUPPORTED_ENTROPY_BITS) else ValueError;
   guard negb ((vectors <? 0) || (head_dim <=? 0) || (logical_elements <? 0) || negb (logical_elements =? vectors * head_dim)) else ValueError;
   guard nonempty (eb_planes b) else ValueError;
   values <-? decode_planes (eb_planes b) payloads [];
   payload <-? assemble bits vectors head_dim logical_elements values;
   guard Z.of_nat (length payload) =? vectors * (if bits =? 8 then head_dim else bytes_per_row head_dim bits) else ValueError;
   Ok payload)%py.

Fixpoint decode_buckets (bs : list (Z * entropy_bucket)) (payloads : payload_dict) (decoded : list (Z * list Z))
  : result (list (Z * list Z)) :=
  match bs with
  | [] => Ok decoded
  | (bits, b) :: bs => (t <-? decode_bucket bits b payloads; decode_buckets bs payloads (dset decoded bits t))%py
  end.

Definition decode_entropy_payloads (m : makv_metadata) (payloads : payload_dict) : result (list (Z * list Z)) :=
  match md_entropy m with
  | None => Ok []
  | Some e =>
      (guard bool_decide (et_codec e = CODEC_NAME) && (et_version e =? CODEC_VERSION) else ValueError;
       decode_buckets (et_buckets e) payloads [])%py
  end.
