(* ===== verification/EntropyProofs.v ===== *)
(** * The entropy payloads round trip

    Lemmas and theorems about [EntropyCodec]: a symbol plane, a bucket and a whole
    object decode to what was encoded, and coding never fails on quantised values. *)

From Stdlib Require Import Strings.Byte.
From stdpp Require Import pretty.
From S2P Require Import Prelude PyDict PyState BatchBlob ArithmeticCoder ArithmeticDecoder ArithmeticTables LowBitPacking EntropyCodec.
Import Struct.

Open Scope Z_scope.

#[local] Opaque _encode_single_channel _decode_single_channel normalized encode_fast_new decode_fast_prefsum encoded.

(** ** One plane *)

(** symbols cut into streams *)
Definition streams_of (symbols : list Z) : list (list Z) :=
  let symbol_count := Z.of_nat (length symbols) in
  let stream_count := (symbol_count + STREAM_TOKENS - 1) / STREAM_TOKENS in
  groups (Z.to_nat STREAM_TOKENS) (Z.to_nat stream_count)
    (symbols ++ replicate (Z.to_nat (stream_count * STREAM_TOKENS - symbol_count)) 0).

Section plane.
Context (symbols : list Z) (max_bins : Z) (Hbins : 0 < max_bins <= 16)
  (Hsym : Forall (λ s, 0 <= s < max_bins) symbols) (Hne : symbols ≠ []).
Local Abbreviation n := (Z.to_nat max_bins).
Local Abbreviation stream_count := ((Z.of_nat (length symbols) + STREAM_TOKENS - 1) / STREAM_TOKENS).

Lemma stream_count_bounds : 0 < stream_count ∧ Z.of_nat (length symbols) <= stream_count * 256.
Proof.
  assert (0 < Z.of_nat (length symbols)) by (destruct symbols; [done|simpl; lia]).
  unfold STREAM_TOKENS. Z.div_mod_to_equations. lia.
Qed.

Lemma streams_length : length (symbols ++ replicate (Z.to_nat (stream_count * STREAM_TOKENS - Z.of_nat (length symbols))) 0)
  = (Z.to_nat stream_count * Z.to_nat STREAM_TOKENS)%nat.
Proof. pose proof stream_count_bounds. rewrite length_app, length_replicate. unfold STREAM_TOKENS in *. lia. Qed.

Lemma streams_concat : concat (streams_of symbols) = symbols ++ replicate (Z.to_nat (stream_count * STREAM_TOKENS - Z.of_nat (length symbols))) 0.
Proof. unfold streams_of. apply concat_groups, streams_length. Qed.

Lemma streams_count : Z.of_nat (length (streams_of symbols)) = stream_count.
Proof.
  pose proof stream_count_bounds. unfold streams_of. rewrite (proj2 (groups_lengths _ _ _ streams_length)). lia.
Qed.

Lemma streams_ok : Forall (stream_ok n) (streams_of symbols).
Proof.
  apply Forall_forall. intros t Ht. split.
  - pose proof (proj1 (groups_lengths _ _ _ streams_length)) as HF. rewrite Forall_forall in HF. by apply HF.
  - apply Forall_forall. intros s Hs. rewrite Z2Nat.id by lia.
    assert (s ∈ concat (streams_of symbols)) as Hin by (apply list_elem_of_In, in_concat; exists t; split; by apply list_elem_of_In).
    rewrite streams_concat in Hin. apply elem_of_app in Hin as [Hin|Hin]; [by rewrite Forall_forall in Hsym; apply Hsym|].
    apply elem_of_replicate in Hin as [-> _]. lia.
Qed.

Lemma cdf_int16 z : - 2 ^ 15 <= to_int16 z < 2 ^ 15.
Proof. unfold to_int16. pose proof (Z.mod_pos_bound (z + 2 ^ 15) (2 ^ 16) ltac:(done)). lia. Qed.

Lemma cdf_bytes_roundtrip channels : Forall (stream_ok n) channels →
  from_bytes_signed 2 (tensor_bytes 2 (concat (calculate_cdf channels n))) = Ok (concat (calculate_cdf channels n)).
Proof.
  intros _. unfold from_bytes_signed. rewrite from_bytes_tensor by done. cbn [rbind]. f_equal.
  rewrite <-list_fmap_compose. rewrite <-(list_fmap_id (concat _)) at 2. apply list_fmap_ext. intros i z Hz.
  apply list_elem_of_lookup_2, list_elem_of_In, in_concat in Hz as (t & Ht & Hz).
  apply list_elem_of_In in Ht, Hz. unfold calculate_cdf in Ht. apply list_elem_of_fmap in Ht as (c & -> & _).
  apply list_elem_of_fmap in Hz as (w & -> & _). apply (to_signed_mod 1). change (256 ^ Z.of_nat 2 / 2) with (2 ^ 15). exact (cdf_int16 w).
Qed.

Lemma cdf_lengths channels : Forall (λ l, length l = Z.to_nat (max_bins + 1)) (calculate_cdf channels n).
Proof.
  unfold calculate_cdf. apply Forall_fmap, Forall_forall. intros t _. cbn. rewrite length_fmap, normalized_length. lia.
Qed.

Lemma lengths_of channels : Forall (stream_ok n) channels → Forall (λ l, 0 < l <= 161) (encoded n <$> channels).*2.
Proof.
  intros HF. rewrite <-list_fmap_compose. apply Forall_fmap. eapply Forall_impl; [exact HF|].
  intros t Ht. apply encoded_ok; [lia|done].
Qed.

Lemma total_length channels : Forall (stream_ok n) channels →
  Z.of_nat (length (concat (used <$> (encoded n <$> channels)))) <= 161 * Z.of_nat (length channels).
Proof.
  induction 1 as [|t l Ht HF IH]; [done|]. cbn [fmap list_fmap concat length]. rewrite length_app.
  destruct (encoded_ok n ltac:(lia) t Ht) as (? & ? & _). lia.
Qed.

Lemma int_roundtrip k l : Forall (λ z, 0 <= z < 256 ^ Z.of_nat (S k) / 2) l →
  from_bytes_signed (S k) (tensor_bytes (S k) l) = Ok l.
Proof.
  intros HF. unfold from_bytes_signed. rewrite from_bytes_tensor by done. cbn [rbind]. f_equal.
  rewrite <-list_fmap_compose. rewrite <-(list_fmap_id l) at 2. apply list_fmap_ext. intros i z Hz.
  apply to_signed_mod. rewrite Forall_lookup in HF. specialize (HF i z Hz). cbn beta in HF. unfold id. lia.
Qed.

Lemma uint8_roundtrip l : Forall is_byte l → from_bytes 1 (tensor_bytes 1 l) = Ok l.
Proof.
  intros HF. rewrite from_bytes_tensor by done. f_equal. rewrite <-(list_fmap_id l) at 2. apply list_fmap_ext. intros i z Hz.
  rewrite Forall_lookup in HF. specialize (HF i z Hz). unfold is_byte in HF. simpl. by apply Z.mod_small.
Qed.

Local Abbreviation cdf := (calculate_cdf (streams_of symbols) n).
Local Abbreviation encs := (encoded n <$> streams_of symbols).

Lemma encode_stream_ok : _encode_symbol_stream symbols max_bins =
  Ok (tensor_bytes 1 (concat (used <$> encs)), tensor_bytes 2 (concat cdf), tensor_bytes 4 encs.*2, stream_count).
Proof.
  unfold _encode_symbol_stream. rewrite (proj2 (Z.eqb_neq _ _)) by (destruct symbols; [done|simpl; lia]).
  assert (forallb (λ s, (0 <=? s) && (s <? max_bins)) symbols = true) as ->.
  { apply forallb_forall. intros s Hs%list_elem_of_In. rewrite Forall_forall in Hsym. specialize (Hsym s Hs). cbn beta in *. lia. }
  fold (streams_of symbols). change (Z.to_nat STREAM_BUFFER_BYTES) with 256%nat.
  rewrite encode_fast_new_eq by (apply streams_ok || lia).
  assert (forallb (λ l, (0 <? l) && (l <=? STREAM_BUFFER_BYTES)) encs.*2 = true) as ->; [|reflexivity].
  apply forallb_forall. intros l Hl%list_elem_of_In. pose proof (lengths_of _ streams_ok) as HF.
  rewrite Forall_forall in HF. specialize (HF l Hl). unfold STREAM_BUFFER_BYTES. cbn beta in *. lia.
Qed.

Lemma decode_stream_ok p payloads :
  pn_symbol_count p = Z.of_nat (length symbols) → pn_stream_count p = stream_count → pn_max_bins p = max_bins →
  pn_stream_bytes p = Z.of_nat (length (concat (used <$> encs))) →
  get_payload payloads (pn_stream_name p) = tensor_bytes 1 (concat (used <$> encs)) →
  get_payload payloads (pn_cdf_name p) = tensor_bytes 2 (concat cdf) →
  get_payload payloads (pn_lengths_name p) = tensor_bytes 4 encs.*2 →
  _decode_symbol_plane p payloads = Ok symbols.
Proof.
  intros Hsc Hstc Hmb Hsb Hstream Hcdf Hlens. unfold _decode_symbol_plane. rewrite Hsc, Hstc, Hmb, Hsb.
  pose proof stream_count_bounds as [Hpos Hle]. pose proof streams_ok as Hok. pose proof (total_length _ Hok) as Htot.
  rewrite streams_count in Htot. pose proof (all_bytes n ltac:(lia) _ Hok) as Hbytes. pose proof (lengths_of _ Hok) as Hl.
  set (sc := stream_count) in *. rewrite Hcdf, Hstream, Hlens, cdf_bytes_roundtrip, uint8_roundtrip by done.
  rewrite (int_roundtrip 3) by (eapply Forall_impl; [exact Hl|]; intros z Hz; change (256 ^ Z.of_nat 4 / 2) with (2 ^ 31); cbn beta in *; lia).
  cbn [rbind]. unfold STREAM_TOKENS, STREAM_BUFFER_BYTES.
  rewrite (proj2 (Z.ltb_ge sc 0)), (proj2 (Z.ltb_ge (Z.of_nat _) 0)), (proj2 (Z.ltb_ge (sc * 256) _)),
    (proj2 (Z.leb_gt max_bins 0)), (proj2 (Z.leb_gt 64 max_bins)), (proj2 (Z.ltb_ge (Z.of_nat _) 0)),
    (proj2 (Z.ltb_ge (sc * 256) (Z.of_nat _))) by lia.
  cbn [orb negb]. rewrite (proj2 (Z.eqb_neq sc 0)) by lia.
  assert (Z.of_nat (length (concat cdf)) = sc * (max_bins + 1)) as Hcl.
  { rewrite (concat_length_const _ _ (cdf_lengths _)). unfold calculate_cdf. rewrite length_fmap.
    rewrite Nat2Z.inj_mul, streams_count. fold sc. lia. }
  rewrite Hcl, Z.eqb_refl. rewrite !length_fmap, streams_count, !Z.eqb_refl.
  assert (forallb (λ l, (0 <? l) && (l <=? 256)) encs.*2 = true) as ->.
  { apply forallb_forall. intros l Hin%list_elem_of_In. rewrite Forall_forall in Hl. specialize (Hl l Hin). cbn beta in *. lia. }
  rewrite (proj2 (Z.leb_le _ _)) by lia. f_equal.
  assert (groups (Z.to_nat (max_bins + 1)) (Z.to_nat sc) (concat cdf) = cdf) as ->.
  { rewrite <-(groups_concat _ _ (cdf_lengths (streams_of symbols))) at 2. f_equal.
    unfold calculate_cdf. rewrite length_fmap. unfold sc. rewrite <-streams_count. by rewrite Nat2Z.id. }
  pose proof (streams_roundtrip n ltac:(lia) _ Hok) as Hrt. cbv zeta in Hrt.
  rewrite encode_fast_new_eq in Hrt by (done || lia). change (Z.to_nat 256) with 256%nat. rewrite Hrt.
  rewrite streams_concat, Nat2Z.id. by apply take_app_length'.
Qed.
End plane.

(** ** Names *)

Definition plane_names (bits : Z) (plane_index : nat) : list string :=
  let prefix := plane_prefix bits plane_index in
  ["entropy_stream_" +:+ prefix; "entropy_cdf_" +:+ prefix; "entropy_lengths_" +:+ prefix]%string.

(** the planes there are: one for a packed bucket, two for bytes *)
Definition bucket_names (bits : Z) : list string :=
  if bits =? 8 then plane_names 8 0 ++ plane_names 8 1 else plane_names bits 0.

(** no two planes share a name, and none has the name of a bucket's payload *)
Lemma names_distinct :
  NoDup (concat (bucket_names <$> SUPPORTED_ENTROPY_BITS) ++ (payload_name <$> SUPPORTED_ENTROPY_BITS)).
Proof. apply (bool_decide_unpack _). vm_compute. exact I. Qed.

Lemma supported_cases bits : bits ∈ SUPPORTED_ENTROPY_BITS ↔ bits = 2 ∨ bits = 4 ∨ bits = 8.
Proof. unfold SUPPORTED_ENTROPY_BITS. rewrite !elem_of_cons, elem_of_nil. naive_solver. Qed.

Lemma bucket_names_disjoint b b' nm : b ∈ SUPPORTED_ENTROPY_BITS → b' ∈ SUPPORTED_ENTROPY_BITS → b ≠ b' →
  nm ∈ bucket_names b → nm ∉ bucket_names b'.
Proof.
  rewrite !supported_cases. intros Hb Hb' Hne Hin.
  assert (∀ x y, bool_decide (x = y ∨ Forall (λ nm, nm ∉ bucket_names y) (bucket_names x)) = true →
    x ≠ y → nm ∈ bucket_names x → nm ∉ bucket_names y) as Hdec.
  { intros x y Hd%bool_decide_eq_true Hxy Hx. destruct Hd as [?|HF]; [done|]. rewrite Forall_forall in HF. by apply HF. }
  destruct Hb as [->|[->| ->]], Hb' as [->|[->| ->]]; try done; (eapply Hdec; [|done..]); vm_compute; reflexivity.
Qed.

Lemma payload_name_fresh b b' : b ∈ SUPPORTED_ENTROPY_BITS → b' ∈ SUPPORTED_ENTROPY_BITS → payload_name b ∉ bucket_names b'.
Proof.
  rewrite !supported_cases. intros Hb Hb'.
  destruct Hb as [->|[->| ->]], Hb' as [->|[->| ->]]; apply (bool_decide_unpack _); vm_compute; exact I.
Qed.

Lemma payload_name_inj b b' : b ∈ SUPPORTED_ENTROPY_BITS → b' ∈ SUPPORTED_ENTROPY_BITS →
  payload_name b = payload_name b' → b = b'.
Proof. rewrite !supported_cases. intros [->|[->| ->]] [->|[->| ->]]; done. Qed.

Lemma planes_disjoint nm : nm ∈ plane_names 8 0 → nm ∉ plane_names 8 1.
Proof.
  revert nm. apply Forall_forall. apply (bool_decide_unpack _). vm_compute. exact I.
Qed.

(** ** Coding a plane *)

Definition alphabet (bits : Z) : Z := if bits =? 2 then 3 else if bits =? 4 then 15 else 16.

Lemma alphabet_ok bits : bits ∈ SUPPORTED_ENTROPY_BITS → _alphabet_size bits = Ok (alphabet bits) ∧ 0 < alphabet bits <= 16.
Proof. rewrite supported_cases. intros [->|[->| ->]]; done. Qed.

Lemma plane_names_NoDup bits i : NoDup (plane_names bits i).
Proof.
  unfold plane_names. repeat (apply NoDup_cons; split); rewrite ?elem_of_cons, ?elem_of_nil; try done; try naive_solver;
    try (intros [H|H]; done); try (intros H; done). apply NoDup_nil_2.
Qed.

Lemma dget_dset3 (d : payload_dict) a b c x y z : NoDup [a; b; c] →
  let d' := dset (dset (dset d a x) b y) c z in
  dget d' a = Some x ∧ dget d' b = Some y ∧ dget d' c = Some z ∧ ∀ nm, nm ∉ [a; b; c] → dget d' nm = dget d nm.
Proof.
  rewrite !NoDup_cons, !elem_of_cons, !elem_of_nil. intros (Ha & Hb & _) d'. unfold d'.
  split_and!; [rewrite !dget_dset_ne, dget_dset_eq by naive_solver; done
    |rewrite dget_dset_ne, dget_dset_eq by naive_solver; done|by rewrite dget_dset_eq|].
  intros nm. rewrite !elem_of_cons, elem_of_nil. intros Hnm. by rewrite !dget_dset_ne by naive_solver.
Qed.

(** the plane [pl], stored under the names [names] of [ps], decodes to [symbols] *)
Definition decodes_to (names : list string) (ps : payload_dict) (pl : plane) (symbols : list Z) : Prop :=
  ∀ ps', (∀ nm, nm ∈ names → dget ps' nm = dget ps nm) → _decode_symbol_plane pl ps' = Ok symbols.

(** a plane stored in [ps] under its own names *)
Record plane_stored (bits : Z) (i : nat) (name : string) (symbols : list Z) (ps : payload_dict) (r : payload_dict * plane) : Prop := {
  pd_name : pn_name r.2 = name;
  pd_others : ∀ nm, nm ∉ plane_names bits i → dget r.1 nm = dget ps nm;
  pd_size : pn_stream_bytes r.2 <= 161 * pn_stream_count r.2;
  pd_decodes : decodes_to (plane_names bits i) r.1 r.2 symbols }.

Lemma store_plane_ok bits i name symbols max_bins st cd ln sc ps : blen st <= 161 * sc →
  (∀ p ps', pn_symbol_count p = Z.of_nat (length symbols) → pn_stream_count p = sc → pn_max_bins p = max_bins →
     pn_stream_bytes p = blen st → get_payload ps' (pn_stream_name p) = st → get_payload ps' (pn_cdf_name p) = cd →
     get_payload ps' (pn_lengths_name p) = ln → _decode_symbol_plane p ps' = Ok symbols) →
  plane_stored bits i name symbols ps (store_plane bits i (name, symbols) max_bins (st, cd, ln, sc) ps).
Proof.
  intros Hst Hdec. destruct (dget_dset3 ps _ _ _ st cd ln (plane_names_NoDup bits i)) as (H1 & H2 & H3 & H4). cbv zeta in *.
  unfold store_plane. split; cbn [fst snd pn_name pn_stream_bytes pn_stream_count]; [done|exact H4|done|].
  intros ps' Hps'. apply Hdec; try reflexivity;
    cbn [pn_stream_name pn_cdf_name pn_lengths_name]; unfold get_payload; rewrite Hps'; rewrite ?H1, ?H2, ?H3; try done;
    unfold plane_names; rewrite !elem_of_cons; tauto.
Qed.

Lemma encode_plane_ok bits i name symbols ps : bits ∈ SUPPORTED_ENTROPY_BITS →
  Forall (λ s, 0 <= s < alphabet bits) symbols →
  ∃ r, encode_plane bits i (name, symbols) ps = Ok r ∧ plane_stored bits i name symbols ps r.
Proof.
  intros Hbits Hsym. destruct (alphabet_ok bits Hbits) as [Ea Hab]. unfold encode_plane. rewrite Ea. cbn [rbind snd fst].
  destruct (decide (symbols = [])) as [->|Hne].
  - eexists. split; [reflexivity|]. apply store_plane_ok; [done|]. intros p ps' H1 H2 H3 H4 _ _ _.
    unfold _decode_symbol_plane. rewrite H1, H2, H3, H4.
    rewrite (proj2 (Z.leb_gt (alphabet bits) 0)), (proj2 (Z.leb_gt 64 (alphabet bits))) by lia. reflexivity.
  - rewrite encode_stream_ok by done. eexists. split; [reflexivity|].
    apply store_plane_ok; unfold blen; rewrite tensor_bytes_length, Nat.mul_1_r.
    + etrans; [apply total_length; [done|by apply streams_ok]|]. by rewrite (streams_count symbols (alphabet bits)).
    + intros p ps'. by apply decode_stream_ok.
Qed.

(** ** The symbols of a quantised payload *)

(** a payload tensor as the quantiser makes it: bytes in [-127, 127], or packed rows of
    values within the symmetric range of the width *)
Definition quantised (bits vectors head_dim : Z) (t : list Z) : Prop :=
  if bits =? 8 then Z.of_nat (length t) = vectors * head_dim ∧ Forall (λ q, - 127 <= q <= 127) t
  else ∃ q, Z.of_nat (length q) = vectors ∧
    Forall (λ row, Z.of_nat (length row) = head_dim ∧ Forall (λ x, - _qmax bits <= x <= _qmax bits) row) q ∧
    _pack_low_bit q head_dim bits = Ok t.

Lemma nibbles u : 0 <= u < 256 → Z.lor (Z.land u 0x0F) (Z.shiftl (Z.shiftr u 4) 4) = u.
Proof.
  intros Hu. apply (elem_of_bins 256) in Hu. revert u Hu. apply Forall_forall, (bool_decide_unpack _). vm_compute. exact I.
Qed.

Lemma int8_id x : - 128 <= x <= 127 → to_int8 x = x.
Proof. intros Hx. apply (to_signed_mod 0). change (256 ^ Z.of_nat 1 / 2) with 128. lia. Qed.

Lemma signed_bytes t : Forall (λ q, - 128 <= q <= 127) t → from_bytes_signed 1 (tensor_bytes 1 t) = Ok t.
Proof.
  intros HF. unfold from_bytes_signed. rewrite from_bytes_tensor by done. cbn [rbind]. f_equal.
  rewrite <-list_fmap_compose. rewrite <-(list_fmap_id t) at 2. apply list_fmap_ext. intros i z Hz.
  rewrite Forall_lookup in HF. specialize (HF i z Hz). cbn beta in HF. by apply int8_id.
Qed.

Record symbol_planes (bits vectors head_dim : Z) (t : list Z) (planes : list (string * list Z)) : Prop := {
  sp_names : planes.*1 = if bits =? 8 then ["low"; "high"]%string else ["value"]%string;
  sp_symbols : Forall (λ p, Forall (λ s, 0 <= s < alphabet bits) p.2) planes;
  sp_assemble : assemble bits vectors head_dim (vectors * head_dim) planes = Ok t;
  sp_length : Z.of_nat (length t) = vectors * (if bits =? 8 then head_dim else bytes_per_row head_dim bits) }.

Lemma byte_planes vectors head_dim t : 0 <= vectors → 0 < head_dim → quantised 8 vectors head_dim t →
  ∃ planes, _payload_to_symbol_planes (tensor_bytes 1 t) 8 vectors head_dim = Ok planes ∧
    symbol_planes 8 vectors head_dim t planes.
Proof.
  intros Hv Hd [Hl HF]. unfold _payload_to_symbol_planes. rewrite Z.eqb_refl. unfold blen.
  rewrite tensor_bytes_length, Nat.mul_1_r, Hl, Z.eqb_refl.
  rewrite signed_bytes by (eapply Forall_impl; [exact HF|]; simpl; lia). cbn [rbind].
  eexists. split; [reflexivity|]. split; [done| | |done].
  - assert (∀ f : Z → Z, (∀ u, 0 <= u < 255 → 0 <= f u < 16) → Forall (λ s, 0 <= s < 16) (f <$> ((λ x, x + _qmax 8) <$> t))) as Hf.
    { intros f Hf. rewrite !Forall_fmap. eapply Forall_impl; [exact HF|]. intros q Hq. apply (Hf (q + 127)).
      cbn beta in Hq. lia. }
    repeat constructor; apply Hf; intros u Hu.
    + change 0x0F with (Z.ones 4). rewrite Z.land_ones by done. by apply Z.mod_pos_bound.
    + rewrite Z.shiftr_div_pow2 by done. split; [apply Z.div_pos; lia|apply Z.div_lt_upper_bound; lia].
  - unfold assemble. rewrite Z.eqb_refl. cbn [dget]. rewrite decide_True by done. rewrite decide_False by done. rewrite decide_True by done.
    cbn [length Nat.eqb]. rewrite !length_fmap, Hl, Z.eqb_refl. cbn [andb]. f_equal.
    clear Hl Hv Hd. induction HF as [|x l Hx HF IH]; [done|]. cbn [fmap list_fmap zip_with]. f_equal; [|exact IH].
    change (_qmax 8) with 127. rewrite nibbles by lia. replace (x + 127 - 127) with x by lia. apply int8_id. lia.
Qed.

Lemma low_bit_supported bits : bits ∈ SUPPORTED_ENTROPY_BITS → bits ≠ 8 →
  is_low_bit bits = true ∧ (bits =? 8) = false ∧ alphabet bits = 2 * _qmax bits + 1 ∧
  (∀ x, - _qmax bits <= x <= _qmax bits → fits_bits bits x) ∧ _qmax bits <= 7.
Proof.
  rewrite supported_cases. intros [->|[->| ->]] ?; [..|done]; (split_and!; [done..| |done]); unfold fits_bits; cbn; lia.
Qed.

Lemma packed_bytes q head_dim bits t : _pack_low_bit q head_dim bits = Ok t → Forall is_byte t.
Proof.
  unfold _pack_low_bit. destruct (is_low_bit bits); [|done].
  destruct (forallb (λ row, Z.of_nat (length row) =? head_dim) q); [|done]. intros [= <-]. apply Forall_forall.
  intros b Hb. apply list_elem_of_In, in_concat in Hb as (row & Hrow & Hb). apply list_elem_of_In in Hrow, Hb.
  apply list_elem_of_fmap in Hrow as (r & -> & _). unfold pack_row in Hb. apply list_elem_of_fmap in Hb as (fs & -> & _).
  unfold byte_of_fields. change (2 ^ 8) with 256. by apply Z.mod_pos_bound.
Qed.

Lemma packed_planes bits vectors head_dim t : bits ∈ SUPPORTED_ENTROPY_BITS → bits ≠ 8 → 0 < head_dim →
  quantised bits vectors head_dim t →
  ∃ planes, _payload_to_symbol_planes (tensor_bytes 1 t) bits vectors head_dim = Ok planes ∧
    symbol_planes bits vectors head_dim t planes.
Proof.
  intros Hs H8 Hd Hq. destruct (low_bit_supported bits Hs H8) as (Hlow & E8 & Ealph & Hfit & Hqm). unfold quantised in Hq.
  rewrite E8 in Hq. destruct Hq as (q & Hl & HF & Hpack).
  destruct (unpack_pack bits head_dim q Hlow) as (t' & Hp & Htl & Hun).
  { eapply Forall_impl; [exact HF|]. intros row [? HR]. split; [done|]. eapply Forall_impl; [exact HR|]. apply Hfit. }
  rewrite Hpack in Hp. injection Hp as <-. rewrite Hl in Htl, Hun.
  unfold _payload_to_symbol_planes. rewrite E8. unfold blen. rewrite tensor_bytes_length, Nat.mul_1_r, Htl, Z.eqb_refl.
  assert (concat q = (λ s, to_int8 (s - _qmax bits)) <$> ((λ x, x + _qmax bits) <$> concat q)) as Hback.
  { rewrite <-list_fmap_compose. rewrite <-(list_fmap_id (concat q)) at 1. apply list_fmap_ext. intros i x Hx.
    apply list_elem_of_lookup_2, list_elem_of_In, in_concat in Hx as (row & Hrow & Hx). apply list_elem_of_In in Hrow, Hx.
    rewrite Forall_forall in HF. destruct (HF row Hrow) as [_ HR]. rewrite Forall_forall in HR. specialize (HR x Hx).
    cbn. replace (x + _qmax bits - _qmax bits) with x by lia. symmetry. apply int8_id. lia. }
  assert (symbol_planes bits vectors head_dim t [("value"%string, (λ x, x + _qmax bits) <$> concat q)]) as Hsp.
  { split; rewrite ?E8; [done| | |done].
    - repeat constructor. cbn. rewrite Forall_fmap. apply Forall_forall. intros x Hx.
      apply list_elem_of_In, in_concat in Hx as (row & Hrow & Hx). apply list_elem_of_In in Hrow, Hx.
      rewrite Forall_forall in HF. destruct (HF row Hrow) as [_ HR]. rewrite Forall_forall in HR. specialize (HR x Hx). cbn. lia.
    - unfold assemble. rewrite E8. rewrite length_fmap.
      assert (Forall (λ row, length row = Z.to_nat head_dim) q) as Hrows.
      { eapply Forall_impl; [exact HF|]. intros row [? _]. lia. }
      rewrite (concat_length_const _ _ Hrows). rewrite (proj2 (Z.eqb_eq _ _)) by lia.
      rewrite <-Hback. rewrite <-Hl, Nat2Z.id, groups_concat by done. exact Hpack. }
  destruct (Z.eqb_spec vectors 0) as [E0|].
  - eexists. split; [reflexivity|]. assert (q = []) as -> by (apply nil_length_inv; lia). exact Hsp.
  - rewrite uint8_roundtrip by by eapply packed_bytes. cbn [rbind]. rewrite Hun. cbn [rbind].
    eexists. split; [reflexivity|]. exact Hsp.
Qed.

(** ** Buckets *)

Lemma decode_two ps n0 n1 pl0 pl1 s0 s1 : n0 ≠ n1 → pn_name pl0 = n0 → pn_name pl1 = n1 →
  _decode_symbol_plane pl0 ps = Ok s0 → _decode_symbol_plane pl1 ps = Ok s1 →
  decode_planes [pl0; pl1] ps [] = Ok [(n0, s0); (n1, s1)].
Proof.
  intros Hne <- <- H0 H1. cbn [decode_planes dmem dget negb]. rewrite H0. cbn [rbind dset].
  unfold dmem. cbn [dget]. rewrite decide_False by done. cbn [negb]. rewrite H1. cbn [rbind dset]. by rewrite decide_False by done.
Qed.

Definition bucket_decodes (bits : Z) (ps : payload_dict) (pls : list plane) (planes : list (string * list Z)) : Prop :=
  ∀ ps', (∀ nm, nm ∈ bucket_names bits → dget ps' nm = dget ps nm) → decode_planes pls ps' [] = Ok planes.

Lemma encode_planes_ok bits vectors head_dim t planes ps : bits ∈ SUPPORTED_ENTROPY_BITS →
  symbol_planes bits vectors head_dim t planes →
  ∃ ps' pls, encode_planes bits 0 planes ps = Ok (ps', pls) ∧ pls ≠ [] ∧
    (∀ nm, nm ∉ bucket_names bits → dget ps' nm = dget ps nm) ∧ bucket_decodes bits ps' pls planes.
Proof.
  intros Hs [Hn HF _ _]. unfold bucket_names, bucket_decodes. destruct (Z.eqb_spec bits 8) as [->|H8].
  - destruct planes as [|[n0 s0] [|[n1 s1] [|]]]; try done. injection Hn as -> ->.
    rewrite !Forall_cons in HF. destruct HF as (Hs0 & Hs1 & _). cbn [encode_planes].
    destruct (encode_plane_ok 8 0 "low" s0 ps Hs Hs0) as ([ps0 pl0] & -> & [Hn0 Ho0 _ Hd0]). cbn [rbind fst snd] in *.
    destruct (encode_plane_ok 8 1 "high" s1 ps0 Hs Hs1) as ([ps1 pl1] & -> & [Hn1 Ho1 _ Hd1]). cbn [rbind fst snd] in *.
    exists ps1, [pl0; pl1]. split_and!; [done|done| |].
    + intros nm. rewrite elem_of_app. intros Hnm. rewrite Ho1, Ho0 by tauto. done.
    + intros ps' Hps'. change (bucket_names 8) with (plane_names 8 0 ++ plane_names 8 1) in Hps'. setoid_rewrite elem_of_app in Hps'.
      apply decode_two; [done|done|done|apply Hd0|apply Hd1]; intros nm Hnm; [|apply Hps'; by right].
      rewrite Hps' by by left. apply Ho1. by apply planes_disjoint.
  - destruct planes as [|[n0 s0] [|]]; try done. injection Hn as ->. rewrite !Forall_cons in HF. destruct HF as (Hs0 & _).
    cbn [encode_planes]. destruct (encode_plane_ok bits 0 "value" s0 ps Hs Hs0) as ([ps0 pl0] & -> & [Hn0 Ho0 _ Hd0]).
    cbn [rbind fst snd] in *. exists ps0, [pl0]. split_and!; [done|done|done|].
    intros ps' Hps'. unfold bucket_names in Hps'. rewrite (proj2 (Z.eqb_neq _ _)) in Hps' by done.
    cbn [decode_planes dmem dget negb]. rewrite (Hd0 _ Hps'). cbn [rbind dset decode_planes]. by rewrite Hn0.
Qed.

Lemma planes_ok bits vectors head_dim t : bits ∈ SUPPORTED_ENTROPY_BITS → 0 <= vectors → 0 < head_dim →
  quantised bits vectors head_dim t →
  ∃ planes, _payload_to_symbol_planes (tensor_bytes 1 t) bits vectors head_dim = Ok planes ∧
    symbol_planes bits vectors head_dim t planes.
Proof.
  intros Hs Hv Hd Hq. destruct (decide (bits = 8)) as [->|]; [by apply byte_planes|by apply packed_planes].
Qed.

Lemma geometry_ok m bits c v hd n : _bucket_geometry m bits = Ok (c, v, hd, n) → 0 <= v ∧ 0 < hd ∧ n = v * hd.
Proof.
  unfold _bucket_geometry. destruct (filter _ _) as [|[b c'] [|]]; try done.
  set (v' := if bool_decide _ then _ else _).
  destruct (c' <? 0), (Z.ltb_spec v' 0), (Z.leb_spec (qp_head_dim (md_plan m)) 0); try done.
  intros [= <- <- <- <-]. lia.
Qed.

(** the bucket [bits], of the object with metadata [m], holds the tensor [t] *)
Definition holds_bucket (m : makv_metadata) (ps : payload_dict) (bits : Z) (t : list Z) : Prop :=
  ∃ c v hd n, _bucket_geometry m bits = Ok (c, v, hd, n) ∧ quantised bits v hd t ∧
    dget ps (payload_name bits) = Some (tensor_bytes 1 t).

Lemma encode_bucket_ok m bits ps e t : bits ∈ SUPPORTED_ENTROPY_BITS → holds_bucket m ps bits t →
  ∃ ps' b inb outb, encode_bucket m bits (ps, e) =
      Ok (ps', mkEntropy (et_codec e) (et_version e) (et_backend e) (et_stream_tokens e) (dset (et_buckets e) bits b) inb outb) ∧
    (∀ nm, nm ∉ bucket_names bits → nm ≠ payload_name bits → dget ps' nm = dget ps nm) ∧
    (∀ ps'', (∀ nm, nm ∈ bucket_names bits → dget ps'' nm = dget ps' nm) → decode_bucket bits b ps'' = Ok t).
Proof.
  intros Hs (c & v & hd & n & Hg & Hq & Hp). destruct (geometry_ok _ _ _ _ _ _ Hg) as (Hv & Hd & ->).
  destruct (planes_ok bits v hd t Hs Hv Hd Hq) as (planes & Hpl & Hsp).
  destruct (encode_planes_ok bits v hd t planes (ddel ps (payload_name bits)) Hs Hsp) as (ps' & pls & Hen & Hne & Ho & Hdec).
  unfold encode_bucket. rewrite (bool_decide_true (bits ∈ _)) by done. cbn [negb]. rewrite Hg. cbn [rbind].
  rewrite Hp, Hpl. cbn [rbind]. rewrite Hen. cbn [rbind fst snd].
  eexists ps', _, _, _. split; [reflexivity|]. split.
  - intros nm Hnm Hne'. rewrite Ho by done. by apply dget_ddel_ne.
  - intros ps'' Hps''. unfold decode_bucket. cbn [eb_vectors eb_head_dim eb_logical_elements eb_planes].
    rewrite bool_decide_true by done. rewrite (proj2 (Z.ltb_ge v 0)), (proj2 (Z.leb_gt hd 0)), (proj2 (Z.ltb_ge (v * hd) 0)), Z.eqb_refl by nia.
    cbn [orb negb]. destruct pls as [|pl pls]; [done|]. cbn [nonempty]. rewrite (Hdec _ Hps''). cbn [rbind].
    destruct Hsp as [_ _ Hasm Hlen]. rewrite Hasm. cbn [rbind]. by rewrite Hlen, Z.eqb_refl.
Qed.

(** ** Objects *)

Lemma payload_popped m bits ps e t ps' e' : bits ∈ SUPPORTED_ENTROPY_BITS → holds_bucket m ps bits t →
  encode_bucket m bits (ps, e) = Ok (ps', e') → dget ps' (payload_name bits) = None.
Proof.
  intros Hs (c & v & hd & n & Hg & Hq & Hp). destruct (geometry_ok _ _ _ _ _ _ Hg) as (Hv & Hd & ->).
  destruct (planes_ok bits v hd t Hs Hv Hd Hq) as (planes & Hpl & Hsp).
  destruct (encode_planes_ok bits v hd t planes (ddel ps (payload_name bits)) Hs Hsp) as (ps1 & pls & Hen & _ & Ho & _).
  unfold encode_bucket. rewrite (bool_decide_true (bits ∈ _)) by done. cbn [negb]. rewrite Hg. cbn [rbind].
  rewrite Hp, Hpl. cbn [rbind]. rewrite Hen. cbn [rbind fst snd]. intros [= <- _].
  rewrite Ho by by apply payload_name_fresh. apply dget_ddel_eq.
Qed.

(** names the coding of [bs] writes or removes *)
Definition touched (bs : list Z) (nm : string) : Prop :=
  ∃ b, b ∈ bs ∧ b ∈ SUPPORTED_ENTROPY_BITS ∧ (nm ∈ bucket_names b ∨ nm = payload_name b).

Record buckets_coded (t : Z → list Z) (bs : list Z) (ps : payload_dict) (e : entropy_table) (r : payload_dict * entropy_table) : Prop := {
  bc_codec : et_codec r.2 = et_codec e;
  bc_version : et_version r.2 = et_version e;
  bc_others : ∀ nm, ¬ touched bs nm → dget r.1 nm = dget ps nm;
  bc_popped : ∀ b, b ∈ bs → b ∈ SUPPORTED_ENTROPY_BITS → dget r.1 (payload_name b) = None;
  bc_buckets : ∃ new, et_buckets r.2 = et_buckets e ++ new ∧ new.*1 = filter (.∈ SUPPORTED_ENTROPY_BITS) bs ∧
    ∀ b x, (b, x) ∈ new → decode_bucket b x r.1 = Ok (t b) }.

Lemma encode_buckets_ok m t bs ps e : NoDup bs → (∀ b, b ∈ bs → b ∉ dkeys (et_buckets e)) →
  (∀ b, b ∈ bs → b ∈ SUPPORTED_ENTROPY_BITS → holds_bucket m ps b (t b)) →
  ∃ r, encode_buckets m bs (ps, e) = Ok r ∧ buckets_coded t bs ps e r.
Proof.
  intros HN. revert ps e. induction HN as [|b bs Hb HN IH]; intros ps e Hfresh Hh.
  { exists (ps, e). split; [done|]. split; try done; [by intros ? ?%elem_of_nil|]. exists []. rewrite app_nil_r. split_and!; [done|done|].
    by intros ?? ?%elem_of_nil. }
  cbn [encode_buckets]. destruct (decide (b ∈ SUPPORTED_ENTROPY_BITS)) as [Hs|Hs].
  - pose proof (Hh b ltac:(by left) Hs) as Hhb.
    destruct (encode_bucket_ok m b ps e (t b) Hs Hhb) as (ps1 & x & inb & outb & Hen & Ho & Hdec).
    pose proof (payload_popped _ _ _ _ _ _ _ Hs Hhb Hen) as Hpop. rewrite Hen. cbn [rbind]. set (e1 := mkEntropy _ _ _ _ _ _ _).
    assert (dset (et_buckets e) b x = et_buckets e ++ [(b, x)]) as Hset.
    { apply dkeys_dset_new, dget_None_dkeys, Hfresh. by left. }
    destruct (IH ps1 e1) as ([ps2 e2] & Her & [Hc Hv Ho2 Hp2 (new & Hnew & Hkeys & Hd2)]).
    { intros b' Hb'. unfold e1. cbn [et_buckets]. rewrite Hset. unfold dkeys. rewrite fmap_app, elem_of_app.
      intros [Hin|Hin]; [by apply (Hfresh b'); [by right|]|]. apply list_elem_of_singleton in Hin. subst b'. done. }
    { intros b' Hb' Hs'. destruct (Hh b' ltac:(by right) Hs') as (c & v & hd & n & Hg & Hq & Hp).
      exists c, v, hd, n. split_and!; [done..|]. rewrite Ho; [done|by apply payload_name_fresh|].
      intros E%payload_name_inj; [by subst b'|done|done]. }
    cbn [fst snd] in *. exists (ps2, e2). split; [done|]. split; cbn [fst snd]; [done|done| | |].
    + intros nm Hnm. rewrite Ho2, Ho; [done|intros Hin; apply Hnm; exists b; split_and!; [by left|done|by left]
        |intros Hin; apply Hnm; exists b; split_and!; [by left|done|by right]
        |intros (b' & ? & ? & ?); apply Hnm; exists b'; split_and!; [by right|done|done]].
    + intros b' [->|Hb']%elem_of_cons Hs'; [|by apply Hp2]. rewrite Ho2; [done|].
      intros (b' & Hb' & Hs'' & [Hin|E]); [by apply (payload_name_fresh b b' Hs Hs'')|].
      apply payload_name_inj in E; [by subst b'|done|done].
    + exists ((b, x) :: new). split_and!.
      * rewrite Hnew. unfold e1. cbn [et_buckets]. by rewrite Hset, <-app_assoc.
      * rewrite filter_cons, decide_True by done. cbn [fmap list_fmap fst]. by f_equal.
      * intros b' x' [[= -> ->]|Hin]%elem_of_cons; [|by apply Hd2]. apply Hdec. intros nm Hnm. apply Ho2.
        intros (b' & Hb' & Hs'' & [Hin|E]).
        -- apply (bucket_names_disjoint b b' nm); [done|done|by intros ->|done|done].
        -- subst nm. by apply (payload_name_fresh b' b).
  - unfold encode_bucket at 1. rewrite (bool_decide_false (b ∈ _)) by done. cbn [negb rbind].
    destruct (IH ps e) as (r & Her & [Hc Hv Ho2 Hp2 Hnew]); [intros; apply Hfresh; by right|intros; apply Hh; [by right|done]|].
    exists r. split; [done|]. split; [done|done| | |].
    + intros nm Hnm. apply Ho2. intros (b' & ? & ? & ?). apply Hnm. exists b'. split_and!; [by right|done|done].
    + intros b' [->|Hb']%elem_of_cons Hs'; [done|by apply Hp2].
    + rewrite filter_cons, decide_False by done. exact Hnew.
Qed.

Lemma decode_buckets_ok (t : Z → list Z) bs ps acc : NoDup bs.*1 → (∀ b, b ∈ bs.*1 → b ∉ dkeys acc) →
  (∀ b x, (b, x) ∈ bs → decode_bucket b x ps = Ok (t b)) →
  decode_buckets bs ps acc = Ok (acc ++ ((λ b, (b, t b)) <$> bs.*1)).
Proof.
  revert acc. induction bs as [|[b x] bs IH]; intros acc HN Hfresh Hd; [by rewrite app_nil_r|].
  cbn [fmap list_fmap fst] in HN. apply NoDup_cons in HN as [Hb HN].
  cbn [decode_buckets]. rewrite (Hd b x) by left. cbn [rbind].
  rewrite dkeys_dset_new by (apply dget_None_dkeys, Hfresh; by left). rewrite IH; [|done| |].
  - by rewrite <-app_assoc.
  - intros b' Hb'. unfold dkeys. rewrite fmap_app, elem_of_app. intros [?|E%list_elem_of_singleton].
    + by apply (Hfresh b'); [right|].
    + cbn in E. by subst b'.
  - intros b' x' ?. apply Hd. by right.
Qed.

(** ** Theorems *)

(** C19: Arithmetic coding loses nothing. For every tensor of streams of 256 symbols
    over an alphabet of at most 16, the tables [calculate_cdf] builds, the bytes
    [encode_fast_new] writes, cut to the lengths it reports and joined, and the prefix
    sums of those lengths decode to the same symbols, although the first word of a
    short stream is read from its neighbour and the last bits from nowhere; decoding
    every channel from its own buffer with [decode_fast_new] gives them back too. *)
Theorem arithmetic_coder_roundtrip (n : nat) (channels : list (list Z)) :
  0 < Z.of_nat n <= 16 → Forall (stream_ok n) channels →
  let cdf := calculate_cdf channels n in
  let encs := encode_fast_new cdf channels 256 in
  decode_fast_prefsum cdf (concat (used <$> encs)) (cumsum 0 encs.*2) 256 = channels ∧
  decode_fast_new cdf encs.*1 encs.*2 256 = channels.
Proof. intros Hn HF. split; [by apply streams_roundtrip|by apply buffers_roundtrip]. Qed.

(** The encoder's buffer is never full. A stream of 256 symbols over an alphabet of
    at most 16, coded with its own table, takes at least one and at most 161 of the 256
    bytes of its buffer, so no bit is dropped and the check of the stream lengths that
    follows never fails. *)
Theorem coded_stream_bounded (n : nat) (channels : list (list Z)) :
  0 < Z.of_nat n <= 16 → Forall (stream_ok n) channels →
  Forall (λ e, length e.1 = 256%nat ∧ 0 < e.2 <= 161) (encode_fast_new (calculate_cdf channels n) channels 256).
Proof.
  intros Hn HF. rewrite encode_fast_new_eq by done. apply Forall_fmap. eapply Forall_impl; [exact HF|]. intros t Ht.
  destruct (encoded_bytes n Hn t Ht) as (? & _ & ?). done.
Qed.

(** C20: Entropy coding of a quantised object is transparent. If the payload of every
    bucket of a codable width is a tensor as the quantiser makes it, encoding
    succeeds, removes those payloads, leaves every other payload as it is, and
    decoding the result gives back exactly the tensor of each bucket, in the order of
    the plan. *)
Theorem entropy_roundtrip (m : makv_metadata) (payloads : payload_dict) (backend : string) (t : Z → list Z) :
  backend ∈ ["auto"; "reference"]%string → NoDup (qp_bucket_bits (md_plan m)) →
  (∀ b, b ∈ qp_bucket_bits (md_plan m) → b ∈ SUPPORTED_ENTROPY_BITS → holds_bucket m payloads b (t b)) →
  ∃ m' payloads', encode_entropy_payloads m payloads "cachegen_arithmetic" backend false = Ok (m', payloads') ∧
    md_plan m' = md_plan m ∧ md_bucket_entries m' = md_bucket_entries m ∧
    decode_entropy_payloads m' payloads' =
      Ok ((λ b, (b, t b)) <$> filter (.∈ SUPPORTED_ENTROPY_BITS) (qp_bucket_bits (md_plan m))) ∧
    (∀ b, b ∈ qp_bucket_bits (md_plan m) → b ∈ SUPPORTED_ENTROPY_BITS → dget payloads' (payload_name b) = None) ∧
    ∀ nm, ¬ touched (qp_bucket_bits (md_plan m)) nm → dget payloads' nm = dget payloads nm.
Proof.
  intros Hback HN Hh. unfold encode_entropy_payloads. rewrite bool_decide_false, bool_decide_true by done.
  assert (_select_backend backend false = Ok "reference"%string) as ->.
  { rewrite !elem_of_cons, elem_of_nil in Hback. destruct Hback as [->|[->|[]]]; reflexivity. }
  cbn [rbind]. set (e := mkEntropy _ _ _ _ _ _ _).
  destruct (encode_buckets_ok m t _ payloads e HN) as ([ps' e'] & -> & [Hc Hv Ho Hp (new & Hnew & Hkeys & Hd)]);
    [by intros b _ ?%elem_of_nil|done|].
  cbn [rbind fst snd] in *. eexists _, _. split; [reflexivity|]. split_and!; [done|done| |done|done].
  unfold decode_entropy_payloads. cbn [md_entropy with_entropy]. rewrite Hc, Hv. cbn [e et_codec et_version].
  rewrite bool_decide_true by done. rewrite Z.eqb_refl, Hnew. cbn [andb e et_buckets app].
  rewrite (decode_buckets_ok t); [by rewrite Hkeys|rewrite Hkeys; by apply NoDup_filter|by intros b _ ?%elem_of_nil|done].
Qed.

(** ** A concrete object: one token with rows of two widths *)

Definition demo_channels : list (list Z) := [replicate 200 0 ++ replicate 56 2; replicate 256 1].

Lemma demo_channels_ok : Forall (stream_ok 3) demo_channels.
Proof.
  constructor; [|constructor; [|constructor]]; (split; [reflexivity|apply (bool_decide_unpack _); vm_compute; exact I]).
Qed.

Lemma arithmetic_coder_roundtrip_witness :
  Forall (stream_ok 3) demo_channels ∧
  let cdf := calculate_cdf demo_channels 3 in
  let encs := encode_fast_new cdf demo_channels 256 in
  encs.*2 = [25; 1] ∧ decode_fast_prefsum cdf (concat (used <$> encs)) (cumsum 0 encs.*2) 256 = demo_channels ∧
  decode_fast_new cdf encs.*1 encs.*2 256 = demo_channels.
Proof.
  split; [apply demo_channels_ok|]. split; [vm_compute; reflexivity|].
  apply (arithmetic_coder_roundtrip 3); [lia|apply demo_channels_ok].
Defined.

Lemma coded_stream_bounded_witness :
  Forall (stream_ok 3) demo_channels ∧
  Forall (λ e, length e.1 = 256%nat ∧ 0 < e.2 <= 161) (encode_fast_new (calculate_cdf demo_channels 3) demo_channels 256).
Proof.
  split; [apply demo_channels_ok|]. apply (coded_stream_bounded 3); [lia|apply demo_channels_ok].
Defined.

Definition demo_plan : MaKVQuantPlan := mkQuantPlan "token" [16; 8; 4; 2] 1 1 3.
Definition demo_rows (bits : Z) : list (list Z) := if bits =? 4 then [[-7; 3; 0]; [5; 5; 7]] else [].
Definition demo_tensor (bits : Z) : list Z :=
  if bits =? 8 then [-127; 0; 127; 5; 5; 5]
  else match _pack_low_bit (demo_rows bits) 3 bits with Ok l => l | Raise _ => [] end.
Definition demo_metadata : makv_metadata := mkMetadata demo_plan [(16, 0); (8, 1); (4, 1); (2, 0)] None.
Definition demo_payloads : payload_dict :=
  [("positions_8"%string, [x00; x00; x00; x00]);
   ("payload_8"%string, tensor_bytes 1 (demo_tensor 8)); ("payload_4"%string, tensor_bytes 1 (demo_tensor 4));
   ("payload_2"%string, tensor_bytes 1 (demo_tensor 2))].

Lemma demo_holds b : b ∈ [16; 8; 4; 2] → b ∈ SUPPORTED_ENTROPY_BITS → holds_bucket demo_metadata demo_payloads b (demo_tensor b).
Proof.
  intros _ [->|[->| ->]]%supported_cases.
  - exists 0, 0, 3, 0. split_and!; [vm_compute; reflexivity| |vm_compute; reflexivity].
    exists []. split_and!; [done|constructor|vm_compute; reflexivity].
  - exists 1, 2, 3, 6. split_and!; [vm_compute; reflexivity| |vm_compute; reflexivity].
    exists (demo_rows 4). split_and!; [done| |vm_compute; reflexivity].
    repeat constructor; cbn; lia.
  - exists 1, 2, 3, 6. split_and!; [vm_compute; reflexivity| |vm_compute; reflexivity].
    split; [done|]. repeat constructor; lia.
Qed.

Lemma entropy_roundtrip_witness :
  (∀ b, b ∈ [16; 8; 4; 2] → b ∈ SUPPORTED_ENTROPY_BITS → holds_bucket demo_metadata demo_payloads b (demo_tensor b)) ∧
  ∃ m' payloads', encode_entropy_payloads demo_metadata demo_payloads "cachegen_arithmetic" "auto" false = Ok (m', payloads') ∧
    decode_entropy_payloads m' payloads' = Ok [(8, demo_tensor 8); (4, demo_tensor 4); (2, demo_tensor 2)] ∧
    dget payloads' "positions_8"%string = Some [x00; x00; x00; x00] ∧ dget payloads' "payload_8"%string = None.
Proof.
  split; [exact demo_holds|].
  destruct (entropy_roundtrip demo_metadata demo_payloads "auto" demo_tensor) as (m' & ps' & He & _ & _ & Hd & Hp & Ho);
    [by left|apply (bool_decide_unpack _); vm_compute; exact I|exact demo_holds|].
  exists m', ps'. split_and!; [exact He|rewrite Hd; vm_compute; reflexivity| |].
  - rewrite Ho; [vm_compute; reflexivity|]. intros (b & _ & Hb & H). revert H.
    apply supported_cases in Hb. destruct Hb as [->|[->| ->]]; apply (bool_decide_unpack (¬ _)); vm_compute; exact I.
  - apply (Hp 8); [by right; left|apply supported_cases; lia].
Defined.
