(* ===== verification/Json.v ===== *)
(** * JSON text

    [json.dumps(v, separators=(",", ":"), sort_keys=True)] and [json.loads] of the
    Python library, as the wire formats use them, with their round trip. A [str] is
    its list of code points, a dict the list of its items in insertion order. A float
    is given by a literal that denotes it, the one [repr] prints where it is dumped.
    Python's limits on nesting and on the length of integer literals are not
    modelled. *)

From Stdlib Require Import Strings.Byte.
From S2P Require Import Prelude PyDict PyState PyFloat BatchBlob ObjectKey Utf8.
Import Struct.

Open Scope Z_scope.

#[local] Unset Elimination Schemes.
Inductive json :=
| JNull
| JBool (b : bool)
| JInt (z : Z)
| JFloat (literal : str)
| JStr (s : str)
| JList (l : list json)
| JObj (members : list (str * json)).
#[local] Set Elimination Schemes.

Section json_ind.
Context (P : json → Prop) (Hnull : P JNull) (Hbool : ∀ b, P (JBool b)) (Hint : ∀ z, P (JInt z)) (Hfloat : ∀ l, P (JFloat l))
  (Hstr : ∀ s, P (JStr s)) (Hlist : ∀ l, Forall P l → P (JList l)) (Hobj : ∀ ms, Forall (λ m, P m.2) ms → P (JObj ms)).

Fixpoint json_ind (v : json) : P v :=
  match v with
  | JNull => Hnull
  | JBool b => Hbool b
  | JInt z => Hint z
  | JFloat l => Hfloat l
  | JStr s => Hstr s
  | JList l => Hlist l ((fix go l : Forall P l := match l with [] => Forall_nil_2 _ | v :: l => Forall_cons_2 _ _ _ (json_ind v) (go l) end) l)
  | JObj ms => Hobj ms ((fix go ms : Forall (λ m, P m.2) ms :=
      match ms with [] => Forall_nil_2 _ | m :: ms => Forall_cons_2 _ _ _ (json_ind m.2) (go ms) end) ms)
  end.
End json_ind.

(** ** Printing *)

(** decimal digits of [0 <= n] *)
Fixpoint dec_digits (fuel : nat) (n : Z) : str :=
  match fuel with
  | O => [48 + n mod 10]
  | S fuel => if n <? 10 then [48 + n] else dec_digits fuel (n / 10) ++ [48 + n mod 10]
  end.
Definition to_dec (n : Z) : str := dec_digits (Z.to_nat (Z.log2 n)) n.
Definition dump_int (z : Z) : str := if z <? 0 then 45 :: to_dec (- z) else to_dec z.

(** [\uXXXX] *)
Definition u_escape (c : Z) : str :=
  [92; 117; hex_digit (c / 4096 mod 16); hex_digit (c / 256 mod 16); hex_digit (c / 16 mod 16); hex_digit (c mod 16)].

Definition escape (c : Z) : str :=
  if c =? 34 then [92; 34] else if c =? 92 then [92; 92]
  else if c =? 10 then [92; 110] else if c =? 13 then [92; 114] else if c =? 9 then [92; 116]
  else if c =? 12 then [92; 102] else if c =? 8 then [92; 98]
  else if (32 <=? c) && (c <=? 126) then [c]
  else if c <? 65536 then u_escape c
  else let n := c - 65536 in
       u_escape (Z.lor 0xD800 (Z.land (Z.shiftr n 10) 0x3FF)) ++ u_escape (Z.lor 0xDC00 (Z.land n 0x3FF)).

Definition dump_str (s : str) : str := [34] ++ concat (escape <$> s) ++ [34].

(** [",".join] *)
Fixpoint join (l : list str) : str :=
  match l with [] => [] | [s] => s | s :: l => s ++ [44] ++ join l end.

(** [sorted(dct.items())] of distinct keys, which compare by code point *)
Fixpoint str_leb (a b : str) : bool :=
  match a, b with
  | [], _ => true
  | _, [] => false
  | x :: a, y :: b => (x <? y) || ((x =? y) && str_leb a b)
  end.
Fixpoint insert_item {A} (x : str * A) (l : list (str * A)) : list (str * A) :=
  match l with [] => [x] | y :: l => if str_leb x.1 y.1 then x :: y :: l else y :: insert_item x l end.
Definition sort_items {A} (l : list (str * A)) : list (str * A) := foldr insert_item [] l.

Fixpoint dump (v : json) : str :=
  match v with
  | JNull => lit "null"
  | JBool b => if b then lit "true" else lit "false"
  | JInt z => dump_int z
  | JFloat l => l
  | JStr s => dump_str s
  | JList l => [91] ++ join (dump <$> l) ++ [93]
  | JObj ms =>
      let items := sort_items ((λ m, (m.1, dump m.2)) <$> ms) in
      [123] ++ join ((λ m, dump_str m.1 ++ [58] ++ m.2) <$> items) ++ [125]
  end.

(** ** Parsing *)

Definition is_ws (c : Z) : bool := (c =? 32) || (c =? 9) || (c =? 10) || (c =? 13).
Fixpoint skip_ws (s : str) : str :=
  match s with c :: s' => if is_ws c then skip_ws s' else s | [] => [] end.

Definition hex4 (a b c d : Z) : option Z :=
  match hex_value a, hex_value b, hex_value c, hex_value d with
  | Some a, Some b, Some c, Some d => Some (4096 * a + 256 * b + 16 * c + d)
  | _, _, _, _ => None
  end.

Definition unescape (c : Z) : option Z :=
  if c =? 34 then Some 34 else if c =? 92 then Some 92 else if c =? 47 then Some 47
  else if c =? 98 then Some 8 else if c =? 102 then Some 12 else if c =? 110 then Some 10
  else if c =? 114 then Some 13 else if c =? 116 then Some 9 else None.

Definition cons_char (c : Z) (r : option (str * str)) : option (str * str) := (λ p, (c :: p.1, p.2)) <$> r.

Definition join_surrogates (hi lo : Z) : Z := 0x10000 + Z.lor (Z.shiftl (hi - 0xD800) 10) (lo - 0xDC00).

(** after the opening quote: the characters up to the closing one, and what follows *)
Fixpoint scanstring (s : str) : option (str * str) :=
  match s with
  | [] => None
  | q :: s1 =>
      if q =? 34 then Some ([], s1)
      else if q =? 92 then
        match s1 with
        | [] => None
        | e :: s2 =>
            if e =? 117 then
              match s2 with
              | a :: b :: c :: d :: s3 =>
                  match hex4 a b c d with
                  | None => None
                  | Some uni =>
                      match s3 with
                      | bs :: u :: a' :: b' :: c' :: d' :: s4 =>
                          if is_high uni && (bs =? 92) && (u =? 117) then
                            match hex4 a' b' c' d' with
                            | None => None
                            | Some uni2 =>
                                if is_low uni2 then cons_char (join_surrogates uni uni2) (scanstring s4)
                                else cons_char uni (scanstring s3)
                            end
                          else cons_char uni (scanstring s3)
                      | _ => cons_char uni (scanstring s3)
                      end
                  end
              | _ => None
              end
            else match unescape e with Some c => cons_char c (scanstring s2) | None => None end
        end
      else if q <? 32 then None else cons_char q (scanstring s1)
  end.

Definition is_digit (c : Z) : bool := (48 <=? c) && (c <=? 57).

(** the longest run of digits, and what follows *)
Fixpoint digits (s : str) : str * str :=
  match s with
  | c :: s' => if is_digit c then let r := digits s' in (c :: r.1, r.2) else ([], s)
  | [] => ([], [])
  end.

Definition dec_val (s : str) : Z := foldl (λ a c, 10 * a + (c - 48)) 0 s.

(** the parts of a number, each with what follows it *)
Definition take_minus (s : str) : str * str := match s with c :: s' => if c =? 45 then ([c], s') else ([], s) | [] => ([], []) end.
Definition take_int (s : str) : option (str * str) :=
  match s with
  | c :: s' => if c =? 48 then Some ([c], s') else if is_digit c then Some (digits s) else None
  | [] => None
  end.
Definition take_frac (s : str) : str * str :=
  match s with
  | p :: s' => if p =? 46 then match digits s' with ([], _) => ([], s) | (ds, r) => (p :: ds, r) end else ([], s)
  | [] => ([], [])
  end.
Definition take_sign (s : str) : str * str :=
  match s with c :: s' => if (c =? 45) || (c =? 43) then ([c], s') else ([], s) | [] => ([], []) end.
Definition take_exp (s : str) : str * str :=
  match s with
  | e :: s' =>
      if (e =? 101) || (e =? 69) then
        let '(sg, s'') := take_sign s' in
        match digits s'' with ([], _) => ([], s) | (ds, r) => (e :: sg ++ ds, r) end
      else ([], s)
  | [] => ([], [])
  end.

Definition signed_val (sg ds : str) : Z := match sg with [] => dec_val ds | _ => - dec_val ds end.

Definition number (s : str) : option (json * str) :=
  let '(sg, s1) := take_minus s in
  match take_int s1 with
  | None => None
  | Some (ip, s2) =>
      let '(frac, s3) := take_frac s2 in
      let '(ex, s4) := take_exp s3 in
      Some (match frac, ex with
            | [], [] => JInt (signed_val sg ip)
            | _, _ => JFloat (sg ++ ip ++ frac ++ ex)
            end, s4)
  end.

(** what follows a prefix *)
Fixpoint after (p s : str) : option str :=
  match p, s with
  | [], _ => Some s
  | c :: p, d :: s => if c =? d then after p s else None
  | _, [] => None
  end.

Definition constants : list (str * json) :=
  [(lit "null", JNull); (lit "true", JBool true); (lit "false", JBool false); (lit "NaN", JFloat (lit "NaN"));
   (lit "Infinity", JFloat (lit "Infinity")); (lit "-Infinity", JFloat (lit "-Infinity"))].
Fixpoint constant (cs : list (str * json)) (s : str) : option (json * str) :=
  match cs with
  | [] => None
  | (p, v) :: cs => match after p s with Some r => Some (v, r) | None => constant cs s end
  end.

Definition scalar (s : str) : option (json * str) :=
  match constant constants s with Some r => Some r | None => number s end.

(** [fuel] bounds the nesting of calls; [value], [elements] and [members] are entered
    at a value, at an element of a list and at a member of an object *)
Fixpoint value (fuel : nat) (s : str) {struct fuel} : option (json * str) :=
  match fuel with
  | O => None
  | S fuel =>
      match s with
      | [] => None
      | c :: s' =>
          if c =? 34 then (λ r, (JStr r.1, r.2)) <$> scanstring s'
          else if c =? 123 then
            match skip_ws s' with
            | c' :: r => if c' =? 125 then Some (JObj [], r) else members fuel [] (c' :: r)
            | [] => None
            end
          else if c =? 91 then
            match skip_ws s' with
            | c' :: r => if c' =? 93 then Some (JList [], r) else elements fuel [] (c' :: r)
            | [] => None
            end
          else scalar s
      end
  end
with elements (fuel : nat) (acc : list json) (s : str) {struct fuel} : option (json * str) :=
  match fuel with
  | O => None
  | S fuel =>
      match value fuel s with
      | None => None
      | Some (v, s) =>
          match skip_ws s with
          | c :: r =>
              if c =? 93 then Some (JList (acc ++ [v]), r)
              else if c =? 44 then elements fuel (acc ++ [v]) (skip_ws r)
              else None
          | [] => None
          end
      end
  end
with members (fuel : nat) (acc : list (str * json)) (s : str) {struct fuel} : option (json * str) :=
  match fuel with
  | O => None
  | S fuel =>
      match s with
      | q :: s =>
          if q =? 34 then
            match scanstring s with
            | None => None
            | Some (k, s) =>
                match skip_ws s with
                | c :: s =>
                    if c =? 58 then
                      match value fuel (skip_ws s) with
                      | None => None
                      | Some (v, s) =>
                          match skip_ws s with
                          | c :: r =>
                              if c =? 125 then Some (JObj (dset acc k v), r)
                              else if c =? 44 then members fuel (dset acc k v) (skip_ws r)
                              else None
                          | [] => None
                          end
                      end
                    else None
                | [] => None
                end
            end
          else None
      | [] => None
      end
  end.

Definition parse_fuel (s : str) : nat := (2 * length s + 2)%nat.

(** a byte order mark and characters after the value are refused *)
Definition loads_str (s : str) : option json :=
  match s with
  | c :: _ =>
      if c =? 0xFEFF then None
      else match value (parse_fuel s) (skip_ws s) with
           | Some (v, r) => match skip_ws r with [] => Some v | _ => None end
           | None => None
           end
  | [] => None
  end.


(** ** Well-formed values

    Strings of Unicode characters, objects without repeated keys, floats given by a
    literal JSON reads as a float. *)

Definition is_ascii (c : Z) : bool := (32 <=? c) && (c <=? 126).
Definition float_ok (l : str) : bool :=
  forallb is_ascii l && match scalar l with Some (JFloat l', []) => bool_decide (l' = l) | _ => false end.

Fixpoint jwf (v : json) : bool :=
  match v with
  | JFloat l => float_ok l
  | JStr s => str_ok s
  | JList l => forallb jwf l
  | JObj ms => bool_decide (NoDup ms.*1) && forallb (λ m, str_ok m.1 && jwf m.2) ms
  | _ => true
  end.

(** keys in order, at every level *)
Fixpoint norm (v : json) : json :=
  match v with
  | JList l => JList (norm <$> l)
  | JObj ms => JObj (sort_items ((λ m, (m.1, norm m.2)) <$> ms))
  | _ => v
  end.

(** ** Sorting *)

Lemma insert_item_perm {A} (x : str * A) l : insert_item x l ≡ₚ x :: l.
Proof. induction l as [|y l IH]; [done|]. cbn [insert_item]. case_match; [done|]. rewrite IH. apply Permutation_swap. Qed.

Lemma sort_items_perm {A} (l : list (str * A)) : sort_items l ≡ₚ l.
Proof. induction l as [|x l IH]; [done|]. cbn [sort_items foldr]. by rewrite insert_item_perm, IH. Qed.

Lemma sort_items_fmap {A B} (f : A → B) (l : list (str * A)) :
  sort_items ((λ m, (m.1, f m.2)) <$> l) = (λ m, (m.1, f m.2)) <$> sort_items l.
Proof.
  assert (∀ x (l : list (str * A)), insert_item (x.1, f x.2) ((λ m, (m.1, f m.2)) <$> l) = (λ m, (m.1, f m.2)) <$> insert_item x l) as H.
  { intros x l'. induction l' as [|y l' IH]; [done|]. cbn [insert_item fmap list_fmap fst]. case_match; [done|].
    cbn [fmap list_fmap]. f_equal. exact IH. }
  induction l as [|x l IH]; [done|]. cbn [fmap list_fmap sort_items foldr]. etrans; [apply (f_equal (insert_item _)); exact IH|apply H].
Qed.

(** ** Fuel *)

Lemma skip_ws_length s : (length (skip_ws s) <= length s)%nat.
Proof. induction s as [|c s IH]; [done|]. cbn [skip_ws]. case_match; cbn [length]; lia. Qed.

Lemma cons_char_Some c r x : cons_char c r = Some x → ∃ y, r = Some y ∧ x = (c :: y.1, y.2).
Proof. unfold cons_char. destruct r as [y|]; cbn; [|done]. intros [= <-]. by exists y. Qed.

Lemma scanstring_length : ∀ s k r, scanstring s = Some (k, r) → (length r < length s)%nat.
Proof.
  intros s. induction s as [s IH] using (well_founded_induction (Wf_nat.well_founded_ltof _ length)). intros k r.
  assert (∀ c s', (length s' < length s)%nat → cons_char c (scanstring s') = Some (k, r) → (length r < length s)%nat) as H.
  { intros c s' Hl ((k' & r') & E & [= -> ->])%cons_char_Some. apply IH in E; [cbn in *; lia|done]. }
  destruct s as [|q s1]; [done|]. cbn [scanstring].
  repeat (case_match; subst; try done; try (apply H; cbn [length]; lia)). intros [= <- <-]. cbn. lia.
Qed.

Lemma digits_app s : s = (digits s).1 ++ (digits s).2.
Proof. induction s as [|c s IH]; [done|]. cbn [digits]. case_match; [|done]. cbn [fst snd app]. by f_equal. Qed.

Lemma digits_length s : (length (digits s).2 <= length s)%nat.
Proof. pose proof (digits_app s) as E. apply (f_equal length) in E. rewrite length_app in E. lia. Qed.

Lemma take_exp_length s : (length (take_exp s).2 <= length s)%nat.
Proof.
  destruct s as [|e s]; [done|]. cbn [take_exp]. case_match; [|done].
  assert (length (take_sign s).2 <= length s)%nat as Hs by (destruct s as [|c s]; [done|]; cbn [take_sign]; case_match; cbn; lia).
  destruct (take_sign s) as [sg s'']. pose proof (digits_length s''). destruct (digits s'') as [[|d ds] r]; cbn in *; lia.
Qed.

Lemma take_frac_length s : (length (take_frac s).2 <= length s)%nat.
Proof.
  destruct s as [|p s]; [done|]. cbn [take_frac]. case_match; [|done].
  pose proof (digits_length s). destruct (digits s) as [[|d ds] r]; cbn in *; lia.
Qed.

Lemma number_length s v r : number s = Some (v, r) → (length r < length s)%nat.
Proof.
  unfold number. assert (length (take_minus s).2 <= length s)%nat as H1 by (destruct s as [|c s]; [done|]; cbn [take_minus]; case_match; cbn; lia).
  destruct (take_minus s) as [sg s1]. cbn [snd] in H1. destruct (take_int s1) as [[ip s2]|] eqn:Ei; [|done].
  assert (length s2 < length s1)%nat as H2.
  { destruct s1 as [|c s1]; [done|]. cbn [take_int] in Ei. case_match; [by simplify_eq; cbn; lia|]. case_match; [|done].
    injection Ei as E. pose proof (digits_length s1). cbn [digits] in E. rewrite H0 in E. injection E as <- <-. cbn. lia. }
  pose proof (take_frac_length s2). destruct (take_frac s2) as [frac s3]. pose proof (take_exp_length s3).
  destruct (take_exp s3) as [ex s4]. cbn [snd] in *. intros [= _ <-]. lia.
Qed.

Lemma after_length p s r : after p s = Some r → (length r + length p = length s)%nat.
Proof.
  revert s. induction p as [|c p IH]; intros s; cbn [after]; [intros [= ->]; cbn; lia|].
  destruct s as [|d s]; [done|]. case_match; [|done]. intros E%IH. cbn. lia.
Qed.

Lemma scalar_length s v r : scalar s = Some (v, r) → (length r < length s)%nat.
Proof.
  unfold scalar. destruct (constant constants s) as [[v' r']|] eqn:E; [intros [= <- <-]|apply number_length].
  revert E. unfold constants. cbn [constant].
  repeat (case_match; [match goal with H : after _ _ = Some _ |- _ => apply after_length in H; cbn [length lit] in H end; intros [= <- <-]; cbn in *; lia|]).
  done.
Qed.

Lemma value_length f :
  (∀ s v r, value f s = Some (v, r) → (length r < length s)%nat) ∧
  (∀ acc s v r, elements f acc s = Some (v, r) → (length r < length s)%nat) ∧
  (∀ acc s v r, members f acc s = Some (v, r) → (length r < length s)%nat).
Proof.
  induction f as [|f (IHv & IHe & IHm)]; [done|]. split_and!.
  - intros [|c s] v r; [done|]. cbn [value]. pose proof (skip_ws_length s). case_match.
    { destruct (scanstring s) as [[k r']|] eqn:E; [|done]. apply scanstring_length in E. intros [= <- <-]. cbn. lia. }
    case_match.
    { destruct (skip_ws s) as [|c' t]; [done|]. cbn [length] in *. case_match; [intros [= <- <-]; lia|]. intros E%IHm. cbn in *. lia. }
    case_match.
    { destruct (skip_ws s) as [|c' t]; [done|]. cbn [length] in *. case_match; [intros [= <- <-]; lia|]. intros E%IHe. cbn in *. lia. }
    apply scalar_length.
  - intros acc s v r. cbn [elements]. destruct (value f s) as [[v1 s1]|] eqn:E1; [|done]. apply IHv in E1.
    pose proof (skip_ws_length s1). destruct (skip_ws s1) as [|c t]; [done|]. cbn [length] in *.
    case_match; [intros [= <- <-]; lia|]. case_match; [|done]. intros E%IHe. pose proof (skip_ws_length t). lia.
  - intros acc [|q s] v r; [done|]. cbn [members]. case_match; [|done]. destruct (scanstring s) as [[k s1]|] eqn:E1; [|done].
    apply scanstring_length in E1. pose proof (skip_ws_length s1). destruct (skip_ws s1) as [|c1 t1]; [done|]. cbn [length] in *.
    case_match; [|done]. pose proof (skip_ws_length t1). destruct (value f (skip_ws t1)) as [[v2 s2]|] eqn:E2; [|done]. apply IHv in E2.
    pose proof (skip_ws_length s2). destruct (skip_ws s2) as [|c2 t2]; [done|]. cbn [length] in *.
    case_match; [intros [= <- <-]; lia|]. case_match; [|done]. intros E%IHm. pose proof (skip_ws_length t2). lia.
Qed.

Lemma value_shorter f s v r : value f s = Some (v, r) → (length r < length s)%nat.
Proof. apply value_length. Qed.

(** beyond twice the length, fuel makes no difference *)
Lemma value_fuel f :
  (∀ g s, (2 * length s + 1 <= f)%nat → (f <= g)%nat → value f s = value g s) ∧
  (∀ g acc s, (2 * length s + 2 <= f)%nat → (f <= g)%nat → elements f acc s = elements g acc s) ∧
  (∀ g acc s, (2 * length s + 2 <= f)%nat → (f <= g)%nat → members f acc s = members g acc s).
Proof.
  induction f as [|f (IHv & IHe & IHm)]; [split_and!; intros; lia|]. split_and!.
  - intros [|g] s Hf Hg; [lia|]. destruct s as [|c s]; [done|]. cbn [value length] in *. pose proof (skip_ws_length s).
    case_match; [done|]. case_match; [|case_match; [|done]].
    + destruct (skip_ws s) as [|c' t]; [done|]. cbn [length] in *. case_match; [done|]. apply IHm; cbn [length]; lia.
    + destruct (skip_ws s) as [|c' t]; [done|]. cbn [length] in *. case_match; [done|]. apply IHe; cbn [length]; lia.
  - intros [|g] acc s Hf Hg; [lia|]. cbn [elements]. rewrite <-(IHv g s) by lia.
    destruct (value f s) as [[v1 s1]|] eqn:E1; [|done]. apply value_shorter in E1.
    pose proof (skip_ws_length s1). destruct (skip_ws s1) as [|c t]; [done|]. cbn [length] in *.
    case_match; [done|]. case_match; [|done]. pose proof (skip_ws_length t). apply IHe; lia.
  - intros [|g] acc [|q s] Hf Hg; [done|lia|done|]. cbn [members length] in *. case_match; [|done].
    destruct (scanstring s) as [[k s1]|] eqn:E1; [|done].
    apply scanstring_length in E1. pose proof (skip_ws_length s1). destruct (skip_ws s1) as [|c1 t1]; [done|]. cbn [length] in *.
    case_match; [|done]. pose proof (skip_ws_length t1). rewrite <-(IHv g) by lia.
    destruct (value f (skip_ws t1)) as [[v2 s2]|] eqn:E2; [|done]. apply value_shorter in E2.
    pose proof (skip_ws_length s2). destruct (skip_ws s2) as [|c2 t2]; [done|]. cbn [length] in *.
    case_match; [done|]. case_match; [|done]. pose proof (skip_ws_length t2). apply IHm; lia.
Qed.

(** a parse that succeeds with some fuel succeeds with more *)
Lemma value_mono f :
  (∀ g s x, (f <= g)%nat → value f s = Some x → value g s = Some x) ∧
  (∀ g acc s x, (f <= g)%nat → elements f acc s = Some x → elements g acc s = Some x) ∧
  (∀ g acc s x, (f <= g)%nat → members f acc s = Some x → members g acc s = Some x).
Proof.
  induction f as [|f (IHv & IHe & IHm)]; [done|]. split_and!.
  - intros [|g] s x Hg; [lia|]. cbn [value]. repeat (case_match; try done); [apply IHm|apply IHe]; lia.
  - intros [|g] acc s x Hg; [lia|]. cbn [elements]. destruct (value f s) as [[v1 s1]|] eqn:E1; [|done].
    rewrite (IHv g s _ ltac:(lia) E1). repeat (case_match; try done). apply IHe; lia.
  - intros [|g] acc s x Hg; [lia|]. cbn [members]. case_match; [done|]. case_match; [|done]. case_match; [|done]. case_match.
    case_match; [done|]. case_match; [|done]. destruct (value f _) as [[v' s']|] eqn:E1; [|done].
    rewrite (IHv g _ _ ltac:(lia) E1). repeat (case_match; try done). apply IHm; lia.
Qed.

Definition reads (s : str) (v : json) (r : str) : Prop := ∃ f, value f s = Some (v, r).

Lemma reads_value s v r f : reads s v r → (2 * length s + 1 <= f)%nat → value f s = Some (v, r).
Proof.
  intros [g Hg] Hf. rewrite (proj1 (value_fuel f) (Nat.max f g)) by lia. by apply (proj1 (value_mono g) (Nat.max f g)); [lia|].
Qed.

(** ** Strings *)

Lemma hex4_escape c : 0 <= c < 65536 →
  hex4 (hex_digit (c / 4096 mod 16)) (hex_digit (c / 256 mod 16)) (hex_digit (c / 16 mod 16)) (hex_digit (c mod 16)) = Some c.
Proof.
  intros H. unfold hex4. assert (∀ z, 0 <= z mod 16 < 16) as Hm by (intros; apply Z.mod_pos_bound; lia).
  rewrite !hex_value_digit by apply Hm. f_equal.
  assert (c / 256 = c / 16 / 16 ∧ c / 4096 = c / 16 / 16 / 16) as [-> ->] by (rewrite !Zdiv_Zdiv by lia; done).
  pose proof (Z.div_mod c 16 ltac:(lia)). pose proof (Z.div_mod (c / 16) 16 ltac:(lia)). pose proof (Z.div_mod (c / 16 / 16) 16 ltac:(lia)).
  assert (0 <= c / 16 / 16 / 16 < 16) by (rewrite !Zdiv_Zdiv by lia; split; [apply Z.div_pos|apply Z.div_lt_upper_bound]; lia).
  rewrite (Z.mod_small (c / 16 / 16 / 16) 16) by lia. lia.
Qed.

Lemma scan_u_escape c t : 0 <= c < 65536 → is_high c = false → scanstring (u_escape c ++ t) = cons_char c (scanstring t).
Proof.
  intros Hc Hh. unfold u_escape. cbn [app scanstring Z.eqb Pos.eqb]. rewrite hex4_escape by done. rewrite Hh.
  repeat (case_match; try done).
Qed.

Lemma surrogates c : 65536 <= c < 0x110000 →
  let hi := Z.lor 0xD800 (Z.land (Z.shiftr (c - 65536) 10) 0x3FF) in
  let lo := Z.lor 0xDC00 (Z.land (c - 65536) 0x3FF) in
  0 <= hi < 65536 ∧ 0 <= lo < 65536 ∧ is_high hi = true ∧ is_low lo = true ∧ join_surrogates hi lo = c.
Proof.
  intros H. set (n := c - 65536). assert (0 <= n < 2 ^ 20) as Hn by (unfold n; lia).
  change 0x3FF with (Z.ones 10). rewrite !Z.land_ones, Z.shiftr_div_pow2 by lia.
  assert (0 <= n / 2 ^ 10 < 2 ^ 10) as Hq by (split; [apply Z.div_pos; lia|apply Z.div_lt_upper_bound; lia]).
  rewrite (Z.mod_small (n / 2 ^ 10)) by lia. pose proof (Z.mod_pos_bound n (2 ^ 10) ltac:(lia)) as Hr.
  assert (∀ a x, 0 <= x < 2 ^ 10 → Z.lor (a * 2 ^ 10) x = a * 2 ^ 10 + x) as Hlor.
  { intros a x Hx. rewrite <-(Z.shiftl_mul_pow2 a) by lia. rewrite <-Z.add_nocarry_lor; [done|].
    apply Z.bits_inj'. intros i Hi. rewrite Z.land_spec, Z.bits_0, Z.shiftl_spec by lia.
    destruct (decide (i < 10)); [rewrite Z.testbit_neg_r by lia; done|].
    rewrite (Z.bits_above_log2 x), andb_false_r; [done|lia|]. destruct (decide (x = 0)) as [->|]; [cbn; lia|].
    apply Z.log2_lt_pow2; [lia|]. eapply Z.lt_le_trans; [apply Hx|]. apply Z.pow_le_mono_r; lia. }
  change 0xD800 with (54 * 2 ^ 10). change 0xDC00 with (55 * 2 ^ 10). rewrite !Hlor by lia.
  cbv zeta. unfold is_high, is_low, join_surrogates. pose proof (Z.div_mod n (2 ^ 10) ltac:(lia)).
  split_and!; [lia|lia|lia|lia|lia|lia|].
  replace (54 * 2 ^ 10 + n / 2 ^ 10 - 0xD800) with (n / 2 ^ 10) by lia.
  replace (55 * 2 ^ 10 + n mod 2 ^ 10 - 0xDC00) with (n mod 2 ^ 10) by lia.
  rewrite Z.shiftl_mul_pow2, Hlor by lia. unfold n in *. lia.
Qed.

Lemma scan_escape c t : is_char c = true → scanstring (escape c ++ t) = cons_char c (scanstring t).
Proof.
  unfold is_char. intros Hc. unfold escape.
  repeat (case_match; [by (match goal with H : (c =? _) = true |- _ => apply Z.eqb_eq in H as -> end)|]).
  case_match. { cbn [app scanstring]. repeat match goal with H : (c =? _) = false |- _ => rewrite H; clear H end. by replace (c <? 32) with false by lia. }
  case_match; [apply scan_u_escape; [lia|destruct (is_high c); lia]|].
  destruct (surrogates c) as (Hr1 & Hr2 & Hh & Hl & Hj); [lia|]. cbv zeta in *. revert Hr1 Hr2 Hh Hl Hj.
  generalize (Z.lor 0xD800 (Z.land (Z.shiftr (c - 65536) 10) 0x3FF)) (Z.lor 0xDC00 (Z.land (c - 65536) 0x3FF)).
  intros hi lo Hr1 Hr2 Hh Hl Hj. rewrite <-app_assoc. unfold u_escape at 1. cbn [app scanstring Z.eqb Pos.eqb].
  rewrite hex4_escape by done. unfold u_escape. cbn [app]. rewrite Hh. cbn [andb Z.eqb Pos.eqb]. by rewrite hex4_escape, Hl, Hj by done.
Qed.

Lemma scan_dump s t : str_ok s = true → scanstring (concat (escape <$> s) ++ 34 :: t) = Some (s, t).
Proof.
  unfold str_ok. induction s as [|c s IH]; [done|]. cbn [forallb]. intros [Hc Hs]%andb_prop. cbn [fmap list_fmap concat].
  rewrite <-app_assoc, scan_escape by done. unfold cons_char. etrans; [apply (f_equal (fmap _)); by apply IH|done].
Qed.

(** ** Numbers *)

Definition ends (rest : str) : bool :=
  match rest with [] => true | c :: _ => (c =? 44) || (c =? 93) || (c =? 125) end.

Lemma digits_ends s rest : ends rest = true → digits (s ++ rest) = ((digits s).1, (digits s).2 ++ rest).
Proof.
  intros He. induction s as [|c s IH]; cbn [app].
  - destruct rest as [|c rest]; [done|]. cbn [digits ends] in *. unfold is_digit. by replace (_ && _) with false by lia.
  - cbn [digits]. case_match; [|done]. by rewrite IH.
Qed.

Lemma take_frac_ends s rest : ends rest = true → take_frac (s ++ rest) = ((take_frac s).1, (take_frac s).2 ++ rest).
Proof.
  intros He. destruct s as [|p s]; cbn [app].
  - destruct rest as [|c rest]; [done|]. cbn [take_frac ends] in *. by replace (c =? 46) with false by lia.
  - cbn [take_frac]. case_match; [|done]. rewrite digits_ends by done. by destruct (digits s) as [[|d ds] r].
Qed.

Lemma take_sign_ends s rest : ends rest = true → take_sign (s ++ rest) = ((take_sign s).1, (take_sign s).2 ++ rest).
Proof.
  intros He. destruct s as [|p s]; cbn [app].
  - destruct rest as [|c rest]; [done|]. cbn [take_sign ends] in *. by replace (_ || _) with false by lia.
  - cbn [take_sign]. by case_match.
Qed.

Lemma take_exp_ends s rest : ends rest = true → take_exp (s ++ rest) = ((take_exp s).1, (take_exp s).2 ++ rest).
Proof.
  intros He. destruct s as [|p s]; cbn [app].
  - destruct rest as [|c rest]; [done|]. cbn [take_exp ends] in *. by replace (_ || _) with false by lia.
  - cbn [take_exp]. case_match; [|done]. rewrite take_sign_ends by done. destruct (take_sign s) as [sg s']. cbn [fst snd].
    rewrite digits_ends by done. by destruct (digits s') as [[|d ds] r].
Qed.

Lemma number_ends s v r rest : ends rest = true → number s = Some (v, r) → number (s ++ rest) = Some (v, r ++ rest).
Proof.
  intros He. unfold number. destruct s as [|c s]; [done|].
  assert (take_minus ((c :: s) ++ rest) = ((take_minus (c :: s)).1, (take_minus (c :: s)).2 ++ rest)) as -> by (cbn [app take_minus]; by case_match).
  destruct (take_minus (c :: s)) as [sg s1]. cbn [fst snd]. destruct (take_int s1) as [[ip s2]|] eqn:Ei; [|done].
  assert (take_int (s1 ++ rest) = Some (ip, s2 ++ rest)) as ->.
  { destruct s1 as [|d s1]; [done|]. cbn [app take_int] in *. case_match; [by simplify_eq|]. case_match; [|done].
    assert (digits (d :: s1) = (ip, s2)) as Ed by congruence. change (d :: s1 ++ rest) with ((d :: s1) ++ rest). by rewrite digits_ends, Ed by done. }
  rewrite take_frac_ends by done. destruct (take_frac s2) as [frac s3]. cbn [fst snd].
  rewrite take_exp_ends by done. destruct (take_exp s3) as [ex s4]. cbn [fst snd]. by intros [= <- <-].
Qed.

Lemma after_app p s r rest : after p s = Some r → after p (s ++ rest) = Some (r ++ rest).
Proof.
  revert s. induction p as [|c p IH]; intros s; cbn [after]; [by intros [= ->]|]. destruct s as [|d s]; [done|]. cbn [app].
  case_match; [|done]. apply IH.
Qed.

Lemma after_prefix p s r : after p s = Some r ↔ s = p ++ r.
Proof.
  revert s. induction p as [|c p IH]; intros s; cbn [after app]; [by split; [intros [= ->]|intros ->]|].
  destruct s as [|d s]; [done|]. destruct (Z.eqb_spec c d) as [->|]; [rewrite IH|]; by split; [intros|intros [=]]; subst.
Qed.

Lemma after_ends p s rest : forallb (λ c, negb ((c =? 44) || (c =? 93) || (c =? 125))) p = true → ends rest = true →
  after p s = None → after p (s ++ rest) = None.
Proof.
  intros Hp He. revert s Hp. induction p as [|c p IH]; intros s; [done|]. cbn [forallb after]. intros [Hc Hp]%andb_prop.
  destruct s as [|d s]; cbn [app].
  - destruct rest as [|d rest]; [done|]. cbn [ends] in He. by replace (c =? d) with false by lia.
  - case_match; [by apply IH|done].
Qed.

Lemma scalar_ends s v r rest : ends rest = true → scalar s = Some (v, r) → scalar (s ++ rest) = Some (v, r ++ rest).
Proof.
  intros He. unfold scalar. assert (∀ cs, forallb (λ m, forallb (λ c, negb ((c =? 44) || (c =? 93) || (c =? 125))) m.1) cs = true →
    constant cs (s ++ rest) = (λ x, (x.1, x.2 ++ rest)) <$> constant cs s) as Hc.
  { induction cs as [|[p x] cs IH]; [done|]. cbn [forallb constant fst]. intros [Hp Hcs]%andb_prop.
    destruct (after p s) as [t|] eqn:E; [by rewrite (after_app _ _ _ _ E)|]. rewrite after_ends by done. by apply IH. }
  rewrite Hc by (vm_compute; reflexivity). destruct (constant constants s) as [[v' r']|]; cbn; [by intros [= <- <-]|by apply number_ends].
Qed.

Lemma digits_all ds : forallb is_digit ds = true → digits ds = (ds, []).
Proof. induction ds as [|c ds IH]; [done|]. cbn [forallb digits]. intros [-> H]%andb_prop. by rewrite IH. Qed.

Lemma dec_val_snoc s c : dec_val (s ++ [c]) = 10 * dec_val s + (c - 48).
Proof. unfold dec_val. by rewrite foldl_app. Qed.

Lemma dec_digits_spec fuel : ∀ n, 0 <= n < 10 ^ (Z.of_nat fuel + 1) →
  forallb is_digit (dec_digits fuel n) = true ∧ dec_val (dec_digits fuel n) = n ∧
  ∃ c t, dec_digits fuel n = c :: t ∧ 48 <= c ∧ (c = 48 → n = 0 ∧ t = []).
Proof.
  assert (∀ d, 0 <= d < 10 → is_digit (48 + d) = true) as Hd by (unfold is_digit; intros; lia).
  induction fuel as [|fuel IH]; intros n Hn; cbn [dec_digits].
  - replace (10 ^ _) with 10 in Hn by done. rewrite Z.mod_small by lia. cbn [forallb]. rewrite Hd by lia. unfold dec_val. cbn [foldl].
    split_and!; [done|lia|]. exists (48 + n), []. split_and!; [done|lia|]. split; [lia|done].
  - case_match.
    { cbn [forallb]. rewrite Hd by lia. unfold dec_val. cbn [foldl].
      split_and!; [done|lia|]. exists (48 + n), []. split_and!; [done|lia|]. split; [lia|done]. }
    pose proof (Z.mod_pos_bound n 10 ltac:(lia)). pose proof (Z.div_mod n 10 ltac:(lia)).
    destruct (IH (n / 10)) as (Hdig & Hval & c & t & Hct & Hc & Hz0).
    { split; [apply Z.div_pos; lia|]. apply Z.div_lt_upper_bound; [lia|]. rewrite <-Z.pow_succ_r by lia.
      replace (Z.succ (Z.of_nat fuel + 1)) with (Z.of_nat (S fuel) + 1) by lia. apply Hn. }
    rewrite forallb_app, Hdig, dec_val_snoc, Hval. cbn [forallb]. rewrite Hd by lia. split_and!; [done|lia|].
    exists c, (t ++ [48 + n mod 10]). rewrite Hct. split_and!; [done|done|]. intros Hz. apply Hz0 in Hz. lia.
Qed.

Lemma to_dec_spec n : 0 <= n →
  forallb is_digit (to_dec n) = true ∧ dec_val (to_dec n) = n ∧ ∃ c t, to_dec n = c :: t ∧ 48 <= c ∧ (c = 48 → n = 0 ∧ t = []).
Proof.
  intros Hn. apply dec_digits_spec. split; [done|]. destruct (decide (n = 0)) as [->|Hz]; [by compute|].
  pose proof (Z.log2_nonneg n). rewrite Z2Nat.id by lia. pose proof (Z.log2_spec n ltac:(lia)) as [_ H2].
  eapply Z.lt_le_trans; [exact H2|]. rewrite Z.add_1_r. apply Z.pow_le_mono_l. lia.
Qed.

Lemma take_int_dec n : 0 <= n → take_int (to_dec n) = Some (to_dec n, []).
Proof.
  intros Hn. destruct (to_dec_spec n Hn) as (Hd & _ & c & t & E & Hc & H0). rewrite E in *. cbn [take_int].
  destruct (Z.eqb_spec c 48) as [->|]; [by destruct (H0 eq_refl) as [_ ->]|].
  pose proof Hd as Hd'. cbn [forallb] in Hd'. apply andb_prop in Hd' as [-> _]. by rewrite digits_all.
Qed.

Lemma number_dump z : number (dump_int z) = Some (JInt z, []).
Proof.
  unfold dump_int, number. destruct (z <? 0) eqn:Hz.
  - change (take_minus (45 :: to_dec (- z))) with ([45], to_dec (- z)). cbv iota beta. rewrite take_int_dec by lia. cbn. unfold signed_val.
    destruct (to_dec_spec (- z)) as (_ & -> & _); [lia|]. by rewrite Z.opp_involutive.
  - destruct (to_dec_spec z) as (Hd & Hv & c & t & E & _ & _); [lia|].
    assert (take_minus (to_dec z) = ([], to_dec z)) as ->.
    { rewrite E in *. cbn [forallb take_minus] in *. unfold is_digit in *. by replace (c =? 45) with false by lia. }
    rewrite take_int_dec by lia. cbn. by rewrite Hv.
Qed.

(** ** Round trip *)

Lemma constant_letters s : forallb (λ c, c <=? 57) s = true → constant constants s = None.
Proof.
  intros Hs. assert (∀ p, existsb (λ c, 57 <? c) p = true → after p s = None) as H.
  { intros p Hp. destruct (after p s) as [r|] eqn:E; [|done]. apply after_prefix in E as ->.
    rewrite forallb_app in Hs. apply andb_prop in Hs as [Hs _]. apply existsb_exists in Hp as (c & Hin & Hc).
    rewrite forallb_forall in Hs. specialize (Hs c Hin). lia. }
  unfold constants. cbn [constant]. by rewrite !H by (vm_compute; reflexivity).
Qed.

Lemma scalar_int z : scalar (dump_int z) = Some (JInt z, []).
Proof.
  unfold scalar. rewrite constant_letters; [apply number_dump|].
  assert (∀ n, 0 <= n → forallb (λ c, c <=? 57) (to_dec n) = true) as H.
  { intros n Hn. destruct (to_dec_spec n Hn) as (Hd & _). rewrite forallb_forall in *. intros c Hc. specialize (Hd c Hc). unfold is_digit in Hd. lia. }
  unfold dump_int. case_match; [cbn [forallb]; rewrite H by lia; done|apply H; lia].
Qed.

Definition scalar_start (c : Z) : bool :=
  (c =? 45) || is_digit c || (c =? 73) || (c =? 78) || (c =? 102) || (c =? 110) || (c =? 116).

Lemma scalar_head s x : scalar s = Some x → ∃ c t, s = c :: t ∧ scalar_start c = true.
Proof.
  unfold scalar. destruct (constant constants s) as [y|] eqn:E.
  - intros _. assert (∃ p r, p ∈ constants.*1 ∧ s = p ++ r) as (p & r & Hp & ->).
    { revert E. generalize constants. induction l as [|[p v] l IH]; [done|]. cbn [constant].
      destruct (after p s) as [r|] eqn:Ea; [intros _; exists p, r; split; [left|by apply after_prefix]|].
      intros H. destruct (IH H) as (p' & r & Hp & ->). exists p', r. split; [by right|done]. }
    change (constants.*1) with [lit "null"; lit "true"; lit "false"; lit "NaN"; lit "Infinity"; lit "-Infinity"] in Hp.
    rewrite !elem_of_cons, elem_of_nil in Hp. destruct_or! Hp; subst; try done; by eexists _, _.
  - unfold number. destruct s as [|c s]; [done|]. intros H. exists c, s. split; [done|]. unfold scalar_start.
    revert H. cbn [take_minus]. destruct (Z.eqb_spec c 45) as [->|]; [done|]. cbn [take_int].
    destruct (Z.eqb_spec c 48) as [->|]; [done|]. by destruct (is_digit c).
Qed.

Lemma reads_scalar s v rest : ends rest = true → scalar s = Some (v, []) → reads (s ++ rest) v rest.
Proof.
  intros He Hs. exists 1%nat. destruct (scalar_head _ _ Hs) as (c & t & -> & Hc). apply (scalar_ends _ _ _ rest He) in Hs.
  unfold scalar_start, is_digit in Hc. cbn [app value] in *.
  replace (c =? 34) with false by lia. replace (c =? 123) with false by lia. by replace (c =? 91) with false by lia.
Qed.

Lemma dump_head v : jwf v = true → ∃ c t, dump v = c :: t ∧ is_ws c = false ∧ c ≠ 93.
Proof.
  assert (∀ s x, scalar s = Some x → ∃ c t, s = c :: t ∧ is_ws c = false ∧ c ≠ 93) as H.
  { intros s x (c & t & -> & Hc)%scalar_head. exists c, t. unfold scalar_start, is_digit, is_ws in *. split_and!; [done|lia|lia]. }
  destruct v as [| b | z | l | s | l | ms]; cbn [dump jwf]; intros Hw.
  - by eexists _, _.
  - destruct b; by eexists _, _.
  - eapply H, scalar_int.
  - unfold float_ok in Hw. apply andb_prop in Hw as [_ Hw]. destruct (scalar l) as [x|] eqn:E; [|done]. by eapply H.
  - by eexists _, _.
  - by eexists _, _.
  - by eexists _, _.
Qed.

Lemma skip_ws_dump v t : jwf v = true → skip_ws (dump v ++ t) = dump v ++ t.
Proof. intros (c & u & -> & Hc & _)%dump_head. cbn [app skip_ws]. by rewrite Hc. Qed.

Lemma join_cons s t l : join (s :: t :: l) = s ++ [44] ++ join (t :: l).
Proof. done. Qed.

Definition printed (v : json) : Prop := jwf v = true → ∀ rest, ends rest = true → reads (dump v ++ rest) (norm v) rest.

Lemma elements_dump l rest : l ≠ [] → Forall printed l → forallb jwf l = true → ∀ acc,
  ∃ f, elements f acc (join (dump <$> l) ++ 93 :: rest) = Some (JList (acc ++ (norm <$> l)), rest).
Proof.
  induction l as [|v [|w l] IH]; intros Hne HF Hw acc; [done|..]; apply Forall_cons in HF as [Hv HF];
    cbn [forallb] in Hw; apply andb_prop in Hw as [Hwv Hwl].
  - destruct (Hv Hwv (93 :: rest) eq_refl) as [f Hf]. exists (S f). cbn [fmap list_fmap join elements]. by rewrite Hf.
  - change (dump <$> v :: w :: l) with (dump v :: dump w :: (dump <$> l)). rewrite join_cons, <-!app_assoc. cbn [app].
    change (dump <$> w :: l) with (dump w :: (dump <$> l)) in IH.
    set (more := join (dump w :: (dump <$> l)) ++ 93 :: rest) in *.
    destruct (Hv Hwv (44 :: more) eq_refl) as [f Hf].
    destruct (IH ltac:(done) HF Hwl (acc ++ [norm v])) as [g Hg].
    exists (S (Nat.max f g)). cbn [elements]. rewrite (proj1 (value_mono f) (Nat.max f g) _ _ ltac:(lia) Hf).
    cbn [skip_ws is_ws Z.eqb Pos.eqb orb].
    assert (skip_ws more = more) as ->.
    { apply andb_prop in Hwl as [Hww _]. destruct (dump_head w Hww) as (c & u & E & Hc & _). unfold more.
      destruct l; cbn [join fmap list_fmap]; rewrite E; cbn [app skip_ws]; by rewrite Hc. }
    apply (proj1 (proj2 (value_mono g)) (Nat.max f g) _ _ _ ltac:(lia)). rewrite Hg. by rewrite <-app_assoc.
Qed.

Definition item (m : str * str) : str := dump_str m.1 ++ [58] ++ m.2.

Lemma members_dump ms rest : ms ≠ [] → NoDup ms.*1 → Forall (λ m, printed m.2) ms →
  forallb (λ m, str_ok m.1 && jwf m.2) ms = true → ∀ acc, (∀ k, k ∈ ms.*1 → k ∉ dkeys acc) →
  ∃ f, members f acc (join (item <$> ((λ m, (m.1, dump m.2)) <$> ms)) ++ 125 :: rest) =
       Some (JObj (acc ++ ((λ m, (m.1, norm m.2)) <$> ms)), rest).
Proof.
  induction ms as [|[k v] ms IH]; intros Hne HN HF Hw acc Hacc; [done|].
  apply Forall_cons in HF as [Hv HF]. cbn [forallb fst snd] in Hw. apply andb_prop in Hw as [[Hk Hwv]%andb_prop Hwl].
  apply NoDup_cons in HN as [Hnk HN]. cbn [fmap list_fmap fst snd] in *.
  assert (dset acc k (norm v) = acc ++ [(k, norm v)]) as Hset.
  { apply dkeys_dset_new, dget_None_dkeys, Hacc. by left. }
  assert (∀ f g more x, (f <= g)%nat → value f (dump v ++ more) = Some (norm v, x) →
    members (S g) acc (item (k, dump v) ++ more) =
    match skip_ws x with
    | c :: r => if c =? 125 then Some (JObj (acc ++ [(k, norm v)]), r)
                else if c =? 44 then members g (acc ++ [(k, norm v)]) (skip_ws r) else None
    | [] => None
    end) as Hstep.
  { intros f g more x Hle Hf. unfold item, dump_str. cbn [fst snd]. rewrite <-!app_assoc. cbn [app members Z.eqb Pos.eqb].
    rewrite scan_dump by done. cbn [skip_ws is_ws Z.eqb Pos.eqb orb]. rewrite skip_ws_dump by done.
    rewrite (proj1 (value_mono f) g _ _ Hle Hf), Hset. done. }
  destruct ms as [|[k' v'] ms].
  - destruct (Hv Hwv (125 :: rest) eq_refl) as [f Hf]. exists (S f). cbn [fmap list_fmap join]. by rewrite (Hstep _ _ _ _ (le_n f) Hf).
  - cbn [fmap list_fmap fst snd] in *. rewrite join_cons, <-!app_assoc. cbn [app].
    set (more := join _ ++ 125 :: rest) in *.
    destruct (Hv Hwv (44 :: more) eq_refl) as [f Hf].
    destruct (IH ltac:(done) HN HF Hwl (acc ++ [(k, norm v)])) as [g Hg].
    { intros k1 Hk1. unfold dkeys. rewrite fmap_app, elem_of_app. cbn [fmap list_fmap fst]. intros [H|H%list_elem_of_singleton].
      - by apply (Hacc k1); [right|].
      - by subst. }
    exists (S (Nat.max f g)). rewrite (Hstep f (Nat.max f g) _ _ ltac:(lia) Hf). cbn [skip_ws is_ws Z.eqb Pos.eqb orb].
    assert (skip_ws more = more) as ->.
    { unfold more. destruct ms; done. }
    apply (proj2 (proj2 (value_mono g)) (Nat.max f g) _ _ _ ltac:(lia)). rewrite Hg. by rewrite <-app_assoc.
Qed.

Lemma dump_printed v : printed v.
Proof.
  induction v as [| b | z | l | s | l HF | ms HF] using json_ind; intros Hw rest He; cbn [dump norm].
  - by apply reads_scalar.
  - destruct b; by apply reads_scalar.
  - apply reads_scalar; [done|apply scalar_int].
  - cbn [jwf] in Hw. unfold float_ok in Hw. apply andb_prop in Hw as [_ Hw]. apply reads_scalar; [done|].
    destruct (scalar l) as [[[] [|]]|] eqn:E; try done. by apply bool_decide_eq_true in Hw as ->.
  - exists 1%nat. unfold dump_str. rewrite <-!app_assoc. cbn [app value Z.eqb Pos.eqb]. by rewrite scan_dump.
  - cbn [jwf] in Hw. destruct l as [|v l]; [by exists 1%nat|]. destruct (elements_dump (v :: l) rest ltac:(done) HF Hw []) as [f Hf].
    exists (S f). rewrite <-!app_assoc. cbn [app value Z.eqb Pos.eqb].
    cbn [forallb] in Hw. apply andb_prop in Hw as [Hwv _]. destruct (dump_head v Hwv) as (c & u & E & Hc & Hn).
    set (text := join _ ++ 93 :: rest) in *. assert (∃ t, text = c :: t) as [t Ht].
    { unfold text. destruct l; cbn [fmap list_fmap join]; rewrite E; by eexists. }
    rewrite Ht in *. cbn [skip_ws]. rewrite Hc. by replace (c =? 93) with false by lia.
  - cbn [jwf] in Hw. apply andb_prop in Hw as [HN%bool_decide_eq_true Hw].
    rewrite !sort_items_fmap. pose proof (sort_items_perm ms) as Hp. set (sorted := sort_items ms) in *.
    destruct sorted as [|m sorted']; [by exists 1%nat|].
    destruct (members_dump (m :: sorted') rest ltac:(done)) with (acc := @nil (str * json)) as [f Hf].
    + by rewrite Hp.
    + by rewrite Hp.
    + rewrite forallb_forall in *. intros x Hx. apply Hw. rewrite <-Hp. done.
    + intros k _. apply not_elem_of_nil.
    + exists (S f). rewrite <-!app_assoc. cbn [app value Z.eqb Pos.eqb].
      change (fmap (λ m0 : str * str, dump_str m0.1 ++ [58] ++ m0.2)) with (fmap item).
      set (text := join _ ++ 125 :: rest) in *. assert (∃ t, text = 34 :: t) as [t Ht].
      { unfold text. destruct sorted'; by eexists. }
      rewrite Ht in *. exact Hf.
Qed.

(** the text is printable ASCII *)

Lemma join_ascii l : Forall (λ s, forallb is_ascii s = true) l → forallb is_ascii (join l) = true.
Proof.
  induction l as [|s [|t l] IH]; intros HF; [done|by apply Forall_cons in HF as [? _]|]. apply Forall_cons in HF as [Hs HF].
  rewrite join_cons, !forallb_app, Hs. cbn [andb forallb is_ascii]. by apply IH.
Qed.

Lemma dec_ascii n : 0 <= n → forallb is_ascii (to_dec n) = true.
Proof.
  intros Hn. destruct (to_dec_spec n Hn) as (Hd & _). rewrite forallb_forall in *. intros c Hc. specialize (Hd c Hc).
  unfold is_digit, is_ascii in *. lia.
Qed.

Lemma escape_ascii c : is_char c = true → forallb is_ascii (escape c) = true.
Proof.
  unfold is_char. intros Hc.
  assert (∀ d, forallb is_ascii (u_escape d) = true) as Hu.
  { intros d. unfold u_escape. assert (∀ z, is_ascii (hex_digit (z mod 16)) = true) as Hh.
    { intros z. destruct (hex_digit_range (z mod 16) (Z.mod_pos_bound z 16 ltac:(lia))); unfold is_ascii; lia. }
    cbn [forallb]. by rewrite !Hh. }
  unfold escape. repeat (case_match; [done|]). case_match; [cbn [forallb]; unfold is_ascii; lia|].
  case_match; [apply Hu|]. by rewrite forallb_app, !Hu.
Qed.

Lemma dump_str_ascii s : str_ok s = true → forallb is_ascii (dump_str s) = true.
Proof.
  unfold dump_str, str_ok. intros Hs. rewrite !forallb_app. cbn [forallb andb is_ascii Z.leb Z.compare Pos.compare Pos.compare_cont]. rewrite andb_true_r.
  induction s as [|c s IH]; [done|]. cbn [forallb] in Hs. apply andb_prop in Hs as [Hc Hs]. cbn [fmap list_fmap concat].
  rewrite forallb_app, escape_ascii by done. by apply IH.
Qed.

Lemma dump_ascii v : jwf v = true → forallb is_ascii (dump v) = true.
Proof.
  induction v as [| b | z | l | s | l HF | ms HF] using json_ind; cbn [dump jwf]; intros Hw.
  - done.
  - by destruct b.
  - unfold dump_int. case_match; [cbn [forallb]; rewrite dec_ascii by lia; done|apply dec_ascii; lia].
  - unfold float_ok in Hw. by apply andb_prop in Hw as [? _].
  - by apply dump_str_ascii.
  - rewrite !forallb_app. rewrite join_ascii; [done|]. apply Forall_fmap. rewrite forallb_forall in Hw.
    rewrite Forall_forall in *. intros x Hx. apply HF; [done|]. by apply Hw, list_elem_of_In.
  - apply andb_prop in Hw as [_ Hw]. rewrite !forallb_app. rewrite join_ascii; [done|]. apply Forall_fmap.
    rewrite sort_items_fmap, Forall_fmap. rewrite forallb_forall in Hw. rewrite Forall_forall in *. intros m Hm.
    rewrite (sort_items_perm ms) in Hm. specialize (Hw m (proj1 (list_elem_of_In _ _) Hm)). apply andb_prop in Hw as [Hk Hv].
    unfold compose. cbn [fst snd]. rewrite !forallb_app, dump_str_ascii, HF by done. done.
Qed.

(** what is written is read back, with the keys of every object in order *)
Lemma loads_dump v : jwf v = true → loads_str (dump v) = Some (norm v).
Proof.
  intros Hw. pose proof (dump_printed v Hw [] eq_refl) as Hr. rewrite app_nil_r in Hr.
  pose proof (dump_ascii v Hw) as Ha. unfold loads_str. destruct (dump_head v Hw) as (c & t & E & Hc & _). rewrite E in *.
  cbn [forallb] in Ha. unfold is_ascii in Ha. replace (c =? 0xFEFF) with false by lia.
  replace (skip_ws (c :: t)) with (c :: t) by (cbn [skip_ws]; by rewrite Hc).
  rewrite (reads_value _ _ _ _ Hr) by (unfold parse_fuel; lia). done.
Qed.

(** ** As bytes *)

Definition json_dumps (v : json) : result (list byte) := encode_utf8 (dump v).
Definition json_loads (data : list byte) : result json :=
  (s <-? decode_utf8 data;
   match loads_str s with Some v => Ok v | None => Raise ValueError end)%py.
Definition is_dict (v : json) : bool := match v with JObj _ => true | _ => false end.

(** the codec of the frame headers *)
#[export] Instance python_json : JsonCodec json := {| dumps := json_dumps; loads := json_loads; is_object := is_dict |}.

Lemma ascii_char c : is_ascii c = true → is_char c = true ∧ utf8 c = [c].
Proof. unfold is_ascii, is_char, is_high, is_low, utf8. intros H. replace (c <? 128) with true by lia. split; [lia|done]. Qed.

Lemma ascii_text s : forallb is_ascii s = true → str_ok s = true ∧ concat (utf8 <$> s) = s.
Proof.
  induction s as [|c s IH]; [done|]. cbn [forallb str_ok fmap list_fmap concat]. intros [Hc Hs]%andb_prop.
  destruct (ascii_char c Hc) as [Hc' ->]. destruct (IH Hs) as [Hs' Hu]. split; [by rewrite Hc'|]. cbn [app]. by f_equal.
Qed.

(** the bytes of a well-formed value, one per character *)
Definition text_bytes (v : json) : list byte := byte_of_Z <$> dump v.

Lemma json_dumps_ok v : jwf v = true → json_dumps v = Ok (text_bytes v).
Proof.
  intros Hw. destruct (ascii_text (dump v) (dump_ascii v Hw)) as [Hs Hu]. unfold json_dumps, encode_utf8, text_bytes.
  by rewrite Hs, Hu.
Qed.

Lemma json_roundtrip v : jwf v = true → json_loads (text_bytes v) = Ok (norm v).
Proof.
  intros Hw. destruct (ascii_text (dump v) (dump_ascii v Hw)) as [Hs Hu].
  destruct (utf8_roundtrip (dump v) Hs) as (l & He & Hd). unfold encode_utf8 in He. rewrite Hs, Hu in He. injection He as <-.
  unfold json_loads, text_bytes. rewrite Hd. cbn [rbind]. by rewrite loads_dump.
Qed.

(** a header with its keys in order can be sent *)
Lemma json_sendable ms : jwf (JObj ms) = true → norm (JObj ms) = JObj ms → blen (text_bytes (JObj ms)) <= MAX_HEADER_BYTES →
  sendable (JObj ms) (text_bytes (JObj ms)).
Proof.
  intros Hw Hn Hl. split; [by apply json_dumps_ok|rewrite <-Hn at 2; by apply json_roundtrip|done| |done].
  unfold text_bytes. cbn [dump app fmap list_fmap]. unfold blen. cbn [length]. lia.
Qed.

#[export] Instance json_eq_dec : EqDecision json.
Proof.
  unfold EqDecision, Decision. fix go 1. intros x y.
  destruct x as [|b|z|l|s|l|ms], y as [|b'|z'|l'|s'|l'|ms']; try (right; discriminate).
  - by left.
  - destruct (Bool.bool_dec b b'); [left|right]; congruence.
  - destruct (Z.eq_dec z z'); [left|right]; congruence.
  - destruct (List.list_eq_dec Z.eq_dec l l'); [left|right]; congruence.
  - destruct (List.list_eq_dec Z.eq_dec s s'); [left|right]; congruence.
  - destruct (List.list_eq_dec go l l'); [left|right]; congruence.
  - assert (∀ m m' : str * json, {m = m'} + {m ≠ m'}) as go'.
    { intros [k v] [k' v']. destruct (go v v'), (List.list_eq_dec Z.eq_dec k k'); [left|right..]; congruence. }
    destruct (List.list_eq_dec go' ms ms'); [left|right]; congruence.
Defined.

Example json_eq_demo : bool_decide (JList [JObj [(lit "a", JInt 1)]; JNull] = JList [JObj [(lit "a", JInt 1)]; JNull]) = true.
Proof. vm_compute. reflexivity. Qed.
