(* ===== verification/MakvFormat.v ===== *)
(** * Stored objects and PUT envelopes of MaKV

    [storage_backend/makv/format.py] byte for byte: a header of twenty bytes, JSON
    metadata with the table of the payloads, and the payloads at offsets that are
    multiples of 64, under a CRC-32. A [dict] of the metadata is the list of its items;
    a [bytes] or [memoryview] slice is the list of its bytes. *)

From Stdlib Require Import Strings.Byte SpecFloat.
From S2P Require Import Prelude PyDict PyState PyFloat BatchBlob ObjectKey Utf8 LowBitPacking Json.
Import Struct.

Open Scope Z_scope.

(** ** [binascii.crc32] *)

Definition CRC_POLY : Z := 0xEDB88320.
Definition crc_bit (c : Z) : Z := if Z.testbit c 0 then Z.lxor (Z.shiftr c 1) CRC_POLY else Z.shiftr c 1.
Definition crc_byte (c : Z) (b : byte) : Z := Nat.iter 8 crc_bit (Z.lxor c (Z_of_byte b)).
(** [binascii.crc32(data, value)] *)
Definition crc32 (data : list byte) (value : Z) : Z :=
  Z.lxor (foldl crc_byte (Z.lxor value 0xFFFFFFFF) data) 0xFFFFFFFF.

Example crc32_check : crc32 [x31; x32; x33; x34; x35; x36; x37; x38; x39] 0 = 0xCBF43926.
Proof. vm_compute. reflexivity. Qed.

(** ** [int(v)] and [str(v)] of a JSON value *)

(** [int(s)] on ASCII: digits with single underscores between them *)
Fixpoint parse_dec (acc : Z) (gap : bool) (s : str) : option Z :=
  match s with
  | [] => if gap then None else Some acc
  | c :: s =>
      if c =? 95 then (if gap then None else parse_dec acc true s)
      else if is_digit c then parse_dec (10 * acc + (c - 48)) false s else None
  end.
Definition int_of_str (s : str) : result Z :=
  let r := match strip s with
           | c :: s' =>
               if c =? 45 then Z.opp <$> parse_dec 0 true s'
               else if c =? 43 then parse_dec 0 true s'
               else parse_dec 0 true (c :: s')
           | [] => None
           end in
  match r with Some z => Ok z | None => Raise ValueError end.

(** the binary64 number a literal of [json.loads] denotes, correctly rounded *)
Definition float_of_literal (l : str) : float :=
  if bool_decide (l = lit "NaN") then S754_nan
  else if bool_decide (l = lit "Infinity") then S754_infinity false
  else if bool_decide (l = lit "-Infinity") then S754_infinity true
  else
    let '(sg, s1) := take_minus l in
    let '(ip, s2) := digits s1 in
    let '(frac, s3) := take_frac s2 in
    let ds := tail frac in
    let e := match s3 with
             | _ :: s4 => let '(esg, s5) := take_sign s4 in
                          if bool_decide (esg = [45]) then - dec_val s5 else dec_val s5
             | [] => 0
             end - Z.of_nat (length ds) in
    let m := dec_val (ip ++ ds) in
    let x := if 0 <=? e then float_of_int (m * 10 ^ e)
             else match int_div m (10 ^ (- e)) with Ok x => x | Raise _ => S754_nan end in
    match sg with [] => x | _ => SFopp x end.

Definition py_int (v : json) : result Z :=
  match v with
  | JInt z => Ok z
  | JBool b => Ok (Z.b2z b)
  | JStr s => int_of_str s
  | JFloat l => int_of_float (float_of_literal l)
  | _ => Raise TypeError
  end.

(** Python's [repr] of floats, lists and dicts *)
Class PyRepr := repr_json : json → str.

Definition py_str `{PyRepr} (v : json) : str :=
  match v with
  | JStr s => s
  | JNull => lit "None"
  | JBool b => if b then lit "True" else lit "False"
  | JInt z => dump_int z
  | _ => repr_json v
  end.

(** [v[k]] *)
Definition subscript (v : json) (k : str) : result json :=
  match v with
  | JObj ms => match dget ms k with Some x => Ok x | None => Raise KeyError end
  | _ => Raise TypeError
  end.

(** a JSON value as a key of a dict: [True], [1] and [1.0] are one key, a NaN is a key of
    its own, which [i] tells apart; lists and dicts are not hashable *)
Inductive pykey :=
| KNone
| KStr (s : str)
| KInt (z : Z)
| KFloat (x : float)
| KNan (i : nat).
#[export] Instance pykey_eq_dec : EqDecision pykey.
Proof. assert (EqDecision float) by (unfold float; solve_decision). solve_decision. Defined.

(** a float that is an integer is the key of the integer *)
Definition key_of_float (i : nat) (x : float) : pykey :=
  match x with
  | S754_zero _ => KInt 0
  | S754_nan => KNan i
  | S754_infinity _ => KFloat x
  | S754_finite s m e =>
      let z := if s then Zneg m else Zpos m in
      if 0 <=? e then KInt (z * 2 ^ e)
      else if z mod 2 ^ (- e) =? 0 then KInt (z / 2 ^ (- e)) else KFloat x
  end.
Definition key_of (i : nat) (v : json) : result pykey :=
  match v with
  | JNull => Ok KNone
  | JBool b => Ok (KInt (Z.b2z b))
  | JInt z => Ok (KInt z)
  | JFloat l => Ok (key_of_float i (float_of_literal l))
  | JStr s => Ok (KStr s)
  | _ => Raise TypeError
  end.

(** ** Header *)

Definition CLIENT_MAGIC : list byte := [x4d; x4b; x56; x50].
Definition OBJECT_MAGIC : list byte := [x4d; x41; x4b; x56].
Definition CHECKSUM_OFFSET : Z := 16.
Definition SUPPORTED_OBJECT_VERSIONS : list Z := [1].
Definition PAYLOAD_ALIGNMENT : Z := 64.

(** [struct.Struct("<4sIIII")] *)
Definition pack_le (n : nat) (z : Z) : result (list byte) :=
  if (0 <=? z) && (z <? 256 ^ Z.of_nat n) then Ok (le_bytes n z) else Raise StructError.
Definition HEADER_STRUCT_size : Z := 20.
Definition HEADER_STRUCT_pack (magic : list byte) (version meta_len total_len checksum : Z) : result (list byte) :=
  (v <-? pack_le 4 version; m <-? pack_le 4 meta_len; t <-? pack_le 4 total_len; c <-? pack_le 4 checksum;
   Ok (magic ++ v ++ m ++ t ++ c))%py.
Definition HEADER_STRUCT_unpack (bs : list byte) : list byte * Z * Z * Z * Z :=
  (slice bs 0 4, le_val (slice bs 4 8), le_val (slice bs 8 12), le_val (slice bs 12 16), le_val (slice bs 16 20)).

Definition metadata_dict : Type := list (str * json).
Definition payloads_dict : Type := list (str * list byte).

Record ClientPutEnvelope := mkEnvelope {
  ce_key : str; ce_object_type : str; ce_metadata : metadata_dict; ce_raw_kv_payload : list byte }.

Record MaKVObject := mkObject {
  mo_object_type : str; mo_metadata : metadata_dict; mo_payloads : payloads_dict; mo_checksum : Z; mo_protocol_version : Z }.

Definition peek_makv_header (blob : list byte) : result (Z * Z * Z) :=
  (guard negb (blen blob <? HEADER_STRUCT_size) else ValueError;
   bs <-? unpack_from blob 0 HEADER_STRUCT_size;
   let '(magic, version, _, total_length, checksum) := HEADER_STRUCT_unpack bs in
   guard bool_decide (magic = OBJECT_MAGIC) else ValueError;
   guard bool_decide (version ∈ SUPPORTED_OBJECT_VERSIONS) else ValueError;
   guard (total_length =? blen blob) else ValueError;
   Ok (version, total_length, checksum))%py.

(** ** Encoding *)

Definition TABLE : str := lit "_payload_table".

Definition aligned (offset : Z) : Z := (offset + PAYLOAD_ALIGNMENT - 1) / PAYLOAD_ALIGNMENT * PAYLOAD_ALIGNMENT.

Definition table_entry (name : str) (offset length : Z) : json :=
  JObj [(lit "name", JStr name); (lit "offset", JInt offset); (lit "length", JInt length)].

(** the table of the payloads laid out from [offset] on *)
Fixpoint payload_table (offset : Z) (payloads : payloads_dict) : list json :=
  match payloads with
  | [] => []
  | (name, data) :: payloads =>
      let offset := aligned offset in
      table_entry name offset (blen data) :: payload_table (offset + blen data) payloads
  end.

Definition with_table (metadata : metadata_dict) (table : list json) : metadata_dict := dset metadata TABLE (JList table).

(** one round of [while True]: the metadata with the table that follows from the size of [wrapped] *)
Definition relocate (metadata : metadata_dict) (payloads : payloads_dict) (wrapped : metadata_dict) : result metadata_dict :=
  (meta_bytes <-? json_dumps (JObj wrapped);
   Ok (with_table metadata (payload_table (HEADER_STRUCT_size + blen meta_bytes) payloads)))%py.

Fixpoint offsets_fixpoint (fuel : nat) (metadata : metadata_dict) (payloads : payloads_dict) (wrapped : metadata_dict)
  : result metadata_dict :=
  match fuel with
  | O => Ok wrapped
  | S fuel =>
      (new <-? relocate metadata payloads wrapped;
       if bool_decide (new = wrapped) then Ok wrapped else offsets_fixpoint fuel metadata payloads new)%py
  end.

(** every round but the first adds a digit to an offset, and no offset ever has more
    than [offset_digits] of them *)
Definition offset_digits (metadata : metadata_dict) (payloads : payloads_dict) : Z :=
  let base := blen (text_bytes (JObj (with_table metadata (payload_table 0 payloads)))) in
  let k := Z.of_nat (length payloads) in
  let total := foldr Z.add 0 ((λ p, blen p.2) <$> payloads) in
  Z.of_nat (length (to_dec (HEADER_STRUCT_size + base + total + PAYLOAD_ALIGNMENT * k))) + Z.of_nat (length (to_dec k)) + 3.
Definition offsets_fuel (metadata : metadata_dict) (payloads : payloads_dict) : nat :=
  Z.to_nat (Z.of_nat (length payloads) * offset_digits metadata payloads + 3).

Definition _build_metadata_with_offsets (metadata : metadata_dict) (payloads : payloads_dict) : result metadata_dict :=
  offsets_fixpoint (offsets_fuel metadata payloads) metadata payloads (with_table metadata []).

(** [{str(entry["name"]): entry for entry in ...}], of which only the offset is used *)
Definition table_offsets `{PyRepr} (wrapped : metadata_dict) : result (list (str * Z)) :=
  match dget wrapped TABLE with
  | Some (JList table) =>
      entries <-? map_ok (λ entry, (n <-? subscript entry (lit "name"); o <-? subscript entry (lit "offset"); o <-? py_int o;
                                    Ok (py_str n, o))%py) table;
      Ok (dupdate [] entries)
  | _ => Raise TypeError
  end%py.

Definition offset_of (offsets : list (str * Z)) (name : str) : result Z :=
  match dget offsets name with Some o => Ok o | None => Raise KeyError end.

Fixpoint total_length (offsets : list (str * Z)) (payloads : payloads_dict) (total_len : Z) : result Z :=
  match payloads with
  | [] => Ok total_len
  | (name, data) :: payloads =>
      (o <-? offset_of offsets name; total_length offsets payloads (Z.max total_len (o + blen data)))%py
  end.

Fixpoint place_payloads (offsets : list (str * Z)) (payloads : payloads_dict) (body : list byte) : result (list byte) :=
  match payloads with
  | [] => Ok body
  | (name, data) :: payloads =>
      (o <-? offset_of offsets name; place_payloads offsets payloads (slice_assign body o (o + blen data) data))%py
  end.

Definition _encode_blob `{PyRepr} (magic : list byte) (metadata : metadata_dict) (payloads : payloads_dict) (version : Z)
  : result (list byte) :=
  (guard bool_decide (version ∈ SUPPORTED_OBJECT_VERSIONS) else ValueError;
   wrapped_meta <-? _build_metadata_with_offsets metadata payloads;
   meta_bytes <-? json_dumps (JObj wrapped_meta);
   offsets <-? table_offsets wrapped_meta;
   total_len <-? total_length offsets payloads (HEADER_STRUCT_size + blen meta_bytes);
   header <-? HEADER_STRUCT_pack magic version (blen meta_bytes) total_len 0;
   body <-? pack_into (zeros total_len) 0 header;
   body <-? place_payloads offsets payloads
              (slice_assign body HEADER_STRUCT_size (HEADER_STRUCT_size + blen meta_bytes) meta_bytes);
   checksum <-? pack_le 4 (Z.land (crc32 body 0) 0xFFFFFFFF);
   pack_into body CHECKSUM_OFFSET checksum)%py.

Definition encode_client_put_envelope `{PyRepr} (key object_type : str) (plan : option metadata_dict)
    (raw_kv_payload : list byte) (extra_metadata : metadata_dict) : result (list byte) :=
  let metadata := [(lit "key", JStr key); (lit "object_type", JStr object_type);
                   (lit "plan", match plan with Some p => JObj p | None => JNull end)] in
  _encode_blob CLIENT_MAGIC (dupdate metadata extra_metadata) [(lit "raw_kv_payload", raw_kv_payload)] 1.

Definition encode_makv_object `{PyRepr} (object_type : str) (metadata : metadata_dict) (payloads : payloads_dict)
    (protocol_version : Z) : result (list byte) :=
  _encode_blob OBJECT_MAGIC (dupdate [(lit "object_type", JStr object_type)] metadata) payloads protocol_version.

(** ** Decoding *)

(** the metadata, where it ends, and the version *)
Definition _decode_blob (blob expected_magic : list byte) (verify_checksum : bool) : result (metadata_dict * Z * Z) :=
  (guard negb (blen blob <? HEADER_STRUCT_size) else ValueError;
   bs <-? unpack_from blob 0 HEADER_STRUCT_size;
   let '(magic, version, meta_len, total_len, checksum) := HEADER_STRUCT_unpack bs in
   guard bool_decide (magic = expected_magic) else ValueError;
   guard bool_decide (version ∈ SUPPORTED_OBJECT_VERSIONS) else ValueError;
   guard negb ((total_len <? HEADER_STRUCT_size) || negb (total_len =? blen blob)) else ValueError;
   guard negb (total_len - HEADER_STRUCT_size <? meta_len) else ValueError;
   guard (negb verify_checksum
          || (checksum =? Z.land (crc32 (slice blob (CHECKSUM_OFFSET + 4) (blen blob))
                                   (crc32 (zeros 4) (crc32 (slice blob 0 CHECKSUM_OFFSET) 0))) 0xFFFFFFFF)) else ValueError;
   let meta_end := HEADER_STRUCT_size + meta_len in
   v <-? json_loads (slice blob HEADER_STRUCT_size meta_end);
   match v with
   | JObj metadata => Ok (metadata, meta_end, version)
   | _ => Raise ValueError
   end)%py.

Fixpoint ranges_overlap_loop (previous_end : Z) (ranges : list (Z * Z)) : bool :=
  match ranges with
  | [] => false
  | (start, end_) :: ranges => (start <? previous_end) || ranges_overlap_loop end_ ranges
  end.
Definition _ranges_overlap (ranges : list (Z * Z)) : bool := ranges_overlap_loop (-1) (merge_sort pair_le ranges).

Definition out_of_bounds (blob : list byte) (meta_end offset length : Z) : bool :=
  (offset <? meta_end) || (length <? 0) || (blen blob <? offset + length).

(** the loop over the table of an envelope: payloads by name, and their ranges *)
Fixpoint envelope_entries (blob : list byte) (meta_end : Z) (i : nat) (table : list json)
    (payloads : list (pykey * list byte)) (ranges : list (Z * Z)) : result (list (pykey * list byte) * list (Z * Z)) :=
  match table with
  | [] => Ok (payloads, ranges)
  | entry :: table =>
      (o <-? subscript entry (lit "offset"); offset <-? py_int o;
       l <-? subscript entry (lit "length"); length <-? py_int l;
       guard negb (out_of_bounds blob meta_end offset length) else ValueError;
       n <-? subscript entry (lit "name"); k <-? key_of i n;
       envelope_entries blob meta_end (S i) table (dset payloads k (slice blob offset (offset + length)))
         (ranges ++ [(offset, offset + length)]))%py
  end.

Definition decode_client_put_envelope `{PyRepr} (blob : list byte) : result ClientPutEnvelope :=
  (r <-? _decode_blob blob CLIENT_MAGIC true;
   let '(metadata, meta_end, version) := r in
   guard (version =? 1) else ValueError;
   match dget metadata TABLE with
   | Some (JList table) =>
       let metadata := ddel metadata TABLE in
       r <-? envelope_entries blob meta_end 0 table [] [];
       let '(payloads, ranges) := r in
       guard negb (negb (length payloads =? length table)%nat || _ranges_overlap ranges) else ValueError;
       k <-? subscript (JObj metadata) (lit "key");
       t <-? subscript (JObj metadata) (lit "object_type");
       match dget payloads (KStr (lit "raw_kv_payload")) with
       | Some raw => Ok (mkEnvelope (py_str k) (py_str t) metadata raw)
       | None => Raise KeyError
       end
   | _ => Raise ValueError
   end)%py.

(** [try: ... except (KeyError, TypeError, ValueError)] *)
Definition invalid_entry {A} (r : result A) : result A :=
  match r with
  | Raise KeyError | Raise TypeError | Raise ValueError => Raise ValueError
  | _ => r
  end.

(** offset, length and name of an entry *)
Definition read_entry `{PyRepr} (entry : json) : result (Z * Z * str) :=
  invalid_entry (o <-? subscript entry (lit "offset"); offset <-? py_int o;
                 l <-? subscript entry (lit "length"); length <-? py_int l;
                 n <-? subscript entry (lit "name"); Ok (offset, length, py_str n))%py.

(** [dict(entry)] with the three fields set *)
Definition retained_entry (entry : json) (name : str) (offset length : Z) : json :=
  match entry with
  | JObj ms => JObj (dupdate ms [(lit "name", JStr name); (lit "offset", JInt offset); (lit "length", JInt length)])
  | _ => entry
  end.

Record entries_state := mkEntries { es_payloads : payloads_dict; es_retained : list json; es_ranges : list (Z * Z) }.

Fixpoint object_entries `{PyRepr} (blob : list byte) (meta_end : Z) (table : list json) (st : entries_state) : result entries_state :=
  match table with
  | [] => Ok st
  | entry :: table =>
      (e <-? read_entry entry;
       let '(offset, length, name) := e in
       guard negb (out_of_bounds blob meta_end offset length) else ValueError;
       object_entries blob meta_end table
         (mkEntries (dset (es_payloads st) name (slice blob offset (offset + length)))
            (es_retained st ++ [retained_entry entry name offset length])
            (es_ranges st ++ [(offset, offset + length)])))%py
  end.

(** a copied payload and a view of it have the same bytes *)
Definition decode_makv_object `{PyRepr} (blob : list byte) (verify_checksum : bool) : result MaKVObject :=
  (r <-? _decode_blob blob OBJECT_MAGIC verify_checksum;
   let '(metadata, meta_end, version) := r in
   match dget metadata TABLE with
   | Some (JList table) =>
       let metadata := ddel metadata TABLE in
       st <-? object_entries blob meta_end table (mkEntries [] [] []);
       guard negb (negb (length (es_payloads st) =? length table)%nat || _ranges_overlap (es_ranges st)) else ValueError;
       let metadata := dset metadata TABLE (JList (es_retained st)) in
       checksum <-? match dget metadata (lit "checksum") with Some c => py_int c | None => Ok 0 end;
       match dget metadata (lit "object_type") with
       | Some t => Ok (mkObject (py_str t) (ddel metadata (lit "object_type")) (es_payloads st) checksum version)
       | None => Raise KeyError
       end
   | _ => Raise ValueError
   end)%py.

#[local] Instance demo_repr : PyRepr := λ _, [].

Example object_demo :
  let payloads := [(lit "positions_8", [x01; x02; x03]); (lit "payload_8", []); (lit "scales_8", [xff])] in
  (b <-? encode_makv_object (lit "makv") [(lit "checksum", JInt 7); (lit "a", JFloat (lit "2.5"))] payloads 1;
   o <-? decode_makv_object b true;
   Ok (mo_object_type o, mo_payloads o, mo_checksum o, blen b, dkeys (mo_metadata o)))%py =
  Ok (lit "makv", payloads, 7, 321, [lit "a"; lit "checksum"; lit "_payload_table"]).
Proof. vm_compute. reflexivity. Qed.

Example float_literals :
  py_int (JFloat (lit "1e23")) = Ok 99999999999999991611392 ∧ py_int (JFloat (lit "-2.75")) = Ok (-2) ∧
  py_int (JFloat (lit "1e400")) = Raise OverflowError.
Proof. vm_compute. done. Qed.
