(* ===== verification/MakvFormatProofs.v ===== *)
(** * Stored objects: proofs

    The checksum, the loop that settles the offsets, the layout of a blob, and what
    the decoder accepts. *)

From Stdlib Require Import Strings.Byte SpecFloat.
From S2P Require Import Prelude PyDict PyState PyFloat BatchBlob ObjectKey Utf8 LowBitPacking Json MakvFormat.
Import Struct.

Open Scope Z_scope.

(** ** The checksum *)

Definition word32 (c : Z) : Prop := 0 <= c < 2 ^ 32.

Lemma word32_bits c : 0 <= c → word32 c ↔ ∀ i, 32 <= i → Z.testbit c i = false.
Proof.
  intros Hc. split.
  - intros [_ H] i Hi. destruct (decide (c = 0)) as [->|]; [apply Z.bits_0|]. apply Z.bits_above_log2; [lia|].
    apply (Z.lt_le_trans _ 32); [apply Z.log2_lt_pow2; [lia|exact H]|lia].
  - intros H. split; [done|]. destruct (decide (c = 0)) as [->|]; [lia|]. apply Z.log2_lt_pow2; [lia|].
    destruct (Z.lt_ge_cases (Z.log2 c) 32) as [|Hl]; [done|]. specialize (H _ Hl). rewrite Z.bit_log2 in H by lia. done.
Qed.

Lemma word32_lxor a b : word32 a → word32 b → word32 (Z.lxor a b).
Proof.
  intros Ha Hb. assert (0 <= Z.lxor a b) as Hn by (apply Z.lxor_nonneg; unfold word32 in *; lia). apply word32_bits; [done|].
  intros i Hi. rewrite Z.lxor_spec. rewrite word32_bits in Ha, Hb by apply Ha || apply Hb. by rewrite Ha, Hb.
Qed.

Lemma lxor_cancel a b c : Z.lxor a c = Z.lxor b c → a = b.
Proof.
  intros H. apply (f_equal (λ z, Z.lxor z c)) in H. by rewrite !Z.lxor_assoc, Z.lxor_nilpotent, !Z.lxor_0_r in H.
Qed.

Lemma byte_word b : word32 (Z_of_byte b).
Proof. pose proof (Z_of_byte_range b). unfold word32. lia. Qed.

Lemma shiftr1_word c : word32 c → 0 <= Z.shiftr c 1 < 2 ^ 31.
Proof. unfold word32. rewrite Z.shiftr_div_pow2 by lia. intros H. split; [apply Z.div_pos|apply Z.div_lt_upper_bound]; lia. Qed.

Lemma crc_bit_word c : word32 c → word32 (crc_bit c).
Proof.
  intros Hc. pose proof (shiftr1_word c Hc). unfold crc_bit. case_match; [|unfold word32; lia].
  apply word32_lxor; unfold word32, CRC_POLY; lia.
Qed.

(** the bit shifted out can be read off the top of the result *)
Lemma crc_bit_top c : word32 c → Z.testbit (crc_bit c) 31 = Z.testbit c 0.
Proof.
  intros Hc. pose proof (shiftr1_word c Hc) as Hs. assert (Z.testbit (Z.shiftr c 1) 31 = false) as Hf.
  { destruct (decide (Z.shiftr c 1 = 0)) as [->|]; [apply Z.bits_0|]. apply Z.bits_above_log2; [lia|]. apply Z.log2_lt_pow2; lia. }
  unfold crc_bit. destruct (Z.testbit c 0); [rewrite Z.lxor_spec|]; by rewrite Hf.
Qed.

Lemma crc_bit_inj c d : word32 c → word32 d → crc_bit c = crc_bit d → c = d.
Proof.
  intros Hc Hd E. pose proof (crc_bit_top c Hc) as Tc. pose proof (crc_bit_top d Hd) as Td. rewrite E, Td in Tc.
  assert (Z.shiftr c 1 = Z.shiftr d 1) as Hs.
  { unfold crc_bit in E. rewrite Tc in E. destruct (Z.testbit c 0); [by apply lxor_cancel in E|done]. }
  apply Z.bits_inj'. intros i Hi. destruct (decide (i = 0)) as [->|]; [done|].
  replace i with ((i - 1) + 1) by lia. by rewrite <-!Z.shiftr_spec, Hs by lia.
Qed.

Lemma crc_bits_word n c : word32 c → word32 (Nat.iter n crc_bit c).
Proof. intros Hc. induction n as [|n IH]; [done|]. by apply crc_bit_word. Qed.

Lemma crc_bits_inj n c d : word32 c → word32 d → Nat.iter n crc_bit c = Nat.iter n crc_bit d → c = d.
Proof.
  intros Hc Hd. induction n as [|n IH]; [done|]. intros E. apply IH. apply crc_bit_inj in E; [done|by apply crc_bits_word..].
Qed.

Lemma crc_byte_word c b : word32 c → word32 (crc_byte c b).
Proof. intros Hc. apply crc_bits_word, word32_lxor; [done|apply byte_word]. Qed.

Lemma crc_byte_inj c d a b : word32 c → word32 d → crc_byte c a = crc_byte d b → Z.lxor c (Z_of_byte a) = Z.lxor d (Z_of_byte b).
Proof. intros Hc Hd E. by apply crc_bits_inj in E; [|apply word32_lxor; [done|apply byte_word]..]. Qed.

Lemma crc_fold_word l c : word32 c → word32 (foldl crc_byte c l).
Proof. revert c. induction l as [|b l IH]; [done|]. intros c Hc. by apply IH, crc_byte_word. Qed.

Lemma crc_fold_inj l c d : word32 c → word32 d → foldl crc_byte c l = foldl crc_byte d l → c = d.
Proof.
  revert c d. induction l as [|b l IH]; [done|]. intros c d Hc Hd E. apply IH in E; [|by apply crc_byte_word..].
  apply crc_byte_inj in E; [|done..]. by apply lxor_cancel in E.
Qed.

Lemma crc32_word l v : word32 v → word32 (crc32 l v).
Proof. intros. unfold crc32. apply word32_lxor; [apply crc_fold_word, word32_lxor; [done|]|]; unfold word32; lia. Qed.

Lemma crc32_mask l v : word32 v → Z.land (crc32 l v) 0xFFFFFFFF = crc32 l v.
Proof.
  intros H%(crc32_word l). change 0xFFFFFFFF with (Z.ones 32). rewrite Z.land_ones by lia. apply Z.mod_small, H.
Qed.

Lemma crc32_app a b v : crc32 (a ++ b) v = crc32 b (crc32 a v).
Proof. unfold crc32. by rewrite foldl_app, Z.lxor_assoc, Z.lxor_nilpotent, Z.lxor_0_r. Qed.

(** a change of one byte changes the checksum *)
Lemma crc32_one_byte pre post a b : crc32 (pre ++ a :: post) 0 = crc32 (pre ++ b :: post) 0 → a = b.
Proof.
  unfold crc32. intros E%lxor_cancel. rewrite !foldl_app in E. cbn [foldl] in E.
  assert (word32 (foldl crc_byte (Z.lxor 0 0xFFFFFFFF) pre)) as Hw by (apply crc_fold_word; change (Z.lxor 0 0xFFFFFFFF) with 0xFFFFFFFF; unfold word32; lia).
  apply crc_fold_inj in E; [|by apply crc_byte_word..]. apply crc_byte_inj in E; [|done..].
  rewrite !(Z.lxor_comm (foldl _ _ _)) in E. apply lxor_cancel in E. unfold Z_of_byte in E.
  apply N2Z.inj in E. by apply (f_equal Byte.of_N) in E; rewrite !Byte.of_to_N in E; injection E.
Qed.

(** ** Digits *)

Definition nd (z : Z) : Z := Z.of_nat (length (to_dec z)).

Lemma dec_val_bounds ds : forallb is_digit ds = true →
  0 <= dec_val ds < 10 ^ Z.of_nat (length ds) ∧
  ∀ c t, ds = c :: t → 49 <= c → 10 ^ (Z.of_nat (length ds) - 1) <= dec_val ds.
Proof.
  induction ds as [|x ds IH] using rev_ind; intros Hd; [by split|]. rewrite forallb_app in Hd. apply andb_prop in Hd as [Hds Hx].
  cbn [forallb] in Hx. unfold is_digit in Hx. destruct (IH Hds) as [Hb Hl]. rewrite dec_val_snoc, length_app. cbn [length].
  replace (Z.of_nat (length ds + 1)) with (Z.succ (Z.of_nat (length ds))) by lia. rewrite Z.pow_succ_r by lia. split; [lia|].
  intros c t E Hc. destruct ds as [|c' ds]; [injection E as <- <-; cbn in *; lia|]. injection E as <- E.
  specialize (Hl _ _ eq_refl Hc). replace (Z.succ _ - 1) with (Z.succ (Z.of_nat (length (c' :: ds)) - 1)) by lia.
  rewrite Z.pow_succ_r by (cbn [length]; lia). lia.
Qed.

Lemma nd_spec z : 0 <= z → 1 <= nd z ∧ z < 10 ^ nd z ∧ (0 < z → 10 ^ (nd z - 1) <= z).
Proof.
  intros Hz. unfold nd. destruct (to_dec_spec z Hz) as (Hd & Hv & c & t & E & Hc & H0).
  destruct (dec_val_bounds _ Hd) as [Hb Hl]. rewrite Hv in *. split_and!; [rewrite E; cbn; lia|lia|].
  intros Hp. apply (Hl c t E). destruct (decide (c = 48)) as [Hc'|]; [destruct (H0 Hc'); lia|lia].
Qed.

Lemma nd_le_pow z d : 0 <= z < 10 ^ d → 1 <= d → nd z <= d.
Proof.
  intros Hz Hd. destruct (nd_spec z ltac:(lia)) as (H1 & _ & H3). destruct (decide (z = 0)) as [->|]; [by cbn|].
  destruct (Z.le_gt_cases (nd z) d) as [|Hgt]; [done|]. specialize (H3 ltac:(lia)).
  pose proof (Z.pow_le_mono_r 10 d (nd z - 1) ltac:(lia) ltac:(lia)). lia.
Qed.

Lemma nd_mono y z : 0 <= y <= z → nd y <= nd z.
Proof. intros H. destruct (nd_spec z ltac:(lia)) as (H1 & H2 & _). apply nd_le_pow; lia. Qed.

Lemma nd_small z : 0 <= z → nd z <= z + 1.
Proof.
  intros Hz. apply nd_le_pow; [|lia]. split; [done|]. pose proof (Z.pow_gt_lin_r 10 (z + 1) ltac:(lia) ltac:(lia)). lia.
Qed.

(** ** The length of the text *)

Definition dlen (v : json) : nat := length (dump v).

Lemma blen_text v : blen (text_bytes v) = Z.of_nat (dlen v).
Proof. unfold blen, text_bytes, dlen. by rewrite length_fmap. Qed.

Lemma join_length l : length (join l) = (sum_list_with length l + pred (length l))%nat.
Proof.
  induction l as [|s [|t l] IH]; [done|cbn; lia|]. rewrite join_cons, !length_app, IH. cbn [sum_list_with length]. lia.
Qed.

Lemma sum_list_with_fmap {A B} (f : B → nat) (g : A → B) l : sum_list_with f (g <$> l) = sum_list_with (f ∘ g) l.
Proof. induction l as [|x l IH]; [done|]. cbn. by rewrite IH. Qed.

Definition member_len (m : str * json) : nat := (length (dump_str m.1) + 1 + dlen m.2)%nat.

Lemma dlen_obj ms : dlen (JObj ms) = (2 + sum_list_with member_len ms + pred (length ms))%nat.
Proof.
  unfold dlen at 1. cbn [dump]. rewrite !length_app, join_length, sort_items_fmap, !length_fmap. cbn [length].
  assert (∀ l, sum_list_with length ((λ m : str * str, dump_str m.1 ++ [58] ++ m.2) <$> ((λ m : str * json, (m.1, dump m.2)) <$> l))
    = sum_list_with member_len l) as ->.
  { induction l as [|m l IH]; [done|]. cbn [fmap list_fmap sum_list_with]. rewrite <-IH. f_equal. unfold member_len, dlen. cbn [fst snd].
    rewrite !length_app. cbn [length]. lia. }
  rewrite (Permutation_length (sort_items_perm ms)), (sort_items_perm ms). lia.
Qed.

Lemma dlen_list l : dlen (JList l) = (2 + sum_list_with dlen l + pred (length l))%nat.
Proof.
  unfold dlen at 1. cbn [dump]. rewrite !length_app, join_length, sum_list_with_fmap, length_fmap. cbn [length].
  change (length ∘ dump) with dlen. lia.
Qed.

(** replacing a value changes the length by the difference of the two *)
Lemma dlen_dset m k v v' : (dlen (JObj (dset m k v)) + dlen v' = dlen (JObj (dset m k v')) + dlen v)%nat.
Proof.
  rewrite !dlen_obj. assert (length (dset m k v) = length (dset m k v')) as ->.
  { induction m as [|[k1 v1] m IH]; [done|]. cbn [dset]. case_decide; cbn [length]; by rewrite ?IH. }
  assert (sum_list_with member_len (dset m k v) + dlen v' = sum_list_with member_len (dset m k v') + dlen v)%nat; [|lia].
  induction m as [|[k1 v1] m IH]; cbn [dset]; [unfold member_len; cbn [sum_list_with fst snd]; lia|].
  case_decide; cbn [sum_list_with]; [unfold member_len; cbn [fst snd]; lia|lia].
Qed.

Fixpoint offset_list (a : Z) (ps : payloads_dict) : list Z :=
  match ps with [] => [] | (_, d) :: ps => aligned a :: offset_list (aligned a + blen d) ps end.

Definition digit_sum (l : list Z) : nat := sum_list_with (λ o, length (to_dec o)) l.

Lemma dlen_entry n o l : 0 <= o → (dlen (table_entry n o l) + 1 = dlen (table_entry n 0 l) + length (to_dec o))%nat.
Proof.
  intros Ho. unfold table_entry. rewrite !dlen_obj. cbn [sum_list_with length]. unfold member_len. cbn [fst snd].
  assert (dlen (JInt o) = length (to_dec o)) as ->. { unfold dlen. cbn [dump]. unfold dump_int. by replace (o <? 0) with false by lia. }
  change (dlen (JInt 0)) with 1%nat. lia.
Qed.

Lemma aligned_spec a : a <= aligned a < a + 64 ∧ (64 | aligned a).
Proof.
  unfold aligned, PAYLOAD_ALIGNMENT. pose proof (Z.div_mod (a + 64 - 1) 64 ltac:(lia)).
  pose proof (Z.mod_pos_bound (a + 64 - 1) 64 ltac:(lia)). split; [lia|]. apply Z.divide_factor_r.
Qed.

Lemma aligned_mono a b : a <= b → aligned a <= aligned b.
Proof. intros. unfold aligned, PAYLOAD_ALIGNMENT. apply Z.mul_le_mono_nonneg_r; [lia|]. apply Z.div_le_mono; lia. Qed.

Lemma payload_table_length a ps : length (payload_table a ps) = length ps.
Proof. revert a. induction ps as [|[n d] ps IH]; intros a; cbn; [done|by rewrite IH]. Qed.

Lemma dlen_table a b ps : 0 <= a → 0 <= b →
  (dlen (JList (payload_table a ps)) + digit_sum (offset_list b ps) = dlen (JList (payload_table b ps)) + digit_sum (offset_list a ps))%nat.
Proof.
  intros Ha Hb. rewrite !dlen_list, !payload_table_length.
  assert (sum_list_with dlen (payload_table a ps) + digit_sum (offset_list b ps) = sum_list_with dlen (payload_table b ps) + digit_sum (offset_list a ps))%nat; [|lia].
  revert a b Ha Hb. induction ps as [|[n d] ps IH]; intros a b Ha Hb; [done|]. cbn [payload_table offset_list sum_list_with].
  unfold digit_sum in *. cbn [sum_list_with]. destruct (aligned_spec a) as [? _], (aligned_spec b) as [? _]. pose proof (blen_nonneg d).
  specialize (IH (aligned a + blen d) (aligned b + blen d) ltac:(lia) ltac:(lia)).
  pose proof (dlen_entry n (aligned a) (blen d) ltac:(lia)). pose proof (dlen_entry n (aligned b) (blen d) ltac:(lia)). lia.
Qed.

(** ** The offsets settle *)

Lemma jwf_dset m k v : jwf (JObj m) = true → str_ok k = true → jwf v = true → jwf (JObj (dset m k v)) = true.
Proof.
  cbn [jwf]. intros [HN%bool_decide_eq_true Hm]%andb_prop Hk Hv. apply andb_true_intro. split.
  - apply bool_decide_eq_true. by apply (dset_wf (V:=json)).
  - clear HN. induction m as [|[k1 v1] m IH]; cbn [dset forallb fst snd] in *; [by rewrite Hk, Hv|].
    apply andb_prop in Hm as [H1 Hm]. case_decide; subst; cbn [forallb fst snd]; [by rewrite Hk, Hv, Hm|]. by rewrite H1, IH.
Qed.

Definition names_ok (ps : payloads_dict) : bool := forallb (λ p, str_ok p.1) ps.

Lemma jwf_table a ps : names_ok ps = true → jwf (JList (payload_table a ps)) = true.
Proof.
  unfold names_ok. cbn [jwf]. revert a. induction ps as [|[n d] ps IH]; intros a; [done|].
  cbn [forallb fst payload_table]. intros [Hn Hps]%andb_prop. rewrite IH by done. unfold table_entry. cbn [jwf forallb fst snd]. rewrite Hn. done.
Qed.

Lemma offset_list_mono a b ps : 0 <= a <= b → (digit_sum (offset_list a ps) <= digit_sum (offset_list b ps))%nat.
Proof.
  unfold digit_sum. revert a b. induction ps as [|[n d] ps IH]; intros a b Hab; [done|]. cbn [offset_list sum_list_with].
  pose proof (aligned_mono a b ltac:(lia)). destruct (aligned_spec a) as [? _]. pose proof (blen_nonneg d).
  specialize (IH (aligned a + blen d) (aligned b + blen d) ltac:(lia)).
  pose proof (nd_mono (aligned a) (aligned b) ltac:(lia)). unfold nd in *. lia.
Qed.

Definition total_bytes (ps : payloads_dict) : Z := foldr Z.add 0 ((λ p, blen p.2) <$> ps).

Lemma total_bytes_nonneg ps : 0 <= total_bytes ps.
Proof. unfold total_bytes. induction ps as [|[n d] ps IH]; [done|]. cbn [fmap list_fmap foldr snd]. pose proof (blen_nonneg d). lia. Qed.

Lemma offset_list_bound a d ps : 0 <= a → 1 <= d → a + total_bytes ps + 64 * Z.of_nat (length ps) < 10 ^ d →
  Z.of_nat (digit_sum (offset_list a ps)) <= Z.of_nat (length ps) * d.
Proof.
  intros Ha Hd. revert a Ha. unfold digit_sum. induction ps as [|[n x] ps IH]; intros a Ha Hb; [done|].
  cbn [offset_list sum_list_with length]. unfold total_bytes in Hb. cbn [fmap list_fmap foldr snd length] in Hb. fold (total_bytes ps) in Hb.
  destruct (aligned_spec a) as [? _]. pose proof (blen_nonneg x). pose proof (total_bytes_nonneg ps).
  specialize (IH (aligned a + blen x) ltac:(lia) ltac:(lia)).
  pose proof (nd_le_pow (aligned a) d ltac:(lia) Hd) as Hnd. unfold nd in Hnd. lia.
Qed.

Lemma fixpoint_more f g md ps w0 w : (f <= g)%nat → offsets_fixpoint f md ps w0 = Ok w → relocate md ps w = Ok w →
  offsets_fixpoint g md ps w0 = Ok w.
Proof.
  revert g w0. induction f as [|f IH]; intros g w0 Hfg E Hw.
  - injection E as ->. destruct g as [|g]; [done|]. cbn [offsets_fixpoint]. rewrite Hw. cbn [rbind]. by rewrite bool_decide_true.
  - destruct g as [|g]; [lia|]. cbn [offsets_fixpoint] in *. destruct (relocate md ps w0) as [new|]; [|done]. cbn [rbind] in *.
    case_bool_decide; [done|]. apply IH; [lia|done..].
Qed.

Section settle.
Context (md : metadata_dict) (ps : payloads_dict) (Hmd : jwf (JObj md) = true) (Hps : names_ok ps = true).

Let tab (a : Z) : metadata_dict := with_table md (payload_table a ps).
Let next (a : Z) : Z := HEADER_STRUCT_size + Z.of_nat (dlen (JObj (tab a))).
Let ds (a : Z) : Z := Z.of_nat (digit_sum (offset_list a ps)).
Let k : Z := Z.of_nat (length ps).
Let d : Z := offset_digits md ps.
Let base : Z := next 0 - ds 0.
Let top : Z := base + k * d.

Lemma with_table_wf a : jwf (JObj (tab a)) = true.
Proof. apply jwf_dset; [done|done|by apply jwf_table]. Qed.

Lemma relocate_tab a : relocate md ps (tab a) = Ok (tab (next a)).
Proof. unfold relocate. rewrite json_dumps_ok by apply with_table_wf. cbn [rbind]. by rewrite blen_text. Qed.

Lemma next_eq a : 0 <= a → next a = base + ds a.
Proof.
  intros Ha. unfold base, next, ds. pose proof (dlen_table a 0 ps Ha ltac:(lia)).
  pose proof (dlen_dset md TABLE (JList (payload_table a ps)) (JList (payload_table 0 ps))). unfold tab, with_table. lia.
Qed.

Lemma next_mono a b : 0 <= a <= b → next a <= next b.
Proof. intros H. rewrite !next_eq by lia. pose proof (offset_list_mono a b ps H). unfold ds. lia. Qed.

Let start : Z := HEADER_STRUCT_size + Z.of_nat (dlen (JObj (with_table md []))).

Lemma start_base : start <= base.
Proof.
  assert (digit_sum (offset_list 0 ps) + 2 <= dlen (JList (payload_table 0 ps)))%nat as H1.
  { rewrite dlen_list. assert (∀ a, 0 <= a → (digit_sum (offset_list a ps) <= sum_list_with dlen (payload_table a ps))%nat) as H; [|specialize (H 0 ltac:(lia)); lia].
    clear. unfold digit_sum. induction ps as [|[n x] l IH]; intros a Ha; [done|]. cbn [offset_list payload_table sum_list_with].
    destruct (aligned_spec a) as [? _]. pose proof (blen_nonneg x). specialize (IH (aligned a + blen x) ltac:(lia)).
    pose proof (dlen_entry n (aligned a) (blen x) ltac:(lia)). assert (1 <= dlen (table_entry n 0 (blen x)))%nat; [|lia].
    unfold table_entry. rewrite dlen_obj. lia. }
  pose proof (dlen_dset md TABLE (JList (payload_table 0 ps)) (JList [])) as H2. change (dlen (JList [])) with 2%nat in H2.
  unfold start, base, next, ds, tab, with_table. lia.
Qed.

Lemma base_nonneg : 0 <= base ∧ base + k <= next 0.
Proof.
  assert (∀ a, 0 <= a → k <= ds a) as Hk.
  { unfold k, ds, digit_sum. clear. induction ps as [|[n x] l IH]; intros a Ha; [done|]. cbn [offset_list sum_list_with length].
    destruct (aligned_spec a) as [? _]. pose proof (blen_nonneg x). specialize (IH (aligned a + blen x) ltac:(lia)).
    pose proof (nd_spec (aligned a) ltac:(lia)) as [H1 _]. unfold nd in H1. lia. }
  specialize (Hk 0 ltac:(lia)). pose proof start_base. unfold start, HEADER_STRUCT_size in *. split; [lia|unfold base; lia].
Qed.

Lemma digits_enough : 1 <= d ∧ 0 <= k ∧ top + total_bytes ps + 64 * k < 10 ^ d.
Proof.
  destruct base_nonneg as [Hb0 Hb]. pose proof (total_bytes_nonneg ps) as Ht. assert (0 <= k) as Hk by (unfold k; lia).
  set (n := HEADER_STRUCT_size + Z.of_nat (dlen (JObj (tab 0))) + total_bytes ps + PAYLOAD_ALIGNMENT * k).
  assert (d = nd n + nd k + 3) as Hd.
  { unfold d, offset_digits. rewrite blen_text. reflexivity. }
  assert (n = next 0 + total_bytes ps + 64 * k) as Hn by done. assert (0 <= n) as Hn0 by lia.
  destruct (nd_spec n Hn0) as (N1 & N2 & _). destruct (nd_spec k Hk) as (K1 & K2 & _).
  pose proof (nd_small n Hn0). pose proof (nd_small k Hk). split_and!; [lia|done|].
  assert (10 ^ d = 10 ^ nd n * 10 ^ nd k * 1000) as ->.
  { rewrite Hd, !Z.pow_add_r by lia. done. }
  assert ((n + 1) * (k + 1) <= 10 ^ nd n * 10 ^ nd k) by (apply Z.mul_le_mono_nonneg; lia).
  assert (k * d <= k * (n + k + 5)) by (apply Z.mul_le_mono_nonneg_l; lia).
  assert (k * k <= n * k) by (apply Z.mul_le_mono_nonneg_r; lia).
  unfold top. nia.
Qed.

Lemma next_top a : 0 <= a <= top → next a <= top.
Proof.
  intros Ha. destruct digits_enough as (Hd & Hk & H). rewrite next_eq by lia. unfold top in *.
  pose proof (offset_list_bound a d ps ltac:(lia) Hd ltac:(fold k; lia)) as Hb. unfold ds. fold k in Hb. lia.
Qed.

Lemma settle_loop f : ∀ a, 0 <= a → a <= next a → a <= top → top - a < Z.of_nat f →
  ∃ b, 0 <= b ∧ offsets_fixpoint f md ps (tab a) = Ok (tab b) ∧ tab (next b) = tab b.
Proof.
  induction f as [|f IH]; intros a Ha Hn Ht Hf; [lia|]. cbn [offsets_fixpoint]. rewrite relocate_tab. cbn [rbind].
  case_bool_decide as E; [by exists a|]. destruct (decide (a = next a)) as [Ea|]; [by rewrite <-Ea in E|].
  apply IH; [lia|apply next_mono; lia|apply next_top; lia|lia].
Qed.

Lemma settles : ∃ b, 0 <= b ∧ _build_metadata_with_offsets md ps = Ok (tab b) ∧ tab (next b) = tab b.
Proof.
  unfold _build_metadata_with_offsets. destruct digits_enough as (Hd & Hk & _). destruct base_nonneg as [Hb0 Hb].
  assert (offsets_fuel md ps = S (S (Z.to_nat (k * d + 1)))) as ->.
  { unfold offsets_fuel. fold k d. replace (k * d + 3) with (Z.succ (Z.succ (k * d + 1))) by lia. rewrite !Z2Nat.inj_succ by nia. done. }
  set (w0 := with_table md []). set (a := start). pose proof start_base as Hab. fold a in Hab.
  assert (relocate md ps w0 = Ok (tab a)) as Hr.
  { unfold relocate. rewrite json_dumps_ok by (by apply jwf_dset). cbn [rbind]. by rewrite blen_text. }
  assert (0 <= a) as Ha by (unfold a, start, HEADER_STRUCT_size; lia).
  cbn [offsets_fixpoint]. rewrite Hr. cbn [rbind]. case_bool_decide as E1; [exists a|].
  { rewrite <-E1. split_and!; [done|done|]. rewrite E1. pose proof (relocate_tab a) as H. rewrite E1, Hr in H. congruence. }
  rewrite relocate_tab. cbn [rbind]. case_bool_decide as E2; [by exists a|].
  assert (∀ x, 0 <= x → base <= next x) as Hbn by (intros x Hx; rewrite next_eq by done; unfold ds; lia).
  assert (a <= top) as Hat by (unfold top; nia). specialize (Hbn a Ha). assert (a <= next a) by lia.
  apply settle_loop; [lia|apply next_mono; lia|apply next_top; lia|unfold top; nia].
Qed.
End settle.

(** ** The bytes of a blob *)

Fixpoint layout_end (a : Z) (ps : payloads_dict) : Z :=
  match ps with [] => a | (_, d) :: ps => layout_end (aligned a + blen d) ps end.

Fixpoint layout_bytes (a : Z) (ps : payloads_dict) : list byte :=
  match ps with [] => [] | (_, d) :: ps => zeros (aligned a - a) ++ d ++ layout_bytes (aligned a + blen d) ps end.

Fixpoint named_offsets (a : Z) (ps : payloads_dict) : list (str * Z) :=
  match ps with [] => [] | (n, d) :: ps => (n, aligned a) :: named_offsets (aligned a + blen d) ps end.

(** the metadata as it is written: the table starts where the text ends *)
Definition settled (md : metadata_dict) (ps : payloads_dict) (a : Z) : Prop :=
  _build_metadata_with_offsets md ps = Ok (with_table md (payload_table a ps)) ∧
  a = HEADER_STRUCT_size + blen (text_bytes (JObj (with_table md (payload_table a ps)))).

Lemma build_settles md ps : jwf (JObj md) = true → names_ok ps = true → ∃ a, settled md ps a.
Proof.
  intros Hmd Hps. destruct (settles md ps Hmd Hps) as (b & Hb & Hbuild & E).
  set (a := HEADER_STRUCT_size + Z.of_nat (dlen (JObj (with_table md (payload_table b ps))))) in *.
  exists a. unfold settled. rewrite E, blen_text. done.
Qed.

Lemma settled_relocates md ps a : jwf (JObj md) = true → names_ok ps = true → settled md ps a →
  relocate md ps (with_table md (payload_table a ps)) = Ok (with_table md (payload_table a ps)).
Proof.
  intros Hmd Hps [_ Ha]. rewrite relocate_tab by done. do 3 f_equal. rewrite Ha at 2. by rewrite blen_text.
Qed.

Lemma layout_end_ge a ps : a <= layout_end a ps.
Proof.
  revert a. induction ps as [|[n d] ps IH]; intros a; cbn; [lia|]. specialize (IH (aligned a + blen d)).
  destruct (aligned_spec a) as [? _]. pose proof (blen_nonneg d). lia.
Qed.

Lemma layout_bytes_length a ps : blen (layout_bytes a ps) = layout_end a ps - a.
Proof.
  revert a. induction ps as [|[n d] ps IH]; intros a; cbn [layout_bytes layout_end]; [by rewrite Z.sub_diag|].
  destruct (aligned_spec a) as [? _]. rewrite !blen_app, blen_zeros, IH by lia. lia.
Qed.

Lemma named_offsets_names a ps : (named_offsets a ps).*1 = ps.*1.
Proof. revert a. induction ps as [|[n d] ps IH]; intros a; cbn; [done|by f_equal]. Qed.

Section writing.
Context `{PyRepr}.

Lemma table_offsets_ok md a ps : NoDup ps.*1 → table_offsets (with_table md (payload_table a ps)) = Ok (named_offsets a ps).
Proof.
  intros HN. unfold table_offsets, with_table. rewrite dget_dset_eq.
  match goal with |- context[map_ok ?f _] => assert (∀ a, map_ok f (payload_table a ps) = Ok (named_offsets a ps)) as -> end.
  { clear HN. induction ps as [|[n d] ps' IH]; intros b; [done|]. cbn [payload_table named_offsets map_ok]. by rewrite IH. }
  cbn [rbind]. f_equal. rewrite (dupdate_app (named_offsets a ps) []); [done|]. unfold dwf, dkeys. rewrite app_nil_l. by rewrite named_offsets_names.
Qed.

Definition knows (offsets : list (str * Z)) (l : list (str * Z)) : Prop := Forall (λ p, dget offsets p.1 = Some p.2) l.

Lemma knows_all a ps : NoDup ps.*1 → knows (named_offsets a ps) (named_offsets a ps).
Proof.
  intros HN. apply Forall_forall. intros [n o] Hin. cbn. apply dget_wf_elem_of; [|done]. unfold dwf, dkeys. by rewrite named_offsets_names.
Qed.

Lemma total_length_ok offsets a ps : knows offsets (named_offsets a ps) → total_length offsets ps a = Ok (layout_end a ps).
Proof.
  revert a. induction ps as [|[n d] ps IH]; intros a Hk; [done|]. cbn [named_offsets] in Hk. apply Forall_cons in Hk as [Hn Hk].
  cbn [total_length layout_end]. unfold offset_of. cbn [fst snd] in Hn. rewrite Hn. cbn [rbind].
  destruct (aligned_spec a) as [? _]. pose proof (blen_nonneg d). rewrite Z.max_r by lia. by apply IH.
Qed.

Lemma place_payloads_ok offsets a ps pre : knows offsets (named_offsets a ps) → blen pre = a →
  place_payloads offsets ps (pre ++ zeros (layout_end a ps - a)) = Ok (pre ++ layout_bytes a ps).
Proof.
  revert a pre. induction ps as [|[n d] ps IH]; intros a pre Hk Hpre; [cbn; by rewrite Z.sub_diag|].
  cbn [named_offsets] in Hk. apply Forall_cons in Hk as [Hn Hk]. cbn [place_payloads layout_end layout_bytes]. unfold offset_of.
  cbn [fst snd] in Hn. rewrite Hn. cbn [rbind]. destruct (aligned_spec a) as [? _]. pose proof (blen_nonneg d).
  pose proof (layout_end_ge (aligned a + blen d) ps).
  replace (layout_end (aligned a + blen d) ps - a) with ((aligned a - a) + (blen d + (layout_end (aligned a + blen d) ps - (aligned a + blen d)))) by lia.
  rewrite !zeros_app by lia. rewrite app_assoc. rewrite slice_assign_app; rewrite ?blen_app, ?blen_zeros by lia; [|lia..].
  rewrite app_assoc. rewrite IH; [by rewrite <-!app_assoc|done|].
  rewrite !blen_app, blen_zeros by lia. lia.
Qed.

Definition header_text (magic : list byte) (m t c : Z) : list byte := magic ++ le_bytes 4 1 ++ le_bytes 4 m ++ le_bytes 4 t ++ le_bytes 4 c.

Definition blob_text (magic meta data : list byte) (c : Z) : list byte :=
  header_text magic (blen meta) (HEADER_STRUCT_size + blen meta + blen data) c ++ meta ++ data.

Definition blob (magic meta data : list byte) : list byte := blob_text magic meta data (crc32 (blob_text magic meta data 0) 0).

Lemma pack_le_ok z : 0 <= z < 2 ^ 32 → pack_le 4 z = Ok (le_bytes 4 z).
Proof. intros. unfold pack_le. change (256 ^ Z.of_nat 4) with (2 ^ 32). by rewrite (proj2 (andb_true_iff _ _)) by lia. Qed.

Lemma blen_le z : blen (le_bytes 4 z) = 4.
Proof. unfold blen. by rewrite le_bytes_length. Qed.

Lemma blen_header_text magic m t c : blen magic = 4 → blen (header_text magic m t c) = 20.
Proof. intros E. unfold header_text. rewrite !blen_app, E, !blen_le. done. Qed.

Lemma encode_blob_ok magic md ps a : blen magic = 4 → jwf (JObj md) = true → names_ok ps = true → NoDup ps.*1 → settled md ps a →
  _encode_blob magic md ps 1 =
    if layout_end a ps <? 2 ^ 32 then Ok (blob magic (text_bytes (JObj (with_table md (payload_table a ps)))) (layout_bytes a ps))
    else Raise StructError.
Proof.
  intros Hmagic Hmd Hps HN [Hb Ha]. unfold _encode_blob. rewrite bool_decide_true by by left. rewrite Hb. cbn [rbind].
  rewrite json_dumps_ok by by apply with_table_wf. cbn [rbind]. rewrite table_offsets_ok by done. cbn [rbind].
  set (meta := text_bytes _) in *. rewrite <-Ha. rewrite total_length_ok by by apply knows_all. cbn [rbind].
  pose proof (layout_end_ge a ps) as Hend. pose proof (blen_nonneg meta) as Hm. unfold HEADER_STRUCT_size in Ha.
  unfold HEADER_STRUCT_pack. rewrite (pack_le_ok 1) by lia. cbn [rbind].
  destruct (Z.ltb_spec (layout_end a ps) (2 ^ 32)) as [Hlt|Hge].
  - rewrite !pack_le_ok by lia. cbn [rbind].
    change (magic ++ le_bytes 4 1 ++ le_bytes 4 (blen meta) ++ le_bytes 4 (layout_end a ps) ++ le_bytes 4 0)
      with (header_text magic (blen meta) (layout_end a ps) 0).
    set (header := header_text _ _ _ _). assert (blen header = 20) as Hh by by apply blen_header_text.
    replace (layout_end a ps) with (20 + (blen meta + (layout_end a ps - a))) at 1 by lia. rewrite !zeros_app by lia.
    pose proof (pack_into_app [] (zeros 20) (zeros (blen meta) ++ zeros (layout_end a ps - a)) 0 header eq_refl ltac:(by rewrite Hh)) as Hp.
    cbn [app] in Hp. rewrite Hp. cbn [rbind].
    rewrite (slice_assign_app header (zeros (blen meta))) by (rewrite ?blen_zeros, ?Hh; unfold HEADER_STRUCT_size; lia).
    rewrite app_assoc. rewrite place_payloads_ok; [|by apply knows_all|rewrite blen_app, Hh; lia]. cbn [rbind].
    rewrite crc32_mask by (unfold word32; lia). rewrite <-app_assoc.
    assert (layout_end a ps = HEADER_STRUCT_size + blen meta + blen (layout_bytes a ps)) as He by (rewrite layout_bytes_length; unfold HEADER_STRUCT_size; lia).
    assert (header ++ meta ++ layout_bytes a ps = blob_text magic meta (layout_bytes a ps) 0) as -> by (unfold blob_text, header; by rewrite He).
    rewrite pack_le_ok by (apply crc32_word; unfold word32; lia). cbn [rbind]. unfold blob. set (c := crc32 _ _).
    unfold blob_text, header_text. rewrite <-!app_assoc.
    rewrite !(app_assoc magic), !(app_assoc (magic ++ _)), !(app_assoc ((magic ++ _) ++ _)).
    apply pack_into_app; rewrite ?blen_app, ?blen_le, ?Hmagic; done.
  - assert (pack_le 4 (layout_end a ps) = Raise StructError) as ->.
    { unfold pack_le. change (256 ^ Z.of_nat 4) with (2 ^ 32). rewrite andb_comm. by replace (layout_end a ps <? 2 ^ 32) with false by lia. }
    by destruct (pack_le 4 (blen meta)) as [|[]] eqn:E; unfold pack_le in E; case_match; simplify_eq.
Qed.
End writing.

(** ** Reading it back *)

Lemma unpack_from_app_0 l1 l2 size : size = blen l1 → unpack_from (l1 ++ l2) 0 size = Ok l1.
Proof. intros ->. by apply (unpack_from_app [] l1 l2). Qed.

Lemma le_val_word z : word32 z → le_val (le_bytes 4 z) = z.
Proof. intros Hz. rewrite le_val_bytes. change (256 ^ Z.of_nat 4) with (2 ^ 32). by apply Z.mod_small. Qed.

Lemma header_text_unpack magic m t c : blen magic = 4 → word32 m → word32 t → word32 c →
  HEADER_STRUCT_unpack (header_text magic m t c) = (magic, 1, m, t, c).
Proof.
  intros Hmagic Hm Ht Hc. unfold HEADER_STRUCT_unpack, header_text.
  assert (∀ l1 l2 l3 x y, x = blen l1 → y = x + blen l2 → slice (l1 ++ l2 ++ l3) x y = l2) as Hs by (intros; subst; by apply slice_app).
  rewrite (slice_app_0 magic) by lia. rewrite (Hs magic (le_bytes 4 1)) by (rewrite ?blen_le; lia).
  rewrite (app_assoc magic), (Hs (magic ++ _) (le_bytes 4 m)) by (rewrite ?blen_app, ?blen_le; lia).
  rewrite (app_assoc (magic ++ _)), (Hs ((magic ++ _) ++ _) (le_bytes 4 t)) by (rewrite ?blen_app, ?blen_le; lia).
  rewrite (app_assoc ((magic ++ _) ++ _)). rewrite <-(app_nil_r (le_bytes 4 c)).
  rewrite (Hs (((magic ++ _) ++ _) ++ _) (le_bytes 4 c)) by (rewrite ?blen_app, ?blen_le; lia).
  by rewrite !le_val_word by (done || (unfold word32; lia)).
Qed.

Lemma blen_blob_text magic meta data c : blen magic = 4 → blen (blob_text magic meta data c) = 20 + blen meta + blen data.
Proof. intros. unfold blob_text. rewrite !blen_app, blen_header_text by done. lia. Qed.

(** the checksum field is skipped *)
Lemma checksum_ok magic meta data c : blen magic = 4 →
  let b := blob_text magic meta data c in
  crc32 (slice b (CHECKSUM_OFFSET + 4) (blen b)) (crc32 (zeros 4) (crc32 (slice b 0 CHECKSUM_OFFSET) 0)) = crc32 (blob_text magic meta data 0) 0.
Proof.
  intros Hmagic b. rewrite <-!crc32_app. f_equal. unfold b, CHECKSUM_OFFSET. rewrite blen_blob_text by done.
  set (pre := magic ++ le_bytes 4 1 ++ le_bytes 4 (blen meta) ++ le_bytes 4 (HEADER_STRUCT_size + blen meta + blen data)).
  assert (blen pre = 16) as Hpre by (unfold pre; by rewrite !blen_app, !blen_le, Hmagic).
  assert (∀ c, blob_text magic meta data c = pre ++ le_bytes 4 c ++ meta ++ data) as Hb.
  { intros c'. unfold blob_text, header_text, pre. by rewrite <-!app_assoc. }
  rewrite !Hb. rewrite (slice_app_0 pre) by done.
  assert (slice (pre ++ le_bytes 4 c ++ meta ++ data) (16 + 4) (20 + blen meta + blen data) = meta ++ data) as ->; [|done].
  rewrite app_assoc, <-(app_nil_r (meta ++ data)) at 1. apply slice_app; rewrite ?blen_app, ?blen_le, Hpre; lia.
Qed.

Lemma decode_blob_ok magic meta data ms verify : blen magic = 4 → 20 + blen meta + blen data < 2 ^ 32 → json_loads meta = Ok (JObj ms) →
  _decode_blob (blob magic meta data) magic verify = Ok (ms, HEADER_STRUCT_size + blen meta, 1).
Proof.
  intros Hmagic Hlen Hj. pose proof (blen_nonneg meta). pose proof (blen_nonneg data). unfold blob. set (c := crc32 _ 0).
  assert (word32 c) as Hc by (apply crc32_word; unfold word32; lia).
  pose proof (blen_blob_text magic meta data c Hmagic) as Hbl. unfold _decode_blob, HEADER_STRUCT_size.
  replace (blen _ <? 20) with false by lia. cbn [negb].
  unfold blob_text at 1. rewrite unpack_from_app_0 by (by rewrite blen_header_text). cbn [rbind].
  rewrite header_text_unpack by (done || (unfold word32, HEADER_STRUCT_size; lia)).
  rewrite !bool_decide_true by (done || by left). rewrite Hbl. unfold HEADER_STRUCT_size.
  rewrite Z.eqb_refl. replace (_ <? 20) with false by lia. cbn [orb negb].
  replace (_ <? blen meta) with false by lia. cbn [negb].
  rewrite <-Hbl, checksum_ok by done. rewrite crc32_mask by (unfold word32; lia). fold c. rewrite Z.eqb_refl, orb_true_r.
  replace (slice _ 20 (20 + blen meta)) with meta; [by rewrite Hj|]. symmetry. unfold blob_text.
  apply slice_app; rewrite blen_header_text by done; lia.
Qed.

Lemma dget_permutation {A} (l l' : list (str * A)) k : NoDup l.*1 → l ≡ₚ l' → dget l k = dget l' k.
Proof.
  intros HN Hp. assert (NoDup l'.*1) as HN' by by rewrite <-Hp. destruct (dget l k) as [v|] eqn:E.
  - symmetry. apply dget_wf_elem_of; [done|]. rewrite <-Hp. by apply dget_elem_of.
  - symmetry. apply dget_None_dkeys. apply dget_None_dkeys in E. unfold dkeys in *. by rewrite <-Hp.
Qed.

Lemma dget_fmap_value {A B} (f : A → B) (l : list (str * A)) k : dget ((λ m, (m.1, f m.2)) <$> l) k = f <$> dget l k.
Proof. induction l as [|[k1 v1] l IH]; [done|]. cbn [fmap list_fmap dget fst snd]. case_decide; [done|exact IH]. Qed.

(** the items of an object after a round trip *)
Definition norm_items (ms : metadata_dict) : metadata_dict := sort_items ((λ m, (m.1, norm m.2)) <$> ms).

Lemma norm_items_keys ms : (norm_items ms).*1 ≡ₚ ms.*1.
Proof. unfold norm_items. rewrite sort_items_perm, <-list_fmap_compose. done. Qed.

Lemma norm_items_dget ms k : NoDup ms.*1 → dget (norm_items ms) k = norm <$> dget ms k.
Proof.
  intros HN. rewrite <-dget_fmap_value. symmetry. apply dget_permutation; [by rewrite <-list_fmap_compose|].
  unfold norm_items. by rewrite sort_items_perm.
Qed.

Lemma jwf_keys ms : jwf (JObj ms) = true → NoDup ms.*1.
Proof. cbn [jwf]. by intros [HN%bool_decide_eq_true _]%andb_prop. Qed.

Fixpoint ranges_at (a : Z) (ps : payloads_dict) : list (Z * Z) :=
  match ps with [] => [] | (_, d) :: ps => (aligned a, aligned a + blen d) :: ranges_at (aligned a + blen d) ps end.

Lemma ranges_at_sorted a ps :
  Forall (λ r, a <= r.1 ∧ r.1 <= r.2 ∧ (64 | r.1)) (ranges_at a ps) ∧ StronglySorted precedes (ranges_at a ps).
Proof.
  revert a. induction ps as [|[n d] ps IH]; intros a; [by split; constructor|]. cbn [ranges_at].
  destruct (aligned_spec a) as [? ?]. pose proof (blen_nonneg d). destruct (IH (aligned a + blen d)) as [HF HS]. split.
  - constructor; [cbn; split_and!; [lia|lia|done]|]. eapply Forall_impl; [exact HF|]. cbn. intros r (? & ? & ?). split_and!; [lia|done|done].
  - constructor; [done|]. eapply Forall_impl; [exact HF|]. cbn. intros r (? & ? & ?). unfold precedes. cbn. lia.
Qed.

Lemma overlap_loop_false rs : Forall (λ r, r.1 <= r.2) rs → ∀ pe,
  ranges_overlap_loop pe rs = false ↔ Forall (λ r, pe <= r.1) rs ∧ StronglySorted precedes rs.
Proof.
  induction 1 as [|[x y] rs Hxy HF IH]; intros pe; [split; [by repeat constructor|done]|]. cbn [ranges_overlap_loop fst snd] in *.
  rewrite orb_false_iff, IH, Z.ltb_ge. split.
  - intros (H1 & H2 & H3). split; [constructor; [done|]|by constructor].
    eapply Forall_impl; [exact H2|]. cbn. lia.
  - intros [H1 H2]. apply Forall_cons in H1 as [H1 _]. apply StronglySorted_inv in H2 as [H2 H3]. done.
Qed.

(** the check of the ranges is exact *)
Lemma ranges_overlap_false rs : Forall (λ r, 0 <= r.1 ∧ r.1 <= r.2) rs →
  _ranges_overlap rs = false → StronglySorted range_disjoint rs.
Proof.
  intros HF E. unfold _ranges_overlap in E. apply overlap_loop_false in E as [_ HS].
  - eapply StronglySorted_sym_perm; [|apply (merge_sort_Permutation pair_le)|].
    + unfold range_disjoint. tauto.
    + induction HS as [|r rs' HS IH Hr]; constructor; [done|]. eapply Forall_impl; [done|]. unfold range_disjoint. tauto.
  - rewrite (merge_sort_Permutation pair_le). eapply Forall_impl; [exact HF|]. cbn. tauto.
Qed.

Lemma ranges_at_disjoint a ps : 0 <= a → _ranges_overlap (ranges_at a ps) = false.
Proof.
  intros Ha. destruct (ranges_at_sorted a ps) as [HF HS]. unfold _ranges_overlap.
  assert (Forall (λ r, r.1 <= r.2) (ranges_at a ps)) as HF' by (eapply Forall_impl; [exact HF|]; cbn; tauto).
  rewrite pair_le_sorted_unique by done. apply overlap_loop_false; [done|]. split; [|done].
  eapply Forall_impl; [exact HF|]. cbn. lia.
Qed.

Section reading.
Context `{PyRepr}.

Lemma read_norm_entry n o l : read_entry (norm (table_entry n o l)) = Ok (o, l, n).
Proof. reflexivity. Qed.

Lemma retained_norm_entry n o l : retained_entry (norm (table_entry n o l)) n o l = norm (table_entry n o l).
Proof. reflexivity. Qed.

Lemma object_entries_ok b meta_end a pre post ps st : b = pre ++ layout_bytes a ps ++ post → blen pre = a → 0 <= meta_end <= a →
  NoDup ps.*1 → (∀ n, n ∈ ps.*1 → n ∉ dkeys (es_payloads st)) →
  object_entries b meta_end (norm <$> payload_table a ps) st =
  Ok (mkEntries (es_payloads st ++ ps) (es_retained st ++ (norm <$> payload_table a ps)) (es_ranges st ++ ranges_at a ps)).
Proof.
  revert a pre st. induction ps as [|[n d] ps IH]; intros a pre st Hb Hpre Hme HN Hfresh.
  - cbn. rewrite !app_nil_r. by destruct st.
  - cbn [payload_table fmap list_fmap object_entries ranges_at layout_bytes] in *. rewrite read_norm_entry. cbn [rbind].
    apply NoDup_cons in HN as [Hn HN]. destruct (aligned_spec a) as [? _]. pose proof (blen_nonneg d).
    assert (slice b (aligned a) (aligned a + blen d) = d) as ->.
    { rewrite Hb. rewrite <-!app_assoc, app_assoc. apply slice_app; rewrite ?blen_app, ?blen_zeros; lia. }
    assert (out_of_bounds b meta_end (aligned a) (blen d) = false) as ->.
    { unfold out_of_bounds. rewrite Hb, !blen_app, blen_zeros by lia. pose proof (blen_nonneg post).
      pose proof (blen_nonneg (layout_bytes (aligned a + blen d) ps)). lia. }
    cbn [negb]. rewrite retained_norm_entry.
    rewrite (IH _ (pre ++ zeros (aligned a - a) ++ d)).
    + cbn [es_payloads es_retained es_ranges]. rewrite dkeys_dset_new, <-!app_assoc; [done|].
      apply dget_None_dkeys, Hfresh. by left.
    + rewrite Hb. by rewrite <-!app_assoc.
    + rewrite !blen_app, blen_zeros by lia. lia.
    + lia.
    + done.
    + cbn [es_payloads]. intros x Hx. rewrite dkeys_dset_new by (apply dget_None_dkeys, Hfresh; by left).
      unfold dkeys. rewrite fmap_app, elem_of_app. cbn. intros [Hin|Hin%list_elem_of_singleton]; [by apply (Hfresh x); [right|]|by subst].
Qed.
End reading.

Lemma peek_blob_ok meta data : 20 + blen meta + blen data < 2 ^ 32 →
  peek_makv_header (blob OBJECT_MAGIC meta data) = Ok (1, 20 + blen meta + blen data, crc32 (blob_text OBJECT_MAGIC meta data 0) 0).
Proof.
  intros Hlen. pose proof (blen_nonneg meta). pose proof (blen_nonneg data). unfold blob. set (c := crc32 _ 0).
  assert (word32 c) as Hc by (apply crc32_word; unfold word32; lia).
  pose proof (blen_blob_text OBJECT_MAGIC meta data c eq_refl) as Hbl. unfold peek_makv_header, HEADER_STRUCT_size.
  replace (blen _ <? 20) with false by lia. cbn [negb].
  unfold blob_text at 1. rewrite unpack_from_app_0 by (by rewrite blen_header_text). cbn [rbind].
  rewrite header_text_unpack by (done || (unfold word32, HEADER_STRUCT_size; lia)).
  rewrite !bool_decide_true by (done || by left). rewrite Hbl. unfold HEADER_STRUCT_size. by rewrite Z.eqb_refl.
Qed.
