(* ===== verification/MakvTheorems.v ===== *)
(** * Stored objects and PUT envelopes: theorems

    What [MakvFormat] promises to the manager and to the servers. *)

From Stdlib Require Import Strings.Byte SpecFloat.
From S2P Require Import Prelude PyDict PyState PyFloat BatchBlob ObjectKey Utf8 LowBitPacking Json MakvFormat MakvFormatProofs.
Import Struct.

Open Scope Z_scope.

(** ** Encoding, then decoding *)

Section roundtrip.
Context `{PyRepr} (md : metadata_dict) (ps : payloads_dict) (a : Z).
Context (Hmd : jwf (JObj md) = true) (Hps : names_ok ps = true) (HN : NoDup ps.*1) (Ha : settled md ps a).
Context (magic : list byte) (Hmagic : blen magic = 4) (Hlt : layout_end a ps < 2 ^ 32).

Let w : metadata_dict := with_table md (payload_table a ps).
Let b : list byte := blob magic (text_bytes (JObj w)) (layout_bytes a ps).

Lemma settled_start : a = 20 + blen (text_bytes (JObj w)).
Proof. apply Ha. Qed.

Lemma settled_blen : blen b = layout_end a ps.
Proof. unfold b, blob. rewrite blen_blob_text, layout_bytes_length by done. pose proof settled_start. lia. Qed.

Lemma written_metadata verify : _decode_blob b magic verify = Ok (norm_items w, a, 1).
Proof.
  assert (jwf (JObj w) = true) as Hw by by apply with_table_wf. pose proof settled_start as Hs. pose proof (layout_end_ge a ps).
  rewrite (decode_blob_ok magic (text_bytes (JObj w)) (layout_bytes a ps) (norm_items w)).
  - unfold HEADER_STRUCT_size. by rewrite <-Hs.
  - done.
  - rewrite layout_bytes_length. lia.
  - by rewrite json_roundtrip.
Qed.

Lemma written_keys : NoDup w.*1.
Proof. apply jwf_keys. by apply with_table_wf. Qed.

Lemma written_get k : dget (norm_items w) k = if decide (k = TABLE) then Some (norm (JList (payload_table a ps))) else norm <$> dget md k.
Proof.
  rewrite norm_items_dget by apply written_keys. unfold w, with_table. case_decide; subst; [by rewrite dget_dset_eq|].
  by rewrite dget_dset_ne.
Qed.

Lemma written_layout : ∃ pre, b = pre ++ layout_bytes a ps ++ [] ∧ blen pre = a.
Proof.
  unfold b, blob, blob_text. rewrite app_assoc. eexists. rewrite app_nil_r. split; [reflexivity|].
  rewrite blen_app, blen_header_text by done. symmetry. apply settled_start.
Qed.

Lemma start_nonneg : 20 <= a.
Proof. pose proof settled_start. pose proof (blen_nonneg (text_bytes (JObj w))). lia. Qed.

Lemma written_entries :
  object_entries b a (norm <$> payload_table a ps) (mkEntries [] [] []) =
  Ok (mkEntries ps (norm <$> payload_table a ps) (ranges_at a ps)).
Proof.
  destruct written_layout as (pre & Hb & Hpre). pose proof start_nonneg.
  rewrite (object_entries_ok b a a pre [] ps (mkEntries [] [] [])); [done|done|done|lia|done|].
  intros n _. apply not_elem_of_nil.
Qed.
End roundtrip.

Lemma py_int_norm v : py_int (norm v) = py_int v.
Proof. by destruct v. Qed.

Definition checksum_of (md : metadata_dict) : result Z :=
  match dget md (lit "checksum") with Some v => py_int v | None => Ok 0 end.

(** C21: A stored object reads back as it was written. For metadata that JSON can carry
    and payloads of distinct names, [encode_makv_object] fails only when the object
    would reach four gigabytes; otherwise its bytes decode, with or without the check
    of the checksum, to the same object type, the same payloads in the same order, the
    checksum entry, and metadata that agrees with the original at every key but the
    table of payloads and the object type; and the header can be peeked at. *)
Theorem makv_object_roundtrip `{PyRepr} (object_type : str) (md : metadata_dict) (ps : payloads_dict) (c : Z) :
  jwf (JObj md) = true → str_ok object_type = true → names_ok ps = true → NoDup ps.*1 →
  lit "object_type" ∉ md.*1 → checksum_of md = Ok c →
  ∃ total b, encode_makv_object object_type md ps 1 = (if total <? 2 ^ 32 then Ok b else Raise StructError) ∧
    (total < 2 ^ 32 →
      blen b = total ∧
      (∃ crc, peek_makv_header b = Ok (1, total, crc)) ∧
      ∀ verify, ∃ o, decode_makv_object b verify = Ok o ∧
        mo_object_type o = object_type ∧ mo_payloads o = ps ∧ mo_checksum o = c ∧ mo_protocol_version o = 1 ∧
        ∀ k, k ≠ TABLE → k ≠ lit "object_type" → dget (mo_metadata o) k = norm <$> dget md k).
Proof.
  intros Hmd Ht Hps HN Hot Hc. set (smd := dupdate [(lit "object_type", JStr object_type)] md).
  assert (smd = (lit "object_type", JStr object_type) :: md) as Hsmd.
  { unfold smd. rewrite dupdate_app; [done|]. unfold dwf, dkeys. cbn. apply NoDup_cons. split; [done|by apply jwf_keys]. }
  assert (jwf (JObj smd) = true) as Hw.
  { rewrite Hsmd. cbn [jwf forallb fst snd fmap list_fmap] in *. apply andb_prop in Hmd as [HN1%bool_decide_eq_true Hf].
    rewrite Ht, Hf. rewrite bool_decide_true; [done|]. by apply NoDup_cons. }
  destruct (build_settles smd ps Hw Hps) as [a Ha]. exists (layout_end a ps). eexists. unfold encode_makv_object. fold smd.
  split; [by apply encode_blob_ok|]. intros Hlt. split_and!; [by apply settled_blen| |].
  - eexists. rewrite (peek_blob_ok (text_bytes _) (layout_bytes a ps)); rewrite layout_bytes_length; pose proof (settled_start _ _ _ Ha); [|lia].
    do 3 f_equal. lia.
  - intros verify. unfold decode_makv_object. rewrite (written_metadata smd ps a Hw Hps Ha) by done. cbn [rbind].
    rewrite written_get, decide_True by done. cbn [norm].
    rewrite (written_entries smd ps a HN Ha) by done. cbn [rbind es_payloads es_retained es_ranges].
    rewrite length_fmap, payload_table_length, Nat.eqb_refl, ranges_at_disjoint by (pose proof (start_nonneg smd ps a Ha); lia).
    cbn [negb orb].
    assert (∀ v k, k ≠ TABLE → dget (dset (ddel (norm_items (with_table smd (payload_table a ps))) TABLE) TABLE v) k = norm <$> dget smd k) as Hget.
    { intros v k Hk. rewrite dget_dset_ne, dget_ddel_ne, written_get, decide_False by done. done. }
    rewrite !Hget by done. assert (dget smd (lit "checksum") = dget md (lit "checksum")) as -> by by rewrite Hsmd.
    assert (dget smd (lit "object_type") = Some (JStr object_type)) as -> by by rewrite Hsmd.
    assert (match norm <$> dget md (lit "checksum") with Some c => py_int c | None => Ok 0 end = Ok c) as ->.
    { unfold checksum_of in Hc. destruct (dget md (lit "checksum")); cbn; [by rewrite py_int_norm|done]. }
    cbn [rbind fmap option_fmap option_map norm]. eexists. split; [reflexivity|]. split_and!; [done..|].
    intros k Hk1 Hk2. cbn [mo_metadata]. rewrite dget_ddel_ne by done. rewrite Hget by done. rewrite Hsmd. cbn [dget].
    by rewrite decide_False.
Qed.

(** The loop that writes offsets into the metadata ends. However the offsets change
    the length of the text that holds them, [_build_metadata_with_offsets] returns
    metadata that one more round would leave as it is, so every offset in the table is
    where the payload will be, counted from the end of the very text that is written;
    the offsets are multiples of 64 and more rounds change nothing. *)
Theorem metadata_offsets_settle (md : metadata_dict) (ps : payloads_dict) :
  jwf (JObj md) = true → names_ok ps = true →
  ∃ w a, _build_metadata_with_offsets md ps = Ok w ∧ relocate md ps w = Ok w ∧
    (∀ fuel, (offsets_fuel md ps <= fuel)%nat → offsets_fixpoint fuel md ps (with_table md []) = Ok w) ∧
    dget w TABLE = Some (JList (payload_table a ps)) ∧ a = HEADER_STRUCT_size + blen (text_bytes (JObj w)) ∧
    Forall (λ r, a <= r.1 ∧ r.1 <= r.2 ∧ (64 | r.1)) (ranges_at a ps) ∧ StronglySorted precedes (ranges_at a ps).
Proof.
  intros Hmd Hps. destruct (build_settles md ps Hmd Hps) as [a Ha]. pose proof (settled_relocates md ps a Hmd Hps Ha) as Hr.
  destruct Ha as [Hb Ha]. eexists _, a. split; [exact Hb|]. split; [exact Hr|]. split_and!.
  - intros fuel Hf. by eapply fixpoint_more.
  - apply dget_dset_eq.
  - exact Ha.
  - apply ranges_at_sorted.
  - apply ranges_at_sorted.
Qed.

(** ** Envelopes *)

Lemma envelope_entry b me i n o l table ps rs :
  envelope_entries b me i (norm (table_entry n o l) :: table) ps rs =
  if negb (out_of_bounds b me o l)
  then envelope_entries b me (S i) table (dset ps (KStr n) (slice b o (o + l))) (rs ++ [(o, o + l)]) else Raise ValueError.
Proof. reflexivity. Qed.

(** A PUT envelope reads back as it was written: key, object type, plan, extra
    entries and the raw payload, unless the envelope would reach four gigabytes. *)
Theorem put_envelope_roundtrip `{PyRepr} (key object_type : str) (plan : option metadata_dict) (raw : list byte) (extra : metadata_dict) :
  str_ok key = true → str_ok object_type = true → (∀ p, plan = Some p → jwf (JObj p) = true) → jwf (JObj extra) = true →
  (∀ k, k ∈ extra.*1 → k ≠ lit "key" ∧ k ≠ lit "object_type" ∧ k ≠ lit "plan") →
  ∃ total b, encode_client_put_envelope key object_type plan raw extra = (if total <? 2 ^ 32 then Ok b else Raise StructError) ∧
    (total < 2 ^ 32 → blen b = total ∧
      ∃ e, decode_client_put_envelope b = Ok e ∧ ce_key e = key ∧ ce_object_type e = object_type ∧ ce_raw_kv_payload e = raw ∧
        dget (ce_metadata e) (lit "plan") = Some (match plan with Some p => norm (JObj p) | None => JNull end) ∧
        ∀ k, k ∈ extra.*1 → k ≠ TABLE → dget (ce_metadata e) k = norm <$> dget extra k).
Proof.
  intros Hk Ht Hp He Hx. set (jp := match plan with Some p => JObj p | None => JNull end).
  set (base := [(lit "key", JStr key); (lit "object_type", JStr object_type); (lit "plan", jp)]).
  assert (jwf jp = true) as Hjp by (unfold jp; destruct plan as [p|]; [by apply Hp|done]).
  assert (NoDup (base ++ extra).*1) as HN.
  { rewrite fmap_app. apply NoDup_app. split_and!; [apply (bool_decide_unpack _); vm_compute; exact I| |by apply jwf_keys].
    intros k Hin Hin2. destruct (Hx k Hin2) as (? & ? & ?). cbn in Hin. rewrite !elem_of_cons, elem_of_nil in Hin. naive_solver. }
  assert (dupdate base extra = base ++ extra) as Hd by by apply dupdate_app.
  assert (jwf (JObj (base ++ extra)) = true) as Hw.
  { cbn [jwf]. rewrite bool_decide_true by done. rewrite forallb_app. cbn [jwf] in He. apply andb_prop in He as [_ He]. rewrite He.
    unfold base. cbn [forallb fst snd jwf]. rewrite Hk, Ht, Hjp. done. }
  set (ps := [(lit "raw_kv_payload", raw)]). assert (names_ok ps = true) as Hps by done.
  assert (NoDup ps.*1) as HNp by apply NoDup_singleton.
  destruct (build_settles _ ps Hw Hps) as [a Ha]. exists (layout_end a ps). eexists.
  unfold encode_client_put_envelope. fold jp base ps. rewrite Hd. split; [by apply encode_blob_ok|]. intros Hlt.
  split; [by apply settled_blen|]. unfold decode_client_put_envelope.
  rewrite (written_metadata _ ps a Hw Hps Ha) by done. cbn [rbind]. rewrite Z.eqb_refl, written_get, decide_True by done. cbn [norm].
  destruct (written_layout _ ps a Ha CLIENT_MAGIC eq_refl) as (pre & Hb & Hpre). set (b := blob _ _ _) in *.
  pose proof (start_nonneg _ ps a Ha). destruct (aligned_spec a) as [? _]. pose proof (blen_nonneg raw).
  assert (envelope_entries b a 0 (norm <$> payload_table a ps) [] [] =
    Ok ([(KStr (lit "raw_kv_payload"), raw)], [(aligned a, aligned a + blen raw)])) as ->.
  { cbn [payload_table ps fmap list_fmap]. rewrite envelope_entry. unfold out_of_bounds. assert (slice b (aligned a) (aligned a + blen raw) = raw) as ->.
    { rewrite Hb. cbn [layout_bytes ps]. rewrite <-!app_assoc, app_assoc. apply slice_app; rewrite ?blen_app, ?blen_zeros; lia. }
    replace (_ || _) with false; [done|]. rewrite Hb. cbn [layout_bytes ps]. rewrite !blen_app, blen_zeros by lia. change (blen []) with 0. lia. }
  cbn [rbind]. change [(aligned a, aligned a + blen raw)] with (ranges_at a ps). rewrite ranges_at_disjoint by lia.
  rewrite length_fmap, payload_table_length. cbn [length ps Nat.eqb negb orb].
  assert (∀ k, k ≠ TABLE → dget (ddel (norm_items (with_table (base ++ extra) (payload_table a ps))) TABLE) k = norm <$> dget (base ++ extra) k) as Hget.
  { intros k Hk'. by rewrite dget_ddel_ne, written_get, decide_False by done. }
  cbn [subscript]. rewrite !Hget by done. cbn [app base dget]. eexists. split; [reflexivity|]. cbn [ce_key ce_object_type ce_raw_kv_payload ce_metadata].
  split_and!; [done|done|done|rewrite Hget by done; cbn; unfold jp; by destruct plan|].
  intros k Hin Hk'. rewrite Hget by done. destruct (Hx k Hin) as (? & ? & ?). cbn [app base dget]. by rewrite !decide_False by done.
Qed.

(** ** Arbitrary bytes *)

Definition meta_end_of (b : list byte) : Z := HEADER_STRUCT_size + le_val (slice b 8 12).

Lemma decode_blob_cases b magic verify :
  match _decode_blob b magic verify with
  | Ok (_, meta_end, version) => meta_end = meta_end_of b ∧ 20 <= meta_end <= blen b ∧ version = 1
  | Raise e => e = ValueError
  end.
Proof.
  unfold _decode_blob, meta_end_of, HEADER_STRUCT_size. destruct (Z.ltb_spec (blen b) 20) as [|H20]; [done|]. cbn [negb].
  unfold unpack_from. rewrite (proj2 (andb_true_iff _ _)) by lia. cbn [rbind].
  unfold HEADER_STRUCT_unpack. case_bool_decide; [|done].
  assert (slice (slice b 0 (0 + 20)) 8 12 = slice b 8 12) as ->.
  { unfold slice. rewrite drop_0, skipn_firstn_comm, take_take. f_equal; lia. }
  case_bool_decide as Hv; [|done].
  destruct (Z.ltb_spec (le_val (slice (slice b 0 (0 + 20)) 12 16)) 20) as [|H1]; [done|].
  destruct (Z.eqb_spec (le_val (slice (slice b 0 (0 + 20)) 12 16)) (blen b)) as [E|]; [|done]. cbn [orb negb].
  destruct (Z.ltb_spec (le_val (slice (slice b 0 (0 + 20)) 12 16) - 20) (le_val (slice b 8 12))); [done|]. cbn [negb].
  destruct (negb verify || _); [|done]. unfold json_loads, decode_utf8. destruct (decode_codes _) as [s|]; [|done]. cbn [rbind].
  destruct (loads_str s) as [v|]; [|done]. cbn [rbind]. destruct v; try done.
  assert (0 <= le_val (slice b 8 12)) by (apply be_val_range).
  split_and!; [done|lia|lia|]. unfold SUPPORTED_OBJECT_VERSIONS in Hv. by apply list_elem_of_singleton in Hv.
Qed.

(** exceptions other than the ones listed are not raised *)
Definition raises_only {A} (es : list exn) (r : result A) : Prop := match r with Ok _ => True | Raise e => e ∈ es end.

Lemma raises_rbind {A B} es (r : result A) (f : A → result B) :
  raises_only es r → (∀ a, r = Ok a → raises_only es (f a)) → raises_only es (rbind r f).
Proof. destruct r as [a|e]; cbn; [intros _ Hf; by apply Hf|done]. Qed.

Lemma raises_mono {A} es es' (r : result A) : es ⊆ es' → raises_only es r → raises_only es' r.
Proof. destruct r; cbn; [done|]. intros Hs. apply Hs. Qed.

Definition CONVERSION : list exn := [KeyError; TypeError; ValueError; OverflowError].

Lemma py_int_raises v : raises_only [TypeError; ValueError; OverflowError] (py_int v).
Proof.
  destruct v as [| | |l|s| |]; cbn [py_int raises_only]; try done; try (apply (bool_decide_unpack _); vm_compute; exact I).
  - unfold int_of_float. destruct (float_of_literal l); cbn; try done; repeat (by left) || right; by left.
  - unfold int_of_str. case_match; cbn; [done|]. right. by left.
Qed.

Lemma py_int_conversion v : raises_only CONVERSION (py_int v).
Proof. eapply raises_mono; [|apply py_int_raises]. unfold CONVERSION. intros e. rewrite !elem_of_cons. tauto. Qed.

Lemma subscript_conversion v k : raises_only CONVERSION (subscript v k).
Proof. unfold subscript, CONVERSION. repeat case_match; cbn; rewrite ?elem_of_cons; tauto. Qed.

#[local] Hint Resolve py_int_conversion subscript_conversion : core.

Section arbitrary.
Context `{PyRepr}.

Lemma read_entry_raises entry : raises_only [ValueError; OverflowError] (read_entry entry).
Proof.
  unfold read_entry. match goal with |- raises_only _ (invalid_entry ?r) => assert (raises_only CONVERSION r) as Hr; [|revert Hr; generalize r] end.
  { repeat (apply raises_rbind; [done|intros ? _]). done. }
  intros [x|e]; [done|]. unfold CONVERSION. cbn. rewrite !elem_of_cons, elem_of_nil. intros [->|[->|[->|[->|[]]]]]; cbn; rewrite !elem_of_cons; tauto.
Qed.

Definition in_bounds (b : list byte) (meta_end : Z) (r : Z * Z) : Prop := meta_end <= r.1 ∧ r.1 <= r.2 ∧ r.2 <= blen b.

(** what the loop over the table keeps: names with their slices, and the ranges *)
Lemma object_entries_sound b meta_end table : ∀ st,
  match object_entries b meta_end table st with
  | Ok st' => ∃ es : list (str * (Z * Z)), length es = length table ∧ Forall (in_bounds b meta_end) es.*2 ∧
      es_payloads st' = dupdate (es_payloads st) ((λ e, (e.1, slice b e.2.1 e.2.2)) <$> es) ∧
      es_ranges st' = es_ranges st ++ es.*2
  | Raise e => e ∈ [ValueError; OverflowError]
  end.
Proof.
  induction table as [|entry table IH]; intros st; cbn [object_entries].
  - exists []. split_and!; [done|constructor|done|by rewrite app_nil_r].
  - pose proof (read_entry_raises entry) as Hr. destruct (read_entry entry) as [[[offset len] name]|e]; [|done]. cbn [rbind].
    destruct (out_of_bounds b meta_end offset len) eqn:Eb; cbn [negb]; [by left|].
    specialize (IH (mkEntries (dset (es_payloads st) name (slice b offset (offset + len)))
      (es_retained st ++ [retained_entry entry name offset len]) (es_ranges st ++ [(offset, offset + len)]))).
    destruct (object_entries _ _ _ _) as [st'|e]; [|done]. cbn [es_payloads es_ranges] in IH.
    destruct IH as (es & Hl & HF & Hp & Hrs). exists ((name, (offset, offset + len)) :: es). split_and!.
    + cbn. by rewrite Hl.
    + constructor; [|done]. unfold out_of_bounds in Eb. unfold in_bounds. cbn. lia.
    + by rewrite Hp.
    + rewrite Hrs. by rewrite <-app_assoc.
Qed.
End arbitrary.

(** a dict that grew with every update had no key twice *)
Lemma dupdate_length {A} (d es : list (str * A)) : (length (dupdate d es) <= length d + length es)%nat.
Proof.
  revert d. induction es as [|[k v] es IH]; intros d; [unfold dupdate; cbn; lia|]. specialize (IH (dset d k v)).
  change (dupdate d ((k, v) :: es)) with (dupdate (dset d k v) es). cbn [length].
  assert (length (dset d k v) <= S (length d))%nat; [|lia]. clear. induction d as [|[k1 v1] d IH]; cbn [dset]; [done|]. case_decide; cbn; lia.
Qed.

Lemma dset_length_old {A} (d : list (str * A)) k v : k ∈ dkeys d → length (dset d k v) = length d.
Proof.
  intros Hin. induction d as [|[k1 v1] d IH]; [by apply elem_of_nil in Hin|]. cbn [dset]. case_decide; cbn; [done|].
  f_equal. apply IH. apply elem_of_cons in Hin as [|]; [cbn in *; congruence|done].
Qed.

Lemma dupdate_distinct {A} (d es : list (str * A)) : dwf d → length (dupdate d es) = (length d + length es)%nat → dwf (d ++ es).
Proof.
  revert d. induction es as [|[k v] es IH]; intros d Hd E; [by rewrite app_nil_r|].
  change (dupdate d ((k, v) :: es)) with (dupdate (dset d k v) es) in E. cbn [length] in E.
  destruct (decide (k ∈ dkeys d)) as [Hin|Hin].
  - pose proof (dupdate_length (dset d k v) es) as Hl. rewrite (dset_length_old d k v Hin) in Hl. lia.
  - apply dget_None_dkeys in Hin. rewrite dkeys_dset_new in E by done. specialize (IH (d ++ [(k, v)])).
    rewrite <-app_assoc in IH. apply IH; [rewrite <-dkeys_dset_new by done; by apply dset_wf|]. rewrite E, length_app. cbn. lia.
Qed.

(** C22: Whatever the bytes, decoding a stored object is safe. It either raises one of
    [ValueError], [KeyError], [TypeError] or [OverflowError], or it returns payloads of
    distinct names, each the slice of a range that lies after the metadata and inside
    the blob, and no two of the ranges share a byte. *)
Theorem makv_decode_safe `{PyRepr} (b : list byte) (verify : bool) :
  match decode_makv_object b verify with
  | Ok o => ∃ ranges, Forall2 (λ p r, p.2 = slice b r.1 r.2) (mo_payloads o) ranges ∧ NoDup (mo_payloads o).*1 ∧
      Forall (in_bounds b (meta_end_of b)) ranges ∧ 20 <= meta_end_of b ∧ StronglySorted range_disjoint ranges ∧
      mo_protocol_version o = 1
  | Raise e => e ∈ CONVERSION
  end.
Proof.
  unfold decode_makv_object. pose proof (decode_blob_cases b OBJECT_MAGIC verify) as Hd. set (V := ValueError).
  assert (V ∈ CONVERSION) as HV by (unfold CONVERSION; rewrite !elem_of_cons; tauto).
  destruct (_decode_blob b OBJECT_MAGIC verify) as [[[ms me] ver]|e]; [|by subst]. destruct Hd as (-> & Hme & ->). cbn [rbind].
  destruct (dget ms TABLE) as [[| | | | |table|]|]; try done.
  pose proof (object_entries_sound b (meta_end_of b) table (mkEntries [] [] [])) as Hs.
  destruct (object_entries _ _ _ _) as [st|e]; cbn [rbind].
  2:{ rewrite !elem_of_cons, elem_of_nil in Hs. unfold CONVERSION. rewrite !elem_of_cons. tauto. }
  destruct Hs as (es & Hl & HF & Hp & Hr). cbn [es_payloads es_ranges app] in *. rewrite Hp, Hr.
  destruct (Nat.eqb_spec (length (dupdate [] ((λ e, (e.1, slice b e.2.1 e.2.2)) <$> es))) (length table)) as [El|]; [|done]. cbn [negb orb].
  destruct (_ranges_overlap es.*2) eqn:Eo; [done|]. cbn [negb].
  assert (dwf ([] ++ ((λ e, (e.1, slice b e.2.1 e.2.2)) <$> es))) as Hwf.
  { apply dupdate_distinct; [apply NoDup_nil_2|]. rewrite El, length_fmap. done. }
  rewrite dupdate_app by done. set (ms' := dset _ _ _).
  pose proof (match dget ms' (lit "checksum") as x return raises_only CONVERSION (match x with Some c => py_int c | None => Ok 0 end)
    with Some c => py_int_conversion c | None => I end) as Hc.
  destruct (match dget ms' (lit "checksum") with Some c => py_int c | None => Ok 0 end) as [c|e]; [|done]. cbn [rbind].
  destruct (dget ms' (lit "object_type")) as [t|]; [|unfold CONVERSION; by left].
  exists es.*2. cbn [mo_payloads mo_protocol_version app]. split_and!; [|exact Hwf|done|lia| |done].
  - apply Forall2_fmap, Forall_Forall2_diag, Forall_forall. done.
  - apply ranges_overlap_false; [|done]. eapply Forall_impl; [exact HF|]. unfold in_bounds. intros r (? & ? & ?). lia.
Qed.

(** ** One wrong byte *)

Lemma be_val_inj l l' : length l = length l' → be_val l = be_val l' → l = l'.
Proof.
  revert l'. induction l as [|x l IH] using rev_ind; intros l' Hl E; [by destruct l'|].
  destruct l' as [|y l' _] using rev_ind; [rewrite length_app in Hl; cbn in Hl; lia|]. rewrite !length_app in Hl. cbn in Hl.
  unfold be_val in E. rewrite !foldl_app in E. cbn [foldl] in E. fold (be_val l) (be_val l') in E.
  pose proof (Z_of_byte_range x). pose proof (Z_of_byte_range y). rewrite (IH l') by lia. do 2 f_equal.
  assert (Z_of_byte x = Z_of_byte y) as Ez by lia. unfold Z_of_byte in Ez. apply N2Z.inj in Ez.
  apply (f_equal Byte.of_N) in Ez. rewrite !Byte.of_to_N in Ez. by injection Ez.
Qed.

(** the bytes the checksum covers *)
Definition zeroed (b : list byte) : list byte := take 16 b ++ zeros 4 ++ drop 20 b.

Lemma decode_blob_checksum b magic r : _decode_blob b magic true = Ok r →
  20 <= blen b ∧ le_val (take 4 (drop 16 b)) = crc32 (zeroed b) 0.
Proof.
  unfold _decode_blob, HEADER_STRUCT_size. destruct (Z.ltb_spec (blen b) 20) as [|H20]; [done|]. cbn [negb].
  unfold unpack_from. rewrite (proj2 (andb_true_iff _ _)) by lia. cbn [rbind]. unfold HEADER_STRUCT_unpack.
  case_bool_decide; [|done]. case_bool_decide; [|done]. destruct (negb _); [|done]. destruct (negb (_ <? _)); [|done]. cbn [negb orb].
  destruct (Z.eqb_spec (le_val (slice (slice b 0 (0 + 20)) 16 20))
    (Z.land (crc32 (slice b (CHECKSUM_OFFSET + 4) (blen b)) (crc32 (zeros 4) (crc32 (slice b 0 CHECKSUM_OFFSET) 0))) 0xFFFFFFFF)) as [Hck|]; [|done].
  intros _. split; [done|].
  assert (slice (slice b 0 (0 + 20)) 16 20 = take 4 (drop 16 b)) as E.
  { unfold slice. rewrite drop_0, skipn_firstn_comm, take_take. f_equal; lia. }
  rewrite E in Hck. rewrite Hck.
  rewrite crc32_mask by (apply crc32_word, crc32_word; unfold word32; lia). rewrite <-!crc32_app. f_equal. unfold zeroed, slice, CHECKSUM_OFFSET.
  do 2 f_equal. rewrite take_ge; [done|]. unfold blen. rewrite length_drop. lia.
Qed.

Lemma crc32_insert l i x c : l !! i = Some x → crc32 (<[i:=c]> l) 0 = crc32 l 0 → c = x.
Proof.
  intros Hx. pose proof (lookup_lt_Some _ _ _ Hx). rewrite insert_take_drop by done. rewrite <-(take_drop_middle l i x Hx) at 3.
  apply crc32_one_byte.
Qed.

Lemma decode_corrupted b magic r i x c : _decode_blob b magic true = Ok r → b !! i = Some x → c ≠ x →
  _decode_blob (<[i:=c]> b) magic true = Raise ValueError.
Proof.
  intros Hok Hx Hc. pose proof (decode_blob_cases (<[i:=c]> b) magic true) as Hcase.
  destruct (_decode_blob (<[i:=c]> b) magic true) as [r'|e] eqn:Hok'; [|by subst]. destruct Hc.
  apply decode_blob_checksum in Hok as [H20 H1], Hok' as [_ H2]. pose proof (lookup_lt_Some _ _ _ Hx) as Hi. unfold blen in H20.
  destruct (decide (i < 16)%nat) as [H16|H16]; [|destruct (decide (i < 20)%nat) as [Hf|Hf]].
  - apply (crc32_insert (zeroed b) i); [unfold zeroed; rewrite lookup_app_l by (rewrite length_take; lia); by rewrite lookup_take_lt|].
    rewrite <-H1. rewrite drop_insert_lt in H2 by lia. rewrite H2. f_equal. unfold zeroed.
    rewrite insert_app_l by (rewrite length_take; lia). rewrite take_insert_lt, drop_insert_lt by lia. done.
  - assert (take 4 (drop 16 (<[i:=c]> b)) = take 4 (drop 16 b)) as E.
    { unfold le_val in *. assert (zeroed (<[i:=c]> b) = zeroed b) as Hz by (unfold zeroed; by rewrite take_insert_ge, drop_insert_lt by lia).
      rewrite Hz, <-H1 in H2. apply be_val_inj in H2; [|rewrite !length_rev, !length_take, !length_drop, length_insert; done].
      by apply (f_equal (@rev _)) in H2; rewrite !rev_involutive in H2. }
    apply (f_equal (λ l, l !! (i - 16)%nat)) in E. rewrite !lookup_take_lt, !lookup_drop in E by lia.
    replace (16 + (i - 16))%nat with i in E by lia. rewrite list_lookup_insert_eq, Hx in E by done. by injection E.
  - apply (crc32_insert (zeroed b) i).
    { unfold zeroed. assert (length (take 16 b) = 16%nat) as L by (rewrite length_take; lia).
      rewrite lookup_app_r, L by lia. rewrite lookup_app_r by (change (length (zeros 4)) with 4%nat; lia).
      rewrite lookup_drop. change (length (zeros 4)) with 4%nat. rewrite <-Hx. f_equal. lia. }
    rewrite <-H1. assert (take 4 (drop 16 (<[i:=c]> b)) = take 4 (drop 16 b)) as E.
    { rewrite drop_insert_ge by lia. by rewrite take_insert_ge by lia. }
    rewrite E in H2. rewrite H2. f_equal. unfold zeroed. rewrite take_insert_ge, drop_insert_ge by lia.
    assert (length (take 16 b) = 16%nat) as L by (rewrite length_take; lia).
    rewrite insert_app_r_alt, L by lia. f_equal. rewrite insert_app_r_alt by (change (length (zeros 4)) with 4%nat; lia). do 2 f_equal.
    change (length (zeros 4)) with 4%nat. lia.
Qed.

(** C23: No single wrong byte gets past the checksum. If a blob decodes, then the blob
    with any one byte replaced by another, in the header, the checksum field, the
    metadata or a payload, is refused with [ValueError]. *)
Theorem makv_corruption_detected `{PyRepr} (b : list byte) (i : nat) (x c : byte) :
  b !! i = Some x → c ≠ x →
  (∀ o, decode_makv_object b true = Ok o → decode_makv_object (<[i:=c]> b) true = Raise ValueError) ∧
  (∀ e, decode_client_put_envelope b = Ok e → decode_client_put_envelope (<[i:=c]> b) = Raise ValueError).
Proof.
  intros Hx Hc. split.
  - intros o. unfold decode_makv_object at 1. destruct (_decode_blob b OBJECT_MAGIC true) as [r|] eqn:E; [|done]. intros _.
    unfold decode_makv_object. by rewrite (decode_corrupted _ _ _ _ _ _ E Hx Hc).
  - intros e. unfold decode_client_put_envelope at 1. destruct (_decode_blob b CLIENT_MAGIC true) as [r|] eqn:E; [|done]. intros _.
    unfold decode_client_put_envelope. by rewrite (decode_corrupted _ _ _ _ _ _ E Hx Hc).
Qed.

(** ** A concrete object and envelope *)

#[local] Instance none_repr : PyRepr := λ _, [].

Definition demo_md : metadata_dict :=
  [(lit "plan", JObj [(lit "head_dim", JInt 128); (lit "bits", JList [JInt 8; JInt 4])]); (lit "checksum", JInt 7); (lit "a", JFloat (lit "2.5"))].
Definition demo_ps : payloads_dict := [(lit "positions_8", [x01; x02; x03]); (lit "payload_8", []); (lit "scales_8", [xff])].

Lemma demo_ps_names : NoDup demo_ps.*1.
Proof. apply (bool_decide_unpack _). vm_compute. exact I. Qed.

Definition succeeds {A} (r : result A) : bool := match r with Ok _ => true | Raise _ => false end.

Lemma raised {A} (r : result A) e : r = Raise e → ¬ Is_true (succeeds r).
Proof. intros -> []. Qed.

Lemma succeeds_ok {A} (r : result A) : Is_true (succeeds r) → ∃ a, r = Ok a.
Proof. destruct r as [a|]; [by exists a|done]. Qed.

Lemma makv_object_roundtrip_witness :
  ∃ b o, encode_makv_object (lit "makv") demo_md demo_ps 1 = Ok b ∧ decode_makv_object b true = Ok o ∧
    mo_payloads o = demo_ps ∧ mo_checksum o = 7 ∧ dget (mo_metadata o) (lit "a") = Some (JFloat (lit "2.5")).
Proof.
  destruct (makv_object_roundtrip (lit "makv") demo_md demo_ps 7) as (total & b & He & Hd);
    [vm_compute; reflexivity|reflexivity|reflexivity|exact demo_ps_names|apply (bool_decide_unpack _); vm_compute; exact I|reflexivity|].
  destruct (Z.ltb_spec total (2 ^ 32)) as [Hlt|]; [|exfalso; apply (raised _ _ He); vm_compute; exact I].
  destruct (Hd Hlt) as (_ & _ & Ho). destruct (Ho true) as (o & Hdec & _ & Hp & Hc & _ & Hk).
  exists b, o. split_and!; [exact He|exact Hdec|exact Hp|exact Hc|]. rewrite Hk by done. reflexivity.
Defined.

Lemma metadata_offsets_settle_witness :
  ∃ w, _build_metadata_with_offsets demo_md demo_ps = Ok w ∧ relocate demo_md demo_ps w = Ok w ∧
    ∃ a, dget w TABLE = Some (JList (payload_table a demo_ps)).
Proof.
  destruct (metadata_offsets_settle demo_md demo_ps) as (w & a & Hb & Hr & _ & Ht & _); [vm_compute; reflexivity|reflexivity|].
  exists w. split_and!; [exact Hb|exact Hr|]. exists a. exact Ht.
Defined.

Lemma put_envelope_roundtrip_witness :
  ∃ b e, encode_client_put_envelope (lit "k") (lit "makv") None [x00; xff] [(lit "b", JInt 1)] = Ok b ∧
    decode_client_put_envelope b = Ok e ∧ ce_key e = lit "k" ∧ ce_raw_kv_payload e = [x00; xff].
Proof.
  destruct (put_envelope_roundtrip (lit "k") (lit "makv") None [x00; xff] [(lit "b", JInt 1)]) as (total & b & He & Hd);
    [reflexivity|reflexivity|discriminate|vm_compute; reflexivity| |].
  { intros k ->%list_elem_of_singleton. split_and!; apply (bool_decide_unpack (¬ _)); vm_compute; exact I. }
  destruct (Z.ltb_spec total (2 ^ 32)) as [Hlt|]; [|exfalso; apply (raised _ _ He); vm_compute; exact I].
  destruct (Hd Hlt) as (_ & e & Hdec & Hk & _ & Hraw & _). exists b, e. split_and!; [exact He|exact Hdec|exact Hk|exact Hraw].
Defined.

Definition demo_object : list byte :=
  match encode_makv_object (lit "makv") demo_md demo_ps 1 with Ok b => b | Raise _ => [] end.

Lemma makv_corruption_detected_witness :
  (∃ o, decode_makv_object demo_object true = Ok o) ∧ decode_makv_object (<[100%nat:=x00]> demo_object) true = Raise ValueError.
Proof.
  assert (Is_true (succeeds (decode_makv_object demo_object true))) as Hs by (vm_compute; exact I).
  assert (demo_object !! 100%nat = Some x61) as Hx by (vm_compute; reflexivity).
  destruct (succeeds_ok _ Hs) as [o Ho]. split; [exists o; exact Ho|].
  apply (makv_corruption_detected demo_object 100 x61 x00) with (o := o); [exact Hx|discriminate|exact Ho].
Defined.

(** the exceptions other than [ValueError] do escape: an offset of [1e400] is infinite *)
Example offset_overflow_escapes :
  object_entries [] 0 [JObj [(lit "offset", JFloat (lit "1e400")); (lit "length", JInt 0); (lit "name", JStr [])]] (mkEntries [] [] [])
  = Raise OverflowError.
Proof. vm_compute. reflexivity. Qed.
