(* ===== verification/CachePolicies.v ===== *)
(** * Cache policies of the in-process path

    [storage_backend/cache_policy]: FIFO, LRU, MRU and LFU. A policy sees the cache as
    the dictionary [cache_dict] it was made for and decides which keys may go. The
    interface [CachePolicy] is the abstract class of base_policy.py, and
    [CachePolicySpec] what a cache relies on. A stored object is represented by the
    value [V] and [can_evict] says whether it may go now. [SortedDict] of the package
    sortedcontainers is the parameter [SortedDictOps] with the laws
    [SortedDictSpec]. *)

From S2P Require Import Prelude PyDict PyState.

Open Scope Z_scope.

Class SortedDictOps (SD B : Type) := {
  sd_empty : SD;
  sd_get : SD → Z → option B;
  sd_set : SD → Z → B → SD;
  sd_del : SD → Z → SD;
  sd_items : SD → list (Z * B) }.

Class SortedDictSpec (SD B : Type) `{SortedDictOps SD B} := {
  sd_sorted d : StronglySorted Z.lt (sd_items d).*1;
  sd_get_items d k : sd_get d k = dget (sd_items d) k;
  sd_get_empty k : sd_get sd_empty k = None;
  sd_get_set d k b k' : sd_get (sd_set d k b) k' = if decide (k = k') then Some b else sd_get d k';
  sd_get_del d k k' : sd_get (sd_del d k) k' = if decide (k = k') then None else sd_get d k' }.

(** The operations on a policy. [update_on_hit] may reorder the cache; the policy keeps
    what it changed before an exception. *)
Class CachePolicy (P K V : Type) := {
  init_mutable_mapping : list (K * V);
  update_on_hit : P → Z → K → list (K * V) → P * result (list (K * V));
  update_on_put : P → Z → K → P;
  update_on_force_evict : P → K → result P;
  get_evict_candidates : P → (V → bool) → list (K * V) → nat → result (P * list K) }.

(** What a policy promises: it keeps track of the keys of the cache, reorders at most,
    and hands out distinct keys that may go, as many as asked for if there are so
    many; the keys it handed out are no longer tracked. *)
Class CachePolicySpec (P K V : Type) `{EqDecision K} `{CachePolicy P K V} := {
  tracks : P → list K → Prop;
  init_empty : init_mutable_mapping (P := P) (K := K) (V := V) = [];
  tracks_perm p ks ks' : ks ≡ₚ ks' → tracks p ks → tracks p ks';
  put_tracks p now k ks : tracks p ks → k ∉ ks → tracks (update_on_put p now k) (k :: ks);
  hit_tracks p now k (cache : list (K * V)) : dwf cache → tracks p (dkeys cache) → k ∈ dkeys cache →
    ∃ p' cache', update_on_hit p now k cache = (p', Ok cache') ∧ cache' ≡ₚ cache ∧ tracks p' (dkeys cache');
  hit_absent p now k (cache : list (K * V)) : tracks p (dkeys cache) → k ∉ dkeys cache →
    ∃ p' r, update_on_hit p now k cache = (p', r) ∧ r ∈ [Raise KeyError; Ok cache] ∧ tracks p' (dkeys cache);
  force_tracks p k ks : NoDup ks → tracks p ks → ∃ p', update_on_force_evict p k = Ok p' ∧ tracks p' (filter (.≠ k) ks);
  candidates_tracks p can_evict (cache : list (K * V)) n : dwf cache → tracks p (dkeys cache) → (0 < n)%nat →
    ∃ p' ks, get_evict_candidates p can_evict cache n = Ok (p', ks) ∧ NoDup ks ∧ (length ks <= n)%nat ∧
      (∀ k, k ∈ ks → ∃ v, dget cache k = Some v ∧ can_evict v = true) ∧
      ((length ks < n)%nat → ∀ k v, dget cache k = Some v → can_evict v = true → k ∈ ks) ∧
      tracks p' (filter (.∉ ks) (dkeys cache)) }.

Section policies.
Context {K V : Type} `{EqDecision K}.

(** [for key, cache in items: ...] until [num_candidates] keys are found *)
Fixpoint collect (can_evict : V → bool) (items : list (K * V)) (num_candidates : nat) (evict_keys : list K) : list K :=
  match items with
  | [] => evict_keys
  | (key, cache) :: items =>
      if negb (can_evict cache) then collect can_evict items num_candidates evict_keys
      else
        let evict_keys := evict_keys ++ [key] in
        if (length evict_keys =? num_candidates)%nat then evict_keys
        else collect can_evict items num_candidates evict_keys
  end.

(** ** FIFO *)

Definition FIFOCachePolicy : Type := unit.

#[export] Instance fifo_policy : CachePolicy FIFOCachePolicy K V := {
  init_mutable_mapping := [];
  update_on_hit p _ _ cache := (p, Ok cache);
  update_on_put p _ _ := p;
  update_on_force_evict p _ := Ok p;
  get_evict_candidates p can_evict cache n := Ok (p, collect can_evict cache n []) }.

(** [OrderedDict.move_to_end(key)] *)
Definition to_end (cache : list (K * V)) (key : K) : result (list (K * V)) :=
  if dmem cache key then Ok (move_to_end cache key) else Raise KeyError.

(** ** MRU *)

Inductive MRUCachePolicy : Type := mkMRU.

#[export] Instance mru_policy : CachePolicy MRUCachePolicy K V := {
  init_mutable_mapping := [];
  update_on_hit p _ key cache := (p, to_end cache key);
  update_on_put p _ _ := p;
  update_on_force_evict p _ := Ok p;
  get_evict_candidates p can_evict cache n := Ok (p, collect can_evict (rev cache) n []) }.

(** ** LRU *)

Section lru.
Context {H : Type} `{EqDecision H} (chunk_hash : K → H).

(** times of first use, for the metric of reuse intervals *)
Record LRUCachePolicy := mkLRU { lp_chunk_hash_to_init_timestamp : list (H * Z) }.

Definition max_num_chunk_hash : nat := Z.to_nat 12500000.

Definition update_chunk_hash_dict (p : LRUCachePolicy) (now : Z) (key : K) : LRUCachePolicy :=
  let ts := lp_chunk_hash_to_init_timestamp p in
  let key_hash := chunk_hash key in
  if bool_decide (default 0 (dget ts key_hash) ≠ 0) then p
  else mkLRU (dset (if (max_num_chunk_hash <=? length ts)%nat then [] else ts) key_hash now).

Definition lru_policy : CachePolicy LRUCachePolicy K V := {|
  init_mutable_mapping := [];
  update_on_hit p now key cache := (update_chunk_hash_dict p now key, to_end cache key);
  update_on_put p now key := update_chunk_hash_dict p now key;
  update_on_force_evict p _ := Ok p;
  get_evict_candidates p can_evict cache n := Ok (p, collect can_evict cache n []) |}.
End lru.

(** ** LFU *)

Section lfu.
Context {SD : Type} {SDO : SortedDictOps SD (list K)}.

(** keys by frequency, and the frequency of each key; a bucket is a dictionary used
    as an ordered set *)
Record LFUCachePolicy := mkLFU { fp_freq_to_keys : SD; fp_key_to_freq : list (K * Z) }.

(** [bucket[key] = None] *)
Definition bucket_add (bucket : list K) (key : K) : list K := if bool_decide (key ∈ bucket) then bucket else bucket ++ [key].

Definition add_to_freq (d : SD) (freq : Z) (key : K) : SD :=
  match sd_get d freq with
  | None => sd_set d freq [key]
  | Some bucket => sd_set d freq (bucket_add bucket key)
  end.

(** [freq_to_keys[freq].pop(key)], and the bucket goes when it is empty *)
Definition pop_from_freq (d : SD) (freq : Z) (key : K) : result SD :=
  match sd_get d freq with
  | None => Raise KeyError
  | Some bucket =>
      if bool_decide (key ∈ bucket) then
        match filter (.≠ key) bucket with
        | [] => Ok (sd_del d freq)
        | bucket => Ok (sd_set d freq bucket)
        end
      else Raise KeyError
  end.

Definition lfu_on_hit (p : LFUCachePolicy) (key : K) : result LFUCachePolicy :=
  match dget (fp_key_to_freq p) key with
  | None => Raise KeyError
  | Some curr_freq =>
      (d <-? pop_from_freq (fp_freq_to_keys p) curr_freq key;
       let curr_freq := curr_freq + 1 in
       Ok (mkLFU (add_to_freq d curr_freq key) (dset (fp_key_to_freq p) key curr_freq)))%py
  end.

Definition lfu_on_put (p : LFUCachePolicy) (key : K) : LFUCachePolicy :=
  mkLFU (add_to_freq (fp_freq_to_keys p) 1 key) (dset (fp_key_to_freq p) key 1).

Definition lfu_on_force_evict (p : LFUCachePolicy) (key : K) : result LFUCachePolicy :=
  match dget (fp_key_to_freq p) key with
  | None => Ok p
  | Some freq =>
      let kf := ddel (fp_key_to_freq p) key in
      if freq =? 0 then Ok (mkLFU (fp_freq_to_keys p) kf)
      else (d <-? pop_from_freq (fp_freq_to_keys p) freq key; Ok (mkLFU d kf))%py
  end.

(** what the scan has found: keys with their frequencies, and what is left of
    [key_to_freq]; [true] when enough keys are found *)
Record lfu_scan := mkScanned { ls_found : list (Z * K); ls_key_to_freq : list (K * Z) }.

Fixpoint scan_bucket (can_evict : V → bool) (cache : list (K * V)) (n : nat) (freq : Z) (fifo_keys : list K) (s : lfu_scan)
  : result (lfu_scan * bool) :=
  match fifo_keys with
  | [] => Ok (s, false)
  | key :: fifo_keys =>
      match dget cache key with
      | None => Raise KeyError
      | Some v =>
          if negb (can_evict v) then scan_bucket can_evict cache n freq fifo_keys s
          else
            match dget (ls_key_to_freq s) key with
            | None => Raise KeyError
            | Some _ =>
                let s := mkScanned (ls_found s ++ [(freq, key)]) (ddel (ls_key_to_freq s) key) in
                if (length (ls_found s) =? n)%nat then Ok (s, true)
                else scan_bucket can_evict cache n freq fifo_keys s
            end
      end
  end.

Fixpoint scan_freqs (can_evict : V → bool) (cache : list (K * V)) (n : nat) (items : list (Z * list K)) (s : lfu_scan)
  : result lfu_scan :=
  match items with
  | [] => Ok s
  | (freq, fifo_keys) :: items =>
      (r <-? scan_bucket can_evict cache n freq fifo_keys s;
       if (r.2 : bool) then Ok r.1 else scan_freqs can_evict cache n items r.1)%py
  end.

(** [for freq, key in zip(evict_freqs, evict_keys)] *)
Fixpoint pop_all (d : SD) (found : list (Z * K)) : result SD :=
  match found with
  | [] => Ok d
  | (freq, key) :: found => (d <-? pop_from_freq d freq key; pop_all d found)%py
  end.

Definition lfu_candidates (p : LFUCachePolicy) (can_evict : V → bool) (cache : list (K * V)) (n : nat)
  : result (LFUCachePolicy * list K) :=
  (s <-? scan_freqs can_evict cache n (sd_items (fp_freq_to_keys p)) (mkScanned [] (fp_key_to_freq p));
   d <-? pop_all (fp_freq_to_keys p) (ls_found s);
   Ok (mkLFU d (ls_key_to_freq s), (ls_found s).*2))%py.

#[export] Instance lfu_policy : CachePolicy LFUCachePolicy K V := {
  init_mutable_mapping := [];
  update_on_hit p _ key cache := match lfu_on_hit p key with Ok p => (p, Ok cache) | Raise e => (p, Raise e) end;
  update_on_put p _ key := lfu_on_put p key;
  update_on_force_evict := lfu_on_force_evict;
  get_evict_candidates := lfu_candidates }.

Definition lfu_init : LFUCachePolicy := mkLFU sd_empty [].
End lfu.
End policies.

(** ** The policies that follow the order of the cache *)

Section ordered.
Context {K V : Type} `{EqDecision K}.

(** the keys that may go, in the order of the items *)
Definition evictable_keys (can_evict : V → bool) (items : list (K * V)) : list K :=
  (filter (λ m, can_evict m.2 = true) items).*1.

Lemma collect_take can_evict (items : list (K * V)) n acc : (length acc < n)%nat →
  collect can_evict items n acc = acc ++ take (n - length acc) (evictable_keys can_evict items).
Proof.
  unfold evictable_keys. revert acc. induction items as [|[k v] items IH]; intros acc Ha; cbn [collect].
  - cbn. by rewrite take_nil, app_nil_r.
  - destruct (can_evict v) eqn:Ev; cbn [negb].
    + rewrite filter_cons_True by done. cbn [fmap list_fmap fst]. rewrite length_app. cbn [length].
      replace (n - length acc)%nat with (S (n - (length acc + 1))) by lia. cbn [take].
      destruct (Nat.eqb_spec (length acc + 1) n) as [<-|Hne].
      * by rewrite Nat.sub_diag.
      * rewrite IH by (rewrite length_app; cbn; lia). rewrite length_app, <-app_assoc. done.
    + rewrite filter_cons_False by (cbn; congruence). by apply IH.
Qed.

Lemma elem_of_evictable can_evict (cache : list (K * V)) k : dwf cache →
  k ∈ evictable_keys can_evict cache ↔ ∃ v, dget cache k = Some v ∧ can_evict v = true.
Proof.
  intros Hwf. unfold evictable_keys. rewrite list_elem_of_fmap. split.
  - intros ([k' v] & -> & [Hv Hin]%list_elem_of_filter). exists v. split; [by apply dget_wf_elem_of|done].
  - intros (v & Hg & Hv). exists (k, v). split; [done|]. apply list_elem_of_filter. split; [done|by apply dget_elem_of].
Qed.

Lemma evictable_NoDup can_evict (cache : list (K * V)) : dwf cache → NoDup (evictable_keys can_evict cache).
Proof.
  intros Hwf. unfold evictable_keys. eapply sublist_NoDup; [exact Hwf|]. apply fmap_sublist, sublist_filter.
Qed.

(** the facts about candidates, for items that are the cache in some order *)
Lemma collect_spec can_evict (cache items : list (K * V)) n : dwf cache → items ≡ₚ cache → (0 < n)%nat →
  let ks := collect can_evict items n [] in
  NoDup ks ∧ (length ks <= n)%nat ∧ (∀ k, k ∈ ks → ∃ v, dget cache k = Some v ∧ can_evict v = true) ∧
  ((length ks < n)%nat → ∀ k v, dget cache k = Some v → can_evict v = true → k ∈ ks).
Proof.
  intros Hwf Hp Hn. cbv zeta. rewrite collect_take by done. cbn [length app]. rewrite Nat.sub_0_r.
  assert (dwf items) as Hwi by (unfold dwf, dkeys; by rewrite Hp).
  assert (∀ k, k ∈ evictable_keys can_evict items ↔ k ∈ evictable_keys can_evict cache) as Heq.
  { intros k. unfold evictable_keys. by rewrite Hp. }
  split_and!.
  - eapply sublist_NoDup; [|apply sublist_take]. by apply evictable_NoDup.
  - rewrite length_take. lia.
  - intros k (i & Hi & _)%elem_of_take. apply list_elem_of_lookup_2 in Hi. by apply elem_of_evictable, Heq.
  - intros Hlt k v Hg Hv. rewrite length_take in Hlt. rewrite take_ge by lia. apply Heq, elem_of_evictable; [done|]. by exists v.
Qed.

Lemma move_to_end_perm (cache : list (K * V)) k : dwf cache → move_to_end cache k ≡ₚ cache.
Proof.
  unfold move_to_end, dwf, dkeys. induction cache as [|[k' v'] cache IH]; [done|]. cbn [dget ddel fmap list_fmap fst]. intros [Hn Hwf]%NoDup_cons.
  case_decide as E; subst.
  - rewrite ddel_notin by done. by rewrite Permutation_app_comm.
  - specialize (IH Hwf). destruct (dget cache k) as [v|]; [cbn [app]; by rewrite IH|done].
Qed.

Lemma to_end_absent (cache : list (K * V)) k : k ∉ dkeys cache → to_end cache k = Raise KeyError.
Proof. unfold to_end, dmem. by intros ->%dget_None_dkeys. Qed.

Lemma to_end_ok (cache : list (K * V)) k : k ∈ dkeys cache → to_end cache k = Ok (move_to_end cache k).
Proof. unfold to_end, dmem. intros [v ->]%elem_of_dkeys. done. Qed.

#[export] Instance fifo_spec : CachePolicySpec FIFOCachePolicy K V (H := fifo_policy).
Proof.
  refine {| tracks _ _ := True |}; try done.
  - intros p now k cache _ _ _. by exists p, cache.
  - intros p now k cache _ _. exists p, (Ok cache). rewrite !elem_of_cons. auto.
  - intros p k ks _ _. by exists p.
  - intros p ce cache n Hwf _ Hn. exists p, (collect ce cache n []). split; [done|].
    destruct (collect_spec ce cache cache n Hwf ltac:(done) Hn) as (? & ? & ? & ?). done.
Defined.

#[export] Instance mru_spec : CachePolicySpec MRUCachePolicy K V (H := mru_policy).
Proof.
  refine {| tracks _ _ := True |}; try done.
  - intros p now k cache Hwf _ Hk. exists p, (move_to_end cache k). cbn. rewrite to_end_ok by done. split_and!; [done|by apply move_to_end_perm|done].
  - intros p now k cache _ Hk. exists p, (Raise KeyError). cbn. rewrite to_end_absent by done. rewrite !elem_of_cons. auto.
  - intros p k ks _ _. by exists p.
  - intros p ce cache n Hwf _ Hn. exists p, (collect ce (rev cache) n []). split; [done|].
    destruct (collect_spec ce cache (rev cache) n Hwf) as (? & ? & ? & ?); [symmetry; apply Permutation_rev|done|done].
Defined.

Section lru_spec.
Context {H : Type} `{EqDecision H} (chunk_hash : K → H).

#[export] Instance lru_spec : CachePolicySpec (LRUCachePolicy (H := H)) K V (H := lru_policy chunk_hash).
Proof.
  refine {| tracks _ _ := True |}; try done.
  - intros p now k cache Hwf _ Hk. exists (update_chunk_hash_dict chunk_hash p now k), (move_to_end cache k). cbn. rewrite to_end_ok by done.
    split_and!; [done|by apply move_to_end_perm|done].
  - intros p now k cache _ Hk. eexists _, (Raise KeyError). cbn. rewrite to_end_absent by done. rewrite !elem_of_cons. auto.
  - intros p k ks _ _. by exists p.
  - intros p ce cache n Hwf _ Hn. exists p, (collect ce cache n []). split; [done|].
    destruct (collect_spec ce cache cache n Hwf ltac:(done) Hn) as (? & ? & ? & ?). done.
Defined.
End lru_spec.
End ordered.
