(* ===== verification/LFUPolicy.v ===== *)
(** * The least-frequently-used policy

    [lfu.py] keeps a sorted dictionary from frequencies to buckets of keys beside a
    dictionary from keys to frequencies. The two always describe the same function, so
    the policy meets [CachePolicySpec], and its candidates are those of a counter per
    key: lowest count first, and among equals the one that has had it longest. *)

From S2P Require Import Prelude PyDict PyState CachePolicies.

Open Scope Z_scope.

Section lfu.
Context {K V : Type} `{EqDecision K} {SD : Type} `{SDS : SortedDictSpec SD (list K)}.
Implicit Types (p : LFUCachePolicy (K := K) (SD := SD)) (d : SD) (kf : list (K * Z)).

(** both dictionaries describe one function from tracked keys to frequencies *)
Record lfu_ok (p : LFUCachePolicy (K := K) (SD := SD)) (ks : list K) : Prop := {
  lo_wf : dwf (fp_key_to_freq p);
  lo_keys k : k ∈ ks ↔ is_Some (dget (fp_key_to_freq p) k);
  lo_pos k f : dget (fp_key_to_freq p) k = Some f → 1 <= f;
  lo_bucket f b : sd_get (fp_freq_to_keys p) f = Some b → b ≠ [] ∧ NoDup b;
  lo_same k f : dget (fp_key_to_freq p) k = Some f ↔ ∃ b, sd_get (fp_freq_to_keys p) f = Some b ∧ k ∈ b }.

Lemma lfu_ok_ext d kf kf' ks ks' : (∀ k, dget kf k = dget kf' k) → dwf kf' → (∀ k, k ∈ ks ↔ k ∈ ks') →
  lfu_ok (mkLFU d kf) ks → lfu_ok (mkLFU d kf') ks'.
Proof.
  intros Hg Hwf Hks [H1 H2 H3 H4 H5]. cbn in *. split; cbn; [done|..].
  - intros k. by rewrite <-Hg, <-Hks.
  - intros k f. rewrite <-Hg. apply H3.
  - apply H4.
  - intros k f. rewrite <-Hg. apply H5.
Qed.

Lemma add_ok d kf ks k f : 1 <= f → dget kf k = None → lfu_ok (mkLFU d kf) ks →
  lfu_ok (mkLFU (add_to_freq d f k) (dset kf k f)) (k :: ks).
Proof.
  intros Hf Hk [H1 H2 H3 H4 H5]. cbn in *.
  assert (∃ b, add_to_freq d f k = sd_set d f (b ++ [k]) ∧ (k ∉ b) ∧ NoDup b ∧ (∀ x, x ∈ b ↔ dget kf x = Some f)) as (b & -> & Hnb & HNb & Hb).
  { unfold add_to_freq. destruct (sd_get d f) as [b|] eqn:Eb.
    - assert (k ∉ b) as Hn. { intros Hin. assert (dget kf k = Some f) as E by (apply H5; eauto). congruence. }
      exists b. unfold bucket_add. rewrite bool_decide_false by done. split_and!; [done|done|by apply (H4 f b)|].
      intros x. rewrite H5. split; [eauto|]. intros (b' & E & Hin). congruence.
    - exists []. split_and!; [done|apply not_elem_of_nil|constructor|]. intros x. rewrite elem_of_nil, H5. split; [done|]. intros (b' & E & _). congruence. }
  split; cbn.
  - by apply dset_wf.
  - intros x. rewrite elem_of_cons, H2, dget_dset. case_decide as E; [naive_solver|]. naive_solver.
  - intros x g. rewrite dget_dset. case_decide; [intros [= <-]; done|apply H3].
  - intros g b'. rewrite sd_get_set. case_decide as E; [intros [= <-]|apply H4]. split; [by destruct b|].
    apply NoDup_app. split_and!; [done|intros x Hx ->%list_elem_of_singleton; done|apply NoDup_singleton].
  - intros x g. rewrite dget_dset. case_decide as E.
    + subst x. split.
      * intros [= <-]. exists (b ++ [k]). rewrite sd_get_set, decide_True by done. split; [done|]. apply elem_of_app. right. by apply list_elem_of_singleton.
      * intros (b' & Hg & Hin). rewrite sd_get_set in Hg. case_decide as E2; [by subst|].
        assert (dget kf k = Some g) as E3 by (apply H5; eauto). congruence.
    + rewrite H5. split; intros (b' & Hg & Hin).
      * destruct (decide (f = g)) as [->|]; [|exists b'; by rewrite sd_get_set, decide_False].
        exists (b ++ [k]). rewrite sd_get_set, decide_True by done. split; [done|]. apply elem_of_app. left. apply Hb, H5. eauto.
      * rewrite sd_get_set in Hg. case_decide as E2; [|by exists b']. subst g. injection Hg as <-. apply H5, Hb.
        apply elem_of_app in Hin as [|Hin%list_elem_of_singleton]; [done|congruence].
Qed.

Lemma pop_ok d kf ks k f : dget kf k = Some f → lfu_ok (mkLFU d kf) ks →
  ∃ d', pop_from_freq d f k = Ok d' ∧ lfu_ok (mkLFU d' (ddel kf k)) (filter (.≠ k) ks).
Proof.
  intros Hk [H1 H2 H3 H4 H5]. cbn in *. destruct (proj1 (H5 k f) Hk) as (b & Hb & Hin). destruct (H4 f b Hb) as [_ HNb].
  unfold pop_from_freq. rewrite Hb, bool_decide_true by done.
  assert (∃ d', match filter (.≠ k) b with [] => Ok (sd_del d f) | bucket => Ok (sd_set d f bucket) end = Ok d' ∧
    (∀ g b', sd_get d' g = Some b' → b' ≠ [] ∧ NoDup b') ∧
    (∀ x g, (∃ b', sd_get d' g = Some b' ∧ x ∈ b') ↔ x ≠ k ∧ ∃ b', sd_get d g = Some b' ∧ x ∈ b')) as (d' & -> & Hd1 & Hd2).
  { assert (∀ g b', sd_get d g = Some b' → k ∈ b' → g = f) as Huniq.
    { intros g b' Hg Hk'. assert (dget kf k = Some g) as E by (apply H5; eauto). congruence. }
    assert (∀ x, x ∈ filter (.≠ k) b ↔ x ≠ k ∧ x ∈ b) as Hfil by (intros; by rewrite list_elem_of_filter).
    destruct (filter (.≠ k) b) as [|y b1] eqn:Ef.
    - exists (sd_del d f). split_and!; [done|intros g b'; rewrite sd_get_del; case_decide; [done|apply H4]|].
      intros x g. split.
      + intros (b' & Hg & Hx). rewrite sd_get_del in Hg. case_decide; [done|]. split; [|eauto]. intros ->. by eapply Huniq in Hx.
      + intros (Hne & b' & Hg & Hx). exists b'. rewrite sd_get_del. case_decide; [subst g|done].
        rewrite Hb in Hg. injection Hg as <-. assert (x ∈ []) as Hnil by by apply Hfil. by apply elem_of_nil in Hnil.
    - exists (sd_set d f (y :: b1)). split_and!; [done| |].
      + intros g b'. rewrite sd_get_set. case_decide; [intros [= <-]|apply H4]. split; [done|]. rewrite <-Ef. by apply NoDup_filter.
      + intros x g. split.
        * intros (b' & Hg & Hx). rewrite sd_get_set in Hg. case_decide; [|split; [intros ->; by eapply Huniq in Hx|eauto]].
          subst g. injection Hg as <-. apply Hfil in Hx as [? ?]. split; eauto.
        * intros (Hne & b' & Hg & Hx). destruct (decide (f = g)) as [->|]; [|exists b'; by rewrite sd_get_set, decide_False].
          rewrite Hb in Hg. injection Hg as <-. exists (y :: b1). rewrite sd_get_set, decide_True by done. split; [done|]. by apply Hfil. }
  exists d'. split; [done|]. split; cbn.
  - by apply ddel_wf.
  - intros x. rewrite list_elem_of_filter, H2, dget_ddel. case_decide; [naive_solver|naive_solver].
  - intros x g. rewrite dget_ddel. case_decide; [done|apply H3].
  - exact Hd1.
  - intros x g. rewrite Hd2, dget_ddel, <-H5. case_decide; [naive_solver|]. naive_solver.
Qed.

(** ** The scan *)

(** the tracked keys with their frequencies, in the order they are looked at *)
Definition flat (items : list (Z * list K)) : list (Z * K) := concat ((λ fb : Z * list K, (λ k, (fb.1, k)) <$> fb.2) <$> items).

Definition may_go (can_evict : V → bool) (cache : list (K * V)) (fk : Z * K) : Prop := ∃ v, dget cache fk.2 = Some v ∧ can_evict v = true.
#[local] Instance may_go_dec can_evict cache fk : Decision (may_go can_evict cache fk).
Proof.
  unfold may_go. destruct (dget cache fk.2) as [v|]; [|right; by intros (v & ? & _)].
  destruct (can_evict v) eqn:E; [left; by exists v|right; intros (v' & [= <-] & Hv); congruence].
Defined.

Definition del_keys (kf : list (K * Z)) (ks : list K) : list (K * Z) := foldl ddel kf ks.

Lemma del_keys_get kf ks k : dget (del_keys kf ks) k = if decide (k ∈ ks) then None else dget kf k.
Proof.
  unfold del_keys. revert kf. induction ks as [|x ks IH]; intros kf; cbn [foldl]; [by rewrite decide_False by apply not_elem_of_nil|].
  rewrite IH, dget_ddel. destruct (decide (k ∈ ks)), (decide (x = k)), (decide (k ∈ x :: ks)) as [E|E]; try done; rewrite elem_of_cons in E; naive_solver.
Qed.

Section scan.
Context (can_evict : V → bool) (cache : list (K * V)) (n : nat).

(** the keys in [l] are all cached and tracked, and differ *)
Definition scannable (kf : list (K * Z)) (l : list (Z * K)) : Prop :=
  NoDup l.*2 ∧ Forall (λ fk, is_Some (dget cache fk.2) ∧ is_Some (dget kf fk.2)) l.

Lemma scan_bucket_ok freq keys s : let l := (λ k, (freq, k)) <$> keys in
  scannable (ls_key_to_freq s) l → (length (ls_found s) < n)%nat →
  let new := take (n - length (ls_found s)) (filter (may_go can_evict cache) l) in
  ∃ stop, scan_bucket can_evict cache n freq keys s =
    Ok (mkScanned (ls_found s ++ new) (del_keys (ls_key_to_freq s) new.*2), stop) ∧
    stop = (length (ls_found s ++ new) =? n)%nat.
Proof.
  revert s. induction keys as [|k keys IH]; intros s; cbv zeta; intros [HN HF] Hlt; cbn [fmap list_fmap scan_bucket] in *.
  - exists false. rewrite filter_nil, take_nil, app_nil_r. destruct s. cbn in *. split; [done|]. symmetry. apply Nat.eqb_neq. lia.
  - apply NoDup_cons in HN as [Hk HN]. apply Forall_cons in HF as [[[v Hv] [f Hf]] HF]. cbn [fst snd] in *. rewrite Hv.
    destruct (can_evict v) eqn:Ev; cbn [negb].
    + rewrite Hf, filter_cons_True by (exists v; done). cbn [ls_found ls_key_to_freq].
      replace (n - length (ls_found s))%nat with (S (n - (length (ls_found s) + 1))) by lia. cbn [take fmap list_fmap fst snd].
      rewrite length_app. cbn [length]. destruct (Nat.eqb_spec (length (ls_found s) + 1) n) as [En|En].
      * exists true. rewrite En, Nat.sub_diag. cbn [take fmap list_fmap del_keys foldl]. rewrite length_app. cbn. split; [done|]. symmetry. by apply Nat.eqb_eq.
      * destruct (IH (mkScanned (ls_found s ++ [(freq, k)]) (ddel (ls_key_to_freq s) k))) as (stop & Hs & Hstop).
        -- split; [done|]. cbn. rewrite Forall_forall in *. intros [g x] Hin. specialize (HF _ Hin) as [Hc Ht]. cbn in *. split; [done|].
           rewrite dget_ddel, decide_False; [done|]. intros ->. apply Hk. apply list_elem_of_fmap. by exists (g, x).
        -- cbn. rewrite length_app. cbn. lia.
        -- cbn [ls_found ls_key_to_freq] in *. rewrite length_app in *. cbn [length] in *. exists stop. rewrite Hs, Hstop. rewrite <-!app_assoc.
           split; [done|]. rewrite !length_app. cbn [length]. f_equal. lia.
    + rewrite filter_cons_False by (intros (v' & Hv' & Ev'); cbn in *; congruence). by apply IH.
Qed.

Lemma scan_freqs_ok items : ∀ s, scannable (ls_key_to_freq s) (flat items) → (length (ls_found s) < n)%nat →
  let new := take (n - length (ls_found s)) (filter (may_go can_evict cache) (flat items)) in
  scan_freqs can_evict cache n items s = Ok (mkScanned (ls_found s ++ new) (del_keys (ls_key_to_freq s) new.*2)).
Proof.
  induction items as [|[f b] items IH]; intros s Hs Hlt; cbv zeta; cbn [scan_freqs flat fmap list_fmap concat].
  - rewrite filter_nil, take_nil, app_nil_r. by destruct s.
  - unfold flat in Hs. cbn [fmap list_fmap concat fst snd] in *. fold (flat items) in *. destruct Hs as [HN HF].
    rewrite fmap_app in HN. apply NoDup_app in HN as (HN1 & HN12 & HN2). apply Forall_app in HF as [HF1 HF2].
    destruct (scan_bucket_ok f b s) as (stop & -> & ->); [by split|done|]. cbn [rbind fst snd]. rewrite filter_app.
    set (l1 := filter (may_go can_evict cache) ((λ k, (f, k)) <$> b)) in *. set (l2 := filter (may_go can_evict cache) (flat items)) in *.
    rewrite length_app, length_take. destruct (Nat.eqb_spec (length (ls_found s) + (n - length (ls_found s)) `min` length l1) n) as [E|E].
    + rewrite take_app_le by lia. done.
    + rewrite (take_ge l1) by lia. rewrite IH.
      * cbn [ls_found ls_key_to_freq]. rewrite length_app, take_app_ge by lia. rewrite <-app_assoc, fmap_app. unfold del_keys. rewrite foldl_app.
        replace (n - (length (ls_found s) + length l1))%nat with (n - length (ls_found s) - length l1)%nat by lia. done.
      * split; [done|]. cbn [ls_key_to_freq]. rewrite Forall_forall in *. intros [g x] Hin. specialize (HF2 _ Hin) as [Hc Ht]. cbn in *. split; [done|].
        rewrite del_keys_get, decide_False; [done|]. intros (y & -> & Hy)%list_elem_of_fmap. apply list_elem_of_filter in Hy as [_ Hy].
        apply (HN12 y.2); [apply list_elem_of_fmap; by exists y|]. apply list_elem_of_fmap. by exists (g, y.2).
      * cbn [ls_found]. rewrite length_app. lia.
Qed.
End scan.

Lemma elem_of_flat items f k : (f, k) ∈ flat items ↔ ∃ b, (f, b) ∈ items ∧ k ∈ b.
Proof.
  induction items as [|[g b] items IH]; cbn; [split; [by intros ?%elem_of_nil|by intros (b & ?%elem_of_nil & _)]|].
  rewrite elem_of_app. fold (flat items). rewrite IH, list_elem_of_fmap. split.
  - intros [(x & [= -> ->] & Hx)|(b' & Hb & Hk)]; [exists b; split; [by left|done]|exists b'; split; [by right|done]].
  - intros (b' & [[= -> ->]|Hb]%elem_of_cons & Hk); [left; by exists k|right; eauto].
Qed.

(** looked at in the order of their frequencies *)
Lemma flat_sorted items : StronglySorted Z.lt items.*1 → StronglySorted (λ x y, x.1 <= y.1) (flat items).
Proof.
  induction items as [|[f b] items IH]; cbn; [constructor|]. intros [HS HF]%StronglySorted_inv. fold (flat items).
  apply StronglySorted_app_iff. split_and!.
  - clear. induction b as [|k b IHb]; cbn; constructor; [done|]. apply Forall_fmap, Forall_forall. intros x _. cbn. lia.
  - by apply IH.
  - intros x [g k'] (k & -> & _)%list_elem_of_fmap (b' & Hb' & _)%elem_of_flat.
    rewrite Forall_forall in HF. cbn. assert (g ∈ items.*1) as Hg by (apply list_elem_of_fmap; by exists (g, b')). specialize (HF g Hg). lia.
Qed.

Section tracked.
Context (p : LFUCachePolicy (K := K) (SD := SD)) (ks : list K) (Hok : lfu_ok p ks).

Let items : list (Z * list K) := sd_items (fp_freq_to_keys p).

Lemma items_get f b : (f, b) ∈ items ↔ sd_get (fp_freq_to_keys p) f = Some b.
Proof.
  rewrite sd_get_items. split; [|apply dget_elem_of]. apply dget_wf_elem_of. unfold dwf, dkeys.
  pose proof (sd_sorted (fp_freq_to_keys p)) as HS. induction HS as [|f' l HS IH HF]; constructor; [|done].
  intros Hin. rewrite Forall_forall in HF. specialize (HF f' Hin). lia.
Qed.

Lemma flat_get f k : (f, k) ∈ flat items ↔ dget (fp_key_to_freq p) k = Some f.
Proof. rewrite elem_of_flat, (lo_same p ks Hok). by setoid_rewrite items_get. Qed.

Lemma flat_NoDup : NoDup (flat items).*2.
Proof.
  apply NoDup_fmap_2_strong.
  - intros [f k] [g k'] Hx%flat_get Hy%flat_get Hk. cbn in Hk. subst. congruence.
  - assert (∀ f b, (f, b) ∈ items → NoDup b) as Hb by (intros f b Hin%items_get; by apply (lo_bucket p ks Hok) in Hin as [_ ?]).
    pose proof (sd_sorted (fp_freq_to_keys p)) as HS. fold items in HS. clearbody items. induction items as [|[f b] l IH]; cbn; [constructor|].
    apply StronglySorted_inv in HS as [HS HF]. apply NoDup_app. split_and!.
    + apply NoDup_fmap_2; [by intros ? ? [=]|]. apply (Hb f). by left.
    + intros [g k] (x & [= -> ->] & Hx)%list_elem_of_fmap (b' & Hb' & _)%elem_of_flat. rewrite Forall_forall in HF.
      assert (f ∈ l.*1) as Hf by (apply list_elem_of_fmap; by exists (f, b')). specialize (HF f Hf). cbn in HF. lia.
    + apply IH; [intros g b' Hin; apply (Hb g); by right|done].
Qed.
End tracked.

Lemma pop_all_ok found : ∀ d kf ks, lfu_ok (mkLFU d kf) ks → NoDup found.*2 → Forall (λ fk, dget kf fk.2 = Some fk.1) found →
  ∃ d', pop_all d found = Ok d' ∧ lfu_ok (mkLFU d' (del_keys kf found.*2)) (filter (.∉ found.*2) ks).
Proof.
  induction found as [|[f k] found IH]; intros d kf ks Hok HN HF; cbn [pop_all fmap list_fmap fst snd] in *.
  - exists d. split; [done|]. eapply lfu_ok_ext; [done| | |exact Hok]; [apply Hok|]. intros k. rewrite list_elem_of_filter.
    split; [|by intros [_ ?]]. intros ?. split; [apply not_elem_of_nil|done].
  - apply NoDup_cons in HN as [Hk HN]. apply Forall_cons in HF as [Hf HF]. cbn [fst snd] in Hf.
    destruct (pop_ok d kf ks k f Hf Hok) as (d1 & -> & Hok1). cbn [rbind].
    destruct (IH d1 (ddel kf k) (filter (.≠ k) ks) Hok1 HN) as (d' & -> & Hok').
    { rewrite Forall_forall in *. intros [g x] Hin. specialize (HF _ Hin). cbn in *. rewrite dget_ddel, decide_False; [done|].
      intros ->. apply Hk. apply list_elem_of_fmap. by exists (g, x). }
    exists d'. split; [done|]. eapply lfu_ok_ext; [done| | |exact Hok']; [apply Hok'|]. intros x. rewrite !list_elem_of_filter, elem_of_cons. naive_solver.
Qed.

(** The candidates: the first [n] of the keys that may go, by frequency and then by age
    in the bucket. *)
Lemma lfu_candidates_ok p can_evict (cache : list (K * V)) n : lfu_ok p (dkeys cache) → (0 < n)%nat →
  let found := take n (filter (may_go can_evict cache) (flat (sd_items (fp_freq_to_keys p)))) in
  ∃ p', lfu_candidates p can_evict cache n = Ok (p', found.*2) ∧ lfu_ok p' (filter (.∉ found.*2) (dkeys cache)).
Proof.
  intros Hok Hn. cbv zeta. unfold lfu_candidates. rewrite scan_freqs_ok; [|split|done].
  - cbn [rbind ls_found ls_key_to_freq length app]. rewrite Nat.sub_0_r. set (found := take n _).
    destruct p as [d kf]. cbn [fp_freq_to_keys fp_key_to_freq] in *. destruct (pop_all_ok found d kf _ Hok) as (d' & -> & Hok').
    + unfold found. eapply sublist_NoDup; [apply (flat_NoDup _ _ Hok)|]. apply fmap_sublist. etrans; [apply sublist_take|apply sublist_filter].
    + apply Forall_forall. intros [f k] (i & Hi & _)%elem_of_take. apply list_elem_of_lookup_2, list_elem_of_filter in Hi as [_ Hi].
      by apply (flat_get _ _ Hok) in Hi.
    + cbn [rbind]. by eexists.
  - by apply (flat_NoDup _ _ Hok).
  - apply Forall_forall. intros [f k] Hin%(flat_get _ _ Hok). cbn. split; [|by rewrite Hin].
    apply elem_of_dkeys, (lo_keys _ _ Hok). by rewrite Hin.
Qed.

#[export] Instance lfu_spec : CachePolicySpec (LFUCachePolicy (K := K) (SD := SD)) K V (H := lfu_policy).
Proof.
  refine {| tracks := lfu_ok |}; [done|..].
  - intros [d kf] ks ks' Hp Hok. eapply lfu_ok_ext; [done|apply Hok| |exact Hok]. intros k. by rewrite Hp.
  - intros [d kf] now k ks Hok Hk. apply add_ok; [lia| |done].
    destruct (dget kf k) eqn:E; [|done]. destruct Hk. apply (lo_keys _ _ Hok). cbn. by rewrite E.
  - intros [d kf] now k cache Hwf Hok Hk. apply (lo_keys _ _ Hok) in Hk as [f Hf]. cbn in *. unfold lfu_on_hit. cbn. rewrite Hf.
    destruct (pop_ok d kf _ k f Hf Hok) as (d' & -> & Hok'). cbn [rbind]. eexists _, cache. split; [done|]. split; [done|].
    pose proof (lo_pos _ _ Hok k f Hf). eapply lfu_ok_ext; [| | |exact (add_ok d' (ddel kf k) _ k (f + 1) ltac:(lia) (dget_ddel_eq kf k) Hok')].
    + intros x. rewrite !dget_dset, dget_ddel. by repeat case_decide.
    + apply dset_wf, Hok.
    + intros x. rewrite elem_of_cons, list_elem_of_filter. split; [|destruct (decide (x = k)); tauto].
      intros [->|[_ ?]]; [|done]. apply (lo_keys _ _ Hok). cbn. by rewrite Hf.
  - intros [d kf] now k cache Hok Hk. exists (mkLFU d kf), (Raise KeyError). cbn. unfold lfu_on_hit. cbn.
    destruct (dget kf k) as [f|] eqn:Hf; [|rewrite !elem_of_cons; auto]. destruct Hk. apply (lo_keys _ _ Hok). cbn. by rewrite Hf.
  - intros [d kf] k ks HN Hok. unfold update_on_force_evict, lfu_policy, lfu_on_force_evict. cbn [fp_key_to_freq fp_freq_to_keys].
    destruct (dget kf k) as [f|] eqn:Hf.
    + pose proof (lo_pos _ _ Hok k f Hf). replace (f =? 0) with false by lia. destruct (pop_ok d kf _ k f Hf Hok) as (d' & -> & Hok').
      cbn [rbind]. by eexists.
    + eexists. split; [done|]. eapply lfu_ok_ext; [done|apply Hok| |exact Hok]. intros x. rewrite list_elem_of_filter. split; [|by intros [_ ?]].
      intros Hx. split; [|done]. intros ->. apply (lo_keys _ _ Hok) in Hx as [f Hx]. cbn in Hx. congruence.
  - intros p ce cache n Hwf Hok Hn. destruct (lfu_candidates_ok p ce cache n Hok Hn) as (p' & Hc & Hok').
    set (found := take n _) in *. exists p', found.*2. split; [exact Hc|]. split_and!; [| | | |exact Hok'].
    + eapply sublist_NoDup; [apply (flat_NoDup _ _ Hok)|]. apply fmap_sublist. etrans; [apply sublist_take|apply sublist_filter].
    + unfold found. rewrite length_fmap, length_take. lia.
    + intros k ([f k'] & -> & (i & Hi & _)%elem_of_take)%list_elem_of_fmap. by apply list_elem_of_lookup_2, list_elem_of_filter in Hi as [? _].
    + intros Hlt k v Hg Hv. unfold found in *. rewrite length_fmap, length_take in Hlt. rewrite take_ge by lia.
      assert (k ∈ dkeys cache) as [f Hf]%(lo_keys _ _ Hok) by (apply elem_of_dkeys; by rewrite Hg).
      apply list_elem_of_fmap. exists (f, k). split; [done|]. apply list_elem_of_filter. split; [by exists v|]. by apply (flat_get _ _ Hok).
Defined.

Lemma lfu_init_ok : lfu_ok (lfu_init (K := K) (SD := SD)) [].
Proof.
  split; cbn.
  - apply NoDup_nil_2.
  - intros k. split; [by intros ?%elem_of_nil|by intros [? ?]].
  - done.
  - intros f b. by rewrite sd_get_empty.
  - intros k f. split; [done|]. intros (b & Hb & _). by rewrite sd_get_empty in Hb.
Qed.
End lfu.

(** ** A counter per key *)

Section history.
Context {K V : Type} `{EqDecision K} {SD : Type} `{SDS : SortedDictSpec SD (list K)}.

(** what has happened to the keys, newest first *)
Inductive event := EPut (k : K) | EHit (k : K) | EGone (k : K).

(** one for the put and one for every hit since *)
Fixpoint counts (h : list event) (k : K) : option Z :=
  match h with
  | [] => None
  | EPut k' :: h => if decide (k' = k) then Some 1 else counts h k
  | EHit k' :: h => if decide (k' = k) then (λ c, c + 1) <$> counts h k else counts h k
  | EGone k' :: h => if decide (k' = k) then None else counts h k
  end.

Inductive lfu_run : list event → LFUCachePolicy (K := K) (SD := SD) → Prop :=
| run_init : lfu_run [] lfu_init
| run_put h p k : lfu_run h p → counts h k = None → lfu_run (EPut k :: h) (lfu_on_put p k)
| run_hit h p k p' : lfu_run h p → lfu_on_hit p k = Ok p' → lfu_run (EHit k :: h) p'
| run_force h p k p' : lfu_run h p → lfu_on_force_evict p k = Ok p' → lfu_run (EGone k :: h) p'
| run_evict h p can_evict (cache : list (K * V)) n p' ks : lfu_run h p →
    dwf cache → (∀ k, k ∈ dkeys cache ↔ is_Some (counts h k)) → (0 < n)%nat →
    lfu_candidates p can_evict cache n = Ok (p', ks) → lfu_run ((EGone <$> ks) ++ h) p'.

Lemma counts_gone ks h k : counts ((EGone <$> ks) ++ h) k = if decide (k ∈ ks) then None else counts h k.
Proof.
  induction ks as [|x ks IH]; cbn; [by rewrite decide_False by apply not_elem_of_nil|]. rewrite IH.
  destruct (decide (x = k)), (decide (k ∈ ks)), (decide (k ∈ x :: ks)) as [E|E]; try done; rewrite elem_of_cons in E; naive_solver.
Qed.

Lemma candidates_freqs p can_evict (cache : list (K * V)) n p' ks : lfu_ok p (dkeys cache) → (0 < n)%nat →
  lfu_candidates p can_evict cache n = Ok (p', ks) → ∀ k, dget (fp_key_to_freq p') k = if decide (k ∈ ks) then None else dget (fp_key_to_freq p) k.
Proof.
  intros Hok Hn E k. unfold lfu_candidates in E. rewrite scan_freqs_ok in E; [|split|done].
  - cbn [rbind ls_found ls_key_to_freq length app] in E. destruct (pop_all _ _) as [d'|]; [|done]. cbn [rbind] in E. injection E as <- <-.
    cbn [fp_key_to_freq]. apply del_keys_get.
  - by apply (flat_NoDup _ _ Hok).
  - apply Forall_forall. intros [f x] Hin%(flat_get _ _ Hok). cbn. split; [|by rewrite Hin].
    apply elem_of_dkeys, (lo_keys _ _ Hok). by rewrite Hin.
Qed.

(** the policy's frequencies are the counters, and its tracked keys those that have one *)
Lemma lfu_run_counts h p : lfu_run h p → (∃ ks, lfu_ok p ks) ∧ ∀ k, dget (fp_key_to_freq p) k = counts h k.
Proof.
  induction 1 as [|h p k Hr [[ks Hok] IH] Hk|h p k p' Hr [[ks Hok] IH] E|h p k p' Hr [[ks Hok] IH] E|h p ce cache n p' ks Hr [[ks0 Hok] IH] Hwf Hks Hn E].
  - split; [exists []; apply lfu_init_ok|done].
  - split; [|intros x; cbn; rewrite dget_dset, IH; done]. exists (k :: ks). destruct p as [d kf]. apply add_ok; [lia|by rewrite <-Hk, <-IH|done].
  - destruct p as [d kf]. unfold lfu_on_hit in E. cbn in *. destruct (dget kf k) as [f|] eqn:Hf; [|done].
    destruct (pop_ok d kf _ k f Hf Hok) as (d' & Hd & Hok'). rewrite Hd in E. cbn [rbind] in E. injection E as <-.
    pose proof (lo_pos _ _ Hok k f Hf). split.
    + exists (k :: filter (.≠ k) ks). eapply lfu_ok_ext; [| | |exact (add_ok d' (ddel kf k) _ k (f + 1) ltac:(lia) (dget_ddel_eq kf k) Hok')]; [|apply dset_wf, Hok|done].
      intros x. rewrite !dget_dset, dget_ddel. by repeat case_decide.
    + intros x. cbn. rewrite dget_dset. case_decide; subst; [rewrite <-IH, Hf; done|apply IH].
  - destruct p as [d kf]. unfold lfu_on_force_evict in E. cbn in *. destruct (dget kf k) as [f|] eqn:Hf.
    + pose proof (lo_pos _ _ Hok k f Hf). replace (f =? 0) with false in E by lia. destruct (pop_ok d kf _ k f Hf Hok) as (d' & Hd & Hok').
      rewrite Hd in E. cbn [rbind] in E. injection E as <-. split; [by eexists|]. intros x. cbn. rewrite dget_ddel, IH. done.
    + injection E as <-. split; [by eexists|]. intros x. cbn. case_decide; subst; [done|apply IH].
  - assert (lfu_ok p (dkeys cache)) as Hok'.
    { destruct p as [d kf]. eapply lfu_ok_ext; [done|apply Hok| |exact Hok]. intros k. rewrite Hks, <-IH. apply (lo_keys _ _ Hok). }
    destruct (lfu_candidates_ok p ce cache n Hok' Hn) as (p1 & E1 & Hok1). split; [rewrite E in E1; injection E1 as -> _; by eexists|].
    intros k. rewrite (candidates_freqs _ _ _ _ _ _ Hok' Hn E), counts_gone. by rewrite IH.
Qed.

(** The bucketed policy evicts by a counter per key. After any run of puts, hits,
    forced and ordinary evictions, asking for candidates never raises, and no key that
    may go and is spared has been used less often since it was stored than one that is
    handed out. *)
Theorem lfu_evicts_least_used h p can_evict (cache : list (K * V)) n :
  lfu_run h p → dwf cache → (∀ k, k ∈ dkeys cache ↔ is_Some (counts h k)) → (0 < n)%nat →
  ∃ p' ks, lfu_candidates p can_evict cache n = Ok (p', ks) ∧ NoDup ks ∧ (length ks <= n)%nat ∧
    (∀ k, k ∈ ks → ∃ v c, dget cache k = Some v ∧ can_evict v = true ∧ counts h k = Some c ∧
       ∀ k' v' c', k' ∉ ks → dget cache k' = Some v' → can_evict v' = true → counts h k' = Some c' → c <= c') ∧
    ((length ks < n)%nat → ∀ k v, dget cache k = Some v → can_evict v = true → k ∈ ks).
Proof.
  intros Hr Hwf Hks Hn. destruct (lfu_run_counts h p Hr) as [[ks0 Hok0] Hc].
  assert (lfu_ok p (dkeys cache)) as Hok.
  { destruct p as [d kf]. eapply lfu_ok_ext; [done|apply Hok0| |exact Hok0]. intros k. rewrite Hks, <-Hc. apply (lo_keys _ _ Hok0). }
  destruct (candidates_tracks (CachePolicySpec := lfu_spec) p can_evict cache n Hwf Hok Hn) as (p' & ks & E & HN & Hl & Hin & Hall & _).
  exists p', ks. split_and!; [exact E|done|done| |done]. intros k Hk. destruct (Hin k Hk) as (v & Hv & Hcv).
  destruct (lfu_candidates_ok p can_evict cache n Hok Hn) as (p1 & E1 & _). cbn in E. rewrite E1 in E. injection E as _ <-.
  set (l := filter (may_go can_evict cache) (flat (sd_items (fp_freq_to_keys p)))) in *.
  apply list_elem_of_fmap in Hk as ([c k1] & -> & Hk1). exists v, c. cbn [snd] in *.
  assert (∀ x, x ∈ l → counts h x.2 = Some x.1) as Hcount.
  { intros [f x] [_ Hx]%list_elem_of_filter. apply (flat_get _ _ Hok) in Hx. by rewrite <-Hc. }
  split_and!; [done|done| |].
  - apply elem_of_take in Hk1 as (i & Hi & _). apply list_elem_of_lookup_2 in Hi. by apply Hcount in Hi.
  - intros k' v' c' Hk' Hv' Hcv' Hc'. assert ((c', k') ∈ l) as Hl'.
    { apply list_elem_of_filter. split; [by exists v'|]. apply (flat_get _ _ Hok). by rewrite Hc. }
    assert (StronglySorted (λ x y : Z * K, x.1 <= y.1) (take n l ++ drop n l)) as HS.
    { rewrite take_drop. unfold l. apply sorted_filter, flat_sorted, sd_sorted. }
    apply StronglySorted_app_iff in HS as (_ & _ & HS). apply (HS (c, k1) (c', k')); [done|].
    rewrite <-(take_drop n l) in Hl'. apply elem_of_app in Hl' as [Ht|]; [|done]. destruct Hk'. apply list_elem_of_fmap. by exists (c', k').
Qed.
End history.

(** ** [SortedDict] as a finite map *)

Definition entry_le {B} (x y : Z * B) : Prop := x.1 <= y.1.
#[export] Instance entry_le_dec {B} : RelDecision (entry_le (B := B)).
Proof. unfold RelDecision, entry_le. intros. apply _. Defined.
#[export] Instance entry_le_trans {B} : Transitive (entry_le (B := B)).
Proof. unfold entry_le. intros x y z. lia. Qed.
#[export] Instance entry_le_total {B} : Total (entry_le (B := B)).
Proof. unfold entry_le. intros x y. lia. Qed.

#[export] Instance map_sorted_dict {B} : SortedDictOps (gmap Z B) B := {
  sd_empty := ∅;
  sd_get m k := m !! k;
  sd_set m k b := <[k := b]> m;
  sd_del m k := delete k m;
  sd_items m := merge_sort entry_le (map_to_list m) }.

#[export] Instance map_sorted_dict_spec {B} : SortedDictSpec (gmap Z B) B.
Proof.
  assert (∀ m : gmap Z B, sd_items m ≡ₚ map_to_list m) as Hp by (intros m; apply merge_sort_Permutation).
  assert (∀ m : gmap Z B, NoDup (sd_items m).*1) as HN by (intros m; rewrite Hp; apply NoDup_fst_map_to_list).
  split.
  - intros m. pose proof (StronglySorted_merge_sort entry_le (map_to_list m)) as HS. specialize (HN m). unfold sd_items, map_sorted_dict in *.
    induction HS as [|x l HS IH HF]; cbn; [constructor|]. cbn in HN. apply NoDup_cons in HN as [Hx HN]. constructor; [by apply IH|].
    apply Forall_fmap. rewrite Forall_forall in *. intros y Hy. specialize (HF y Hy). unfold entry_le in HF. cbn.
    assert (x.1 ≠ y.1); [|lia]. intros Exy. apply Hx. rewrite Exy. apply list_elem_of_fmap. by exists y.
  - intros m k. cbn [sd_get map_sorted_dict]. destruct (m !! k) as [b|] eqn:E; symmetry.
    + apply dget_wf_elem_of; [apply HN|]. rewrite Hp. by apply elem_of_map_to_list.
    + apply dget_None_dkeys. unfold dkeys. intros ([k' b] & -> & Hin)%list_elem_of_fmap. rewrite Hp in Hin. apply elem_of_map_to_list in Hin. cbn in E. congruence.
  - intros k. apply lookup_empty.
  - intros m k b k'. cbn. rewrite lookup_insert. done.
  - intros m k k'. cbn. rewrite lookup_delete. done.
Qed.

(** ** Three keys, one of them used once *)

Definition demo_events : list (event (K := nat)) := [EHit 1%nat; EPut 2%nat; EPut 1%nat; EPut 0%nat].
Definition demo_lfu : LFUCachePolicy (K := nat) (SD := gmap Z (list nat)) :=
  match lfu_on_hit (lfu_on_put (lfu_on_put (lfu_on_put lfu_init 0%nat) 1%nat) 2%nat) 1%nat with Ok p => p | Raise _ => lfu_init end.

Lemma demo_lfu_run : lfu_run (V := bool) demo_events demo_lfu.
Proof. eapply run_hit; [repeat (apply run_put; [|reflexivity]); apply run_init|vm_compute; reflexivity]. Qed.

Lemma lfu_evicts_least_used_witness :
  lfu_run (V := bool) demo_events demo_lfu ∧
  ∃ p' ks, lfu_candidates demo_lfu id [(0%nat, true); (1%nat, true); (2%nat, false)] 1 = Ok (p', ks) ∧ (length ks <= 1)%nat ∧ ks = [0%nat].
Proof.
  split; [exact demo_lfu_run|].
  destruct (lfu_evicts_least_used demo_events demo_lfu id [(0%nat, true); (1%nat, true); (2%nat, false)] 1 demo_lfu_run) as (p' & ks & E & _ & Hl & _).
  - apply (bool_decide_unpack _). vm_compute. exact I.
  - intros k. unfold dkeys. cbn. rewrite !elem_of_cons, elem_of_nil. split.
    + intros [->|[->|[->|[]]]]; by eexists.
    + intros [c Hc]. repeat case_decide; subst; naive_solver.
  - lia.
  - exists p', ks. split_and!; [exact E|exact Hl|]. vm_compute in E. by injection E.
Defined.
