(* ===== verification/EngineKey.v ===== *)
(** * Keys of the in-process engine

    [CacheEngineKey], [LayerCacheEngineKey] and [parse_cache_key] of utils.py with the
    dtype names. A key is equal to another when they agree on everything but the request
    configuration, of which only the tags count; [ident] is what they have to agree on.
    The values of a request configuration are any Python values: [ConfigValue] says how
    one is formatted and how a string is one. Which of the float8 types torch has is the
    parameter [TorchBuild]. Strings and [int] are modelled on ASCII as in [ObjectKey]. *)

From Stdlib Require Import Strings.Byte.
From S2P Require Import Prelude PyDict PyState BatchBlob ObjectKey Utf8 Json MakvFormat.

Open Scope Z_scope.

Inductive torch_dtype :=
| T_float16 | T_bfloat16 | T_float32 | T_float64 | T_int8 | T_uint8 | T_int16 | T_int32 | T_int64 | T_bool
| T_float8_e4m3fn | T_float8_e4m3fnuz | T_float8_e5m2 | T_float8_e5m2fnuz | T_complex64 | T_complex128.
#[export] Instance torch_dtype_eq_dec : EqDecision torch_dtype.
Proof. solve_decision. Defined.

(** [hasattr(torch, ...)] for the float8 types *)
Class TorchBuild := hasattr_torch : torch_dtype → bool.

(** [torch.half] is [torch.float16], and so on: the literal has one entry for both *)
Definition TORCH_DTYPE_TO_STR_DTYPE `{TorchBuild} : list (torch_dtype * str) :=
  [(T_float16, lit "half"); (T_bfloat16, lit "bfloat16"); (T_float32, lit "float"); (T_float64, lit "double");
   (T_int8, lit "int8"); (T_uint8, lit "uint8"); (T_int16, lit "int16"); (T_int32, lit "int32"); (T_int64, lit "int64");
   (T_bool, lit "bool")]
  ++ filter (λ dn, hasattr_torch dn.1 = true)
       [(T_float8_e4m3fn, lit "fp8_e4m3fn"); (T_float8_e4m3fnuz, lit "fp8_e4m3fnuz"); (T_float8_e5m2, lit "fp8_e5m2");
        (T_float8_e5m2fnuz, lit "fp8_e5m2fnuz")].
Definition STR_DTYPE_TO_TORCH_DTYPE `{TorchBuild} : list (str * torch_dtype) :=
  dupdate [] ((λ kv, (kv.2, kv.1)) <$> TORCH_DTYPE_TO_STR_DTYPE).

(** [f"{v}"], and a string as a value *)
Class ConfigValue (V : Type) := { format_value : V → str; str_value : str → V; format_str s : format_value (str_value s) = s }.

(** [chunk_hash]: an [int], or bytes of a hash function that was not normalised *)
Inductive ChunkHash := HInt (z : Z) | HBytes (bs : list byte).
#[export] Instance ChunkHash_eq_dec : EqDecision ChunkHash.
Proof. solve_decision. Defined.

Section keys.
Context `{TorchBuild} {V : Type} `{EqDecision V} {CV : ConfigValue V}.

Record CacheEngineKey := mkKey {
  ck_model_name : str;
  ck_world_size : Z;
  ck_worker_id : Z;
  ck_chunk_hash : ChunkHash;
  ck_dtype : torch_dtype;
  ck_request_configs : option (list (str * V));
  ck_tags : option (list (str * V));
  ck__dtype_str : str }.

Record LayerCacheEngineKey := mkLayerKey { lk_key : CacheEngineKey; lk_layer_id : Z }.

Definition TAG : str := lit "lmcache.tag.".

(** the loop of [__post_init__]; [None] until the first tag *)
Fixpoint tag_list (configs : list (str * V)) (acc : option (list (str * V))) : option (list (str * V)) :=
  match configs with
  | [] => acc
  | (k, v) :: configs =>
      if is_prefix TAG k then tag_list configs (Some (default [] acc ++ [(drop (length TAG) k, v)]))
      else tag_list configs acc
  end.

(** [CacheEngineKey(...)], with [__post_init__] *)
Definition new_key (model_name : str) (world_size worker_id : Z) (chunk_hash : ChunkHash) (dtype : torch_dtype)
    (request_configs : option (list (str * V))) : result CacheEngineKey :=
  let tags := match request_configs with Some cs => tag_list cs None | None => None end in
  match dget TORCH_DTYPE_TO_STR_DTYPE dtype with
  | None => Raise ValueError
  | Some name => Ok (mkKey model_name world_size worker_id chunk_hash dtype request_configs tags name)
  end.
Definition new_layer_key (model_name : str) (world_size worker_id : Z) (chunk_hash : ChunkHash) (dtype : torch_dtype)
    (request_configs : option (list (str * V))) (layer_id : Z) : result LayerCacheEngineKey :=
  (k <-? new_key model_name world_size worker_id chunk_hash dtype request_configs; Ok (mkLayerKey k layer_id))%py.

(** what [__eq__] compares, and the layer when the key has one: keys of different
    classes are never equal *)
Record KeyId := mkKeyId {
  ki_model_name : str;
  ki_world_size : Z;
  ki_worker_id : Z;
  ki_chunk_hash : ChunkHash;
  ki_dtype : torch_dtype;
  ki_tags : option (list (str * V));
  ki_layer_id : option Z }.
#[export] Instance KeyId_eq_dec : EqDecision KeyId.
Proof. solve_decision. Defined.

Definition ident (k : CacheEngineKey) : KeyId :=
  mkKeyId (ck_model_name k) (ck_world_size k) (ck_worker_id k) (ck_chunk_hash k) (ck_dtype k) (ck_tags k) None.
Definition layer_ident (k : LayerCacheEngineKey) : KeyId :=
  let c := lk_key k in
  mkKeyId (ck_model_name c) (ck_world_size c) (ck_worker_id c) (ck_chunk_hash c) (ck_dtype c) (ck_tags c) (Some (lk_layer_id k)).
Definition key_eq (k k' : CacheEngineKey) : bool := bool_decide (ident k = ident k').
Definition layer_key_eq (k k' : LayerCacheEngineKey) : bool := bool_decide (layer_ident k = layer_ident k').

Definition chunk_hash_hex (k : CacheEngineKey) : str :=
  match ck_chunk_hash k with HBytes bs => bytes_hex bs | HInt z => format_hex false 0 z end.

(** ** Strings *)

Definition at_ : Z := 64.
Definition percent : Z := 37.

(** [sep.join(fields)] after something: each field with a separator before it *)
Definition joined (fields : list str) : str := concat ((λ f, at_ :: f) <$> fields).

Definition tag_strings (tags : option (list (str * V))) : list str :=
  match tags with Some ts => (λ t : str * V, t.1 ++ percent :: format_value t.2) <$> ts | None => [] end.

Definition to_string (k : CacheEngineKey) : str :=
  ck_model_name k ++ joined [dump_int (ck_world_size k); dump_int (ck_worker_id k); chunk_hash_hex k; ck__dtype_str k]
  ++ joined (tag_strings (ck_tags k)).
Definition layer_to_string (k : LayerCacheEngineKey) : str :=
  let c := lk_key k in
  ck_model_name c ++ joined [dump_int (ck_world_size c); dump_int (ck_worker_id c); chunk_hash_hex c; ck__dtype_str c; dump_int (lk_layer_id k)]
  ++ joined (tag_strings (ck_tags c)).

(** [kv.split("%", 1)]: the two parts, if there are two *)
Fixpoint split_percent (s : str) : option (str * str) :=
  match s with
  | [] => None
  | c :: s => if c =? percent then Some ([], s) else (λ p, (c :: p.1, p.2)) <$> split_percent s
  end.

(** [request_configs[prefix + kvs[0]] = kvs[1]] for every field *)
Fixpoint parse_configs (prefix : str) (kvs : list str) (configs : list (str * V)) : result (list (str * V)) :=
  match kvs with
  | [] => Ok configs
  | kv :: kvs =>
      match split_percent kv with
      | None => Raise ValueError
      | Some (k, v) => parse_configs prefix kvs (dset configs (prefix ++ k) (str_value v))
      end
  end.
Definition parse_tags (fields : list str) : result (option (list (str * V))) :=
  match fields with [] => Ok None | _ => (cs <-? parse_configs TAG fields []; Ok (Some cs))%py end.

Definition dtype_of (name : str) : result torch_dtype :=
  match dget STR_DTYPE_TO_TORCH_DTYPE name with Some d => Ok d | None => Raise KeyError end.

Definition from_string (s : str) : result CacheEngineKey :=
  match split_on at_ s with
  | m :: ws :: wid :: h :: dt :: rest =>
      (cs <-? parse_tags rest;
       ws <-? int_of_str ws; wid <-? int_of_str wid; h <-? ObjectKey.int16 h; dt <-? dtype_of dt;
       new_key m ws wid (HInt h) dt cs)%py
  | _ => Raise ValueError
  end.
Definition layer_from_string (s : str) : result LayerCacheEngineKey :=
  match split_on at_ s with
  | m :: ws :: wid :: h :: dt :: l :: rest =>
      (cs <-? parse_tags rest;
       ws <-? int_of_str ws; wid <-? int_of_str wid; h <-? ObjectKey.int16 h; dt <-? dtype_of dt; l <-? int_of_str l;
       new_layer_key m ws wid (HInt h) dt cs l)%py
  | _ => Raise ValueError
  end.

(** [s.isdigit()] *)
Definition isdigit (s : str) : bool := nonempty s && forallb is_digit s.

Definition parse_cache_key (key_str : str) : result (CacheEngineKey + LayerCacheEngineKey) :=
  match split_on at_ (strip key_str) with
  | _ :: _ :: _ :: _ :: _ :: p5 :: _ =>
      if isdigit p5 then (k <-? layer_from_string key_str; Ok (inr k))%py else (k <-? from_string key_str; Ok (inl k))%py
  | _ => (k <-? from_string key_str; Ok (inl k))%py
  end.

(** ** Dictionaries for msgpack *)

Record KeyDict := mkKeyDict {
  kd_type : str; kd_model_name : str; kd_world_size : Z; kd_worker_id : Z; kd_chunk_hash : ChunkHash; kd_dtype : str;
  kd_request_configs : option (list str) }.

Definition to_dict (k : CacheEngineKey) : KeyDict :=
  mkKeyDict (lit "CacheEngineKey") (ck_model_name k) (ck_world_size k) (ck_worker_id k) (ck_chunk_hash k) (ck__dtype_str k)
    (match ck_request_configs k with
     | Some ((_ :: _) as cs) => Some ((λ t : str * V, t.1 ++ percent :: format_value t.2) <$> cs)
     | _ => None
     end).

Definition from_dict (d : KeyDict) : result CacheEngineKey :=
  (cs <-? match kd_request_configs d with
          | Some ((_ :: _) as l) => (cs <-? parse_configs [] l []; Ok (Some cs))
          | _ => Ok None
          end;
   dt <-? dtype_of (kd_dtype d);
   new_key (kd_model_name d) (kd_world_size d) (kd_worker_id d) (kd_chunk_hash d) dt cs)%py.

(** ** Derived keys *)

Definition with_new_worker_id (k : CacheEngineKey) (new_worker_id : Z) : result CacheEngineKey :=
  new_key (ck_model_name k) (ck_world_size k) new_worker_id (ck_chunk_hash k) (ck_dtype k) (ck_request_configs k).

Definition layer_key (k : CacheEngineKey) (layer_id : Z) : result LayerCacheEngineKey :=
  new_layer_key (ck_model_name k) (ck_world_size k) (ck_worker_id k) (ck_chunk_hash k) (ck_dtype k) (ck_request_configs k) layer_id.
Definition get_first_layer (k : CacheEngineKey) : result LayerCacheEngineKey := layer_key k 0.
(** the same loop for a key of either class *)
Definition split_layers (k : CacheEngineKey) (num_layers : nat) : result (list LayerCacheEngineKey) :=
  map_ok (λ layer_id : nat, layer_key k (Z.of_nat layer_id)) (seq 0 num_layers).
End keys.
Arguments CacheEngineKey V : clear implicits.
Arguments LayerCacheEngineKey V : clear implicits.
Arguments KeyId V : clear implicits.
