(* ===== verification/LocalCPU.v ===== *)
(** * The CPU cache of the in-process path

    [LocalCPUBackend] of storage_backend/local_cpu_backend.py: the dictionary of cached
    memory objects, the allocation that evicts from it, and [batched_remove] of
    storage_backend/abstract_backend.py. The cache policy is any [CachePolicy]; the
    memory is the [World] of the tensor allocator behind [MixedMemoryAllocator]
    (memory_allocators/mixed_memory_allocator.py), for the formats of its pinned pool.
    An operation is a function on the backend's state that can raise; the parts that the
    code runs under [cpu_lock] are definitions of their own, so that the steps of threads
    can be interleaved between them. Metrics other than the eviction counters and the
    callback of a put, which cannot change the backend, are left out. *)

From S2P Require Import Prelude PyDict PyState AddressManager AddressSpace TensorAllocator TTLLock L1Manager L1ManagerProofs L1Memory CachePolicies.

Open Scope Z_scope.

Inductive OpType := ADMIT | EVICT.

(** [CacheEngineKey.split_layers]: the keys of the layers of a chunk *)
Class LayerKeys (K : Type) := split_layers : K → nat → list K.
Class LayerKeysSpec (K : Type) `{LayerKeys K} := split_layers_NoDup (k : K) n : NoDup (split_layers k n).

Section local_cpu.
Context {SL : Type} {SLO : SortedListOps SL}.
Context {dtype : Type} (itemsize : dtype → Z).
Context {K P H : Type} `{EqDecision K} {LK : LayerKeys K} {CP : CachePolicy P K nat} (chunk_hash : K → H).

(** the messages handed to the batched sender, oldest first, when there is one; the
    counters are those of the statistics monitor *)
Record LocalCPUBackend := mkBackend {
  lb_cache_policy : P;
  lb_hot_cache : list (K * nat);
  lb_use_hot : bool;
  lb_memory : World SL dtype;
  lb_layerwise : bool;
  lb_enable_blending : bool;
  lb_keys_in_request : list K;
  lb_batched_msg_sender : option (list (OpType * H));
  lb_evict_count : Z;
  lb_evict_failed : Z }.

Definition lb_init (policy : P) (use_hot layerwise blending sender : bool) (memory : World SL dtype) : LocalCPUBackend :=
  mkBackend policy init_mutable_mapping use_hot memory layerwise blending [] (if sender then Some [] else None) 0 0.

Definition with_policy (b : LocalCPUBackend) (p : P) : LocalCPUBackend :=
  mkBackend p (lb_hot_cache b) (lb_use_hot b) (lb_memory b) (lb_layerwise b) (lb_enable_blending b) (lb_keys_in_request b)
    (lb_batched_msg_sender b) (lb_evict_count b) (lb_evict_failed b).
Definition with_hot (b : LocalCPUBackend) (hot : list (K * nat)) : LocalCPUBackend :=
  mkBackend (lb_cache_policy b) hot (lb_use_hot b) (lb_memory b) (lb_layerwise b) (lb_enable_blending b) (lb_keys_in_request b)
    (lb_batched_msg_sender b) (lb_evict_count b) (lb_evict_failed b).
Definition with_memory (b : LocalCPUBackend) (w : World SL dtype) : LocalCPUBackend :=
  mkBackend (lb_cache_policy b) (lb_hot_cache b) (lb_use_hot b) w (lb_layerwise b) (lb_enable_blending b) (lb_keys_in_request b)
    (lb_batched_msg_sender b) (lb_evict_count b) (lb_evict_failed b).
Definition with_request (b : LocalCPUBackend) (ks : list K) : LocalCPUBackend :=
  mkBackend (lb_cache_policy b) (lb_hot_cache b) (lb_use_hot b) (lb_memory b) (lb_layerwise b) (lb_enable_blending b) ks
    (lb_batched_msg_sender b) (lb_evict_count b) (lb_evict_failed b).
Definition with_sender (b : LocalCPUBackend) (ms : option (list (OpType * H))) : LocalCPUBackend :=
  mkBackend (lb_cache_policy b) (lb_hot_cache b) (lb_use_hot b) (lb_memory b) (lb_layerwise b) (lb_enable_blending b) (lb_keys_in_request b)
    ms (lb_evict_count b) (lb_evict_failed b).
Definition with_counts (b : LocalCPUBackend) (evicted failed : Z) : LocalCPUBackend :=
  mkBackend (lb_cache_policy b) (lb_hot_cache b) (lb_use_hot b) (lb_memory b) (lb_layerwise b) (lb_enable_blending b) (lb_keys_in_request b)
    (lb_batched_msg_sender b) evicted failed.

#[local] Abbreviation M := (py_state LocalCPUBackend).

(** a call into the memory, or into the policy *)
Definition on_memory {A} (f : World SL dtype → result (A * World SL dtype)) : M A := λ b,
  match f (lb_memory b) with
  | Ok (a, w) => (Ok a, with_memory b w)
  | Raise e => (Raise e, b)
  end.
Definition on_world (f : World SL dtype → result (World SL dtype)) : M unit :=
  on_memory (λ w, (w <-? f w; Ok (tt, w))%py).
Definition on_policy {A} (f : P → result (P * A)) : M A := λ b,
  match f (lb_cache_policy b) with
  | Ok (p, a) => (Ok a, with_policy b p)
  | Raise e => (Raise e, b)
  end.

(** [memory_obj.can_evict] *)
Definition evictable (w : World SL dtype) (oid : nat) : bool :=
  match w_objs w !! oid with Some o => can_evict o | None => false end.

Definition add_kv_op (op_type : OpType) (key : K) : M unit :=
  modify (λ b, with_sender b ((λ ms, ms ++ [(op_type, chunk_hash key)]) <$> lb_batched_msg_sender b)).

(** ** Lookup *)

Definition contains (key : K) (pin : bool) (now : Z) : M bool :=
  hot ← gets lb_hot_cache;
  match dget hot key with
  | None => mret false
  | Some oid =>
      _ ← when pin (_ ← on_world (λ w, Ok (TensorAllocator.pin w oid now));
                    modify (λ b, with_request b (lb_keys_in_request b ++ [key])));
      mret true
  end.

Fixpoint batched_async_contains (keys : list K) (pin : bool) (now : nat → Z) (num_hit_chunks : nat) : M nat :=
  match keys with
  | [] => mret num_hit_chunks
  | key :: keys =>
      hit ← contains key pin (now num_hit_chunks);
      if (hit : bool) then batched_async_contains keys pin now (S num_hit_chunks) else mret num_hit_chunks
  end.

(** [self.cache_policy.update_on_hit(key, self.hot_cache)] *)
Definition hit (key : K) (now : Z) : M unit := λ b,
  match update_on_hit (lb_cache_policy b) now key (lb_hot_cache b) with
  | (p, Ok hot) => (Ok tt, with_hot (with_policy b p) hot)
  | (p, Raise e) => (Raise e, with_policy b p)
  end.

Definition touch_cache (now : K → Z) : M unit :=
  keys ← gets lb_keys_in_request;
  _ ← for_each (λ key, hit key (now key)) (rev keys);
  modify (λ b, with_request b []).

Definition get_blocking (key : K) : M (option nat) :=
  hot ← gets lb_hot_cache;
  match dget hot key with
  | None => mret None
  | Some oid => _ ← on_world (λ w, Ok (ref_count_up w oid)); mret (Some oid)
  end.

Fixpoint batched_get_non_blocking (keys : list K) (mem_objs : list nat) : M (list nat) :=
  match keys with
  | [] => mret mem_objs
  | key :: keys =>
      hot ← gets lb_hot_cache;
      mem_obj ← getitem hot key;
      _ ← on_world (λ w, Ok (ref_count_up w mem_obj));
      batched_get_non_blocking keys (mem_objs ++ [mem_obj])
  end.

Definition pin (key : K) (now : Z) : M bool :=
  hot ← gets lb_hot_cache;
  match dget hot key with
  | None => mret false
  | Some oid => _ ← on_world (λ w, Ok (TensorAllocator.pin w oid now)); mret true
  end.

Definition unpin (key : K) : M bool :=
  hot ← gets lb_hot_cache;
  match dget hot key with
  | None => mret false
  | Some oid => _ ← on_world (λ w, TensorAllocator.unpin w oid); mret true
  end.

(** ** Insertion and removal *)

(** The callback that runs after a put is the caller's; its exceptions are caught. *)
Definition submit_put_task (key : K) (memory_obj : nat) (now : Z) : M unit :=
  hot ← gets lb_hot_cache;
  if dmem hot key then mret tt
  else
    _ ← on_world (λ w, Ok (ref_count_up w memory_obj));
    _ ← modify (λ b, with_hot b (dset (lb_hot_cache b) key memory_obj));
    _ ← modify (λ b, with_policy b (update_on_put (lb_cache_policy b) now key));
    add_kv_op ADMIT key.

Definition batched_submit_put_task (keys : list K) (memory_objs : list nat) (now : K → Z) : M unit :=
  use_hot ← gets lb_use_hot;
  when use_hot (for_each (λ km, submit_put_task km.1 km.2 (now km.1)) (zip keys memory_objs)).

Definition remove (key : K) (force : bool) : M bool :=
  hot ← gets lb_hot_cache;
  match dget hot key with
  | None => mret false
  | Some memory_obj =>
      _ ← modify (λ b, with_hot b (ddel (lb_hot_cache b) key));
      _ ← on_world (λ w, ref_count_down w memory_obj);
      _ ← when force (on_policy (λ p, (p <-? update_on_force_evict p key; Ok (p, tt))%py));
      _ ← add_kv_op EVICT key;
      mret true
  end.

Fixpoint batched_remove (keys : list K) (force : bool) (num_removed : nat) : M nat :=
  match keys with
  | [] => mret num_removed
  | key :: keys => removed ← remove key force; batched_remove keys force (num_removed + Nat.b2n removed)
  end.

(** the keys [clear] collects under the lock, with the tokens they hold *)
Fixpoint clear_scan (w : World SL dtype) (hot : list (K * nat)) (clear_keys : list K) (num_cleared_tokens : Z)
  : result (list K * Z) :=
  match hot with
  | [] => Ok (clear_keys, num_cleared_tokens)
  | (key, oid) :: hot =>
      match w_objs w !! oid with
      | None => clear_scan w hot clear_keys num_cleared_tokens
      | Some o =>
          if negb (can_evict o) then clear_scan w hot clear_keys num_cleared_tokens
          else (n <-? get_num_tokens o; clear_scan w hot (clear_keys ++ [key]) (num_cleared_tokens + n))%py
      end
  end.

Definition clear : M Z :=
  use_hot ← gets lb_use_hot;
  if negb use_hot then mret 0
  else
    b ← gets id;
    r ← lift (clear_scan (lb_memory b) (lb_hot_cache b) [] 0);
    _ ← batched_remove r.1 true 0;
    mret r.2.

Definition get_keys : M (list K) := gets (λ b, dkeys (lb_hot_cache b)).

(** ** Allocation *)

Definition format_of (b : LocalCPUBackend) (fmt : option MemoryFormat) : MemoryFormat :=
  match fmt with
  | Some fmt => fmt
  | None => if lb_layerwise b then (if lb_enable_blending b then KV_2TD else KV_T2D) else KV_2LTD
  end.

(** [MixedMemoryAllocator.allocate] and [batched_allocate] for the formats of the pinned
    pool and those they refuse; objects of [BINARY_BUFFER] come from another allocator
    and are outside the model *)
Definition mixed_allocate (w : World SL dtype) (shapes : Size + list Size) (dtypes : dtype + list dtype) (fmt : MemoryFormat)
  : result (option nat * World SL dtype) :=
  (guard pinned_format fmt else ValueError; TensorAllocator.allocate itemsize w shapes dtypes fmt)%py.
Definition mixed_batched_allocate (w : World SL dtype) (shapes : Size + list Size) (dtypes : dtype + list dtype) (batch_size : Z)
    (fmt : MemoryFormat) : result (option (list nat) * World SL dtype) :=
  (guard pinned_format fmt else ValueError; TensorAllocator.batched_allocate itemsize w shapes dtypes batch_size fmt)%py.

(** [self.cache_policy.get_evict_candidates(self.hot_cache, num_candidates)] *)
Definition candidates (num_candidates : nat) : M (list K) :=
  b ← gets id; on_policy (λ p, get_evict_candidates p (evictable (lb_memory b)) (lb_hot_cache b) num_candidates).

Definition evict_failed (num_candidates : nat) : M unit :=
  modify (λ b, with_counts b (lb_evict_count b) (lb_evict_failed b + Z.of_nat num_candidates)).

(** the locked part of a round of [allocate]: the number of entries evicted, if any *)
Definition evict_one : M (option nat) :=
  evict_keys ← candidates 1;
  if nonempty evict_keys then _ ← batched_remove evict_keys false 0; mret (Some (length evict_keys))
  else _ ← evict_failed 1; mret None.

(** lines 804 to 810: the objects of all layers of a chunk, or none *)
Fixpoint old_mem_objs (w : World SL dtype) (hot : list (K * nat)) (keys : list K) (acc : list nat) : list nat :=
  match keys with
  | [] => acc
  | key :: keys =>
      match dget hot key with
      | Some oid => if evictable w oid then old_mem_objs w hot keys (acc ++ [oid]) else []
      | None => []
      end
  end.

Fixpoint evict_chunk (batch_size : nat) (evict_keys : list K) : M (option nat) :=
  match evict_keys with
  | [] => mret None
  | evict_key :: evict_keys =>
      let evict_key_all_layer := split_layers evict_key batch_size in
      b ← gets id;
      let old := old_mem_objs (lb_memory b) (lb_hot_cache b) evict_key_all_layer [] in
      if negb (nonempty old) then evict_chunk batch_size evict_keys
      else
        _ ← for_each (λ key, _ ← on_policy (λ p, (p <-? update_on_force_evict p key; Ok (p, tt))%py);
                             modify (λ b, with_hot b (ddel (lb_hot_cache b) key))) evict_key_all_layer;
        _ ← on_world (λ w, mixed_batched_free w old);
        mret (Some (length old))
  end.

(** the locked part of a round of [batched_allocate] *)
Definition evict_layers (num_candidates batch_size : nat) : M (option nat) :=
  evict_keys ← candidates num_candidates;
  r ← evict_chunk batch_size evict_keys;
  _ ← when (match r with None => true | Some _ => false end) (evict_failed num_candidates);
  mret r.

(** what a round of a loop leaves: the memory, a reason to go on, or the end *)
Inductive round (A : Type) := Got (a : A) | Again | Stop.
Arguments Got {A} a.
Arguments Again {A}.
Arguments Stop {A}.

Definition alloc_round {A} (evict : M (option nat)) (alloc : World SL dtype → result (option A * World SL dtype)) (busy_loop : bool)
  : M (round A * nat) :=
  use_hot ← gets lb_use_hot;
  evicted ← (if (use_hot : bool) then evict else mret None);
  let wait_other_requests := match evicted with None => true | Some _ => false end in
  if wait_other_requests && negb busy_loop then mret (Stop, 0%nat)
  else
    r ← on_memory alloc;
    mret (match r with Some a => Got a | None => Again end, default 0%nat evicted).

(** [while True], with fuel; [None] when it runs out *)
Fixpoint alloc_loop {A} (fuel : nat) (evict : M (option nat)) (alloc : World SL dtype → result (option A * World SL dtype)) (busy_loop : bool)
    (evict_keys_count : nat) : M (option (option A)) :=
  match fuel with
  | O => mret None
  | S fuel =>
      r ← alloc_round evict alloc busy_loop;
      let evict_keys_count := (evict_keys_count + r.2)%nat in
      let finish (a : option A) : M (option (option A)) :=
        _ ← modify (λ b, with_counts b (lb_evict_count b + Z.of_nat evict_keys_count) (lb_evict_failed b)); mret (Some a) in
      match r.1 with
      | Got a => finish (Some a)
      | Stop => finish None
      | Again => alloc_loop fuel evict alloc busy_loop evict_keys_count
      end
  end.

Definition allocating {A} (fuel : nat) (evict : M (option nat)) (alloc : World SL dtype → result (option A * World SL dtype))
    (eviction busy_loop : bool) : M (option (option A)) :=
  r ← on_memory alloc;
  match r with
  | Some a => mret (Some (Some a))
  | None => if negb eviction then mret (Some None) else alloc_loop fuel evict alloc busy_loop 0
  end.

Definition allocate (fuel : nat) (shapes : Size + list Size) (dtypes : dtype + list dtype) (fmt : option MemoryFormat) (eviction busy_loop : bool)
  : M (option (option nat)) :=
  b ← gets id;
  allocating fuel evict_one (λ w, mixed_allocate w shapes dtypes (format_of b fmt)) eviction busy_loop.

Definition layer_round (batch_size : Z) : M (option nat) :=
  hot ← gets lb_hot_cache;
  evict_layers (Nat.min 64 (Nat.max 1 (length hot))) (Z.to_nat batch_size).

Definition batched_allocate (fuel : nat) (shapes : Size + list Size) (dtypes : dtype + list dtype) (batch_size : Z) (fmt : option MemoryFormat)
    (eviction busy_loop : bool) : M (option (option (list nat))) :=
  b ← gets id;
  allocating fuel (layer_round batch_size) (λ w, mixed_batched_allocate w shapes dtypes batch_size (format_of b fmt)) eviction busy_loop.

(** ** The chunk budget *)

(** [kv_shape] is [num_layers, kv_size, chunk_size, num_heads, head_size] *)
Definition get_full_chunk_size_bytes (layerwise : bool) (chunk_tokens : Z) (kv_shape : Z * Z * Z * Z * Z) (dtype_size : Z) : Z :=
  let '(num_layers, kv_size, _, num_heads, head_size) := kv_shape in
  let hidden_dim := num_heads * head_size in
  if layerwise then chunk_tokens * kv_size * hidden_dim * dtype_size
  else kv_size * num_layers * chunk_tokens * hidden_dim * dtype_size.

(** [total_memory] is [int(max_local_cpu_size * 1024**3)] *)
Definition calculate_chunk_budget (total_memory alignment chunk_bytes : Z) : result Z :=
  let aligned_chunk_bytes := (chunk_bytes + alignment - 1) / alignment * alignment in
  if (alignment =? 0) || (aligned_chunk_bytes =? 0) then Raise ZeroDivisionError else Ok (total_memory / aligned_chunk_bytes).
End local_cpu.
