(* ===== verification/LocalCPUProofs.v ===== *)
(** * The CPU cache: reference counts

    The memory objects of the backend are counted references: one for each cache entry
    and one for each reference the callers have taken. [mem_ok w l] says so of a list [l]
    of references, and the operations on the memory keep it; [lb_ok] adds the state of
    the cache and of its policy. *)

From S2P Require Import Prelude PyDict PyState AddressManager AddressSpace TensorAllocator TTLLock L1Manager L1ManagerProofs L1Memory CachePolicies LocalCPU.

Open Scope Z_scope.

#[local] Arguments alter : simpl never.

Section memory.
Context {SL : Type} {SLO : SortedListOps SL} {SLS : SortedListSpec SL}.
Context {dtype : Type} (itemsize : dtype → Z).
Implicit Types (w : World SL dtype) (l : list nat) (o : TensorMemoryObj dtype).

Definition refs l (oid : nat) : Z := Z.of_nat (count_occ Nat.eq_dec l oid).

Record mem_ok w l : Prop := {
  mk_world : world_ok w;
  mk_pinned : all_pinned (w_objs w);
  mk_live : ∀ oid, oid ∈ l → live_obj w oid;
  mk_refs : ∀ oid o, w_objs w !! oid = Some o → to_valid o = true → ref_count o = refs l oid;
  mk_used : ∀ oid o, w_objs w !! oid = Some o → to_valid o = true → 0 < ref_count o ∨ 0 < pin_count o }.

Lemma refs_cons l a oid : refs (a :: l) oid = refs l oid + if decide (a = oid) then 1 else 0.
Proof. unfold refs. cbn [count_occ]. destruct (Nat.eq_dec a oid), (decide (a = oid)); lia. Qed.

Lemma refs_perm l l' oid : l ≡ₚ l' → refs l oid = refs l' oid.
Proof. intros Hp. unfold refs. by rewrite (proj1 (Permutation_count_occ Nat.eq_dec l l') Hp). Qed.

Lemma refs_elem l oid : oid ∈ l → 0 < refs l oid.
Proof. intros Hin%list_elem_of_In%(count_occ_In Nat.eq_dec). unfold refs. lia. Qed.

Lemma refs_nonneg l oid : 0 <= refs l oid.
Proof. unfold refs. lia. Qed.

#[export] Instance mem_ok_perm w : Proper ((≡ₚ) ==> iff) (mem_ok w).
Proof.
  assert (∀ l l', l ≡ₚ l' → mem_ok w l → mem_ok w l') as H.
  { intros l l' Hp [H1 H2 H3 H4 H5]. split; [done|done|..|done].
    - intros oid Hin. apply H3. by rewrite Hp.
    - intros oid o Ho Hv. rewrite (H4 oid o Ho Hv). by apply refs_perm. }
  intros l l' Hp. split; apply H; [done|by symmetry].
Qed.

(** an operation that rewrites one object, and that a list [l'] of references describes *)
Lemma mem_ok_alter w w' (f : TensorMemoryObj dtype → TensorMemoryObj dtype) i l l' :
  mem_ok w l → world_ok w' → w_objs w' = alter f i (w_objs w) → (∀ o, md_fmt (to_meta (f o)) = md_fmt (to_meta o)) →
  (∀ j, j ≠ i → refs l' j = refs l j) → (i ∈ l' → live_obj w i) →
  (∀ o, w_objs w !! i = Some o → obj_ok o → (to_valid o = true → ref_count o = refs l i ∧ (0 < ref_count o ∨ 0 < pin_count o)) →
     (to_valid (f o) = true → to_valid o = true ∧ ref_count (f o) = refs l' i ∧ (0 < ref_count (f o) ∨ 0 < pin_count (f o))) ∧ (i ∈ l' → to_valid o = true → to_valid (f o) = true)) →
  mem_ok w' l'.
Proof.
  intros [[Hc Hos] Hp Hl Hr Hu] Hw' Ho Hfmt Hother Hi Hf. rewrite Forall_lookup in Hos. split; [done|..].
  - rewrite Ho. apply Forall_alter; [done|]. intros o _. by rewrite Hfmt.
  - intros j Hj. destruct (decide (j = i)) as [->|Hne].
    + destruct (Hi Hj) as (o & Eo & Hv). exists (f o). rewrite Ho, list_lookup_alter_eq, Eo. split; [done|].
      apply (Hf o Eo); [by apply (Hos i)|intros _; split; [by apply Hr|by apply (Hu i)]|done|done].
    + assert (j ∈ l) as (o & Eo & Hv)%Hl.
      { apply list_elem_of_In, (count_occ_In Nat.eq_dec). apply refs_elem in Hj. rewrite Hother in Hj by done. unfold refs in Hj. lia. }
      exists o. by rewrite Ho, list_lookup_alter_ne.
  - intros j o. rewrite Ho. destruct (decide (i = j)) as [<-|Hne].
    + rewrite list_lookup_alter_eq, fmap_Some. intros (x & Ex & ->) Hv.
      by apply (Hf x Ex); [apply (Hos i)|intros Hx; split; [by apply Hr|by apply (Hu i)]|].
    + rewrite list_lookup_alter_ne by done. intros Eo Hv. rewrite Hother by done. by apply Hr.
  - intros j o. rewrite Ho. destruct (decide (i = j)) as [<-|Hne].
    + rewrite list_lookup_alter_eq, fmap_Some. intros (x & Ex & ->) Hv.
      by apply (Hf x Ex); [apply (Hos i)|intros Hx; split; [by apply Hr|by apply (Hu i)]|].
    + rewrite list_lookup_alter_ne by done. by apply Hu.
Qed.

Lemma mem_up w l i : mem_ok w l → live_obj w i → mem_ok (ref_count_up w i) (i :: l).
Proof.
  intros Hm Hi. pose proof (mk_world _ _ Hm) as Hw.
  eapply (mem_ok_alter w _ _ i l); [done|by apply ref_count_up_ok|reflexivity|done| |done|].
  - intros j Hj. rewrite refs_cons. case_decide; [congruence|lia].
  - intros o Eo Hok Hr. split; [|done]. intros Hv. destruct (Hr Hv) as [Hr' _]. split; [done|]. rewrite refs_cons, decide_True, <-Hr' by done.
    split; [done|left]. pose proof (ok_refs _ Hok). change (0 < ref_count o + 1). lia.
Qed.

Lemma mem_down w l i : mem_ok w (i :: l) →
  ∃ w', ref_count_down w i = Ok w' ∧ mem_ok w' l ∧ w_objs w' = alter (release dec_ref) i (w_objs w).
Proof.
  intros Hm. destruct (ref_count_down_spec w i (mk_world _ _ Hm)) as (w' & E & Hw' & Ho & _). exists w'. split_and!; [done| |done].
  eapply (mem_ok_alter w _ _ i (i :: l)); [done|done|exact Ho| | | |].
  - intros o. unfold release. by destruct (unreferenced _).
  - intros j Hj. rewrite refs_cons. case_decide; [congruence|lia].
  - intros _. apply (mk_live _ _ Hm). left.
  - intros o Eo Hok Hr. rewrite refs_cons, decide_True in Hr by done. pose proof (refs_nonneg l i).
    unfold release, unreferenced. split.
    + destruct ((_ <=? _) && _) eqn:Eu; [done|]. intros Hv. destruct (Hr Hv) as [Hr' _]. split; [done|].
      split; [change (Z.max 0 (ref_count o - 1) = refs l i); lia|]. apply andb_false_iff in Eu as [Eu%Z.leb_gt|Eu%Z.leb_gt]; auto.
    + intros Hin Hv. destruct (Hr Hv) as [Hr' _]. apply refs_elem in Hin. change (ref_count (dec_ref o)) with (Z.max 0 (ref_count o - 1)).
      destruct (Z.leb_spec (Z.max 0 (ref_count o - 1)) 0); [lia|done].
Qed.

Lemma mem_pin w l i now : mem_ok w l → mem_ok (TensorAllocator.pin w i now) l.
Proof.
  intros Hm. destruct (pin_spec w i now (mk_world _ _ Hm)) as [Hw Ho].
  eapply (mem_ok_alter w _ _ i l); [done|done|exact Ho|done|done|by apply (mk_live _ _ Hm)|]. intros o Eo Hok Hr. split; [|done]. intros Hv.
  destruct (Hr Hv) as [Hr' _]. split_and!; [done|exact Hr'|right]. pose proof (ok_pins _ Hok). change (0 < pin_count o + 1). lia.
Qed.

Lemma mem_unpin w l i : mem_ok w l → ∃ w', TensorAllocator.unpin w i = Ok w' ∧ mem_ok w' l.
Proof.
  intros Hm. destruct (unpin_spec w i (mk_world _ _ Hm)) as (w' & E & Hw' & Ho). exists w'. split; [done|].
  eapply (mem_ok_alter w _ _ i l); [done|done|exact Ho| |done|by apply (mk_live _ _ Hm)|].
  - intros o. unfold release. by destruct (unreferenced _).
  - intros o Eo Hok Hr. unfold release, unreferenced. change (ref_count (dec_pin o)) with (ref_count o). split.
    + destruct ((_ <=? _) && _) eqn:Eu; [done|]. intros Hv. split_and!; [done|by apply Hr|]. apply andb_false_iff in Eu as [Eu%Z.leb_gt|Eu%Z.leb_gt]; auto.
    + intros Hin Hv. destruct (Hr Hv) as [-> _]. apply refs_elem in Hin. destruct (Z.leb_spec (refs l i) 0); [lia|done].
Qed.

Lemma refs_app l l' i : refs (l ++ l') i = refs l i + refs l' i.
Proof. unfold refs. rewrite count_occ_app. lia. Qed.

Lemma refs_zero l i : i ∉ l → refs l i = 0.
Proof. intros Hn. unfold refs. rewrite (proj1 (count_occ_not_In Nat.eq_dec l i)); [done|]. by rewrite <-list_elem_of_In. Qed.

Lemma refs_zero_inv l i : refs l i = 0 → i ∉ l.
Proof. intros E Hin%refs_elem. lia. Qed.

Lemma refs_seq a n i : refs (seq a n) i = if decide (a <= i < a + n)%nat then 1 else 0.
Proof.
  case_decide as Hi; [|apply refs_zero; rewrite elem_of_seq; lia]. unfold refs.
  rewrite (proj1 (NoDup_count_occ' Nat.eq_dec (seq a n))); [done| |apply in_seq; lia]. apply NoDup_ListNoDup, NoDup_seq.
Qed.

(** new objects, each with the reference of the caller *)
Lemma mem_append w w' l os :
  mem_ok w l → world_ok w' → w_objs w' = w_objs w ++ os →
  Forall (λ o, to_valid o = true ∧ ref_count o = 1 ∧ pinned_format (md_fmt (to_meta o)) = true) os →
  mem_ok w' (seq (length (w_objs w)) (length os) ++ l).
Proof.
  intros [Hw Hp Hl Hr Hu] Hw' Ho Hos. split; [done|..].
  - rewrite Ho. apply Forall_app. split; [done|]. eapply Forall_impl; [exact Hos|]. by intros o (_ & _ & ?).
  - intros i [Hi|(o & Eo & Hv)%Hl]%elem_of_app.
    + apply elem_of_seq in Hi. destruct (lookup_lt_is_Some_2 os (i - length (w_objs w))) as [o Eo]; [lia|].
      exists o. rewrite Ho, lookup_app_r by lia. split; [done|]. rewrite Forall_lookup in Hos. by destruct (Hos _ _ Eo).
    + exists o. rewrite Ho. by rewrite (lookup_app_l_Some _ _ _ _ Eo).
  - intros i o. rewrite Ho, refs_app, refs_seq. intros [Eo|[Hge Eo]]%lookup_app_Some Hv.
    + pose proof (lookup_lt_Some _ _ _ Eo). rewrite decide_False by lia. rewrite (Hr _ _ Eo Hv). lia.
    + pose proof (lookup_lt_Some _ _ _ Eo). rewrite decide_True by lia. rewrite (refs_zero l).
      * rewrite Forall_lookup in Hos. destruct (Hos _ _ Eo) as (_ & -> & _). lia.
      * intros (x & Ex & _)%Hl. apply lookup_lt_Some in Ex. lia.
  - intros i o. rewrite Ho. intros [Eo|[Hge Eo]]%lookup_app_Some Hv; [by apply (Hu i)|left].
    rewrite Forall_lookup in Hos. destruct (Hos _ _ Eo) as (_ & -> & _). lia.
Qed.

Lemma allocate_fmt w shapes dtypes fmt i w' o :
  TensorAllocator.allocate itemsize w shapes dtypes fmt = Ok (Some i, w') → w_objs w' = w_objs w ++ [o] → md_fmt (to_meta o) = fmt.
Proof.
  unfold TensorAllocator.allocate. destruct (_adapt_shapes_and_dtypes shapes dtypes) as [[sh dt]|]; [|done]. cbn [rbind fst snd].
  destruct (get_size_bytes itemsize sh dt) as [n|]; [|done]. cbn [rbind].
  destruct (AddressManager.allocate _ n) as [[[a sz] am]|[]]; try done. cbv zeta.
  destruct (new_metadata sh dt a sz fmt) as [meta|] eqn:Em; [|done]. cbn [rbind].
  destruct (tmo_init itemsize _ meta true) as [x|] eqn:Ex; [|done]. cbn [rbind]. intros [= <- <-]. cbn. intros [_ ->]%app_inj_tail.
  pose proof (new_objects_fmt itemsize sh dt sz fmt [(_get_buffer_slice
    (mkTensorMemoryAllocator (ta_buffer_numel (w_alloc w)) am (ta_num_active_allocations (w_alloc w) + 1)) a n, a)] [o]) as Hf.
  cbn [new_objects] in Hf. rewrite Em in Hf. cbn [rbind] in Hf. cbn in Ex. rewrite Ex in Hf. cbn [rbind] in Hf.
  specialize (Hf eq_refl). by apply Forall_cons in Hf as [? _].
Qed.

Lemma mem_allocate w l shapes dtypes fmt n :
  mem_ok w l → pinned_format fmt = true → request_size itemsize shapes dtypes = Ok n → 0 < n →
  ∃ r w', mixed_allocate itemsize w shapes dtypes fmt = Ok (r, w') ∧ mem_ok w' (match r with Some i => i :: l | None => l end) ∧
    match r with Some i => i = length (w_objs w) | None => w' = w end ∧ prefix (w_objs w) (w_objs w').
Proof.
  intros Hm Hf Hn Hpos. unfold mixed_allocate. rewrite Hf. cbn [rbind].
  pose proof (allocate_spec itemsize w shapes dtypes fmt n (mk_world _ _ Hm) Hn Hpos) as Ha. cbv zeta in Ha.
  destruct (fits _ _); [|by exists None, w].
  destruct Ha as (o & w' & E & Hw' & Ho & [_ _ Hv _ _ Hrc _]). exists (Some (length (w_objs w))), w'. split_and!; [done| |done|by exists [o]].
  apply (mem_append w w' l [o]); [done..|]. apply Forall_singleton. split_and!; [done..|]. by rewrite (allocate_fmt _ _ _ _ _ _ _ E Ho).
Qed.

Lemma mem_batched_allocate w l shapes dtypes k fmt n :
  mem_ok w l → pinned_format fmt = true → request_size itemsize shapes dtypes = Ok n → 0 < n → 0 <= k →
  ∃ r w', mixed_batched_allocate itemsize w shapes dtypes k fmt = Ok (r, w') ∧ mem_ok w' (default [] r ++ l) ∧
    match r with Some ids => ids = seq (length (w_objs w)) (Z.to_nat k) | None => w' = w end ∧ prefix (w_objs w) (w_objs w').
Proof.
  intros Hm Hf Hn Hpos Hk. unfold mixed_batched_allocate. rewrite Hf. cbn [rbind].
  pose proof (batched_allocate_spec itemsize w shapes dtypes fmt n k (mk_world _ _ Hm) Hn Hpos Hk) as Ha. cbv zeta in Ha.
  destruct (_ <=? _); [|by exists None, w].
  destruct Ha as (os & w' & E & Hw' & Ho & Hlen & HF). eexists _, w'. split_and!; [exact E| |cbn; f_equal; lia|by exists os].
  apply (mem_append w w' l os); [done..|]. assert (Forall (λ o, md_fmt (to_meta o) = fmt) os) as HF'.
  { clear -E Ho. unfold TensorAllocator.batched_allocate in E.
    destruct (_adapt_shapes_and_dtypes shapes dtypes) as [[sh dt]|]; [|done]. cbn [rbind fst snd] in E.
    destruct (get_size_bytes itemsize sh dt) as [n|]; [|done]. cbn [rbind] in E.
    destruct (AddressManager.batched_allocate _ _ _) as [[rs am]|[]]; try done.
    destruct (new_objects _ _ _ _ _ _) as [os'|] eqn:Eo; [|done]. cbn [rbind] in E. injection E as _ <-. cbn in Ho.
    apply app_inv_head in Ho as ->. by eapply new_objects_fmt. }
  rewrite Forall_forall in *. intros o Hin. rewrite (HF' o Hin). by destruct (HF o Hin).
Qed.

(** freeing objects that nothing but the cache refers to *)
Lemma mem_free w l ids :
  mem_ok w (ids ++ l) → Forall (λ i, evictable w i = true) ids →
  ∃ w', mixed_batched_free w ids = Ok w' ∧ mem_ok w' l ∧ w_objs w' = invalidate_all ids (w_objs w).
Proof.
  intros [Hw Hp Hl Hr Hu] Hev. rewrite mixed_batched_free_eq by done.
  destruct (batched_free_spec w ids true Hw) as (w' & E & Hw' & Ho & _). exists w'. split_and!; [done| |done].
  assert (∀ i, i ∈ ids → refs l i = 0) as Hz.
  { intros i Hi. rewrite Forall_forall in Hev. pose proof (Hev i Hi) as He. unfold evictable in He.
    destruct (Hl i) as (o & Eo & Hv); [apply elem_of_app; by left|]. rewrite Eo in He. unfold can_evict in He.
    apply andb_true_iff in He as [_ He%Z.eqb_eq]. rewrite (Hr _ _ Eo Hv), refs_app in He. apply refs_elem in Hi. pose proof (refs_nonneg l i). lia. }
  split; [done|rewrite Ho; by apply invalidate_all_pinned|..].
  - intros i Hi. assert (i ∉ ids) as Hn by (intros Hin%Hz; by apply refs_zero_inv in Hin).
    destruct (Hl i) as (o & Eo & Hv); [apply elem_of_app; by right|]. exists o. by rewrite Ho, invalidate_all_lookup, decide_False.
  - intros i o. rewrite Ho, invalidate_all_lookup. case_decide as Hi.
    + destruct (w_objs w !! i); [|done]. by intros [= <-].
    + intros Eo Hv. rewrite (Hr _ _ Eo Hv), refs_app, (refs_zero ids) by done. lia.
  - intros i o. rewrite Ho, invalidate_all_lookup. case_decide as Hi; [|by apply Hu]. destruct (w_objs w !! i); [|done]. by intros [= <-].
Qed.
End memory.

(** ** The backend *)

Section backend.
Context {SL : Type} {SLO : SortedListOps SL} {SLS : SortedListSpec SL}.
Context {dtype : Type} (itemsize : dtype → Z).
Context {K P H : Type} `{EqDecision K} {LK : LayerKeys K} {LKS : LayerKeysSpec K}.
Context {CP : CachePolicy P K nat} {CPS : CachePolicySpec P K nat} (chunk_hash : K → H).
#[local] Abbreviation backend := (LocalCPUBackend (SL := SL) (dtype := dtype) (K := K) (P := P) (H := H)).
Implicit Types (w : World SL dtype) (b : backend) (held : list nat) (hot : list (K * nat)).

(** [held] are the references taken by callers *)
Record lb_ok b held : Prop := {
  lk_wf : dwf (lb_hot_cache b);
  lk_tracks : tracks (lb_cache_policy b) (dkeys (lb_hot_cache b));
  lk_mem : mem_ok (lb_memory b) (dvals (lb_hot_cache b) ++ held) }.

Lemma dvals_live b held k oid : lb_ok b held → dget (lb_hot_cache b) k = Some oid → live_obj (lb_memory b) oid.
Proof.
  intros Hb E%dget_elem_of. apply (mk_live _ _ (lk_mem _ _ Hb)), elem_of_app. left. apply list_elem_of_fmap. by exists (k, oid).
Qed.

Lemma ddel_perm hot k v : dwf hot → dget hot k = Some v → hot ≡ₚ (k, v) :: ddel hot k.
Proof.
  unfold dwf, dkeys. induction hot as [|[k' v'] hot IH]; [done|]. cbn [dget ddel fmap list_fmap fst]. intros [Hn Hwf]%NoDup_cons.
  case_decide as E; subst; [intros [= ->]; by rewrite ddel_notin|]. intros Hg. rewrite (IH Hwf Hg) at 1. apply Permutation_swap.
Qed.

Lemma lb_ok_memory b held held' w : lb_ok b held → mem_ok w (dvals (lb_hot_cache b) ++ held') → lb_ok (with_memory b w) held'.
Proof. by intros [H1 H2 H3] Hm. Qed.

Lemma runs_on_memory {A} (f : World SL dtype → result (A * World SL dtype)) b a w (Q : A → backend → Prop) :
  f (lb_memory b) = Ok (a, w) → Q a (with_memory b w) → runs (on_memory f) b Q.
Proof. intros E HQ. exists a, (with_memory b w). split; [|done]. unfold on_memory. by rewrite E. Qed.

Lemma runs_on_world f b w (Q : unit → backend → Prop) : f (lb_memory b) = Ok w → Q tt (with_memory b w) → runs (on_world f) b Q.
Proof. intros E HQ. eapply runs_on_memory; [by rewrite E|done]. Qed.

Lemma runs_on_policy {A} (f : P → result (P * A)) b a p (Q : A → backend → Prop) :
  f (lb_cache_policy b) = Ok (p, a) → Q a (with_policy b p) → runs (on_policy f) b Q.
Proof. intros E HQ. exists a, (with_policy b p). split; [|done]. unfold on_policy. by rewrite E. Qed.

Lemma lb_ok_perm b held held' : held ≡ₚ held' → lb_ok b held → lb_ok b held'.
Proof. intros Hp [H1 H2 H3]. split; [done|done|]. by rewrite <-Hp. Qed.

(** what an operation leaves alone when it only counts *)
Definition same_cache b b' : Prop :=
  lb_hot_cache b' = lb_hot_cache b ∧ lb_cache_policy b' = lb_cache_policy b ∧ lb_use_hot b' = lb_use_hot b.

Lemma contains_ok b held k pin now : lb_ok b held →
  runs (contains k pin now) b (λ r b', lb_ok b' held ∧ same_cache b b' ∧ r = dmem (lb_hot_cache b) k).
Proof.
  intros Hb. unfold contains, dmem. apply runs_bind, runs_gets. destruct (dget (lb_hot_cache b) k) as [oid|] eqn:E; [|by apply runs_ret].
  apply runs_bind, runs_when; intros ->; [|by apply runs_ret]. apply runs_bind. eapply runs_on_world; [done|].
  apply runs_modify, runs_ret. split; [|done]. destruct (lb_ok_memory b held held (TensorAllocator.pin (lb_memory b) oid now)) as [? ? ?]; [done|by apply mem_pin, lk_mem|done].
Qed.

Lemma batched_contains_ok b held ks pin now n : lb_ok b held →
  runs (batched_async_contains ks pin now n) b (λ r b', lb_ok b' held ∧ same_cache b b' ∧
    ∃ m, r = (n + m)%nat ∧ (m <= length ks)%nat ∧ Forall (λ k, k ∈ dkeys (lb_hot_cache b)) (take m ks) ∧
      ∀ k, ks !! m = Some k → k ∉ dkeys (lb_hot_cache b)).
Proof.
  revert b n. induction ks as [|k ks IH]; intros b n Hb; cbn [batched_async_contains].
  - apply runs_ret. split_and!; [done|done|]. exists 0%nat. split_and!; [lia|cbn; lia|constructor|done].
  - apply runs_bind. eapply runs_mono; [by apply contains_ok|]. intros r b1 (Hb1 & (Eh & Ep & Eu) & ->). unfold dmem.
    destruct (dget (lb_hot_cache b) k) as [oid|] eqn:E.
    + eapply runs_mono; [by apply IH|]. intros r b2 (Hb2 & (Eh2 & Ep2 & Eu2) & m & -> & Hm & Hall & Hnext). rewrite Eh in *.
      split_and!; [done|split_and!; congruence|]. exists (S m). split_and!; [lia|cbn; lia| |done].
      cbn [take]. constructor; [apply elem_of_dkeys; by rewrite E|done].
    + apply runs_ret. split_and!; [done|done|]. exists 0%nat. split_and!; [lia|lia|constructor|]. intros x [= <-]. by apply dget_None_dkeys.
Qed.

Lemma hit_ok b held k now : lb_ok b held →
  ∃ r b', hit k now b = (r, b') ∧ lb_ok b' held ∧ lb_hot_cache b' ≡ₚ lb_hot_cache b ∧ lb_keys_in_request b' = lb_keys_in_request b ∧
    r ∈ [Ok tt; Raise KeyError] ∧ (k ∈ dkeys (lb_hot_cache b) → r = Ok tt).
Proof.
  intros [Hwf Ht Hm]. unfold hit. destruct (decide (k ∈ dkeys (lb_hot_cache b))) as [Hk|Hk].
  - destruct (hit_tracks _ now k _ Hwf Ht Hk) as (p & hot & -> & Hp & Ht'). eexists _, _. split; [done|].
    split_and!; [|exact Hp|done|left|done]. split; cbn; [unfold dwf, dkeys; by rewrite Hp|done|unfold dvals; by rewrite Hp].
  - destruct (hit_absent _ now k _ Ht Hk) as (p & r & -> & Hr & Ht'). rewrite !elem_of_cons, elem_of_nil in Hr. destruct Hr as [->|[->|[]]].
    + eexists _, _. split; [done|]. split_and!; [done|done|done|right; left|done].
    + eexists _, _. split; [done|]. split_and!; [done|done|done|left|done].
Qed.

Lemma touch_loop b held ks now : lb_ok b held →
  ∃ r b', for_each (λ key, hit key (now key)) ks b = (r, b') ∧ lb_ok b' held ∧ lb_hot_cache b' ≡ₚ lb_hot_cache b ∧
    lb_keys_in_request b' = lb_keys_in_request b ∧
    (r = Ok tt ∨ r = Raise KeyError ∧ ∃ k, k ∈ ks ∧ k ∉ dkeys (lb_hot_cache b)).
Proof.
  revert b. induction ks as [|k ks IH]; intros b Hb; cbn [for_each]; [eexists _, b; split; [done|]; auto|].
  destruct (hit_ok b held k (now k) Hb) as (r & b1 & E & Hb1 & Hp & Hq & Hr & Hok). unfold mbind, py_bind. rewrite E.
  rewrite !elem_of_cons, elem_of_nil in Hr. destruct Hr as [->|[->|[]]].
  - destruct (IH b1 Hb1) as (r & b2 & -> & Hb2 & Hp2 & Hq2 & Hr2). eexists _, b2. split; [done|].
    split_and!; [done|by rewrite Hp2|congruence|]. destruct Hr2 as [->|(-> & x & Hx & Hn)]; [by left|right]. split; [done|].
    exists x. split; [by right|]. unfold dkeys in *. by rewrite <-Hp.
  - eexists _, b1. split; [done|]. split_and!; [done..|]. right. split; [done|]. exists k. split; [left|]. intros Hk%Hok. done.
Qed.

(** a touch that ends resets the request; one that raises does not *)
Lemma lb_touch_ok b held now : lb_ok b held →
  ∃ r b', touch_cache now b = (r, b') ∧ lb_ok b' held ∧ lb_hot_cache b' ≡ₚ lb_hot_cache b ∧
    (r = Ok tt ∧ lb_keys_in_request b' = [] ∨
     r = Raise KeyError ∧ lb_keys_in_request b' = lb_keys_in_request b ∧ ∃ k, k ∈ lb_keys_in_request b ∧ k ∉ dkeys (lb_hot_cache b)).
Proof.
  intros Hb. destruct (touch_loop b held (rev (lb_keys_in_request b)) now Hb) as (r & b' & E & [H1 H2 H3] & Hp & Hq & Hr).
  unfold touch_cache, gets, mbind, py_bind. cbn. unfold py_bind in E. rewrite E. destruct Hr as [->|(-> & k & Hk & Hn)].
  - eexists _, _. split; [done|]. split_and!; [done|done|]. by left.
  - eexists _, _. split; [done|]. split_and!; [done|done|]. right. split_and!; [done|done|]. exists k. split; [|done]. by rewrite <-Permutation_rev in Hk.
Qed.

Lemma get_ok b held k : lb_ok b held →
  runs (get_blocking k) b (λ r b', lb_ok b' (option_list r ++ held) ∧ same_cache b b' ∧ r = dget (lb_hot_cache b) k).
Proof.
  intros Hb. unfold get_blocking. apply runs_bind, runs_gets. destruct (dget (lb_hot_cache b) k) as [oid|] eqn:E; [|by apply runs_ret].
  apply runs_bind. eapply runs_on_world; [done|]. apply runs_ret. split; [|done]. apply (lb_ok_memory b held); [done|]. change (option_list (Some oid) ++ held) with (oid :: held).
  rewrite <-Permutation_middle. apply mem_up; [apply Hb|by eapply dvals_live].
Qed.

(** the references [batched_get_non_blocking] takes: those of the cached prefix *)
Fixpoint cached_prefix hot (ks : list K) : list nat :=
  match ks with
  | [] => []
  | k :: ks => match dget hot k with Some oid => oid :: cached_prefix hot ks | None => [] end
  end.

Lemma get_many_ok b held ks acc : lb_ok b held →
  ∃ r b', batched_get_non_blocking ks acc b = (r, b') ∧ lb_ok b' (cached_prefix (lb_hot_cache b) ks ++ held) ∧ same_cache b b' ∧
    r = if forallb (dmem (lb_hot_cache b)) ks then Ok (acc ++ cached_prefix (lb_hot_cache b) ks) else Raise KeyError.
Proof.
  revert b held acc. induction ks as [|k ks IH]; intros b held acc Hb; cbn [batched_get_non_blocking forallb cached_prefix].
  - eexists _, b. split; [done|]. split_and!; [done|done|by rewrite app_nil_r].
  - unfold gets, getitem, lift, mbind, py_bind. cbn. unfold dmem at 1. destruct (dget (lb_hot_cache b) k) as [oid|] eqn:E; cbn; [|by exists (Raise KeyError), b].
    set (b1 := with_memory b _). assert (lb_ok b1 (oid :: held)) as Hb1.
    { apply (lb_ok_memory b held); [done|]. rewrite <-Permutation_middle. apply mem_up; [apply Hb|by eapply dvals_live]. }
    destruct (IH b1 (oid :: held) (acc ++ [oid]) Hb1) as (r & b2 & E2 & Hb2 & (Eh & Ep & Eu) & ->). cbn in *. rewrite E2. eexists _, b2. split; [done|].
    split_and!; [|done|by rewrite <-app_assoc]. eapply lb_ok_perm; [|exact Hb2]. by rewrite <-Permutation_middle.
Qed.

Lemma pin_ok b held k now : lb_ok b held → runs (pin k now) b (λ r b', lb_ok b' held ∧ same_cache b b' ∧ r = dmem (lb_hot_cache b) k).
Proof.
  intros Hb. unfold pin, dmem. apply runs_bind, runs_gets. destruct (dget (lb_hot_cache b) k) as [oid|]; [|by apply runs_ret].
  apply runs_bind. eapply runs_on_world; [done|]. apply runs_ret. split; [|done]. apply (lb_ok_memory b held); [done|by apply mem_pin, lk_mem].
Qed.

Lemma unpin_ok b held k : lb_ok b held → runs (unpin k) b (λ r b', lb_ok b' held ∧ same_cache b b' ∧ r = dmem (lb_hot_cache b) k).
Proof.
  intros Hb. unfold unpin, dmem. apply runs_bind, runs_gets. destruct (dget (lb_hot_cache b) k) as [oid|]; [|by apply runs_ret].
  destruct (mem_unpin _ _ oid (lk_mem _ _ Hb)) as (w & E & Hw). apply runs_bind. eapply runs_on_world; [exact E|]. apply runs_ret. split; [|done].
  by apply (lb_ok_memory b held).
Qed.

Lemma lb_put_ok b held k oid now : lb_ok b held → oid ∈ held →
  runs (submit_put_task chunk_hash k oid now) b (λ _ b', lb_ok b' held ∧ lb_use_hot b' = lb_use_hot b ∧
    lb_hot_cache b' = if dmem (lb_hot_cache b) k then lb_hot_cache b else lb_hot_cache b ++ [(k, oid)]).
Proof.
  intros Hb Hin. unfold submit_put_task. apply runs_bind, runs_gets. destruct (dmem (lb_hot_cache b) k) eqn:E; [by apply runs_ret|].
  assert (dget (lb_hot_cache b) k = None) as En by (unfold dmem in E; by destruct (dget _ k)).
  apply runs_bind. eapply runs_on_world; [done|]. apply runs_bind, runs_modify, runs_bind, runs_modify, runs_modify.
  cbn. rewrite dkeys_dset_new by done. split_and!; [|done..]. split; cbn.
  - rewrite <-dkeys_dset_new by done. apply dset_wf, Hb.
  - eapply tracks_perm; [|apply put_tracks; [apply Hb|by apply dget_None_dkeys]]. unfold dkeys. rewrite fmap_app. cbn. by rewrite Permutation_app_comm.
  - unfold dvals. rewrite fmap_app. cbn. rewrite <-app_assoc. cbn. rewrite <-Permutation_middle. apply mem_up; [apply Hb|].
    apply (mk_live _ _ (lk_mem _ _ Hb)), elem_of_app. by right.
Qed.

Lemma batched_put_ok b held ks oids now : lb_ok b held → Forall (.∈ held) oids →
  runs (batched_submit_put_task chunk_hash ks oids now) b (λ _ b', lb_ok b' held ∧ (lb_use_hot b = false → b' = b)).
Proof.
  intros Hb Hin. unfold batched_submit_put_task. apply runs_bind, runs_gets, runs_when; intros E; [|done].
  eapply runs_mono.
  - apply (runs_for_each _ (λ l b', lb_ok b' held ∧ Forall (.∈ held) l.*2)).
    + split; [done|]. clear -Hin. revert ks. induction Hin as [|i oids Hi Hin IH]; intros [|k ks]; cbn; [done..|]. constructor; [done|by apply IH].
    + intros [k oid] l b1 [Hb1 [Ho Hl]%Forall_cons]. eapply runs_mono; [by apply lb_put_ok|]. by intros [] b2 (Hb2 & _).
  - intros [] b' [Hb' _]. split; [done|]. congruence.
Qed.

(** ** Removal *)

Definition same_config b b' : Prop :=
  lb_use_hot b' = lb_use_hot b ∧ lb_layerwise b' = lb_layerwise b ∧ lb_enable_blending b' = lb_enable_blending b.

(** a cached object that may go is cached under one key and held by no caller *)
Lemma evictable_once w hot held k k' oid : dwf hot → mem_ok w (dvals hot ++ held) → evictable w oid = true →
  dget hot k = Some oid → dget hot k' = Some oid → k = k'.
Proof.
  intros Hwf Hm He E E'. destruct (decide (k = k')) as [->|Hne]; [done|exfalso].
  assert (live_obj w oid) as (o & Eo & Hv).
  { apply (mk_live _ _ Hm), elem_of_app. left. apply list_elem_of_fmap. exists (k, oid). by apply dget_elem_of in E. }
  unfold evictable in He. rewrite Eo in He. unfold can_evict in He. apply andb_true_iff in He as [_ He%Z.eqb_eq].
  rewrite (mk_refs _ _ Hm _ _ Eo Hv) in He. unfold dvals in He. rewrite (refs_perm _ ((((k, oid) :: ddel hot k).*2) ++ held)) in He.
  2:{ by rewrite <-(ddel_perm hot k oid). }
  cbn in He. rewrite refs_cons, decide_True, refs_app in He by done. pose proof (refs_nonneg held oid).
  assert (0 < refs (ddel hot k).*2 oid); [|lia]. apply refs_elem, list_elem_of_fmap. exists (k', oid). split; [done|].
  apply dget_elem_of. by rewrite dget_ddel_ne.
Qed.

Lemma evictable_alter w w' f i j : w_objs w' = alter f i (w_objs w) → i ≠ j → evictable w' j = evictable w j.
Proof. intros Ho Hne. unfold evictable. by rewrite Ho, list_lookup_alter_ne. Qed.

Lemma remove_gen b held k oid force p' : dwf (lb_hot_cache b) → mem_ok (lb_memory b) (dvals (lb_hot_cache b) ++ held) →
  (force = true → update_on_force_evict (lb_cache_policy b) k = Ok p') → (force = false → p' = lb_cache_policy b) →
  tracks p' (filter (.≠ k) (dkeys (lb_hot_cache b))) → dget (lb_hot_cache b) k = Some oid →
  runs (remove chunk_hash k force) b (λ r b', lb_ok b' held ∧ r = true ∧ lb_hot_cache b' = ddel (lb_hot_cache b) k ∧ same_config b b' ∧ lb_evict_count b' = lb_evict_count b ∧
    w_objs (lb_memory b') = alter (release dec_ref) oid (w_objs (lb_memory b))).
Proof.
  intros Hwf Hm Hp Hp' Ht E. unfold remove. apply runs_bind, runs_gets. rewrite E.
  assert (mem_ok (lb_memory b) (oid :: dvals (ddel (lb_hot_cache b) k) ++ held)) as (w & Ed & Hw & Ho)%mem_down.
  { change (mem_ok (lb_memory b) (((k, oid) :: ddel (lb_hot_cache b) k).*2 ++ held)). by rewrite <-(ddel_perm _ k oid). }
  apply runs_bind, runs_modify, runs_bind. eapply runs_on_world; [exact Ed|]. apply runs_bind.
  assert (∀ b1, lb_hot_cache b1 = ddel (lb_hot_cache b) k → lb_memory b1 = w → lb_cache_policy b1 = p' → same_config b b1 → lb_evict_count b1 = lb_evict_count b →
    runs (_ ← add_kv_op chunk_hash EVICT k; mret true) b1 (λ r b', lb_ok b' held ∧ r = true ∧ lb_hot_cache b' = ddel (lb_hot_cache b) k ∧ same_config b b' ∧ lb_evict_count b' = lb_evict_count b ∧
    w_objs (lb_memory b') = alter (release dec_ref) oid (w_objs (lb_memory b)))) as Hend.
  { intros b1 E1 E2 E3 Hc E4. apply runs_bind, runs_modify, runs_ret. split_and!; [|done|done|done|done|by rewrite <-Ho, <-E2].
    split; cbn -[dkeys dvals dwf]; rewrite E1; [by apply ddel_wf|by rewrite E3, dkeys_ddel|by rewrite E2]. }
  destruct force; cbn [when].
  - eapply runs_on_policy; [cbn; by rewrite Hp|].
    by apply Hend.
  - apply runs_ret, Hend; [done|done|symmetry; by apply Hp'|done|done].
Qed.

Lemma lb_remove_ok b held k : lb_ok b held →
  runs (remove chunk_hash k true) b (λ r b', lb_ok b' held ∧ r = dmem (lb_hot_cache b) k ∧ lb_hot_cache b' = ddel (lb_hot_cache b) k ∧ same_config b b').
Proof.
  intros Hb. destruct (decide (k ∈ dkeys (lb_hot_cache b))) as [Hk|Hk].
  - destruct (force_tracks (lb_cache_policy b) k _ (lk_wf _ _ Hb) (lk_tracks _ _ Hb)) as (p' & Hp & Ht).
    pose proof Hk as [oid E]%elem_of_dkeys.
    eapply runs_mono; [eapply (remove_gen b held k oid true p')|]; [apply Hb|apply Hb|done|done|done|done|].
    intros r b' (Hb' & -> & Hh & Hc & _). split_and!; [done| |done|done]. unfold dmem. by rewrite E.
  - unfold remove. apply runs_bind, runs_gets. unfold dmem. rewrite (proj2 (dget_None_dkeys _ _) Hk). apply runs_ret.
    split_and!; [done|done|by rewrite ddel_notin|done].
Qed.

Lemma batched_remove_ok b held ks n : lb_ok b held →
  runs (batched_remove chunk_hash ks true n) b (λ _ b', lb_ok b' held ∧ lb_hot_cache b' = foldl ddel (lb_hot_cache b) ks).
Proof.
  revert b n. induction ks as [|k ks IH]; intros b n Hb; cbn [batched_remove foldl]; [by apply runs_ret|].
  apply runs_bind. eapply runs_mono; [by apply lb_remove_ok|]. intros r b1 (Hb1 & _ & <- & _). by apply IH.
Qed.

Lemma lb_clear_ok b held : lb_ok b held → ∃ r b', clear chunk_hash b = (r, b') ∧ lb_ok b' held.
Proof.
  intros Hb. unfold clear, gets, lift, mbind, py_bind. cbn. destruct (lb_use_hot b); cbn; [|by eexists _, b].
  destruct (clear_scan _ _ _ _) as [[ks n]|e]; cbn; [|by eexists _, b].
  destruct (batched_remove_ok b held ks 0 Hb) as (a & b' & -> & Hb' & _). by eexists _, b'.
Qed.

(** ** Eviction *)

(** entries go, all of which could, and the others stay as they were *)
Record shrinks b b' : Prop := {
  sh_config : same_config b b';
  sh_sub : ∀ k oid, dget (lb_hot_cache b') k = Some oid → dget (lb_hot_cache b) k = Some oid;
  sh_gone : ∀ k oid, dget (lb_hot_cache b) k = Some oid → dget (lb_hot_cache b') k = None → evictable (lb_memory b) oid = true;
  sh_kept : ∀ k oid, dget (lb_hot_cache b') k = Some oid → evictable (lb_memory b') oid = evictable (lb_memory b) oid }.

Lemma shrinks_refl b : shrinks b b.
Proof. split; [done|done|congruence|done]. Qed.

Lemma shrinks_trans b1 b2 b3 : shrinks b1 b2 → shrinks b2 b3 → shrinks b1 b3.
Proof.
  intros [(A1 & A2 & A3) S1 G1 K1] [(B1 & B2 & B3) S2 G2 K2]. split; [split_and!; congruence|naive_solver| |].
  - intros k oid E En. destruct (dget (lb_hot_cache b2) k) as [x|] eqn:Ex; [|by eauto].
    pose proof (S1 _ _ Ex) as Es. rewrite E in Es. injection Es as <-. rewrite <-(K1 _ _ Ex). by apply (G2 k).
  - intros k oid E. rewrite (K2 _ _ E). by apply (K1 k), S2.
Qed.

Lemma candidates_ok b held n : lb_ok b held → (0 < n)%nat →
  runs (candidates n) b (λ ks b', ∃ p', b' = with_policy b p' ∧ NoDup ks ∧ (length ks <= n)%nat ∧
    (∀ k, k ∈ ks → ∃ oid, dget (lb_hot_cache b) k = Some oid ∧ evictable (lb_memory b) oid = true) ∧
    ((length ks < n)%nat → ∀ k oid, dget (lb_hot_cache b) k = Some oid → evictable (lb_memory b) oid = true → k ∈ ks) ∧
    tracks p' (filter (.∉ ks) (dkeys (lb_hot_cache b)))).
Proof.
  intros [Hwf Ht Hm] Hn. unfold candidates. apply runs_bind, runs_gets.
  destruct (candidates_tracks (lb_cache_policy b) (evictable (lb_memory b)) (lb_hot_cache b) n Hwf Ht Hn) as (p' & ks & E & H').
  eapply runs_on_policy; [exact E|]. by exists p'.
Qed.

Lemma evict_one_ok b held : lb_ok b held →
  runs (evict_one chunk_hash) b (λ r b', lb_ok b' held ∧ shrinks b b' ∧ lb_evict_count b' = lb_evict_count b ∧
    match r with
    | Some n => length (lb_hot_cache b) = (length (lb_hot_cache b') + n)%nat ∧ (0 < n)%nat
    | None => lb_hot_cache b' = lb_hot_cache b ∧ ∀ k oid, dget (lb_hot_cache b') k = Some oid → evictable (lb_memory b') oid = false
    end).
Proof.
  intros Hb. unfold evict_one. apply runs_bind. eapply runs_mono; [by apply (candidates_ok b held 1); [|lia]|].
  intros ks b1 (p' & -> & HN & Hl & Hin & Hall & Ht). destruct Hb as [Hwf _ Hm]. destruct ks as [|k [|]]; [| |cbn in Hl; lia].
  - cbn [nonempty]. apply runs_bind, runs_modify, runs_ret. split_and!; [split; cbn; [done| |done]|split; [done|done|cbn; congruence|done]|done|done|].
    + eapply tracks_perm; [|exact Ht]. rewrite filter_all; [done|]. apply Forall_true. intros k. apply not_elem_of_nil.
    + cbn. intros k oid E. apply not_true_is_false. intros He. by apply (Hall ltac:(cbn; lia) _ _ E), elem_of_nil in He.
  - destruct (Hin k) as (oid & E & He); [left|]. cbn [nonempty batched_remove]. apply runs_bind, runs_bind.
    eapply runs_mono; [eapply (remove_gen (with_policy b p') held k oid false)|]; [done|done|done|done| |exact E|].
    { eapply tracks_perm; [|exact Ht]. cbn. rewrite (list_filter_iff _ (.≠ k)); [done|]. intros x. by rewrite list_elem_of_singleton. }
    intros r b' (Hb' & -> & Hh & Hc & Ec & Ho). cbn in Hh, Ho. apply runs_ret, runs_ret. split_and!; [done|split| |..].
    + exact Hc.
    + intros k' oid'. rewrite Hh, dget_ddel. by case_decide.
    + intros k' oid' E'. rewrite Hh, dget_ddel. case_decide; [subst; rewrite E in E'; injection E' as <-; done|congruence].
    + intros k' oid'. rewrite Hh, dget_ddel. case_decide as Hne; [done|]. intros E'. apply (evictable_alter _ _ _ oid _ Ho).
      intros <-. by apply Hne, (evictable_once _ _ _ k k' oid Hwf Hm).
    + exact Ec.
    + rewrite Hh. apply (ddel_perm _ k oid) in E; [|done]. apply Permutation_length in E. cbn in *. lia.
    + cbn. lia.
Qed.

(** ** Eviction of whole chunks, layer by layer *)

Lemma dget_dels hot ks k : dget (foldl ddel hot ks) k = if decide (k ∈ ks) then None else dget hot k.
Proof.
  revert hot. induction ks as [|x ks IH]; intros hot; cbn [foldl]; [by rewrite decide_False by apply not_elem_of_nil|]. rewrite IH, dget_ddel.
  destruct (decide (x = k)), (decide (k ∈ ks)), (decide (k ∈ x :: ks)) as [Hk|Hk]; try done; rewrite elem_of_cons in Hk; naive_solver.
Qed.

Lemma dels_wf hot ks : dwf hot → dwf (foldl ddel hot ks).
Proof. revert hot. induction ks as [|x ks IH]; intros hot Hwf; [done|]. by apply IH, ddel_wf. Qed.

Lemma dels_perm hot ks ids : dwf hot → NoDup ks → Forall2 (λ k i, dget hot k = Some i) ks ids → dvals hot ≡ₚ ids ++ dvals (foldl ddel hot ks).
Proof.
  intros Hwf HN HF. revert hot Hwf HF. induction ks as [|k ks IH] in ids, HN |- *; intros hot Hwf HF; inversion HF as [|? i ? ids' E HF']; subst; [done|]. clear HF. rename HF' into HF, ids' into ids. apply NoDup_cons in HN as [Hn HN]. cbn [foldl app].
  assert (dvals hot ≡ₚ i :: dvals (ddel hot k)) as -> by (unfold dvals; by rewrite (ddel_perm hot k i) at 1). f_equiv. apply IH; [done|by apply ddel_wf|].
  rewrite Forall2_lookup in *. intros j. specialize (HF j). destruct (ks !! j) as [x|] eqn:Ex; inversion HF as [? ? Hx|]; constructor.
  rewrite dget_ddel_ne; [done|]. intros <-. apply Hn. by eapply list_elem_of_lookup_2.
Qed.

Lemma old_mem_objs_ok w hot ks acc :
  old_mem_objs w hot ks acc = [] ∨ ∃ ids, old_mem_objs w hot ks acc = acc ++ ids ∧ Forall2 (λ k i, dget hot k = Some i) ks ids ∧ Forall (λ i, evictable w i = true) ids.
Proof.
  revert acc. induction ks as [|k ks IH]; intros acc; cbn [old_mem_objs]; [right; exists []; by rewrite app_nil_r|].
  destruct (dget hot k) as [i|] eqn:E; [|by left]. destruct (evictable w i) eqn:He; [|by left].
  destruct (IH (acc ++ [i])) as [?|(ids & -> & HF & Hev)]; [by left|right]. exists (i :: ids). rewrite <-app_assoc. auto.
Qed.

(** a policy that keeps no set of keys of its own *)
Definition keyless : Prop := ∀ p ks, tracks p ks.

Lemma pop_loop b ks : keyless →
  runs (for_each (λ key, _ ← on_policy (λ p, (p <-? update_on_force_evict p key; Ok (p, tt))%py);
                         modify (λ b, with_hot b (ddel (lb_hot_cache b) key))) ks) b
    (λ _ b', lb_hot_cache b' = foldl ddel (lb_hot_cache b) ks ∧ lb_memory b' = lb_memory b ∧ same_config b b' ∧ lb_evict_count b' = lb_evict_count b).
Proof.
  intros Ht. revert b. induction ks as [|k ks IH]; intros b; cbn [for_each foldl]; [by apply runs_ret|].
  destruct (force_tracks (lb_cache_policy b) k [] (NoDup_nil_2) (Ht _ _)) as (p' & Hp & _). apply runs_bind, runs_bind.
  eapply runs_on_policy; [by rewrite Hp|]. apply runs_modify. eapply runs_mono; [apply IH|]. intros [] b' (-> & -> & Hc & ->). done.
Qed.

Lemma evict_chunk_ok b held n ks : keyless → lb_ok b held →
  runs (evict_chunk n ks) b (λ r b', lb_ok b' held ∧ shrinks b b' ∧ lb_evict_count b' = lb_evict_count b ∧
    match r with
    | Some m => length (lb_hot_cache b) = (length (lb_hot_cache b') + m)%nat ∧ (0 < m)%nat
    | None => b' = b
    end).
Proof.
  intros Ht Hb. induction ks as [|k ks IH]; cbn [evict_chunk]; [apply runs_ret; split_and!; [done|apply shrinks_refl|done..]|].
  apply runs_bind, runs_gets. unfold id. cbv zeta. set (all := split_layers k n). destruct (old_mem_objs_ok (lb_memory b) (lb_hot_cache b) all []) as [->|(ids & -> & HF & Hev)].
  { apply IH. }
  cbn [app]. destruct (nonempty ids) eqn:Hne; cbn [negb]; [|apply IH]. apply runs_bind. eapply runs_mono; [by apply pop_loop|].
  intros [] b1 (Hh & Hm & Hc & Ec). destruct Hb as [Hwf _ Hmem].
  pose proof (dels_perm (lb_hot_cache b) all ids Hwf (split_layers_NoDup k n) HF) as Hp.
  pose proof Hmem as Hfree. rewrite Hp, <-app_assoc in Hfree. apply mem_free in Hfree as (w & Ew & Hw & Ho); [|done].
  apply runs_bind. eapply runs_on_world; [rewrite Hm; exact Ew|]. apply runs_ret. split_and!; [split; cbn|split; cbn| |..].
  - rewrite Hh. by apply dels_wf.
  - apply Ht.
  - by rewrite Hh.
  - exact Hc.
  - intros k' oid. rewrite Hh, dget_dels. by case_decide.
  - intros k' oid E. rewrite Hh, dget_dels. case_decide as Hin; [intros _|congruence].
    apply list_elem_of_lookup in Hin as [j Hj]. rewrite Forall2_lookup in HF. specialize (HF j). rewrite Hj in HF.
    inversion HF as [? i Hi Ei1 Ei2|]. rewrite E in Hi. injection Hi as <-. rewrite Forall_lookup in Hev. by eapply Hev.
  - intros k' oid. rewrite Hh, dget_dels. case_decide as Hin; [done|]. intros E. unfold evictable. rewrite Ho, invalidate_all_lookup.
    rewrite decide_False; [done|]. intros Hi. apply Hin. pose proof Hi as [j Hj]%list_elem_of_lookup.
    rewrite Forall2_lookup in HF. specialize (HF j). rewrite Hj in HF. inversion HF as [x ? Hx Ex1 Ex2|]. subst. apply list_elem_of_lookup. exists j.
    rewrite <-Ex1. f_equal. rewrite Forall_forall in Hev. by apply (evictable_once _ _ _ x k' oid Hwf Hmem); [apply Hev|..].
  - exact Ec.
  - cbn. rewrite Hh. apply Permutation_length in Hp. rewrite length_app in Hp. unfold dvals in Hp. rewrite !length_fmap in Hp. lia.
  - destruct ids; [done|cbn; lia].
Qed.

Lemma with_policy_ok b held p : keyless → lb_ok b held → lb_ok (with_policy b p) held.
Proof. intros Ht [H1 H2 H3]. split; [done|apply Ht|done]. Qed.

Lemma evict_layers_ok b held n m : keyless → lb_ok b held → (0 < n)%nat →
  runs (evict_layers n m) b (λ r b', lb_ok b' held ∧ shrinks b b' ∧ lb_evict_count b' = lb_evict_count b ∧
    match r with Some j => length (lb_hot_cache b) = (length (lb_hot_cache b') + j)%nat ∧ (0 < j)%nat | None => lb_hot_cache b' = lb_hot_cache b end).
Proof.
  intros Ht Hb Hn. unfold evict_layers. apply runs_bind. eapply runs_mono; [by apply (candidates_ok b held)|]. intros ks b1 (p' & -> & _).
  apply runs_bind. eapply runs_mono; [apply (evict_chunk_ok _ held); [done|by apply with_policy_ok]|]. intros r b' (Hb' & [S1 S2 S3 S4] & Ec & Hr).
  apply runs_bind, runs_when; intros E; [apply runs_modify|]; apply runs_ret; (split_and!; [|by split|done|destruct r; [done|by subst]]); [|done].
  destruct Hb' as [? ? ?]. by split.
Qed.

(** ** The loop *)

Lemma shrinks_append b held w : lb_ok b held → prefix (w_objs (lb_memory b)) (w_objs w) → shrinks b (with_memory b w).
Proof.
  intros Hb [os Ho]. split; [done|done|cbn; congruence|]. cbn. intros k oid E. destruct (dvals_live _ _ _ _ Hb E) as (o & Eo & _).
  unfold evictable. by rewrite Ho, (lookup_app_l_Some _ _ _ _ Eo), Eo.
Qed.

Section loop.
Context {A : Type} (grant : A → list nat) (evict : py_state backend (option nat)) (alloc : World SL dtype → result (option A * World SL dtype)).
Context (stuck : backend → Prop) (held : list nat).
Context (evict_ok : ∀ b, lb_ok b held → runs evict b (λ r b', lb_ok b' held ∧ shrinks b b' ∧ lb_evict_count b' = lb_evict_count b ∧
  match r with Some j => length (lb_hot_cache b) = (length (lb_hot_cache b') + j)%nat ∧ (0 < j)%nat | None => lb_hot_cache b' = lb_hot_cache b ∧ stuck b' end)).
Context (alloc_ok : ∀ w l, mem_ok w (l ++ held) → ∃ r w', alloc w = Ok (r, w') ∧ mem_ok w' (l ++ (default [] (grant <$> r) ++ held)) ∧
  prefix (w_objs w) (w_objs w') ∧ (r = None → w' = w)).
Context (stuck_counts : ∀ b n, stuck b → stuck (with_counts b n (lb_evict_failed b))).

Lemma on_alloc_ok b : lb_ok b held →
  runs (on_memory alloc) b (λ r b', lb_ok b' (default [] (grant <$> r) ++ held) ∧ shrinks b b' ∧ lb_evict_count b' = lb_evict_count b ∧
    lb_hot_cache b' = lb_hot_cache b ∧ (r = None → b' = b)).
Proof.
  intros Hb. destruct (alloc_ok _ _ (lk_mem _ _ Hb)) as (r & w & E & Hw & Hp & Hn). eapply runs_on_memory; [exact E|].
  split_and!; [by eapply lb_ok_memory|by eapply shrinks_append|done|done|]. intros ->. rewrite Hn by done. by destruct b.
Qed.

(** without a busy loop, one round more than there are entries is enough *)
Lemma alloc_loop_ok fuel b n : (length (lb_hot_cache b) < fuel)%nat → lb_ok b held →
  runs (alloc_loop fuel evict alloc false n) b (λ r b', ∃ a, r = Some a ∧ lb_ok b' (default [] (grant <$> a) ++ held) ∧ shrinks b b' ∧
    (a = None → lb_use_hot b = true → stuck b') ∧
    lb_evict_count b' = lb_evict_count b + Z.of_nat n + Z.of_nat (length (lb_hot_cache b)) - Z.of_nat (length (lb_hot_cache b'))).
Proof.
  revert b n. induction fuel as [|fuel IH]; intros b n Hf Hb; [lia|]. cbn [alloc_loop]. apply runs_bind. unfold alloc_round. apply runs_bind, runs_gets, runs_bind.
  assert (runs (if lb_use_hot b then evict else mret None) b (λ r b', lb_ok b' held ∧ shrinks b b' ∧ lb_evict_count b' = lb_evict_count b ∧
    length (lb_hot_cache b) = (length (lb_hot_cache b') + default 0%nat r)%nat ∧
    match r with Some j => (0 < j)%nat | None => lb_use_hot b = true → stuck b' end)) as Hev.
  { destruct (lb_use_hot b) eqn:Eu.
    - eapply runs_mono; [by apply evict_ok|]. intros r b' (? & Hs & ? & Hr). split_and!; [done..| |]; destruct r as [j|]; cbn; destruct Hr as [Hr ?]; [lia|rewrite Hr; lia|done..].
    - apply runs_ret. split_and!; [done|apply shrinks_refl|done|cbn; lia|done]. }
  eapply runs_mono; [exact Hev|]. clear Hev. intros ev b1 (Hb1 & Hs1 & Ec1 & Hl1 & Hst). rewrite andb_true_r.
  destruct ev as [j|]; [change (default 0%nat (Some j)) with j in *|change (default 0%nat (@None nat)) with 0%nat in *].
  - apply runs_bind. eapply runs_mono; [by apply on_alloc_ok|]. intros [a|] b2 (Hb2 & Hs2 & Ec2 & Hh2 & Hn); cbn; apply runs_ret; cbn.
    + apply runs_bind, runs_modify, runs_ret. exists (Some a). split_and!; [done| | |done|].
      * by destruct Hb2.
      * destruct (shrinks_trans _ _ _ Hs1 Hs2) as [? ? ? ?]. by split.
      * cbn. rewrite Ec2, Ec1, Hh2, Hl1. lia.
    + rewrite (Hn eq_refl) in *. eapply runs_mono; [apply IH; [lia|done]|]. intros r b3 (a & -> & Hb3 & Hs3 & Hst3 & Ec3). exists a.
      split_and!; [done|done|by eapply shrinks_trans| |].
      * intros Ha Hu. apply Hst3; [done|]. destruct (sh_config _ _ Hs1) as [-> _]. done.
      * rewrite Ec3, Ec1, Hl1. lia.
  - apply runs_ret. cbn. apply runs_bind, runs_modify, runs_ret. exists None. split_and!; [done| | | |].
    + by destruct Hb1.
    + destruct Hs1. by split.
    + intros _ Hu. apply stuck_counts. by apply Hst.
    + cbn. rewrite Ec1, Hl1. lia.
Qed.

Lemma allocating_ok fuel b eviction : (length (lb_hot_cache b) < fuel)%nat → lb_ok b held →
  runs (allocating fuel evict alloc eviction false) b (λ r b', ∃ a, r = Some a ∧ lb_ok b' (default [] (grant <$> a) ++ held) ∧ shrinks b b' ∧
    (a = None → eviction = true → lb_use_hot b = true → stuck b') ∧
    lb_evict_count b' = lb_evict_count b + Z.of_nat (length (lb_hot_cache b)) - Z.of_nat (length (lb_hot_cache b'))).
Proof.
  intros Hf Hb. unfold allocating. apply runs_bind. eapply runs_mono; [by apply on_alloc_ok|]. intros [a|] b1 (Hb1 & Hs & Ec & Hh & Hn).
  - apply runs_ret. exists (Some a). split_and!; [done..|rewrite Ec, Hh; lia].
  - rewrite (Hn eq_refl) in *. destruct eviction; cbn [negb].
    + eapply runs_mono; [by apply alloc_loop_ok|]. intros r b' (a & -> & Hb' & Hs' & Hst & Ec'). exists a. split_and!; [done..|intros Ha _; by apply Hst|rewrite Ec'; lia].
    + apply runs_ret. exists None. split_and!; [done..|lia].
Qed.
End loop.
End backend.
