(* ===== verification/LocalCPUTheorems.v ===== *)
(** * The CPU cache: what its users can rely on

    Runs of the backend by any number of threads, as sequences of the parts the code
    runs under the lock or inside the allocator, together with what callers do to the
    objects they hold; and the allocation loop as a whole. *)

From Stdlib Require Import Strings.Byte.
From S2P Require Import Prelude PyDict PyState AddressManager AddressSpace TensorAllocator TTLLock L1Manager L1ManagerProofs L1Memory CachePolicies LocalCPU LocalCPUProofs.

Open Scope Z_scope.

Section backend.
Context {SL : Type} {SLO : SortedListOps SL} {SLS : SortedListSpec SL}.
Context {dtype : Type} (itemsize : dtype → Z).
Context {K P H : Type} `{EqDecision K} {LK : LayerKeys K} {LKS : LayerKeysSpec K}.
Context {CP : CachePolicy P K nat} {CPS : CachePolicySpec P K nat} (chunk_hash : K → H).
#[local] Abbreviation backend := (LocalCPUBackend (SL := SL) (dtype := dtype) (K := K) (P := P) (H := H)).
Implicit Types (b : backend) (held : list nat).

(** ** Steps *)

(** the locked parts of the backend's operations; the allocator's own calls; and what a
    caller does with an object: give a reference back, or lift a pin *)
Inductive step :=
| SContains (key : K) (pin : bool) (now : Z)
| SLookup (keys : list K) (pin : bool) (now : nat → Z)
| STouch (now : K → Z)
| SGet (key : K)
| SGetMany (keys : list K)
| SPin (key : K) (now : Z)
| SUnpin (key : K)
| SPut (key : K) (oid : nat) (now : Z)
| SRemove (key : K)
| SEvict
| SEvictLayers (num_candidates batch_size : nat)
| SAllocate (shapes : Size + list Size) (dtypes : dtype + list dtype) (fmt : MemoryFormat)
| SBatchedAllocate (shapes : Size + list Size) (dtypes : dtype + list dtype) (batch_size : Z) (fmt : MemoryFormat)
| SRelease (oid : nat)
| SUnpinObject (oid : nat).

(** one reference less *)
Fixpoint drop_ref (oid : nat) (held : list nat) : list nat :=
  match held with
  | [] => []
  | i :: held => if decide (i = oid) then held else i :: drop_ref oid held
  end.

(** the state after a step, with the references callers hold *)
Definition exec (c : step) (s : backend * list nat) : backend * list nat :=
  let '(b, held) := s in
  match c with
  | SContains key pin now => ((contains key pin now b).2, held)
  | SLookup keys pin now => ((batched_async_contains keys pin now 0 b).2, held)
  | STouch now => ((touch_cache now b).2, held)
  | SGet key => ((get_blocking key b).2, match (get_blocking key b).1 with Ok (Some oid) => oid :: held | _ => held end)
  | SGetMany keys => ((batched_get_non_blocking keys [] b).2, cached_prefix (lb_hot_cache b) keys ++ held)
  | SPin key now => ((LocalCPU.pin key now b).2, held)
  | SUnpin key => ((LocalCPU.unpin key b).2, held)
  | SPut key oid now => ((submit_put_task chunk_hash key oid now b).2, held)
  | SRemove key => ((remove chunk_hash key true b).2, held)
  | SEvict => ((evict_one chunk_hash b).2, held)
  | SEvictLayers n m => ((evict_layers n m b).2, held)
  | SAllocate shapes dtypes fmt =>
      let r := on_memory (λ w, mixed_allocate itemsize w shapes dtypes fmt) b in
      (r.2, match r.1 with Ok (Some oid) => oid :: held | _ => held end)
  | SBatchedAllocate shapes dtypes n fmt =>
      let r := on_memory (λ w, mixed_batched_allocate itemsize w shapes dtypes n fmt) b in
      (r.2, match r.1 with Ok (Some oids) => oids ++ held | _ => held end)
  | SRelease oid => ((on_world (λ w, ref_count_down w oid) b).2, drop_ref oid held)
  | SUnpinObject oid => ((on_world (λ w, TensorAllocator.unpin w oid) b).2, held)
  end.

(** what callers have to respect: they pass and release objects they hold, ask for
    memory of a positive size in a pinned format, and use layerwise eviction with a
    policy that keeps no set of keys *)
Definition allowed (c : step) (s : backend * list nat) : Prop :=
  match c with
  | SPut _ oid _ | SRelease oid => oid ∈ s.2
  | SEvictLayers n _ => keyless (P := P) (K := K) ∧ (0 < n)%nat
  | SAllocate shapes dtypes fmt => pinned_format fmt = true ∧ ∃ n, request_size itemsize shapes dtypes = Ok n ∧ 0 < n
  | SBatchedAllocate shapes dtypes k fmt => pinned_format fmt = true ∧ 0 <= k ∧ ∃ n, request_size itemsize shapes dtypes = Ok n ∧ 0 < n
  | _ => True
  end.

Definition exec_all (cs : list step) (s : backend * list nat) : backend * list nat := foldl (λ s c, exec c s) s cs.
Fixpoint allowed_all (cs : list step) (s : backend * list nat) : Prop :=
  match cs with
  | [] => True
  | c :: cs => allowed c s ∧ allowed_all cs (exec c s)
  end.

Lemma drop_ref_perm oid held : oid ∈ held → held ≡ₚ oid :: drop_ref oid held.
Proof.
  induction held as [|i held IH]; [by intros ?%elem_of_nil|]. cbn. case_decide as E; subst; [done|].
  intros [->|Hin]%elem_of_cons; [done|]. rewrite (IH Hin) at 1. apply Permutation_swap.
Qed.

Lemma runs_state {A} (m : py_state backend A) b (Q : A → backend → Prop) : runs m b Q → ∃ a, (m b).1 = Ok a ∧ Q a (m b).2.
Proof. intros (a & b' & E & HQ). exists a. by rewrite E. Qed.

Lemma exec_ok c b held : lb_ok b held → allowed c (b, held) → lb_ok (exec c (b, held)).1 (exec c (b, held)).2.
Proof.
  intros Hb Ha. destruct c as [key pin now|keys pin now|now|key|keys|key now|key|key oid now|key| |n m|sh dt fmt|sh dt k fmt|oid|oid]; cbn [exec fst snd].
  - by destruct (runs_state _ _ _ (contains_ok b held key pin now Hb)) as (a & _ & ? & _).
  - by destruct (runs_state _ _ _ (batched_contains_ok b held keys pin now 0 Hb)) as (a & _ & ? & _).
  - by destruct (lb_touch_ok b held now Hb) as (r & b' & -> & ? & _).
  - destruct (runs_state _ _ _ (get_ok b held key Hb)) as (a & -> & Hok & _). by destruct a.
  - by destruct (get_many_ok b held keys [] Hb) as (r & b' & -> & ? & _).
  - by destruct (runs_state _ _ _ (pin_ok b held key now Hb)) as (a & _ & ? & _).
  - by destruct (runs_state _ _ _ (unpin_ok b held key Hb)) as (a & _ & ? & _).
  - by destruct (runs_state _ _ _ (lb_put_ok chunk_hash b held key oid now Hb Ha)) as (a & _ & ? & _).
  - by destruct (runs_state _ _ _ (lb_remove_ok chunk_hash b held key Hb)) as (a & _ & ? & _).
  - by destruct (runs_state _ _ _ (evict_one_ok chunk_hash b held Hb)) as (a & _ & ? & _).
  - destruct Ha as [Hk Hn]. by destruct (runs_state _ _ _ (evict_layers_ok chunk_hash b held n m Hk Hb Hn)) as (a & _ & ? & _).
  - destruct Ha as (Hf & n & Hn & Hpos). destruct (mem_allocate itemsize _ _ sh dt fmt n (lk_mem _ _ Hb) Hf Hn Hpos) as (r & w & E & Hw & _).
    unfold on_memory. rewrite E. cbn. destruct r as [i|]; apply (lb_ok_memory b held); [done| |done|done]. by rewrite <-Permutation_middle.
  - destruct Ha as (Hf & Hk & n & Hn & Hpos). destruct (mem_batched_allocate itemsize _ _ sh dt k fmt n (lk_mem _ _ Hb) Hf Hn Hpos Hk) as (r & w & E & Hw & _).
    unfold on_memory. rewrite E. cbn. destruct r as [i|]; apply (lb_ok_memory b held); [done| |done|done]. cbn in Hw. by rewrite Permutation_app_swap_app.
  - cbn in Ha. destruct (mem_down (lb_memory b) (dvals (lb_hot_cache b) ++ drop_ref oid held) oid) as (w & E & Hw & _).
    { pose proof (lk_mem _ _ Hb) as Hm. rewrite (drop_ref_perm oid held Ha) in Hm. by rewrite <-Permutation_middle in Hm. }
    unfold on_world, on_memory. rewrite E. cbn. by apply (lb_ok_memory b held).
  - destruct (mem_unpin _ _ oid (lk_mem _ _ Hb)) as (w & E & Hw). unfold on_world, on_memory. rewrite E. cbn. by apply (lb_ok_memory b held).
Qed.

Lemma exec_all_ok cs : ∀ s, lb_ok s.1 s.2 → allowed_all cs s → lb_ok (exec_all cs s).1 (exec_all cs s).2.
Proof. induction cs as [|c cs IH]; intros [b held] Hb; [done|]. cbn. intros [Ha Hcs]. apply IH; [by apply exec_ok|done]. Qed.

(** ** The reference counts *)

Section start.
Context (policy : P) (use_hot layerwise blending sender : bool) (buffer align : Z).
Context (Hpolicy : tracks (K := K) policy []) (Halign : pow2 align) (Hbuffer : 0 < buffer).

Definition lb_start : backend := lb_init policy use_hot layerwise blending sender (world_init buffer align None).

Lemma lb_start_ok : lb_ok lb_start [].
Proof.
  split; cbn; rewrite init_empty; [apply NoDup_nil_2|done|]. destruct (world_init_good (SL := SL) (dtype := dtype) buffer align None Halign) as [Hw _]; [lia|].
  split; [done|constructor|by intros oid ?%elem_of_nil|done|done].
Qed.

End start.

(** the states, with the references callers hold, that a backend reaches from its
    construction with a new policy over an empty pool *)
Definition reached b held : Prop :=
  ∃ policy use_hot layerwise blending sender buffer align cs,
    tracks (K := K) policy [] ∧ pow2 align ∧ 0 < buffer ∧
    allowed_all cs (lb_start policy use_hot layerwise blending sender buffer align, []) ∧
    exec_all cs (lb_start policy use_hot layerwise blending sender buffer align, []) = (b, held).

Lemma reached_ok b held : reached b held → lb_ok b held.
Proof.
  intros (p & u & l & bl & se & bu & al & cs & Hp & Hal & Hbu & Hcs & E).
  pose proof (exec_all_ok cs (_, _) (lb_start_ok p u l bl se bu al Hp Hal Hbu) Hcs) as Hok. by rewrite E in Hok.
Qed.

(** ** Allocation *)


(** ** Errors *)

(** C29: Only two operations of the CPU cache can fail, in every state the backend
    reaches: callers put and release objects they hold, and evict layerwise only with a
    policy that keeps no set of keys (with LFU a layerwise eviction makes the policy forget
    cached keys, and a hit on one of them raises). Lookups, pins, unpins, gets and removals
    return, and say whether the key is cached; a lookup of several keys counts the cached
    prefix; a put returns, and stores the object exactly when the key is absent. A get of
    several keys raises [KeyError] exactly when one of them is not cached, after taking
    references to those before it. A touch raises only [KeyError], only when a key of the
    request is no longer cached, and then keeps the request. Whatever happens, the state
    stays consistent. *)
Theorem local_cache_errors b held key keys oid pin now nows times : reached b held → oid ∈ held →
  (contains key pin now b).1 = Ok (dmem (lb_hot_cache b) key) ∧
  (LocalCPU.pin key now b).1 = Ok (dmem (lb_hot_cache b) key) ∧
  (LocalCPU.unpin key b).1 = Ok (dmem (lb_hot_cache b) key) ∧
  (get_blocking key b).1 = Ok (dget (lb_hot_cache b) key) ∧
  (∃ b', submit_put_task chunk_hash key oid now b = (Ok tt, b') ∧ lb_ok b' held ∧
     lb_hot_cache b' = if dmem (lb_hot_cache b) key then lb_hot_cache b else lb_hot_cache b ++ [(key, oid)]) ∧
  (remove chunk_hash key true b).1 = Ok (dmem (lb_hot_cache b) key) ∧
  (∃ m, (batched_async_contains keys pin nows 0 b).1 = Ok m ∧ (m <= length keys)%nat ∧
     Forall (.∈ dkeys (lb_hot_cache b)) (take m keys) ∧ ∀ k, keys !! m = Some k → k ∉ dkeys (lb_hot_cache b)) ∧
  (∃ r b', batched_get_non_blocking keys [] b = (r, b') ∧ lb_ok b' (cached_prefix (lb_hot_cache b) keys ++ held) ∧
     r = if forallb (dmem (lb_hot_cache b)) keys then Ok (cached_prefix (lb_hot_cache b) keys) else Raise KeyError) ∧
  (∃ r b', touch_cache times b = (r, b') ∧ lb_ok b' held ∧ lb_hot_cache b' ≡ₚ lb_hot_cache b ∧
     (r = Ok tt ∧ lb_keys_in_request b' = [] ∨
      r = Raise KeyError ∧ lb_keys_in_request b' = lb_keys_in_request b ∧ ∃ k, k ∈ lb_keys_in_request b ∧ k ∉ dkeys (lb_hot_cache b))).
Proof.
  intros Hb%reached_ok Hin. split_and!.
  - by destruct (runs_state _ _ _ (contains_ok b held key pin now Hb)) as (a & -> & _ & _ & ->).
  - by destruct (runs_state _ _ _ (pin_ok b held key now Hb)) as (a & -> & _ & _ & ->).
  - by destruct (runs_state _ _ _ (unpin_ok b held key Hb)) as (a & -> & _ & _ & ->).
  - by destruct (runs_state _ _ _ (get_ok b held key Hb)) as (a & -> & _ & _ & ->).
  - destruct (lb_put_ok chunk_hash b held key oid now Hb Hin) as ([] & b' & E & Hb' & _ & Hh). by exists b'.
  - by destruct (runs_state _ _ _ (lb_remove_ok chunk_hash b held key Hb)) as (a & -> & _ & -> & _).
  - destruct (runs_state _ _ _ (batched_contains_ok b held keys pin nows 0 Hb)) as (a & -> & _ & _ & m & -> & ?). by exists m.
  - destruct (get_many_ok b held keys [] Hb) as (r & b' & E & Hb' & _ & ->). by eexists _, b'.
  - by apply lb_touch_ok.
Qed.
End backend.

(** ** The chunk budget *)

Section budget.
Context {SL : Type} {SLO : SortedListOps SL} {SLS : SortedListSpec SL}.
Context {dtype : Type} (itemsize : dtype → Z).

Lemma init_list size align : sl_list (am_explicit_list (am_init (SL := SL) size align)) = [mkFreeBlock 0 size].
Proof.
  cbn. destruct (sl_add_sorted (mkFreeBlock 0 size) sl_empty) as [_ Hp]; [rewrite sl_empty_list; constructor|].
  rewrite sl_empty_list in Hp. by apply Permutation_singleton_r in Hp.
Qed.

(** C30: The chunk budget is the capacity of the pool. On an empty pool of the configured
    size, as many chunks as the budget can be allocated at once, and not one more. *)
Theorem chunk_budget_exact (total align chunk_bytes : Z) (shapes : Size + list Size) (dtypes : dtype + list dtype) (fmt : MemoryFormat) (k : Z) :
  pow2 align → 0 < total → pinned_format fmt = true → request_size itemsize shapes dtypes = Ok chunk_bytes → 0 < chunk_bytes → 0 <= k →
  ∃ budget, calculate_chunk_budget total align chunk_bytes = Ok budget ∧
    if k <=? budget then ∃ w, mixed_batched_allocate (SL := SL) itemsize (world_init total align None) shapes dtypes k fmt = Ok (Some (seq 0 (Z.to_nat k)), w)
    else mixed_batched_allocate (SL := SL) itemsize (world_init total align None) shapes dtypes k fmt = Ok (None, world_init total align None).
Proof.
  intros Hp Ht Hf Hn Hpos Hk. destruct (world_init_good (SL := SL) (dtype := dtype) total align None Hp) as [Hw _]; [lia|].
  pose proof (batched_allocate_spec itemsize (world_init total align None) shapes dtypes fmt chunk_bytes k Hw Hn Hpos Hk) as Hb. cbv zeta in Hb.
  change (ta_address_manager (w_alloc (world_init total align None))) with (am_init (SL := SL) total align) in Hb. rewrite init_list in Hb.
  assert (0 < align) by (by apply pow2_pos).
  destruct (compute_aligned_size_bounds (am_init (SL := SL) total align) chunk_bytes Hp) as [[q Hq] Hbd]. change (am_align (am_init total align)) with align in *.
  set (al := compute_aligned_size _ chunk_bytes) in *.
  assert ((chunk_bytes + align - 1) / align * align = al) as Eal.
  { rewrite Hq. f_equal. symmetry. apply (Z.div_unique_pos _ _ _ (chunk_bytes + align - 1 - q * align)); lia. }
  assert (capacity al [mkFreeBlock 0 total] = total / al) as Ec by (cbn; lia). rewrite Ec in Hb.
  exists (total / al). unfold calculate_chunk_budget. rewrite Eal. split.
  { destruct (Z.eqb_spec align 0), (Z.eqb_spec al 0); try lia. done. }
  unfold mixed_batched_allocate. rewrite Hf. cbn [rbind]. destruct (k <=? total / al); [|exact Hb].
  destruct Hb as (os & w & E & _ & _ & Hl & _). exists w. rewrite E. do 3 f_equal. cbn. f_equal. lia.
Qed.
End budget.
