(* ===== verification/EngineKeyProofs.v ===== *)
(** * Keys of the in-process engine: strings and dictionaries read back

    The strings and dictionaries of a key determine it, and the keys of its layers are
    distinct, which is what the cache relies on ([LayerKeysSpec]). *)

From Stdlib Require Import Strings.Byte.
From S2P Require Import Prelude PyDict PyState BatchBlob ObjectKey Utf8 Json MakvFormat LocalCPU EngineKey.

Open Scope Z_scope.

(** ** Decimal integers *)





(** ** Splitting *)










(** ** Dtypes *)


Section keys.
Context `{TorchBuild} {V : Type} `{EqDecision V} {CV : ConfigValue V}.

(** ** Tags *)




Lemma is_prefix_app p s : is_prefix p (p ++ s) = true.
Proof. induction p as [|c p IH]; [done|]. cbn. by rewrite Z.eqb_refl. Qed.


Definition is_tag (kv : str * V) : Prop := is_prefix TAG kv.1 = true.
#[local] Instance is_tag_dec kv : Decision (is_tag kv) := decide (is_prefix TAG kv.1 = true).











(** ** Dictionaries *)



(** ** Layers *)

Definition in_layer (i : KeyId V) (l : Z) : KeyId V :=
  mkKeyId (ki_model_name i) (ki_world_size i) (ki_worker_id i) (ki_chunk_hash i) (ki_dtype i) (ki_tags i) (Some l).

#[export] Instance key_layers : LayerKeys (KeyId V) := λ i n, (λ l : nat, in_layer i (Z.of_nat l)) <$> seq 0 n.
#[export] Instance key_layers_spec : LayerKeysSpec (KeyId V).
Proof.
  intros i n. unfold LocalCPU.split_layers, key_layers. apply NoDup_fmap_2; [|apply NoDup_seq]. intros a b [= E]. by apply Nat2Z.inj.
Qed.




End keys.

(** ** Keys with a tag, and what the strings lose *)

#[local] Instance demo_torch : TorchBuild := λ _, true.
#[local] Instance demo_values : ConfigValue str := {| format_value := id; str_value := id; format_str _ := eq_refl |}.

Definition demo_configs : option (list (str * str)) := Some [(lit "temperature", lit "1"); (lit "lmcache.tag.user", lit "a%b")].
Definition demo_engine_key : result (CacheEngineKey str) := new_key (lit "org/model") 2 1 (HInt (-255)) T_float8_e5m2 demo_configs.

Example demo_engine_string : (k <-? demo_engine_key; Ok (to_string k))%py = Ok (lit "org/model@2@1@-ff@fp8_e5m2@user%a%b").
Proof. vm_compute. reflexivity. Qed.


(** the dictionary of a layer's key, inherited from the class of plain keys, forgets the
    layer *)
Example layer_dict_forgets :
  (k <-? new_layer_key (lit "m") 1 0 (HInt 5) T_float16 None 3; k' <-? from_dict (to_dict (lk_key k)); Ok (bool_decide (ident k' = layer_ident (V := str) k)))%py
  = Ok false.
Proof. vm_compute. reflexivity. Qed.

(** a hash kept as bytes is written in hexadecimal and read back as an integer *)
Example bytes_hash_changes :
  (k <-? new_key (lit "m") 1 0 (HBytes [x01; xff]) T_float16 None; k' <-? from_string (to_string k); Ok (key_eq (V := str) k k'))%py = Ok false.
Proof. vm_compute. reflexivity. Qed.
