(* ===== verification/LocalCPUDemo.v ===== *)
(** * The CPU cache on concrete runs

    Witnesses of the theorems over a pool of two chunks with the LRU policy, and three
    behaviours of the code that the theorems leave room for. *)

From Stdlib Require Import Strings.Byte.
From S2P Require Import Prelude PyDict PyState BatchBlob ObjectKey AddressManager AddressSpace TensorAllocator TTLLock L1Manager L1ManagerProofs L1Memory CachePolicies LFUPolicy.
From S2P Require Import LocalCPU LocalCPUProofs LocalCPUTheorems EngineKey EngineKeyProofs.

Open Scope Z_scope.

Module LocalCPUDemo.

#[local] Abbreviation Key := (KeyId str).
#[local] Instance lru : CachePolicy (LRUCachePolicy (H := ChunkHash)) Key nat := lru_policy ki_chunk_hash.
#[local] Instance lru_ok : CachePolicySpec (LRUCachePolicy (H := ChunkHash)) Key nat := lru_spec ki_chunk_hash.
#[local] Abbreviation Backend P := (LocalCPUBackend (SL := ListSortedList.t) (dtype := unit) (K := Key) (P := P) (H := ChunkHash)).

(** layer [l] of the chunk with hash [h] *)
Definition key (h l : Z) : Key := mkKeyId (lit "m") 1 0 (HInt h) T_bfloat16 None (Some l).
Definition shape : Size + list Size := inl [2; 1; 100; 4].
Definition dt : unit + list unit := inl tt.

(** 1600 bytes, two blocks of 1024 each: the pool holds two objects *)
Definition start : Backend (LRUCachePolicy (H := ChunkHash)) := lb_start (mkLRU []) true false false false 4096 1024.

Definition fill : list (step (dtype := unit) (K := Key)) :=
  [SAllocate shape dt KV_2LTD; SPut (key 1 0) 0 1; SRelease 0; SAllocate shape dt KV_2LTD; SPut (key 2 0) 1 2; SRelease 1].
Definition steps : list (step (dtype := unit) (K := Key)) :=
  fill ++ [SContains (key 1 0) true 3; STouch (λ _, 4); SUnpin (key 1 0); SGet (key 1 0); SAllocate shape dt KV_2LTD; SEvict; SAllocate shape dt KV_2LTD; SRelease 0].

Lemma steps_allowed : allowed_all bf16_size ki_chunk_hash steps (start, []).
Proof.
  assert (allowed bf16_size (SAllocate shape dt KV_2LTD) (start, [])) as Ha by (split; [reflexivity|]; exists 1600; split; [reflexivity|lia]).
  assert (∀ (l : list nat) oid, bool_decide (oid ∈ l) = true → oid ∈ l) as Hin by (intros l oid E; by apply bool_decide_eq_true in E).
  repeat (split; [first [exact Ha|exact I|apply Hin; vm_compute; reflexivity]|]). exact I.
Qed.

Example steps_end : let '(b, held) := exec_all bf16_size ki_chunk_hash steps (start, []) in
  (lb_hot_cache b, held, ref_count <$> w_objs (lb_memory b), to_valid <$> w_objs (lb_memory b)) = ([(key 1 0, 0%nat)], [2%nat], [1; 0; 1], [true; false; true]).
Proof. vm_compute. reflexivity. Qed.


(** the pool full of two entries that can go *)
Definition full : Backend (LRUCachePolicy (H := ChunkHash)) := (exec_all bf16_size ki_chunk_hash fill (start, [])).1.

Lemma fill_reaches cs b held : allowed_all bf16_size ki_chunk_hash cs (start, []) →
  exec_all bf16_size ki_chunk_hash cs (start, []) = (b, held) → reached bf16_size ki_chunk_hash b held.
Proof. intros Ha E. exists (mkLRU []), true, false, false, false, 4096, 1024, cs. split_and!; [exact I|exact pow2_1024|lia|exact Ha|exact E]. Qed.


(** the same with a reference taken by a caller *)
Definition with_reference : Backend (LRUCachePolicy (H := ChunkHash)) := (exec_all bf16_size ki_chunk_hash (fill ++ [SGet (key 1 0)]) (start, [])).1.

Lemma with_reference_reached : reached bf16_size ki_chunk_hash with_reference [0%nat].
Proof.
  apply (fill_reaches (fill ++ [SGet (key 1 0)])); [|vm_compute; reflexivity].
  pose proof steps_allowed as Ha. unfold steps, fill in *. cbn [app allowed_all] in Ha |- *. tauto.
Qed.


Lemma local_cache_errors_witness : reached bf16_size ki_chunk_hash with_reference [0%nat] ∧
  (get_blocking (key 1 0) with_reference).1 = Ok (Some 0%nat) ∧
  (∃ b', submit_put_task ki_chunk_hash (key 3 0) 0 5 with_reference = (Ok tt, b') ∧
     lb_hot_cache b' = lb_hot_cache with_reference ++ [(key 3 0, 0%nat)]) ∧
  ∃ b', batched_get_non_blocking [key 1 0; key 3 0] [] with_reference = (Raise KeyError, b') ∧ lb_ok b' [0%nat; 0%nat].
Proof.
  split; [exact with_reference_reached|].
  destruct (local_cache_errors bf16_size ki_chunk_hash with_reference [0%nat] (key 3 0) [key 1 0; key 3 0] 0 true 5 (λ _, 0) (λ _, 0) with_reference_reached)
    as (_ & _ & _ & _ & (b1 & Ep & _ & Hp) & _ & _ & (r & b' & E & Hb' & Hr) & _); [left|].
  split_and!; [vm_compute; reflexivity|exists b1; by split|]. exists b'. rewrite E, Hr. split; [vm_compute; reflexivity|exact Hb'].
Defined.

Lemma chunk_budget_exact_witness : calculate_chunk_budget 4096 1024 1600 = Ok 2 ∧
  ∃ w, mixed_batched_allocate (SL := ListSortedList.t) bf16_size (world_init 4096 1024 None) shape dt 2 KV_2LTD = Ok (Some [0%nat; 1%nat], w).
Proof.
  split; [reflexivity|]. destruct (chunk_budget_exact (SL := ListSortedList.t) bf16_size 4096 1024 1600 shape dt KV_2LTD 2) as (budget & E & Hb); [exact pow2_1024|lia|reflexivity|reflexivity|lia|lia|].
  vm_compute in E. injection E as <-. exact Hb.
Defined.

(** ** Behaviours *)

(** A key that is removed while the request that looked it up is pending stays in
    [keys_in_request]: every later touch raises, and the list only grows. *)
Example touch_keeps_failing :
  let b1 := (contains (key 1 0) true 3 full).2 in
  let b2 := (remove ki_chunk_hash (key 1 0) true b1).2 in
  let r := touch_cache (λ _, 4) b2 in
  let b3 := (contains (key 2 0) true 5 r.2).2 in
  (r.1, (touch_cache (λ _, 6) b3).1, length (lb_keys_in_request (touch_cache (λ _, 6) b3).2)) = (Raise KeyError, Raise KeyError, 2%nat).
Proof. vm_compute. reflexivity. Qed.

(** A get of several keys that fails keeps the references it has taken, which no caller
    knows of: the objects can never be evicted. *)
Example failed_get_leaks :
  let b := (batched_get_non_blocking [key 1 0; key 3 0] [] full).2 in
  (evictable (lb_memory full) 0, evictable (lb_memory b) 0) = (true, false).
Proof. vm_compute. reflexivity. Qed.

(** ** Layerwise eviction with the LFU policy *)

#[local] Abbreviation LFU := (LFUCachePolicy (K := Key) (SD := gmap Z (list Key))).

(** two chunks of two layers fill the pool *)
Definition lfu_start : Backend LFU := lb_start lfu_init true true false false 8192 1024.
Definition lfu_full : Backend LFU :=
  (exec_all bf16_size ki_chunk_hash
     (concat ((λ hl : Z * Z * nat, [SAllocate shape dt KV_T2D; SPut (key hl.1.1 hl.1.2) hl.2 0; SRelease hl.2]) <$>
        [(1, 0, 0%nat); (1, 1, 1%nat); (2, 0, 2%nat); (2, 1, 3%nat)])) (lfu_start, [])).1.

(** The policy hands out, and forgets, the keys of both chunks, of which one is evicted:
    the other stays cached, can go, and is never found again; a hit on it raises. *)
Example lfu_layerwise_forgets :
  let r := LocalCPU.batched_allocate bf16_size 9 shape dt 2 None true false lfu_full in
  let b := r.2 in
  (r.1, lb_hot_cache b, evictable (lb_memory b) 2, (candidates 64 b).1, (hit (key 2 0) 0 b).1,
   (LocalCPU.batched_allocate bf16_size 9 shape dt 2 None true false b).1)
  = (Ok (Some (Some [4%nat; 5%nat])), [(key 2 0, 2%nat); (key 2 1, 3%nat)], true, Ok [], Raise KeyError, Ok (Some None)).
Proof. vm_compute. reflexivity. Qed.
End LocalCPUDemo.
