(* ===== verification/TokenDatabase.v ===== *)
(** * The token database

    token_database.py turns a prompt into cache keys: [ChunkedTokenDatabase] cuts it into
    chunks of a fixed size and hashes every chunk together with the hash of what precedes
    it; [SegmentTokenDatabase] cuts it at a separator and hashes every segment by itself.
    A tensor of tokens is the list of its elements. The hash function, which comes from
    vLLM or is Python's own, and the separator, which comes from a tokenizer, are
    parameters. A generator is the list of what it yields with the way it ends. *)

From Stdlib Require Import Strings.Byte.
From S2P Require Import Prelude PyDict PyState BatchBlob ObjectKey EngineKey.
Import Struct.

Open Scope Z_scope.

(** [be_val] is [int.from_bytes(_, "big")] *)
Definition _normalize_hash_to_int (hash_value : ChunkHash) : Z :=
  match hash_value with HBytes bs => be_val (take 8 bs) | HInt z => z end.

(** what a generator yields, and how it ends *)
Definition gen (A : Type) : Type := list A * result unit.
Definition yield_all {A} (l : list A) : gen A := (l, Ok tt).
(** [for x in g: yield f(x)] *)
Fixpoint gen_map {A B} (f : A → result B) (l : list A) (last : result unit) : gen B :=
  match l with
  | [] => ([], last)
  | x :: l =>
      match f x with
      | Ok y => let '(ys, r) := gen_map f l last in (y :: ys, r)
      | Raise e => ([], Raise e)
      end
  end.

Section database.
Context `{TorchBuild} {V E : Type} `{EqDecision V} {CV : ConfigValue V}.
(** the hash function, and [NONE_HASH] as the constructor leaves it *)
Context (hash_func : Z * list Z * list E → ChunkHash) (vllm_none_hash : option ChunkHash).

Definition NONE_HASH : Z := match vllm_none_hash with Some h => _normalize_hash_to_int h | None => 0 end.

Record LMCacheMetadata := mkMeta { me_model_name : str; me_world_size : Z; me_worker_id : Z; me_kv_dtype : torch_dtype; me_use_mla : bool }.

(** the part of the configuration the databases read: [extra_config] may set
    [save_only_first_rank] *)
Record TokenConfig := mkTokenConfig { tc_chunk_size : nat; tc_save_unfull_chunk : bool; tc_save_only_first_rank : option bool }.

Record TokenDatabase := mkTokenDatabase {
  td_metadata : option LMCacheMetadata;
  td_save_only_first_rank : bool;
  td_config : option TokenConfig;
  td_chunk_size : nat }.

Definition td_init (config : option TokenConfig) (metadata : option LMCacheMetadata) : TokenDatabase :=
  let first_rank :=
    match config, metadata with
    | Some c, Some m => default (me_use_mla m) (tc_save_only_first_rank c) && me_use_mla m
    | _, _ => false
    end in
  mkTokenDatabase metadata first_rank config (match config with Some c => tc_chunk_size c | None => 256%nat end).

Definition _make_key_by_hash (db : TokenDatabase) (chunk_hash : Z) (request_configs : option (list (str * V))) : result (CacheEngineKey V) :=
  match td_metadata db with
  | None => Raise AssertionError
  | Some m =>
      new_key (me_model_name m) (if negb (td_save_only_first_rank db) then me_world_size m else 1) (me_worker_id m) (HInt chunk_hash)
        (me_kv_dtype m) request_configs
  end.

Definition _canonicalize_hash_inputs (prefix_hash : option Z) (tokens : list Z) (extra_keys : option (list E)) : Z * list Z * list E :=
  (default NONE_HASH prefix_hash, tokens, default [] extra_keys).

Definition _hash_tokens (tokens : list Z) (prefix_hash : option Z) (extra_keys : option (list E)) : Z :=
  _normalize_hash_to_int (hash_func (_canonicalize_hash_inputs prefix_hash tokens extra_keys)).

(** a yielded triple: the range of tokens and the key, or only the hash *)
Definition ProcessTokensResult : Type := nat * nat * (CacheEngineKey V + Z).

(** [yield (start, end, key)] or [yield start, end, hash_val] *)
Definition yielded (db : TokenDatabase) (make_key : bool) (request_configs : option (list (str * V))) (r : nat * nat * Z) : result ProcessTokensResult :=
  if make_key then (k <-? _make_key_by_hash db r.2 request_configs; Ok (r.1, inl k))%py else Ok (r.1, inr r.2).

Definition num_falses (mask : option (list bool)) : nat :=
  match mask with Some m => (length m - length (filter (λ x, x = true) m))%nat | None => 0%nat end.

(** the ranges of given hashes and offsets, which both databases share *)
Fixpoint by_hashes (start_idx : nat) (hashes : list Z) (offsets : list nat) : list (nat * nat * Z) :=
  match hashes, offsets with
  | h :: hashes, o :: offsets => (start_idx, (start_idx + o)%nat, h) :: by_hashes (start_idx + o) hashes offsets
  | _, _ => []
  end.
Definition process_hashes (db : TokenDatabase) (hashes : option (list Z)) (offsets : option (list nat)) (make_key : bool)
    (request_configs : option (list (str * V))) : gen ProcessTokensResult :=
  match hashes with
  | None => ([], Raise ValueError)
  | Some hashes =>
      match offsets with
      | None => ([], Raise AssertionError)
      | Some offsets => gen_map (yielded db make_key request_configs) (by_hashes 0 hashes offsets) (Ok tt)
      end
  end.

(** ** Chunks *)

(** [range(start, stop, step)] for a positive step *)
Fixpoint range_from (fuel start stop step : nat) : list nat :=
  match fuel with
  | O => []
  | S fuel => if (start <? stop)%nat then start :: range_from fuel (start + step) stop step else []
  end.

Definition _chunk_tokens (db : TokenDatabase) (tokens : list Z) : list (list Z) :=
  let save_unfull_chunk := match td_config db with Some c => tc_save_unfull_chunk c | None => true end in
  let end_ := if save_unfull_chunk then length tokens else (length tokens - length tokens mod td_chunk_size db)%nat in
  (λ i, take (td_chunk_size db) (drop i tokens)) <$> range_from end_ 0 end_ (td_chunk_size db).

Definition _get_init_hash : Z := NONE_HASH.

Fixpoint prefix_hashes (prefix_hash : Z) (token_chunks : list (list Z)) : list Z :=
  match token_chunks with
  | [] => []
  | c :: cs => let h := _hash_tokens c (Some prefix_hash) None in h :: prefix_hashes h cs
  end.
Definition _prefix_hash (token_chunks : list (list Z)) : list Z := prefix_hashes _get_init_hash token_chunks.

(** the loop over [enumerate(prefix_hashes)] *)
Fixpoint chunk_ranges (db : TokenDatabase) (total_len skip chunk_id : nat) (hashes : list Z) : list (nat * nat * Z) :=
  match hashes with
  | [] => []
  | h :: hashes =>
      let start_idx := (chunk_id * td_chunk_size db)%nat in
      let end_idx := Nat.min (start_idx + td_chunk_size db) total_len in
      if (start_idx <? skip)%nat then chunk_ranges db total_len skip (S chunk_id) hashes
      else (start_idx, end_idx, h) :: chunk_ranges db total_len skip (S chunk_id) hashes
  end.

Definition process_tokens (db : TokenDatabase) (tokens : option (list Z)) (hashes : option (list Z)) (offsets : option (list nat))
    (mask : option (list bool)) (make_key : bool) (request_configs : option (list (str * V))) : gen ProcessTokensResult :=
  if (td_chunk_size db =? 0)%nat then ([], Raise ZeroDivisionError)
  else if negb (num_falses mask mod td_chunk_size db =? 0)%nat then ([], Raise ValueError)
  else
    match tokens with
    | Some tokens =>
        gen_map (yielded db make_key request_configs)
          (chunk_ranges db (length tokens) (num_falses mask) 0 (_prefix_hash (_chunk_tokens db tokens))) (Ok tt)
    | None => process_hashes db hashes offsets make_key request_configs
    end.

(** ** Segments *)

(** [tokens.unfold(0, size, 1)] *)
Definition unfold (tokens : list Z) (size : nat) : result (list (list Z)) :=
  if (length tokens <? size)%nat then Raise RuntimeError
  else Ok ((λ i, take size (drop i tokens)) <$> seq 0 (length tokens - size + 1)).

(** the positions of the windows equal to [sep] *)
Definition matches_of (sep : list Z) (windows : list (list Z)) : list nat :=
  (filter (λ iw, iw.2 = sep) (zip (seq 0 (length windows)) windows)).*1.

(** [tokens[start:stop]] *)
Definition tok_slice (tokens : list Z) (start stop : nat) : list Z := take (stop - start) (drop start tokens).

Fixpoint split_at (tokens : list Z) (sep_len start : nat) (matches : list nat) : list (list Z) :=
  match matches with
  | [] => [drop start tokens]
  | idx :: matches => tok_slice tokens start idx :: split_at tokens sep_len (idx + sep_len) matches
  end.

Definition _fast_split_by_subtensor (sep_tokens tokens : list Z) : gen (list Z) :=
  let sep_len := length sep_tokens in
  let first := if (sep_len =? 0)%nat || (length tokens <? sep_len)%nat then [tokens] else [] in
  match unfold tokens sep_len with
  | Raise e => (first, Raise e)
  | Ok windows => (first ++ split_at tokens sep_len 0 (matches_of sep_tokens windows), Ok tt)
  end.

(** the loop over [enumerate(token_chunks)] *)
Fixpoint segment_ranges (sep_len skip idx start_idx : nat) (chunks : list (list Z)) : list (nat * nat * Z) :=
  match chunks with
  | [] => []
  | c :: cs =>
      let start_idx := if (0 <? idx)%nat then (start_idx + sep_len)%nat else start_idx in
      let end_idx := (start_idx + length c)%nat in
      let rest := segment_ranges sep_len skip (S idx) end_idx cs in
      if (skip <=? start_idx)%nat then (start_idx, end_idx, _hash_tokens c None None) :: rest else rest
  end.

Definition segment_process_tokens (sep_tokens : list Z) (db : TokenDatabase) (tokens : option (list Z)) (hashes : option (list Z))
    (offsets : option (list nat)) (mask : option (list bool)) (make_key : bool) (request_configs : option (list (str * V))) : gen ProcessTokensResult :=
  match tokens with
  | Some tokens =>
      if negb (num_falses mask <? length tokens)%nat then ([], Raise AssertionError)
      else
        let '(chunks, last) := _fast_split_by_subtensor sep_tokens tokens in
        gen_map (yielded db make_key request_configs) (segment_ranges (length sep_tokens) (num_falses mask) 0 0 chunks) last
  | None => process_hashes db hashes offsets make_key request_configs
  end.
End database.
