(* ===== verification/TokenDatabaseProofs.v ===== *)
(** * The token database: keys stand for prefixes

    The keys of the chunked database are hashes of whole prefixes: under a hash function
    without collisions two keys are equal exactly when the prompts agree up to the end of
    the chunk. The segment database cuts a prompt at the separators, when they do not
    overlap, and its ranges are those of the segments it hashes. *)

From Stdlib Require Import Strings.Byte.
From S2P Require Import Prelude PyDict PyState BatchBlob ObjectKey EngineKey TokenDatabase.

Open Scope Z_scope.

(** ** Cutting a list *)

Fixpoint chop (fuel n : nat) (t : list Z) : list (list Z) :=
  match fuel, t with
  | S fuel, _ :: _ => take n t :: chop fuel n (drop n t)
  | _, _ => []
  end.

Lemma chop_nil fuel n : chop fuel n [] = [].
Proof. by destruct fuel. Qed.

Lemma chop_cons fuel n t : t ≠ [] → chop (S fuel) n t = take n t :: chop fuel n (drop n t).
Proof. by destruct t. Qed.

Lemma chop_concat fuel n t : (0 < n)%nat → (length t <= fuel)%nat → concat (chop fuel n t) = t.
Proof.
  intros Hn. revert t. induction fuel as [|fuel IH]; intros t Hl; [by destruct t; [|cbn in Hl; lia]|].
  destruct (decide (t = [])) as [->|Ht]; [done|]. rewrite chop_cons by done. cbn [concat]. rewrite IH; [apply take_drop|].
  rewrite length_drop. destruct t; [done|]. cbn in *. lia.
Qed.

(** enough fuel is enough *)
Lemma chop_fuel f f' n t : (0 < n)%nat → (length t <= f)%nat → (length t <= f')%nat → chop f n t = chop f' n t.
Proof.
  intros Hn. revert f' t. induction f as [|f IH]; intros f' t Hf Hf'; [destruct t; [by rewrite !chop_nil|cbn in *; lia]|].
  destruct (decide (t = [])) as [->|Ht]; [by rewrite !chop_nil|]. destruct f' as [|f']; [destruct t; [done|cbn in *; lia]|].
  rewrite !chop_cons by done. f_equal. assert (0 < length t)%nat by (destruct t; [done|cbn; lia]). apply IH; rewrite length_drop; lia.
Qed.

Lemma chop_take f n t k : (0 < n)%nat → (length t <= f)%nat → take k (chop f n t) = chop f n (take (k * n) t).
Proof.
  intros Hn. revert t k. induction f as [|f IH]; intros t k Hf; [by destruct k|].
  destruct (decide (t = [])) as [->|Ht]; [by rewrite chop_nil, !take_nil, chop_nil|]. destruct k as [|k]; [by rewrite chop_nil|].
  rewrite chop_cons by done. cbn [take]. assert (0 < length t)%nat by (destruct t; [done|cbn; lia]).
  rewrite chop_cons by (intros Hz; apply (f_equal length) in Hz; rewrite length_take in Hz; cbn in Hz; lia). f_equal.
  - rewrite take_take. f_equal. lia.
  - rewrite IH by (rewrite length_drop; lia). rewrite skipn_firstn_comm. do 2 f_equal. lia.
Qed.

Lemma chop_length f n t : (0 < n)%nat → (length t <= f)%nat → length (chop f n t) = ((length t + n - 1) / n)%nat.
Proof.
  intros Hn. revert t. induction f as [|f IH]; intros t Hf.
  { destruct t; [|cbn in *; lia]. cbn. symmetry. apply Nat.div_small. lia. }
  destruct (decide (t = [])) as [->|Ht]; [cbn; symmetry; apply Nat.div_small; lia|]. assert (0 < length t)%nat by (destruct t; [done|cbn; lia]).
  rewrite chop_cons by done. cbn [length]. rewrite IH by (rewrite length_drop; lia). rewrite length_drop. destruct (decide (length t <= n)%nat) as [Hle|Hgt].
  - replace (length t - n + n - 1)%nat with (n - 1)%nat by lia. rewrite Nat.div_small by lia.
    replace (length t + n - 1)%nat with (length t - 1 + 1 * n)%nat by lia. rewrite Nat.div_add by lia. rewrite Nat.div_small by lia. lia.
  - replace (length t + n - 1)%nat with (length t - n + n - 1 + 1 * n)%nat by lia. rewrite Nat.div_add by lia. lia.
Qed.

Lemma chunks_chop n t f i e : (0 < n)%nat → (e <= length t)%nat → (e = length t ∨ (n | e - i)%nat) → (e - i <= f)%nat →
  (λ j, take n (drop j t)) <$> range_from f i e n = chop f n (take (e - i) (drop i t)).
Proof.
  intros Hn He Hd Hf. revert i Hd Hf. induction f as [|f IH]; intros i Hd Hf; [done|]. cbn [range_from]. destruct (Nat.ltb_spec i e) as [Hi|Hi].
  - assert (length (take (e - i) (drop i t)) = (e - i)%nat) as Hl by (rewrite length_take, length_drop; lia).
    rewrite chop_cons by (intros Hz; apply (f_equal length) in Hz; rewrite Hl in Hz; cbn in Hz; lia). cbn [fmap list_fmap]. f_equal.
    + rewrite take_take. destruct Hd as [Hd|[q Hq]].
      * subst e. destruct (decide (n <= length t - i)%nat); [by rewrite Nat.min_l by lia|]. rewrite Nat.min_r by lia. rewrite !take_ge by (rewrite length_drop; lia). done.
      * rewrite Nat.min_l; [done|]. destruct q; lia.
    + etrans; [apply IH|].
      * destruct Hd as [Hd|[q Hq]]; [by left|right]. exists (q - 1)%nat. rewrite Nat.mul_sub_distr_r. lia.
      * lia.
      * rewrite skipn_firstn_comm, drop_drop. do 2 f_equal; lia.
  - replace (e - i)%nat with 0%nat by lia. by rewrite take_0, chop_nil.
Qed.

Section database.
Context `{TorchBuild} {V E : Type} `{EqDecision V} {CV : ConfigValue V}.
Context (hash_func : Z * list Z * list E → ChunkHash) (vllm_none_hash : option ChunkHash).
Abbreviation none_hash := (NONE_HASH vllm_none_hash).
Abbreviation hash_tokens := (_hash_tokens hash_func vllm_none_hash).

(** ** Prefixes *)

(** the hash of a sequence of chunks *)
Definition chain (cs : list (list Z)) : Z := foldl (λ p c, hash_tokens c (Some p) None) none_hash cs.

(** the key of a prefix *)
Definition prefix_key (n : nat) (t : list Z) : Z := chain (chop (length t) n t).

Lemma prefix_hashes_lookup p cs i :
  prefix_hashes hash_func vllm_none_hash p cs !! i = if (i <? length cs)%nat then Some (foldl (λ p c, hash_tokens c (Some p) None) p (take (S i) cs)) else None.
Proof.
  revert p i. induction cs as [|c cs IH]; intros p i; [done|]. cbn [prefix_hashes length]. destruct i as [|i]; [done|]. cbn [lookup list_lookup].
  etrans; [apply IH|]. destruct (Nat.ltb_spec i (length cs)), (Nat.ltb_spec (S i) (S (length cs))); try lia; done.
Qed.

Lemma prefix_hashes_list p cs : prefix_hashes hash_func vllm_none_hash p cs = (λ i, foldl (λ p c, hash_tokens c (Some p) None) p (take (S i) cs)) <$> seq 0 (length cs).
Proof.
  apply list_eq. intros i. rewrite prefix_hashes_lookup, list_lookup_fmap. destruct (Nat.ltb_spec i (length cs)).
  - by rewrite lookup_seq_lt by done.
  - by rewrite lookup_seq_ge by lia.
Qed.

Lemma chunk_ranges_list (db : TokenDatabase) total skip id (g : nat → Z) m : (0 < td_chunk_size db)%nat → (td_chunk_size db | skip)%nat →
  chunk_ranges db total skip id (g <$> seq id m)
  = (λ i, (i * td_chunk_size db, Nat.min (S i * td_chunk_size db) total, g i)%nat) <$> seq (Nat.max id (skip / td_chunk_size db)) (id + m - Nat.max id (skip / td_chunk_size db)).
Proof.
  intros Hn [q Hq]. set (n := td_chunk_size db) in *. assert (skip / n = q)%nat as -> by (subst skip; apply Nat.div_mul; lia).
  revert id. induction m as [|m IH]; intros id; [by replace (id + 0 - Nat.max id q)%nat with 0%nat by lia|]. cbn [seq fmap list_fmap chunk_ranges]. fold n.
  specialize (IH (S id)). cbn [fmap] in IH. destruct (Nat.ltb_spec (id * n) skip) as [Hlt|Hge].
  - assert (id < q)%nat by (subst skip; apply Nat.mul_lt_mono_pos_r in Hlt; lia). etrans; [exact IH|].
    replace (Nat.max (S id) q) with (Nat.max id q) by lia. do 2 f_equal. lia.
  - assert (q <= id)%nat by (subst skip; apply Nat.mul_le_mono_pos_r in Hge; lia). rewrite Nat.max_l by lia. replace (id + S m - id)%nat with (S m) by lia.
    cbn [seq fmap list_fmap]. f_equal; [f_equal; f_equal; lia|]. etrans; [exact IH|]. rewrite Nat.max_l by lia. do 2 f_equal. lia.
Qed.

(** the tokens that chunks cover *)
Definition covered (db : TokenDatabase) (t : list Z) : nat :=
  if match td_config db with Some c => tc_save_unfull_chunk c | None => true end then length t else (length t - length t mod td_chunk_size db)%nat.

Lemma covered_spec db t : (0 < td_chunk_size db)%nat → (covered db t <= length t)%nat ∧ (covered db t = length t ∨ (td_chunk_size db | covered db t)%nat).
Proof.
  intros Hn. unfold covered. destruct (match td_config db with Some _ => _ | None => _ end); [by split; [|left]|]. split; [lia|right].
  exists (length t / td_chunk_size db)%nat. pose proof (Nat.div_mod_eq (length t) (td_chunk_size db)). lia.
Qed.

Lemma chunk_tokens_chop db t : (0 < td_chunk_size db)%nat → _chunk_tokens db t = chop (covered db t) (td_chunk_size db) (take (covered db t) t).
Proof.
  intros Hn. destruct (covered_spec db t Hn) as [Hle Hd]. unfold _chunk_tokens. cbv zeta. fold (covered db t).
  rewrite (chunks_chop (td_chunk_size db) t (covered db t) 0 (covered db t)); [|done|done| |lia].
  - by rewrite Nat.sub_0_r, drop_0.
  - by rewrite Nat.sub_0_r.
Qed.

(** what the chunked database yields for a prompt, hash by hash *)
Definition chunk_list (db : TokenDatabase) (t : list Z) (skip : nat) : list (nat * nat * Z) :=
  let n := td_chunk_size db in
  (λ i, (i * n, Nat.min (S i * n) (length t), prefix_key n (take (S i * n) t))%nat) <$> seq (skip / n) ((covered db t + n - 1) / n - skip / n).

Lemma chunk_ranges_exact db t skip : (0 < td_chunk_size db)%nat → (td_chunk_size db | skip)%nat →
  chunk_ranges db (length t) skip 0 (_prefix_hash hash_func vllm_none_hash (_chunk_tokens db t)) = chunk_list db t skip.
Proof.
  intros Hn Hs. destruct (covered_spec db t Hn) as [Hle Hd]. set (n := td_chunk_size db) in *. unfold _prefix_hash. rewrite prefix_hashes_list, chunk_ranges_list by done.
  unfold chunk_list. rewrite Nat.max_0_l, Nat.add_0_l. fold n. rewrite chunk_tokens_chop by done. fold n.
  assert (length (take (covered db t) t) = covered db t) as Hl by (rewrite length_take; lia).
  rewrite chop_length by (done || lia). rewrite Hl. apply list_fmap_ext. intros j i Hi%list_elem_of_lookup_2%elem_of_seq. f_equal.
  unfold prefix_key, chain, _get_init_hash. f_equal. rewrite chop_take by (done || lia).
  assert (take (S i * n) (take (covered db t) t) = take (S i * n) t) as ->.
  { rewrite take_take. destruct Hd as [Hd|[q Hq]].
    - rewrite Hd. destruct (decide (S i * n <= length t)%nat); [by rewrite Nat.min_l by lia|]. rewrite Nat.min_r by lia. by rewrite !take_ge by lia.
    - rewrite Nat.min_l; [done|]. rewrite Hq in *. replace (q * n + n - 1)%nat with (n - 1 + q * n)%nat in Hi by lia.
      rewrite Nat.div_add, (Nat.div_small (n - 1) n) in Hi by lia. apply Nat.mul_le_mono_r. lia. }
  apply chop_fuel; [done| |done]. rewrite length_take. destruct Hd as [Hd|[q Hq]]; [lia|].
  rewrite Hq in *. replace (q * n + n - 1)%nat with (n - 1 + q * n)%nat in Hi by lia. rewrite Nat.div_add, (Nat.div_small (n - 1) n) in Hi by lia.
  etrans; [apply Nat.le_min_l|]. apply Nat.mul_le_mono_r. lia.
Qed.

(** ** Keys and prefixes *)

Section collision_free.
(** a hash function without collisions that never returns [NONE_HASH] *)
Context (hash_injective : ∀ x y, _normalize_hash_to_int (hash_func x) = _normalize_hash_to_int (hash_func y) → x = y).
Context (hash_not_none : ∀ x, _normalize_hash_to_int (hash_func x) ≠ none_hash).

Lemma chain_injective cs1 cs2 : chain cs1 = chain cs2 → cs1 = cs2.
Proof.
  revert cs2. induction cs1 as [|c1 cs1 IH] using rev_ind; intros cs2; destruct cs2 as [|c2 cs2 _] using rev_ind; [done|..]; unfold chain; rewrite ?foldl_app; cbn [foldl].
  - intros Hc. symmetry in Hc. by apply hash_not_none in Hc.
  - intros Hc. by apply hash_not_none in Hc.
  - intros Hc. apply hash_injective in Hc. injection Hc as Hc ->. f_equal. by apply IH.
Qed.

(** C15: A key of the chunked database stands for a prefix. Under a hash function without
    collisions, a prompt whose mask skips whole chunks yields, after the chunks skipped,
    one range and key per chunk up to the tokens covered, and the keys of two chunks of
    any two prompts are equal exactly when the prompts agree up to the ends of the
    chunks. *)
Theorem token_keys_identify_prefixes (db : TokenDatabase) (t1 t2 : list Z) (hashes : option (list Z)) (offsets : option (list nat))
    (m1 m2 : option (list bool)) (make_key : bool) (cfg : option (list (str * V))) :
  (0 < td_chunk_size db)%nat → (num_falses m1 mod td_chunk_size db = 0)%nat → (num_falses m2 mod td_chunk_size db = 0)%nat →
  process_tokens hash_func vllm_none_hash db (Some t1) hashes offsets m1 make_key cfg
    = gen_map (yielded db make_key cfg) (chunk_list db t1 (num_falses m1)) (Ok tt) ∧
  ∀ s1 e1 h1 s2 e2 h2, (s1, e1, h1) ∈ chunk_list db t1 (num_falses m1) → (s2, e2, h2) ∈ chunk_list db t2 (num_falses m2) →
    h1 = h2 ↔ take e1 t1 = take e2 t2.
Proof.
  intros Hn H1 H2. split.
  - unfold process_tokens. destruct (Nat.eqb_spec (td_chunk_size db) 0); [lia|]. rewrite H1. cbn [Nat.eqb negb]. f_equal.
    apply chunk_ranges_exact; [done|]. by apply Nat.Lcm0.mod_divide.
  - intros s1 e1 h1 s2 e2 h2 Hr1 Hr2. unfold chunk_list in Hr1, Hr2. cbv zeta in Hr1, Hr2.
    apply list_elem_of_fmap in Hr1 as (i & [= -> -> ->] & _). apply list_elem_of_fmap in Hr2 as (j & [= -> -> ->] & _).
    assert (∀ k (t : list Z), take (Nat.min k (length t)) t = take k t) as Ht.
    { intros k t. destruct (decide (k <= length t)%nat); [by rewrite Nat.min_l|]. rewrite Nat.min_r by lia. by rewrite !take_ge by lia. }
    rewrite !Ht. set (n := td_chunk_size db) in *. set (p1 := take _ t1). set (p2 := take _ t2). split; [|by intros ->].
    unfold prefix_key. intros Hc%chain_injective. rewrite <-(chop_concat (length p1) n p1), <-(chop_concat (length p2) n p2), Hc by done. done.
Qed.
End collision_free.

(** ** Segments *)

Fixpoint join_by (sep : list Z) (segs : list (list Z)) : list Z :=
  match segs with
  | [] => []
  | [c] => c
  | c :: segs => c ++ sep ++ join_by sep segs
  end.

Lemma join_split (sep t : list Z) ms : ∀ start,
  StronglySorted (λ a b, a + length sep <= b)%nat ms → Forall (λ m, take (length sep) (drop m t) = sep) ms → Forall (λ m, start <= m)%nat ms →
  join_by sep (split_at t (length sep) start ms) = drop start t.
Proof.
  induction ms as [|m ms IH]; intros start HS HF Hlt; [done|]. apply StronglySorted_inv in HS as [HS Hm]. apply Forall_cons in HF as [Hsep HF], Hlt as [Hlt _].
  cbn [split_at join_by]. destruct (split_at t (length sep) (m + length sep) ms) as [|c cs] eqn:Ec; [by destruct ms|]. rewrite <-Ec, IH; [|done|done|exact Hm].
  unfold tok_slice. rewrite <-(take_drop (m - start) (drop start t)) at 2. f_equal. rewrite drop_drop. replace (start + (m - start))%nat with m by lia.
  rewrite <-(take_drop (length sep) (drop m t)). by rewrite drop_drop, Hsep.
Qed.

Lemma segment_ranges_ok (sep t : list Z) skip ms : ∀ idx start_idx start,
  StronglySorted (λ a b, a + length sep <= b)%nat ms → Forall (λ m, m + length sep <= length t)%nat ms → Forall (λ m, start <= m)%nat ms → (start <= length t)%nat →
  (if (0 <? idx)%nat then start_idx + length sep else start_idx)%nat = start →
  ∀ s e h, (s, e, h) ∈ segment_ranges hash_func vllm_none_hash (length sep) skip idx start_idx (split_at t (length sep) start ms) →
    (skip <= s <= e)%nat ∧ (e <= length t)%nat ∧ h = hash_tokens (tok_slice t s e) None None.
Proof.
  induction ms as [|m ms IH]; intros idx start_idx start HS HF Hlt Hs Hstart s e h; cbn [split_at segment_ranges]; rewrite Hstart.
  - rewrite length_drop. destruct (Nat.leb_spec skip start) as [Hk|Hk]; [|by intros ?%elem_of_nil]. intros [= -> -> ->]%list_elem_of_singleton.
    split_and!; [lia|lia|lia|]. unfold tok_slice. f_equal. symmetry. apply take_ge. rewrite length_drop. lia.
  - apply StronglySorted_inv in HS as [HS Hm]. apply Forall_cons in HF as [Hb HF], Hlt as [Hlt _].
    assert (length (tok_slice t start m) = m - start)%nat as Hl by (unfold tok_slice; rewrite length_take, length_drop; lia). rewrite Hl.
    replace (start + (m - start))%nat with m by lia.
    assert (∀ s e h, (s, e, h) ∈ segment_ranges hash_func vllm_none_hash (length sep) skip (S idx) m (split_at t (length sep) (m + length sep) ms) →
      (skip <= s <= e)%nat ∧ (e <= length t)%nat ∧ h = hash_tokens (tok_slice t s e) None None) as Hrest by (by apply IH).
    destruct (Nat.leb_spec skip start) as [Hk|Hk]; [|apply Hrest]. intros [[= -> -> ->]|Hin]%elem_of_cons; [|by apply Hrest]. split_and!; [lia|lia|lia|done].
Qed.

Lemma matches_ok (sep t : list Z) windows : unfold t (length sep) = Ok windows →
  StronglySorted lt (matches_of sep windows) ∧ Forall (λ m, take (length sep) (drop m t) = sep ∧ (m + length sep <= length t)%nat) (matches_of sep windows) ∧
  ∀ m, (m + length sep <= length t)%nat → take (length sep) (drop m t) = sep → m ∈ matches_of sep windows.
Proof.
  unfold TokenDatabase.unfold. destruct (Nat.ltb_spec (length t) (length sep)) as [?|Hl]; [done|]. intros [= <-].
  set (N := (length t - length sep + 1)%nat). set (g := λ i, take (length sep) (drop i t)).
  assert (matches_of sep (g <$> seq 0 N) = filter (λ i, g i = sep) (seq 0 N)) as ->.
  { unfold matches_of. rewrite length_fmap, length_seq. generalize 0%nat as k. clearbody g N. induction N as [|N IH]; intros k; [done|].
    cbn [seq fmap list_fmap zip zip_with]. rewrite !filter_cons. cbn [snd]. destruct (decide (g k = sep)); cbn [fmap list_fmap fst]; [f_equal|]; apply IH. }
  split_and!.
  - apply sorted_filter. generalize 0%nat as k. induction N as [|N IH]; intros k; [constructor|]. cbn [seq]. constructor; [apply IH|].
    apply Forall_forall. intros j Hj%elem_of_seq. lia.
  - apply Forall_forall. intros m [Hm Hin%elem_of_seq]%list_elem_of_filter. split; [exact Hm|]. unfold N in Hin. lia.
  - intros m Hm E'. apply list_elem_of_filter. split; [exact E'|]. apply elem_of_seq. unfold N. lia.
Qed.

(** The segment database finds the segments. For a prompt that is at least as long as
    the separator and in which separators do not overlap, the split ends normally, its
    segments joined by separators are the prompt, and every range that is yielded starts
    after the mask, lies in the prompt, and is that of the tokens that were hashed; the
    hash depends on them alone. *)
Theorem segment_ranges_exact (sep : list Z) (db : TokenDatabase) (t : list Z) hashes offsets (mask : option (list bool)) (make_key : bool) (cfg : option (list (str * V))) :
  (0 < length sep <= length t)%nat → (num_falses mask < length t)%nat →
  (∀ i j, (i < j)%nat → (j + length sep <= length t)%nat → take (length sep) (drop i t) = sep → take (length sep) (drop j t) = sep → (i + length sep <= j)%nat) →
  ∃ segs, _fast_split_by_subtensor sep t = yield_all segs ∧ join_by sep segs = t ∧
    let ranges := segment_ranges hash_func vllm_none_hash (length sep) (num_falses mask) 0 0 segs in
    segment_process_tokens hash_func vllm_none_hash sep db (Some t) hashes offsets mask make_key cfg = gen_map (yielded db make_key cfg) ranges (Ok tt) ∧
    ∀ s e h, (s, e, h) ∈ ranges → (num_falses mask <= s <= e)%nat ∧ (e <= length t)%nat ∧ h = hash_tokens (tok_slice t s e) None None.
Proof.
  intros Hl Hm Hno. destruct (unfold t (length sep)) as [windows|] eqn:Ew; [|unfold TokenDatabase.unfold in Ew; destruct (Nat.ltb_spec (length t) (length sep)); [lia|done]].
  destruct (matches_ok sep t windows Ew) as (HS & HF & _). set (ms := matches_of sep windows) in *.
  assert (_fast_split_by_subtensor sep t = yield_all (split_at t (length sep) 0 ms)) as Es.
  { unfold _fast_split_by_subtensor. cbv zeta. rewrite Ew. destruct (Nat.eqb_spec (length sep) 0), (Nat.ltb_spec (length t) (length sep)); try lia. done. }
  assert (Forall (λ m, take (length sep) (drop m t) = sep) ms ∧ Forall (λ m, m + length sep <= length t)%nat ms) as [HF1 HF2] by (by apply Forall_and).
  assert (StronglySorted (λ a b, a + length sep <= b)%nat ms) as HS'.
  { clearbody ms. clear Es HF. induction HS as [|m ms HS IH Hlt]; [constructor|]. apply Forall_cons in HF1 as [Hm1 HF1], HF2 as [Hm2 HF2]. constructor; [by apply IH|].
    rewrite Forall_forall in *. intros j Hj. apply Hno; auto. }
  exists (split_at t (length sep) 0 ms). split_and!; [done| |].
  - rewrite join_split; [by rewrite drop_0|done|done|]. apply Forall_true. intros. lia.
  - cbv zeta. split.
    + unfold segment_process_tokens. destruct (Nat.ltb_spec (num_falses mask) (length t)); [|lia]. cbn [negb]. by rewrite Es.
    + apply segment_ranges_ok; [done|done|apply Forall_true; intros; lia|lia|done].
Qed.

(** a prompt shorter than the separator is yielded, and then the generator raises *)
Lemma short_prompt_raises (sep : list Z) t : (length t < length sep)%nat → _fast_split_by_subtensor sep t = ([t], Raise RuntimeError).
Proof.
  intros Hl. unfold _fast_split_by_subtensor, TokenDatabase.unfold. cbv zeta. destruct (Nat.ltb_spec (length t) (length sep)); [|lia]. by rewrite orb_true_r.
Qed.
End database.

(** ** Concrete prompts *)

Module TokenDemo.
#[local] Instance torch : TorchBuild := λ _, true.
#[local] Instance values : ConfigValue str := {| format_value := id; str_value := id; format_str _ := eq_refl |}.

(** a hash without collisions: a number for every input *)
Definition number (x : Z * list Z * list unit) : ChunkHash := HInt (Zpos (encode x)).
Definition database : TokenDatabase := td_init (Some (mkTokenConfig 2 false None)) (Some (mkMeta (lit "m") 2 1 T_bfloat16 true)).
Definition mask : option (list bool) := Some [false; false; true; true; true].

Lemma number_injective x y : _normalize_hash_to_int (number x) = _normalize_hash_to_int (number y) → x = y.
Proof. intros [= E]. by apply (inj encode) in E. Qed.

Lemma token_keys_identify_prefixes_witness :
  process_tokens number None database (Some [1; 2; 3; 4; 5]) None None mask true (None : option (list (str * str)))
    = gen_map (yielded database true None) (chunk_list number None database [1; 2; 3; 4; 5] 2) (Ok tt) ∧
  ∀ s1 e1 h1 s2 e2 h2, (s1, e1, h1) ∈ chunk_list number None database [1; 2; 3; 4; 5] 2 → (s2, e2, h2) ∈ chunk_list number None database [1; 2; 3; 4; 6] 0 →
    h1 = h2 ↔ take e1 [1; 2; 3; 4; 5] = take e2 [1; 2; 3; 4; 6].
Proof.
  apply (token_keys_identify_prefixes number None number_injective ltac:(done) database [1; 2; 3; 4; 5] [1; 2; 3; 4; 6] None None mask None true None); reflexivity || (cbn; lia).
Defined.

(** one chunk: the first is masked and the last is not full; the world size of an MLA
    model is one *)
Example masked_chunk :
  (λ r : ProcessTokensResult, match r.2 with inl k => (r.1, ck_world_size k, ck_worker_id k) | inr _ => (r.1, 0, 0) end)
    <$> (process_tokens number None database (Some [1; 2; 3; 4; 5]) None None mask true (None : option (list (str * str)))).1 = [((2%nat, 4%nat), 1, 1)].
Proof. vm_compute. reflexivity. Qed.

Lemma segment_ranges_exact_witness : ∃ segs, _fast_split_by_subtensor [9; 8] [1; 2; 9; 8; 3; 9; 8] = yield_all segs ∧ join_by [9; 8] segs = [1; 2; 9; 8; 3; 9; 8].
Proof.
  destruct (segment_ranges_exact (V := str) number None [9; 8] database [1; 2; 9; 8; 3; 9; 8] None None None false None) as (segs & E & Hj & _); [cbn; lia|cbn; lia| |by exists segs].
  intros i j Hij Hj Hi' Hj'. cbn in Hj. assert (i = 2 ∨ i = 5)%nat as Hi2 by (do 6 (destruct i as [|i]; [try discriminate Hi'; auto|]); lia).
  assert (j = 2 ∨ j = 5)%nat as Hj2 by (do 6 (destruct j as [|j]; [try discriminate Hj'; auto|]); lia). cbn. lia.
Defined.

(** separators that overlap: the last range starts behind the prompt of four tokens *)
Example overlapping_separators_drift :
  (segment_process_tokens number None [9; 9] database (Some [9; 9; 9; 1]) None None None false (None : option (list (str * str)))).1.*1
  = [(0, 0); (2, 2); (4, 5)]%nat.
Proof. vm_compute. reflexivity. Qed.
End TokenDemo.
