(* ===== verification/PagedAllocator.v ===== *)
(** * PagedAllocator: fixed-size pages behind reference-counted objects

    Models [PagedTensorMemoryAllocator] and [PagedAddressManager] of
    src/lmcache/v1/memory_allocators/paged_tensor_memory_allocator.py, and the
    methods of [TensorMemoryObj] (src/lmcache/v1/memory_management.py) that call
    back into the allocator.

    The allocator creates one memory object per page and recycles it, so the
    identity of an object is the index of its page. Methods are in [py_state]:
    what was changed before an exception stays changed. [pg_finalized] is the
    interpreter's mark on objects whose [__del__] has run, which it runs once. *)

From S2P Require Import Prelude PyDict PyState AddressManager AddressSpace TensorAllocator.
Local Open Scope Z_scope.

Section paged_allocator.
Context {dtype : Type} (itemsize : dtype → Z).

Record PagedTensorMemoryAllocator := mkPaged {
  pa_buffer_size : Z;
  pa_shapes : list Size;
  pa_dtypes : list dtype;
  pa_fmt : MemoryFormat;
  pa_align_bytes : Z;
  pa_paged_buffers : list (Z * Z);
  pa_free_blocks : list nat;
  pa_num_active_allocations : Z;
  pa_total_allocated_size : Z }.

Record PagedWorld := mkPagedWorld {
  pg_alloc : PagedTensorMemoryAllocator;
  pg_objs : list (TensorMemoryObj dtype);
  pg_pins : list (nat * Z);
  pg_stats : StatsMonitor;
  pg_finalized : list nat }.

(** [self._allocator] is the allocator itself. *)
Definition get_heap_size (a : PagedTensorMemoryAllocator) : Z := pa_buffer_size a.
Definition get_free_size (a : PagedTensorMemoryAllocator) : Z :=
  Z.of_nat (length (pa_free_blocks a)) * pa_align_bytes a.

(** ** Updates of one field *)

Definition with_free_blocks (l : list nat) (w : PagedWorld) : PagedWorld :=
  let a := pg_alloc w in
  {| pg_alloc := {| pa_buffer_size := pa_buffer_size a; pa_shapes := pa_shapes a; pa_dtypes := pa_dtypes a;
                    pa_fmt := pa_fmt a; pa_align_bytes := pa_align_bytes a;
                    pa_paged_buffers := pa_paged_buffers a; pa_free_blocks := l;
                    pa_num_active_allocations := pa_num_active_allocations a;
                    pa_total_allocated_size := pa_total_allocated_size a |};
     pg_objs := pg_objs w; pg_pins := pg_pins w; pg_stats := pg_stats w; pg_finalized := pg_finalized w |}.

Definition with_counters (active total : Z) (w : PagedWorld) : PagedWorld :=
  let a := pg_alloc w in
  {| pg_alloc := {| pa_buffer_size := pa_buffer_size a; pa_shapes := pa_shapes a; pa_dtypes := pa_dtypes a;
                    pa_fmt := pa_fmt a; pa_align_bytes := pa_align_bytes a;
                    pa_paged_buffers := pa_paged_buffers a; pa_free_blocks := pa_free_blocks a;
                    pa_num_active_allocations := active; pa_total_allocated_size := total |};
     pg_objs := pg_objs w; pg_pins := pg_pins w; pg_stats := pg_stats w; pg_finalized := pg_finalized w |}.

Definition update_obj (i : nat) (f : TensorMemoryObj dtype → TensorMemoryObj dtype) (w : PagedWorld) : PagedWorld :=
  {| pg_alloc := pg_alloc w; pg_objs := alter f i (pg_objs w); pg_pins := pg_pins w; pg_stats := pg_stats w;
     pg_finalized := pg_finalized w |}.

Definition with_pins (pins : list (nat * Z)) (w : PagedWorld) : PagedWorld :=
  {| pg_alloc := pg_alloc w; pg_objs := pg_objs w; pg_pins := pins; pg_stats := pg_stats w;
     pg_finalized := pg_finalized w |}.

Definition with_stats (s : StatsMonitor) (w : PagedWorld) : PagedWorld :=
  {| pg_alloc := pg_alloc w; pg_objs := pg_objs w; pg_pins := pg_pins w; pg_stats := s;
     pg_finalized := pg_finalized w |}.

Definition finalize (i : nat) (w : PagedWorld) : PagedWorld :=
  {| pg_alloc := pg_alloc w; pg_objs := pg_objs w; pg_pins := pg_pins w; pg_stats := pg_stats w;
     pg_finalized := i :: pg_finalized w |}.

(** [update_local_cache_usage] and [update_active_memory_objs_count] *)
Definition update_stats (w : PagedWorld) : PagedWorld :=
  with_stats
    {| sm_local_cache_usage_bytes := pa_total_allocated_size (pg_alloc w);
       sm_active_memory_objs_count := pa_num_active_allocations (pg_alloc w);
       sm_pinned_memory_objs_count := sm_pinned_memory_objs_count (pg_stats w);
       sm_forced_unpin_count := sm_forced_unpin_count (pg_stats w) |} w.

Definition update_pinned_memory_objs_count (delta : Z) (w : PagedWorld) : PagedWorld :=
  with_stats
    {| sm_local_cache_usage_bytes := sm_local_cache_usage_bytes (pg_stats w);
       sm_active_memory_objs_count := sm_active_memory_objs_count (pg_stats w);
       sm_pinned_memory_objs_count := sm_pinned_memory_objs_count (pg_stats w) + delta;
       sm_forced_unpin_count := sm_forced_unpin_count (pg_stats w) |} w.

(** ** Construction *)

(** [torch.split] into pages of [align_bytes], which divides the buffer. *)
Definition split_pages (buffer_size align_bytes : Z) : list (Z * Z) :=
  (λ i, (Z.of_nat i * align_bytes, align_bytes)) <$> seq 0 (Z.to_nat (buffer_size / align_bytes)).

Definition new_page (shapes : list Size) (dtypes : list dtype) (fmt : MemoryFormat) (align_bytes : Z)
    (idx : nat) (buf : Z * Z) : result (TensorMemoryObj dtype) :=
  (metadata <-? new_metadata shapes dtypes (Z.of_nat idx) align_bytes fmt;
   tmo_init itemsize buf metadata true)%py.

Fixpoint new_pages (shapes : list Size) (dtypes : list dtype) (fmt : MemoryFormat) (align_bytes : Z)
    (idx : nat) (bufs : list (Z * Z)) : result (list (TensorMemoryObj dtype)) :=
  match bufs with
  | [] => Ok []
  | buf :: bufs =>
      (o <-? new_page shapes dtypes fmt align_bytes idx buf;
       rest <-? new_pages shapes dtypes fmt align_bytes (S idx) bufs;
       Ok (o :: rest))%py
  end.

(** [__init__] over a buffer of [buffer_size > 0] bytes and a fresh monitor *)
Definition paged_init (buffer_size : Z) (shapes : list Size) (dtypes : list dtype) (fmt : MemoryFormat)
  : result PagedWorld :=
  (align_bytes <-? get_size_bytes itemsize shapes dtypes;
   guard (negb (align_bytes =? 0)) else ZeroDivisionError;
   guard (buffer_size mod align_bytes =? 0) else AssertionError;
   let paged_buffers := split_pages buffer_size align_bytes in
   objs <-? new_pages shapes dtypes fmt align_bytes 0 paged_buffers;
   Ok {| pg_alloc := {| pa_buffer_size := buffer_size; pa_shapes := shapes; pa_dtypes := dtypes; pa_fmt := fmt;
                        pa_align_bytes := align_bytes; pa_paged_buffers := paged_buffers;
                        pa_free_blocks := seq 0 (length paged_buffers);
                        pa_num_active_allocations := 0; pa_total_allocated_size := 0 |};
         pg_objs := objs; pg_pins := [];
         pg_stats := {| sm_local_cache_usage_bytes := 0; sm_active_memory_objs_count := 0;
                        sm_pinned_memory_objs_count := 0; sm_forced_unpin_count := 0 |};
         pg_finalized := [] |})%py.

(** ** Allocation *)

(** [self.free_blocks.popleft()], [None] for its [IndexError] *)
Definition popleft : py_state PagedWorld (option nat) := λ w,
  match pa_free_blocks (pg_alloc w) with
  | [] => (Ok None, w)
  | i :: rest => (Ok (Some i), with_free_blocks rest w)
  end.

(** [raw_data[:n]] *)
Definition slice_to (raw_data : Z * Z) (n : Z) : Z * Z :=
  (fst raw_data, if n <? 0 then Z.max 0 (snd raw_data + n) else Z.min n (snd raw_data)).

(** The metadata of a recycled object; [group_prefix_sum] is not recomputed. *)
Definition recycle (s : Size) (d : dtype) (shapes : list Size) (dtypes : list dtype) (fmt : MemoryFormat)
    (o : TensorMemoryObj dtype) : TensorMemoryObj dtype :=
  {| to_raw_data := to_raw_data o;
     to_meta := {| md_shape := s; md_dtype := Some d;
                   md_address := md_address (to_meta o); md_phy_size := md_phy_size (to_meta o);
                   md_ref_count := 1; md_pin_count := md_pin_count (to_meta o); md_fmt := fmt;
                   md_shapes := Some shapes; md_dtypes := Some dtypes |};
     to_valid := to_valid o; to_has_parent := to_has_parent o; to_used_size_override := None;
     to_group_prefix_sum := to_group_prefix_sum o |}.

Definition set_raw_data (r : Z * Z) (o : TensorMemoryObj dtype) : TensorMemoryObj dtype :=
  {| to_raw_data := r; to_meta := to_meta o; to_valid := to_valid o; to_has_parent := to_has_parent o;
     to_used_size_override := to_used_size_override o; to_group_prefix_sum := to_group_prefix_sum o |}.

Definition truncate (n : Z) (o : TensorMemoryObj dtype) : TensorMemoryObj dtype :=
  set_raw_data (slice_to (to_raw_data o) n) o.

Definition renew_block (i : nat) (shapes : list Size) (dtypes : list dtype) (fmt : MemoryFormat)
  : py_state PagedWorld unit :=
  match shapes, dtypes with
  | s :: _, d :: _ =>
      _ ← modify (update_obj i (recycle s d shapes dtypes fmt));
      self_shapes ← gets (λ w, pa_shapes (pg_alloc w));
      when (negb (bool_decide (shapes = self_shapes)))
        (size_in_bytes ← lift (get_size_bytes itemsize shapes dtypes);
         modify (update_obj i (truncate size_in_bytes)))
  | _, _ => lift (Raise IndexError)
  end.

Definition allocate (shapes : Size + list Size) (dtypes : dtype + list dtype) (fmt : MemoryFormat)
  : py_state PagedWorld (option nat) :=
  adapted ← lift (_adapt_shapes_and_dtypes shapes dtypes);
  free_block ← popleft;
  match free_block with
  | None => mret None
  | Some i =>
      _ ← renew_block i (fst adapted) (snd adapted) fmt;
      _ ← modify (λ w, with_counters (pa_num_active_allocations (pg_alloc w) + 1)
                         (pa_total_allocated_size (pg_alloc w) + pa_align_bytes (pg_alloc w)) w);
      _ ← modify update_stats;
      mret (Some i)
  end.

(** ** Release *)

Definition give_back (i : nat) (o : TensorMemoryObj dtype) : py_state PagedWorld unit :=
  self_shapes ← gets (λ w, pa_shapes (pg_alloc w));
  _ ← when (negb (bool_decide (md_shapes (to_meta o) = Some self_shapes)))
        (buffers ← gets (λ w, pa_paged_buffers (pg_alloc w));
         buf ← lift (match buffers !! Z.to_nat (address o) with Some b => Ok b | None => Raise IndexError end);
         modify (update_obj i (set_raw_data buf)));
  modify (λ w, with_free_blocks (pa_free_blocks (pg_alloc w) ++ [i]) w).

(** [free] of the object of page [i]; another index denotes no object. *)
Definition free (i : nat) : py_state PagedWorld unit :=
  obj ← gets (λ w, pg_objs w !! i);
  match obj with
  | None => mret tt
  | Some o =>
      when (to_valid o)
        (_ ← give_back i o;
         _ ← modify (λ w, with_counters (pa_num_active_allocations (pg_alloc w) - 1)
                            (pa_total_allocated_size (pg_alloc w) - pa_align_bytes (pg_alloc w)) w);
         modify update_stats)
  end.

Definition free_in_batch (i : nat) : py_state PagedWorld unit :=
  obj ← gets (λ w, pg_objs w !! i);
  match obj with
  | None => mret tt
  | Some o => when (to_valid o) (give_back i o)
  end.

Definition batched_free (memory_objs : list nat) (upd : bool) : py_state PagedWorld unit :=
  when (nonempty memory_objs)
    (_ ← for_each free_in_batch memory_objs;
     when upd
       (let num_freed_blocks := Z.of_nat (length memory_objs) in
        _ ← modify (λ w, with_counters (pa_num_active_allocations (pg_alloc w) - num_freed_blocks)
                           (pa_total_allocated_size (pg_alloc w)
                            - pa_align_bytes (pg_alloc w) * num_freed_blocks) w);
        modify update_stats)).

Fixpoint take_blocks (n : nat) (shapes : list Size) (dtypes : list dtype) (fmt : MemoryFormat)
    (allocated_blocks : list nat) : py_state PagedWorld (option (list nat)) :=
  match n with
  | O => mret (Some allocated_blocks)
  | S n =>
      free_block ← popleft;
      match free_block with
      | None => _ ← batched_free allocated_blocks false; mret None
      | Some i =>
          _ ← renew_block i shapes dtypes fmt;
          take_blocks n shapes dtypes fmt (allocated_blocks ++ [i])
      end
  end.

Definition batched_allocate (shapes : Size + list Size) (dtypes : dtype + list dtype) (batch_size : Z)
    (fmt : MemoryFormat) : py_state PagedWorld (option (list nat)) :=
  adapted ← lift (_adapt_shapes_and_dtypes shapes dtypes);
  blocks ← take_blocks (Z.to_nat batch_size) (fst adapted) (snd adapted) fmt [];
  match blocks with
  | None => mret None
  | Some allocated_blocks =>
      _ ← modify (λ w, let active := pa_num_active_allocations (pg_alloc w) + batch_size in
                       with_counters active (active * pa_align_bytes (pg_alloc w)) w);
      _ ← modify update_stats;
      mret (Some allocated_blocks)
  end.

Definition memcheck (a : PagedTensorMemoryAllocator) : bool :=
  let total_free_size := Z.of_nat (length (pa_free_blocks a)) * pa_align_bytes a in
  total_free_size + pa_total_allocated_size a =? pa_buffer_size a.

(** ** The methods of an object whose parent is this allocator *)

Definition ref_count_up (i : nat) : py_state PagedWorld unit :=
  modify (update_obj i (λ o, set_ref_count (ref_count o + 1) o)).

Definition ref_count_down (i : nat) : py_state PagedWorld unit :=
  _ ← modify (update_obj i (λ o, let n := ref_count o - 1 in set_ref_count (if n <? 0 then 0 else n) o));
  obj ← gets (λ w, pg_objs w !! i);
  match obj with
  | None => mret tt
  | Some o => when ((ref_count o =? 0) && to_has_parent o && (pin_count o =? 0)) (free i)
  end.

Definition pin (i : nat) (now : Z) : py_state PagedWorld unit :=
  obj ← gets (λ w, pg_objs w !! i);
  match obj with
  | None => mret tt
  | Some o =>
      _ ← when (pin_count o =? 0) (modify (update_pinned_memory_objs_count 1));
      _ ← modify (update_obj i (set_pin_count (pin_count o + 1)));
      modify (λ w, with_pins (dset (pg_pins w) i now) w)
  end.

Definition on_unpin (i : nat) (w : PagedWorld) : PagedWorld :=
  if dmem (pg_pins w) i then with_pins (ddel (pg_pins w) i) w else w.

Definition unpin (i : nat) : py_state PagedWorld unit :=
  obj ← gets (λ w, pg_objs w !! i);
  match obj with
  | None => mret tt
  | Some o =>
      let n := pin_count o - 1 in
      _ ← modify (update_obj i (set_pin_count n));
      _ ← when (n =? 0)
            (_ ← modify (update_pinned_memory_objs_count (-1)); modify (on_unpin i));
      _ ← when ((n <=? 0) && (ref_count o <=? 0) && to_has_parent o) (free i);
      when (n <? 0) (modify (update_obj i (set_pin_count 0)))
  end.

(** The last reference to the object is dropped: the interpreter calls
    [__del__] unless it has done so before. *)
Definition del (i : nat) : py_state PagedWorld unit :=
  done ← gets (λ w, bool_decide (i ∈ pg_finalized w));
  when (negb done)
    (_ ← modify (finalize i);
     obj ← gets (λ w, pg_objs w !! i);
     match obj with
     | None => mret tt
     | Some o => when (to_has_parent o && to_valid o) (free i)
     end).

Definition set_used_size (i : nat) (n : Z) : py_state PagedWorld unit :=
  obj ← gets (λ w, pg_objs w !! i);
  match obj with
  | None => mret tt
  | Some o => o' ← lift (TensorAllocator.set_used_size o n); modify (update_obj i (λ _, o'))
  end.
End paged_allocator.

Arguments PagedTensorMemoryAllocator : clear implicits.
Arguments PagedWorld : clear implicits.
