(* ===== verification/PagedAllocatorProofs.v ===== *)
(** * PagedAllocatorProofs: what the paged allocator's steps do to its pages

    A step of the allocator takes a page off the free list ([take_page]), puts one
    back ([put_back]) or updates the counters ([account]); every method is a
    composition of these, and [paged_inv] is kept by each. *)

From S2P Require Import Prelude PyDict PyState AddressManager AddressSpace TensorAllocator PagedAllocator.
Local Open Scope Z_scope.

Section proofs.
Context {dtype : Type} (itemsize : dtype → Z).
Implicit Types (w : PagedWorld dtype) (o : TensorMemoryObj dtype).

Definition page (align_bytes : Z) (i : nat) : Z * Z := (Z.of_nat i * align_bytes, align_bytes).

Record page_ok (align_bytes : Z) (shapes : list Size) (i : nat) o : Prop := {
  po_address : address o = Z.of_nat i;
  po_phy : phy_size o = align_bytes;
  po_valid : to_valid o = true;
  po_parent : to_has_parent o = true;
  po_raw_start : fst (to_raw_data o) = fst (page align_bytes i);
  po_raw_length : 0 <= snd (to_raw_data o) <= align_bytes;
  po_whole : md_shapes (to_meta o) = Some shapes → to_raw_data o = page align_bytes i;
  po_size : List.last (to_group_prefix_sum o) 0 = align_bytes;
  po_used : ∀ n, to_used_size_override o = Some n → 0 <= n <= align_bytes;
  po_ref : 0 <= ref_count o;
  po_pin : 0 <= pin_count o }.

Definition free_pages w : list nat := pa_free_blocks (pg_alloc w).
Definition in_use w (i : nat) : Prop := (i < length (pg_objs w))%nat ∧ i ∉ free_pages w.
Definition referenced o : Prop := 0 < ref_count o ∨ 0 < pin_count o.

(** [p] pages have been taken and are not counted yet, and the object of page [x]
    may have lost its last reference. *)
Record paged_inv (p : Z) (x : option nat) w : Prop := {
  pi_align : 0 < pa_align_bytes (pg_alloc w);
  pi_buffers : pa_paged_buffers (pg_alloc w) = page (pa_align_bytes (pg_alloc w)) <$> seq 0 (length (pg_objs w));
  pi_size : pa_buffer_size (pg_alloc w) = Z.of_nat (length (pg_objs w)) * pa_align_bytes (pg_alloc w);
  pi_pages : ∀ i o, pg_objs w !! i = Some o → page_ok (pa_align_bytes (pg_alloc w)) (pa_shapes (pg_alloc w)) i o;
  pi_free_nodup : NoDup (free_pages w);
  pi_free_bound : ∀ i, i ∈ free_pages w → (i < length (pg_objs w))%nat;
  pi_free_whole : ∀ i o, i ∈ free_pages w → pg_objs w !! i = Some o → to_raw_data o = page (pa_align_bytes (pg_alloc w)) i;
  pi_referenced : ∀ i o, pg_objs w !! i = Some o → i ∉ free_pages w → x ≠ Some i → referenced o;
  pi_active : pa_num_active_allocations (pg_alloc w) + p
              = Z.of_nat (length (pg_objs w)) - Z.of_nat (length (free_pages w));
  pi_total : pa_total_allocated_size (pg_alloc w)
             = pa_num_active_allocations (pg_alloc w) * pa_align_bytes (pg_alloc w);
  pi_usage : sm_local_cache_usage_bytes (pg_stats w) = pa_total_allocated_size (pg_alloc w);
  pi_count : sm_active_memory_objs_count (pg_stats w) = pa_num_active_allocations (pg_alloc w) }.

(** ** The three elementary steps *)

Definition account (k : Z) w : PagedWorld dtype :=
  update_stats (with_counters (pa_num_active_allocations (pg_alloc w) + k)
                  (pa_total_allocated_size (pg_alloc w) + k * pa_align_bytes (pg_alloc w)) w).

Definition put_back w (i : nat) : PagedWorld dtype :=
  with_free_blocks (free_pages w ++ [i]) (update_obj i (set_raw_data (page (pa_align_bytes (pg_alloc w)) i)) w).

Definition renewed (self_shapes : list Size) (s : Size) (d : dtype) (shapes : list Size)
    (dtypes : list dtype) (fmt : MemoryFormat) o : TensorMemoryObj dtype :=
  let o := recycle s d shapes dtypes fmt o in
  if bool_decide (shapes = self_shapes) then o else truncate (sum_group_sizes itemsize shapes dtypes) o.

Definition take_page (s : Size) (d : dtype) (shapes : list Size) (dtypes : list dtype) (fmt : MemoryFormat)
    w : PagedWorld dtype :=
  match free_pages w with
  | [] => w
  | i :: rest => update_obj i (renewed (pa_shapes (pg_alloc w)) s d shapes dtypes fmt) (with_free_blocks rest w)
  end.

Lemma account_account j k w : account j (account k w) = account (k + j) w.
Proof. unfold account, update_stats, with_counters, with_stats. cbn. f_equal; f_equal; lia. Qed.

Lemma account_0 p x w : paged_inv p x w → account 0 w = w.
Proof.
  intros H. pose proof (pi_usage _ _ _ H). pose proof (pi_count _ _ _ H).
  destruct w as [[] ? ? [] ?]. unfold account, update_stats, with_counters, with_stats. cbn in *. subst.
  f_equal; f_equal; lia.
Qed.

Lemma account_put_back k w i : put_back (account k w) i = account k (put_back w i).
Proof. done. Qed.

Lemma account_take_page k s d shapes dtypes fmt w :
  take_page s d shapes dtypes fmt (account k w) = account k (take_page s d shapes dtypes fmt w).
Proof. unfold take_page, free_pages. cbn. by destruct (pa_free_blocks (pg_alloc w)). Qed.

(** ** The methods as compositions of the steps *)

Lemma update_obj_compose i f g w : update_obj i f (update_obj i g w) = update_obj i (f ∘ g) w.
Proof. unfold update_obj. cbn. by rewrite list_alter_compose'. Qed.

Lemma update_obj_id i f w : (∀ o, pg_objs w !! i = Some o → f o = o) → update_obj i f w = w.
Proof.
  intros H. destruct w as [a objs pins st fin]. unfold update_obj. cbn in *. f_equal.
  rewrite <- (list_alter_id id objs i) at 2 by done. by apply list_alter_ext.
Qed.

Lemma renew_block_run i s d shapes dtypes fmt w :
  length shapes = length dtypes →
  renew_block itemsize i (s :: shapes) (d :: dtypes) fmt w
  = (Ok tt, update_obj i (renewed (pa_shapes (pg_alloc w)) s d (s :: shapes) (d :: dtypes) fmt) w).
Proof.
  intros Hl. unfold renew_block, renewed, mbind, py_bind, modify, gets. cbn [pg_alloc update_obj].
  destruct (bool_decide (s :: shapes = pa_shapes (pg_alloc w))); [done|]. cbn [negb when].
  unfold get_size_bytes. cbn. rewrite Hl, Nat.eqb_refl. cbn. by rewrite update_obj_compose.
Qed.

Definition request_ok (shapes : Size + list Size) (dtypes : dtype + list dtype) (s : Size) (d : dtype)
    (ss : list Size) (ds : list dtype) : Prop :=
  _adapt_shapes_and_dtypes shapes dtypes = Ok (s :: ss, d :: ds).

Lemma request_ok_length shapes dtypes s d ss ds : request_ok shapes dtypes s d ss ds → length ss = length ds.
Proof.
  unfold request_ok, _adapt_shapes_and_dtypes. cbv zeta. destruct (Nat.eqb _ _) eqn:E; [|done].
  intros [= H1 H2]. rewrite H1, H2 in E. apply Nat.eqb_eq in E. cbn in E. lia.
Qed.

Lemma allocate_run shapes dtypes fmt w s d ss ds :
  request_ok shapes dtypes s d ss ds →
  allocate itemsize shapes dtypes fmt w
  = match free_pages w with
    | [] => (Ok None, w)
    | i :: _ => (Ok (Some i), account 1 (take_page s d (s :: ss) (d :: ds) fmt w))
    end.
Proof.
  intros Hr. unfold allocate, take_page, account, popleft, free_pages.
  rewrite (bind_ok _ _ w w (s :: ss, d :: ds)) by (unfold lift; by rewrite Hr).
  unfold mbind, py_bind. destruct (pa_free_blocks (pg_alloc w)) as [|i rest]; [done|]. cbn [fst snd].
  rewrite renew_block_run by (by eapply request_ok_length). cbn. by rewrite Z.mul_1_l.
Qed.

Lemma give_back_run p x i o w :
  paged_inv p x w → pg_objs w !! i = Some o → give_back i o w = (Ok tt, put_back w i).
Proof.
  intros H Ho. pose proof (pi_pages _ _ _ H _ _ Ho) as Hp. unfold give_back, put_back.
  unfold mbind, py_bind, gets. cbn [fst snd]. unfold when. destruct (bool_decide _) eqn:E; cbn.
  - apply bool_decide_eq_true in E. rewrite update_obj_id; [done|]. intros o' Ho'. simplify_eq.
    rewrite <- (po_whole _ _ _ _ Hp E). by destruct o.
  - rewrite (pi_buffers _ _ _ H), (po_address _ _ _ _ Hp), Nat2Z.id, list_lookup_fmap, lookup_seq_lt
      by (by eapply lookup_lt_Some). done.
Qed.

Lemma free_run p x i w :
  paged_inv p x w → (i < length (pg_objs w))%nat → free i w = (Ok tt, account (-1) (put_back w i)).
Proof.
  intros H [o Ho]%lookup_lt_is_Some. unfold free. unfold mbind, py_bind, gets. rewrite Ho.
  rewrite (po_valid _ _ _ _ (pi_pages _ _ _ H _ _ Ho)). cbn [when].
  by rewrite (give_back_run p x) by done.
Qed.

Lemma free_in_batch_run p x i w :
  paged_inv p x w → (i < length (pg_objs w))%nat → free_in_batch i w = (Ok tt, put_back w i).
Proof.
  intros H [o Ho]%lookup_lt_is_Some. unfold free_in_batch. unfold mbind, py_bind, gets. rewrite Ho.
  rewrite (po_valid _ _ _ _ (pi_pages _ _ _ H _ _ Ho)). cbn [when]. by rewrite (give_back_run p x).
Qed.

(** ** The invariant is kept *)

Local Ltac inv_fields :=
  constructor; unfold free_pages in *; cbn in *; unfold free_pages in *; cbn in *; rewrite ?length_alter; try done.

Lemma lookup_update i j f w o :
  pg_objs (update_obj i f w) !! j = Some o →
  (i = j ∧ ∃ o0, pg_objs w !! j = Some o0 ∧ o = f o0) ∨ (i ≠ j ∧ pg_objs w !! j = Some o).
Proof.
  unfold update_obj. cbn [pg_objs]. rewrite list_lookup_alter. case_decide; [|by right]. intros (o0 & Ho0 & ->)%fmap_Some.
  subst j. left. eauto.
Qed.

Lemma account_inv p x k w : paged_inv p x w → paged_inv (p - k) x (account k w).
Proof.
  intros []. constructor; cbn in *; try done; unfold free_pages in *; cbn in *; nia.
Qed.

Lemma put_back_inv p x w i :
  paged_inv p x w → in_use w i → (∀ j, x = Some j → j = i) → paged_inv (p - 1) None (put_back w i).
Proof.
  intros H [Hi Hn] Hx. destruct H. inv_fields.
  - intros j o Ho. apply (lookup_update i) in Ho as [(-> & o0 & Ho & ->)|[_ Ho]]; [|by apply pi_pages0].
    destruct (pi_pages0 _ _ Ho). constructor; cbn; try done. lia.
  - apply NoDup_app. split_and!; [done| |apply NoDup_singleton]. set_solver.
  - intros j [Hj|Hj]%elem_of_app; [by apply pi_free_bound0|]. set_solver.
  - intros j o Hj Ho. apply (lookup_update i) in Ho as [(-> & o0 & Ho & ->)|[Hne Ho]]; [done|].
    apply pi_free_whole0; [|done]. set_solver.
  - intros j o Ho Hj _. apply (lookup_update i) in Ho as [(-> & _)|[Hne Ho]]; [set_solver|].
    eapply pi_referenced0; [done|set_solver|]. intros E. by apply Hne, eq_sym, Hx.
  - rewrite length_app. cbn. lia.
Qed.

Lemma slice_to_bounds r n : 0 <= snd r → 0 <= snd (slice_to r n) <= snd r.
Proof. intros Hr. unfold slice_to. cbn. destruct (Z.ltb_spec n 0); lia. Qed.

Lemma renewed_ok n ss i s d shapes dtypes fmt o :
  page_ok n ss i o → to_raw_data o = page n i → page_ok n ss i (renewed ss s d shapes dtypes fmt o).
Proof.
  intros [] Hw. unfold renewed. destruct (bool_decide _) eqn:E; constructor; cbn in *; try done; try lia.
  - pose proof (slice_to_bounds (page n i) (sum_group_sizes itemsize shapes dtypes)). rewrite Hw in *. cbn in *. lia.
  - apply bool_decide_eq_false in E. congruence.
Qed.

Lemma renewed_referenced ss s d shapes dtypes fmt o : referenced (renewed ss s d shapes dtypes fmt o).
Proof. left. unfold renewed. by destruct (bool_decide _). Qed.

Lemma take_page_inv p x s d shapes dtypes fmt w :
  paged_inv p x w → free_pages w ≠ [] → paged_inv (p + 1) x (take_page s d shapes dtypes fmt w).
Proof.
  intros [] Hne. unfold take_page, free_pages in *. destruct (pa_free_blocks (pg_alloc w)) as [|i rest] eqn:Ef; [done|].
  apply NoDup_cons in pi_free_nodup0 as [Hi Hnd].
  inv_fields.
  - intros j o Ho. apply (lookup_update i) in Ho as [(-> & o0 & Ho & ->)|[_ Ho]]; [|by apply pi_pages0].
    apply renewed_ok; [by apply pi_pages0|]. apply pi_free_whole0; [by left|done].
  - intros j Hj. apply pi_free_bound0. by right.
  - intros j o Hj Ho. apply (lookup_update i) in Ho as [(-> & _)|[_ Ho]]; [done|].
    apply pi_free_whole0; [by right|done].
  - intros j o Ho Hj Hxj. apply (lookup_update i) in Ho as [(-> & o0 & _ & ->)|[Hij Ho]]; [apply renewed_referenced|].
    eapply pi_referenced0; [done|set_solver|done].
  - lia.
Qed.

(** Any other change of one object in use. *)
Lemma update_obj_inv p x i f w :
  paged_inv p None w → in_use w i →
  (∀ o, pg_objs w !! i = Some o → page_ok (pa_align_bytes (pg_alloc w)) (pa_shapes (pg_alloc w)) i o →
        page_ok (pa_align_bytes (pg_alloc w)) (pa_shapes (pg_alloc w)) i (f o)
        ∧ (x ≠ Some i → referenced o → referenced (f o))) →
  paged_inv p x (update_obj i f w).
Proof.
  intros [] [Hi Hn] Hf. inv_fields.
  - intros j o Ho. apply (lookup_update i) in Ho as [(-> & o0 & Ho & ->)|[_ Ho]]; [|by apply pi_pages0].
    apply Hf; eauto.
  - intros j o Hj Ho. apply (lookup_update i) in Ho as [(-> & _)|[_ Ho]]; [done|]. eauto.
  - intros j o Ho Hj Hx. apply (lookup_update i) in Ho as [(-> & o0 & Ho & ->)|[_ Ho]]; [|eauto].
    apply Hf; eauto.
Qed.

Lemma in_use_update i j f w : in_use (update_obj i f w) j ↔ in_use w j.
Proof. unfold in_use, free_pages. cbn. by rewrite length_alter. Qed.

(** ** Batches *)

Lemma in_use_put_back w i j : in_use (put_back w i) j ↔ in_use w j ∧ j ≠ i.
Proof. unfold in_use, put_back, free_pages. cbn. rewrite length_alter. set_solver. Qed.

Lemma put_all_run p ids w :
  paged_inv p None w → NoDup ids → Forall (in_use w) ids →
  for_each free_in_batch ids w = (Ok tt, foldl put_back w ids)
  ∧ paged_inv (p - Z.of_nat (length ids)) None (foldl put_back w ids).
Proof.
  induction ids as [|i ids IH] in p, w |- *; intros H Hnd Hu; cbn [for_each foldl length].
  - split; [done|]. by rewrite Z.sub_0_r.
  - apply NoDup_cons in Hnd as [Hi Hnd]. apply Forall_cons in Hu as [[Hl Hf] Hu].
    rewrite (bind_ok _ _ _ (put_back w i) tt) by (by apply (free_in_batch_run p None)).
    replace (p - Z.of_nat (S (length ids))) with (p - 1 - Z.of_nat (length ids)) by lia.
    apply IH; [by eapply put_back_inv|done|]. rewrite Forall_forall in Hu |- *. intros j Hj.
    apply in_use_put_back. split; [by apply Hu|set_solver].
Qed.

Lemma batched_free_run p ids w (upd : bool) :
  paged_inv p None w → NoDup ids → Forall (in_use w) ids →
  batched_free ids upd w
  = (Ok tt, if upd then account (- Z.of_nat (length ids)) (foldl put_back w ids) else foldl put_back w ids).
Proof.
  intros H Hnd Hu. destruct (put_all_run p ids w H Hnd Hu) as [E H']. destruct ids as [|i ids].
  - cbn. destruct upd; [|done]. by rewrite (account_0 p None).
  - unfold batched_free. cbn [nonempty when]. rewrite (bind_ok _ _ _ _ _ E). destruct upd; [|done].
    unfold mbind, py_bind, modify, account. cbn [when]. f_equal. f_equal. f_equal; lia.
Qed.

Section request.
Context (s : Size) (d : dtype) (ss : list Size) (ds : list dtype) (fmt : MemoryFormat).
Context (same_length : length ss = length ds).

Fixpoint take_pages (n : nat) w : PagedWorld dtype :=
  match n with
  | O => w
  | S n => take_pages n (take_page s d (s :: ss) (d :: ds) fmt w)
  end.

Lemma free_take_page w : free_pages (take_page s d (s :: ss) (d :: ds) fmt w) = tail (free_pages w).
Proof. unfold take_page, free_pages. by destruct (pa_free_blocks (pg_alloc w)) eqn:E. Qed.

Lemma objs_take_page w : length (pg_objs (take_page s d (s :: ss) (d :: ds) fmt w)) = length (pg_objs w).
Proof. unfold take_page. destruct (free_pages w); [done|]. cbn. by rewrite length_alter. Qed.

Lemma take_pages_inv p n w :
  paged_inv p None w → (n <= length (free_pages w))%nat →
  paged_inv (p + Z.of_nat n) None (take_pages n w) ∧ free_pages (take_pages n w) = drop n (free_pages w)
  ∧ length (pg_objs (take_pages n w)) = length (pg_objs w).
Proof.
  induction n as [|n IH] in p, w |- *; intros H Hn; cbn [take_pages].
  - by rewrite Z.add_0_r.
  - destruct (free_pages w) as [|i rest] eqn:E; cbn in Hn; [lia|].
    destruct (IH (p + 1) (take_page s d (s :: ss) (d :: ds) fmt w)) as (H1 & H2 & H3).
    + apply take_page_inv; [done|]. by rewrite E.
    + rewrite free_take_page, E. cbn. lia.
    + split_and!; [by replace (p + Z.of_nat (S n)) with (p + 1 + Z.of_nat n) by lia| |].
      * by rewrite H2, free_take_page, E.
      * by rewrite H3, objs_take_page.
Qed.

Lemma take_blocks_run n acc w :
  take_blocks itemsize n (s :: ss) (d :: ds) fmt acc w
  = if (n <=? length (free_pages w))%nat
    then (Ok (Some (acc ++ take n (free_pages w))), take_pages n w)
    else (_ ← batched_free (acc ++ free_pages w) false; mret None) (take_pages (length (free_pages w)) w).
Proof.
  induction n as [|n IH] in acc, w |- *; cbn [take_blocks]; [by rewrite app_nil_r|].
  unfold mbind at 1, py_bind at 1, popleft. fold (free_pages w). destruct (free_pages w) as [|i rest] eqn:E.
  - cbn [length Nat.leb take_pages]. by rewrite app_nil_r.
  - unfold mbind at 1, py_bind at 1. rewrite renew_block_run by done.
    assert (update_obj i (renewed (pa_shapes (pg_alloc (with_free_blocks rest w))) s d (s :: ss) (d :: ds) fmt)
              (with_free_blocks rest w) = take_page s d (s :: ss) (d :: ds) fmt w) as ->.
    { unfold take_page. by rewrite E. }
    rewrite IH, free_take_page, E. cbn [tail length Nat.leb take take_pages]. by rewrite <- !app_assoc.
Qed.

Lemma batched_allocate_run shapes dtypes k w :
  request_ok shapes dtypes s d ss ds → paged_inv 0 None w → 0 <= k <= Z.of_nat (length (free_pages w)) →
  batched_allocate itemsize shapes dtypes k fmt w
  = (Ok (Some (take (Z.to_nat k) (free_pages w))), account k (take_pages (Z.to_nat k) w)).
Proof.
  intros Hr H Hk. unfold batched_allocate.
  rewrite (bind_ok _ _ w w (s :: ss, d :: ds)) by (unfold lift; by rewrite Hr). cbn [fst snd].
  rewrite (bind_ok _ _ w (take_pages (Z.to_nat k) w) (Some (take (Z.to_nat k) (free_pages w)))).
  - destruct (take_pages_inv 0 (Z.to_nat k) w H) as (H' & _); [lia|]. unfold mbind, py_bind, modify, mret, py_ret, account.
    do 4 f_equal. rewrite (pi_total _ _ _ H'). lia.
  - rewrite take_blocks_run. by rewrite (proj2 (Nat.leb_le _ _)) by lia.
Qed.

Lemma batched_allocate_full shapes dtypes k w :
  request_ok shapes dtypes s d ss ds → paged_inv 0 None w → Z.of_nat (length (free_pages w)) < k →
  batched_allocate itemsize shapes dtypes k fmt w
  = (Ok None, foldl put_back (take_pages (length (free_pages w)) w) (free_pages w))
  ∧ paged_inv 0 None (foldl put_back (take_pages (length (free_pages w)) w) (free_pages w)).
Proof.
  intros Hr H Hk. destruct (take_pages_inv 0 (length (free_pages w)) w H) as (H' & Hf & Hl); [lia|].
  rewrite drop_all in Hf.
  assert (Forall (in_use (take_pages (length (free_pages w)) w)) (free_pages w)) as Hu.
  { apply Forall_forall. intros i Hi. split; [rewrite Hl; by apply (pi_free_bound _ _ _ H)|]. rewrite Hf. set_solver. }
  pose proof (pi_free_nodup _ _ _ H) as Hnd. split.
  - unfold batched_allocate.
    rewrite (bind_ok _ _ w w (s :: ss, d :: ds)) by (unfold lift; by rewrite Hr). cbn [fst snd].
    erewrite (bind_ok _ _ w _ None); [done|]. rewrite take_blocks_run.
    rewrite (proj2 (Nat.leb_gt _ _)) by lia. cbn [app]. by erewrite bind_ok; [|eapply batched_free_run].
  - replace 0 with (0 + Z.of_nat (length (free_pages w)) - Z.of_nat (length (free_pages w))) by lia.
    by apply put_all_run.
Qed.
End request.
End proofs.
