(* ===== verification/PagedTheorems.v ===== *)
(** * PagedTheorems: the paged allocator under a disciplined client

    A client is disciplined when it only releases, counts or collects pages that
    are off the free list. From [__init__] on, every such run keeps the pages
    partitioned into free and used ones and the counters exact; batches agree
    with single calls; a client that releases a page twice breaks this. *)

From S2P Require Import Prelude PyDict PyState AddressManager AddressSpace TensorAllocator.
From S2P Require Import PagedAllocator PagedAllocatorProofs.
Local Open Scope Z_scope.

Section theorems.
Context {dtype : Type} (itemsize : dtype → Z).
Implicit Types (w : PagedWorld dtype) (o : TensorMemoryObj dtype).

Definition paged_ok w : Prop := paged_inv 0 None w.

Inductive paged_op :=
| PAllocate (shapes : Size + list Size) (dtypes : dtype + list dtype) (fmt : MemoryFormat)
| PBatchedAllocate (shapes : Size + list Size) (dtypes : dtype + list dtype) (batch_size : Z) (fmt : MemoryFormat)
| PFree (i : nat)
| PBatchedFree (ids : list nat)
| PRefCountUp (i : nat)
| PRefCountDown (i : nat)
| PPin (i : nat) (now : Z)
| PUnpin (i : nat)
| PDel (i : nat)
| PSetUsedSize (i : nat) (n : Z).

Definition exec_paged (c : paged_op) : py_state (PagedWorld dtype) unit :=
  match c with
  | PAllocate shapes dtypes fmt => _ ← allocate itemsize shapes dtypes fmt; mret tt
  | PBatchedAllocate shapes dtypes k fmt => _ ← batched_allocate itemsize shapes dtypes k fmt; mret tt
  | PFree i => free i
  | PBatchedFree ids => batched_free ids true
  | PRefCountUp i => ref_count_up i
  | PRefCountDown i => ref_count_down i
  | PPin i now => pin i now
  | PUnpin i => unpin i
  | PDel i => del i
  | PSetUsedSize i n => set_used_size i n
  end.

Definition well_formed_request (shapes : Size + list Size) (dtypes : dtype + list dtype) : Prop :=
  ∃ s d ss ds, request_ok shapes dtypes s d ss ds.

(** What the holders of pages may call in the state [w]. *)
Definition allowed w (c : paged_op) : Prop :=
  match c with
  | PAllocate shapes dtypes _ => well_formed_request shapes dtypes
  | PBatchedAllocate shapes dtypes k _ => well_formed_request shapes dtypes ∧ 0 <= k
  | PBatchedFree ids => NoDup ids ∧ Forall (in_use w) ids
  | PFree i | PRefCountUp i | PRefCountDown i | PPin i _ | PUnpin i | PDel i => in_use w i
  | PSetUsedSize i n => in_use w i ∧ 0 <= n <= pa_align_bytes (pg_alloc w)
  end.

Definition paged_step w w' : Prop := ∃ c, allowed w c ∧ exec_paged c w = (Ok tt, w').

(** ** Every allowed call returns and keeps the invariant *)

Lemma with_pins_inv p x w l : paged_inv p x w → paged_inv p x (with_pins l w).
Proof. by intros []; constructor. Qed.

Lemma pinned_count_inv p x w k : paged_inv p x w → paged_inv p x (update_pinned_memory_objs_count k w).
Proof. by intros []; constructor. Qed.

Lemma finalize_inv p x w i : paged_inv p x w → paged_inv p x (finalize i w).
Proof. by intros []; constructor. Qed.

Lemma on_unpin_inv p x w i : paged_inv p x w → paged_inv p x (on_unpin i w).
Proof. unfold on_unpin. destruct (dmem _ _); [apply with_pins_inv|done]. Qed.

Definition returns_ok (m : py_state (PagedWorld dtype) unit) w : Prop := runs m w (λ _, paged_ok).

Lemma free_returns x w i :
  paged_inv 0 x w → in_use w i → (∀ j, x = Some j → j = i) →
  runs (free i) w (λ _ w', paged_ok w' ∧ i ∈ free_pages w').
Proof.
  intros H [Hi Hn] Hx. exists tt. eexists. split; [by eapply free_run|]. split.
  - apply (account_inv (0 - 1) None (-1)). by eapply put_back_inv.
  - change (i ∈ free_pages w ++ [i]). set_solver.
Qed.

Lemma in_use_lookup w i : in_use w i → ∃ o, pg_objs w !! i = Some o.
Proof. intros [Hi _]. by apply lookup_lt_is_Some. Qed.

Lemma ref_count_up_returns w i : paged_ok w → in_use w i → returns_ok (ref_count_up i) w.
Proof.
  intros H Hi. apply runs_modify, update_obj_inv; [done..|]. intros o _ Ho. split.
  - destruct Ho. constructor; cbn; try done. unfold ref_count in *. cbn. lia.
  - intros _ _. left. pose proof (po_ref _ _ _ _ Ho). unfold ref_count in *. cbn. lia.
Qed.

Lemma lookup_updated i f w o : pg_objs w !! i = Some o → pg_objs (update_obj i f w) !! i = Some (f o).
Proof. intros Ho. cbn. by rewrite list_lookup_alter, decide_True, Ho by done. Qed.

(** The page goes back exactly with its last reference, and not while it is pinned. *)
Lemma ref_count_down_returns w i o :
  paged_ok w → in_use w i → pg_objs w !! i = Some o →
  runs (ref_count_down i) w (λ _ w', paged_ok w' ∧ (i ∈ free_pages w' ↔ ref_count o <= 1 ∧ pin_count o = 0)).
Proof.
  intros H Hi Ho. pose proof (pi_pages _ _ _ H _ _ Ho) as Hp.
  pose proof (po_ref _ _ _ _ Hp). pose proof (po_pin _ _ _ _ Hp).
  apply runs_bind, runs_modify, runs_bind, runs_gets. rewrite (lookup_updated _ _ _ _ Ho). cbv zeta.
  rewrite (po_parent _ _ _ _ Hp : to_has_parent (set_ref_count _ o) = true).
  assert (∀ x, (x = Some i ∨ 0 < ref_count o - 1 ∨ 0 < pin_count o) →
          paged_inv 0 x (update_obj i (λ o, set_ref_count (if ref_count o - 1 <? 0 then 0 else ref_count o - 1) o) w)) as Hu.
  { intros x Hx. apply update_obj_inv; [done..|]. intros o' Ho' Hp'. simplify_eq. split.
    - destruct Hp'. constructor; cbn; try done. unfold ref_count in *. cbn.
      destruct (Z.ltb_spec (md_ref_count (to_meta o) - 1) 0); lia.
    - intros Hne _. destruct Hx as [->|[?|?]]; [done|left|by right]. unfold ref_count in *. cbn.
      destruct (Z.ltb_spec (md_ref_count (to_meta o) - 1) 0); lia. }
  apply runs_when; intros E; unfold ref_count, pin_count in *; cbn in E.
  - eapply runs_mono; [apply (free_returns (Some i)); [apply Hu; by left|by apply in_use_update|by intros j [= ->]]|].
    intros [] w' [H' Hf]. split; [done|]. destruct (Z.ltb_spec (md_ref_count (to_meta o) - 1) 0); split; lia || done.
  - split; [apply Hu; right; destruct (Z.ltb_spec (md_ref_count (to_meta o) - 1) 0); lia|].
    split; [by intros Hf; destruct Hi|]. destruct (Z.ltb_spec (md_ref_count (to_meta o) - 1) 0); lia.
Qed.

Lemma pin_returns w i now : paged_ok w → in_use w i → returns_ok (pin i now) w.
Proof.
  intros H Hi. destruct (in_use_lookup _ _ Hi) as [o Ho]. pose proof (pi_pages _ _ _ H _ _ Ho) as Hp.
  pose proof (po_pin _ _ _ _ Hp). apply runs_bind, runs_gets. rewrite Ho.
  assert (∀ w1, pg_objs w1 = pg_objs w → in_use w1 i → paged_ok w1 →
          returns_ok (_ ← modify (update_obj i (set_pin_count (pin_count o + 1)));
                      modify (λ w, with_pins (dset (pg_pins w) i now) w)) w1) as Hrest.
  { intros w1 E Hi1 H1. apply runs_bind, runs_modify, runs_modify, with_pins_inv, update_obj_inv; [done..|].
    intros o' Ho' Hp'. rewrite E in Ho'. simplify_eq. split; [|intros _ _; right; cbn; unfold pin_count in *; cbn; lia].
    destruct Hp'. constructor; cbn; try done. unfold pin_count in *. cbn. lia. }
  apply runs_bind, runs_when; intros _; [apply runs_modify|]; apply Hrest; try done. by apply pinned_count_inv.
Qed.

Lemma set_pin_count_inv x w i o n :
  paged_ok w → in_use w i → pg_objs w !! i = Some o → 0 <= n → (x = Some i ∨ 0 < n ∨ 0 < ref_count o) →
  paged_inv 0 x (update_obj i (set_pin_count n) w).
Proof.
  intros H Hi Ho Hn Hx. apply update_obj_inv; [done..|]. intros o' Ho' Hp. simplify_eq. split.
  - by destruct Hp; constructor.
  - intros Hne _. destruct Hx as [->|[?|?]]; [done|by right|by left].
Qed.

Lemma unpin_returns w i o :
  paged_ok w → in_use w i → pg_objs w !! i = Some o →
  runs (unpin i) w (λ _ w', paged_ok w' ∧ (i ∈ free_pages w' ↔ pin_count o <= 1 ∧ ref_count o = 0)).
Proof.
  intros H Hi Ho. pose proof (pi_pages _ _ _ H _ _ Ho) as Hp.
  pose proof (po_pin _ _ _ _ Hp) as Hpin. pose proof (po_ref _ _ _ _ Hp) as Href. pose proof (proj2 Hi) as Hnf.
  pose proof (pi_referenced _ _ _ H _ _ Ho (proj2 Hi) ltac:(done)) as Hr.
  apply runs_bind, runs_gets. rewrite Ho. cbv zeta. rewrite (po_parent _ _ _ _ Hp), andb_true_r.
  apply runs_bind, runs_modify. destruct (decide (pin_count o = 0)) as [E0|E0].
  - destruct Hr as [Hr|Hr]; [|lia]. rewrite E0. cbn [Z.eqb Z.leb Z.ltb Z.sub Z.opp Z.add Z.compare when].
    rewrite (proj2 (Z.leb_gt (ref_count o) 0)) by done. apply runs_bind, runs_ret, runs_bind, runs_ret, runs_modify.
    rewrite update_obj_compose. split; [apply (set_pin_count_inv None w i o 0); [done..|]; by right; right|].
    split; [done|lia].
  - assert (in_use (update_obj i (set_pin_count (pin_count o - 1)) w) i) as Hi1 by (by apply in_use_update).
    rewrite (proj2 (Z.ltb_ge (pin_count o - 1) 0)) by lia. cbn [when].
    assert (∀ w1, in_use w1 i →
      (∀ x, (x = Some i ∨ 0 < pin_count o - 1 ∨ 0 < ref_count o) → paged_inv 0 x w1) →
      runs (_ ← when ((pin_count o - 1 <=? 0) && (ref_count o <=? 0)) (free i); mret tt) w1
        (λ _ w', paged_ok w' ∧ (i ∈ free_pages w' ↔ pin_count o <= 1 ∧ ref_count o = 0))) as Hrest.
    { intros w1 Hi2 H1. apply runs_bind, runs_when; intros E.
      - eapply runs_mono; [apply (free_returns (Some i)); [apply H1; by left|done|by intros j [= ->]]|].
        intros [] w2 [H2 Hf]. apply runs_ret. split; [done|]. split; [lia|done].
      - apply runs_ret. split; [apply H1; lia|]. split; [by intros Hf; destruct Hi2|lia]. }
    apply runs_bind, runs_when; intros _.
    + apply runs_bind, runs_modify, runs_modify, Hrest.
      * unfold on_unpin. by destruct (dmem _ _).
      * intros x Hx. apply on_unpin_inv, pinned_count_inv, (set_pin_count_inv x w i o); [done..|lia|done].
    + apply Hrest; [done|]. intros x Hx. apply (set_pin_count_inv x w i o); [done..|lia|done].
Qed.

Lemma del_returns w i : paged_ok w → in_use w i → returns_ok (del i) w.
Proof.
  intros H Hi. destruct (in_use_lookup _ _ Hi) as [o Ho]. pose proof (pi_pages _ _ _ H _ _ Ho) as Hp.
  apply runs_bind, runs_gets, runs_when; intros _; [|done]. apply runs_bind, runs_modify, runs_bind, runs_gets.
  cbn [finalize pg_objs]. rewrite Ho, (po_parent _ _ _ _ Hp), (po_valid _ _ _ _ Hp). cbn [when andb].
  eapply runs_mono; [by apply (free_returns None); [apply finalize_inv|..]|]. by intros [] w' [].
Qed.

Lemma set_used_size_returns w i n :
  paged_ok w → in_use w i → 0 <= n <= pa_align_bytes (pg_alloc w) → returns_ok (set_used_size i n) w.
Proof.
  intros H Hi Hn. destruct (in_use_lookup _ _ Hi) as [o Ho]. pose proof (pi_pages _ _ _ H _ _ Ho) as Hp.
  apply runs_bind, runs_gets. rewrite Ho. unfold TensorAllocator.set_used_size. rewrite (po_phy _ _ _ _ Hp).
  rewrite (proj2 (orb_false_iff _ _)) by lia. apply runs_bind, runs_lift, runs_modify, update_obj_inv; [done..|].
  intros o' Ho' Hp'. simplify_eq. split; [|done]. destruct Hp'. constructor; cbn; try done. by intros m [= <-].
Qed.

Lemma allocate_returns w shapes dtypes fmt :
  paged_ok w → well_formed_request shapes dtypes →
  runs (allocate itemsize shapes dtypes fmt) w (λ _, paged_ok).
Proof.
  intros H (s & d & ss & ds & Hr). unfold runs. rewrite (allocate_run _ _ _ _ _ _ _ _ _ Hr).
  destruct (free_pages w) as [|i rest] eqn:E; eexists _, _; (split; [done|]); [done|].
  apply (account_inv (0 + 1) None 1). apply take_page_inv; [done|]. by rewrite E.
Qed.

Lemma batched_allocate_returns w shapes dtypes k fmt :
  paged_ok w → well_formed_request shapes dtypes → 0 <= k →
  runs (batched_allocate itemsize shapes dtypes k fmt) w (λ _, paged_ok).
Proof.
  intros H (s & d & ss & ds & Hr) Hk. pose proof (request_ok_length _ _ _ _ _ _ Hr) as Hl.
  destruct (decide (k <= Z.of_nat (length (free_pages w)))) as [Hle|Hgt].
  - eexists _, _. split; [by apply (batched_allocate_run itemsize s d ss ds)|].
    destruct (take_pages_inv itemsize s d ss ds fmt Hl 0 (Z.to_nat k) w H) as (H' & _); [lia|].
    apply (account_inv _ _ k) in H'. by replace (0 + Z.of_nat (Z.to_nat k) - k) with 0 in H' by lia.
  - destruct (batched_allocate_full itemsize s d ss ds fmt Hl shapes dtypes k w Hr H ltac:(lia)) as [E H'].
    by eexists _, _.
Qed.

Lemma batched_free_returns w ids :
  paged_ok w → NoDup ids → Forall (in_use w) ids → returns_ok (batched_free ids true) w.
Proof.
  intros H Hnd Hu. exists tt. eexists. split; [by eapply batched_free_run|]. cbv beta iota.
  destruct (put_all_run 0 ids w H Hnd Hu) as [_ H']. apply (account_inv _ _ (- Z.of_nat (length ids))) in H'.
  by replace (0 - Z.of_nat (length ids) - - Z.of_nat (length ids)) with 0 in H' by lia.
Qed.

Lemma exec_paged_returns w c : paged_ok w → allowed w c → returns_ok (exec_paged c) w.
Proof.
  intros H. destruct c; cbn [allowed exec_paged].
  - intros Hr. apply runs_bind. eapply runs_mono; [by apply allocate_returns|]. intros. by apply runs_ret.
  - intros [Hr Hk]. apply runs_bind. eapply runs_mono; [by apply batched_allocate_returns|]. intros. by apply runs_ret.
  - intros Hi. eapply runs_mono; [by apply (free_returns None)|]. by intros [] w' [].
  - intros []. by apply batched_free_returns.
  - by apply ref_count_up_returns.
  - intros Hi. destruct (in_use_lookup _ _ Hi) as [o Ho].
    eapply runs_mono; [by apply (ref_count_down_returns _ _ o)|]. by intros [] w' [].
  - by apply pin_returns.
  - intros Hi. destruct (in_use_lookup _ _ Hi) as [o Ho].
    eapply runs_mono; [by apply (unpin_returns _ _ o)|]. by intros [] w' [].
  - by apply del_returns.
  - intros []. by apply set_used_size_returns.
Qed.

(** ** The initial state *)

Lemma new_page_spec shapes dtypes fmt n i :
  length shapes = length dtypes → n = sum_group_sizes itemsize shapes dtypes → 0 < n →
  ∃ o, new_page itemsize shapes dtypes fmt n i (page n i) = Ok o ∧ page_ok n shapes i o ∧ to_raw_data o = page n i.
Proof.
  intros Hl Hn Hpos. destruct shapes as [|s shapes], dtypes as [|d dtypes]; try done; [cbn in Hn; lia|].
  destruct (group_sums_last itemsize 0 (s :: shapes) (d :: dtypes) Hl) as (sums & Hsums & Hlast).
  eexists. split_and!.
  - unfold new_page. cbn [new_metadata rbind]. unfold tmo_init. cbn -[group_sums]. by rewrite Hsums.
  - constructor; cbn -[List.last]; try done; [lia|]. by rewrite Hlast, Hn.
  - done.
Qed.

Lemma new_pages_spec shapes dtypes fmt n k i :
  length shapes = length dtypes → n = sum_group_sizes itemsize shapes dtypes → 0 < n →
  ∃ os, new_pages itemsize shapes dtypes fmt n i (page n <$> seq i k) = Ok os ∧ length os = k
        ∧ ∀ j o, os !! j = Some o → page_ok n shapes (i + j) o ∧ to_raw_data o = page n (i + j).
Proof.
  intros Hl Hn Hpos. induction k as [|k IH] in i |- *; [by exists []|].
  destruct (new_page_spec shapes dtypes fmt n i Hl Hn Hpos) as (o & Eo & Ho).
  destruct (IH (S i)) as (os & Eos & Hlen & Hos). exists (o :: os). split_and!.
  - cbn [seq fmap list_fmap new_pages]. rewrite Eo. cbn [rbind]. by rewrite Eos.
  - cbn. by rewrite Hlen.
  - intros [|j] o' Hj; cbn in Hj.
    + injection Hj as <-. by rewrite Nat.add_0_r.
    + apply Hos in Hj. by rewrite Nat.add_succ_r.
Qed.

Lemma paged_init_ok size shapes dtypes fmt w :
  0 < size → paged_init itemsize size shapes dtypes fmt = Ok w → 0 < pa_align_bytes (pg_alloc w) → paged_ok w.
Proof.
  intros Hsize. unfold paged_init, get_size_bytes. destruct (Nat.eqb_spec (length shapes) (length dtypes)) as [Hl|]; [|done].
  cbn [rbind]. set (n := sum_group_sizes itemsize shapes dtypes). destruct (Z.eqb_spec n 0); [done|]. cbn [negb].
  destruct (Z.eqb_spec (size mod n) 0) as [Hm|]; [|done]. cbv zeta. unfold split_pages. fold (page n).
  destruct (decide (0 < n)) as [Hn|Hn].
  - destruct (new_pages_spec shapes dtypes fmt n (Z.to_nat (size / n)) 0 Hl eq_refl Hn) as (os & Eos & Hlen & Hos).
    unfold page in *. rewrite Eos. cbn [rbind]. intros [= <-] _.
    assert (Z.of_nat (length os) * n = size) as Hs.
    { rewrite Hlen, Z2Nat.id by (apply Z.div_pos; lia). pose proof (Z.div_mod size n ltac:(lia)). lia. }
    constructor; unfold free_pages; cbn; rewrite ?length_fmap, ?length_seq; try done; try lia.
    + by rewrite Hlen.
    + intros i o Ho. by apply Hos in Ho as [? _].
    + apply NoDup_seq.
    + intros i Hi%elem_of_seq. lia.
    + intros i o _ Ho. by apply Hos in Ho as [_ ?].
    + intros i o Ho Hi. apply lookup_lt_Some in Ho. rewrite elem_of_seq in Hi. lia.
  - destruct (new_pages _ _ _ _ _ _ _); [|done]. cbn [rbind]. intros [= <-]. done.
Qed.

Lemma paged_steps_ok w w' : paged_ok w → rtc paged_step w w' → paged_ok w'.
Proof.
  intros H Hs. induction Hs as [|w w1 w2 (c & Ha & E) _ IH]; [done|]. apply IH.
  destruct (exec_paged_returns _ _ H Ha) as ([] & w1' & E' & H1). congruence.
Qed.

(** ** The theorems *)





(** [n] calls of [allocate] that all succeed, or [None] *)
Fixpoint allocate_each (n : nat) (shapes : Size + list Size) (dtypes : dtype + list dtype) (fmt : MemoryFormat)
  : py_state (PagedWorld dtype) (option (list nat)) :=
  match n with
  | O => mret (Some [])
  | S n =>
      b ← allocate itemsize shapes dtypes fmt;
      match b with
      | None => mret None
      | Some i => rest ← allocate_each n shapes dtypes fmt; mret (cons i <$> rest)
      end
  end.

Lemma take_pages_account s d ss ds fmt n k w :
  take_pages itemsize s d ss ds fmt n (account k w) = account k (take_pages itemsize s d ss ds fmt n w).
Proof. induction n as [|n IH] in w |- *; [done|]. cbn [take_pages]. by rewrite account_take_page, IH. Qed.

Lemma allocate_each_run shapes dtypes fmt s d ss ds n w x :
  request_ok shapes dtypes s d ss ds → paged_inv x None w → (n <= length (free_pages w))%nat →
  allocate_each n shapes dtypes fmt w
  = (Ok (Some (take n (free_pages w))), account (Z.of_nat n) (take_pages itemsize s d ss ds fmt n w)).
Proof.
  intros Hr. induction n as [|n IH] in w, x |- *; intros H Hn.
  - cbn [allocate_each take take_pages]. by rewrite (account_0 x None).
  - destruct (free_pages w) as [|i rest] eqn:E; cbn in Hn; [lia|]. cbn [allocate_each take_pages].
    rewrite (bind_ok _ _ w (account 1 (take_page itemsize s d (s :: ss) (d :: ds) fmt w)) (Some i))
      by (by rewrite (allocate_run _ _ _ _ _ _ _ _ _ Hr), E).
    assert (free_pages (account 1 (take_page itemsize s d (s :: ss) (d :: ds) fmt w)) = rest) as Hf.
    { change (free_pages (account 1 ?v)) with (free_pages v). by rewrite free_take_page, E. }
    erewrite bind_ok; [|apply (IH _ (x + 1 - 1)); [apply account_inv, take_page_inv; [done|by rewrite E]|rewrite Hf; lia]].
    rewrite Hf, take_pages_account, account_account. unfold mret, py_ret. cbn. do 3 f_equal. lia.
Qed.

Lemma free_each_run ids w p :
  paged_inv p None w → NoDup ids → Forall (in_use w) ids →
  for_each free ids w = (Ok tt, account (- Z.of_nat (length ids)) (foldl put_back w ids)).
Proof.
  induction ids as [|i ids IH] in w, p |- *; intros H Hnd Hu; [cbn; by rewrite (account_0 p None)|].
  apply NoDup_cons in Hnd as [Hi Hnd]. apply Forall_cons in Hu as [Hui Hu]. cbn [for_each foldl].
  rewrite (bind_ok _ _ _ (account (-1) (put_back w i)) tt) by (eapply free_run; [done|apply Hui]).
  rewrite (IH _ (p - 1 - -1)); [|by apply account_inv; eapply put_back_inv|done|].
  - f_equal. assert (∀ v, foldl put_back (account (-1) v) ids = account (-1) (foldl put_back v ids)) as ->.
    { clear. induction ids as [|j ids IH]; intros v; [done|]. cbn [foldl]. by rewrite account_put_back, IH. }
    rewrite account_account. f_equal. cbn [length]. lia.
  - rewrite Forall_forall in Hu |- *. intros j Hj. change (in_use (put_back w i) j).
    apply in_use_put_back. split; [by apply Hu|set_solver].
Qed.

(** C24: The batched calls are the single ones: when enough pages are free,
    [batched_allocate] of [k] objects returns the same objects and leaves the same
    state as [k] calls of [allocate], and [batched_free] of objects in use leaves
    the same state as freeing them one by one, the counters and gauges included. *)
Theorem paged_batches_equal_singles w shapes dtypes k fmt ids :
  paged_ok w → well_formed_request shapes dtypes → 0 <= k <= Z.of_nat (length (free_pages w)) →
  NoDup ids → Forall (in_use w) ids →
  batched_allocate itemsize shapes dtypes k fmt w = allocate_each (Z.to_nat k) shapes dtypes fmt w
  ∧ batched_free ids true w = for_each free ids w.
Proof.
  intros H (s & d & ss & ds & Hr) Hk Hnd Hu. split.
  - rewrite (batched_allocate_run itemsize s d ss ds fmt (request_ok_length _ _ _ _ _ _ Hr)) by done.
    rewrite (allocate_each_run _ _ _ s d ss ds _ _ 0) by (done || lia). do 2 f_equal. lia.
  - by rewrite (batched_free_run 0), (free_each_run _ _ 0).
Qed.

(** ** A batch that does not fit *)

Definition same_but_pages (ids : list nat) w w' : Prop :=
  pg_stats w' = pg_stats w ∧ pg_pins w' = pg_pins w ∧ pg_finalized w' = pg_finalized w
  ∧ (∀ i, i ∉ ids → pg_objs w' !! i = pg_objs w !! i).

Lemma put_all_same ids w :
  same_but_pages ids w (foldl put_back w ids)
  ∧ pg_alloc (foldl put_back w ids) = pg_alloc (with_free_blocks (free_pages w ++ ids) w).
Proof.
  induction ids as [|i ids IH] in w |- *; cbn [foldl].
  - split; [done|]. unfold free_pages. rewrite app_nil_r. by destruct w as [[] ? ? ? ?].
  - destruct (IH (put_back w i)) as [(H1 & H2 & H3 & H4) H5]. split.
    + split_and!; [done..|]. intros j Hj. rewrite H4 by set_solver. cbn. rewrite list_lookup_alter_ne; [done|set_solver].
    + rewrite H5. unfold free_pages at 1. cbn. by rewrite <- app_assoc.
Qed.

Lemma take_all_same s d ss ds fmt ids w : free_pages w = ids →
  same_but_pages ids w (take_pages itemsize s d ss ds fmt (length ids) w)
  ∧ pg_alloc (take_pages itemsize s d ss ds fmt (length ids) w) = pg_alloc (with_free_blocks [] w).
Proof.
  induction ids as [|i ids IH] in w |- *; intros E; cbn [length take_pages].
  - split; [done|]. unfold free_pages in E. destruct w as [[] ? ? ? ?]. cbn in *. by subst.
  - destruct (IH (take_page itemsize s d (s :: ss) (d :: ds) fmt w)) as [(H1 & H2 & H3 & H4) H5].
    { by rewrite free_take_page, E. }
    unfold take_page in *. rewrite E in *. split; [|by rewrite H5]. split_and!; [done..|].
    intros j Hj. rewrite H4 by set_solver. cbn. rewrite list_lookup_alter_ne; [done|set_solver].
Qed.

(** C25: A batch larger than the number of free pages returns [None] and has no
    lasting effect: the allocator with its free list (in the same order) and its
    counters, the gauges, the pins and every object in use are as before, and the
    pages it had taken and cut to the requested size are whole again. *)
Theorem paged_batch_all_or_nothing w shapes dtypes k fmt :
  paged_ok w → well_formed_request shapes dtypes → Z.of_nat (length (free_pages w)) < k →
  ∃ w', batched_allocate itemsize shapes dtypes k fmt w = (Ok None, w')
        ∧ pg_alloc w' = pg_alloc w ∧ same_but_pages (free_pages w) w w'
        ∧ (∀ i o, i ∈ free_pages w → pg_objs w' !! i = Some o → to_raw_data o = page (pa_align_bytes (pg_alloc w)) i).
Proof.
  intros H (s & d & ss & ds & Hr) Hk.
  destruct (batched_allocate_full itemsize s d ss ds fmt (request_ok_length _ _ _ _ _ _ Hr) shapes dtypes k w Hr H Hk)
    as [E H']. set (w1 := take_pages itemsize s d ss ds fmt (length (free_pages w)) w) in *.
  destruct (take_all_same s d ss ds fmt (free_pages w) w eq_refl) as [(A1 & A2 & A3 & A4) A5]. fold w1 in A1, A2, A3, A4, A5.
  destruct (put_all_same (free_pages w) w1) as [(B1 & B2 & B3 & B4) B5].
  assert (pg_alloc (foldl put_back w1 (free_pages w)) = pg_alloc w) as Ea.
  { rewrite B5. unfold with_free_blocks, free_pages. cbn. rewrite A5. by destruct w as [[] ? ? ? ?]. }
  eexists. split_and!; [done|done|split_and!; try congruence|].
  - intros i Hi. by rewrite B4, A4.
  - intros i o Hi Ho. rewrite <- Ea. apply (pi_free_whole _ _ _ H' i o); [|done]. unfold free_pages at 1. by rewrite Ea.
Qed.

(** ** A page released twice *)

Definition dec_ref o : TensorMemoryObj dtype :=
  set_ref_count (if ref_count o - 1 <? 0 then 0 else ref_count o - 1) o.

Lemma dec_ref_page_ok n ss i o : page_ok n ss i o → page_ok n ss i (dec_ref o).
Proof.
  intros []. constructor; try done. unfold dec_ref, ref_count in *. cbn.
  destruct (Z.ltb_spec (md_ref_count (to_meta o) - 1) 0); lia.
Qed.

(** The call frees the page whenever the count is zero afterwards, also when it was zero before. *)
Lemma ref_count_down_frees p x w i o :
  paged_inv p x (update_obj i dec_ref w) → pg_objs w !! i = Some o → ref_count o <= 1 → 0 <= ref_count o →
  pin_count o = 0 →
  ref_count_down i w = (Ok tt, account (-1) (put_back (update_obj i dec_ref w) i)).
Proof.
  intros H Ho H1 H0 Hpin. unfold ref_count_down. rewrite (bind_ok _ _ w (update_obj i dec_ref w) tt) by done.
  rewrite (bind_ok _ _ _ (update_obj i dec_ref w) (Some (dec_ref o))) by (unfold gets; by rewrite (lookup_updated _ _ _ _ Ho)).
  assert (ref_count (dec_ref o) = 0) as ->.
  { unfold dec_ref, ref_count in *. cbn. destruct (Z.ltb_spec (md_ref_count (to_meta o) - 1) 0); lia. }
  rewrite (po_parent _ _ _ _ (pi_pages _ _ _ H i _ (lookup_updated _ _ _ _ Ho))).
  change (pin_count (dec_ref o)) with (pin_count o). rewrite Hpin. cbn [Z.eqb andb when].
  eapply free_run; [done|]. cbn. rewrite length_alter. by eapply lookup_lt_Some.
Qed.

Lemma update_free_inv p w i :
  paged_inv p None w → i ∈ free_pages w → paged_inv p None (update_obj i dec_ref w).
Proof.
  intros [] Hi. constructor; unfold free_pages in *; cbn in *; rewrite ?length_alter; try done.
  - intros j o Ho. apply (lookup_update i) in Ho as [(-> & o0 & Ho & ->)|[_ Ho]]; [|by apply pi_pages].
    by apply dec_ref_page_ok, pi_pages.
  - intros j o Hj Ho. apply (lookup_update i) in Ho as [(-> & o0 & Ho & ->)|[_ Ho]]; [|eauto].
    by apply (pi_free_whole _ o0).
  - intros j o Ho Hj Hx. apply (lookup_update i) in Ho as [(-> & _)|[_ Ho]]; [done|eauto].
Qed.

(** Both releases of a page in use put it back. *)
Lemma release_twice w i o :
  paged_ok w → i ∉ free_pages w → pg_objs w !! i = Some o → ref_count o = 1 → pin_count o = 0 →
  ∃ w', (_ ← ref_count_down i; ref_count_down i) w = (Ok tt, w') ∧ free_pages w' = free_pages w ++ [i; i] ∧ memcheck (pg_alloc w') = true.
Proof.
  intros H Hf Ho Hr1 Hp0.
  assert (in_use w i) as Hi by (split; [by eapply lookup_lt_Some|done]).
  assert (paged_inv 0 (Some i) (update_obj i dec_ref w)) as H1.
  { apply update_obj_inv; [done..|]. intros o' _ Hp. split; [by apply dec_ref_page_ok|done]. }
  rewrite (bind_ok _ _ _ _ _ (ref_count_down_frees _ _ _ _ _ H1 Ho ltac:(lia) ltac:(lia) Hp0)).
  set (w2 := account (-1) (put_back (update_obj i dec_ref w) i)).
  assert (paged_ok w2) as H2.
  { apply (account_inv (0 - 1) None (-1)). eapply put_back_inv; [done|by apply in_use_update|by intros j [= ->]]. }
  assert (free_pages w2 = free_pages w ++ [i]) as Hf2 by done.
  assert (pg_objs w2 !! i = Some (set_raw_data (page (pa_align_bytes (pg_alloc w)) i) (dec_ref o))) as Ho2.
  { change (pg_objs w2) with
      (pg_objs (update_obj i (set_raw_data (page (pa_align_bytes (pg_alloc w)) i)) (update_obj i dec_ref w))).
    by apply lookup_updated, lookup_updated. }
  assert (paged_inv 0 None (update_obj i dec_ref w2)) as H3 by (apply update_free_inv; [done|rewrite Hf2; set_solver]).
  assert (ref_count (set_raw_data (page (pa_align_bytes (pg_alloc w)) i) (dec_ref o)) = 0) as Hz
    by (unfold dec_ref; by rewrite Hr1).
  exists (account (-1) (put_back (update_obj i dec_ref w2) i)). split_and!.
  - eapply ref_count_down_frees; [done..|lia|lia|done].
  - change (free_pages w2 ++ [i] = free_pages w ++ [i; i]). by rewrite Hf2, <-app_assoc.
  - apply Z.eqb_eq. change (Z.of_nat (length (free_pages w2 ++ [i])) * pa_align_bytes (pg_alloc w2)
            + (pa_total_allocated_size (pg_alloc w2) + -1 * pa_align_bytes (pg_alloc w2)) = pa_buffer_size (pg_alloc w2)).
    rewrite (pi_total _ _ _ H2), (pi_size _ _ _ H2), length_app. pose proof (pi_active _ _ _ H2). cbn [length]. nia.
Qed.

Lemma memcheck_take s d shapes dtypes fmt w :
  free_pages w ≠ [] → memcheck (pg_alloc (account 1 (take_page itemsize s d shapes dtypes fmt w))) = memcheck (pg_alloc w).
Proof.
  intros Hne. unfold take_page, memcheck, free_pages in *. destruct (pa_free_blocks (pg_alloc w)) as [|i rest]; [done|].
  cbn [account update_stats with_stats with_counters update_obj with_free_blocks pg_alloc pa_free_blocks pa_align_bytes
       pa_total_allocated_size pa_buffer_size length]. f_equal. lia.
Qed.

(** Calls of [allocate] hand out the free list in its order, whatever is on it. *)
Lemma allocate_each_free shapes dtypes fmt n w : well_formed_request shapes dtypes → (n <= length (free_pages w))%nat →
  ∃ w', allocate_each n shapes dtypes fmt w = (Ok (Some (take n (free_pages w))), w') ∧ memcheck (pg_alloc w') = memcheck (pg_alloc w).
Proof.
  intros (s & d & ss & ds & Hr). induction n as [|n IH] in w |- *; intros Hn; [by exists w|].
  destruct (free_pages w) as [|i rest] eqn:E; cbn in Hn; [lia|]. set (w1 := account 1 (take_page itemsize s d (s :: ss) (d :: ds) fmt w)).
  assert (free_pages w1 = rest) as Hf by (change (free_pages w1) with (free_pages (take_page itemsize s d (s :: ss) (d :: ds) fmt w)); by rewrite free_take_page, E).
  destruct (IH w1) as (w' & E' & Hm); [rewrite Hf; lia|]. exists w'. cbn [allocate_each].
  rewrite (bind_ok _ _ w w1 (Some i)) by (by rewrite (allocate_run _ _ _ _ _ _ _ _ _ Hr), E).
  rewrite (bind_ok _ _ _ _ _ E'), Hf. split; [done|]. rewrite Hm. apply memcheck_take. by rewrite E.
Qed.

(** C26: Nothing protects a page against a second release. The holder of a page in use,
    with one reference and no pin, calls [ref_count_down] twice: the page is put at the
    end of the free list twice, so that further calls of [allocate] return the pages that
    were free before and then this page twice, to two owners that share its bytes, and
    [memcheck] accepts before and after. *)
Theorem paged_double_release w i o shapes dtypes fmt :
  paged_ok w → i ∉ free_pages w → pg_objs w !! i = Some o → ref_count o = 1 → pin_count o = 0 →
  well_formed_request shapes dtypes →
  ∃ w1 w2, (_ ← ref_count_down i; ref_count_down i) w = (Ok tt, w1)
    ∧ free_pages w1 = free_pages w ++ [i; i] ∧ memcheck (pg_alloc w1) = true
    ∧ allocate_each (length (free_pages w) + 2) shapes dtypes fmt w1 = (Ok (Some (free_pages w ++ [i; i])), w2)
    ∧ memcheck (pg_alloc w2) = true.
Proof.
  intros H Hf Ho Hr1 Hp0 Hr. destruct (release_twice w i o H Hf Ho Hr1 Hp0) as (w1 & E & Hf1 & Hm).
  destruct (allocate_each_free shapes dtypes fmt (length (free_pages w) + 2) w1 Hr) as (w2 & E2 & Hm2); [rewrite Hf1, length_app; done|].
  exists w1, w2. split_and!; [done..| |congruence]. rewrite E2, Hf1, take_ge; [done|]. by rewrite length_app.
Qed.
End theorems.

(** ** Two pages of 128 bytes *)

Definition page_shape : Size := [2; 1; 4; 8].
Definition short_shape : Size := [2; 1; 2; 8].

Definition two_pages : PagedWorld unit := Eval vm_compute in
  match paged_init bf16_size 256 [page_shape] [tt] KV_2LTD with
  | Ok w => w
  | Raise _ => mkPagedWorld (mkPaged 0 [] [] UNDEFINED 0 [] [] 0 0) [] [] (mkStatsMonitor 0 0 0 0) []
  end.

Lemma two_pages_init : paged_init bf16_size 256 [page_shape] [tt] KV_2LTD = Ok two_pages.
Proof. vm_compute. reflexivity. Qed.

Lemma two_pages_ok : paged_ok two_pages.
Proof. by apply (paged_init_ok bf16_size 256 [page_shape] [tt] KV_2LTD); [|apply two_pages_init|]. Qed.

(** Both pages taken by one batch. *)
Definition full_pool : PagedWorld unit := Eval vm_compute in
  snd (batched_allocate bf16_size (inl page_shape) (inl tt) 2 KV_2LTD two_pages).

Lemma whole_page_request : well_formed_request (inl page_shape) (inl tt).
Proof. by exists page_shape, tt, [], []. Defined.

Lemma full_pool_step : paged_step bf16_size two_pages full_pool.
Proof.
  exists (PBatchedAllocate (inl page_shape) (inl tt) 2 KV_2LTD).
  split; [split; [exact whole_page_request|lia]|vm_compute; reflexivity].
Qed.

Lemma full_pool_ok : paged_ok full_pool.
Proof. exact (paged_steps_ok _ _ _ two_pages_ok (rtc_once _ _ full_pool_step)). Qed.


(** One page taken, one free. *)
Definition half_pool : PagedWorld unit := Eval vm_compute in
  snd (allocate bf16_size (inl page_shape) (inl tt) KV_2LTD two_pages).

Lemma half_pool_ok : paged_ok half_pool.
Proof.
  apply (paged_steps_ok bf16_size two_pages); [exact two_pages_ok|]. apply rtc_once.
  exists (PAllocate (inl page_shape) (inl tt) KV_2LTD). split; [exact whole_page_request|vm_compute; reflexivity].
Qed.

Lemma paged_batches_equal_singles_witness :
  batched_allocate bf16_size (inl page_shape) (inl tt) 1 KV_2LTD half_pool
  = allocate_each bf16_size 1 (inl page_shape) (inl tt) KV_2LTD half_pool
  ∧ batched_free [0]%nat true half_pool = for_each free [0]%nat half_pool.
Proof.
  apply (paged_batches_equal_singles bf16_size half_pool (inl page_shape) (inl tt) 1 KV_2LTD [0]%nat);
    [exact half_pool_ok|exact whole_page_request|vm_compute; split; discriminate|apply NoDup_singleton|].
  constructor; [|constructor]. split; [vm_compute; lia|]. apply (bool_decide_unpack _). vm_compute. exact I.
Defined.

Lemma paged_batch_all_or_nothing_witness :
  ∃ w', batched_allocate bf16_size (inl page_shape) (inl tt) 3 KV_2LTD two_pages = (Ok None, w')
        ∧ pg_alloc w' = pg_alloc two_pages.
Proof.
  destruct (paged_batch_all_or_nothing bf16_size two_pages (inl page_shape) (inl tt) 3 KV_2LTD two_pages_ok
    whole_page_request ltac:(vm_compute; reflexivity)) as (w' & E & Ha & _).
  exists w'. split; [exact E|exact Ha].
Defined.

(** Page 0 is released twice while page 1 is free: after page 1, it is handed out twice. *)
Lemma paged_double_release_witness :
  ∃ w1 w2, (_ ← ref_count_down 0; ref_count_down 0) half_pool = (Ok tt, w1)
  ∧ allocate_each bf16_size 3 (inl page_shape) (inl tt) KV_2LTD w1 = (Ok (Some [1; 0; 0]%nat), w2)
  ∧ memcheck (pg_alloc w2) = true.
Proof.
  destruct (paged_double_release bf16_size half_pool 0 _ (inl page_shape) (inl tt) KV_2LTD half_pool_ok
    ltac:(apply (bool_decide_unpack _); vm_compute; exact I) ltac:(reflexivity) ltac:(reflexivity) ltac:(reflexivity) whole_page_request)
    as (w1 & w2 & E1 & _ & _ & E2 & Hm).
  exists w1, w2. split; [exact E1|]. split; [exact E2|exact Hm].
Defined.

(** An object allocated for half a page views half a page, but reports the size of
    a whole one and [byte_array] exposes the other half too. *)
Example short_page_reports_whole :
  match snd (allocate bf16_size (inl short_shape) (inl tt) KV_2LTD two_pages) with
  | w => (λ o, (to_raw_data o, get_size o, byte_array o)) <$> pg_objs w !! 0%nat
  end = Some ((0, 64), 128, (0, 128)).
Proof. vm_compute. reflexivity. Qed.

(** A page dropped without a release comes back once; dropped again it is lost:
    the pool of two pages then serves one. *)
Example second_collection_leaks :
  let drop := (a ← allocate bf16_size (inl page_shape) (inl tt) KV_2LTD;
               match a with Some i => del i | None => mret tt end) in
  free_pages (snd ((_ ← drop; drop) two_pages)) = [0; 1]%nat
  ∧ free_pages (snd ((_ ← drop; _ ← drop; drop) two_pages)) = [1]%nat.
Proof. split; vm_compute; reflexivity. Qed.

(** [batched_free] skips an invalidated object and counts it all the same. *)
Example batch_counts_invalid :
  let w := snd (batched_free [0]%nat true (update_obj 0 invalidate full_pool)) in
  free_pages w = [] ∧ pa_num_active_allocations (pg_alloc w) = 1 ∧ memcheck (pg_alloc w) = false.
Proof. vm_compute. split_and!; reflexivity. Qed.

(** A request with no shapes raises after the page was taken off the free list. *)
Example empty_request_loses_page :
  let r := allocate bf16_size (inr []) (inr []) KV_2LTD two_pages in
  fst r = Raise IndexError ∧ free_pages (snd r) = [1]%nat ∧ memcheck (pg_alloc (snd r)) = false.
Proof. vm_compute. split_and!; reflexivity. Qed.
